(* ===== verification/_CoqProject ===== *)
-Q . S2P
Prelude.v
CString.v
Doubles.v
Stdio.v
PageQueue.v
PageTables.v
Residency.v
Paging.v
ReplaceFIFO.v
ReplaceSC.v
ReplaceLRU.v
ReplaceOptimal.v
Replacement.v
Simulator.v
CacheTheory.v
Driver.v
Revert.v
NewPs.v
KHeaders.v
Uclamp.v
Priority.v
Setscheduler.v
SchedFork.v
TaskStates.v
Schedule.v
AddressSpace.v
SpaceInv.v
SpaceKeeps.v
SpaceTheorems.v
MmOwner.v
WakeQ.v
Exit.v
SchedClient.v
SchedMain.v
SchedReport.v
TaskGroups.v
Bandwidth.v
GroupClamps.v
GroupWeights.v
GroupMoves.v
Cgroups.v
GroupTheorems.v
Affinity.v
AffineMove.v
AffineRuns.v
AffineReqs.v
AffineSafe.v
AffineKeeps.v
AffineInvariant.v
AffineLive.v
SetAffinity.v
AffineTheorems.v
CoreSched.v
CoreSelect.v
CoreSteal.v
CoreHotplug.v
RemoteTick.v
Hotplug.v
PushOff.v
CoreSwitch.v
CoreTheorems.v
Wakeup.v
WakeInv.v
WakeKeeps.v
WakeCount.v
WakeLoop.v
WakeLive.v
WakeSpecial.v
WakeTheorems.v
ProcTree.v
Family.v
Reparent.v
Release.v
Wait.v
Waiting.v
Reap.v
ExitCalls.v
Household.v
Mourning.v
WaitTheorems.v
