(* ===== verification/Prelude.v ===== *)
(** * OS2023: four operating-system assignments, verified

    The repository holds four pieces of work in C, most of them independent of
    each other:

    - assignment 1, [src/1/newps.c]: a program that lists the processes of the
      caller's terminal from /proc;
    - assignment 2, [src/2]: three system calls on strings and numbers
      ([sys_string_revert.c], [sys_plus_revert.c], [sys_minus_revert.c]) and the
      program that calls them ([assignment2.c]);
    - assignment 3, [src/3]: a program that runs 21 children under a chosen
      scheduling policy ([assignment3.c]), and the files of a Linux 5.15 kernel that
      was changed to run every child as a FIFO task, to measure CPU bursts and to
      log their total when the children of [testp] exit
      ([20193018_PLUS-1/core.c], [sched.h], [exit.c]), with the test program itself
      ([assignment3p.c]);
    - assignment 4, [src/4/as4.c]: a simulator of four page-replacement algorithms.

    The parts interact as follows. The client of assignment 2 calls the three
    system calls ([Revert]). The children of assignment 3 ask the kernel for
    a policy and a nice value: [SchedClient.child_setup] calls the definitions of
    [Setscheduler] and [Priority], and its theorem is about what those grant, to the
    FIFO children of this kernel too. The lines added to the kernel meet in three places: fork ([SchedFork]) makes a task
    a FIFO task, the context switch ([Schedule]) stores its burst, and its exit
    ([Exit]) adds the burst to a total; [SchedClient] runs the test program against
    that. Limits and clamps of the groups of tasks are carried through the tree
    of groups by one walk and one pass ([TaskGroups], [Bandwidth], [GroupClamps]);
    what a group's clamps become is what [Uclamp] caps its tasks' clamps with. The
    CPUs that a task may use ([Affinity]) are what core scheduling asks before a sibling
    takes a task ([CoreSteal]), and from which a wake-up chooses ([Wakeup] calls
    [Affinity.select_task_rq] and [Affinity.set_task_cpu]). A task that exits ([ExitCalls], then [ProcTree.exit_notify]) becomes
    a zombie that its parent collects ([Wait]), which ends in [release_task]
    ([ProcTree]).

    ** Conventions

    [Prelude] holds what the files share. A computation of C is a term of
    [res A]: a value, undefined behaviour, a call of [exit], or a loop that ran out
    of turns. [Undef] is an access outside an array, a read of memory that was
    never written, a division by zero, a null pointer or a task that does not
    exist. State is passed explicitly. Integers are [Z]; [wrap], [u32] and [u64]
    write out the width where the code can leave it, and where the text says
    nothing a theorem's hypotheses or an invariant keep the values inside. An array of memory from
    [malloc] is a list of options.

    A loop with a counter recurses on the number of turns left ([for_each],
    [for_ctl]). Every other loop takes fuel ([loop]), and what it returns
    without fuel is [Diverge], so a theorem that states a result states that the fuel
    was enough. The fuel is computed from the data:
    - [PageQueue]: the ring's capacity plus one, since the index comes round;
    - [ReplaceSC.sc_fuel]: a pass over the page table for each frame and one more,
      since each pass but the last clears a reference bit;
    - [Simulator]: 5002 turns for at most 5000 addresses and the end of the file;
    - [Revert]: a turn for each character of the input and one more, since a turn
      takes at least one character;
    - [ProcTree.release_task]: two turns, since a leader is its own leader;
    - [ProcTree.find_new_reaper]: a turn for each task and one more; the proof that
      this is enough is a measure ([tree_ok] ranks a child above its parent);
    - [TaskGroups.walk_tg_tree_from]: two turns for each group, since each is entered
      once and left once;
    - [GroupClamps.cpu_util_update_eff]: a turn for each group and one to find the end;
    - [Setscheduler.__sched_setscheduler] retries when the policy changed before it
      took the lock. It takes the list of what it found each time, and gives
      [Diverge] when the list ends first; [setscheduler_correct] says that it does so exactly
      when no turn of the list was decisive. So does [SetAffinity.setaffinity_again]
      with the cpusets that changed meanwhile;
    - [Affinity.select_fallback_loop]: three turns, since each widens the mask once;
    - [CoreSched.select_class]: a turn for each sibling and one more, since each start
      but the first finds a better task; where two deadline tasks tie there is no
      bound, which [core_pick_tie_loops] shows;
    - [CoreSteal.steal_loop]: a turn for each task of the tree.
    - [Wakeup.ttwu_alone], a call of [try_to_wake_up] that nobody disturbs: ten turns,
      since a call has at most nine steps. Where it waits on [on_cpu] it is a step that
      is not possible yet, so the machine needs no fuel.
    - [Wait.do_wait] sleeps and looks again: it takes the list of states in which it
      is woken, and [Asleep] is its outcome when the list ends first.

    Code outside src/ is a parameter: a class with the operations, a second one
    with the laws the code relies on, and an instance of both on which
    the witnesses compute.
    - [KHeaders.Headers], [HeadersOk]: constants and macros of the kernel's headers;
      instance [linux].
    - [ProcTree.Relatives], [RelativesOk]: predicates of sched/signal.h, and
      kernel/signal.c, kernel/ptrace.c and kernel/pid_namespace.c; instance
      [Household.kernel].
    - [Wait.Pids], [Waiting.PidsOk]: kernel/pid.c and what the wait calls ask about
      signals; instance [Household.pids].
    - [Setscheduler.Deadline], [UserAbi]: the deadline class and the sizes of the
      user structure.
    - [Bandwidth.CfsConsts], [TaskGroups.FairGroup], [GroupWeights.GroupShares] with
      their laws: kernel/sched/sched.h and fair.c;
      [GroupClamps.CssWalk], [CssWalkOk]: the order of control groups in
      kernel/cgroup; instances in [Bandwidth] and [Cgroups].
    - [Affinity.Cpumasks], [CpumasksOk]: include/linux/cpumask.h; instance [four], of
      four CPUs. The masks of kernel/cpu.c are the record [hotplug], fixed while a
      request is under way ([AffineSafe.Steady]; instance [AffineTheorems.hp4]).
    - [CoreSelect.Picks]: what the scheduling classes pick; [Ordered], [Layered]: that
      [prio_less], with [cfs_prio_less] of fair.c, ranks tasks of different cookies.
      Instances [CoreTheorems.pair_pick] and [pair_rank].
    - [Wakeup]: arguments of its steps, the CPU that shares its cache with another
      (kernel/sched/topology.c), [TTWU_QUEUE] of features.h, [signal_pending_state] of
      sched/signal.h, and the mask that a cpuset falls back to.
    - [Hotplug]: arguments of its callbacks, the span of the root domain
      (kernel/sched/topology.c), which CPUs keep their tick, what [dl_cpu_busy] (deadline.c)
      answers and [calc_load_fold_active] (loadavg.c). Calls of cpusets, domains and classes
      are a list. [PushOff]: [select_fallback_rq] of [Affinity], as a function of the task.
    - [AddressSpace.Mms] with its laws: the counters of an address space (linux/sched/mm.h,
      fork.c), [mmgrab] to [mmput]; instance [pair_mms].
    - arguments: [malloc_ok], [localtime], [getpriority], the copies between user and kernel memory
      ([Revert.Copies] is their law), the kernel's [sscanf] for the one format used
      ([Revert.Scans] is its law, [Revert.scan_ref] an instance), [rand], [fork]'s results, the fair class's
      order and its [reweight_task], the choice of the next task to run.

    ** Assignment 4

    - [PageQueue]: the ring buffer of frames and its five operations, against a list
      ([QRep]). [queue_refines]: any sequence of calls answers like a bounded list;
      [remove_deletes]: removal of one element from three or more; [remove_small]:
      what goes wrong below three.
    - [PageTables], [Residency]: the three arrays, the scans and stores that the
      algorithms share, and the invariant [Rep], by which page table and physical
      memory describe one list of resident pages.
    - [Paging]: the policies as functions on lists of pages, with no frames and no
      tables. [CacheTheory]: what is true of them: optimality of the furthest next
      use against every demand-paging cache (class [Demand]), and the inclusion
      property of LRU.
    - [ReplaceFIFO], [ReplaceSC], [ReplaceLRU], [ReplaceOptimal]: [replacePageFIFO]
      and the others as written, each with its simulation of the policy.
      [Replacement] states the four refinements from every state that the program
      can reach.
    - [Simulator]: the dialogue, the addresses from a file or generated, and the loop
      of [main] over a replacement function that meets the class [Policy].
      [Driver]: theorems about whole runs. [main_correct] (the rows
      are the translation and the marks of the abstract cache),
      [main_optimal], [main_lru_memory], [main_rejects], [main_short_input].

    ** Assignments 1 and 2

    - [CString]: [strlen], [strcpy], [strncmp] and numbers in decimal. [Stdio], for
      assignment 3: formatted output into arrays, [scanf], [strtod], the buffer of
      standard output.
    - [Doubles]: binary64 as the Standard Library specifies it, with a bound of the
      rounding error of a sum, a quotient and a conversion, from the shifts that the
      specification rounds with ([shifted]).
    - [Revert]: the calls, the client's checks and its loop. [answer] is the reply of the
      code in closed form, [readme] the reply that the README asks for, over the
      grammar [natural] and [formula]. [client_refines]: every line gets the reply of
      the README, except the lines that are [overread], such as 1+2+3, which get the
      result of what the scanner found in them; [client_terminates]:
      every input ends; [revert_unterminated]: the missing check of a NUL.
    - [NewPs]: the scan of /proc. [newps_rows]: the rows are the processes of the
      caller's terminal, in order, with their CPU time.

    ** The modified kernel

    - [Uclamp] (core.c, [uclamp_*]): clamps of tasks and the buckets of a run queue.
      [uclamp_tracks]: after any history the queue's clamp is at least that of each runnable
      task and in the bucket of one of them, where it may be higher than all of their
      clamps; [uclamp_safe]: no index and no count leaves its range.
    - [Priority] (core.c, [__normal_prio] to [set_user_nice], [rt_mutex_setprio],
      [nice], [prio_less], the weight tables): a change of priority as the list of
      class operations around it. The theorems say which priority results and that
      a queued task leaves its queue before the change and enters one after it.
      [wf] is the invariant of the unmodified kernel's tasks. [coherent] is what holds of every
      task of this one, whose children are born with a priority that is not the
      one of their policy: it leaves that relation out.
    - [Setscheduler] (core.c, [__sched_setscheduler] to [sched_rr_get_interval]):
      checks, the critical section with its retry, callers, and the system
      calls. [setscheduler_correct]: granted exactly as asked, or
      nothing changes, on any coherent task, whatever other CPUs do to it before the lock
      is taken; [setscheduler_unprivileged]: the limits of a caller without
      privileges, as its checks read them; [idle_prio_unchecked], [idle_prio_mismatch]: the
      exception, the priority of a [SCHED_IDLE] request; [setscheduler_roundtrip]: reading gives what was set.
    - [SchedFork] (core.c, [__sched_fork], [sched_fork], [sched_post_fork]): what
      a child of any coherent parent is after the added lines: coherent again and never [wf].
    - [Schedule] (core.c, [__schedule], [do_task_dead], [deactivate_task]): one CPU;
      a switched-out task keeps its local variable [next]. [schedule_safe],
      [schedule_bursts], [burst_is_cycle], [schedule_released].
    - [AddressSpace] (core.c, [context_switch], [finish_task_switch], [idle_task_exit]; exit.c,
      [exit_mm] from its [mmgrab] on, [put_task_struct_rcu_user]): which address space each CPU
      has loaded and who holds references, while any number of CPUs switch, fork, execute and
      end tasks. [SpaceInv]: the invariant [AInv], which says that each count is a sum over
      its holders ([msum]); [SpaceKeeps]: the steps keep it; [SpaceTheorems]:
      [spaces_safe]. [MmOwner] (exit.c, [mm_update_next_owner]): [next_owner]. Forking, executing and a CPU coming up are steps of the environment.
    - [TaskGroups] (core.c, [walk_tg_tree_from], [sched_create_group] to
      [sched_release_group]): groups by number, each with parent and children. The
      predicate [grows] says that a tree ([gtree]) is the one these lists describe,
      [rooted] that it is the tree of all groups that are online. The walk with its
      two labels is a loop over positions, [visit] the recursive traversal that
      it is shown to be; [graft] and [prune] are what showing and releasing a
      group do to the tree.
    - [Bandwidth] (core.c, [to_ratio], [tg_set_cfs_bandwidth] to [__cfs_schedulable],
      [cpu_max_write]): CPU limits. [fits] is the abstract condition, that no group may
      use more than a group above it; [visit_checked] relates it to the visitor,
      which passes limits down in [hierarchical_quota]. On the default hierarchy the
      visitor refuses nothing and stores every group as unlimited
      ([default_schedulable]); the theorem about a change of limits states both.
    - [GroupClamps] (core.c, [cpu_util_update_eff], [capacity_from_percent],
      [cpu_uclamp_write], [cpu_cgroup_css_online]): clamps of groups. [effective] gives
      them in closed form, as minima on the way to the root; [subtree_pass] shows
      that the pass that skips unchanged subtrees restores it.
    - [GroupWeights] (core.c, [cpu_shares_write_u64], [cpu_weight_write_u64],
      [cpu_weight_nice_write_s64] and their readers): three views of one share.
    - [GroupMoves] (core.c, [sched_cgroup_fork], [sched_move_task],
      [cpu_cgroup_attach]): a task changes its group while it is in no queue.
    - [Cgroups]: the instances of the parameters and a small tree of groups.
      [GroupTheorems]: the theorems about groups.
    - [Exit] (exit.c, [do_exit]): the added totals and the order of the
      teardown; the callees of [do_exit] are events of a trace. [exit_totals],
      [do_exit_order].
    - [SchedClient] (assignment3.c, assignment3p.c): the matrix work, the menu, a
      child's requests, the sequential program. [perform_work_product],
      [child_granted], [parent_counts], [testp_run].
    - [SchedMain] (assignment3.c, [format_timeval], [main]): the times as text, a child
      from its first clock reading to its message, the dialogue and the whole program,
      with the buffer of standard output that a fork copies ([Stdio]) and sums and
      quotients of type double ([Doubles]). The children write their messages and their
      lines in any order. [SchedReport]: [main_reports], [elapsed_read_back],
      [menu_reads]. The matrices are never assigned: [unassigned] children make a
      run undefined, and the report is stated for children that find numbers there ([numbered]).
    - [ProcTree] (exit.c, [__unhash_process] to [release_task],
      [will_become_orphaned_pgrp] to [kill_orphaned_pgrp], [find_alive_thread] to
      [exit_notify]): tasks by pid with parent, children, threads and trace, groups
      by the pid of their leader. [Family] has the well-formedness [tree_ok] (lists
      of children are inverse to parents, threads to groups, the parents lead to
      the first process) and the search for an orphan's parent, [Reparent] the move
      of the children, [Release] the release of tasks and all of [exit_notify].
    - [Wait] (exit.c, [eligible_pid] to [thread_group_exited]): the wait calls.
      [Waiting]: what a look at the children finds; [Reap]: what collecting a zombie
      does.
    - [ExitCalls] (exit.c, [exit], [do_group_exit], [make_task_dead],
      [complete_and_exit]): which code a task leaves behind.
    - [Affinity] (core.c, [migrate_disable] to [__migrate_task],
      [set_cpus_allowed_common] to [do_set_cpus_allowed], [set_task_cpu],
      [select_fallback_rq], [select_task_rq]): which CPUs a task may use.
      [AffineMove] (core.c, [affine_move_task], [__set_cpus_allowed_ptr_locked],
      [migration_cpu_stop], [push_cpu_stop], [migrate_enable]): the protocol by which
      callers have a task moved, each function up to the point where it drops its
      locks, on one state [msys]; what is under way elsewhere - stoppers,
      completions, pushes - is its list [m_todo]. A stopper has two parts: the flush of the
      wake-ups sent to its CPU, before any lock, and what it does under the locks; between
      them anything may happen elsewhere. [AffineRuns]: the steps in any order.
      [AffineReqs], [AffineSafe], [AffineKeeps], [AffineInvariant]: the invariant [Inv],
      its clauses about requests, about the task and about what is under way, and
      that every step keeps it. [AffineLive]: what is under way can be completed.
    - [SetAffinity] (core.c, [__sched_setaffinity] to [sched_getaffinity],
      [dup_user_cpus_ptr] to [release_user_cpus_ptr], [restrict_cpus_allowed_ptr] to
      [relax_compatible_cpus_allowed_ptr], [task_can_attach], [migrate_task_to]): the
      system calls and the other callers. Its last part: masks as bytes.
      [AffineTheorems]: [requests_safe], [no_lost_wakeup], [calls_can_return],
      [mask_enforced], and [mask_not_enforced] and [late_wakeup_escapes], which are what goes
      wrong without its two conditions, [sched_setaffinity_correct], [affinity_bytes], [force_relax].
    - [CoreSched] (core.c, [rb_sched_core_less] to [sched_core_next],
      [put_prev_task_balance] to [pick_next_task]): run queues by CPU, of which one for
      each core, its leader, holds what siblings share; its sequence numbers wrap at 32
      bits. The selection is a loop over
      classes and siblings on the record [sel]. [CoreSelect]: what it keeps ([Good]), that
      it ends ([room] shrinks with each new start) and whom it passes over ([Best]).
      [CoreTheorems]: [core_pick_matches], an invariant ([Matched]) of all ways of picking,
      [core_pick_returns], [core_wide_correct], [core_pick_tie_loops].
    - [CoreSteal] (core.c, [sched_core_enqueue], [try_steal_cookie] to
      [queue_core_balance]): the tree against a set ([Holds]) and the walk over the tasks
      of a cookie; a stolen task is one of [Affinity], whose mask is asked.
    - [CoreHotplug] (core.c, [sched_core_cpu_starting] to [sched_core_cpu_dying]): the
      leader while CPUs come and go. [CoreSwitch] (core.c, [__sched_core_flip] to
      [sched_core_put]): users, the work item and the switch as a machine with
      interleaved steps ([SwInv]); every run settles.
    - [RemoteTick] (core.c, [sched_tick_remote] to [sched_tick_stop]): the state machine
      of a CPU's remote tick and the instances of its work; [tick_diagram].
      [Hotplug] (core.c, [balance_push_set], [set_rq_online] to [sched_cpu_dying]): what a CPU
      does as it starts, becomes active, stops being active and dies. A [motion] composes
      these as the hotplug machine calls them, with a refusal and with a rollback; [moves] is a
      sequence of them on the CPUs of one core, which calls [CoreHotplug] and [RemoteTick].
      [hotplug_tracked]: the state follows which CPUs are up, but for what a refusal leaves
      behind, and warns exactly of the CPUs that die with more than the stopper on their queue
      (how many tasks are left is part of the motion); [suspend_resume]. [PushOff] (core.c, [__balance_push_cpu_stop] to
      [balance_hotplug_wait]): the tasks of the CPU as a machine with interleaved steps
      ([PInv]); [push_off_ends].
    - [TaskStates] (sched.h): the states of a task as sets of bits, which [Schedule] and
      [Wakeup] share.
    - [Wakeup] (core.c, [ttwu_do_wakeup] to [try_to_wake_up], [wake_up_new_task],
      [try_invoke_on_locked_down_task]; [__schedule] where it blocks; sched.h,
      [set_current_state], [set_special_state]): wake-ups of one task by any number of
      callers, on CPUs that step in any order. A step is one access to what CPUs share;
      between two of them a caller is at a [ttwu_pc] of its own, the task at a [wprog].
      The accesses of one CPU take effect in the order of its program, which is what the
      barriers that the code explains are for. [wstep] is the step relation, as a
      function of a label. [WakeInv]: the invariant [WInv]; [WakeKeeps]: every step keeps
      it; [WakeCount]: the counts of blocked tasks; [WakeLoop]: a wait loop whose
      condition was set has a caller under way or is awake; [WakeLive]: from every state
      the callers can return; [WakeSpecial]: what a task keeps that set a special
      state. [WakeTheorems]: [wake_safe], [wait_loop_woken], [wakes_settle],
      [special_state_kept], [wake_counts]; [try_to_wake_up_correct], one call on its
      own; [normal_state_overtaken], a run in which a task is woken from a state that no
      caller asked for.
    - [WakeQ] (core.c, [wake_q_add] to [wake_up_q]): the lists in memory, with the [chain] of tasks
      that each context has built ([QInv]); [wake_q_safe].
    - [Household]: the instances of the parameters and a small family, for the
      witnesses. [Mourning]: the theorems about the end of a task.
      [WaitTheorems]: the theorems about waiting, among them [exit_wait_roundtrip],
      from [exit] in the child to the status in the parent.

    Families in which a task is traced are in the model; the theorems of [Mourning]
    that follow a release, and those of [WaitTheorems], are for families
    without tracers, as kernel/ptrace.c is a parameter.

    ** Not modelled

    - core.c: [scheduler_tick], load balancing and the set-up of domains,
      preemption models, and which task a woken task preempts. It is unchanged Linux code with calls into the scheduling classes,
      whose files are not in the repository. Of the control group files those for
      real-time limits and idle groups, which only call rt.c and fair.c, and the
      statistics; the debugging output.
    - exit.c: the part of [exit_mm] for core dumps, [rcuwait_wake_up], [check_stack_usage], [abort] and the sysctl and
      sysfs entries: memory management, RCU and architecture code; the compatibility
      forms of the wait calls, which only convert structures.
    - sched.h: declarations. A record of the model has the fields its component
      uses; states, flags and constants are where they are used.
    - src/2/syscalls.h and syscall_64.tbl: prototypes and a table of numbers.
    - the layout of printed text of assignments 1 and 4 (widths, colours), most locking
      and reference counts, and the reordering of memory accesses. Where a lock is
      dropped and taken again the model has a list of what may have happened (see
      [Setscheduler], [Wait]) or separate steps (see [AffineRuns], [CoreSwitch], [Wakeup]). *)

From stdpp Require Export base numbers list option sets gmap sorting.
From Stdlib Require Export ZArith Lia.

(** * Results *)

(** The outcome of a piece of C code: a value, undefined behaviour (an access
    outside an array, a read of an indeterminate value, a value function that
    falls off its end), a call of [exit], or a loop that did not finish within
    the iterations it was given. *)
Inductive res (A : Type) : Type :=
  | Ok (a : A)
  | Undef
  | Exit (code : Z)
  | Diverge.
Arguments Ok {A} _.
Arguments Undef {A}.
Arguments Exit {A} _.
Arguments Diverge {A}.

#[export] Instance res_ret : MRet res := fun A a => Ok a.
#[export] Instance res_bind : MBind res := fun A B f m =>
  match m with
  | Ok a => f a
  | Undef => Undef
  | Exit c => Exit c
  | Diverge => Diverge
  end.

Lemma bind_ok {A B} (f : A -> res B) a : (Ok a ≫= f) = f a.
Proof. reflexivity. Qed.

Lemma bind_ok_inv {A B} (m : res A) (f : A -> res B) b :
  (m ≫= f) = Ok b -> exists a, m = Ok a /\ f a = Ok b.
Proof. destruct m; cbn; try discriminate. eauto. Qed.

(** A proposition that a computation returns a value satisfying [P]: the
    total-correctness judgement used by all the loop rules. *)
Definition returns {A} (m : res A) (P : A -> Prop) : Prop :=
  exists a, m = Ok a /\ P a.

Lemma returns_ok {A} (a : A) (P : A -> Prop) : P a -> returns (Ok a) P.
Proof. intros H. exists a. auto. Qed.

Lemma returns_bind {A B} (m : res A) (f : A -> res B) (P : A -> Prop) (Q : B -> Prop) :
  returns m P -> (forall a, P a -> returns (f a) Q) -> returns (m ≫= f) Q.
Proof. intros (a & -> & Ha) Hf. cbn. auto. Qed.

Lemma returns_mono {A} (m : res A) (P Q : A -> Prop) :
  returns m P -> (forall a, P a -> Q a) -> returns m Q.
Proof. intros (a & -> & Ha) H. exists a. auto. Qed.

(** * Arrays *)

(** [a[i]] and [a[i] = x] on an array of C, undefined outside the array. *)
Definition aget {A} (l : list A) (i : Z) : res A :=
  if (i <? 0)%Z then Undef
  else match l !! Z.to_nat i with
       | Some x => Ok x
       | None => Undef
       end.

Definition aset {A} (l : list A) (i : Z) (x : A) : res (list A) :=
  if ((0 <=? i) && (i <? Z.of_nat (length l)))%Z
  then Ok (<[Z.to_nat i := x]> l)
  else Undef.

Lemma aget_ok {A} (l : list A) (i : nat) x :
  l !! i = Some x -> aget l (Z.of_nat i) = Ok x.
Proof.
  intros H. unfold aget.
  destruct (Z.ltb_spec (Z.of_nat i) 0); [lia|]. rewrite Nat2Z.id, H. reflexivity.
Qed.

Lemma aget_ok_Z {A} (l : list A) (i : Z) x :
  (0 <= i)%Z -> l !! Z.to_nat i = Some x -> aget l i = Ok x.
Proof. intros Hi H. rewrite <- (Z2Nat.id i Hi). apply aget_ok, H. Qed.

Lemma aget_inv {A} (l : list A) (i : Z) x :
  aget l i = Ok x -> (0 <= i)%Z /\ l !! Z.to_nat i = Some x.
Proof.
  unfold aget. destruct (Z.ltb_spec i 0); [discriminate|].
  destruct (l !! Z.to_nat i) eqn:E; [|discriminate]. intros [= ->]. auto.
Qed.

Lemma aset_ok {A} (l : list A) (i : nat) x :
  i < length l -> aset l (Z.of_nat i) x = Ok (<[i := x]> l).
Proof.
  intros H. unfold aset.
  destruct (Z.leb_spec 0 (Z.of_nat i)); [|lia].
  destruct (Z.ltb_spec (Z.of_nat i) (Z.of_nat (length l))); [|lia].
  cbn. rewrite Nat2Z.id. reflexivity.
Qed.

Lemma aset_ok_Z {A} (l : list A) (i : Z) x :
  (0 <= i < Z.of_nat (length l))%Z -> aset l i x = Ok (<[Z.to_nat i := x]> l).
Proof.
  intros H. rewrite <- (Z2Nat.id i) at 1 by lia. apply aset_ok. lia.
Qed.

(** An assignment to part of an element: [a[i].field = ...]. *)
Definition aupd {A} (f : A -> A) (l : list A) (i : Z) : res (list A) :=
  x ← aget l i; aset l i (f x).

Lemma aupd_ok {A} (f : A -> A) (l : list A) (i : Z) x :
  (0 <= i)%Z -> l !! Z.to_nat i = Some x ->
  aupd f l i = Ok (<[Z.to_nat i := f x]> l).
Proof.
  intros Hi H. unfold aupd. rewrite (aget_ok_Z _ _ _ Hi H). cbn.
  apply aset_ok_Z. apply lookup_lt_Some in H. lia.
Qed.

(** * Division of C *)

(** [/] and [%] truncate towards zero and are undefined on a zero divisor. *)
Definition cdiv (a b : Z) : res Z := if (b =? 0)%Z then Undef else Ok (Z.quot a b).
Definition cmod (a b : Z) : res Z := if (b =? 0)%Z then Undef else Ok (Z.rem a b).

Lemma cmod_nz a b : (b <> 0)%Z -> cmod a b = Ok (Z.rem a b).
Proof. intros H. unfold cmod. rewrite (proj2 (Z.eqb_neq _ _) H). reflexivity. Qed.

Lemma cdiv_nz a b : (b <> 0)%Z -> cdiv a b = Ok (Z.quot a b).
Proof. intros H. unfold cdiv. rewrite (proj2 (Z.eqb_neq _ _) H). reflexivity. Qed.

Lemma cmod_ok a b : (0 <= a)%Z -> (0 < b)%Z -> cmod a b = Ok (a mod b)%Z.
Proof.
  intros Ha Hb. unfold cmod. destruct (Z.eqb_spec b 0); [lia|].
  rewrite Z.rem_mod_nonneg by lia. reflexivity.
Qed.

Lemma cdiv_ok a b : (0 <= a)%Z -> (0 < b)%Z -> cdiv a b = Ok (a / b)%Z.
Proof.
  intros Ha Hb. unfold cdiv. destruct (Z.eqb_spec b 0); [lia|].
  rewrite Z.quot_div_nonneg by lia. reflexivity.
Qed.

(** * Machine integers *)

Open Scope Z_scope.

(** Two's-complement wrap-around of a signed [w]-bit number. *)
Definition wrap (w : Z) (x : Z) : Z := (x + 2 ^ (w - 1)) mod 2 ^ w - 2 ^ (w - 1).

(** Conversion to an unsigned type. *)
Definition u32 (x : Z) : Z := x mod 2 ^ 32.
Definition u64 (x : Z) : Z := x mod 2 ^ 64.

Lemma u64_id x : 0 <= x < 2 ^ 64 -> u64 x = x.
Proof. apply Z.mod_small. Qed.

Lemma wrap_id w x : 0 < w -> - 2 ^ (w - 1) <= x < 2 ^ (w - 1) -> wrap w x = x.
Proof.
  intros Hw Hx. unfold wrap. assert (2 ^ w = 2 * 2 ^ (w - 1)) as E.
  { rewrite <- Z.pow_succ_r by lia. f_equal. lia. }
  rewrite Z.mod_small by lia. lia.
Qed.

Lemma wrap_range w x : 0 < w -> - 2 ^ (w - 1) <= wrap w x < 2 ^ (w - 1).
Proof.
  intros Hw. unfold wrap. assert (2 ^ w = 2 * 2 ^ (w - 1)) as E.
  { rewrite <- Z.pow_succ_r by lia. f_equal. lia. }
  pose proof (Z.mod_pos_bound (x + 2 ^ (w - 1)) (2 ^ w) ltac:(lia)). lia.
Qed.

Close Scope Z_scope.

(** * Loops *)

(** What the body of a loop does next: go on, [break], or [return] from the
    function the loop is in. *)
Inductive ctl (S R : Type) : Type :=
  | Continue (s : S)
  | Break (s : S)
  | Return (r : R).
Arguments Continue {S R} _.
Arguments Break {S R} _.
Arguments Return {S R} _.

Section Loops.
  Context {S R : Type}.

(** [for (i = lo; i < lo + n; i++) body], no exit from the body. *)
Fixpoint for_each (n : nat) (i : Z) (body : Z -> S -> res S) (s : S) : res S :=
  match n with
  | O => Ok s
  | Datatypes.S n' => s' ← body i s; for_each n' (i + 1)%Z body s'
  end.

(** The same with [break] and [return]: [inl] when control reaches the code
    after the loop, [inr] when the function returned. *)
Fixpoint for_ctl (n : nat) (i : Z) (body : Z -> S -> res (ctl S R)) (s : S) : res (S + R) :=
  match n with
  | O => Ok (inl s)
  | Datatypes.S n' =>
      c ← body i s;
      match c with
      | Continue s' => for_ctl n' (i + 1)%Z body s'
      | Break s' => Ok (inl s')
      | Return r => Ok (inr r)
      end
  end.

(** A loop whose number of iterations is not a bound of its header. *)
Fixpoint loop (fuel : nat) (body : S -> res (ctl S R)) (s : S) : res (S + R) :=
  match fuel with
  | O => Diverge
  | Datatypes.S f =>
      c ← body s;
      match c with
      | Continue s' => loop f body s'
      | Break s' => Ok (inl s')
      | Return r => Ok (inr r)
      end
  end.

Lemma loop_S f body s : loop (Datatypes.S f) body s =
  (c ← body s;
   match c with
   | Continue s' => loop f body s'
   | Break s' => Ok (inl s')
   | Return r => Ok (inr r)
   end).
Proof. reflexivity. Qed.

Lemma for_each_rule (I : Z -> S -> Prop) body n : forall i s,
  I i s ->
  (forall j s0, (i <= j < i + Z.of_nat n)%Z -> I j s0 ->
     returns (body j s0) (I (j + 1)%Z)) ->
  returns (for_each n i body s) (I (i + Z.of_nat n)%Z).
Proof.
  induction n as [|n IH]; intros i s Hi Hb; cbn [for_each].
  - apply returns_ok. replace (i + Z.of_nat 0)%Z with i by lia. exact Hi.
  - eapply returns_bind; [apply Hb; [lia | exact Hi] |].
    intros s' Hs'. replace (i + Z.of_nat (Datatypes.S n))%Z with (i + 1 + Z.of_nat n)%Z by lia.
    apply IH; [exact Hs'|]. intros j s0 Hj. apply Hb. lia.
Qed.

(** What a body has to establish for the loop to satisfy [Q]. *)
Definition ctl_post (I : S -> Prop) (Q : S + R -> Prop) (c : ctl S R) : Prop :=
  match c with
  | Continue s => I s
  | Break s => Q (inl s)
  | Return r => Q (inr r)
  end.

Lemma for_ctl_rule (I : Z -> S -> Prop) (Q : S + R -> Prop) body n : forall i s,
  I i s ->
  (forall j s0, (i <= j < i + Z.of_nat n)%Z -> I j s0 ->
     returns (body j s0) (ctl_post (I (j + 1)%Z) Q)) ->
  (forall s0, I (i + Z.of_nat n)%Z s0 -> Q (inl s0)) ->
  returns (for_ctl n i body s) Q.
Proof.
  induction n as [|n IH]; intros i s Hi Hb Hq; cbn [for_ctl].
  - apply returns_ok, Hq. replace (i + Z.of_nat 0)%Z with i by lia. exact Hi.
  - eapply returns_bind; [apply Hb; [lia | exact Hi] |].
    intros [s'|s'|r] Hc; cbn in Hc; [|apply returns_ok, Hc ..].
    apply IH; [exact Hc | |].
    + intros j s0 Hj. apply Hb. lia.
    + intros s0. replace (i + 1 + Z.of_nat n)%Z with (i + Z.of_nat (Datatypes.S n))%Z by lia.
      apply Hq.
Qed.

(** Total correctness of [loop]: [I k s] says that [s] satisfies the invariant
    with at most [k] further iterations to go. *)
Lemma loop_rule (I : nat -> S -> Prop) (Q : S + R -> Prop) body fuel : forall k s,
  I k s -> k < fuel ->
  (forall k0 s0, I k0 s0 ->
     returns (body s0) (ctl_post (fun s1 => exists k1, k1 < k0 /\ I k1 s1) Q)) ->
  returns (loop fuel body s) Q.
Proof.
  induction fuel as [|f IH]; intros k s Hi Hm Hb; [lia|]. cbn [loop].
  eapply returns_bind; [apply Hb, Hi|].
  intros [s'|s'|r] Hc; cbn in Hc; [|apply returns_ok, Hc ..].
  destruct Hc as (k1 & Hlt & Hi'). eapply IH; eauto. lia.
Qed.
End Loops.

(** * Absence of divergence *)

(** Everything but [loop] runs in a bounded number of steps. *)
Definition total {A} (m : res A) : Prop := m <> Diverge.

Create HintDb total.

Lemma total_ok {A} (a : A) : total (Ok a).
Proof. discriminate. Qed.
Lemma total_undef {A} : total (@Undef A).
Proof. discriminate. Qed.
Lemma total_bind {A B} (m : res A) (f : A -> res B) :
  total m -> (forall a, total (f a)) -> total (m ≫= f).
Proof. unfold total. destruct m; cbn; auto; discriminate. Qed.
Lemma total_aget {A} (l : list A) i : total (aget l i).
Proof. unfold aget. case_match; [discriminate|]. case_match; discriminate. Qed.
Lemma total_aset {A} (l : list A) i x : total (aset l i x).
Proof. unfold aset. case_match; discriminate. Qed.
Lemma total_for_each {S} (body : Z -> S -> res S) n : (forall i s, total (body i s)) ->
  forall i s, total (for_each n i body s).
Proof. intros H. induction n as [|n IH]; intros i s; cbn; [discriminate | apply total_bind; auto]. Qed.
Lemma total_for_ctl {S R} (body : Z -> S -> res (ctl S R)) n : (forall i s, total (body i s)) ->
  forall i s, total (for_ctl n i body s).
Proof.
  intros H. induction n as [|n IH]; intros i s; cbn; [discriminate|].
  apply total_bind; [auto|]. intros []; [apply IH | discriminate | discriminate].
Qed.

#[export] Hint Resolve total_ok total_undef total_aget total_aset : total.

(** Splits a computation into its parts. *)
Ltac total_step :=
  match goal with
  | |- total (mret _) => apply total_ok
  | |- total (_ ≫= _) => apply total_bind; [|intros ?]
  | |- total (for_each _ _ _ _) => apply total_for_each; intros ? ?
  | |- total (for_ctl _ _ _ _) => apply total_for_ctl; intros ? ?
  | |- total (match ?x with _ => _ end) => destruct x
  | |- total (if ?b then _ else _) => destruct b
  | |- total (let _ := _ in _) => cbv zeta
  | |- _ => solve [auto with total]
  end.
Ltac total := repeat total_step.

(** * Loops over an array *)

Lemma list_ext_lookup {A} (l1 l2 : list A) :
  length l1 = length l2 ->
  (forall k x y, l1 !! k = Some x -> l2 !! k = Some y -> x = y) -> l1 = l2.
Proof.
  intros Hlen H. apply list_eq_same_length with (length l2); auto.
  intros i x y _. apply H.
Qed.

(** A loop that replaces every element of an array by its image. *)
Lemma for_each_fmap {A} (f : A -> A) (body : Z -> list A -> res (list A)) (l : list A) :
  (forall j l' e, l !! Z.to_nat j = Some e -> l' !! Z.to_nat j = Some e -> (0 <= j)%Z ->
     body j l' = Ok (<[Z.to_nat j := f e]> l')) ->
  for_each (length l) 0 body l = Ok (f <$> l).
Proof.
  intros Hb.
  destruct (for_each_rule (fun i l' => length l' = length l /\
      forall k x, l !! k = Some x -> l' !! k = Some (if (Z.of_nat k <? i)%Z then f x else x))
    body (length l) 0 l) as (l' & -> & Hlen & Hl').
  - split; [reflexivity|]. intros k x Hk. destruct (Z.ltb_spec (Z.of_nat k) 0); [lia | exact Hk].
  - intros j l0 Hj [Hlen H0].
    destruct (lookup_lt_is_Some_2 l (Z.to_nat j)) as [e He]; [lia|].
    pose proof (H0 _ _ He) as He0. destruct (Z.ltb_spec (Z.of_nat (Z.to_nat j)) j); [lia|].
    rewrite (Hb j l0 e He He0) by lia. apply returns_ok. split; [rewrite length_insert; exact Hlen|].
    intros k x Hk. destruct (decide (k = Z.to_nat j)) as [->|Hne].
    + rewrite list_lookup_insert_eq by (apply lookup_lt_Some in He0; exact He0).
      destruct (Z.ltb_spec (Z.of_nat (Z.to_nat j)) (j + 1)); [congruence | lia].
    + rewrite list_lookup_insert_ne by congruence. rewrite (H0 _ _ Hk).
      destruct (Z.ltb_spec (Z.of_nat k) j), (Z.ltb_spec (Z.of_nat k) (j + 1)); congruence || lia.
  - f_equal. apply list_ext_lookup; [rewrite length_fmap; exact Hlen|].
    intros k x y Hx Hy. rewrite list_lookup_fmap in Hy.
    destruct (l !! k) as [e|] eqn:He; [|discriminate]. cbn in Hy. injection Hy as <-.
    rewrite (Hl' _ _ He) in Hx. apply lookup_lt_Some in He.
    destruct (Z.ltb_spec (Z.of_nat k) (0 + Z.of_nat (length l))); [congruence | lia].
Qed.

Lemma insert_case {A} (l : list A) i x j y : <[i := x]> l !! j = Some y -> j = i /\ y = x \/ j <> i /\ l !! j = Some y.
Proof. intros Hj. apply list_lookup_insert_Some in Hj as [(-> & -> & _)|[Hne Hj]]; auto. Qed.

Lemma delete_insert_same {A} (l : list A) i x : delete i (<[i := x]> l) = delete i l.
Proof. revert i. induction l as [|y l IH]; intros [|i]; cbn; f_equal; auto. Qed.

Lemma insert_Permutation {A} (l k : list A) i x y :
  l !! i = Some y -> l ≡ₚ y :: k -> <[i := x]> l ≡ₚ x :: k.
Proof.
  intros Hi Hk. rewrite (delete_Permutation (<[i := x]> l) i x).
  - rewrite delete_insert_same. constructor. apply (Permutation_cons_inv (a := y)).
    rewrite <- Hk. symmetry. apply delete_Permutation, Hi.
  - apply list_lookup_insert_eq. eapply lookup_lt_Some, Hi.
Qed.

Lemma filter_ne_snoc (q : list Z) p : NoDup q -> p ∈ q ->
  filter (fun x => x <> p) q ++ [p] ≡ₚ q.
Proof.
  intros Hnd Hp. apply NoDup_Permutation; [|exact Hnd|].
  - apply NoDup_app. split; [apply NoDup_filter, Hnd|]. split; [|apply NoDup_singleton].
    intros x Hx Hx'. apply list_elem_of_filter in Hx. apply list_elem_of_singleton in Hx'. tauto.
  - intros x. rewrite elem_of_app, list_elem_of_filter, list_elem_of_singleton.
    destruct (decide (x = p)) as [->|]; tauto.
Qed.

Lemma filter_all {A} (P : A -> Prop) `{!forall x, Decision (P x)} (l : list A) : Forall P l -> filter P l = l.
Proof. induction 1 as [|x l Hx _ IH]; [reflexivity|]. rewrite filter_cons, decide_True by exact Hx. f_equal. exact IH. Qed.

Lemma filter_ne_absent (l : list Z) x : x ∉ l -> filter (fun y => y <> x) l = l.
Proof. intros Hx. apply filter_all, Forall_forall. intros y Hy ->. contradiction. Qed.

Lemma filter_ne_delete (l : list Z) k x : NoDup l -> l !! k = Some x ->
  filter (fun y => y <> x) l = delete k l.
Proof.
  revert k. induction l as [|y l IH]; intros k Hnd Hk; [reflexivity|].
  apply NoDup_cons in Hnd as [Hy Hnd]. rewrite filter_cons. destruct k as [|k].
  - injection Hk as ->. rewrite decide_False by tauto. apply filter_ne_absent, Hy.
  - rewrite decide_True; [cbn; f_equal; apply IH; assumption|].
    intros ->. apply Hy, list_elem_of_lookup. eauto.
Qed.

Lemma StronglySorted_filter {A} (R : A -> A -> Prop) (P : A -> Prop) `{!forall x, Decision (P x)} l :
  StronglySorted R l -> StronglySorted R (filter P l).
Proof.
  induction 1 as [|x l Hl IH Hx]; [constructor|]. rewrite filter_cons. case_decide; [|exact IH].
  constructor; [exact IH|]. apply Forall_forall. intros y Hy.
  apply list_elem_of_filter in Hy as [_ Hy]. eapply Forall_forall in Hx; eauto.
Qed.

(** * The largest of the distances *)

(** The state of a scan that records a distance for each of the first [i]
    indices and keeps the first index of the largest, as
    [if (md < ds[i]) { md = ds[i]; mf = i; }] does from [md = -1], [mf = 0]. *)
Definition argmax_inv (n : nat) (d : nat -> Z) (i : Z) (s : list Z * Z * Z) : Prop :=
  let '(ds, md, mf) := s in
  length ds = n /\ (forall k, (Z.of_nat k < i)%Z -> ds !! k = Some (d k)) /\
  (i = 0%Z /\ md = (-1)%Z /\ mf = 0%Z \/
   exists m, mf = Z.of_nat m /\ md = d m /\ (Z.of_nat m < i)%Z /\
     forall k, (Z.of_nat k < i)%Z -> (d k <= d m)%Z /\ (k < m -> (d k < d m)%Z)).

Lemma argmax_init n d : argmax_inv n d 0 (replicate n 0%Z, (-1)%Z, 0%Z).
Proof. split; [apply length_replicate|]. split; [lia | auto]. Qed.

Lemma argmax_step n d (i : nat) ds md mf : i < n -> (0 <= d i)%Z ->
  argmax_inv n d (Z.of_nat i) (ds, md, mf) ->
  aset ds (Z.of_nat i) (d i) = Ok (<[i := d i]> ds) /\
  argmax_inv n d (Z.of_nat i + 1)
    (if (md <? d i)%Z then (<[i := d i]> ds, d i, Z.of_nat i) else (<[i := d i]> ds, md, mf)).
Proof.
  intros Hi Hd (Hl & Hds & Hm). split; [apply aset_ok; lia|].
  assert (length (<[i := d i]> ds) = n) as Hl' by (rewrite length_insert; exact Hl).
  assert (forall k, (Z.of_nat k < Z.of_nat i + 1)%Z -> <[i := d i]> ds !! k = Some (d k)) as Hds'.
  { intros k Hk. destruct (decide (k = i)) as [->|Hne].
    - apply list_lookup_insert_eq. lia.
    - rewrite list_lookup_insert_ne by congruence. apply Hds. lia. }
  destruct (Z.ltb_spec md (d i)) as [Hlt|Hge]; (split; [exact Hl' | split; [exact Hds' | right]]).
  - exists i. repeat (split; [reflexivity || lia|]). intros k Hk.
    destruct (decide (k = i)) as [->|Hne]; [lia|].
    destruct Hm as [(H0 & _)|(m & _ & -> & _ & Hmax)]; [lia|].
    destruct (Hmax k); lia.
  - destruct Hm as [(_ & -> & _)|(m & -> & -> & Hmi & Hmax)]; [lia|].
    exists m. repeat (split; [reflexivity || lia|]). intros k Hk.
    destruct (decide (k = i)) as [->|Hne]; [lia|]. apply Hmax. lia.
Qed.

Lemma argmax_final n d ds md mf : 0 < n -> argmax_inv n d (Z.of_nat n) (ds, md, mf) ->
  exists m, mf = Z.of_nat m /\ m < n /\ md = d m /\ (forall k, k < n -> (d k <= d m)%Z) /\
    (forall k, k < m -> (d k < d m)%Z) /\ (forall k, k < n -> ds !! k = Some (d k)).
Proof.
  intros Hn (Hl & Hds & [(H0 & _)|(m & -> & -> & Hm & Hmax)]); [lia|].
  exists m. split; [reflexivity|]. split; [lia|]. split; [reflexivity|].
  split; [intros k Hk; apply Hmax; lia|]. split; [intros k Hk; apply Hmax; lia|].
  intros k Hk. apply Hds. lia.
Qed.

(** * Indices of a ring *)

(** [x mod m] when [x] is less than two turns, as a conditional that [lia]
    understands. *)
Lemma mod_turn (x m : Z) :
  (0 <= x < 2 * m)%Z -> (x mod m = if x <? m then x else x - m)%Z.
Proof.
  intros H. destruct (Z.ltb_spec x m).
  - apply Z.mod_small. lia.
  - symmetry. apply (Z.mod_unique _ _ 1); lia.
Qed.

(** Rewrite every [mod] of the goal and the hypotheses by [mod_turn] and split
    the comparisons it introduces. *)
Ltac ring_index :=
  repeat match goal with
  | |- context [ (?x mod ?m)%Z ] => rewrite (mod_turn x m) by lia
  | H : context [ (?x mod ?m)%Z ] |- _ => rewrite (mod_turn x m) in H by lia
  | |- context [ (?a <? ?b)%Z ] => destruct (Z.ltb_spec a b)
  | H : context [ (?a <? ?b)%Z ] |- _ => destruct (Z.ltb_spec a b)
  end.

(** * Sums over the values of a finite map *)

Section MapSums.
Local Open Scope Z_scope.

Definition msum {A} (f : A -> Z) (m : gmap nat A) : Z := map_fold (fun _ v a => f v + a) 0 m.

Section Sums.
  Context {A : Type} (f : A -> Z).

Lemma msum_empty : msum f ∅ = 0.
Proof. apply map_fold_empty. Qed.

Lemma msum_new m k v : m !! k = None -> msum f (<[k := v]> m) = f v + msum f m.
Proof. intros Hk. unfold msum. rewrite map_fold_insert_L; [reflexivity | intros; lia | exact Hk]. Qed.

Lemma msum_delete m k v : m !! k = Some v -> msum f (delete k m) = msum f m - f v.
Proof.
  intros Hk. rewrite <- (insert_delete_id m k v Hk) at 2. rewrite msum_new by apply lookup_delete_eq. lia.
Qed.

Lemma msum_update m k v w : m !! k = Some v -> msum f (<[k := w]> m) = msum f m - f v + f w.
Proof.
  intros Hk. rewrite <- (insert_delete_eq m k w), msum_new by apply lookup_delete_eq. rewrite (msum_delete m k v Hk). lia.
Qed.

Lemma msum_nonneg m : (forall v, 0 <= f v) -> 0 <= msum f m.
Proof. intros Hf. induction m as [|k v m Hk IH] using map_ind; [rewrite msum_empty; lia|]. rewrite msum_new by exact Hk. specialize (Hf v). lia. Qed.

Lemma msum_ge m k v : (forall v, 0 <= f v) -> m !! k = Some v -> f v <= msum f m.
Proof. intros Hf Hk. pose proof (msum_nonneg (delete k m) Hf). rewrite (msum_delete m k v Hk) in *. lia. Qed.

Lemma msum_ge2 m k v k' v' : (forall v, 0 <= f v) -> k <> k' -> m !! k = Some v -> m !! k' = Some v' -> f v + f v' <= msum f m.
Proof.
  intros Hf Hn Hk Hk'. assert (delete k m !! k' = Some v') as Hd by (rewrite lookup_delete_ne; assumption).
  pose proof (msum_ge (delete k m) k' v' Hf Hd). rewrite (msum_delete m k v Hk) in *. lia.
Qed.

Lemma msum_pos m : (forall v, 0 <= f v) -> 0 < msum f m -> exists k v, m !! k = Some v /\ 0 < f v.
Proof.
  intros Hf. induction m as [|k v m Hk IH] using map_ind; [rewrite msum_empty; lia|]. rewrite msum_new by exact Hk. intros Hp.
  destruct (decide (0 < f v)) as [Hv|Hv]; [exists k, v; rewrite lookup_insert_eq; auto|].
  destruct IH as (k' & v' & Hk' & Hv'); [specialize (Hf v); lia|]. exists k', v'. rewrite lookup_insert_ne by congruence. auto.
Qed.

Lemma msum_zero m : (forall k v, m !! k = Some v -> f v = 0) -> msum f m = 0.
Proof.
  induction m as [|k v m Hk IH] using map_ind; intros Hz; [apply msum_empty|]. rewrite msum_new by exact Hk.
  rewrite (Hz k v) by apply lookup_insert_eq. rewrite IH; [reflexivity|]. intros k' v' Hk'. apply (Hz k'). rewrite lookup_insert_ne by congruence. exact Hk'.
Qed.

Lemma msum_le_size m : (forall k v, m !! k = Some v -> f v <= 1) -> msum f m <= Z.of_nat (size m).
Proof.
  induction m as [|k v m Hk IH] using map_ind; intros Hz; [rewrite msum_empty; lia|]. rewrite msum_new, map_size_insert_None by exact Hk.
  pose proof (Hz k v (lookup_insert_eq _ _ _)). rewrite Nat2Z.inj_succ. specialize (IH ltac:(intros k' v' Hk'; apply (Hz k'); rewrite lookup_insert_ne by congruence; exact Hk')). lia.
Qed.
End Sums.

(** Two values change. *)
Lemma msum_update2 {A} (f : A -> Z) m k v w k' v' w' : k <> k' -> m !! k = Some v -> m !! k' = Some v' ->
  msum f (<[k' := w']> (<[k := w]> m)) = msum f m - f v + f w - f v' + f w'.
Proof.
  intros Hn Hk Hk'. rewrite (msum_update f (<[k := w]> m) k' v' w') by (rewrite lookup_insert_ne; assumption). rewrite (msum_update f m k v w Hk). lia.
Qed.

(** What the values of one map hold is held through those of another, one each. *)
Lemma msum_through {A B} (f : A -> Z) (g : B -> Z) (key : B -> nat) (m : gmap nat A) : forall n : gmap nat B,
  (forall v, 0 <= g v) -> (forall k v, n !! k = Some v -> g v <= 1) ->
  (forall t x, m !! t = Some x -> f x <= 1 /\ (0 < f x -> exists k v, n !! k = Some v /\ key v = t /\ g v = 0)) ->
  msum f m + msum g n <= Z.of_nat (size n).
Proof.
  induction m as [|t x m Ht IH] using map_ind; intros n Hg Hn Hm.
  - rewrite msum_empty. pose proof (msum_le_size g n Hn). lia.
  - rewrite msum_new by exact Ht. destruct (Hm t x (lookup_insert_eq _ _ _)) as [Hx Hk]. destruct (decide (0 < f x)) as [Hp|Hp].
    + destruct (Hk Hp) as (k & v & Hkv & Hkey & Hz). assert (msum f m + msum g (delete k n) <= Z.of_nat (size (delete k n))) as H.
      { apply IH; [exact Hg | |].
        - intros k' v'. rewrite lookup_delete_Some. intros [_ Hv']. exact (Hn k' v' Hv').
        - intros u y Hu. assert (t <> u) as Htu by congruence. destruct (Hm u y) as [Hy Hyk]; [rewrite lookup_insert_ne; assumption|].
          split; [exact Hy|]. intros Hpy. destruct (Hyk Hpy) as (k' & v' & Hkv' & Hkey' & Hz'). exists k', v'. rewrite lookup_delete_ne; [auto|].
          intros <-. congruence. }
      rewrite (msum_delete g n k v Hkv) in H. rewrite map_size_delete_Some in H by eauto. assert (size n <> 0%nat) by (intros E; apply map_size_empty_iff in E; subst; discriminate). lia.
    + specialize (IH n Hg Hn). assert (msum f m + msum g n <= Z.of_nat (size n)); [|lia]. apply IH. intros u y Hu. apply Hm. rewrite lookup_insert_ne; congruence.
Qed.
End MapSums.
