(* ===== verification/CString.v ===== *)
(** Character strings of C: a [char] is its code, a string is an array of codes
    read up to its first NUL. The functions of the C library that the programs
    of src/1 and src/2 call, and decimal output of a [long]. *)

From S2P Require Import Prelude.
Local Open Scope Z_scope.

(** [strlen], undefined when the array has no NUL. *)
Fixpoint strlen (b : list Z) : res Z :=
  match b with
  | [] => Undef
  | c :: b => if c =? 0 then Ok 0 else n ← strlen b; mret (n + 1)
  end.

(** The characters before the NUL. *)
Fixpoint cstr (b : list Z) : res (list Z) :=
  match b with
  | [] => Undef
  | c :: b => if c =? 0 then Ok [] else s ← cstr b; mret (c :: s)
  end.

(** [strchr(b, x) != NULL] for a non-NUL [x], and [strcspn] of one character. *)
Definition strchr (b : list Z) (x : Z) : res bool :=
  s ← cstr b; mret (bool_decide (x ∈ s)).

Fixpoint strcspn (b : list Z) (x : Z) : res Z :=
  match b with
  | [] => Undef
  | c :: b => if (c =? 0) || (c =? x) then Ok 0 else n ← strcspn b x; mret (n + 1)
  end.

(** An array that holds the string [s], followed by anything. *)
Definition text (s : list Z) : Prop := Forall (fun c => c <> 0) s.

Lemma strlen_text s r : text s -> strlen (s ++ 0 :: r) = Ok (Z.of_nat (length s)).
Proof.
  induction 1 as [|c s Hc _ IH]; [reflexivity|]. cbn [app strlen length].
  rewrite (proj2 (Z.eqb_neq _ _) Hc), IH. cbn [mbind res_bind mret res_ret]. f_equal. lia.
Qed.

Lemma cstr_text s r : text s -> cstr (s ++ 0 :: r) = Ok s.
Proof.
  induction 1 as [|c s Hc _ IH]; [reflexivity|]. cbn [app cstr].
  rewrite (proj2 (Z.eqb_neq _ _) Hc), IH. reflexivity.
Qed.

Lemma strchr_text s r x : text s -> strchr (s ++ 0 :: r) x = Ok (bool_decide (x ∈ s)).
Proof. intros H. unfold strchr. rewrite cstr_text by exact H. reflexivity. Qed.

Lemma strlen_unterminated b : text b -> strlen b = Undef.
Proof.
  induction 1 as [|c s Hc _ IH]; [reflexivity|]. cbn [strlen].
  rewrite (proj2 (Z.eqb_neq _ _) Hc), IH. reflexivity.
Qed.

Lemma cstr_unterminated b : text b -> cstr b = Undef.
Proof.
  induction 1 as [|c s Hc _ IH]; [reflexivity|]. cbn [cstr].
  rewrite (proj2 (Z.eqb_neq _ _) Hc), IH. reflexivity.
Qed.

Lemma strcspn_text s x r c : Forall (fun y => y <> 0 /\ y <> x) s -> c = 0 \/ c = x ->
  strcspn (s ++ c :: r) x = Ok (Z.of_nat (length s)).
Proof.
  intros H Hc. induction H as [|y s [Hy Hx] _ IH]; cbn [app strcspn length].
  - destruct Hc as [-> | ->]; rewrite Z.eqb_refl, ?orb_true_r; reflexivity.
  - rewrite (proj2 (Z.eqb_neq _ _) Hy), (proj2 (Z.eqb_neq _ _) Hx), IH. cbn. f_equal. lia.
Qed.

(** * Decimal numbers *)

Definition is_digit (c : Z) : Prop := 48 <= c <= 57.

#[export] Instance is_digit_dec c : Decision (is_digit c).
Proof. unfold is_digit. apply _. Defined.

Definition value (ds : list Z) : Z := foldl (fun v c => 10 * v + (c - 48)) 0 ds.

(** The digits of [0 <= n < 10 ^ fuel], in front of [acc]. *)
Fixpoint digits (fuel : nat) (n : Z) (acc : list Z) : list Z :=
  match fuel with
  | O => acc
  | S f => if n <? 10 then 48 + n :: acc else digits f (n / 10) (48 + n mod 10 :: acc)
  end.

(** ["%ld"]: a 64-bit number has at most 19 digits. *)
Definition render (n : Z) : list Z :=
  if n <? 0 then 45 :: digits 19 (- n) [] else digits 19 n [].

Lemma value_app a b : value (a ++ b) = foldl (fun v c => 10 * v + (c - 48)) (value a) b.
Proof. unfold value. apply foldl_app. Qed.

Lemma digits_spec fuel : forall n acc, 0 <= n < 10 ^ Z.of_nat fuel ->
  exists ds, digits fuel n acc = ds ++ acc /\ Forall is_digit ds /\ value ds = n /\
    (length ds <= fuel)%nat /\ ((0 < fuel)%nat -> ds <> []).
Proof.
  induction fuel as [|f IH]; intros n acc Hn.
  - exists []. cbn in Hn. split; [reflexivity|]. split; [constructor|]. split; [cbn; lia|]. split; cbn; lia.
  - cbn [digits]. destruct (Z.ltb_spec n 10).
    + exists [48 + n]. split; [reflexivity|]. split; [repeat constructor; unfold is_digit; lia|].
      split; [unfold value; cbn; lia|]. split; [cbn; lia | discriminate].
    + destruct (IH (n / 10) (48 + n mod 10 :: acc)) as (ds & -> & Hd & Hv & Hl & _).
      { rewrite Nat2Z.inj_succ, Z.pow_succ_r in Hn by lia. split; [apply Z.div_pos; lia|].
        apply Z.div_lt_upper_bound; lia. }
      pose proof (Z.mod_pos_bound n 10 ltac:(lia)).
      exists (ds ++ [48 + n mod 10]). split; [rewrite <- app_assoc; reflexivity|].
      split; [apply Forall_app; split; [exact Hd | repeat constructor; unfold is_digit; lia]|].
      split; [rewrite value_app, Hv; cbn; pose proof (Z.div_mod n 10); lia|].
      split; [rewrite length_app; cbn; lia | destruct ds; discriminate].
Qed.

Lemma render_text n : - 2 ^ 63 <= n < 2 ^ 63 -> text (render n) /\ (length (render n) <= 20)%nat /\ render n <> [].
Proof.
  intros Hn. unfold render. assert (2 ^ 63 < 10 ^ Z.of_nat 19) by (vm_compute; reflexivity).
  assert (forall ds, Forall is_digit ds -> text ds) as Ht.
  { intros ds Hd. eapply Forall_impl; [exact Hd|]. unfold is_digit. cbn. lia. }
  destruct (Z.ltb_spec n 0).
  - destruct (digits_spec 19 (- n) []) as (ds & -> & Hd & _ & Hl & _); [lia|]. rewrite app_nil_r.
    split; [constructor; [discriminate | exact (Ht _ Hd)]|]. cbn [length]. split; [lia | discriminate].
  - destruct (digits_spec 19 n []) as (ds & -> & Hd & _ & Hl & Hne); [lia|]. rewrite app_nil_r.
    split; [auto|]. split; [lia | apply Hne; lia].
Qed.
