(* ===== verification/Doubles.v ===== *)
(** Numbers of type [double]: the binary64 format of the Standard Library's specification
    of floating-point numbers, its sum and quotient, reading and printing in decimal, and
    how far each of these is from the exact result for numbers that are not
    negative. *)

From Stdlib Require Import SpecFloat.
From S2P Require Import Prelude CString.
Local Open Scope Z_scope.

(** * Operations *)

Abbreviation double := spec_float.

Definition zero : double := S754_zero false.
Definition add (x y : double) : double := SFadd 53 1024 x y.
Definition div (x y : double) : double := SFdiv 53 1024 x y.

(** The conversion of an [int]. *)
Definition of_int (n : Z) : double := binary_normalize 53 1024 n 0 false.

(** The double nearest to [n / d], with the sign [neg]. *)
Definition ratio (neg : bool) (n d : Z) : double :=
  match n, d with
  | Zpos n, Zpos d => SFdiv 53 1024 (S754_finite neg n 0) (S754_finite false d 0)
  | _, _ => S754_zero neg
  end.

(** The integer nearest to [n / d], an even one when two are. *)
Definition nearest (n d : Z) : Z :=
  let q := n / d in
  match 2 * (n mod d) ?= d with
  | Lt => q
  | Eq => if Z.even q then q else q + 1
  | Gt => q + 1
  end.

(** What ["%f"] prints: the exact value rounded to a millionth. The largest double has
    309 digits before the point. *)
Definition millionths (m : positive) (e : Z) : Z :=
  if 0 <=? e then Zpos m * 2 ^ e * 1000000 else nearest (Zpos m * 1000000) (2 ^ (- e)).

Definition pad6 (n : Z) : list Z :=
  let ds := digits 19 (Z.abs n) [] in
  if n <? 0 then 45 :: replicate (5 - length ds) 48 ++ ds else replicate (6 - length ds) 48 ++ ds.

Definition point6 (neg : bool) (n : Z) : list Z :=
  (if neg then [45] else []) ++ digits 309 (n / 1000000) [] ++ 46 :: pad6 (n mod 1000000).

Definition print_f (x : double) : list Z :=
  match x with
  | S754_zero s => point6 s 0
  | S754_finite s m e => point6 s (millionths m e)
  | S754_infinity s => (if s then [45] else []) ++ [105; 110; 102]
  | S754_nan => [110; 97; 110]
  end.

Example sums : print_f (div (add (ratio false 1100000 1000000) (ratio false 2200000 1000000)) (of_int 21)) =
  [48; 46; 49; 53; 55; 49; 52; 51].
Proof. vm_compute. reflexivity. Qed.

(** * Digits in binary *)

Lemma digits2_bound p : 2 ^ (Zpos (digits2_pos p) - 1) <= Zpos p < 2 ^ Zpos (digits2_pos p).
Proof.
  assert (forall d, 2 ^ Zpos (Pos.succ d) = 2 * 2 ^ Zpos d) as Hs
    by (intros d; rewrite Pos2Z.inj_succ, Z.pow_succ_r by lia; reflexivity).
  assert (forall d, 2 ^ (Zpos (Pos.succ d) - 1) = 2 * 2 ^ (Zpos d - 1)) as Hs'
    by (intros d; replace (Zpos (Pos.succ d) - 1) with (Z.succ (Zpos d - 1)) by lia; rewrite Z.pow_succ_r by lia; reflexivity).
  induction p as [p IH|p IH|]; cbn [digits2_pos]; rewrite ?Hs, ?Hs'; [lia | lia | split; reflexivity || discriminate].
Qed.

Lemma Zdigits2_bound m : 0 < m -> 2 ^ (Zdigits2 m - 1) <= m < 2 ^ Zdigits2 m.
Proof. destruct m as [|p|p]; try lia. intros _. apply digits2_bound. Qed.

Lemma Zdigits2_nonneg m : 0 <= m -> 0 <= Zdigits2 m.
Proof. destruct m; cbn; lia. Qed.

Lemma Zdigits2_lt m d : 0 <= m < 2 ^ d -> 0 <= d -> Zdigits2 m <= d.
Proof.
  intros Hm Hd. destruct (decide (m = 0)) as [->|]; [cbn; lia|].
  destruct (Zdigits2_bound m) as [Hl _]; [lia|].
  apply Z.nlt_ge. intros Hlt. assert (2 ^ d <= 2 ^ (Zdigits2 m - 1)) by (apply Z.pow_le_mono_r; lia). lia.
Qed.

Lemma Zdigits2_ge m d : 2 ^ d <= m -> 0 <= d -> d < Zdigits2 m.
Proof.
  intros Hm Hd. assert (0 < 2 ^ d) by (apply Z.pow_pos_nonneg; lia).
  destruct (Zdigits2_bound m) as [_ Hl]; [lia|]. apply Z.nle_gt. intros Hle.
  assert (2 ^ Zdigits2 m <= 2 ^ d) by (apply Z.pow_le_mono_r; lia). lia.
Qed.

Lemma shl_pos m d : Zpos (Pos.iter xO m d) = Zpos m * 2 ^ Zpos d.
Proof.
  induction d as [|d IH] using Pos.peano_ind; [cbn; lia|].
  rewrite Pos.iter_succ, Pos2Z.inj_succ, Z.pow_succ_r by lia. rewrite Pos2Z.inj_xO, IH. lia.
Qed.

(** * Shifts and rounding *)

(** The record of a shifted mantissa stands for [num / den]: its quotient, whether the
    remainder is at least a half, and whether it is neither nothing nor a half. *)
Record shifted (r : shr_record) (num den : Z) : Prop := {
  sh_den : 0 < den;
  sh_num : 0 <= num;
  sh_m : shr_m r = num / den;
  sh_r : shr_r r = (den <=? 2 * (num mod den));
  sh_s : shr_s r = negb (num mod den =? 0) && negb (2 * (num mod den) =? den)
}.
Lemma shifted_step r num den : shifted r num den -> shifted (shr_1 r) num (2 * den).
Proof.
  intros [Hd Hn Hm Hr Hs]. pose proof (Z.div_mod num den ltac:(lia)) as E. pose proof (Z.mod_pos_bound num den Hd) as Hb.
  set (q := num / den) in *. set (rho := num mod den) in *.
  assert (0 <= q) by (apply Z.div_pos; lia).
  assert (exists b, q = 2 * (q / 2) + b /\ 0 <= b <= 1) as (b & Eq & Hb2).
  { exists (q mod 2). pose proof (Z.div_mod q 2). pose proof (Z.mod_pos_bound q 2). lia. }
  assert (num / (2 * den) = q / 2 /\ num mod (2 * den) = b * den + rho) as [E1 E2].
  { assert (num = 2 * den * (q / 2) + (b * den + rho)) as En by nia.
    assert (0 <= b * den + rho < 2 * den) by nia.
    split; [symmetry; apply (Z.div_unique_pos num (2 * den) (q / 2) (b * den + rho)) | symmetry; apply (Z.mod_unique_pos num (2 * den) (q / 2))]; lia. }
  assert (shr_1 r = Build_shr_record (q / 2) (b =? 1) (shr_r r || shr_s r)) as ->.
  { destruct r as [m r s]. cbn in Hm |- *. subst m. revert Eq Hb2. destruct q as [|[p|p|]|p]; intros Eq Hb2; try lia.
    - assert (b = 0) as -> by (cbn in Eq; lia). reflexivity.
    - rewrite Pos2Z.inj_xI in *. rewrite (Z.mul_comm 2 (Zpos p)), Z.div_add_l in * by lia. change (1 / 2) with 0 in *.
      assert (b = 1) as -> by lia. rewrite Z.add_0_r. reflexivity.
    - rewrite Pos2Z.inj_xO in *. rewrite (Z.mul_comm 2 (Zpos p)), Z.div_mul in * by lia.
      assert (b = 0) as -> by lia. reflexivity.
    - assert (b = 1) as -> by (cbn in Eq; lia). reflexivity. }
  assert (b = 0 \/ b = 1) as [-> | ->] by lia; split; cbn; rewrite ?E1, ?E2, ?Hr, ?Hs; try lia; try reflexivity;
    destruct (Z.leb_spec den (2 * rho)), (Z.eqb_spec rho 0), (Z.eqb_spec (2 * rho) den); cbn; lia.
Qed.

Lemma shifted_iter p : forall r num den, shifted r num den -> shifted (SpecFloat.iter_pos shr_1 p r) num (den * 2 ^ Zpos p).
Proof.
  induction p as [p IH|p IH|]; intros r num den Hr; cbn [SpecFloat.iter_pos].
  - apply shifted_step, IH, IH in Hr. replace (den * 2 ^ Zpos p~1) with (2 * den * 2 ^ Zpos p * 2 ^ Zpos p); [exact Hr|].
    replace (Zpos p~1) with (1 + Zpos p + Zpos p) by lia. rewrite !Z.pow_add_r by lia. lia.
  - apply IH, IH in Hr. replace (den * 2 ^ Zpos p~0) with (den * 2 ^ Zpos p * 2 ^ Zpos p); [exact Hr|].
    replace (Zpos p~0) with (Zpos p + Zpos p) by lia. rewrite Z.pow_add_r by lia. lia.
  - apply shifted_step in Hr. rewrite Z.mul_comm. exact Hr.
Qed.

(** Rounding picks a nearest integer. *)
Lemma shifted_round r num den : shifted r num den ->
  let m := round_nearest_even (shr_m r) (loc_of_shr_record r) in
  2 * Z.abs (m * den - num) <= den /\ num / den <= m <= num / den + 1.
Proof.
  intros [Hd Hn Hm Hr Hs]. pose proof (Z.div_mod num den ltac:(lia)) as E. pose proof (Z.mod_pos_bound num den Hd) as Hb.
  destruct r as [m r s]. cbn in *. subst m r s. set (q := num / den) in *. set (rho := num mod den) in *.
  destruct (Z.leb_spec den (2 * rho)), (Z.eqb_spec rho 0), (Z.eqb_spec (2 * rho) den); cbn; try lia; try nia.
  destruct (Z.even q); nia.
Qed.

(** [loc] is where [num / den] lies above its quotient. *)
Definition located (loc : location) (num den : Z) : Prop := shifted (shr_record_of_loc (num / den) loc) num den.

Lemma located_exact m : 0 <= m -> located loc_Exact m 1.
Proof. intros Hm. split; cbn; rewrite ?Z.mod_1_r, ?Z.div_1_r; lia || reflexivity. Qed.

#[local] Abbreviation fexp := (fexp 53 1024).
#[local] Abbreviation shr_fexp := (shr_fexp 53 1024).

Lemma fexp_spec e : fexp e = Z.max (e - 53) (-1074).
Proof. reflexivity. Qed.

(** The first shift, to 53 digits. *)
Lemma shr_fexp_shifted num den e l : located l num den -> e <= fexp (Zdigits2 (num / den) + e) ->
  exists r e', shr_fexp (num / den) e l = (r, e') /\ e' = fexp (Zdigits2 (num / den) + e) /\ shifted r num (den * 2 ^ (e' - e)).
Proof.
  intros Hl He. unfold SpecFloat.shr_fexp, shr. set (m := num / den) in *. set (d := fexp (Zdigits2 m + e) - e).
  assert (fexp (Zdigits2 m + e) = e + d) as Ed by lia. rewrite Ed. replace (e + d - e) with d by lia.
  destruct d as [|p|p] eqn:E; [| |lia].
  - eexists _, _. split; [reflexivity|]. split; [lia|]. rewrite Z.sub_diag, Z.mul_1_r. exact Hl.
  - eexists _, _. split; [reflexivity|]. split; [reflexivity|]. rewrite Z.add_simpl_l. apply shifted_iter, Hl.
Qed.

(** The second one, of a mantissa that rounding may have made a power of two. *)
Lemma shr_fexp_exact m e : 0 <= m <= 2 ^ 53 -> -1074 <= e ->
  exists m' e', shr_fexp m e loc_Exact = (Build_shr_record m' false false, e') /\ -1074 <= e' /\ 0 <= m' /\
    e' = (if m =? 2 ^ 53 then e + 1 else e) /\ m' * 2 ^ (e' + 1074) = m * 2 ^ (e + 1074).
Proof.
  intros Hm He. destruct (Z.eqb_spec m (2 ^ 53)) as [->|Hne].
  - exists (2 ^ 52), (e + 1). unfold SpecFloat.shr_fexp, shr. rewrite fexp_spec.
    change (Zdigits2 (2 ^ 53)) with 54. replace (Z.max (54 + e - 53) (-1074) - e) with 1 by lia.
    split; [reflexivity|]. split; [lia|]. split; [lia|]. split; [reflexivity|].
    replace (e + 1 + 1074) with (1 + (e + 1074)) by lia. rewrite Z.pow_add_r by lia. change (2 ^ 53) with (2 ^ 52 * 2 ^ 1). lia.
  - exists m, e. unfold SpecFloat.shr_fexp, shr. rewrite fexp_spec.
    pose proof (Zdigits2_lt m 53 ltac:(lia) ltac:(lia)) as Hd.
    destruct (Z.max (Zdigits2 m + e - 53) (-1074) - e) as [|p|p] eqn:E; [| lia |]; auto with lia.
Qed.

(** A double that is not negative, as a multiple of the smallest one. *)
Definition worth (x : double) (v : Z) : Prop :=
  match x with
  | S754_zero false => v = 0
  | S754_finite false m e => -1074 <= e /\ v = Zpos m * 2 ^ (e + 1074)
  | _ => False
  end.

(** What [num / den * 2 ^ e] is in that unit, times [den]. *)
Lemma round_spec num den e l k : located l num den -> -1074 <= e <= fexp (Zdigits2 (num / den) + e) ->
  num * 2 ^ (e + 1074) < den * 2 ^ (k + 1074) -> -1020 <= k <= 1000 ->
  exists v, worth (binary_round_aux 53 1024 false (num / den) e l) v /\
    Z.abs (v * den - num * 2 ^ (e + 1074)) <= den * 2 ^ (k + 1020).
Proof.
  intros Hl He Hk Hk'. destruct (shr_fexp_shifted num den e l Hl (proj2 He)) as (r & e1 & E1 & Ee & Hr).
  assert (0 < den /\ 0 <= num) as [Hden Hnum] by (split; [exact (sh_den _ _ _ Hl) | exact (sh_num _ _ _ Hl)]).
  set (m := num / den) in *. assert (0 <= m) as Hm by (apply Z.div_pos; lia).
  (* the size of the mantissa *)
  assert (Zdigits2 m + e <= k) as Hdig.
  { destruct (decide (m = 0)) as [->|]; [rewrite fexp_spec in He; cbn in He |- *; lia|].
    destruct (Zdigits2_bound m) as [Hlow _]; [lia|]. pose proof (Zdigits2_nonneg m Hm).
    assert (1 <= Zdigits2 m) by (destruct m; cbn; lia).
    assert (den * 2 ^ (Zdigits2 m - 1 + (e + 1074)) < den * 2 ^ (k + 1074)) as Hlt.
    { eapply Z.le_lt_trans; [|exact Hk]. rewrite Z.pow_add_r, Z.mul_assoc by lia.
      apply Z.mul_le_mono_nonneg_r; [apply Z.pow_nonneg; lia|].
      transitivity (den * m); [nia|]. apply Z.mul_div_le. exact Hden. }
    apply Z.mul_lt_mono_pos_l, Z.pow_lt_mono_r_iff in Hlt; lia. }
  pose proof (fexp_spec (Zdigits2 m + e)) as Hf. rewrite Ee in *.
  set (e1' := fexp (Zdigits2 m + e)) in *. clear e1 Ee.
  destruct (shifted_round _ _ _ Hr) as [Hround [Hlow Hup]]. set (m1 := round_nearest_even _ _) in *.
  assert (0 < 2 ^ (e1' - e)) as Hpow by (apply Z.pow_pos_nonneg; lia).
  assert (0 <= num / (den * 2 ^ (e1' - e)) < 2 ^ 53) as Hq.
  { split; [apply Z.div_pos; nia|]. rewrite <- Z.div_div by lia. fold m. apply Z.div_lt_upper_bound; [lia|].
    destruct (decide (m = 0)) as [->|]; [lia|]. destruct (Zdigits2_bound m) as [_ Hb]; [lia|].
    eapply Z.lt_le_trans; [exact Hb|]. rewrite <- Z.pow_add_r by lia. apply Z.pow_le_mono_r; lia. }
  destruct (shr_fexp_exact m1 e1') as (m2 & e2 & E2 & He2 & Hm2 & Eq2 & Ev); [lia | lia|].
  exists (m1 * 2 ^ (e1' + 1074)). split.
  - unfold binary_round_aux. rewrite E1. fold m1. rewrite E2. cbn [shr_m]. destruct m2 as [|p|p]; [cbn; lia| |lia].
    destruct (Z.leb_spec e2 (1024 - 53)) as [_|Hbig]; [|exfalso; destruct (m1 =? 2 ^ 53); lia].
    cbn. split; [exact He2 | lia].
  - replace (e1' + 1074) with (e1' - e + (e + 1074)) by lia. rewrite Z.pow_add_r by lia.
    replace (m1 * (2 ^ (e1' - e) * 2 ^ (e + 1074)) * den - num * 2 ^ (e + 1074))
      with ((m1 * (den * 2 ^ (e1' - e)) - num) * 2 ^ (e + 1074)) by ring.
    rewrite Z.abs_mul, (Z.abs_eq (2 ^ _)) by (apply Z.pow_nonneg; lia).
    apply (Z.mul_le_mono_pos_l _ _ 2); [lia|]. rewrite Z.mul_assoc.
    transitivity (den * 2 ^ (e1' - e) * 2 ^ (e + 1074)); [apply Z.mul_le_mono_nonneg_r; [apply Z.pow_nonneg; lia | exact Hround]|].
    rewrite <- Z.mul_assoc, <- Z.pow_add_r by lia. replace (2 * (den * 2 ^ (k + 1020))) with (den * 2 ^ (1 + (k + 1020)))
      by (rewrite Z.pow_add_r by lia; lia).
    apply Z.mul_le_mono_nonneg_l; [lia|]. apply Z.pow_le_mono_r; lia.
Qed.

(** * Sums and quotients *)

Lemma digits2_shl m d : Zpos (digits2_pos (Pos.iter xO m d)) = Zpos (digits2_pos m) + Zpos d.
Proof.
  induction d as [|d IH] using Pos.peano_ind; [cbn; lia|].
  rewrite Pos.iter_succ. cbn [digits2_pos]. lia.
Qed.

Lemma binary_round_spec m e k : -1074 <= e -> Zpos m * 2 ^ (e + 1074) < 2 ^ (k + 1074) -> -1020 <= k <= 1000 ->
  exists v, worth (binary_round 53 1024 false m e) v /\ Z.abs (v - Zpos m * 2 ^ (e + 1074)) <= 2 ^ (k + 1020).
Proof.
  intros He Hk Hk'. unfold binary_round.
  assert (exists mz ez, shl_align m e (fexp (Zpos (digits2_pos m) + e)) = (mz, ez) /\ -1074 <= ez /\
    ez <= fexp (Zdigits2 (Zpos mz) + ez) /\ Zpos mz * 2 ^ (ez + 1074) = Zpos m * 2 ^ (e + 1074)) as (mz & ez & -> & H1 & H2 & Em).
  { unfold shl_align. pose proof (fexp_spec (Zpos (digits2_pos m) + e)) as Hf. set (f := fexp _) in *.
    destruct (f - e) as [|p|p] eqn:E; [exists m, e; split_and!; [reflexivity | lia | cbn [Zdigits2]; fold f; lia | reflexivity] | |].
    { exists m, e; split_and!; [reflexivity | lia | cbn [Zdigits2]; fold f; lia | reflexivity]. }
    exists (Pos.iter xO m p), f. split; [reflexivity|]. split; [lia|]. cbn [Zdigits2]. rewrite digits2_shl, shl_pos.
    replace (Zpos (digits2_pos m) + Zpos p + f) with (Zpos (digits2_pos m) + e) by lia. fold f. split; [lia|].
    rewrite <- Z.mul_assoc, <- Z.pow_add_r by lia. do 2 f_equal. lia. }
  rewrite <- Em in *. destruct (round_spec (Zpos mz) 1 ez loc_Exact k) as (v & Hv & Hd); [apply located_exact; lia | | lia | exact Hk' |].
  - rewrite Z.div_1_r. lia.
  - rewrite Z.div_1_r in Hv. exists v. split; [exact Hv | lia].
Qed.

(** A sum is off by at most one unit in 2^54 of a power of two above it. *)
Lemma add_spec x y a b k : worth x a -> worth y b -> a + b < 2 ^ (k + 1074) -> -1020 <= k <= 1000 ->
  exists v, worth (add x y) v /\ Z.abs (v - (a + b)) <= 2 ^ (k + 1020).
Proof.
  intros Hx Hy Hk Hk'. assert (0 < 2 ^ (k + 1020)) by (apply Z.pow_pos_nonneg; lia).
  destruct x as [[]|[]| |[] mx ex]; try contradiction; destruct y as [[]|[]| |[] my ey]; try contradiction; cbn [worth] in Hx, Hy.
  1-3: eexists; split; [cbn; first [exact Hx | exact Hy | reflexivity] | lia].
  destruct Hx as [Hex ->], Hy as [Hey ->]. cbn [add SFadd cond_Zopp].
  assert (forall m e, Z.min ex ey <= e -> Zpos (fst (shl_align m e (Z.min ex ey))) * 2 ^ (Z.min ex ey + 1074) = Zpos m * 2 ^ (e + 1074)) as Hal.
  { intros m e He. unfold shl_align. destruct (Z.min ex ey - e) as [|p|p] eqn:E; [f_equal; f_equal; cbn; lia | lia|].
    cbn [fst]. rewrite shl_pos, <- Z.mul_assoc, <- Z.pow_add_r by lia. do 2 f_equal. lia. }
  pose proof (Hal mx ex ltac:(lia)) as Hx. pose proof (Hal my ey ltac:(lia)) as Hy.
  set (m1 := fst (shl_align mx ex _)) in *. set (m2 := fst (shl_align my ey _)) in *.
  unfold binary_normalize. cbn [Z.add]. rewrite <- Hx, <- Hy, <- Z.mul_add_distr_r in *. rewrite <- Pos2Z.inj_add in *.
  apply binary_round_spec; [lia | exact Hk | exact Hk'].
Qed.

Lemma located_new num den : 0 <= num -> 0 < den -> located (new_location den (num mod den)) num den.
Proof.
  intros Hn Hd. pose proof (Z.mod_pos_bound num den Hd) as Hb. unfold located, new_location, new_location_even, new_location_odd.
  assert (Z.even den = true -> exists c, den = 2 * c) as Hev by (intros He; apply Z.even_spec in He; exact He).
  assert (Z.even den = false -> exists c, den = 2 * c + 1) as Hodd
    by (rewrite <- Z.negb_odd; intros He; apply negb_false_iff, Z.odd_spec in He; exact He).
  destruct (Z.even den); [destruct (Hev eq_refl) as [c Ec] | destruct (Hodd eq_refl) as [c Ec]];
    (destruct (Z.eqb_spec (num mod den) 0) as [E|E];
      [split; cbn; rewrite ?E; reflexivity || lia|]).
  - destruct (Z.compare_spec (2 * (num mod den)) den); split; cbn; lia.
  - destruct (Z.compare_spec (2 * (num mod den) + 1) den); split; cbn; lia.
Qed.

(** A quotient, where the unit cannot be smaller than the one of doubles. *)
Lemma div_finite m1 e1 m2 e2 k : -1074 <= e1 - e2 ->
  Zpos m1 * 2 ^ (e1 - e2 + 1074) < Zpos m2 * 2 ^ (k + 1074) -> -1020 <= k <= 1000 ->
  exists v, worth (div (S754_finite false m1 e1) (S754_finite false m2 e2)) v /\
    Z.abs (v * Zpos m2 - Zpos m1 * 2 ^ (e1 - e2 + 1074)) <= Zpos m2 * 2 ^ (k + 1020).
Proof.
  intros He Hk Hk'. cbn [div SFdiv xorb]. unfold SFdiv_core_binary. cbn [Zdigits2].
  pose proof (digits2_bound m1) as [Hd1 _]. pose proof (digits2_bound m2) as [_ Hd2].
  set (d1 := digits2_pos m1) in *. set (d2 := digits2_pos m2) in *.
  set (D := Zpos d1 + e1 - (Zpos d2 + e2)). pose proof (fexp_spec D) as Hf.
  set (e' := Z.min (fexp D) (e1 - e2)). set (s := e1 - e2 - e').
  assert (match s with Zpos _ => Z.shiftl (Zpos m1) s | Z0 => Zpos m1 | Zneg _ => 0 end = Zpos m1 * 2 ^ s) as ->.
  { destruct s eqn:Es; [lia | apply Z.shiftl_mul_pow2; lia | lia]. }
  assert (0 <= s) as Hs by lia. assert (0 < 2 ^ s) as Hps by (apply Z.pow_pos_nonneg; lia).
  pose proof (round_spec (Zpos m1 * 2 ^ s) (Zpos m2) e' (new_location (Zpos m2) ((Zpos m1 * 2 ^ s) mod Zpos m2)) k) as Hround.
  unfold Z.div, Z.modulo in Hround. unfold Z.modulo in *. destruct (Z.div_eucl (Zpos m1 * 2 ^ s) (Zpos m2)) as [q r] eqn:Eqr.
  assert (q = Zpos m1 * 2 ^ s / Zpos m2 /\ r = (Zpos m1 * 2 ^ s) mod Zpos m2) as [Eq Er]
    by (unfold Z.div, Z.modulo; rewrite Eqr; auto).
  replace (e1 - e2 + 1074) with (s + (e' + 1074)) in * by lia. rewrite Z.pow_add_r, Z.mul_assoc in * by lia.
  apply Hround; [| | exact Hk | exact Hk'].
  - subst r. apply located_new; lia.
  - split; [lia|]. rewrite fexp_spec. destruct (Z.leb_spec (Zpos d1 + s - Zpos d2) 0); [lia|].
    assert (Zpos d1 + s - Zpos d2 - 1 < Zdigits2 q); [|lia].
    apply Zdigits2_ge; [|lia]. subst q. apply Z.div_le_lower_bound; [lia|].
    transitivity (2 ^ (Zpos d1 + s - Zpos d2 - 1) * 2 ^ Zpos d2);
      [rewrite (Z.mul_comm (Zpos m2)); apply Z.mul_le_mono_nonneg_l; [apply Z.pow_nonneg|]; lia|].
    rewrite <- Z.pow_add_r by lia. replace (_ + Zpos d2) with (Zpos d1 - 1 + s) by lia. rewrite Z.pow_add_r by lia.
    apply Z.mul_le_mono_nonneg_r; lia.
Qed.

(** The double nearest to a fraction. *)
Lemma ratio_spec n d k : 0 <= n -> 0 < d -> n < d * 2 ^ k -> 0 <= k <= 1000 ->
  exists v, worth (ratio false n d) v /\ Z.abs (v * d - n * 2 ^ 1074) <= d * 2 ^ (k + 1020).
Proof.
  intros Hn Hd Hk Hk'. assert (0 < 2 ^ (k + 1020)) by (apply Z.pow_pos_nonneg; lia).
  destruct n as [|n|n]; [| |lia]; destruct d as [|d|d]; try lia; cbn [ratio].
  - exists 0. split; [reflexivity | lia].
  - apply (div_finite n 0 d 0 k); [lia | | lia]. change (0 - 0 + 1074) with 1074. rewrite (Z.pow_add_r 2 k) by lia.
    rewrite Z.mul_assoc. apply Z.mul_lt_mono_pos_r; [apply Z.pow_pos_nonneg; lia | lia].
Qed.

(** Division by an [int] whose double has the mantissa [m]. *)
Lemma div_int_spec x a c m s k : worth x a -> of_int c = S754_finite false m (- s) -> 0 <= s -> Zpos m = c * 2 ^ s -> 
  a < c * 2 ^ (k + 1074) -> -1020 <= k <= 1000 ->
  exists v, worth (div x (of_int c)) v /\ Z.abs (v * c - a) <= c * 2 ^ (k + 1020).
Proof.
  intros Hx -> Hs Hm Hk Hk'. assert (0 < 2 ^ (k + 1020)) by (apply Z.pow_pos_nonneg; lia).
  assert (0 < 2 ^ s) as Hps by (apply Z.pow_pos_nonneg; lia). assert (0 < c) by nia.
  destruct x as [[]|[]| |[] mx ex]; try contradiction; cbn [worth] in Hx.
  - subst a. exists 0. split; [reflexivity | lia].
  - destruct Hx as [Hex ->]. destruct (div_finite mx ex m (- s) k) as (v & Hv & Hd); [lia | | exact Hk' |].
    + replace (ex - - s + 1074) with (ex + 1074 + s) by lia. rewrite Z.pow_add_r, Hm by lia. nia.
    + exists v. split; [exact Hv|]. revert Hd. replace (ex - - s + 1074) with (ex + 1074 + s) by lia. rewrite Z.pow_add_r, Hm by lia.
      replace (v * (c * 2 ^ s) - Zpos mx * (2 ^ (ex + 1074) * 2 ^ s)) with ((v * c - Zpos mx * 2 ^ (ex + 1074)) * 2 ^ s) by ring.
      rewrite Z.abs_mul, (Z.abs_eq (2 ^ s)) by lia. nia.
Qed.

(** * Decimals *)

Lemma nearest_spec n d : 0 <= n -> 0 < d -> 0 <= nearest n d /\ 2 * Z.abs (nearest n d * d - n) <= d.
Proof.
  intros Hn Hd. unfold nearest. pose proof (Z.div_mod n d ltac:(lia)). pose proof (Z.mod_pos_bound n d Hd).
  assert (0 <= n / d) by (apply Z.div_pos; lia). set (q := n / d) in *. set (r := n mod d) in *.
  destruct (Z.compare_spec (2 * r) d); [destruct (Z.even q)| |]; nia.
Qed.

(** What is printed is the value to the nearest millionth. *)
Lemma print_f_spec x a : worth x a ->
  exists n, print_f x = point6 false n /\ 0 <= n /\ 2 * Z.abs (n * 2 ^ 1074 - a * 1000000) <= 2 ^ 1074.
Proof.
  destruct x as [[]|[]| |[] m e]; try contradiction; cbn [worth].
  - intros ->. exists 0. split; [reflexivity|]. split; [lia|]. rewrite !Z.mul_0_l. apply Z.pow_nonneg. lia.
  - intros [He ->]. exists (millionths m e). split; [reflexivity|]. unfold millionths.
    destruct (Z.leb_spec 0 e) as [Hp|Hp].
    + split; [apply Z.mul_nonneg_nonneg; [apply Z.mul_nonneg_nonneg; [|apply Z.pow_nonneg]|]; lia|].
      rewrite Z.pow_add_r by lia. replace (_ - _) with 0 by ring. apply Z.pow_nonneg. lia.
    + assert (0 < 2 ^ (- e)) as Hpe by (apply Z.pow_pos_nonneg; lia).
      destruct (nearest_spec (Zpos m * 1000000) (2 ^ (- e))) as [H0 H1]; [lia | exact Hpe|]. split; [exact H0|].
      assert (0 < 2 ^ (e + 1074)) by (apply Z.pow_pos_nonneg; lia).
      replace (2 ^ 1074) with (2 ^ (- e) * 2 ^ (e + 1074)) by (rewrite <- Z.pow_add_r by lia; f_equal; lia).
      set (n := nearest _ _) in *. replace (_ - _) with ((n * 2 ^ (- e) - Zpos m * 1000000) * 2 ^ (e + 1074)) by ring.
      rewrite Z.abs_mul, (Z.abs_eq (2 ^ (e + 1074))) by lia. nia.
Qed.
