(* ===== verification/Stdio.v ===== *)
(** Functions of <stdio.h> and <stdlib.h> on character arrays: [snprintf], [strtod],
    [scanf] of a word and of a number, and the buffer of standard output. Then the facts about
    them that a round trip needs. *)

From Stdlib Require Import String Ascii.
From S2P Require Import Prelude CString Doubles.
Local Open Scope Z_scope.

(** * Text *)

(** The codes of a literal, and back. *)
Definition codes (s : string) : list Z := (fun c => Z.of_N (N_of_ascii c)) <$> list_ascii_of_string s.
Definition of_codes (s : list Z) : string := string_of_list_ascii ((fun c => ascii_of_N (Z.to_N c)) <$> s).

(** The characters up to the first that does not satisfy [p], and the rest. *)
Fixpoint span (p : Z -> bool) (s : list Z) : list Z * list Z :=
  match s with
  | c :: s' => if p c then let '(a, b) := span p s' in (c :: a, b) else ([], s)
  | [] => ([], [])
  end.

Definition isspace (c : Z) : bool := (c =? 32) || ((9 <=? c) && (c <=? 13)).
Definition isdigit (c : Z) : bool := (48 <=? c) && (c <=? 57).

(** An optional sign, and what follows. *)
Definition sign (s : list Z) : bool * list Z :=
  match s with
  | c :: s' => if c =? 45 then (true, s') else if c =? 43 then (false, s') else (false, s)
  | [] => (false, [])
  end.

(** [snprintf(buf + off, size, ...)] of the text [s]: at most [size - 1] characters and a NUL. *)
Definition snprintf (buf : list Z) (off size : Z) (s : list Z) : res (list Z) :=
  if size =? 0 then mret buf
  else
    let t := take (Z.to_nat (size - 1)) s ++ [0] in
    if (0 <=? off) && (off + Z.of_nat (List.length t) <=? Z.of_nat (List.length buf))
    then mret (take (Z.to_nat off) buf ++ t ++ drop (Z.to_nat off + List.length t) buf)
    else Undef.

(** [strftime(buf, size, "%H:%M:%S", ...)] of hours, minutes and seconds; when they do not fit, the array holds
    nothing that can be read. *)
Definition two (n : Z) : list Z := [48 + n / 10; 48 + n mod 10].

Definition clock (tm : Z * Z * Z) : list Z := let '(h, m, s) := tm in two h ++ 58 :: two m ++ 58 :: two s.

Definition strftime (buf : list Z) (size : Z) (tm : Z * Z * Z) : res (list Z) :=
  if 8 <? size then snprintf buf 0 size (clock tm) else Undef.

(** [strtod] of a decimal without exponent; no digits give zero. *)
Definition strtod (buf : list Z) : res double :=
  s ← cstr buf;
  let s := snd (span isspace s) in
  let '(neg, s) := sign s in
  let '(whole, s) := span isdigit s in
  let part := match s with c :: s => if c =? 46 then fst (span isdigit s) else [] | [] => [] end in
  mret (match whole ++ part with [] => zero | ds => ratio neg (value ds) (10 ^ Z.of_nat (List.length part)) end).

(** [scanf("%s", buf)] for an array of [size] bytes: what the array holds up to its NUL, and
    the rest of the input. At the end of the input nothing is stored, and the next use of the array is of what
    was never written. *)
Definition scanf_s (size : Z) (input : list Z) : res (list Z * list Z) :=
  let '(word, rest) := span (fun c => negb (isspace c)) (snd (span isspace input)) in
  match word with
  | [] => Undef
  | _ => if Z.of_nat (List.length word) <? size then s ← cstr (word ++ [0]); mret (s, rest) else Undef
  end.

(** [scanf("%d", &n)]: the number, or nothing stored; a number that is not an [int] is
    undefined. *)
Definition scanf_d (input : list Z) : res (option Z) :=
  let s := snd (span isspace input) in
  let '(neg, s) := sign s in
  match fst (span isdigit s) with
  | [] => mret None
  | ds => let n := if neg then - value ds else value ds in
          if (- 2 ^ 31 <=? n) && (n <? 2 ^ 31) then mret (Some n) else Undef
  end.

(** Standard output: whether it is flushed after each line, as on a terminal, and what is
    still in the buffer. A [fork] copies the buffer. *)
Record Stdout := mkStdout { line_buffered : bool; pending : list Z }.

(** A text that ends with a newline, and what reaches the file. *)
Definition printf (io : Stdout) (s : list Z) : Stdout * list (list Z) :=
  if line_buffered io then (io, [s]) else (mkStdout false (pending io ++ s), []).

(** What [exit] writes. *)
Definition flush (io : Stdout) : list (list Z) := match pending io with [] => [] | s => [s] end.

(** * Facts *)

Lemma span_split p a b : Forall (fun c => p c = true) a -> (forall c r, b = c :: r -> p c = false) -> span p (a ++ b) = (a, b).
Proof.
  intros Ha Hb. induction Ha as [|c a Hc _ IH]; cbn [app span].
  - destruct b as [|c r]; [reflexivity|]. cbn [span]. rewrite (Hb c r eq_refl). reflexivity.
  - rewrite Hc, IH. reflexivity.
Qed.

Lemma span_all p a : Forall (fun c => p c = true) a -> span p a = (a, []).
Proof. intros Ha. rewrite <- (app_nil_r a) at 1. apply span_split; [exact Ha | discriminate]. Qed.

Lemma isdigit_spec c : isdigit c = true <-> is_digit c.
Proof. unfold isdigit, is_digit. destruct (Z.leb_spec 48 c), (Z.leb_spec c 57); cbn; split; lia || discriminate || reflexivity. Qed.

Lemma digits_text s : Forall is_digit s -> text s.
Proof. intros Hs. eapply Forall_impl; [exact Hs|]. unfold is_digit. cbn. lia. Qed.

Lemma digits_span s : Forall is_digit s -> Forall (fun c => isdigit c = true) s.
Proof. intros Hs. eapply Forall_impl; [exact Hs|]. intros c. apply isdigit_spec. Qed.

Lemma foldl_value b : forall v, foldl (fun v c => 10 * v + (c - 48)) v b = v * 10 ^ Z.of_nat (List.length b) + value b.
Proof.
  unfold value. induction b as [|c b IH]; intros v; cbn [foldl List.length]; [cbn; lia|].
  rewrite IH, (IH (10 * 0 + (c - 48))), Nat2Z.inj_succ, Z.pow_succ_r by lia. lia.
Qed.

Lemma value_concat a b : value (a ++ b) = value a * 10 ^ Z.of_nat (List.length b) + value b.
Proof. rewrite value_app. apply foldl_value. Qed.

Lemma value_zeros n : value (replicate n 48) = 0.
Proof.
  induction n as [|n IH]; [reflexivity|]. change (replicate (S n) 48) with ([48] ++ replicate n 48).
  rewrite value_concat, IH. cbn. lia.
Qed.

(** Fuel beyond the number of digits makes no difference. *)
Lemma digits_enough f g : forall n acc, 0 <= n < 10 ^ Z.of_nat (S f) -> digits (S f + g) n acc = digits (S f) n acc.
Proof.
  induction f as [|f IH]; intros n acc Hn.
  - cbn [Nat.add digits]. destruct (Z.ltb_spec n 10); [reflexivity | cbn in Hn; lia].
  - change (S (S f) + g)%nat with (S (S f + g)). cbn [digits]. destruct (Z.ltb_spec n 10); [reflexivity|].
    apply IH. rewrite Nat2Z.inj_succ, Z.pow_succ_r in Hn by lia.
    split; [apply Z.div_pos; lia | apply Z.div_lt_upper_bound; lia].
Qed.

(** ["%06ld"] of a number of at most six digits has six. *)
Lemma pad6_spec n : 0 <= n < 1000000 -> Forall is_digit (pad6 n) /\ value (pad6 n) = n /\ List.length (pad6 n) = 6%nat.
Proof.
  intros Hn. unfold pad6. rewrite Z.abs_eq by lia. destruct (Z.ltb_spec n 0); [lia|].
  change (digits 19 n []) with (digits (6 + 13) n []). rewrite digits_enough by (cbn; lia).
  destruct (digits_spec 6 n []) as (ds & -> & Hd & Hv & Hl & _); [cbn; lia|]. rewrite app_nil_r.
  split; [|split].
  - apply Forall_app. split; [|exact Hd]. apply Forall_replicate. unfold is_digit. lia.
  - rewrite value_concat, value_zeros, Hv. lia.
  - rewrite length_app, length_replicate. lia.
Qed.

(** What is written at the start of an array that is large enough. *)
Lemma snprintf_fits buf off size s : 0 <= off -> Z.of_nat (List.length s) < size -> off + size <= Z.of_nat (List.length buf) ->
  snprintf buf off size s = Ok (take (Z.to_nat off) buf ++ s ++ 0 :: drop (Z.to_nat off + List.length s + 1) buf).
Proof.
  intros Ho Hs Hb. unfold snprintf. destruct (Z.eqb_spec size 0); [lia|]. rewrite take_ge by lia.
  rewrite length_app. cbn [List.length]. destruct (Z.leb_spec 0 off); [|lia].
  destruct (Z.leb_spec (off + Z.of_nat (List.length s + 1)) (Z.of_nat (List.length buf))); [|lia]. cbn [andb].
  rewrite <- app_assoc. cbn [app]. rewrite Nat.add_assoc. reflexivity.
Qed.

(** Reading a decimal back. *)
Lemma strtod_decimal (neg : bool) whole part r : Forall is_digit whole -> Forall is_digit part -> whole <> [] ->
  strtod ((if neg then [45] else []) ++ whole ++ 46 :: part ++ 0 :: r) =
    Ok (ratio neg (value (whole ++ part)) (10 ^ Z.of_nat (List.length part))).
Proof.
  intros Hw Hp Hne. unfold strtod.
  replace ((if neg then [45] else []) ++ whole ++ 46 :: part ++ 0 :: r)
    with (((if neg then [45] else []) ++ whole ++ 46 :: part) ++ 0 :: r) by (rewrite <- !app_assoc; reflexivity).
  rewrite cstr_text by (repeat (apply Forall_app; split); [destruct neg; repeat constructor; discriminate | apply digits_text; exact Hw |
    constructor; [discriminate | apply digits_text; exact Hp]]).
  cbn [mbind res_bind]. set (s := whole ++ 46 :: part).
  assert (snd (span isspace ((if neg then [45] else []) ++ s)) = (if neg then [45] else []) ++ s /\
    sign ((if neg then [45] else []) ++ s) = (neg, s)) as [-> ->].
  { destruct neg; [split; reflexivity|]. unfold s. destruct whole as [|c whole]; [congruence|].
    pose proof (Forall_inv Hw) as Hc. unfold is_digit in Hc. cbn [app span sign].
    assert (isspace c = false) as -> by (unfold isspace; destruct (Z.eqb_spec c 32), (Z.leb_spec 9 c), (Z.leb_spec c 13); lia || reflexivity).
    destruct (Z.eqb_spec c 45), (Z.eqb_spec c 43); [lia ..|]. split; reflexivity. }
  unfold s. rewrite (span_split isdigit whole (46 :: part)) by (exact (digits_span _ Hw) || (intros ? ? [= <- <-]; reflexivity)).
  change (46 =? 46) with true. cbv iota. rewrite span_all by (exact (digits_span _ Hp)). cbn [fst].
  destruct whole as [|c whole]; [congruence | reflexivity].
Qed.
