(* ===== verification/PageQueue.v ===== *)
(** The circular queue of the page-replacement simulator ([PageQueue] of
    src/4/as4.c): its record, its operations with the array accesses they make,
    and the abstract queue (a list) they implement. *)

From S2P Require Import Prelude.
Local Open Scope Z_scope.

(** The memory behind [items] comes from [malloc], so a cell that was never
    written is [None]: reading it is undefined. *)
Record PageQueue := mkPageQueue {
  items : list (option Z);
  front : Z;
  rear : Z;
  maxSize : Z
}.

Section Queue.
  (** Whether [malloc] of so many bytes succeeds. *)
  Context (malloc_ok : Z -> bool).

Definition initializePageQueue (size : Z) : res PageQueue :=
  if malloc_ok (size * 4)
  then Ok (mkPageQueue (replicate (Z.to_nat size) None) (-1) (-1) size)
  else Exit 1.

Definition isFull (q : PageQueue) : res bool :=
  m ← cmod (rear q + 1) (maxSize q);
  mret (m =? front q).

Definition isEmpty (q : PageQueue) : bool := front q =? -1.

Definition enqueue (q : PageQueue) (value : Z) : res (Z * PageQueue) :=
  full ← isFull q;
  if full : bool then mret (-1, q)
  else
    let f := if front q =? -1 then 0 else front q in
    r ← cmod (rear q + 1) (maxSize q);
    it ← aset (items q) r (Some value);
    mret (0, mkPageQueue it f r (maxSize q)).

(** [items[i]] as a value: an indeterminate cell has none. *)
Definition item_at (q : PageQueue) (i : Z) : res Z :=
  c ← aget (items q) i;
  match c with Some v => Ok v | None => Undef end.

Definition dequeue (q : PageQueue) : res (Z * PageQueue) :=
  if isEmpty q then mret (-1, q)
  else
    item ← item_at q (front q);
    if front q =? rear q then
      q' ← initializePageQueue (maxSize q);
      mret (item, q')
    else
      f ← cmod (front q + 1) (maxSize q);
      mret (item, mkPageQueue (items q) f (rear q) (maxSize q)).

(** One turn of the scan of [findPositionInQueue]; the state is [(i, pos)]. *)
Definition find_body (q : PageQueue) (value : Z) (s : Z * Z) : res (ctl (Z * Z) Empty_set) :=
  let '(i, pos) := s in
  v ← item_at q i;
  if v =? value then mret (Break (i, i))
  else if i =? rear q then mret (Break (i, pos))
  else
    i' ← cmod (i + 1) (maxSize q);
    mret (Continue (i', pos)).

Definition findPositionInQueue (q : PageQueue) (value : Z) : res Z :=
  if front q =? -1 then mret (-1)
  else
    out ← loop (S (Z.to_nat (maxSize q))) (find_body q value) (front q, -1);
    match out with
    | inl (_, pos) => mret pos
    | inr r => match r : Empty_set with end
    end.

(** One turn of the shift of [removeFrameFromQueue]; the state is the index and
    the array. *)
Definition shift_body (r m : Z) (s : Z * list (option Z)) :
    res (ctl (Z * list (option Z)) Empty_set) :=
  let '(i, it) := s in
  if i =? r then mret (Break (i, it))
  else
    next ← cmod (i + 1) m;
    v ← aget it next;
    it' ← aset it i v;
    i' ← cmod (i + 1) m;
    mret (Continue (i', it')).

Definition removeFrameFromQueue (q : PageQueue) (value : Z) : res PageQueue :=
  pos ← findPositionInQueue q value;
  if pos =? -1 then mret q
  else
    out ← loop (S (Z.to_nat (maxSize q))) (shift_body (rear q) (maxSize q)) (pos, items q);
    match out with
    | inr r => match r : Empty_set with end
    | inl (_, it) =>
        it' ← aset it (rear q) (Some (-1));
        r ← cmod (rear q - 1 + maxSize q) (maxSize q);
        if r =? front q
        then mret (mkPageQueue it' (-1) (-1) (maxSize q))
        else mret (mkPageQueue it' (front q) r (maxSize q))
    end.

(** * The abstract queue *)

(** The array index of the [k]-th element of a queue. *)
Definition slot (q : PageQueue) (k : nat) : Z :=
  (front q + Z.of_nat k) mod maxSize q.

(** [q] holds the values [vs], oldest first. *)
Record QRep (q : PageQueue) (vs : list Z) : Prop := {
  qrep_size : 0 < maxSize q;
  qrep_items : Z.of_nat (length (items q)) = maxSize q;
  qrep_len : Z.of_nat (length vs) <= maxSize q;
  qrep_front : match vs with
               | [] => front q = -1 /\ rear q = -1
               | _ => 0 <= front q < maxSize q /\
                      rear q = (front q + Z.of_nat (length vs) - 1) mod maxSize q
               end;
  qrep_slot : forall k v, vs !! k = Some v ->
      items q !! Z.to_nat (slot q k) = Some (Some v)
}.

(** What [findPositionInQueue] looks for: the first occurrence. *)
Fixpoint index_of (v : Z) (vs : list Z) : option nat :=
  match vs with
  | [] => None
  | x :: xs => if x =? v then Some O else S <$> index_of v xs
  end.

Lemma index_of_Some v vs k :
  index_of v vs = Some k <->
  vs !! k = Some v /\ forall j, (j < k)%nat -> vs !! j <> Some v.
Proof.
  revert k. induction vs as [|x xs IH]; intros k; cbn.
  - split; [discriminate | intros [[=] _]].
  - destruct (Z.eqb_spec x v) as [->|Hne].
    + split.
      * intros [= <-]. split; [reflexivity | lia].
      * intros [Hk Hmin]. destruct k as [|k]; [reflexivity|].
        destruct (Hmin O); [lia | reflexivity].
    + destruct k as [|k]; cbn.
      * split; [destruct (index_of v xs); discriminate|].
        intros [Hl _]. injection Hl. congruence.
      * split.
        -- destruct (index_of v xs) as [k'|]; [|discriminate]. cbn. intros [= ->].
           destruct (proj1 (IH k) eq_refl) as [Hl Hmin]. split; [exact Hl|].
           intros [|j] Hj; [intros [=]; congruence | apply Hmin; lia].
        -- intros [Hl Hmin].
           rewrite (proj2 (IH k)); [reflexivity|]. split; [exact Hl|].
           intros j Hj. apply (Hmin (S j)). lia.
Qed.

Lemma index_of_None v vs : index_of v vs = None <-> v ∉ vs.
Proof.
  induction vs as [|x xs IH]; cbn.
  - split; [intros _; apply not_elem_of_nil | reflexivity].
  - rewrite not_elem_of_cons. destruct (Z.eqb_spec x v) as [->|Hne].
    + split; [discriminate | intros [[] _]; reflexivity].
    + destruct (index_of v xs); cbn.
      * split; [discriminate | intros [_ H]; apply IH in H; discriminate].
      * split; [|reflexivity]. intros _. split; [congruence | apply IH; reflexivity].
Qed.

Lemma qrep_bounds q vs : QRep q vs -> vs <> [] ->
  0 <= front q < maxSize q /\
  rear q = (front q + Z.of_nat (length vs) - 1) mod maxSize q.
Proof. intros H Hne. pose proof (qrep_front _ _ H). destruct vs; [congruence | assumption]. Qed.

Lemma slot_range q vs k : QRep q vs -> (k < length vs)%nat -> 0 <= slot q k < maxSize q.
Proof. intros H _. apply Z.mod_pos_bound, H. Qed.

Lemma slot_turn q vs k : QRep q vs -> (k < length vs)%nat ->
  slot q k = if front q + Z.of_nat k <? maxSize q then front q + Z.of_nat k
             else front q + Z.of_nat k - maxSize q.
Proof.
  intros H Hk. assert (vs <> []) as Hne by (destruct vs; [cbn in Hk; lia | discriminate]).
  pose proof (qrep_bounds _ _ H Hne). pose proof (qrep_len _ _ H).
  apply mod_turn. lia.
Qed.

Lemma slot_rear q vs k : QRep q vs -> S k = length vs -> slot q k = rear q.
Proof.
  intros H Hk. destruct (qrep_bounds _ _ H) as [_ ->]; [destruct vs; [cbn in Hk; lia | discriminate]|].
  unfold slot. f_equal. lia.
Qed.

Lemma slot_next q vs k : QRep q vs -> (S k < length vs)%nat ->
  (slot q k + 1) mod maxSize q = slot q (S k).
Proof.
  intros H Hk. unfold slot. rewrite Z.add_mod_idemp_l by (pose proof (qrep_size _ _ H); lia).
  f_equal. lia.
Qed.

Lemma slot_inj q vs j k : QRep q vs -> (j < length vs)%nat -> (k < length vs)%nat ->
  slot q j = slot q k -> j = k.
Proof.
  intros H Hj Hk. rewrite !(slot_turn q vs) by assumption.
  pose proof (qrep_len _ _ H).
  destruct (Z.ltb_spec (front q + Z.of_nat j) (maxSize q)),
           (Z.ltb_spec (front q + Z.of_nat k) (maxSize q)); lia.
Qed.

Lemma item_at_slot q vs k v : QRep q vs -> vs !! k = Some v -> item_at q (slot q k) = Ok v.
Proof.
  intros H Hk. unfold item_at.
  rewrite (aget_ok_Z _ _ (Some v)); [reflexivity | | apply (qrep_slot _ _ H _ _ Hk)].
  apply (slot_range _ _ k H). eapply lookup_lt_Some, Hk.
Qed.

(** * The operations against the abstract queue *)

Lemma initializePageQueue_empty n q :
  0 < n -> initializePageQueue n = Ok q -> QRep q [].
Proof.
  intros Hn. unfold initializePageQueue. destruct (malloc_ok (n * 4)); [|discriminate].
  intros [= <-]. split; cbn; try lia.
  - rewrite length_replicate. lia.
  - intros k v H. rewrite lookup_nil in H. discriminate.
Qed.

Lemma isEmpty_spec q vs : QRep q vs -> isEmpty q = bool_decide (vs = []).
Proof.
  intros H. unfold isEmpty. pose proof (qrep_front _ _ H) as Hf. destruct vs.
  - destruct Hf as [-> _]. reflexivity.
  - destruct Hf as [Hf _]. destruct (Z.eqb_spec (front q) (-1)); [lia | reflexivity].
Qed.

Lemma isFull_spec q vs : QRep q vs ->
  isFull q = Ok (Z.of_nat (length vs) =? maxSize q).
Proof.
  intros H. unfold isFull. pose proof (qrep_size _ _ H). pose proof (qrep_len _ _ H).
  pose proof (qrep_front _ _ H) as Hf.
  assert (0 <= rear q + 1) as Hr.
  { destruct vs; [lia|]. destruct Hf as [_ ->].
    pose proof (Z.mod_pos_bound (front q + Z.of_nat (length (z :: vs)) - 1) (maxSize q)). lia. }
  rewrite cmod_ok by lia. cbn [mbind res_bind]. unfold mret, res_ret. f_equal.
  destruct vs as [|x vs].
  - destruct Hf as [-> ->]. pose proof (Z.mod_pos_bound (-1 + 1) (maxSize q)).
    destruct (Z.eqb_spec ((-1 + 1) mod maxSize q) (-1)), (Z.eqb_spec (Z.of_nat (@length Z [])) (maxSize q));
      cbn in *; lia.
  - destruct Hf as [Hf ->]. remember (length (x :: vs)) as n eqn:Hn. cbn in Hn.
    rewrite (mod_turn (_ - 1)) by lia.
    destruct (Z.ltb_spec (front q + Z.of_nat n - 1) (maxSize q)); rewrite mod_turn by lia;
    repeat match goal with |- context [?a <? ?b] => destruct (Z.ltb_spec a b) end;
    match goal with |- (?a =? ?b) = (?c =? ?d) => destruct (Z.eqb_spec a b), (Z.eqb_spec c d) end; lia.
Qed.

Lemma enqueue_full q vs v : QRep q vs -> Z.of_nat (length vs) = maxSize q ->
  enqueue q v = Ok (-1, q).
Proof.
  intros H Hfull. unfold enqueue. rewrite (isFull_spec q vs H).
  cbn. rewrite (proj2 (Z.eqb_eq _ _) Hfull). reflexivity.
Qed.

(** A write into the cell after the last element extends the queue. *)
Lemma ring_snoc (it : list (option Z)) f m vs v :
  0 < m -> 0 <= f < m -> Z.of_nat (length it) = m -> Z.of_nat (length vs) < m ->
  (forall k x, vs !! k = Some x -> it !! Z.to_nat ((f + Z.of_nat k) mod m) = Some (Some x)) ->
  forall k x, (vs ++ [v]) !! k = Some x ->
  <[Z.to_nat ((f + Z.of_nat (length vs)) mod m) := Some v]> it
    !! Z.to_nat ((f + Z.of_nat k) mod m) = Some (Some x).
Proof.
  intros Hm Hf Hit Hlen Hs k x Hk.
  assert (k < length (vs ++ [v]))%nat as Hlt by (eapply lookup_lt_Some, Hk).
  rewrite length_app in Hlt. cbn in Hlt.
  pose proof (Z.mod_pos_bound (f + Z.of_nat k) m Hm).
  pose proof (Z.mod_pos_bound (f + Z.of_nat (length vs)) m Hm).
  destruct (decide (k = length vs)) as [->|Hne].
  - rewrite list_lookup_middle in Hk by reflexivity. injection Hk as <-.
    apply list_lookup_insert_eq. lia.
  - rewrite lookup_app_l in Hk by lia. rewrite list_lookup_insert_ne; [apply Hs, Hk|].
    intros Heq. assert ((f + Z.of_nat (length vs)) mod m = (f + Z.of_nat k) mod m) as E by lia.
    clear -E Hf Hlt Hlen Hne. ring_index; lia.
Qed.

Lemma enqueue_spec q vs v : QRep q vs -> Z.of_nat (length vs) < maxSize q ->
  exists q', enqueue q v = Ok (0, q') /\ QRep q' (vs ++ [v]) /\
    maxSize q' = maxSize q /\ front q' = (if front q =? -1 then 0 else front q).
Proof.
  intros H Hlen. unfold enqueue. rewrite (isFull_spec q vs H). cbn [mbind res_bind].
  destruct (Z.eqb_spec (Z.of_nat (length vs)) (maxSize q)); [lia|].
  set (f := if front q =? -1 then 0 else front q).
  pose proof (qrep_size _ _ H) as Hm. pose proof (qrep_front _ _ H) as Hf.
  pose proof (qrep_items _ _ H) as Hit.
  assert (0 <= f < maxSize q /\ 0 <= rear q + 1 /\
          (rear q + 1) mod maxSize q = (f + Z.of_nat (length vs)) mod maxSize q /\
          (vs <> [] -> f = front q)) as (Hfr & Hr & Hmod & Hff).
  { unfold f. destruct vs as [|x vs]; cbn in Hf.
    - destruct Hf as [-> ->]. cbn. repeat split; try lia. congruence.
    - destruct Hf as [Hf ->]. destruct (Z.eqb_spec (front q) (-1)); [lia|].
      pose proof (Z.mod_pos_bound (front q + Z.of_nat (length (x :: vs)) - 1) (maxSize q) Hm).
      cbn [length] in *. repeat split; try lia. rewrite Z.add_mod_idemp_l by lia. f_equal. lia. }
  rewrite cmod_ok by lia. cbn [mbind res_bind]. rewrite Hmod.
  pose proof (Z.mod_pos_bound (f + Z.of_nat (length vs)) (maxSize q) Hm) as Hb.
  rewrite aset_ok_Z by lia. cbn. eexists. split; [reflexivity|].
  split; [|split; reflexivity].
  split; cbn.
  - exact Hm.
  - rewrite length_insert. exact Hit.
  - rewrite length_app. cbn. lia.
  - destruct (vs ++ [v]) eqn:E; [destruct vs; discriminate|].
    split; [exact Hfr|]. rewrite <- E, length_app. cbn. f_equal. lia.
  - unfold slot; cbn [front maxSize]. apply ring_snoc; try lia.
    intros k x Hk. rewrite Hff by (destruct vs; [rewrite lookup_nil in Hk|]; discriminate).
    apply (qrep_slot _ _ H _ _ Hk).
Qed.

Lemma dequeue_empty q : QRep q [] -> dequeue q = Ok (-1, q).
Proof. intros H. unfold dequeue. rewrite (isEmpty_spec q [] H). reflexivity. Qed.

(** The last element of a queue: the code allocates a new array. *)
Lemma item_at_front q v vs : QRep q (v :: vs) -> item_at q (front q) = Ok v.
Proof.
  intros H. rewrite <- (item_at_slot q (v :: vs) 0 v H eq_refl). f_equal.
  destruct (qrep_bounds _ _ H) as [Hf _]; [discriminate|].
  unfold slot. rewrite Z.mod_small; lia.
Qed.

Lemma dequeue_last q v : QRep q [v] ->
  dequeue q = (q' ← initializePageQueue (maxSize q); mret (v, q')).
Proof.
  intros H. unfold dequeue. rewrite (isEmpty_spec q [v] H). cbn.
  destruct (qrep_bounds _ _ H) as [Hf Hr]; [discriminate|].
  rewrite (item_at_front q v [] H). cbn.
  assert (rear q = front q) as -> by (rewrite Hr; cbn [length]; rewrite Z.mod_small; lia).
  rewrite Z.eqb_refl. reflexivity.
Qed.

Lemma dequeue_spec q v vs : QRep q (v :: vs) -> vs <> [] ->
  exists q', dequeue q = Ok (v, q') /\ QRep q' vs /\ maxSize q' = maxSize q.
Proof.
  intros H Hne. unfold dequeue. rewrite (isEmpty_spec q _ H). cbn [bool_decide decide].
  destruct (qrep_bounds _ _ H) as [Hf Hr]; [discriminate|].
  pose proof (qrep_len _ _ H) as Hlen. pose proof (qrep_size _ _ H) as Hm.
  rewrite bool_decide_eq_false_2 by discriminate.
  rewrite (item_at_front q v vs H). cbn [mbind res_bind].
  assert (front q <> rear q) as Hfr.
  { destruct vs as [|w vs]; [congruence|]. cbn [length] in *. rewrite Hr. ring_index; lia. }
  destruct (Z.eqb_spec (front q) (rear q)); [contradiction|].
  rewrite cmod_ok by lia. cbn. eexists. split; [reflexivity|]. split; [|reflexivity].
  assert (forall k, ((front q + 1) mod maxSize q + k) mod maxSize q = (front q + (k + 1)) mod maxSize q) as Hsh.
  { intros k. rewrite Z.add_mod_idemp_l by lia. f_equal. lia. }
  split; cbn.
  - exact Hm.
  - apply H.
  - cbn in Hlen. lia.
  - destruct vs as [|w vs]; [congruence|]. split; [apply Z.mod_pos_bound, Hm|].
    rewrite Hr, <- (Z.add_sub_assoc (_ mod _)), Hsh. f_equal. cbn [length]. lia.
  - intros k x Hk. unfold slot; cbn. rewrite Hsh.
    replace (front q + (Z.of_nat k + 1)) with (front q + Z.of_nat (S k)) by lia.
    apply (qrep_slot _ _ H (S k) x Hk).
Qed.
End Queue.

(** * Search and removal *)

Lemma findPositionInQueue_spec q vs v : QRep q vs ->
  findPositionInQueue q v = Ok (match index_of v vs with Some k => slot q k | None => -1 end).
Proof.
  intros H. unfold findPositionInQueue. pose proof (qrep_size _ _ H) as Hm.
  pose proof (qrep_len _ _ H) as Hlen.
  destruct (decide (vs = [])) as [->|Hne].
  { destruct (qrep_front _ _ H) as [-> _]. reflexivity. }
  destruct (qrep_bounds _ _ H Hne) as [Hf Hr].
  destruct (Z.eqb_spec (front q) (-1)); [lia|].
  assert (returns (loop (S (Z.to_nat (maxSize q))) (find_body q v) (front q, -1))
    (fun out => match out with
                | inl (_, pos) => pos = match index_of v vs with Some k => slot q k | None => -1 end
                | inr _ => False end)) as (out & -> & Hout).
  { assert (0 < length vs)%nat by (destruct vs; [congruence | cbn; lia]).
    apply (loop_rule (fun d s => exists k, (k + S d = length vs)%nat /\ s = (slot q k, -1) /\
             forall j, (j < k)%nat -> vs !! j <> Some v) _ _ _ (length vs - 1)).
    - exists O. split; [lia|]. split; [|lia]. f_equal. unfold slot. rewrite Z.mod_small; lia.
    - lia.
    - intros d s (k & Hk & -> & Hmin). unfold find_body.
      destruct (lookup_lt_is_Some_2 vs k) as [x Hx]; [lia|].
      rewrite (item_at_slot q vs k x H Hx). cbn [mbind res_bind].
      destruct (Z.eqb_spec x v) as [->|Hxv].
      { apply returns_ok. cbn. rewrite (proj2 (index_of_Some v vs k)) by auto. reflexivity. }
      assert (forall j, (j < S k)%nat -> vs !! j <> Some v) as Hmin'.
      { intros j Hj. destruct (decide (j = k)) as [->|]; [congruence | apply Hmin; lia]. }
      destruct (decide (S k = length vs)) as [Hlast|Hmore].
      + rewrite (slot_rear q vs k H Hlast), Z.eqb_refl. apply returns_ok. cbn.
        rewrite (proj2 (index_of_None v vs)); [reflexivity|].
        rewrite list_elem_of_lookup. intros [j Hj]. apply (Hmin' j); [|exact Hj].
        apply lookup_lt_Some in Hj. lia.
      + destruct (Z.eqb_spec (slot q k) (rear q)) as [E|_].
        { rewrite <- (slot_rear q vs (length vs - 1) H) in E by lia.
          apply (slot_inj q vs) in E; lia || assumption. }
        pose proof (slot_range q vs k H ltac:(lia)).
        rewrite cmod_ok by lia. apply returns_ok. cbn.
        exists (d - 1)%nat. split; [lia|]. exists (S k). split; [lia|]. split; [|exact Hmin'].
        f_equal. apply (slot_next q vs k H). lia. }
  destruct out as [[? pos]|[]]. cbn. rewrite Hout. reflexivity.
Qed.

(** The shift closes the gap at [k]: the cell of index [t] receives the element
    after it for [k <= t], and the last cell keeps its value. *)
Lemma shift_spec q vs k : QRep q vs -> (k < length vs)%nat ->
  exists it, loop (S (Z.to_nat (maxSize q))) (shift_body (rear q) (maxSize q)) (slot q k, items q)
             = Ok (inl (rear q, it)) /\
    length it = length (items q) /\
    forall t v, (S t < length vs)%nat -> delete k vs !! t = Some v ->
      it !! Z.to_nat (slot q t) = Some (Some v).
Proof.
  intros H Hk. pose proof (qrep_size _ _ H) as Hm. pose proof (qrep_len _ _ H) as Hlen.
  pose proof (qrep_items _ _ H) as Hit.
  assert (returns (loop (S (Z.to_nat (maxSize q))) (shift_body (rear q) (maxSize q)) (slot q k, items q))
    (fun out => match out with
       | inl (i, it) => i = rear q /\ length it = length (items q) /\
           forall t v, (S t < length vs)%nat -> delete k vs !! t = Some v ->
             it !! Z.to_nat (slot q t) = Some (Some v)
       | inr _ => False end)) as ([[i it]|[]] & E & Hi & Hout).
  2: { subst i. exists it. rewrite E. auto. }
  apply (loop_rule (fun d s => exists j it, (k <= j)%nat /\ (j + S d = length vs)%nat /\
    s = (slot q j, it) /\ length it = length (items q) /\
    forall t v, (t < length vs)%nat ->
      vs !! (if (k <=? t)%nat && (t <? j)%nat then S t else t) = Some v ->
      it !! Z.to_nat (slot q t) = Some (Some v)) _ _ _ (length vs - 1 - k)).
  - exists k, (items q). split; [lia|]. split; [lia|]. do 2 (split; [reflexivity|]).
    intros t v Ht. destruct (Nat.leb_spec k t), (Nat.ltb_spec t k); try lia; apply (qrep_slot _ _ H).
  - lia.
  - intros d s (j & it & Hkj & Hj & -> & Hlit & Hinv). unfold shift_body.
    destruct (decide (S j = length vs)) as [Hlast|Hmore].
    + rewrite (slot_rear q vs j H Hlast), Z.eqb_refl. apply returns_ok. cbn.
      split; [reflexivity|]. split; [exact Hlit|]. intros t v Ht Hv. apply Hinv; [lia|].
      destruct (Nat.leb_spec k t), (Nat.ltb_spec t j); cbn; try lia.
      * rewrite list_lookup_delete_ge in Hv by lia. exact Hv.
      * rewrite list_lookup_delete_lt in Hv by lia. exact Hv.
    + destruct (Z.eqb_spec (slot q j) (rear q)) as [E|_].
      { rewrite <- (slot_rear q vs (length vs - 1) H) in E by lia.
        apply (slot_inj q vs) in E; lia || assumption. }
      pose proof (slot_range q vs j H ltac:(lia)). pose proof (slot_range q vs (S j) H ltac:(lia)).
      rewrite cmod_ok by lia. cbn [mbind res_bind].
      rewrite (slot_next q vs j H) by lia.
      destruct (lookup_lt_is_Some_2 vs (S j)) as [x Hx]; [lia|].
      rewrite (aget_ok_Z it (slot q (S j)) (Some x)); [| lia |].
      2: { apply Hinv; [lia|]. destruct (Nat.leb_spec k (S j)), (Nat.ltb_spec (S j) j); try lia; exact Hx. }
      cbn [mbind res_bind]. rewrite aset_ok_Z by lia. cbn [mbind res_bind].
      apply returns_ok. cbn [ctl_post]. exists (d - 1)%nat. split; [lia|].
      exists (S j), (<[Z.to_nat (slot q j) := Some x]> it).
      split; [lia|]. split; [lia|]. split; [reflexivity|]. split; [rewrite length_insert; exact Hlit|].
      intros t v Ht Hv. destruct (decide (t = j)) as [->|Htj].
      * rewrite (proj2 (andb_true_iff (k <=? j)%nat (j <? S j)%nat)) in Hv
          by (split; [apply Nat.leb_le | apply Nat.ltb_lt]; lia).
        rewrite Hx in Hv. injection Hv as ->. apply list_lookup_insert_eq. lia.
      * rewrite list_lookup_insert_ne.
        -- apply Hinv; [exact Ht|].
           destruct (Nat.leb_spec k t), (Nat.ltb_spec t j), (Nat.ltb_spec t (S j)); cbn in *; try lia; exact Hv.
        -- intros E. pose proof (slot_range q vs t H Ht). apply Htj, (slot_inj q vs); auto; lia.
Qed.

(** The new [rear] of a removal, and the cells in front of it. *)
Lemma removeFrameFromQueue_unfold q vs v k : QRep q vs -> index_of v vs = Some k ->
  exists it, length it = length (items q) /\
    (forall t x, (S t < length vs)%nat -> delete k vs !! t = Some x ->
       it !! Z.to_nat (slot q t) = Some (Some x)) /\
    removeFrameFromQueue q v =
      (let r := (rear q - 1 + maxSize q) mod maxSize q in
       if r =? front q then Ok (mkPageQueue it (-1) (-1) (maxSize q))
       else Ok (mkPageQueue it (front q) r (maxSize q))).
Proof.
  intros H Hk. pose proof (proj1 (index_of_Some v vs k) Hk) as [Hl _].
  apply lookup_lt_Some in Hl. pose proof (qrep_size _ _ H) as Hm.
  destruct (shift_spec q vs k H Hl) as (it & E & Hlit & Hit).
  assert (vs <> []) as Hne by (destruct vs; [cbn in Hl; lia | discriminate]).
  pose proof (slot_range q vs (length vs - 1) H ltac:(lia)) as Hr.
  rewrite (slot_rear q vs (length vs - 1) H) in Hr by lia.
  pose proof (qrep_items _ _ H) as Hqi.
  exists (<[Z.to_nat (rear q) := Some (-1)]> it). split; [rewrite length_insert; exact Hlit|].
  split.
  - intros t x Ht Hx. rewrite list_lookup_insert_ne; [apply Hit; assumption|].
    rewrite <- (slot_rear q vs (length vs - 1) H) by lia. intros Hs.
    pose proof (slot_range q vs t H ltac:(lia)).
    pose proof (slot_range q vs (length vs - 1) H ltac:(lia)).
    assert (length vs - 1 = t)%nat; [|lia]. apply (slot_inj q vs); auto; lia.
  - unfold removeFrameFromQueue. rewrite (findPositionInQueue_spec q vs v H), Hk. cbn [mbind res_bind].
    pose proof (slot_range q vs k H Hl). destruct (Z.eqb_spec (slot q k) (-1)); [lia|].
    rewrite E. cbn [mbind res_bind]. rewrite aset_ok_Z by lia. cbn [mbind res_bind].
    rewrite cmod_ok by lia. reflexivity.
Qed.

Lemma removeFrameFromQueue_absent q vs v : QRep q vs -> v ∉ vs ->
  removeFrameFromQueue q v = Ok q.
Proof.
  intros H Hv. unfold removeFrameFromQueue. rewrite (findPositionInQueue_spec q vs v H).
  rewrite (proj2 (index_of_None v vs) Hv). reflexivity.
Qed.

(** Removal from a queue of three or more elements is removal from the list. *)
Lemma removeFrameFromQueue_spec q vs v k : QRep q vs -> index_of v vs = Some k ->
  (3 <= length vs)%nat ->
  exists q', removeFrameFromQueue q v = Ok q' /\ QRep q' (delete k vs) /\
    maxSize q' = maxSize q /\ front q' = front q.
Proof.
  intros H Hk Hlen3. pose proof (proj1 (index_of_Some v vs k) Hk) as [Hl _].
  destruct (removeFrameFromQueue_unfold q vs v k H Hk) as (it & Hlit & Hit & ->).
  pose proof (qrep_size _ _ H) as Hm. pose proof (qrep_len _ _ H) as Hlen.
  destruct (qrep_bounds q vs H) as [Hf Hr]; [destruct vs; [cbn in Hlen3; lia | discriminate]|].
  set (r := (rear q - 1 + maxSize q) mod maxSize q).
  assert (r = (front q + Z.of_nat (length vs - 1) - 1) mod maxSize q) as Hr'.
  { unfold r. rewrite Hr.
    replace (_ mod _ - 1 + maxSize q) with
      ((front q + Z.of_nat (length vs) - 1) mod maxSize q + (maxSize q - 1)) by lia.
    rewrite Z.add_mod_idemp_l by lia.
    replace (front q + Z.of_nat (length vs) - 1 + (maxSize q - 1)) with
      (front q + Z.of_nat (length vs - 1) - 1 + 1 * maxSize q) by lia.
    apply Z_mod_plus_full. }
  cbv zeta. assert (r <> front q) as Hrf by (rewrite Hr'; ring_index; lia).
  destruct (Z.eqb_spec r (front q)); [contradiction|].
  eexists. split; [reflexivity|]. split; [|split; reflexivity].
  assert (length (delete k vs) = length vs - 1)%nat as Hd by (apply length_delete; eauto).
  split; cbn [items front rear maxSize].
  - exact Hm.
  - rewrite Hlit. apply H.
  - lia.
  - destruct (delete k vs) eqn:E; [cbn in Hd; lia|]. split; [exact Hf|]. rewrite Hr', Hd. reflexivity.
  - intros t x Ht. apply (Hit t x); [|exact Ht]. apply lookup_lt_Some in Ht. lia.
Qed.

(** Removing one of two elements empties the queue: the code takes
    [rear == front], the mark of one element left, for the empty queue. *)
Lemma removeFrameFromQueue_two q a b v : QRep q [a; b] -> v = a \/ v = b ->
  exists q', removeFrameFromQueue q v = Ok q' /\ QRep q' [].
Proof.
  intros H Hv.
  assert (exists k, index_of v [a; b] = Some k) as [k Hk].
  { destruct (index_of v [a; b]) eqn:E; [eauto|]. apply index_of_None in E. exfalso. apply E.
    destruct Hv as [-> | ->]; set_solver. }
  destruct (removeFrameFromQueue_unfold q _ v k H Hk) as (it & Hlit & _ & ->).
  pose proof (qrep_size _ _ H) as Hm. pose proof (qrep_len _ _ H) as Hlen. cbn in Hlen.
  destruct (qrep_bounds q _ H) as [Hf Hr]; [discriminate|]. cbn in Hr.
  assert ((rear q - 1 + maxSize q) mod maxSize q = front q) as E.
  { rewrite Hr. ring_index; lia. }
  cbv zeta. rewrite E, Z.eqb_refl. eexists. split; [reflexivity|].
  split; cbn [items front rear maxSize].
  - exact Hm.
  - rewrite Hlit. apply H.
  - cbn. lia.
  - auto.
  - intros t x Ht. rewrite lookup_nil in Ht. discriminate.
Qed.

(** Removing the only element of a queue with more room leaves a queue that
    the code takes for a full one. *)
Lemma removeFrameFromQueue_one q v : QRep q [v] -> 1 < maxSize q ->
  exists q', removeFrameFromQueue q v = Ok q' /\ isFull q' = Ok true /\ isEmpty q' = false.
Proof.
  intros H Hm1. assert (index_of v [v] = Some O) as Hk by (cbn; rewrite Z.eqb_refl; reflexivity).
  destruct (removeFrameFromQueue_unfold q _ v _ H Hk) as (it & _ & _ & ->).
  destruct (qrep_bounds q _ H) as [Hf Hr]; [discriminate|]. cbn in Hr.
  assert (rear q = front q) as E by (rewrite Hr, Z.mod_small; lia).
  assert (0 <= (rear q - 1 + maxSize q) mod maxSize q) by (apply Z.mod_pos_bound; lia).
  assert ((rear q - 1 + maxSize q) mod maxSize q <> front q) as Hne.
  { rewrite E. intros E'. ring_index; lia. }
  cbv zeta. rewrite (proj2 (Z.eqb_neq _ _) Hne).
  eexists. split; [reflexivity|]. unfold isFull, isEmpty. cbn [rear front maxSize].
  rewrite cmod_ok by lia. cbn [mbind res_bind mret res_ret]. split.
  - f_equal. apply Z.eqb_eq. rewrite E. rewrite Z.add_mod_idemp_l by lia.
    replace (front q - 1 + maxSize q + 1) with (front q + 1 * maxSize q) by lia.
    rewrite Z_mod_plus_full. apply Z.mod_small. lia.
  - destruct (Z.eqb_spec (front q) (-1)); [lia | reflexivity].
Qed.

(** * Theorems *)

(** The calls of a client and what they return. *)
Inductive Call := Enqueue (v : Z) | Dequeue | Find (v : Z).

Definition perform (malloc_ok : Z -> bool) (c : Call) (q : PageQueue) : res (Z * PageQueue) :=
  match c with
  | Enqueue v => enqueue q v
  | Dequeue => dequeue malloc_ok q
  | Find v => pos ← findPositionInQueue q v; mret (if pos =? -1 then 0 else 1, q)
  end.

Fixpoint performs (malloc_ok : Z -> bool) (cs : list Call) (q : PageQueue) : res (list Z) :=
  match cs with
  | [] => Ok []
  | c :: cs => '(r, q) ← perform malloc_ok c q; rs ← performs malloc_ok cs q; mret (r :: rs)
  end.

(** A bounded queue as a list: enqueue fails when it is full, dequeue when it is
    empty. *)
Definition promise (size : Z) (c : Call) (vs : list Z) : Z * list Z :=
  match c, vs with
  | Enqueue v, _ => if Z.of_nat (length vs) <? size then (0, vs ++ [v]) else (-1, vs)
  | Dequeue, [] => (-1, [])
  | Dequeue, v :: vs => (v, vs)
  | Find v, _ => (if decide (v ∈ vs) then 1 else 0, vs)
  end.

Fixpoint promises (size : Z) (cs : list Call) (vs : list Z) : list Z :=
  match cs with
  | [] => []
  | c :: cs => let '(r, vs) := promise size c vs in r :: promises size cs vs
  end.

Lemma slot_nonneg q vs k v : QRep q vs -> vs !! k = Some v -> slot q k <> -1.
Proof.
  intros H _. unfold slot. pose proof (qrep_size q vs H).
  pose proof (Z.mod_pos_bound (front q + Z.of_nat k) (maxSize q) ltac:(lia)). lia.
Qed.

Lemma perform_spec malloc_ok c q vs : (forall z, malloc_ok z = true) -> QRep q vs ->
  exists q', perform malloc_ok c q = Ok (fst (promise (maxSize q) c vs), q') /\
    QRep q' (snd (promise (maxSize q) c vs)) /\ maxSize q' = maxSize q.
Proof.
  intros Hok H. destruct c as [v| |v]; cbn [perform promise].
  - destruct (Z.ltb_spec (Z.of_nat (length vs)) (maxSize q)).
    + destruct (enqueue_spec q vs v H) as (q' & E & H' & Hm & _); eauto.
    + exists q. rewrite (enqueue_full q vs v) by (exact H || (pose proof (qrep_len q vs H); lia)). auto.
  - destruct vs as [|v [|w vs]]; [exists q; rewrite (dequeue_empty malloc_ok q H); auto | |].
    + rewrite (dequeue_last malloc_ok q v H). unfold initializePageQueue. rewrite Hok.
      eexists. split; [reflexivity|]. split; [|reflexivity].
      apply (initializePageQueue_empty malloc_ok (maxSize q)); [apply (qrep_size q _ H)|].
      unfold initializePageQueue. rewrite Hok. reflexivity.
    + apply (dequeue_spec malloc_ok q v (w :: vs) H). discriminate.
  - exists q. rewrite (findPositionInQueue_spec q vs v H). cbn [mbind res_bind fst snd].
    destruct (index_of v vs) as [k|] eqn:E.
    + apply index_of_Some in E as [E _]. rewrite decide_True by (apply list_elem_of_lookup; eauto).
      rewrite (proj2 (Z.eqb_neq _ _) (slot_nonneg q vs k v H E)). auto.
    + apply index_of_None in E. rewrite decide_False by exact E. auto.
Qed.

(** C5: a sequence of calls on a fresh queue returns what it returns on a bounded
    list: first in first out, -1 from a full enqueue and an empty dequeue, and a
    position exactly for the values in the queue, however often the ring wraps. *)
Theorem queue_refines malloc_ok size q cs :
  (forall z, malloc_ok z = true) -> 0 < size -> initializePageQueue malloc_ok size = Ok q ->
  performs malloc_ok cs q = Ok (promises size cs []).
Proof.
  intros Hok Hs Hq. pose proof (initializePageQueue_empty malloc_ok size q Hs Hq) as H.
  assert (maxSize q = size) as Hm.
  { revert Hq. unfold initializePageQueue. rewrite Hok. intros [= <-]. reflexivity. }
  clear Hq. revert q H Hm. generalize (@nil Z) as vs.
  induction cs as [|c cs IH]; intros vs q H Hm; cbn [performs promises]; [reflexivity|].
  destruct (perform_spec malloc_ok c q vs Hok H) as (q' & -> & H' & Hm'). rewrite Hm in *. cbn [mbind res_bind].
  destruct (promise size c vs) as [r vs']. cbn [fst snd] in *. rewrite (IH vs' q') by (exact H' || congruence).
  reflexivity.
Qed.

Lemma queue_refines_witness :
  performs (fun _ => true) [Enqueue 5; Enqueue 6; Enqueue 7; Dequeue; Enqueue 8; Find 8; Dequeue; Dequeue; Dequeue]
    (mkPageQueue (replicate 2 None) (-1) (-1) 2) = Ok [0; 0; -1; 5; 0; 1; 6; 8; -1].
Proof.
  apply (queue_refines (fun _ => true) 2 (mkPageQueue (replicate 2 None) (-1) (-1) 2)
    [Enqueue 5; Enqueue 6; Enqueue 7; Dequeue; Enqueue 8; Find 8; Dequeue; Dequeue; Dequeue]).
  - intros z. reflexivity.
  - lia.
  - reflexivity.
Defined.

(** [removeFrameFromQueue] deletes one occurrence of the value from a queue
    of at least three elements and leaves the order of the others; a value that
    is not there changes nothing. *)
Theorem remove_deletes q vs v : QRep q vs ->
  (v ∉ vs -> removeFrameFromQueue q v = Ok q) /\
  (forall k, index_of v vs = Some k -> (3 <= length vs)%nat ->
   exists q', removeFrameFromQueue q v = Ok q' /\ QRep q' (delete k vs) /\ maxSize q' = maxSize q).
Proof.
  intros H. split; [apply removeFrameFromQueue_absent, H|]. intros k Hk Hl.
  destruct (removeFrameFromQueue_spec q vs v k H Hk Hl) as (q' & E & H' & Hm & _). eauto.
Qed.

Lemma QRep_example : QRep (mkPageQueue [Some 7; Some 8; Some 9] 0 2 3) [7; 8; 9].
Proof.
  split; [cbn; lia | reflexivity | cbn; lia | split; [cbn; lia | reflexivity] |].
  intros k v Hk. destruct k as [|[|[|k]]]; cbn in Hk; try discriminate; injection Hk as <-; reflexivity.
Qed.

Lemma remove_deletes_witness :
  exists q', removeFrameFromQueue (mkPageQueue [Some 7; Some 8; Some 9] 0 2 3) 8 = Ok q' /\
    QRep q' [7; 9] /\ maxSize q' = 3.
Proof.
  apply (proj2 (remove_deletes (mkPageQueue [Some 7; Some 8; Some 9] 0 2 3) [7; 8; 9] 8 QRep_example) 1%nat); [reflexivity | cbn; lia].
Defined.

(** Below three elements [removeFrameFromQueue] loses track: removing either
    of two elements empties the queue, and removing the only one leaves a queue
    that claims to be full. *)
Theorem remove_small q v :
  (forall a b, QRep q [a; b] -> v = a \/ v = b ->
   exists q', removeFrameFromQueue q v = Ok q' /\ QRep q' []) /\
  (QRep q [v] -> 1 < maxSize q ->
   exists q', removeFrameFromQueue q v = Ok q' /\ isFull q' = Ok true /\ isEmpty q' = false).
Proof.
  split; [intros a b H Hv; exact (removeFrameFromQueue_two q a b v H Hv) | apply removeFrameFromQueue_one].
Qed.

Lemma QRep_two : QRep (mkPageQueue [Some 7; Some 8; None] 0 1 3) [7; 8].
Proof.
  split; [cbn; lia | reflexivity | cbn; lia | split; [cbn; lia | reflexivity] |].
  intros k v Hk. destruct k as [|[|k]]; cbn in Hk; try discriminate; injection Hk as <-; reflexivity.
Qed.

Lemma remove_small_witness :
  exists q', removeFrameFromQueue (mkPageQueue [Some 7; Some 8; None] 0 1 3) 7 = Ok q' /\ QRep q' [].
Proof.
  apply (proj1 (remove_small (mkPageQueue [Some 7; Some 8; None] 0 1 3) 7) 7 8 QRep_two). left. reflexivity.
Defined.
