(* ===== verification/PageTables.v ===== *)
(** The tables of the page-replacement simulator (src/4/as4.c): virtual
    addresses, page table and physical memory, with the scans and updates the
    four replacement functions share, and the address translation of the output.
    Numbers of C are unbounded [Z]; [PageTables.Rep] bounds what is stored. *)

From S2P Require Import Prelude PageQueue.
Local Open Scope Z_scope.

Definition NUM_ADDRESSES : Z := 5000.

Record VirtualAddressInfo := mkVA { virtualAddress : Z; vai_pageNum : Z }.

Record PageTable := mkPT { pageNum : Z; frameNum : Z; referenceBit : Z }.

Record PhysicalMemoryInfo := mkPM { isOccupied : Z; pm_frameNum : Z; physicalAddress : Z }.

(** * Assignments to a field of an array element *)

Definition set_vai_pageNum (a : list VirtualAddressInfo) (i v : Z) : res (list VirtualAddressInfo) :=
  aupd (fun e => mkVA (virtualAddress e) v) a i.
Definition set_pageNum (a : list PageTable) (i v : Z) : res (list PageTable) :=
  aupd (fun e => mkPT v (frameNum e) (referenceBit e)) a i.
Definition set_frameNum (a : list PageTable) (i v : Z) : res (list PageTable) :=
  aupd (fun e => mkPT (pageNum e) v (referenceBit e)) a i.
Definition set_referenceBit (a : list PageTable) (i v : Z) : res (list PageTable) :=
  aupd (fun e => mkPT (pageNum e) (frameNum e) v) a i.
Definition set_isOccupied (a : list PhysicalMemoryInfo) (i v : Z) : res (list PhysicalMemoryInfo) :=
  aupd (fun e => mkPM v (pm_frameNum e) (physicalAddress e)) a i.
Definition set_pm_frameNum (a : list PhysicalMemoryInfo) (i v : Z) : res (list PhysicalMemoryInfo) :=
  aupd (fun e => mkPM (isOccupied e) v (physicalAddress e)) a i.
Definition set_physicalAddress (a : list PhysicalMemoryInfo) (i v : Z) : res (list PhysicalMemoryInfo) :=
  aupd (fun e => mkPM (isOccupied e) (pm_frameNum e) v) a i.

(** * Creation *)

Section Creation.
  Context (malloc_ok : Z -> bool).

(** The three tables are allocated without a test of the result: a failed
    [malloc] is a write through a null pointer. *)
Definition createVirtualAddressInfoArray : res (list VirtualAddressInfo) :=
  if malloc_ok (8 * NUM_ADDRESSES)
  then Ok (replicate (Z.to_nat NUM_ADDRESSES) (mkVA (-1) (-1))) else Undef.

Definition createPageTable (numPages : Z) : res (list PageTable) :=
  if malloc_ok (12 * numPages) || (numPages <=? 0)
  then Ok (replicate (Z.to_nat numPages) (mkPT (-1) (-1) 0)) else Undef.

Definition createPhysicalMemoryInfoArray (numFrames : Z) : res (list PhysicalMemoryInfo) :=
  if malloc_ok (12 * numFrames) || (numFrames <=? 0)
  then Ok (replicate (Z.to_nat numFrames) (mkPM 0 (-1) (-1))) else Undef.
End Creation.

(** * Translation of an address for the output *)

(** The first loop keeps the last match; a page that is not in the table
    leaves [-1], and [pageTable[-1]] is undefined. A frame that is not found
    makes the function fall off its end. *)
Definition getPhysicalAddressFromVA (va : Z) (pageTable : list PageTable)
    (frames : list PhysicalMemoryInfo) (totalPage totalFrame pageSizeByte : Z) : res Z :=
  tmpPageNum ← cdiv va pageSizeByte;
  matchedPageNum ← for_each (Z.to_nat totalPage) 0 (fun i m =>
      e ← aget pageTable i;
      mret (if pageNum e =? tmpPageNum then i else m)) (-1);
  out ← for_ctl (Z.to_nat totalFrame) 0 (fun i (s : unit) =>
      e ← aget pageTable matchedPageNum;
      f ← aget frames i;
      mret (if frameNum e =? pm_frameNum f then Return (physicalAddress f) else Continue s)) tt;
  match out with inr a => mret a | inl _ => Undef end.

Definition getFrameNumFromVA (va : Z) (pageTable : list PageTable)
    (totalPage pageSizeKB : Z) : res Z :=
  tmpPageNum ← cdiv va pageSizeKB;
  out ← for_ctl (Z.to_nat totalPage) 0 (fun i (s : unit) =>
      e ← aget pageTable i;
      mret (if pageNum e =? tmpPageNum then Return (frameNum e) else Continue s)) tt;
  match out with inr f => mret f | inl _ => Undef end.

(** * The parts the four replacement functions have in common *)

(** The inner loop of the hit test: the page of the last entry that names
    frame [fn], [-1] without one. *)
Definition last_page_of_frame (pageTable : list PageTable) (totalPage fn : Z) : res Z :=
  for_each (Z.to_nat totalPage) 0 (fun j acc =>
    e ← aget pageTable j;
    mret (if frameNum e =? fn then pageNum e else acc)) (-1).

(** The hit test: [inr (i, pageNumFromFrame)] at the frame that holds the
    page, else [inl occupiedCount]. *)
Definition hit_scan (frames : list PhysicalMemoryInfo) (va : list VirtualAddressInfo)
    (pageTable : list PageTable) (currentIndex totalFrame totalPage : Z) : res (Z + Z * Z) :=
  for_ctl (Z.to_nat totalFrame) 0 (fun i occupiedCount =>
    f ← aget frames i;
    pageNumFromFrame ← last_page_of_frame pageTable totalPage (pm_frameNum f);
    v ← aget va currentIndex;
    mret (if negb (isOccupied f =? 0) && (vai_pageNum v =? pageNumFromFrame)
          then Return (i, pageNumFromFrame)
          else Continue (occupiedCount + 1))) 0.

(** The stores of a hit. *)
Definition touch_frame (frames : list PhysicalMemoryInfo) (i pageSizeByte offset : Z) :
    res (list PhysicalMemoryInfo) :=
  frames ← set_isOccupied frames i 1;
  set_physicalAddress frames i (i * pageSizeByte + offset).

(** The search for a frame that was never used. *)
Definition free_scan (frames : list PhysicalMemoryInfo) (totalFrame : Z) : res (unit + Z) :=
  for_ctl (Z.to_nat totalFrame) 0 (fun i (s : unit) =>
    f ← aget frames i;
    mret (if isOccupied f =? 0 then Return i else Continue s)) tt.

(** The stores that put the current page into free frame [i]. *)
Definition install_free (frames : list PhysicalMemoryInfo) (va : list VirtualAddressInfo)
    (pageTable : list PageTable) (currentIndex page i pageSizeByte offset : Z) :
    res (list PhysicalMemoryInfo * list VirtualAddressInfo * list PageTable * Z) :=
  va ← set_vai_pageNum va currentIndex page;
  v ← aget va currentIndex;
  pageTable ← set_pageNum pageTable (vai_pageNum v) page;
  pageTable ← set_frameNum pageTable (vai_pageNum v) i;
  e ← aget pageTable page;
  frames ← set_isOccupied frames (frameNum e) 1;
  frames ← set_pm_frameNum frames (frameNum e) i;
  frames ← set_physicalAddress frames (frameNum e) (i * pageSizeByte + offset);
  f ← aget frames (frameNum e);
  mret (frames, va, pageTable, pm_frameNum f).

(** The stores that put the current page into the frame of the victim. *)
Definition install_victim (frames : list PhysicalMemoryInfo) (va : list VirtualAddressInfo)
    (pageTable : list PageTable) (currentIndex page victim pageSizeByte offset : Z) :
    res (list PhysicalMemoryInfo * list VirtualAddressInfo * list PageTable) :=
  va ← set_vai_pageNum va currentIndex page;
  v ← aget va currentIndex;
  pageTable ← set_pageNum pageTable (vai_pageNum v) page;
  pageTable ← set_frameNum pageTable (vai_pageNum v) victim;
  frames ← set_isOccupied frames victim 1;
  frames ← set_pm_frameNum frames victim victim;
  frames ← set_physicalAddress frames victim (victim * pageSizeByte + offset);
  mret (frames, va, pageTable).

(** The loop that forgets every other page of frame [fn]. *)
Definition clear_frame (pageTable : list PageTable) (totalPage fn page : Z) : res (list PageTable) :=
  for_each (Z.to_nat totalPage) 0 (fun j pt =>
    e ← aget pt j;
    if (fn =? frameNum e) && negb (page =? pageNum e)
    then pt ← set_frameNum pt j (-1); set_pageNum pt j (-1)
    else mret pt) pageTable.

(** The search for the page of a frame that breaks at the first match. *)
Definition first_page_of_frame (pageTable : list PageTable) (totalPage fn : Z) : res Z :=
  out ← for_ctl (R := Empty_set) (Z.to_nat totalPage) 0 (fun j acc =>
    e ← aget pageTable j;
    mret (if fn =? frameNum e then Break (pageNum e) else Continue acc)) 0;
  match out with inl p => mret p | inr r => match r : Empty_set with end end.

(** The arrays and the queue that [main] passes to a replacement function. *)
Record Memory := mkMem {
  frames : list PhysicalMemoryInfo;
  vas : list VirtualAddressInfo;
  ptab : list PageTable;
  queue : PageQueue
}.
