(* ===== verification/Residency.v ===== *)
(** The invariant that ties the page table and the physical memory of the
    simulator (src/4/as4.c) to one list: the resident page of each frame in
    use. The scans and stores of PageTables.v are specified against it. *)

From S2P Require Import Prelude PageQueue PageTables.
Local Open Scope Z_scope.

Section Rep.
  Context (n np : nat).

(** [rs !! i] is the page in frame [i]; frames are taken in order, so the
    frames from [length rs] on are free. *)
Record Rep (rs : list Z) (F : list PhysicalMemoryInfo) (P : list PageTable) : Prop := {
  rep_frames : length F = n;
  rep_ptab : length P = np;
  rep_len : (length rs <= n)%nat;
  rep_nodup : NoDup rs;
  rep_range : forall i p, rs !! i = Some p -> 0 <= p < Z.of_nat np;
  rep_occ : forall i f, F !! i = Some f -> (i < length rs)%nat ->
      isOccupied f = 1 /\ pm_frameNum f = Z.of_nat i;
  rep_free : forall i f, F !! i = Some f -> (length rs <= i)%nat -> isOccupied f = 0;
  rep_in : forall i p e, rs !! i = Some p -> P !! Z.to_nat p = Some e ->
      pageNum e = p /\ frameNum e = Z.of_nat i;
  rep_out : forall j e, P !! j = Some e -> Z.of_nat j ∉ rs ->
      pageNum e = -1 /\ frameNum e = -1
}.

Lemma Rep_lookup_frame rs F P i : Rep rs F P -> (i < n)%nat -> exists f, F !! i = Some f.
Proof. intros H Hi. apply lookup_lt_is_Some_2. rewrite (rep_frames _ _ _ H). exact Hi. Qed.

Lemma Rep_lookup_page rs F P p : Rep rs F P -> 0 <= p < Z.of_nat np ->
  exists e, P !! Z.to_nat p = Some e.
Proof. intros H Hp. apply lookup_lt_is_Some_2. rewrite (rep_ptab _ _ _ H). lia. Qed.

(** The entries of the page table that name frame [i]. *)
Lemma Rep_frame_iff rs F P i j e : Rep rs F P -> P !! j = Some e -> (i < length rs)%nat ->
  frameNum e = Z.of_nat i <-> rs !! i = Some (Z.of_nat j).
Proof.
  intros H He Hi. split.
  - intros Hfr. destruct (decide (Z.of_nat j ∈ rs)) as [Hin|Hout].
    + apply list_elem_of_lookup in Hin as [k Hk].
      destruct (rep_in _ _ _ H k (Z.of_nat j) e Hk) as [_ Hfk]; [rewrite Nat2Z.id; exact He|].
      assert (k = i) as -> by lia. exact Hk.
    + destruct (rep_out _ _ _ H j e He Hout). lia.
  - intros Hi'. apply (rep_in _ _ _ H i _ e Hi'). rewrite Nat2Z.id. exact He.
Qed.

Lemma last_page_total rs F P fn : Rep rs F P ->
  returns (last_page_of_frame P (Z.of_nat np) fn) (fun _ => True).
Proof.
  intros H. unfold last_page_of_frame.
  eapply returns_mono; [apply (for_each_rule (fun _ _ => True)); [exact I|] | auto].
  intros j acc Hj _. destruct (Rep_lookup_page rs F P j H) as [e He]; [lia|].
  rewrite (aget_ok_Z P j e) by (lia || exact He). apply returns_ok. exact I.
Qed.

Lemma last_page_spec rs F P i p : Rep rs F P -> rs !! i = Some p ->
  last_page_of_frame P (Z.of_nat np) (Z.of_nat i) = Ok p.
Proof.
  intros H Hp. unfold last_page_of_frame. rewrite Nat2Z.id.
  pose proof (rep_range _ _ _ H _ _ Hp) as Hr. pose proof (lookup_lt_Some _ _ _ Hp) as Hi.
  destruct (for_each_rule (fun j acc => acc = if p <? j then p else -1)
    (fun j acc => e ← aget P j; mret (if frameNum e =? Z.of_nat i then pageNum e else acc))
    np 0 (-1)) as (a & -> & Ha).
  - destruct (Z.ltb_spec p 0); [lia | reflexivity].
  - intros j acc Hj ->. destruct (Rep_lookup_page rs F P j H) as [e He]; [lia|].
    rewrite (aget_ok_Z P j e) by (lia || exact He). apply returns_ok.
    pose proof (Rep_frame_iff rs F P i (Z.to_nat j) e H He Hi) as Hiff.
    rewrite Z2Nat.id in Hiff by lia.
    destruct (Z.eqb_spec (frameNum e) (Z.of_nat i)) as [E|E].
    + apply Hiff in E. assert (j = p) as -> by congruence.
      destruct (rep_in _ _ _ H i p e Hp He) as [-> _].
      destruct (Z.ltb_spec p (p + 1)); [reflexivity | lia].
    + assert (j <> p) by (intros ->; apply E, Hiff, Hp).
      destruct (Z.ltb_spec p j), (Z.ltb_spec p (j + 1)); lia || reflexivity.
  - rewrite Ha. destruct (Z.ltb_spec p (0 + Z.of_nat np)); [reflexivity | lia].
Qed.

Lemma first_page_spec rs F P i p : Rep rs F P -> rs !! i = Some p ->
  first_page_of_frame P (Z.of_nat np) (Z.of_nat i) = Ok p.
Proof.
  intros H Hp. unfold first_page_of_frame. rewrite Nat2Z.id.
  pose proof (rep_range _ _ _ H _ _ Hp) as Hr. pose proof (lookup_lt_Some _ _ _ Hp) as Hi.
  destruct (for_ctl_rule (R := Empty_set) (fun j (acc : Z) => j <= p)
    (fun out => out = inl p)
    (fun j acc => e ← aget P j; mret (if Z.of_nat i =? frameNum e then Break (pageNum e) else Continue acc))
    np 0 0) as (a & -> & ->); [lia | | intros s; lia | reflexivity].
  intros j acc Hj Hjp. destruct (Rep_lookup_page rs F P j H) as [e He]; [lia|].
  rewrite (aget_ok_Z P j e) by (lia || exact He). apply returns_ok.
  pose proof (Rep_frame_iff rs F P i (Z.to_nat j) e H He Hi) as Hiff.
  rewrite Z2Nat.id in Hiff by lia.
  destruct (Z.eqb_spec (Z.of_nat i) (frameNum e)) as [E|E]; cbn.
  - symmetry in E. apply Hiff in E. assert (j = p) as -> by congruence.
    destruct (rep_in _ _ _ H i p e Hp He) as [-> _]. reflexivity.
  - assert (j <> p) by (intros ->; apply E; symmetry; apply Hiff, Hp). lia.
Qed.

(** * The hit test *)

Lemma hit_scan_hit rs F P va cur a i p : Rep rs F P ->
  va !! cur = Some (mkVA a p) -> rs !! i = Some p ->
  hit_scan F va P (Z.of_nat cur) (Z.of_nat n) (Z.of_nat np) = Ok (inr (Z.of_nat i, p)).
Proof.
  intros H Hva Hp. unfold hit_scan. rewrite Nat2Z.id.
  pose proof (lookup_lt_Some _ _ _ Hp) as Hi. pose proof (rep_len _ _ _ H) as Hlen.
  edestruct (for_ctl_rule (fun j (occ : Z) => j <= Z.of_nat i)
    (fun out => out = inr (Z.of_nat i, p))) as (out & E & ->).
  4: exact E. 1: lia. 2: intros s; lia.
  intros j occ Hj Hji. cbv beta. destruct (Rep_lookup_frame rs F P (Z.to_nat j) H) as [f Hf]; [lia|].
  rewrite (aget_ok_Z F j f) by (lia || exact Hf). cbn [mbind res_bind].
  destruct (rep_occ _ _ _ H _ _ Hf) as [Hocc Hfn]; [lia|].
  destruct (lookup_lt_is_Some_2 rs (Z.to_nat j)) as [p' Hp']; [lia|].
  rewrite Hfn, (last_page_spec rs F P _ p' H Hp'). cbn [mbind res_bind].
  rewrite (aget_ok va cur _ Hva). apply returns_ok. rewrite Hocc. cbn.
  destruct (Z.eqb_spec p p') as [->|Hne]; cbn.
  - rewrite (NoDup_lookup rs i (Z.to_nat j) p' (rep_nodup _ _ _ H) Hp Hp'). f_equal. f_equal. lia.
  - assert (Z.to_nat j <> i) by congruence. lia.
Qed.

Lemma hit_scan_miss rs F P va cur a p : Rep rs F P ->
  va !! cur = Some (mkVA a p) -> p ∉ rs ->
  hit_scan F va P (Z.of_nat cur) (Z.of_nat n) (Z.of_nat np) = Ok (inl (Z.of_nat n)).
Proof.
  intros H Hva Hp. unfold hit_scan. rewrite Nat2Z.id.
  edestruct (for_ctl_rule (fun j (occ : Z) => occ = j)
    (fun out => out = @inl Z (Z * Z) (Z.of_nat n))) as (out & E & ->).
  4: exact E. 1: reflexivity. 2: intros s ->; f_equal; lia.
  intros j occ Hj ->. cbv beta. destruct (Rep_lookup_frame rs F P (Z.to_nat j) H) as [f Hf]; [lia|].
  rewrite (aget_ok_Z F j f) by (lia || exact Hf). cbn [mbind res_bind].
  destruct (decide (Z.to_nat j < length rs)%nat) as [Hlt|Hge].
  - destruct (rep_occ _ _ _ H _ _ Hf) as [Hocc Hfn]; [lia|].
    destruct (lookup_lt_is_Some_2 rs (Z.to_nat j)) as [p' Hp']; [lia|].
    rewrite Hfn, (last_page_spec rs F P _ p' H Hp'). cbn [mbind res_bind].
    rewrite (aget_ok va cur _ Hva). apply returns_ok. rewrite Hocc. cbn.
    destruct (Z.eqb_spec p p') as [->|Hne]; cbn; [|reflexivity].
    exfalso. apply Hp, list_elem_of_lookup. eauto.
  - destruct (last_page_total rs F P (pm_frameNum f) H) as (x & -> & _). cbn [mbind res_bind].
    rewrite (aget_ok va cur _ Hva). apply returns_ok.
    rewrite (rep_free _ _ _ H _ _ Hf) by lia. reflexivity.
Qed.

(** * The search for a free frame *)

Lemma free_scan_found rs F P : Rep rs F P -> (length rs < n)%nat ->
  free_scan F (Z.of_nat n) = Ok (inr (Z.of_nat (length rs))).
Proof.
  intros H Hlt. unfold free_scan. rewrite Nat2Z.id.
  edestruct (for_ctl_rule (fun j (s : unit) => j <= Z.of_nat (length rs))
    (fun out => out = inr (Z.of_nat (length rs)))) as (out & E & ->).
  4: exact E. 1: lia. 2: intros s; lia.
  intros j s Hj Hjl. cbv beta. destruct (Rep_lookup_frame rs F P (Z.to_nat j) H) as [f Hf]; [lia|].
  rewrite (aget_ok_Z F j f) by (lia || exact Hf). apply returns_ok.
  destruct (decide (Z.to_nat j < length rs)%nat) as [Hl|Hge].
  - destruct (rep_occ _ _ _ H _ _ Hf) as [-> _]; [lia|]. cbn. lia.
  - rewrite (rep_free _ _ _ H _ _ Hf) by lia. cbn. f_equal. lia.
Qed.

Lemma free_scan_none rs F P : Rep rs F P -> length rs = n ->
  free_scan F (Z.of_nat n) = Ok (inl tt).
Proof.
  intros H Heq. unfold free_scan. rewrite Nat2Z.id.
  edestruct (for_ctl_rule (fun (j : Z) (s : unit) => True)
    (fun out => out = @inl unit Z tt)) as (out & E & ->).
  4: exact E. 1: exact I. 2: intros []; reflexivity.
  intros j s Hj _. cbv beta. destruct (Rep_lookup_frame rs F P (Z.to_nat j) H) as [f Hf]; [lia|].
  rewrite (aget_ok_Z F j f) by (lia || exact Hf). apply returns_ok.
  destruct (rep_occ _ _ _ H _ _ Hf) as [-> _]; [lia|]. exact I.
Qed.

(** * The stores *)

Lemma touch_frame_eq F i f ps off : F !! i = Some f ->
  touch_frame F (Z.of_nat i) ps off =
  Ok (<[i := mkPM 1 (pm_frameNum f) (Z.of_nat i * ps + off)]> F).
Proof.
  intros Hf. unfold touch_frame, set_isOccupied, set_physicalAddress.
  rewrite (aupd_ok _ F _ f) by (lia || (rewrite Nat2Z.id; exact Hf)). rewrite Nat2Z.id.
  cbn [mbind res_bind].
  rewrite (aupd_ok _ _ _ (mkPM 1 (pm_frameNum f) (physicalAddress f))).
  - rewrite Nat2Z.id, list_insert_insert_eq. reflexivity.
  - lia.
  - rewrite Nat2Z.id. apply list_lookup_insert_eq. eapply lookup_lt_Some, Hf.
Qed.

Lemma set_vai_pageNum_id va cur a p : va !! cur = Some (mkVA a p) ->
  set_vai_pageNum va (Z.of_nat cur) p = Ok va.
Proof.
  intros H. unfold set_vai_pageNum. rewrite (aupd_ok _ va _ (mkVA a p)).
  - rewrite Nat2Z.id. cbn. rewrite list_insert_id by exact H. reflexivity.
  - lia.
  - rewrite Nat2Z.id. exact H.
Qed.

(** The two stores to an entry of the page table. *)
Lemma set_entry_eq (P : list PageTable) p e v : 0 <= p -> P !! Z.to_nat p = Some e ->
  (P1 ← set_pageNum P p p; set_frameNum P1 p v) =
  Ok (<[Z.to_nat p := mkPT p v (referenceBit e)]> P).
Proof.
  intros Hp He. unfold set_pageNum, set_frameNum.
  rewrite (aupd_ok _ P p e Hp He). cbn [mbind res_bind].
  rewrite (aupd_ok _ _ _ (mkPT p (frameNum e) (referenceBit e)) Hp).
  - cbn. rewrite list_insert_insert_eq. reflexivity.
  - apply list_lookup_insert_eq. eapply lookup_lt_Some, He.
Qed.

(** The three stores to a frame. *)
Lemma set_frame_eq (F : list PhysicalMemoryInfo) i f x : F !! i = Some f ->
  (F1 ← set_isOccupied F (Z.of_nat i) 1;
   F2 ← set_pm_frameNum F1 (Z.of_nat i) (Z.of_nat i);
   set_physicalAddress F2 (Z.of_nat i) x) =
  Ok (<[i := mkPM 1 (Z.of_nat i) x]> F).
Proof.
  intros Hf. pose proof (lookup_lt_Some _ _ _ Hf) as Hlt.
  unfold set_isOccupied, set_pm_frameNum, set_physicalAddress.
  rewrite (aupd_ok _ F _ f) by (lia || (rewrite Nat2Z.id; exact Hf)). cbn [mbind res_bind].
  erewrite aupd_ok; [|lia| rewrite !Nat2Z.id; apply list_lookup_insert_eq, Hlt].
  cbn [mbind res_bind].
  erewrite aupd_ok; [|lia| rewrite !Nat2Z.id; apply list_lookup_insert_eq;
                           rewrite length_insert; exact Hlt].
  rewrite !Nat2Z.id, !list_insert_insert_eq. reflexivity.
Qed.

Lemma bind_assoc_ok {A B C} (m : res A) (f : A -> res B) (g : B -> res C) :
  ((m ≫= f) ≫= g) = (m ≫= (fun a => f a ≫= g)).
Proof. destruct m; reflexivity. Qed.

Lemma install_victim_eq F va P cur a p e v f ps off : 0 <= p ->
  va !! cur = Some (mkVA a p) -> P !! Z.to_nat p = Some e -> F !! v = Some f ->
  install_victim F va P (Z.of_nat cur) p (Z.of_nat v) ps off =
  Ok (<[v := mkPM 1 (Z.of_nat v) (Z.of_nat v * ps + off)]> F, va,
      <[Z.to_nat p := mkPT p (Z.of_nat v) (referenceBit e)]> P).
Proof.
  intros Hp Hva He Hf. unfold install_victim.
  rewrite (set_vai_pageNum_id va cur a p Hva). cbn [mbind res_bind].
  rewrite (aget_ok va cur _ Hva). cbn [mbind res_bind vai_pageNum].
  rewrite <- bind_assoc_ok, (set_entry_eq P p e _ Hp He). cbn [mbind res_bind].
  pose proof (set_frame_eq F v f (Z.of_nat v * ps + off) Hf) as E.
  rewrite <- !bind_assoc_ok in *. rewrite E. reflexivity.
Qed.

Lemma install_free_eq F va P cur a p e i f ps off : 0 <= p ->
  va !! cur = Some (mkVA a p) -> P !! Z.to_nat p = Some e -> F !! i = Some f ->
  install_free F va P (Z.of_nat cur) p (Z.of_nat i) ps off =
  Ok (<[i := mkPM 1 (Z.of_nat i) (Z.of_nat i * ps + off)]> F, va,
      <[Z.to_nat p := mkPT p (Z.of_nat i) (referenceBit e)]> P, Z.of_nat i).
Proof.
  intros Hp Hva He Hf. unfold install_free.
  rewrite (set_vai_pageNum_id va cur a p Hva). cbn [mbind res_bind].
  rewrite (aget_ok va cur _ Hva). cbn [mbind res_bind vai_pageNum].
  rewrite <- bind_assoc_ok, (set_entry_eq P p e _ Hp He). cbn [mbind res_bind].
  rewrite (aget_ok_Z _ p (mkPT p (Z.of_nat i) (referenceBit e)) Hp)
    by (apply list_lookup_insert_eq; eapply lookup_lt_Some, He).
  cbn [mbind res_bind frameNum].
  pose proof (set_frame_eq F i f (Z.of_nat i * ps + off) Hf) as E.
  rewrite <- !bind_assoc_ok in *. rewrite E. cbn [mbind res_bind].
  rewrite (aget_ok _ i (mkPM 1 (Z.of_nat i) (Z.of_nat i * ps + off)))
    by (apply list_lookup_insert_eq; eapply lookup_lt_Some, Hf).
  reflexivity.
Qed.

(** What [clear_frame] does to one entry. *)
Definition clear_entry (fn page : Z) (e : PageTable) : PageTable :=
  if (fn =? frameNum e) && negb (page =? pageNum e)
  then mkPT (-1) (-1) (referenceBit e) else e.

Lemma clear_frame_eq P fn page : length P = np ->
  clear_frame P (Z.of_nat np) fn page = Ok (clear_entry fn page <$> P).
Proof.
  intros <-. unfold clear_frame. rewrite Nat2Z.id. apply for_each_fmap.
  intros j l e _ He Hj. rewrite (aget_ok_Z l j e Hj He). cbn [mbind res_bind].
  unfold clear_entry. destruct ((fn =? frameNum e) && negb (page =? pageNum e)).
  - unfold set_frameNum, set_pageNum. rewrite (aupd_ok _ l j e Hj He). cbn [mbind res_bind].
    erewrite aupd_ok; [|exact Hj| apply list_lookup_insert_eq; eapply lookup_lt_Some, He].
    rewrite list_insert_insert_eq. reflexivity.
  - rewrite list_insert_id by exact He. reflexivity.
Qed.

(** * Preservation of the invariant *)

Lemma Rep_start F P : length F = n -> length P = np ->
  Forall (fun f => isOccupied f = 0) F ->
  Forall (fun e => pageNum e = -1 /\ frameNum e = -1) P -> Rep [] F P.
Proof.
  intros HF HP Hf He. split; auto; cbn; try lia.
  - apply NoDup_nil_2.
  - intros i p H. rewrite lookup_nil in H. discriminate.
  - intros i f H _. eapply (Forall_lookup_1 _ _ _ _ Hf H).
  - intros i p e H. rewrite lookup_nil in H. discriminate.
  - intros j e H _. eapply (Forall_lookup_1 _ _ _ _ He H).
Qed.

Lemma Rep_touch rs F P i x : Rep rs F P -> (i < length rs)%nat ->
  Rep rs (<[i := mkPM 1 (Z.of_nat i) x]> F) P.
Proof.
  intros H Hi. destruct H as [HF HP Hl Hnd Hr Ho Hfr Hin Hout].
  split; auto; [rewrite length_insert; exact HF | |].
  - intros j f Hj Hlt. rewrite list_lookup_insert in Hj.
    destruct (decide _) as [[-> _]|_]; [injection Hj as <-; auto | eauto].
  - intros j f Hj Hge. rewrite list_lookup_insert_ne in Hj by lia. eauto.
Qed.

(** A change of reference bits only. *)
Lemma Rep_refs rs F P P' : Rep rs F P -> length P' = length P ->
  (forall j e e', P !! j = Some e -> P' !! j = Some e' ->
     pageNum e' = pageNum e /\ frameNum e' = frameNum e) -> Rep rs F P'.
Proof.
  intros H Hlen Hsame. destruct H as [HF HP Hl Hnd Hr Ho Hfr Hin Hout].
  assert (forall j e', P' !! j = Some e' -> exists e, P !! j = Some e) as Hex.
  { intros j e' He'. apply lookup_lt_is_Some_2. rewrite <- Hlen. eapply lookup_lt_Some, He'. }
  split; auto; [congruence | |].
  - intros i p e' Hi He'. destruct (Hex _ _ He') as [e He].
    destruct (Hsame _ _ _ He He') as [-> ->]. eauto.
  - intros j e' He' Hn. destruct (Hex _ _ He') as [e He].
    destruct (Hsame _ _ _ He He') as [-> ->]. eauto.
Qed.

Lemma Rep_append rs F P p b x : Rep rs F P -> (length rs < n)%nat ->
  0 <= p < Z.of_nat np -> p ∉ rs ->
  Rep (rs ++ [p]) (<[length rs := mkPM 1 (Z.of_nat (length rs)) x]> F)
      (<[Z.to_nat p := mkPT p (Z.of_nat (length rs)) b]> P).
Proof.
  intros H Hlt Hp Hnin. destruct H as [HF HP Hl Hnd Hr Ho Hfr Hin Hout].
  split.
  - rewrite length_insert. exact HF.
  - rewrite length_insert. exact HP.
  - rewrite length_app. cbn. lia.
  - apply NoDup_app. split; [exact Hnd|]. split; [|apply NoDup_singleton].
    intros y Hy Hy'. apply list_elem_of_singleton in Hy' as ->. contradiction.
  - intros i q Hi. apply lookup_app_Some in Hi as [Hi|[_ Hi]]; [eauto|].
    apply list_lookup_singleton_Some in Hi as [_ <-]. exact Hp.
  - intros i f Hi Hlt'. rewrite length_app in Hlt'. cbn in Hlt'. rewrite list_lookup_insert in Hi.
    destruct (decide _) as [[<- _]|Hne]; [injection Hi as <-; auto|].
    apply (Ho _ _ Hi). apply lookup_lt_Some in Hi. destruct (decide (length rs = i)); [|lia].
    exfalso. apply Hne. split; [assumption | lia].
  - intros i f Hi Hge. rewrite length_app in Hge. cbn in Hge.
    rewrite list_lookup_insert_ne in Hi by lia. apply (Hfr _ _ Hi). lia.
  - intros i q e Hi He. apply lookup_app_Some in Hi as [Hi|[Hge Hi]].
    + rewrite list_lookup_insert_ne in He; [eauto|]. intros E. apply Hnin.
      apply list_elem_of_lookup. exists i. pose proof (Hr _ _ Hi). rewrite Hi. f_equal. lia.
    + apply list_lookup_singleton_Some in Hi as [Hi <-]. assert (i = length rs) as -> by lia.
      rewrite list_lookup_insert_eq in He by lia. injection He as <-. auto.
  - intros j e He Hn. rewrite not_elem_of_app, list_elem_of_singleton in Hn. destruct Hn as [Hn Hjp].
    rewrite list_lookup_insert_ne in He by lia. eauto.
Qed.

(** The page table after the victim's entry is cleared and the new page's entry
    is written, in either order. *)
Definition swapped (P P' : list PageTable) (old p : Z) (v : nat) : Prop :=
  length P' = length P /\
  (exists b, P' !! Z.to_nat p = Some (mkPT p (Z.of_nat v) b)) /\
  (forall e', P' !! Z.to_nat old = Some e' -> pageNum e' = -1 /\ frameNum e' = -1) /\
  (forall j, j <> Z.to_nat p -> j <> Z.to_nat old -> P' !! j = P !! j).

Lemma Rep_replace rs F P P' v old p x : Rep rs F P -> rs !! v = Some old ->
  0 <= p < Z.of_nat np -> p ∉ rs -> swapped P P' old p v ->
  Rep (<[v := p]> rs) (<[v := mkPM 1 (Z.of_nat v) x]> F) P'.
Proof.
  intros H Hv Hp Hnin (HlenP & [b Hb] & Hold & Hsame).
  destruct H as [HF HP Hl Hnd Hr Ho Hfr Hin Hout].
  pose proof (lookup_lt_Some _ _ _ Hv) as Hvlt.
  assert (forall i q, i <> v -> rs !! i = Some q -> q <> p /\ q <> old) as Hother.
  { intros i q Hi Hq. split; intros ->.
    - apply Hnin, list_elem_of_lookup. eauto.
    - apply Hi, (NoDup_lookup rs i v old Hnd Hq Hv). }
  assert (forall i q, <[v := p]> rs !! i = Some q -> (i = v /\ q = p) \/ (i <> v /\ rs !! i = Some q)) as Hins.
  { intros i q. rewrite list_lookup_insert. destruct (decide _) as [[<- _]|Hne].
    - intros [= <-]. auto.
    - intros Hq. right. split; [|exact Hq]. intros ->. apply Hne. auto. }
  split.
  - rewrite length_insert. exact HF.
  - congruence.
  - rewrite length_insert. exact Hl.
  - apply NoDup_alt. intros i j q Hi Hj.
    destruct (Hins _ _ Hi) as [[-> ->]|[Hiv Hi']], (Hins _ _ Hj) as [[-> ?]|[Hjv Hj']]; subst.
    + reflexivity.
    + destruct (Hother _ _ Hjv Hj'). congruence.
    + destruct (Hother _ _ Hiv Hi'). congruence.
    + apply (NoDup_lookup rs i j q Hnd Hi' Hj').
  - intros i q Hi. destruct (Hins _ _ Hi) as [[_ ->]|[_ Hi']]; eauto.
  - intros i f Hi Hlt. rewrite length_insert in Hlt. rewrite list_lookup_insert in Hi.
    destruct (decide _) as [[<- _]|_]; [injection Hi as <-; auto | eauto].
  - intros i f Hi Hge. rewrite length_insert in Hge. rewrite list_lookup_insert_ne in Hi by lia. eauto.
  - intros i q e Hi He. destruct (Hins _ _ Hi) as [[-> ->]|[Hiv Hi']].
    + rewrite Hb in He. injection He as <-. auto.
    + destruct (Hother _ _ Hiv Hi'). pose proof (Hr _ _ Hi'). pose proof (Hr _ _ Hv).
      rewrite Hsame in He by lia. eauto.
  - intros j e He Hn. pose proof (Hr _ _ Hv).
    assert (Z.of_nat j <> p) as Hjp.
    { intros <-. apply Hn, list_elem_of_lookup. exists v. apply list_lookup_insert_eq. exact Hvlt. }
    destruct (decide (j = Z.to_nat old)) as [->|Hjo]; [eauto|].
    rewrite Hsame in He by lia. apply (Hout _ _ He). intros Hj. apply Hn.
    apply list_elem_of_lookup in Hj as [i Hi]. apply list_elem_of_lookup. exists i.
    rewrite list_lookup_insert_ne; [exact Hi|]. intros ->. rewrite Hv in Hi. injection Hi as Hi. lia.
Qed.

(** Clearing frame [v] forgets its resident page, and nothing else. *)
Lemma clear_entry_lookup rs F P v old page j e : Rep rs F P -> rs !! v = Some old ->
  page <> old -> P !! j = Some e ->
  clear_entry (Z.of_nat v) page e =
  if decide (j = Z.to_nat old) then mkPT (-1) (-1) (referenceBit e) else e.
Proof.
  intros H Hv Hne He. pose proof (rep_range _ _ _ H _ _ Hv) as Hr.
  pose proof (Rep_frame_iff rs F P v j e H He (lookup_lt_Some _ _ _ Hv)) as Hiff.
  unfold clear_entry. case_decide as Hd.
  - subst j. destruct (rep_in _ _ _ H _ _ _ Hv He) as [-> ->].
    rewrite Z.eqb_refl. destruct (Z.eqb_spec page old); [contradiction | reflexivity].
  - destruct (Z.eqb_spec (Z.of_nat v) (frameNum e)) as [E|E]; [|reflexivity].
    symmetry in E. apply Hiff in E. rewrite Hv in E. injection E as ->. exfalso. apply Hd. lia.
Qed.

(** Clearing before the new entry is written (FIFO and second chance). *)
Lemma swapped_clear_first rs F P v old p b : Rep rs F P -> rs !! v = Some old ->
  0 <= p < Z.of_nat np -> p ∉ rs ->
  swapped P (<[Z.to_nat p := mkPT p (Z.of_nat v) b]> (clear_entry (Z.of_nat v) p <$> P)) old p v.
Proof.
  intros H Hv Hp Hnin. pose proof (rep_range _ _ _ H _ _ Hv) as Hr.
  assert (p <> old) as Hne by (intros ->; apply Hnin, list_elem_of_lookup; eauto).
  split; [rewrite length_insert, length_fmap; reflexivity|]. split; [|split].
  - exists b. apply list_lookup_insert_eq. rewrite length_fmap, (rep_ptab _ _ _ H). lia.
  - intros e'. rewrite list_lookup_insert_ne by lia. rewrite list_lookup_fmap.
    destruct (P !! Z.to_nat old) as [e|] eqn:He; [|discriminate]. cbn. intros [= <-].
    rewrite (clear_entry_lookup rs F P v old p _ e H Hv Hne He), decide_True by reflexivity. auto.
  - intros j Hjp Hjo. rewrite list_lookup_insert_ne by congruence. rewrite list_lookup_fmap.
    destruct (P !! j) as [e|] eqn:He; [|reflexivity]. cbn.
    rewrite (clear_entry_lookup rs F P v old p _ e H Hv Hne He), decide_False by exact Hjo. reflexivity.
Qed.

(** Clearing after it (Optimal and LRU): the new entry is spared. *)
Lemma swapped_clear_last rs F P v old p b : Rep rs F P -> rs !! v = Some old ->
  0 <= p < Z.of_nat np -> p ∉ rs ->
  swapped P (clear_entry (Z.of_nat v) p <$> <[Z.to_nat p := mkPT p (Z.of_nat v) b]> P) old p v.
Proof.
  intros H Hv Hp Hnin.
  assert (clear_entry (Z.of_nat v) p <$> <[Z.to_nat p := mkPT p (Z.of_nat v) b]> P =
          <[Z.to_nat p := mkPT p (Z.of_nat v) b]> (clear_entry (Z.of_nat v) p <$> P)) as ->.
  { rewrite list_fmap_insert. f_equal. unfold clear_entry. cbn.
    rewrite !Z.eqb_refl. reflexivity. }
  eapply swapped_clear_first; eassumption.
Qed.

(** * The queue of frames *)

(** The queue holds every frame in use once. *)
Record QueueRep (rs : list Z) (fs : list Z) (q : PageQueue) : Prop := {
  qr_queue : QRep q fs;
  qr_size : maxSize q = Z.of_nat n;
  qr_perm : fs ≡ₚ Z.of_nat <$> seq 0 (length rs)
}.

(** The pages of a list of frames. *)
Definition pages (rs : list Z) (fs : list Z) : list Z :=
  (fun f => rs !!! Z.to_nat f) <$> fs.

Lemma qr_length rs fs q : QueueRep rs fs q -> length fs = length rs.
Proof.
  intros H. rewrite (Permutation_length (qr_perm _ _ _ H)), length_fmap, length_seq. reflexivity.
Qed.

Lemma pages_length rs fs q : QueueRep rs fs q -> length (pages rs fs) = length rs.
Proof. intros H. unfold pages. rewrite length_fmap. exact (qr_length _ _ _ H). Qed.

Lemma qr_elem rs fs q f : QueueRep rs fs q -> f ∈ fs ->
  exists i, f = Z.of_nat i /\ (i < length rs)%nat.
Proof.
  intros H Hf. rewrite (qr_perm _ _ _ H) in Hf. apply list_elem_of_fmap in Hf as (i & -> & Hi).
  apply elem_of_seq in Hi. exists i. split; [reflexivity | lia].
Qed.

Lemma qr_nodup rs fs q : QueueRep rs fs q -> NoDup fs.
Proof.
  intros H. rewrite (qr_perm _ _ _ H). apply NoDup_fmap; [intros ??; lia | apply NoDup_seq].
Qed.

Lemma qr_head rs f fs q : QueueRep rs (f :: fs) q ->
  exists v old, f = Z.of_nat v /\ rs !! v = Some old.
Proof.
  intros H. destruct (qr_elem _ _ _ f H) as (v & -> & Hv); [set_solver|].
  destruct (lookup_lt_is_Some_2 rs v Hv) as [old Hold]. eauto.
Qed.

Lemma pages_insert_other rs fs v p : Z.of_nat v ∉ fs -> (forall f, f ∈ fs -> 0 <= f) ->
  pages (<[v := p]> rs) fs = pages rs fs.
Proof.
  intros Hv Hpos. unfold pages. apply list_fmap_ext. intros i f Hf.
  apply list_elem_of_lookup_2 in Hf. apply list_lookup_total_insert_ne.
  intros ->. apply Hv. rewrite Z2Nat.id by auto. exact Hf.
Qed.

Lemma pages_app_old rs p fs : (forall f, f ∈ fs -> (Z.to_nat f < length rs)%nat) ->
  pages (rs ++ [p]) fs = pages rs fs.
Proof.
  intros H. unfold pages. apply list_fmap_ext. intros i f Hf.
  apply lookup_total_app_l. eapply H, list_elem_of_lookup_2, Hf.
Qed.

Lemma elem_of_pages rs fs q p : QueueRep rs fs q -> p ∈ pages rs fs <-> p ∈ rs.
Proof.
  intros H. unfold pages. rewrite (qr_perm _ _ _ H), list_elem_of_fmap. split.
  - intros (f & -> & Hf). apply list_elem_of_fmap in Hf as (i & -> & Hi). apply elem_of_seq in Hi.
    rewrite Nat2Z.id. apply list_elem_of_lookup_2 with i. apply list_lookup_lookup_total_lt. lia.
  - intros Hp. apply list_elem_of_lookup in Hp as [i Hi]. exists (Z.of_nat i).
    rewrite Nat2Z.id. split; [symmetry; apply list_lookup_total_correct, Hi|].
    apply list_elem_of_fmap_2, elem_of_seq. apply lookup_lt_Some in Hi. lia.
Qed.

(** The queue lists the resident pages. *)
Lemma pages_perm rs fs q : QueueRep rs fs q -> pages rs fs ≡ₚ rs.
Proof.
  intros H. unfold pages. rewrite (qr_perm _ _ _ H), <- list_fmap_compose.
  enough (((fun f => rs !!! Z.to_nat f) ∘ Z.of_nat) <$> seq 0 (length rs) = rs) as -> by reflexivity.
  apply list_ext_lookup; [rewrite length_fmap, length_seq; reflexivity|].
  intros k x y Hx Hy. rewrite list_lookup_fmap in Hx.
  rewrite lookup_seq_lt in Hx by (eapply lookup_lt_Some, Hy). cbn in Hx. injection Hx as <-.
  rewrite Nat2Z.id. apply list_lookup_total_correct, Hy.
Qed.

Lemma pages_delete rs fs k : pages rs (delete k fs) = delete k (pages rs fs).
Proof. unfold pages. apply list_fmap_delete. Qed.

(** A page put into the next free frame joins the end of the queue. *)
Lemma QueueRep_append rs fs q p : QueueRep rs fs q -> (length rs < n)%nat ->
  exists q', enqueue q (Z.of_nat (length rs)) = Ok (0, q') /\
    QueueRep (rs ++ [p]) (fs ++ [Z.of_nat (length rs)]) q' /\
    pages (rs ++ [p]) (fs ++ [Z.of_nat (length rs)]) = pages rs fs ++ [p].
Proof.
  intros H Hlt. pose proof (qr_length _ _ _ H) as Hl. pose proof (qr_size _ _ _ H) as Hs.
  destruct (enqueue_spec q fs (Z.of_nat (length rs)) (qr_queue _ _ _ H)) as (q' & Heq & Hq & Hm & _); [lia|].
  exists q'. split; [exact Heq|]. split.
  - split; [exact Hq | congruence |].
    rewrite length_app, Nat.add_comm. cbn [length Nat.add]. rewrite seq_S, fmap_app. cbn.
    rewrite (qr_perm _ _ _ H). reflexivity.
  - unfold pages at 1. rewrite fmap_app. cbn. fold (pages (rs ++ [p]) fs). f_equal.
    + apply pages_app_old. intros f Hf. destruct (qr_elem _ _ _ f H Hf) as (i & -> & Hi). lia.
    + rewrite Nat2Z.id, list_lookup_total_middle by reflexivity. reflexivity.
Qed.

(** The frame [v] in hand, given to page [p], joins the end of the queue of the
    other frames. *)
Lemma QueueRep_rotate rs v fs q' p : Z.of_nat v :: fs ≡ₚ Z.of_nat <$> seq 0 (length rs) ->
  (length rs <= n)%nat -> QRep q' fs -> maxSize q' = Z.of_nat n ->
  exists q'', enqueue q' (Z.of_nat v) = Ok (0, q'') /\
    QueueRep (<[v := p]> rs) (fs ++ [Z.of_nat v]) q'' /\
    pages (<[v := p]> rs) (fs ++ [Z.of_nat v]) = pages rs fs ++ [p].
Proof.
  intros Hp Hl Hq' Hm'. pose proof (Permutation_length Hp) as Hlf.
  rewrite length_fmap, length_seq in Hlf. cbn in Hlf.
  assert (forall f, f ∈ Z.of_nat v :: fs -> exists i, f = Z.of_nat i /\ (i < length rs)%nat) as Hin.
  { intros f Hf. rewrite Hp in Hf. apply list_elem_of_fmap in Hf as (i & -> & Hi).
    apply elem_of_seq in Hi. exists i. split; [reflexivity | lia]. }
  destruct (Hin (Z.of_nat v)) as (v' & Hv' & Hvlt); [left|].
  assert (v' = v) as -> by lia.
  assert (NoDup (Z.of_nat v :: fs)) as Hnd.
  { rewrite Hp. apply NoDup_fmap; [intros ??; lia | apply NoDup_seq]. }
  apply NoDup_cons in Hnd as [Hnin _].
  destruct (enqueue_spec q' fs (Z.of_nat v) Hq') as (q'' & Heq & Hq & Hm & _); [lia|].
  exists q''. split; [exact Heq|]. split.
  - split; [exact Hq | congruence |]. rewrite length_insert, <- Hp.
    rewrite Permutation_app_comm. reflexivity.
  - unfold pages at 1. rewrite fmap_app. cbn. fold (pages (<[v := p]> rs) fs). f_equal.
    + apply pages_insert_other; [exact Hnin|]. intros f Hf.
      destruct (Hin f) as (i & -> & _); [right; exact Hf | lia].
    + rewrite Nat2Z.id, list_lookup_total_insert_eq by exact Hvlt. reflexivity.
Qed.

(** * The reference string *)

(** Every entry names its page, and the page is one of the table. *)
Definition vas_ok (ps : Z) (va : list VirtualAddressInfo) : Prop :=
  forall i e, va !! i = Some e ->
    vai_pageNum e = Z.quot (virtualAddress e) ps /\ 0 <= vai_pageNum e < Z.of_nat np.

(** What a replacement function leaves for the output: the page of address [a]
    is resident in a frame that carries the physical address. *)
Definition served (rs : list Z) (F : list PhysicalMemoryInfo) (ps a p : Z) : Prop :=
  exists i, rs !! i = Some p /\
    F !! i = Some (mkPM 1 (Z.of_nat i) (Z.of_nat i * ps + Z.rem a ps)).

Lemma served_insert rs F ps a p i : rs !! i = Some p -> (i < length F)%nat ->
  served rs (<[i := mkPM 1 (Z.of_nat i) (Z.of_nat i * ps + Z.rem a ps)]> F) ps a p.
Proof. intros H Hi. exists i. split; [exact H | apply list_lookup_insert_eq, Hi]. Qed.

(** * The three outcomes of a call, for the part all algorithms share *)

Section Serve.
  Context (rs : list Z) (F : list PhysicalMemoryInfo) (va : list VirtualAddressInfo)
    (P : list PageTable) (cur : nat) (a p ps : Z).
  Hypothesis rep : Rep rs F P.
  Hypothesis range : 0 <= p < Z.of_nat np.
  Hypothesis current : va !! cur = Some (mkVA a p).

Lemma serve_hit i : rs !! i = Some p ->
  exists F', touch_frame F (Z.of_nat i) ps (Z.rem a ps) = Ok F' /\
    Rep rs F' P /\ served rs F' ps a p.
Proof using a ps rep.
  intros Hi. pose proof (lookup_lt_Some _ _ _ Hi) as Hlt. pose proof (rep_len _ _ _ rep).
  destruct (Rep_lookup_frame rs F P i rep) as [f Hf]; [lia|].
  eexists. split; [apply (touch_frame_eq F i f), Hf|].
  destruct (rep_occ _ _ _ rep i f Hf Hlt) as [_ ->].
  split; [apply Rep_touch; assumption|]. apply served_insert; [exact Hi|].
  eapply lookup_lt_Some, Hf.
Qed.

Lemma serve_free e : p ∉ rs -> (length rs < n)%nat -> P !! Z.to_nat p = Some e ->
  exists F', install_free F va P (Z.of_nat cur) p (Z.of_nat (length rs)) ps (Z.rem a ps) =
      Ok (F', va, <[Z.to_nat p := mkPT p (Z.of_nat (length rs)) (referenceBit e)]> P,
          Z.of_nat (length rs)) /\
    Rep (rs ++ [p]) F' (<[Z.to_nat p := mkPT p (Z.of_nat (length rs)) (referenceBit e)]> P) /\
    served (rs ++ [p]) F' ps a p.
Proof.
  intros Hnin Hlt He. destruct (Rep_lookup_frame rs F P (length rs) rep Hlt) as [f Hf].
  eexists. split; [apply (install_free_eq F va P cur a p e _ f); lia || assumption|].
  split; [apply Rep_append; assumption|]. apply served_insert.
  - apply list_lookup_middle. reflexivity.
  - eapply lookup_lt_Some, Hf.
Qed.

Lemma serve_victim P1 v old e : p ∉ rs -> rs !! v = Some old -> P1 !! Z.to_nat p = Some e ->
  exists F', install_victim F va P1 (Z.of_nat cur) p (Z.of_nat v) ps (Z.rem a ps) =
      Ok (F', va, <[Z.to_nat p := mkPT p (Z.of_nat v) (referenceBit e)]> P1) /\
    served (<[v := p]> rs) F' ps a p /\
    forall P2, swapped P P2 old p v -> Rep (<[v := p]> rs) F' P2.
Proof.
  intros Hnin Hv He. pose proof (lookup_lt_Some _ _ _ Hv) as Hlt. pose proof (rep_len _ _ _ rep).
  destruct (Rep_lookup_frame rs F P v rep) as [f Hf]; [lia|].
  eexists. split; [apply (install_victim_eq F va P1 cur a p e v f); lia || assumption|]. split.
  - apply served_insert; [apply list_lookup_insert_eq, Hlt | eapply lookup_lt_Some, Hf].
  - intros P2 Hsw. eapply Rep_replace; eassumption.
Qed.

(** The entry of the new page in the cleared table. *)
Lemma cleared_lookup v old e : p ∉ rs -> rs !! v = Some old -> P !! Z.to_nat p = Some e ->
  p <> old /\ (clear_entry (Z.of_nat v) p <$> P) !! Z.to_nat p = Some e.
Proof using rep range.
  intros Hnin Hv He.
  assert (p <> old) as Hne.
  { intros E. apply Hnin. rewrite E. apply list_elem_of_lookup. exists v. exact Hv. }
  pose proof (rep_range _ _ _ rep _ _ Hv). split; [exact Hne|].
  rewrite list_lookup_fmap, He. cbn.
  rewrite (clear_entry_lookup rs F P v old p _ e rep Hv Hne He), decide_False by lia. reflexivity.
Qed.
End Serve.
End Rep.
