(* ===== verification/Paging.v ===== *)
(** Abstract page caches: the policies src/4/as4.c implements, as step
    functions on lists of pages, without frames, tables or a ring buffer. *)

From S2P Require Import Prelude.
Local Open Scope Z_scope.

(** A cache of [n] pages as a step function: whether the page was resident,
    and the next state. *)
Definition fifo_step (n : nat) (q : list Z) (p : Z) : bool * list Z :=
  if decide (p ∈ q) then (true, q)
  else if (length q <? n)%nat then (false, q ++ [p])
  else (false, tail q ++ [p]).

(** Second chance: pages in arrival order with their reference bits. The pages
    in front whose bit is set go to the back with the bit cleared; when every
    bit is set the oldest page is the victim after one turn. *)
Fixpoint sc_evict (acc q : list (Z * bool)) : list (Z * bool) :=
  match q with
  | [] => tail acc
  | (x, true) :: q => sc_evict (acc ++ [(x, false)]) q
  | (_, false) :: q => q ++ acc
  end.

Definition sc_reference (p : Z) (c : Z * bool) : Z * bool :=
  if fst c =? p then (p, true) else c.

Definition sc_step (n : nat) (q : list (Z * bool)) (p : Z) : bool * list (Z * bool) :=
  if decide (p ∈ q.*1) then (true, sc_reference p <$> q)
  else if (length q <? n)%nat then (false, q ++ [(p, false)])
  else (false, sc_evict [] q ++ [(p, false)]).

(** Least recently used: pages in order of their last use, oldest first. *)
Definition lru_step (n : nat) (q : list Z) (p : Z) : bool * list Z :=
  if decide (p ∈ q) then (true, filter (fun x => x <> p) q ++ [p])
  else if (length q <? n)%nat then (false, q ++ [p])
  else (false, tail q ++ [p]).

(** Optimal: the state is the cache in arrival order and the references to
    come. [next_use] counts the references before the next one to [x]; a page
    that does not come back counts all of them. The victim is the page used
    furthest in the future, the oldest of several. *)
Fixpoint next_use (fut : list Z) (x : Z) : nat :=
  match fut with
  | [] => O
  | y :: fut => if y =? x then O else S (next_use fut x)
  end.

Fixpoint opt_victim (fut q : list Z) : option Z :=
  match q with
  | [] => None
  | x :: q =>
      match opt_victim fut q with
      | Some y => if (next_use fut x <? next_use fut y)%nat then Some y else Some x
      | None => Some x
      end
  end.

Definition opt_step (n : nat) (s : list Z * list Z) (p : Z) : bool * (list Z * list Z) :=
  let '(q, fut) := s in
  if decide (p ∈ q) then (true, (q, tail fut))
  else if (length q <? n)%nat then (false, (q ++ [p], tail fut))
  else match opt_victim fut q with
       | Some v => (false, (filter (fun x => x <> v) q ++ [p], tail fut))
       | None => (false, ([p], tail fut))
       end.

Lemma next_use_le fut x : (next_use fut x <= length fut)%nat.
Proof. induction fut as [|y fut IH]; cbn; [lia|]. destruct (y =? x); lia. Qed.

Lemma next_use_found fut x t : fut !! t = Some x ->
  (forall j, (j < t)%nat -> fut !! j <> Some x) -> next_use fut x = t.
Proof.
  revert t. induction fut as [|y fut IH]; intros t Ht Hmin; [rewrite lookup_nil in Ht; discriminate|].
  cbn. destruct t as [|t].
  - injection Ht as ->. rewrite Z.eqb_refl. reflexivity.
  - destruct (Z.eqb_spec y x) as [->|_]; [exfalso; apply (Hmin O); [lia | reflexivity]|].
    f_equal. apply IH; [exact Ht|]. intros j Hj. apply (Hmin (S j)). lia.
Qed.

Lemma next_use_absent fut x : x ∉ fut -> next_use fut x = length fut.
Proof.
  induction fut as [|y fut IH]; intros Hx; cbn; [reflexivity|].
  apply not_elem_of_cons in Hx as [Hy Hx]. destruct (Z.eqb_spec y x); [congruence|]. auto.
Qed.

Lemma next_use_lookup fut x : (next_use fut x < length fut)%nat -> fut !! next_use fut x = Some x.
Proof.
  induction fut as [|y fut IH]; cbn; [lia|]. destruct (Z.eqb_spec y x) as [->|_]; [reflexivity|].
  intros H. apply IH. lia.
Qed.

(** Distinct pages that come back come back at different times. *)
Lemma next_use_inj fut x y : next_use fut x = next_use fut y ->
  (next_use fut x < length fut)%nat -> x = y.
Proof.
  intros E H. pose proof (next_use_lookup fut x H) as Hx.
  rewrite E in Hx, H. rewrite (next_use_lookup fut y H) in Hx. congruence.
Qed.

(** [x] is the first of [q] with the furthest next use. *)
Definition furthest (fut q : list Z) (x : Z) : Prop :=
  exists k, q !! k = Some x /\ forall j y, q !! j = Some y ->
    (next_use fut y <= next_use fut x)%nat /\
    ((j < k)%nat -> (next_use fut y < next_use fut x)%nat).

Lemma opt_victim_furthest fut q x : opt_victim fut q = Some x -> furthest fut q x.
Proof.
  revert x. induction q as [|z q IH]; intros x; cbn [opt_victim]; [discriminate|].
  destruct (opt_victim fut q) as [y|] eqn:E.
  - destruct (IH y eq_refl) as (k & Hk & Hmax).
    destruct (Nat.ltb_spec (next_use fut z) (next_use fut y)) as [Hlt|Hge]; intros [= <-].
    + exists (S k). split; [exact Hk|]. intros [|j] w Hw.
      * injection Hw as ->. lia.
      * destruct (Hmax j w Hw). split; [assumption | intros; apply H0; lia].
    + exists O. split; [reflexivity|]. intros [|j] w Hw; [injection Hw as ->; lia|].
      destruct (Hmax j w Hw). lia.
  - destruct q as [|w q]; [|exfalso; revert E; cbn; destruct (opt_victim fut q); [case_match|]; discriminate].
    intros [= <-]. exists O. split; [reflexivity|]. intros [|j] v Hv; [injection Hv as ->; lia|].
    discriminate.
Qed.

Lemma opt_victim_spec fut q x : furthest fut q x -> opt_victim fut q = Some x.
Proof.
  intros (k & Hk & Hmax). destruct (opt_victim fut q) as [y|] eqn:E.
  - destruct (opt_victim_furthest fut q y E) as (j & Hj & Hmax').
    destruct (Hmax j y Hj) as [H1 H2], (Hmax' k x Hk) as [H3 H4].
    assert (j = k) as ->; [|congruence].
    destruct (Nat.lt_trichotomy j k) as [H|[H|H]]; [specialize (H2 H) | exact H | specialize (H4 H)]; lia.
  - destruct q as [|z q]; [rewrite lookup_nil in Hk; discriminate|].
    revert E. cbn. destruct (opt_victim fut q); [case_match|]; discriminate.
Qed.

Section Run.
  Context {St : Type} (step : St -> Z -> bool * St).

(** The number of faults of a reference string. *)
Fixpoint faults (s : St) (ps : list Z) : nat :=
  match ps with
  | [] => O
  | p :: ps => let '(hit, s') := step s p in ((if hit then 0 else 1) + faults s' ps)%nat
  end.

(** The hits and faults of a reference string, in order. *)
Fixpoint hits (s : St) (ps : list Z) : list bool :=
  match ps with
  | [] => []
  | p :: ps => let '(hit, s') := step s p in hit :: hits s' ps
  end.

Fixpoint run (s : St) (ps : list Z) : St :=
  match ps with
  | [] => s
  | p :: ps => run (snd (step s p)) ps
  end.

Lemma run_app s ps qs : run s (ps ++ qs) = run (run s ps) qs.
Proof. revert s. induction ps as [|p ps IH]; intros s; cbn; auto. Qed.

Lemma hits_snoc s ps p : hits s (ps ++ [p]) = hits s ps ++ [fst (step (run s ps) p)].
Proof.
  revert s. induction ps as [|q ps IH]; intros s; cbn.
  - destruct (step s p); reflexivity.
  - destruct (step s q) as [h s']. cbn. rewrite IH. reflexivity.
Qed.

Lemma faults_snoc s ps p :
  faults s (ps ++ [p]) = (faults s ps + if fst (step (run s ps) p) then 0 else 1)%nat.
Proof.
  revert s. induction ps as [|q ps IH]; intros s; cbn.
  - destruct (step s p) as [[] s']; reflexivity.
  - destruct (step s q) as [h s']. cbn. rewrite IH. lia.
Qed.

Lemma faults_hits s ps : faults s ps = length (filter (fun b => b = false) (hits s ps)).
Proof.
  revert s. induction ps as [|p ps IH]; intros s; cbn [faults hits]; [reflexivity|].
  destruct (step s p) as [[] s']; rewrite filter_cons; case_decide; cbn; rewrite IH; congruence || reflexivity.
Qed.
End Run.
