(* ===== verification/ReplaceFIFO.v ===== *)
(** First-in first-out replacement: [replacePageFIFO] of src/4/as4.c, and its
    refinement of the abstract FIFO cache. *)

From S2P Require Import Prelude PageQueue PageTables Residency Paging.
Local Open Scope Z_scope.

Section FIFO.
  Context (malloc_ok : Z -> bool).

(** The search for the victim's page: every other page of the frame is
    forgotten, through the entry the page number names. *)
Definition fifo_evict (pageTable : list PageTable) (totalPage victim page : Z) : res (list PageTable) :=
  for_each (Z.to_nat totalPage) 0 (fun j pt =>
    e ← aget pt j;
    if (victim =? frameNum e) && negb (pageNum e =? page)
    then pt' ← set_frameNum pt (pageNum e) (-1); set_pageNum pt' (pageNum e) (-1)
    else mret pt) pageTable.

Definition replacePageFIFO (m : Memory) (currentIndex totalFrame totalPage pageSizeByte : Z) :
    res (Z * Memory) :=
  v ← aget (vas m) currentIndex;
  offset ← cmod (virtualAddress v) pageSizeByte;
  page ← cdiv (virtualAddress v) pageSizeByte;
  _ ← aget (ptab m) page;
  hit ← hit_scan (frames m) (vas m) (ptab m) currentIndex totalFrame totalPage;
  match hit with
  | inr (i, _) =>
      fr ← touch_frame (frames m) i pageSizeByte offset;
      mret (1, mkMem fr (vas m) (ptab m) (queue m))
  | inl occupiedCount =>
      free ← free_scan (frames m) totalFrame;
      match free with
      | inr i =>
          '(fr, va, pt, fn) ← install_free (frames m) (vas m) (ptab m) currentIndex page i pageSizeByte offset;
          '(_, q) ← enqueue (queue m) fn;
          mret (0, mkMem fr va pt q)
      | inl _ =>
          if occupiedCount =? totalFrame then
            '(victim, q) ← dequeue malloc_ok (queue m);
            pt ← fifo_evict (ptab m) totalPage victim page;
            '(fr, va, pt) ← install_victim (frames m) (vas m) pt currentIndex page victim pageSizeByte offset;
            '(_, q) ← enqueue q victim;
            mret (0, mkMem fr va pt q)
          else Undef
      end
  end.
End FIFO.

Section FIFORefines.
  Context (malloc_ok : Z -> bool) (n np : nat) (ps : Z).
  Hypothesis frames_two : (2 <= n)%nat.
  Hypothesis page_size : 0 < ps.

Lemma fifo_evict_eq rs F P v old p : Rep n np rs F P -> rs !! v = Some old -> p <> old ->
  fifo_evict P (Z.of_nat np) (Z.of_nat v) p = Ok (clear_entry (Z.of_nat v) p <$> P).
Proof.
  intros H Hv Hne. unfold fifo_evict. rewrite Nat2Z.id, <- (rep_ptab _ _ _ _ _ H).
  apply for_each_fmap. intros j l e He0 He Hj.
  rewrite (aget_ok_Z l j e Hj He). cbn [mbind res_bind].
  unfold clear_entry. rewrite (Z.eqb_sym (pageNum e)).
  destruct ((Z.of_nat v =? frameNum e) && negb (p =? pageNum e)) eqn:Ec.
  - apply andb_true_iff in Ec as [Ev _]. apply Z.eqb_eq in Ev. symmetry in Ev.
    apply (Rep_frame_iff n np rs F P v _ e H He0 (lookup_lt_Some _ _ _ Hv)) in Ev.
    rewrite Z2Nat.id in Ev by exact Hj.
    destruct (rep_in _ _ _ _ _ H v j e Ev He0) as [-> Hfn].
    unfold set_frameNum, set_pageNum. rewrite (aupd_ok _ l j e Hj He). cbn [mbind res_bind].
    erewrite aupd_ok; [|exact Hj| apply list_lookup_insert_eq; eapply lookup_lt_Some, He].
    rewrite list_insert_insert_eq. reflexivity.
  - rewrite list_insert_id by exact He. reflexivity.
Qed.

(** The state of the simulator that stands for the abstract queue [q]. *)
Definition fifo_inv (q : list Z) (m : Memory) : Prop :=
  exists rs fs, Rep n np rs (frames m) (ptab m) /\ QueueRep n rs fs (queue m) /\
    pages rs fs = q.

(** One call of [replacePageFIFO] is one step of the abstract queue, and leaves
    the page mapped with its physical address. *)
Lemma replacePageFIFO_step q m cur a p :
  fifo_inv q m -> vas_ok np ps (vas m) -> vas m !! cur = Some (mkVA a p) ->
  exists m', replacePageFIFO malloc_ok m (Z.of_nat cur) (Z.of_nat n) (Z.of_nat np) ps =
      Ok (if fst (fifo_step n q p) then 1 else 0, m') /\
    fifo_inv (snd (fifo_step n q p)) m' /\ vas m' = vas m /\
    exists rs, Rep n np rs (frames m') (ptab m') /\ served rs (frames m') ps a p.
Proof.
  intros (rs & fs & H & HQ & <-) Hvas Hva.
  destruct (Hvas cur _ Hva) as [Hpq Hp]. cbn in Hpq, Hp.
  destruct (Rep_lookup_page n np _ _ _ p H Hp) as [e He].
  unfold replacePageFIFO. rewrite (aget_ok _ _ _ Hva). cbn [mbind res_bind virtualAddress].
  rewrite cmod_nz, cdiv_nz by lia. cbn [mbind res_bind]. rewrite <- Hpq.
  rewrite (aget_ok_Z _ p e) by (lia || exact He). cbn [mbind res_bind].
  unfold fifo_step. rewrite (decide_ext _ _ _ _ (elem_of_pages n rs fs _ p HQ)), (pages_length n _ _ _ HQ).
  pose proof (rep_len _ _ _ _ _ H) as Hlen. pose proof (qr_length n _ _ _ HQ) as Hlf.
  destruct (decide (p ∈ rs)) as [Hin|Hnin]; cbn [fst snd].
  - apply list_elem_of_lookup in Hin as [i Hi].
    rewrite (hit_scan_hit n np rs _ _ _ _ a i p H Hva Hi). cbn [mbind res_bind].
    destruct (serve_hit n np rs _ _ a p ps H i Hi) as (F' & -> & H' & Hs).
    eexists. split; [reflexivity|]. split; [exists rs, fs; auto|]. eauto.
  - rewrite (hit_scan_miss n np rs _ _ _ _ a p H Hva Hnin). cbn [mbind res_bind].
    destruct (Nat.ltb_spec (length rs) n) as [Hlt|Hge]; cbn [fst snd].
    + rewrite (free_scan_found n np rs _ _ H Hlt). cbn [mbind res_bind].
      destruct (serve_free n np rs _ _ _ cur a p ps H Hp Hva e Hnin Hlt He) as (F' & -> & H' & Hs).
      cbn [mbind res_bind].
      destruct (QueueRep_append n rs fs _ p HQ Hlt) as (q' & -> & HQ' & Hpages).
      eexists. split; [reflexivity|]. split; [do 2 eexists; split; [eassumption | split; eassumption]|]. eauto.
    + rewrite (free_scan_none n np rs _ _ H) by lia. cbn [mbind res_bind]. rewrite Z.eqb_refl.
      destruct fs as [|f0 fs]; [cbn in Hlf; lia|].
      destruct (qr_head n _ _ _ _ HQ) as (v & old & -> & Hold).
      destruct (dequeue_spec malloc_ok (queue m) (Z.of_nat v) fs (qr_queue _ _ _ _ HQ))
        as (q1 & -> & Hq1 & Hm1); [destruct fs; cbn in Hlf; [lia | discriminate]|].
      cbn [mbind res_bind].
      destruct (cleared_lookup n np rs _ _ p H Hp v old e Hnin Hold He) as [Hne He'].
      rewrite (fifo_evict_eq rs _ _ v old p H Hold Hne). cbn [mbind res_bind].
      destruct (serve_victim n np rs _ _ _ cur a p ps H Hp Hva _ v old e Hnin Hold He')
        as (F' & -> & Hs & H'). cbn [mbind res_bind].
      specialize (H' _ (swapped_clear_first n np rs _ _ v old p (referenceBit e) H Hold Hp Hnin)).
      rewrite (qr_size _ _ _ _ HQ) in Hm1.
      destruct (QueueRep_rotate n rs v fs q1 p (qr_perm _ _ _ _ HQ) Hlen Hq1 Hm1) as (q2 & -> & HQ2 & Hpages).
      cbn [mbind res_bind tail pages fmap list_fmap].
      eexists. split; [reflexivity|]. split; [do 2 eexists; split; [eassumption | split; eassumption]|]. eauto.
Qed.
End FIFORefines.
