(* ===== verification/ReplaceSC.v ===== *)
(** Second-chance replacement: [replacePageSC] of src/4/as4.c, the termination
    of its victim search, and its refinement of the abstract cache with
    reference bits. *)

From S2P Require Import Prelude PageQueue PageTables Residency Paging.
Local Open Scope Z_scope.

Section SC.
  Context (malloc_ok : Z -> bool).

(** One turn of the victim search, a loop over the page table whose index goes
    back to the start after a second chance: [j = -1], then [j++]. The state is
    [(j, victimFrameNum, pageTable, pageQueue)]. *)
Definition sc_body (totalPage : Z) (s : Z * Z * list PageTable * PageQueue) :
    res (ctl (Z * Z * list PageTable * PageQueue) Empty_set) :=
  let '(j, victim, pt, q) := s in
  if j <? totalPage then
    e ← aget pt j;
    if victim =? frameNum e then
      ev ← aget pt (pageNum e);
      if referenceBit ev =? 1 then
        pt ← set_referenceBit pt (pageNum e) 0;
        '(_, q) ← enqueue q victim;
        '(victim, q) ← dequeue malloc_ok q;
        mret (Continue (0, victim, pt, q))
      else mret (Break (j, victim, pt, q))
    else mret (Continue (j + 1, victim, pt, q))
  else mret (Break (j, victim, pt, q)).

(** A pass over the table for each frame, and one more. *)
Definition sc_fuel (totalFrame totalPage : Z) : nat :=
  S (S (Z.to_nat totalFrame) * S (Z.to_nat totalPage)).

Definition sc_victim (pt : list PageTable) (q : PageQueue) (victim totalFrame totalPage : Z) :
    res (Z * list PageTable * PageQueue) :=
  out ← loop (sc_fuel totalFrame totalPage) (sc_body totalPage) (0, victim, pt, q);
  match out with
  | inl (_, victim, pt, q) => mret (victim, pt, q)
  | inr r => match r : Empty_set with end
  end.

Definition replacePageSC (m : Memory) (currentIndex totalFrame totalPage pageSizeByte : Z) :
    res (Z * Memory) :=
  v ← aget (vas m) currentIndex;
  offset ← cmod (virtualAddress v) pageSizeByte;
  page ← cdiv (virtualAddress v) pageSizeByte;
  _ ← aget (ptab m) page;
  hit ← hit_scan (frames m) (vas m) (ptab m) currentIndex totalFrame totalPage;
  match hit with
  | inr (i, pageNumFromFrame) =>
      fr ← touch_frame (frames m) i pageSizeByte offset;
      pt ← set_referenceBit (ptab m) pageNumFromFrame 1;
      mret (1, mkMem fr (vas m) pt (queue m))
  | inl occupiedCount =>
      free ← free_scan (frames m) totalFrame;
      match free with
      | inr i =>
          '(fr, va, pt, fn) ← install_free (frames m) (vas m) (ptab m) currentIndex page i pageSizeByte offset;
          v ← aget va currentIndex;
          pt ← set_referenceBit pt (vai_pageNum v) 0;
          '(_, q) ← enqueue (queue m) fn;
          mret (0, mkMem fr va pt q)
      | inl _ =>
          if occupiedCount =? totalFrame then
            '(victim, q) ← dequeue malloc_ok (queue m);
            '(victim, pt, q) ← sc_victim (ptab m) q victim totalFrame totalPage;
            pt ← clear_frame pt totalPage victim page;
            '(fr, va, pt) ← install_victim (frames m) (vas m) pt currentIndex page victim pageSizeByte offset;
            v ← aget va currentIndex;
            pt ← set_referenceBit pt (vai_pageNum v) 0;
            '(_, q) ← enqueue q victim;
            mret (0, mkMem fr va pt q)
          else Undef
      end
  end.
End SC.

(** * The victim search *)

Section Cells.
  Context (n np : nat).

(** The reference bit of a page, as the code tests it. *)
Definition ref_bit (P : list PageTable) (p : Z) : bool :=
  match P !! Z.to_nat p with Some e => referenceBit e =? 1 | None => false end.

(** The abstract queue of a list of frames: page and bit of each. *)
Definition cells (rs : list Z) (P : list PageTable) (fs : list Z) : list (Z * bool) :=
  (fun p => (p, ref_bit P p)) <$> pages rs fs.

Lemma cells_fst rs P fs : (cells rs P fs).*1 = pages rs fs.
Proof. unfold cells. rewrite <- list_fmap_compose. apply list_fmap_id. Qed.

Lemma cells_app rs P fs gs : cells rs P (fs ++ gs) = cells rs P fs ++ cells rs P gs.
Proof. unfold cells, pages. rewrite !fmap_app. reflexivity. Qed.

Lemma cells_cons rs P v p fs : rs !! v = Some p ->
  cells rs P (Z.of_nat v :: fs) = (p, ref_bit P p) :: cells rs P fs.
Proof.
  intros H. unfold cells, pages. cbn. rewrite Nat2Z.id, (list_lookup_total_correct _ _ _ H).
  reflexivity.
Qed.

Lemma cells_ext rs P P' fs : (forall p, p ∈ pages rs fs -> ref_bit P' p = ref_bit P p) ->
  cells rs P' fs = cells rs P fs.
Proof.
  intros H. unfold cells. apply list_fmap_ext. intros i p Hp.
  rewrite H; [reflexivity | eapply list_elem_of_lookup_2, Hp].
Qed.

(** Writing the bit of one page. *)
Definition with_bit (P : list PageTable) (p b : Z) : list PageTable :=
  alter (fun e => mkPT (pageNum e) (frameNum e) b) (Z.to_nat p) P.

Lemma set_referenceBit_eq P p b e : 0 <= p -> P !! Z.to_nat p = Some e ->
  set_referenceBit P p b = Ok (with_bit P p b).
Proof.
  intros Hp He. unfold set_referenceBit, with_bit. rewrite (aupd_ok _ P p e Hp He).
  f_equal. rewrite list_insert_alter. apply list_alter_ext; [|reflexivity].
  intros x Hx. rewrite He in Hx. injection Hx as ->. reflexivity.
Qed.

Lemma ref_bit_with_bit P p q b e : 0 <= p -> 0 <= q -> P !! Z.to_nat p = Some e ->
  ref_bit (with_bit P p b) q = if decide (q = p) then b =? 1 else ref_bit P q.
Proof.
  intros Hp Hq He. unfold ref_bit, with_bit. case_decide as Hd.
  - subst q. rewrite list_lookup_alter_eq, He. reflexivity.
  - rewrite list_lookup_alter_ne by lia. reflexivity.
Qed.

Lemma Rep_with_bit rs F P p b : Rep n np rs F P -> Rep n np rs F (with_bit P p b).
Proof.
  intros H. apply (Rep_refs n np rs F P _ H); [apply length_alter|].
  intros j e e' He. unfold with_bit. rewrite list_lookup_alter.
  case_decide as Hd; [rewrite Hd|]; rewrite He; intros [= <-]; auto.
Qed.
End Cells.

Section Search.
  Context (malloc_ok : Z -> bool) (n np : nat) (rs : list Z) (F : list PhysicalMemoryInfo).
  Hypothesis frames_two : (2 <= n)%nat.
  Hypothesis full : length rs = n.

(** The frame in hand and the frames of the queue are all the frames. *)
Definition round (w : nat) (gs : list Z) (q : PageQueue) : Prop :=
  QRep q gs /\ maxSize q = Z.of_nat n /\ Z.of_nat w :: gs ≡ₚ Z.of_nat <$> seq 0 n.

Lemma round_page w gs q : round w gs q -> exists x, rs !! w = Some x.
Proof.
  intros (_ & _ & Hp). apply lookup_lt_is_Some_2.
  assert (Z.of_nat w ∈ Z.of_nat <$> seq 0 n) as Hin by (rewrite <- Hp; set_solver).
  apply list_elem_of_fmap in Hin as (i & Hi & Hin). apply elem_of_seq in Hin. lia.
Qed.

(** A frame that is not in hand holds another page. *)
Lemma round_other w gs q x P b : Rep n np rs F P -> round w gs q -> rs !! w = Some x ->
  cells rs (with_bit P x b) gs = cells rs P gs.
Proof.
  intros H (_ & _ & Hp) Hx. apply cells_ext. intros p Hpg.
  pose proof (rep_range _ _ _ _ _ H _ _ Hx) as Hxr.
  destruct (Rep_lookup_page n np rs F P x H Hxr) as [e He].
  assert (NoDup (Z.of_nat w :: gs)) as Hnd.
  { rewrite Hp. apply NoDup_fmap; [intros ??; lia | apply NoDup_seq]. }
  apply NoDup_cons in Hnd as [Hw _].
  apply list_elem_of_fmap in Hpg as (g & -> & Hg).
  assert (g ∈ Z.of_nat <$> seq 0 n) as Hin by (rewrite <- Hp; right; exact Hg).
  apply list_elem_of_fmap in Hin as (i & -> & Hin). apply elem_of_seq in Hin.
  destruct (lookup_lt_is_Some_2 rs i) as [y Hy]; [lia|].
  rewrite Nat2Z.id, (list_lookup_total_correct _ _ _ Hy).
  pose proof (rep_range _ _ _ _ _ H _ _ Hy).
  rewrite (ref_bit_with_bit P x y b e) by (lia || exact He).
  rewrite decide_False; [reflexivity|]. intros ->.
  rewrite (NoDup_lookup rs i w x (rep_nodup _ _ _ _ _ H) Hy Hx) in Hg. contradiction.
Qed.

(** A second chance: the frame in hand joins the queue, the next one is taken. *)
Lemma round_next w gs q : round w gs q ->
  exists g gs' q1 q2, gs = Z.of_nat g :: gs' /\ enqueue q (Z.of_nat w) = Ok (0, q1) /\
    dequeue malloc_ok q1 = Ok (Z.of_nat g, q2) /\ round g (gs' ++ [Z.of_nat w]) q2.
Proof.
  intros (Hq & Hm & Hp). pose proof (Permutation_length Hp) as Hl.
  rewrite length_fmap, length_seq in Hl. cbn in Hl.
  destruct gs as [|g0 gs']; [cbn in Hl; lia|].
  assert (g0 ∈ Z.of_nat <$> seq 0 n) as Hin by (rewrite <- Hp; set_solver).
  apply list_elem_of_fmap in Hin as (g & -> & _).
  destruct (enqueue_spec q _ (Z.of_nat w) Hq) as (q1 & He & Hq1 & Hm1 & _); [lia|].
  destruct (dequeue_spec malloc_ok q1 (Z.of_nat g) (gs' ++ [Z.of_nat w]) Hq1) as (q2 & Hd & Hq2 & Hm2).
  { destruct gs'; discriminate. }
  exists g, gs', q1, q2. split; [reflexivity|]. split; [exact He|]. split; [exact Hd|].
  split; [exact Hq2|]. split; [congruence|]. rewrite <- Hp.
  rewrite app_comm_cons. symmetry. apply Permutation_cons_append.
Qed.

(** Where the search is: the bits of [todo] are still to be looked at, those of
    [acc] were cleared, and [j] entries of the table were passed. *)
Definition search_inv (target : list (Z * bool)) (k : nat)
    (s : Z * Z * list PageTable * PageQueue) : Prop :=
  exists j w P q gs todo acc x, s = (j, Z.of_nat w, P, q) /\
    Rep n np rs F P /\ round w gs q /\ rs !! w = Some x /\ 0 <= j <= x /\
    cells rs P (Z.of_nat w :: gs) = todo ++ acc /\ Forall (fun c => snd c = false) acc /\
    sc_evict acc todo = target /\
    (length todo * S np + (np - Z.to_nat j) <= k)%nat.

Definition search_done (target : list (Z * bool))
    (out : Z * Z * list PageTable * PageQueue + Empty_set) : Prop :=
  exists j w P q gs, out = inl (j, Z.of_nat w, P, q) /\ Rep n np rs F P /\ round w gs q /\
    cells rs P gs = target.

Lemma sc_body_ok target k s : search_inv target k s ->
  returns (sc_body malloc_ok (Z.of_nat np) s)
    (ctl_post (fun s1 => exists k1, (k1 < k)%nat /\ search_inv target k1 s1) (search_done target)).
Proof.
  intros (j & w & P & q & gs & todo & acc & x & -> & H & Hr & Hx & Hj & Hc & Hacc & Ht & Hk).
  pose proof (rep_range _ _ _ _ _ H _ _ Hx) as Hxr. unfold sc_body.
  destruct (Z.ltb_spec j (Z.of_nat np)); [|lia].
  destruct (Rep_lookup_page n np rs F P j H) as [e He]; [lia|].
  rewrite (aget_ok_Z P j e) by (lia || exact He). cbn [mbind res_bind].
  pose proof (Rep_frame_iff n np rs F P w (Z.to_nat j) e H He (lookup_lt_Some _ _ _ Hx)) as Hiff.
  rewrite Z2Nat.id in Hiff by lia.
  destruct (Z.eqb_spec (Z.of_nat w) (frameNum e)) as [E|E].
  2: { apply returns_ok. cbn [ctl_post]. assert (j <> x) by (intros ->; apply E; symmetry; apply Hiff, Hx).
       exists (length todo * S np + (np - Z.to_nat (j + 1)))%nat. split; [lia|].
       exists (j + 1), w, P, q, gs, todo, acc, x. repeat (split; [solve [auto | lia]|]). lia. }
  symmetry in E. apply Hiff in E. assert (j = x) as -> by congruence.
  destruct (rep_in _ _ _ _ _ H w x e Hx He) as [-> _].
  rewrite (aget_ok_Z P x e) by (lia || exact He). cbn [mbind res_bind].
  rewrite (cells_cons rs P w x gs Hx) in Hc.
  assert (ref_bit P x = (referenceBit e =? 1)) as Hb by (unfold ref_bit; rewrite He; reflexivity).
  rewrite Hb in Hc. destruct (Z.eqb_spec (referenceBit e) 1) as [_|_].
  - destruct todo as [|c todo]; cbn [app] in Hc.
    { subst acc. inversion Hacc; discriminate. }
    injection Hc as <- Hc.
    rewrite (set_referenceBit_eq P x 0 e) by (lia || exact He). cbn [mbind res_bind].
    destruct (round_next w gs q Hr) as (g & gs' & q1 & q2 & Hgs & -> & Hd & Hr2).
    cbn [mbind res_bind]. rewrite Hd. apply returns_ok. cbn [ctl_post].
    pose proof (round_other w gs q x P 0 H Hr Hx) as Hother.
    destruct (round_page g _ q2 Hr2) as [y Hy].
    pose proof (rep_range _ _ _ _ _ H _ _ Hy).
    exists (length todo * S np + np)%nat. split; [cbn [length] in Hk; lia|].
    exists 0, g, (with_bit P x 0), q2, (gs' ++ [Z.of_nat w]), todo, (acc ++ [(x, false)]), y.
    split; [reflexivity|]. split; [apply Rep_with_bit, H|]. split; [exact Hr2|].
    split; [exact Hy|]. split; [lia|]. split.
    { rewrite app_comm_cons, <- Hgs, cells_app, Hother, Hc, (cells_cons rs _ w x [] Hx).
      rewrite (ref_bit_with_bit P x x 0 e) by (lia || exact He). rewrite decide_True by reflexivity.
      rewrite app_assoc. reflexivity. }
    split; [apply Forall_app; auto|]. split; [exact Ht | lia].
  - apply returns_ok. cbn [ctl_post]. exists x, w, P, q, gs. split; [reflexivity|].
    split; [exact H|]. split; [exact Hr|]. rewrite <- Ht.
    destruct todo as [|c todo]; cbn [app] in Hc.
    + rewrite <- Hc. reflexivity.
    + injection Hc as <- ->. reflexivity.
Qed.

(** The search ends, at the frame the abstract cache evicts. *)
Lemma sc_victim_spec P q v gs : Rep n np rs F P -> round v gs q ->
  exists w P' q' gs', sc_victim malloc_ok P q (Z.of_nat v) (Z.of_nat n) (Z.of_nat np) =
      Ok (Z.of_nat w, P', q') /\ Rep n np rs F P' /\ round w gs' q' /\
    cells rs P' gs' = sc_evict [] (cells rs P (Z.of_nat v :: gs)).
Proof.
  intros H Hr. set (target := sc_evict [] (cells rs P (Z.of_nat v :: gs))).
  destruct (round_page v gs q Hr) as [x Hx].
  pose proof (rep_range _ _ _ _ _ H _ _ Hx) as Hxr.
  destruct (loop_rule (search_inv target) (search_done target) (sc_body malloc_ok (Z.of_nat np))
    (sc_fuel (Z.of_nat n) (Z.of_nat np)) (n * S np + np) (0, Z.of_nat v, P, q))
    as (out & E & j & w & P' & q' & gs' & -> & H' & Hr' & Hc).
  - exists 0, v, P, q, gs, (cells rs P (Z.of_nat v :: gs)), [], x.
    rewrite app_nil_r. split; [reflexivity|]. split; [exact H|]. split; [exact Hr|]. split; [exact Hx|].
    split; [lia|]. split; [reflexivity|]. split; [constructor|]. split; [reflexivity|].
    destruct Hr as (_ & _ & Hp). apply Permutation_length in Hp.
    rewrite length_fmap, length_seq in Hp. unfold cells, pages. rewrite !length_fmap, Hp. lia.
  - unfold sc_fuel. rewrite !Nat2Z.id. lia.
  - intros k0 s0 Hi. apply sc_body_ok, Hi.
  - exists w, P', q', gs'. unfold sc_victim. rewrite E. cbn. auto.
Qed.
End Search.

(** * Refinement *)

Section SCRefines.
  Context (malloc_ok : Z -> bool) (n np : nat) (ps : Z).
  Hypothesis frames_two : (2 <= n)%nat.
  Hypothesis page_size : 0 < ps.

(** The state of the simulator that stands for the abstract queue [q]. *)
Definition sc_inv (q : list (Z * bool)) (m : Memory) : Prop :=
  exists rs fs, Rep n np rs (frames m) (ptab m) /\ QueueRep n rs fs (queue m) /\
    cells rs (ptab m) fs = q.

Lemma page_nonneg rs fs q F P p : Rep n np rs F P -> QueueRep n rs fs q -> p ∈ pages rs fs -> 0 <= p.
Proof.
  intros H HQ Hp. rewrite (elem_of_pages n rs fs q p HQ) in Hp.
  apply list_elem_of_lookup in Hp as [i Hi]. apply (rep_range _ _ _ _ _ H _ _ Hi).
Qed.

(** The bit of a referenced page is set, the others keep theirs. *)
Lemma cells_reference rs fs q F P p e : Rep n np rs F P -> QueueRep n rs fs q ->
  0 <= p -> P !! Z.to_nat p = Some e ->
  cells rs (with_bit P p 1) fs = sc_reference p <$> cells rs P fs.
Proof.
  intros H HQ Hp He. unfold cells. rewrite <- list_fmap_compose. apply list_fmap_ext.
  intros i x Hx. apply list_elem_of_lookup_2 in Hx. cbn. unfold sc_reference. cbn.
  rewrite (ref_bit_with_bit P p x 1 e) by (lia || exact He || eapply page_nonneg; eassumption).
  destruct (Z.eqb_spec x p) as [->|Hne]; [rewrite decide_True by reflexivity | rewrite decide_False by exact Hne];
    reflexivity.
Qed.

(** A page that joins the queue has its bit clear. *)
Lemma cells_join rs rs' fs fs' P P' p : pages rs' fs' = pages rs fs ++ [p] ->
  ref_bit P' p = false ->
  (forall x, x ∈ pages rs fs -> ref_bit P' x = ref_bit P x) ->
  cells rs' P' fs' = cells rs P fs ++ [(p, false)].
Proof.
  intros Hp Hb Hsame. unfold cells at 1. rewrite Hp, fmap_app. cbn. rewrite Hb. f_equal.
  apply list_fmap_ext. intros i x Hx. rewrite Hsame; [reflexivity | eapply list_elem_of_lookup_2, Hx].
Qed.

(** The bits after the stores to the entry of the new page. *)
Lemma ref_bit_install P p v b c x : 0 <= p -> 0 <= x -> (Z.to_nat p < length P)%nat ->
  ref_bit (with_bit (<[Z.to_nat p := mkPT p v b]> P) p c) x =
  if decide (x = p) then c =? 1 else ref_bit P x.
Proof.
  intros Hp Hx Hlt. rewrite (ref_bit_with_bit _ p x c (mkPT p v b)) by
    (lia || apply list_lookup_insert_eq, Hlt).
  case_decide as Hd; [reflexivity|]. unfold ref_bit. rewrite list_lookup_insert_ne by lia. reflexivity.
Qed.

Lemma ref_bit_clear P fn p x : ref_bit (clear_entry fn p <$> P) x = ref_bit P x.
Proof.
  unfold ref_bit. rewrite list_lookup_fmap. destruct (P !! Z.to_nat x) as [e|]; [|reflexivity].
  cbn. unfold clear_entry. destruct (_ && _); reflexivity.
Qed.

Lemma sc_hit q m cur a p rs fs :
  Rep n np rs (frames m) (ptab m) -> QueueRep n rs fs (queue m) -> cells rs (ptab m) fs = q ->
  0 <= p < Z.of_nat np -> p ∈ rs -> vas m !! cur = Some (mkVA a p) ->
  exists i F', hit_scan (frames m) (vas m) (ptab m) (Z.of_nat cur) (Z.of_nat n) (Z.of_nat np) = Ok (inr (i, p)) /\
    touch_frame (frames m) i ps (Z.rem a ps) = Ok F' /\
    set_referenceBit (ptab m) p 1 = Ok (with_bit (ptab m) p 1) /\
    sc_inv (sc_reference p <$> q) (mkMem F' (vas m) (with_bit (ptab m) p 1) (queue m)) /\
    Rep n np rs F' (with_bit (ptab m) p 1) /\ served rs F' ps a p.
Proof.
  intros H HQ Hc Hp Hin Hva. apply list_elem_of_lookup in Hin as [i Hi].
  destruct (Rep_lookup_page n np _ _ _ p H Hp) as [e He].
  destruct (serve_hit n np rs _ _ a p ps H i Hi) as (F' & Ht & H' & Hs).
  exists (Z.of_nat i), F'. split; [eapply hit_scan_hit; eassumption|]. split; [exact Ht|].
  split; [apply (set_referenceBit_eq _ p 1 e); lia || exact He|].
  pose proof (Rep_with_bit n np rs F' _ p 1 H') as Hb. split; [|auto].
  exists rs, fs. split; [exact Hb|]. split; [exact HQ|]. rewrite <- Hc.
  apply (cells_reference rs fs _ _ _ p e H HQ); lia || exact He.
Qed.

(** The stores of a fault: the new page in frame [v], its bit clear, and the
    frame at the end of the queue. *)
Lemma sc_join rs rs' fs fs' F' P P1 q' p v b : Rep n np rs' F' (<[Z.to_nat p := mkPT p v b]> P1) ->
  QueueRep n rs' fs' q' -> pages rs' fs' = pages rs fs ++ [p] ->
  length P1 = np -> 0 <= p < Z.of_nat np -> p ∉ pages rs fs ->
  (forall x, x ∈ pages rs fs -> 0 <= x /\ ref_bit P1 x = ref_bit P x) ->
  set_referenceBit (<[Z.to_nat p := mkPT p v b]> P1) p 0 =
    Ok (with_bit (<[Z.to_nat p := mkPT p v b]> P1) p 0) /\
  Rep n np rs' F' (with_bit (<[Z.to_nat p := mkPT p v b]> P1) p 0) /\
  cells rs' (with_bit (<[Z.to_nat p := mkPT p v b]> P1) p 0) fs' = cells rs P fs ++ [(p, false)].
Proof.
  intros H HQ Hpages Hl Hp Hnin Hsame. split; [|split].
  - apply (set_referenceBit_eq _ p 0 (mkPT p v b)); [lia|]. apply list_lookup_insert_eq. lia.
  - apply Rep_with_bit, H.
  - apply cells_join; [exact Hpages | |].
    + rewrite ref_bit_install, decide_True by (reflexivity || lia). reflexivity.
    + intros x Hx. destruct (Hsame x Hx) as [Hx0 Hb].
      rewrite ref_bit_install by lia. rewrite decide_False; [exact Hb|]. intros ->. contradiction.
Qed.

(** The victim's frame, from the dequeue to the stores. *)
Lemma sc_fault m cur a p rs fs : Rep n np rs (frames m) (ptab m) -> QueueRep n rs fs (queue m) ->
  length rs = n -> 0 <= p < Z.of_nat np -> p ∉ rs -> vas m !! cur = Some (mkVA a p) ->
  exists m' rs',
    ('(victim, q) ← dequeue malloc_ok (queue m);
     '(victim, pt, q) ← sc_victim malloc_ok (ptab m) q victim (Z.of_nat n) (Z.of_nat np);
     pt ← clear_frame pt (Z.of_nat np) victim p;
     '(fr, va, pt) ← install_victim (frames m) (vas m) pt (Z.of_nat cur) p victim ps (Z.rem a ps);
     v ← aget va (Z.of_nat cur);
     pt ← set_referenceBit pt (vai_pageNum v) 0;
     '(_, q) ← enqueue q victim;
     mret (0, mkMem fr va pt q)) = Ok (0, m') /\ vas m' = vas m /\
    sc_inv (sc_evict [] (cells rs (ptab m) fs) ++ [(p, false)]) m' /\
    Rep n np rs' (frames m') (ptab m') /\ served rs' (frames m') ps a p.
Proof.
  intros H HQ Hfull Hp Hnin Hva. pose proof (qr_length n _ _ _ HQ) as Hlf.
  destruct fs as [|f0 fs]; [cbn in Hlf; lia|].
  destruct (qr_head n _ _ _ _ HQ) as (v & old0 & -> & _).
  destruct (dequeue_spec malloc_ok (queue m) (Z.of_nat v) fs (qr_queue _ _ _ _ HQ))
    as (q1 & -> & Hq1 & Hm1); [destruct fs; cbn in Hlf; [lia | discriminate]|].
  cbn [mbind res_bind].
  assert (round n v fs q1) as Hr.
  { split; [exact Hq1|]. split; [rewrite Hm1; apply HQ|]. rewrite <- Hfull. apply HQ. }
  destruct (sc_victim_spec malloc_ok n np rs (frames m) frames_two Hfull (ptab m) q1 v fs H Hr)
    as (w & P' & q' & gs & -> & H' & Hr' & Hcells). cbn [mbind res_bind].
  rewrite <- Hcells. destruct (round_page n rs frames_two Hfull w gs q' Hr') as [old Hold].
  rewrite (clear_frame_eq np P' _ p (rep_ptab _ _ _ _ _ H')). cbn [mbind res_bind].
  destruct (Rep_lookup_page n np _ _ _ p H' Hp) as [e He].
  destruct (cleared_lookup n np rs _ _ p H' Hp w old e Hnin Hold He) as [Hne He'].
  destruct (serve_victim n np rs _ _ _ cur a p ps H' Hp Hva _ w old e Hnin Hold He')
    as (F' & -> & Hs & Hrep). cbn [mbind res_bind].
  rewrite (aget_ok _ _ _ Hva). cbn [mbind res_bind vai_pageNum].
  specialize (Hrep _ (swapped_clear_first n np rs _ _ w old p (referenceBit e) H' Hold Hp Hnin)).
  destruct Hr' as (Hq' & Hm' & Hperm). rewrite <- Hfull in Hperm.
  destruct (QueueRep_rotate n rs w gs q' p Hperm) as (q2 & Heq & HQ2 & Hpages); [lia | exact Hq' | exact Hm' |].
  assert (forall x, x ∈ pages rs gs -> x ∈ rs) as Hsub.
  { intros x Hx. apply list_elem_of_fmap in Hx as (g & -> & Hg).
    assert (g ∈ Z.of_nat <$> seq 0 (length rs)) as Hin by (rewrite <- Hperm; right; exact Hg).
    apply list_elem_of_fmap in Hin as (i & -> & Hi). apply elem_of_seq in Hi. rewrite Nat2Z.id.
    apply list_elem_of_lookup_2 with i. apply list_lookup_lookup_total_lt. lia. }
  destruct (sc_join rs _ gs _ F' P' (clear_entry (Z.of_nat w) p <$> P') q2 p _ _ Hrep HQ2 Hpages)
    as (-> & Hrep' & Hcells').
  { rewrite length_fmap. apply H'. } { exact Hp. } { intros Hx. apply Hnin, Hsub, Hx. }
  { intros x Hx. apply Hsub, list_elem_of_lookup in Hx as [i Hi].
    split; [apply (rep_range _ _ _ _ _ H _ _ Hi) | apply ref_bit_clear]. }
  cbn [mbind res_bind]. rewrite Heq. eexists _, _. split; [reflexivity|]. split; [reflexivity|].
  split; [|split; [exact Hrep' | exact Hs]].
  do 2 eexists. split; [exact Hrep'|]. split; [exact HQ2|]. exact Hcells'.
Qed.

(** One call of [replacePageSC] is one step of the abstract cache. *)
Lemma replacePageSC_step q m cur a p :
  sc_inv q m -> vas_ok np ps (vas m) -> vas m !! cur = Some (mkVA a p) ->
  exists m', replacePageSC malloc_ok m (Z.of_nat cur) (Z.of_nat n) (Z.of_nat np) ps =
      Ok (if fst (sc_step n q p) then 1 else 0, m') /\
    sc_inv (snd (sc_step n q p)) m' /\ vas m' = vas m /\
    exists rs, Rep n np rs (frames m') (ptab m') /\ served rs (frames m') ps a p.
Proof.
  intros (rs & fs & H & HQ & Hc) Hvas Hva.
  destruct (Hvas cur _ Hva) as [Hpq Hp]. cbn in Hpq, Hp.
  destruct (Rep_lookup_page n np _ _ _ p H Hp) as [e He].
  unfold replacePageSC. rewrite (aget_ok _ _ _ Hva). cbn [mbind res_bind virtualAddress].
  rewrite cmod_nz, cdiv_nz by lia. cbn [mbind res_bind]. rewrite <- Hpq.
  rewrite (aget_ok_Z _ p e) by (lia || exact He). cbn [mbind res_bind]. unfold sc_step.
  replace (q.*1) with (pages rs fs) by (rewrite <- Hc; symmetry; apply cells_fst).
  rewrite (decide_ext _ _ _ _ (elem_of_pages n rs fs _ p HQ)).
  assert (length q = length rs) as ->.
  { rewrite <- Hc. unfold cells. rewrite length_fmap. apply (pages_length n _ _ _ HQ). }
  pose proof (rep_len _ _ _ _ _ H) as Hlen.
  destruct (decide (p ∈ rs)) as [Hin|Hnin]; cbn [fst snd].
  - destruct (sc_hit q m cur a p rs fs H HQ Hc Hp Hin Hva) as (i & F' & -> & Ht & Hb & Hinv & Hs).
    cbn [mbind res_bind]. rewrite Ht. cbn [mbind res_bind]. rewrite Hb.
    eexists. split; [reflexivity|]. split; [exact Hinv|]. eauto.
  - rewrite (hit_scan_miss n np rs _ _ _ _ a p H Hva Hnin). cbn [mbind res_bind].
    destruct (Nat.ltb_spec (length rs) n) as [Hlt|Hge]; cbn [fst snd].
    + rewrite (free_scan_found n np rs _ _ H Hlt). cbn [mbind res_bind].
      destruct (serve_free n np rs _ _ _ cur a p ps H Hp Hva e Hnin Hlt He) as (F' & -> & H' & Hs).
      cbn [mbind res_bind]. rewrite (aget_ok _ _ _ Hva). cbn [mbind res_bind vai_pageNum].
      destruct (QueueRep_append n rs fs _ p HQ Hlt) as (q' & Heq & HQ' & Hpages).
      destruct (sc_join rs _ fs _ F' (ptab m) (ptab m) q' p _ _ H' HQ' Hpages) as (-> & Hr & Hc').
      { apply H. } { exact Hp. } { rewrite (elem_of_pages n rs fs _ p HQ). exact Hnin. }
      { intros x Hx. split; [apply (page_nonneg _ _ _ _ _ _ H HQ Hx) | reflexivity]. }
      cbn [mbind res_bind]. rewrite Heq. eexists. split; [reflexivity|]. split; [|eauto].
      do 2 eexists. split; [exact Hr|]. split; [exact HQ'|]. rewrite <- Hc. exact Hc'.
    + rewrite (free_scan_none n np rs _ _ H) by lia. cbn [mbind res_bind]. rewrite Z.eqb_refl.
      destruct (sc_fault m cur a p rs fs H HQ ltac:(lia) Hp Hnin Hva) as (m' & rs' & -> & Hv & Hinv & Hr).
      rewrite Hc in Hinv. eauto 10.
Qed.
End SCRefines.
