(* ===== verification/ReplaceLRU.v ===== *)
(** Least-recently-used replacement: [replacePageLRU] of src/4/as4.c, which
    looks back through the addresses for the last use of each resident page,
    and its refinement of the abstract recency list. *)

From S2P Require Import Prelude PageQueue PageTables Residency Paging.
Local Open Scope Z_scope.

(** The backward search from [currentIndex] to [0]: iteration [t] looks at
    [j = currentIndex - t]. *)
Definition lru_distance (va : list VirtualAddressInfo) (currentIndex page : Z) : res Z :=
  out ← for_ctl (R := Empty_set) (Z.to_nat (currentIndex + 1)) 0 (fun t d =>
    let j := currentIndex - t in
    v ← aget va j;
    mret (if vai_pageNum v =? page then Break (currentIndex - j)
          else if j =? 4999 then Continue 5000
          else Continue d)) 0;
  match out with inl d => mret d | inr r => match r : Empty_set with end end.

(** The distances of all frames and the frame of the largest:
    [(distances, maxDistanceFrame, maxDistanceFrameNum)]. *)
Definition lru_scan (frames : list PhysicalMemoryInfo) (va : list VirtualAddressInfo)
    (pageTable : list PageTable) (currentIndex totalFrame totalPage : Z) :
    res (list Z * Z * Z) :=
  for_each (Z.to_nat totalFrame) 0 (fun i '(ds, md, mf) =>
    f ← aget frames i;
    page ← first_page_of_frame pageTable totalPage (pm_frameNum f);
    d ← lru_distance va currentIndex page;
    ds ← aset ds i d;
    mret (if md <? d then (ds, d, i) else (ds, md, mf)))
    (replicate (Z.to_nat totalFrame) 0, -1, 0).

Definition replacePageLRU (m : Memory) (currentIndex totalFrame totalPage pageSizeByte : Z) :
    res (Z * Memory) :=
  v ← aget (vas m) currentIndex;
  offset ← cmod (virtualAddress v) pageSizeByte;
  page ← cdiv (virtualAddress v) pageSizeByte;
  _ ← aget (ptab m) page;
  hit ← hit_scan (frames m) (vas m) (ptab m) currentIndex totalFrame totalPage;
  match hit with
  | inr (i, _) =>
      fr ← touch_frame (frames m) i pageSizeByte offset;
      mret (1, mkMem fr (vas m) (ptab m) (queue m))
  | inl occupiedCount =>
      free ← free_scan (frames m) totalFrame;
      match free with
      | inr i =>
          '(fr, va, pt, _) ← install_free (frames m) (vas m) (ptab m) currentIndex page i pageSizeByte offset;
          mret (0, mkMem fr va pt (queue m))
      | inl _ =>
          if occupiedCount =? totalFrame then
            '(_, _, victim) ← lru_scan (frames m) (vas m) (ptab m) currentIndex totalFrame totalPage;
            '(fr, va, pt) ← install_victim (frames m) (vas m) (ptab m) currentIndex page victim pageSizeByte offset;
            f ← aget fr victim;
            pt ← clear_frame pt totalPage (pm_frameNum f) page;
            mret (0, mkMem fr va pt (queue m))
          else Undef
      end
  end.

(** * The search *)

Section Recency.
  Context (n np : nat).

(** [t] is the last index before [cur] at which the page was used. *)
Definition last_use (va : list VirtualAddressInfo) (cur : nat) (x : Z) (t : nat) : Prop :=
  (t < cur)%nat /\ (exists a, va !! t = Some (mkVA a x)) /\
  forall j a, (t < j)%nat -> (j < cur)%nat -> va !! j <> Some (mkVA a x).

Lemma lru_distance_spec va cur a p x t : va !! cur = Some (mkVA a p) -> x <> p ->
  last_use va cur x t ->
  lru_distance va (Z.of_nat cur) x = Ok (Z.of_nat cur - Z.of_nat t).
Proof.
  intros Hcur Hxp (Ht & [a' Ha] & Hlast). unfold lru_distance.
  edestruct (for_ctl_rule (R := Empty_set) (fun i (d : Z) => i <= Z.of_nat cur - Z.of_nat t)
    (fun out => out = inl (Z.of_nat cur - Z.of_nat t))) as (out & E & ->).
  4: { rewrite E. reflexivity. } 1: lia. 2: intros s; lia.
  intros i d Hi Hit. cbv beta zeta.
  destruct (lookup_lt_is_Some_2 va (Z.to_nat (Z.of_nat cur - i))) as [[b y] Hv].
  { apply lookup_lt_Some in Hcur. lia. }
  rewrite (aget_ok_Z va (Z.of_nat cur - i) (mkVA b y)) by (lia || exact Hv). apply returns_ok. cbn [vai_pageNum].
  destruct (Z.eqb_spec y x) as [->|Hne]; cbn [ctl_post].
  - f_equal. assert (Z.to_nat (Z.of_nat cur - i) = t); [|lia].
    destruct (decide (Z.to_nat (Z.of_nat cur - i) = cur)) as [E'|E'].
    + rewrite E', Hcur in Hv. congruence.
    + destruct (decide (Z.to_nat (Z.of_nat cur - i) = t)) as [|E'']; [assumption|].
      exfalso. apply (Hlast (Z.to_nat (Z.of_nat cur - i)) b); lia || exact Hv.
  - assert (i <> Z.of_nat cur - Z.of_nat t).
    { intros ->. replace (Z.to_nat _) with t in Hv by lia. congruence. }
    destruct (_ =? 4999); cbn; lia.
Qed.

(** The scan picks the frame whose page was used longest ago. *)
Lemma lru_scan_spec rs F va P cur a p (last : Z -> nat) :
  Rep n np rs F P -> length rs = n -> (0 < n)%nat ->
  va !! cur = Some (mkVA a p) -> p ∉ rs -> (forall x, x ∈ rs -> last_use va cur x (last x)) ->
  exists ds md v old, lru_scan F va P (Z.of_nat cur) (Z.of_nat n) (Z.of_nat np) =
      Ok (ds, md, Z.of_nat v) /\ rs !! v = Some old /\
    forall x, x ∈ rs -> (last old <= last x)%nat.
Proof.
  intros H Hfull Hn Hva Hnin Hlast. unfold lru_scan. rewrite !Nat2Z.id.
  set (d k := Z.of_nat cur - Z.of_nat (last (rs !!! k))).
  destruct (for_each_rule (argmax_inv n d)
    (fun i '(ds, md, mf) =>
      f ← aget F i;
      page ← first_page_of_frame P (Z.of_nat np) (pm_frameNum f);
      d0 ← lru_distance va (Z.of_nat cur) page;
      ds ← aset ds i d0;
      mret (if md <? d0 then (ds, d0, i) else (ds, md, mf)))
    n 0 (replicate n 0, -1, 0) (argmax_init n d)) as ([[ds md] mf] & E & Hfin).
  - intros j [[ds md] mf] Hj Hinv. replace j with (Z.of_nat (Z.to_nat j)) in * by lia.
    destruct (Rep_lookup_frame n np rs F P (Z.to_nat j) H) as [f Hf]; [lia|].
    rewrite (aget_ok F _ _ Hf). cbn [mbind res_bind].
    destruct (rep_occ _ _ _ _ _ H _ _ Hf) as [_ ->]; [lia|].
    destruct (lookup_lt_is_Some_2 rs (Z.to_nat j)) as [x Hx]; [lia|].
    rewrite (first_page_spec n np rs F P _ x H Hx). cbn [mbind res_bind].
    assert (x ∈ rs) as Hxin by (apply list_elem_of_lookup; eauto).
    assert (x <> p) as Hxp by (intros ->; contradiction).
    rewrite (lru_distance_spec va cur a p x (last x) Hva Hxp (Hlast x Hxin)). cbn [mbind res_bind].
    assert (Z.of_nat cur - Z.of_nat (last x) = d (Z.to_nat j)) as ->.
    { unfold d. rewrite (list_lookup_total_correct _ _ _ Hx). reflexivity. }
    assert (0 <= d (Z.to_nat j)) as Hd.
    { unfold d. rewrite (list_lookup_total_correct _ _ _ Hx). destruct (Hlast x Hxin). lia. }
    destruct (argmax_step n d (Z.to_nat j) ds md mf ltac:(lia) Hd Hinv) as [-> Hstep].
    apply returns_ok, Hstep.
  - rewrite Z.add_0_l in Hfin. destruct (argmax_final n d ds md mf Hn Hfin) as (m & -> & Hm & -> & Hmax & _).
    destruct (lookup_lt_is_Some_2 rs m) as [old Hold]; [lia|].
    exists ds, (d m), m, old. split; [exact E|]. split; [exact Hold|].
    intros x Hx. destruct (proj1 (list_elem_of_lookup _ _) Hx) as [k Hk].
    pose proof (lookup_lt_Some _ _ _ Hk). specialize (Hmax k ltac:(lia)). unfold d in Hmax.
    rewrite (list_lookup_total_correct _ _ _ Hk), (list_lookup_total_correct _ _ _ Hold) in Hmax. lia.
Qed.
End Recency.

(** * Refinement *)

Section LRURefines.
  Context (n np : nat) (ps : Z).
  Hypothesis frames_some : (0 < n)%nat.
  Hypothesis page_size : 0 < ps.

(** The state of the simulator after [cur] addresses that stands for the
    recency list [q]. *)
Definition lru_inv (cur : nat) (q : list Z) (m : Memory) : Prop :=
  exists rs last, Rep n np rs (frames m) (ptab m) /\ q ≡ₚ rs /\
    (forall x, x ∈ rs -> last_use (vas m) cur x (last x)) /\
    StronglySorted (fun x y => (last x < last y)%nat) q.

(** The last uses after page [p] is used at [cur]. *)
Definition used_now (last : Z -> nat) (p : Z) (cur : nat) (x : Z) : nat :=
  if decide (x = p) then cur else last x.

Lemma last_use_next va cur a p x t : va !! cur = Some (mkVA a p) -> x <> p ->
  last_use va cur x t -> last_use va (S cur) x t.
Proof.
  intros Hva Hne (Ht & Hx & Hl). split; [lia|]. split; [exact Hx|].
  intros j b Hj Hj'. destruct (decide (j = cur)) as [->|]; [congruence | apply Hl; lia].
Qed.

Lemma last_use_now va cur a p : va !! cur = Some (mkVA a p) -> last_use va (S cur) p cur.
Proof. intros Hva. split; [lia|]. split; [eauto | lia]. Qed.

(** A recency list with the page in use at its end. *)
Lemma lru_inv_use m m' cur a p q rs' last : vas m !! cur = Some (mkVA a p) ->
  vas m' = vas m -> Rep n np rs' (frames m') (ptab m') -> q ++ [p] ≡ₚ rs' -> p ∉ q ->
  (forall x, x ∈ q -> last_use (vas m) cur x (last x)) ->
  StronglySorted (fun x y => (last x < last y)%nat) q ->
  lru_inv (S cur) (q ++ [p]) m'.
Proof.
  intros Hva Hv H Hq Hnin Hlast Hsort. exists rs', (used_now last p cur).
  split; [exact H|]. split; [exact Hq|]. split.
  - intros x Hx. rewrite <- Hq in Hx. rewrite Hv. unfold used_now. case_decide as Hd.
    + subst x. eapply last_use_now, Hva.
    + apply elem_of_app in Hx as [Hx|Hx%list_elem_of_singleton]; [|contradiction].
      eapply last_use_next; eauto.
  - apply StronglySorted_app. split; [|split; [|repeat constructor]].
    + intros x y Hx Hy%list_elem_of_singleton. subst y. unfold used_now.
      rewrite (decide_True (P := p = p)) by reflexivity.
      rewrite decide_False by (intros ->; contradiction). apply (Hlast x Hx).
    + clear -Hsort Hnin. induction Hsort as [|x l Hl IH Hx]; [constructor|].
      apply not_elem_of_cons in Hnin as [Hpx Hpl]. constructor; [auto|].
      apply Forall_forall. intros y Hy. unfold used_now.
      rewrite !decide_False by (congruence || (intros ->; contradiction)).
      eapply Forall_forall in Hx; eauto.
Qed.

(** The oldest page of the recency list is the head. *)
Lemma lru_head (last : Z -> nat) (old x : Z) (q rs : list Z) : StronglySorted (fun x y => (last x < last y)%nat) (x :: q) ->
  x :: q ≡ₚ rs -> old ∈ rs -> (forall y, y ∈ rs -> (last old <= last y)%nat) -> old = x.
Proof.
  intros Hs Hp Hin Hmin. rewrite <- Hp in Hin. apply elem_of_cons in Hin as [|Hin]; [assumption|].
  apply StronglySorted_inv in Hs as [_ Hx]. eapply Forall_forall in Hx; [|exact Hin].
  specialize (Hmin x). rewrite <- Hp in Hmin. specialize (Hmin ltac:(left)). lia.
Qed.

(** The victim's frame, from the scan to the stores. *)
Lemma lru_fault m cur a p x q rs last : Rep n np rs (frames m) (ptab m) -> x :: q ≡ₚ rs ->
  (forall y, y ∈ rs -> last_use (vas m) cur y (last y)) ->
  StronglySorted (fun y z => (last y < last z)%nat) (x :: q) ->
  length rs = n -> 0 <= p < Z.of_nat np -> p ∉ rs -> vas m !! cur = Some (mkVA a p) ->
  exists m' rs',
    ('(_, _, victim) ← lru_scan (frames m) (vas m) (ptab m) (Z.of_nat cur) (Z.of_nat n) (Z.of_nat np);
     '(fr, va, pt) ← install_victim (frames m) (vas m) (ptab m) (Z.of_nat cur) p victim ps (Z.rem a ps);
     f ← aget fr victim;
     pt ← clear_frame pt (Z.of_nat np) (pm_frameNum f) p;
     mret (0, mkMem fr va pt (queue m))) = Ok (0, m') /\
    vas m' = vas m /\ Rep n np rs' (frames m') (ptab m') /\ q ++ [p] ≡ₚ rs' /\
    served rs' (frames m') ps a p.
Proof.
  intros H Hq Hlast Hsort Hfull Hp Hnin Hva.
  destruct (lru_scan_spec n np rs _ _ _ cur a p last H Hfull frames_some Hva Hnin Hlast)
    as (ds & md & v & old & -> & Hold & Hmin). cbn [mbind res_bind].
  assert (old ∈ rs) as Hin by (apply list_elem_of_lookup; eauto).
  assert (old = x) as -> by (eapply lru_head; eassumption).
  destruct (Rep_lookup_page n np _ _ _ p H Hp) as [e He].
  destruct (serve_victim n np rs _ _ _ cur a p ps H Hp Hva _ v x e Hnin Hold He)
    as (F' & -> & Hs & Hrep). cbn [mbind res_bind].
  specialize (Hrep _ (swapped_clear_last n np rs _ _ v x p (referenceBit e) H Hold Hp Hnin)).
  pose proof (lookup_lt_Some _ _ _ Hold) as Hvlt.
  destruct (Rep_lookup_frame n np _ _ _ v Hrep ltac:(lia)) as [f Hf].
  rewrite (aget_ok _ _ _ Hf). cbn [mbind res_bind].
  destruct (rep_occ _ _ _ _ _ Hrep v f Hf) as [_ ->]; [rewrite length_insert; lia|].
  rewrite (clear_frame_eq np _ _ p) by (rewrite length_insert; apply H). cbn [mbind res_bind].
  eexists _, _. split; [reflexivity|]. split; [reflexivity|]. split; [exact Hrep|]. split; [|exact Hs].
  rewrite (insert_Permutation rs q v p x Hold) by (symmetry; exact Hq).
  symmetry. apply Permutation_cons_append.
Qed.

(** One call of [replacePageLRU] is one step of the recency list. *)
Lemma replacePageLRU_step q m cur a p :
  lru_inv cur q m -> vas_ok np ps (vas m) -> vas m !! cur = Some (mkVA a p) ->
  exists m', replacePageLRU m (Z.of_nat cur) (Z.of_nat n) (Z.of_nat np) ps =
      Ok (if fst (lru_step n q p) then 1 else 0, m') /\
    lru_inv (S cur) (snd (lru_step n q p)) m' /\ vas m' = vas m /\
    exists rs, Rep n np rs (frames m') (ptab m') /\ served rs (frames m') ps a p.
Proof.
  intros (rs & last & H & Hq & Hlast & Hsort) Hvas Hva.
  destruct (Hvas cur _ Hva) as [Hpq Hp]. cbn in Hpq, Hp.
  destruct (Rep_lookup_page n np _ _ _ p H Hp) as [e He].
  unfold replacePageLRU. rewrite (aget_ok _ _ _ Hva). cbn [mbind res_bind virtualAddress].
  rewrite cmod_nz, cdiv_nz by lia. cbn [mbind res_bind]. rewrite <- Hpq.
  rewrite (aget_ok_Z _ p e) by (lia || exact He). cbn [mbind res_bind]. unfold lru_step.
  assert (p ∈ q <-> p ∈ rs) as Hiff by (rewrite Hq; reflexivity).
  assert (forall x, x ∈ q -> last_use (vas m) cur x (last x)) as Hlastq.
  { intros x Hx. apply Hlast. rewrite <- Hq. exact Hx. }
  rewrite (Permutation_length Hq), (decide_ext _ _ _ _ Hiff).
  pose proof (rep_len _ _ _ _ _ H) as Hlen.
  destruct (decide (p ∈ rs)) as [Hin|Hnin]; cbn [fst snd].
  - assert (filter (fun x => x <> p) q ++ [p] ≡ₚ rs) as Hq'.
    { rewrite <- Hq. apply filter_ne_snoc; [rewrite Hq; apply H | apply Hiff, Hin]. }
    apply list_elem_of_lookup in Hin as [i Hi].
    rewrite (hit_scan_hit n np rs _ _ _ _ a i p H Hva Hi). cbn [mbind res_bind].
    destruct (serve_hit n np rs _ _ a p ps H i Hi) as (F' & -> & H' & Hs).
    eexists. split; [reflexivity|]. split; [|eauto].
    eapply (lru_inv_use m _ cur a p _ rs last); eauto.
    + intros Hf%list_elem_of_filter. tauto.
    + intros x [_ Hx]%list_elem_of_filter. auto.
    + apply StronglySorted_filter, Hsort.
  - rewrite (hit_scan_miss n np rs _ _ _ _ a p H Hva Hnin). cbn [mbind res_bind].
    destruct (Nat.ltb_spec (length rs) n) as [Hlt|Hge]; cbn [fst snd].
    + rewrite (free_scan_found n np rs _ _ H Hlt). cbn [mbind res_bind].
      destruct (serve_free n np rs _ _ _ cur a p ps H Hp Hva e Hnin Hlt He) as (F' & -> & H' & Hs).
      eexists. split; [reflexivity|]. split; [|eauto].
      eapply (lru_inv_use m _ cur a p _ (rs ++ [p]) last); eauto; [rewrite Hq; reflexivity | tauto].
    + rewrite (free_scan_none n np rs _ _ H) by lia. cbn [mbind res_bind]. rewrite Z.eqb_refl.
      destruct q as [|x q]; [apply Permutation_length in Hq; cbn in Hq; lia|].
      destruct (lru_fault m cur a p x q rs last H Hq Hlast Hsort ltac:(lia) Hp Hnin Hva)
        as (m' & rs' & -> & Hv & Hr & Hq' & Hs).
      exists m'. split; [reflexivity|]. split; [|eauto]. cbn [tail].
      eapply (lru_inv_use m m' cur a p q rs' last); eauto.
      * intros Hpin. apply Hnin. rewrite <- Hq. right. exact Hpin.
      * intros y Hy. apply Hlastq. right. exact Hy.
      * apply StronglySorted_inv in Hsort. tauto.
Qed.
End LRURefines.
