(* ===== verification/ReplaceOptimal.v ===== *)
(** Optimal replacement: [replacePageOptimal] of src/4/as4.c, which looks ahead
    in the addresses for the next use of each resident page, and its refinement
    of the abstract furthest-next-use cache. *)

From S2P Require Import Prelude PageQueue PageTables Residency Paging.
Local Open Scope Z_scope.

(** The forward search; [(distances[i], notAppearCount)]. *)
Definition opt_distance (va : list VirtualAddressInfo) (currentIndex page notAppear : Z) :
    res (Z * Z) :=
  out ← for_ctl (R := Empty_set) (Z.to_nat (NUM_ADDRESSES - currentIndex)) currentIndex
    (fun j '(d, na) =>
      v ← aget va j;
      mret (if vai_pageNum v =? page then Break (j - currentIndex, na)
            else if j =? NUM_ADDRESSES - 1 then Continue (5000, na + 1)
            else Continue (d, na))) (0, notAppear);
  match out with inl s => mret s | inr r => match r : Empty_set with end end.

(** [(distances, maxDistanceFrame, maxDistanceFrameNum, notAppearCount)]. *)
Definition opt_scan (frames : list PhysicalMemoryInfo) (va : list VirtualAddressInfo)
    (pageTable : list PageTable) (currentIndex totalFrame totalPage : Z) :
    res (list Z * Z * Z * Z) :=
  for_each (Z.to_nat totalFrame) 0 (fun i '(ds, md, mf, na) =>
    f ← aget frames i;
    page ← first_page_of_frame pageTable totalPage (pm_frameNum f);
    '(d, na) ← opt_distance va currentIndex page na;
    ds ← aset ds i d;
    mret (if md <? d then (ds, d, i, na) else (ds, md, mf, na)))
    (replicate (Z.to_nat totalFrame) 0, -1, 0, 0).

(** Among the frames whose page does not come back, the one that is first in
    the queue: [(firstOutPos, firstOutFrameNum)]. *)
Definition first_out (q : PageQueue) (ds : list Z) (totalFrame : Z) : res (Z * Z) :=
  for_each (Z.to_nat totalFrame) 0 (fun k '(firstOutPos, firstOutFrameNum) =>
    d ← aget ds k;
    if d =? 5000 then
      pos ← findPositionInQueue q k;
      if pos =? -1 then mret (firstOutPos, firstOutFrameNum)
      else
        let '(fp, ff) := if firstOutPos =? -1 then (pos, k) else (firstOutPos, firstOutFrameNum) in
        mret (if pos <? fp then (pos, k) else (fp, ff))
    else mret (firstOutPos, firstOutFrameNum)) (-1, -1).

Definition opt_choose (m : Memory) (currentIndex totalFrame totalPage : Z) : res Z :=
  '(ds, _, mf, na) ← opt_scan (frames m) (vas m) (ptab m) currentIndex totalFrame totalPage;
  if 1 <? na then
    '(_, ff) ← first_out (queue m) ds totalFrame;
    mret ff
  else mret mf.

Definition replacePageOptimal (m : Memory) (currentIndex totalFrame totalPage pageSizeByte : Z) :
    res (Z * Memory) :=
  v ← aget (vas m) currentIndex;
  offset ← cmod (virtualAddress v) pageSizeByte;
  page ← cdiv (virtualAddress v) pageSizeByte;
  _ ← aget (ptab m) page;
  hit ← hit_scan (frames m) (vas m) (ptab m) currentIndex totalFrame totalPage;
  match hit with
  | inr (i, _) =>
      fr ← touch_frame (frames m) i pageSizeByte offset;
      mret (1, mkMem fr (vas m) (ptab m) (queue m))
  | inl occupiedCount =>
      free ← free_scan (frames m) totalFrame;
      match free with
      | inr i =>
          '(fr, va, pt, fn) ← install_free (frames m) (vas m) (ptab m) currentIndex page i pageSizeByte offset;
          '(_, q) ← enqueue (queue m) fn;
          mret (0, mkMem fr va pt q)
      | inl _ =>
          if occupiedCount =? totalFrame then
            victim ← opt_choose m currentIndex totalFrame totalPage;
            '(fr, va, pt) ← install_victim (frames m) (vas m) (ptab m) currentIndex page victim pageSizeByte offset;
            q ← removeFrameFromQueue (queue m) victim;
            '(_, q) ← enqueue q victim;
            f ← aget fr victim;
            pt ← clear_frame pt totalPage (pm_frameNum f) page;
            mret (0, mkMem fr va pt q)
          else Undef
      end
  end.

(** * The search *)

Section Future.
  Context (n np : nat).

(** The references from the current one on. *)
Definition future (va : list VirtualAddressInfo) (cur : nat) : list Z :=
  drop cur (vai_pageNum <$> va).

(** The distance the code computes: 5000 for a page that does not come back. *)
Definition distance (fut : list Z) (x : Z) : Z :=
  if (next_use fut x =? length fut)%nat then 5000 else Z.of_nat (next_use fut x).

Lemma future_lookup va cur j e : va !! j = Some e -> (cur <= j)%nat ->
  future va cur !! (j - cur)%nat = Some (vai_pageNum e).
Proof.
  intros He Hj. unfold future. rewrite lookup_drop. replace (cur + (j - cur))%nat with j by lia.
  rewrite list_lookup_fmap, He. reflexivity.
Qed.

Lemma distance_range fut x : Z.of_nat (length fut) <= 5000 -> 0 <= distance fut x <= 5000.
Proof.
  intros H. unfold distance. pose proof (next_use_le fut x). destruct (_ =? _)%nat; lia.
Qed.

Lemma distance_le fut x y : Z.of_nat (length fut) <= 5000 ->
  distance fut x <= distance fut y <-> (next_use fut x <= next_use fut y)%nat.
Proof.
  intros H. unfold distance. pose proof (next_use_le fut x). pose proof (next_use_le fut y).
  destruct (Nat.eqb_spec (next_use fut x) (length fut)), (Nat.eqb_spec (next_use fut y) (length fut)); lia.
Qed.

Lemma distance_last fut x : Z.of_nat (length fut) <= 5000 -> distance fut x = 5000 ->
  next_use fut x = length fut.
Proof.
  intros H. unfold distance. pose proof (next_use_le fut x).
  destruct (Nat.eqb_spec (next_use fut x) (length fut)); lia.
Qed.

Lemma opt_distance_spec va cur x na : length va = Z.to_nat NUM_ADDRESSES -> (cur < length va)%nat ->
  opt_distance va (Z.of_nat cur) x na =
  Ok (distance (future va cur) x,
      if (next_use (future va cur) x =? length (future va cur))%nat then na + 1 else na).
Proof.
  intros Hlen Hcur. unfold opt_distance.
  assert (length (future va cur) = length va - cur)%nat as Hfl.
  { unfold future. rewrite length_drop, length_fmap. reflexivity. }
  edestruct (for_ctl_rule (R := Empty_set)
    (fun j s => s = (if j =? NUM_ADDRESSES then (5000, na + 1) else (0, na)) /\
       forall i, Z.of_nat cur + Z.of_nat i < j -> future va cur !! i <> Some x)
    (fun out => out = inl (distance (future va cur) x,
       if (next_use (future va cur) x =? length (future va cur))%nat then na + 1 else na)))
    as (out & E & ->).
  4: { rewrite E. reflexivity. }
  - split; [|lia]. destruct (Z.eqb_spec (Z.of_nat cur) NUM_ADDRESSES); [lia | reflexivity].
  - intros j s Hj [-> Hno].
    destruct (Z.eqb_spec j NUM_ADDRESSES); [lia|].
    destruct (lookup_lt_is_Some_2 va (Z.to_nat j)) as [e He]; [lia|].
    rewrite (aget_ok_Z va j e) by (lia || exact He). apply returns_ok.
    pose proof (future_lookup va cur _ e He ltac:(lia)) as Hf.
    destruct (Z.eqb_spec (vai_pageNum e) x) as [Ex|Ex]; cbn [ctl_post].
    + rewrite Ex in Hf.
      assert (next_use (future va cur) x = (Z.to_nat j - cur)%nat) as Hnu.
      { apply next_use_found; [exact Hf|]. intros i Hi. apply Hno. lia. }
      unfold distance. rewrite Hnu. destruct (Nat.eqb_spec (Z.to_nat j - cur) (length (future va cur))); [lia|].
      do 2 f_equal. lia.
    + assert (forall i, Z.of_nat cur + Z.of_nat i < j + 1 -> future va cur !! i <> Some x) as Hno'.
      { intros i Hi. destruct (decide (i = Z.to_nat j - cur)%nat) as [->|]; [congruence | apply Hno; lia]. }
      destruct (Z.eqb_spec j (NUM_ADDRESSES - 1)), (Z.eqb_spec (j + 1) NUM_ADDRESSES); try lia;
        split; auto.
  - intros s [-> Hno].
    replace (Z.of_nat cur + Z.of_nat (Z.to_nat (NUM_ADDRESSES - Z.of_nat cur))) with NUM_ADDRESSES in * by lia.
    rewrite Z.eqb_refl. unfold distance. rewrite (next_use_absent (future va cur) x).
    + rewrite Nat.eqb_refl. reflexivity.
    + rewrite list_elem_of_lookup. intros [i Hi]. apply (Hno i); [|exact Hi].
      apply lookup_lt_Some in Hi. lia.
Qed.

(** How many of the first [i] frames hold a page that does not come back. *)
Definition absent_count (d : nat -> Z) (i : nat) : nat :=
  length (filter (fun k => (d k = 5000)%Z) (seq 0 i)).

Lemma absent_count_S d i :
  absent_count d (S i) = (absent_count d i + if decide ((d i = 5000)%Z) then 1 else 0)%nat.
Proof.
  unfold absent_count. rewrite seq_S, filter_app, length_app. f_equal.
  rewrite filter_cons. cbn. case_decide; reflexivity.
Qed.

Lemma absent_count_two d i j k : (j < i)%nat -> (k < i)%nat -> j <> k ->
  d j = 5000 -> d k = 5000 -> (1 < absent_count d i)%nat.
Proof.
  intros Hj Hk Hne Hdj Hdk. unfold absent_count.
  assert ([j; k] ⊆+ filter (fun k => (d k = 5000)%Z) (seq 0 i)) as Hsub.
  { apply NoDup_submseteq.
    - apply NoDup_cons. split; [rewrite list_elem_of_singleton; exact Hne | apply NoDup_singleton].
    - intros x Hx. apply list_elem_of_filter. rewrite elem_of_seq.
      apply elem_of_cons in Hx as [->|Hx%list_elem_of_singleton]; [|subst x]; split; (assumption || lia). }
  apply submseteq_length in Hsub. exact Hsub.
Qed.

Lemma absent_count_some d i : (0 < absent_count d i)%nat -> exists k, (k < i)%nat /\ d k = 5000.
Proof.
  unfold absent_count. destruct (filter _ _) as [|k l] eqn:E; [cbn; lia|]. intros _.
  assert (k ∈ filter (fun k => (d k = 5000)%Z) (seq 0 i)) as Hk by (rewrite E; left).
  apply list_elem_of_filter in Hk as [Hd Hk]. apply elem_of_seq in Hk. exists k. split; [lia | exact Hd].
Qed.

Section Choice.
  Context (rs : list Z) (m : Memory) (cur : nat).
  Hypothesis rep : Rep n np rs (frames m) (ptab m).
  Hypothesis full : length rs = n.
  Hypothesis frames_some : (0 < n)%nat.
  Hypothesis all_addresses : length (vas m) = Z.to_nat NUM_ADDRESSES.
  Hypothesis current : (cur < length (vas m))%nat.

#[local] Abbreviation fut := (future (vas m) cur).
#[local] Abbreviation d := (fun k => distance fut (rs !!! k)).

Lemma fut_length : Z.of_nat (length fut) <= 5000.
Proof.
  unfold future. rewrite length_drop, length_fmap, all_addresses. unfold NUM_ADDRESSES. lia.
Qed.

Lemma opt_scan_spec :
  exists ds md v, opt_scan (frames m) (vas m) (ptab m) (Z.of_nat cur) (Z.of_nat n) (Z.of_nat np) =
      Ok (ds, md, Z.of_nat v, Z.of_nat (absent_count d n)) /\
    (v < n)%nat /\ (forall k, (k < n)%nat -> d k <= d v) /\
    (forall k, (k < n)%nat -> ds !! k = Some (d k)).
Proof.
  unfold opt_scan. rewrite !Nat2Z.id.
  edestruct (for_each_rule (fun i '(ds, md, mf, na) =>
      argmax_inv n d i (ds, md, mf) /\ na = Z.of_nat (absent_count d (Z.to_nat i))))
    as ([[[ds md] mf] na] & E & Hfin & ->).
  3: { exists ds, md. rewrite Z.add_0_l in Hfin.
       destruct (argmax_final n d ds md mf frames_some Hfin) as (v & -> & Hv & _ & Hmax & _ & Hds).
       exists v. rewrite E. rewrite Z.add_0_l, Nat2Z.id. auto. }
  - split; [apply argmax_init | reflexivity].
  - intros j [[[ds md] mf] na] Hj [Hinv ->]. replace j with (Z.of_nat (Z.to_nat j)) in * by lia.
    destruct (Rep_lookup_frame n np rs _ _ (Z.to_nat j) rep) as [f Hf]; [lia|].
    rewrite (aget_ok _ _ _ Hf). cbn [mbind res_bind].
    destruct (rep_occ _ _ _ _ _ rep _ _ Hf) as [_ ->]; [lia|].
    destruct (lookup_lt_is_Some_2 rs (Z.to_nat j)) as [x Hx]; [lia|].
    rewrite (first_page_spec n np rs _ _ _ x rep Hx). cbn [mbind res_bind].
    rewrite (opt_distance_spec _ _ _ _ all_addresses current). cbn [mbind res_bind].
    pose proof (distance_range fut x fut_length) as Hdr.
    assert (x = rs !!! Z.to_nat j) as Ex by (symmetry; apply list_lookup_total_correct, Hx).
    rewrite Ex in *.
    destruct (argmax_step n d (Z.to_nat j) ds md mf ltac:(lia) (proj1 Hdr) Hinv) as [-> Hstep].
    cbn [mbind res_bind]. rewrite Nat2Z.id.
    replace (Z.to_nat (Z.of_nat (Z.to_nat j) + 1)) with (S (Z.to_nat j)) by lia.
    assert (forall b : Z, (if (next_use fut (rs !!! Z.to_nat j) =? length fut)%nat then b + 1 else b) =
              b + Z.of_nat (if decide (d (Z.to_nat j) = 5000) then 1%nat else 0%nat)) as Hna.
    { intros b. pose proof (distance_last fut (rs !!! Z.to_nat j) fut_length) as Hl.
      destruct (Nat.eqb_spec (next_use fut (rs !!! Z.to_nat j)) (length fut)) as [E|E]; case_decide as Hd.
      - reflexivity.
      - exfalso. apply Hd. unfold distance. rewrite E, Nat.eqb_refl. reflexivity.
      - exfalso. apply E, Hl, Hd.
      - cbn. lia. }
    rewrite Hna, absent_count_S, Nat2Z.inj_add. destruct (md <? _); apply returns_ok; auto.
Qed.

(** With [front] at 0 the position of an element is its place in the queue. *)
Lemma find_position fs q k : QRep q fs -> front q = 0 -> (k < length fs)%nat -> NoDup fs ->
  forall v, fs !! k = Some v -> findPositionInQueue q v = Ok (Z.of_nat k).
Proof.
  intros Hq Hf Hk Hnd v Hv. rewrite (findPositionInQueue_spec q fs v Hq).
  rewrite (proj2 (index_of_Some v fs k)).
  - unfold slot. rewrite Hf, Z.add_0_l, Z.mod_small; [reflexivity|].
    pose proof (qrep_len _ _ Hq). lia.
  - split; [exact Hv|]. intros j Hj Hv'. rewrite (NoDup_lookup fs j k v Hnd Hv' Hv) in Hj. lia.
Qed.

(** The first of the queue among the frames whose page does not come back. *)
Lemma first_out_spec fs ds : QueueRep n rs fs (queue m) -> front (queue m) = 0 ->
  (forall k, (k < n)%nat -> ds !! k = Some (d k)) -> (0 < absent_count d n)%nat ->
  exists j v, first_out (queue m) ds (Z.of_nat n) = Ok (Z.of_nat j, Z.of_nat v) /\
    fs !! j = Some (Z.of_nat v) /\ (v < n)%nat /\ d v = 5000 /\
    forall j' v', fs !! j' = Some (Z.of_nat v') -> (v' < n)%nat -> d v' = 5000 -> (j <= j')%nat.
Proof.
  intros HQ Hf0 Hds Hsome. pose proof (qr_nodup _ _ _ _ HQ) as Hnd.
  pose proof (qr_length _ _ _ _ HQ) as Hlf. unfold first_out. rewrite Nat2Z.id.
  match goal with |- context [for_each n 0 ?b _] => set (body := b) end.
  destruct (for_each_rule (fun i '(fp, ff) =>
      fp = -1 /\ ff = -1 /\ (forall k, Z.of_nat k < i -> d k <> 5000) \/
      exists j v, fp = Z.of_nat j /\ ff = Z.of_nat v /\ fs !! j = Some (Z.of_nat v) /\
        (v < n)%nat /\ d v = 5000 /\
        forall j' v', fs !! j' = Some (Z.of_nat v') -> Z.of_nat v' < i -> d v' = 5000 -> (j <= j')%nat)
      body n 0 (-1, -1)) as ([fp ff] & E & Hfin).
  3: { destruct Hfin as [(_ & _ & Hno)|(j & v & -> & -> & Hj & Hv & Hd & Hmin)].
       - destruct (absent_count_some d n Hsome) as (k & Hk & Hdk). exfalso. apply (Hno k); [lia | exact Hdk].
       - exists j, v. split; [exact E|]. do 3 (split; [assumption|]). intros j' v' Hj' Hv'.
         apply Hmin; [exact Hj' | lia]. }
  - left. split; [reflexivity|]. split; [reflexivity | lia].
  - intros i [fp ff] Hi Hinv. unfold body. rewrite (aget_ok_Z ds i (d (Z.to_nat i))) by (lia || apply Hds; lia).
    cbn [mbind res_bind]. destruct (Z.eqb_spec (d (Z.to_nat i)) 5000) as [Hd|Hd].
    2: { apply returns_ok. destruct Hinv as [(-> & -> & Hno)|(j & v & -> & -> & Hj & Hv & Hdv & Hmin)].
         - left. do 2 (split; [reflexivity|]). intros k Hk.
           destruct (decide (k = Z.to_nat i)) as [->|]; [exact Hd | apply Hno; lia].
         - right. exists j, v. do 5 (split; [auto|]). intros j' v' Hj' Hv' Hdv'.
           destruct (decide (v' = Z.to_nat i)) as [->|]; [contradiction | apply (Hmin j' v'); auto; lia]. }
    assert (i ∈ fs) as Hin.
    { rewrite (qr_perm _ _ _ _ HQ). apply list_elem_of_fmap. exists (Z.to_nat i).
      rewrite elem_of_seq. lia. }
    apply list_elem_of_lookup in Hin as [ki Hki]. pose proof (lookup_lt_Some _ _ _ Hki) as Hkl.
    rewrite (find_position fs _ ki (qr_queue _ _ _ _ HQ) Hf0 Hkl Hnd i Hki). cbn [mbind res_bind].
    destruct (Z.eqb_spec (Z.of_nat ki) (-1)); [lia|].
    replace i with (Z.of_nat (Z.to_nat i)) in Hki by lia.
    assert (forall v', fs !! ki = Some (Z.of_nat v') -> v' = Z.to_nat i) as Huniq.
    { intros v' Hv'. rewrite Hki in Hv'. injection Hv'. lia. }
    destruct Hinv as [(-> & -> & Hno)|(j & v & -> & -> & Hj & Hv & Hdv & Hmin)].
    + change (-1 =? -1) with true. cbv beta iota zeta. rewrite Z.ltb_irrefl. apply returns_ok. right. exists ki, (Z.to_nat i).
      split; [reflexivity|]. split; [lia|]. split; [exact Hki|]. split; [lia|]. split; [exact Hd|].
      intros j' v' Hj' Hv' Hdv'. destruct (decide (v' = Z.to_nat i)) as [->|Hne].
      * rewrite (NoDup_lookup fs j' ki _ Hnd Hj' Hki). lia.
      * exfalso. apply (Hno v'); [lia | exact Hdv'].
    + destruct (Z.eqb_spec (Z.of_nat j) (-1)); [lia|]. cbv beta iota zeta.
      destruct (Z.ltb_spec (Z.of_nat ki) (Z.of_nat j)); apply returns_ok; right;
        [exists ki, (Z.to_nat i) | exists j, v]; (split; [reflexivity|]; split; [lia|]);
        (split; [assumption|]; split; [lia|]; split; [assumption|]);
        intros j' v' Hj' Hv' Hdv'; (destruct (decide (v' = Z.to_nat i)) as [->|Hne];
          [rewrite (NoDup_lookup fs j' ki _ Hnd Hj' Hki); lia | specialize (Hmin j' v' Hj' ltac:(lia) Hdv'); lia]).
Qed.

(** The frame that is given up holds the victim of the abstract cache. *)
Lemma opt_choose_spec fs : QueueRep n rs fs (queue m) -> front (queue m) = 0 ->
  exists v k x, opt_choose m (Z.of_nat cur) (Z.of_nat n) (Z.of_nat np) = Ok (Z.of_nat v) /\
    rs !! v = Some x /\ fs !! k = Some (Z.of_nat v) /\ furthest fut (pages rs fs) x.
Proof.
  intros HQ Hf0. unfold opt_choose.
  destruct opt_scan_spec as (ds & md & v & -> & Hv & Hmax & Hds). cbn [mbind res_bind].
  assert (forall j y, pages rs fs !! j = Some y ->
    exists u, fs !! j = Some (Z.of_nat u) /\ (u < n)%nat /\ rs !! u = Some y /\ y = rs !!! u) as Hpg.
  { intros j y Hy. unfold pages in Hy. rewrite list_lookup_fmap in Hy.
    destruct (fs !! j) as [f|] eqn:Hfj; [|discriminate]. cbn in Hy. injection Hy as <-.
    destruct (qr_elem n rs fs _ f HQ) as (u & -> & Hu); [eapply list_elem_of_lookup_2, Hfj|].
    exists u. rewrite Nat2Z.id. split; [reflexivity|]. split; [lia|].
    split; [apply list_lookup_lookup_total_lt, Hu | reflexivity]. }
  assert (forall u k, (u < n)%nat -> fs !! k = Some (Z.of_nat u) ->
     exists x, rs !! u = Some x /\ x = rs !!! u /\ pages rs fs !! k = Some x) as Hrs.
  { intros u k Hu Hk. destruct (lookup_lt_is_Some_2 rs u) as [x Hx]; [lia|]. exists x.
    split; [exact Hx|]. split; [symmetry; apply list_lookup_total_correct, Hx|].
    unfold pages. rewrite list_lookup_fmap, Hk. cbn. rewrite Nat2Z.id, (list_lookup_total_correct _ _ _ Hx). reflexivity. }
  pose proof (rep_nodup _ _ _ _ _ rep) as Hnd. pose proof fut_length as Hfl.
  destruct (Z.ltb_spec 1 (Z.of_nat (absent_count d n))) as [Hmany|Hfew].
  - destruct (first_out_spec fs ds HQ Hf0 Hds ltac:(lia)) as (k & w & -> & Hk & Hw & Hdw & Hmin).
    cbn [mbind res_bind]. destruct (Hrs w k Hw Hk) as (x & Hx & Ex & Hkx).
    exists w, k, x. split; [reflexivity|]. split; [exact Hx|]. split; [exact Hk|].
    apply distance_last in Hdw; [|exact Hfl]. rewrite <- Ex in Hdw.
    exists k. split; [exact Hkx|]. intros j y Hy. rewrite Hdw. split; [apply next_use_le|]. intros Hj.
    destruct (Hpg j y Hy) as (u & Hu & Hun & _ & Ey). pose proof (next_use_le fut y).
    destruct (decide (next_use fut y = length fut)) as [E|]; [|lia].
    enough (k <= j)%nat by lia. apply (Hmin j u Hu Hun). unfold distance.
    rewrite <- Ey, E, Nat.eqb_refl. reflexivity.
  - assert (Z.of_nat v ∈ fs) as Hin.
    { rewrite (qr_perm _ _ _ _ HQ). apply list_elem_of_fmap. exists v. rewrite elem_of_seq. lia. }
    apply list_elem_of_lookup in Hin as [k Hk]. destruct (Hrs v k Hv Hk) as (x & Hx & Ex & Hkx).
    exists v, k, x. split; [reflexivity|]. split; [exact Hx|]. split; [exact Hk|].
    exists k. split; [exact Hkx|]. intros j y Hy. destruct (Hpg j y Hy) as (u & Hu & Hun & Hyu & Ey).
    specialize (Hmax u Hun). cbv beta in Hmax. rewrite <- Ey, <- Ex in Hmax.
    apply (distance_le fut y x Hfl) in Hmax. split; [exact Hmax|]. intros Hj.
    destruct (decide (next_use fut y = next_use fut x)) as [E|]; [|lia]. exfalso.
    assert (u <> v) as Huv.
    { intros ->. pose proof (NoDup_lookup fs j k _ (qr_nodup _ _ _ _ HQ) Hu Hk). lia. }
    pose proof (next_use_le fut x). destruct (decide (next_use fut x = length fut)) as [El|].
    + pose proof (absent_count_two d n u v Hun Hv Huv) as Htwo.
      enough (1 < absent_count d n)%nat by lia. apply Htwo; unfold distance;
        [rewrite <- Ey, E, El | rewrite <- Ex, El]; rewrite Nat.eqb_refl; reflexivity.
    + apply next_use_inj in E; [|lia]. rewrite E in Hyu. apply Huv, (NoDup_lookup rs u v x Hnd Hyu Hx).
Qed.
End Choice.
End Future.

(** * Refinement *)

Section OptimalRefines.
  Context (n np : nat) (ps : Z).
  Hypothesis frames_three : (3 <= n)%nat.
  Hypothesis page_size : 0 < ps.

(** The state of the simulator after [cur] addresses that stands for the cache
    [q] with the references [fut] to come. The queue never wraps around. *)
Definition opt_inv (cur : nat) (s : list Z * list Z) (m : Memory) : Prop :=
  exists rs fs, Rep n np rs (frames m) (ptab m) /\ QueueRep n rs fs (queue m) /\
    front (queue m) = (if decide (fs = []) then -1 else 0) /\
    s = (pages rs fs, future (vas m) cur).

Lemma future_tail va cur : tail (future va cur) = future va (S cur).
Proof.
  unfold future. generalize (vai_pageNum <$> va). intros l. revert cur.
  induction l as [|x l IH]; intros [|cur]; cbn; try reflexivity. apply IH.
Qed.

(** The victim's frame leaves the queue and joins its end. *)
Lemma opt_requeue rs fs q v k x p : QueueRep n rs fs q -> front q = 0 -> length rs = n ->
  rs !! v = Some x -> fs !! k = Some (Z.of_nat v) ->
  exists q1 q2, removeFrameFromQueue q (Z.of_nat v) = Ok q1 /\
    enqueue q1 (Z.of_nat v) = Ok (0, q2) /\ front q2 = 0 /\
    QueueRep n (<[v := p]> rs) (delete k fs ++ [Z.of_nat v]) q2 /\
    pages (<[v := p]> rs) (delete k fs ++ [Z.of_nat v]) = delete k (pages rs fs) ++ [p].
Proof.
  intros HQ Hf0 Hfull Hx Hk. pose proof (qr_length n _ _ _ HQ) as Hlf.
  pose proof (qr_nodup n _ _ _ HQ) as Hnd. pose proof (qr_size _ _ _ _ HQ) as Hsz.
  assert (index_of (Z.of_nat v) fs = Some k) as Hidx.
  { apply index_of_Some. split; [exact Hk|]. intros j Hj Hj'.
    rewrite (NoDup_lookup fs j k _ Hnd Hj' Hk) in Hj. lia. }
  destruct (removeFrameFromQueue_spec q fs (Z.of_nat v) k (qr_queue _ _ _ _ HQ) Hidx)
    as (q1 & Hq1 & Hr1 & Hm1 & Hf1); [lia|].
  assert (length (delete k fs) = n - 1)%nat as Hdl by (rewrite length_delete by eauto; lia).
  destruct (QueueRep_rotate n rs v (delete k fs) q1 p) as (q2 & Hq2 & HQ2 & Hp2).
  { rewrite <- (delete_Permutation fs k _ Hk). apply HQ. } { lia. } { exact Hr1. } { congruence. }
  destruct (enqueue_spec q1 _ (Z.of_nat v) Hr1) as (q3 & Hq3 & _ & _ & Hf3); [lia|].
  rewrite Hq2 in Hq3. injection Hq3 as <-.
  exists q1, q2. split; [exact Hq1|]. split; [exact Hq2|]. split; [|split; [exact HQ2|]].
  - rewrite Hf3, Hf1, Hf0. reflexivity.
  - rewrite Hp2, pages_delete. reflexivity.
Qed.

Section Step.
  Context (m : Memory) (cur : nat) (a p : Z) (rs fs : list Z).
  Hypothesis rep : Rep n np rs (frames m) (ptab m).
  Hypothesis qrep : QueueRep n rs fs (queue m).
  Hypothesis head : front (queue m) = (if decide (fs = []) then -1 else 0).
  Hypothesis all_addresses : length (vas m) = Z.to_nat NUM_ADDRESSES.
  Hypothesis range : 0 <= p < Z.of_nat np.
  Hypothesis current : vas m !! cur = Some (mkVA a p).

(** The victim's frame, from the choice to the stores. *)
Lemma opt_fault : length rs = n -> p ∉ rs ->
  exists m' rs' x,
    (victim ← opt_choose m (Z.of_nat cur) (Z.of_nat n) (Z.of_nat np);
     '(fr, va, pt) ← install_victim (frames m) (vas m) (ptab m) (Z.of_nat cur) p victim ps (Z.rem a ps);
     q ← removeFrameFromQueue (queue m) victim;
     '(_, q) ← enqueue q victim;
     f ← aget fr victim;
     pt ← clear_frame pt (Z.of_nat np) (pm_frameNum f) p;
     mret (0, mkMem fr va pt q)) = Ok (0, m') /\ vas m' = vas m /\
    opt_victim (future (vas m) cur) (pages rs fs) = Some x /\
    opt_inv (S cur) (filter (fun y => y <> x) (pages rs fs) ++ [p], tail (future (vas m) cur)) m' /\
    Rep n np rs' (frames m') (ptab m') /\ served rs' (frames m') ps a p.
Proof.
  intros Hfull Hnin. pose proof (qr_length n _ _ _ qrep) as Hlf.
  assert (front (queue m) = 0) as Hf0.
  { rewrite head. case_decide; [subst fs; cbn in Hlf; lia | reflexivity]. }
  destruct (opt_choose_spec n np rs m cur rep Hfull ltac:(lia) all_addresses
    (lookup_lt_Some _ _ _ current) fs qrep Hf0) as (v & k & x & -> & Hx & Hk & Hfar).
  cbn [mbind res_bind]. destruct (Rep_lookup_page n np _ _ _ p rep range) as [e He].
  destruct (serve_victim n np rs _ _ _ cur a p ps rep range current _ v x e Hnin Hx He)
    as (F' & -> & Hs & Hrep). cbn [mbind res_bind].
  specialize (Hrep _ (swapped_clear_last n np rs _ _ v x p (referenceBit e) rep Hx range Hnin)).
  destruct (opt_requeue rs fs (queue m) v k x p qrep Hf0 Hfull Hx Hk)
    as (q1 & q2 & -> & Hq2 & Hf2 & HQ2 & Hpages). cbn [mbind res_bind]. rewrite Hq2.
  cbn [mbind res_bind]. pose proof (lookup_lt_Some _ _ _ Hx) as Hvlt.
  destruct (Rep_lookup_frame n np _ _ _ v Hrep ltac:(lia)) as [f Hf].
  rewrite (aget_ok _ _ _ Hf). cbn [mbind res_bind].
  destruct (rep_occ _ _ _ _ _ Hrep v f Hf) as [_ ->]; [rewrite length_insert; lia|].
  rewrite (clear_frame_eq np _ _ p) by (rewrite length_insert; apply rep). cbn [mbind res_bind].
  eexists _, _, x. split; [reflexivity|]. split; [reflexivity|].
  split; [apply opt_victim_spec, Hfar|]. split; [|split; [exact Hrep | exact Hs]].
  do 2 eexists. split; [exact Hrep|]. split; [exact HQ2|]. split.
  - cbn [queue]. rewrite Hf2, decide_False; [reflexivity|]. intros E. apply (f_equal length) in E.
    rewrite length_app in E. cbn in E. lia.
  - cbn [vas]. rewrite Hpages, future_tail. do 2 f_equal. apply filter_ne_delete.
    + rewrite (pages_perm n rs fs _ qrep). apply rep.
    + unfold pages. rewrite list_lookup_fmap, Hk. cbn.
      rewrite Nat2Z.id, (list_lookup_total_correct _ _ _ Hx). reflexivity.
Qed.

(** The next free frame. *)
Lemma opt_free : (length rs < n)%nat -> p ∉ rs ->
  exists m' rs',
    ('(fr, va, pt, fn) ← install_free (frames m) (vas m) (ptab m) (Z.of_nat cur) p
                          (Z.of_nat (length rs)) ps (Z.rem a ps);
     '(_, q) ← enqueue (queue m) fn;
     mret (0, mkMem fr va pt q)) = Ok (0, m') /\ vas m' = vas m /\
    opt_inv (S cur) (pages rs fs ++ [p], tail (future (vas m) cur)) m' /\
    Rep n np rs' (frames m') (ptab m') /\ served rs' (frames m') ps a p.
Proof.
  intros Hlt Hnin. destruct (Rep_lookup_page n np _ _ _ p rep range) as [e He].
  destruct (serve_free n np rs _ _ _ cur a p ps rep range current e Hnin Hlt He) as (F' & -> & H' & Hs).
  cbn [mbind res_bind].
  destruct (QueueRep_append n rs fs _ p qrep Hlt) as (q' & Hq' & HQ' & Hpages).
  destruct (enqueue_spec (queue m) fs (Z.of_nat (length rs)) (qr_queue _ _ _ _ qrep))
    as (q3 & Hq3 & _ & _ & Hf3).
  { rewrite (qr_size _ _ _ _ qrep), (qr_length n _ _ _ qrep). lia. }
  rewrite Hq' in Hq3. injection Hq3 as <-. rewrite Hq'. cbn [mbind res_bind].
  eexists _, _. split; [reflexivity|]. split; [reflexivity|]. split; [|split; [exact H' | exact Hs]].
  do 2 eexists. split; [exact H'|]. split; [exact HQ'|]. split.
  - cbn [queue]. rewrite Hf3, head. rewrite (decide_False (P := fs ++ _ = [])) by (destruct fs; discriminate).
    case_decide; reflexivity.
  - cbn [vas]. rewrite Hpages, future_tail. reflexivity.
Qed.
End Step.

(** One call of [replacePageOptimal] is one step of the furthest-next-use
    cache. *)
Lemma replacePageOptimal_step s m cur a p :
  opt_inv cur s m -> vas_ok np ps (vas m) -> length (vas m) = Z.to_nat NUM_ADDRESSES ->
  vas m !! cur = Some (mkVA a p) ->
  exists m', replacePageOptimal m (Z.of_nat cur) (Z.of_nat n) (Z.of_nat np) ps =
      Ok (if fst (opt_step n s p) then 1 else 0, m') /\
    opt_inv (S cur) (snd (opt_step n s p)) m' /\ vas m' = vas m /\
    exists rs, Rep n np rs (frames m') (ptab m') /\ served rs (frames m') ps a p.
Proof.
  intros (rs & fs & H & HQ & Hf & ->) Hvas Hall Hva.
  destruct (Hvas cur _ Hva) as [Hpq Hp]. cbn in Hpq, Hp.
  destruct (Rep_lookup_page n np _ _ _ p H Hp) as [e He].
  unfold replacePageOptimal. rewrite (aget_ok _ _ _ Hva). cbn [mbind res_bind virtualAddress].
  rewrite cmod_nz, cdiv_nz by lia. cbn [mbind res_bind]. rewrite <- Hpq.
  rewrite (aget_ok_Z _ p e) by (lia || exact He). cbn [mbind res_bind]. unfold opt_step.
  rewrite (decide_ext _ _ _ _ (elem_of_pages n rs fs _ p HQ)), (pages_length n _ _ _ HQ).
  pose proof (rep_len _ _ _ _ _ H) as Hlen.
  destruct (decide (p ∈ rs)) as [Hin|Hnin]; cbn [fst snd].
  - apply list_elem_of_lookup in Hin as [i Hi].
    rewrite (hit_scan_hit n np rs _ _ _ _ a i p H Hva Hi). cbn [mbind res_bind].
    destruct (serve_hit n np rs _ _ a p ps H i Hi) as (F' & -> & H' & Hs).
    eexists. split; [reflexivity|]. split; [|eauto].
    exists rs, fs. rewrite future_tail. auto.
  - rewrite (hit_scan_miss n np rs _ _ _ _ a p H Hva Hnin). cbn [mbind res_bind].
    destruct (Nat.ltb_spec (length rs) n) as [Hlt|Hge]; cbn [fst snd].
    + rewrite (free_scan_found n np rs _ _ H Hlt). cbn [mbind res_bind].
      destruct (opt_free m cur a p rs fs H HQ Hf Hall Hp Hva Hlt Hnin) as (m' & rs' & -> & Hv & Hi & Hr).
      eauto 10.
    + rewrite (free_scan_none n np rs _ _ H) by lia. cbn [mbind res_bind]. rewrite Z.eqb_refl.
      destruct (opt_fault m cur a p rs fs H HQ Hf Hall Hp Hva ltac:(lia) Hnin)
        as (m' & rs' & x & -> & Hv & -> & Hi & Hr). eauto 10.
Qed.
End OptimalRefines.
