(* ===== verification/Replacement.v ===== *)
(** Theorems about the four replacement functions of src/4/as4.c, each from the
    state its driver can reach: a call is a step of the abstract cache, returns
    1 exactly on a hit and leaves the address mapped. *)

From S2P Require Import Prelude PageQueue PageTables Residency Paging.
From S2P Require Import ReplaceFIFO ReplaceSC ReplaceLRU ReplaceOptimal.
Local Open Scope Z_scope.

(** The memory before the first reference, with [n] frames and [np] pages. *)
Definition start (n np : nat) (va : list VirtualAddressInfo) : Memory :=
  mkMem (replicate n (mkPM 0 (-1) (-1))) va (replicate np (mkPT (-1) (-1) 0))
    (mkPageQueue (replicate n None) (-1) (-1) (Z.of_nat n)).

Lemma start_rep n np va : Rep n np [] (frames (start n np va)) (ptab (start n np va)).
Proof.
  apply Rep_start; cbn; rewrite ?length_replicate; try reflexivity.
  - apply Forall_replicate. reflexivity.
  - apply Forall_replicate. split; reflexivity.
Qed.

Lemma start_queue n np va : (0 < n)%nat -> QueueRep n [] [] (queue (start n np va)).
Proof.
  intros Hn. split; [|reflexivity | reflexivity].
  apply (initializePageQueue_empty (fun _ => true) (Z.of_nat n)); [lia|].
  cbn. rewrite Nat2Z.id. reflexivity.
Qed.

Section Theorems.
  Context (n np : nat) (ps : Z).

(** What a call leaves for the output of the row. *)
Definition mapped (m : Memory) (a p : Z) : Prop :=
  exists rs, Rep n np rs (frames m) (ptab m) /\ served rs (frames m) ps a p.

(** [replacePageFIFO] is a step of the FIFO cache: on a hit nothing moves, on
    a fault the page takes the next free frame or the frame of the page that
    came first. *)
Theorem replacePageFIFO_refines malloc_ok q m cur a p :
  (2 <= n)%nat -> 0 < ps -> fifo_inv n np q m -> vas_ok np ps (vas m) -> vas m !! cur = Some (mkVA a p) ->
  exists m', replacePageFIFO malloc_ok m (Z.of_nat cur) (Z.of_nat n) (Z.of_nat np) ps =
      Ok (if fst (fifo_step n q p) then 1 else 0, m') /\
    fifo_inv n np (snd (fifo_step n q p)) m' /\ vas m' = vas m /\ mapped m' a p.
Proof. intros Hn Hp. apply (replacePageFIFO_step malloc_ok n np ps Hn Hp). Qed.

(** C3: [replacePageSC] is a step of the second-chance cache; in particular its
    search, which restarts at the first page after every second chance, ends
    within one pass over the page table per frame. *)
Theorem replacePageSC_refines malloc_ok q m cur a p :
  (2 <= n)%nat -> 0 < ps -> sc_inv n np q m -> vas_ok np ps (vas m) -> vas m !! cur = Some (mkVA a p) ->
  exists m', replacePageSC malloc_ok m (Z.of_nat cur) (Z.of_nat n) (Z.of_nat np) ps =
      Ok (if fst (sc_step n q p) then 1 else 0, m') /\
    sc_inv n np (snd (sc_step n q p)) m' /\ vas m' = vas m /\ mapped m' a p.
Proof. intros Hn Hp. apply (replacePageSC_step malloc_ok n np ps Hn Hp). Qed.

(** C4: [replacePageLRU], which recomputes every page's last use from the
    addresses, is a step of the LRU cache. *)
Theorem replacePageLRU_refines q m cur a p :
  (1 <= n)%nat -> 0 < ps -> lru_inv n np cur q m -> vas_ok np ps (vas m) -> vas m !! cur = Some (mkVA a p) ->
  exists m', replacePageLRU m (Z.of_nat cur) (Z.of_nat n) (Z.of_nat np) ps =
      Ok (if fst (lru_step n q p) then 1 else 0, m') /\
    lru_inv n np (S cur) (snd (lru_step n q p)) m' /\ vas m' = vas m /\ mapped m' a p.
Proof. intros Hn Hp. apply (replacePageLRU_step n np ps Hn Hp). Qed.

(** C2: [replacePageOptimal] is a step of the cache that gives up the page whose
    next use is furthest away, and among pages that never come back the one that
    came first. *)
Theorem replacePageOptimal_refines s m cur a p :
  (3 <= n)%nat -> 0 < ps -> opt_inv n np cur s m -> vas_ok np ps (vas m) ->
  length (vas m) = Z.to_nat NUM_ADDRESSES -> vas m !! cur = Some (mkVA a p) ->
  exists m', replacePageOptimal m (Z.of_nat cur) (Z.of_nat n) (Z.of_nat np) ps =
      Ok (if fst (opt_step n s p) then 1 else 0, m') /\
    opt_inv n np (S cur) (snd (opt_step n s p)) m' /\ vas m' = vas m /\ mapped m' a p.
Proof. intros Hn Hp. apply (replacePageOptimal_step n np ps Hn Hp). Qed.
End Theorems.

(** * Witnesses: three frames of 1 KB, four pages, address 1030 *)

Lemma sample_vas_ok k : vas_ok 4 1024 (replicate k (mkVA 1030 1)).
Proof.
  intros i e He. apply lookup_replicate in He as [-> _]. cbn. split; [reflexivity | lia].
Qed.

Lemma replacePageFIFO_refines_witness :
  exists m', replacePageFIFO (fun _ => true) (start 3 4 [mkVA 1030 1]) 0 3 4 1024 = Ok (0, m') /\
    mapped 3 4 1024 m' 1030 1.
Proof.
  destruct (replacePageFIFO_refines 3 4 1024 (fun _ => true) [] (start 3 4 [mkVA 1030 1]) 0 1030 1)
    as (m' & E & _ & _ & H).
  - lia.
  - lia.
  - exists [], []. split; [apply start_rep|]. split; [apply start_queue; lia | reflexivity].
  - apply (sample_vas_ok 1).
  - reflexivity.
  - exists m'. split; [exact E | exact H].
Defined.

Lemma replacePageSC_refines_witness :
  exists m', replacePageSC (fun _ => true) (start 3 4 [mkVA 1030 1]) 0 3 4 1024 = Ok (0, m') /\
    mapped 3 4 1024 m' 1030 1.
Proof.
  destruct (replacePageSC_refines 3 4 1024 (fun _ => true) [] (start 3 4 [mkVA 1030 1]) 0 1030 1)
    as (m' & E & _ & _ & H).
  - lia.
  - lia.
  - exists [], []. split; [apply start_rep|]. split; [apply start_queue; lia | reflexivity].
  - apply (sample_vas_ok 1).
  - reflexivity.
  - exists m'. split; [exact E | exact H].
Defined.

Lemma replacePageLRU_refines_witness :
  exists m', replacePageLRU (start 3 4 [mkVA 1030 1]) 0 3 4 1024 = Ok (0, m') /\
    mapped 3 4 1024 m' 1030 1.
Proof.
  destruct (replacePageLRU_refines 3 4 1024 [] (start 3 4 [mkVA 1030 1]) 0 1030 1)
    as (m' & E & _ & _ & H).
  - lia.
  - lia.
  - exists [], (fun _ => O). split; [apply start_rep|]. split; [reflexivity|].
    split; [intros x Hx; apply not_elem_of_nil in Hx; contradiction | constructor].
  - apply (sample_vas_ok 1).
  - reflexivity.
  - exists m'. split; [exact E | exact H].
Defined.

Lemma replacePageOptimal_refines_witness :
  exists m', replacePageOptimal (start 3 4 (replicate (Z.to_nat NUM_ADDRESSES) (mkVA 1030 1))) 0 3 4 1024 = Ok (0, m') /\
    mapped 3 4 1024 m' 1030 1.
Proof.
  destruct (replacePageOptimal_refines 3 4 1024
    ([], future (replicate (Z.to_nat NUM_ADDRESSES) (mkVA 1030 1)) 0)
    (start 3 4 (replicate (Z.to_nat NUM_ADDRESSES) (mkVA 1030 1))) 0 1030 1)
    as (m' & E & _ & _ & H).
  - lia.
  - lia.
  - exists [], []. split; [apply start_rep|]. split; [apply start_queue; lia|]. split; reflexivity.
  - apply sample_vas_ok.
  - apply length_replicate.
  - apply lookup_replicate. split; [reflexivity | vm_compute; lia].
  - exists m'. split; [exact E | exact H].
Defined.
