(* ===== verification/Simulator.v ===== *)
(** The driver of the page-replacement simulator: [main] of src/4/as4.c. It asks
    for a configuration, reads or generates the addresses, runs one replacement
    algorithm over all of them and writes a row for each. *)

From S2P Require Import Prelude PageQueue PageTables Residency Paging.
From S2P Require Import ReplaceFIFO ReplaceSC ReplaceLRU ReplaceOptimal.
Local Open Scope Z_scope.

(** * Configuration *)

(** [scanf] of a number, repeated until it lies in [1 .. hi]. The inputs are the
    numbers the user types; when they end [scanf] keeps failing and the loop
    does not. *)
Fixpoint choose (hi : Z) (inputs : list Z) : res (Z * list Z) :=
  match inputs with
  | [] => Diverge
  | x :: inputs => if (x <? 1) || (hi <? x) then choose hi inputs else Ok (x, inputs)
  end.

Record Config := mkConfig {
  virtualAddressBits : Z;
  pageSize : Z;
  physicalMemorySize : Z;
  pageReplacementAlgorithm : Z;
  fileOption : Z
}.

Definition totalVirtualMemory (c : Config) : Z := Z.shiftl 1 (virtualAddressBits c).
Definition pageSizeBytes (c : Config) : Z := pageSize c * 1024.
Definition totalPage (c : Config) : Z := Z.quot (totalVirtualMemory c) (pageSizeBytes c).
Definition totalFrame (c : Config) : Z := Z.quot (physicalMemorySize c) (pageSize c).

(** The tables [main] allocates from the configuration. *)
Record Tables := mkTables {
  pageTable : list PageTable;
  physicalMemoryInfoArray : list PhysicalMemoryInfo;
  pageQueue : PageQueue
}.

(** The five questions A to E, with the mapping of each answer and the tables
    that are created between them. *)
Definition readConfig (malloc_ok : Z -> bool) (inputs : list Z) : res (Config * Tables * list Z) :=
  '(b, inputs) ← choose 3 inputs;
  let bits := if b =? 1 then 18 else if b =? 2 then 19 else 20 in
  '(p, inputs) ← choose 3 inputs;
  let size := if p =? 1 then 1 else if p =? 2 then 2 else 4 in
  pt ← createPageTable malloc_ok (Z.quot (Z.shiftl 1 bits) (size * 1024));
  '(m, inputs) ← choose 2 inputs;
  let memory := if m =? 1 then 32 else 64 in
  fr ← createPhysicalMemoryInfoArray malloc_ok (Z.quot memory size);
  q ← initializePageQueue malloc_ok (Z.quot memory size);
  '(a, inputs) ← choose 4 inputs;
  '(f, inputs) ← choose 2 inputs;
  mret (mkConfig bits size memory a f, mkTables pt fr q, inputs).

(** * Input *)

(** The rest of an input file as [fscanf("%d")] meets it: a number, or text
    that is no number ([None]), which is not consumed. *)
Definition InFile := list (option Z).

Definition readVirtualAddress (file : InFile) (va : list VirtualAddressInfo) (count : Z) :
    res (Z * InFile * list VirtualAddressInfo * Z) :=
  if count <? NUM_ADDRESSES then
    match file with
    | [] => mret (0, [], va, count)
    | Some z :: file' =>
        va ← aupd (fun e => mkVA z (vai_pageNum e)) va count;
        mret (1, file', va, count + 1)
    | None :: _ => mret (1, file, va, count + 1)
    end
  else mret (0, file, va, count).

(** The loop of [main] around it, with the range check. *)
Definition read_body (bits : Z) (s : InFile * list VirtualAddressInfo * Z) :
    res (ctl (InFile * list VirtualAddressInfo * Z) Empty_set) :=
  let '(file, va, count) := s in
  '(more, file, va, count) ← readVirtualAddress file va count;
  if more =? 0 then mret (Break (file, va, count))
  else
    e ← aget va (count - 1);
    let maxAddress := Z.shiftl 1 bits - 1 in
    if (virtualAddress e <? 0) || (maxAddress <? virtualAddress e) then Exit 1
    else mret (Continue (file, va, count)).

Definition readAddresses (bits : Z) (file : InFile) (va : list VirtualAddressInfo) :
    res (list VirtualAddressInfo) :=
  out ← loop (S (S (Z.to_nat NUM_ADDRESSES))) (read_body bits) (file, va, 0);
  match out with inl (_, va, _) => mret va | inr r => match r : Empty_set with end end.

(** The file of random addresses that option 1 writes and reads back; the
    values are those of [rand()]. *)
Definition generate (bits : Z) (rands : list Z) : InFile :=
  (fun r => Some (r mod Z.shiftl 1 bits)) <$> take (Z.to_nat NUM_ADDRESSES) rands.

(** * Simulation *)

(** A row of the output file; [mark] is ['H'] or ['F']. *)
Record Row := mkRow {
  row_no : Z;
  row_va : Z;
  row_page : Z;
  row_frame : Z;
  row_pa : Z;
  mark : bool
}.

Section Main.
  Context (malloc_ok : Z -> bool).

Definition replacePage (algorithm : Z) (m : Memory) (i tf tp ps : Z) : res (Z * Memory) :=
  if algorithm =? 1 then replacePageOptimal m i tf tp ps
  else if algorithm =? 2 then replacePageFIFO malloc_ok m i tf tp ps
  else if algorithm =? 3 then replacePageLRU m i tf tp ps
  else if algorithm =? 4 then replacePageSC malloc_ok m i tf tp ps
  else Exit 1.

(** The state of the loop over the addresses: memory, [pageHits],
    [pageFaults] and the rows written so far. *)
Definition simulate_step (c : Config) (i : Z) (s : Memory * Z * Z * list Row) :
    res (Memory * Z * Z * list Row) :=
  let '(m, pageHits, pageFaults, rows) := s in
  '(result, m) ← replacePage (pageReplacementAlgorithm c) m i (totalFrame c) (totalPage c) (pageSizeBytes c);
  let hit := negb (result =? 0) in
  v ← aget (vas m) i;
  f ← getFrameNumFromVA (virtualAddress v) (ptab m) (totalPage c) (pageSizeBytes c);
  pa ← getPhysicalAddressFromVA (virtualAddress v) (ptab m) (frames m) (totalPage c) (totalFrame c) (pageSizeBytes c);
  mret (m, if hit then pageHits + 1 else pageHits, if hit then pageFaults else pageFaults + 1,
        rows ++ [mkRow (i + 1) (virtualAddress v) (vai_pageNum v) f pa hit]).

Definition simulate (c : Config) (t : Tables) (va : list VirtualAddressInfo) : res (list Row * Z) :=
  va ← for_each (Z.to_nat NUM_ADDRESSES) 0 (fun i va =>
         e ← aget va i;
         page ← cdiv (virtualAddress e) (pageSizeBytes c);
         set_vai_pageNum va i page) va;
  '(_, _, pageFaults, rows) ← for_each (Z.to_nat NUM_ADDRESSES) 0 (simulate_step c)
         (mkMem (physicalMemoryInfoArray t) va (pageTable t) (pageQueue t), 0, 0, []);
  mret (rows, pageFaults).

(** The world: what the user types, the file the user names, the numbers of
    [rand], and whether [input.in] and the output file can be opened. *)
Record World := mkWorld {
  typed : list Z;
  named_file : option InFile;
  rands : list Z;
  input_in_ok : bool;
  output_ok : bool
}.

(** [main], up to the contents of the output file. *)
Definition main (w : World) : res (list Row * Z) :=
  va ← createVirtualAddressInfoArray malloc_ok;
  '(c, t, _) ← readConfig malloc_ok (typed w);
  file ← (if fileOption c =? 1
          then if input_in_ok w then mret (generate (virtualAddressBits c) (rands w)) else Exit 1
          else match named_file w with Some f => mret f | None => Exit 1 end);
  va ← readAddresses (virtualAddressBits c) file va;
  if output_ok w then simulate c t va else Undef.
End Main.

(** * The interface of a replacement function *)

(** What a replacement function promises to the driver: a call on the next
    address is a step of an abstract cache, and leaves the address served. *)
Class Policy (n np : nat) (ps : Z) (replace : Memory -> Z -> res (Z * Memory)) : Type := {
  pol_state : Type;
  pol_step : pol_state -> Z -> bool * pol_state;
  pol_inv : nat -> pol_state -> Memory -> Prop;
  pol_serves : forall cur s m a p,
    pol_inv cur s m -> vas_ok np ps (vas m) -> length (vas m) = Z.to_nat NUM_ADDRESSES ->
    vas m !! cur = Some (mkVA a p) ->
    exists m', replace m (Z.of_nat cur) = Ok (if fst (pol_step s p) then 1 else 0, m') /\
      pol_inv (S cur) (snd (pol_step s p)) m' /\ vas m' = vas m /\
      exists rs, Rep n np rs (frames m') (ptab m') /\ served rs (frames m') ps a p
}.

Section Instances.
  Context (malloc_ok : Z -> bool) (n np : nat) (ps : Z).
  Hypothesis frames_three : (3 <= n)%nat.
  Hypothesis page_size : 0 < ps.

Definition optimal_policy :
  Policy n np ps (fun m i => replacePageOptimal m i (Z.of_nat n) (Z.of_nat np) ps).
Proof.
  refine {| pol_step := opt_step n; pol_inv := opt_inv n np |}.
  intros cur s m a p Hi Hv Hl Hc. apply (replacePageOptimal_step n np ps frames_three page_size s m cur a p); assumption.
Defined.

Definition fifo_policy :
  Policy n np ps (fun m i => replacePageFIFO malloc_ok m i (Z.of_nat n) (Z.of_nat np) ps).
Proof.
  refine {| pol_step := fifo_step n; pol_inv _ := fifo_inv n np |}.
  intros cur s m a p Hi Hv Hl Hc. apply (replacePageFIFO_step malloc_ok n np ps); assumption || lia.
Defined.

Definition lru_policy :
  Policy n np ps (fun m i => replacePageLRU m i (Z.of_nat n) (Z.of_nat np) ps).
Proof.
  refine {| pol_step := lru_step n; pol_inv := lru_inv n np |}.
  intros cur s m a p Hi Hv Hl Hc. apply (replacePageLRU_step n np ps); assumption || lia.
Defined.

Definition sc_policy :
  Policy n np ps (fun m i => replacePageSC malloc_ok m i (Z.of_nat n) (Z.of_nat np) ps).
Proof.
  refine {| pol_step := sc_step n; pol_inv _ := sc_inv n np |}.
  intros cur s m a p Hi Hv Hl Hc. apply (replacePageSC_step malloc_ok n np ps); assumption || lia.
Defined.
End Instances.

(** * The columns of a row *)

Section Columns.
  Context (n np : nat) (ps : Z) (rs : list Z) (F : list PhysicalMemoryInfo) (P : list PageTable).
  Context (a p : Z) (i : nat).
  Hypothesis page_size : 0 < ps.
  Hypothesis rep : Rep n np rs F P.
  Hypothesis page_of : Z.quot a ps = p.
  Hypothesis resident : rs !! i = Some p.

Lemma entry_of_page j e : P !! j = Some e -> pageNum e = p -> Z.of_nat j = p.
Proof.
  intros He Hp. pose proof (rep_range _ _ _ _ _ rep _ _ resident) as Hr.
  destruct (decide (Z.of_nat j ∈ rs)) as [Hin|Hout].
  - apply list_elem_of_lookup in Hin as [k Hk].
    destruct (rep_in _ _ _ _ _ rep k _ e Hk) as [Hpe _]; [rewrite Nat2Z.id; exact He | congruence].
  - destruct (rep_out _ _ _ _ _ rep j e He Hout). lia.
Qed.

Lemma page_entry : exists e, P !! Z.to_nat p = Some e /\ pageNum e = p /\ frameNum e = Z.of_nat i.
Proof.
  pose proof (rep_range _ _ _ _ _ rep _ _ resident) as Hr.
  destruct (Rep_lookup_page n np rs F P p rep Hr) as [e He]. exists e. split; [exact He|].
  apply (rep_in _ _ _ _ _ rep i p e resident He).
Qed.

Lemma getFrameNum_spec : getFrameNumFromVA a P (Z.of_nat np) ps = Ok (Z.of_nat i).
Proof.
  unfold getFrameNumFromVA. rewrite cdiv_nz by lia. cbn [mbind res_bind]. rewrite page_of, Nat2Z.id.
  destruct page_entry as (ep & Hep & Hpp & Hfp).
  pose proof (rep_range _ _ _ _ _ rep _ _ resident) as Hr.
  match goal with |- context [for_ctl np 0 ?b tt] => set (body := b) end.
  destruct (for_ctl_rule (fun j (s : unit) => j <= p) (fun out => out = inr (Z.of_nat i)) body np 0 tt)
    as (out & -> & ->); [lia | | intros s; lia | reflexivity].
  intros j s Hj Hjp. unfold body. destruct (Rep_lookup_page n np rs F P j rep) as [e He]; [lia|].
  rewrite (aget_ok_Z P j e) by (lia || exact He). apply returns_ok.
  destruct (Z.eqb_spec (pageNum e) p) as [E|E]; cbn [ctl_post].
  - assert (j = p) as -> by (apply entry_of_page in He; lia). congruence.
  - assert (j <> p) by (intros ->; congruence). lia.
Qed.

Lemma getPhysicalAddress_spec x : F !! i = Some (mkPM 1 (Z.of_nat i) x) ->
  getPhysicalAddressFromVA a P F (Z.of_nat np) (Z.of_nat n) ps = Ok x.
Proof.
  intros HF. unfold getPhysicalAddressFromVA. rewrite cdiv_nz by lia. cbn [mbind res_bind].
  rewrite page_of, !Nat2Z.id. destruct page_entry as (ep & Hep & Hpp & Hfp).
  pose proof (rep_range _ _ _ _ _ rep _ _ resident) as Hr.
  match goal with |- context [for_each np 0 ?b (-1)] => set (body := b) end.
  destruct (for_each_rule (fun j mt => mt = if p <? j then p else -1) body np 0 (-1))
    as (mt & -> & ->).
  { destruct (Z.ltb_spec p 0); [lia | reflexivity]. }
  { intros j mt Hj ->. unfold body. destruct (Rep_lookup_page n np rs F P j rep) as [e He]; [lia|].
    rewrite (aget_ok_Z P j e) by (lia || exact He). apply returns_ok.
    destruct (Z.eqb_spec (pageNum e) p) as [E|E].
    - apply entry_of_page in He; [|exact E]. destruct (Z.ltb_spec p (j + 1)); lia.
    - assert (j <> p) by (intros ->; congruence).
      destruct (Z.ltb_spec p j), (Z.ltb_spec p (j + 1)); lia. }
  destruct (Z.ltb_spec p (0 + Z.of_nat np)); [|lia]. cbn [mbind res_bind].
  match goal with |- context [for_ctl n 0 ?b tt] => set (scan := b) end.
  pose proof (lookup_lt_Some _ _ _ resident) as Hilt. pose proof (rep_len _ _ _ _ _ rep).
  destruct (for_ctl_rule (fun j (s : unit) => j <= Z.of_nat i) (fun out => out = inr x) scan n 0 tt)
    as (out & -> & ->); [lia | | intros s; lia | reflexivity].
  intros j s Hj Hji. unfold scan. rewrite (aget_ok_Z P p ep) by (lia || exact Hep). cbn [mbind res_bind].
  destruct (Rep_lookup_frame n np rs F P (Z.to_nat j) rep) as [f Hf]; [lia|].
  rewrite (aget_ok_Z F j f) by (lia || exact Hf). apply returns_ok.
  destruct (rep_occ _ _ _ _ _ rep _ _ Hf) as [_ Hfn]; [lia|]. rewrite Hfp, Hfn.
  destruct (Z.eqb_spec (Z.of_nat i) (Z.of_nat (Z.to_nat j))) as [E|E]; cbn [ctl_post]; [|lia].
  assert (Z.to_nat j = i) as Ej by lia. rewrite Ej, HF in Hf. injection Hf as <-. reflexivity.
Qed.
End Columns.

(** * The run *)

(** The pages the addresses name. *)
Definition references (ps : Z) (va : list VirtualAddressInfo) : list Z :=
  (fun e => Z.quot (virtualAddress e) ps) <$> va.

(** Row [i] of the output. *)
Definition row_ok (c : Config) (va : list VirtualAddressInfo) (i : nat) (r : Row) : Prop :=
  exists e, va !! i = Some e /\ row_no r = Z.of_nat i + 1 /\ row_va r = virtualAddress e /\
    row_page r = Z.quot (virtualAddress e) (pageSizeBytes c) /\
    0 <= row_frame r < totalFrame c /\
    row_pa r = row_frame r * pageSizeBytes c + Z.rem (virtualAddress e) (pageSizeBytes c).

Section Run.
  Context (malloc_ok : Z -> bool) (c : Config) (n np : nat) (replace : Memory -> Z -> res (Z * Memory)).
  Context {policy : Policy n np (pageSizeBytes c) replace}.
  Hypothesis frames_are : totalFrame c = Z.of_nat n.
  Hypothesis pages_are : totalPage c = Z.of_nat np.
  Hypothesis page_size : 0 < pageSizeBytes c.
  Hypothesis algorithm : forall m i, replacePage malloc_ok (pageReplacementAlgorithm c) m i
    (totalFrame c) (totalPage c) (pageSizeBytes c) = replace m i.
  Context (va : list VirtualAddressInfo).
  Hypothesis all_addresses : length va = Z.to_nat NUM_ADDRESSES.
  Hypothesis pages_known : vas_ok np (pageSizeBytes c) va.

Lemma simulate_step_ok cur s m h f rows :
  (cur < length va)%nat -> pol_inv cur s m -> vas m = va ->
  exists m' r p, references (pageSizeBytes c) va !! cur = Some p /\
    simulate_step malloc_ok c (Z.of_nat cur) (m, h, f, rows) =
      Ok (m', if fst (pol_step s p) then h + 1 else h,
              if fst (pol_step s p) then f else f + 1, rows ++ [r]) /\
    pol_inv (S cur) (snd (pol_step s p)) m' /\ vas m' = va /\
    row_ok c va cur r /\ mark r = fst (pol_step s p).
Proof.
  intros Hcur Hinv Hvas. destruct (lookup_lt_is_Some_2 va cur Hcur) as [[a p] Hva].
  destruct (pages_known cur _ Hva) as [Hp Hr]. cbn in Hp, Hr.
  rewrite <- Hvas in Hva, pages_known, all_addresses.
  destruct (pol_serves cur s m a p Hinv pages_known all_addresses Hva)
    as (m' & Hrep & Hinv' & Hvas' & rs & HR & i & Hi & HF).
  unfold simulate_step. rewrite algorithm, Hrep. cbn [mbind res_bind].
  rewrite Hvas', (aget_ok _ _ _ Hva). cbn [mbind res_bind virtualAddress vai_pageNum].
  rewrite frames_are, pages_are.
  rewrite (getFrameNum_spec n np _ rs _ _ a p i page_size HR (eq_sym Hp) Hi). cbn [mbind res_bind].
  rewrite (getPhysicalAddress_spec n np _ rs _ _ a p i page_size HR (eq_sym Hp) Hi _ HF). cbn [mbind res_bind].
  assert (negb ((if fst (pol_step s p) then 1 else 0) =? 0) = fst (pol_step s p)) as ->
    by (destruct (fst (pol_step s p)); reflexivity).
  eexists m', _, p. split.
  { unfold references. rewrite list_lookup_fmap, <- Hvas, Hva. cbn. rewrite <- Hp. reflexivity. }
  split; [reflexivity|]. split; [exact Hinv'|]. split; [congruence|]. split; [|reflexivity].
  exists (mkVA a p). rewrite <- Hvas. split; [exact Hva|]. cbn. split; [reflexivity|]. split; [reflexivity|].
  split; [exact Hp|]. split; [|reflexivity]. apply lookup_lt_Some in Hi.
  pose proof (rep_len _ _ _ _ _ HR). lia.
Qed.

Lemma run_loop_ok s0 m0 : pol_inv 0 s0 m0 -> vas m0 = va ->
  exists m h rows,
    for_each (Z.to_nat NUM_ADDRESSES) 0 (simulate_step malloc_ok c) (m0, 0, 0, []) =
      Ok (m, h, Z.of_nat (faults pol_step s0 (references (pageSizeBytes c) va)), rows) /\
    mark <$> rows = hits pol_step s0 (references (pageSizeBytes c) va) /\
    length rows = length va /\ forall i r, rows !! i = Some r -> row_ok c va i r.
Proof.
  intros Hinv Hvas. set (pgs := references (pageSizeBytes c) va).
  assert (length pgs = length va) as Hpl by (unfold pgs, references; apply length_fmap).
  destruct (for_each_rule (fun i '(m, h, f, rows) =>
      let done := take (Z.to_nat i) pgs in
      pol_inv (Z.to_nat i) (run pol_step s0 done) m /\ vas m = va /\
      f = Z.of_nat (faults pol_step s0 done) /\ mark <$> rows = hits pol_step s0 done /\
      length rows = Z.to_nat i /\ forall k r, rows !! k = Some r -> row_ok c va k r)
    (simulate_step malloc_ok c) (Z.to_nat NUM_ADDRESSES) 0 (m0, 0, 0, []))
    as ([[[m h] f] rows] & E & Hfin).
  - cbn. do 5 (split; [solve [auto]|]). intros k r Hk. rewrite lookup_nil in Hk. discriminate.
  - intros j [[[m h] f] rows] Hj (Hi & Hv & -> & Hm & Hl & Hrows).
    destruct (simulate_step_ok (Z.to_nat j) _ m h (Z.of_nat (faults pol_step s0 (take (Z.to_nat j) pgs)))
      rows ltac:(lia) Hi Hv) as (m' & r & p & Hp & Hs & Hi' & Hv' & Hr & Hmr).
    rewrite Z2Nat.id in Hs by lia. rewrite Hs. apply returns_ok.
    replace (Z.to_nat (j + 1)) with (S (Z.to_nat j)) by lia. cbv zeta.
    rewrite (take_S_r _ _ p) by exact Hp. rewrite run_app, faults_snoc, hits_snoc, fmap_app, length_app.
    cbn [run]. split; [exact Hi'|]. split; [exact Hv'|]. split; [destruct (fst _); lia|].
    split; [rewrite Hm; cbn; rewrite Hmr; reflexivity|]. split; [cbn; lia|].
    intros k r' Hk. apply lookup_app_Some in Hk as [Hk|[Hge Hk]]; [eauto|].
    apply list_lookup_singleton_Some in Hk as [Hk0 <-].
    assert (k = Z.to_nat j) as -> by lia. exact Hr.
  - rewrite take_ge in Hfin by lia. destruct Hfin as (_ & _ & -> & Hm & Hl & Hrows).
    exists m, h, rows. split; [exact E|]. split; [exact Hm|]. split; [lia | exact Hrows].
Qed.
End Run.

(** * The whole simulation *)

Definition valid_config (c : Config) : Prop :=
  (virtualAddressBits c = 18 \/ virtualAddressBits c = 19 \/ virtualAddressBits c = 20) /\
  (pageSize c = 1 \/ pageSize c = 2 \/ pageSize c = 4) /\
  (physicalMemorySize c = 32 \/ physicalMemorySize c = 64) /\
  1 <= pageReplacementAlgorithm c <= 4.

(** The tables as [readConfig] creates them. *)
Definition fresh (c : Config) (t : Tables) : Prop :=
  pageTable t = replicate (Z.to_nat (totalPage c)) (mkPT (-1) (-1) 0) /\
  physicalMemoryInfoArray t = replicate (Z.to_nat (totalFrame c)) (mkPM 0 (-1) (-1)) /\
  QRep (pageQueue t) [] /\ maxSize (pageQueue t) = totalFrame c /\ front (pageQueue t) = -1.

(** An address of the configured length, or the -1 of an entry that the input
    did not fill. *)
Definition in_range (c : Config) (e : VirtualAddressInfo) : Prop :=
  -1 <= virtualAddress e < 2 ^ virtualAddressBits c.

(** The abstract cache of each algorithm. *)
Definition cache_hits (algorithm : Z) (n : nat) (ps : list Z) : list bool :=
  if algorithm =? 1 then hits (opt_step n) ([], ps) ps
  else if algorithm =? 2 then hits (fifo_step n) [] ps
  else if algorithm =? 3 then hits (lru_step n) [] ps
  else hits (sc_step n) [] ps.

Definition cache_faults (algorithm : Z) (n : nat) (ps : list Z) : nat :=
  if algorithm =? 1 then faults (opt_step n) ([], ps) ps
  else if algorithm =? 2 then faults (fifo_step n) [] ps
  else if algorithm =? 3 then faults (lru_step n) [] ps
  else faults (sc_step n) [] ps.

Lemma config_sizes c : valid_config c ->
  8 <= totalFrame c <= 64 /\ 64 <= totalPage c <= 1024 /\ 1024 <= pageSizeBytes c <= 4096 /\
  totalPage c * pageSizeBytes c = 2 ^ virtualAddressBits c /\
  totalFrame c * pageSizeBytes c = physicalMemorySize c * 1024.
Proof.
  destruct c as [b s m a f]. unfold valid_config, totalPage, totalFrame, pageSizeBytes, totalVirtualMemory. cbn.
  intros ([-> | [-> | ->]] & [-> | [-> | ->]] & [-> | ->] & _); vm_compute; intuition congruence.
Qed.

Lemma vas_ok_quot c va : valid_config c -> Forall (in_range c) va ->
  vas_ok (Z.to_nat (totalPage c)) (pageSizeBytes c)
    ((fun e => mkVA (virtualAddress e) (Z.quot (virtualAddress e) (pageSizeBytes c))) <$> va).
Proof.
  intros Hc Hr i e He. rewrite list_lookup_fmap in He.
  destruct (va !! i) as [e0|] eqn:He0; [|discriminate]. injection He as <-. cbn. split; [reflexivity|].
  destruct (config_sizes c Hc) as (_ & Htp & Hps & Hmul & _).
  pose proof (Forall_lookup_1 _ _ _ _ Hr He0) as Hin. unfold in_range in Hin.
  rewrite Z2Nat.id by lia. destruct (decide (virtualAddress e0 = -1)) as [->|Hne].
  - assert (Z.quot (-1) (pageSizeBytes c) = 0) as -> by (apply Z.quot_small_iff; lia). lia.
  - rewrite Z.quot_div_nonneg by lia. split; [apply Z.div_pos; lia|].
    apply Z.div_lt_upper_bound; lia.
Qed.

Lemma fresh_start c t : valid_config c -> fresh c t ->
  Rep (Z.to_nat (totalFrame c)) (Z.to_nat (totalPage c)) []
    (physicalMemoryInfoArray t) (pageTable t) /\
  QueueRep (Z.to_nat (totalFrame c)) [] [] (pageQueue t).
Proof.
  intros Hc (Hp & Hf & Hq & Hm & _). destruct (config_sizes c Hc) as (Htf & _). split.
  - apply Rep_start; rewrite ?Hp, ?Hf, ?length_replicate; try reflexivity.
    + apply Forall_replicate. reflexivity.
    + apply Forall_replicate. split; reflexivity.
  - split; [exact Hq | rewrite Hm; lia | reflexivity].
Qed.

Section Whole.
  Context (malloc_ok : Z -> bool) (c : Config) (t : Tables) (va : list VirtualAddressInfo).
  Hypothesis config : valid_config c.
  Hypothesis tables : fresh c t.
  Hypothesis all_addresses : length va = Z.to_nat NUM_ADDRESSES.
  Hypothesis ranges : Forall (in_range c) va.

#[local] Abbreviation n := (Z.to_nat (totalFrame c)).
#[local] Abbreviation np := (Z.to_nat (totalPage c)).
#[local] Abbreviation refs := (references (pageSizeBytes c) va).

(** The entries with their page numbers, as the first loop of the run leaves
    them. *)
Definition numbered : list VirtualAddressInfo :=
  (fun e => mkVA (virtualAddress e) (Z.quot (virtualAddress e) (pageSizeBytes c))) <$> va.

Lemma number_loop :
  for_each (Z.to_nat NUM_ADDRESSES) 0 (fun i va =>
    e ← aget va i;
    page ← cdiv (virtualAddress e) (pageSizeBytes c);
    set_vai_pageNum va i page) va = Ok numbered.
Proof.
  rewrite <- all_addresses. apply for_each_fmap. intros j l e _ He Hj.
  destruct (config_sizes c config) as (_ & _ & Hps & _).
  rewrite (aget_ok_Z l j e Hj He). cbn [mbind res_bind]. rewrite cdiv_nz by lia. cbn [mbind res_bind].
  unfold set_vai_pageNum. rewrite (aupd_ok _ l j e Hj He). reflexivity.
Qed.

Lemma references_numbered : references (pageSizeBytes c) numbered = refs.
Proof. unfold references, numbered. rewrite <- list_fmap_compose. reflexivity. Qed.

Lemma row_ok_numbered i r : row_ok c numbered i r -> row_ok c va i r.
Proof.
  intros (e & He & H). unfold numbered in He. rewrite list_lookup_fmap in He.
  destruct (va !! i) as [e0|] eqn:E; [|discriminate]. injection He as <-. exists e0. auto.
Qed.

(** The run of one policy. *)
Lemma simulate_policy (replace : Memory -> Z -> res (Z * Memory))
    (policy : Policy n np (pageSizeBytes c) replace) (s0 : pol_state) :
  (forall m i, replacePage malloc_ok (pageReplacementAlgorithm c) m i
    (totalFrame c) (totalPage c) (pageSizeBytes c) = replace m i) ->
  pol_inv 0 s0 (mkMem (physicalMemoryInfoArray t) numbered (pageTable t) (pageQueue t)) ->
  exists rows, simulate malloc_ok c t va = Ok (rows, Z.of_nat (faults pol_step s0 refs)) /\
    mark <$> rows = hits pol_step s0 refs /\ length rows = length va /\
    forall i r, rows !! i = Some r -> row_ok c va i r.
Proof.
  intros Halg Hinv. destruct (config_sizes c config) as (Htf & Htp & Hps & _).
  destruct (run_loop_ok malloc_ok c n np replace) with (va := numbered) (s0 := s0)
    (m0 := mkMem (physicalMemoryInfoArray t) numbered (pageTable t) (pageQueue t))
    as (m & h & rows & E & Hm & Hl & Hr); try assumption; try lia; try reflexivity.
  - unfold numbered. rewrite length_fmap. exact all_addresses.
  - apply vas_ok_quot; assumption.
  - exists rows. unfold simulate. rewrite number_loop. cbn [mbind res_bind]. rewrite E.
    rewrite references_numbered in *. split; [reflexivity|]. split; [exact Hm|].
    split; [rewrite Hl; unfold numbered; apply length_fmap|].
    intros i r Hir. apply row_ok_numbered, Hr, Hir.
Qed.

(** The simulator computes what the abstract cache of the chosen algorithm
    does, whatever [malloc] answers from here on. *)
Lemma simulate_refines :
  exists rows, simulate malloc_ok c t va =
      Ok (rows, Z.of_nat (cache_faults (pageReplacementAlgorithm c) n refs)) /\
    mark <$> rows = cache_hits (pageReplacementAlgorithm c) n refs /\ length rows = length va /\
    forall i r, rows !! i = Some r -> row_ok c va i r.
Proof.
  destruct (config_sizes c config) as (Htf & Htp & Hps & _).
  destruct (fresh_start c t config tables) as [HR HQ].
  assert (3 <= n)%nat as Hn by lia. assert (0 < pageSizeBytes c) as Hp by lia.
  assert (forall f : Memory -> Z -> Z -> Z -> Z -> res (Z * Memory), forall m i,
    f m i (totalFrame c) (totalPage c) (pageSizeBytes c) =
    f m i (Z.of_nat n) (Z.of_nat np) (pageSizeBytes c)) as Hf.
  { intros f m i. rewrite !Z2Nat.id by lia. reflexivity. }
  pose proof (proj2 (proj2 (proj2 config))) as Ha. unfold cache_faults, cache_hits, replacePage.
  destruct (Z.eqb_spec (pageReplacementAlgorithm c) 1) as [E1|E1];
  [|destruct (Z.eqb_spec (pageReplacementAlgorithm c) 2) as [E2|E2];
  [|destruct (Z.eqb_spec (pageReplacementAlgorithm c) 3) as [E3|E3]]].
  - apply (simulate_policy _ (optimal_policy n np (pageSizeBytes c) Hn Hp)).
    + intros m i. unfold replacePage. rewrite E1. apply Hf.
    + exists [], []. split; [exact HR|]. split; [exact HQ|]. destruct tables as (_ & _ & _ & _ & Hfr).
      split; [rewrite decide_True by reflexivity; exact Hfr|]. cbn. f_equal. unfold future. rewrite drop_0.
      unfold numbered. rewrite <- list_fmap_compose. reflexivity.
  - apply (simulate_policy _ (fifo_policy malloc_ok n np (pageSizeBytes c) Hn Hp)).
    + intros m i. unfold replacePage. rewrite E2. apply Hf.
    + exists [], []. auto.
  - apply (simulate_policy _ (lru_policy n np (pageSizeBytes c) Hn Hp)).
    + intros m i. unfold replacePage. rewrite E3. apply Hf.
    + exists [], (fun _ => O). split; [exact HR|]. split; [reflexivity|].
      split; [intros x Hx; apply not_elem_of_nil in Hx; contradiction | constructor].
  - assert (pageReplacementAlgorithm c = 4) as E4 by lia.
    apply (simulate_policy _ (sc_policy malloc_ok n np (pageSizeBytes c) Hn Hp)).
    + intros m i. unfold replacePage. rewrite E4. apply Hf.
    + exists [], []. auto.
Qed.
End Whole.
