(* ===== verification/CacheTheory.v ===== *)
(** Comparisons of the abstract caches of Paging.v: no demand-paging policy
    faults less than the optimal one, and a larger LRU cache faults no more. *)

From S2P Require Import Prelude Paging.
Local Open Scope Z_scope.

(** * Demand paging *)

(** A run of some demand-paging policy with [n] frames: on a fault it takes a
    free frame, or gives up one resident page of its choice. [serves S ps k]: from
    cache [S] the references [ps] can be served with [k] faults. *)
Inductive serves (n : nat) : list Z -> list Z -> nat -> Prop :=
  | serves_nil C : serves n C [] 0
  | serves_hit C p ps k : p ∈ C -> serves n C ps k -> serves n C (p :: ps) k
  | serves_free C p ps k : p ∉ C -> (length C < n)%nat ->
      serves n (p :: C) ps k -> serves n C (p :: ps) (S k)
  | serves_evict C R v p ps k : p ∉ C -> (n <= length C)%nat -> C ≡ₚ (v :: R) ->
      serves n (p :: R) ps k -> serves n C (p :: ps) (S k).

Lemma serves_perm n C D ps k : C ≡ₚ D -> serves n C ps k -> serves n D ps k.
Proof.
  intros HCD H. revert D HCD.
  induction H as [C|C p ps k Hp _ IH|C p ps k Hp Hl _ IH|C R v p ps k Hp Hl HC _ IH]; intros D HD.
  - constructor.
  - constructor; [rewrite <- HD; exact Hp | auto].
  - constructor; [rewrite <- HD; exact Hp | rewrite <- HD; exact Hl |]. apply IH. rewrite HD. reflexivity.
  - apply (serves_evict n D R v); [rewrite <- HD; exact Hp | rewrite <- HD; exact Hl | |].
    + rewrite <- HD. exact HC.
    + apply IH. reflexivity.
Qed.

#[export] Instance serves_proper n : Proper ((≡ₚ) ==> eq ==> eq ==> iff) (serves n).
Proof.
  intros C D HCD ps ? <- k ? <-. split; apply serves_perm; [|symmetry]; exact HCD.
Qed.

(** The eviction of a full cache [y :: R]: the page given up is [y], or one of
    [R]. *)
Lemma evict_cases (y v : Z) (R Q : list Z) : (y :: R) ≡ₚ (v :: Q) ->
  v = y /\ Q ≡ₚ R \/ exists R', R ≡ₚ (v :: R') /\ Q ≡ₚ (y :: R').
Proof.
  intros H. destruct (decide (v = y)) as [->|Hne].
  - left. split; [reflexivity|]. symmetry. apply (Permutation_cons_inv H).
  - right. assert (v ∈ y :: R) as Hv by (rewrite H; left).
    apply elem_of_cons in Hv as [|Hv]; [congruence|].
    apply elem_of_Permutation in Hv as [R' HR]. exists R'. split; [exact HR|].
    apply (Permutation_cons_inv (a := v)). rewrite <- H, HR. apply perm_swap.
Qed.

(** A full cache [z :: R] gives up [z], or the page [v] of [R]. *)
Lemma evict_head n z R p ps k : p ∉ (z :: R) -> (n <= length (z :: R))%nat ->
  serves n (p :: R) ps k -> serves n (z :: R) (p :: ps) (S k).
Proof. intros Hp Hl H. apply (serves_evict n _ R z); auto. Qed.

Lemma evict_other n z R R' v p ps k : p ∉ (z :: R) -> (n <= length (z :: R))%nat -> (R ≡ₚ v :: R') ->
  serves n (z :: p :: R') ps k -> serves n (z :: R) (p :: ps) (S k).
Proof.
  intros Hp Hl HR H. apply (serves_evict n _ (z :: R') v); [exact Hp | exact Hl | |].
  - rewrite HR. apply perm_swap.
  - eapply serves_perm; [apply perm_swap | exact H].
Qed.

(** What an inversion of a run from a full cache [y :: R] gives. *)
Lemma serves_full_inv n y R p ps k : length (y :: R) = n -> serves n (y :: R) (p :: ps) k ->
  (p = y /\ serves n (y :: R) ps k) \/
  (p ∈ R /\ serves n (y :: R) ps k) \/
  (p <> y /\ (p ∉ R) /\ exists k0, k = S k0 /\
     (serves n (p :: R) ps k0 \/
      exists v R', R ≡ₚ (v :: R') /\ serves n (y :: p :: R') ps k0)).
Proof.
  intros Hl H. remember (y :: R) as C eqn:EC. remember (p :: ps) as qs eqn:Eq.
  destruct H as [C|C p' ps' k Hp H1|C p' ps' k Hp Hlt H1|C Q v p' ps' k Hp Hge HQ H1];
    [discriminate | injection Eq as -> ->; subst C ..].
  - apply elem_of_cons in Hp as [->|Hp]; auto.
  - lia.
  - right. right. apply not_elem_of_cons in Hp as [Hpy HpR].
    split; [exact Hpy|]. split; [exact HpR|]. exists k. split; [reflexivity|].
    destruct (evict_cases y v R Q HQ) as [[-> HQR]|(R' & HRv & HQR)].
    + left. rewrite <- HQR. exact H1.
    + right. exists v, R'. split; [exact HRv|]. eapply serves_perm; [|exact H1].
      rewrite HQR. apply perm_swap.
Qed.

Lemma nodup_split (x v : Z) (R R' : list Z) : NoDup (x :: R) -> (R ≡ₚ v :: R') ->
  x <> v /\ (x ∉ R') /\ (v ∉ R') /\ NoDup R' /\ length R = S (length R').
Proof.
  intros Hx HR. rewrite HR in Hx. apply NoDup_cons in Hx as [Hx Hv].
  apply not_elem_of_cons in Hx as [Hxv Hx]. apply NoDup_cons in Hv as [Hv Hnd].
  apply Permutation_length in HR. auto.
Qed.

Lemma nodup_two (x y : Z) R : x <> y -> x ∉ R -> y ∉ R -> NoDup R -> NoDup (x :: y :: R).
Proof.
  intros Hxy Hx Hy HR. apply NoDup_cons. split; [|apply NoDup_cons; auto].
  apply not_elem_of_cons. auto.
Qed.

(** Having the wrong page in one frame costs at most one fault. *)
Lemma serves_swap n ps : forall y z R k, NoDup (y :: R) -> NoDup (z :: R) -> length (y :: R) = n ->
  serves n (y :: R) ps k -> exists k', (k' <= S k)%nat /\ serves n (z :: R) ps k'.
Proof.
  induction ps as [|p ps IH]; intros y z R k Hy Hz Hl H; [exists O; split; [lia | constructor]|].
  destruct (decide (y = z)) as [->|Hyz]; [exists k; auto|].
  assert (n <= length (z :: R))%nat as Hge by (cbn in *; lia).
  destruct (serves_full_inv n y R p ps k Hl H)
    as [[-> H1]|[[Hp H1]|(Hpy & HpR & k0 & -> & [H1|(v & R' & HR & H1)])]].
  - exists (S k). split; [lia|]. apply evict_head; [|exact Hge | exact H1].
    apply NoDup_cons in Hy. apply not_elem_of_cons. tauto.
  - destruct (IH y z R k Hy Hz Hl H1) as (k' & Hk' & H'). exists k'. split; [exact Hk'|].
    apply serves_hit; [right; exact Hp | exact H'].
  - destruct (decide (p = z)) as [->|Hpz].
    + exists k0. split; [lia|]. apply serves_hit; [left | exact H1].
    + exists (S k0). split; [lia|]. apply evict_head; [apply not_elem_of_cons; auto | exact Hge | exact H1].
  - destruct (nodup_split y v R R' Hy HR) as (Hyv & HyR & HvR & Hnd & HlR).
    destruct (nodup_split z v R R' Hz HR) as (Hzv & HzR & _).
    rewrite HR in HpR. apply not_elem_of_cons in HpR as [Hpv HpR].
    destruct (decide (p = z)) as [->|Hpz].
    + destruct (IH y v (z :: R') k0) as (k' & Hk' & H');
        [apply nodup_two; auto | apply nodup_two; auto | cbn in *; lia | exact H1 |].
      exists k'. split; [lia|]. apply serves_hit; [left|]. eapply serves_perm; [|exact H'].
      rewrite HR. apply perm_swap.
    + destruct (IH y z (p :: R') k0) as (k' & Hk' & H');
        [apply nodup_two; auto | apply nodup_two; auto | cbn in *; lia | exact H1 |].
      exists (S k'). split; [lia|]. apply (evict_other n z R R' v); [|exact Hge | exact HR | exact H'].
      rewrite HR, !not_elem_of_cons. auto.
Qed.

(** A page used sooner is worth at least as much as one used later. *)
Lemma serves_sooner n ps : forall y x R k, NoDup (y :: R) -> NoDup (x :: R) -> length (y :: R) = n ->
  (next_use ps x <= next_use ps y)%nat ->
  serves n (y :: R) ps k -> exists k', (k' <= k)%nat /\ serves n (x :: R) ps k'.
Proof.
  induction ps as [|p ps IH]; intros y x R k Hy Hx Hl Hnext H; [exists O; split; [lia | constructor]|].
  destruct (decide (y = x)) as [->|Hyx]; [exists k; auto|].
  assert (n <= length (x :: R))%nat as Hge by (cbn in *; lia).
  cbn [next_use] in Hnext.
  destruct (serves_full_inv n y R p ps k Hl H)
    as [[-> H1]|[[Hp H1]|(Hpy & HpR & k0 & -> & H1)]].
  - rewrite Z.eqb_refl in Hnext. destruct (Z.eqb_spec y x); [contradiction | lia].
  - assert (p <> y /\ p <> x) as [Hpy Hpx].
    { apply NoDup_cons in Hy as [Hy _], Hx as [Hx _]. split; intros ->; contradiction. }
    rewrite !(proj2 (Z.eqb_neq _ _)) in Hnext by assumption.
    destruct (IH y x R k Hy Hx Hl ltac:(lia) H1) as (k' & Hk' & H'). exists k'. split; [exact Hk'|].
    apply serves_hit; [right; exact Hp | exact H'].
  - rewrite (proj2 (Z.eqb_neq p y)) in Hnext by assumption.
    destruct (decide (p = x)) as [->|Hpx].
    + destruct H1 as [H1|(v & R' & HR & H1)].
      * exists k0. split; [lia|]. apply serves_hit; [left | exact H1].
      * destruct (nodup_split y v R R' Hy HR) as (Hyv & HyR & HvR & Hnd & HlR).
        destruct (nodup_split x v R R' Hx HR) as (Hxv & HxR & _).
        destruct (serves_swap n ps y v (x :: R') k0) as (k' & Hk' & H');
          [apply nodup_two; auto | apply nodup_two; auto | cbn in *; lia | exact H1 |].
        exists k'. split; [lia|]. apply serves_hit; [left|]. eapply serves_perm; [|exact H'].
        rewrite HR. apply perm_swap.
    + rewrite (proj2 (Z.eqb_neq p x)) in Hnext by assumption.
      destruct H1 as [H1|(v & R' & HR & H1)].
      * exists (S k0). split; [lia|]. apply evict_head; [apply not_elem_of_cons; auto | exact Hge | exact H1].
      * destruct (nodup_split y v R R' Hy HR) as (Hyv & HyR & HvR & Hnd & HlR).
        destruct (nodup_split x v R R' Hx HR) as (Hxv & HxR & _).
        rewrite HR in HpR. apply not_elem_of_cons in HpR as [Hpv HpR].
        destruct (IH y x (p :: R') k0) as (k' & Hk' & H');
          [apply nodup_two; auto | apply nodup_two; auto | cbn in *; lia | lia | exact H1 |].
        exists (S k'). split; [lia|]. apply (evict_other n x R R' v); [|exact Hge | exact HR | exact H'].
        rewrite HR, !not_elem_of_cons. auto.
Qed.

(** * The optimal cache *)

Lemma filter_victim (q Q : list Z) x : NoDup q -> q ≡ₚ (x :: Q) ->
  filter (fun y => y <> x) q ≡ₚ Q.
Proof.
  intros Hnd HQ. rewrite HQ in Hnd. apply NoDup_cons in Hnd as [HxQ _].
  rewrite HQ, filter_cons, decide_False by tauto. rewrite (filter_ne_absent Q x HxQ). reflexivity.
Qed.

Lemma opt_victim_some fut q : (0 < length q)%nat -> exists x, opt_victim fut q = Some x.
Proof.
  destruct q as [|z q]; [cbn; lia|]. intros _. cbn.
  destruct (opt_victim fut q); [case_match|]; eauto.
Qed.

(** Where any run gives up [v], giving up the page used furthest in the future
    does at least as well. *)
Lemma serves_evict_furthest n p ps q v x R k :
  NoDup q -> p ∉ q -> length q = n -> q ≡ₚ (v :: R) -> furthest (p :: ps) q x ->
  serves n (p :: R) ps k ->
  exists Q k', q ≡ₚ (x :: Q) /\ (k' <= k)%nat /\ serves n (p :: Q) ps k'.
Proof.
  intros Hnd Hp Hl HR (j & Hj & Hmax) H1. pose proof (list_elem_of_lookup_2 _ _ _ Hj) as Hxq.
  destruct (decide (v = x)) as [->|Hvx]; [exists R, k; auto|].
  assert (x ∈ R) as HxR by (rewrite HR in Hxq; apply elem_of_cons in Hxq as [|]; congruence).
  apply elem_of_Permutation in HxR as [R' HR'].
  assert (q ≡ₚ (x :: v :: R')) as HQ by (rewrite HR, HR'; apply perm_swap).
  assert (v ∈ q) as Hvq by (rewrite HR; left).
  destruct (proj1 (list_elem_of_lookup _ _) Hvq) as [i Hi]. destruct (Hmax i v Hi) as [Hle _].
  assert (p <> v /\ p <> x) as [Hpv Hpx] by (split; intros ->; contradiction).
  cbn in Hle. rewrite !(proj2 (Z.eqb_neq _ _)) in Hle by assumption.
  rewrite HQ in Hnd, Hp. apply not_elem_of_cons in Hp as [_ Hp]. apply not_elem_of_cons in Hp as [_ Hp].
  apply NoDup_cons in Hnd as [HxQ HndQ]. apply NoDup_cons in HndQ as [HvQ HndR].
  apply not_elem_of_cons in HxQ as [_ HxQ].
  destruct (serves_sooner n ps x v (p :: R') k) as (k' & Hk' & H');
    [apply nodup_two; auto | apply nodup_two; auto | | lia | |].
  - apply Permutation_length in HQ. cbn in *. lia.
  - eapply serves_perm; [|exact H1]. rewrite HR'. apply perm_swap.
  - exists (v :: R'), k'. split; [exact HQ|]. split; [exact Hk'|].
    eapply serves_perm; [|exact H']. apply perm_swap.
Qed.

(** The optimal cache faults no more than any run from the same pages. *)
Lemma opt_serves_best n ps : forall q C k, NoDup q -> q ≡ₚ C -> (0 < n)%nat -> (length q <= n)%nat ->
  serves n C ps k -> (faults (opt_step n) (q, ps) ps <= k)%nat.
Proof.
  induction ps as [|p ps IH]; intros q C k Hnd HqC Hn Hl H; [cbn; lia|].
  rewrite <- HqC in H. cbn [faults]. unfold opt_step at 1. cbn [tail].
  destruct (decide (p ∈ q)) as [Hin|Hnin].
  - cbn. inversion H; subst; try contradiction. eapply IH; [| |assumption..|eassumption]; auto.
  - destruct (Nat.ltb_spec (length q) n) as [Hlt|Hge].
    + inversion H; subst; [contradiction | | lia]. cbn. apply le_n_S.
      eapply (IH _ (p :: q)); [| | exact Hn | | eassumption].
      * apply NoDup_app. split; [exact Hnd|]. split; [|apply NoDup_singleton].
        intros y Hy ->%list_elem_of_singleton. contradiction.
      * symmetry. apply Permutation_cons_append.
      * rewrite length_app. cbn. lia.
    + inversion H as [| | |? R v ? ? k0 _ _ HR H1]; subst; [contradiction | lia |].
      destruct (opt_victim_some (p :: ps) q) as [x Ex]; [lia|]. rewrite Ex.
      pose proof (opt_victim_furthest _ _ _ Ex) as Hx.
      destruct (serves_evict_furthest n p ps q v x R k0) as (Q & k' & HQ & Hk' & H');
        [assumption | assumption | lia | assumption | assumption | assumption |].
      pose proof (filter_victim q Q x Hnd HQ) as Hf. cbn [Nat.add]. apply le_n_S.
      enough (faults (opt_step n) (filter (fun y => y <> x) q ++ [p], ps) ps <= k')%nat by lia.
      eapply (IH _ (p :: Q)); [| | exact Hn | | exact H'].
      * apply NoDup_app. split; [apply NoDup_filter, Hnd|]. split; [|apply NoDup_singleton].
        intros y [_ Hy]%list_elem_of_filter ->%list_elem_of_singleton. contradiction.
      * rewrite <- Permutation_cons_append, Hf. reflexivity.
      * apply Permutation_length in Hf, HQ. rewrite length_app. cbn in *. lia.
Qed.

(** * Demand-paging caches *)

(** A step function that serves references on demand, in the states of [inv]:
    a hit keeps the pages, a fault takes a free frame or gives up one page. *)
Class Demand {St : Type} (n : nat) (step : St -> Z -> bool * St)
    (view : St -> list Z) (inv : St -> Prop) : Prop := {
  demand_inv s p : inv s -> inv (snd (step s p));
  demand_hit s p : inv s -> p ∈ view s -> fst (step s p) = true /\ view (snd (step s p)) ≡ₚ view s;
  demand_free s p : inv s -> p ∉ view s -> (length (view s) < n)%nat ->
    fst (step s p) = false /\ view (snd (step s p)) ≡ₚ (p :: view s);
  demand_evict s p : inv s -> p ∉ view s -> (n <= length (view s))%nat ->
    fst (step s p) = false /\
    exists v R, view s ≡ₚ (v :: R) /\ view (snd (step s p)) ≡ₚ (p :: R)
}.

Lemma demand_serves {St} n (step : St -> Z -> bool * St) view inv `{!Demand n step view inv} ps :
  forall s, inv s -> serves n (view s) ps (faults step s ps).
Proof.
  induction ps as [|p ps IH]; intros s Hs; cbn [faults]; [constructor|].
  specialize (IH _ (demand_inv s p Hs)). destruct (step s p) as [hit s'] eqn:E. cbn in IH.
  destruct (decide (p ∈ view s)) as [Hin|Hout].
  - destruct (demand_hit s p Hs Hin) as [Hh Hv]. rewrite E in Hh, Hv. cbn in Hh, Hv. subst hit.
    apply serves_hit; [exact Hin | rewrite <- Hv; exact IH].
  - destruct (decide (length (view s) < n)%nat) as [Hlt|Hge].
    + destruct (demand_free s p Hs Hout Hlt) as [Hh Hv]. rewrite E in Hh, Hv. cbn in Hh, Hv. subst hit.
      apply serves_free; [exact Hout | exact Hlt | rewrite <- Hv; exact IH].
    + destruct (demand_evict s p Hs Hout ltac:(lia)) as [Hh (v & R & HR & Hv)].
      rewrite E in Hh, Hv. cbn in Hh, Hv. subst hit.
      apply (serves_evict n _ R v); [exact Hout | lia | exact HR | rewrite <- Hv; exact IH].
Qed.

Lemma evict_tail (q : list Z) (p : Z) : (0 < length q)%nat ->
  exists v R, q ≡ₚ (v :: R) /\ tail q ++ [p] ≡ₚ (p :: R).
Proof.
  destruct q as [|v R]; [cbn; lia|]. intros _. exists v, R. split; [reflexivity|].
  symmetry. apply Permutation_cons_append.
Qed.

#[export] Instance fifo_demand n : Demand (S n) (fifo_step (S n)) (fun q => q) (fun _ => True).
Proof.
  split; [auto|..]; intros q p _ Hp; unfold fifo_step; [rewrite decide_True by exact Hp; auto | |];
    rewrite decide_False by exact Hp; intros Hl; destruct (Nat.ltb_spec (length q) (S n)); try lia.
  - split; [reflexivity|]. symmetry. apply Permutation_cons_append.
  - split; [reflexivity|]. apply evict_tail. lia.
Qed.

Lemma NoDup_append (q l : list Z) p : NoDup q -> p ∉ q -> sublist l q -> NoDup (l ++ [p]).
Proof.
  intros Hq Hp Hl. apply NoDup_app. split; [exact (sublist_NoDup _ _ Hq Hl)|].
  split; [|apply NoDup_singleton]. intros y Hy ->%list_elem_of_singleton.
  apply Hp. eapply elem_of_sublist; eauto.
Qed.

Lemma tail_sublist (q : list Z) : sublist (tail q) q.
Proof. destruct q; [constructor | apply sublist_cons; reflexivity]. Qed.

(** A hit drops one copy of the page and appends one, so the cache has to be
    free of duplicates. *)
#[export] Instance lru_demand n : Demand (S n) (lru_step (S n)) (fun q => q) NoDup.
Proof.
  split; intros q p Hq; unfold lru_step.
  - destruct (decide (p ∈ q)) as [Hp|Hp]; cbn [fst snd].
    + rewrite (filter_ne_snoc q p Hq Hp). exact Hq.
    + destruct (length q <? S n)%nat; cbn [snd]; apply (NoDup_append q);
        auto using tail_sublist.
  - intros Hp. rewrite decide_True by exact Hp. split; [reflexivity|]. apply filter_ne_snoc; assumption.
  - intros Hp Hl. rewrite decide_False by exact Hp. destruct (Nat.ltb_spec (length q) (S n)); [|lia].
    split; [reflexivity|]. symmetry. apply Permutation_cons_append.
  - intros Hp Hl. rewrite decide_False by exact Hp. destruct (Nat.ltb_spec (length q) (S n)); [lia|].
    split; [reflexivity|]. apply evict_tail. lia.
Qed.

Lemma sc_evict_pages q : forall acc, (0 < length (acc ++ q))%nat ->
  exists v, (acc ++ q).*1 ≡ₚ (v :: (sc_evict acc q).*1).
Proof.
  induction q as [|[x b] q IH]; intros acc Hl; cbn [sc_evict].
  - rewrite app_nil_r in *. destruct acc as [|[y c] acc]; [cbn in Hl; lia|]. exists y. reflexivity.
  - destruct b.
    + destruct (IH (acc ++ [(x, false)])) as [v Hv]; [rewrite !length_app in *; cbn in *; lia|].
      exists v. rewrite <- Hv, !fmap_app. cbn. rewrite <- app_assoc. reflexivity.
    + exists x. rewrite !fmap_app. cbn. rewrite <- Permutation_middle.
      constructor. apply Permutation_app_comm.
Qed.

Lemma sc_reference_pages p q : (sc_reference p <$> q).*1 = q.*1.
Proof.
  induction q as [|[x b] q IH]; [reflexivity|]. cbn. rewrite IH. unfold sc_reference. cbn.
  destruct (Z.eqb_spec x p) as [->|]; reflexivity.
Qed.

#[export] Instance sc_demand n : Demand (S n) (sc_step (S n)) (fun q => q.*1) (fun _ => True).
Proof.
  split; [auto|..]; intros q p _ Hp; unfold sc_step.
  - rewrite decide_True by exact Hp. cbn. rewrite sc_reference_pages. auto.
  - intros Hl. rewrite length_fmap in Hl. rewrite decide_False by exact Hp.
    destruct (Nat.ltb_spec (length q) (S n)); [|lia]. split; [reflexivity|]. cbn.
    rewrite fmap_app. cbn. symmetry. apply Permutation_cons_append.
  - intros Hl. rewrite length_fmap in Hl. rewrite decide_False by exact Hp.
    destruct (Nat.ltb_spec (length q) (S n)); [lia|]. split; [reflexivity|].
    destruct (sc_evict_pages q []) as [v Hv]; [cbn; lia|]. exists v, (sc_evict [] q).*1.
    split; [exact Hv|]. cbn. rewrite fmap_app. cbn. symmetry. apply Permutation_cons_append.
Qed.

(** Started empty, no demand-paging cache beats the optimal one. *)
Lemma opt_le_demand {St} n (step : St -> Z -> bool * St) view inv `{!Demand (S n) step view inv} s ps :
  inv s -> view s = [] -> (faults (opt_step (S n)) ([], ps) ps <= faults step s ps)%nat.
Proof.
  intros Hs Hv. apply (opt_serves_best (S n) ps [] []); [constructor | reflexivity | lia | cbn; lia |].
  rewrite <- Hv. apply (demand_serves _ _ _ inv); assumption.
Qed.

(** * LRU is a stack algorithm *)

(** The smaller cache is the recent end of the larger one: either it is the
    whole of it, or it is full. *)
Definition included (n : nat) (q r : list Z) : Prop :=
  exists pre, r = pre ++ q /\ (pre = [] \/ length q = n).

Lemma filter_ne_length (q : list Z) p : NoDup q -> p ∈ q ->
  length q = S (length (filter (fun x => x <> p) q)).
Proof.
  intros Hnd Hp. pose proof (Permutation_length (filter_ne_snoc q p Hnd Hp)) as E.
  rewrite length_app in E. cbn in E. lia.
Qed.

Lemma lru_included n m q r p : (0 < n)%nat -> (n <= m)%nat -> NoDup r -> (length q <= n)%nat ->
  included n q r ->
  included n (snd (lru_step n q p)) (snd (lru_step m r p)) /\
  (length (snd (lru_step n q p)) <= n)%nat /\
  (fst (lru_step n q p) = true -> fst (lru_step m r p) = true).
Proof.
  intros Hn Hnm Hnd Hl (pre & -> & Hpre). apply NoDup_app in Hnd as (Hnp & Hdis & Hnq).
  unfold lru_step. destruct (decide (p ∈ q)) as [Hq|Hq].
  - rewrite decide_True by (apply elem_of_app; auto). cbn [fst snd].
    assert (p ∉ pre) as Hpp by (intros H; exact (Hdis p H Hq)).
    pose proof (filter_ne_length q p Hnq Hq) as Elen.
    rewrite filter_app, (filter_ne_absent pre p Hpp), <- app_assoc. split; [|rewrite length_app; cbn; split; [lia | auto]].
    exists pre. split; [reflexivity|]. rewrite length_app. cbn. destruct Hpre; [auto | right; lia].
  - destruct (Nat.ltb_spec (length q) n) as [Hlt|Hge]; cbn [fst snd].
    + destruct Hpre as [->|]; [|lia]. cbn [app]. rewrite decide_False by exact Hq.
      destruct (Nat.ltb_spec (length q) m); [|lia]. cbn [fst snd].
      split; [exists []; auto|]. rewrite length_app. cbn. split; [lia | discriminate].
    + destruct q as [|v q]; [cbn in *; lia|]. cbn [tail].
      assert (length (q ++ [p]) = n) as Hq' by (rewrite length_app; cbn in *; lia).
      split; [|split; [lia | discriminate]].
      destruct (decide (p ∈ pre ++ v :: q)) as [Hin|Hout]; cbn [fst snd].
      * apply elem_of_app in Hin as [Hin|]; [|contradiction].
        exists (filter (fun x => x <> p) pre ++ [v]). split; [|auto].
        rewrite filter_app, (filter_ne_absent (v :: q) p Hq), <- !app_assoc. reflexivity.
      * destruct (Nat.ltb_spec (length (pre ++ v :: q)) m); cbn [fst snd].
        -- exists (pre ++ [v]). rewrite <- !app_assoc. auto.
        -- destruct pre as [|w pre]; cbn [app tail]; [exists []; auto|].
           exists (pre ++ [v]). rewrite <- !app_assoc. auto.
Qed.

Lemma lru_faults_mono n m ps : (0 < n)%nat -> (n <= m)%nat -> forall q r, NoDup r ->
  (length q <= n)%nat -> included n q r ->
  (faults (lru_step m) r ps <= faults (lru_step n) q ps)%nat.
Proof.
  intros Hn Hnm. induction ps as [|p ps IH]; intros q r Hnd Hl Hi; cbn [faults]; [lia|].
  destruct (lru_included n m q r p Hn Hnm Hnd Hl Hi) as (Hi' & Hl' & Hhit).
  assert (NoDup (snd (lru_step m r p))) as Hnd'.
  { destruct m as [|m]; [lia|]. apply (demand_inv (Demand := lru_demand m)). exact Hnd. }
  specialize (IH _ _ Hnd' Hl' Hi').
  destruct (lru_step n q p) as [hn q'], (lru_step m r p) as [hm r']. cbn in *.
  destruct hn; [rewrite Hhit by reflexivity; lia | destruct hm; lia].
Qed.

Lemma lru_more_memory n m ps : (0 < n)%nat -> (n <= m)%nat ->
  (faults (lru_step m) [] ps <= faults (lru_step n) [] ps)%nat.
Proof.
  intros Hn Hnm. apply lru_faults_mono; [exact Hn | exact Hnm | constructor | cbn; lia |].
  exists []. auto.
Qed.
