(* ===== verification/Driver.v ===== *)
(** Runs of the page-replacement simulator (src/4/as4.c) from the answers of the
    user and the input file to the rows of the output: what [readConfig] and
    [readAddresses] of Simulator.v establish, and the theorems about [main]. *)

From S2P Require Import Prelude PageQueue PageTables Residency Paging CacheTheory Simulator.
Local Open Scope Z_scope.

(** * Answers *)

(** Some unacceptable answers, then [x]. *)
Definition picks (hi : Z) (inputs : list Z) (x : Z) (rest : list Z) : Prop :=
  exists bad, inputs = bad ++ x :: rest /\ Forall (fun y => y < 1 \/ hi < y) bad /\ 1 <= x <= hi.

Lemma choose_ok hi inputs x rest : picks hi inputs x rest -> choose hi inputs = Ok (x, rest).
Proof.
  intros (bad & -> & Hb & Hx). induction Hb as [|y bad Hy _ IH]; cbn [app choose].
  - destruct (Z.ltb_spec x 1), (Z.ltb_spec hi x); lia || reflexivity.
  - destruct (Z.ltb_spec y 1), (Z.ltb_spec hi y); lia || exact IH.
Qed.

(** The answers to the questions A to E. *)
Definition answers (inputs : list Z) (b p m a f : Z) : Prop :=
  exists i1 i2 i3 i4 i5, picks 3 inputs b i1 /\ picks 3 i1 p i2 /\ picks 2 i2 m i3 /\
    picks 4 i3 a i4 /\ picks 2 i4 f i5.

Definition chosen (b p m a f : Z) : Config := mkConfig (17 + b) (2 ^ (p - 1)) (32 * m) a f.

Definition tables_of (c : Config) : Tables := mkTables
  (replicate (Z.to_nat (totalPage c)) (mkPT (-1) (-1) 0))
  (replicate (Z.to_nat (totalFrame c)) (mkPM 0 (-1) (-1)))
  (mkPageQueue (replicate (Z.to_nat (totalFrame c)) None) (-1) (-1) (totalFrame c)).

Lemma chosen_valid inputs b p m a f : answers inputs b p m a f -> valid_config (chosen b p m a f).
Proof.
  intros (i1 & i2 & i3 & i4 & i5 & (? & _ & _ & Hb) & (? & _ & _ & Hp) & (? & _ & _ & Hm) & (? & _ & _ & Ha) & _).
  unfold valid_config, chosen. cbn.
  assert (p = 1 \/ p = 2 \/ p = 3) as [-> | [-> | ->]] by lia; cbn; lia.
Qed.

Lemma tables_fresh c : valid_config c -> fresh c (tables_of c).
Proof.
  intros Hc. destruct (config_sizes c Hc) as (Hf & _). do 2 (split; [reflexivity|]).
  split; [|split; reflexivity]. apply (initializePageQueue_empty (fun _ => true) (totalFrame c)); [lia | reflexivity].
Qed.

Lemma readConfig_ok malloc_ok inputs b p m a f : (forall z, malloc_ok z = true) ->
  answers inputs b p m a f ->
  exists rest, readConfig malloc_ok inputs =
    Ok (chosen b p m a f, tables_of (chosen b p m a f), rest).
Proof.
  intros Hok (i1 & i2 & i3 & i4 & i5 & Hb & Hp & Hm & Ha & Hf). exists i5. unfold readConfig.
  rewrite (choose_ok _ _ _ _ Hb). cbn [mbind res_bind]. rewrite (choose_ok _ _ _ _ Hp). cbn [mbind res_bind].
  unfold createPageTable. rewrite Hok. cbn [orb mbind res_bind].
  rewrite (choose_ok _ _ _ _ Hm). cbn [mbind res_bind].
  unfold createPhysicalMemoryInfoArray. rewrite Hok. cbn [orb mbind res_bind].
  unfold initializePageQueue. rewrite Hok. cbn [mbind res_bind].
  rewrite (choose_ok _ _ _ _ Ha). cbn [mbind res_bind].
  rewrite (choose_ok _ _ _ _ Hf). cbn [mbind res_bind].
  destruct Hb as (_ & _ & _ & Hb), Hp as (_ & _ & _ & Hp), Hm as (_ & _ & _ & Hm).
  assert (b = 1 \/ b = 2 \/ b = 3) as [-> | [-> | ->]] by lia;
    assert (p = 1 \/ p = 2 \/ p = 3) as [-> | [-> | ->]] by lia;
    assert (m = 1 \/ m = 2) as [-> | ->] by lia; reflexivity.
Qed.

(** * Addresses *)

(** The table of addresses after [zs] were read. *)
Definition slots (zs : list Z) : list VirtualAddressInfo :=
  ((fun z => mkVA z (-1)) <$> zs) ++
  replicate (Z.to_nat NUM_ADDRESSES - length zs) (mkVA (-1) (-1)).

Lemma slots_length zs : (length zs <= Z.to_nat NUM_ADDRESSES)%nat -> length (slots zs) = Z.to_nat NUM_ADDRESSES.
Proof. intros H. unfold slots. rewrite length_app, length_fmap, length_replicate. lia. Qed.

Lemma slots_next zs z : (length zs < Z.to_nat NUM_ADDRESSES)%nat ->
  aupd (fun e => mkVA z (vai_pageNum e)) (slots zs) (Z.of_nat (length zs)) = Ok (slots (zs ++ [z])).
Proof.
  intros H. unfold slots. rewrite length_app. cbn [length].
  destruct (Z.to_nat NUM_ADDRESSES - length zs)%nat as [|k] eqn:E; [lia|].
  replace (Z.to_nat NUM_ADDRESSES - (length zs + 1))%nat with k by lia.
  rewrite (aupd_ok _ _ _ (mkVA (-1) (-1))); [|lia|].
  - rewrite Nat2Z.id, insert_app_r_alt, length_fmap by (rewrite length_fmap; lia).
    rewrite Nat.sub_diag, fmap_app, <- app_assoc. reflexivity.
  - rewrite Nat2Z.id, lookup_app_r by (rewrite length_fmap; lia).
    rewrite length_fmap, Nat.sub_diag. reflexivity.
Qed.

Lemma slots_lookup zs i : (length zs <= i < Z.to_nat NUM_ADDRESSES)%nat ->
  slots zs !! i = Some (mkVA (-1) (-1)).
Proof.
  intros H. unfold slots. rewrite lookup_app_r by (rewrite length_fmap; lia).
  rewrite length_fmap. apply lookup_replicate. split; [reflexivity | lia].
Qed.

Definition address_ok (bits z : Z) : Prop := 0 <= z < 2 ^ bits.

Lemma slots_last zs z : (length zs < Z.to_nat NUM_ADDRESSES)%nat ->
  aget (slots (zs ++ [z])) (Z.of_nat (length zs) + 1 - 1) = Ok (mkVA z (-1)).
Proof.
  intros H. replace (Z.of_nat (length zs) + 1 - 1) with (Z.of_nat (length zs)) by lia.
  apply aget_ok. unfold slots. rewrite fmap_app, <- app_assoc, lookup_app_r by (rewrite length_fmap; lia).
  rewrite length_fmap, Nat.sub_diag. reflexivity.
Qed.

Lemma readVirtualAddress_number zs z file : (length zs < Z.to_nat NUM_ADDRESSES)%nat ->
  readVirtualAddress (Some z :: file) (slots zs) (Z.of_nat (length zs)) =
    Ok (1, file, slots (zs ++ [z]), Z.of_nat (length zs) + 1).
Proof.
  intros H. unfold readVirtualAddress. destruct (Z.ltb_spec (Z.of_nat (length zs)) NUM_ADDRESSES); [|lia].
  rewrite slots_next by exact H. reflexivity.
Qed.

Lemma read_body_number bits zs z file : 0 <= bits -> (length zs < Z.to_nat NUM_ADDRESSES)%nat ->
  read_body bits (Some z :: file, slots zs, Z.of_nat (length zs)) =
    if decide (address_ok bits z)
    then Ok (Continue (file, slots (zs ++ [z]), Z.of_nat (length (zs ++ [z])))) else Exit 1.
Proof.
  intros Hb H. unfold read_body. rewrite readVirtualAddress_number by exact H. cbn [mbind res_bind].
  cbn [Z.eqb]. rewrite slots_last by exact H. cbn [mbind res_bind virtualAddress].
  rewrite Z.shiftl_mul_pow2, Z.mul_1_l by exact Hb. unfold address_ok. rewrite length_app, Nat2Z.inj_add. cbn [length].
  case_decide as D; destruct (Z.ltb_spec z 0), (Z.ltb_spec (2 ^ bits - 1) z); cbn; lia || reflexivity.
Qed.

Lemma read_body_end bits zs file : file = [] \/ (Z.to_nat NUM_ADDRESSES <= length zs)%nat ->
  read_body bits (file, slots zs, Z.of_nat (length zs)) =
    Ok (Break (file, slots zs, Z.of_nat (length zs))).
Proof.
  intros H. unfold read_body, readVirtualAddress.
  destruct (Z.ltb_spec (Z.of_nat (length zs)) NUM_ADDRESSES) as [Hlt|_]; [|reflexivity].
  destruct H as [->|H]; [reflexivity | lia].
Qed.

Lemma read_body_text bits zs file : (length zs < Z.to_nat NUM_ADDRESSES)%nat ->
  read_body bits (None :: file, slots zs, Z.of_nat (length zs)) = Exit 1.
Proof.
  intros H. unfold read_body, readVirtualAddress.
  destruct (Z.ltb_spec (Z.of_nat (length zs)) NUM_ADDRESSES); [|lia]. cbn [mbind res_bind mret res_ret Z.eqb].
  replace (Z.of_nat (length zs) + 1 - 1) with (Z.of_nat (length zs)) by lia.
  rewrite (aget_ok _ _ _ (slots_lookup zs (length zs) ltac:(lia))). reflexivity.
Qed.

(** Numbers of the configured length are read one after the other. *)
Lemma read_prefix bits zs : 0 <= bits -> Forall (address_ok bits) zs -> forall old fuel file,
  (length old + length zs <= Z.to_nat NUM_ADDRESSES)%nat ->
  loop (length zs + fuel) (read_body bits) ((Some <$> zs) ++ file, slots old, Z.of_nat (length old)) =
  loop fuel (read_body bits) (file, slots (old ++ zs), Z.of_nat (length (old ++ zs))).
Proof.
  intros Hb Hz. induction Hz as [|z zs Hz _ IH]; intros old fuel file Hl; cbn [length Nat.add fmap list_fmap app].
  - rewrite app_nil_r. reflexivity.
  - cbn [length] in Hl. rewrite loop_S, read_body_number by lia. rewrite decide_True by exact Hz.
    cbn [mbind res_bind]. rewrite IH by (rewrite length_app; cbn; lia).
    rewrite <- app_assoc. reflexivity.
Qed.

Lemma readAddresses_ok bits zs : 0 <= bits ->
  Forall (address_ok bits) (take (Z.to_nat NUM_ADDRESSES) zs) ->
  readAddresses bits (Some <$> zs) (slots []) = Ok (slots (take (Z.to_nat NUM_ADDRESSES) zs)).
Proof.
  intros Hb Hz. unfold readAddresses. set (N := Z.to_nat NUM_ADDRESSES) in *.
  rewrite <- (take_drop N zs) at 1. rewrite fmap_app.
  assert (length (take N zs) <= N)%nat as Hl by (rewrite length_take; lia).
  replace (S (S N)) with (length (take N zs) + S (S (N - length (take N zs))))%nat by lia.
  rewrite (read_prefix bits (take N zs) Hb Hz []) by exact Hl. cbn [app].
  rewrite loop_S, read_body_end; [reflexivity|]. destruct (decide (length zs <= N)%nat).
  - left. rewrite drop_ge by lia. reflexivity.
  - right. rewrite length_take. lia.
Qed.

(** The first entry that is no number, or no address, ends the program. *)
Lemma readAddresses_bad bits zs x rest : 0 <= bits -> Forall (address_ok bits) zs ->
  (length zs < Z.to_nat NUM_ADDRESSES)%nat -> (forall z, x = Some z -> ~ address_ok bits z) ->
  readAddresses bits ((Some <$> zs) ++ x :: rest) (slots []) = Exit 1.
Proof.
  intros Hb Hz Hl Hx. unfold readAddresses. set (N := Z.to_nat NUM_ADDRESSES) in *.
  replace (S (S N)) with (length zs + S (S (N - length zs)))%nat by lia.
  rewrite (read_prefix bits zs Hb Hz []) by (cbn; lia). cbn [app].
  rewrite loop_S. destruct x as [z|]; [|rewrite read_body_text by exact Hl; reflexivity].
  rewrite read_body_number by (exact Hb || exact Hl). rewrite decide_False by auto. reflexivity.
Qed.

(** * Runs of main *)

(** The text the addresses are read from. *)
Definition input_file (w : World) (c : Config) : option InFile :=
  if fileOption c =? 1
  then if input_in_ok w then Some (generate (virtualAddressBits c) (rands w)) else None
  else named_file w.

(** A run that reaches the simulation: the answers, a file of numbers, of which
    the ones that are read are addresses, and an output file that opens. *)
Record session (w : World) (b p m a f : Z) (zs : list Z) : Prop := {
  ses_answers : answers (typed w) b p m a f;
  ses_file : input_file w (chosen b p m a f) = Some (Some <$> zs);
  ses_zs : Forall (address_ok (17 + b)) (take (Z.to_nat NUM_ADDRESSES) zs);
  ses_output : output_ok w = true
}.

(** The addresses a run simulates, and the pages they name. *)
Definition simulated (zs : list Z) : list VirtualAddressInfo := slots (take (Z.to_nat NUM_ADDRESSES) zs).

Definition pages_of (c : Config) (zs : list Z) : list Z := references (pageSizeBytes c) (simulated zs).

Lemma simulated_length zs : length (simulated zs) = Z.to_nat NUM_ADDRESSES.
Proof. apply slots_length. rewrite length_take. lia. Qed.

Lemma simulated_in_range c zs : 0 <= virtualAddressBits c ->
  Forall (address_ok (virtualAddressBits c)) (take (Z.to_nat NUM_ADDRESSES) zs) ->
  Forall (in_range c) (simulated zs).
Proof.
  intros Hb H. unfold simulated, slots. apply Forall_app. split.
  - apply Forall_fmap. eapply Forall_impl; [exact H|]. intros z Hz. unfold in_range, address_ok in *. cbn. lia.
  - apply Forall_replicate. unfold in_range. cbn. pose proof (Z.pow_pos_nonneg 2 (virtualAddressBits c)). lia.
Qed.

(** What [main] does up to the simulation. *)
Lemma main_prefix malloc_ok w b p m a f : (forall z, malloc_ok z = true) -> answers (typed w) b p m a f ->
  let c := chosen b p m a f in
  main malloc_ok w =
    match input_file w c with
    | None => Exit 1
    | Some file =>
        va ← readAddresses (virtualAddressBits c) file (slots []);
        if output_ok w then simulate malloc_ok c (tables_of c) va else Undef
    end.
Proof.
  intros Hok Ha c. unfold main, createVirtualAddressInfoArray. rewrite Hok. cbn [mbind res_bind].
  destruct (readConfig_ok malloc_ok (typed w) b p m a f Hok Ha) as [rest ->]. cbn [mbind res_bind].
  fold c. unfold input_file. destruct (fileOption c =? 1).
  - destruct (input_in_ok w); reflexivity.
  - destruct (named_file w); reflexivity.
Qed.

Lemma main_run malloc_ok w b p m a f zs : (forall z, malloc_ok z = true) -> session w b p m a f zs ->
  let c := chosen b p m a f in
  exists rows, main malloc_ok w =
      Ok (rows, Z.of_nat (cache_faults a (Z.to_nat (totalFrame c)) (pages_of c zs))) /\
    mark <$> rows = cache_hits a (Z.to_nat (totalFrame c)) (pages_of c zs) /\
    length rows = Z.to_nat NUM_ADDRESSES /\
    forall i r, rows !! i = Some r -> row_ok c (simulated zs) i r.
Proof.
  intros Hok [Ha Hf Hz Ho] c. pose proof (chosen_valid _ _ _ _ _ _ Ha) as Hc.
  rewrite (main_prefix malloc_ok w b p m a f Hok Ha). fold c in Hc, Hf |- *. rewrite Hf.
  assert (0 <= virtualAddressBits c) as Hb by (destruct Hc as [[-> | [-> | ->]] _]; lia).
  rewrite (readAddresses_ok (virtualAddressBits c) zs Hb Hz). cbn [mbind res_bind]. rewrite Ho.
  destruct (simulate_refines malloc_ok c (tables_of c) (simulated zs) Hc (tables_fresh c Hc)
    (simulated_length zs) (simulated_in_range c zs Hb Hz)) as (rows & Hs & Hm & Hl & Hr).
  exists rows. split; [exact Hs|]. split; [exact Hm|]. split; [|exact Hr].
  rewrite Hl. apply simulated_length.
Qed.

Lemma session_frames w b p m a f zs : session w b p m a f zs ->
  exists n, Z.to_nat (totalFrame (chosen b p m a f)) = S n.
Proof.
  intros [Ha _ _ _]. destruct (config_sizes _ (chosen_valid _ _ _ _ _ _ Ha)) as (Hf & _).
  exists (Z.to_nat (totalFrame (chosen b p m a f)) - 1)%nat. lia.
Qed.

Lemma optimal_best a n ps : (cache_faults 1 (S n) ps <= cache_faults a (S n) ps)%nat.
Proof.
  unfold cache_faults. cbn [Z.eqb Pos.eqb]. destruct (a =? 1); [lia|].
  destruct (a =? 2); [|destruct (a =? 3)].
  - apply (opt_le_demand n _ _ (fun _ => True)); auto.
  - apply (opt_le_demand n _ _ NoDup); [constructor | reflexivity].
  - apply (opt_le_demand n _ _ (fun _ => True)); auto.
Qed.

(** * Theorems *)

(** C1: for every sequence of answers (rejected ones included), every file of
    addresses of the chosen length and each of the four algorithms, [main] runs
    to its end, writes 5000 rows whose frame and physical address translate the
    row's virtual address, whose H/F column is that of the abstract cache of
    the algorithm on the pages of the addresses, and reports that cache's number
    of faults. *)
Theorem main_correct malloc_ok w b p m a f zs :
  (forall z, malloc_ok z = true) -> session w b p m a f zs ->
  let c := chosen b p m a f in
  exists rows, main malloc_ok w =
      Ok (rows, Z.of_nat (length (filter (fun h => h = false) (mark <$> rows)))) /\
    mark <$> rows = cache_hits a (Z.to_nat (totalFrame c)) (pages_of c zs) /\
    length rows = Z.to_nat NUM_ADDRESSES /\
    forall i r, rows !! i = Some r -> row_ok c (simulated zs) i r.
Proof.
  intros Hok Hs c. destruct (main_run malloc_ok w b p m a f zs Hok Hs) as (rows & E & Hm & H).
  exists rows. split; [|exact (conj Hm H)]. rewrite E, Hm. do 3 f_equal.
  unfold cache_faults, cache_hits. repeat case_match; apply faults_hits.
Qed.

(** A session of the witnesses: 18-bit addresses, 4 KB pages, 32 KB of memory,
    after two rejected answers. *)
Definition sample (a : Z) (zs : list Z) : World :=
  mkWorld [0; 1; 7; 3; 1; a; 2] (Some (Some <$> zs)) [] true true.

Lemma sample_answers a zs : 1 <= a <= 4 -> answers (typed (sample a zs)) 1 3 1 a 2.
Proof.
  intros Ha. exists [7; 3; 1; a; 2], [1; a; 2], [a; 2], [2], [].
  split; [exists [0]; repeat constructor; lia|]. split; [exists [7]; repeat constructor; lia|].
  split; [exists []; repeat constructor; lia|]. split; [exists []; repeat constructor; lia|].
  exists []; repeat constructor; lia.
Qed.

Lemma sample_session a zs : 1 <= a <= 4 -> Forall (fun z => 0 <= z < 262144) zs ->
  session (sample a zs) 1 3 1 a 2 zs.
Proof.
  intros Ha Hz. split; [apply sample_answers, Ha | reflexivity | | reflexivity].
  apply Forall_take. exact Hz.
Qed.

Lemma main_correct_witness :
  exists rows, main (fun _ => true) (sample 4 [0; 4096; 8200; 5; 262143]) =
      Ok (rows, Z.of_nat (length (filter (fun h => h = false) (mark <$> rows)))) /\
    length rows = Z.to_nat NUM_ADDRESSES.
Proof.
  destruct (main_correct (fun _ => true) (sample 4 [0; 4096; 8200; 5; 262143]) 1 3 1 4 2
    [0; 4096; 8200; 5; 262143]) as (rows & E & _ & Hl & _).
  - intros z. reflexivity.
  - apply sample_session; [lia | repeat constructor; lia].
  - exists rows. split; [exact E | exact Hl].
Defined.

(** On the same configuration and input the optimal algorithm never reports
    more faults than FIFO, LRU or second chance do. *)
Theorem main_optimal malloc_ok w w' b p m a f f' zs :
  (forall z, malloc_ok z = true) -> session w b p m 1 f zs -> session w' b p m a f' zs ->
  exists rows k rows' k', main malloc_ok w = Ok (rows, k) /\ main malloc_ok w' = Ok (rows', k') /\ k <= k'.
Proof.
  intros Hok Hs Hs'.
  destruct (main_run malloc_ok w b p m 1 f zs Hok Hs) as (rows & E & _).
  destruct (main_run malloc_ok w' b p m a f' zs Hok Hs') as (rows' & E' & _).
  destruct (session_frames _ _ _ _ _ _ _ Hs) as [n Hn].
  eexists rows, _, rows', _. split; [exact E|]. split; [exact E'|].
  change (totalFrame (chosen b p m a f')) with (totalFrame (chosen b p m 1 f)).
  change (pages_of (chosen b p m a f') zs) with (pages_of (chosen b p m 1 f) zs).
  rewrite Hn. apply Nat2Z.inj_le, optimal_best.
Qed.

Lemma main_optimal_witness :
  exists rows k rows' k', main (fun _ => true) (sample 1 [0; 4096; 8200]) = Ok (rows, k) /\
    main (fun _ => true) (sample 2 [0; 4096; 8200]) = Ok (rows', k') /\ k <= k'.
Proof.
  apply (main_optimal (fun _ => true) (sample 1 [0; 4096; 8200]) (sample 2 [0; 4096; 8200]) 1 3 1 2 2 2 [0; 4096; 8200]).
  - intros z. reflexivity.
  - apply sample_session; [lia | repeat constructor; lia].
  - apply sample_session; [lia | repeat constructor; lia].
Defined.

(** With LRU, choosing 64 KB of memory instead of 32 KB never gives more
    faults on the same input. *)
Theorem main_lru_memory malloc_ok w w' b p f f' zs :
  (forall z, malloc_ok z = true) -> session w b p 1 3 f zs -> session w' b p 2 3 f' zs ->
  exists rows k rows' k', main malloc_ok w = Ok (rows, k) /\ main malloc_ok w' = Ok (rows', k') /\ k' <= k.
Proof.
  intros Hok Hs Hs'.
  destruct (main_run malloc_ok w b p 1 3 f zs Hok Hs) as (rows & E & _).
  destruct (main_run malloc_ok w' b p 2 3 f' zs Hok Hs') as (rows' & E' & _).
  destruct (session_frames _ _ _ _ _ _ _ Hs) as [n Hn].
  eexists rows, _, rows', _. split; [exact E|]. split; [exact E'|].
  apply Nat2Z.inj_le. change (pages_of (chosen b p 2 3 f') zs) with (pages_of (chosen b p 1 3 f) zs).
  unfold cache_faults. cbn [Z.eqb Pos.eqb]. apply lru_more_memory; [lia|].
  apply Z2Nat.inj_le; [| |]; unfold totalFrame, chosen; cbn;
    destruct (ses_answers _ _ _ _ _ _ _ Hs) as (? & ? & _ & _ & _ & _ & (_ & _ & _ & Hp) & _);
    assert (p = 1 \/ p = 2 \/ p = 3) as [-> | [-> | ->]] by lia; vm_compute; congruence.
Qed.

Lemma main_lru_memory_witness :
  exists rows k rows' k', main (fun _ => true) (mkWorld [1; 3; 1; 3; 2] (Some [Some 7]) [] true true) = Ok (rows, k) /\
    main (fun _ => true) (mkWorld [1; 3; 2; 3; 2] (Some [Some 7]) [] true true) = Ok (rows', k') /\ k' <= k.
Proof.
  apply (main_lru_memory (fun _ => true) (mkWorld [1; 3; 1; 3; 2] (Some [Some 7]) [] true true)
    (mkWorld [1; 3; 2; 3; 2] (Some [Some 7]) [] true true) 1 3 2 2 [7]); [intros; reflexivity | |].
  - split; [|reflexivity|repeat constructor; unfold address_ok; lia|reflexivity]. exists [3; 1; 3; 2], [1; 3; 2], [3; 2], [2], [].
    repeat split; try (exists []; repeat constructor; lia); lia.
  - split; [|reflexivity|repeat constructor; unfold address_ok; lia|reflexivity]. exists [3; 2; 3; 2], [2; 3; 2], [3; 2], [2], [].
    repeat split; try (exists []; repeat constructor; lia); lia.
Defined.

(** A file with fewer than 5000 addresses is not rejected: each missing
    entry is simulated as the address -1, on page 0, and the row has a physical
    address one byte below its frame. *)
Theorem main_short_input malloc_ok w b p m a f zs :
  (forall z, malloc_ok z = true) -> session w b p m a f zs -> (length zs < Z.to_nat NUM_ADDRESSES)%nat ->
  let c := chosen b p m a f in
  exists rows k, main malloc_ok w = Ok (rows, k) /\ length rows = Z.to_nat NUM_ADDRESSES /\
    forall i r, (length zs <= i)%nat -> rows !! i = Some r ->
      row_va r = -1 /\ row_page r = 0 /\ row_pa r = row_frame r * pageSizeBytes c - 1.
Proof.
  intros Hok Hs Hl c. destruct (main_run malloc_ok w b p m a f zs Hok Hs) as (rows & E & _ & Hr & Hrow).
  eexists rows, _. split; [exact E|]. split; [exact Hr|]. intros i r Hi Hir.
  destruct (Hrow i r Hir) as (e & He & _ & Hva & Hpg & _ & Hpa).
  apply lookup_lt_Some in Hir as Hlt. unfold simulated in He. rewrite take_ge in He by lia.
  rewrite slots_lookup in He by lia. injection He as <-. cbn in Hva, Hpg, Hpa. fold c in Hpg, Hpa.
  destruct (config_sizes c (chosen_valid _ _ _ _ _ _ (ses_answers _ _ _ _ _ _ _ Hs))) as (_ & _ & Hps & _).
  assert (Z.quot (-1) (pageSizeBytes c) = 0) as Eq by (apply Z.quot_small_iff; lia).
  pose proof (Z.quot_rem (-1) (pageSizeBytes c) ltac:(lia)) as Er. rewrite Eq in Er.
  rewrite Hva, Hpg, Hpa. split; [reflexivity|]. split; [exact Eq | lia].
Qed.

Lemma main_short_input_witness :
  exists rows k, main (fun _ => true) (sample 2 [0; 4096]) = Ok (rows, k) /\
    length rows = Z.to_nat NUM_ADDRESSES /\
    forall i r, (2 <= i)%nat -> rows !! i = Some r ->
      row_va r = -1 /\ row_page r = 0 /\ row_pa r = row_frame r * 4096 - 1.
Proof.
  apply (main_short_input (fun _ => true) (sample 2 [0; 4096]) 1 3 1 2 2 [0; 4096]).
  - intros z. reflexivity.
  - apply sample_session; [lia | repeat constructor; lia].
  - apply Nat2Z.inj_lt. vm_compute. reflexivity.
Defined.

(** An input file whose first bad entry, among the 5000 that are read, is
    no number or is no address of the chosen length, or a file that cannot be
    opened, ends the program with status 1 and no output. *)
Theorem main_rejects malloc_ok w b p m a f :
  (forall z, malloc_ok z = true) -> answers (typed w) b p m a f ->
  (input_file w (chosen b p m a f) = None \/
   exists zs x rest, input_file w (chosen b p m a f) = Some ((Some <$> zs) ++ x :: rest) /\
     (length zs < Z.to_nat NUM_ADDRESSES)%nat /\ Forall (address_ok (17 + b)) zs /\
     forall z, x = Some z -> ~ address_ok (17 + b) z) ->
  main malloc_ok w = Exit 1.
Proof.
  intros Hok Ha Hf. rewrite (main_prefix malloc_ok w b p m a f Hok Ha).
  destruct Hf as [-> | (zs & x & rest & -> & Hl & Hz & Hx)]; [reflexivity|].
  destruct (chosen_valid _ _ _ _ _ _ Ha) as [Hb _]. cbn in Hb. cbn [chosen virtualAddressBits].
  rewrite readAddresses_bad; [reflexivity | lia | assumption ..].
Qed.

Lemma main_rejects_witness :
  main (fun _ => true) (mkWorld [1; 3; 1; 2; 2] (Some [Some 5; Some 262144; Some 6]) [] true true) = Exit 1.
Proof.
  apply (main_rejects (fun _ => true) (mkWorld [1; 3; 1; 2; 2] (Some [Some 5; Some 262144; Some 6]) [] true true) 1 3 1 2 2).
  - intros z. reflexivity.
  - exists [3; 1; 2; 2], [1; 2; 2], [2; 2], [2], [].
    repeat split; try (exists []; repeat constructor; lia); lia.
  - right. exists [5], (Some 262144), [Some 6]. split; [reflexivity|].
    split; [apply Nat2Z.inj_lt; vm_compute; reflexivity|].
    split; [repeat constructor; unfold address_ok; lia|].
    intros z [= <-]. unfold address_ok. cbn. lia.
Defined.
