(* ===== verification/Revert.v ===== *)
(** The "revert" system calls (src/2/sys_string_revert.c, sys_plus_revert.c,
    sys_minus_revert.c) and the program that calls them (src/2/assignment2.c).
    The system calls see the caller's 100-byte array; the copies between user and
    kernel memory and the kernel's [sscanf] are parameters. *)

From S2P Require Import Prelude CString.
Local Open Scope Z_scope.

Definition EFAULT : Z := 14.
Definition EINTR : Z := 4.
Definition EINVAL : Z := 22.

(** The string [src], NUL included, written over the start of [dst]. *)
Definition overwrite (dst src : list Z) : list Z := src ++ drop (length src) dst.

Section Kernel.
  (** [sscanf(s, "%ld %c %ld", ...)] when it converts all three; the number of
      bytes a copy leaves over, and the memory after it. *)
  Context (sscanf : list Z -> option (Z * Z * Z)).
  Context (copy_from_user : list Z -> Z * list Z).
  Context (copy_to_user : list Z -> list Z -> Z * list Z).

(** * System calls *)

(** The loop that fills [reversed] from the end of [buffer]. *)
Definition reverse_loop (buffer : list Z) (len : Z) : res (list Z) :=
  for_each (Z.to_nat len) 0 (fun j reversed =>
    c ← aget buffer (len - 1 - j); aset reversed j c) (replicate 100 0).

Definition sys_string_revert (user_input user_output : list Z) : res (Z * list Z) :=
  let '(rest, buffer) := copy_from_user user_input in
  if negb (rest =? 0) then mret (- EFAULT, user_output)
  else
    c ← aget buffer 0;
    if c =? 0 then mret (- EINTR, user_output)
    else
      len ← strlen buffer;
      reversed ← reverse_loop buffer len;
      n ← strlen reversed;
      let '(rest, user_output) := copy_to_user user_output (take (Z.to_nat (n + 1)) reversed) in
      mret (if rest =? 0 then 0 else - EFAULT, user_output).

Definition sys_plus_revert (user_input user_output : list Z) : res (Z * list Z) :=
  let '(rest, buffer) := copy_from_user user_input in
  if negb (rest =? 0) then mret (- EFAULT, user_output)
  else
    c ← aget buffer 0;
    if c =? 0 then mret (- EINTR, user_output)
    else
      s ← cstr buffer;
      match sscanf s with
      | Some (number1, operation, number2) =>
          if operation =? 43 then
            let buffer := overwrite buffer (render (wrap 64 (number1 - number2)) ++ [0]) in
            n ← strlen buffer;
            let '(rest, user_output) := copy_to_user user_output (take (Z.to_nat (n + 1)) buffer) in
            mret (if rest =? 0 then 0 else - EFAULT, user_output)
          else mret (- EINVAL, user_output)
      | None => mret (- EINVAL, user_output)
      end.

Definition sys_minus_revert (user_input user_output : list Z) : res (Z * list Z) :=
  let '(rest, buffer) := copy_from_user user_input in
  if negb (rest =? 0) then mret (- EFAULT, user_output)
  else
    c ← aget buffer 0;
    if c =? 0 then mret (- EINTR, user_output)
    else
      s ← cstr buffer;
      match sscanf s with
      | Some (number1, operation, number2) =>
          if operation =? 45 then
            let buffer := overwrite buffer (render (wrap 64 (number1 + number2)) ++ [0]) in
            n ← strlen buffer;
            let '(rest, user_output) := copy_to_user user_output (take (Z.to_nat (n + 1)) buffer) in
            mret (if rest =? 0 then 0 else - EFAULT, user_output)
          else mret (- EINVAL, user_output)
      | None => mret (- EINVAL, user_output)
      end.

(** * The client *)

Definition SYSCALL_STRING_REVERT : Z := 450.
Definition SYSCALL_PLUS : Z := 451.
Definition SYSCALL_MINUS : Z := 452.

(** [syscall] through the entries of the table: an error is returned as -1. *)
Definition syscall (number : Z) (input output : list Z) : res (Z * list Z) :=
  '(r, output) ← (if number =? SYSCALL_STRING_REVERT then sys_string_revert input output
                  else if number =? SYSCALL_PLUS then sys_plus_revert input output
                  else if number =? SYSCALL_MINUS then sys_minus_revert input output
                  else mret (-1, output));
  mret (if r <? 0 then -1 else r, output).

(** 1 when some character is neither a digit nor one of space, + and -. *)
Definition isChar (str : list Z) : res Z :=
  len ← strlen str;
  out ← for_ctl (Z.to_nat len) 0 (fun i (s : unit) =>
    c ← aget str i;
    mret (if (c <? 48) || (57 <? c)
          then if (c =? 32) || (c =? 43) || (c =? 45) then Continue s else Return 1
          else Continue s)) tt;
  mret (match out with inl _ => 0 | inr r => r end).

Definition isSpace (str : list Z) : res Z :=
  len ← strlen str;
  out ← for_ctl (Z.to_nat len) 0 (fun i (s : unit) =>
    c ← aget str i;
    mret (if c =? 32 then Return 1 else Continue s)) tt;
  mret (match out with inl _ => 0 | inr r => r end).

(** [fgets(input, 100, stdin)]: up to 99 characters, to the end of the line. *)
Fixpoint read_line (k : nat) (stream : list Z) : list Z * list Z :=
  match k, stream with
  | S k, c :: stream =>
      if c =? 10 then ([c], stream)
      else let '(line, rest) := read_line k stream in (c :: line, rest)
  | _, _ => ([], stream)
  end.

Definition fgets (input stream : list Z) : option (list Z * list Z) :=
  match stream with
  | [] => None
  | _ => let '(line, rest) := read_line 99 stream in Some (overwrite input (line ++ [0]), rest)
  end.

Inductive Reply := Output (s : list Z) | WrongInput.

(** The choice of the system call for a line. *)
Definition dispatch (input output : list Z) : res (Z * list Z) :=
  has_plus ← strchr input 43;
  if has_plus : bool then
    bad ← isChar input;
    if bad =? 0 then syscall SYSCALL_PLUS input output else mret (-1, output)
  else
    has_minus ← strchr input 45;
    if has_minus : bool then
      bad ← isChar input;
      if bad =? 0 then syscall SYSCALL_MINUS input output else mret (-1, output)
    else
      bad ← isChar input;
      if bad =? 0 then
        space ← isSpace input;
        if space =? 0 then syscall SYSCALL_STRING_REVERT input output else mret (-1, output)
      else mret (-1, output).

(** One turn of the loop; the state is standard input, the two arrays and the
    replies printed so far. *)
Definition turn (s : list Z * list Z * list Z * list Reply) :
    res (ctl (list Z * list Z * list Z * list Reply) Empty_set) :=
  let '(stream, input, output, replies) := s in
  match fgets input stream with
  | None => mret (Break s)
  | Some (input, stream) =>
      k ← strcspn input 10;
      input ← aset input k 0;
      len ← strlen input;
      if len =? 0 then mret (Break (stream, input, output, replies))
      else
        '(ret, output) ← dispatch input output;
        if ret =? 0 then
          o ← cstr output;
          mret (Continue (stream, input, output, replies ++ [Output o]))
        else mret (Continue (stream, input, output, replies ++ [WrongInput]))
  end.

Definition main (stream input output : list Z) : res (list Reply) :=
  out ← loop (S (length stream)) turn (stream, input, output, []);
  match out with
  | inl (_, _, _, replies) => mret replies
  | inr r => match r : Empty_set with end
  end.

(** * The specification of a reply *)

Definition allowed (c : Z) : Prop := is_digit c \/ c = 32 \/ c = 43 \/ c = 45.

#[local] Instance allowed_dec c : Decision (allowed c).
Proof. unfold allowed. apply _. Defined.

Definition revert_result (s : list Z) (op : Z) (f : Z -> Z -> Z) : Reply :=
  if decide (Forall allowed s) then
    match sscanf s with
    | Some (a, c, b) => if c =? op then Output (render (wrap 64 (f a b))) else WrongInput
    | None => WrongInput
    end
  else WrongInput.

Definition answer (s : list Z) : Reply :=
  if decide (43 ∈ s) then revert_result s 43 Z.sub
  else if decide (45 ∈ s) then revert_result s 45 Z.add
  else if decide (Forall is_digit s) then Output (reverse s) else WrongInput.
End Kernel.

(** What the copies do when every page is mapped. *)
Record Copies (copy_from_user : list Z -> Z * list Z) (copy_to_user : list Z -> list Z -> Z * list Z) : Prop := {
  copy_in src : copy_from_user src = (0, src);
  copy_out dst src : copy_to_user dst src = (0, overwrite dst src)
}.

(** * What the sscanf of the kernel does with [%ld %c %ld] *)

Fixpoint span (f : Z -> bool) (l : list Z) : list Z * list Z :=
  match l with
  | c :: l' => if f c then let '(a, b) := span f l' in (c :: a, b) else ([], l)
  | [] => ([], [])
  end.

Definition digitb (c : Z) : bool := (48 <=? c) && (c <=? 57).

Definition blanks (s : list Z) : Prop := Forall (eq 32) s.
Definition digits_of (ds : list Z) : Prop := ds <> [] /\ Forall is_digit ds.
Definition stops (r : list Z) : Prop := forall c, head r = Some c -> ~ is_digit c.

(** A [%ld] takes the number [a] from the front of [s] and leaves [r]: blanks, an
    optional minus (the kernel takes no plus here) and as many digits as there are. *)
Definition numeral (s : list Z) (a : Z) (r : list Z) : Prop :=
  exists lead ds, blanks lead /\ digits_of ds /\ stops r /\
    (s = lead ++ ds ++ r /\ a = value ds \/ s = lead ++ 45 :: ds ++ r /\ a = - value ds).

(** The whole format; what follows the second number is not looked at. *)
Definition scanned (s : list Z) (a c b : Z) : Prop :=
  exists r s1 r2 rest, numeral s a r /\ r = s1 ++ c :: r2 /\ blanks s1 /\ c <> 32 /\ numeral r2 b rest.

Definition in_long (n : Z) : Prop := - 2 ^ 63 <= n < 2 ^ 63.

(** The documented behaviour on a line of digits, blanks and signs whose numbers
    fit into a [long]. *)
Record Scans (sscanf : list Z -> option (Z * Z * Z)) : Prop := {
  scan_yes s a c b : Forall allowed s -> scanned s a c b -> in_long a -> in_long b -> sscanf s = Some (a, c, b);
  scan_no s : Forall allowed s -> (forall a c b, ~ scanned s a c b) -> sscanf s = None
}.

(** The scanner, to run. *)
Definition number (s : list Z) : option (Z * list Z) :=
  let s := snd (span (Z.eqb 32) s) in
  let '(minus, s) := match s with c :: t => if c =? 45 then (true, t) else (false, s) | [] => (false, s) end in
  let '(ds, r) := span digitb s in
  match ds with
  | [] => None
  | _ => Some (if minus then - value ds else value ds, r)
  end.

Definition scan_ref (s : list Z) : option (Z * Z * Z) :=
  match number s with
  | Some (a, r) =>
      match snd (span (Z.eqb 32) r) with
      | c :: r => match number r with Some (b, _) => Some (a, c, b) | None => None end
      | [] => None
      end
  | None => None
  end.

(** * What the README asks for *)

(** The line "a op b". *)
Definition calc_line (ds1 s1 : list Z) (op : Z) (s2 ds2 : list Z) : list Z := ds1 ++ s1 ++ op :: s2 ++ ds2.

(** A natural number; a natural number, a sign and a natural number. *)
Definition natural (s : list Z) : Prop := digits_of s.

Definition formula (s : list Z) (a op b : Z) : Prop :=
  exists ds1 s1 s2 ds2, s = calc_line ds1 s1 op s2 ds2 /\ digits_of ds1 /\ digits_of ds2 /\ blanks s1 /\ blanks s2 /\
    (op = 43 \/ op = 45) /\ a = value ds1 /\ b = value ds2.

Definition opposite (op a b : Z) : Z := if op =? 43 then a - b else a + b.

(** The decimal text of any sum or difference of two [long]s. *)
Definition decimal (n : Z) : list Z := if n <? 0 then 45 :: digits 20 (- n) [] else digits 20 n [].

(** The digits of a number in reverse order, the result of the opposite operation,
    and nothing else is accepted. *)
Inductive readme (s : list Z) : Reply -> Prop :=
| readme_number : natural s -> readme s (Output (reverse s))
| readme_formula a op b : formula s a op b -> readme s (Output (decimal (opposite op a b)))
| readme_wrong : ~ natural s -> (forall a op b, ~ formula s a op b) -> readme s WrongInput.

(** The sign by which the client chooses the system call. *)
Definition sign_of (s : list Z) : Z := if decide (43 ∈ s) then 43 else 45.

(** A line of digits, blanks and signs in which the scanner finds two numbers
    around that sign, although it is no formula (signs before the numbers, text
    after them, blanks before the first) or its result does not fit. *)
Definition overread (s : list Z) (a b : Z) : Prop :=
  Forall allowed s /\ scanned s a (sign_of s) b /\
  forall a' op b', formula s a' op b' -> ~ in_long (opposite op a' b').

(** The numbers of the line fit into a [long]. *)
Definition fits (s : list Z) : Prop := forall a c b, scanned s a c b -> in_long a /\ in_long b.

(** * The checks of the client *)

(** A scan for the first character that is not [P]. *)
Lemma scan_rule (P : Z -> Prop) `{!forall c, Decision (P c)} (f : Z -> bool) (s r : list Z) :
  (forall c, f c = bool_decide (P c)) ->
  for_ctl (length s) 0 (fun i (u : unit) =>
    c ← aget (s ++ r) i; mret (if f c then Continue u else Return 1)) tt =
  Ok (if decide (Forall P s) then inl tt else inr 1).
Proof.
  intros Hf. match goal with |- for_ctl _ _ ?b _ = _ => set (body := b) end.
  destruct (for_ctl_rule (fun i (u : unit) => Forall P (take (Z.to_nat i) s))
    (fun out => out = if decide (Forall P s) then inl tt else inr 1) body (length s) 0 tt)
    as (out & -> & ->); [constructor | | | reflexivity].
  - intros j [] Hj HP. unfold body.
    destruct (lookup_lt_is_Some_2 s (Z.to_nat j)) as [c Hc]; [lia|].
    rewrite (aget_ok_Z (s ++ r) j c) by (lia || (apply lookup_app_l_Some; exact Hc)).
    cbn [mbind res_bind]. apply returns_ok. rewrite Hf. case_bool_decide as D; cbn [ctl_post].
    + replace (Z.to_nat (j + 1)) with (S (Z.to_nat j)) by lia.
      rewrite (take_S_r _ _ c Hc). apply Forall_app. auto.
    + rewrite decide_False; [reflexivity|]. intros HF. apply D. eapply Forall_lookup_1; eauto.
  - intros [] HF. rewrite Z.add_0_l, Nat2Z.id, firstn_all in HF. rewrite decide_True by exact HF. reflexivity.
Qed.

Lemma for_ctl_ext {S R} (b1 b2 : Z -> S -> res (ctl S R)) n i s :
  (forall i s, b1 i s = b2 i s) -> for_ctl n i b1 s = for_ctl n i b2 s.
Proof.
  intros H. revert i s. induction n as [|n IH]; intros i s; cbn [for_ctl]; [reflexivity|].
  rewrite H. destruct (b2 i s) as [[]| | |]; cbn; auto.
Qed.

Lemma isChar_spec s r : text s ->
  isChar (s ++ 0 :: r) = Ok (if decide (Forall allowed s) then 0 else 1).
Proof.
  intros Hs. unfold isChar. rewrite strlen_text by exact Hs. cbn [mbind res_bind]. rewrite Nat2Z.id.
  rewrite (for_ctl_ext _ (fun i u => c ← aget (s ++ 0 :: r) i;
    mret (if bool_decide (allowed c) then Continue u else Return 1))).
  - rewrite (scan_rule allowed (fun c => bool_decide (allowed c))) by reflexivity. cbn [mbind res_bind].
    destruct (decide (Forall allowed s)); reflexivity.
  - intros i u. destruct (aget (s ++ 0 :: r) i) as [c| | |]; try reflexivity. cbn [mbind res_bind].
    unfold allowed, is_digit. f_equal. case_bool_decide as D;
      destruct (Z.ltb_spec c 48), (Z.ltb_spec 57 c), (Z.eqb_spec c 32), (Z.eqb_spec c 43), (Z.eqb_spec c 45);
      cbn [orb]; try reflexivity; exfalso; lia.
Qed.

Lemma isSpace_spec s r : text s ->
  isSpace (s ++ 0 :: r) = Ok (if decide (Forall (fun c => c <> 32) s) then 0 else 1).
Proof.
  intros Hs. unfold isSpace. rewrite strlen_text by exact Hs. cbn [mbind res_bind]. rewrite Nat2Z.id.
  rewrite (for_ctl_ext _ (fun i u => c ← aget (s ++ 0 :: r) i;
    mret (if bool_decide (c <> 32) then Continue u else Return 1))).
  - rewrite (scan_rule (fun c => c <> 32) (fun c => bool_decide (c <> 32))) by reflexivity.
    cbn [mbind res_bind]. destruct (decide (Forall _ s)); reflexivity.
  - intros i u. destruct (aget (s ++ 0 :: r) i) as [c| | |]; try reflexivity. cbn [mbind res_bind].
    f_equal. case_bool_decide as D; destruct (Z.eqb_spec c 32); (reflexivity || lia).
Qed.

(** * The system calls *)

Lemma insert_next (l : list Z) (k : nat) c : (0 < k)%nat ->
  <[length l := c]> (l ++ replicate k 0) = (l ++ [c]) ++ replicate (k - 1) 0.
Proof.
  intros Hk. rewrite insert_app_r_alt, Nat.sub_diag by lia. destruct k as [|k]; [lia|].
  cbn. rewrite Nat.sub_0_r, <- app_assoc. reflexivity.
Qed.

Lemma reverse_loop_spec s r : (length s < 100)%nat ->
  reverse_loop (s ++ 0 :: r) (Z.of_nat (length s)) =
    Ok (reverse s ++ replicate (100 - length s) 0).
Proof.
  intros Hl. unfold reverse_loop. rewrite Nat2Z.id.
  match goal with |- for_each _ _ ?b _ = _ => set (body := b) end.
  destruct (for_each_rule (fun j b => b = take (Z.to_nat j) (reverse s) ++
      replicate (100 - Z.to_nat j) 0) body (length s) 0 (replicate 100 0)) as (b & -> & ->);
    [reflexivity | |].
  - intros j b Hj ->. unfold body.
    assert (exists c, reverse s !! Z.to_nat j = Some c) as [c Hc].
    { apply lookup_lt_is_Some_2. rewrite length_reverse. lia. }
    assert (s !! (length s - S (Z.to_nat j))%nat = Some c) as Hc'.
    { rewrite <- reverse_lookup by lia. exact Hc. }
    rewrite (aget_ok_Z _ _ c); [|lia|].
    2: { replace (Z.to_nat (Z.of_nat (length s) - 1 - j)) with (length s - S (Z.to_nat j))%nat by lia.
         apply lookup_app_l_Some. exact Hc'. }
    cbn [mbind res_bind].
    assert (length (take (Z.to_nat j) (reverse s)) = Z.to_nat j) as Ht
      by (rewrite length_take, length_reverse; lia).
    rewrite aset_ok_Z by (rewrite length_app, length_replicate, Ht; lia). apply returns_ok.
    rewrite <- Ht at 1. rewrite insert_next by lia.
    replace (Z.to_nat (j + 1)) with (S (Z.to_nat j)) by lia. rewrite (take_S_r _ _ c Hc).
    f_equal. f_equal. lia.
  - rewrite Z.add_0_l, Nat2Z.id, take_ge by (rewrite length_reverse; lia). reflexivity.
Qed.

Lemma replicate_cons_0 k : (0 < k)%nat -> replicate k 0 = 0 :: replicate (k - 1) 0.
Proof. destruct k; [lia|]. intros _. cbn. rewrite Nat.sub_0_r. reflexivity. Qed.

Lemma text_reverse s : text s -> text (reverse s).
Proof. intros H. unfold text. rewrite reverse_Permutation. exact H. Qed.

Lemma take_string (s r : list Z) : take (Z.to_nat (Z.of_nat (length s) + 1)) (s ++ 0 :: r) = s ++ [0].
Proof.
  replace (Z.to_nat (Z.of_nat (length s) + 1)) with (length s + 1)%nat by lia.
  rewrite take_app_add. reflexivity.
Qed.

Section Calls.
  Context (sscanf : list Z -> option (Z * Z * Z)).
  Context (copy_from_user : list Z -> Z * list Z).
  Context (copy_to_user : list Z -> list Z -> Z * list Z).
  Hypothesis copies : Copies copy_from_user copy_to_user.
  Context (s r output : list Z).
  Hypothesis is_text : text s.
  Hypothesis nonempty : s <> [].

Lemma first_char : exists c, aget (s ++ 0 :: r) 0 = Ok c /\ c <> 0.
Proof.
  destruct s as [|c s']; [contradiction|]. exists c. split; [reflexivity|].
  inversion is_text. assumption.
Qed.

Lemma sys_string_revert_spec : (length s < 100)%nat ->
  sys_string_revert copy_from_user copy_to_user (s ++ 0 :: r) output =
    Ok (0, overwrite output (reverse s ++ [0])).
Proof.
  intros Hl. unfold sys_string_revert. rewrite (copy_in _ _ copies). cbn [Z.eqb negb].
  destruct first_char as (c & -> & Hc). cbn [mbind res_bind]. rewrite (proj2 (Z.eqb_neq _ _) Hc).
  rewrite strlen_text by exact is_text. cbn [mbind res_bind].
  rewrite reverse_loop_spec by exact Hl. cbn [mbind res_bind].
  rewrite replicate_cons_0 by lia.
  rewrite strlen_text by (apply text_reverse, is_text). cbn [mbind res_bind].
  rewrite take_string, (copy_out _ _ copies). reflexivity.
Qed.

(** The two arithmetic calls differ in the operation they accept and the one
    they perform. *)
Definition calc_reply (op : Z) (f : Z -> Z -> Z) : Z * list Z :=
  match sscanf s with
  | Some (a, c, b) =>
      if c =? op then (0, overwrite output (render (wrap 64 (f a b)) ++ [0])) else (- EINVAL, output)
  | None => (- EINVAL, output)
  end.

Lemma render_buffer n : - 2 ^ 63 <= n < 2 ^ 63 -> exists t,
  overwrite (s ++ 0 :: r) (render n ++ [0]) = render n ++ 0 :: t /\ text (render n).
Proof.
  intros Hn. destruct (render_text n Hn) as (Ht & _ & _). eexists. split; [|exact Ht].
  unfold overwrite. rewrite <- app_assoc. reflexivity.
Qed.

Lemma sys_plus_revert_spec :
  sys_plus_revert sscanf copy_from_user copy_to_user (s ++ 0 :: r) output = Ok (calc_reply 43 Z.sub).
Proof.
  unfold sys_plus_revert, calc_reply. rewrite (copy_in _ _ copies). cbn [Z.eqb negb].
  destruct first_char as (c & -> & Hc). cbn [mbind res_bind]. rewrite (proj2 (Z.eqb_neq _ _) Hc).
  rewrite cstr_text by exact is_text. cbn [mbind res_bind].
  destruct (sscanf s) as [[[a op] b]|]; [|reflexivity]. destruct (op =? 43); [|reflexivity].
  destruct (render_buffer (wrap 64 (a - b)) (wrap_range 64 _ ltac:(lia))) as (t & -> & Ht).
  rewrite strlen_text by exact Ht. cbn [mbind res_bind]. rewrite take_string, (copy_out _ _ copies). reflexivity.
Qed.

Lemma sys_minus_revert_spec :
  sys_minus_revert sscanf copy_from_user copy_to_user (s ++ 0 :: r) output = Ok (calc_reply 45 Z.add).
Proof.
  unfold sys_minus_revert, calc_reply. rewrite (copy_in _ _ copies). cbn [Z.eqb negb].
  destruct first_char as (c & -> & Hc). cbn [mbind res_bind]. rewrite (proj2 (Z.eqb_neq _ _) Hc).
  rewrite cstr_text by exact is_text. cbn [mbind res_bind].
  destruct (sscanf s) as [[[a op] b]|]; [|reflexivity]. destruct (op =? 45); [|reflexivity].
  destruct (render_buffer (wrap 64 (a + b)) (wrap_range 64 _ ltac:(lia))) as (t & -> & Ht).
  rewrite strlen_text by exact Ht. cbn [mbind res_bind]. rewrite take_string, (copy_out _ _ copies). reflexivity.
Qed.

(** What [ret] and [output] have to be for a reply. *)
Definition replied (a : Reply) (m : res (Z * list Z)) : Prop :=
  exists ret output', m = Ok (ret, output') /\
    match a with Output o => ret = 0 /\ cstr output' = Ok o | WrongInput => ret <> 0 end.

Lemma not_replied ret output' : ret <> 0 -> replied WrongInput (Ok (ret, output')).
Proof. intros H. exists ret, output'. auto. Qed.

Lemma calc_replied number op f :
  syscall sscanf copy_from_user copy_to_user number (s ++ 0 :: r) output =
    ('(r, o) ← Ok (calc_reply op f); mret (if r <? 0 then -1 else r, o)) ->
  replied (revert_result sscanf s op f)
    (bad ← isChar (s ++ 0 :: r);
     if bad =? 0 then syscall sscanf copy_from_user copy_to_user number (s ++ 0 :: r) output
     else mret (-1, output)).
Proof.
  intros Hs. unfold revert_result. rewrite isChar_spec by exact is_text. cbn [mbind res_bind].
  destruct (decide (Forall allowed s)) as [Ha|Ha]; [|apply not_replied; discriminate].
  cbn [Z.eqb]. rewrite Hs. unfold calc_reply.
  destruct (sscanf s) as [[[a c] b]|]; [|apply not_replied; discriminate].
  destruct (c =? op); [|apply not_replied; discriminate].
  eexists _, _. split; [reflexivity|]. split; [reflexivity|].
  unfold overwrite. rewrite <- app_assoc. apply cstr_text.
  apply render_text. exact (wrap_range 64 _ ltac:(lia)).
Qed.

Lemma digits_only : 43 ∉ s -> 45 ∉ s ->
  Forall is_digit s <-> Forall allowed s /\ Forall (fun c => c <> 32) s.
Proof.
  intros Hp Hm. rewrite !Forall_forall. unfold allowed, is_digit. split.
  - intros H. split; intros c Hc; specialize (H c Hc); lia.
  - intros [H1 H2] c Hc. specialize (H1 c Hc). specialize (H2 c Hc).
    destruct H1 as [H1|[H1|[-> | ->]]]; [exact H1 | lia | contradiction | contradiction].
Qed.

(** A line through the client and the kernel: the reply is that of the
    specification, and a reply of 0 leaves its text in [output]. *)
Lemma dispatch_spec : (length s < 100)%nat ->
  replied (answer sscanf s) (dispatch sscanf copy_from_user copy_to_user (s ++ 0 :: r) output).
Proof.
  intros Hl. unfold dispatch, answer.
  rewrite (strchr_text s r 43) by exact is_text. cbn [mbind res_bind].
  destruct (decide (43 ∈ s)) as [Hp|Hp]; case_bool_decide as Hp'; try contradiction.
  { apply calc_replied. unfold syscall. rewrite sys_plus_revert_spec. reflexivity. }
  rewrite (strchr_text s r 45) by exact is_text. cbn [mbind res_bind].
  destruct (decide (45 ∈ s)) as [Hm|Hm]; case_bool_decide as Hm'; try contradiction.
  { apply calc_replied. unfold syscall. rewrite sys_minus_revert_spec. reflexivity. }
  rewrite isChar_spec by exact is_text. cbn [mbind res_bind].
  pose proof (digits_only Hp Hm) as Hd.
  destruct (decide (Forall allowed s)) as [Ha|Ha]; cbn [Z.eqb].
  2: { rewrite (decide_False (P := Forall is_digit s)) by tauto. apply not_replied. discriminate. }
  rewrite isSpace_spec by exact is_text. cbn [mbind res_bind].
  destruct (decide (Forall (fun c => c <> 32) s)) as [Hs|Hs]; cbn [Z.eqb].
  - rewrite (decide_True (P := Forall is_digit s)) by tauto. unfold syscall. cbn [Z.eqb Pos.eqb SYSCALL_STRING_REVERT].
    rewrite sys_string_revert_spec by exact Hl. eexists _, _. split; [reflexivity|]. split; [reflexivity|].
    unfold overwrite. rewrite <- app_assoc. apply cstr_text, text_reverse, is_text.
  - rewrite (decide_False (P := Forall is_digit s)) by tauto. apply not_replied. discriminate.
Qed.
End Calls.

(** * The loop of the client *)

(** A line the client can take in one turn. *)
Definition line_ok (s : list Z) : Prop :=
  s <> [] /\ (length s < 99)%nat /\ Forall (fun c => c <> 0 /\ c <> 10) s.

Lemma line_text s : line_ok s -> text s.
Proof. intros (_ & _ & H). eapply Forall_impl; [exact H|]. cbn. tauto. Qed.

Lemma read_line_spec s rest : forall k, Forall (fun c => c <> 0 /\ c <> 10) s -> (length s < k)%nat ->
  read_line k (s ++ 10 :: rest) = (s ++ [10], rest).
Proof.
  induction s as [|c s IH]; intros k Hs Hk; (destruct k as [|k]; [cbn in Hk; lia|]); cbn [app read_line].
  - reflexivity.
  - inversion Hs as [|? ? [_ Hc] Hs']; subst. rewrite (proj2 (Z.eqb_neq _ _) Hc).
    rewrite IH; [reflexivity | exact Hs' | cbn in Hk; lia].
Qed.

(** The array after [fgets] and the removal of the newline. *)
Lemma fgets_line s rest input : Forall (fun c => c <> 0 /\ c <> 10) s -> (length s < 99)%nat ->
  exists t, fgets input (s ++ 10 :: rest) = Some (s ++ 10 :: 0 :: t, rest).
Proof.
  intros Hs Hl. unfold fgets. rewrite read_line_spec by assumption.
  destruct s; cbn; unfold overwrite; rewrite <- ?app_assoc; eexists; reflexivity.
Qed.

Lemma strip_newline s t : Forall (fun c => c <> 0 /\ c <> 10) s ->
  (k ← strcspn (s ++ 10 :: t) 10; aset (s ++ 10 :: t) k 0) = Ok (s ++ 0 :: t).
Proof.
  intros Hs. rewrite strcspn_text by auto. cbn [mbind res_bind].
  rewrite aset_ok by (rewrite length_app; cbn; lia).
  rewrite insert_app_r_alt, Nat.sub_diag by lia. reflexivity.
Qed.

Section Client.
  Context (sscanf : list Z -> option (Z * Z * Z)).
  Context (copy_from_user : list Z -> Z * list Z).
  Context (copy_to_user : list Z -> list Z -> Z * list Z).
  Hypothesis copies : Copies copy_from_user copy_to_user.

#[local] Abbreviation turn := (turn sscanf copy_from_user copy_to_user).

Lemma turn_line s rest input output replies : line_ok s ->
  exists input' output', turn (s ++ 10 :: rest, input, output, replies) =
    Ok (Continue (rest, input', output', replies ++ [answer sscanf s])).
Proof.
  intros Hs. pose proof (line_text s Hs) as Ht. destruct Hs as (Hne & Hl & Hf). unfold Revert.turn.
  destruct (fgets_line s rest input Hf Hl) as [t ->].
  pose proof (strip_newline s (0 :: t) Hf) as Hn. rewrite strcspn_text in Hn |- * by auto.
  cbn [mbind res_bind] in Hn |- *. rewrite Hn. cbn [mbind res_bind].
  rewrite strlen_text by exact Ht. cbn [mbind res_bind].
  destruct (Z.eqb_spec (Z.of_nat (length s)) 0); [destruct s; [contradiction | cbn in *; lia]|].
  destruct (dispatch_spec sscanf copy_from_user copy_to_user copies s (0 :: t) output Ht Hne) as (ret & output' & -> & Hr);
    [lia|]. cbn [mbind res_bind].
  destruct (answer sscanf s) as [o|].
  - destruct Hr as [-> Ho]. cbn [Z.eqb]. rewrite Ho. eexists _, _. reflexivity.
  - rewrite (proj2 (Z.eqb_neq _ _) Hr). eexists _, _. reflexivity.
Qed.

(** An empty line, or the end of the input, stops the client. *)
Lemma turn_stop rest input output replies : rest = [] \/ (exists t, rest = 10 :: t) ->
  exists s i o, turn (rest, input, output, replies) = Ok (Break (s, i, o, replies)).
Proof.
  intros [-> | [t ->]]; [eexists _, _, _; reflexivity|].
  destruct (fgets_line [] t input) as [b Hb]; [constructor | cbn; lia|].
  eexists _, _, _. unfold Revert.turn. cbn [app] in Hb. rewrite Hb. reflexivity.
Qed.

(** The lines of a session, each ended by a newline. *)
Definition typed (lines : list (list Z)) (rest : list Z) : list Z :=
  foldr (fun s t => s ++ 10 :: t) rest lines.

Lemma client_loop lines rest : Forall line_ok lines -> rest = [] \/ (exists t, rest = 10 :: t) ->
  forall fuel input output replies, (length lines < fuel)%nat ->
  exists s i o, loop fuel turn (typed lines rest, input, output, replies) =
    Ok (inl (s, i, o, replies ++ (answer sscanf <$> lines))).
Proof.
  intros Hlines Hrest. induction Hlines as [|s lines Hs _ IH]; intros fuel input output replies Hf;
    (destruct fuel as [|fuel]; [cbn in Hf; lia|]); rewrite loop_S.
  - destruct (turn_stop rest input output replies Hrest) as (s & i & o & E). cbn [typed foldr].
    rewrite E. cbn. rewrite app_nil_r. eauto.
  - cbn [typed foldr]. destruct (turn_line s (typed lines rest) input output replies Hs) as (i' & o' & E).
    unfold typed in E. rewrite E. cbn [mbind res_bind fmap list_fmap].
    destruct (IH fuel i' o' (replies ++ [answer sscanf s])) as (s1 & i1 & o1 & E1); [cbn in Hf; lia|].
    unfold typed in E1. rewrite E1, <- app_assoc. eauto.
Qed.

Lemma typed_length lines rest : (length lines <= length (typed lines rest))%nat.
Proof. unfold typed. induction lines; cbn [foldr length]; [lia|]. rewrite length_app. cbn [length]. lia. Qed.

Lemma main_answers lines rest input output : Forall line_ok lines ->
  rest = [] \/ (exists t, rest = 10 :: t) ->
  main sscanf copy_from_user copy_to_user (typed lines rest) input output = Ok (answer sscanf <$> lines).
Proof.
  intros Hl Hr. unfold main.
  destruct (client_loop lines rest Hl Hr (S (length (typed lines rest))) input output []) as (s & i & o & ->);
    [pose proof (typed_length lines rest); lia | reflexivity].
Qed.
End Client.

(** * Termination *)

Lemma total_strlen b : total (strlen b).
Proof. induction b; cbn; total; assumption. Qed.
Lemma total_cstr b : total (cstr b).
Proof. induction b; cbn; total; assumption. Qed.
Lemma total_strcspn b x : total (strcspn b x).
Proof. induction b; cbn; total; assumption. Qed.

#[local] Hint Resolve total_strlen total_cstr total_strcspn : total.

Lemma total_dispatch sscanf from to input output : total (dispatch sscanf from to input output).
Proof.
  unfold dispatch, strchr, isChar, isSpace, syscall, sys_string_revert, sys_plus_revert, sys_minus_revert, reverse_loop.
  total.
Qed.

#[local] Hint Resolve total_dispatch : total.

Lemma read_line_le k : forall stream, (length (snd (read_line k stream)) <= length stream)%nat.
Proof.
  induction k as [|k IH]; intros [|c stream]; cbn [read_line length snd]; try lia.
  destruct (c =? 10); cbn [snd]; [lia|]. specialize (IH stream).
  destruct (read_line k stream). cbn in *. lia.
Qed.

Lemma read_line_rest k c stream : (length (snd (read_line (S k) (c :: stream))) <= length stream)%nat.
Proof.
  cbn [read_line]. destruct (c =? 10); cbn [snd]; [lia|]. pose proof (read_line_le k stream) as H.
  destruct (read_line k stream). exact H.
Qed.

Section Termination.
  Context (sscanf : list Z -> option (Z * Z * Z)).
  Context (copy_from_user : list Z -> Z * list Z).
  Context (copy_to_user : list Z -> list Z -> Z * list Z).

#[local] Abbreviation turn := (turn sscanf copy_from_user copy_to_user).

Lemma turn_consumes stream input output replies :
  match turn (stream, input, output, replies) with
  | Diverge => False
  | Ok (Continue (stream', _, _, _)) => (length stream' < length stream)%nat
  | _ => True
  end.
Proof.
  unfold Revert.turn, fgets. destruct stream as [|c stream]; [exact I|].
  pose proof (read_line_rest 98 c stream) as Hr. destruct (read_line 99 (c :: stream)) as [line rest]. cbn [snd] in Hr.
  pose proof (total_strcspn (overwrite input (line ++ [0])) 10) as T1.
  destruct (strcspn _ 10) as [k| | |]; try exact I; [|apply T1; reflexivity]. cbn [mbind res_bind].
  pose proof (total_aset (overwrite input (line ++ [0])) k 0) as T2.
  destruct (aset _ k 0) as [b| | |]; try exact I; [|apply T2; reflexivity]. cbn [mbind res_bind].
  pose proof (total_strlen b) as T3. destruct (strlen b) as [n| | |]; try exact I; [|apply T3; reflexivity].
  cbn [mbind res_bind]. destruct (n =? 0); [exact I|].
  pose proof (total_dispatch sscanf copy_from_user copy_to_user b output) as T4.
  destruct (dispatch _ _ _ b output) as [[ret o]| | |]; try exact I; [|apply T4; reflexivity].
  cbn [mbind res_bind]. destruct (ret =? 0); [|cbn [mret res_ret length]; lia].
  pose proof (total_cstr o) as T5. destruct (cstr o); try exact I; [cbn [length mbind res_bind mret res_ret]; lia | apply T5; reflexivity].
Qed.

Lemma client_total fuel : forall stream input output replies, (length stream < fuel)%nat ->
  total (loop fuel turn (stream, input, output, replies)).
Proof.
  induction fuel as [|fuel IH]; intros stream input output replies Hf; [lia|]. rewrite loop_S.
  pose proof (turn_consumes stream input output replies) as H.
  destruct (turn (stream, input, output, replies)) as [[[[[s i] o] r]| |]| | |]; cbn;
    try discriminate; [|contradiction]. apply IH. lia.
Qed.
End Termination.

(** * The scanner and the two grammars *)

Lemma span_app f a b : Forall (fun c => f c = true) a -> (forall c, head b = Some c -> f c = false) ->
  span f (a ++ b) = (a, b).
Proof.
  intros Ha Hb. induction Ha as [|c a Hc _ IH]; cbn.
  - destruct b as [|c b]; [reflexivity|]. cbn. rewrite (Hb c eq_refl). reflexivity.
  - rewrite Hc, IH. reflexivity.
Qed.

Lemma span_parts f : forall l a b, span f l = (a, b) ->
  l = a ++ b /\ Forall (fun c => f c = true) a /\ (forall c, head b = Some c -> f c = false).
Proof.
  induction l as [|c l IH]; intros a b; cbn.
  - intros [= <- <-]. split; [reflexivity|]. split; [constructor | discriminate].
  - destruct (f c) eqn:Hc.
    + destruct (span f l) as [a' b'] eqn:E. intros [= <- <-].
      destruct (IH _ _ eq_refl) as (-> & Ha & Hb). auto.
    + intros [= <- <-]. split; [reflexivity|]. split; [constructor|]. intros ? [= <-]. exact Hc.
Qed.

Lemma digitb_spec c : digitb c = true <-> is_digit c.
Proof. unfold digitb, is_digit. rewrite andb_true_iff, !Z.leb_le. reflexivity. Qed.

Lemma digitb_false c : digitb c = false <-> ~ is_digit c.
Proof. rewrite <- digitb_spec. symmetry. apply not_true_iff_false. Qed.

Lemma span_blanks s r : blanks s -> (forall c, head r = Some c -> c <> 32) -> span (Z.eqb 32) (s ++ r) = (s, r).
Proof.
  intros Hs Hr. apply span_app.
  - eapply Forall_impl; [exact Hs|]. intros c <-. reflexivity.
  - intros c Hc. apply Z.eqb_neq. intros <-. exact (Hr 32 Hc eq_refl).
Qed.

Lemma span_blanks_parts l a b : span (Z.eqb 32) l = (a, b) ->
  l = a ++ b /\ blanks a /\ (forall c, head b = Some c -> c <> 32).
Proof.
  intros E. destruct (span_parts _ _ _ _ E) as (-> & Ha & Hb). split; [reflexivity|]. split.
  - eapply Forall_impl; [exact Ha|]. intros c. apply Z.eqb_eq.
  - intros c Hc. specialize (Hb c Hc). apply Z.eqb_neq in Hb. congruence.
Qed.

Lemma span_digits ds r : Forall is_digit ds -> stops r -> span digitb (ds ++ r) = (ds, r).
Proof.
  intros Hd Hr. apply span_app.
  - eapply Forall_impl; [exact Hd|]. intros c. apply digitb_spec.
  - intros c Hc. apply digitb_false, Hr, Hc.
Qed.

Lemma span_digits_parts l a b : span digitb l = (a, b) -> l = a ++ b /\ Forall is_digit a /\ stops b.
Proof.
  intros E. destruct (span_parts _ _ _ _ E) as (-> & Ha & Hb). split; [reflexivity|]. split.
  - eapply Forall_impl; [exact Ha|]. intros c. apply digitb_spec.
  - intros c Hc. apply digitb_false, Hb, Hc.
Qed.

Lemma digits_head ds r : digits_of ds -> exists d t, ds ++ r = d :: t /\ is_digit d.
Proof. intros [Hne Hd]. destruct Hd as [|d ds Hd]; [contradiction|]. exists d, (ds ++ r). auto. Qed.

Lemma number_spec s a r : number s = Some (a, r) <-> numeral s a r.
Proof.
  unfold number, numeral. split.
  - destruct (span (Z.eqb 32) s) as [lead s1] eqn:E1. apply span_blanks_parts in E1 as (-> & Hl & _). cbn [snd].
    destruct s1 as [|c t]; [discriminate|]. destruct (Z.eqb_spec c 45) as [->|Hc].
    + destruct (span digitb t) as [ds t'] eqn:E2. apply span_digits_parts in E2 as (-> & Hd & Hr).
      destruct ds as [|d ds]; [discriminate|]. intros [= <- <-]. exists lead, (d :: ds).
      split; [exact Hl|]. split; [split; [discriminate | exact Hd]|]. auto.
    + destruct (span digitb (c :: t)) as [ds t'] eqn:E2. apply span_digits_parts in E2 as (-> & Hd & Hr).
      destruct ds as [|d ds]; [discriminate|]. intros [= <- <-]. exists lead, (d :: ds).
      split; [exact Hl|]. split; [split; [discriminate | exact Hd]|]. auto.
  - intros (lead & ds & Hl & Hd & Hr & [(-> & ->)|(-> & ->)]).
    + destruct (digits_head ds r Hd) as (d & t & E & Hc). rewrite E, span_blanks.
      2: exact Hl. 2: { intros c [= <-]. unfold is_digit in Hc. lia. }
      cbn [snd]. destruct (Z.eqb_spec d 45); [unfold is_digit in Hc; lia|]. rewrite <- E.
      rewrite span_digits by (apply Hd || exact Hr). destruct ds; [destruct Hd; contradiction | reflexivity].
    + rewrite span_blanks by (exact Hl || (intros c [= <-]; lia)). cbn [snd Z.eqb Pos.eqb].
      rewrite span_digits by (apply Hd || exact Hr). destruct ds; [destruct Hd; contradiction | reflexivity].
Qed.

Lemma scan_ref_scanned s a c b : scan_ref s = Some (a, c, b) <-> scanned s a c b.
Proof.
  unfold scan_ref, scanned. split.
  - destruct (number s) as [[a' r]|] eqn:E1; [|discriminate]. apply number_spec in E1.
    destruct (span (Z.eqb 32) r) as [s1 r1] eqn:E2. apply span_blanks_parts in E2 as (-> & Hs1 & Hc). cbn [snd].
    destruct r1 as [|c' r2]; [discriminate|]. destruct (number r2) as [[b' rest]|] eqn:E3; [|discriminate].
    apply number_spec in E3. intros [= <- <- <-]. exists (s1 ++ c' :: r2), s1, r2, rest.
    split; [exact E1|]. split; [reflexivity|]. split; [exact Hs1|]. split; [apply Hc; reflexivity | exact E3].
  - intros (r & s1 & r2 & rest & H1 & -> & Hs1 & Hc & H2). apply number_spec in H1, H2. rewrite H1.
    rewrite span_blanks by (exact Hs1 || (intros x [= <-]; exact Hc)). cbn [snd]. rewrite H2. reflexivity.
Qed.

Lemma scan_ref_scans : Scans scan_ref.
Proof.
  split.
  - intros s a c b _ H _ _. apply scan_ref_scanned, H.
  - intros s _ H. destruct (scan_ref s) as [[[a c] b]|] eqn:E; [|reflexivity].
    exfalso. exact (H a c b (proj1 (scan_ref_scanned _ _ _ _) E)).
Qed.

Lemma scanned_fun s a c b a' c' b' : scanned s a c b -> scanned s a' c' b' -> a = a' /\ c = c' /\ b = b'.
Proof. intros H1 H2. apply scan_ref_scanned in H1, H2. rewrite H1 in H2. injection H2 as <- <- <-. auto. Qed.

(** A bounds check to run. *)
Lemma fits_ref s : match scan_ref s with
                   | Some (a, _, b) => bool_decide (in_long a) && bool_decide (in_long b)
                   | None => true
                   end = true -> fits s.
Proof.
  intros H a c b Hs. apply scan_ref_scanned in Hs. rewrite Hs in H. apply andb_true_iff in H as [H1 H2].
  apply bool_decide_eq_true in H1, H2. auto.
Qed.

(** * Formulas *)

Lemma value_nonneg ds : Forall is_digit ds -> 0 <= value ds.
Proof.
  unfold value. assert (forall v, 0 <= v -> Forall is_digit ds ->
    0 <= foldl (fun v c => 10 * v + (c - 48)) v ds) as H; [|apply H; lia].
  induction ds as [|c ds IH]; intros v Hv Hd; cbn; [exact Hv|].
  inversion Hd as [|? ? Hc Hd']; subst. apply IH; [unfold is_digit in Hc; lia | exact Hd'].
Qed.

Lemma formula_forall (P : Z -> Prop) s a op b : formula s a op b ->
  (forall c, is_digit c -> P c) -> P 32 -> P op -> Forall P s.
Proof.
  intros (ds1 & s1 & s2 & ds2 & -> & [_ H1] & [_ H2] & B1 & B2 & _) Hd Hb Hop. unfold calc_line.
  assert (forall l, blanks l -> Forall P l) as Hl.
  { intros l H. eapply Forall_impl; [exact H|]. intros x <-. exact Hb. }
  assert (forall l, Forall is_digit l -> Forall P l) as Hds.
  { intros l H. eapply Forall_impl; [exact H | exact Hd]. }
  apply Forall_app; split; [auto|]. apply Forall_app; split; [auto|]. constructor; [exact Hop|].
  apply Forall_app; auto.
Qed.

Lemma formula_op s a op b : formula s a op b -> op = 43 \/ op = 45.
Proof. intros (ds1 & s1 & s2 & ds2 & H). tauto. Qed.

Lemma formula_allowed s a op b : formula s a op b -> Forall allowed s.
Proof. intros H. pose proof (formula_op _ _ _ _ H). apply (formula_forall _ _ _ _ _ H); unfold allowed; tauto. Qed.

Lemma formula_scanned s a op b : formula s a op b -> scanned s a op b.
Proof.
  intros H. pose proof (formula_op _ _ _ _ H) as Hop.
  destruct H as (ds1 & s1 & s2 & ds2 & -> & D1 & D2 & B1 & B2 & _ & -> & ->).
  exists (s1 ++ op :: s2 ++ ds2), s1, (s2 ++ ds2), []. split.
  - exists [], ds1. split; [constructor|]. split; [exact D1|]. split; [|left; split; reflexivity].
    intros c Hc. unfold is_digit. destruct B1 as [|x s1 <- B1]; injection Hc as <-; lia.
  - split; [reflexivity|]. split; [exact B1|]. split; [lia|]. exists s2, ds2.
    split; [exact B2|]. split; [exact D2|]. split; [discriminate|]. left. rewrite app_nil_r. auto.
Qed.

Lemma scanned_in s a c b : scanned s a c b -> c ∈ s.
Proof.
  intros (r & s1 & r2 & rest & (lead & ds & _ & _ & _ & [(-> & _)|(-> & _)]) & -> & _).
  - rewrite !elem_of_app, elem_of_cons. tauto.
  - rewrite elem_of_app, elem_of_cons, !elem_of_app, elem_of_cons. tauto.
Qed.

Lemma formula_sign s a op b : formula s a op b -> sign_of s = op.
Proof.
  intros H. pose proof (scanned_in _ _ _ _ (formula_scanned _ _ _ _ H)) as Hin. unfold sign_of.
  destruct (formula_op _ _ _ _ H) as [-> | ->]; [apply decide_True, Hin|]. apply decide_False. intros Hp.
  assert (Forall (fun c => c <> 43) s) as HF by (apply (formula_forall _ _ _ _ _ H); unfold is_digit; lia).
  rewrite Forall_forall in HF. exact (HF 43 Hp eq_refl).
Qed.

(** A recogniser of formulas. *)
Definition formula_ref (s : list Z) : option (Z * Z * Z) :=
  let '(ds1, r) := span digitb s in
  match snd (span (Z.eqb 32) r) with
  | op :: r =>
      let '(ds2, rest) := span digitb (snd (span (Z.eqb 32) r)) in
      match ds1, ds2, rest with
      | _ :: _, _ :: _, [] => if (op =? 43) || (op =? 45) then Some (value ds1, op, value ds2) else None
      | _, _, _ => None
      end
  | [] => None
  end.

Lemma formula_ref_spec s a op b : formula_ref s = Some (a, op, b) <-> formula s a op b.
Proof.
  unfold formula_ref. split.
  - destruct (span digitb s) as [ds1 r] eqn:E1. apply span_digits_parts in E1 as (-> & D1 & _).
    destruct (span (Z.eqb 32) r) as [s1 r1] eqn:E2. apply span_blanks_parts in E2 as (-> & B1 & _). cbn [snd].
    destruct r1 as [|c r2]; [discriminate|].
    destruct (span (Z.eqb 32) r2) as [s2 r3] eqn:E3. apply span_blanks_parts in E3 as (-> & B2 & _). cbn [snd].
    destruct (span digitb r3) as [ds2 rest] eqn:E4. apply span_digits_parts in E4 as (-> & D2 & _).
    destruct ds1 as [|d1 ds1], ds2 as [|d2 ds2], rest; try discriminate.
    destruct (Z.eqb_spec c 43) as [Hc|Hc], (Z.eqb_spec c 45) as [Hc'|Hc']; cbn [orb]; try discriminate;
      intros [= <- <- <-]; exists (d1 :: ds1), s1, s2, (d2 :: ds2); rewrite app_nil_r;
      unfold calc_line, digits_of; auto 12.
  - intros H. pose proof (formula_op _ _ _ _ H) as Hop.
    destruct H as (ds1 & s1 & s2 & ds2 & -> & [N1 D1] & [N2 D2] & B1 & B2 & _ & -> & ->). unfold calc_line.
    rewrite span_digits by (exact D1 || (intros c Hc; unfold is_digit; destruct B1 as [|x s1 <- B1]; injection Hc as <-; lia)).
    rewrite span_blanks by (exact B1 || (intros c [= <-]; lia)). cbn [snd].
    rewrite span_blanks.
    2: exact B2. 2: { intros c Hc. destruct D2 as [|d ds2 Hd D2]; [discriminate|]. injection Hc as <-. unfold is_digit in Hd. lia. }
    cbn [snd]. rewrite <- (app_nil_r ds2) at 1. rewrite span_digits by (exact D2 || discriminate).
    destruct ds1, ds2; try contradiction. destruct Hop as [-> | ->]; reflexivity.
Qed.

(** * The reply to a line *)

#[local] Instance in_long_dec n : Decision (in_long n).
Proof. unfold in_long. apply _. Defined.

Lemma digits_more fuel : forall n acc, 0 <= n < 10 ^ Z.of_nat fuel -> (0 < fuel)%nat ->
  digits (S fuel) n acc = digits fuel n acc.
Proof.
  induction fuel as [|fuel IH]; intros n acc Hn Hf; [lia|].
  change (digits (S (S fuel)) n acc) with (if n <? 10 then 48 + n :: acc else digits (S fuel) (n / 10) (48 + n mod 10 :: acc)).
  change (digits (S fuel) n acc) with (if n <? 10 then 48 + n :: acc else digits fuel (n / 10) (48 + n mod 10 :: acc)).
  destruct (Z.ltb_spec n 10); [reflexivity|].
  rewrite Nat2Z.inj_succ, Z.pow_succ_r in Hn by lia.
  assert (fuel <> O) by (intros ->; cbn in Hn; lia).
  apply IH; [|lia]. split; [apply Z.div_pos; lia | apply Z.div_lt_upper_bound; lia].
Qed.

Lemma decimal_render n : in_long n -> decimal n = render n.
Proof.
  intros Hn. unfold in_long in Hn. unfold decimal, render.
  assert (2 ^ 63 < 10 ^ Z.of_nat 19) by (vm_compute; reflexivity).
  destruct (Z.ltb_spec n 0); rewrite digits_more by lia; reflexivity.
Qed.

(** A result that was wrapped is not what it should be. *)
Lemma wrapped_differs n : 2 ^ 63 <= n < 2 ^ 64 -> render (wrap 64 n) <> decimal n.
Proof.
  intros Hn. assert (wrap 64 n = n - 2 ^ 64) as ->.
  { unfold wrap. rewrite <- (Z.mod_unique (n + 2 ^ (64 - 1)) (2 ^ 64) 1 (n + 2 ^ (64 - 1) - 2 ^ 64)); lia. }
  unfold render, decimal. destruct (Z.ltb_spec (n - 2 ^ 64) 0); [|lia]. destruct (Z.ltb_spec n 0); [lia|].
  destruct (digits_spec 20 n []) as (ds & -> & Hd & _ & _ & Hne).
  { split; [lia|]. transitivity (2 ^ 64); [lia | vm_compute; reflexivity]. }
  rewrite app_nil_r. specialize (Hne ltac:(lia)). destruct Hd as [|d ds Hd]; [contradiction|].
  intros [= E _]. unfold is_digit in Hd. lia.
Qed.

Lemma sign_not_natural s : sign_of s ∈ s -> ~ natural s.
Proof.
  intros Hin [_ Hd]. rewrite Forall_forall in Hd. specialize (Hd _ Hin). unfold is_digit, sign_of in Hd.
  destruct (decide _); lia.
Qed.

Section Replies.
  Context (sscanf : list Z -> option (Z * Z * Z)).
  Hypothesis scans : Scans sscanf.
  Context (s : list Z).
  Hypothesis nonempty : s <> [].
  Hypothesis in_range : fits s.

Lemma answer_natural : natural s -> answer sscanf s = Output (reverse s).
Proof.
  intros [_ Hd]. unfold answer. rewrite Forall_forall in Hd.
  rewrite decide_False by (intros H; apply Hd in H; unfold is_digit in H; lia).
  rewrite decide_False by (intros H; apply Hd in H; unfold is_digit in H; lia).
  rewrite decide_True by (apply Forall_forall; exact Hd). reflexivity.
Qed.

Lemma answer_scanned a b : Forall allowed s -> scanned s a (sign_of s) b ->
  answer sscanf s = Output (render (wrap 64 (opposite (sign_of s) a b))).
Proof.
  intros Ha Hs. pose proof (scanned_in _ _ _ _ Hs) as Hin. destruct (in_range _ _ _ Hs) as [Ra Rb].
  pose proof (scan_yes _ scans _ _ _ _ Ha Hs Ra Rb) as E. unfold answer, sign_of, opposite, revert_result in *.
  destruct (decide (43 ∈ s)) as [Hp|Hp].
  - rewrite decide_True, E by exact Ha. reflexivity.
  - rewrite decide_True by exact Hin. rewrite decide_True, E by exact Ha. reflexivity.
Qed.

Lemma answer_wrong : ~ natural s -> (forall a b, Forall allowed s -> ~ scanned s a (sign_of s) b) ->
  answer sscanf s = WrongInput.
Proof.
  intros Hn Hno. assert (forall op f, sign_of s = op -> revert_result sscanf s op f = WrongInput) as Hw.
  { intros op f <-. unfold revert_result. destruct (decide (Forall allowed s)) as [Ha|]; [|reflexivity].
    destruct (scan_ref s) as [[[a c] b]|] eqn:E.
    - apply scan_ref_scanned in E. destruct (in_range _ _ _ E) as [Ra Rb].
      rewrite (scan_yes _ scans _ _ _ _ Ha E Ra Rb). destruct (Z.eqb_spec c (sign_of s)) as [->|]; [|reflexivity].
      destruct (Hno a b Ha E).
    - rewrite (scan_no _ scans _ Ha); [reflexivity|]. intros a c b H. apply scan_ref_scanned in H. congruence. }
  unfold answer. unfold sign_of in Hw. destruct (decide (43 ∈ s)); [apply Hw; reflexivity|].
  destruct (decide (45 ∈ s)); [apply Hw; reflexivity|].
  apply decide_False. intros Hd. apply Hn. split; assumption.
Qed.

Lemma overread_answer a b : overread s a b ->
  answer sscanf s = Output (render (wrap 64 (opposite (sign_of s) a b))).
Proof. intros (Ha & Hs & _). apply answer_scanned; assumption. Qed.

Lemma overread_not_readme a b : overread s a b -> ~ readme s (answer sscanf s).
Proof.
  intros Ho Hr. pose proof (overread_answer _ _ Ho) as E. destruct Ho as (_ & Hs & Hno). rewrite E in Hr.
  inversion Hr as [Hn | a' op b' Hf Heq|]; subst.
  - exact (sign_not_natural s (scanned_in _ _ _ _ Hs) Hn).
  - rewrite (formula_sign _ _ _ _ Hf) in *. specialize (Hno _ _ _ Hf).
    destruct (scanned_fun _ _ _ _ _ _ _ Hs (formula_scanned _ _ _ _ Hf)) as (-> & _ & ->).
    destruct (in_range _ _ _ Hs) as [Ra Rb]. unfold in_long in *.
    destruct Hf as (ds1 & s1 & s2 & ds2 & _ & [_ D1] & [_ D2] & _ & _ & Hop & -> & ->).
    pose proof (value_nonneg _ D1). pose proof (value_nonneg _ D2). unfold opposite in *.
    destruct Hop as [-> | ->]; cbn [Z.eqb Pos.eqb] in *; [lia|].
    symmetry in Heq. revert Heq. apply wrapped_differs. lia.
Qed.

Lemma not_overread_readme : (forall a b, ~ overread s a b) -> readme s (answer sscanf s).
Proof.
  intros Hno. destruct (decide (Forall is_digit s)) as [Hd|Hd].
  { rewrite answer_natural by (split; assumption). apply readme_number. split; assumption. }
  destruct (formula_ref s) as [[[a op] b]|] eqn:E.
  - apply formula_ref_spec in E. pose proof (formula_scanned _ _ _ _ E) as Hs.
    pose proof (formula_sign _ _ _ _ E) as Hop. pose proof (formula_allowed _ _ _ _ E) as Ha.
    destruct (decide (in_long (opposite op a b))) as [Hl|Hl].
    + rewrite (answer_scanned a b) by (rewrite ?Hop; assumption). rewrite Hop.
      unfold in_long in Hl. rewrite wrap_id by lia. rewrite <- decimal_render by exact Hl. apply readme_formula, E.
    + destruct (Hno a b). split; [exact Ha|]. rewrite Hop. split; [exact Hs|]. intros a' op' b' Hf.
      apply formula_ref_spec in E, Hf. rewrite E in Hf. injection Hf as <- <- <-. exact Hl.
  - assert (forall a op b, ~ formula s a op b) as Hf.
    { intros a op b Hf. apply formula_ref_spec in Hf. congruence. }
    assert (~ natural s) as Hn by (intros [_ H]; contradiction).
    rewrite answer_wrong; [apply readme_wrong; assumption | exact Hn|].
    intros a b Ha Hs. apply (Hno a b). split; [exact Ha|]. split; [exact Hs|]. intros a' op b' H. destruct (Hf _ _ _ H).
Qed.
End Replies.

(** * Theorems *)

(** What a session that answers [s] by [r] has got: the README's answer, unless
    the scanner accepts more of the line than a formula. *)
Definition replied_to (s : list Z) (r : Reply) : Prop :=
  (forall a b, overread s a b -> r = Output (render (wrap 64 (opposite (sign_of s) a b)))) /\
  (readme s r <-> forall a b, ~ overread s a b).

(** C6: for every sequence of lines of at most 98 characters whose numbers fit
    into a [long], ended by an empty line or the end of the input, the client and
    the three system calls give one reply to each line. It is the reply of the
    README (a natural number reversed, the opposite operation of a formula, wrong
    input for everything else) except on exactly the lines in which the scanner
    finds two numbers around the sign though they are not a formula, or a formula
    whose result does not fit: those are answered by the wrapped result, as if
    they were valid (1+2+3 by -1, -5-3 by -2). *)
Theorem client_refines sscanf from to lines rest input output :
  Copies from to -> Scans sscanf -> Forall line_ok lines -> Forall fits lines ->
  rest = [] \/ (exists t, rest = 10 :: t) ->
  main sscanf from to (typed lines rest) input output = Ok (answer sscanf <$> lines) /\
  Forall2 replied_to lines (answer sscanf <$> lines).
Proof.
  intros Hc Hs Hl Hf Hr. split; [apply (main_answers sscanf from to Hc); assumption|].
  apply Forall2_fmap_r, Forall_Forall2_diag, Forall_forall. intros s Hin.
  rewrite Forall_forall in Hl, Hf. specialize (Hl s Hin). specialize (Hf s Hin). destruct Hl as [Hne _].
  split; [intros a b; apply overread_answer; assumption|]. split.
  - intros H a b Ho. exact (overread_not_readme sscanf Hs s Hf a b Ho H).
  - apply not_overread_readme; assumption.
Qed.

(** Copies of mapped pages. *)
Definition copy_all (src : list Z) : Z * list Z := (0, src).
Definition write_all (dst src : list Z) : Z * list Z := (0, overwrite dst src).

Lemma copies_all : Copies copy_all write_all.
Proof. split; reflexivity. Qed.

(** "12", "7a", "3 - 4", "1+2+3", "-5-3" *)
Lemma client_refines_witness :
  let lines := [[49; 50]; [55; 97]; [51; 32; 45; 32; 52]; [49; 43; 50; 43; 51]; [45; 53; 45; 51]] in
  main scan_ref copy_all write_all (typed lines [10]) [] [] =
    Ok [Output [50; 49]; WrongInput; Output [55]; Output [45; 49]; Output [45; 50]] /\
  Forall2 replied_to lines [Output [50; 49]; WrongInput; Output [55]; Output [45; 49]; Output [45; 50]].
Proof.
  apply (client_refines scan_ref copy_all write_all
    [[49; 50]; [55; 97]; [51; 32; 45; 32; 52]; [49; 43; 50; 43; 51]; [45; 53; 45; 51]] [10] [] []).
  - apply copies_all.
  - apply scan_ref_scans.
  - repeat constructor; try discriminate; cbn; lia.
  - repeat (apply Forall_cons; split); try (apply fits_ref; vm_compute; reflexivity). constructor.
  - right. exists []. reflexivity.
Defined.

(** "1+2+3" and "-5-3" are among the lines that the README calls wrong input. *)
Lemma overread_examples : overread [49; 43; 50; 43; 51] 1 2 /\ overread [45; 53; 45; 51] (-5) 3.
Proof.
  split; (split; [repeat (apply Forall_cons; split; [unfold allowed, is_digit; lia|]); constructor|];
    split; [apply scan_ref_scanned; vm_compute; reflexivity|]; intros a op b H; apply formula_ref_spec in H;
    vm_compute in H; discriminate).
Qed.

Lemma digits_line s : Forall is_digit s -> s <> [] -> (length s < 99)%nat -> line_ok s.
Proof.
  intros Hd Hne Hl. split; [exact Hne|]. split; [exact Hl|]. eapply Forall_impl; [exact Hd|].
  unfold is_digit. cbn. lia.
Qed.

(** Entering a number of at most 98 digits and then the number the system
    call answers gives the first number back. *)
Theorem revert_involutive sscanf from to s input output :
  Copies from to -> Forall is_digit s -> s <> [] -> (length s < 99)%nat ->
  main sscanf from to (typed [s] []) input output = Ok [Output (reverse s)] /\
  main sscanf from to (typed [s; reverse s] []) input output = Ok [Output (reverse s); Output s].
Proof.
  intros Hc Hd Hne Hl.
  assert (Forall is_digit (reverse s)) as Hd' by (rewrite reverse_Permutation; exact Hd).
  assert (reverse s <> []) as Hne' by (intros H; apply Hne; rewrite <- (reverse_involutive s), H; reflexivity).
  assert (line_ok s) as L1 by (apply digits_line; assumption).
  assert (line_ok (reverse s)) as L2 by (apply digits_line; rewrite ?length_reverse; assumption).
  rewrite !(main_answers sscanf from to Hc) by auto.
  cbn. rewrite !answer_natural by (split; assumption). rewrite reverse_involutive. auto.
Qed.

(** The system calls trust the caller to end its string: 100 bytes without
    a NUL, which any process can pass, make each of them read past the end of its
    buffer on the kernel stack. *)
Theorem revert_unterminated sscanf from to input output :
  Copies from to -> text input -> length input = 100%nat ->
  sys_string_revert from to input output = Undef /\
  sys_plus_revert sscanf from to input output = Undef /\
  sys_minus_revert sscanf from to input output = Undef.
Proof.
  intros Hc Ht Hl. unfold sys_string_revert, sys_plus_revert, sys_minus_revert.
  rewrite !(copy_in _ _ Hc). cbn [Z.eqb negb].
  destruct input as [|c input]; [discriminate|]. inversion Ht as [|? ? Hne _]; subst.
  change (aget (c :: input) 0) with (Ok c). cbn [mbind res_bind]. rewrite (proj2 (Z.eqb_neq _ _) Hne).
  rewrite strlen_unterminated, cstr_unterminated by exact Ht. auto.
Qed.

Lemma revert_unterminated_witness :
  sys_string_revert copy_all write_all (replicate 100 55) [] = Undef /\
  sys_plus_revert scan_ref copy_all write_all (replicate 100 55) [] = Undef /\
  sys_minus_revert scan_ref copy_all write_all (replicate 100 55) [] = Undef.
Proof.
  apply (revert_unterminated scan_ref copy_all write_all (replicate 100 55) []).
  - apply copies_all.
  - apply Forall_replicate. discriminate.
  - reflexivity.
Defined.

(** The loop of the client ends on every input stream, however the copies
    and the scanner behave. *)
Theorem client_terminates sscanf from to stream input output :
  main sscanf from to stream input output <> Diverge.
Proof.
  unfold main. apply total_bind; [apply client_total; lia|]. intros [[[[] ?] ?]|[]]. apply total_ok.
Qed.
