(* ===== verification/NewPs.v ===== *)
(** The process list of src/1/newps.c: the name of a terminal from the target of
    a [/proc/<pid>/fd/0] link, the CPU time of a row, and the loop over the
    entries of /proc. What the kernel answers (directory entries, the converted
    fields of a stat file, link targets, the clock rate) is data of the model. *)

From S2P Require Import Prelude CString.
Local Open Scope Z_scope.

(** "/dev/" and "?" *)
Definition dev : list Z := [47; 100; 101; 118; 47].
Definition unknown : list Z := [63].

(** [strstr(b, dev)] as an index. *)
Fixpoint strstr (s pat : list Z) : option nat :=
  if decide (pat `prefix_of` s) then Some O
  else match s with
       | [] => None
       | _ :: s => S <$> strstr s pat
       end.

(** [readlink(path, buf, 255)]: at most 255 bytes of the target, no NUL. *)
Definition readlink (target buf : list Z) : Z * list Z :=
  let t := take 255 target in (Z.of_nat (length t), t ++ drop (length t) buf).

(** [memmove(buf, buf + src, n)] inside [buf]. *)
Definition memmove (buf : list Z) (src n : Z) : res (list Z) :=
  if (0 <=? src) && (0 <=? n) && (src + n <=? Z.of_nat (length buf))
  then let moved := take (Z.to_nat n) (drop (Z.to_nat src) buf) in
       Ok (moved ++ drop (length moved) buf)
  else Undef.

(** The statements after a successful [readlink]: the name without what comes
    before and with "/dev/". *)
Definition strip_dev (len : Z) (tty : list Z) : res (list Z) :=
  tty ← aset tty len 0;
  s ← cstr tty;
  match strstr s dev with
  | Some pos =>
      tty ← memmove tty (Z.of_nat pos + 5) (len - Z.of_nat pos + 5);
      aset tty (len - 5) 0
  | None => mret tty
  end.

(** A failed [readlink] is reported but not handled: the program writes to
    [tty_name[-1]]. *)
Definition get_self_tty (link : option (list Z)) (tty_name : list Z) : res (list Z) :=
  match link with
  | Some target => let '(len, tty_name) := readlink target tty_name in strip_dev len tty_name
  | None => strip_dev (-1) tty_name
  end.

(** [print_file_contents]: the [char] that [fgetc] is stored in is compared with
    [EOF], so a byte 255 ends the copy. *)
Fixpoint print_file_contents (bytes : list Z) : list Z :=
  match bytes with
  | [] => []
  | ch :: bytes => if wrap 8 ch =? -1 then [] else wrap 8 ch :: print_file_contents bytes
  end.

(** * Rows *)

Record Stat := mkStat {
  converted : Z;
  s_pid : Z;
  s_comm : list Z;
  s_utime : Z;
  s_stime : Z
}.

(** An entry of /proc: whether it is a directory, its name, its stat file when
    it opens and the target of its descriptor 0 when that is a link. *)
Record Entry := mkEntry {
  is_dir : bool;
  d_name : list Z;
  stat : option Stat;
  fd0 : option (list Z)
}.

Record PsRow := mkPsRow {
  ps_pid : Z;
  ps_tty : list Z;
  ps_hours : Z;
  ps_minutes : Z;
  ps_seconds : Z;
  ps_comm : list Z
}.

(** [hours:minutes:seconds] of a row, in [int]. *)
Definition cpu_time (hertz utime stime : Z) : res (Z * Z * Z) :=
  q ← cdiv (wrap 64 (utime + stime)) hertz;
  let seconds := wrap 32 q in
  let minutes := Z.quot seconds 60 in
  let hours := Z.quot minutes 60 in
  mret (hours, Z.rem minutes 60, Z.rem seconds 60).

(** [isdigit(entry->d_name[0])] *)
Definition numeric (e : Entry) : bool :=
  match d_name e with c :: _ => bool_decide (is_digit c) | [] => false end.

(** The body of the loop; the state is the array [tty], the time variables and
    the rows printed. [stime] keeps its old value when only three fields
    converted. *)
Definition ps_step (hertz : Z) (current : list Z) (e : Entry) (s : list Z * option Z * list PsRow) :
    res (list Z * option Z * list PsRow) :=
  let '(tty, stime, rows) := s in
  if is_dir e && numeric e then
    match stat e with
    | Some st =>
        if 3 <=? converted st then
          let stime := if 4 <=? converted st then Some (s_stime st) else stime in
          tty ← match fd0 e with
                | Some target => let '(len, tty) := readlink target tty in strip_dev len tty
                | None => mret (unknown ++ 0 :: drop 2 tty)
                end;
          name ← cstr tty;
          mine ← cstr current;
          if bool_decide (name = mine) then
            match stime with
            | Some t =>
                '(h, m, sec) ← cpu_time hertz (s_utime st) t;
                mret (tty, stime, rows ++ [mkPsRow (s_pid st) name h m sec (s_comm st)])
            | None => Undef
            end
          else mret (tty, stime, rows)
        else mret s
    | None => mret s
    end
  else mret s.

Fixpoint ps_loop (hertz : Z) (current : list Z) (entries : list Entry)
    (s : list Z * option Z * list PsRow) : res (list Z * option Z * list PsRow) :=
  match entries with
  | [] => Ok s
  | e :: entries => s ← ps_step hertz current e s; ps_loop hertz current entries s
  end.

(** [main]: the exit status and the rows. *)
Definition main (hertz : Z) (self : option (list Z)) (proc : option (list Entry))
    (current tty : list Z) : res (Z * list PsRow) :=
  current ← get_self_tty self current;
  match proc with
  | None => mret (1, [])
  | Some entries =>
      '(_, _, rows) ← ps_loop hertz current entries (tty, None, []);
      mret (0, rows)
  end.

(** * The name of a terminal *)

(** What follows the first "/dev/" of a link target, or the whole of it. *)
Definition tty_of (target : list Z) : list Z :=
  match strstr target dev with
  | Some pos => drop (pos + 5) target
  | None => target
  end.

Lemma strstr_bound s pat pos : strstr s pat = Some pos -> (pos + length pat <= length s)%nat.
Proof.
  revert pos. induction s as [|c s IH]; intros pos; cbn [strstr]; case_decide as D; intros [= E]; subst.
  - apply prefix_length in D. lia.
  - apply prefix_length in D. lia.
  - destruct (strstr s pat) as [p|]; [|discriminate]. cbn in E. injection E as <-.
    specialize (IH p eq_refl). cbn. lia.
Qed.

(** A link of up to 246 bytes is stripped within the 256 bytes of the array. *)
Lemma strip_dev_spec target buf : text target -> (length target <= 246)%nat -> length buf = 256%nat ->
  exists r, strip_dev (Z.of_nat (length target)) (target ++ drop (length target) buf) =
    Ok (tty_of target ++ 0 :: r) /\ length (tty_of target ++ 0 :: r) = 256%nat.
Proof.
  intros Ht Hl Hb. unfold strip_dev. rewrite aset_ok by (rewrite length_app, length_drop; lia).
  cbn [mbind res_bind]. rewrite insert_app_r_alt, Nat.sub_diag by lia.
  destruct (drop (length target) buf) as [|x r] eqn:Ed; [apply (f_equal length) in Ed; rewrite length_drop in Ed; cbn in Ed; lia|].
  assert (length r = 255 - length target)%nat as Hr
    by (apply (f_equal length) in Ed; rewrite length_drop in Ed; cbn in Ed; lia).
  change (<[0%nat := 0]> (x :: r)) with (0 :: r).
  rewrite cstr_text by exact Ht. cbn [mbind res_bind]. unfold tty_of.
  destruct (strstr target dev) as [pos|] eqn:Es.
  - pose proof (strstr_bound _ _ _ Es) as Hp. cbn in Hp. unfold memmove.
    rewrite length_app. cbn [length].
    destruct (Z.leb_spec 0 (Z.of_nat pos + 5)); [|lia].
    destruct (Z.leb_spec 0 (Z.of_nat (length target) - Z.of_nat pos + 5)); [|lia].
    destruct (Z.leb_spec (Z.of_nat pos + 5 + (Z.of_nat (length target) - Z.of_nat pos + 5))
      (Z.of_nat (length target + S (length r)))); [|lia]. cbn [andb mbind res_bind].
    replace (Z.to_nat (Z.of_nat pos + 5)) with (pos + 5)%nat by lia.
    set (n := Z.to_nat (Z.of_nat (length target) - Z.of_nat pos + 5)).
    rewrite drop_app_le by lia.
    assert (length (drop (pos + 5) target) = length target - (pos + 5))%nat as Hd by apply length_drop.
    assert (exists r1, take n (drop (pos + 5) target ++ 0 :: r) = drop (pos + 5) target ++ 0 :: r1) as [r1 Hr1].
    { rewrite take_app_ge by lia. replace (n - length (drop (pos + 5) target))%nat with
        (S (n - length (drop (pos + 5) target) - 1)) by lia. eexists. reflexivity. }
    rewrite Hr1. set (buf2 := _ ++ drop _ _).
    assert (length buf2 = 256)%nat as Hl2.
    { pose proof (f_equal length Hr1) as HA. rewrite length_take, !length_app in HA. cbn [length] in HA.
      unfold buf2. rewrite length_app, length_drop, !length_app. cbn [length]. lia. }
    assert (exists r2, buf2 = drop (pos + 5) target ++ 0 :: r2) as [r2 E2].
    { unfold buf2. rewrite <- app_assoc. eexists. reflexivity. }
    rewrite aset_ok_Z by lia. rewrite E2 in Hl2 |- *. rewrite insert_app_r_alt by lia.
    destruct (Z.to_nat (Z.of_nat (length target) - 5) - length (drop (pos + 5) target))%nat as [|k] eqn:Ek; cbn.
    + exists r2. auto.
    + exists (<[k:=0]> r2). split; [reflexivity|]. rewrite length_app in *. cbn in *. rewrite length_insert. exact Hl2.
  - exists r. split; [reflexivity|]. rewrite length_app. cbn. lia.
Qed.

Definition link_ok (target : list Z) : Prop := text target /\ (length target <= 246)%nat.

Lemma readlink_strip target buf : link_ok target -> length buf = 256%nat ->
  exists r, (let '(len, b) := readlink target buf in strip_dev len b) = Ok (tty_of target ++ 0 :: r) /\
    length (tty_of target ++ 0 :: r) = 256%nat.
Proof.
  intros [Ht Hl] Hb. unfold readlink. rewrite take_ge by lia. apply strip_dev_spec; assumption.
Qed.

Lemma tty_of_text target : text target -> text (tty_of target).
Proof. intros H. unfold tty_of. destruct (strstr target dev); [apply Forall_drop, H | exact H]. Qed.

(** * The rows *)

Section Rows.
  Context (hertz : Z) (self : list Z).
  Hypothesis clock : 0 < hertz.

(** The entry's link and times are what the program has room for. *)
Definition entry_ok (e : Entry) : Prop :=
  match fd0 e with Some t => link_ok t | None => True end /\
  match stat e with
  | Some st => converted st < 3 \/
      converted st = 4 /\ 0 <= s_utime st /\ 0 <= s_stime st /\
      s_utime st + s_stime st < 2 ^ 63 /\ (s_utime st + s_stime st) / hertz < 2 ^ 31
  | None => True
  end.

Definition tty_name (e : Entry) : list Z :=
  match fd0 e with Some t => tty_of t | None => unknown end.

(** The row of an entry of the caller's terminal, with the CPU time in hours,
    minutes and seconds. *)
Definition row_of (e : Entry) : option PsRow :=
  if is_dir e && numeric e then
    match stat e with
    | Some st =>
        if (3 <=? converted st) && bool_decide (tty_name e = tty_of self) then
          let q := (s_utime st + s_stime st) / hertz in
          Some (mkPsRow (s_pid st) (tty_name e) (q / 3600) (q / 60 mod 60) (q mod 60) (s_comm st))
        else None
    | None => None
    end
  else None.

Lemma cpu_time_spec u t : 0 <= u -> 0 <= t -> u + t < 2 ^ 63 -> (u + t) / hertz < 2 ^ 31 ->
  cpu_time hertz u t =
    Ok ((u + t) / hertz / 3600, (u + t) / hertz / 60 mod 60, (u + t) / hertz mod 60).
Proof.
  intros Hu Ht Hs Hq. unfold cpu_time. rewrite wrap_id by lia. rewrite cdiv_ok by lia. cbn [mbind res_bind].
  assert (0 <= (u + t) / hertz) by (apply Z.div_pos; lia).
  rewrite wrap_id by lia. set (q := (u + t) / hertz) in *.
  rewrite (Z.quot_div_nonneg q 60) by lia. assert (0 <= q / 60) by (apply Z.div_pos; lia).
  rewrite Z.quot_div_nonneg, !Z.rem_mod_nonneg by lia. rewrite Z.div_div by lia. reflexivity.
Qed.

Lemma ps_step_spec e current r tty stime rows : entry_ok e ->
  text (tty_of self) -> current = tty_of self ++ 0 :: r -> length tty = 256%nat ->
  exists tty' stime', ps_step hertz current e (tty, stime, rows) =
      Ok (tty', stime', rows ++ option_list (row_of e)) /\ length tty' = 256%nat.
Proof.
  intros [Hl Hs] Hself -> Htty. unfold ps_step, row_of.
  destruct (is_dir e && numeric e); [|exists tty, stime; cbn; rewrite app_nil_r; auto].
  destruct (stat e) as [st|]; [|exists tty, stime; cbn; rewrite app_nil_r; auto].
  destruct (Z.leb_spec 3 (converted st)); [|exists tty, stime; cbn; rewrite app_nil_r; auto].
  destruct Hs as [Hs|(Hc & Hu & Ht & Hsum & Hq)]; [lia|].
  assert (exists r', (match fd0 e with
     | Some target => let '(len, tty) := readlink target tty in strip_dev len tty
     | None => mret (unknown ++ 0 :: drop 2 tty) end) = Ok (tty_name e ++ 0 :: r') /\
     length (tty_name e ++ 0 :: r') = 256%nat /\ text (tty_name e)) as (r' & E & Hlen & Htext).
  { unfold tty_name. destruct (fd0 e) as [target|].
    - destruct (readlink_strip target tty Hl Htty) as (r' & E & Hr). exists r'. split; [exact E|].
      split; [exact Hr|]. apply tty_of_text, Hl.
    - exists (drop 2 tty). split; [reflexivity|]. split; [|repeat constructor; discriminate].
      rewrite length_app. cbn [length unknown]. rewrite length_drop. lia. }
  rewrite E. cbn [mbind res_bind]. rewrite !cstr_text by assumption. cbn [mbind res_bind].
  rewrite Hc. change (4 <=? 4) with true. cbn iota. eexists _, _. case_bool_decide as D.
  - rewrite cpu_time_spec by assumption.
    split; [reflexivity | exact Hlen].
  - rewrite andb_false_r. cbn [option_list]. rewrite app_nil_r. split; [reflexivity | exact Hlen].
Qed.

Lemma ps_loop_spec current r es : text (tty_of self) -> current = tty_of self ++ 0 :: r -> Forall entry_ok es ->
  forall tty stime rows, length tty = 256%nat ->
  exists tty' stime', ps_loop hertz current es (tty, stime, rows) =
    Ok (tty', stime', rows ++ omap row_of es).
Proof.
  intros Hself Hc Hes. induction Hes as [|e es He _ IH]; intros tty stime rows Htty; cbn [ps_loop omap list_omap].
  - exists tty, stime. rewrite app_nil_r. reflexivity.
  - destruct (ps_step_spec e current r tty stime rows He Hself Hc Htty) as (tty' & stime' & -> & Ht').
    cbn [mbind res_bind]. destruct (IH tty' stime' (rows ++ option_list (row_of e)) Ht') as (t2 & s2 & ->).
    exists t2, s2. rewrite <- app_assoc. destruct (row_of e); reflexivity.
Qed.
End Rows.

(** * Theorems *)

(** C7: the rows of newps are the directories of /proc with a numeric name whose
    standard input is on the terminal of the caller, in the order of the
    directory, each with its CPU time split into hours, minutes and seconds;
    both terminal names lose everything up to "/dev/". *)
Theorem newps_rows hertz self es current tty :
  0 < hertz -> link_ok self -> Forall (entry_ok hertz) es ->
  length current = 256%nat -> length tty = 256%nat ->
  main hertz (Some self) (Some es) current tty = Ok (0, omap (row_of hertz self) es).
Proof.
  intros Hh Hself Hes Hc Ht. unfold main, get_self_tty.
  destruct (readlink_strip self current Hself Hc) as (r & E & _). rewrite E. cbn [mbind res_bind].
  destruct (ps_loop_spec hertz self Hh _ r es (tty_of_text _ (proj1 Hself)) eq_refl Hes tty None [] Ht)
    as (t & s & ->). reflexivity.
Qed.

(** "/dev/a", a process on it that ran for 3725 s, and one that is not a
    process. *)
Lemma newps_rows_witness :
  main 100 (Some [47; 100; 101; 118; 47; 97])
    (Some [mkEntry true [55] (Some (mkStat 4 7 [98] 372500 50)) (Some [47; 100; 101; 118; 47; 97]);
           mkEntry true [97] None None]) (replicate 256 0) (replicate 256 0) =
  Ok (0, [mkPsRow 7 [97] 1 2 5 [98]]).
Proof.
  apply (newps_rows 100 [47; 100; 101; 118; 47; 97]
    [mkEntry true [55] (Some (mkStat 4 7 [98] 372500 50)) (Some [47; 100; 101; 118; 47; 97]);
     mkEntry true [97] None None] (replicate 256 0) (replicate 256 0)).
  - lia.
  - split; [repeat constructor; discriminate | cbn; lia].
  - constructor; [|constructor; [split; exact I | constructor]].
    split; [split; [repeat constructor; discriminate | cbn; lia]|].
    right. split; [reflexivity|]. repeat split; vm_compute; congruence.
  - reflexivity.
  - reflexivity.
Defined.

(** C0: when the terminal of the caller cannot be read, newps reports it and then
    writes before the start of its array, whatever /proc holds. *)
Theorem newps_no_terminal hertz proc current tty : main hertz None proc current tty = Undef.
Proof. reflexivity. Qed.
