(* ===== verification/KHeaders.v ===== *)
(** What the kernel files of src/3/20193018_PLUS-1 take from headers of Linux
    that are not in the repository: constants of the scheduler's interface and
    the predicates over priorities and policies. The class [Headers] names them,
    [HeadersOk] states their documented values, [linux] gives them. *)

From S2P Require Import Prelude.
Local Open Scope Z_scope.

(** include/linux/sched/prio.h, rt.h and deadline.h; include/uapi/linux/sched.h;
    kernel/sched/sched.h. *)
Class Headers : Type := {
  MAX_NICE : Z;
  MIN_NICE : Z;
  NICE_WIDTH : Z;
  MAX_RT_PRIO : Z;
  MAX_DL_PRIO : Z;
  NICE_TO_PRIO : Z -> Z;
  PRIO_TO_NICE : Z -> Z;
  nice_to_rlimit : Z -> Z;
  rt_prio : Z -> bool;
  dl_prio : Z -> bool;
  SCHED_NORMAL : Z;
  SCHED_FIFO : Z;
  SCHED_RR : Z;
  SCHED_BATCH : Z;
  SCHED_IDLE : Z;
  SCHED_DEADLINE : Z;
  fair_policy : Z -> bool;
  rt_policy : Z -> bool;
  dl_policy : Z -> bool;
  idle_policy : Z -> bool;
  valid_policy : Z -> bool;
  SCHED_RESET_ON_FORK : Z;
  scale_load : Z -> Z;
  WEIGHT_IDLEPRIO : Z;
  WMULT_IDLEPRIO : Z;
  UCLAMP_BUCKETS : Z
}.

Class HeadersOk `{Headers} : Prop := {
  nice_range : MIN_NICE = -20 /\ MAX_NICE = 19 /\ NICE_WIDTH = 40;
  prio_range : MAX_RT_PRIO = 100 /\ MAX_DL_PRIO = 0;
  nice_prio n : NICE_TO_PRIO n = n + 120;
  prio_nice p : PRIO_TO_NICE p = p - 120;
  rlimit_nice n : nice_to_rlimit n = 20 - n;
  rt_prio_spec p : rt_prio p = (p <? 100);
  dl_prio_spec p : dl_prio p = (p <? 0);
  policies : SCHED_NORMAL = 0 /\ SCHED_FIFO = 1 /\ SCHED_RR = 2 /\ SCHED_BATCH = 3 /\
    SCHED_IDLE = 5 /\ SCHED_DEADLINE = 6;
  fair_spec p : fair_policy p = (p =? 0) || (p =? 3);
  rt_spec p : rt_policy p = (p =? 1) || (p =? 2);
  dl_spec p : dl_policy p = (p =? 6);
  idle_spec p : idle_policy p = (p =? 5);
  valid_spec p : valid_policy p = idle_policy p || fair_policy p || rt_policy p || dl_policy p;
  reset_flag : SCHED_RESET_ON_FORK = 1073741824;
  buckets : 1 <= UCLAMP_BUCKETS <= 20
}.

#[export] Instance linux : Headers := {
  MAX_NICE := 19;
  MIN_NICE := -20;
  NICE_WIDTH := 40;
  MAX_RT_PRIO := 100;
  MAX_DL_PRIO := 0;
  NICE_TO_PRIO n := n + 120;
  PRIO_TO_NICE p := p - 120;
  nice_to_rlimit n := 20 - n;
  rt_prio p := p <? 100;
  dl_prio p := p <? 0;
  SCHED_NORMAL := 0;
  SCHED_FIFO := 1;
  SCHED_RR := 2;
  SCHED_BATCH := 3;
  SCHED_IDLE := 5;
  SCHED_DEADLINE := 6;
  fair_policy p := (p =? 0) || (p =? 3);
  rt_policy p := (p =? 1) || (p =? 2);
  dl_policy p := p =? 6;
  idle_policy p := p =? 5;
  valid_policy p := (p =? 5) || ((p =? 0) || (p =? 3)) || ((p =? 1) || (p =? 2)) || (p =? 6);
  SCHED_RESET_ON_FORK := 1073741824;
  scale_load w := Z.shiftl w 10;
  WEIGHT_IDLEPRIO := 3;
  WMULT_IDLEPRIO := 1431655765;
  UCLAMP_BUCKETS := 5
}.

#[export] Instance linux_ok : HeadersOk.
Proof. split; intros; cbn; auto; lia. Qed.

Definition EPERM : Z := 1.
Definition ESRCH : Z := 3.
Definition E2BIG : Z := 7.
Definition ECHILD : Z := 10.
Definition EAGAIN : Z := 11.
Definition EFAULT : Z := 14.
Definition EBUSY : Z := 16.
Definition EINVAL : Z := 22.

(** The bits of [sched_flags]; [flag_unknown] stands for every bit outside
    [SCHED_FLAG_ALL] and [SCHED_FLAG_SUGOV]. *)
Record SchedFlags := mkFlags {
  flag_reset_on_fork : bool;
  flag_keep_policy : bool;
  flag_keep_params : bool;
  flag_util_clamp_min : bool;
  flag_util_clamp_max : bool;
  flag_sugov : bool;
  flag_unknown : bool
}.

(** [SCHED_FLAG_UTIL_CLAMP] is both clamp bits. *)
Definition flag_util_clamp (f : SchedFlags) : bool := flag_util_clamp_min f || flag_util_clamp_max f.

Definition no_flags : SchedFlags := mkFlags false false false false false false false.

(** struct sched_attr, without the three deadline parameters. *)
Record sched_attr := mkAttr {
  sched_policy : Z;
  sched_flags : SchedFlags;
  sched_nice : Z;
  sched_priority : Z;
  sched_util_min : Z;
  sched_util_max : Z
}.

(** Rewrites the header functions by their documented values and splits the
    comparisons that remain. *)
Ltac headers :=
  repeat match goal with
  | |- context [ NICE_TO_PRIO _ ] => rewrite nice_prio
  | |- context [ PRIO_TO_NICE _ ] => rewrite prio_nice
  | |- context [ rt_prio _ ] => rewrite rt_prio_spec
  | |- context [ dl_prio _ ] => rewrite dl_prio_spec
  | |- context [ fair_policy _ ] => rewrite fair_spec
  | |- context [ rt_policy _ ] => rewrite rt_spec
  | |- context [ dl_policy _ ] => rewrite dl_spec
  | |- context [ idle_policy _ ] => rewrite idle_spec
  end.

(** Case analysis on the integer comparisons of the goal. *)
Ltac compare_cases :=
  repeat match goal with
  | |- context [ ?a <? ?b ] => destruct (Z.ltb_spec a b)
  | |- context [ ?a <=? ?b ] => destruct (Z.leb_spec a b)
  | |- context [ ?a =? ?b ] => destruct (Z.eqb_spec a b)
  end; cbn [andb orb negb].

(** An error code is not zero. *)
Ltac errno := cbn [negb andb orb]; unfold EPERM, ESRCH, E2BIG, ECHILD, EAGAIN, EFAULT, EBUSY, EINVAL in *; lia.
