(* ===== verification/Uclamp.v ===== *)
(** Utilization clamping in src/3/20193018_PLUS-1/core.c: the clamp a task asks
    for, the one it gets, and the buckets in which a run queue counts its runnable
    tasks to know the largest clamp among them. *)

From S2P Require Import Prelude KHeaders.
Local Open Scope Z_scope.

(** * State *)

Inductive uclamp_id := UCLAMP_MIN | UCLAMP_MAX.

#[export] Instance uclamp_id_eq : EqDecision uclamp_id.
Proof. solve_decision. Defined.

(** A clamp of a task, a group or the system. *)
Record uclamp_se := mkSe {
  value : Z;
  bucket_id : Z;
  active : bool;
  user_defined : bool
}.

Record uclamp_bucket := mkBucket { b_value : Z; b_tasks : Z }.

Record uclamp_rq := mkUrq { u_value : Z; u_bucket : list uclamp_bucket }.

(** An array indexed by [uclamp_id]. *)
Record Clamps (A : Type) := mkClamps { c_min : A; c_max : A }.
Arguments mkClamps {A} _ _.
Arguments c_min {A} _.
Arguments c_max {A} _.

Definition cget {A} (c : Clamps A) (id : uclamp_id) : A :=
  match id with UCLAMP_MIN => c_min c | UCLAMP_MAX => c_max c end.

Definition cset {A} (c : Clamps A) (id : uclamp_id) (x : A) : Clamps A :=
  match id with UCLAMP_MIN => mkClamps x (c_max c) | UCLAMP_MAX => mkClamps (c_min c) x end.

(** The part of a run queue and of a task this component uses; [idle_flag] is
    the bit [UCLAMP_FLAG_IDLE]. [group] holds the clamps of the task's group when
    that is neither an autogroup nor the root group; [class_uclamp] is
    [sched_class->uclamp_enabled]. *)
Record rq := mkRq { urq : Clamps uclamp_rq; idle_flag : bool }.

Record utask := mkUtask {
  uclamp_req : Clamps uclamp_se;
  uclamp : Clamps uclamp_se;
  group : option (Z * Z);
  class_uclamp : bool;
  ut_rt : bool;
  ut_reset : bool
}.

(** The administrator's settings, the defaults they give and the static key. *)
Record usys := mkUsys {
  util_min : Z;
  util_max : Z;
  util_min_rt_default : Z;
  uclamp_default : Clamps uclamp_se;
  uclamp_used : bool
}.

Definition with_req (p : utask) (r : Clamps uclamp_se) : utask :=
  mkUtask r (uclamp p) (group p) (class_uclamp p) (ut_rt p) (ut_reset p).
Definition with_uclamp (p : utask) (u : Clamps uclamp_se) : utask :=
  mkUtask (uclamp_req p) u (group p) (class_uclamp p) (ut_rt p) (ut_reset p).
Definition with_value (u : uclamp_rq) (v : Z) : uclamp_rq := mkUrq v (u_bucket u).
Definition with_flag (q : rq) (b : bool) : rq := mkRq (urq q) b.

Lemma cget_cset {A} (c : Clamps A) id x : cget (cset c id x) id = x.
Proof. destruct id; reflexivity. Qed.

Lemma cget_cset_ne {A} (c : Clamps A) id id' x : id <> id' -> cget (cset c id x) id' = cget c id'.
Proof. destruct id, id'; congruence || reflexivity. Qed.

(** include/linux/sched.h: a 64-bit [long]. *)
Definition SCHED_CAPACITY_SCALE : Z := Z.shiftl 1 10.

Section Uclamp.
  Context `{Headers}.

(** * Values *)

Definition UCLAMP_BUCKET_DELTA : Z :=
  (SCHED_CAPACITY_SCALE + UCLAMP_BUCKETS / 2) / UCLAMP_BUCKETS.

Definition uclamp_bucket_id (clamp_value : Z) : Z :=
  Z.min (clamp_value / UCLAMP_BUCKET_DELTA) (UCLAMP_BUCKETS - 1).

Definition uclamp_none (id : uclamp_id) : Z :=
  match id with UCLAMP_MIN => 0 | UCLAMP_MAX => SCHED_CAPACITY_SCALE end.

(** The field [value] has 11 bits; the bit [active] stays. *)
Definition uclamp_se_set (se : uclamp_se) (v : Z) (user : bool) : uclamp_se :=
  mkSe (v mod 2 ^ 11) (uclamp_bucket_id v) (active se) user.

Definition uclamp_rq_get (q : rq) (id : uclamp_id) : Z := u_value (cget (urq q) id).
Definition uclamp_rq_set (q : rq) (id : uclamp_id) (v : Z) : rq :=
  mkRq (cset (urq q) id (with_value (cget (urq q) id) v)) (idle_flag q).

Definition uclamp_idle_value (q : rq) (id : uclamp_id) (clamp_value : Z) : Z * rq :=
  match id with
  | UCLAMP_MAX => (clamp_value, with_flag q true)
  | UCLAMP_MIN => (uclamp_none UCLAMP_MIN, q)
  end.

Definition uclamp_idle_reset (q : rq) (id : uclamp_id) (clamp_value : Z) : rq :=
  if negb (idle_flag q) then q else uclamp_rq_set q id clamp_value.

(** The scan goes down from the last bucket: iteration [k] looks at
    [UCLAMP_BUCKETS - 1 - k]. *)
Definition uclamp_rq_max_value (q : rq) (id : uclamp_id) (clamp_value : Z) : res (Z * rq) :=
  out ← for_ctl (Z.to_nat UCLAMP_BUCKETS) 0 (fun k (s : unit) =>
    b ← aget (u_bucket (cget (urq q) id)) (UCLAMP_BUCKETS - 1 - k);
    mret (if b_tasks b =? 0 then Continue s else Return (b_value b))) tt;
  match out with
  | inr v => mret (v, q)
  | inl _ => mret (uclamp_idle_value q id clamp_value)
  end.

(** * Effective clamps *)

(** [clamp(value, lo, hi)]. *)
Definition clamp (v lo hi : Z) : Z := Z.min (Z.max v lo) hi.

Definition uclamp_tg_restrict (p : utask) (id : uclamp_id) : uclamp_se :=
  let uc_req := cget (uclamp_req p) id in
  match group p with
  | None => uc_req
  | Some (tg_min, tg_max) => uclamp_se_set uc_req (clamp (value uc_req) tg_min tg_max) false
  end.

Definition uclamp_eff_get (s : usys) (p : utask) (id : uclamp_id) : uclamp_se :=
  let uc_req := uclamp_tg_restrict p id in
  let uc_max := cget (uclamp_default s) id in
  if value uc_max <? value uc_req then uc_max else uc_req.

Definition uclamp_eff_value (s : usys) (p : utask) (id : uclamp_id) : Z :=
  if active (cget (uclamp p) id) then value (cget (uclamp p) id)
  else value (uclamp_eff_get s p id).

(** * Enqueue and dequeue *)

Definition set_active (se : uclamp_se) (b : bool) : uclamp_se :=
  mkSe (value se) (bucket_id se) b (user_defined se).

Definition set_bucket (q : rq) (id : uclamp_id) (i : Z) (b : uclamp_bucket) : res rq :=
  bs ← aset (u_bucket (cget (urq q) id)) i b;
  mret (mkRq (cset (urq q) id (mkUrq (uclamp_rq_get q id) bs)) (idle_flag q)).

Definition uclamp_rq_inc_id (s : usys) (q : rq) (p : utask) (id : uclamp_id) : res (rq * utask) :=
  let se := set_active (uclamp_eff_get s p id) true in
  let p := with_uclamp p (cset (uclamp p) id se) in
  b ← aget (u_bucket (cget (urq q) id)) (bucket_id se);
  let tasks := b_tasks b + 1 in
  let q := uclamp_idle_reset q id (value se) in
  let bv := if (tasks =? 1) || (b_value b <? value se) then value se else b_value b in
  q ← set_bucket q id (bucket_id se) (mkBucket bv tasks);
  mret (if uclamp_rq_get q id <? value se then uclamp_rq_set q id (value se) else q, p).

Definition uclamp_rq_dec_id (q : rq) (p : utask) (id : uclamp_id) : res (rq * utask) :=
  let se := cget (uclamp p) id in
  if negb (active se) then mret (q, p)
  else
    b ← aget (u_bucket (cget (urq q) id)) (bucket_id se);
    let tasks := if b_tasks b =? 0 then 0 else b_tasks b - 1 in
    q ← set_bucket q id (bucket_id se) (mkBucket (b_value b) tasks);
    let p := with_uclamp p (cset (uclamp p) id (set_active se false)) in
    if negb (tasks =? 0) then mret (q, p)
    else if uclamp_rq_get q id <=? b_value b then
      '(v, q) ← uclamp_rq_max_value q id (value se);
      mret (uclamp_rq_set q id v, p)
    else mret (q, p).

Definition uclamp_rq_inc (s : usys) (q : rq) (p : utask) : res (rq * utask) :=
  if negb (uclamp_used s) then mret (q, p)
  else if negb (class_uclamp p) then mret (q, p)
  else
    '(q, p) ← uclamp_rq_inc_id s q p UCLAMP_MIN;
    '(q, p) ← uclamp_rq_inc_id s q p UCLAMP_MAX;
    mret (if idle_flag q then with_flag q false else q, p).

Definition uclamp_rq_dec (s : usys) (q : rq) (p : utask) : res (rq * utask) :=
  if negb (uclamp_used s) then mret (q, p)
  else if negb (class_uclamp p) then mret (q, p)
  else
    '(q, p) ← uclamp_rq_dec_id q p UCLAMP_MIN;
    uclamp_rq_dec_id q p UCLAMP_MAX.

Definition uclamp_rq_reinc_id (s : usys) (q : rq) (p : utask) (id : uclamp_id) : res (rq * utask) :=
  if negb (active (cget (uclamp p) id)) then mret (q, p)
  else
    '(q, p) ← uclamp_rq_dec_id q p id;
    '(q, p) ← uclamp_rq_inc_id s q p id;
    mret (if bool_decide (id = UCLAMP_MAX) && idle_flag q then with_flag q false else q, p).

Definition uclamp_update_active (s : usys) (q : rq) (p : utask) : res (rq * utask) :=
  '(q, p) ← uclamp_rq_reinc_id s q p UCLAMP_MIN;
  uclamp_rq_reinc_id s q p UCLAMP_MAX.

(** * Requests *)

(** The parameters are unsigned 32-bit numbers, the variables of the check are
    [int]s and the bound is a [long]: the comparison is signed. [NONE] is the -1
    that resets a clamp. *)
Definition NONE : Z := 2 ^ 32 - 1.

Definition uclamp_validate (s : usys) (p : utask) (attr : sched_attr) : Z * usys :=
  let f := sched_flags attr in
  let umin := if flag_util_clamp_min f then wrap 32 (sched_util_min attr) else value (c_min (uclamp_req p)) in
  let umax := if flag_util_clamp_max f then wrap 32 (sched_util_max attr) else value (c_max (uclamp_req p)) in
  if flag_util_clamp_min f && (SCHED_CAPACITY_SCALE + 1 <? wrap 32 (umin + 1)) then (- EINVAL, s)
  else if flag_util_clamp_max f && (SCHED_CAPACITY_SCALE + 1 <? wrap 32 (umax + 1)) then (- EINVAL, s)
  else if negb (umin =? -1) && negb (umax =? -1) && (umax <? umin) then (- EINVAL, s)
  else (0, mkUsys (util_min s) (util_max s) (util_min_rt_default s) (uclamp_default s) true).

Definition uclamp_reset (attr : sched_attr) (id : uclamp_id) (se : uclamp_se) : bool :=
  let f := sched_flags attr in
  if negb (flag_util_clamp f) && negb (user_defined se) then true
  else if bool_decide (id = UCLAMP_MIN) && flag_util_clamp_min f && (sched_util_min attr =? NONE) then true
  else if bool_decide (id = UCLAMP_MAX) && flag_util_clamp_max f && (sched_util_max attr =? NONE) then true
  else false.

(** The value a reset gives: RT tasks are boosted. *)
Definition reset_clamp (s : usys) (attr : sched_attr) (rt : bool) (r : Clamps uclamp_se) (id : uclamp_id) :
    Clamps uclamp_se :=
  let se := cget r id in
  if negb (uclamp_reset attr id se) then r
  else
    let v := if rt && bool_decide (id = UCLAMP_MIN) then util_min_rt_default s else uclamp_none id in
    cset r id (uclamp_se_set se v false).

Definition __setscheduler_uclamp (s : usys) (p : utask) (attr : sched_attr) : utask :=
  let f := sched_flags attr in
  let r := reset_clamp s attr (ut_rt p) (uclamp_req p) UCLAMP_MIN in
  let r := reset_clamp s attr (ut_rt p) r UCLAMP_MAX in
  if negb (flag_util_clamp f) then with_req p r
  else
    let r := if flag_util_clamp_min f && negb (sched_util_min attr =? NONE)
             then cset r UCLAMP_MIN (uclamp_se_set (c_min r) (sched_util_min attr) true) else r in
    let r := if flag_util_clamp_max f && negb (sched_util_max attr =? NONE)
             then cset r UCLAMP_MAX (uclamp_se_set (c_max r) (sched_util_max attr) true) else r in
    with_req p r.

(** * Fork, the RT default, the sysctl and initialisation *)

Definition uclamp_fork (p : utask) : utask :=
  let u := mkClamps (set_active (c_min (uclamp p)) false) (set_active (c_max (uclamp p)) false) in
  let p := with_uclamp p u in
  if negb (ut_reset p) then p
  else with_req p (mkClamps
    (uclamp_se_set (c_min (uclamp_req p)) (uclamp_none UCLAMP_MIN) false)
    (uclamp_se_set (c_max (uclamp_req p)) (uclamp_none UCLAMP_MAX) false)).

Definition __uclamp_update_util_min_rt_default (s : usys) (p : utask) : utask :=
  let se := c_min (uclamp_req p) in
  if user_defined se then p
  else with_req p (cset (uclamp_req p) UCLAMP_MIN (uclamp_se_set se (util_min_rt_default s) false)).

Definition uclamp_update_util_min_rt_default (s : usys) (p : utask) : utask :=
  if negb (ut_rt p) then p else __uclamp_update_util_min_rt_default s p.

Definition uclamp_post_fork (s : usys) (p : utask) : utask := uclamp_update_util_min_rt_default s p.

(** The handler of the three sysctls after [proc_dointvec] returned [result] and
    left the values [(mn, mx, rt)]; every task of the system is synchronised when
    the RT default changes. *)
Definition sysctl_sched_uclamp_handler (s : usys) (tasks : list utask) (write : bool) (result mn mx rt : Z) :
    Z * usys * list utask :=
  if negb (result =? 0) then (result, s, tasks)
  else if negb write then (result, mkUsys mn mx rt (uclamp_default s) (uclamp_used s), tasks)
  else if (mx <? mn) || (SCHED_CAPACITY_SCALE <? mx) || (SCHED_CAPACITY_SCALE <? rt) then (- EINVAL, s, tasks)
  else
    let d := uclamp_default s in
    let d := if negb (util_min s =? mn) then cset d UCLAMP_MIN (uclamp_se_set (c_min d) mn false) else d in
    let d := if negb (util_max s =? mx) then cset d UCLAMP_MAX (uclamp_se_set (c_max d) mx false) else d in
    let root := negb (util_min s =? mn) || negb (util_max s =? mx) in
    let sync := negb (util_min_rt_default s =? rt) in
    let s := mkUsys mn mx rt d (uclamp_used s || root || sync) in
    (result, s, if sync then uclamp_update_util_min_rt_default s <$> tasks else tasks).

Definition init_uclamp_rq : rq :=
  let empty := replicate (Z.to_nat UCLAMP_BUCKETS) (mkBucket 0 0) in
  mkRq (mkClamps (mkUrq (uclamp_none UCLAMP_MIN) empty) (mkUrq (uclamp_none UCLAMP_MAX) empty)) true.

(** The system defaults and the request of the first task. *)
Definition init_uclamp : usys * Clamps uclamp_se :=
  let zero := mkSe 0 0 false false in
  let uc_max := uclamp_se_set zero (uclamp_none UCLAMP_MAX) false in
  (mkUsys SCHED_CAPACITY_SCALE SCHED_CAPACITY_SCALE SCHED_CAPACITY_SCALE (mkClamps uc_max uc_max) false,
   mkClamps (uclamp_se_set zero (uclamp_none UCLAMP_MIN) false)
            (uclamp_se_set zero (uclamp_none UCLAMP_MAX) false)).
End Uclamp.

(** * Buckets *)

Section Buckets.
  Context `{HeadersOk}.

#[local] Abbreviation N := UCLAMP_BUCKETS.

Lemma delta_pos : 51 <= UCLAMP_BUCKET_DELTA.
Proof.
  unfold UCLAMP_BUCKET_DELTA. pose proof buckets. change SCHED_CAPACITY_SCALE with 1024.
  apply Z.div_le_lower_bound; [lia|]. pose proof (Z.div_pos N 2). lia.
Qed.

Lemma bucket_id_range v : 0 <= v -> 0 <= uclamp_bucket_id v < N.
Proof.
  intros Hv. unfold uclamp_bucket_id. pose proof delta_pos. pose proof buckets.
  pose proof (Z.div_pos v UCLAMP_BUCKET_DELTA). lia.
Qed.

Lemma bucket_id_mono v w : v <= w -> uclamp_bucket_id v <= uclamp_bucket_id w.
Proof.
  intros Hv. unfold uclamp_bucket_id. pose proof delta_pos.
  pose proof (Z.div_le_mono v w UCLAMP_BUCKET_DELTA). lia.
Qed.

(** A clamp whose bucket is that of its value, as [uclamp_se_set] leaves it for
    every value of the scale. *)
Definition se_ok (se : uclamp_se) : Prop :=
  0 <= value se <= SCHED_CAPACITY_SCALE /\ bucket_id se = uclamp_bucket_id (value se).

Lemma se_set_ok se v user : 0 <= v <= SCHED_CAPACITY_SCALE -> se_ok (uclamp_se_set se v user).
Proof.
  intros Hv. change SCHED_CAPACITY_SCALE with 1024 in *. unfold se_ok, uclamp_se_set. cbn [value bucket_id].
  rewrite Z.mod_small by lia. split; [exact Hv | reflexivity].
Qed.

Lemma se_ok_active se b : se_ok se -> se_ok (set_active se b).
Proof. intros Hs. exact Hs. Qed.

(** The number of clamps of [T] in bucket [i]. *)
Definition count (T : list uclamp_se) (i : nat) : Z :=
  Z.of_nat (length (filter (fun se => bucket_id se = Z.of_nat i) T)).

Lemma count_cons se T i :
  count (se :: T) i = count T i + (if decide (bucket_id se = Z.of_nat i) then 1 else 0).
Proof. unfold count. rewrite filter_cons. case_decide; cbn [length]; lia. Qed.

Lemma count_perm T T' i : T ≡ₚ T' -> count T i = count T' i.
Proof. intros HT. unfold count. rewrite HT. reflexivity. Qed.

Lemma count_zero T i : count T i = 0 <-> forall se, se ∈ T -> bucket_id se <> Z.of_nat i.
Proof.
  unfold count. split.
  - intros Hc se Hse E. assert (se ∈ filter (fun se => bucket_id se = Z.of_nat i) T) as Hf
      by (apply list_elem_of_filter; auto).
    destruct (filter _ T); [apply not_elem_of_nil in Hf; contradiction | discriminate].
  - intros Hn. destruct (filter (fun se => bucket_id se = Z.of_nat i) T) as [|se l] eqn:E; [reflexivity|].
    assert (se ∈ filter (fun se => bucket_id se = Z.of_nat i) T) as Hf by (rewrite E; left).
    apply list_elem_of_filter in Hf as [Hi Hse]. exfalso. exact (Hn se Hse Hi).
Qed.

Lemma count_nonneg T i : 0 <= count T i.
Proof. unfold count. lia. Qed.

(** The buckets of [u] count the clamps [T] of the runnable tasks. *)
Record counted (T : list uclamp_se) (u : uclamp_rq) : Prop := {
  ct_len : Z.of_nat (length (u_bucket u)) = N;
  ct_ok : Forall se_ok T;
  ct_tasks : forall i b, u_bucket u !! i = Some b -> b_tasks b = count T i;
  ct_bound : forall i b se, u_bucket u !! i = Some b -> se ∈ T -> bucket_id se = Z.of_nat i ->
    value se <= b_value b;
  ct_in : forall i b, u_bucket u !! i = Some b -> b_tasks b <> 0 ->
    uclamp_bucket_id (b_value b) = Z.of_nat i;
  ct_max : T <> [] -> exists i b, u_bucket u !! i = Some b /\ b_tasks b <> 0 /\ u_value u = b_value b /\
    forall j b', u_bucket u !! j = Some b' -> b_tasks b' <> 0 -> b_value b' <= u_value u
}.

Lemma counted_perm T T' u : T ≡ₚ T' -> counted T u -> counted T' u.
Proof.
  intros HT [Hl Ho Ht Hb Hi Hm]. split; auto.
  - rewrite <- HT. exact Ho.
  - intros i b Hu. rewrite <- (count_perm T T' i HT). auto.
  - intros i b se Hu Hse. rewrite <- HT in Hse. eauto.
  - intros Hne. apply Hm. intros ->. apply Permutation_nil_l in HT. congruence.
Qed.

(** A bucket that holds a clamp counts it. *)
Lemma counted_bucket T u se : counted T u -> se_ok se ->
  exists b, u_bucket u !! Z.to_nat (bucket_id se) = Some b /\
    aget (u_bucket u) (bucket_id se) = Ok b /\ Z.of_nat (Z.to_nat (bucket_id se)) = bucket_id se.
Proof.
  intros HT [Hv Hb]. pose proof (bucket_id_range (value se) ltac:(lia)) as Hr. rewrite <- Hb in Hr.
  destruct (lookup_lt_is_Some_2 (u_bucket u) (Z.to_nat (bucket_id se))) as [b Hl].
  { pose proof (ct_len T u HT). lia. }
  exists b. split; [exact Hl|]. split; [apply aget_ok_Z; [lia | exact Hl] | lia].
Qed.


End Buckets.

(** * One run queue and one clamp *)

Section Steps.
  Context `{HeadersOk}.

#[local] Abbreviation N := UCLAMP_BUCKETS.

(** The value of a bucket after a clamp joined it. *)
Definition join_value (b : uclamp_bucket) (v : Z) : Z :=
  if (b_tasks b + 1 =? 1) || (b_value b <? v) then v else b_value b.

Lemma join_value_spec T u se b i : counted T u -> se_ok se -> u_bucket u !! i = Some b ->
  bucket_id se = Z.of_nat i ->
  value se <= join_value b (value se) /\
  (forall se', se' ∈ T -> bucket_id se' = Z.of_nat i -> value se' <= join_value b (value se)) /\
  uclamp_bucket_id (join_value b (value se)) = Z.of_nat i /\
  (join_value b (value se) = value se \/ b_tasks b <> 0 /\ join_value b (value se) = b_value b).
Proof.
  intros HT [_ Hse] Hl Hi. unfold join_value.
  pose proof (ct_tasks T u HT i b Hl) as Ht. pose proof (count_nonneg T i) as Hn.
  destruct (Z.eqb_spec (b_tasks b + 1) 1) as [E|E]; cbn [orb].
  - split; [lia|]. split; [|split; [congruence | auto]]. intros se' Hin Hb. exfalso.
    assert (count T i = 0) as Hz by lia. exact (proj1 (count_zero T i) Hz se' Hin Hb).
  - assert (b_tasks b <> 0) as Hne by lia. pose proof (ct_in T u HT i b Hl Hne) as Hin.
    assert (forall se', se' ∈ T -> bucket_id se' = Z.of_nat i -> value se' <= b_value b) as Hb
      by (intros se' G1 G2; exact (ct_bound T u HT i b se' Hl G1 G2)).
    destruct (Z.ltb_spec (b_value b) (value se)).
    + split; [lia|]. split; [|split; [congruence | auto]]. intros se' G1 G2. specialize (Hb se' G1 G2). lia.
    + split; [lia|]. split; [exact Hb|]. split; [exact Hin | auto].
Qed.

Lemma counted_inc T u se b v0 : counted T u -> se_ok se ->
  u_bucket u !! Z.to_nat (bucket_id se) = Some b ->
  (T = [] -> v0 <= value se) -> (T <> [] -> v0 = u_value u) ->
  counted (se :: T) (mkUrq (if v0 <? value se then value se else v0)
    (<[Z.to_nat (bucket_id se) := mkBucket (join_value b (value se)) (b_tasks b + 1)]> (u_bucket u))).
Proof.
  intros HT Hse Hl V0 V1. set (i := Z.to_nat (bucket_id se)) in *.
  destruct (counted_bucket T u se HT Hse) as (_ & _ & _ & Hi). fold i in Hi. symmetry in Hi.
  destruct (join_value_spec T u se b i HT Hse Hl Hi) as (J1 & J2 & J3 & J4).
  pose proof (lookup_lt_Some _ _ _ Hl) as Hlt. set (bv := join_value b (value se)) in *.
  set (v1 := if v0 <? value se then value se else v0).
  assert (value se <= v1 /\ v0 <= v1 /\ (v1 = value se \/ v1 = v0)) as Hv1 by (unfold v1; compare_cases; lia).
  pose proof (ct_tasks T u HT i b Hl) as Htb. pose proof (count_nonneg T i) as Hcn.
  pose proof (insert_case (u_bucket u) i (mkBucket bv (b_tasks b + 1))) as Hcase.
  split; cbn [u_bucket u_value].
  - rewrite length_insert. apply (ct_len T u HT).
  - constructor; [exact Hse | apply (ct_ok T u HT)].
  - intros j b' Hj. rewrite count_cons. destruct (Hcase j b' Hj) as [[-> ->]|[Hne Hj']].
    + cbn. rewrite decide_True by exact Hi. lia.
    + rewrite decide_False by lia. rewrite (ct_tasks T u HT j b' Hj'). lia.
  - intros j b' se' Hj Hin Hb. destruct (Hcase j b' Hj) as [[-> ->]|[Hne Hj']]; cbn [b_value].
    + apply elem_of_cons in Hin as [->|Hin]; [exact J1 | exact (J2 se' Hin Hb)].
    + apply elem_of_cons in Hin as [->|Hin]; [lia | exact (ct_bound T u HT j b' se' Hj' Hin Hb)].
  - intros j b' Hj Hb. destruct (Hcase j b' Hj) as [[-> ->]|[Hne Hj']]; [exact J3 | exact (ct_in T u HT j b' Hj' Hb)].
  - intros _. assert (forall j b', u_bucket u !! j = Some b' -> b_tasks b' <> 0 -> T <> [] /\ b_value b' <= v1) as Hold.
    { intros j b' Hj Hb. assert (T <> []) as Hne.
      { intros ->. apply Hb. rewrite (ct_tasks [] u HT j b' Hj). reflexivity. }
      split; [exact Hne|]. destruct (ct_max T u HT Hne) as (_ & _ & _ & _ & _ & Hmax).
      specialize (Hmax j b' Hj Hb). rewrite (V1 Hne) in Hv1. lia. }
    assert (bv <= v1) as Hbv by (destruct J4 as [->|[Hb ->]]; [lia | apply (Hold i b Hl Hb)]).
    assert (forall j b', <[i := mkBucket bv (b_tasks b + 1)]> (u_bucket u) !! j = Some b' ->
      b_tasks b' <> 0 -> b_value b' <= v1) as Hall.
    { intros j b' Hj Hb. destruct (Hcase j b' Hj) as [[-> ->]|[_ Hj']]; [exact Hbv | apply (Hold j b' Hj' Hb)]. }
    destruct Hv1 as (_ & _ & [E|E]).
    + exists i, (mkBucket bv (b_tasks b + 1)). rewrite list_lookup_insert_eq by exact Hlt.
      split; [reflexivity|]. split; [cbn; lia|]. split; [cbn; lia | exact Hall].
    + destruct (decide (T = [])) as [->|Hne].
      * exists i, (mkBucket bv (b_tasks b + 1)). rewrite list_lookup_insert_eq by exact Hlt.
        split; [reflexivity|]. split; [cbn; lia|]. split; [cbn; specialize (V0 eq_refl); lia | exact Hall].
      * destruct (ct_max T u HT Hne) as (j & b' & Hj & Hb & Hv & _). rewrite (V1 Hne) in E.
        destruct (decide (j = i)) as [->|Hji].
        -- exists i, (mkBucket bv (b_tasks b + 1)). rewrite list_lookup_insert_eq by exact Hlt.
           split; [reflexivity|]. split; [cbn; lia|]. split; [|exact Hall]. cbn.
           rewrite Hl in Hj. injection Hj as <-. destruct J4 as [E4|[_ E4]]; [|congruence].
           unfold bv, join_value in *. revert E4 Hbv. compare_cases; lia.
        -- exists j, b'. rewrite list_lookup_insert_ne by congruence.
           split; [exact Hj|]. split; [exact Hb|]. split; [congruence | exact Hall].
Qed.

(** The scan for the top-most bucket with tasks. *)
Lemma max_value_scan q id v : Z.of_nat (length (u_bucket (cget (urq q) id))) = N ->
  exists r, uclamp_rq_max_value q id v = Ok r /\
    ((forall i b, u_bucket (cget (urq q) id) !! i = Some b -> b_tasks b = 0) /\ r = uclamp_idle_value q id v \/
     exists i b, u_bucket (cget (urq q) id) !! i = Some b /\ b_tasks b <> 0 /\ r = (b_value b, q) /\
       forall j b', u_bucket (cget (urq q) id) !! j = Some b' -> (i < j)%nat -> b_tasks b' = 0).
Proof.
  intros Hl. set (bs := u_bucket (cget (urq q) id)) in *. unfold uclamp_rq_max_value. fold bs.
  pose proof buckets as HN.
  match goal with |- context [for_ctl _ 0 ?b tt] => set (body := b) end.
  destruct (for_ctl_rule (fun k (_ : unit) => forall j b', bs !! j = Some b' -> N - k <= Z.of_nat j -> b_tasks b' = 0)
    (fun out => match out with
      | inl _ => forall i b, bs !! i = Some b -> b_tasks b = 0
      | inr r => exists i b, bs !! i = Some b /\ b_tasks b <> 0 /\ r = b_value b /\
          forall j b', bs !! j = Some b' -> (i < j)%nat -> b_tasks b' = 0 end) body (Z.to_nat N) 0 tt)
    as (out & -> & Hout).
  - intros j b' Hj Hk. apply lookup_lt_Some in Hj. lia.
  - intros k [] Hk Hinv. unfold body. destruct (lookup_lt_is_Some_2 bs (Z.to_nat (N - 1 - k))) as [b Hb]; [lia|].
    rewrite (aget_ok_Z bs _ b) by (lia || exact Hb). apply returns_ok.
    destruct (Z.eqb_spec (b_tasks b) 0) as [E|E]; cbn [ctl_post].
    + intros j b' Hj Hjk. destruct (decide (j = Z.to_nat (N - 1 - k))) as [->|Hne]; [congruence|].
      apply (Hinv j b' Hj). lia.
    + exists (Z.to_nat (N - 1 - k)), b. split; [exact Hb|]. split; [exact E|]. split; [reflexivity|].
      intros j b' Hj Hjk. apply (Hinv j b' Hj). lia.
  - intros [] Hinv i b Hb. apply (Hinv i b Hb). lia.
  - cbn [mbind res_bind]. destruct out as [[]|r].
    + eexists. split; [reflexivity|]. left. auto.
    + destruct Hout as (i & b & Hb & Hne & -> & Hup). eexists. split; [reflexivity|]. right. exists i, b. auto.
Qed.

(** A clamp leaves its bucket. *)
Lemma counted_leave T u se b v : counted (se :: T) u ->
  u_bucket u !! Z.to_nat (bucket_id se) = Some b ->
  let bs := <[Z.to_nat (bucket_id se) := mkBucket (b_value b) (b_tasks b - 1)]> (u_bucket u) in
  (T <> [] -> exists i b', bs !! i = Some b' /\ b_tasks b' <> 0 /\ v = b_value b' /\
     forall j b'', bs !! j = Some b'' -> b_tasks b'' <> 0 -> b_value b'' <= v) ->
  b_tasks b <> 0 /\ counted T (mkUrq v bs).
Proof.
  intros HT Hl bs Hmax. pose proof (ct_ok _ u HT) as Ho. inversion Ho as [|? ? Hse HoT]; subst.
  destruct (counted_bucket _ u se HT Hse) as (_ & _ & _ & Hi). set (i := Z.to_nat (bucket_id se)) in *.
  pose proof (ct_tasks _ u HT i b Hl) as Ht. rewrite count_cons, decide_True in Ht by lia.
  pose proof (count_nonneg T i). pose proof (lookup_lt_Some _ _ _ Hl) as Hlt.
  pose proof (insert_case (u_bucket u) i (mkBucket (b_value b) (b_tasks b - 1)) : forall j b', bs !! j = Some b' -> _) as Hcase.
  split; [lia|]. split; cbn [u_bucket u_value]; auto.
  - unfold bs. rewrite length_insert. apply (ct_len _ u HT).
  - intros j b' Hj. destruct (Hcase j b' Hj) as [[-> ->]|[Hne Hj']]; cbn [b_tasks]; [lia|].
    rewrite (ct_tasks _ u HT j b' Hj'), count_cons, decide_False by lia. lia.
  - intros j b' se' Hj Hin Hb. destruct (Hcase j b' Hj) as [[-> ->]|[Hne Hj']]; cbn [b_value].
    + apply (ct_bound _ u HT i b se' Hl); [right; exact Hin | exact Hb].
    + apply (ct_bound _ u HT j b' se' Hj'); [right; exact Hin | exact Hb].
  - intros j b' Hj Hb. destruct (Hcase j b' Hj) as [[-> ->]|[Hne Hj']].
    + apply (ct_in _ u HT i b Hl). lia.
    + apply (ct_in _ u HT j b' Hj' Hb).
Qed.

(** A bucket loses a clamp: what is in the buckets afterwards, and when the
    largest value stays. *)
Section Leave.
  Context (T : list uclamp_se) (u : uclamp_rq) (se : uclamp_se) (b : uclamp_bucket).
  Context (HT : counted (se :: T) u) (Hl : u_bucket u !! Z.to_nat (bucket_id se) = Some b).

#[local] Abbreviation i := (Z.to_nat (bucket_id se)).
#[local] Abbreviation bs := (<[i := mkBucket (b_value b) (b_tasks b - 1)]> (u_bucket u)).

Lemma leave_tasks : bucket_id se = Z.of_nat i /\ b_tasks b = count T i + 1.
Proof.
  pose proof (ct_ok _ u HT) as Ho. apply Forall_inv in Ho. destruct (counted_bucket _ u se HT Ho) as (_ & _ & _ & Hi).
  split; [lia|]. pose proof (ct_tasks _ u HT i b Hl) as Ht. rewrite count_cons, decide_True in Ht by lia. exact Ht.
Qed.

Lemma leave_lookup : bs !! i = Some (mkBucket (b_value b) (b_tasks b - 1)).
Proof. apply list_lookup_insert_eq. eapply lookup_lt_Some, Hl. Qed.

(** Full buckets were full before, with the same value. *)
Lemma leave_before j b' : bs !! j = Some b' -> b_tasks b' <> 0 ->
  exists b0, u_bucket u !! j = Some b0 /\ b_tasks b0 <> 0 /\ b_value b0 = b_value b'.
Proof.
  intros Hj Hb. destruct leave_tasks as [_ Ht]. pose proof (count_nonneg T i).
  apply insert_case in Hj as [[-> ->]|[_ Hj]]; [exists b; split; [exact Hl|]; split; [lia | reflexivity] | exists b'; auto].
Qed.

Lemma leave_le j b' : bs !! j = Some b' -> b_tasks b' <> 0 -> b_value b' <= u_value u.
Proof.
  intros Hj Hb. destruct (leave_before j b' Hj Hb) as (b0 & L & B & <-).
  destruct (ct_max _ u HT ltac:(discriminate)) as (_ & _ & _ & _ & _ & Hmax). exact (Hmax j b0 L B).
Qed.

Lemma leave_in j b' : bs !! j = Some b' -> b_tasks b' <> 0 -> uclamp_bucket_id (b_value b') = Z.of_nat j.
Proof. intros Hj Hb. destruct (leave_before j b' Hj Hb) as (b0 & L & B & <-). exact (ct_in _ u HT j b0 L B). Qed.

(** A full bucket whose value is the largest makes the rest counted. *)
Lemma leave_counted j b1 : bs !! j = Some b1 -> b_tasks b1 <> 0 ->
  (forall j' b2, bs !! j' = Some b2 -> b_tasks b2 <> 0 -> b_value b2 <= b_value b1) ->
  counted T (mkUrq (b_value b1) bs) /\ T <> [].
Proof.
  intros L B Hmax. destruct (counted_leave T u se b (b_value b1) HT Hl) as [_ Hc]; [intros _; exists j, b1; auto|].
  split; [exact Hc|]. intros ->. apply B. rewrite (ct_tasks [] _ Hc j b1 L). reflexivity.
Qed.

Lemma leave_keep : b_tasks b - 1 <> 0 \/ b_value b < u_value u -> counted T (mkUrq (u_value u) bs) /\ T <> [].
Proof.
  intros Hcase. destruct (ct_max _ u HT ltac:(discriminate)) as (i0 & b0 & L0 & B0 & V0 & _).
  assert (exists b1, bs !! i0 = Some b1 /\ b_tasks b1 <> 0 /\ b_value b1 = u_value u) as (b1 & L1 & B1 & V1).
  { destruct (decide (i0 = i)) as [->|Hne].
    - rewrite Hl in L0. injection L0 as <-. exists (mkBucket (b_value b) (b_tasks b - 1)). split; [exact leave_lookup|]. cbn. lia.
    - exists b0. rewrite list_lookup_insert_ne by congruence. auto. }
  rewrite <- V1. apply (leave_counted i0 b1 L1 B1). intros j' b2 L2 B2. rewrite V1. exact (leave_le j' b2 L2 B2).
Qed.

Lemma leave_full se' : se' ∈ T -> exists j b', bs !! j = Some b' /\ b_tasks b' <> 0.
Proof.
  intros Hin. pose proof (ct_ok _ _ HT) as Ho. rewrite Forall_forall in Ho.
  destruct leave_tasks as [Hi Ht]. destruct (counted_bucket _ u se' HT) as (b' & L & _ & Hi').
  { apply Ho. right. exact Hin. }
  destruct (decide (Z.to_nat (bucket_id se') = i)) as [E|E].
  - exists i, (mkBucket (b_value b) (b_tasks b - 1)). split; [exact leave_lookup|]. cbn. intros Hz.
    apply (proj1 (count_zero T i) ltac:(lia) se'); [exact Hin | lia].
  - exists (Z.to_nat (bucket_id se')), b'. rewrite list_lookup_insert_ne by congruence. split; [exact L|]. intros Hz.
    rewrite (ct_tasks _ u HT _ b' L) in Hz. apply (proj1 (count_zero _ _) Hz se'); [right; exact Hin | lia].
Qed.

Lemma leave_empty : (forall j b', bs !! j = Some b' -> b_tasks b' = 0) -> T = [].
Proof.
  intros Hzero. assert (forall se', se' ∉ T) as Hno.
  { intros se' Hin. destruct (leave_full se' Hin) as (j & b' & L & B). exact (B (Hzero j b' L)). }
  clear -Hno. destruct T as [|se' T']; [reflexivity|]. destruct (Hno se'). left.
Qed.

(** The last full bucket has the largest value. *)
Lemma leave_scan j b1 : bs !! j = Some b1 -> b_tasks b1 <> 0 ->
  (forall j' b2, bs !! j' = Some b2 -> (j < j')%nat -> b_tasks b2 = 0) -> counted T (mkUrq (b_value b1) bs) /\ T <> [].
Proof.
  intros L B Hup. apply (leave_counted j b1 L B). intros j' b2 L2 B2.
  destruct (decide (j' = j)) as [->|Hne]; [replace b2 with b1 by congruence; lia|].
  assert (j' < j)%nat by (destruct (decide (j < j')%nat) as [Hlt|]; [destruct (B2 (Hup j' b2 L2 Hlt)) | lia]).
  pose proof (leave_in j' b2 L2 B2). pose proof (leave_in j b1 L B).
  destruct (Z.le_gt_cases (b_value b2) (b_value b1)); [assumption|]. pose proof (bucket_id_mono (b_value b1) (b_value b2)). lia.
Qed.
End Leave.
End Steps.

Section Code.
  Context `{HeadersOk}.

#[local] Abbreviation N := UCLAMP_BUCKETS.

Lemma set_bucket_ok q id i b : 0 <= i < Z.of_nat (length (u_bucket (cget (urq q) id))) ->
  set_bucket q id i b = Ok (mkRq (cset (urq q) id (mkUrq (uclamp_rq_get q id)
    (<[Z.to_nat i := b]> (u_bucket (cget (urq q) id))))) (idle_flag q)).
Proof. intros Hi. unfold set_bucket. rewrite aset_ok_Z by exact Hi. reflexivity. Qed.

(** [q'] differs from [q] in clamp [id] only. *)
Definition same_other (id : uclamp_id) (q q' : rq) : Prop :=
  forall id', id' <> id -> cget (urq q') id' = cget (urq q) id'.

Lemma same_other_cset id q u f : same_other id q (mkRq (cset (urq q) id u) f).
Proof. intros id' Hne. cbn. apply cget_cset_ne. congruence. Qed.

Lemma inc_id_spec s q p id T : let se := set_active (uclamp_eff_get s p id) true in
  counted T (cget (urq q) id) -> se_ok se ->
  (T = [] -> idle_flag q = true \/ uclamp_rq_get q id <= value se) -> (T <> [] -> idle_flag q = false) ->
  exists q', uclamp_rq_inc_id s q p id = Ok (q', with_uclamp p (cset (uclamp p) id se)) /\
    counted (se :: T) (cget (urq q') id) /\ idle_flag q' = idle_flag q /\ same_other id q q'.
Proof.
  intros se HT Hse Hempty Hbusy. unfold uclamp_rq_inc_id. fold se.
  destruct (counted_bucket T _ se HT Hse) as (b & Hl & Hget & Hi). rewrite Hget. cbn [mbind res_bind].
  set (q1 := uclamp_idle_reset q id (value se)).
  assert (u_bucket (cget (urq q1) id) = u_bucket (cget (urq q) id) /\ idle_flag q1 = idle_flag q /\
    same_other id q q1 /\ uclamp_rq_get q1 id = if idle_flag q then value se else uclamp_rq_get q id)
    as (Hb1 & Hf1 & Hs1 & Hv1).
  { unfold q1, uclamp_idle_reset, uclamp_rq_set. destruct (idle_flag q) eqn:Ef; cbn [negb].
    - split; [cbn; rewrite cget_cset; reflexivity|]. split; [exact Ef || reflexivity|].
      split; [apply same_other_cset | unfold uclamp_rq_get; cbn; rewrite cget_cset; reflexivity].
    - split; [reflexivity|]. split; [exact Ef || reflexivity|]. split; [intros id' _; reflexivity | reflexivity]. }
  rewrite set_bucket_ok by (rewrite Hb1; pose proof (lookup_lt_Some _ _ _ Hl); lia).
  cbn [mbind res_bind]. rewrite Hb1, Hf1.
  fold (join_value b (value se)). set (v0 := uclamp_rq_get q1 id) in *.
  set (bs := <[Z.to_nat (bucket_id se) := _]> _). set (q2 := mkRq _ (idle_flag q)).
  assert (uclamp_rq_get q2 id = v0) as Hv2 by (unfold uclamp_rq_get, q2; cbn; rewrite cget_cset; reflexivity).
  rewrite Hv2. eexists. split; [reflexivity|].
  pose proof (counted_inc T _ se b v0 HT Hse Hl) as Hinc. fold bs in Hinc.
  assert (forall u, u = mkUrq (if v0 <? value se then value se else v0) bs -> counted (se :: T) u) as Hc.
  { intros u ->. apply Hinc; unfold uclamp_rq_get in Hv1.
    - intros E. rewrite Hv1. destruct (Hempty E) as [-> | Hle]; [lia|]. destruct (idle_flag q); [lia | exact Hle].
    - intros E. rewrite Hv1, (Hbusy E). reflexivity. }
  assert (same_other id q q2) as Hs2.
  { intros id' Hne. unfold q2. cbn. rewrite cget_cset_ne by congruence. apply Hs1, Hne. }
  destruct (v0 <? value se).
  - split; [apply Hc; unfold uclamp_rq_set, q2; cbn; rewrite !cget_cset; reflexivity|].
    split; [reflexivity|]. intros id' Hne. unfold uclamp_rq_set. cbn [urq].
    rewrite cget_cset_ne by congruence. apply Hs2, Hne.
  - split; [apply Hc; unfold q2; cbn; rewrite cget_cset; reflexivity|]. split; [reflexivity | exact Hs2].
Qed.

(** What a dequeue leaves when no clamp remains. *)
Definition drained (id : uclamp_id) (q : rq) : Prop :=
  match id with UCLAMP_MIN => uclamp_rq_get q id = 0 | UCLAMP_MAX => idle_flag q = true end.

Lemma dec_id_spec q p id T : let se := cget (uclamp p) id in
  counted (se :: T) (cget (urq q) id) -> active se = true ->
  exists q', uclamp_rq_dec_id q p id = Ok (q', with_uclamp p (cset (uclamp p) id (set_active se false))) /\
    counted T (cget (urq q') id) /\ same_other id q q' /\
    (T = [] -> drained id q') /\ (T <> [] \/ id = UCLAMP_MIN -> idle_flag q' = idle_flag q).
Proof.
  intros se HT Hact. unfold uclamp_rq_dec_id. fold se. rewrite Hact. cbn [negb].
  pose proof (ct_ok _ _ HT) as Ho. apply Forall_inv in Ho.
  destruct (counted_bucket _ _ se HT Ho) as (b & Hl & Hget & _). rewrite Hget. cbn [mbind res_bind].
  destruct (leave_tasks T _ se b HT Hl) as [Hi Ht]. pose proof (count_nonneg T (Z.to_nat (bucket_id se))).
  destruct (Z.eqb_spec (b_tasks b) 0) as [Hz|_]; [lia|].
  rewrite set_bucket_ok by (pose proof (lookup_lt_Some _ _ _ Hl); lia). cbn [mbind res_bind].
  pose proof (leave_keep T _ se b HT Hl) as Hkeep. pose proof (leave_empty T _ se b HT Hl) as Hempty.
  pose proof (leave_scan T _ se b HT Hl) as Hscan. pose proof (fun v => counted_leave T _ se b v HT Hl) as Hleave. cbv zeta in Hleave.
  set (u := cget (urq q) id) in *. set (bs := <[Z.to_nat (bucket_id se) := _]> (u_bucket u)) in *. set (q1 := mkRq _ (idle_flag q)).
  assert (cget (urq q1) id = mkUrq (u_value u) bs) as Hq1 by (unfold q1; cbn; apply cget_cset).
  assert (same_other id q q1) as Hs1 by apply same_other_cset.
  assert (b_tasks b - 1 <> 0 \/ b_value b < u_value u -> exists q', Ok (q1, with_uclamp p (cset (uclamp p) id (set_active se false))) =
    Ok (q', with_uclamp p (cset (uclamp p) id (set_active se false))) /\ counted T (cget (urq q') id) /\ same_other id q q' /\
    (T = [] -> drained id q') /\ (T <> [] \/ id = UCLAMP_MIN -> idle_flag q' = idle_flag q)) as Hstay.
  { intros Hcase. destruct (Hkeep Hcase) as [Hc Hne]. exists q1. rewrite Hq1. split; [reflexivity|]. split; [exact Hc|].
    split; [exact Hs1|]. split; [contradiction | reflexivity]. }
  destruct (Z.eqb_spec (b_tasks b - 1) 0) as [Ez|Ez]; cbn [negb]; [|apply Hstay; auto].
  unfold uclamp_rq_get at 1. rewrite Hq1. cbn [u_value]. destruct (Z.leb_spec (u_value u) (b_value b)) as [Hle|Hgt]; [|apply Hstay; auto].
  destruct (max_value_scan q1 id (value se)) as (r & Er & Hr).
  { rewrite Hq1. cbn. unfold bs. rewrite length_insert. apply (ct_len _ u HT). }
  rewrite Hq1 in Hr. cbn [u_bucket] in Hr. rewrite Er. cbn [mbind res_bind].
  assert (forall q2 v, cget (urq q2) id = cget (urq q1) id -> same_other id q q2 -> counted T (mkUrq v bs) ->
    counted T (cget (urq (uclamp_rq_set q2 id v)) id) /\ same_other id q (uclamp_rq_set q2 id v)) as Hset.
  { intros q2 v E2 Hs2 Hc. unfold uclamp_rq_set. split; [cbn [urq]; rewrite cget_cset, E2, Hq1; exact Hc|].
    intros id' Hne. cbn [urq]. rewrite cget_cset_ne by congruence. apply Hs2, Hne. }
  destruct Hr as [[Hzero ->]|(j & b1 & L1 & B1 & -> & Hup)].
  - pose proof (Hempty Hzero) as ->. assert (forall v, counted [] (mkUrq v bs)) as Hany by (intros v; apply Hleave; contradiction).
    destruct id; cbn [uclamp_idle_value mbind res_bind]; eexists; (split; [reflexivity|]).
    + destruct (Hset q1 (uclamp_none UCLAMP_MIN) eq_refl Hs1 (Hany _)) as [Hc Hs]. split; [exact Hc|]. split; [exact Hs|]. split; [|reflexivity].
      intros _. unfold drained, uclamp_rq_get, uclamp_rq_set. cbn [urq]. rewrite cget_cset. reflexivity.
    + destruct (Hset (with_flag q1 true) (value se) eq_refl Hs1 (Hany _)) as [Hc Hs]. split; [exact Hc|]. split; [exact Hs|].
      split; [reflexivity | intros [Hne|Hne]; [contradiction | discriminate]].
  - destruct (Hscan j b1 L1 B1 Hup) as [Hc Hne]. destruct (Hset q1 (b_value b1) eq_refl Hs1 Hc) as [Hc' Hs].
    eexists. split; [reflexivity|]. split; [exact Hc'|]. split; [exact Hs|]. split; [contradiction | reflexivity].
Qed.
End Code.

(** * A run queue over time *)

Record ustate := mkUstate { u_rq : rq; u_tasks : list utask }.

Section System.
  Context `{HeadersOk}.

(** The clamps that are counted on the run queue. *)
Definition act1 (id : uclamp_id) (p : utask) : list uclamp_se :=
  if active (cget (uclamp p) id) then [cget (uclamp p) id] else [].

Definition actives (id : uclamp_id) (ts : list utask) : list uclamp_se := ts ≫= act1 id.

Definition req_ok (p : utask) : Prop :=
  se_ok (c_min (uclamp_req p)) /\ se_ok (c_max (uclamp_req p)) /\
  match group p with
  | Some (lo, hi) => 0 <= lo <= SCHED_CAPACITY_SCALE /\ 0 <= hi <= SCHED_CAPACITY_SCALE
  | None => True
  end.

Definition sys_ok (s : usys) : Prop := se_ok (c_min (uclamp_default s)) /\ se_ok (c_max (uclamp_default s)).

(** What happens to the tasks of a run queue: they are enqueued and dequeued, and
    their requests and groups change, with or without an update of the buckets;
    the system settings may be others at each step. *)
Inductive ustep : ustate -> ustate -> Prop :=
  | us_enqueue s q ts i p q' p' : sys_ok s -> ts !! i = Some p ->
      active (c_min (uclamp p)) = false -> active (c_max (uclamp p)) = false ->
      uclamp_rq_inc s q p = Ok (q', p') -> ustep (mkUstate q ts) (mkUstate q' (<[i := p']> ts))
  | us_dequeue s q ts i p q' p' : ts !! i = Some p -> uclamp_rq_dec s q p = Ok (q', p') ->
      ustep (mkUstate q ts) (mkUstate q' (<[i := p']> ts))
  | us_update s q ts i p q' p' : sys_ok s -> ts !! i = Some p ->
      uclamp_update_active s q p = Ok (q', p') -> ustep (mkUstate q ts) (mkUstate q' (<[i := p']> ts))
  | us_request q ts i p p' : ts !! i = Some p -> uclamp p' = uclamp p -> req_ok p' ->
      ustep (mkUstate q ts) (mkUstate q (<[i := p']> ts)).

Record uinv (q : rq) (ts : list utask) : Prop := {
  ui_counted id : counted (actives id ts) (cget (urq q) id);
  ui_same : Forall (fun p => active (c_min (uclamp p)) = active (c_max (uclamp p))) ts;
  ui_idle : idle_flag q = true <-> actives UCLAMP_MAX ts = [];
  ui_min : actives UCLAMP_MIN ts = [] -> uclamp_rq_get q UCLAMP_MIN = 0;
  ui_req : Forall req_ok ts
}.

Lemma eff_get_ok s p id : sys_ok s -> req_ok p -> se_ok (uclamp_eff_get s p id).
Proof.
  intros [D1 D2] (R1 & R2 & Hg). unfold uclamp_eff_get.
  assert (se_ok (cget (uclamp_default s) id)) as Hd by (destruct id; assumption).
  assert (se_ok (cget (uclamp_req p) id)) as Hr by (destruct id; assumption).
  destruct (value (cget (uclamp_default s) id) <? _); [exact Hd|].
  unfold uclamp_tg_restrict. destruct (group p) as [[lo hi]|]; [|exact Hr].
  apply se_set_ok. destruct Hr as [Hr _]. unfold clamp. lia.
Qed.

Lemma actives_perm id ts ts' : ts ≡ₚ ts' -> actives id ts ≡ₚ actives id ts'.
Proof. intros E. unfold actives. rewrite E. reflexivity. Qed.

(** The tasks but one. *)
Lemma actives_split ts i p : ts !! i = Some p -> exists rest, ts ≡ₚ p :: rest /\
  (forall id, actives id ts ≡ₚ act1 id p ++ actives id rest) /\
  forall p' id, actives id (<[i := p']> ts) ≡ₚ act1 id p' ++ actives id rest.
Proof.
  intros Hi. exists (delete i ts). pose proof (delete_Permutation ts i p Hi) as E. split; [exact E|].
  split; [intros id; exact (actives_perm id ts (p :: delete i ts) E)|].
  intros p' id. apply (actives_perm id _ (p' :: delete i ts)). apply (insert_Permutation ts (delete i ts) i p' p Hi E).
Qed.

Lemma actives_empty ts : Forall (fun p => active (c_min (uclamp p)) = active (c_max (uclamp p))) ts ->
  actives UCLAMP_MIN ts = [] <-> actives UCLAMP_MAX ts = [].
Proof.
  induction 1 as [|p ts Hp _ IH]; [reflexivity|]. cbn. unfold act1 at 1 3. cbn [cget]. rewrite Hp.
  destruct (active (c_max (uclamp p))); [split; discriminate | exact IH].
Qed.

Lemma perm_nil {A} (l l' : list A) : l ≡ₚ l' -> l = [] <-> l' = [].
Proof. intros E. split; intros ->; [apply Permutation_nil_l in E | apply Permutation_nil_r in E]; auto. Qed.

(** The state of the other tasks and of the queue, around task [p]. *)
Record around (q : rq) (rest : list utask) (p : utask) : Prop := {
  ar_counted id : counted (act1 id p ++ actives id rest) (cget (urq q) id);
  ar_same : active (c_min (uclamp p)) = active (c_max (uclamp p));
  ar_rest : actives UCLAMP_MIN rest = [] <-> actives UCLAMP_MAX rest = [];
  ar_idle : idle_flag q = true <-> act1 UCLAMP_MAX p ++ actives UCLAMP_MAX rest = [];
  ar_min : act1 UCLAMP_MIN p ++ actives UCLAMP_MIN rest = [] -> uclamp_rq_get q UCLAMP_MIN = 0
}.

Lemma uinv_around q ts i p : uinv q ts -> ts !! i = Some p -> exists rest,
  around q rest p /\ req_ok p /\
  forall q' p', around q' rest p' -> req_ok p' -> uinv q' (<[i := p']> ts).
Proof.
  intros [Hc Hs Hi Hm Hr] Hp. destruct (actives_split ts i p Hp) as (rest & E & Ets & Eins).
  exists rest. pose proof Hs as Hs'. rewrite E in Hs'. inversion Hs' as [|? ? Hsp Hsr]; subst.
  split; [|split; [exact (Forall_lookup_1 _ _ _ _ Hr Hp)|]].
  - split; [intros id; apply (counted_perm _ _ _ (Ets id)), Hc | exact Hsp | apply actives_empty, Hsr | |].
    + rewrite Hi. apply perm_nil, Ets.
    + intros E0. apply Hm, (perm_nil _ _ (Ets UCLAMP_MIN)), E0.
  - intros q' p' [Ac As Ar Ai Am] Hp'. split.
    + intros id. apply (counted_perm _ _ _ (symmetry (Eins p' id))), Ac.
    + apply Forall_insert; assumption.
    + rewrite Ai. symmetry. apply perm_nil, Eins.
    + intros E0. apply Am, (perm_nil _ _ (Eins p' UCLAMP_MIN)), E0.
    + apply Forall_insert; assumption.
Qed.

Lemma act1_on id p se : active (set_active se true) = true -> 
  act1 id (with_uclamp p (cset (uclamp p) id (set_active se true))) = [set_active se true].
Proof. intros _. unfold act1. cbn [uclamp with_uclamp]. rewrite cget_cset. reflexivity. Qed.

Lemma inc_ok s q rest p : sys_ok s -> req_ok p -> around q rest p ->
  active (c_min (uclamp p)) = false -> exists q' p', uclamp_rq_inc s q p = Ok (q', p') /\
  around q' rest p' /\ req_ok p'.
Proof.
  intros Hs Hr Ha Hoff. unfold uclamp_rq_inc. destruct (uclamp_used s); cbn [negb]; [|eauto].
  destruct (class_uclamp p); cbn [negb]; [|eauto]. destruct Ha as [Hc Hsame Hrest Hidle Hmin].
  assert (act1 UCLAMP_MIN p = [] /\ act1 UCLAMP_MAX p = []) as [A1 A2].
  { unfold act1. cbn [cget]. rewrite <- Hsame, Hoff. auto. }
  pose proof (Hc UCLAMP_MIN) as C1. pose proof (Hc UCLAMP_MAX) as C2. rewrite A1 in C1, Hmin. rewrite A2 in C2, Hidle.
  cbn [app] in C1, C2, Hidle, Hmin.
  destruct (inc_id_spec s q p UCLAMP_MIN (actives UCLAMP_MIN rest)) as (q1 & -> & C1' & F1 & O1).
  { exact C1. } { apply eff_get_ok; assumption. }
  { intros E. right. rewrite (Hmin E). apply (eff_get_ok s p UCLAMP_MIN Hs Hr). }
  { intros E. destruct (idle_flag q); [|reflexivity]. exfalso. apply E, Hrest, Hidle. reflexivity. }
  cbn [mbind res_bind]. set (p1 := with_uclamp p _).
  destruct (inc_id_spec s q1 p1 UCLAMP_MAX (actives UCLAMP_MAX rest)) as (q2 & -> & C2' & F2 & O2).
  { rewrite O1 by discriminate. exact C2. } { exact (eff_get_ok s p UCLAMP_MAX Hs Hr). }
  { intros E. left. rewrite F1. apply Hidle, E. }
  { intros E. rewrite F1. destruct (idle_flag q); [|reflexivity]. exfalso. apply E, Hidle. reflexivity. }
  cbn [mbind res_bind]. eexists _, _. split; [reflexivity|]. split; [|exact Hr].
  assert (forall q3, urq q3 = urq q2 -> idle_flag q3 = false -> around q3 rest
    (with_uclamp p1 (cset (uclamp p1) UCLAMP_MAX (set_active (uclamp_eff_get s p1 UCLAMP_MAX) true)))) as Hfin.
  { intros q3 Eq Ef. split.
    - intros id. rewrite Eq. destruct id; [|exact C2']. rewrite O2 by discriminate. exact C1'.
    - reflexivity.
    - exact Hrest.
    - rewrite Ef. split; discriminate.
    - discriminate. }
  destruct (idle_flag q2) eqn:Ef; [apply Hfin; reflexivity | apply Hfin; [reflexivity | exact Ef]].
Qed.

Lemma act1_active id p : active (cget (uclamp p) id) = true -> act1 id p = [cget (uclamp p) id].
Proof. intros Ha. unfold act1. rewrite Ha. reflexivity. Qed.

Lemma dec_id_off q p id : active (cget (uclamp p) id) = false -> uclamp_rq_dec_id q p id = Ok (q, p).
Proof. intros Ha. unfold uclamp_rq_dec_id. rewrite Ha. reflexivity. Qed.

Lemma dec_ok s q rest p : req_ok p -> around q rest p -> exists q' p', uclamp_rq_dec s q p = Ok (q', p') /\
  around q' rest p' /\ req_ok p'.
Proof.
  intros Hr Ha. unfold uclamp_rq_dec. destruct (uclamp_used s); cbn [negb]; [|eauto].
  destruct (class_uclamp p); cbn [negb]; [|eauto]. destruct Ha as [Hc Hsame Hrest Hidle Hmin].
  destruct (active (c_min (uclamp p))) eqn:Hon.
  2: { rewrite (dec_id_off q p UCLAMP_MIN Hon). cbn [mbind res_bind].
       rewrite (dec_id_off q p UCLAMP_MAX) by (symmetry; exact Hsame).
       exists q, p. split; [reflexivity|]. split; [split; rewrite ?Hon; assumption | exact Hr]. }
  pose proof (Hc UCLAMP_MIN) as C1. pose proof (Hc UCLAMP_MAX) as C2.
  rewrite (act1_active UCLAMP_MIN p) in C1 by exact Hon.
  rewrite (act1_active UCLAMP_MAX p) in C2, Hidle by (symmetry; exact Hsame). cbn [app] in C1, C2, Hidle.
  assert (idle_flag q = false) as Hf by (destruct (idle_flag q); [destruct Hidle as [Hx _]; discriminate (Hx eq_refl) | reflexivity]).
  destruct (dec_id_spec q p UCLAMP_MIN (actives UCLAMP_MIN rest) C1 Hon) as (q1 & -> & C1' & O1 & D1 & F1).
  cbn [mbind res_bind]. set (p1 := with_uclamp p _).
  destruct (dec_id_spec q1 p1 UCLAMP_MAX (actives UCLAMP_MAX rest)) as (q2 & -> & C2' & O2 & D2 & F2).
  { rewrite O1 by discriminate. exact C2. } { symmetry. exact Hsame. }
  eexists _, _. split; [reflexivity|]. split; [|exact Hr]. split.
  - intros id. destruct id; [|exact C2']. rewrite O2 by discriminate. exact C1'.
  - reflexivity.
  - exact Hrest.
  - change (act1 UCLAMP_MAX _) with (@nil uclamp_se). cbn [app]. split; [|exact D2].
    intros E. destruct (decide (actives UCLAMP_MAX rest = [])) as [|Hne]; [assumption|].
    rewrite F2, F1, Hf in E by auto. discriminate.
  - change (act1 UCLAMP_MIN _) with (@nil uclamp_se). cbn [app]. intros E.
    unfold uclamp_rq_get. rewrite O2 by discriminate. exact (D1 E).
Qed.
End System.

Section Reachable.
  Context `{HeadersOk}.

Lemma reinc_off s q p id : active (cget (uclamp p) id) = false -> uclamp_rq_reinc_id s q p id = Ok (q, p).
Proof. intros Ha. unfold uclamp_rq_reinc_id. rewrite Ha. reflexivity. Qed.

(** An update takes the old clamp out and puts the new one in. *)
Lemma reinc_spec s q p id T : sys_ok s -> req_ok p -> active (cget (uclamp p) id) = true ->
  counted (cget (uclamp p) id :: T) (cget (urq q) id) -> idle_flag q = false ->
  exists q', uclamp_rq_reinc_id s q p id =
      Ok (q', with_uclamp p (cset (uclamp p) id (set_active (uclamp_eff_get s p id) true))) /\
    counted (set_active (uclamp_eff_get s p id) true :: T) (cget (urq q') id) /\
    idle_flag q' = false /\ same_other id q q'.
Proof.
  intros Hs Hr Hon Hc Hf. unfold uclamp_rq_reinc_id. rewrite Hon. cbn [negb].
  destruct (dec_id_spec q p id T Hc Hon) as (q1 & -> & C1 & O1 & D1 & F1). cbn [mbind res_bind].
  set (p1 := with_uclamp p _).
  assert (uclamp_eff_get s p1 id = uclamp_eff_get s p id) as Ee by reflexivity.
  pose proof (eff_get_ok s p id Hs Hr) as Hse.
  destruct (inc_id_spec s q1 p1 id T) as (q2 & E2 & C2 & F2 & O2).
  - exact C1.
  - rewrite Ee. exact Hse.
  - intros E. destruct id; [right | left; exact (D1 E)].
    unfold drained in D1. rewrite (D1 E), Ee. apply Hse.
  - intros E. rewrite F1, Hf by auto. reflexivity.
  - rewrite E2. cbn [mbind res_bind]. rewrite Ee in *.
    assert (with_uclamp p1 (cset (uclamp p1) id (set_active (uclamp_eff_get s p id) true)) =
      with_uclamp p (cset (uclamp p) id (set_active (uclamp_eff_get s p id) true))) as -> by (destruct id; reflexivity).
    assert (same_other id q q2) as O by (intros id' Hne; rewrite (O2 id' Hne); apply O1, Hne).
    eexists. split; [reflexivity|]. destruct id.
    + rewrite bool_decide_false by discriminate. cbn [andb]. split; [exact C2|]. split; [|exact O].
      rewrite F2, F1 by auto. exact Hf.
    + rewrite bool_decide_true by reflexivity. cbn [andb].
      destruct (idle_flag q2) eqn:Ef; (split; [exact C2 | split; [exact Ef || reflexivity | exact O]]).
Qed.

Lemma update_ok s q rest p : sys_ok s -> req_ok p -> around q rest p ->
  exists q' p', uclamp_update_active s q p = Ok (q', p') /\ around q' rest p' /\ req_ok p'.
Proof.
  intros Hs Hr [Hc Hsame Hrest Hidle Hmin]. unfold uclamp_update_active.
  destruct (active (c_min (uclamp p))) eqn:Hon.
  2: { rewrite (reinc_off s q p UCLAMP_MIN Hon). cbn [mbind res_bind].
       rewrite (reinc_off s q p UCLAMP_MAX) by (symmetry; exact Hsame).
       exists q, p. split; [reflexivity|]. split; [split; rewrite ?Hon; assumption | exact Hr]. }
  pose proof (Hc UCLAMP_MIN) as C1. pose proof (Hc UCLAMP_MAX) as C2.
  rewrite (act1_active UCLAMP_MIN p) in C1 by exact Hon.
  rewrite (act1_active UCLAMP_MAX p) in C2, Hidle by (symmetry; exact Hsame). cbn [app] in C1, C2, Hidle.
  assert (idle_flag q = false) as Hf by (destruct (idle_flag q); [destruct Hidle as [Hx _]; discriminate (Hx eq_refl) | reflexivity]).
  destruct (reinc_spec s q p UCLAMP_MIN _ Hs Hr Hon C1 Hf) as (q1 & -> & C1' & F1 & O1). cbn [mbind res_bind].
  set (p1 := with_uclamp p _).
  destruct (reinc_spec s q1 p1 UCLAMP_MAX (actives UCLAMP_MAX rest)) as (q2 & -> & C2' & F2 & O2);
    [exact Hs | exact Hr | symmetry; exact Hsame | rewrite O1 by discriminate; exact C2 | exact F1 |].
  eexists _, _. split; [reflexivity|]. split; [|exact Hr]. split.
  - intros id. destruct id; [|exact C2']. rewrite O2 by discriminate. exact C1'.
  - reflexivity.
  - exact Hrest.
  - rewrite F2. split; discriminate.
  - discriminate.
Qed.

Lemma ustep_inv st st' : ustep st st' -> uinv (u_rq st) (u_tasks st) -> uinv (u_rq st') (u_tasks st').
Proof.
  intros Hstep Hinv.
  destruct Hstep as [s q ts i p q' p' Hs Hp Hm1 Hm2 E|s q ts i p q' p' Hp E|s q ts i p q' p' Hs Hp E|q ts i p p' Hp Hu Hr'];
    cbn [u_rq u_tasks] in *; destruct (uinv_around q ts i p Hinv Hp) as (rest & Ha & Hr & Hback).
  - destruct (inc_ok s q rest p Hs Hr Ha Hm1) as (q1 & p1 & E1 & Ha1 & Hr1).
    rewrite E in E1. injection E1 as <- <-. auto.
  - destruct (dec_ok s q rest p Hr Ha) as (q1 & p1 & E1 & Ha1 & Hr1).
    rewrite E in E1. injection E1 as <- <-. auto.
  - destruct (update_ok s q rest p Hs Hr Ha) as (q1 & p1 & E1 & Ha1 & Hr1).
    rewrite E in E1. injection E1 as <- <-. auto.
  - apply Hback; [|exact Hr']. destruct Ha as [Hc Hsame Hrest Hidle Hmin].
    assert (forall id, act1 id p' = act1 id p) as Eact by (intros id; unfold act1; rewrite Hu; reflexivity).
    split; [intros id; rewrite Eact; apply Hc | rewrite Hu; exact Hsame | exact Hrest | |]; rewrite Eact; assumption.
Qed.

(** A task that is on no run queue. *)
Definition off_queue (p : utask) : Prop :=
  active (c_min (uclamp p)) = false /\ active (c_max (uclamp p)) = false /\ req_ok p.

Lemma init_inv ts : Forall off_queue ts -> uinv init_uclamp_rq ts.
Proof.
  intros Hts. assert (forall id, actives id ts = []) as Hnil.
  { intros id. induction Hts as [|p ts (H1 & H2 & _) _ IH]; [reflexivity|]. unfold actives in *. cbn.
    rewrite IH. unfold act1. destruct id; cbn [cget]; rewrite ?H1, ?H2; reflexivity. }
  pose proof buckets as HN. split.
  - intros id. rewrite Hnil.
    assert (u_bucket (cget (urq init_uclamp_rq) id) = replicate (Z.to_nat UCLAMP_BUCKETS) (mkBucket 0 0)) as Eb by (destruct id; reflexivity).
    split; [rewrite Eb, length_replicate; lia | constructor | | | | congruence]; rewrite Eb.
    + intros i b Hl. apply lookup_replicate in Hl as [-> _]. reflexivity.
    + intros i b se _ Hin. apply not_elem_of_nil in Hin. contradiction.
    + intros i b Hl Hne. apply lookup_replicate in Hl as [-> _]. contradiction Hne. reflexivity.
  - eapply Forall_impl; [exact Hts|]. intros p (H1 & H2 & _). congruence.
  - split; [intros _; apply Hnil | reflexivity].
  - intros _. reflexivity.
  - eapply Forall_impl; [exact Hts|]. intros p (_ & _ & H1). exact H1.
Qed.

Lemma reach_inv ts st : Forall off_queue ts -> rtc ustep (mkUstate init_uclamp_rq ts) st ->
  uinv (u_rq st) (u_tasks st).
Proof.
  intros Hts Hr. remember (mkUstate init_uclamp_rq ts) as st0 eqn:E0.
  assert (uinv (u_rq st0) (u_tasks st0)) as Hi by (subst; apply init_inv, Hts). clear E0 Hts.
  induction Hr as [|st0 st1 st2 Hstep _ IH]; [exact Hi|]. apply IH, (ustep_inv st0 st1 Hstep Hi).
Qed.




(** In every reachable state the operations run to their end: no bucket index
    is out of range, and an enqueued task is always found in its bucket. *)
Theorem uclamp_safe ts st s i p :
  Forall off_queue ts -> rtc ustep (mkUstate init_uclamp_rq ts) st -> sys_ok s -> u_tasks st !! i = Some p ->
  (active (c_min (uclamp p)) = false -> exists r, uclamp_rq_inc s (u_rq st) p = Ok r) /\
  (exists r, uclamp_rq_dec s (u_rq st) p = Ok r) /\
  (exists r, uclamp_update_active s (u_rq st) p = Ok r).
Proof.
  intros Hts Hr Hs Hp. destruct (uinv_around _ _ i p (reach_inv ts st Hts Hr) Hp) as (rest & Ha & Hrq & _).
  split; [|split].
  - intros Hoff. destruct (inc_ok s _ rest p Hs Hrq Ha Hoff) as (q' & p' & E & _). eauto.
  - destruct (dec_ok s _ rest p Hrq Ha) as (q' & p' & E & _). eauto.
  - destruct (update_ok s _ rest p Hs Hrq Ha) as (q' & p' & E & _). eauto.
Qed.
End Reachable.

(** * Witnesses and the missing check *)

Definition sample_task (lo : Z) : utask :=
  mkUtask (mkClamps (uclamp_se_set (mkSe 0 0 false false) lo true) (uclamp_se_set (mkSe 0 0 false false) 1024 true))
    (mkClamps (mkSe 0 0 false false) (mkSe 0 0 false false)) None true false false.

Definition sample_sys : usys :=
  mkUsys 1024 1024 1024 (mkClamps (uclamp_se_set (mkSe 0 0 false false) 1024 false)
    (uclamp_se_set (mkSe 0 0 false false) 1024 false)) true.

Lemma sample_off lo : 0 <= lo <= 1024 -> off_queue (sample_task lo).
Proof.
  intros Hlo. split; [reflexivity|]. split; [reflexivity|]. split; [apply (se_set_ok (mkSe 0 0 false false) lo true), Hlo|].
  split; [apply (se_set_ok (mkSe 0 0 false false) 1024 true); split; discriminate | exact I].
Qed.

Lemma sample_sys_ok : sys_ok sample_sys.
Proof. split; apply (se_set_ok (mkSe 0 0 false false) 1024 false); split; discriminate. Qed.

(** The states after one and after two tasks were enqueued. *)
Definition enqueued (r : res (rq * utask)) : rq * utask :=
  match r with Ok x => x | _ => (init_uclamp_rq, sample_task 0) end.

Definition sample_one : rq * utask :=
  Eval vm_compute in enqueued (uclamp_rq_inc sample_sys init_uclamp_rq (sample_task 600)).

Definition sample_two : rq * utask :=
  Eval vm_compute in enqueued (uclamp_rq_inc sample_sys (fst sample_one) (sample_task 300)).

Definition sample_state : ustate := mkUstate (fst sample_two) [snd sample_one; snd sample_two].

Lemma sample_reachable :
  rtc ustep (mkUstate init_uclamp_rq [sample_task 600; sample_task 300]) sample_state.
Proof.
  apply (rtc_l _ _ (mkUstate (fst sample_one) [snd sample_one; sample_task 300])).
  - apply (us_enqueue sample_sys init_uclamp_rq [sample_task 600; sample_task 300] 0 (sample_task 600));
      [apply sample_sys_ok | reflexivity | reflexivity | reflexivity | vm_compute; reflexivity].
  - apply rtc_once.
    apply (us_enqueue sample_sys (fst sample_one) [snd sample_one; sample_task 300] 1 (sample_task 300));
      [apply sample_sys_ok | reflexivity | reflexivity | reflexivity | vm_compute; reflexivity].
Qed.

Lemma sample_fresh : Forall off_queue [sample_task 600; sample_task 300].
Proof. constructor; [apply sample_off; lia | constructor; [apply sample_off; lia | constructor]]. Qed.


Lemma uclamp_safe_witness :
  exists r, uclamp_rq_dec sample_sys (u_rq sample_state) (snd sample_one) = Ok r.
Proof.
  apply (uclamp_safe [sample_task 600; sample_task 300] sample_state sample_sys 0 (snd sample_one)).
  - exact sample_fresh.
  - exact sample_reachable.
  - exact sample_sys_ok.
  - reflexivity.
Defined.

(** A request of [lo] for the lower clamp through [sched_setattr]. *)
Definition ask_min (lo : Z) : sched_attr :=
  mkAttr 0 (mkFlags false false false true false false false) 0 0 lo 0.

(** The range check of [uclamp_validate] is signed, so a lower clamp of
    2^32 - 2048 passes it; its 11-bit value is 0 but its bucket is the last one.
    With a task that asked so next to a task that asked for 600, the departure of
    a third task resets the clamp of the run queue to 0, below the running
    task's 600. *)
Theorem uclamp_validate_hole :
  fst (uclamp_validate sample_sys (sample_task 0) (ask_min (2 ^ 32 - 2048))) = 0 /\
  let bad := __setscheduler_uclamp sample_sys (sample_task 0) (ask_min (2 ^ 32 - 2048)) in
  (value (c_min (uclamp_req bad)) = 0 /\ bucket_id (c_min (uclamp_req bad)) = 4) /\
  (r ← uclamp_rq_inc sample_sys init_uclamp_rq (sample_task 600);
   r2 ← uclamp_rq_inc sample_sys (fst r) bad;
   r3 ← uclamp_rq_inc sample_sys (fst r2) (sample_task 700);
   r4 ← uclamp_rq_dec sample_sys (fst r3) (snd r3);
   mret (uclamp_rq_get (fst r3) UCLAMP_MIN, uclamp_rq_get (fst r4) UCLAMP_MIN)) = Ok (700, 0).
Proof. vm_compute. repeat split. Qed.
