(* ===== verification/Priority.v ===== *)
(** Priorities in src/3/20193018_PLUS-1/core.c: how policy, nice value and
    real-time priority of a task give the number the scheduler compares, the
    order of tasks for core scheduling, the load weights of nice values, and the
    functions that change the nice value or boost a task. *)

From S2P Require Import Prelude KHeaders.
Local Open Scope Z_scope.

Inductive SchedClass := stop_sched_class | dl_sched_class | rt_sched_class | fair_sched_class | idle_sched_class.

#[export] Instance SchedClass_eq : EqDecision SchedClass.
Proof. solve_decision. Defined.

(** The fields of a task this component reads or writes. [dl_pi_se] is [None]
    when [dl.pi_se] points to the task's own entity, else the donor it comes
    from; [pi_top_task] is the donor, as its number. *)
Record Task := mkTask {
  policy : Z;
  static_prio : Z;
  normal_prio : Z;
  prio : Z;
  rt_priority : Z;
  sched_class : SchedClass;
  sched_reset_on_fork : bool;
  weight : Z;
  inv_weight : Z;
  pi_top_task : option Z;
  dl_pi_se : option Z;
  rt_timeout : Z
}.

(** Assignments to a field. *)
Definition with_policy (p : Task) (v : Z) : Task :=
  mkTask v (static_prio p) (normal_prio p) (prio p) (rt_priority p) (sched_class p) (sched_reset_on_fork p) (weight p) (inv_weight p) (pi_top_task p) (dl_pi_se p) (rt_timeout p).
Definition with_static (p : Task) (v : Z) : Task :=
  mkTask (policy p) v (normal_prio p) (prio p) (rt_priority p) (sched_class p) (sched_reset_on_fork p) (weight p) (inv_weight p) (pi_top_task p) (dl_pi_se p) (rt_timeout p).
Definition with_normal (p : Task) (v : Z) : Task :=
  mkTask (policy p) (static_prio p) v (prio p) (rt_priority p) (sched_class p) (sched_reset_on_fork p) (weight p) (inv_weight p) (pi_top_task p) (dl_pi_se p) (rt_timeout p).
Definition with_prio (p : Task) (v : Z) : Task :=
  mkTask (policy p) (static_prio p) (normal_prio p) v (rt_priority p) (sched_class p) (sched_reset_on_fork p) (weight p) (inv_weight p) (pi_top_task p) (dl_pi_se p) (rt_timeout p).
Definition with_rt (p : Task) (v : Z) : Task :=
  mkTask (policy p) (static_prio p) (normal_prio p) (prio p) v (sched_class p) (sched_reset_on_fork p) (weight p) (inv_weight p) (pi_top_task p) (dl_pi_se p) (rt_timeout p).
Definition with_class (p : Task) (v : SchedClass) : Task :=
  mkTask (policy p) (static_prio p) (normal_prio p) (prio p) (rt_priority p) v (sched_reset_on_fork p) (weight p) (inv_weight p) (pi_top_task p) (dl_pi_se p) (rt_timeout p).
Definition with_reset (p : Task) (v : bool) : Task :=
  mkTask (policy p) (static_prio p) (normal_prio p) (prio p) (rt_priority p) (sched_class p) v (weight p) (inv_weight p) (pi_top_task p) (dl_pi_se p) (rt_timeout p).
Definition with_pi_top (p : Task) (v : option Z) : Task :=
  mkTask (policy p) (static_prio p) (normal_prio p) (prio p) (rt_priority p) (sched_class p) (sched_reset_on_fork p) (weight p) (inv_weight p) v (dl_pi_se p) (rt_timeout p).
Definition with_dl_pi (p : Task) (v : option Z) : Task :=
  mkTask (policy p) (static_prio p) (normal_prio p) (prio p) (rt_priority p) (sched_class p) (sched_reset_on_fork p) (weight p) (inv_weight p) (pi_top_task p) v (rt_timeout p).
Definition with_timeout (p : Task) (v : Z) : Task :=
  mkTask (policy p) (static_prio p) (normal_prio p) (prio p) (rt_priority p) (sched_class p) (sched_reset_on_fork p) (weight p) (inv_weight p) (pi_top_task p) (dl_pi_se p) v.
Definition with_load (p : Task) (w iw : Z) : Task :=
  mkTask (policy p) (static_prio p) (normal_prio p) (prio p) (rt_priority p) (sched_class p) (sched_reset_on_fork p) w iw (pi_top_task p) (dl_pi_se p) (rt_timeout p).

(** The calls into the scheduling classes, in order. [Dequeue] and [Enqueue] are
    [dequeue_task] and [enqueue_task]; both keep the task's state
    ([DEQUEUE_SAVE], [ENQUEUE_RESTORE]), so only the other flags are shown. *)
Inductive Ev :=
  | Dequeue (c : SchedClass) (move : bool)
  | PutPrev (c : SchedClass)
  | Enqueue (c : SchedClass) (head replenish : bool)
  | SetNext (c : SchedClass)
  | SwitchedFrom (c : SchedClass)
  | SwitchedTo (c : SchedClass)
  | PrioChanged (c : SchedClass) (oldprio : Z).

(** Where the task is when its run queue is locked: queued, current, the idle
    task, the stop task. *)
Record Place := mkPlace { queued : bool; running : bool; is_idle : bool; is_stop : bool }.

Definition sched_prio_to_weight : list Z :=
  [
   88761; 71755; 56483; 46273; 36291;
   29154; 23254; 18705; 14949; 11916;
   9548; 7620; 6100; 4904; 3906;
   3121; 2501; 1991; 1586; 1277;
   1024; 820; 655; 526; 423;
   335; 272; 215; 172; 137;
   110; 87; 70; 56; 45;
   36; 29; 23; 18; 15
  ].

Definition sched_prio_to_wmult : list Z :=
  [
   48388; 59856; 76040; 92818; 118348;
   147320; 184698; 229616; 287308; 360437;
   449829; 563644; 704093; 875809; 1099582;
   1376151; 1717300; 2157191; 2708050; 3363326;
   4194304; 5237765; 6557202; 8165337; 10153587;
   12820798; 15790321; 19976592; 24970740; 31350126;
   39045157; 49367440; 61356676; 76695844; 95443717;
   119304647; 148102320; 186737708; 238609294; 286331153
  ].

Section Priority.
  Context `{Headers}.

(** * Core scheduling *)

(** What the comparison of two tasks reads besides the fields above. *)
Record CoreTask := mkCore { ct_task : Task; core_cookie : Z; deadline : Z }.

(** kernel prio, less is more *)
Definition __task_prio (p : Task) : Z :=
  if bool_decide (sched_class p = stop_sched_class) then -2
  else if rt_prio (prio p) then prio p
  else if bool_decide (sched_class p = idle_sched_class) then MAX_RT_PRIO + NICE_WIDTH
  else MAX_RT_PRIO + MAX_NICE.

(** [cfs_prio_less] is in fair.c; [dl_time_before] compares the two deadlines
    modulo 2^64. *)
Definition prio_less (cfs_prio_less : CoreTask -> CoreTask -> bool) (dl_time_before : Z -> Z -> bool)
    (a b : CoreTask) : bool :=
  let pa := __task_prio (ct_task a) in
  let pb := __task_prio (ct_task b) in
  if - pa <? - pb then true
  else if - pb <? - pa then false
  else if pa =? -1 then negb (dl_time_before (deadline a) (deadline b))
  else if pa =? MAX_RT_PRIO + MAX_NICE then cfs_prio_less a b
  else false.

Definition __sched_core_less (cfs_prio_less : CoreTask -> CoreTask -> bool) (dl_time_before : Z -> Z -> bool)
    (a b : CoreTask) : bool :=
  if core_cookie a <? core_cookie b then true
  else if core_cookie b <? core_cookie a then false
  else prio_less cfs_prio_less dl_time_before b a.

Definition rb_sched_core_cmp (cookie : Z) (p : CoreTask) : Z :=
  if cookie <? core_cookie p then -1 else if core_cookie p <? cookie then 1 else 0.

(** * Priorities *)

Definition __normal_prio (policy rt nice : Z) : Z :=
  if dl_policy policy then MAX_DL_PRIO - 1
  else if rt_policy policy then MAX_RT_PRIO - 1 - rt
  else NICE_TO_PRIO nice.

Definition task_nice (p : Task) : Z := PRIO_TO_NICE (static_prio p).

Definition normal_prio_of (p : Task) : Z := __normal_prio (policy p) (rt_priority p) (task_nice p).

(** The priority, and the task with [normal_prio] recomputed. *)
Definition effective_prio (p : Task) : Z * Task :=
  let p := with_normal p (normal_prio_of p) in
  (if negb (rt_prio (prio p)) then normal_prio p else prio p, p).

Definition task_prio (p : Task) : Z := prio p - MAX_RT_PRIO.

Definition check_class_changed (p : Task) (prev_class : SchedClass) (oldprio : Z) : list Ev :=
  if negb (bool_decide (prev_class = sched_class p))
  then [SwitchedFrom prev_class; SwitchedTo (sched_class p)]
  else if negb (oldprio =? prio p) || dl_prio (prio p) then [PrioChanged (sched_class p) oldprio]
  else [].

Definition class_of (prio : Z) : SchedClass :=
  if dl_prio prio then dl_sched_class else if rt_prio prio then rt_sched_class else fair_sched_class.

Definition __setscheduler_prio (p : Task) (prio : Z) : Task := with_prio (with_class p (class_of prio)) prio.

(** A donor: its number, its priority and whether its deadline preempts the
    task's. *)
Record Donor := mkDonor { donor : Z; donor_prio : Z; donor_preempts : bool }.

Definition __rt_effective_prio (pi_task : option Donor) (prio : Z) : Z :=
  match pi_task with Some d => Z.min prio (donor_prio d) | None => prio end.

(** [dl.pi_se] for a boost to a deadline priority: the donor is dereferenced. *)
Definition boost_dl (p : Task) (pi_task : option Donor) : res (Task * bool) :=
  if negb (dl_prio (normal_prio p)) ||
     match pi_task with Some d => dl_prio (donor_prio d) && donor_preempts d | None => false end
  then match pi_task with
       | Some d => mret (with_dl_pi p (Some (donor d)), true)
       | None => Undef
       end
  else mret (with_dl_pi p None, false).

Definition rt_mutex_setprio (at_ : Place) (p : Task) (pi_task : option Donor) : res (Task * list Ev) :=
  let prio' := __rt_effective_prio pi_task (normal_prio p) in
  if bool_decide (pi_top_task p = (donor <$> pi_task)) && (prio' =? prio p) && negb (dl_prio prio') then mret (p, [])
  else
    let p := with_pi_top p (donor <$> pi_task) in
    if (prio' =? prio p) && negb (dl_prio prio') then mret (p, [])
    else if is_idle at_ then mret (p, [])
    else
      let oldprio := prio p in
      let move := negb (oldprio =? prio') in
      let prev_class := sched_class p in
      let out := (if queued at_ then [Dequeue prev_class move] else []) ++
                 (if running at_ then [PutPrev prev_class] else []) in
      '(p, replenish, head) ←
        (if dl_prio prio' then '(p, r) ← boost_dl p pi_task; mret (p, r, false)
         else if rt_prio prio' then
           mret (if dl_prio oldprio then with_dl_pi p None else p, false, oldprio <? prio')
         else
           let p := if dl_prio oldprio then with_dl_pi p None else p in
           mret (if rt_prio oldprio then with_timeout p 0 else p, false, false));
      let p := __setscheduler_prio p prio' in
      mret (p, out ++ (if queued at_ then [Enqueue (sched_class p) head replenish] else []) ++
                 (if running at_ then [SetNext (sched_class p)] else []) ++
                 check_class_changed p prev_class oldprio).

(** * Load weights and nice values *)

(** [reweight_task] of fair.c: the new [load] of a task of the fair class. *)
Definition set_load_weight (reweight_task : Z -> res (Z * Z)) (p : Task) (update_load : bool) : res Task :=
  let i := static_prio p - MAX_RT_PRIO in
  if idle_policy (policy p) then mret (with_load p (scale_load WEIGHT_IDLEPRIO) WMULT_IDLEPRIO)
  else if update_load && bool_decide (sched_class p = fair_sched_class) then
    '(w, iw) ← reweight_task i; mret (with_load p w iw)
  else
    w ← aget sched_prio_to_weight i;
    iw ← aget sched_prio_to_wmult i;
    mret (with_load p (scale_load w) iw).

Definition set_user_nice (reweight_task : Z -> res (Z * Z)) (at_ : Place) (p : Task) (nice : Z) :
    res (Task * list Ev) :=
  if (task_nice p =? nice) || (nice <? MIN_NICE) || (MAX_NICE <? nice) then mret (p, [])
  else if dl_policy (policy p) || rt_policy (policy p) then mret (with_static p (NICE_TO_PRIO nice), [])
  else
    let c := sched_class p in
    let out := (if queued at_ then [Dequeue c false] else []) ++ (if running at_ then [PutPrev c] else []) in
    p ← set_load_weight reweight_task (with_static p (NICE_TO_PRIO nice)) true;
    let old_prio := prio p in
    let '(q, p) := effective_prio p in
    let p := with_prio p q in
    mret (p, out ++ (if queued at_ then [Enqueue c false false] else []) ++
               (if running at_ then [SetNext c] else []) ++ [PrioChanged c old_prio]).

(** What the caller may do: the capability, the resource limit on nice. *)
Definition can_nice (cap : bool) (rlimit : Z) (nice : Z) : bool :=
  (nice_to_rlimit nice <=? rlimit) || cap.

(** The system call; [security] is the answer of the security module. *)
Definition sys_nice (reweight_task : Z -> res (Z * Z)) (at_ : Place) (cap : bool) (rlimit security : Z)
    (current : Task) (increment : Z) : res (Z * Task * list Ev) :=
  let increment := Z.min (Z.max increment (- NICE_WIDTH)) NICE_WIDTH in
  let nice := Z.min (Z.max (task_nice current + increment) MIN_NICE) MAX_NICE in
  if (increment <? 0) && negb (can_nice cap rlimit nice) then mret (- EPERM, current, [])
  else if negb (security =? 0) then mret (security, current, [])
  else
    '(p, ev) ← set_user_nice reweight_task at_ current nice;
    mret (0, p, ev).
End Priority.

(** * Load weights *)

(** [reweight_task] as documented: it takes the weights of the tables. *)
Definition Reweights `{Headers} (reweight_task : Z -> res (Z * Z)) : Prop :=
  forall i w m, sched_prio_to_weight !! i = Some w -> sched_prio_to_wmult !! i = Some m ->
  reweight_task (Z.of_nat i) = Ok (scale_load w, m).

(** A [reweight_task] that has this behaviour. *)
Definition reweight_ref `{Headers} (i : Z) : res (Z * Z) :=
  w ← aget sched_prio_to_weight i; m ← aget sched_prio_to_wmult i; mret (scale_load w, m).

Lemma reweight_ref_ok `{Headers} : Reweights reweight_ref.
Proof.
  intros i w m Hw Hm. unfold reweight_ref. rewrite (aget_ok _ _ _ Hw). cbn [mbind res_bind].
  rewrite (aget_ok _ _ _ Hm). reflexivity.
Qed.

Lemma tables_lookup i : 0 <= i < 40 -> exists w m,
  sched_prio_to_weight !! Z.to_nat i = Some w /\ sched_prio_to_wmult !! Z.to_nat i = Some m.
Proof.
  intros Hi. destruct (lookup_lt_is_Some_2 sched_prio_to_weight (Z.to_nat i)) as [w Hw]; [cbn; lia|].
  destruct (lookup_lt_is_Some_2 sched_prio_to_wmult (Z.to_nat i)) as [m Hm]; [cbn; lia|]. eauto.
Qed.

(** * The run queue's view *)

(** The class whose queue holds the task and the class it runs under. *)
Record OnRq := mkOnRq { on_queue : option SchedClass; on_cpu : option SchedClass }.

(** A call into a class is in order when the task is where the call expects
    it; a notification is in order when the task is in no queue but that of the
    class notified. *)
Definition ev_step (s : OnRq) (e : Ev) : option OnRq :=
  match e with
  | Dequeue c _ => if bool_decide (on_queue s = Some c) then Some (mkOnRq None (on_cpu s)) else None
  | Enqueue c _ _ => if bool_decide (on_queue s = None) then Some (mkOnRq (Some c) (on_cpu s)) else None
  | PutPrev c => if bool_decide (on_cpu s = Some c) then Some (mkOnRq (on_queue s) None) else None
  | SetNext c => if bool_decide (on_cpu s = None) then Some (mkOnRq (on_queue s) (Some c)) else None
  | SwitchedFrom _ => Some s
  | SwitchedTo c | PrioChanged c _ =>
      if bool_decide (on_queue s = Some c \/ on_queue s = None) then Some s else None
  end.

Fixpoint ev_run (s : OnRq) (l : list Ev) : option OnRq :=
  match l with
  | [] => Some s
  | e :: l => s ← ev_step s e; ev_run s l
  end.

Definition place_of (at_ : Place) (c : SchedClass) : OnRq :=
  mkOnRq (if queued at_ then Some c else None) (if running at_ then Some c else None).

(** Taking the task out and putting it back, with a notification at the end. *)
Lemma requeue_run at_ c c' move head repl tail :
  ev_run (place_of at_ c') tail = Some (place_of at_ c') ->
  ev_run (place_of at_ c)
    (((if queued at_ then [Dequeue c move] else []) ++ (if running at_ then [PutPrev c] else [])) ++
     (if queued at_ then [Enqueue c' head repl] else []) ++
     (if running at_ then [SetNext c'] else []) ++ tail) = Some (place_of at_ c').
Proof.
  destruct at_ as [[] [] ? ?]; unfold place_of; cbn; intros Ht;
    repeat (rewrite bool_decide_true by auto; cbn); exact Ht.
Qed.

Lemma notify_run at_ c o : ev_run (place_of at_ c) [PrioChanged c o] = Some (place_of at_ c).
Proof. destruct at_ as [[] ? ? ?]; cbn; rewrite bool_decide_true by auto; reflexivity. Qed.

Lemma check_class_changed_run `{Headers} at_ p c o :
  ev_run (place_of at_ (sched_class p)) (check_class_changed p c o) = Some (place_of at_ (sched_class p)).
Proof.
  unfold check_class_changed. destruct (negb (bool_decide _)).
  - destruct at_ as [[] ? ? ?]; cbn; rewrite bool_decide_true by auto; reflexivity.
  - destruct (_ || _); [apply notify_run | reflexivity].
Qed.

Section Facts.
  Context `{HeadersOk} (reweight_task : Z -> res (Z * Z)).
  Hypothesis reweights : Reweights reweight_task.

(** The load of a task that is scheduled by its nice value. *)
Definition load_ok (p : Task) : Prop :=
  if idle_policy (policy p) then weight p = scale_load WEIGHT_IDLEPRIO /\ inv_weight p = WMULT_IDLEPRIO
  else exists w, sched_prio_to_weight !! Z.to_nat (task_nice p + 20) = Some w /\
       weight p = scale_load w /\ sched_prio_to_wmult !! Z.to_nat (task_nice p + 20) = Some (inv_weight p).

(** The well-formed tasks: a nice value in range, a known policy, a real-time
    priority exactly for the real-time policies, [normal_prio] computed from
    these, an effective priority that is at least as urgent and that determines
    the class, and the load of the nice value. *)
Definition wf (p : Task) : Prop :=
  100 <= static_prio p <= 139 /\ valid_policy (policy p) = true /\
  (if rt_policy (policy p) then 1 <= rt_priority p <= 99 else rt_priority p = 0) /\
  normal_prio p = normal_prio_of p /\ -1 <= prio p <= normal_prio p /\
  sched_class p = class_of (prio p) /\
  (rt_policy (policy p) = false -> dl_policy (policy p) = false -> load_ok p).

(** The index is in the tables for every nice value. *)
Lemma set_load_weight_ok p up : 100 <= static_prio p <= 139 ->
  exists w iw, set_load_weight reweight_task p up = Ok (with_load p w iw) /\ load_ok (with_load p w iw).
Proof.
  intros Hp. unfold set_load_weight. destruct prio_range as [-> _].
  destruct (idle_policy (policy p)) eqn:Ei.
  - eexists _, _. split; [reflexivity|]. unfold load_ok. cbn. rewrite Ei. auto.
  - destruct (tables_lookup (static_prio p - 100)) as (w & m & Hw & Hm); [lia|].
    assert (task_nice (with_load p (scale_load w) m) + 20 = static_prio p - 100) as En
      by (unfold task_nice; cbn; rewrite prio_nice; lia).
    exists (scale_load w), m. split.
    + destruct (up && _).
      * pose proof (reweights _ w m Hw Hm) as Hr. rewrite Z2Nat.id in Hr by lia. rewrite Hr. reflexivity.
      * rewrite (aget_ok_Z sched_prio_to_weight _ w) by (lia || exact Hw). cbn [mbind res_bind].
        rewrite (aget_ok_Z sched_prio_to_wmult _ m) by (lia || exact Hm). reflexivity.
    + unfold load_ok. change (policy (with_load p (scale_load w) m)) with (policy p). rewrite Ei, En.
      exists w. auto.
Qed.

Lemma normal_range pol rt n : -20 <= n <= 19 -> (if rt_policy pol then 1 <= rt <= 99 else rt = 0) ->
  -1 <= __normal_prio pol rt n <= 139.
Proof.
  intros Hn. unfold __normal_prio. destruct prio_range as [-> ->]. rewrite nice_prio.
  destruct (dl_policy pol), (rt_policy pol); lia.
Qed.

Lemma normal_fair pol rt n : dl_policy pol = false -> rt_policy pol = false -> __normal_prio pol rt n = n + 120.
Proof. intros Hd Hr. unfold __normal_prio. rewrite Hd, Hr. apply nice_prio. Qed.

Lemma task_nice_static p : task_nice p = static_prio p - 120.
Proof. apply prio_nice. Qed.

Lemma load_ok_proj p q : policy p = policy q -> static_prio p = static_prio q -> weight p = weight q ->
  inv_weight p = inv_weight q -> load_ok p -> load_ok q.
Proof. unfold load_ok, task_nice. intros -> -> -> ->. auto. Qed.

Lemma wf_static p n : wf p -> -20 <= n <= 19 -> rt_policy (policy p) || dl_policy (policy p) = true ->
  wf (with_static p (n + 120)).
Proof.
  intros (Hs & Hv & Hr & Hn & Hp & Hc & _) Hr' Hpol. unfold wf. cbn. rewrite <- orb_comm in Hpol.
  repeat split; try assumption; try lia.
  - rewrite Hn. unfold normal_prio_of, __normal_prio. cbn. destruct (dl_policy _); [reflexivity|].
    cbn in Hpol. rewrite Hpol. reflexivity.
  - intros E1 E2. rewrite E1, E2 in Hpol. discriminate.
Qed.

(** A nice value is in range and differs from the task's. *)
Definition renice (p : Task) (nice : Z) : bool :=
  negb (task_nice p =? nice) && (-20 <=? nice) && (nice <=? 19).

(** The change of a fair task: its load, [normal_prio] and, unless it is
    boosted, its priority. *)
Lemma renice_wf p n w iw : wf p -> -20 <= n <= 19 -> rt_policy (policy p) || dl_policy (policy p) = false ->
  let p1 := with_load (with_static p (n + 120)) w iw in
  load_ok p1 -> let (q, p2) := effective_prio p1 in
  wf (with_prio p2 q) /\ q = (if rt_prio (prio p) then prio p else n + 120) /\
  class_of q = sched_class p.
Proof.
  intros (Hs & Hv & Hr & Hn & Hp & Hc & _) Hr' Hpol p1 Hl. apply orb_false_iff in Hpol as [E1 E2].
  unfold effective_prio. cbn. rewrite E1 in Hr.
  assert (normal_prio_of p1 = n + 120) as En.
  { unfold normal_prio_of. rewrite normal_fair, task_nice_static by assumption. cbn. lia. }
  assert (normal_prio p = static_prio p) as Eo.
  { rewrite Hn. unfold normal_prio_of. rewrite normal_fair, task_nice_static by assumption. lia. }
  rewrite En. set (q := if _ : bool then _ else _).
  assert (q = if rt_prio (prio p) then prio p else n + 120) as Eq by (unfold q; destruct (rt_prio _); reflexivity).
  assert (class_of q = sched_class p) as Ec.
  { rewrite Eq, Hc. unfold class_of. rewrite !rt_prio_spec, !dl_prio_spec.
    destruct (Z.ltb_spec (prio p) 100); compare_cases; lia || reflexivity. }
  split; [|auto]. unfold wf. cbn. rewrite E1. repeat split; try assumption; try lia.
  - symmetry. exact En.
  - rewrite Eq, rt_prio_spec. destruct (Z.ltb_spec (prio p) 100); lia.
  - rewrite Eq, rt_prio_spec. destruct (Z.ltb_spec (prio p) 100); lia.
  - symmetry. exact Ec.
  - intros _ _. eapply load_ok_proj; [..|exact Hl]; reflexivity.
Qed.

(** What [set_user_nice] does; [sys_nice] and the callers in other files use it. *)
Lemma set_user_nice_spec at_ p nice : wf p ->
  exists p' ev, set_user_nice reweight_task at_ p nice = Ok (p', ev) /\ wf p' /\
    task_nice p' = (if renice p nice then nice else task_nice p) /\
    policy p' = policy p /\ rt_priority p' = rt_priority p /\ sched_class p' = sched_class p /\
    ev_run (place_of at_ (sched_class p)) ev = Some (place_of at_ (sched_class p')) /\
    (renice p nice = false -> p' = p) /\
    (renice p nice = true ->
       if rt_policy (policy p) || dl_policy (policy p) then prio p' = prio p /\ ev = []
       else prio p' = (if rt_prio (prio p) then prio p else nice + 120)).
Proof.
  intros Hwf. unfold set_user_nice. destruct nice_range as (-> & -> & _).
  assert ((task_nice p =? nice) || (nice <? -20) || (19 <? nice) = negb (renice p nice)) as ->
    by (unfold renice; compare_cases; reflexivity || lia).
  destruct (renice p nice) eqn:En; cbn [negb];
    [|exists p, []; split_and!; auto; discriminate].
  assert (-20 <= nice <= 19) as Hrange by (unfold renice in En; lia).
  rewrite nice_prio, orb_comm.
  assert (forall q, static_prio q = nice + 120 -> task_nice q = nice) as Hq
    by (intros q E; rewrite task_nice_static, E; lia).
  destruct (rt_policy (policy p) || dl_policy (policy p)) eqn:Epol.
  - exists (with_static p (nice + 120)), []. split; [reflexivity|].
    split; [apply wf_static; auto|]. split; [apply Hq; reflexivity|]. cbn. split_and!; auto; discriminate.
  - destruct (set_load_weight_ok (with_static p (nice + 120)) true) as (w & iw & -> & Hl); [cbn; lia|].
    pose proof (renice_wf p nice w iw Hwf Hrange Epol Hl) as Hr.
    cbn [mbind res_bind]. destruct (effective_prio _) as [q p2] eqn:Ee.
    assert (sched_class p2 = sched_class p /\ static_prio p2 = nice + 120 /\ policy p2 = policy p /\
      rt_priority p2 = rt_priority p) as (Hc2 & Hs2 & Hp2 & Hr2)
      by (unfold effective_prio in Ee; injection Ee as _ <-; auto).
    destruct Hr as (Hw & Hq' & _). eexists _, _. split; [reflexivity|]. split; [exact Hw|].
    cbn [task_nice static_prio with_prio policy rt_priority sched_class prio].
    split; [apply Hq; exact Hs2|]. rewrite Hc2.
    split; [exact Hp2|]. split; [exact Hr2|]. split; [reflexivity|].
    split; [apply requeue_run, notify_run|]. split; [discriminate | auto].
Qed.

(** C35: [set_user_nice] on a well-formed task leaves a well-formed task whose
    nice value is the one asked for when that is in -20..19 and otherwise the
    old one. A real-time or deadline task keeps its priority and its place; a
    fair task gets the priority [nice + 120] unless it is boosted, and is taken
    out of its queue and off its CPU and put back under the same class in
    order. The policy and class never change. *)
Theorem set_user_nice_correct at_ p nice : wf p ->
  exists p' ev, set_user_nice reweight_task at_ p nice = Ok (p', ev) /\ wf p' /\
    task_nice p' = (if renice p nice then nice else task_nice p) /\
    policy p' = policy p /\ rt_priority p' = rt_priority p /\ sched_class p' = sched_class p /\
    ev_run (place_of at_ (sched_class p)) ev = Some (place_of at_ (sched_class p')) /\
    (renice p nice = false -> p' = p) /\
    (renice p nice = true ->
       if rt_policy (policy p) || dl_policy (policy p) then prio p' = prio p /\ ev = []
       else prio p' = (if rt_prio (prio p) then prio p else nice + 120)).
Proof. exact (set_user_nice_spec at_ p nice). Qed.

(** * Boosting *)

Lemma wf_setprio p q : wf p -> -1 <= q <= normal_prio p -> wf (__setscheduler_prio p q).
Proof.
  intros (Hs & Hv & Hr & Hn & Hp & Hc & Hl) Hq. unfold wf. cbn. split_and!; auto; lia.
Qed.

Lemma boost_dl_ok p pi_task : __rt_effective_prio pi_task (normal_prio p) < 0 ->
  exists o r, boost_dl p pi_task = Ok (with_dl_pi p o, r).
Proof.
  intros Hd. unfold boost_dl. rewrite dl_prio_spec. destruct (_ || _) eqn:E; [|eauto].
  destruct pi_task as [d|]; [eauto|]. cbn in Hd, E. lia.
Qed.

(** What the change to priority [q] does before the class changes: the deadline
    entity [o], the watchdog [t], the replenish and head flags. *)
Lemma boost_fields p pi_task q : q = __rt_effective_prio pi_task (normal_prio p) ->
  exists o t r h,
    (if dl_prio q then '(p, r) ← boost_dl p pi_task; mret (p, r, false)
     else if rt_prio q then
       mret (if dl_prio (prio p) then with_dl_pi p None else p, false, prio p <? q)
     else
       let p' := if dl_prio (prio p) then with_dl_pi p None else p in
       mret (if rt_prio (prio p) then with_timeout p' 0 else p', false, false))
    = Ok (with_timeout (with_dl_pi p o) t, r, h) /\
    (dl_prio (prio p) = true -> dl_prio q = false -> o = None) /\
    (rt_prio (prio p) = true -> rt_prio q = false -> t = 0) /\
    (dl_prio q = false -> rt_prio q = true -> r = false /\ h = (prio p <? q)).
Proof.
  intros Hq. destruct (dl_prio q) eqn:Eq.
  - rewrite dl_prio_spec in Eq. destruct (boost_dl_ok p pi_task) as (o & r & ->); [lia|].
    exists o, (rt_timeout p), r, false. rewrite !rt_prio_spec. split_and!; try discriminate; [reflexivity|lia].
  - destruct (rt_prio q).
    + exists (if dl_prio (prio p) then None else dl_pi_se p), (rt_timeout p), false, (prio p <? q).
      destruct (dl_prio (prio p)), p; split_and!; try discriminate; reflexivity || auto.
    + exists (if dl_prio (prio p) then None else dl_pi_se p), (if rt_prio (prio p) then 0 else rt_timeout p), false, false.
      destruct (dl_prio (prio p)), (rt_prio (prio p)), p; split_and!; try discriminate; reflexivity || auto.
Qed.

(** [rt_mutex_setprio] on a well-formed task never dereferences a missing
    donor. It leaves a well-formed task whose donor is the one given and whose
    priority (unless it is the idle task) is the smaller of its normal priority
    and the donor's; policy, nice value, normal priority and load stay. The
    task is requeued in order from its old class to its new one. Leaving the
    deadline priorities drops the donor's deadline entity, leaving the
    real-time priorities resets the watchdog, and a task demoted to a real-time
    priority goes to the head of its queue. *)
Theorem rt_mutex_setprio_correct at_ p pi_task : wf p ->
  (forall d, pi_task = Some d -> -1 <= donor_prio d) ->
  exists p' ev, rt_mutex_setprio at_ p pi_task = Ok (p', ev) /\ wf p' /\
    pi_top_task p' = donor <$> pi_task /\
    prio p' = (if is_idle at_ then prio p else __rt_effective_prio pi_task (normal_prio p)) /\
    (policy p', static_prio p', normal_prio p', weight p') = (policy p, static_prio p, normal_prio p, weight p) /\
    ev_run (place_of at_ (sched_class p)) ev = Some (place_of at_ (sched_class p')) /\
    (dl_prio (prio p) = true -> dl_prio (prio p') = false -> dl_pi_se p' = None) /\
    (rt_prio (prio p) = true -> rt_prio (prio p') = false -> rt_timeout p' = 0) /\
    (queued at_ = true -> prio p < prio p' -> sched_class p' = rt_sched_class ->
     Enqueue rt_sched_class true false ∈ ev).
Proof.
  intros Hwf Hd. unfold rt_mutex_setprio.
  set (q := __rt_effective_prio pi_task (normal_prio p)).
  assert (-1 <= q <= normal_prio p) as Hq.
  { destruct Hwf as (_ & _ & _ & _ & Hp & _). unfold q, __rt_effective_prio.
    destruct pi_task as [d|]; [specialize (Hd d eq_refl)|]; lia. }
  destruct (bool_decide _ && _ && _) eqn:E1.
  { exists p, []. apply andb_prop in E1 as [[E1 Eq]%andb_prop _]. apply bool_decide_eq_true in E1.
    apply Z.eqb_eq in Eq. split_and!; auto; try congruence; try lia; destruct (is_idle _); congruence. }
  cbv zeta. change (prio (with_pi_top p (donor <$> pi_task))) with (prio p).
  destruct ((q =? prio p) && negb (dl_prio q)) eqn:E2.
  { exists (with_pi_top p (donor <$> pi_task)), []. apply andb_prop in E2 as [Eq _]. apply Z.eqb_eq in Eq.
    cbn. split_and!; auto; try congruence; try lia; destruct (is_idle _); congruence. }
  destruct (is_idle at_).
  { exists (with_pi_top p (donor <$> pi_task)), []. cbn. split_and!; auto; try congruence; lia. }
  set (p1 := with_pi_top p (donor <$> pi_task)).
  assert (forall o t, wf (with_timeout (with_dl_pi p1 o) t)) as Hp1 by (intros; exact Hwf).
  destruct (boost_fields p1 pi_task q eq_refl) as (o & t & r & h & Hb & Ho & Ht & Hh).
  match goal with |- context [ mbind ?f ?m ] => replace m with (Ok (with_timeout (with_dl_pi p1 o) t, r, h)) end.
  cbn [mbind res_bind]. eexists _, _. split; [reflexivity|].
  split; [apply wf_setprio; [apply Hp1 | exact Hq]|]. cbn. split_and!; auto.
  - apply requeue_run. apply (check_class_changed_run at_ (__setscheduler_prio _ q)).
  - intros -> Hlt. unfold class_of. destruct (dl_prio q); [discriminate|]. destruct (rt_prio q); [|discriminate].
    intros _. destruct (Hh eq_refl eq_refl) as [-> ->]. change (prio p1) with (prio p). destruct (Z.ltb_spec (prio p) q); [|lia].
    rewrite elem_of_app. right. left.
Qed.

(** * Any task of this kernel *)

(** What holds of every task, also of the children that the modified [sched_fork]
    makes and of a task whose priority is not the one of its policy: fields in
    their ranges, a real-time priority exactly for the real-time policies, a class
    determined by the priority, and the load of the nice value. Nothing relates
    the priority to the normal one, or the normal one to the policy. *)
Definition coherent (p : Task) : Prop :=
  100 <= static_prio p <= 139 /\ valid_policy (policy p) = true /\
  (if rt_policy (policy p) then 1 <= rt_priority p <= 99 else rt_priority p = 0) /\
  -1 <= normal_prio p <= 139 /\ -1 <= prio p <= 139 /\ sched_class p = class_of (prio p) /\
  (rt_policy (policy p) = false -> dl_policy (policy p) = false -> load_ok p).

Lemma wf_coherent p : wf p -> coherent p.
Proof.
  intros (Hs & Hv & Hr & Hn & Hp & Hc & Hl). assert (-1 <= normal_prio p <= 139) as Hn'.
  { rewrite Hn. apply normal_range; [rewrite task_nice_static; lia | exact Hr]. }
  unfold coherent. split_and!; auto; lia.
Qed.

(** A well-formed task is one whose normal priority is that of its policy and
    bounds its priority. *)
Lemma coherent_wf p : coherent p -> normal_prio p = normal_prio_of p -> prio p <= normal_prio p -> wf p.
Proof. intros (Hs & Hv & Hr & _ & Hp & Hc & Hl) Hn Hle. unfold wf. split_and!; auto; lia. Qed.

Lemma coherent_setprio p q : coherent p -> -1 <= q <= 139 -> coherent (__setscheduler_prio p q).
Proof. intros (Hs & Hv & Hr & Hn & _ & _ & Hl) Hq. unfold coherent. cbn. split_and!; auto; lia. Qed.

(** A new nice value. *)
Lemma coherent_nice at_ p n : coherent p -> -20 <= n <= 19 ->
  exists p' ev, set_user_nice reweight_task at_ p n = Ok (p', ev) /\ coherent p' /\ task_nice p' = n /\
    policy p' = policy p /\ rt_priority p' = rt_priority p /\ (dl_prio (prio p) = false -> dl_prio (prio p') = false).
Proof.
  intros Hco Hn. pose proof Hco as (Hs & Hv & Hr & Hnp & Hp & Hc & Hl). unfold set_user_nice. destruct nice_range as (-> & -> & _).
  destruct (Z.eqb_spec (task_nice p) n) as [E|_]; [exists p, []; split_and!; auto|]. cbn [orb].
  destruct (Z.ltb_spec n (-20)); [lia|]. destruct (Z.ltb_spec 19 n); [lia|]. cbn [orb]. rewrite nice_prio, orb_comm.
  assert (forall q, static_prio q = n + 120 -> task_nice q = n) as Hq by (intros q E; rewrite task_nice_static, E; lia).
  destruct (rt_policy (policy p) || dl_policy (policy p)) eqn:Epol.
  - exists (with_static p (n + 120)), []. split; [reflexivity|]. split; [|split; [apply Hq; reflexivity | auto]].
    unfold coherent. cbn. split_and!; auto; try lia. intros E1 E2. rewrite E1, E2 in Epol. discriminate.
  - destruct (set_load_weight_ok (with_static p (n + 120)) true) as (w & iw & -> & Hl'); [cbn; lia|].
    apply orb_false_iff in Epol as [E1 E2]. cbn [mbind res_bind]. unfold effective_prio.
    set (p1 := with_load (with_static p (n + 120)) w iw) in *. cbv zeta iota beta.
    assert (normal_prio_of p1 = n + 120) as En.
    { unfold normal_prio_of. rewrite normal_fair by assumption. rewrite (Hq p1 eq_refl). reflexivity. }
    rewrite En. change (prio (with_normal p1 (n + 120))) with (prio p). change (normal_prio (with_normal p1 (n + 120))) with (n + 120).
    set (q := if _ : bool then _ else _). assert (q = if rt_prio (prio p) then prio p else n + 120) as Eq by (unfold q; destruct (rt_prio _); reflexivity).
    rewrite rt_prio_spec in Eq. eexists _, _. split; [reflexivity|]. split; [|split; [apply Hq; reflexivity|]].
    + unfold coherent. cbn. split_and!; auto; try lia; try (destruct (Z.ltb_spec (prio p) 100); lia).
      rewrite Hc, Eq. unfold class_of. rewrite !rt_prio_spec, !dl_prio_spec.
      destruct (Z.ltb_spec (prio p) 100); compare_cases; lia || reflexivity.
    + split; [reflexivity|]. split; [reflexivity|]. cbn. rewrite !dl_prio_spec, Eq. destruct (Z.ltb_spec (prio p) 100); lia.
Qed.

(** * nice(2) *)

(** [sys_nice] moves the nice value by any increment, saturating at -20
    and 19. Lowering it needs the resource limit to reach the target or the
    capability, and the security module can refuse; a refusal returns the error
    and changes nothing. The task stays well-formed. *)
Theorem sys_nice_correct at_ cap rlimit security p increment : wf p ->
  let target := Z.max (-20) (Z.min 19 (task_nice p + increment)) in
  exists p' ev,
    sys_nice reweight_task at_ cap rlimit security p increment =
      Ok (if (increment <? 0) && negb (cap || (20 - target <=? rlimit)) then - EPERM
          else security, p', ev) /\ wf p' /\
    if (increment <? 0) && negb (cap || (20 - target <=? rlimit)) || negb (security =? 0)
    then p' = p /\ ev = []
    else task_nice p' = target /\
         ev_run (place_of at_ (sched_class p)) ev = Some (place_of at_ (sched_class p')).
Proof.
  intros Hwf target. unfold sys_nice. destruct nice_range as (E1 & E2 & ->). rewrite E1, E2.
  assert (-20 <= task_nice p <= 19) as Hn.
  { rewrite task_nice_static. destruct Hwf as [? _]. lia. }
  replace (Z.min (Z.max (task_nice p + _) (-20)) 19) with target by (unfold target; lia).
  replace (Z.min (Z.max increment (- (40))) 40 <? 0) with (increment <? 0) by lia.
  unfold can_nice. rewrite rlimit_nice, (orb_comm (_ <=? _) cap).
  destruct (_ && _); [exists p, []; cbn; auto|]. cbn [orb].
  destruct (Z.eqb_spec security 0) as [->|]; cbn [negb]; [|exists p, []; cbn; auto].
  destruct (set_user_nice_spec at_ p target Hwf) as (p' & ev & -> & Hw & Ht & _ & _ & _ & Hrun & _).
  cbn [mbind res_bind]. exists p', ev. split; [reflexivity|]. split; [exact Hw|]. split; [|exact Hrun].
  rewrite Ht. destruct (renice p target) eqn:E; [reflexivity|]. unfold renice in E.
  assert (-20 <= target <= 19) by (unfold target; lia). lia.
Qed.
End Facts.

(** The two tables have an entry for every nice value; the inverse of a
    weight is 2^32 divided by it, rounded down or up by one; and one nice level
    changes the weight by a factor of 1.25 within five percent. *)
Theorem weights_consistent i : 0 <= i < 40 -> exists w m,
  aget sched_prio_to_weight i = Ok w /\ aget sched_prio_to_wmult i = Ok m /\ 0 < w /\
  2 ^ 32 / w <= m <= 2 ^ 32 / w + 1 /\
  (i < 39 -> exists w', aget sched_prio_to_weight (i + 1) = Ok w' /\
     95 * w <= 125 * w' <= 105 * w).
Proof.
  intros Hi. rewrite <- (Z2Nat.id i) by lia. assert (Z.to_nat i < 40)%nat as Hn by lia.
  revert Hn. generalize (Z.to_nat i). clear. intros n Hn.
  do 40 (destruct n as [|n]; [eexists _, _; split; [reflexivity|]; split; [reflexivity|];
    split; [lia|]; split; [vm_compute; split; discriminate|]; intros ?;
    try (eexists; split; [reflexivity|lia]); lia|]).
  lia.
Qed.

(** * The order of core scheduling *)

Section CoreOrder.
  Context `{HeadersOk} (cfs_prio_less : CoreTask -> CoreTask -> bool) (dl_time_before : Z -> Z -> bool).
  Abbreviation less := (__sched_core_less cfs_prio_less dl_time_before).

(** The order of the fair class, as documented, is a strict order. *)
Definition StrictOrderB (f : CoreTask -> CoreTask -> bool) : Prop :=
  (forall a, f a a = false) /\ (forall a b c, f a b = true -> f b c = true -> f a c = true).

Definition not_deadline (a : CoreTask) : Prop := __task_prio (ct_task a) <> -1.

Lemma core_less_spec a b : not_deadline a -> less a b = true <->
  core_cookie a < core_cookie b \/
  core_cookie a = core_cookie b /\
    (__task_prio (ct_task a) < __task_prio (ct_task b) \/
     __task_prio (ct_task a) = __task_prio (ct_task b) /\
     __task_prio (ct_task a) = MAX_RT_PRIO + MAX_NICE /\ cfs_prio_less b a = true).
Proof.
  unfold not_deadline, __sched_core_less, prio_less. intros Ha.
  destruct (Z.ltb_spec (core_cookie a) (core_cookie b)); [intuition lia|].
  destruct (Z.ltb_spec (core_cookie b) (core_cookie a)); [split; [discriminate | lia]|].
  destruct (Z.ltb_spec (- __task_prio (ct_task b)) (- __task_prio (ct_task a))); [intuition lia|].
  destruct (Z.ltb_spec (- __task_prio (ct_task a)) (- __task_prio (ct_task b))); [split; [discriminate | lia]|].
  destruct (Z.eqb_spec (__task_prio (ct_task b)) (-1)); [lia|].
  destruct (Z.eqb_spec (__task_prio (ct_task b)) (MAX_RT_PRIO + MAX_NICE));
    [intuition lia | split; [discriminate | lia]].
Qed.

(** When the fair class compares tasks by a strict order, the order of the
    core-scheduling tree is a strict order on the tasks that are not deadline
    tasks. It sorts by cookie first, so the search by cookie is monotone along
    it, and puts the more urgent task of a cookie to the left. *)
Theorem core_less_order : StrictOrderB cfs_prio_less ->
  (forall a, not_deadline a -> less a a = false) /\
  (forall a b c, not_deadline a -> not_deadline b -> less a b = true -> less b c = true -> less a c = true) /\
  (forall cookie a b, less a b = true -> rb_sched_core_cmp cookie b <= rb_sched_core_cmp cookie a) /\
  (forall a b, core_cookie a = core_cookie b -> __task_prio (ct_task a) < __task_prio (ct_task b) ->
     less a b = true).
Proof.
  intros [Hirr Htr]. split; [|split; [|split]].
  - intros a Ha. apply not_true_iff_false. rewrite core_less_spec by exact Ha.
    rewrite Hirr. intros [?|[_ [?|(_ & _ & ?)]]]; discriminate || lia.
  - intros a b c Ha Hb. rewrite !core_less_spec by assumption.
    intros [?|[? [?|(? & ? & H1')]]] [?|[? [?|(? & ? & H2')]]];
      try (left; lia); right; (split; [lia|]); try (left; lia).
    right. split; [lia|]. split; [lia|]. eapply Htr; eauto.
  - intros cookie a b. unfold __sched_core_less, rb_sched_core_cmp.
    destruct (Z.ltb_spec (core_cookie a) (core_cookie b)); [compare_cases; lia|].
    destruct (Z.ltb_spec (core_cookie b) (core_cookie a)); [discriminate|]. intros _. compare_cases; lia.
  - intros a b Hc Hp. unfold __sched_core_less, prio_less. compare_cases; try lia; reflexivity.
Qed.

(** Two deadline tasks of the same deadline and cookie are each less than the
    other, so the order is not strict on them. *)
Lemma core_less_deadline_tie a b : (forall d, dl_time_before d d = false) ->
  core_cookie a = core_cookie b -> deadline a = deadline b ->
  __task_prio (ct_task a) = -1 -> __task_prio (ct_task b) = -1 -> less a b = true /\ less b a = true.
Proof.
  intros Hirr Hc Hd Ha Hb. unfold __sched_core_less, prio_less.
  rewrite Hc, Hd, Ha, Hb, Hirr, Z.ltb_irrefl. auto.
Qed.
End CoreOrder.

(** * Examples *)

Definition sample_task : Task :=
  Eval vm_compute in mkTask 0 120 120 120 0 fair_sched_class false 1048576 4194304 None None 0.

Lemma sample_wf : wf sample_task.
Proof. unfold wf. cbn. split_and!; try lia; try reflexivity. intros _ _. exists 1024. auto. Qed.

Definition sample_place : Place := mkPlace true true false false.

Lemma set_user_nice_correct_witness :
  exists p' ev, set_user_nice reweight_ref sample_place sample_task (-5) = Ok (p', ev) /\ prio p' = 115.
Proof.
  destruct (set_user_nice_correct reweight_ref reweight_ref_ok sample_place sample_task (-5) sample_wf)
    as (p' & ev & E & _ & _ & _ & _ & _ & _ & _ & Hp).
  exists p', ev. split; [exact E|]. exact (Hp eq_refl).
Defined.

Definition sample_donor : Donor := mkDonor 7 49 false.

Lemma rt_mutex_setprio_correct_witness :
  exists p' ev, rt_mutex_setprio sample_place sample_task (Some sample_donor) = Ok (p', ev) /\ wf p' /\ prio p' = 49.
Proof.
  destruct (rt_mutex_setprio_correct sample_place sample_task (Some sample_donor) sample_wf)
    as (p' & ev & E & Hw & _ & Hp & _).
  - intros d [= <-]. cbn. lia.
  - exists p', ev. split; [exact E|]. split; [exact Hw | exact Hp].
Defined.

Lemma sys_nice_correct_witness :
  exists p' ev, sys_nice reweight_ref sample_place false 0 0 sample_task 1000 = Ok (0, p', ev) /\ task_nice p' = 19.
Proof.
  destruct (sys_nice_correct reweight_ref reweight_ref_ok sample_place false 0 0 sample_task 1000 sample_wf)
    as (p' & ev & E & _ & Hn & _).
  exists p', ev. split; [exact E | exact Hn].
Defined.

Lemma weights_consistent_witness : exists w m, aget sched_prio_to_weight 20 = Ok w /\ aget sched_prio_to_wmult 20 = Ok m.
Proof. destruct (weights_consistent 20 ltac:(lia)) as (w & m & Hw & Hm & _). eauto. Defined.

Definition by_deadline (a b : CoreTask) : bool := deadline a <? deadline b.

Lemma core_less_order_witness :
  __sched_core_less by_deadline Z.ltb (mkCore sample_task 3 1) (mkCore sample_task 3 1) = false.
Proof.
  refine (proj1 (core_less_order by_deadline Z.ltb _) (mkCore sample_task 3 1) _).
  - split; [intros a; apply Z.ltb_irrefl | intros a b c; unfold by_deadline; rewrite !Z.ltb_lt; lia].
  - unfold not_deadline. vm_compute. discriminate.
Defined.
