(* ===== verification/Setscheduler.v ===== *)
(** Changing the policy of a task in src/3/20193018_PLUS-1/core.c:
    [__sched_setscheduler] with its checks, its critical section and its retry,
    the functions of the kernel built on it, and the system calls that set and
    read policies, priorities and the round-robin interval. *)

From S2P Require Import Prelude KHeaders Uclamp Priority.
Local Open Scope Z_scope.

(** * State *)

(** A task: its scheduling parameters, its clamps and its credentials. *)
Record KTask := mkKTask {
  k_task : Task;
  k_clamps : utask;
  k_uid : Z;
  k_euid : Z
}.

Definition with_task (k : KTask) (p : Task) : KTask := mkKTask p (k_clamps k) (k_uid k) (k_euid k).

(** [rt_task] and the flag that [Uclamp] keeps beside the clamps follow the
    task. *)
Definition sync_clamps `{Headers} (p : Task) (u : utask) : utask :=
  mkUtask (uclamp_req u) (uclamp u) (group u) (class_uclamp u) (rt_prio (prio p)) (sched_reset_on_fork p).

(** Who asks and what the rest of the kernel answers: the capability, the two
    resource limits of the task, the caller's effective uid, the security
    module; the bandwidth settings of the task's group and of the root domain. *)
Record Caller := mkCaller {
  cap_sys_nice : bool;
  rlimit_nice_ : Z;
  rlimit_rtprio : Z;
  caller_euid : Z;
  security : Z;
  rt_bandwidth_enabled : bool;
  rt_runtime : Z;
  autogroup : bool;
  dl_bandwidth_enabled : bool;
  span_subset : bool;
  dl_bw : Z
}.

(** The deadline class (deadline.c): the parameters of a deadline task are not
    among the fields modelled, so setting them is not visible here. *)
Class Deadline := {
  __checkparam_dl : sched_attr -> bool;
  dl_param_changed : Task -> sched_attr -> bool;
  sched_dl_overflow : Task -> Z -> sched_attr -> bool;
  __getparam_dl : Task -> sched_attr -> sched_attr
}.

(** -1 as a policy, as an [int] and as it is stored in a [__u32]. *)
Definition SETPARAM_POLICY : Z := -1.

Section Setscheduler.
  Context `{Headers} {DL : Deadline} (reweight_task : Z -> res (Z * Z)).

Definition __setscheduler_params (p : Task) (attr : sched_attr) : res Task :=
  let pol := wrap 32 (sched_policy attr) in
  let pol := if pol =? SETPARAM_POLICY then policy p else pol in
  let p := with_policy p pol in
  let p := if dl_policy pol then p
           else if fair_policy pol then with_static p (NICE_TO_PRIO (sched_nice attr)) else p in
  let p := with_rt p (sched_priority attr) in
  let p := with_normal p (normal_prio_of p) in
  set_load_weight reweight_task p true.

Definition check_same_owner (c : Caller) (k : KTask) : bool :=
  (caller_euid c =? k_euid k) || (caller_euid c =? k_uid k).

(** The answers of the checks: the error, or the policy, the policy of the task
    when it was read and the flag. *)
Definition setscheduler_policy (p : Task) (attr : sched_attr) (pol oldpolicy : Z) : Z + (Z * Z * bool) :=
  if pol <? 0 then inr (policy p, policy p, sched_reset_on_fork p)
  else if negb (valid_policy pol) then inl (- EINVAL)
  else inr (pol, oldpolicy, flag_reset_on_fork (sched_flags attr)).

Definition setscheduler_params_ok (attr : sched_attr) (pol : Z) : bool :=
  negb (flag_unknown (sched_flags attr)) &&
  negb (MAX_RT_PRIO - 1 <? sched_priority attr) &&
  negb (dl_policy pol && negb (__checkparam_dl attr)) &&
  Bool.eqb (rt_policy pol) (negb (sched_priority attr =? 0)).

(** The permissions an unprivileged caller needs. *)
Definition setscheduler_permitted (c : Caller) (k : KTask) (attr : sched_attr) (pol : Z) (reset : bool) : bool :=
  let p := k_task k in
  if fair_policy pol && ((sched_nice attr <? task_nice p) &&
       negb (can_nice (cap_sys_nice c) (rlimit_nice_ c) (sched_nice attr))) then false
  else if rt_policy pol &&
       (negb (pol =? policy p) && (rlimit_rtprio c =? 0) ||
        (rt_priority p <? sched_priority attr) && (rlimit_rtprio c <? sched_priority attr)) then false
  else if dl_policy pol then false
  else if idle_policy (policy p) && negb (idle_policy pol) &&
       negb (can_nice (cap_sys_nice c) (rlimit_nice_ c) (task_nice p)) then false
  else if negb (check_same_owner c k) then false
  else negb (sched_reset_on_fork p && negb reset).

(** The code from [recheck] to the lock, on the task as it is read there. The
    static key of the clamps may be switched on although the call fails later. *)
Definition setscheduler_checks (c : Caller) (user : bool) (s : usys) (k : KTask) (attr : sched_attr)
    (pol oldpolicy : Z) : usys * (Z + (Z * Z * bool)) :=
  match setscheduler_policy (k_task k) attr pol oldpolicy with
  | inl e => (s, inl e)
  | inr (pol, oldpolicy, reset) =>
    if negb (setscheduler_params_ok attr pol) then (s, inl (- EINVAL))
    else if user && negb (cap_sys_nice c) && negb (setscheduler_permitted c k attr pol reset) then (s, inl (- EPERM))
    else if user && flag_sugov (sched_flags attr) then (s, inl (- EINVAL))
    else if user && negb (security c =? 0) then (s, inl (security c))
    else if flag_util_clamp (sched_flags attr) then
      let '(e, s) := uclamp_validate s (k_clamps k) attr in
      (s, if negb (e =? 0) then inl e else inr (pol, oldpolicy, reset))
    else (s, inr (pol, oldpolicy, reset))
  end.

(** Whether the request differs from what the task has. *)
Definition setscheduler_change (p : Task) (attr : sched_attr) (pol : Z) : bool :=
  negb (pol =? policy p) ||
  (fair_policy pol && negb (sched_nice attr =? task_nice p)) ||
  (rt_policy pol && negb (sched_priority attr =? rt_priority p)) ||
  (dl_policy pol && dl_param_changed p attr) ||
  flag_util_clamp (sched_flags attr).

(** The bandwidth a user needs for the policy. *)
Definition setscheduler_bandwidth (c : Caller) (attr : sched_attr) (pol : Z) : bool :=
  negb (rt_bandwidth_enabled c && rt_policy pol && (rt_runtime c =? 0) && negb (autogroup c)) &&
  negb (dl_bandwidth_enabled c && dl_policy pol && negb (flag_sugov (sched_flags attr)) &&
        (negb (span_subset c) || (dl_bw c =? 0))).

(** The change itself. *)
Definition setscheduler_apply (s : usys) (at_ : Place) (top : option Donor) (pi : bool) (k : KTask)
    (attr : sched_attr) (pol : Z) (reset : bool) : res (KTask * list Ev) :=
  let p := with_reset (k_task k) reset in
  let oldprio := prio p in
  let newprio := __normal_prio pol (sched_priority attr) (sched_nice attr) in
  let newprio := if pi then __rt_effective_prio top newprio else newprio in
  let move := negb (pi && (newprio =? oldprio)) in
  let prev_class := sched_class p in
  let out := (if queued at_ then [Dequeue prev_class move] else []) ++
             (if running at_ then [PutPrev prev_class] else []) in
  p ← (if negb (flag_keep_params (sched_flags attr))
       then p ← __setscheduler_params p attr; mret (__setscheduler_prio p newprio)
       else mret p);
  let u := __setscheduler_uclamp s (sync_clamps p (k_clamps k)) attr in
  mret (mkKTask p u (k_uid k) (k_euid k),
        out ++ (if queued at_ then [Enqueue (sched_class p) (oldprio <? prio p) false] else []) ++
          (if running at_ then [SetNext (sched_class p)] else []) ++ check_class_changed p prev_class oldprio).

(** The critical section: [inl tt] to check again, else the returned value, the
    task and the calls. *)
Definition setscheduler_locked (c : Caller) (user pi : bool) (s : usys) (at_ : Place) (top : option Donor)
    (k : KTask) (attr : sched_attr) (pol oldpolicy : Z) (reset : bool) : res (unit + Z * KTask * list Ev) :=
  let p := k_task k in
  if is_stop at_ then mret (inr (- EINVAL, k, []))
  else if negb (setscheduler_change p attr pol) then mret (inr (0, with_task k (with_reset p reset), []))
  else if user && negb (setscheduler_bandwidth c attr pol) then mret (inr (- EPERM, k, []))
  else if negb (oldpolicy =? -1) && negb (oldpolicy =? policy p) then mret (inl tt)
  else if (dl_policy pol || dl_prio (prio p)) && sched_dl_overflow p pol attr then mret (inr (- EBUSY, k, []))
  else '(k, ev) ← setscheduler_apply s at_ top pi k attr pol reset; mret (inr (0, k, ev)).

(** What one turn sees: the task before the lock, and the task, its place and
    its donor under the lock. Other CPUs may change the task in between. *)
Record Turn := mkTurn {
  t_read : KTask;
  t_locked : KTask;
  t_place : Place;
  t_top : option Donor
}.

(** The turns are given in order; the result holds the task as it is left. *)
Fixpoint __sched_setscheduler (c : Caller) (attr : sched_attr) (user pi : bool) (s : usys) (ts : list Turn)
    (pol oldpolicy : Z) : res (Z * usys * KTask * list Ev) :=
  match ts with
  | [] => Diverge
  | t :: ts =>
      let '(s, r) := setscheduler_checks c user s (t_read t) attr pol oldpolicy in
      match r with
      | inl e => mret (e, s, t_locked t, [])
      | inr (pol, oldpolicy, reset) =>
          d ← setscheduler_locked c user pi s (t_place t) (t_top t) (t_locked t) attr pol oldpolicy reset;
          match d with
          | inl _ => __sched_setscheduler c attr user pi s ts (-1) (-1)
          | inr (e, k, ev) => mret (e, s, k, ev)
          end
      end
  end.

(** The call: the policy is read from the attributes as an [int]. *)
Definition setscheduler (c : Caller) (attr : sched_attr) (user pi : bool) (s : usys) (ts : list Turn) :
    res (Z * usys * KTask * list Ev) :=
  __sched_setscheduler c attr user pi s ts (wrap 32 (sched_policy attr)) (-1).
End Setscheduler.

(** * The callers in the kernel *)

Section Callers.
  Context `{Headers} {DL : Deadline} (reweight_task : Z -> res (Z * Z)).

(** The attributes the old interface builds. *)
Definition legacy_attr (p : Task) (policy priority : Z) : sched_attr :=
  let fork := negb (policy =? SETPARAM_POLICY) && negb (Z.land policy SCHED_RESET_ON_FORK =? 0) in
  mkAttr (u32 (if fork then Z.ldiff policy SCHED_RESET_ON_FORK else policy))
    (mkFlags fork false false false false false false)
    (PRIO_TO_NICE (static_prio p)) (u32 priority) 0 0.

Definition _sched_setscheduler (c : Caller) (s : usys) (t : Turn) (ts : list Turn) (policy priority : Z)
    (check : bool) : res (Z * usys * KTask * list Ev) :=
  setscheduler reweight_task c (legacy_attr (k_task (t_read t)) policy priority) check true s (t :: ts).

Definition sched_setscheduler c s t ts policy priority := _sched_setscheduler c s t ts policy priority true.

Definition sched_setattr (c : Caller) (s : usys) (ts : list Turn) (attr : sched_attr) :=
  setscheduler reweight_task c attr true true s ts.

Definition sched_setattr_nocheck (c : Caller) (s : usys) (ts : list Turn) (attr : sched_attr) :=
  setscheduler reweight_task c attr false true s ts.

Definition sched_setscheduler_nocheck c s t ts policy priority := _sched_setscheduler c s t ts policy priority false.

(** The functions for kernel threads warn when the call fails: the result is
    the error. *)
Definition sched_set_fifo c s t ts := sched_setscheduler_nocheck c s t ts SCHED_FIFO (Z.quot MAX_RT_PRIO 2).
Definition sched_set_fifo_low c s t ts := sched_setscheduler_nocheck c s t ts SCHED_FIFO 1.
Definition sched_set_normal c s ts nice :=
  sched_setattr_nocheck c s ts (mkAttr SCHED_NORMAL no_flags nice 0 0 0).
End Callers.

(** * System calls *)

(** Sizes of the user structure (uapi/linux/sched/types.h) and of a page. *)
Class UserAbi := {
  SCHED_ATTR_SIZE_VER0 : Z;
  SCHED_ATTR_SIZE_VER1 : Z;
  PAGE_SIZE : Z;
  sizeof_sched_attr : Z
}.

(** The tasks by pid, the calling one, and the system's clamps. *)
Record KState := mkKState {
  ks_tasks : gmap Z KTask;
  ks_current : Z;
  ks_sys : usys
}.

(** What surrounds a call: the answers for each task, where it is, its donor. *)
Record World := mkWorld {
  w_caller : Z -> Caller;
  w_place : Z -> Place;
  w_top : Z -> option Donor
}.

(** The structure in user memory: its size field ([None] when it cannot be
    read) and what copying that many bytes of it gives. *)
Record UAttr := mkUAttr {
  ua_size : option Z;
  ua_copy : Z -> Z * sched_attr
}.

Section Syscalls.
  Context `{Headers} {DL : Deadline} {ABI : UserAbi} (reweight_task : Z -> res (Z * Z)).

Definition find_process_by_pid (st : KState) (pid : Z) : option (Z * KTask) :=
  let pid := if negb (pid =? 0) then pid else ks_current st in
  (fun k => (pid, k)) <$> ks_tasks st !! pid.

Definition update (st : KState) (pid : Z) (s : usys) (k : KTask) : KState :=
  mkKState (<[pid := k]> (ks_tasks st)) (ks_current st) s.

(** A turn in which nobody else changes the task. *)
Definition quiet_turn (w : World) (pid : Z) (k : KTask) : Turn := mkTurn k k (w_place w pid) (w_top w pid).

(** [param] is [None] for a null pointer, [Some None] when it cannot be read. *)
Definition do_sched_setscheduler (w : World) (st : KState) (pid policy : Z) (param : option (option Z)) :
    res (Z * KState * list Ev) :=
  match param with
  | None => mret (- EINVAL, st, [])
  | Some lparam =>
    if pid <? 0 then mret (- EINVAL, st, [])
    else match lparam with
    | None => mret (- EFAULT, st, [])
    | Some priority =>
      match find_process_by_pid st pid with
      | None => mret (- ESRCH, st, [])
      | Some (pid, k) =>
          '(e, s, k, ev) ← sched_setscheduler reweight_task (w_caller w pid) (ks_sys st) (quiet_turn w pid k) [] policy priority;
          mret (e, update st pid s k, ev)
      end
    end
  end.

Definition with_nice (a : sched_attr) (n : Z) : sched_attr :=
  mkAttr (sched_policy a) (sched_flags a) n (sched_priority a) (sched_util_min a) (sched_util_max a).
Definition with_priority (a : sched_attr) (n : Z) : sched_attr :=
  mkAttr (sched_policy a) (sched_flags a) (sched_nice a) n (sched_util_min a) (sched_util_max a).
Definition with_attr_policy (a : sched_attr) (n : Z) : sched_attr :=
  mkAttr n (sched_flags a) (sched_nice a) (sched_priority a) (sched_util_min a) (sched_util_max a).
Definition with_flags (a : sched_attr) (f : SchedFlags) : sched_attr :=
  mkAttr (sched_policy a) f (sched_nice a) (sched_priority a) (sched_util_min a) (sched_util_max a).

(** The attributes or an error, with the size written back for [E2BIG]. *)
Definition sched_copy_attr (u : UAttr) : Z * option Z + sched_attr :=
  match ua_size u with
  | None => inl (- EFAULT, None)
  | Some size =>
    let size := if size =? 0 then SCHED_ATTR_SIZE_VER0 else size in
    if (size <? SCHED_ATTR_SIZE_VER0) || (PAGE_SIZE <? size) then inl (- E2BIG, Some sizeof_sched_attr)
    else
      let '(ret, attr) := ua_copy u size in
      if negb (ret =? 0) then
        if ret =? - E2BIG then inl (- E2BIG, Some sizeof_sched_attr) else inl (ret, None)
      else if flag_util_clamp (sched_flags attr) && (size <? SCHED_ATTR_SIZE_VER1) then inl (- EINVAL, None)
      else inr (with_nice attr (Z.min (Z.max (sched_nice attr) MIN_NICE) MAX_NICE))
  end.

Definition get_params (p : Task) (attr : sched_attr) : sched_attr :=
  if dl_policy (policy p) then __getparam_dl p attr
  else if rt_policy (policy p) then with_priority attr (rt_priority p)
  else with_nice attr (task_nice p).

Definition sys_sched_setscheduler (w : World) (st : KState) (pid policy : Z) (param : option (option Z)) :=
  if policy <? 0 then mret (- EINVAL, st, []) else do_sched_setscheduler w st pid policy param.

Definition sys_sched_setparam (w : World) (st : KState) (pid : Z) (param : option (option Z)) :=
  do_sched_setscheduler w st pid SETPARAM_POLICY param.

Definition sys_sched_setattr (w : World) (st : KState) (pid : Z) (uattr : option UAttr) (flags : Z) :
    res (Z * KState * list Ev) :=
  match uattr with
  | None => mret (- EINVAL, st, [])
  | Some u =>
    if (pid <? 0) || negb (flags =? 0) then mret (- EINVAL, st, [])
    else match sched_copy_attr u with
    | inl (e, _) => mret (e, st, [])
    | inr attr =>
      if wrap 32 (sched_policy attr) <? 0 then mret (- EINVAL, st, [])
      else
        let attr := if flag_keep_policy (sched_flags attr) then with_attr_policy attr (u32 SETPARAM_POLICY) else attr in
        match find_process_by_pid st pid with
        | None => mret (- ESRCH, st, [])
        | Some (pid, k) =>
            let attr := if flag_keep_params (sched_flags attr) then get_params (k_task k) attr else attr in
            '(e, s, k, ev) ← sched_setattr reweight_task (w_caller w pid) (ks_sys st) [quiet_turn w pid k] attr;
            mret (e, update st pid s k, ev)
        end
    end
  end.

(** [sec] is the answer of the security module. *)
Definition sys_sched_getscheduler (sec : Z -> Z) (st : KState) (pid : Z) : Z :=
  if pid <? 0 then - EINVAL
  else match find_process_by_pid st pid with
  | None => - ESRCH
  | Some (pid, k) =>
      if negb (sec pid =? 0) then sec pid
      else Z.lor (policy (k_task k)) (if sched_reset_on_fork (k_task k) then SCHED_RESET_ON_FORK else 0)
  end.

(** The value and the priority written; [can_write] when the copy succeeds. *)
Definition sys_sched_getparam (sec : Z -> Z) (st : KState) (pid : Z) (param_null can_write : bool) : Z * option Z :=
  if param_null || (pid <? 0) then (- EINVAL, None)
  else match find_process_by_pid st pid with
  | None => (- ESRCH, None)
  | Some (pid, k) =>
      if negb (sec pid =? 0) then (sec pid, None)
      else
        let lp := if rt_policy (policy (k_task k)) then rt_priority (k_task k) else 0 in
        if can_write then (0, Some lp) else (- EFAULT, None)
  end.

(** The first bytes of the structure that were written and their number. *)
Definition sched_attr_copy_to_user (access can_write : bool) (kattr : sched_attr) (usize : Z) :
    Z * option (sched_attr * Z) :=
  if negb access then (- EFAULT, None)
  else if negb can_write then (- EFAULT, None) else (0, Some (kattr, Z.min usize sizeof_sched_attr)).

Definition sys_sched_getattr (sec : Z -> Z) (st : KState) (pid : Z) (uattr_null access can_write : bool)
    (usize flags : Z) : Z * option (sched_attr * Z) :=
  if uattr_null || (pid <? 0) || (PAGE_SIZE <? usize) || (usize <? SCHED_ATTR_SIZE_VER0) || negb (flags =? 0)
  then (- EINVAL, None)
  else match find_process_by_pid st pid with
  | None => (- ESRCH, None)
  | Some (pid, k) =>
      if negb (sec pid =? 0) then (sec pid, None)
      else
        let p := k_task k in
        let kattr := mkAttr (policy p) (mkFlags (sched_reset_on_fork p) false false false false false false) 0 0 0 0 in
        let a := get_params p kattr in
        let f := sched_flags a in
        let kattr := mkAttr (sched_policy a)
          (mkFlags (flag_reset_on_fork f) (flag_keep_policy f) (flag_keep_params f) (flag_util_clamp_min f)
             (flag_util_clamp_max f) false false)
          (sched_nice a) (sched_priority a)
          (value (c_min (uclamp_req (k_clamps k)))) (value (c_max (uclamp_req (k_clamps k)))) in
        sched_attr_copy_to_user access can_write kattr usize
  end.

Definition sched_get_priority_max (policy : Z) : Z :=
  if (policy =? SCHED_FIFO) || (policy =? SCHED_RR) then MAX_RT_PRIO - 1
  else if (policy =? SCHED_DEADLINE) || (policy =? SCHED_NORMAL) || (policy =? SCHED_BATCH) || (policy =? SCHED_IDLE)
  then 0 else - EINVAL.

Definition sched_get_priority_min (policy : Z) : Z :=
  if (policy =? SCHED_FIFO) || (policy =? SCHED_RR) then 1
  else if (policy =? SCHED_DEADLINE) || (policy =? SCHED_NORMAL) || (policy =? SCHED_BATCH) || (policy =? SCHED_IDLE)
  then 0 else - EINVAL.

(** The time slice in ticks of the task's class, or an error. *)
Definition sched_rr_get_interval (sec : Z -> Z) (get_rr_interval : SchedClass -> option (Task -> Z))
    (st : KState) (pid : Z) : Z + Z :=
  if pid <? 0 then inl (- EINVAL)
  else match find_process_by_pid st pid with
  | None => inl (- ESRCH)
  | Some (pid, k) =>
      if negb (sec pid =? 0) then inl (sec pid)
      else inr (match get_rr_interval (sched_class (k_task k)) with Some f => f (k_task k) | None => 0 end)
  end.

Definition sys_sched_rr_get_interval (sec : Z -> Z) (get_rr_interval : SchedClass -> option (Task -> Z))
    (jiffies_to_timespec64 : Z -> Z * Z) (can_write : bool) (st : KState) (pid : Z) : Z * option (Z * Z) :=
  match sched_rr_get_interval sec get_rr_interval st pid with
  | inl e => (e, None)
  | inr ticks => if can_write then (0, Some (jiffies_to_timespec64 ticks)) else (- EFAULT, None)
  end.
End Syscalls.

(** * Correctness of a change *)

Section Facts.
  Context `{HeadersOk} {DL : Deadline} (reweight_task : Z -> res (Z * Z)).
  Hypothesis reweights : Reweights reweight_task.

(** Attributes as the callers build them: a policy or -1, a nice value in
    range, an unsigned priority. *)
Definition attr_ok (attr : sched_attr) : Prop :=
  -1 <= wrap 32 (sched_policy attr) /\ -20 <= sched_nice attr <= 19 /\ 0 <= sched_priority attr.

(** The policy the attributes ask for. *)
Definition requested (attr : sched_attr) (p : Task) : Z :=
  let pol := wrap 32 (sched_policy attr) in if pol =? SETPARAM_POLICY then policy p else pol.

(** The priority is the normal one, or the donor's when that is more urgent. *)
Definition boosted (top : option Donor) (p : Task) : Prop := prio p = __rt_effective_prio top (normal_prio p).

(** The priority a change gives: that of the requested policy, real-time priority
    and nice value, or the donor's when that is looked at and more urgent. *)
Definition asked_prio (attr : sched_attr) (pol : Z) : Z := __normal_prio pol (sched_priority attr) (sched_nice attr).

Definition new_prio (pi : bool) (top : option Donor) (q : Z) : Z := if pi then __rt_effective_prio top q else q.

(** The new task has what was asked for. *)
Definition granted (attr : sched_attr) (p p' : Task) : Prop :=
  policy p' = requested attr p /\ rt_priority p' = sched_priority attr /\
  task_nice p' = if fair_policy (requested attr p) then sched_nice attr else task_nice p.

Lemma params_spec p attr : coherent p -> attr_ok attr ->
  let pol := requested attr p in
  valid_policy pol = true -> setscheduler_params_ok attr pol = true ->
  exists p', __setscheduler_params reweight_task p attr = Ok p' /\ granted attr p p' /\
    normal_prio p' = normal_prio_of p' /\
    100 <= static_prio p' <= 139 /\ (if rt_policy pol then 1 <= rt_priority p' <= 99 else rt_priority p' = 0) /\
    load_ok p' /\ sched_class p' = sched_class p /\ sched_reset_on_fork p' = sched_reset_on_fork p.
Proof.
  intros (Hs & Hv & Hr & Hn & Hp & Hc & Hl) (Ha & Hnice & Hpr) pol Hpol Hok.
  unfold __setscheduler_params. change (if _ =? SETPARAM_POLICY then policy p else _) with pol.
  set (p1 := with_normal _ _).
  assert (static_prio p1 = if fair_policy pol then sched_nice attr + 120 else static_prio p) as Es.
  { subst p1. cbn. rewrite <- nice_prio, !dl_spec, fair_spec.
    destruct (Z.eqb_spec pol 6) as [->|]; [reflexivity|]. destruct (_ || _); reflexivity. }
  assert (policy p1 = pol /\ rt_priority p1 = sched_priority attr /\ sched_class p1 = sched_class p /\
    sched_reset_on_fork p1 = sched_reset_on_fork p) as (E1 & E2 & E3 & E5)
    by (subst p1; cbn; destruct (dl_policy pol), (fair_policy pol); auto).
  assert (normal_prio p1 = normal_prio_of p1) as En by reflexivity.
  assert (100 <= static_prio p1 <= 139) as Hs1 by (rewrite Es; destruct (fair_policy pol); lia).
  destruct (set_load_weight_ok reweight_task reweights p1 true Hs1) as (w & iw & -> & Hload).
  eexists. split; [reflexivity|]. unfold granted. fold pol. change (task_nice (with_load p1 w iw)) with (task_nice p1).
  split_and!; try assumption; try lia.
  - rewrite !task_nice_static, Es. destruct (fair_policy pol); lia.
  - apply Hs1.
  - apply Hs1.
  - change (rt_priority (with_load p1 w iw)) with (rt_priority p1). rewrite E2.
    unfold setscheduler_params_ok in Hok. destruct prio_range as [Em _]. rewrite Em in Hok.
    destruct (Z.ltb_spec (100 - 1) (sched_priority attr)); [rewrite andb_false_r in Hok; discriminate|].
    destruct (Z.eqb_spec (sched_priority attr) 0), (rt_policy pol); try lia;
      rewrite andb_false_r in Hok; discriminate.
Qed.

(** The priority of a granted request, in numbers. *)
Lemma asked_spec attr p p' : granted attr p p' -> valid_policy (policy p') = true ->
  asked_prio attr (policy p') =
    if dl_policy (policy p') then -1 else if rt_policy (policy p') then 99 - rt_priority p'
    else if idle_policy (policy p') then 120 + sched_nice attr else 120 + task_nice p'.
Proof.
  intros (Gp & Gr & Gn) Hv. rewrite <- Gp in Gn. unfold asked_prio, __normal_prio. destruct prio_range as [-> ->]. rewrite nice_prio, Gr.
  destruct (dl_policy (policy p')) eqn:Ed; [reflexivity|]. destruct (rt_policy (policy p')) eqn:Er; [lia|].
  rewrite valid_spec, Ed, Er in Hv. destruct (idle_policy (policy p')); [lia|].
  rewrite Gn. destruct (fair_policy (policy p')); [lia | discriminate].
Qed.

(** It is the normal priority unless [SCHED_IDLE] was asked for with another nice
    value than the task's. *)
Lemma asked_normal attr p p' : granted attr p p' -> valid_policy (policy p') = true ->
  (idle_policy (policy p') = true -> sched_nice attr = task_nice p) -> asked_prio attr (policy p') = normal_prio_of p'.
Proof.
  intros Hg Hv Hi. rewrite (asked_spec attr p p' Hg Hv). unfold normal_prio_of, __normal_prio. destruct prio_range as [-> ->]. rewrite nice_prio.
  destruct (dl_policy (policy p')); [reflexivity|]. destruct (rt_policy (policy p')); [lia|].
  destruct (idle_policy (policy p')) eqn:Ei; [|lia]. destruct Hg as (Gp & _ & Gn). rewrite <- Gp in Gn.
  assert (fair_policy (policy p') = false) as Ef by (rewrite idle_spec in Ei; rewrite fair_spec; lia).
  rewrite Ef in Gn. rewrite Gn, Hi; [lia | reflexivity].
Qed.

(** * The critical section *)

(** What is known of a turn: the locked task is one of this kernel, the donor's
    priority is one, and the policy read before is one. *)
Record turn_ok (t : Turn) : Prop := {
  turn_coherent : coherent (k_task (t_locked t));
  turn_donor : forall d, t_top t = Some d -> -1 <= donor_prio d;
  turn_read : valid_policy (policy (k_task (t_read t))) = true
}.

(** A task to which a request was applied. *)
Record applied (attr : sched_attr) (pi : bool) (top : option Donor) (p p' : Task) : Prop := {
  ap_granted : granted attr p p';
  ap_normal : normal_prio p' = normal_prio_of p';
  ap_prio : prio p' = new_prio pi top (asked_prio attr (policy p'))
}.

(** The outcome of a turn that ends the call: an error, a task in which only the
    flag was stored, or one to which the request was applied. *)
Record outcome (attr : sched_attr) (pi : bool) (t : Turn) (e : Z) (k' : KTask) (ev : list Ev) : Prop := {
  out_coherent : coherent (k_task k');
  out_run : ev_run (place_of (t_place t) (sched_class (k_task (t_locked t)))) ev =
    Some (place_of (t_place t) (sched_class (k_task k')));
  out_error : e <> 0 -> k' = t_locked t /\ ev = [];
  out_done : e = 0 ->
    k_task k' = with_reset (k_task (t_locked t)) (sched_reset_on_fork (k_task k')) /\
      (flag_keep_params (sched_flags attr) = false -> granted attr (k_task (t_locked t)) (k_task k')) \/
    flag_keep_params (sched_flags attr) = false /\ applied attr pi (t_top t) (k_task (t_locked t)) (k_task k')
}.

Lemma outcome_refused attr pi t e : turn_ok t -> e <> 0 -> outcome attr pi t e (t_locked t) [].
Proof. intros [Hw _ _] He. split; auto; lia. Qed.

Lemma out_granted attr pi t k' ev : outcome attr pi t 0 k' ev -> flag_keep_params (sched_flags attr) = false ->
  granted attr (k_task (t_locked t)) (k_task k').
Proof. intros [_ _ _ Hdone] Ek. destruct (Hdone eq_refl) as [[_ Hg]|[_ Ha]]; [exact (Hg Ek) | apply Ha]. Qed.

Lemma new_prio_range pi top q : -1 <= q <= 139 -> (forall d, top = Some d -> -1 <= donor_prio d) ->
  -1 <= new_prio pi top q <= q.
Proof. intros Hn Hd. unfold new_prio. destruct pi; [|lia]. destruct top as [d|]; cbn; [specialize (Hd d eq_refl)|]; lia. Qed.

(** A request repairs the task. *)
Lemma applied_wf attr pi top p p' : applied attr pi top p p' -> coherent p' ->
  (forall d, top = Some d -> -1 <= donor_prio d) -> (idle_policy (policy p') = true -> sched_nice attr = task_nice p) ->
  wf p' /\ (pi = true -> boosted top p').
Proof.
  intros [Hg Hn Hp] Hc Hd Hi. pose proof Hc as (_ & Hv & _ & Hr & _). rewrite (asked_normal attr p p' Hg Hv Hi), <- Hn in Hp.
  split; [|intros ->; exact Hp]. apply coherent_wf; [exact Hc | exact Hn|]. rewrite Hp. apply new_prio_range; assumption.
Qed.

Lemma apply_ok s attr pi t reset : attr_ok attr -> turn_ok t ->
  let pol := requested attr (k_task (t_locked t)) in
  valid_policy pol = true -> setscheduler_params_ok attr pol = true ->
  exists k' ev, setscheduler_apply reweight_task s (t_place t) (t_top t) pi (t_locked t) attr pol reset = Ok (k', ev) /\
    outcome attr pi t 0 k' ev /\ sched_reset_on_fork (k_task k') = reset.
Proof.
  intros Ha [Hw Hd _] pol Hv Hok. unfold setscheduler_apply. cbv zeta.
  set (p := k_task (t_locked t)) in *. set (p1 := with_reset p reset).
  change (sched_class p1) with (sched_class p). change (prio p1) with (prio p).
  destruct (flag_keep_params (sched_flags attr)) eqn:Ek; cbn [negb].
  - cbn [mbind res_bind mret res_ret]. eexists _, _. split; [reflexivity|]. split; [|reflexivity].
    split; try exact Hw; try lia.
    + apply requeue_run, (check_class_changed_run _ p1).
    + intros _. left. split; [reflexivity | congruence].
  - destruct (params_spec p1 attr Hw Ha Hv Hok) as (p2 & -> & Hg & Hn & Hs & Hr & Hl & _ & Hrs).
    change (requested attr p1) with pol in *. cbn [mbind res_bind mret res_ret].
    fold (asked_prio attr pol). fold (new_prio pi (t_top t) (asked_prio attr pol)). set (q := new_prio pi _ _).
    assert (policy p2 = pol) as Epol by apply Hg.
    assert (-1 <= asked_prio attr pol <= 139) as Hq0.
    { apply normal_range; [apply Ha|]. rewrite <- (proj1 (proj2 Hg)). exact Hr. }
    pose proof (new_prio_range pi (t_top t) _ Hq0 Hd) as Hq. fold q in Hq.
    assert (-1 <= normal_prio p2 <= 139) as Hn2.
    { rewrite Hn. unfold normal_prio_of. rewrite Epol. apply normal_range; [rewrite task_nice_static; lia | exact Hr]. }
    assert (coherent (__setscheduler_prio p2 q)) as Hco.
    { unfold coherent. cbn. rewrite Epol. split_and!; auto; apply Hs || apply Hn2 || lia. }
    eexists _, _. split; [reflexivity|]. split; [|exact Hrs]. split; try exact Hco; try lia.
    + apply requeue_run. apply (check_class_changed_run _ (__setscheduler_prio p2 q)).
    + intros _. right. split; [exact Ek|]. split; [exact Hg | exact Hn|]. cbn. rewrite Epol. reflexivity.
Qed.

(** What the checks have established when they let the call through. *)
Record checked (c : Caller) (user : bool) (k : KTask) (attr : sched_attr) (pol oldpolicy : Z) (reset : bool) : Prop := {
  chk_params : setscheduler_params_ok attr pol = true;
  chk_permitted : user = true -> cap_sys_nice c = false -> setscheduler_permitted c k attr pol reset = true;
  chk_given : 0 <= wrap 32 (sched_policy attr) -> pol = wrap 32 (sched_policy attr) /\ valid_policy pol = true /\
    oldpolicy = -1 /\ reset = flag_reset_on_fork (sched_flags attr);
  chk_kept : wrap 32 (sched_policy attr) < 0 -> pol = policy (k_task k) /\ oldpolicy = policy (k_task k) /\
    reset = sched_reset_on_fork (k_task k)
}.

Lemma validate_error s u attr e s' : uclamp_validate s u attr = (e, s') -> e = 0 \/ e = - EINVAL.
Proof. unfold uclamp_validate. repeat case_match; intros [= <- <-]; auto. Qed.

Lemma checks_spec c user s k attr : exists s' r,
  setscheduler_checks c user s k attr (wrap 32 (sched_policy attr)) (-1) = (s', r) /\
  match r with
  | inl e => e <> 0
  | inr (pol, oldpolicy, reset) => checked c user k attr pol oldpolicy reset
  end.
Proof.
  unfold setscheduler_checks, setscheduler_policy. set (w := wrap 32 (sched_policy attr)).
  match goal with |- context [ match ?x with inl _ => _ | inr _ => _ end ] => set (P := x) end.
  assert (match P with inl e => e <> 0 | inr (pol, oldpolicy, reset) =>
    (0 <= w -> pol = w /\ valid_policy pol = true /\ oldpolicy = -1 /\ reset = flag_reset_on_fork (sched_flags attr)) /\
    (w < 0 -> pol = policy (k_task k) /\ oldpolicy = policy (k_task k) /\ reset = sched_reset_on_fork (k_task k)) end) as HP.
  { unfold P. destruct (Z.ltb_spec w 0); [split; [lia | auto]|].
    destruct (valid_policy w) eqn:Ev; [split; [auto | lia] | errno]. }
  destruct P as [e|[[pol old] reset]]; [eauto|]. destruct HP as [Hg Hk].
  destruct (setscheduler_params_ok attr pol) eqn:Ep; cbn [negb]; [|eexists _, (inl _); split; [reflexivity | errno]].
  destruct (user && _ && _) eqn:Eu; [eexists _, (inl _); split; [reflexivity | errno]|].
  destruct (user && flag_sugov _); [eexists _, (inl _); split; [reflexivity | errno]|].
  destruct (user && _) eqn:Es in |- *.
  { eexists _, (inl _). split; [reflexivity|]. apply andb_prop in Es as [_ Es]. cbn. lia. }
  assert (checked c user k attr pol old reset) as Hc.
  { split; auto. intros -> Hcap. rewrite Hcap in Eu. cbn in Eu. destruct (setscheduler_permitted _ _ _ _ _); auto. }
  destruct (flag_util_clamp _); [|eexists _, (inr _); eauto].
  destruct (uclamp_validate s (k_clamps k) attr) as [e s'] eqn:Ev.
  destruct (Z.eqb_spec e 0); [eexists _, (inr _) | eexists _, (inl _)]; eauto.
Qed.

(** The critical section ends the call unless the policy was to be kept and
    changed since it was read. *)
Lemma locked_ok c user pi s attr t pol old reset : attr_ok attr -> turn_ok t ->
  checked c user (t_read t) attr pol old reset ->
  setscheduler_locked reweight_task c user pi s (t_place t) (t_top t) (t_locked t) attr pol old reset = Ok (inl tt) /\
    wrap 32 (sched_policy attr) < 0 /\ policy (k_task (t_read t)) <> policy (k_task (t_locked t)) \/
  exists e k' ev,
    setscheduler_locked reweight_task c user pi s (t_place t) (t_top t) (t_locked t) attr pol old reset =
      Ok (inr (e, k', ev)) /\ outcome attr pi t e k' ev /\
    (e = 0 -> pol = requested attr (k_task (t_locked t)) /\ sched_reset_on_fork (k_task k') = reset).
Proof.
  intros Ha Ht Hc. pose proof (outcome_refused attr pi t) as Hrefuse. unfold setscheduler_locked. cbv zeta.
  set (p := k_task (t_locked t)) in *.
  assert (forall e, e <> 0 -> exists e' k' ev, mret (inr (e, t_locked t, [])) = Ok (@inr unit _ (e', k', ev)) /\
    outcome attr pi t e' k' ev /\ (e' = 0 -> pol = requested attr p /\ sched_reset_on_fork (k_task k') = reset)) as Hno.
  { intros e He. eexists _, _, _. split; [reflexivity|]. split; [auto | lia]. }
  assert (pol = policy p \/ 0 <= wrap 32 (sched_policy attr) -> pol = requested attr p) as Hreq.
  { unfold requested, SETPARAM_POLICY. destruct Ha as [Ha _], Hc as [_ _ Hg Hk].
    destruct (Z.eqb_spec (wrap 32 (sched_policy attr)) (-1)) as [E|]; [lia|].
    intros _. apply Hg. lia. }
  destruct (is_stop _); [right; apply Hno; errno|].
  destruct (setscheduler_change p attr pol) eqn:Ech; cbn [negb].
  - destruct (user && _); [right; apply Hno; errno|].
    destruct (negb (old =? -1) && negb (old =? policy p)) eqn:Er.
    { left. split; [reflexivity|]. destruct Hc as [_ _ Hg Hk]. destruct Ha as [Ha _].
      destruct (Z.ltb_spec (wrap 32 (sched_policy attr)) 0) as [Hneg|Hpos]; [|destruct (Hg Hpos) as (_ & _ & -> & _); discriminate].
      split; [exact Hneg|]. destruct (Hk Hneg) as (_ & -> & _). lia. }
    assert (pol = requested attr p /\ valid_policy pol = true) as [Epol Hv].
    { destruct (Z.ltb_spec (wrap 32 (sched_policy attr)) 0) as [Hneg|Hpos].
      - destruct (chk_kept _ _ _ _ _ _ _ Hc Hneg) as (E & -> & _). pose proof (turn_read _ Ht) as Hr.
        rewrite <- E in Hr. split; [|exact Hr]. apply Hreq. left. rewrite E in *.
        destruct (Z.eqb_spec (policy (k_task (t_read t))) (-1)) as [E1|]; [|cbn in Er; lia].
        rewrite E1, valid_spec, idle_spec, fair_spec, rt_spec, dl_spec in Hr. discriminate.
      - destruct (chk_given _ _ _ _ _ _ _ Hc Hpos) as (E & Hv & _). auto. }
    destruct (_ && _) in |- *; [right; apply Hno; errno|]. right. rewrite Epol in *.
    destruct (apply_ok s attr pi t reset Ha Ht Hv (chk_params _ _ _ _ _ _ _ Hc)) as (k' & ev & E & Ho & Hrs).
    fold p in E. rewrite E. cbn [mbind res_bind]. eexists _, _, _. split; [reflexivity | auto].
  - right. eexists _, _, _. split; [reflexivity|]. unfold setscheduler_change in Ech.
    rewrite !orb_false_iff in Ech. destruct Ech as [[[[E1 E2] E3] _] _].
    apply negb_false_iff, Z.eqb_eq in E1. pose proof (Hreq (or_introl E1)) as Epol. split; [|auto].
    destruct Ht as [Hw _ _]. split; try exact Hw; try lia; auto.
    intros _. left. split; [reflexivity|]. intros _. unfold granted. fold p. rewrite <- Epol. split; [auto|]. cbn.
    destruct Hw as (_ & _ & Hr & _). fold p in Hr. rewrite <- E1 in Hr. pose proof (chk_params _ _ _ _ _ _ _ Hc) as Hp.
    unfold setscheduler_params_ok in Hp. rewrite !andb_true_iff in Hp. destruct Hp as [_ Hp]. apply eqb_prop in Hp.
    change (task_nice (with_reset p reset)) with (task_nice p).
    split; [destruct (rt_policy pol); lia | destruct (fair_policy pol); lia].
Qed.

(** The call decides in this turn: the policy is given, or it did not change
    between the read and the lock. *)
Definition decisive (attr : sched_attr) (t : Turn) : Prop :=
  0 <= wrap 32 (sched_policy attr) \/ policy (k_task (t_read t)) = policy (k_task (t_locked t)).

(** One of the turns ends the call, and its checks are those of the caller, unless
    none was decisive. *)
Lemma setscheduler_ends c user pi attr ts : forall s, attr_ok attr -> Forall turn_ok ts ->
  setscheduler reweight_task c attr user pi s ts = Diverge /\ Forall (fun t => ~ decisive attr t) ts \/
  exists t e s' k' ev, t ∈ ts /\ setscheduler reweight_task c attr user pi s ts = Ok (e, s', k', ev) /\
    outcome attr pi t e k' ev /\
    (e = 0 -> exists reset old, checked c user (t_read t) attr (requested attr (k_task (t_locked t))) old reset /\
       sched_reset_on_fork (k_task k') = reset).
Proof.
  unfold setscheduler. intros s Ha Hts. revert s.
  induction Hts as [|t ts Ht Hts IH]; intros s; [left; split; [reflexivity | constructor]|]. cbn [__sched_setscheduler].
  destruct (checks_spec c user s (t_read t) attr) as (s1 & r & -> & Hr).
  destruct r as [e|[[pol old] reset]].
  - right. exists t, e. do 3 eexists. split; [left|]. split; [reflexivity|]. split; [|lia].
    apply outcome_refused; [exact Ht | exact Hr].
  - destruct (locked_ok c user pi s1 attr t pol old reset Ha Ht Hr) as [(-> & Hneg & Hne)|(e & k' & ev & -> & Ho & Hg)].
    + cbn [mbind res_bind]. assert (wrap 32 (sched_policy attr) = -1) as E by (destruct Ha; lia).
      specialize (IH s1). rewrite E in IH. destruct IH as [[Hd Hall]|(t' & e & s' & k' & ev & Hin & Hrun & Hpost)].
      * left. split; [exact Hd|]. constructor; [|exact Hall]. intros [H1|H1]; [lia | contradiction].
      * right. exists t', e, s', k', ev. split; [right; exact Hin|]. split; [exact Hrun | exact Hpost].
    + cbn [mbind res_bind]. right. exists t, e. do 3 eexists. split; [left|]. split; [reflexivity|]. split; [exact Ho|].
      intros He. destruct (Hg He) as [Hp Hrs]. exists reset, old. rewrite <- Hp. auto.
Qed.

(** C36: a call of [__sched_setscheduler], with or without a look at the donor, on any
    task of this kernel that other CPUs may change between the turns and within them
    until the lock is taken. It tries again only while the policy is to be kept and
    was changed between the read and the lock; when that happened in each of the
    given turns it is still trying. Otherwise it ends with a coherent task that was
    requeued in order. An error leaves the task as it was found under the lock. On
    success either only the reset flag was stored (the parameters were to be kept, or
    the task had them already), or the task has the policy, the real-time priority
    and (for the fair policies) the nice value of the request, a normal priority
    computed from these, and the priority of the request or its donor's; it is then
    well-formed, except that a request for [SCHED_IDLE] with another nice value than
    the task's gives it the priority of that nice value. *)
Theorem setscheduler_correct c user pi attr s ts : attr_ok attr -> Forall turn_ok ts ->
  let result := setscheduler reweight_task c attr user pi s ts in
  result = Diverge /\ Forall (fun t => ~ decisive attr t) ts \/
  exists t e s' k' ev, t ∈ ts /\ result = Ok (e, s', k', ev) /\
    let p := k_task (t_locked t) in let p' := k_task k' in
    coherent p' /\
    ev_run (place_of (t_place t) (sched_class p)) ev = Some (place_of (t_place t) (sched_class p')) /\
    if e =? 0 then
      p' = with_reset p (sched_reset_on_fork p') /\
        (flag_keep_params (sched_flags attr) = false -> granted attr p p') \/
      flag_keep_params (sched_flags attr) = false /\ granted attr p p' /\ normal_prio p' = normal_prio_of p' /\
        prio p' = new_prio pi (t_top t) (asked_prio attr (policy p')) /\
        ((idle_policy (policy p') = true -> sched_nice attr = task_nice p) ->
         wf p' /\ (pi = true -> boosted (t_top t) p'))
    else k' = t_locked t /\ ev = [].
Proof.
  intros Ha Hts result. destruct (setscheduler_ends c user pi attr ts s Ha Hts)
    as [Hdiv|(t & e & s' & k' & ev & Hin & Hrun & [Hc Hr He Hd] & _)]; [left; exact Hdiv | right].
  exists t, e, s', k', ev. do 4 (split; [assumption|]).
  destruct (Z.eqb_spec e 0) as [E|E]; [|auto]. destruct (Hd E) as [Hsame|[Ek Hap]]; [left; exact Hsame | right].
  rewrite Forall_forall in Hts. destruct (Hts t Hin) as [_ Hdon _]. destruct Hap as [Hg Hn Hp].
  do 4 (split; [assumption|]). apply applied_wf; try assumption. split; assumption.
Qed.

(** C37: an unprivileged caller that gets success owns the task and has not cleared
    the reset-on-fork flag, by what its checks read before the lock. Then only the
    flag was stored, or the task has been given a policy other than a deadline
    policy and: a real-time policy only when it had it or [RLIMIT_RTPRIO] is
    positive, with a priority of at most the larger of the old one and that limit;
    under a fair policy a nice value of at least the smaller of the old one and
    20 - [RLIMIT_NICE], and otherwise the nice value it had; another policy than
    [SCHED_IDLE], when it had that, only when its nice value is within the limit.
    Its priority is the one of these parameters or its donor's, but for
    [SCHED_IDLE] it is the one of the nice value in the request, which no check has
    looked at. The old values are those the checks read: other CPUs may change the
    task before the lock is taken. *)
Theorem setscheduler_unprivileged c pi attr s ts s' k' ev : attr_ok attr -> Forall turn_ok ts ->
  cap_sys_nice c = false -> setscheduler reweight_task c attr true pi s ts = Ok (0, s', k', ev) ->
  exists t, t ∈ ts /\
    let r := k_task (t_read t) in let p := k_task (t_locked t) in let p' := k_task k' in
    (caller_euid c = k_euid (t_read t) \/ caller_euid c = k_uid (t_read t)) /\
    (sched_reset_on_fork r = true -> sched_reset_on_fork p' = true) /\
    (p' = with_reset p (sched_reset_on_fork p') \/
     dl_policy (policy p') = false /\
     (rt_policy (policy p') = true -> rt_priority p' <= Z.max (rt_priority r) (rlimit_rtprio c) /\
        (policy p' = policy r \/ rlimit_rtprio c <> 0)) /\
     (fair_policy (policy p') = true -> Z.min (task_nice r) (20 - rlimit_nice_ c) <= task_nice p') /\
     (fair_policy (policy p') = false -> task_nice p' = task_nice p) /\
     (idle_policy (policy r) = true -> idle_policy (policy p') = true \/ 20 - rlimit_nice_ c <= task_nice r) /\
     prio p' = new_prio pi (t_top t)
       (if rt_policy (policy p') then 99 - rt_priority p'
        else if idle_policy (policy p') then 120 + sched_nice attr else 120 + task_nice p')).
Proof.
  intros Ha Hts Hcap Hrun.
  destruct (setscheduler_ends c true pi attr ts s Ha Hts) as [[Hdiv _]|(t & e1 & s1 & k1 & ev1 & Hin & Hrun1 & Ho & Hc)]; [congruence|].
  rewrite Hrun in Hrun1. injection Hrun1 as <- <- <- <-.
  destruct (Hc eq_refl) as (reset & old & [_ Hp _ _] & Hreset). exists t. split; [exact Hin|]. intros r p p'.
  fold p in Hp. fold p' in Hreset. specialize (Hp eq_refl Hcap). unfold setscheduler_permitted, can_nice in Hp. cbv zeta in Hp. fold r in Hp.
  rewrite Hcap, !rlimit_nice, !orb_false_r in Hp. set (pol := requested attr p) in *.
  destruct (fair_policy pol && _) eqn:E1 in Hp; [discriminate|].
  destruct (rt_policy pol && _) eqn:E2 in Hp; [discriminate|].
  destruct (dl_policy pol) eqn:E3; [discriminate|].
  destruct (idle_policy (policy r) && _ && _) eqn:E4 in Hp; [discriminate|].
  destruct (check_same_owner c (t_read t)) eqn:E5; [|discriminate]. cbn [negb] in Hp.
  split; [unfold check_same_owner in E5; lia|].
  split; [intros Er; rewrite Er in Hp; destruct reset; [exact Hreset | discriminate]|].
  destruct (out_done _ _ _ _ _ _ Ho eq_refl) as [[Hs _]|[_ [Hg _ Hpr]]]; [left; exact Hs | right].
  fold p in Hg. fold p' in Hg, Hpr. pose proof (out_coherent _ _ _ _ _ _ Ho) as (_ & Hv & _). fold p' in Hv.
  rewrite (asked_spec attr p p' Hg Hv) in Hpr. destruct Hg as (Gp & Gr & Gn). fold pol in Gp, Gn. rewrite Gp in *. rewrite E3 in Hpr.
  rewrite Gn, Gr in *. split_and!; auto.
  - intros Er. rewrite Er in E2. cbn in E2. lia.
  - intros Ef. rewrite Ef in *. cbn in E1. lia.
  - intros Ef. rewrite Ef. reflexivity.
  - intros Ei. rewrite Ei in E4. destruct (idle_policy pol); [auto|]. cbn in E4. lia.
Qed.

(** * The old interface *)

(** A caller that nothing but the parameters can stop. *)
Definition privileged (c : Caller) : Prop :=
  cap_sys_nice c = true /\ security c = 0 /\ rt_runtime c <> 0.

(** A task that can be changed: not a stop task, not boosted to a deadline. *)
Definition changeable (at_ : Place) (k : KTask) : Prop :=
  is_stop at_ = false /\ dl_prio (prio (k_task k)) = false.

(** Nothing is asked for but a policy and a flag. *)
Definition plain_flags (f : SchedFlags) : Prop :=
  flag_keep_params f = false /\ flag_util_clamp f = false /\ flag_sugov f = false.

Lemma privileged_code c attr s k at_ top r : privileged c -> changeable at_ k -> plain_flags (sched_flags attr) ->
  let pol := wrap 32 (sched_policy attr) in
  0 <= pol -> valid_policy pol = true -> dl_policy pol = false ->
  setscheduler reweight_task c attr true true s [mkTurn k k at_ top] = Ok r ->
  fst (fst (fst r)) = (if setscheduler_params_ok attr pol then 0 else - EINVAL).
Proof.
  intros (Hcap & Hsec & Hrt) (Hst & Hdl) (Hkp & Huc & Hsu) pol Hpos Hv Hd.
  unfold setscheduler. cbn [__sched_setscheduler t_read t_locked t_place t_top]. fold pol.
  unfold setscheduler_checks, setscheduler_policy. destruct (Z.ltb_spec pol 0); [lia|].
  rewrite Hv, Hcap, Hsec, Huc, Hsu. cbn [negb]. destruct (setscheduler_params_ok attr pol); cbn [negb andb Z.eqb];
    [|intros [= <-]; auto].
  cbv beta iota. unfold setscheduler_locked. cbv zeta. rewrite Hst, Hd, Hdl.
  destruct (setscheduler_change _ _ _); cbn [negb]; [|intros [= <-]; auto].
  assert (setscheduler_bandwidth c attr pol = true) as ->.
  { unfold setscheduler_bandwidth. rewrite Hd, !andb_false_r. cbn. destruct (Z.eqb_spec (rt_runtime c) 0); [lia|].
    rewrite andb_false_r. reflexivity. }
  cbn [negb andb orb Z.eqb Pos.eqb].
  destruct (setscheduler_apply _ _ _ _ _ _ _ _ _) as [[k' ev]| | |]; [|discriminate..]. intros [= <-]. auto.
Qed.

(** The range check is the one [sched_get_priority_min] and [_max] announce. *)
Lemma params_range attr pol pri : valid_policy pol = true -> dl_policy pol = false ->
  flag_unknown (sched_flags attr) = false -> - 2 ^ 31 <= pri < 2 ^ 31 -> sched_priority attr = u32 pri ->
  setscheduler_params_ok attr pol = (sched_get_priority_min pol <=? pri) && (pri <=? sched_get_priority_max pol).
Proof.
  intros Hv Hd Hu Hp Ep. unfold setscheduler_params_ok, sched_get_priority_min, sched_get_priority_max.
  rewrite Hu, Hd, Ep. destruct policies as (-> & -> & -> & -> & -> & ->). destruct prio_range as [-> _].
  rewrite valid_spec, fair_spec, rt_spec, idle_spec in Hv. rewrite dl_spec in Hv, Hd. rewrite rt_spec. unfold u32.
  assert (0 <= pri /\ pri mod 2 ^ 32 = pri \/ pri < 0 /\ pri mod 2 ^ 32 = pri + 2 ^ 32) as [[? ->]|[? ->]].
  { destruct (Z.ltb_spec pri 0); [right | left; rewrite Z.mod_small by lia; lia].
    split; [lia|]. symmetry. apply Z.mod_unique with (-1); lia. }
  all: destruct ((pol =? 1) || (pol =? 2)) eqn:Er; [clear Hv|
    replace ((pol =? 6) || (pol =? 0) || (pol =? 3) || (pol =? 5)) with true by lia];
    compare_cases; cbn; reflexivity || lia.
Qed.

(** A policy argument of the old interface: a policy and the reset flag. *)
Definition policy_arg (base : Z) (fork : bool) : Z := base + if fork then SCHED_RESET_ON_FORK else 0.

Lemma legacy_facts (p : Task) (base : Z) (fork : bool) (pri : Z) : valid_policy base = true ->
  let attr := legacy_attr p (policy_arg base fork) pri in
  wrap 32 (sched_policy attr) = base /\ sched_flags attr = mkFlags fork false false false false false false /\
  sched_nice attr = task_nice p /\ sched_priority attr = u32 pri /\ 0 <= base <= 6.
Proof.
  rewrite valid_spec, fair_spec, rt_spec, dl_spec, idle_spec. intros Hv. unfold legacy_attr, policy_arg. rewrite reset_flag.
  assert (base = 0 \/ base = 1 \/ base = 2 \/ base = 3 \/ base = 5 \/ base = 6) as Hb by lia.
  destruct Hb as [-> | [-> | [-> | [-> | [-> | ->]]]]], fork; cbn; split_and!; reflexivity || lia.
Qed.

Lemma policy_arg_lor (base : Z) (fork : bool) : valid_policy base = true ->
  Z.lor base (if fork then SCHED_RESET_ON_FORK else 0) = policy_arg base fork /\ 0 <= policy_arg base fork.
Proof.
  rewrite valid_spec, fair_spec, rt_spec, dl_spec, idle_spec. intros Hv. unfold policy_arg. rewrite reset_flag.
  assert (base = 0 \/ base = 1 \/ base = 2 \/ base = 3 \/ base = 5 \/ base = 6) as Hb by lia.
  destruct Hb as [-> | [-> | [-> | [-> | [-> | ->]]]]], fork; cbn; split; reflexivity || lia.
Qed.

Lemma range_value base pri : valid_policy base = true -> dl_policy base = false ->
  (sched_get_priority_min base <=? pri) && (pri <=? sched_get_priority_max base) = true ->
  (if rt_policy base then u32 pri else 0) = pri.
Proof.
  intros Hv Hd. unfold sched_get_priority_min, sched_get_priority_max, u32.
  destruct policies as (-> & -> & -> & -> & -> & ->). destruct prio_range as [-> _].
  rewrite valid_spec, fair_spec, rt_spec, dl_spec, idle_spec in Hv. rewrite rt_spec.
  destruct ((base =? 1) || (base =? 2)); [intros ?; apply Z.mod_small; lia|].
  replace ((base =? 6) || (base =? 0) || (base =? 3) || (base =? 5)) with true by lia. lia.
Qed.

(** The system call of a privileged caller: the error code, and the outcome of
    the turn it takes. *)
Lemma sys_setscheduler_spec (w : World) (st : KState) pid pid' k base (fork : bool) pri :
  0 <= pid -> find_process_by_pid st pid = Some (pid', k) ->
  valid_policy base = true -> dl_policy base = false -> - 2 ^ 31 <= pri < 2 ^ 31 ->
  coherent (k_task k) -> (forall d, w_top w pid' = Some d -> -1 <= donor_prio d) ->
  privileged (w_caller w pid') -> changeable (w_place w pid') k ->
  let attr := legacy_attr (k_task k) (policy_arg base fork) pri in
  exists e s' k' ev,
    sys_sched_setscheduler reweight_task w st pid (policy_arg base fork) (Some (Some pri)) = Ok (e, update st pid' s' k', ev) /\
    e = (if (sched_get_priority_min base <=? pri) && (pri <=? sched_get_priority_max base) then 0 else - EINVAL) /\
    outcome attr true (quiet_turn w pid' k) e k' ev /\
    (e = 0 -> granted attr (k_task k) (k_task k') /\ policy (k_task k') = base /\ sched_reset_on_fork (k_task k') = fork).
Proof.
  intros Hpid Hfind Hv Hd Hpri Hw Hb Hp Hc attr. destruct (policy_arg_lor base fork Hv) as [_ Hnn].
  unfold sys_sched_setscheduler, do_sched_setscheduler, sched_setscheduler, _sched_setscheduler.
  destruct (Z.ltb_spec (policy_arg base fork) 0); [lia|]. destruct (Z.ltb_spec pid 0); [lia|].
  rewrite Hfind. set (t := quiet_turn w pid' k). change (k_task (t_read t)) with (k_task k). fold attr.
  destruct (legacy_facts (k_task k) base fork pri Hv) as (E1 & E2 & E3 & E4 & Hbase). fold attr in E1, E2, E3, E4.
  assert (attr_ok attr) as Ha.
  { unfold attr_ok. rewrite E1, E3, E4, task_nice_static. destruct Hw as [? _]. unfold u32.
    pose proof (Z.mod_pos_bound pri (2 ^ 32) ltac:(lia)). lia. }
  assert (turn_ok t) as Ht by (split; [exact Hw | exact Hb | apply Hw]).
  assert (requested attr (k_task k) = base) as Ereq
    by (unfold requested, SETPARAM_POLICY; rewrite E1; destruct (Z.eqb_spec base (-1)); [lia | reflexivity]).
  destruct (setscheduler_ends (w_caller w pid') true true attr [t] (ks_sys st) Ha) as [[_ Hno]|(t' & e & s' & k' & ev & Hin & Hrun & Ho & Hchk)];
    [constructor; [exact Ht | constructor] | inversion Hno as [|? ? Hd' _]; destruct Hd'; right; reflexivity|].
  apply list_elem_of_singleton in Hin as ->. rewrite Hrun. cbn [mbind res_bind].
  exists e, s', k', ev. split; [reflexivity|]. split; [|split; [exact Ho|]].
  - pose proof (privileged_code (w_caller w pid') attr (ks_sys st) k (w_place w pid') (w_top w pid') (e, s', k', ev) Hp Hc) as He.
    rewrite E1, E2 in He. specialize (He ltac:(repeat split) ltac:(lia) Hv Hd Hrun). cbn [fst] in He.
    rewrite He, (params_range attr base pri Hv Hd) by (rewrite ?E2; assumption || reflexivity). reflexivity.
  - intros He. assert (flag_keep_params (sched_flags attr) = false) as Ek by (rewrite E2; reflexivity).
    subst e. pose proof (out_granted _ _ _ _ _ Ho Ek) as Hg. split; [exact Hg|].
    destruct (Hchk eq_refl) as (reset & old & Hch & Hrs).
    destruct (chk_given _ _ _ _ _ _ _ Hch) as (_ & _ & _ & Efl); [rewrite E1; lia|]. rewrite E2 in Efl. cbn in Efl.
    split; [rewrite (proj1 Hg); exact Ereq | congruence].
Qed.

Lemma find_update (st : KState) pid pid' k s' k' : find_process_by_pid st pid = Some (pid', k) ->
  find_process_by_pid (update st pid' s' k') pid = Some (pid', k') /\ ks_tasks st !! pid' = Some k.
Proof.
  unfold find_process_by_pid. cbn. intros Hfind. destruct (ks_tasks st !! _) eqn:El in Hfind; [|discriminate].
  injection Hfind as <- <-. rewrite lookup_insert_eq. auto.
Qed.

(** For a privileged caller [sched_setscheduler] accepts exactly the
    priorities between [sched_get_priority_min] and [sched_get_priority_max] of
    the policy, any [int] and with or without the reset flag, and answers
    [EINVAL] for the others, changing no task. After a success
    [sched_getscheduler] and [sched_getparam] return what was set, flag
    included. *)
Theorem setscheduler_roundtrip (w : World) (st : KState) pid pid' k base fork pri :
  0 <= pid -> find_process_by_pid st pid = Some (pid', k) ->
  valid_policy base = true -> dl_policy base = false -> - 2 ^ 31 <= pri < 2 ^ 31 ->
  coherent (k_task k) -> (forall d, w_top w pid' = Some d -> -1 <= donor_prio d) ->
  privileged (w_caller w pid') -> changeable (w_place w pid') k ->
  exists st' ev,
    sys_sched_setscheduler reweight_task w st pid (policy_arg base fork) (Some (Some pri)) =
      Ok (if (sched_get_priority_min base <=? pri) && (pri <=? sched_get_priority_max base) then 0 else - EINVAL, st', ev) /\
    if (sched_get_priority_min base <=? pri) && (pri <=? sched_get_priority_max base)
    then sys_sched_getscheduler (fun _ => 0) st' pid = policy_arg base fork /\
         sys_sched_getparam (fun _ => 0) st' pid false true = (0, Some pri)
    else ks_tasks st' = ks_tasks st /\ ev = [].
Proof.
  intros Hpid Hfind Hv Hd Hpri Hw Hb Hp Hc.
  destruct (sys_setscheduler_spec w st pid pid' k base fork pri Hpid Hfind Hv Hd Hpri Hw Hb Hp Hc)
    as (e & s' & k' & ev & -> & He & Ho & Hg).
  destruct (find_update st pid pid' k s' k' Hfind) as [Hfind' Hlook].
  destruct (policy_arg_lor base fork Hv) as [Elor _]. destruct (legacy_facts (k_task k) base fork pri Hv) as (_ & _ & _ & E4 & _).
  exists (update st pid' s' k'), ev. destruct (_ && _) eqn:Erange; subst e; (split; [reflexivity|]).
  - destruct (Hg eq_refl) as ((_ & G2 & _) & G1 & Hrs).
    unfold sys_sched_getscheduler, sys_sched_getparam. destruct (Z.ltb_spec pid 0); [lia|]. cbn [orb].
    rewrite Hfind'. cbn [negb Z.eqb]. rewrite G1, G2, Hrs, E4. split; [exact Elor|].
    f_equal. f_equal. apply range_value; assumption.
  - destruct (out_error _ _ _ _ _ _ Ho) as [-> ->]; [errno|]. split; [|reflexivity]. apply insert_id, Hlook.
Qed.
End Facts.

(** * Examples *)

(** A deadline class that refuses every request. *)
Definition no_deadline : Deadline := {|
  __checkparam_dl _ := false;
  dl_param_changed _ _ := false;
  sched_dl_overflow _ _ _ := true;
  __getparam_dl _ a := a
|}.

Definition sample_caller (cap : bool) : Caller :=
  mkCaller cap 20 0 1000 0 false 950000 false false true 1.

Definition sample_clamps : utask := Uclamp.sample_task 0.

Definition sample_ktask : KTask := mkKTask Priority.sample_task sample_clamps 1000 1000.

Definition sample_turn : Turn := mkTurn sample_ktask sample_ktask sample_place None.

Definition fifo_50 : sched_attr := mkAttr 1 no_flags 0 50 0 0.

Lemma sample_turn_ok : turn_ok sample_turn.
Proof. split; [exact (wf_coherent _ sample_wf) | discriminate | reflexivity]. Qed.

Lemma fifo_50_ok : attr_ok fifo_50.
Proof. unfold attr_ok. vm_compute. repeat split; discriminate. Qed.

(** A task whose policy another CPU changes before the lock is taken, once. *)
Definition fifo_ktask : KTask :=
  mkKTask (with_class (with_rt (with_normal (with_prio (with_policy Priority.sample_task 1) 89) 89) 10) rt_sched_class) sample_clamps 1000 1000.

Definition racing_turn : Turn := mkTurn fifo_ktask sample_ktask sample_place None.

(** Keep the policy, change the nice value. *)
Definition keep_policy : sched_attr := mkAttr (u32 (-1)) no_flags 7 0 0 0.

Lemma keep_policy_ok : attr_ok keep_policy.
Proof. unfold attr_ok. vm_compute. repeat split; discriminate. Qed.

Lemma turns_ok : Forall turn_ok [racing_turn; sample_turn].
Proof.
  constructor; [|constructor; [exact sample_turn_ok | constructor]].
  split; [exact (wf_coherent _ sample_wf) | discriminate | reflexivity].
Qed.

(** The request for 7 is made of a task that is SCHED_FIFO when it is first read. *)
Lemma setscheduler_correct_witness :
  exists e s' k' ev, setscheduler (DL := no_deadline) reweight_ref (sample_caller true) fifo_50 true false sample_sys [racing_turn; sample_turn]
    = Ok (e, s', k', ev) /\ coherent (k_task k').
Proof.
  destruct (setscheduler_correct (DL := no_deadline) reweight_ref reweight_ref_ok (sample_caller true) true false fifo_50
    sample_sys [racing_turn; sample_turn] fifo_50_ok turns_ok) as [[_ H]|(t & e & s' & k' & ev & _ & E & Hw & _)].
  - inversion H as [|? ? Hd _]. destruct Hd. left. vm_compute. discriminate.
  - exists e, s', k', ev. split; [exact E | exact Hw].
Defined.

(** The owner without the capability lowers the priority of its task. *)
Definition nicer : sched_attr := mkAttr 0 no_flags 5 0 0 0.

Definition nicer_result :=
  Eval vm_compute in setscheduler (DL := no_deadline) reweight_ref (sample_caller false) nicer true true sample_sys [sample_turn].

Definition nicer_task : usys * KTask * list Ev :=
  match nicer_result with Ok (_, s, k, ev) => (s, k, ev) | _ => (sample_sys, sample_ktask, []) end.

Lemma setscheduler_unprivileged_witness :
  exists t, t ∈ [sample_turn] /\ (caller_euid (sample_caller false) = k_euid (t_read t) \/ caller_euid (sample_caller false) = k_uid (t_read t)).
Proof.
  destruct (setscheduler_unprivileged (DL := no_deadline) reweight_ref reweight_ref_ok (sample_caller false) true nicer
    sample_sys [sample_turn] (fst (fst nicer_task)) (snd (fst nicer_task)) (snd nicer_task)) as (t & Hin & Ho & _).
  - unfold attr_ok. vm_compute. repeat split; discriminate.
  - constructor; [exact sample_turn_ok | constructor].
  - reflexivity.
  - vm_compute. reflexivity.
  - exists t. split; [exact Hin | exact Ho].
Defined.

(** The same caller asks for [SCHED_IDLE] with the nice value -20, which it may not
    have: the call succeeds and the priority becomes 100. *)
Definition idle_minus_20 : sched_attr := mkAttr 5 no_flags (-20) 0 0 0.

Lemma idle_prio_unchecked :
  match setscheduler (DL := no_deadline) reweight_ref (sample_caller false) idle_minus_20 true true sample_sys [sample_turn] with
  | Ok (e, _, k, _) => e = 0 /\ prio (k_task k) = 100 /\ task_nice (k_task k) = 0
  | _ => False
  end /\
  match setscheduler (DL := no_deadline) reweight_ref (sample_caller false) (mkAttr 0 no_flags (-20) 0 0 0) true true sample_sys [sample_turn] with
  | Ok (e, _, _, _) => e = - EPERM
  | _ => False
  end.
Proof. vm_compute. auto. Qed.

Definition sample_kernel : KState := mkKState {[7 := sample_ktask]} 7 sample_sys.

Definition sample_world : World := mkWorld (fun _ => sample_caller true) (fun _ => sample_place) (fun _ => None).

Lemma setscheduler_roundtrip_witness :
  exists st' ev, sys_sched_setscheduler (DL := no_deadline) reweight_ref sample_world sample_kernel 0 (policy_arg 2 true) (Some (Some 99))
    = Ok (0, st', ev) /\ sys_sched_getparam (fun _ => 0) st' 0 false true = (0, Some 99).
Proof.
  destruct (setscheduler_roundtrip (DL := no_deadline) reweight_ref reweight_ref_ok sample_world sample_kernel 0 7 sample_ktask 2 true 99)
    as (st' & ev & E & _ & Hp).
  - lia.
  - reflexivity.
  - reflexivity.
  - reflexivity.
  - lia.
  - exact (wf_coherent _ sample_wf).
  - discriminate.
  - split; [reflexivity|]. split; [reflexivity | discriminate].
  - split; reflexivity.
  - exists st', ev. split; [exact E | exact Hp].
Defined.

(** [sched_setattr] with [SCHED_IDLE] and another nice value than the task's:
    the priority is computed from the request, the normal priority from the
    nice value of the task, which does not change. *)
Definition idle_10 : sched_attr := mkAttr 5 no_flags 10 0 0 0.

Lemma idle_prio_mismatch :
  match setscheduler (DL := no_deadline) reweight_ref (sample_caller true) idle_10 true true sample_sys [sample_turn] with
  | Ok (e, _, k, _) => e = 0 /\ prio (k_task k) = 130 /\ normal_prio (k_task k) = 120 /\ task_nice (k_task k) = 0
  | _ => False
  end.
Proof. vm_compute. auto. Qed.
