(* ===== verification/SchedFork.v ===== *)
(** What fork does to the scheduling state of a child in
    src/3/20193018_PLUS-1/core.c: [__sched_fork], [sched_fork] with the change
    that turns every child into a [SCHED_FIFO] task, and [sched_post_fork]. *)

From S2P Require Import Prelude KHeaders Uclamp Priority.
Local Open Scope Z_scope.

(** The run state of a task and the fields of its scheduling entities; [r_queued]
    is [on_rq], [task_new] the state [TASK_NEW]. *)
Record Entities := mkEntities {
  r_queued : Z;
  task_new : bool;
  se_on_rq : Z;
  exec_start : Z;
  sum_exec_runtime : Z;
  prev_sum_exec_runtime : Z;
  nr_migrations : Z;
  vruntime : Z;
  rt_time_slice : Z;
  rt_on_rq : Z;
  rt_on_list : Z;
  on_cpu_ : Z
}.

(** A task while it is created. *)
Record Child := mkChild {
  c_task : Task;
  c_entities : Entities;
  c_clamps : utask
}.

Section Fork.
  Context `{Headers} (reweight_task : Z -> res (Z * Z)) (sched_rr_timeslice : Z).

Definition __sched_fork (c : Child) : Child :=
  let e := c_entities c in
  mkChild (with_timeout (c_task c) 0)
    (mkEntities 0 (task_new e) 0 0 0 0 0 0 sched_rr_timeslice 0 0 (on_cpu_ e))
    (c_clamps c).

(** Reverting to the default policy when the parent asked for it. *)
Definition fork_reset_params (p : Task) : Task :=
  if dl_policy (policy p) || rt_policy (policy p)
  then with_rt (with_static (with_policy p SCHED_NORMAL) (NICE_TO_PRIO 0)) 0
  else if PRIO_TO_NICE (static_prio p) <? 0 then with_static p (NICE_TO_PRIO 0) else p.

Definition fork_reset (p : Task) : res Task :=
  if sched_reset_on_fork p then
    let p := fork_reset_params p in
    let p := with_prio (with_normal p (static_prio p)) (static_prio p) in
    p ← set_load_weight reweight_task p false;
    mret (with_reset p false)
  else mret p.

(** The modified lines. *)
Definition fork_fifo (p : Task) : Task := with_rt (with_prio (with_policy p SCHED_FIFO) (NICE_TO_PRIO (-30))) 99.

(** [parent_normal] is the normal priority of the forking task. The result is
    the returned value and the child. *)
Definition sched_fork (parent_normal : Z) (c : Child) : res (Z * Child) :=
  let c := __sched_fork c in
  let e := c_entities c in
  let e := mkEntities (r_queued e) true (se_on_rq e) (exec_start e) (sum_exec_runtime e) (prev_sum_exec_runtime e)
             (nr_migrations e) (vruntime e) (rt_time_slice e) (rt_on_rq e) (rt_on_list e) (on_cpu_ e) in
  let p := with_prio (c_task c) parent_normal in
  let u := uclamp_fork (c_clamps c) in
  p ← fork_reset p;
  let p := fork_fifo p in
  if dl_prio (prio p) then mret (- EAGAIN, mkChild p e u)
  else
    let p := with_class p (if rt_prio (prio p) then rt_sched_class else fair_sched_class) in
    mret (0, mkChild p
      (mkEntities (r_queued e) (task_new e) (se_on_rq e) (exec_start e) (sum_exec_runtime e) (prev_sum_exec_runtime e)
         (nr_migrations e) (vruntime e) (rt_time_slice e) (rt_on_rq e) (rt_on_list e) 0) u).

Definition sched_post_fork (s : usys) (c : Child) : Child :=
  mkChild (c_task c) (c_entities c) (uclamp_post_fork s (c_clamps c)).
End Fork.

(** * What a child is *)

Section Facts.
  Context `{HeadersOk} (reweight_task : Z -> res (Z * Z)) (slice : Z).

(** What every child has, whatever its parent was. *)
Record fifo_child (c : Child) : Prop := {
  fc_policy : policy (c_task c) = SCHED_FIFO;
  fc_prio : prio (c_task c) = 90;
  fc_rt : rt_priority (c_task c) = 99;
  fc_class : sched_class (c_task c) = rt_sched_class;
  fc_timeout : rt_timeout (c_task c) = 0;
  fc_new : task_new (c_entities c) = true;
  fc_off : r_queued (c_entities c) = 0 /\ se_on_rq (c_entities c) = 0 /\ rt_on_rq (c_entities c) = 0 /\ on_cpu_ (c_entities c) = 0;
  fc_clock : sum_exec_runtime (c_entities c) = 0 /\ vruntime (c_entities c) = 0;
  fc_slice : rt_time_slice (c_entities c) = slice
}.

Lemma reset_params_spec p : 
  static_prio (fork_reset_params p) =
    (if rt_policy (policy p) || dl_policy (policy p) || (task_nice p <? 0) then 120 else static_prio p) /\
  rt_timeout (fork_reset_params p) = rt_timeout p.
Proof.
  unfold fork_reset_params, task_nice. rewrite nice_prio, (orb_comm (rt_policy _)).
  destruct (dl_policy (policy p) || rt_policy (policy p)); [auto|]. cbn [orb].
  destruct (PRIO_TO_NICE (static_prio p) <? 0); auto.
Qed.

(** The nice value and the normal priority a child keeps. *)
Definition child_static (p : Task) : Z :=
  if sched_reset_on_fork p && (rt_policy (policy p) || dl_policy (policy p) || (task_nice p <? 0)) then 120 else static_prio p.

Definition child_normal (p : Task) : Z := if sched_reset_on_fork p then child_static p else normal_prio p.

Lemma fork_reset_ok p : 100 <= static_prio p <= 139 -> exists p', fork_reset reweight_task p = Ok p' /\
  sched_reset_on_fork p' = false /\ rt_timeout p' = rt_timeout p /\ static_prio p' = child_static p /\
  normal_prio p' = (if sched_reset_on_fork p then static_prio p' else normal_prio p) /\ 100 <= static_prio p' <= 139.
Proof.
  intros Hs. unfold fork_reset, child_static. destruct (sched_reset_on_fork p) eqn:Er; [|eauto 10].
  destruct (reset_params_spec p) as [Es Et]. set (p1 := fork_reset_params p) in *. cbv zeta. cbn [andb].
  set (p2 := with_prio _ _).
  assert (100 <= static_prio p2 <= 139) as H2.
  { change (static_prio p2) with (static_prio p1). rewrite Es. destruct (_ || _); lia. }
  unfold set_load_weight. cbn [andb]. destruct prio_range as [-> _].
  destruct (idle_policy (policy p2)); [eexists; split; [reflexivity|]; auto 6|].
  destruct (tables_lookup (static_prio p2 - 100)) as (w & m & Hw & Hm); [lia|].
  rewrite (aget_ok_Z sched_prio_to_weight _ w) by (lia || exact Hw). cbn [mbind res_bind].
  rewrite (aget_ok_Z sched_prio_to_wmult _ m) by (lia || exact Hm).
  eexists. split; [reflexivity|]. auto 6.
Qed.

(** The end of a boost of a child whose normal priority is one of the fair
    class. *)
Lemma deboost_child at_ p : 100 <= normal_prio p <= 139 -> prio p = 90 -> is_idle at_ = false ->
  exists p' ev, rt_mutex_setprio at_ p None = Ok (p', ev) /\
    policy p' = policy p /\ sched_class p' = fair_sched_class /\ prio p' = normal_prio p.
Proof.
  intros Hn Hp Hi. unfold rt_mutex_setprio. cbn [__rt_effective_prio]. rewrite Hi, !dl_prio_spec, !rt_prio_spec.
  rewrite Hp. cbv zeta. change (prio (with_pi_top p _)) with (prio p). rewrite Hp.
  destruct (Z.eqb_spec (normal_prio p) 90); [lia|]. rewrite andb_false_r. cbn [andb].
  destruct (Z.ltb_spec (normal_prio p) 0); [lia|]. destruct (Z.ltb_spec (normal_prio p) 100); [lia|].
  cbn [mbind res_bind]. eexists _, _. split; [reflexivity|]. cbn. split; [reflexivity|]. split; [|reflexivity].
  unfold class_of. rewrite dl_prio_spec, rt_prio_spec. compare_cases; reflexivity || lia.
Qed.

(** C39: fork of any task of this kernel, itself a child of [sched_fork] or not and
    also a deadline task, succeeds and makes the child a [SCHED_FIFO] task of
    priority 90 with real-time priority 99, new, on no queue, with fresh clocks. The
    child is again a task of this kernel, so this goes on for all its descendants,
    but it is never well-formed: its normal priority is the parent's (or that of a
    nice value, when the parent asked for a reset) and not the one of its policy.
    The next end of a boost therefore moves it to that normal priority: into the
    fair class, while its policy stays [SCHED_FIFO], whenever that is a priority of
    the fair class. *)
Theorem sched_fork_child p e u at_ : coherent p ->
  exists c, sched_fork reweight_task slice (normal_prio p) (mkChild p e u) = Ok (0, c) /\ fifo_child c /\
    sched_reset_on_fork (c_task c) = false /\ coherent (c_task c) /\ ~ wf (c_task c) /\
    static_prio (c_task c) = child_static p /\ normal_prio (c_task c) = child_normal p /\
    (100 <= child_normal p -> is_idle at_ = false ->
     exists p' ev, rt_mutex_setprio at_ (c_task c) None = Ok (p', ev) /\
       policy p' = SCHED_FIFO /\ sched_class p' = fair_sched_class /\ prio p' = child_normal p).
Proof.
  intros Hw. pose proof Hw as (Hs & _ & _ & Hnr & _). unfold sched_fork. cbv zeta. cbn [__sched_fork c_task c_entities c_clamps].
  set (p1 := with_prio _ _). destruct (fork_reset_ok p1 Hs) as (p2 & -> & Hr & Ht & Hst & Hn & Hs2).
  change (child_static p1) with (child_static p) in *. change (sched_reset_on_fork p1) with (sched_reset_on_fork p) in Hn.
  change (normal_prio p1) with (normal_prio p) in Hn. rewrite Hst in Hn. fold (child_normal p) in Hn.
  cbn [mbind res_bind]. change (prio (fork_fifo p2)) with (NICE_TO_PRIO (-30)). rewrite nice_prio, dl_prio_spec, rt_prio_spec.
  cbn [Z.ltb Z.add Z.opp Z.compare Pos.compare Pos.compare_cont Z.pos_sub Pos.pred_double Pos.add].
  destruct policies as (_ & Pf & _). eexists. split; [reflexivity|]. cbn [c_task].
  set (c := with_class _ _). assert (prio c = 90) as Hp90 by (cbn; rewrite nice_prio; reflexivity).
  assert (100 <= child_static p <= 139) as Hsr by (rewrite <- Hst; exact Hs2).
  assert (-1 <= child_normal p <= 139) as Hnr' by (unfold child_normal; destruct (sched_reset_on_fork p); lia).
  split; [split; cbn; auto|]. split; [exact Hr|]. split.
  { unfold coherent. rewrite Hp90. cbn. rewrite Pf, valid_spec, idle_spec, fair_spec, rt_spec, dl_spec. cbn.
    split_and!; try lia; try reflexivity; try discriminate.
    unfold class_of. rewrite dl_prio_spec, rt_prio_spec. reflexivity. }
  split; [|split; [exact Hst | split; [exact Hn|]]].
  - intros (_ & _ & _ & Hnp & Hle & _). rewrite Hnp in Hle. unfold normal_prio_of, __normal_prio in Hle.
    cbn in Hle. rewrite Pf, dl_spec, rt_spec, nice_prio in Hle. destruct prio_range as [Em _]. rewrite Em in Hle. cbn in Hle. lia.
  - intros Hf Hi. change (@SCHED_FIFO _) with (policy c). rewrite <- Hn. change (normal_prio p2) with (normal_prio c).
    apply deboost_child; [|exact Hp90 | exact Hi]. change (normal_prio c) with (normal_prio p2). lia.
Qed.
End Facts.

Definition sample_entities : Entities := mkEntities 1 false 1 5 6 7 8 9 100 0 0 1.

(** A child and a child of that child. *)
Lemma sched_fork_child_witness :
  exists c c', sched_fork reweight_ref 100 120 (mkChild Priority.sample_task sample_entities (Uclamp.sample_task 0)) = Ok (0, c) /\
    sched_fork reweight_ref 100 (normal_prio (c_task c)) (mkChild (c_task c) sample_entities (Uclamp.sample_task 0)) = Ok (0, c') /\
    policy (c_task c') = 1 /\ normal_prio (c_task c') = 120 /\ ~ wf (c_task c').
Proof.
  destruct (sched_fork_child reweight_ref 100 Priority.sample_task sample_entities (Uclamp.sample_task 0) sample_place
    (wf_coherent _ sample_wf)) as (c & E & _ & Hr & Hc & _ & _ & Hn & _).
  destruct (sched_fork_child reweight_ref 100 (c_task c) sample_entities (Uclamp.sample_task 0) sample_place Hc)
    as (c' & E' & Hf & _ & _ & Hw & _ & Hn' & _).
  exists c, c'. split; [exact E|]. split; [exact E'|]. split; [exact (fc_policy _ _ Hf)|]. split; [|exact Hw].
  rewrite Hn'. unfold child_normal at 1. rewrite Hr, Hn. reflexivity.
Defined.
