(* ===== verification/TaskStates.v ===== *)
(** The states of a task, in src/3/20193018_PLUS-1/sched.h. *)

From S2P Require Import Prelude.
Local Open Scope Z_scope.

(** A set of states is the [or] of them. *)
Definition TASK_RUNNING : Z := 0.
Definition TASK_INTERRUPTIBLE : Z := 1.
Definition TASK_UNINTERRUPTIBLE : Z := 2.
Definition __TASK_STOPPED : Z := 4.
Definition __TASK_TRACED : Z := 8.
Definition TASK_PARKED : Z := 64.
Definition TASK_DEAD : Z := 128.
Definition TASK_WAKEKILL : Z := 256.
Definition TASK_WAKING : Z := 512.
Definition TASK_NOLOAD : Z := 1024.
Definition TASK_NEW : Z := 2048.
Definition TASK_NORMAL : Z := Z.lor TASK_INTERRUPTIBLE TASK_UNINTERRUPTIBLE.

(** [x & y] as a condition of C. *)
Definition meets (x y : Z) : bool := negb (Z.land x y =? 0).

Definition is_special_task_state (state : Z) : bool :=
  meets state (Z.lor (Z.lor __TASK_STOPPED __TASK_TRACED) (Z.lor TASK_PARKED TASK_DEAD)).
