(* ===== verification/Schedule.v ===== *)
(** The context switch in src/3/20193018_PLUS-1/core.c: [__schedule] on one CPU
    with the lines added to measure CPU bursts, [deactivate_task] and
    [do_task_dead]; the flags of sched.h. A task that was
    switched out keeps the local variable [next] of its suspended call. *)

From S2P Require Import Prelude KHeaders TaskStates.
Local Open Scope Z_scope.

(** * State *)

Definition PF_EXITING : Z := 4.
Definition PF_NOFREEZE : Z := 32768.
Definition PF_FROZEN : Z := 65536.

Definition SM_NONE : Z := 0.
Definition SM_PREEMPT : Z := 1.
Definition SM_MASK_PREEMPT : Z := 2 ^ 32 - 1.

(** The fields of a task that the switch reads or writes; [frame] is the
    variable [next] of the [__schedule] call in which the task is suspended. *)
Record STask := mkST {
  state : Z;
  flags : Z;
  on_rq : Z;
  in_iowait : bool;
  contributes : bool;
  need_resched : bool;
  nvcsw : Z;
  nivcsw : Z;
  cpu_burst : Z;
  cpu_burst_start : Z;
  frame : option Z
}.

Record RunQueue := mkRQ {
  curr : Z;
  tasks : gmap Z STask;
  nr_switches : Z;
  nr_uninterruptible : Z;
  nr_iowait : Z
}.

Definition set_state (t : STask) (v : Z) : STask :=
  mkST v (flags t) (on_rq t) (in_iowait t) (contributes t) (need_resched t) (nvcsw t) (nivcsw t) (cpu_burst t) (cpu_burst_start t) (frame t).
Definition set_flags (t : STask) (v : Z) : STask :=
  mkST (state t) v (on_rq t) (in_iowait t) (contributes t) (need_resched t) (nvcsw t) (nivcsw t) (cpu_burst t) (cpu_burst_start t) (frame t).
Definition set_contributes (t : STask) (v : bool) : STask :=
  mkST (state t) (flags t) (on_rq t) (in_iowait t) v (need_resched t) (nvcsw t) (nivcsw t) (cpu_burst t) (cpu_burst_start t) (frame t).
Definition set_on_rq (t : STask) (v : Z) : STask :=
  mkST (state t) (flags t) v (in_iowait t) (contributes t) (need_resched t) (nvcsw t) (nivcsw t) (cpu_burst t) (cpu_burst_start t) (frame t).
Definition clear_need_resched (t : STask) : STask :=
  mkST (state t) (flags t) (on_rq t) (in_iowait t) (contributes t) false (nvcsw t) (nivcsw t) (cpu_burst t) (cpu_burst_start t) (frame t).
Definition count_switch (t : STask) (voluntary : bool) : STask :=
  mkST (state t) (flags t) (on_rq t) (in_iowait t) (contributes t) (need_resched t)
    (if voluntary then nvcsw t + 1 else nvcsw t) (if voluntary then nivcsw t else nivcsw t + 1) (cpu_burst t) (cpu_burst_start t) (frame t).
Definition set_burst (t : STask) (v : Z) : STask :=
  mkST (state t) (flags t) (on_rq t) (in_iowait t) (contributes t) (need_resched t) (nvcsw t) (nivcsw t) v (cpu_burst_start t) (frame t).
Definition set_burst_start (t : STask) (v : Z) : STask :=
  mkST (state t) (flags t) (on_rq t) (in_iowait t) (contributes t) (need_resched t) (nvcsw t) (nivcsw t) (cpu_burst t) v (frame t).
Definition set_frame (t : STask) (v : option Z) : STask :=
  mkST (state t) (flags t) (on_rq t) (in_iowait t) (contributes t) (need_resched t) (nvcsw t) (nivcsw t) (cpu_burst t) (cpu_burst_start t) v.

(** A task structure; using one that was released is undefined. *)
Definition task_of (q : RunQueue) (t : Z) : res STask :=
  match tasks q !! t with Some s => Ok s | None => Undef end.

Definition with_tasks (q : RunQueue) (ts : gmap Z STask) : RunQueue :=
  mkRQ (curr q) ts (nr_switches q) (nr_uninterruptible q) (nr_iowait q).

Definition put (q : RunQueue) (t : Z) (s : STask) : RunQueue := with_tasks q (<[t := s]> (tasks q)).

(** * Operations *)

Section Schedule.
  (** [signal_pending_state] of sched/signal.h; the choice of
      [pick_next_task]; the two readings of the clock. *)
  Context (signal_pending_state : Z -> STask -> bool).

(** [DEQUEUE_SLEEP] and the migration mark; leaving the class's queue is part
    of the class. *)
Definition deactivate_task (p : STask) (sleep : bool) : STask := set_on_rq p (if sleep then 0 else 2).

(** Going to sleep: the task, the queue's counters, and whether the switch
    counts as voluntary. *)
Definition schedule_block (q : RunQueue) (prev : STask) (mode : Z) : STask * RunQueue * bool :=
  if (Z.land mode SM_MASK_PREEMPT =? 0) && negb (state prev =? 0) then
    if signal_pending_state (state prev) prev then (set_state prev TASK_RUNNING, q, true)
    else
      let load := negb (Z.land (state prev) TASK_UNINTERRUPTIBLE =? 0) &&
                  (Z.land (state prev) TASK_NOLOAD =? 0) && (Z.land (flags prev) PF_FROZEN =? 0) in
      let prev := deactivate_task (set_contributes prev load) true in
      (prev, mkRQ (curr q) (tasks q) (nr_switches q) (nr_uninterruptible q + if load then 1 else 0)
               (nr_iowait q + if in_iowait prev then 1 else 0), true)
  else (prev, q, false).

(** The code after the switch, in the call of the task that runs again. *)
Definition resume (q : RunQueue) (now : Z) : res RunQueue :=
  t ← task_of q (curr q);
  match frame t with
  | None => mret q
  | Some next =>
      n ← task_of q next;
      let q := put q next (set_burst_start n now) in
      t ← task_of q (curr q);
      mret (put q (curr q) (set_frame t None))
  end.

(** [now1] is the clock before the switch, [now2] after it. *)
Definition __schedule (pick : RunQueue -> Z) (now1 now2 : Z) (mode : Z) (q : RunQueue) : res RunQueue :=
  let prev := curr q in
  p ← task_of q prev;
  let '(p, q, voluntary) := schedule_block q p mode in
  let next := pick (put q prev p) in
  let p := clear_need_resched p in
  if negb (prev =? next) then
    let p := count_switch p voluntary in
    let p := if state p =? TASK_RUNNING then set_burst p (u64 (now1 - cpu_burst_start p)) else p in
    let p := set_frame p (Some next) in
    resume (mkRQ next (<[prev := p]> (tasks q)) (nr_switches q + 1) (nr_uninterruptible q) (nr_iowait q)) now2
  else mret (put q prev p).

(** Reaching the [BUG] is undefined. *)
Definition do_task_dead (pick : RunQueue -> Z) (now1 now2 : Z) (q : RunQueue) : res RunQueue :=
  let prev := curr q in
  p ← task_of q prev;
  let p := set_flags (set_state p TASK_DEAD) (Z.lor (flags p) PF_NOFREEZE) in
  q' ← __schedule pick now1 now2 SM_NONE (put q prev p);
  if curr q' =? prev then Undef else mret q'.
End Schedule.

(** * Frames *)

Section Facts.
  Context (signal_pending_state : Z -> STask -> bool).
  Abbreviation schedule := (__schedule signal_pending_state).

(** The running task is not suspended; the frame of a suspended task names
    another task that still exists. *)
Record frames_ok (q : RunQueue) : Prop := {
  fr_curr : exists p, tasks q !! curr q = Some p /\ frame p = None;
  fr_frame t s m : tasks q !! t = Some s -> frame s = Some m -> m <> t /\ is_Some (tasks q !! m)
}.

Lemma block_keeps q p mode : let '(p', q', _) := schedule_block signal_pending_state q p mode in
  tasks q' = tasks q /\ curr q' = curr q /\ nr_switches q' = nr_switches q /\
  frame p' = frame p /\ cpu_burst p' = cpu_burst p /\ cpu_burst_start p' = cpu_burst_start p.
Proof. unfold schedule_block. repeat case_match; simplify_eq; auto 10. Qed.

(** The state [prev] is left in. *)
Definition state_after (p : STask) (mode : Z) : Z :=
  if (Z.land mode SM_MASK_PREEMPT =? 0) && negb (state p =? 0) && signal_pending_state (state p) p
  then TASK_RUNNING else state p.

Lemma block_state q p mode : let '(p', _, _) := schedule_block signal_pending_state q p mode in
  state p' = state_after p mode.
Proof. unfold schedule_block, state_after. destruct (_ && _); [|reflexivity]. destruct (signal_pending_state _ _); reflexivity. Qed.

Lemma if_distr_some {A} (b : bool) (x y : A) : Some (if b then x else y) = if b then Some x else Some y.
Proof. destruct b; reflexivity. Qed.

Lemma task_of_some q t s : tasks q !! t = Some s -> task_of q t = Ok s.
Proof. unfold task_of. intros ->. reflexivity. Qed.

Lemma resume_spec q n : tasks q !! curr q = Some n ->
  (forall m, frame n = Some m -> m <> curr q /\ is_Some (tasks q !! m)) ->
  forall now, exists q', resume q now = Ok q' /\ curr q' = curr q /\ nr_switches q' = nr_switches q /\
    tasks q' !! curr q = Some (set_frame n None) /\
    forall t, t <> curr q ->
      tasks q' !! t = if bool_decide (frame n = Some t) then (fun s => set_burst_start s now) <$> tasks q !! t
                      else tasks q !! t.
Proof.
  intros Hn Hf now. unfold resume. rewrite (task_of_some _ _ _ Hn). cbn [mbind res_bind].
  destruct (frame n) as [m|] eqn:Em.
  - destruct (Hf m eq_refl) as [Hne [sm Hm]]. rewrite (task_of_some _ _ _ Hm). cbn [mbind res_bind].
    rewrite (task_of_some (put q m _) (curr q) n) by (cbn; rewrite lookup_insert_ne by exact Hne; exact Hn).
    cbn [mbind res_bind]. eexists. split; [reflexivity|]. cbn. do 2 (split; [reflexivity|]).
    split; [apply lookup_insert_eq|]. intros t Ht. rewrite lookup_insert_ne by congruence.
    destruct (decide (m = t)) as [->|Hmt].
    + rewrite lookup_insert_eq, bool_decide_true, Hm by reflexivity. reflexivity.
    + rewrite lookup_insert_ne, bool_decide_false by congruence. reflexivity.
  - eexists. split; [reflexivity|]. do 2 (split; [reflexivity|]).
    split; [rewrite Hn; unfold set_frame; destruct n; cbn in *; congruence|]. intros t _. rewrite bool_decide_false by discriminate. reflexivity.
Qed.

(** The tasks after a switch from [prev] to [next]. *)
Lemma switch_spec pick now1 now2 mode q p : tasks q !! curr q = Some p ->
  let '(p1, q1, vol) := schedule_block signal_pending_state q p mode in
  let next := pick (put q1 (curr q) p1) in
  forall n, next <> curr q -> tasks q !! next = Some n ->
  (forall m, frame n = Some m -> m <> next /\ is_Some (tasks q !! m)) ->
  exists q' p', schedule pick now1 now2 mode q = Ok q' /\ curr q' = next /\ nr_switches q' = nr_switches q + 1 /\
    tasks q' !! next = Some (set_frame n None) /\ tasks q' !! curr q = Some p' /\
    frame p' = Some next /\ state p' = state_after p mode /\
    cpu_burst p' = (if state p' =? TASK_RUNNING then u64 (now1 - cpu_burst_start p) else cpu_burst p) /\
    cpu_burst_start p' = (if bool_decide (frame n = Some (curr q)) then now2 else cpu_burst_start p) /\
    forall t, t <> curr q -> t <> next ->
      tasks q' !! t = if bool_decide (frame n = Some t) then (fun s => set_burst_start s now2) <$> tasks q !! t
                      else tasks q !! t.
Proof.
  intros Hp. pose proof (block_keeps q p mode) as Hk. pose proof (block_state q p mode) as Hst.
  destruct (schedule_block _ q p mode) as [[p1 q1] vol] eqn:Eb. destruct Hk as (Hts & Hc & Hsw & _ & Hb & Hbs).
  cbv zeta. set (next := pick _). intros n Hne Hn Hf.
  unfold __schedule. rewrite (task_of_some _ _ _ Hp). cbn [mbind res_bind]. rewrite Eb. fold next. cbv zeta.
  destruct (Z.eqb_spec (curr q) next); [congruence|]. cbn [negb].
  set (p2 := count_switch _ vol). set (p3 := set_frame _ (Some next)).
  destruct (resume_spec (mkRQ next (<[curr q:=p3]> (tasks q1)) (nr_switches q1 + 1) (nr_uninterruptible q1) (nr_iowait q1)) n)
    with (now := now2) as (q' & -> & Hcur & Hsw' & Hnext & Hrest).
  { cbn. rewrite lookup_insert_ne, Hts by congruence. exact Hn. }
  { cbn. intros m Hm. destruct (Hf m Hm) as [? Hs]. split; [assumption|]. rewrite Hts.
    destruct (decide (curr q = m)) as [->|]; [rewrite lookup_insert_eq | rewrite lookup_insert_ne by assumption]; eauto. }
  cbn in Hcur, Hsw', Hnext, Hrest. pose proof (Hrest (curr q) (not_eq_sym Hne)) as Hprev.
  rewrite lookup_insert_eq in Hprev. cbn [fmap option_fmap option_map] in Hprev.
  rewrite <- (if_distr_some (bool_decide (frame n = Some (curr q)))) in Hprev.
  eexists q', _. split; [reflexivity|]. split; [exact Hcur|]. split; [congruence|]. split; [exact Hnext|].
  split; [exact Hprev|].
  assert (state p3 = state_after p mode /\ cpu_burst_start p3 = cpu_burst_start p /\ frame p3 = Some next /\
    cpu_burst p3 = (if state p3 =? TASK_RUNNING then u64 (now1 - cpu_burst_start p) else cpu_burst p)) as (E1 & E2 & E3 & E4).
  { unfold p3. rewrite <- Hst, <- Hb, <- Hbs. change (state p1) with (state p2).
    change (cpu_burst_start p1) with (cpu_burst_start p2). change (cpu_burst p1) with (cpu_burst p2).
    destruct (state p2 =? TASK_RUNNING) eqn:E; change (state p2) with (state p1) in E; cbn; rewrite E; auto. }
  destruct (bool_decide (frame n = Some (curr q))); cbn; split_and!; auto.
  - intros t Ht1 Ht2. rewrite Hrest, lookup_insert_ne, Hts by congruence. reflexivity.
  - intros t Ht1 Ht2. rewrite Hrest, lookup_insert_ne, Hts by congruence. reflexivity.
Qed.

(** * What happens on one CPU *)

(** The choice is one of the existing tasks. *)
Definition picks (pick : RunQueue -> Z) (q : RunQueue) : Prop :=
  forall r, (forall t, is_Some (tasks q !! t) -> is_Some (tasks r !! t)) -> is_Some (tasks q !! pick r).

(** A switch to a task that exists, a wake-up, a fork. No task is released. *)
Inductive kstep : RunQueue -> RunQueue -> Prop :=
  | k_schedule pick now1 now2 mode q q' :
      picks pick q -> schedule pick now1 now2 mode q = Ok q' -> kstep q q'
  | k_wake q t s : t <> curr q -> tasks q !! t = Some s ->
      kstep q (put q t (set_on_rq (set_state s TASK_RUNNING) 1))
  | k_fork q t s : tasks q !! t = None -> frame s = None -> kstep q (put q t s).

(** Replacing a task by one with the same frame, or adding a new one. *)
Lemma put_frames q q' t s : frames_ok q -> curr q' = curr q -> tasks q' = <[t := s]> (tasks q) ->
  (forall s', tasks q !! t = Some s' -> frame s = frame s') -> (tasks q !! t = None -> frame s = None) ->
  frames_ok q'.
Proof.
  intros [(p & Hp & Hpf) Hf] Hc Ht Hold Hnew. split.
  - rewrite Hc, Ht. destruct (decide (t = curr q)) as [->|Hne].
    + exists s. rewrite lookup_insert_eq, (Hold p Hp). auto.
    + exists p. rewrite lookup_insert_ne by exact Hne. auto.
  - intros u r m. rewrite Ht. intros Hu Hm. assert (m <> u /\ is_Some (tasks q !! m)) as [Hne Hs].
    { destruct (decide (t = u)) as [->|Hne]; [|rewrite lookup_insert_ne in Hu by exact Hne; eauto].
      rewrite lookup_insert_eq in Hu. injection Hu as <-.
      destruct (tasks q !! u) as [s'|] eqn:Eu; [rewrite (Hold _ eq_refl) in Hm; eauto | rewrite Hnew in Hm; [discriminate | reflexivity]]. }
    split; [exact Hne|]. destruct (decide (t = m)) as [->|Hmt];
      [rewrite lookup_insert_eq | rewrite lookup_insert_ne by exact Hmt]; eauto.
Qed.

(** The frames after a switch. *)
Lemma switch_frames q q' p' next n now2 : frames_ok q -> next <> curr q -> tasks q !! next = Some n ->
  curr q' = next -> tasks q' !! next = Some (set_frame n None) -> tasks q' !! curr q = Some p' -> frame p' = Some next ->
  (forall t, t <> curr q -> t <> next ->
     tasks q' !! t = if bool_decide (frame n = Some t) then (fun s => set_burst_start s now2) <$> tasks q !! t
                     else tasks q !! t) ->
  frames_ok q'.
Proof.
  intros [_ Hf] Hne Hn Hc Hnext Hprev Hp' Hrest. split; [exists (set_frame n None); rewrite Hc; auto|].
  assert (forall t, is_Some (tasks q !! t) -> is_Some (tasks q' !! t)) as Hdom.
  { intros t [s Hs]. destruct (decide (t = curr q)) as [->|H1]; [eauto|].
    destruct (decide (t = next)) as [->|H2]; [eauto|]. rewrite Hrest, Hs by assumption. case_bool_decide; cbn; eauto. }
  intros t s m Ht Hm. destruct (decide (t = curr q)) as [->|H1].
  - rewrite Hprev in Ht. injection Ht as <-. rewrite Hp' in Hm. injection Hm as <-. eauto.
  - destruct (decide (t = next)) as [->|H2]; [rewrite Hnext in Ht; injection Ht as <-; discriminate|].
    rewrite Hrest in Ht by assumption. destruct (tasks q !! t) as [s0|] eqn:E; [|case_bool_decide; discriminate].
    assert (frame s0 = Some m) as Hm0 by (case_bool_decide; cbn in Ht; injection Ht as <-; exact Hm).
    destruct (Hf t s0 m E Hm0). auto.
Qed.

Lemma schedule_frames q pick now1 now2 mode : frames_ok q -> picks pick q ->
  exists q', schedule pick now1 now2 mode q = Ok q' /\ frames_ok q'.
Proof.
  intros Hq Hpick. pose proof Hq as [(p & Hp & Hpf) Hf].
  pose proof (switch_spec pick now1 now2 mode q p Hp) as Hsw. pose proof (block_keeps q p mode) as Hk.
  destruct (schedule_block _ q p mode) as [[p1 q1] vol] eqn:Eb. destruct Hk as (Hts & Hc & _ & Hfr & _).
  cbv zeta in Hsw. set (next := pick _) in Hsw.
  assert (is_Some (tasks q !! next)) as [n Hn].
  { apply Hpick. intros t Ht. cbn. rewrite Hts. destruct (decide (curr q = t)) as [->|Hne];
      [rewrite lookup_insert_eq | rewrite lookup_insert_ne by exact Hne]; eauto. }
  destruct (decide (next = curr q)) as [E|Hne].
  - unfold __schedule. rewrite (task_of_some _ _ _ Hp). cbn [mbind res_bind]. rewrite Eb. fold next. cbv zeta.
    rewrite E, Z.eqb_refl. cbn [negb]. eexists. split; [reflexivity|].
    apply (put_frames q _ (curr q) (clear_need_resched p1) Hq); [exact Hc | cbn; rewrite Hts; reflexivity | |congruence].
    intros s' Hs'. cbn. congruence.
  - destruct (Hsw n Hne Hn) as (q' & p' & Hrun & Hcur & _ & Hnext & Hprev & Hpf' & _ & _ & _ & Hrest).
    { intros m Hm. destruct (Hf next n m Hn Hm). auto. }
    exists q'. split; [exact Hrun|]. eapply switch_frames; eauto.
Qed.

Lemma kstep_frames q q' : kstep q q' -> frames_ok q -> frames_ok q'.
Proof.
  intros [pick now1 now2 mode q1 q2 Hp Hrun | q1 t s _ Hs | q1 t s Hs Hf] Hq.
  - destruct (schedule_frames q1 pick now1 now2 mode Hq Hp) as (q3 & Hrun' & Hq3). congruence.
  - eapply put_frames; [exact Hq | reflexivity | reflexivity | |congruence]. intros s' Hs'. cbn. congruence.
  - eapply put_frames; [exact Hq | reflexivity | reflexivity | congruence | auto].
Qed.

(** As long as no task structure is released, [__schedule] never uses a
    missing task: from a state in which the running task is not suspended and
    every suspended task remembers another existing one, every switch to an
    existing task succeeds, and all states reached by switches, wake-ups and
    forks are such states. *)
Theorem schedule_safe q0 q : frames_ok q0 -> rtc kstep q0 q ->
  frames_ok q /\ forall pick now1 now2 mode, picks pick q ->
    exists q', schedule pick now1 now2 mode q = Ok q' /\ frames_ok q'.
Proof.
  intros H0 Hr. assert (frames_ok q) as Hq.
  { induction Hr as [q|q q1 q2 Hs _ IH]; [exact H0|]. apply IH. revert H0. apply kstep_frames, Hs. }
  split; [exact Hq|]. intros pick now1 now2 mode. apply schedule_frames, Hq.
Qed.

(** * Measured bursts *)

Lemma switch_const q p next n now1 now2 mode : frames_ok q -> tasks q !! curr q = Some p ->
  next <> curr q -> tasks q !! next = Some n ->
  exists q' p', schedule (fun _ => next) now1 now2 mode q = Ok q' /\ frames_ok q' /\ curr q' = next /\
    nr_switches q' = nr_switches q + 1 /\
    tasks q' !! next = Some (set_frame n None) /\ tasks q' !! curr q = Some p' /\
    frame p' = Some next /\ state p' = state_after p mode /\
    cpu_burst p' = (if state p' =? TASK_RUNNING then u64 (now1 - cpu_burst_start p) else cpu_burst p) /\
    cpu_burst_start p' = (if bool_decide (frame n = Some (curr q)) then now2 else cpu_burst_start p) /\
    forall t, t <> curr q -> t <> next ->
      tasks q' !! t = if bool_decide (frame n = Some t) then (fun s => set_burst_start s now2) <$> tasks q !! t
                      else tasks q !! t.
Proof.
  intros Hq Hp Hne Hn. pose proof (switch_spec (fun _ => next) now1 now2 mode q p Hp) as Hsw.
  destruct (schedule_block _ q p mode) as [[p1 q1] vol].
  destruct (Hsw n Hne Hn) as (q' & p' & Hrun & Hcur & Hnr & Hnext & Hprev & Hpf' & H1 & H2 & H3 & Hrest).
  { intros m Hm. exact (fr_frame _ Hq next n m Hn Hm). }
  exists q', p'. split; [exact Hrun|]. split; [eapply switch_frames; eauto|]. auto 10.
Qed.

(** In a switch to another task the burst of the old task is overwritten,
    and not added to, when it is still runnable, and left alone when it went to
    sleep; no other burst changes. The start of a burst is recorded for the task
    that the new task switched to when it was last switched out: the task that
    starts to run now keeps its old start. *)
Theorem schedule_bursts q p next n now1 now2 mode : frames_ok q -> tasks q !! curr q = Some p ->
  next <> curr q -> tasks q !! next = Some n ->
  exists q', schedule (fun _ => next) now1 now2 mode q = Ok q' /\ curr q' = next /\
    forall t s, tasks q !! t = Some s -> exists s', tasks q' !! t = Some s' /\
      cpu_burst s' = (if bool_decide (t = curr q) && (state_after p mode =? TASK_RUNNING)
                      then u64 (now1 - cpu_burst_start p) else cpu_burst s) /\
      cpu_burst_start s' = (if bool_decide (frame n = Some t) then now2 else cpu_burst_start s) /\
      (t = next -> cpu_burst_start s' = cpu_burst_start n).
Proof.
  intros Hq Hp Hne Hn.
  destruct (switch_const q p next n now1 now2 mode Hq Hp Hne Hn)
    as (q' & p' & Hrun & _ & Hcur & _ & Hnext & Hprev & _ & Hst & Hb & Hs & Hrest).
  exists q'. split; [exact Hrun|]. split; [exact Hcur|]. intros t s Ht.
  assert (frame n <> Some next) as Hnn.
  { intros Hm. destruct (fr_frame _ Hq next n next Hn Hm). congruence. }
  destruct (decide (t = curr q)) as [->|H1].
  - rewrite Hp in Ht. injection Ht as <-. exists p'. rewrite Hb, Hs, Hst.
    rewrite (bool_decide_true (curr q = curr q)) by reflexivity. split_and!; auto. congruence.
  - rewrite (bool_decide_false (t = curr q)) by exact H1. destruct (decide (t = next)) as [->|H2].
    + rewrite Hn in Ht. injection Ht as <-. exists (set_frame n None). rewrite bool_decide_false by exact Hnn. auto.
    + rewrite Hrest, Ht by assumption. clear Hs.
      destruct (bool_decide (frame n = Some t)); eexists; (split; [reflexivity|]); cbn; split_and!; congruence.
Qed.

(** Two runnable tasks that preempt each other: a round is four readings of the
    clock, two at the switch from [a] to [b] and two at the switch back. *)
Record Round := mkRound { leave_a : Z; enter_b : Z; leave_b : Z; enter_a : Z }.

Definition run_round (a b : Z) (q : RunQueue) (r : Round) : res RunQueue :=
  q ← schedule (fun _ => b) (leave_a r) (enter_b r) SM_PREEMPT q;
  schedule (fun _ => a) (leave_b r) (enter_a r) SM_PREEMPT q.

Fixpoint run_rounds (a b : Z) (q : RunQueue) (rs : list Round) : res RunQueue :=
  match rs with [] => Ok q | r :: rs => q ← run_round a b q r; run_rounds a b q rs end.

(** [a] runs, [b] was left for [a], both are runnable. *)
Definition taking_turns (a b : Z) (q : RunQueue) (start_a start_b : Z) : Prop :=
  frames_ok q /\ curr q = a /\ a <> b /\
  (exists s, tasks q !! a = Some s /\ state s = TASK_RUNNING /\ cpu_burst_start s = start_a) /\
  exists s, tasks q !! b = Some s /\ state s = TASK_RUNNING /\ cpu_burst_start s = start_b /\ frame s = Some a.

Lemma turn_ok a b q sa sb t1 t2 : taking_turns a b q sa sb ->
  exists q', schedule (fun _ => b) t1 t2 SM_PREEMPT q = Ok q' /\ taking_turns b a q' sb t2 /\
    exists s, tasks q' !! a = Some s /\ cpu_burst s = u64 (t1 - sa).
Proof.
  intros (Hq & Hc & Hab & (pa & Ha & Hra & Hsa) & (pb & Hb & Hrb & Hsb & Hfb)). subst a.
  destruct (switch_const q pa b pb t1 t2 SM_PREEMPT Hq Ha (not_eq_sym Hab) Hb)
    as (q' & p' & Hrun & Hq' & Hcur & _ & Hnext & Hprev & Hf & Hst & Hbu & Hs & _).
  assert (state p' = TASK_RUNNING) as Hr by (rewrite Hst; unfold state_after; rewrite Hra; reflexivity).
  rewrite Hfb, bool_decide_true in Hs by reflexivity. rewrite Hr, Hsa in Hbu. cbn in Hbu.
  exists q'. split; [exact Hrun|]. split; [|exists p'; auto].
  split; [exact Hq'|]. split; [exact Hcur|]. split; [congruence|]. split.
  - exists (set_frame pb None). auto.
  - exists p'. auto.
Qed.

Lemma round_ok a b q sa sb r : taking_turns a b q sa sb ->
  exists q', run_round a b q r = Ok q' /\ taking_turns a b q' (enter_b r) (enter_a r) /\
    (exists s, tasks q' !! a = Some s /\ cpu_burst s = u64 (leave_a r - sa)) /\
    (exists s, tasks q' !! b = Some s /\ cpu_burst s = u64 (leave_b r - sb)).
Proof.
  intros Ht. destruct (turn_ok a b q sa sb (leave_a r) (enter_b r) Ht) as (q1 & E1 & T1 & (s1 & Hs1 & B1)).
  pose proof T1 as (_ & Hc1 & Hba & (pb & Hpb & _) & (pa & Hpa & _ & _ & _)).
  destruct (turn_ok b a q1 sb (enter_b r) (leave_b r) (enter_a r) T1) as (q2 & E2 & T2 & HB).
  exists q2. unfold run_round. rewrite E1. cbn [mbind res_bind]. split; [exact E2|]. split; [exact T2|].
  split; [|exact HB].
  destruct (switch_const q1 pb a pa (leave_b r) (enter_a r) SM_PREEMPT) as (q' & ? & E & _ & _ & _ & Hn & _);
    [apply T1 | rewrite Hc1; exact Hpb | rewrite Hc1; congruence | exact Hpa|].
  rewrite E in E2. injection E2 as ->. exists (set_frame pa None). split; [exact Hn|]. cbn. congruence.
Qed.

Lemma rounds_ok a b rs : forall q sa sb, taking_turns a b q sa sb ->
  exists q' sa' sb', run_rounds a b q rs = Ok q' /\ taking_turns a b q' sa' sb'.
Proof.
  induction rs as [|r rs IH]; intros q sa sb Ht; cbn [run_rounds]; [eauto|].
  destruct (round_ok a b q sa sb r Ht) as (q1 & -> & Ht1 & _). cbn [mbind res_bind]. eauto.
Qed.

Lemma run_rounds_app a b q rs1 rs2 : run_rounds a b q (rs1 ++ rs2) = (q' ← run_rounds a b q rs1; run_rounds a b q' rs2).
Proof.
  revert q. induction rs1 as [|r rs IH]; intros q; [reflexivity|]. cbn.
  destruct (run_round a b q r); cbn; auto.
Qed.

(** C40: when two runnable tasks take turns for any number of rounds, the burst
    recorded for each in the last round runs from its own previous switch-out:
    it covers the whole cycle, the turn of the other task included, instead of
    the time since the task was switched in ([enter_a] of the round before,
    [enter_b] of this one). *)
Theorem burst_is_cycle a b q sa sb rs r0 r1 : taking_turns a b q sa sb ->
  exists q', run_rounds a b q (rs ++ [r0; r1]) = Ok q' /\
    (exists s, tasks q' !! a = Some s /\ cpu_burst s = u64 (leave_a r1 - enter_b r0)) /\
    (exists s, tasks q' !! b = Some s /\ cpu_burst s = u64 (leave_b r1 - enter_a r0)).
Proof.
  intros Ht. rewrite run_rounds_app. destruct (rounds_ok a b rs q sa sb Ht) as (q1 & sa1 & sb1 & -> & Ht1).
  cbn [mbind res_bind run_rounds].
  destruct (round_ok a b q1 sa1 sb1 r0 Ht1) as (q2 & -> & Ht2 & _). cbn [mbind res_bind].
  destruct (round_ok a b q2 _ _ r1 Ht2) as (q3 & -> & _ & Ha & Hb). cbn [mbind res_bind]. eauto.
Qed.
End Facts.

(** * Examples *)

Definition never_pending (_ : Z) (_ : STask) : bool := false.

Definition fresh_task (fr : option Z) : STask := mkST TASK_RUNNING 0 1 false false true 0 0 0 0 fr.

(** Task 1 runs; 2 was left for 1; 3 has never run. *)
Definition three : RunQueue := mkRQ 1 {[1 := fresh_task None; 2 := fresh_task (Some 1); 3 := fresh_task None]} 0 0 0.

Lemma three_cases t s : tasks three !! t = Some s ->
  t = 1 /\ s = fresh_task None \/ t = 2 /\ s = fresh_task (Some 1) \/ t = 3 /\ s = fresh_task None.
Proof.
  unfold three. cbn [tasks]. rewrite !lookup_insert_Some. intros [[<- <-]|[_ [[<- <-]|[_ Hs]]]]; auto.
  apply lookup_singleton_Some in Hs as [<- <-]. auto.
Qed.

Lemma three_ok : frames_ok three.
Proof.
  split; [exists (fresh_task None); split; reflexivity|].
  intros t s m Hs Hm. destruct (three_cases t s Hs) as [[-> ->]|[[-> ->]|[-> ->]]]; try discriminate.
  injection Hm as <-. split; [lia | eauto].
Qed.

Lemma schedule_safe_witness : exists q', __schedule never_pending (fun _ => 3) 5 6 SM_NONE three = Ok q' /\ frames_ok q'.
Proof.
  apply (schedule_safe never_pending three three three_ok (rtc_refl _ _)).
  intros r _. exists (fresh_task None). reflexivity.
Defined.

Lemma schedule_bursts_witness : exists q', __schedule never_pending (fun _ => 2) 5 6 SM_NONE three = Ok q' /\ curr q' = 2.
Proof.
  destruct (schedule_bursts never_pending three (fresh_task None) 2 (fresh_task (Some 1)) 5 6 SM_NONE three_ok)
    as (q' & E & Hc & _); [reflexivity | discriminate | reflexivity|].
  exists q'. auto.
Defined.

Lemma burst_is_cycle_witness : exists q',
  run_rounds never_pending 1 2 three [mkRound 10 10 20 20; mkRound 30 30 40 40] = Ok q' /\
  exists s, tasks q' !! 1 = Some s /\ cpu_burst s = u64 20.
Proof.
  destruct (burst_is_cycle never_pending 1 2 three 0 0 [] (mkRound 10 10 20 20) (mkRound 30 30 40 40)) as (q' & E & Ha & _).
  - split; [exact three_ok|]. split; [reflexivity|]. split; [discriminate|].
    split; eexists; split; reflexivity || (repeat split).
  - exists q'. auto.
Defined.

(** Task 1 leaves for 2, 2 exits for 3 and is released, 3 leaves for 1: the call
    in which 1 was suspended writes to the released task. *)
Definition release (q : RunQueue) (t : Z) : RunQueue := with_tasks q (delete t (tasks q)).

(** A task that resumes after the task it had switched to has exited and
    was released writes to that released task. *)
Theorem schedule_released :
  (q ← __schedule never_pending (fun _ => 2) 5 6 SM_PREEMPT three;
   q ← do_task_dead never_pending (fun _ => 3) 7 8 q;
   q' ← __schedule never_pending (fun _ => 1) 9 9 SM_PREEMPT q;
   mret (curr q')) = Ok 1 /\
  (q ← __schedule never_pending (fun _ => 2) 5 6 SM_PREEMPT three;
   q ← do_task_dead never_pending (fun _ => 3) 7 8 q;
   __schedule never_pending (fun _ => 1) 9 9 SM_PREEMPT (release q 2)) = Undef.
Proof. vm_compute. split; reflexivity. Qed.
