(* ===== verification/AddressSpace.v ===== *)
(** The address spaces of tasks in src/3/20193018_PLUS-1/core.c, [context_switch],
    [finish_task_switch], [idle_task_exit], and exit.c, [exit_mm], [put_task_struct_rcu_user]: who holds a
    reference to an address space and to a task while CPUs switch, tasks exit
    and are reaped in any order. *)

From S2P Require Import Prelude.
Local Open Scope Z_scope.

(** * Reference counts *)

(** An address space of kernel/fork.c and linux/sched/mm.h, with its [mm_users] and [mm_count]; dropping the last
    reference frees it. *)
Class Mms (M : Type) := {
  mm_users : M -> Z;
  mm_count : M -> Z;
  mm_init : M;
  mmgrab : M -> M;
  mmget : M -> M;
  mmdrop : M -> option M;
  mmput : M -> option M
}.

Class MmsOk (M : Type) `{Mms M} := {
  init_counts : mm_users mm_init = 1 /\ mm_count mm_init = 1;
  grab_counts x : mm_users (mmgrab x) = mm_users x /\ mm_count (mmgrab x) = mm_count x + 1;
  get_counts x : mm_users (mmget x) = mm_users x + 1 /\ mm_count (mmget x) = mm_count x;
  drop_counts x : match mmdrop x with
                  | Some y => mm_users y = mm_users x /\ mm_count y = mm_count x - 1 /\ mm_count x <> 1
                  | None => mm_count x = 1
                  end;
  put_counts x : match mmput x with
                 | Some y => mm_users y = mm_users x - 1 /\
                     mm_count y = mm_count x - (if mm_users x =? 1 then 1 else 0) /\ (mm_users x = 1 -> mm_count x <> 1)
                 | None => mm_users x = 1 /\ mm_count x = 1
                 end
}.

(** * State *)

(** How far a task is in [exit_mm]: not there; past [mmgrab]; past the line that clears [mm]; past
    [mmput]; and in state [TASK_DEAD]. *)
Inductive stage := Alive | Grabbed | Cleared (m : nat) | Gone | Dead.

#[export] Instance stage_eq : EqDecision stage.
Proof. solve_decision. Defined.

(** [idle_of] is the CPU whose idle task it is. *)
Record mtask := mkMt {
  mm : option nat;
  active_mm : option nat;
  t_stage : stage;
  released : bool;
  rcu_users : Z;
  on_cpu : bool;
  idle_of : option nat
}.

(** A CPU runs its current task; it has switched from [prev] and is before [finish_task_switch]; it
    is in there with these local variables [prev], [mm] and [prev_state == TASK_DEAD]; or it is off. *)
Inductive phase := Runs | Switched (prev : nat) | Finishing (prev : nat) (m : option nat) (dead : bool) | Off.

#[export] Instance mtask_eq : EqDecision mtask.
Proof. solve_decision. Defined.

#[export] Instance phase_eq : EqDecision phase.
Proof. solve_decision. Defined.

(** [loaded] is the argument of the last call of [switch_mm]. *)
Record mcpu := mkMc { curr : nat; prev_mm : option nat; ph : phase; loaded : nat }.

(** [others] counts users besides tasks: whoever has called [get_task_mm]. *)
Record asys (M : Type) := mkAs { tasks : gmap nat mtask; cpus : gmap nat mcpu; mms : gmap nat M; others : nat -> Z }.
Arguments mkAs {M} _ _ _ _.
Arguments tasks {M} _.
Arguments cpus {M} _.
Arguments mms {M} _.
Arguments others {M} _ _.

Definition set_mm (x : mtask) (m a : option nat) : mtask := mkMt m a (t_stage x) (released x) (rcu_users x) (on_cpu x) (idle_of x).
Definition set_stage (x : mtask) (st : stage) : mtask := mkMt (mm x) (active_mm x) st (released x) (rcu_users x) (on_cpu x) (idle_of x).
Definition set_on_cpu (x : mtask) (b : bool) : mtask := mkMt (mm x) (active_mm x) (t_stage x) (released x) (rcu_users x) b (idle_of x).
Definition set_refs (x : mtask) (r : bool) (n : Z) : mtask := mkMt (mm x) (active_mm x) (t_stage x) r n (on_cpu x) (idle_of x).

Section Spaces.
  Context `{Mms M} (init_mm : nat).

Definition put_task (s : asys M) (t : nat) (x : mtask) : asys M := mkAs (<[t := x]> (tasks s)) (cpus s) (mms s) (others s).
Definition put_cpu (s : asys M) (c : nat) (q : mcpu) : asys M := mkAs (tasks s) (<[c := q]> (cpus s)) (mms s) (others s).
Definition put_mm (s : asys M) (m : nat) (v : option M) : asys M :=
  mkAs (tasks s) (cpus s) (match v with Some v => <[m := v]> (mms s) | None => delete m (mms s) end) (others s).
Definition add_others (s : asys M) (m : nat) (d : Z) : asys M :=
  mkAs (tasks s) (cpus s) (mms s) (fun x => if decide (x = m) then others s x + d else others s x).

(** Using a task or an address space that was freed is undefined. *)
Definition task_at (s : asys M) (t : nat) : res mtask := match tasks s !! t with Some x => Ok x | None => Undef end.
Definition mm_at (s : asys M) (m : nat) : res M := match mms s !! m with Some x => Ok x | None => Undef end.
Definition the {A} (o : option A) : res A := match o with Some x => Ok x | None => Undef end.

Definition grab_mm (m : nat) (s : asys M) : res (asys M) := x ← mm_at s m; mret (put_mm s m (Some (mmgrab x))).
Definition drop_mm (m : nat) (s : asys M) : res (asys M) := x ← mm_at s m; mret (put_mm s m (mmdrop x)).
Definition put_user (m : nat) (s : asys M) : res (asys M) := x ← mm_at s m; mret (put_mm s m (mmput x)).

(** * The switch *)

(** Up to [switch_to], after which [next] is on its own stack. *)
Definition context_switch (c next : nat) (s : asys M) : res (asys M) :=
  q ← the (cpus s !! c);
  let prev := curr q in
  p ← task_at s prev;
  n ← task_at s next;
  let n := set_on_cpu n true in
  active ← the (active_mm p);
  match mm n with
  | None =>
      let n := set_mm n (mm n) (Some active) in
      let q := mkMc next (prev_mm q) (Switched prev) (loaded q) in
      match mm p with
      | Some _ => s ← grab_mm active s; mret (put_cpu (put_task s next n) c q)
      | None => mret (put_cpu (put_task (put_task s prev (set_mm p None None)) next n) c q)
      end
  | Some m =>
      _ ← mm_at s m;
      match mm p with
      | Some _ => mret (put_cpu (put_task s next n) c (mkMc next (prev_mm q) (Switched prev) m))
      | None => mret (put_cpu (put_task (put_task s prev (set_mm p None None)) next n) c (mkMc next (Some active) (Switched prev) m))
      end
  end.

(** exit.c *)
Definition put_task_struct_rcu_user (t : nat) (s : asys M) : res (asys M) :=
  x ← task_at s t;
  let n := rcu_users x - 1 in
  if n =? 0 then mret (mkAs (delete t (tasks s)) (cpus s) (mms s) (others s))
  else mret (put_task s t (set_refs x (released x) n)).

(** What the CPU does next: it takes [prev_mm] and looks at [prev], which it then lets go; it
    drops the address space; it drops the task. *)
Definition finish_task_switch (c : nat) (s : asys M) : res (asys M) :=
  q ← the (cpus s !! c);
  match ph q with
  | Switched prev =>
      p ← task_at s prev;
      mret (put_cpu (put_task s prev (set_on_cpu p false)) c
              (mkMc (curr q) None (Finishing prev (prev_mm q) (bool_decide (t_stage p = Dead))) (loaded q)))
  | Finishing prev (Some m) dead => s ← drop_mm m s; mret (put_cpu s c (mkMc (curr q) (prev_mm q) (Finishing prev None dead) (loaded q)))
  | Finishing prev None dead =>
      s ← (if dead then put_task_struct_rcu_user prev s else mret s);
      mret (put_cpu s c (mkMc (curr q) (prev_mm q) Runs (loaded q)))
  | _ => mret s
  end.

(** * The end of a task *)

(** [exit_mm] from its [mmgrab] on, one step at a time; a task without an address space returns at once. *)
Definition exit_mm (t : nat) (s : asys M) : res (asys M) :=
  x ← task_at s t;
  match t_stage x with
  | Alive =>
      match mm x with
      | None => mret (put_task s t (set_stage x Gone))
      | Some m => s ← grab_mm m s; if decide (active_mm x = Some m) then mret (put_task s t (set_stage x Grabbed)) else Undef
      end
  | Grabbed => m ← the (mm x); mret (put_task s t (set_stage (set_mm x None (active_mm x)) (Cleared m)))
  | Cleared m => s ← put_user m s; mret (put_task s t (set_stage x Gone))
  | _ => mret s
  end.

(** [do_task_dead], with the switch of its [__schedule]. *)
Definition do_task_dead (c next : nat) (s : asys M) : res (asys M) :=
  q ← the (cpus s !! c);
  x ← task_at s (curr q);
  context_switch c next (put_task s (curr q) (set_stage x Dead)).

(** The last line of [release_task] in exit.c: the task is reaped. *)
Definition reap (t : nat) (s : asys M) : res (asys M) :=
  x ← task_at s t;
  put_task_struct_rcu_user t (put_task s t (set_refs x true (rcu_users x))).

(** On a CPU that is no longer online; its last step. *)
Definition idle_task_exit (c : nat) (s : asys M) : res (asys M) :=
  q ← the (cpus s !! c);
  x ← task_at s (curr q);
  if decide (idle_of x = Some c) then
    active ← the (active_mm x);
    if decide (active = init_mm) then mret (put_cpu s c (mkMc (curr q) (prev_mm q) Off (loaded q)))
    else _ ← mm_at s init_mm; mret (put_cpu s c (mkMc (curr q) (prev_mm q) Off init_mm))
  else Undef.

(** * Steps *)

(** What [copy_mm] (fork.c) gives a child: nothing when its parent has none, otherwise the parent's
    address space or a new one. *)
Inductive copied := Shares | Copies (m : nat).

Definition fork (t parent : nat) (how : copied) (s : asys M) : res (asys M) :=
  p ← task_at s parent;
  let child m := mkMt m m Alive false 2 false None in
  match mm p, how with
  | None, _ => mret (put_task s t (child None))
  | Some m, Shares => x ← mm_at s m; mret (put_task (put_mm s m (Some (mmget x))) t (child (Some m)))
  | Some _, Copies m => mret (put_task (put_mm s m (Some mm_init)) t (child (Some m)))
  end.

(** [exec_mmap] (exec.c), as one step: the current task gets a new address space, which is loaded, and
    puts the old one. *)
Definition exec (c m : nat) (s : asys M) : res (asys M) :=
  q ← the (cpus s !! c);
  x ← task_at s (curr q);
  s ← match mm x, active_mm x with
      | Some old, _ => put_user old s
      | None, Some a => drop_mm a s
      | None, None => Undef
      end;
  mret (put_cpu (put_task (put_mm s m (Some mm_init)) (curr q) (set_mm x (Some m) (Some m))) c (mkMc (curr q) (prev_mm q) (ph q) m)).

(** A CPU comes up with its idle task, on [init_mm]. *)
Definition cpu_up (c t : nat) (s : asys M) : res (asys M) :=
  s ← grab_mm init_mm s;
  mret (put_cpu (put_task s t (mkMt None (Some init_mm) Alive false 2 true (Some c))) c (mkMc t None Runs init_mm)).

(** The machine before its first CPU. *)
Definition before_boot : asys M := mkAs ∅ ∅ {[init_mm := mm_init]} (fun m => if decide (m = init_mm) then 1 else 0).

(** CPU [c] comes up; it switches to [next], goes on with the switch, forks, executes a program, ends its
    current task; a task is reaped; others get and put an address space; a CPU goes off. *)
Inductive alabel :=
  | LUp (c t : nat) | LSwitch (c next : nat) | LFinish (c : nat) | LFork (c t : nat) (how : copied) | LExec (c m : nat) | LExit (c : nat) | LDie (c next : nat)
  | LReap (t : nat) | LGet (m : nat) | LPut (m : nat) | LOff (c : nat).

(** A task that CPU [c] may pick: not running, as [try_to_wake_up] waits for that, nor
    dead, nor the idle task of another CPU. *)
Definition pickable (c : nat) (s : asys M) (next : nat) : bool :=
  match tasks s !! next with
  | Some n => negb (on_cpu n) && bool_decide (t_stage n <> Dead) && bool_decide (idle_of n = None \/ idle_of n = Some c)
  | None => false
  end.

Definition runs (c : nat) (s : asys M) : option mtask :=
  match cpus s !! c with
  | Some q => if decide (ph q = Runs) then tasks s !! curr q else None
  | None => None
  end.

Definition fresh_mm (how : copied) (s : asys M) : bool :=
  match how with Shares => true | Copies m => bool_decide (mms s !! m = None) end.

Definition when (b : bool) (r : res (asys M)) : option (res (asys M)) := if b then Some r else None.

Definition astep (l : alabel) (s : asys M) : option (res (asys M)) :=
  match l with
  | LUp c t => when (bool_decide (cpus s !! c = None /\ tasks s !! t = None)) (cpu_up c t s)
  | LSwitch c next => when (bool_decide (is_Some (runs c s)) && pickable c s next) (context_switch c next s)
  | LFinish c => q ← cpus s !! c; when (match ph q with Runs | Off => false | _ => true end) (finish_task_switch c s)
  | LFork c t how =>
      q ← cpus s !! c; x ← runs c s;
      when (bool_decide (t_stage x = Alive /\ tasks s !! t = None) && fresh_mm how s) (fork t (curr q) how s)
  | LExec c m =>
      x ← runs c s;
      when (bool_decide (idle_of x = None /\ t_stage x = Alive /\ mms s !! m = None)) (exec c m s)
  | LExit c => q ← cpus s !! c; x ← runs c s; when (bool_decide (idle_of x = None /\ t_stage x <> Gone)) (exit_mm (curr q) s)
  | LDie c next => x ← runs c s; when (bool_decide (t_stage x = Gone) && pickable c s next) (do_task_dead c next s)
  | LReap t => x ← tasks s !! t; when (bool_decide ((t_stage x = Gone \/ t_stage x = Dead) /\ released x = false)) (reap t s)
  | LGet m => x ← mms s !! m; when (1 <=? mm_users x) (mret (add_others (put_mm s m (Some (mmget x))) m 1))
  | LPut m => when ((1 <=? others s m) && bool_decide (m <> init_mm)) (s ← put_user m s; mret (add_others s m (-1)))
  | LOff c => x ← runs c s; when (bool_decide (idle_of x = Some c)) (idle_task_exit c s)
  end.

Inductive arun : asys M -> asys M -> Prop :=
  | arun_refl s : arun s s
  | arun_step s l s1 s2 : astep l s = Some (Ok s1) -> arun s1 s2 -> arun s s2.

Fixpoint asteps (ls : list alabel) (s : asys M) : option (asys M) :=
  match ls with
  | [] => Some s
  | l :: ls => match astep l s with Some (Ok s1) => asteps ls s1 | _ => None end
  end.

Lemma asteps_run ls : forall s s1, asteps ls s = Some s1 -> arun s s1.
Proof.
  induction ls as [|l ls IH]; cbn [asteps]; intros s s1 E; [injection E as <-; apply arun_refl|].
  destruct (astep l s) as [[s'| | |]|] eqn:E'; try discriminate. exact (arun_step s l s' s1 E' (IH _ _ E)).
Qed.
End Spaces.

Arguments arun {M _} _ _ _.

(** * The counts as records *)

(** An address space as its two counts. *)
#[export] Instance pair_mms : Mms (Z * Z) := {
  mm_users := fst;
  mm_count := snd;
  mm_init := (1, 1);
  mmgrab x := (fst x, snd x + 1);
  mmget x := (fst x + 1, snd x);
  mmdrop x := if snd x =? 1 then None else Some (fst x, snd x - 1);
  mmput x :=
    if fst x =? 1 then (if snd x =? 1 then None else Some (0, snd x - 1)) else Some (fst x - 1, snd x)
}.

#[export] Instance pair_mms_ok : MmsOk (Z * Z).
Proof.
  split; cbn; try auto; intros [u n]; cbn.
  - destruct (Z.eqb_spec n 1); cbn; lia.
  - destruct (Z.eqb_spec u 1); [destruct (Z.eqb_spec n 1)|]; cbn; lia.
Qed.
