(* ===== verification/SpaceInv.v ===== *)
(** The invariant of [AddressSpace]: every reference that is counted has a holder. *)

From S2P Require Import Prelude AddressSpace.
Local Open Scope Z_scope.

Definition b2 (P : Prop) `{Decision P} : Z := if decide P then 1 else 0.

Lemma b2_nonneg P `{Decision P} : 0 <= b2 P.
Proof. unfold b2. destruct (decide P); lia. Qed.

Lemma b2_true (P : Prop) `{Decision P} : P -> b2 P = 1.
Proof. intros HP. unfold b2. rewrite decide_True by exact HP. reflexivity. Qed.

Lemma b2_false (P : Prop) `{Decision P} : ~ P -> b2 P = 0.
Proof. intros HP. unfold b2. rewrite decide_False by exact HP. reflexivity. Qed.

Lemma b2_iff (P Q : Prop) {HP : Decision P} `{Decision Q} : (P <-> Q) -> @b2 P HP = b2 Q.
Proof. intros E. unfold b2. destruct (decide P), (decide Q); tauto. Qed.

(** * Holders *)

(** What a task and a CPU hold of the address space [m] and of the task [t]. *)
Definition user_of (m : nat) (x : mtask) : Z := b2 (mm x = Some m) + b2 (t_stage x = Cleared m).
Definition lazy_of (m : nat) (x : mtask) : Z := b2 (t_stage x = Grabbed /\ mm x = Some m) + b2 (mm x = None /\ active_mm x = Some m).
Definition to_drop (m : nat) (q : mcpu) : Z :=
  b2 (prev_mm q = Some m) + match ph q with Finishing _ (Some m') _ => b2 (m' = m) | _ => 0 end.
Definition on_slot (t : nat) (q : mcpu) : Z := b2 (curr q = t) + b2 (ph q = Switched t).
Definition to_put (t : nat) (q : mcpu) : Z :=
  match ph q with Switched p => b2 (p = t) | Finishing p _ true => b2 (p = t) | _ => 0 end.

Lemma user_nonneg m x : 0 <= user_of m x.
Proof. unfold user_of. pose proof (b2_nonneg (mm x = Some m)). pose proof (b2_nonneg (t_stage x = Cleared m)). lia. Qed.

Lemma lazy_nonneg m x : 0 <= lazy_of m x.
Proof. unfold lazy_of. pose proof (b2_nonneg (t_stage x = Grabbed /\ mm x = Some m)). pose proof (b2_nonneg (mm x = None /\ active_mm x = Some m)). lia. Qed.

Lemma drop_nonneg m q : 0 <= to_drop m q.
Proof.
  unfold to_drop. pose proof (b2_nonneg (prev_mm q = Some m)). destruct (ph q) as [| |p [m'|] d|]; try lia. pose proof (b2_nonneg (m' = m)). lia.
Qed.

Lemma on_slot_nonneg t q : 0 <= on_slot t q.
Proof. unfold on_slot. pose proof (b2_nonneg (curr q = t)). pose proof (b2_nonneg (ph q = Switched t)). lia. Qed.

Lemma put_nonneg t q : 0 <= to_put t q.
Proof. unfold to_put. destruct (ph q) as [|p|p m [|]|]; try lia; apply b2_nonneg. Qed.

#[export] Hint Resolve user_nonneg lazy_nonneg drop_nonneg on_slot_nonneg put_nonneg : spaces.

(** * The invariant *)

Record task_ok (x : mtask) : Prop := {
  ok_active m : mm x = Some m -> active_mm x = Some m;
  ok_stage : match t_stage x with Alive => True | Grabbed => mm x <> None | _ => mm x = None end;
  ok_released : released x = true -> t_stage x = Gone \/ t_stage x = Dead;
  ok_idle : idle_of x <> None -> t_stage x = Alive
}.

Section Inv.
  Context `{MmsOk M} (init_mm : nat).

Definition U (s : asys M) (m : nat) : Z := msum (user_of m) (tasks s) + others s m.
Definition R (s : asys M) (m : nat) : Z := msum (lazy_of m) (tasks s) + msum (to_drop m) (cpus s).

(** The CPU [c] with its current task. *)
Record cpu_ok (c : nat) (q : mcpu) (x : mtask) : Prop := {
  ok_alive : t_stage x <> Dead;
  ok_home : idle_of x = None \/ idle_of x = Some c;
  ok_loaded : ph q <> Off -> active_mm x = Some (loaded q);
  ok_off : ph q = Off -> idle_of x = Some c /\ active_mm x <> None /\ loaded q = init_mm;
  ok_prev : prev_mm q <> None -> exists p, ph q = Switched p;
  ok_user m : 0 < to_drop m q -> mm x <> None
}.

Definition mm_ok (s : asys M) (m : nat) : Prop :=
  match mms s !! m with
  | Some v => mm_users v = U s m /\ mm_count v = b2 (0 < U s m) + R s m /\ 1 <= mm_count v
  | None => U s m = 0 /\ R s m = 0
  end.

(** A reference that is about to be put. *)
Definition owes (owed : option nat) (t : nat) : Z := match owed with Some o => b2 (o = t) | None => 0 end.

Record AInv (owed : option nat) (s : asys M) : Prop := {
  a_slot t : msum (on_slot t) (cpus s) = match tasks s !! t with Some x => if on_cpu x then 1 else 0 | None => 0 end;
  a_task t x : tasks s !! t = Some x -> task_ok x;
  a_refs t x : tasks s !! t = Some x ->
    rcu_users x = owes owed t + ((if released x then 0 else 1) + (if decide (t_stage x = Dead) then msum (to_put t) (cpus s) else 1)) /\
    1 <= rcu_users x;
  a_owed t : owed = Some t -> exists x, tasks s !! t = Some x /\ (t_stage x = Gone \/ t_stage x = Dead);
  a_curr c q : cpus s !! c = Some q -> exists x, tasks s !! curr q = Some x /\ cpu_ok c q x;
  a_dead c q p m : cpus s !! c = Some q -> ph q = Finishing p m true -> exists x, tasks s !! p = Some x /\ t_stage x = Dead;
  a_lazy t x : tasks s !! t = Some x -> mm x = None -> active_mm x <> None -> exists c q, cpus s !! c = Some q /\ curr q = t;
  a_mm m : mm_ok s m;
  a_others m : 0 <= others s m;
  a_init : 1 <= others s init_mm
}.

(** * What follows *)

Section Follows.
  Context (owed : option nat).

Lemma U_nonneg s m : AInv owed s -> 0 <= U s m.
Proof. intros I. unfold U. pose proof (msum_nonneg (user_of m) (tasks s) (user_nonneg m)). pose proof (a_others _ s I m). lia. Qed.

Lemma R_nonneg s m : 0 <= R s m.
Proof.
  unfold R. pose proof (msum_nonneg (lazy_of m) (tasks s) (lazy_nonneg m)). pose proof (msum_nonneg (to_drop m) (cpus s) (drop_nonneg m)). lia.
Qed.

(** What is held exists. *)
Lemma held_exists s m : AInv owed s -> 0 < U s m + R s m -> exists v, mms s !! m = Some v /\
  mm_users v = U s m /\ mm_count v = b2 (0 < U s m) + R s m /\ 1 <= mm_count v.
Proof. intros I Hp. pose proof (a_mm _ s I m) as Hm. unfold mm_ok in Hm. destruct (mms s !! m) as [v|]; [exists v; auto | lia]. Qed.

Lemma user_exists s t x m : AInv owed s -> tasks s !! t = Some x -> 0 < user_of m x -> exists v, mms s !! m = Some v /\
  mm_users v = U s m /\ mm_count v = 1 + R s m /\ 1 <= mm_users v.
Proof.
  intros I Hx Hu. pose proof (msum_ge (user_of m) (tasks s) t x (user_nonneg m) Hx) as Hge. pose proof (a_others _ s I m) as Ho.
  assert (0 < U s m) as HU by (unfold U; lia). pose proof (R_nonneg s m).
  destruct (held_exists s m I) as (v & Hv & Hn & Hc & _); [lia|]. rewrite b2_true in Hc by exact HU. exists v. split_and!; auto; lia.
Qed.

(** A CPU that is not off has its address space. *)
Lemma active_exists s c q x : AInv owed s -> cpus s !! c = Some q -> ph q <> Off -> tasks s !! curr q = Some x ->
  active_mm x = Some (loaded q) /\ exists v, mms s !! loaded q = Some v /\ 1 <= mm_count v /\ mm_users v = U s (loaded q) /\
    mm_count v = b2 (0 < U s (loaded q)) + R s (loaded q).
Proof.
  intros I Hq Hp Hx. destruct (a_curr _ s I c q Hq) as (x' & Hx' & Hok). assert (x' = x) as -> by congruence.
  pose proof (ok_loaded _ _ _ Hok Hp) as Ha. split; [exact Ha|].
  destruct (held_exists s (loaded q) I) as (v & Hv & Hn & Hc & Hle); [|exists v; auto].
  pose proof (R_nonneg s (loaded q)). pose proof (U_nonneg s (loaded q) I). destruct (mm x) as [m|] eqn:Hm.
  - pose proof (ok_active x (a_task _ s I _ _ Hx) m Hm) as Ha'. assert (m = loaded q) as -> by congruence.
    pose proof (msum_ge (user_of (loaded q)) (tasks s) _ x (user_nonneg _) Hx) as Hge. unfold user_of at 1 in Hge. rewrite b2_true in Hge by exact Hm.
    pose proof (b2_nonneg (t_stage x = Cleared (loaded q))). pose proof (a_others _ s I (loaded q)). unfold U in *. lia.
  - pose proof (msum_ge (lazy_of (loaded q)) (tasks s) _ x (lazy_nonneg _) Hx) as Hge. unfold lazy_of at 1 in Hge. rewrite (b2_true (mm x = None /\ _)) in Hge by auto.
    pose proof (b2_nonneg (t_stage x = Grabbed /\ mm x = Some (loaded q))). pose proof (msum_nonneg (to_drop (loaded q)) (cpus s) (drop_nonneg _)). unfold R in *. lia.
Qed.

(** No task is in two places. *)
Lemma slot_once s c q c' q' t : AInv owed s -> cpus s !! c = Some q -> cpus s !! c' = Some q' -> 0 < on_slot t q -> 0 < on_slot t q' -> c = c'.
Proof.
  intros I Hq Hq' H1 H2. destruct (decide (c = c')) as [|Hn]; [assumption|]. exfalso.
  pose proof (msum_ge2 (on_slot t) (cpus s) c q c' q' (on_slot_nonneg t) Hn Hq Hq') as Hge. pose proof (a_slot _ s I t) as Hs.
  destruct (tasks s !! t) as [x|]; [destruct (on_cpu x)|]; lia.
Qed.

Lemma slot_on s c q t : AInv owed s -> cpus s !! c = Some q -> 0 < on_slot t q -> on_slot t q = 1 /\ exists x, tasks s !! t = Some x /\ on_cpu x = true.
Proof.
  intros I Hq Hp. pose proof (msum_ge (on_slot t) (cpus s) c q (on_slot_nonneg t) Hq) as Hge. pose proof (a_slot _ s I t) as Hs.
  destruct (tasks s !! t) as [x|]; [|lia]. destruct (on_cpu x) eqn:E; [|lia]. split; [lia|]. exists x. auto.
Qed.

Lemma slot_curr t q : curr q = t -> 0 < on_slot t q.
Proof. intros Hc. unfold on_slot. rewrite b2_true by exact Hc. pose proof (b2_nonneg (ph q = Switched t)). lia. Qed.

Lemma slot_switched t q : ph q = Switched t -> 0 < on_slot t q.
Proof. intros Hc. unfold on_slot. rewrite (b2_true (ph q = Switched t)) by exact Hc. pose proof (b2_nonneg (curr q = t)). lia. Qed.

(** A task that runs nowhere is on no CPU. *)
Lemma not_running s t x c q : AInv owed s -> tasks s !! t = Some x -> on_cpu x = false -> cpus s !! c = Some q -> curr q <> t /\ ph q <> Switched t.
Proof.
  intros I Hx Ho Hq. split; intros E; [apply slot_curr in E | apply slot_switched in E]; destruct (slot_on s c q t I Hq E) as (_ & y & Hy & Hy'); congruence.
Qed.
End Follows.
End Inv.
