(* ===== verification/SpaceKeeps.v ===== *)
(** The switch, the exit and the reaping of [AddressSpace]: each is defined and keeps the invariant. *)

From S2P Require Import Prelude AddressSpace SpaceInv.
Local Open Scope Z_scope.

Section Keeps.
  Context `{MmsOk M} (init_mm : nat).

#[local] Abbreviation Inv := (AInv init_mm None).

Lemma mm_frame (s s' : asys M) m : U s' m = U s m -> R s' m = R s m -> mms s' !! m = mms s !! m -> mm_ok s m -> mm_ok s' m.
Proof. unfold mm_ok. intros -> -> -> Hm. exact Hm. Qed.

Lemma runs_inv c (s : asys M) x : runs c s = Some x -> exists q, cpus s !! c = Some q /\ ph q = Runs /\ tasks s !! curr q = Some x.
Proof.
  unfold runs. destruct (cpus s !! c) as [q|] eqn:E; [|discriminate]. destruct (decide (ph q = Runs)); [|discriminate]. intros Hx. exists q. auto.
Qed.

Lemma runs_idle_cpu s c q x m : Inv s -> cpus s !! c = Some q -> ph q = Runs -> tasks s !! curr q = Some x ->
  prev_mm q = None /\ to_drop m q = 0 /\ cpu_ok init_mm c q x.
Proof.
  intros I Hq Hr Hx. destruct (a_curr _ _ s I c q Hq) as (y & Hy & Hok). assert (y = x) as -> by congruence.
  assert (prev_mm q = None) as Hp.
  { destruct (prev_mm q) eqn:E; [|reflexivity]. destruct (ok_prev _ _ _ _ Hok) as (p & Hp); congruence. }
  split; [exact Hp|]. split; [|exact Hok]. unfold to_drop. rewrite Hp, Hr, b2_false by discriminate. reflexivity.
Qed.

(** Nothing is pending for a task that is running and not dead. *)
Lemma nothing_to_put s t x c q : Inv s -> tasks s !! t = Some x -> t_stage x <> Dead -> cpus s !! c = Some q -> ph q = Runs -> curr q = t ->
  msum (to_put t) (cpus s) = 0.
Proof.
  intros I Hx Ha Hq Hr Hc. apply msum_zero. intros c' q' Hq'. unfold to_put.
  destruct (ph q') as [|p|p m [|]|] eqn:E; try reflexivity; apply b2_false; intros ->.
  - assert (c = c') as <-; [|congruence]. eapply slot_once; [exact I | exact Hq | exact Hq' | apply slot_curr, Hc | apply slot_switched, E].
  - destruct (a_dead _ _ s I c' q' t m Hq' E) as (y & Hy & Hd). congruence.
Qed.

(** * The switch *)

Definition leaves (p : mtask) (st : stage) : mtask :=
  mkMt (mm p) (match mm p with Some _ => active_mm p | None => None end) st (released p) (rcu_users p) (on_cpu p) (idle_of p).
Definition enters (p n : mtask) : mtask :=
  mkMt (mm n) (match mm n with Some _ => active_mm n | None => active_mm p end) (t_stage n) (released n) (rcu_users n) true (idle_of n).
Definition switched_cpu (q : mcpu) (p n : mtask) (next : nat) : mcpu :=
  mkMc next (match mm n, mm p with Some _, None => active_mm p | _, _ => None end) (Switched (curr q))
    (match mm n with Some m => m | None => loaded q end).
Definition switched_state (s : asys M) (c next : nat) (q : mcpu) (p n : mtask) (st : stage) (ms : gmap nat M) : asys M :=
  mkAs (<[next := enters p n]> (<[curr q := leaves p st]> (tasks s))) (<[c := switched_cpu q p n next]> (cpus s)) ms (others s).

Section Switch.
  Context (s : asys M) (c next : nat) (q : mcpu) (p n : mtask) (st : stage).
  Hypothesis I : Inv s.
  Hypothesis Hq : cpus s !! c = Some q.
  Hypothesis Hr : ph q = Runs.
  Hypothesis Hp : tasks s !! curr q = Some p.
  Hypothesis Hn : tasks s !! next = Some n.
  Hypothesis Hoff : on_cpu n = false.
  Hypothesis Hlive : t_stage n <> Dead.
  Hypothesis Hhome : idle_of n = None \/ idle_of n = Some c.
  Hypothesis Hst : st = t_stage p \/ t_stage p = Gone /\ st = Dead.

Lemma prev_not_next : curr q <> next.
Proof. apply (not_running _ _ s next n c q I Hn Hoff Hq). Qed.

Lemma prev_active : active_mm p = Some (loaded q).
Proof. apply (active_exists _ _ s c q p I Hq); [congruence | exact Hp]. Qed.

Lemma next_lazy : mm n = None -> active_mm n = None.
Proof.
  intros Hm. destruct (active_mm n) eqn:E; [|reflexivity]. destruct (a_lazy _ _ s I next n Hn Hm) as (c' & q' & Hq' & Hc); [congruence|].
  destruct (not_running _ _ s next n c' q' I Hn Hoff Hq'). congruence.
Qed.

Lemma leaves_ok : task_ok (leaves p st).
Proof.
  destruct (a_task _ _ s I _ _ Hp) as [T1 T2 T3 T4]. split; cbn.
  - intros m Hm. rewrite Hm. apply T1, Hm.
  - destruct Hst as [->|[Hg ->]]; [exact T2 | rewrite Hg in T2; exact T2].
  - destruct Hst as [->|[Hg ->]]; auto.
  - intros Hi. specialize (T4 Hi). destruct Hst as [->|[Hg _]]; [exact T4 | congruence].
Qed.

Lemma enters_ok : task_ok (enters p n).
Proof. destruct (a_task _ _ s I _ _ Hn) as [T1 T2 T3 T4]. split; cbn; auto. intros m Hm. rewrite Hm. apply T1, Hm. Qed.

Lemma cpu_enters : cpu_ok init_mm c (switched_cpu q p n next) (enters p n).
Proof.
  split; cbn; auto; try discriminate.
  - intros _. destruct (mm n) as [m|] eqn:Hm; [exact (ok_active _ (a_task _ _ s I _ _ Hn) m Hm) | exact prev_active].
  - eauto.
  - intros m. unfold to_drop. cbn. destruct (mm n); [congruence|]. rewrite b2_false by discriminate. lia.
Qed.

Lemma switched_shape ms : (forall m, mm_ok (switched_state s c next q p n st ms) m) -> Inv (switched_state s c next q p n st ms).
Proof.
  intros Hmm. pose proof prev_not_next as Hpn. assert (t_stage p <> Dead) as Hpl by apply (runs_idle_cpu s c q p 0 I Hq Hr Hp).
  split; try exact Hmm; try apply I; cbn.
  - intros t. rewrite (msum_update _ _ _ q) by exact Hq. rewrite (a_slot _ _ s I t). unfold on_slot. rewrite Hr. cbn.
    rewrite (b2_false (Runs = Switched t)) by discriminate.
    assert (b2 (Switched (curr q) = Switched t) = b2 (curr q = t)) as ->.
    { destruct (decide (curr q = t)) as [->|Hd]; [rewrite !b2_true by reflexivity; reflexivity | rewrite !b2_false by congruence; reflexivity]. }
    destruct (decide (next = t)) as [<-|Hd].
    + rewrite lookup_insert_eq, Hn, Hoff, (b2_true (next = next)) by reflexivity. cbn. lia.
    + rewrite lookup_insert_ne by exact Hd. rewrite (b2_false (next = t)) by exact Hd.
      destruct (decide (curr q = t)) as [<-|Hd']; [rewrite lookup_insert_eq, Hp; cbn; lia | rewrite lookup_insert_ne by exact Hd'; lia].
  - intros t x. rewrite lookup_insert_Some, lookup_insert_Some.
    intros [[<- <-]|[_ [[<- <-]|[_ Hx]]]]; [exact enters_ok | exact leaves_ok | exact (a_task _ _ s I t x Hx)].
  - intros t x. rewrite lookup_insert_Some, lookup_insert_Some. rewrite (msum_update _ _ _ q) by exact Hq.
    unfold to_put at 2 3. rewrite Hr. cbn. intros [[<- <-]|[_ [[<- <-]|[Hd Hx]]]]; cbn.
    + rewrite decide_False by exact Hlive. pose proof (a_refs _ _ s I next n Hn) as Hre. rewrite decide_False in Hre by exact Hlive. exact Hre.
    + pose proof (a_refs _ _ s I _ p Hp) as Hre. rewrite decide_False in Hre by exact Hpl.
      rewrite (nothing_to_put s (curr q) p c q I Hp Hpl Hq Hr eq_refl), b2_true by reflexivity. destruct (decide (st = Dead)); exact Hre.
    + rewrite b2_false by exact Hd. rewrite Z.sub_0_r, Z.add_0_r. exact (a_refs _ _ s I t x Hx).
  - discriminate.
  - intros c' q'. rewrite lookup_insert_Some. intros [[<- <-]|[Hd Hq']].
    + exists (enters p n). cbn. rewrite lookup_insert_eq. split; [reflexivity | exact cpu_enters].
    + destruct (a_curr _ _ s I c' q' Hq') as (x & Hx & Hok). exists x. split; [|exact Hok].
      rewrite !lookup_insert_ne; [exact Hx | |].
      * intros E. apply Hd. eapply slot_once; [exact I | exact Hq | exact Hq' | apply slot_curr; reflexivity | apply slot_curr; congruence].
      * intros E. destruct (not_running _ _ s next n c' q' I Hn Hoff Hq'). congruence.
  - intros c' q' p0 m. rewrite lookup_insert_Some. intros [[<- <-]|[Hd Hq']] Hph; [discriminate|].
    destruct (a_dead _ _ s I c' q' p0 m Hq' Hph) as (x & Hx & Hdx). exists x. split; [|exact Hdx].
    rewrite !lookup_insert_ne; [exact Hx | |]; intros <-; congruence.
  - intros t x. rewrite lookup_insert_Some, lookup_insert_Some. intros [[<- <-]|[Hd [[<- <-]|[Hd' Hx]]]]; cbn.
    + intros _ _. exists c. eexists. rewrite lookup_insert_eq. split; reflexivity.
    + intros ->. congruence.
    + intros Hm Ha. destruct (a_lazy _ _ s I t x Hx Hm Ha) as (c' & q' & Hq' & Hc). exists c', q'. split; [|exact Hc].
      rewrite lookup_insert_ne; [exact Hq'|]. intros <-. congruence.
Qed.

Lemma switched_U ms m : U (switched_state s c next q p n st ms) m = U s m.
Proof.
  unfold U. cbn. rewrite (msum_update2 _ _ _ p _ _ n) by (auto using prev_not_next). unfold user_of. cbn.
  assert (b2 (st = Cleared m) = b2 (t_stage p = Cleared m)) as ->; [|lia].
  destruct Hst as [->|[-> ->]]; [reflexivity|]. rewrite !b2_false by discriminate. reflexivity.
Qed.

Lemma switched_R ms m : R (switched_state s c next q p n st ms) m =
  R s m + match mm n, mm p with None, Some _ => b2 (active_mm p = Some m) | _, _ => 0 end.
Proof.
  unfold R. cbn. rewrite (msum_update2 _ _ _ p _ _ n) by (auto using prev_not_next). rewrite (msum_update _ _ _ q) by exact Hq.
  destruct (runs_idle_cpu s c q p m I Hq Hr Hp) as (_ & -> & _). unfold lazy_of, to_drop. cbn.
  assert (b2 (st = Grabbed /\ mm p = Some m) = b2 (t_stage p = Grabbed /\ mm p = Some m)) as ->.
  { destruct Hst as [->|[-> ->]]; [reflexivity|]. rewrite !b2_false by (intros [? _]; discriminate). reflexivity. }
  destruct (mm n) as [a|] eqn:Hmn, (mm p) as [b|] eqn:Hmp; cbn.
  - rewrite !(b2_false (Some a = None /\ _)) by (intros [? _]; discriminate). rewrite !(b2_false (Some b = None /\ _)) by (intros [? _]; discriminate).
    rewrite (b2_false (None = Some m)) by discriminate. lia.
  - rewrite !(b2_false (Some a = None /\ _)) by (intros [? _]; discriminate).
    rewrite (b2_false (None = None /\ None = Some m)) by (intros [_ ?]; discriminate).
    rewrite (b2_iff (None = None /\ active_mm p = Some m) (active_mm p = Some m)) by tauto. lia.
  - rewrite !(b2_false (Some b = None /\ _)) by (intros [? _]; discriminate). rewrite (b2_false (None = Some m)) by discriminate.
    rewrite (next_lazy Hmn). rewrite (b2_false (None = None /\ None = Some m)) by (intros [_ ?]; discriminate).
    rewrite (b2_iff (None = None /\ active_mm p = Some m) (active_mm p = Some m)) by tauto. lia.
  - rewrite (next_lazy Hmn). rewrite !(b2_false (None = None /\ None = Some m)) by (intros [_ ?]; discriminate).
    rewrite (b2_false (None = Some m)) by discriminate. lia.
Qed.

(** The address space that the next task borrows. *)
Definition borrows : option nat := match mm n, mm p with None, Some _ => active_mm p | _, _ => None end.

Lemma switch_runs : exists ms, context_switch c next (put_task s (curr q) (set_stage p st)) = Ok (switched_state s c next q p n st ms) /\
  forall m, ms !! m = match mms s !! m with Some v => Some (if decide (borrows = Some m) then mmgrab v else v) | None => None end.
Proof.
  pose proof prev_not_next as Hpn. pose proof prev_active as Ha. destruct (runs_idle_cpu s c q p 0 I Hq Hr Hp) as (Hpm & _).
  unfold context_switch, borrows. cbn [put_task cpus tasks]. rewrite Hq. cbn [the mbind res_bind]. unfold task_at. cbn [put_task tasks].
  rewrite lookup_insert_eq. cbn [mbind res_bind]. rewrite lookup_insert_ne, Hn by exact Hpn. cbn [mbind res_bind set_stage active_mm set_on_cpu mm].
  rewrite Ha. cbn [the mbind res_bind].
  assert (forall m, mms s !! m = match mms s !! m with Some v => Some v | None => None end) as Heta by (intros m; destruct (mms s !! m); reflexivity).
  destruct (mm n) as [a|] eqn:Hmn.
  - destruct (user_exists _ _ s next n a I Hn) as (v & Hv & _);
      [unfold user_of; rewrite b2_true by exact Hmn; pose proof (b2_nonneg (t_stage n = Cleared a)); lia|].
    unfold mm_at. cbn [put_task mms]. rewrite Hv. cbn [mbind res_bind].
    exists (mms s). split; [|exact Heta].
    unfold switched_state, leaves, enters, switched_cpu. rewrite Hmn. destruct (mm p) eqn:Hmp; unfold put_cpu, put_task, set_stage, set_mm, set_on_cpu; cbn;
      rewrite ?insert_insert_eq, ?Hmn, ?Ha, ?Hmp, ?Hpm; reflexivity.
  - destruct (mm p) as [b|] eqn:Hmp.
    + destruct (active_exists _ _ s c q p I Hq ltac:(congruence) Hp) as (_ & v & Hv & _).
      unfold grab_mm, mm_at. cbn [put_task mms]. rewrite Hv. cbn [mbind res_bind mret res_ret]. eexists. split.
      * unfold switched_state, leaves, enters, switched_cpu, put_cpu, put_task, put_mm, set_stage, set_mm, set_on_cpu. cbn.
        rewrite ?Hmn, ?Hmp, ?Ha, ?Hpm. reflexivity.
      * intros m. cbn [put_mm put_task mms]. destruct (decide (loaded q = m)) as [<-|Hd].
        -- rewrite lookup_insert_eq, Hv, decide_True by reflexivity. reflexivity.
        -- rewrite lookup_insert_ne by exact Hd. destruct (mms s !! m); [|reflexivity]. rewrite decide_False by congruence. reflexivity.
    + exists (mms s). split; [|exact Heta].
      unfold switched_state, leaves, enters, switched_cpu. rewrite Hmn. unfold put_cpu, put_task, set_stage, set_mm, set_on_cpu. cbn.
      rewrite ?insert_insert_eq, ?Hmn, ?Ha, ?Hmp, ?Hpm; reflexivity.
Qed.

Lemma switch_keeps : exists s', context_switch c next (put_task s (curr q) (set_stage p st)) = Ok s' /\ Inv s'.
Proof.
  destruct switch_runs as (ms & E & Hms). exists (switched_state s c next q p n st ms). split; [exact E|]. apply switched_shape.
  intros m. unfold mm_ok. cbn [switched_state mms]. rewrite switched_U, switched_R, Hms.
  assert (match mm n, mm p with None, Some _ => b2 (active_mm p = Some m) | _, _ => 0 end = b2 (borrows = Some m)) as ->.
  { unfold borrows. destruct (mm n), (mm p); try (rewrite b2_false by discriminate; reflexivity). apply b2_iff. tauto. }
  pose proof (a_mm _ _ s I m) as Hm. unfold mm_ok in Hm. destruct (mms s !! m) as [v|] eqn:Ev.
  - unfold b2 at 2. destruct (decide (borrows = Some m)); [|rewrite Z.add_0_r; exact Hm]. destruct (grab_counts v) as [-> ->]. lia.
  - rewrite b2_false; [lia|]. intros Hb. unfold borrows in Hb. destruct (mm n), (mm p); try discriminate. rewrite prev_active in Hb. injection Hb as <-.
    destruct (active_exists _ _ s c q p I Hq ltac:(congruence) Hp) as (_ & v & Hv & _). congruence.
Qed.
End Switch.
End Keeps.

(** * The other steps *)

Section Steps.
  Context `{MmsOk M} (init_mm : nat).

#[local] Abbreviation Inv := (AInv init_mm None).

(** * Address spaces *)

(** The users put what they hold. *)
Lemma mm_after_put (s s' : asys M) m v : mm_ok s m -> 0 < U s m -> mms s !! m = Some v -> 0 <= R s m ->
  mms s' !! m = mmput v -> U s' m = U s m - 1 -> R s' m = R s m -> mm_ok s' m.
Proof.
  unfold mm_ok. intros Hm HU Hv HR E EU ER. rewrite Hv in Hm. destruct Hm as (Hu & Hc & Hle). rewrite E, EU, ER.
  rewrite b2_true in Hc by exact HU. pose proof (put_counts v) as Hp. destruct (mmput v) as [y|].
  - destruct Hp as (Hu' & Hc' & Hn). destruct (Z.eqb_spec (mm_users v) 1) as [E1|E1].
    + rewrite b2_false by lia. specialize (Hn E1). lia.
    + rewrite b2_true by lia. lia.
  - lia.
Qed.

(** A lazy holder drops what it holds. *)
Lemma mm_after_drop (s s' : asys M) m v : mm_ok s m -> 0 < R s m -> mms s !! m = Some v -> 0 <= U s m ->
  mms s' !! m = mmdrop v -> U s' m = U s m -> R s' m = R s m - 1 -> mm_ok s' m.
Proof.
  unfold mm_ok. intros Hm HR Hv HU E EU ER. rewrite Hv in Hm. destruct Hm as (Hu & Hc & Hle). rewrite E, EU, ER.
  pose proof (drop_counts v) as Hp. pose proof (b2_nonneg (0 < U s m)) as Hb. destruct (mmdrop v) as [y|].
  - destruct Hp as (Hu' & Hc' & Hn). lia.
  - assert (b2 (0 < U s m) = 0) as Hz by lia. assert (~ 0 < U s m) as Hn by (intros Hu0; rewrite b2_true in Hz by exact Hu0; discriminate). lia.
Qed.

(** * The task that runs *)

(** The current task of a CPU changes, and with it what is loaded. *)
Lemma current_changes (s : asys M) c q x x' ld (ms : gmap nat M) : Inv s -> cpus s !! c = Some q -> ph q = Runs -> tasks s !! curr q = Some x ->
  task_ok x' -> t_stage x' <> Dead -> active_mm x' = Some ld -> released x' = released x -> rcu_users x' = rcu_users x ->
  on_cpu x' = on_cpu x -> idle_of x' = idle_of x ->
  let s' := mkAs (<[curr q := x']> (tasks s)) (<[c := mkMc (curr q) (prev_mm q) (ph q) ld]> (cpus s)) ms (others s) in
  (forall m, mm_ok s' m) -> Inv s'.
Proof.
  intros I Hq Hr Hx Hok Hl Ha Hre Hrc Ho Hi s' Hmm. assert (t_stage x <> Dead) as Hl0 by apply (runs_idle_cpu init_mm s c q x 0 I Hq Hr Hx).
  set (q' := mkMc (curr q) (prev_mm q) (ph q) ld) in *. split; try exact Hmm; try apply I; unfold s'; cbn.
  - intros t. rewrite (msum_update _ _ _ q) by exact Hq. change (on_slot t q') with (on_slot t q). rewrite (a_slot _ _ s I t).
    destruct (decide (curr q = t)) as [<-|Hd]; [rewrite lookup_insert_eq, Hx, Ho | rewrite lookup_insert_ne by exact Hd]; lia.
  - intros t y. rewrite lookup_insert_Some. intros [[<- <-]|[_ Hy]]; [exact Hok | exact (a_task _ _ s I t y Hy)].
  - intros t y. rewrite (msum_update _ _ _ q) by exact Hq. change (to_put t q') with (to_put t q).
    replace (msum (to_put t) (cpus s) - to_put t q + to_put t q) with (msum (to_put t) (cpus s)) by lia.
    rewrite lookup_insert_Some. intros [[<- <-]|[_ Hy]]; [|exact (a_refs _ _ s I t y Hy)].
    pose proof (a_refs _ _ s I _ x Hx) as Hf. rewrite decide_False in Hf by exact Hl0. rewrite decide_False by exact Hl. rewrite Hre, Hrc. exact Hf.
  - discriminate.
  - intros c' r. rewrite lookup_insert_Some. intros [[<- <-]|[Hn Hq']].
    + exists x'. cbn. rewrite lookup_insert_eq. split; [reflexivity|].
      destruct (runs_idle_cpu init_mm s c q x 0 I Hq Hr Hx) as (Hp & _ & [C1 C2 C3 C4 C5 C6]). split; cbn; rewrite ?Hi, ?Hr, ?Hp; auto; try congruence.
      intros m. unfold to_drop. cbn. rewrite Hp, Hr, b2_false by discriminate. lia.
    + destruct (a_curr _ _ s I c' r Hq') as (y & Hy & Hc). exists y. split; [|exact Hc]. rewrite lookup_insert_ne; [exact Hy|].
      intros E. apply Hn. eapply slot_once; [exact I | exact Hq | exact Hq' | apply slot_curr; reflexivity | apply slot_curr; congruence].
  - intros c' r p m. rewrite lookup_insert_Some. intros [[<- <-]|[_ Hq']] Hp; [cbn in Hp; congruence|].
    destruct (a_dead _ _ s I c' r p m Hq' Hp) as (y & Hy & Hd). exists y. split; [|exact Hd]. rewrite lookup_insert_ne; [exact Hy|]. intros <-. congruence.
  - intros t y. rewrite lookup_insert_Some. intros [[<- <-]|[Hd Hy]]; [intros _ _; exists c, q'; rewrite lookup_insert_eq; auto|].
    intros Hm Hay. destruct (a_lazy _ _ s I t y Hy Hm Hay) as (c' & r & Hq' & E). exists c', r. split; [|exact E]. rewrite lookup_insert_ne; [exact Hq'|]. congruence.
Qed.

(** Nothing else is loaded. *)
Lemma running_changes s c q x x' ms : Inv s -> cpus s !! c = Some q -> ph q = Runs -> tasks s !! curr q = Some x ->
  task_ok x' -> t_stage x' <> Dead -> active_mm x' = active_mm x -> released x' = released x -> rcu_users x' = rcu_users x ->
  on_cpu x' = on_cpu x -> idle_of x' = idle_of x ->
  (forall m, mm_ok (mkAs (<[curr q := x']> (tasks s)) (cpus s) ms (others s)) m) -> Inv (mkAs (<[curr q := x']> (tasks s)) (cpus s) ms (others s)).
Proof.
  intros I Hq Hr Hx Hok Hl Ha Hre Hrc Ho Hi Hmm.
  destruct (active_exists _ _ s c q x I Hq ltac:(congruence) Hx) as [Hld _].
  assert (<[c := mkMc (curr q) (prev_mm q) (ph q) (loaded q)]> (cpus s) = cpus s) as Hid by (apply insert_id; rewrite Hq; destruct q; reflexivity).
  rewrite <- Hid in Hmm |- *. apply (current_changes s c q x x' (loaded q)); auto. congruence.
Qed.

Lemma running_U (s : asys M) c q x x' (ms : gmap nat M) m : cpus s !! c = Some q -> tasks s !! curr q = Some x ->
  U (mkAs (<[curr q := x']> (tasks s)) (cpus s) ms (others s)) m = U s m - user_of m x + user_of m x'.
Proof. intros Hq Hx. unfold U. cbn. rewrite (msum_update _ _ _ x) by exact Hx. lia. Qed.

Lemma running_R (s : asys M) c q x x' (ms : gmap nat M) m : cpus s !! c = Some q -> tasks s !! curr q = Some x ->
  R (mkAs (<[curr q := x']> (tasks s)) (cpus s) ms (others s)) m = R s m - lazy_of m x + lazy_of m x'.
Proof. intros Hq Hx. unfold R. cbn. rewrite (msum_update _ _ _ x) by exact Hx. lia. Qed.

Section Exit.
  Context (s : asys M) (c : nat) (q : mcpu) (x : mtask).
  Hypothesis I : Inv s.
  Hypothesis Hq : cpus s !! c = Some q.
  Hypothesis Hr : ph q = Runs.
  Hypothesis Hx : tasks s !! curr q = Some x.
  Hypothesis Hre : released x = false.
  Hypothesis Hi : idle_of x = None.

Lemma exit_grabs m : t_stage x = Alive -> mm x = Some m -> exists s', exit_mm (curr q) s = Ok s' /\ Inv s'.
Proof.
  intros Hst Hm. destruct (a_task _ _ s I _ x Hx) as [T1 T2 T3 T4]. unfold exit_mm, task_at. rewrite Hx. cbn [mbind res_bind]. rewrite Hst, Hm.
  destruct (user_exists _ _ s (curr q) x m I Hx) as (v & Hv & Hu & Hc & Hle).
  { unfold user_of. rewrite b2_true by exact Hm. pose proof (b2_nonneg (t_stage x = Cleared m)). lia. }
  unfold grab_mm, mm_at. rewrite Hv. cbn [mbind res_bind mret res_ret]. rewrite decide_True by (apply T1, Hm).
  eexists. split; [reflexivity|]. apply (running_changes s c q x); auto; try (cbn; congruence).
  * split; cbn; [apply (a_task _ _ s I _ x Hx) | | |]; intros; congruence.
  * intros m'. cbn. unfold mm_ok. cbn. rewrite (running_U s c q x), (running_R s c q x) by assumption.
    assert (user_of m' (set_stage x Grabbed) = user_of m' x) as ->.
    { unfold user_of. cbn. rewrite Hst. rewrite !(b2_false (_ = Cleared m')) by discriminate. reflexivity. }
    assert (lazy_of m' (set_stage x Grabbed) = lazy_of m' x + b2 (m = m')) as ->.
    { unfold lazy_of. cbn. rewrite Hst, Hm. rewrite (b2_false (Alive = Grabbed /\ _)) by (intros [? _]; discriminate).
      rewrite (b2_iff (Grabbed = Grabbed /\ Some m = Some m') (m = m')) by (split; [intros [_ ?]; congruence | intros ->; auto]). lia. }
    pose proof (a_mm _ _ s I m') as Hm'. unfold mm_ok in Hm'. destruct (decide (m = m')) as [<-|Hd].
    -- rewrite lookup_insert_eq. rewrite Hv in Hm'. rewrite (b2_true (m = m)) by reflexivity. destruct (grab_counts v) as [-> ->].
       replace (U s m - user_of m x + user_of m x) with (U s m) by lia. lia.
    -- rewrite lookup_insert_ne by exact Hd. rewrite (b2_false (m = m')) by exact Hd.
       replace (U s m' - user_of m' x + user_of m' x) with (U s m') by lia. replace (R s m' - lazy_of m' x + (lazy_of m' x + 0)) with (R s m') by lia. exact Hm'.
Qed.

Lemma exit_kernel : t_stage x = Alive -> mm x = None -> exists s', exit_mm (curr q) s = Ok s' /\ Inv s'.
Proof.
  intros Hst Hm. unfold exit_mm, task_at. rewrite Hx. cbn [mbind res_bind]. rewrite Hst, Hm.
  eexists. split; [reflexivity|]. apply (running_changes s c q x); auto; try (cbn; congruence).
  * split; cbn; [apply (a_task _ _ s I _ x Hx) | | |]; intros; congruence.
  * intros m'. apply (mm_frame s); [| | reflexivity | apply I].
    -- rewrite (running_U s c q x) by assumption. unfold user_of. cbn. rewrite Hst, Hm. rewrite !b2_false by discriminate. lia.
    -- rewrite (running_R s c q x) by assumption. unfold lazy_of. cbn. rewrite Hst, Hm.
       rewrite (b2_false (Alive = Grabbed /\ _)) by (intros [? _]; discriminate). rewrite (b2_false (Gone = Grabbed /\ _)) by (intros [? _]; discriminate). lia.
Qed.

Lemma exit_clears : t_stage x = Grabbed -> exists s', exit_mm (curr q) s = Ok s' /\ Inv s'.
Proof.
  intros Hst. destruct (a_task _ _ s I _ x Hx) as [T1 T2 T3 T4]. rewrite Hst in T2. unfold exit_mm, task_at. rewrite Hx. cbn [mbind res_bind]. rewrite Hst.
  destruct (mm x) as [m|] eqn:Hm; [|contradiction]. cbn [the mbind res_bind].
  eexists. split; [reflexivity|]. apply (running_changes s c q x); auto; try (cbn; congruence).
  + split; cbn; auto; congruence.
  + intros m'. apply (mm_frame s); [| | reflexivity | apply I].
    * rewrite (running_U s c q x) by assumption. unfold user_of. cbn. rewrite Hst, Hm. rewrite (b2_false (None = Some m')) by discriminate.
      rewrite (b2_false (Grabbed = Cleared m')) by discriminate. rewrite (b2_iff (Cleared m = Cleared m') (Some m = Some m')) by (split; congruence). lia.
    * rewrite (running_R s c q x) by assumption. unfold lazy_of. cbn. rewrite Hst, Hm, (T1 m eq_refl).
      rewrite (b2_iff (Grabbed = Grabbed /\ Some m = Some m') (Some m = Some m')) by tauto.
      rewrite (b2_iff (None = None /\ Some m = Some m') (Some m = Some m')) by tauto.
      rewrite (b2_false (Some m = None /\ _)) by (intros [? _]; discriminate).
      rewrite (b2_false (Cleared m = Grabbed /\ _)) by (intros [? _]; discriminate). lia.
Qed.

Lemma exit_puts m : t_stage x = Cleared m -> exists s', exit_mm (curr q) s = Ok s' /\ Inv s'.
Proof.
  intros Hst. destruct (a_task _ _ s I _ x Hx) as [T1 T2 T3 T4]. rewrite Hst in T2. unfold exit_mm, task_at. rewrite Hx. cbn [mbind res_bind]. rewrite Hst.
  destruct (user_exists _ _ s (curr q) x m I Hx) as (v & Hv & Hu & Hc & Hle).
  { unfold user_of. rewrite Hst. rewrite (b2_true (Cleared m = Cleared m)) by reflexivity. pose proof (b2_nonneg (mm x = Some m)). lia. }
  unfold put_user, mm_at. rewrite Hv. cbn [mbind res_bind mret res_ret]. eexists. split; [reflexivity|].
  apply (running_changes s c q x); auto; try (cbn; congruence).
  + split; cbn; auto; congruence.
  + intros m'.
    assert (forall ms : gmap nat M, U (mkAs (<[curr q := set_stage x Gone]> (tasks s)) (cpus s) ms (others s)) m' = U s m' - b2 (m = m')) as EU.
    { intros ms. rewrite (running_U s c q x) by assumption. unfold user_of. cbn. rewrite Hst. rewrite (b2_false (Gone = Cleared m')) by discriminate.
      rewrite (b2_iff (Cleared m = Cleared m') (m = m')) by (split; congruence). lia. }
    assert (forall ms : gmap nat M, R (mkAs (<[curr q := set_stage x Gone]> (tasks s)) (cpus s) ms (others s)) m' = R s m') as ER.
    { intros ms. rewrite (running_R s c q x) by assumption. unfold lazy_of. cbn. rewrite Hst.
      rewrite (b2_false (Cleared m = Grabbed /\ _)) by (intros [? _]; discriminate). rewrite (b2_false (Gone = Grabbed /\ _)) by (intros [? _]; discriminate). lia. }
    destruct (decide (m = m')) as [<-|Hd].
    * apply (mm_after_put s _ m v); [apply I | lia | exact Hv | apply R_nonneg | | | apply ER].
      -- cbn. destruct (mmput v); [apply lookup_insert_eq | apply lookup_delete_eq].
      -- rewrite EU, b2_true by reflexivity. reflexivity.
    * apply (mm_frame s); [rewrite EU, b2_false by exact Hd; lia | apply ER | | apply I].
      cbn. destruct (mmput v); [rewrite lookup_insert_ne by exact Hd | rewrite lookup_delete_ne by exact Hd]; reflexivity.
Qed.

Lemma exit_keeps : t_stage x <> Gone -> exists s', exit_mm (curr q) s = Ok s' /\ Inv s'.
Proof.
  intros Hg. assert (t_stage x <> Dead) as Hl by apply (runs_idle_cpu init_mm s c q x 0 I Hq Hr Hx).
  destruct (t_stage x) as [| |m| |] eqn:Hst; try congruence; [|exact (exit_clears Hst) | exact (exit_puts m Hst)].
  destruct (mm x) as [m|] eqn:Hm; [exact (exit_grabs m Hst Hm) | exact (exit_kernel Hst Hm)].
Qed.
End Exit.
(** * References to tasks *)

(** A dead task that is not pending anywhere runs nowhere and holds nothing. *)
Lemma dead_idle owed s t x : AInv init_mm owed s -> tasks s !! t = Some x -> t_stage x = Dead -> msum (to_put t) (cpus s) = 0 ->
  on_cpu x = false /\ forall m, user_of m x = 0 /\ lazy_of m x = 0.
Proof.
  intros I Hx Hd Hz. pose proof (ok_stage _ (a_task _ _ s I _ x Hx)) as Hm. rewrite Hd in Hm.
  assert (forall c q, cpus s !! c = Some q -> curr q <> t) as Hc.
  { intros c q Hq E. destruct (a_curr _ _ s I c q Hq) as (y & Hy & Hok). apply (ok_alive _ _ _ _ Hok). congruence. }
  split.
  - destruct (on_cpu x) eqn:Ho; [|reflexivity]. exfalso. pose proof (a_slot _ _ s I t) as Hs. rewrite Hx, Ho in Hs.
    destruct (msum_pos (on_slot t) (cpus s) (on_slot_nonneg t)) as (c & q & Hq & Hp); [lia|]. unfold on_slot in Hp.
    rewrite b2_false in Hp by exact (Hc c q Hq). unfold b2 in Hp. destruct (decide (ph q = Switched t)) as [E|]; [|lia].
    pose proof (msum_ge (to_put t) (cpus s) c q (put_nonneg t) Hq) as Hge. unfold to_put at 1 in Hge. rewrite E, b2_true in Hge by reflexivity. lia.
  - intros m. unfold user_of, lazy_of. rewrite Hd, Hm. rewrite (b2_false (None = Some m)) by discriminate.
    rewrite (b2_false (Dead = Cleared m)) by discriminate. rewrite (b2_false (Dead = Grabbed /\ _)) by (intros [? _]; discriminate).
    split; [reflexivity|]. rewrite b2_false; [reflexivity|]. intros [_ Ha].
    destruct (a_lazy _ _ s I t x Hx Hm) as (c & q & Hq & E); [congruence|]. exact (Hc c q Hq E).
Qed.

Definition refs_ok (owed : option nat) (s : asys M) (t : nat) (x : mtask) : Prop :=
  rcu_users x = owes owed t + ((if released x then 0 else 1) + (if decide (t_stage x = Dead) then msum (to_put t) (cpus s) else 1)) /\
  1 <= rcu_users x.

(** Only the references of a task change. *)
Lemma refs_change owed owed' (s : asys M) t x r n : AInv init_mm owed s -> tasks s !! t = Some x -> (r = true -> t_stage x = Gone \/ t_stage x = Dead) ->
  refs_ok owed' s t (set_refs x r n) -> (forall u y, t <> u -> tasks s !! u = Some y -> refs_ok owed' s u y) ->
  (forall u, owed' = Some u -> exists y, tasks (put_task s t (set_refs x r n)) !! u = Some y /\ (t_stage y = Gone \/ t_stage y = Dead)) ->
  AInv init_mm owed' (put_task s t (set_refs x r n)).
Proof.
  intros I Hx Hr Hrx Hother Howed. split; try exact Howed; try apply I; cbn.
  - intros u. rewrite (a_slot _ _ s I u). destruct (decide (t = u)) as [<-|Hn]; [rewrite lookup_insert_eq, Hx | rewrite lookup_insert_ne by exact Hn]; reflexivity.
  - intros u y. rewrite lookup_insert_Some. intros [[<- <-]|[_ Hy]]; [|exact (a_task _ _ s I u y Hy)]. destruct (a_task _ _ s I t x Hx) as [T1 T2 T3 T4]. split; assumption.
  - intros u y. rewrite lookup_insert_Some. intros [[<- <-]|[Hn Hy]]; [exact Hrx | exact (Hother u y Hn Hy)].
  - intros c q Hq. destruct (a_curr _ _ s I c q Hq) as (y & Hy & Hok). destruct (decide (t = curr q)) as [Ht|Hn].
    + rewrite Ht, lookup_insert_eq. eexists. split; [reflexivity|]. assert (y = x) as -> by congruence. destruct Hok as [C1 C2 C3 C4 C5 C6]. split; assumption.
    + rewrite lookup_insert_ne by exact Hn. exists y. auto.
  - intros c q p m Hq Hp. destruct (a_dead _ _ s I c q p m Hq Hp) as (y & Hy & Hdy). destruct (decide (t = p)) as [Ht|Hn].
    + rewrite Ht, lookup_insert_eq. eexists. split; [reflexivity|]. cbn. congruence.
    + rewrite lookup_insert_ne by exact Hn. exists y. auto.
  - intros u y. rewrite lookup_insert_Some. intros [[<- <-]|[_ Hy]]; [exact (a_lazy _ _ s I t x Hx) | exact (a_lazy _ _ s I u y Hy)].
  - intros m. apply (mm_frame s); [| | reflexivity | apply I].
    + unfold U. cbn. rewrite (msum_update _ _ _ x) by exact Hx. unfold user_of. cbn. lia.
    + unfold R. cbn. rewrite (msum_update _ _ _ x) by exact Hx. unfold lazy_of. cbn. lia.
Qed.

(** The reference that is owed is put. *)
Lemma put_keeps s t : AInv init_mm (Some t) s -> exists s', put_task_struct_rcu_user t s = Ok s' /\ Inv s'.
Proof.
  intros I. destruct (a_owed _ _ s I t eq_refl) as (x & Hx & Hst). pose proof (a_refs _ _ s I t x Hx) as [Hrc Hle].
  unfold owes in Hrc. rewrite b2_true in Hrc by reflexivity.
  unfold put_task_struct_rcu_user, task_at. rewrite Hx. cbn [mbind res_bind].
  assert (forall u y, tasks s !! u = Some y -> u <> t -> rcu_users y = owes None u + ((if released y then 0 else 1) +
    (if decide (t_stage y = Dead) then msum (to_put u) (cpus s) else 1)) /\ 1 <= rcu_users y) as Hother.
  { intros u y Hy Hd. pose proof (a_refs _ _ s I u y Hy) as Hf. unfold owes in Hf. rewrite b2_false in Hf by congruence. exact Hf. }
  pose proof (msum_nonneg (to_put t) (cpus s) (put_nonneg t)) as Hnn. destruct (Z.eqb_spec (rcu_users x - 1) 0) as [E|E].
  - (* the last one *)
    assert (t_stage x = Dead /\ msum (to_put t) (cpus s) = 0) as [Hd Hz] by (destruct (decide (t_stage x = Dead)), (released x); (split; [assumption|]; lia) || lia).
    destruct (dead_idle _ s t x I Hx Hd Hz) as [Ho Hh]. eexists. split; [reflexivity|]. split; cbn; try apply I.
    + intros u. rewrite (a_slot _ _ s I u). destruct (decide (t = u)) as [<-|Hn]; [rewrite lookup_delete_eq, Hx, Ho | rewrite lookup_delete_ne by exact Hn]; reflexivity.
    + intros u y. rewrite lookup_delete_Some. intros [_ Hy]. exact (a_task _ _ s I u y Hy).
    + intros u y. rewrite lookup_delete_Some. intros [Hn Hy]. apply Hother; [exact Hy | congruence].
    + discriminate.
    + intros c q Hq. destruct (a_curr _ _ s I c q Hq) as (y & Hy & Hok). exists y. split; [|exact Hok]. rewrite lookup_delete_ne; [exact Hy|].
      intros Et. apply (ok_alive _ _ _ _ Hok). congruence.
    + intros c q p m Hq Hp. destruct (a_dead _ _ s I c q p m Hq Hp) as (y & Hy & Hdy). exists y. split; [|exact Hdy]. rewrite lookup_delete_ne; [exact Hy|].
      intros <-. pose proof (msum_ge (to_put t) (cpus s) c q (put_nonneg t) Hq) as Hge. unfold to_put at 1 in Hge. rewrite Hp, b2_true in Hge by reflexivity. lia.
    + intros u y. rewrite lookup_delete_Some. intros [_ Hy]. exact (a_lazy _ _ s I u y Hy).
    + intros m. destruct (Hh m) as [H1 H2]. apply (mm_frame s); [| | reflexivity | apply I].
      * unfold U. cbn. rewrite (msum_delete _ _ _ x) by exact Hx. lia.
      * unfold R. cbn. rewrite (msum_delete _ _ _ x) by exact Hx. lia.
  - eexists. split; [reflexivity|]. apply (refs_change (Some t) None s t x); [exact I | exact Hx | apply (a_task _ _ s I t x Hx) | unfold refs_ok; cbn; lia | | discriminate].
    intros u y Hn Hy. apply Hother; [exact Hy | congruence].
Qed.

(** A task is reaped. *)
Lemma release_keeps s t x : Inv s -> tasks s !! t = Some x -> t_stage x = Gone \/ t_stage x = Dead -> released x = false ->
  exists s', reap t s = Ok s' /\ Inv s'.
Proof.
  intros I Hx Hst Hre. unfold reap, task_at. rewrite Hx. cbn [mbind res_bind]. apply put_keeps.
  apply (refs_change None (Some t) s t x); [exact I | exact Hx | auto | | | ].
  - pose proof (a_refs _ _ s I t x Hx) as Hf. rewrite Hre in Hf. cbn in Hf. unfold refs_ok. cbn. rewrite b2_true by reflexivity. lia.
  - intros u y Hn Hy. unfold refs_ok. cbn. rewrite b2_false by exact Hn. exact (a_refs _ _ s I u y Hy).
  - intros u [= <-]. eexists. cbn. rewrite lookup_insert_eq. split; [reflexivity | exact Hst].
Qed.
End Steps.
