(* ===== verification/SpaceTheorems.v ===== *)
(** The theorem about [AddressSpace], with the last of its steps. *)

From S2P Require Import Prelude AddressSpace SpaceInv SpaceKeeps.
Local Open Scope Z_scope.

Section Theorems.
  Context `{MmsOk M} (init_mm : nat).

#[local] Abbreviation Inv := (AInv init_mm None).

(** * The rest of the switch *)

(** Only a CPU changes, and not its current task. *)
Lemma cpu_changes owed s c q q' x (ms : gmap nat M) : Inv s -> cpus s !! c = Some q -> tasks s !! curr q = Some x -> curr q' = curr q ->
  cpu_ok init_mm c q' x -> (forall t, on_slot t q' = on_slot t q) ->
  (forall t, owes owed t + to_put t q' = to_put t q) ->
  (forall t, owed = Some t -> exists y, tasks s !! t = Some y /\ t_stage y = Dead) ->
  (forall p m, ph q' = Finishing p m true -> ph q = Finishing p m true \/ exists m', ph q = Finishing p m' true) ->
  (forall m, mm_ok (mkAs (tasks s) (<[c := q']> (cpus s)) ms (others s)) m) -> AInv init_mm owed (mkAs (tasks s) (<[c := q']> (cpus s)) ms (others s)).
Proof.
  intros I Hq Hx Hc Hok Hs Hp Ho Hd Hmm. split; try exact Hmm; try apply I; cbn.
  - intros t. rewrite (msum_update _ _ _ q) by exact Hq. rewrite Hs, (a_slot _ _ s I t). lia.
  - intros t y Hy. rewrite (msum_update _ _ _ q) by exact Hq. pose proof (a_refs _ _ s I t y Hy) as Hf. cbn in Hf. specialize (Hp t).
    destruct (decide (t_stage y = Dead)); [lia|].
    assert (owes owed t = 0) as ->; [|lia]. unfold owes. destruct owed as [o|]; [|reflexivity]. apply b2_false. intros ->.
    destruct (Ho t eq_refl) as (z & Hz & Hzd). congruence.
  - intros t Ht. destruct (Ho t Ht) as (y & Hy & Hyd). exists y. auto.
  - intros c' r. rewrite lookup_insert_Some. intros [[<- <-]|[_ Hr]]; [exists x; rewrite Hc; auto | exact (a_curr _ _ s I c' r Hr)].
  - intros c' r p m. rewrite lookup_insert_Some. intros [[<- <-]|[_ Hr]]; [|exact (a_dead _ _ s I c' r p m Hr)].
    intros E. destruct (Hd p m E) as [E'|[m' E']]; exact (a_dead _ _ s I c q p _ Hq E').
  - intros t y Hy Hm Ha. destruct (a_lazy _ _ s I t y Hy Hm Ha) as (c' & r & Hr & E). destruct (decide (c = c')) as [<-|Hn].
    + exists c, q'. rewrite lookup_insert_eq. split; [reflexivity|]. congruence.
    + exists c', r. rewrite lookup_insert_ne by exact Hn. auto.
Qed.

(** The first step: [prev] is let go. *)
Lemma finish_lets_go s c q prev : Inv s -> cpus s !! c = Some q -> ph q = Switched prev -> exists s', finish_task_switch c s = Ok s' /\ Inv s'.
Proof.
  intros I Hq Hph. destruct (slot_on _ _ s c q prev I Hq (slot_switched _ _ Hph)) as (Hslot & p & Hp & Hon).
  assert (curr q <> prev) as Hcp by (intros E; unfold on_slot in Hslot; rewrite !b2_true in Hslot by assumption; discriminate).
  unfold finish_task_switch. rewrite Hq. cbn [the mbind res_bind]. rewrite Hph. unfold task_at. rewrite Hp. cbn [mbind res_bind mret res_ret].
  eexists. split; [reflexivity|]. destruct (a_curr _ _ s I c q Hq) as (x & Hx & Hok).
  assert (forall m, to_drop m (mkMc (curr q) None (Finishing prev (prev_mm q) (bool_decide (t_stage p = Dead))) (loaded q)) = to_drop m q) as Hdrop.
  { intros m. unfold to_drop. cbn. rewrite Hph, (b2_false (None = Some m)) by discriminate. destruct (prev_mm q) as [m'|]; [|rewrite b2_false by discriminate; reflexivity].
    rewrite (b2_iff (Some m' = Some m) (m' = m)) by (split; congruence). lia. }
  split; try apply I; cbn.
  - intros t. rewrite (msum_update _ _ _ q) by exact Hq. rewrite (a_slot _ _ s I t). unfold on_slot. cbn. rewrite Hph. rewrite (b2_false (Finishing _ _ _ = _)) by discriminate.
    destruct (decide (prev = t)) as [<-|Hn].
    + rewrite lookup_insert_eq, Hp, Hon, (b2_true (Switched prev = Switched prev)) by reflexivity. cbn. lia.
    + rewrite lookup_insert_ne by exact Hn. rewrite (b2_false (Switched prev = Switched t)) by congruence. lia.
  - intros t y. rewrite lookup_insert_Some. intros [[<- <-]|[_ Hy]]; [|exact (a_task _ _ s I t y Hy)]. destruct (a_task _ _ s I prev p Hp) as [T1 T2 T3 T4]. split; assumption.
  - intros t y. rewrite lookup_insert_Some, (msum_update _ _ _ q) by exact Hq. unfold to_put at 2 3. rewrite Hph. cbn. intros [[<- <-]|[Hn Hy]].
    + pose proof (a_refs _ _ s I prev p Hp) as Hf. cbn in *. destruct (decide (t_stage p = Dead)) as [Hd|Hd]; [|exact Hf].
      rewrite bool_decide_true by exact Hd. rewrite b2_true by reflexivity. lia.
    + rewrite b2_false by exact Hn. pose proof (a_refs _ _ s I t y Hy) as Hf. cbn in Hf. destruct (bool_decide (t_stage p = Dead)); rewrite ?b2_false by exact Hn;
        replace (msum (to_put t) (cpus s) - 0 + 0) with (msum (to_put t) (cpus s)) by lia; exact Hf.
  - discriminate.
  - intros c' r. rewrite lookup_insert_Some. intros [[<- <-]|[Hn Hr]].
    + exists x. cbn. rewrite lookup_insert_ne by congruence. split; [exact Hx|]. destruct Hok as [C1 C2 C3 C4 C5 C6]. split; cbn; auto; try congruence.
      * intros _. apply C3. congruence.
      * intros m. rewrite Hdrop. apply C6.
    + destruct (a_curr _ _ s I c' r Hr) as (y & Hy & Hoky). exists y. split; [|exact Hoky]. rewrite lookup_insert_ne; [exact Hy|].
      intros E. apply Hn. eapply slot_once; [exact I | exact Hq | exact Hr | apply slot_switched, Hph | apply slot_curr; congruence].
  - intros c' r p' m. rewrite lookup_insert_Some. intros [[<- <-]|[Hn Hr]].
    + cbn. intros [= <- _ Hd]. apply bool_decide_eq_true in Hd. eexists. rewrite lookup_insert_eq. split; [reflexivity | exact Hd].
    + intros E. destruct (a_dead _ _ s I c' r p' m Hr E) as (y & Hy & Hd). destruct (decide (prev = p')) as [<-|Hne].
      * rewrite lookup_insert_eq. eexists. split; [reflexivity|]. cbn. congruence.
      * rewrite lookup_insert_ne by exact Hne. exists y. auto.
  - intros t y Hy Hm Ha. assert (exists z, tasks s !! t = Some z /\ mm z = None /\ active_mm z <> None) as (z & Hz & Hzm & Hza).
    { apply lookup_insert_Some in Hy as [[<- <-]|[_ Hy]]; [exists p | exists y]; auto. }
    destruct (a_lazy _ _ s I t z Hz Hzm Hza) as (c' & r & Hr & E). destruct (decide (c = c')) as [<-|Hn].
    + eexists c, _. rewrite lookup_insert_eq. split; [reflexivity|]. cbn. congruence.
    + exists c', r. rewrite lookup_insert_ne by exact Hn. auto.
  - intros m. apply (mm_frame s); [| | reflexivity | apply I].
    + unfold U. cbn. rewrite (msum_update _ _ _ p) by exact Hp. unfold user_of. cbn. lia.
    + unfold R. cbn. rewrite (msum_update _ _ _ p) by exact Hp. rewrite (msum_update _ _ _ q) by exact Hq. rewrite Hdrop. unfold lazy_of. cbn. lia.
Qed.
(** It drops the address space. *)
Lemma finish_drops s c q prev m dead : Inv s -> cpus s !! c = Some q -> ph q = Finishing prev (Some m) dead -> exists s', finish_task_switch c s = Ok s' /\ Inv s'.
Proof.
  intros I Hq Hph. destruct (a_curr _ _ s I c q Hq) as (x & Hx & Hok).
  pose proof (msum_ge (to_drop m) (cpus s) c q (drop_nonneg m) Hq) as Hge. unfold to_drop at 1 in Hge. rewrite Hph, (b2_true (m = m)) in Hge by reflexivity.
  pose proof (b2_nonneg (prev_mm q = Some m)). pose proof (msum_nonneg (lazy_of m) (tasks s) (lazy_nonneg m)). pose proof (U_nonneg _ _ s m I) as HU.
  assert (0 < R s m) as HR by (unfold R; lia). destruct (held_exists _ _ s m I) as (v & Hv & _); [lia|].
  assert (prev_mm q = None) as Hpm by (destruct (prev_mm q) eqn:E; [|reflexivity]; destruct (ok_prev _ _ _ _ Hok) as (? & ?); congruence).
  unfold finish_task_switch. rewrite Hq. cbn [the mbind res_bind]. rewrite Hph. unfold drop_mm, mm_at. rewrite Hv. cbn [mbind res_bind mret res_ret].
  set (q' := mkMc (curr q) (prev_mm q) (Finishing prev None dead) (loaded q)). eexists. split; [reflexivity|].
  apply (cpu_changes None s c q q' x); auto; unfold q'; try discriminate.
  - destruct Hok as [C1 C2 C3 C4 C5 C6]. split; cbn; auto; try congruence; [intros _; apply C3; congruence|].
    intros m'. unfold to_drop. cbn. rewrite Hpm, b2_false by discriminate. lia.
  - intros t. unfold on_slot. cbn. rewrite Hph. rewrite !(b2_false (Finishing _ _ _ = _)) by discriminate. reflexivity.
  - intros t. unfold to_put. cbn. rewrite Hph. reflexivity.
  - cbn. intros p0 m0 [= <- <- ->]. eauto.
  - intros m'. destruct (decide (m = m')) as [<-|Hn].
    + apply (mm_after_drop s _ m v); [apply I | exact HR | exact Hv | exact HU | | reflexivity |].
      * cbn. destruct (mmdrop v); [apply lookup_insert_eq | apply lookup_delete_eq].
      * unfold R. cbn. rewrite (msum_update _ _ _ q) by exact Hq. unfold to_drop at 2 3. cbn. rewrite Hph, (b2_true (m = m)) by reflexivity. lia.
    + apply (mm_frame s); [reflexivity | | | apply I].
      * unfold R. cbn. rewrite (msum_update _ _ _ q) by exact Hq. unfold to_drop at 2 3. cbn. rewrite Hph, (b2_false (m = m')) by exact Hn. lia.
      * cbn. destruct (mmdrop v); [rewrite lookup_insert_ne by exact Hn | rewrite lookup_delete_ne by exact Hn]; reflexivity.
Qed.

(** It drops the task, and is done. *)
Lemma finish_puts s c q prev dead : Inv s -> cpus s !! c = Some q -> ph q = Finishing prev None dead -> exists s', finish_task_switch c s = Ok s' /\ Inv s'.
Proof.
  intros I Hq Hph. destruct (a_curr _ _ s I c q Hq) as (x & Hx & Hok).
  set (q' := mkMc (curr q) (prev_mm q) Runs (loaded q)). set (owed := if dead then Some prev else None).
  assert (AInv init_mm owed (put_cpu s c q')) as I'.
  { apply (cpu_changes owed s c q q' x); auto; unfold q', owed; try discriminate.
    - destruct Hok as [C1 C2 C3 C4 C5 C6]. split; cbn; auto; try congruence; [intros _; apply C3; congruence | |].
      + intros E. destruct (C5 E) as (? & ?). congruence.
      + intros m Hm. apply (C6 m). unfold to_drop in *. rewrite Hph. cbn in Hm. lia.
    - intros t. unfold on_slot. cbn. rewrite Hph. rewrite (b2_false (Finishing _ _ _ = _)), (b2_false (Runs = _)) by discriminate. reflexivity.
    - intros t. unfold to_put. cbn. rewrite Hph. destruct dead; cbn; lia.
    - intros t E. destruct dead; [|discriminate]. injection E as <-. exact (a_dead _ _ s I c q prev None Hq Hph).
    - intros m. apply (mm_frame s); [reflexivity | | reflexivity | apply I]. unfold R. cbn. rewrite (msum_update _ _ _ q) by exact Hq.
      unfold to_drop at 2 3. cbn. rewrite Hph. lia. }
  unfold finish_task_switch. rewrite Hq. cbn [the mbind res_bind]. rewrite Hph. destruct dead; [|eexists; split; [reflexivity | exact I']].
  destruct (put_keeps init_mm (put_cpu s c q') prev I') as (s' & E & Is'). exists s'. split; [|exact Is'].
  unfold put_task_struct_rcu_user, task_at in *. cbn [put_cpu tasks] in E. destruct (tasks s !! prev) as [p|]; [|discriminate]. cbn [mbind res_bind] in *.
  destruct (rcu_users p - 1 =? 0); exact E.
Qed.

(** * The other steps *)

Definition child_of (m : option nat) : mtask := mkMt m m Alive false 2 false None.

(** A new task that runs nowhere yet. *)
Lemma child_keeps s t m (ms : gmap nat M) : Inv s -> tasks s !! t = None -> (forall m', mm_ok (mkAs (<[t := child_of m]> (tasks s)) (cpus s) ms (others s)) m') ->
  Inv (mkAs (<[t := child_of m]> (tasks s)) (cpus s) ms (others s)).
Proof.
  intros I Ht Hmm. split; try exact Hmm; try apply I; cbn.
  - intros u. rewrite (a_slot _ _ s I u). destruct (decide (t = u)) as [<-|Hn]; [rewrite lookup_insert_eq, Ht | rewrite lookup_insert_ne by exact Hn]; reflexivity.
  - intros u y. rewrite lookup_insert_Some. intros [[<- <-]|[_ Hy]]; [|exact (a_task _ _ s I u y Hy)]. split; cbn; auto; discriminate.
  - intros u y. rewrite lookup_insert_Some. intros [[<- <-]|[_ Hy]]; [|exact (a_refs _ _ s I u y Hy)]. cbn. rewrite decide_False by discriminate. lia.
  - discriminate.
  - intros c q Hq. destruct (a_curr _ _ s I c q Hq) as (y & Hy & Hok). exists y. rewrite lookup_insert_ne; [auto | congruence].
  - intros c q p m' Hq Hp. destruct (a_dead _ _ s I c q p m' Hq Hp) as (y & Hy & Hd). exists y. rewrite lookup_insert_ne; [auto | congruence].
  - intros u y. rewrite lookup_insert_Some. intros [[<- <-]|[_ Hy]]; [cbn; congruence | exact (a_lazy _ _ s I u y Hy)].
Qed.

Lemma child_counts (s : asys M) t m (ms : gmap nat M) m' : tasks s !! t = None ->
  U (mkAs (<[t := child_of m]> (tasks s)) (cpus s) ms (others s)) m' = U s m' + b2 (m = Some m') /\
  R (mkAs (<[t := child_of m]> (tasks s)) (cpus s) ms (others s)) m' = R s m'.
Proof.
  intros Ht. unfold U, R. cbn. rewrite !msum_new by exact Ht. unfold user_of, lazy_of, child_of. cbn.
  rewrite (b2_false (Alive = Cleared m')) by discriminate. rewrite (b2_false (Alive = Grabbed /\ _)) by (intros [? _]; discriminate).
  rewrite (b2_false (m = None /\ m = Some m')) by (intros [-> ?]; discriminate). lia.
Qed.

Lemma fork_keeps s t c q x how : Inv s -> cpus s !! c = Some q -> tasks s !! curr q = Some x -> tasks s !! t = None -> fresh_mm how s = true ->
  exists s', fork t (curr q) how s = Ok s' /\ Inv s'.
Proof.
  intros I Hq Hx Ht Hf. unfold fork, task_at. rewrite Hx. cbn [mbind res_bind]. destruct (mm x) as [m|] eqn:Hm.
  - destruct (user_exists _ _ s (curr q) x m I Hx) as (v & Hv & Hu & Hc & Hle).
    { unfold user_of. rewrite b2_true by exact Hm. pose proof (b2_nonneg (t_stage x = Cleared m)). lia. }
    destruct how as [|n].
    + unfold mm_at. rewrite Hv. cbn [mbind res_bind mret res_ret]. eexists. split; [reflexivity|]. apply (child_keeps s t (Some m) (<[m := mmget v]> (mms s))); [exact I | exact Ht|].
      intros m'. destruct (child_counts s t (Some m) (<[m := mmget v]> (mms s)) m' Ht) as [EU ER]. unfold mm_ok. rewrite EU, ER. cbn.
      pose proof (a_mm _ _ s I m') as Hm'. unfold mm_ok in Hm'. destruct (decide (m = m')) as [<-|Hn].
      * rewrite lookup_insert_eq. rewrite (b2_true (Some m = Some m)) by reflexivity. rewrite Hv in Hm'. destruct (get_counts v) as [-> ->].
        rewrite b2_true in * by lia. lia.
      * rewrite lookup_insert_ne by exact Hn. rewrite (b2_false (Some m = Some m')) by congruence. rewrite Z.add_0_r. exact Hm'.
    + cbn in Hf. apply bool_decide_eq_true in Hf. eexists. split; [reflexivity|]. apply (child_keeps s t (Some n) (<[n := mm_init]> (mms s))); [exact I | exact Ht|].
      intros m'. destruct (child_counts s t (Some n) (<[n := mm_init]> (mms s)) m' Ht) as [EU ER]. unfold mm_ok. rewrite EU, ER. cbn.
      pose proof (a_mm _ _ s I m') as Hm'. unfold mm_ok in Hm'. destruct (decide (n = m')) as [<-|Hn].
      * rewrite lookup_insert_eq. rewrite (b2_true (Some n = Some n)) by reflexivity. rewrite Hf in Hm'. destruct (init_counts) as [-> ->].
        destruct Hm' as [-> ->]. rewrite b2_true by lia. lia.
      * rewrite lookup_insert_ne by exact Hn. rewrite (b2_false (Some n = Some m')) by congruence. rewrite Z.add_0_r. exact Hm'.
  - eexists. split; [destruct how; reflexivity|]. apply child_keeps; [exact I | exact Ht|].
    intros m'. destruct (child_counts s t None (mms s) m' Ht) as [EU ER]. apply (mm_frame s); [| exact ER | reflexivity | apply I].
    rewrite EU, b2_false by discriminate. lia.
Qed.

(** Others get and put an address space. *)
Lemma others_keep s m d ms : Inv s -> (forall x, 0 <= if decide (x = m) then others s x + d else others s x) -> (m = init_mm -> 0 <= d) ->
  (forall x, mm_ok (mkAs (tasks s) (cpus s) ms (fun x => if decide (x = m) then others s x + d else others s x)) x) ->
  Inv (mkAs (tasks s) (cpus s) ms (fun x => if decide (x = m) then others s x + d else others s x)).
Proof.
  intros I Ho Hi Hmm. pose proof (a_init _ _ s I). split; try exact Hmm; try exact Ho; try apply I; cbn.
  destruct (decide (init_mm = m)); [|assumption]. specialize (Hi ltac:(congruence)). lia.
Qed.

Lemma get_keeps s m v : Inv s -> mms s !! m = Some v -> 1 <= mm_users v -> Inv (add_others (put_mm s m (Some (mmget v))) m 1).
Proof.
  intros I Hv Hu. apply (others_keep s m 1 (<[m := mmget v]> (mms s))); [exact I | | lia |].
  - intros x. pose proof (a_others _ _ s I x). destruct (decide _); lia.
  - intros x. pose proof (a_mm _ _ s I x) as Hx. unfold mm_ok, U, R in *. cbn. destruct (decide (x = m)) as [->|Hn].
    + rewrite lookup_insert_eq. rewrite Hv in Hx. destruct (get_counts v) as [-> ->]. rewrite b2_true in * by lia. lia.
    + rewrite lookup_insert_ne by congruence. exact Hx.
Qed.

Lemma put_user_keeps s m : Inv s -> 1 <= others s m -> m <> init_mm -> exists s', put_user m s = Ok s' /\ Inv (add_others s' m (-1)).
Proof.
  intros I Ho Hi. pose proof (msum_nonneg (user_of m) (tasks s) (user_nonneg m)). pose proof (R_nonneg s m).
  assert (0 < U s m) as HU by (unfold U; lia). destruct (held_exists _ _ s m I) as (v & Hv & _); [lia|].
  unfold put_user, mm_at. rewrite Hv. cbn [mbind res_bind mret res_ret]. eexists. split; [reflexivity|]. apply (others_keep s m (-1)); [exact I | | congruence |].
  - intros x. pose proof (a_others _ _ s I x). destruct (decide (x = m)) as [->|]; lia.
  - intros x. destruct (decide (m = x)) as [<-|Hn].
    + apply (mm_after_put s _ m v); [apply I | exact HU | exact Hv | assumption | | | reflexivity].
      * cbn. destruct (mmput v); [apply lookup_insert_eq | apply lookup_delete_eq].
      * unfold U. cbn. rewrite decide_True by reflexivity. lia.
    + apply (mm_frame s); [| reflexivity | | apply I].
      * unfold U. cbn. rewrite decide_False by congruence. reflexivity.
      * cbn. destruct (mmput v); [rewrite lookup_insert_ne by exact Hn | rewrite lookup_delete_ne by exact Hn]; reflexivity.
Qed.

(** The idle task leaves. *)
Lemma off_keeps s c q x : Inv s -> cpus s !! c = Some q -> ph q = Runs -> tasks s !! curr q = Some x -> idle_of x = Some c ->
  exists s', idle_task_exit init_mm c s = Ok s' /\ Inv s'.
Proof.
  intros I Hq Hr Hx Hi. destruct (a_curr _ _ s I c q Hq) as (y & Hy & Hok). assert (y = x) as -> by congruence.
  pose proof (ok_loaded _ _ _ _ Hok ltac:(congruence)) as Ha.
  unfold idle_task_exit, task_at. rewrite Hq. cbn [the mbind res_bind]. rewrite Hx. cbn [mbind res_bind]. rewrite decide_True by exact Hi.
  rewrite Ha. cbn [the mbind res_bind]. set (q' := mkMc (curr q) (prev_mm q) Off init_mm).
  assert (Inv (put_cpu s c q')) as I'.
  { apply (cpu_changes None s c q q' x); auto; unfold q'; try discriminate.
    - destruct Hok as [C1 C2 C3 C4 C5 C6]. split; cbn; auto; try congruence; [intros _; split_and!; congruence | |].
      + intros E. destruct (C5 E) as (? & ?). congruence.
      + intros m Hm. apply (C6 m). unfold to_drop in *. rewrite Hr. exact Hm.
    - intros t. unfold on_slot. cbn. rewrite Hr. rewrite (b2_false (Off = _)), (b2_false (Runs = _)) by discriminate. reflexivity.
    - intros t. unfold to_put. cbn. rewrite Hr. reflexivity.
    - intros m. apply (mm_frame s); [reflexivity | | reflexivity | apply I]. unfold R. cbn. rewrite (msum_update _ _ _ q) by exact Hq.
      unfold to_drop at 2 3. cbn. rewrite Hr. lia. }
  destruct (decide (loaded q = init_mm)) as [E|E].
  - eexists. split; [reflexivity|]. unfold q' in I'. rewrite <- E in I' at 2. exact I'.
  - pose proof (R_nonneg s init_mm). pose proof (a_init _ _ s I). pose proof (msum_nonneg (user_of init_mm) (tasks s) (user_nonneg _)).
    destruct (held_exists _ _ s init_mm I) as (v & Hv & _); [unfold U; lia|]. unfold mm_at. rewrite Hv. cbn [mbind res_bind]. eexists. split; [reflexivity | exact I'].
Qed.

(** What the new program's task holds. *)
Lemma exec_counts (s : asys M) c q x m old v : Inv s -> cpus s !! c = Some q -> ph q = Runs -> tasks s !! curr q = Some x -> t_stage x = Alive -> mms s !! m = None ->
  active_mm x = Some (loaded q) -> old = match mm x with Some o => o | None => loaded q end -> mms s !! old = Some v ->
  (mm x <> None -> 0 < U s old) -> (mm x = None -> 0 < R s old) ->
  forall m', mm_ok (mkAs (<[curr q := set_mm x (Some m) (Some m)]> (tasks s)) (<[c := mkMc (curr q) (prev_mm q) (ph q) m]> (cpus s))
    (<[m := mm_init]> (match (match mm x with Some _ => mmput v | None => mmdrop v end) with Some y => <[old := y]> (mms s) | None => delete old (mms s) end))
    (others s)) m'.
Proof.
  intros I Hq Hr Hx Hst Hm Ha Hold Hv HU HR m'. set (ms := <[m := _]> _).
  set (s' := mkAs _ _ ms _). assert (old <> m) as Hom by congruence.
  assert (U s' m' = U s m' + b2 (m = m') - (if mm x then b2 (old = m') else 0)) as EU.
  { unfold U, s'. cbn. rewrite (msum_update _ _ _ x) by exact Hx. unfold user_of. cbn. rewrite (b2_iff (Some m = Some m') (m = m')) by (split; congruence).
    rewrite Hold. destruct (mm x) as [o|]; [rewrite (b2_iff (Some o = Some m') (o = m')) by (split; congruence)|rewrite (b2_false (None = Some m')) by discriminate]; lia. }
  assert (R s' m' = R s m' - (if mm x then 0 else b2 (old = m'))) as ER.
  { unfold R, s'. cbn. rewrite (msum_update _ _ _ x) by exact Hx. rewrite (msum_update _ _ _ q) by exact Hq.
    change (to_drop m' (mkMc (curr q) (prev_mm q) (ph q) m)) with (to_drop m' q). unfold lazy_of. cbn. rewrite Hst, Ha.
    rewrite !(b2_false (Alive = Grabbed /\ _)) by (intros [? _]; discriminate). rewrite (b2_false (Some m = None /\ _)) by (intros [? _]; discriminate).
    rewrite Hold. destruct (mm x) as [o|]; [rewrite (b2_false (Some o = None /\ _)) by (intros [? _]; discriminate) |
      rewrite (b2_iff (None = None /\ Some (loaded q) = Some m') (loaded q = m')) by (split; [intros [_ ?]; congruence | intros ->; auto])]; lia. }
  pose proof (a_mm _ _ s I m') as Hm'. destruct (decide (m = m')) as [<-|Hn].
  - unfold mm_ok in *. rewrite EU, ER. cbn [s' mms]. unfold ms. rewrite lookup_insert_eq. rewrite Hm in Hm'. rewrite (b2_true (m = m)) by reflexivity.
    rewrite (b2_false (old = m)) by exact Hom. destruct Hm' as [-> ->]. destruct (init_counts) as [-> ->]. destruct (mm x); rewrite b2_true by lia; lia.
  - rewrite (b2_false (m = m')) in EU by exact Hn.
    assert (ms !! m' = match (match mm x with Some _ => mmput v | None => mmdrop v end) with Some y => <[old := y]> (mms s) | None => delete old (mms s) end !! m') as Ems
      by (unfold ms; rewrite lookup_insert_ne by exact Hn; reflexivity).
    destruct (decide (old = m')) as [<-|Hno].
    + rewrite b2_true in EU, ER by reflexivity. destruct (mm x) as [o|].
      * apply (mm_after_put s _ old v); [exact Hm' | apply HU; discriminate | exact Hv | apply R_nonneg | | lia | lia].
        cbn [s' mms]. rewrite Ems. destruct (mmput v); [apply lookup_insert_eq | apply lookup_delete_eq].
      * apply (mm_after_drop s _ old v); [exact Hm' | apply HR; reflexivity | exact Hv | exact (U_nonneg _ _ s old I) | | lia | lia].
        cbn [s' mms]. rewrite Ems. destruct (mmdrop v); [apply lookup_insert_eq | apply lookup_delete_eq].
    + rewrite b2_false in EU, ER by exact Hno. apply (mm_frame s); [destruct (mm x); lia | destruct (mm x); lia | | exact Hm'].
      cbn [s' mms]. rewrite Ems. destruct (match mm x with Some _ => mmput v | None => mmdrop v end); [rewrite lookup_insert_ne by exact Hno | rewrite lookup_delete_ne by exact Hno]; reflexivity.
Qed.

(** A new program. *)
Lemma exec_keeps s c q x m : Inv s -> cpus s !! c = Some q -> ph q = Runs -> tasks s !! curr q = Some x -> t_stage x = Alive -> mms s !! m = None ->
  idle_of x = None -> exists s', exec c m s = Ok s' /\ Inv s'.
Proof.
  intros I Hq Hr Hx Hst Hm Hi. destruct (active_exists _ _ s c q x I Hq ltac:(congruence) Hx) as (Ha & w & Hw & _).
  set (x' := set_mm x (Some m) (Some m)). set (q' := mkMc (curr q) (prev_mm q) (ph q) m).
  set (old := match mm x with Some o => o | None => loaded q end).
  assert (exists v, mms s !! old = Some v /\ 0 < U s old + R s old /\ (mm x <> None -> 0 < U s old) /\ (mm x = None -> 0 < R s old)) as (v & Hv & _ & HU & HR).
  { unfold old. destruct (mm x) as [o|] eqn:Ho.
    - destruct (user_exists _ _ s (curr q) x o I Hx) as (v & Hv & Hu & Hc & Hle); [unfold user_of; rewrite b2_true by exact Ho; pose proof (b2_nonneg (t_stage x = Cleared o)); lia|].
      exists v. pose proof (R_nonneg s o). split_and!; [exact Hv | lia | lia | discriminate].
    - exists w. pose proof (msum_ge (lazy_of (loaded q)) (tasks s) _ x (lazy_nonneg _) Hx) as Hge. unfold lazy_of at 1 in Hge.
      rewrite (b2_true (mm x = None /\ _)) in Hge by auto. pose proof (b2_nonneg (t_stage x = Grabbed /\ mm x = Some (loaded q))).
      pose proof (msum_nonneg (to_drop (loaded q)) (cpus s) (drop_nonneg _)). pose proof (U_nonneg _ _ s (loaded q) I).
      assert (0 < R s (loaded q)) by (unfold R; lia). split_and!; [exact Hw | lia | congruence | lia]. }
  assert (old <> m) as Hom by congruence.
  set (ms := <[m := mm_init]> (match (match mm x with Some _ => mmput v | None => mmdrop v end) with Some y => <[old := y]> (mms s) | None => delete old (mms s) end)).
  assert (exec c m s = Ok (mkAs (<[curr q := x']> (tasks s)) (<[c := q']> (cpus s)) ms (others s))) as E.
  { unfold exec, task_at. rewrite Hq. cbn [the mbind res_bind]. rewrite Hx. cbn [mbind res_bind]. unfold old, ms in *. rewrite Ha.
    destruct (mm x) as [o|]; [unfold put_user | unfold drop_mm]; unfold mm_at; rewrite Hv; reflexivity. }
  eexists. split; [exact E|]. apply (current_changes init_mm s c q x x' m); auto; [split; cbn; rewrite ?Hst; auto; try congruence | cbn; congruence |].
  - intros Hrel. destruct (ok_released _ (a_task _ _ s I _ x Hx) Hrel); congruence.
  - exact (exec_counts s c q x m old v I Hq Hr Hx Hst Hm Ha eq_refl Hv HU HR).
Qed.

(** A CPU comes up. *)
Lemma up_keeps_spaces s c t : Inv s -> cpus s !! c = None -> tasks s !! t = None -> exists s', cpu_up init_mm c t s = Ok s' /\ Inv s'.
Proof.
  intros I Hc Ht. pose proof (R_nonneg s init_mm) as HR. pose proof (a_init _ _ s I) as Hi. pose proof (msum_nonneg (user_of init_mm) (tasks s) (user_nonneg _)) as Hu.
  destruct (held_exists _ _ s init_mm I) as (v & Hv & _); [unfold U; lia|]. unfold cpu_up, grab_mm, mm_at. rewrite Hv. cbn [mbind res_bind mret res_ret].
  eexists. split; [reflexivity|]. set (x := mkMt None _ _ _ _ _ _). set (q := mkMc _ _ _ _).
  assert (forall u y, tasks s !! u = Some y -> t <> u) as Hne by (intros u y Hy <-; congruence).
  assert (forall d r, cpus s !! d = Some r -> c <> d) as Hnc by (intros d r Hr <-; congruence).
  split; try apply I; cbn.
  - intros u. rewrite msum_new by exact Hc. rewrite (a_slot _ _ s I u). unfold on_slot, q. cbn. rewrite (b2_false (Runs = _)) by discriminate.
    destruct (decide (t = u)) as [<-|Hn]; [rewrite lookup_insert_eq, Ht, b2_true by reflexivity; reflexivity|]. rewrite lookup_insert_ne, b2_false by exact Hn. lia.
  - intros u y. rewrite lookup_insert_Some. intros [[<- <-]|[_ Hy]]; [|exact (a_task _ _ s I u y Hy)]. split; cbn; auto; discriminate.
  - intros u y. rewrite lookup_insert_Some, msum_new by exact Hc. change (to_put u q) with 0. intros [[<- <-]|[_ Hy]]; [cbn; rewrite decide_False by discriminate; lia | exact (a_refs _ _ s I u y Hy)].
  - discriminate.
  - intros d r. rewrite lookup_insert_Some. intros [[<- <-]|[_ Hr]].
    + exists x. cbn. rewrite lookup_insert_eq. split; [reflexivity|]. split; cbn; auto; try discriminate; try congruence.
    + destruct (a_curr _ _ s I d r Hr) as (y & Hy & Hok). exists y. rewrite lookup_insert_ne by exact (Hne _ _ Hy). auto.
  - intros d r p m. rewrite lookup_insert_Some. intros [[<- <-]|[_ Hr]] E; [discriminate|].
    destruct (a_dead _ _ s I d r p m Hr E) as (y & Hy & Hd). exists y. rewrite lookup_insert_ne by exact (Hne _ _ Hy). auto.
  - intros u y. rewrite lookup_insert_Some. intros [[<- <-]|[_ Hy]] Hm Ha; [exists c, q; rewrite lookup_insert_eq; auto|].
    destruct (a_lazy _ _ s I u y Hy Hm Ha) as (d & r & Hr & E). exists d, r. rewrite lookup_insert_ne by exact (Hnc _ _ Hr). auto.
  - intros m. pose proof (a_mm _ _ s I m) as Hm. unfold mm_ok, U, R in *. cbn. rewrite !msum_new by assumption.
    assert (user_of m x = 0) as -> by (unfold user_of; cbn; rewrite !b2_false by discriminate; reflexivity).
    assert (to_drop m q = 0) as -> by (unfold to_drop; cbn; rewrite b2_false by discriminate; reflexivity).
    assert (lazy_of m x = b2 (init_mm = m)) as ->.
    { unfold lazy_of. cbn. rewrite (b2_false (Alive = Grabbed /\ _)) by (intros [? _]; discriminate).
      rewrite (b2_iff (None = None /\ Some init_mm = Some m) (init_mm = m)) by (split; [intros [_ ?]; congruence | intros ->; auto]). lia. }
    destruct (decide (init_mm = m)) as [<-|Hn].
    + rewrite lookup_insert_eq. rewrite Hv in Hm. rewrite (b2_true (init_mm = init_mm)) by reflexivity. destruct (grab_counts v) as [-> ->].
      change (0 + msum (user_of init_mm) (tasks s)) with (msum (user_of init_mm) (tasks s)). lia.
    + rewrite lookup_insert_ne by exact Hn. rewrite (b2_false (init_mm = m)) by exact Hn.
      change (0 + msum (user_of m) (tasks s)) with (msum (user_of m) (tasks s)). exact Hm.
Qed.

Lemma pickable_inv c (s : asys M) next : pickable c s next = true -> exists n, tasks s !! next = Some n /\ on_cpu n = false /\ t_stage n <> Dead /\
  (idle_of n = None \/ idle_of n = Some c).
Proof.
  unfold pickable. destruct (tasks s !! next) as [n|]; [|discriminate]. intros [[H1 H2]%andb_prop H3]%andb_prop. exists n.
  split_and!; [reflexivity | apply negb_true_iff, H1 | exact (bool_decide_eq_true_1 _ H2) | exact (bool_decide_eq_true_1 _ H3)].
Qed.

Lemma when_inv (b : bool) (r r' : res (asys M)) : when b r = Some r' -> b = true /\ r = r'.
Proof. unfold when. destruct b; [|discriminate]. intros [= <-]. auto. Qed.

(** Every step that is possible is defined and keeps the invariant. *)
Lemma astep_keeps s l r : Inv s -> astep init_mm l s = Some r -> exists s', r = Ok s' /\ Inv s'.
Proof.
  intros I E. destruct l as [c t|c next|c|c t how|c m|c|c next|t|m|m|c]; cbn [astep] in E.
  - apply when_inv in E as [[Hc Ht]%bool_decide_eq_true_1 <-]. exact (up_keeps_spaces s c t I Hc Ht).
  - apply when_inv in E as [[[p Hp]%bool_decide_eq_true_1 Hn]%andb_prop <-]. apply runs_inv in Hp as (q & Hq & Hr & Hp).
    apply pickable_inv in Hn as (n & Hn & Ho & Hl & Hh). destruct (switch_keeps init_mm s c next q p n (t_stage p) I Hq Hr Hp Hn Ho Hl Hh (or_introl eq_refl)) as (s' & E & I').
    exists s'. split; [|exact I']. rewrite <- E. f_equal. unfold put_task. destruct s as [ts cs ms os]. cbn in *. f_equal. symmetry. apply insert_id. rewrite Hp. destruct p; reflexivity.
  - destruct (cpus s !! c) as [q|] eqn:Hq; [|discriminate]. apply when_inv in E as [Hp <-].
    destruct (ph q) as [|prev|prev [m|] dead|] eqn:Hph; try discriminate;
      [exact (finish_lets_go s c q prev I Hq Hph) | exact (finish_drops s c q prev m dead I Hq Hph) | exact (finish_puts s c q prev dead I Hq Hph)].
  - destruct (cpus s !! c) as [q|] eqn:Hq; [|discriminate]. destruct (runs c s) as [x|] eqn:Hx; [|discriminate].
    apply runs_inv in Hx as (q' & Hq' & Hr & Hx). assert (q' = q) as -> by congruence.
    apply when_inv in E as [[[Hs Ht]%bool_decide_eq_true_1 Hf]%andb_prop <-]. exact (fork_keeps s t c q x how I Hq Hx Ht Hf).
  - destruct (runs c s) as [x|] eqn:Hx; [|discriminate]. apply runs_inv in Hx as (q & Hq & Hr & Hx).
    apply when_inv in E as [(Hi & Hs & Hm)%bool_decide_eq_true_1 <-]. exact (exec_keeps s c q x m I Hq Hr Hx Hs Hm Hi).
  - destruct (cpus s !! c) as [q|] eqn:Hq; [|discriminate]. destruct (runs c s) as [x|] eqn:Hx; [|discriminate].
    apply runs_inv in Hx as (q' & Hq' & Hr & Hx). assert (q' = q) as -> by congruence.
    apply when_inv in E as [(Hi & Hg)%bool_decide_eq_true_1 <-].
    destruct (released x) eqn:Hre; [|exact (exit_keeps init_mm s c q x I Hq Hr Hx Hre Hi Hg)]. exfalso.
    destruct (ok_released _ (a_task _ _ s I _ x Hx) Hre) as [Hd|Hd]; [exact (Hg Hd)|].
    destruct (runs_idle_cpu init_mm s c q x 0 I Hq Hr Hx) as (_ & _ & Hok). exact (ok_alive _ _ _ _ Hok Hd).
  - destruct (runs c s) as [p|] eqn:Hp; [|discriminate]. apply runs_inv in Hp as (q & Hq & Hr & Hp).
    apply when_inv in E as [[Hs%bool_decide_eq_true_1 Hn]%andb_prop <-]. apply pickable_inv in Hn as (n & Hn & Ho & Hl & Hh).
    unfold do_task_dead, task_at. rewrite Hq. cbn [the mbind res_bind]. rewrite Hp. cbn [mbind res_bind].
    exact (switch_keeps init_mm s c next q p n Dead I Hq Hr Hp Hn Ho Hl Hh (or_intror (conj Hs eq_refl))).
  - destruct (tasks s !! t) as [x|] eqn:Hx; [|discriminate]. apply when_inv in E as [(Hs & Hr)%bool_decide_eq_true_1 <-].
    exact (release_keeps init_mm s t x I Hx Hs Hr).
  - destruct (mms s !! m) as [v|] eqn:Hv; [|discriminate]. apply when_inv in E as [Hu%Z.leb_le <-]. eexists. split; [reflexivity|]. exact (get_keeps s m v I Hv Hu).
  - apply when_inv in E as [[Ho%Z.leb_le Hm%bool_decide_eq_true_1]%andb_prop <-]. destruct (put_user_keeps s m I Ho Hm) as (s' & -> & I'). eexists. split; [reflexivity | exact I'].
  - destruct (runs c s) as [x|] eqn:Hx; [|discriminate]. apply runs_inv in Hx as (q & Hq & Hr & Hx). apply when_inv in E as [Hi%bool_decide_eq_true_1 <-].
    exact (off_keeps s c q x I Hq Hr Hx Hi).
Qed.

Lemma boot_inv : Inv (before_boot init_mm).
Proof.
  split; cbn.
  - intros t. rewrite msum_empty, lookup_empty. reflexivity.
  - intros t x. rewrite lookup_empty. discriminate.
  - intros t x. rewrite lookup_empty. discriminate.
  - discriminate.
  - intros c q. rewrite lookup_empty. discriminate.
  - intros c q p m. rewrite lookup_empty. discriminate.
  - intros t x. rewrite lookup_empty. discriminate.
  - intros m. unfold mm_ok, U, R. cbn. rewrite !msum_empty. destruct (decide (m = init_mm)) as [->|Hn].
    + rewrite lookup_singleton_eq. destruct init_counts as [-> ->]. rewrite b2_true by lia. lia.
    + rewrite lookup_singleton_ne by congruence. lia.
  - intros m. destruct (decide _); lia.
  - rewrite decide_True by reflexivity. lia.
Qed.

Lemma arun_keeps s s' : arun init_mm s s' -> Inv s -> Inv s'.
Proof.
  induction 1 as [s|s l s1 s2 E _ IH]; [auto|]. intros I. apply IH. destruct (astep_keeps s l _ I E) as (s' & [= <-] & I'). exact I'.
Qed.

(** * What the invariant gives *)

(** An address space without users is kept by CPUs only, each once. *)
Lemma lazy_bound s m : Inv s -> U s m = 0 -> R s m <= Z.of_nat (size (cpus s)).
Proof.
  intros I HU. unfold R. apply (msum_through (lazy_of m) (to_drop m) curr); [apply drop_nonneg | |].
  - intros c q Hq. destruct (a_curr _ _ s I c q Hq) as (x & Hx & Hok). unfold to_drop. destruct (prev_mm q) as [m'|] eqn:E.
    + destruct (ok_prev _ _ _ _ Hok) as (p & ->); [congruence|]. unfold b2. destruct (decide _); lia.
    + rewrite b2_false by discriminate. destruct (ph q) as [| |p [m'|] d|]; try lia. unfold b2. destruct (decide _); lia.
  - intros t x Hx. pose proof (msum_ge (user_of m) (tasks s) t x (user_nonneg m) Hx) as Hge. pose proof (a_others _ _ s I m).
    assert (user_of m x = 0) as Hu by (pose proof (user_nonneg m x); unfold U in HU; lia).
    assert (mm x <> Some m) as Hm by (intros E; unfold user_of in Hu; rewrite b2_true in Hu by exact E; pose proof (b2_nonneg (t_stage x = Cleared m)); lia).
    unfold lazy_of. rewrite (b2_false (t_stage x = Grabbed /\ _)) by tauto. split; [unfold b2; destruct (decide _); lia|].
    unfold b2. destruct (decide (mm x = None /\ active_mm x = Some m)) as [[Hn Ha]|]; [|lia]. intros _.
    destruct (a_lazy _ _ s I t x Hx Hn) as (c & q & Hq & E); [congruence|]. exists c, q. split_and!; [exact Hq | exact E |].
    destruct (a_curr _ _ s I c q Hq) as (y & Hy & Hok). assert (y = x) as -> by congruence.
    pose proof (drop_nonneg m q). destruct (decide (0 < to_drop m q)) as [Hp|]; [|lia]. destruct (ok_user _ _ _ _ Hok m Hp Hn).
Qed.

(** One that nobody needs is freed. *)
Lemma unused_freed s m : Inv s -> U s m = 0 -> (forall c q x, cpus s !! c = Some q -> tasks s !! curr q = Some x -> active_mm x <> Some m /\ to_drop m q = 0) ->
  mms s !! m = None.
Proof.
  intros I HU Hc. assert (R s m = 0) as HR.
  { unfold R. rewrite (msum_zero (to_drop m)), (msum_zero (lazy_of m)); [reflexivity | |].
    - intros t x Hx. pose proof (msum_ge (user_of m) (tasks s) t x (user_nonneg m) Hx) as Hge. pose proof (a_others _ _ s I m).
      assert (user_of m x = 0) as Hu by (pose proof (user_nonneg m x); unfold U in HU; lia).
      assert (mm x <> Some m) as Hm by (intros E; unfold user_of in Hu; rewrite b2_true in Hu by exact E; pose proof (b2_nonneg (t_stage x = Cleared m)); lia).
      unfold lazy_of. rewrite !b2_false; [reflexivity | | tauto]. intros [Hn Ha]. destruct (a_lazy _ _ s I t x Hx Hn) as (c & q & Hq & E); [congruence|].
      destruct (Hc c q x Hq) as [Hna _]; [congruence | exact (Hna Ha)].
    - intros c q Hq. destruct (a_curr _ _ s I c q Hq) as (x & Hx & _). apply (Hc c q x Hq Hx). }
  pose proof (a_mm _ _ s I m) as Hm. unfold mm_ok in Hm. destruct (mms s !! m); [|reflexivity]. rewrite b2_false in Hm by lia. lia.
Qed.

(** A dead task stays only until its last switch is over and it is reaped. *)
Lemma dead_kept s t x : Inv s -> tasks s !! t = Some x -> t_stage x = Dead -> released x = true -> exists c q, cpus s !! c = Some q /\ 0 < to_put t q.
Proof.
  intros I Hx Hd Hr. pose proof (a_refs _ _ s I t x Hx) as [Hrc Hle]. cbn in Hrc. rewrite Hr, decide_True in Hrc by exact Hd.
  apply (msum_pos (to_put t) (cpus s) (put_nonneg t)). lia.
Qed.

(** What a CPU has loaded exists. *)
Lemma loaded_exists s c q x : Inv s -> cpus s !! c = Some q -> tasks s !! curr q = Some x -> cpu_ok init_mm c q x ->
  exists v, mms s !! loaded q = Some v /\ 1 <= mm_count v.
Proof.
  intros I Hq Hx Hok. destruct (decide (ph q = Off)) as [Hoff|Hoff].
  - destruct (ok_off _ _ _ _ Hok Hoff) as (_ & _ & ->). pose proof (R_nonneg s init_mm). pose proof (a_init _ _ s I).
    pose proof (msum_nonneg (user_of init_mm) (tasks s) (user_nonneg _)).
    destruct (held_exists _ _ s init_mm I) as (v & Hv & _ & _ & Hle); [unfold U; lia|]. eauto.
  - destruct (active_exists _ _ s c q x I Hq Hoff Hx) as (_ & v & Hv & Hle & _). eauto.
Qed.

(** C38: however CPUs come up, switch, fork, execute programs, end and reap tasks and go off, and whoever else
    gets and puts address spaces in between: no freed task or address space is used, no null pointer followed and
    no [BUG] reached. The address space that a CPU has loaded exists and is that of its current task, which
    is not dead and runs nowhere else. One without users is held by
    at most as many references as there are CPUs, and is gone when no CPU runs on it or is about
    to drop it. A dead task that was reaped is gone unless the switch away from it is not over. *)
Theorem spaces_safe s : arun init_mm (before_boot init_mm) s ->
  (forall l r, astep init_mm l s = Some r -> exists s', r = Ok s') /\
  (forall c q, cpus s !! c = Some q ->
     (exists x, tasks s !! curr q = Some x /\ on_cpu x = true /\ t_stage x <> Dead /\ (ph q <> Off -> active_mm x = Some (loaded q))) /\
     (exists v, mms s !! loaded q = Some v /\ 1 <= mm_count v) /\
     forall c' q', cpus s !! c' = Some q' -> curr q' = curr q \/ ph q' = Switched (curr q) -> c' = c) /\
  (forall m v, mms s !! m = Some v -> mm_users v = U s m /\ (mm_users v = 0 -> 1 <= mm_count v <= Z.of_nat (size (cpus s)))) /\
  (forall m, U s m = 0 -> (forall c q x, cpus s !! c = Some q -> tasks s !! curr q = Some x -> active_mm x <> Some m /\ to_drop m q = 0) -> mms s !! m = None) /\
  (forall t x, tasks s !! t = Some x -> t_stage x = Dead -> released x = true -> exists c q, cpus s !! c = Some q /\ 0 < to_put t q).
Proof.
  intros Hr. pose proof (arun_keeps _ _ Hr boot_inv) as I. split_and!.
  - intros l r E. destruct (astep_keeps s l r I E) as (s' & -> & _). eauto.
  - intros c q Hq. destruct (a_curr _ _ s I c q Hq) as (x & Hx & Hok). destruct (slot_on _ _ s c q _ I Hq (slot_curr _ _ eq_refl)) as (_ & y & Hy & Ho).
    assert (y = x) as -> by congruence. split_and!.
    + exists x. split_and!; [exact Hx | exact Ho | apply Hok | apply Hok].
    + exact (loaded_exists s c q x I Hq Hx Hok).
    + intros c' q' Hq' Hs. eapply slot_once; [exact I | exact Hq' | exact Hq | destruct Hs; [apply slot_curr | apply slot_switched]; eassumption | apply slot_curr; reflexivity].
  - intros m v Hv. pose proof (a_mm _ _ s I m) as Hm. unfold mm_ok in Hm. rewrite Hv in Hm. destruct Hm as (-> & Hc & Hle). split; [reflexivity|]. intros HU.
    pose proof (lazy_bound s m I HU). rewrite b2_false in Hc by lia. lia.
  - intros m. exact (unused_freed s m I).
  - intros t x. exact (dead_kept s t x I).
Qed.
End Theorems.

(** * An example *)

(** A task executes a program, ends and is reaped; the idle task keeps its address space loaded. *)
Definition lingering : list alabel :=
  [LUp 0 100; LFork 0 1 Shares; LSwitch 0 1; LFinish 0; LFinish 0; LExec 0 7; LExit 0; LExit 0; LExit 0; LDie 0 100; LFinish 0; LReap 1; LFinish 0]%nat.

Lemma spaces_safe_witness : exists s q v, asteps (M := Z * Z) 5 lingering (before_boot 5) = Some s /\ cpus s !! 0%nat = Some q /\
  loaded q = 7%nat /\ mms s !! 7%nat = Some v /\ mm_users v = 0 /\ 1 <= mm_count v <= 1 /\ tasks s !! 1%nat = None /\
  exists w, mms s !! loaded q = Some w.
Proof.
  destruct (asteps (M := Z * Z) 5 lingering (before_boot 5)) as [s|] eqn:E; [|vm_compute in E; discriminate].
  pose proof (spaces_safe 5 s (asteps_run 5 _ _ _ E)) as (_ & Hc & Hm & _ & _).
  destruct (cpus s !! 0%nat) as [q|] eqn:Hq; [|vm_compute in E; injection E as <-; discriminate].
  destruct (mms s !! 7%nat) as [v|] eqn:Hv; [|vm_compute in E; injection E as <-; discriminate].
  exists s, q, v. destruct (Hc 0%nat q Hq) as (_ & (w & Hw & _) & _). destruct (Hm 7%nat v Hv) as [_ Hb].
  assert (size (cpus s) = 1%nat) as Hsz by (clear - E; vm_compute in E; injection E as <-; reflexivity). rewrite Hsz in Hb.
  assert (loaded q = 7%nat) as Hl by (clear - E Hq; vm_compute in E; injection E as <-; vm_compute in Hq; injection Hq as <-; reflexivity).
  assert (mm_users v = 0) as Hu by (clear - E Hv; vm_compute in E; injection E as <-; vm_compute in Hv; injection Hv as <-; reflexivity).
  split_and!; [reflexivity | exact Hq | exact Hl | exact Hv | exact Hu | apply Hb, Hu | apply Hb, Hu | | exists w; exact Hw].
  clear - E. vm_compute in E. injection E as <-. reflexivity.
Defined.
