(* ===== verification/MmOwner.v ===== *)
(** [mm_update_next_owner] of src/3/20193018_PLUS-1/exit.c: who owns an address space after its
    owner has left it. *)

From S2P Require Import Prelude.
Local Open Scope Z_scope.

(** What is read under [tasklist_lock]: address spaces, flags and the family. *)
Record family := mkFam {
  f_mm : nat -> option nat;
  PF_KTHREAD : nat -> bool;
  children : nat -> list nat;
  real_parent : nat -> nat;
  processes : list nat;
  threads : nat -> list nat
}.

(** The loop over the threads of a process: found, or left at the first thread with another address space. *)
Fixpoint scan_threads (w : family) (m : nat) (l : list nat) : option nat :=
  match l with
  | [] => None
  | c :: l => if decide (f_mm w c = Some m) then Some c else if decide (f_mm w c = None) then scan_threads w m l else None
  end.

Fixpoint scan_processes (w : family) (m : nat) (l : list nat) : option nat :=
  match l with
  | [] => None
  | g :: l =>
      if PF_KTHREAD w g then scan_processes w m l
      else match scan_threads w m (threads w g) with Some c => Some c | None => scan_processes w m l end
  end.

Definition scan (w : family) (m : nat) (l : list nat) : option nat := head (List.filter (fun c => bool_decide (f_mm w c = Some m)) l).

Definition candidate (w : family) (p m : nat) : option nat :=
  match scan w m (children w p) with
  | Some c => Some c
  | None => match scan w m (children w (real_parent w p)) with Some c => Some c | None => scan_processes w m (processes w) end
  end.

(** A round: the owner and [mm_users], the family, and the address spaces when [task_lock] is held. *)
Record round := mkRound { r_owner : option nat; mm_users : Z; r_family : family; r_locked : nat -> option nat }.

Inductive owner_result := Keeps | Owner (o : option nat).

(** One round for each turn of [retry]; it is at an end when it does not go on with the next one. The [BUG] is
    undefined. *)
Fixpoint mm_update_next_owner (p m : nat) (rounds : list round) : res owner_result :=
  match rounds with
  | [] => Diverge
  | r :: rounds =>
      if negb (bool_decide (r_owner r = Some p)) then mret Keeps
      else if mm_users r <=? 1 then mret (Owner None)
      else
        match candidate (r_family r) p m with
        | None => mret (Owner None)
        | Some c =>
            if decide (c = p) then Undef
            else if decide (r_locked r c = Some m) then mret (Owner (Some c))
            else mm_update_next_owner p m rounds
        end
  end.

(** * Searches *)

Lemma scan_some w m l c : scan w m l = Some c -> c ∈ l /\ f_mm w c = Some m.
Proof.
  unfold scan. intros E. apply head_Some_elem_of, list_elem_of_In, filter_In in E as [H1 H2%bool_decide_eq_true_1]. split; [apply list_elem_of_In, H1 | exact H2].
Qed.

Lemma scan_none w m l : scan w m l = None -> forall c, c ∈ l -> f_mm w c <> Some m.
Proof.
  unfold scan. intros E c Hc Hm. apply head_None in E. assert (c ∈ List.filter (fun c => bool_decide (f_mm w c = Some m)) l) as Hin.
  { apply list_elem_of_In, filter_In. split; [apply list_elem_of_In, Hc | apply bool_decide_eq_true_2, Hm]. }
  rewrite E in Hin. destruct (not_elem_of_nil c Hin).
Qed.

Lemma threads_some w m l c : scan_threads w m l = Some c -> c ∈ l /\ f_mm w c = Some m.
Proof.
  induction l as [|x l IH]; cbn [scan_threads]; [discriminate|]. destruct (decide (f_mm w x = Some m)) as [E|E]; [intros [= <-]; split; [left | exact E]|].
  destruct (decide (f_mm w x = None)); [|discriminate]. intros H. destruct (IH H). split; [right; assumption | assumption].
Qed.

(** The threads of a process share an address space, as far as they have one. *)
Definition share (w : family) : Prop := forall g c d m n, c ∈ threads w g -> d ∈ threads w g -> f_mm w c = Some m -> f_mm w d = Some n -> m = n.

Lemma threads_none w m l : (forall c d a b, c ∈ l -> d ∈ l -> f_mm w c = Some a -> f_mm w d = Some b -> a = b) -> scan_threads w m l = None ->
  forall c, c ∈ l -> f_mm w c <> Some m.
Proof.
  induction l as [|x l IH]; intros Hs E c Hc Hm; [destruct (not_elem_of_nil c Hc)|]. cbn [scan_threads] in E.
  destruct (decide (f_mm w x = Some m)) as [Ex|Ex]; [discriminate|]. destruct (f_mm w x) as [n|] eqn:En.
  - apply Ex. f_equal. apply (Hs x c n m); [left | exact Hc | exact En | exact Hm].
  - rewrite decide_True in E by reflexivity. apply elem_of_cons in Hc as [->|Hc]; [congruence|]. refine (IH _ E c Hc Hm).
    intros c' d' a b H1 H2. apply Hs; right; assumption.
Qed.

Lemma processes_some w m l c : scan_processes w m l = Some c -> exists g, g ∈ l /\ PF_KTHREAD w g = false /\ c ∈ threads w g /\ f_mm w c = Some m.
Proof.
  induction l as [|g l IH]; cbn [scan_processes]; [discriminate|]. destruct (PF_KTHREAD w g) eqn:K.
  - intros H. destruct (IH H) as (g' & H1 & H2). exists g'. split; [right; exact H1 | exact H2].
  - destruct (scan_threads w m (threads w g)) as [d|] eqn:E.
    + intros [= <-]. destruct (threads_some w m _ d E). exists g. split_and!; [left | exact K | assumption | assumption].
    + intros H. destruct (IH H) as (g' & H1 & H2). exists g'. split; [right; exact H1 | exact H2].
Qed.

Lemma processes_none w m l : share w -> scan_processes w m l = None -> forall g c, g ∈ l -> PF_KTHREAD w g = false -> c ∈ threads w g -> f_mm w c <> Some m.
Proof.
  intros Hs. induction l as [|x l IH]; intros E g c Hg K Hc; [destruct (not_elem_of_nil g Hg)|]. cbn [scan_processes] in E.
  apply elem_of_cons in Hg as [->|Hg].
  - rewrite K in E. destruct (scan_threads w m (threads w x)) eqn:Ex; [discriminate|].
    apply (threads_none w m _ (fun c d a b H1 H2 => Hs x c d a b H1 H2) Ex c Hc).
  - destruct (PF_KTHREAD w x); [exact (IH E g c Hg K Hc)|]. destruct (scan_threads w m (threads w x)); [discriminate | exact (IH E g c Hg K Hc)].
Qed.

Lemma candidate_some w p m c : candidate w p m = Some c -> f_mm w c = Some m.
Proof.
  unfold candidate. destruct (scan w m (children w p)) as [d|] eqn:E1; [intros [= <-]; exact (proj2 (scan_some _ _ _ _ E1))|].
  destruct (scan w m (children w (real_parent w p))) as [d|] eqn:E2; [intros [= <-]; exact (proj2 (scan_some _ _ _ _ E2))|].
  intros E3. destruct (processes_some w m _ c E3) as (g & _ & _ & _ & H). exact H.
Qed.

(** * The owner *)

(** When the task that leaves no longer has the address space and the threads of each process share theirs: the
    loop never hits its [BUG] and comes to its end in the first round in which the one that was found still has
    the address space under its lock, or there is nothing to do. A new owner had the address space under its lock and is
    another task; none is left only with at most one user, or when no child, sibling or thread of a user process had it. *)
Lemma next_owner p m rounds r : (forall r, r ∈ rounds -> share (r_family r) /\ f_mm (r_family r) p = None) ->
  r ∈ rounds -> (forall c, candidate (r_family r) p m = Some c -> r_locked r c = Some m) ->
  exists o, mm_update_next_owner p m rounds = Ok o /\ exists r', r' ∈ rounds /\
    match o with
    | Keeps => r_owner r' <> Some p
    | Owner (Some c) => r_owner r' = Some p /\ c <> p /\ r_locked r' c = Some m /\ f_mm (r_family r') c = Some m
    | Owner None => r_owner r' = Some p /\ (mm_users r' <= 1 \/
        forall c, c ∈ children (r_family r') p \/ c ∈ children (r_family r') (real_parent (r_family r') p) \/
                  (exists g, g ∈ processes (r_family r') /\ PF_KTHREAD (r_family r') g = false /\ c ∈ threads (r_family r') g) ->
          f_mm (r_family r') c <> Some m)
    end.
Proof.
  intros Hall. induction rounds as [|x rounds IH]; intros Hr Hl; [destruct (not_elem_of_nil r Hr)|]. cbn [mm_update_next_owner].
  destruct (Hall x ltac:(left)) as [Hs Hp].
  destruct (decide (r_owner x = Some p)) as [Eo|Eo]; [rewrite bool_decide_true by exact Eo | rewrite bool_decide_false by exact Eo]; cbn [negb].
  2:{ eexists. split; [reflexivity|]. exists x. split; [left | exact Eo]. }
  destruct (Z.leb_spec (mm_users x) 1) as [Hu|Hu]; [eexists; split; [reflexivity|]; exists x; split; [left | auto]|].
  destruct (candidate (r_family x) p m) as [c|] eqn:Ec.
  - pose proof (candidate_some _ _ _ _ Ec) as Hm. rewrite decide_False by congruence. destruct (decide (r_locked x c = Some m)) as [El|El].
    + eexists. split; [reflexivity|]. exists x. split; [left|]. split_and!; [exact Eo | congruence | exact El | exact Hm].
    + apply elem_of_cons in Hr as [->|Hr]; [destruct (El (Hl c Ec))|].
      destruct IH as (o & E & r' & Hr' & H); [intros y Hy; apply Hall; right; exact Hy | exact Hr | exact Hl |].
      exists o. split; [exact E|]. exists r'. split; [right; exact Hr' | exact H].
  - eexists. split; [reflexivity|]. exists x. split; [left|]. split; [exact Eo|]. right. unfold candidate in Ec.
    destruct (scan (r_family x) m (children (r_family x) p)) eqn:E1; [discriminate|].
    destruct (scan (r_family x) m (children (r_family x) (real_parent (r_family x) p))) eqn:E2; [discriminate|].
    intros c [Hc|[Hc|(g & Hg & K & Hc)]]; [exact (scan_none _ _ _ E1 c Hc) | exact (scan_none _ _ _ E2 c Hc) | exact (processes_none _ _ _ Hs Ec g c Hg K Hc)].
Qed.
