(* ===== verification/WakeQ.v ===== *)
(** Wake queues in src/3/20193018_PLUS-1/core.c: [wake_q_add], [wake_q_add_safe] and [wake_up_q] on
    the linked lists in memory that they build, in any number of contexts whose accesses
    interleave. *)

From S2P Require Import Prelude.
Local Open Scope Z_scope.

(** * State *)

(** The field [wake_q.next] of a task, or the first pointer of a head. *)
Inductive ptr := Nil | Tail | Node (t : nat).

#[export] Instance ptr_eq : EqDecision ptr.
Proof. solve_decision. Defined.

(** Where [lastp] points: to the head's own [first], or to the field of a task. *)
Inductive place := First | NextOf (t : nat).

(** A context: it collects tasks; it has marked a task and will link it, with the
    reference to take afterwards or not ([safe]); it walks and is at a pointer; it has read [next] of a
    task; it has cleared that field; it has woken the task. *)
Inductive wpc :=
  | Collects | Links (t : nat) (safe : bool) | Walks (node : ptr) | Loaded (t : nat) (node : ptr) | Cleared (t : nat) (node : ptr)
  | Woke (t : nat) (node : ptr) | Done.

Record ctx := mkCtx { first : ptr; lastp : place; wq_pc : wpc }.

(** The fields of the tasks, the contexts, references, the wake-ups so far, and for which
    tasks a wake-up was asked for since the last one. *)
Record qsys := mkQs { next : nat -> ptr; ctxs : gmap nat ctx; q_usage : nat -> Z; woken : list (nat * nat); asked : nat -> bool }.

Definition fn_set {A} (f : nat -> A) (k : nat) (v : A) : nat -> A := fun x => if decide (x = k) then v else f x.

Definition set_next (s : qsys) (t : nat) (p : ptr) : qsys := mkQs (fn_set (next s) t p) (ctxs s) (q_usage s) (woken s) (asked s).
Definition set_ctx (s : qsys) (h : nat) (c : ctx) : qsys := mkQs (next s) (<[h := c]> (ctxs s)) (q_usage s) (woken s) (asked s).
Definition add_usage (s : qsys) (t : nat) (d : Z) : qsys := mkQs (next s) (ctxs s) (fn_set (q_usage s) t (q_usage s t + d)) (woken s) (asked s).
Definition ask (s : qsys) (t : nat) : qsys := mkQs (next s) (ctxs s) (q_usage s) (woken s) (fn_set (asked s) t true).
Definition wake_up_process (s : qsys) (h t : nat) : qsys := mkQs (next s) (ctxs s) (q_usage s) (woken s ++ [(h, t)]) (fn_set (asked s) t false).

(** * Operations *)

(** [__wake_q_add] up to its [cmpxchg], for [wake_q_add], and with [safe] for [wake_q_add_safe], whose
    caller hands over a reference of its own. *)
Definition wake_q_add (h : nat) (c : ctx) (t : nat) (safe : bool) (s : qsys) : qsys :=
  let s := ask s t in
  match next s t with
  | Nil => set_ctx (set_next s t Tail) h (mkCtx (first c) (lastp c) (Links t safe))
  | _ => if safe then add_usage s t (-1) else s
  end.

(** The node is linked, and the reference taken. *)
Definition wake_q_link (h : nat) (c : ctx) (t : nat) (safe : bool) (s : qsys) : qsys :=
  let s := match lastp c with
           | First => set_ctx s h (mkCtx (Node t) (NextOf t) Collects)
           | NextOf l => set_ctx (set_next s l (Node t)) h (mkCtx (first c) (NextOf t) Collects)
           end in
  if safe then s else add_usage s t 1.

(** [wake_up_q], an access at a time; it follows no null pointer. *)
Definition wake_up_q (h : nat) (c : ctx) (s : qsys) : res qsys :=
  let go s pc := set_ctx s h (mkCtx (first c) (lastp c) pc) in
  match wq_pc c with
  | Collects => mret (go s (Walks (first c)))
  | Walks Tail => mret (go s Done)
  | Walks Nil => Undef
  | Walks (Node t) => mret (go s (Loaded t (next s t)))
  | Loaded t node => mret (go (set_next s t Nil) (Cleared t node))
  | Cleared t node => mret (go (wake_up_process s h t) (Woke t node))
  | Woke t node => mret (go (add_usage s t (-1)) (Walks node))
  | _ => mret s
  end.

Inductive qlabel := QAdd (h t : nat) (safe : bool) | QGo (h : nat).

(** A caller of [wake_q_add_safe] has a reference, which is counted as its own. *)
Definition qstep (l : qlabel) (s : qsys) : option (res qsys) :=
  match l with
  | QAdd h t safe =>
      match ctxs s !! h with
      | Some c => match wq_pc c with
                  | Collects => Some (Ok (wake_q_add h c t safe (if safe then add_usage s t 1 else s)))
                  | _ => None
                  end
      | None => None
      end
  | QGo h =>
      match ctxs s !! h with
      | Some c => match wq_pc c with
                  | Links t safe => Some (Ok (wake_q_link h c t safe s))
                  | Done => None
                  | _ => Some (wake_up_q h c s)
                  end
      | None => None
      end
  end.

Inductive qrun : qsys -> qsys -> Prop :=
  | qrun_refl s : qrun s s
  | qrun_step s l s1 s2 : qstep l s = Some (Ok s1) -> qrun s1 s2 -> qrun s s2.

Fixpoint qsteps (ls : list qlabel) (s : qsys) : option qsys :=
  match ls with
  | [] => Some s
  | l :: ls => match qstep l s with Some (Ok s1) => qsteps ls s1 | _ => None end
  end.

Lemma qsteps_run ls : forall s s1, qsteps ls s = Some s1 -> qrun s s1.
Proof.
  induction ls as [|l ls IH]; cbn [qsteps]; intros s s1 E; [injection E as <-; apply qrun_refl|].
  destruct (qstep l s) as [[s'| | |]|] eqn:E'; try discriminate. exact (qrun_step s l s' s1 E' (IH _ _ E)).
Qed.

(** [DEFINE_WAKE_Q] in [n] contexts. *)
Definition wake_q_init (n : nat) (usage : nat -> Z) : qsys :=
  mkQs (fun _ => Nil) (gset_to_gmap (mkCtx Tail First Collects) (set_seq 0 n)) usage [] (fun _ => false).

(** * The lists in memory *)

(** The tasks from a pointer on. *)
Fixpoint chain (nx : nat -> ptr) (p : ptr) (l : list nat) : Prop :=
  match l with [] => p = Tail | t :: l => p = Node t /\ chain nx (nx t) l end.

Definition last_place (l : list nat) : place := match last l with Some t => NextOf t | None => First end.

(** The tasks that a context has queued, with what its program counter adds to the list in memory. *)
Definition ctx_ok (nx : nat -> ptr) (c : ctx) (own : list nat) : Prop :=
  match wq_pc c with
  | Collects => chain nx (first c) own /\ lastp c = last_place own
  | Links t _ => exists l, own = l ++ [t] /\ chain nx (first c) l /\ lastp c = last_place l /\ nx t = Tail
  | Walks p | Cleared _ p | Woke _ p => chain nx p own
  | Loaded t p => exists l, own = t :: l /\ chain nx p l /\ nx t <> Nil
  | Done => own = []
  end.

Definition b2z (b : bool) : Z := if b then 1 else 0.

(** What a context adds to the references of a task beyond the one of the queue: not yet taken, and not yet put. *)
Definition extra (t : nat) (c : ctx) : Z :=
  match wq_pc c with
  | Links u safe => if decide (u = t) then (if safe then 0 else -1) else 0
  | Cleared u _ | Woke u _ => if decide (u = t) then 1 else 0
  | _ => 0
  end.

Record QInv (usage : nat -> Z) (s : qsys) (own : nat -> list nat) : Prop := {
  q_ctx h c : ctxs s !! h = Some c -> ctx_ok (next s) c (own h);
  q_none h : ctxs s !! h = None -> own h = [];
  q_nodup h : NoDup (own h);
  q_apart h h' t : t ∈ own h -> t ∈ own h' -> h = h';
  q_queued t : next s t <> Nil <-> exists h, t ∈ own h;
  q_asked t : asked s t = true -> next s t <> Nil \/ exists h c p, ctxs s !! h = Some c /\ wq_pc c = Cleared t p;
  q_refs t : q_usage s t = usage t + b2z (bool_decide (next s t <> Nil)) + msum (extra t) (ctxs s)
}.

Lemma fn_set_eq {A} (f : nat -> A) k v : fn_set f k v k = v.
Proof. unfold fn_set. rewrite decide_True by reflexivity. reflexivity. Qed.

Lemma fn_set_ne {A} (f : nat -> A) k v x : x <> k -> fn_set f k v x = f x.
Proof. intros Hn. unfold fn_set. rewrite decide_False by exact Hn. reflexivity. Qed.

Lemma chain_frame nx nx' l : forall p, (forall t, t ∈ l -> nx' t = nx t) -> chain nx p l -> chain nx' p l.
Proof.
  induction l as [|t l IH]; intros p Hf; cbn [chain]; [auto|]. intros [-> Hc]. split; [reflexivity|]. rewrite Hf by left.
  apply IH; [|exact Hc]. intros u Hu. apply Hf. right. exact Hu.
Qed.

(** One more task at the end of a list. *)
Lemma chain_snoc nx l u t : forall p, chain nx p l -> last l = Some u -> NoDup l -> t ∉ l -> nx t = Tail -> chain (fn_set nx u (Node t)) p (l ++ [t]).
Proof.
  induction l as [|x l IH]; intros p Hc Hl Hnd Ht Htail; [discriminate|]. apply NoDup_cons in Hnd as [Hx Hnd]. apply not_elem_of_cons in Ht as [Hxt Ht].
  cbn [app chain] in *. destruct Hc as [-> Hc]. split; [reflexivity|]. destruct l as [|y l].
  - cbn in Hl. injection Hl as ->. rewrite fn_set_eq. cbn. split; [reflexivity|]. rewrite fn_set_ne by exact Hxt. exact Htail.
  - assert (last (y :: l) = Some u) as Hl' by exact Hl. assert (x <> u) as Hxu by (intros ->; apply Hx; eapply last_Some_elem_of; exact Hl').
    rewrite fn_set_ne by exact Hxu. exact (IH _ Hc Hl' Hnd Ht Htail).
Qed.

Lemma chain_not_nil nx p l : chain nx p l -> p <> Nil.
Proof. destruct l; cbn; [intros -> | intros [-> _]]; discriminate. Qed.

Section Step.
  Context (usage : nat -> Z) (s : qsys) (own : nat -> list nat) (h : nat) (c : ctx).
  Hypothesis I : QInv usage s own.
  Hypothesis Hc : ctxs s !! h = Some c.

(** One context changes its list. *)
Lemma ctx_step c' nx' u' wk' as' l' : ctx_ok nx' c' l' -> NoDup l' -> (forall t, t ∈ l' -> t ∈ own h \/ next s t = Nil) ->
  (forall t, t ∉ own h -> t ∉ l' -> nx' t = next s t) -> (forall t, t ∈ own h \/ t ∈ l' -> (nx' t <> Nil <-> t ∈ l')) ->
  (forall t, as' t = true -> nx' t <> Nil \/ exists h0 c0 p, <[h := c']> (ctxs s) !! h0 = Some c0 /\ wq_pc c0 = Cleared t p) ->
  (forall t, u' t = usage t + b2z (bool_decide (nx' t <> Nil)) + (msum (extra t) (ctxs s) - extra t c + extra t c')) ->
  QInv usage (mkQs nx' (<[h := c']> (ctxs s)) u' wk' as') (fn_set own h l').
Proof.
  intros Hok Hnd Hl Hframe Hnx Has Hu.
  assert (forall h' t, h' <> h -> t ∈ own h' -> t ∉ own h /\ t ∉ l') as Hother.
  { intros h' t Hn Ht. assert (t ∉ own h) as Hto by (intros Ht'; exact (Hn (q_apart _ _ _ I h' h t Ht Ht'))). split; [exact Hto|].
    intros Htl. destruct (Hl t Htl) as [|Hz]; [contradiction|]. apply (proj2 (q_queued _ _ _ I t)); [exists h'; exact Ht | exact Hz]. }
  split; cbn.
  - intros h' d. rewrite lookup_insert_Some. intros [[<- <-]|[Hn Hd]]; [rewrite fn_set_eq; exact Hok|].
    rewrite fn_set_ne by congruence. pose proof (q_ctx _ _ _ I h' d Hd) as Hk.
    assert (forall t, t ∈ own h' -> nx' t = next s t) as Hf by (intros t Ht; destruct (Hother h' t); [congruence | exact Ht | apply Hframe; assumption]).
    unfold ctx_ok in *. destruct (wq_pc d) as [|t safe|p|t p|t p|t p|]; try exact Hk; try (eapply chain_frame; [exact Hf | exact Hk]).
    + destruct Hk as [H1 H2]. split; [eapply chain_frame; [exact Hf | exact H1] | exact H2].
    + destruct Hk as (l & E & H1 & H2 & H3). rewrite E in Hf. exists l. split_and!; [exact E | | exact H2 | rewrite Hf; [exact H3 | set_solver]].
      eapply chain_frame; [|exact H1]. intros u Hu'. apply Hf. set_solver.
    + destruct Hk as (l & E & H1 & H2). rewrite E in Hf. exists l. split_and!; [exact E | | rewrite Hf; [exact H2 | left]].
      eapply chain_frame; [|exact H1]. intros u Hu'. apply Hf. right. exact Hu'.
  - intros h'. rewrite lookup_insert_None. intros [Hd Hn]. rewrite fn_set_ne by congruence. exact (q_none _ _ _ I h' Hd).
  - intros h'. destruct (decide (h' = h)) as [->|Hn]; [rewrite fn_set_eq; exact Hnd | rewrite fn_set_ne by exact Hn; apply I].
  - intros h1 h2 t. destruct (decide (h1 = h)) as [->|Hn1], (decide (h2 = h)) as [->|Hn2]; rewrite ?fn_set_eq, ?fn_set_ne by assumption; try reflexivity.
    + intros H1 H2. destruct (Hother h2 t Hn2 H2). contradiction.
    + intros H1 H2. destruct (Hother h1 t Hn1 H1). contradiction.
    + apply I.
  - intros t. destruct (decide (t ∈ own h \/ t ∈ l')) as [Hin|Hout].
    + rewrite (Hnx t Hin). split; [intros Ht; exists h; rewrite fn_set_eq; exact Ht|]. intros (h' & Ht). destruct (decide (h' = h)) as [->|Hn]; [rewrite fn_set_eq in Ht; exact Ht|].
      rewrite fn_set_ne in Ht by exact Hn. destruct (Hother h' t Hn Ht). tauto.
    + rewrite Hframe by tauto. rewrite (q_queued _ _ _ I t). split; intros (h' & Ht); exists h'.
      * rewrite fn_set_ne; [exact Ht|]. intros ->. tauto.
      * destruct (decide (h' = h)) as [->|Hn]; [rewrite fn_set_eq in Ht; tauto | rewrite fn_set_ne in Ht by exact Hn; exact Ht].
  - exact Has.
  - intros t. rewrite (msum_update _ _ _ c) by exact Hc. apply Hu.
Qed.

(** Nothing is lost of what was asked for before. *)
Lemma asked_before c' t : asked s t = true -> (forall p, wq_pc c <> Cleared t p) ->
  next s t <> Nil \/ exists h0 c0 p, <[h := c']> (ctxs s) !! h0 = Some c0 /\ wq_pc c0 = Cleared t p.
Proof.
  intros Ha Hn. destruct (q_asked _ _ _ I t Ha) as [|(h0 & c0 & p & H0 & Hp)]; [auto|]. right. exists h0, c0, p. split; [|exact Hp].
  rewrite lookup_insert_ne; [exact H0|]. intros <-. apply (Hn p). congruence.
Qed.

(** Only the program counter changes. *)
Lemma pc_step c' : ctx_ok (next s) c' (own h) -> (forall t, extra t c' = extra t c) -> (forall t p, wq_pc c <> Cleared t p) ->
  QInv usage (set_ctx s h c') (fn_set own h (own h)).
Proof.
  intros Hok He Hn. apply ctx_step; auto; try apply I.
  - intros t [Ht|Ht]; (split; [intros _; exact Ht | intros _; apply (q_queued _ _ _ I); exists h; exact Ht]).
  - intros t Ha. exact (asked_before c' t Ha (Hn t)).
  - intros t. rewrite He, (q_refs _ _ _ I t). lia.
Qed.
End Step.

(** A task that is queued already is asked for again. *)
Lemma asked_more usage s own t (safe : bool) : QInv usage s own -> next s t <> Nil ->
  QInv usage (if safe then add_usage (ask (add_usage s t 1) t) t (-1) else ask s t) own.
Proof.
  intros I Hn. destruct safe; split; cbn; try apply I.
  - intros x. unfold fn_set at 1. destruct (decide (x = t)) as [->|]; [auto | apply I].
  - intros x. rewrite (fn_set_eq (q_usage s)). destruct (decide (x = t)) as [->|Hne].
    + rewrite fn_set_eq, (q_refs _ _ _ I t). lia.
    + rewrite !fn_set_ne by exact Hne. apply I.
  - intros x. unfold fn_set at 1. destruct (decide (x = t)) as [->|]; [auto | apply I].
Qed.

Section Steps.
  Context (usage : nat -> Z) (s : qsys) (own : nat -> list nat) (h : nat) (c : ctx).
  Hypothesis I : QInv usage s own.
  Hypothesis Hc : ctxs s !! h = Some c.

#[local] Abbreviation Kept s' := (exists own', QInv usage s' own').

Lemma queued_next t : t ∈ own h -> next s t <> Nil.
Proof. intros Ht. apply (q_queued _ _ _ I). exists h. exact Ht. Qed.

Lemma add_keeps t safe : wq_pc c = Collects -> Kept (wake_q_add h c t safe (if safe then add_usage s t 1 else s)).
Proof.
  intros Hp. pose proof (q_ctx _ _ _ I h c Hc) as Hk. unfold ctx_ok in Hk. rewrite Hp in Hk. destruct Hk as [Hch Hla].
  assert (forall x, extra x c = 0) as He by (intros x; unfold extra; rewrite Hp; reflexivity).
  assert (next (if safe then add_usage s t 1 else s) = next s /\ ctxs (if safe then add_usage s t 1 else s) = ctxs s) as [En Ec] by (destruct safe; auto).
  unfold wake_q_add. cbn [ask next]. rewrite En. destruct (next s t) eqn:Et.
  - assert (forall h', t ∉ own h') as Hout by (intros h' Ht; apply (proj2 (q_queued _ _ _ I t)); [exists h'; exact Ht | exact Et]).
    exists (fn_set own h (own h ++ [t])). unfold set_ctx, set_next. cbn [ask next ctxs q_usage woken asked]. rewrite En, Ec.
    apply (ctx_step usage s own h c I Hc); cbn.
    + exists (own h). split_and!; [reflexivity | | exact Hla | apply fn_set_eq]. eapply chain_frame; [|exact Hch].
      intros x Hx. apply fn_set_ne. intros ->. exact (Hout h Hx).
    + apply NoDup_app. split_and!; [apply I | intros x Hx Hxt; apply list_elem_of_singleton in Hxt as ->; exact (Hout h Hx) | apply NoDup_singleton].
    + intros x Hx. apply elem_of_app in Hx as [Hx|Hx]; [left; exact Hx|]. apply list_elem_of_singleton in Hx as ->. right. exact Et.
    + intros x _ Hx. apply fn_set_ne. intros ->. apply Hx. set_solver.
    + intros x Hx. assert (x ∈ own h ++ [t]) as Hxl by set_solver. split; [intros _; exact Hxl|]. intros _.
      destruct (decide (x = t)) as [->|Hn]; [rewrite fn_set_eq; discriminate|]. rewrite fn_set_ne by exact Hn. apply queued_next. set_solver.
    + intros x. unfold fn_set at 1. destruct (decide (x = t)) as [->|Hn]; [intros _; left; rewrite fn_set_eq; discriminate|].
      intros Ha. rewrite fn_set_ne by exact Hn. assert (asked s x = true) as Ha' by (destruct safe; exact Ha). eapply asked_before; [exact I | exact Hc | exact Ha' | congruence].
    + intros x. rewrite He. pose proof (q_refs _ _ _ I x) as Hr. destruct (decide (x = t)) as [->|Hn].
      * rewrite fn_set_eq, (decide_True (P := t = t)) by reflexivity. rewrite bool_decide_true by discriminate. rewrite bool_decide_false in Hr by congruence.
        destruct safe; cbn [add_usage q_usage]; rewrite ?fn_set_eq; cbn in *; lia.
      * rewrite fn_set_ne by exact Hn. rewrite decide_False by congruence. destruct safe; cbn [add_usage q_usage]; rewrite ?fn_set_ne by exact Hn; lia.
  - exists own. pose proof (asked_more usage s own t safe I ltac:(congruence)) as Hm. destruct safe; exact Hm.
  - exists own. pose proof (asked_more usage s own t safe I ltac:(congruence)) as Hm. destruct safe; exact Hm.
Qed.

Lemma link_keeps t safe : wq_pc c = Links t safe -> Kept (wake_q_link h c t safe s).
Proof.
  intros Hp. pose proof (q_ctx _ _ _ I h c Hc) as Hk. unfold ctx_ok in Hk. rewrite Hp in Hk. destruct Hk as (l & El & Hch & Hla & Ht).
  pose proof (q_nodup _ _ _ I h) as Hnd. rewrite El in Hnd. apply NoDup_app in Hnd as (Hndl & Hdis & _).
  assert (t ∉ l) as Htl by (intros Hx; exact (Hdis t Hx ltac:(left))).
  assert (forall x, extra x c = if decide (t = x) then (if safe then 0 else -1) else 0) as He by (intros x; unfold extra; rewrite Hp; reflexivity).
  assert (forall nx c', (forall x, nx x <> Nil <-> next s x <> Nil) -> (forall x, x ∉ own h -> nx x = next s x) -> ctx_ok nx c' (own h) -> wq_pc c' = Collects ->
    QInv usage (mkQs nx (<[h := c']> (ctxs s)) (if safe then q_usage s else fn_set (q_usage s) t (q_usage s t + 1)) (woken s) (asked s)) (fn_set own h (own h))) as Hstep.
  { intros nx c' Hn Hf Hok Hp'. apply (ctx_step usage s own h c I Hc); auto; try apply I.
    - intros x Hx. rewrite Hn, (q_queued _ _ _ I x). split; [intros _; tauto | intros _; exists h; tauto].
    - intros x Ha. rewrite Hn. eapply asked_before; [exact I | exact Hc | exact Ha | congruence].
    - intros x. rewrite He. replace (extra x c') with 0 by (unfold extra; rewrite Hp'; reflexivity). pose proof (q_refs _ _ _ I x) as Hr.
      rewrite (bool_decide_ext _ _ (Hn x)). destruct (decide (t = x)) as [<-|Hne].
      + destruct safe; rewrite ?fn_set_eq; lia.
      + destruct safe; rewrite ?fn_set_ne by congruence; lia. }
  exists (fn_set own h (own h)). unfold wake_q_link. rewrite Hla. unfold last_place. destruct (last l) as [u|] eqn:Eu.
  - assert (u ∈ l) as Hu by (eapply last_Some_elem_of; exact Eu). assert (u ∈ own h) as Huo by (rewrite El; set_solver).
    specialize (Hstep (fn_set (next s) u (Node t)) (mkCtx (first c) (NextOf t) Collects)). destruct safe; apply Hstep; try reflexivity.
    all: try (intros x; destruct (decide (x = u)) as [->|Hn]; [rewrite fn_set_eq; split; [intros _; apply queued_next, Huo | discriminate] | rewrite fn_set_ne by exact Hn; reflexivity]).
    all: try (intros x Hx; apply fn_set_ne; congruence).
    all: unfold ctx_ok; cbn; rewrite El; (split; [apply chain_snoc; assumption | unfold last_place; rewrite last_snoc; reflexivity]).
  - apply last_None in Eu as ->. specialize (Hstep (next s) (mkCtx (Node t) (NextOf t) Collects)).
    destruct safe; apply Hstep; try reflexivity; unfold ctx_ok; cbn; rewrite El; cbn; auto.
Qed.

Lemma wake_up_keeps : (forall t safe, wq_pc c <> Links t safe) -> exists s', wake_up_q h c s = Ok s' /\ Kept s'.
Proof.
  intros Hnl. pose proof (q_ctx _ _ _ I h c Hc) as Hk. unfold ctx_ok in Hk. unfold wake_up_q.
  assert (forall pc, ctx_ok (next s) (mkCtx (first c) (lastp c) pc) (own h) -> (forall t, extra t (mkCtx (first c) (lastp c) pc) = extra t c) ->
    (forall t p, wq_pc c <> Cleared t p) -> Kept (set_ctx s h (mkCtx (first c) (lastp c) pc))) as Hpc.
  { intros pc H1 H2 H3. exists (fn_set own h (own h)). exact (pc_step usage s own h c I Hc _ H1 H2 H3). }
  destruct (wq_pc c) as [|t safe|[| |t]|t p|t p|t p|] eqn:Hp; try (eexists; split; [reflexivity|]).
  - apply Hpc; [exact (proj1 Hk) | intros t; unfold extra; rewrite Hp; reflexivity | congruence].
  - destruct (Hnl t safe eq_refl).
  - destruct (chain_not_nil _ _ _ Hk eq_refl).
  - apply Hpc; [|intros t; unfold extra; rewrite Hp; reflexivity | congruence]. unfold ctx_ok. cbn. destruct (own h) as [|x l]; [reflexivity | destruct Hk; discriminate].
  - apply Hpc; [|intros x; unfold extra; rewrite Hp; reflexivity | congruence]. unfold ctx_ok. cbn. destruct (own h) as [|x l] eqn:El; [discriminate|].
    destruct Hk as [[= <-] Hk]. exists l. split_and!; [reflexivity | exact Hk | apply queued_next; rewrite El; left].
  - (* the field is cleared *)
    destruct Hk as (l & El & Hch & Hne). pose proof (q_nodup _ _ _ I h) as Hnd. rewrite El in Hnd. apply NoDup_cons in Hnd as [Htl Hnd].
    exists (fn_set own h l). apply (ctx_step usage s own h c I Hc); cbn.
    + eapply chain_frame; [|exact Hch]. intros x Hx. apply fn_set_ne. congruence.
    + exact Hnd.
    + intros x Hx. left. rewrite El. right. exact Hx.
    + intros x Hx _. apply fn_set_ne. intros ->. apply Hx. rewrite El. left.
    + intros x Hx. destruct (decide (x = t)) as [->|Hn]; [rewrite fn_set_eq; split; [contradiction | intros H'; contradiction]|].
      rewrite fn_set_ne by exact Hn. rewrite El in Hx. assert (x ∈ l) as Hxl by (destruct Hx as [Hx|Hx]; [apply elem_of_cons in Hx as [|]; [contradiction | assumption] | exact Hx]).
      split; [intros _; exact Hxl | intros _; apply queued_next; rewrite El; right; exact Hxl].
    + intros x Ha. destruct (decide (x = t)) as [->|Hn].
      * right. exists h. eexists _, p. rewrite lookup_insert_eq. split; reflexivity.
      * rewrite fn_set_ne by exact Hn. eapply asked_before; [exact I | exact Hc | exact Ha | congruence].
    + intros x. pose proof (q_refs _ _ _ I x) as Hr. unfold extra at 2. rewrite Hp. destruct (decide (t = x)) as [<-|Hn].
      * rewrite fn_set_eq, bool_decide_false by tauto. rewrite bool_decide_true in Hr by exact Hne. cbn in *. lia.
      * rewrite fn_set_ne by congruence. lia.
  - (* the task is woken *)
    exists (fn_set own h (own h)). apply (ctx_step usage s own h c I Hc); cbn; auto; try apply I.
    + intros x Hx. split; [intros _; tauto | intros _; apply queued_next; tauto].
    + intros x. destruct (decide (x = t)) as [->|Hn]; [rewrite fn_set_eq; discriminate|]. rewrite fn_set_ne by exact Hn. intros Ha.
      eapply asked_before; [exact I | exact Hc | exact Ha | congruence].
    + intros x. unfold extra at 2. rewrite Hp, (q_refs _ _ _ I x). lia.
  - (* its reference is put *)
    exists (fn_set own h (own h)). apply (ctx_step usage s own h c I Hc); cbn; auto; try apply I.
    + intros x Hx. split; [intros _; tauto | intros _; apply queued_next; tauto].
    + intros x Ha. eapply asked_before; [exact I | exact Hc | exact Ha | congruence].
    + intros x. pose proof (q_refs _ _ _ I x) as Hr. unfold extra at 2. rewrite Hp. destruct (decide (t = x)) as [<-|Hn].
      * rewrite fn_set_eq. lia.
      * rewrite fn_set_ne by congruence. lia.
  - exists own. exact I.
Qed.
End Steps.

(** * Runs *)

Lemma qstep_keeps usage s own l r : QInv usage s own -> qstep l s = Some r -> exists s', r = Ok s' /\ exists own', QInv usage s' own'.
Proof.
  intros I E. destruct l as [h t safe|h]; cbn [qstep] in E; destruct (ctxs s !! h) as [c|] eqn:Hc; try discriminate.
  - destruct (wq_pc c) eqn:Hp; try discriminate. injection E as <-. eexists. split; [reflexivity|]. exact (add_keeps usage s own h c I Hc t safe Hp).
  - destruct (wq_pc c) as [|t safe|p|t p|t p|t p|] eqn:Hp; try discriminate; injection E as <-; try (apply (wake_up_keeps usage s own h c I Hc); congruence).
    eexists. split; [reflexivity|]. exact (link_keeps usage s own h c I Hc t safe Hp).
Qed.

Lemma qrun_keeps usage s s' : qrun s s' -> (exists own, QInv usage s own) -> exists own, QInv usage s' own.
Proof.
  induction 1 as [s|s l s1 s2 E _ IH]; [auto|]. intros [own I]. destruct (qstep_keeps usage s own l _ I E) as (s' & [= <-] & H). exact (IH H).
Qed.

Lemma qrun_trans s1 s2 s3 : qrun s1 s2 -> qrun s2 s3 -> qrun s1 s3.
Proof. induction 1 as [|s l s1 s2 E _ IH]; [auto|]. intros Hr. exact (qrun_step s l s1 s3 E (IH Hr)). Qed.

Lemma queue_init_inv n usage : QInv usage (wake_q_init n usage) (fun _ => []).
Proof.
  split; cbn.
  - intros h c Hc. apply lookup_gset_to_gmap_Some in Hc as [_ <-]. cbn. auto.
  - reflexivity.
  - constructor.
  - intros h h' t Ht. destruct (not_elem_of_nil t Ht).
  - intros t. split; [congruence | intros (h & Ht); destruct (not_elem_of_nil t Ht)].
  - discriminate.
  - intros t. rewrite bool_decide_false by congruence. rewrite msum_zero; [cbn; lia|]. intros h c Hc. apply lookup_gset_to_gmap_Some in Hc as [_ <-]. reflexivity.
Qed.

(** A context that goes on by itself: what it wakes, and that it ends. *)
Definition ends (s : qsys) (h : nat) (l : list nat) : Prop :=
  exists s' c', qrun s s' /\ ctxs s' !! h = Some c' /\ wq_pc c' = Done /\ woken s' = woken s ++ map (pair h) l /\
    forall h', h' <> h -> ctxs s' !! h' = ctxs s !! h'.

Lemma ends_step s s1 h l : qstep (QGo h) s = Some (Ok s1) -> woken s1 = woken s -> (forall h', h' <> h -> ctxs s1 !! h' = ctxs s !! h') -> ends s1 h l -> ends s h l.
Proof.
  intros E Ew Ec (s' & c' & Hr & H1 & H2 & H3 & H4). exists s', c'. split_and!; [exact (qrun_step s _ s1 s' E Hr) | exact H1 | exact H2 | congruence |].
  intros h' Hn. rewrite H4, Ec by exact Hn. reflexivity.
Qed.

Lemma set_ctx_at (s : qsys) h c : ctxs (set_ctx s h c) !! h = Some c.
Proof. apply lookup_insert_eq. Qed.

Lemma other_ctx (s : qsys) h c h' : h' <> h -> <[h := c]> (ctxs s) !! h' = ctxs s !! h'.
Proof. intros Hn. apply lookup_insert_ne. congruence. Qed.

(** The rest of a list is woken, in its order. *)
Lemma walk_ends h l : forall s c p, ctxs s !! h = Some c -> wq_pc c = Walks p -> chain (next s) p l -> NoDup l -> ends s h l.
Proof.
  induction l as [|t l IH]; intros s c p Hc Hp Hch Hnd; cbn [chain] in Hch.
  - subst p. eexists. eexists. split; [eapply (qrun_step s (QGo h)); [cbn; rewrite Hc, Hp; unfold wake_up_q; rewrite Hp; reflexivity | apply qrun_refl]|].
    cbn. rewrite lookup_insert_eq. split_and!; [reflexivity | reflexivity | rewrite app_nil_r; reflexivity | intros h' Hn; apply other_ctx, Hn].
  - destruct Hch as [-> Hch]. apply NoDup_cons in Hnd as [Ht Hnd].
    set (go s pc := set_ctx s h (mkCtx (first c) (lastp c) pc)).
    set (s1 := go s (Loaded t (next s t))). set (s2 := go (set_next s1 t Nil) (Cleared t (next s t))).
    set (s3 := go (wake_up_process s2 h t) (Woke t (next s t))). set (s4 := go (add_usage s3 t (-1)) (Walks (next s t))).
    destruct (IH s4 (mkCtx (first c) (lastp c) (Walks (next s t))) (next s t)) as (s' & c' & Hr & H1 & H2 & H3 & H4).
    + apply lookup_insert_eq.
    + reflexivity.
    + eapply chain_frame; [|exact Hch]. intros x Hx. cbn. apply fn_set_ne. congruence.
    + exact Hnd.
    + exists s', c'. split_and!; [| exact H1 | exact H2 | |].
      * eapply (qrun_step s (QGo h) s1); [cbn; rewrite Hc, Hp; unfold wake_up_q; rewrite Hp; reflexivity|].
        apply (qrun_step s1 (QGo h) s2); [unfold qstep, s1, go; rewrite set_ctx_at; reflexivity|].
        apply (qrun_step s2 (QGo h) s3); [unfold qstep, s2, go; rewrite set_ctx_at; reflexivity|].
        apply (qrun_step s3 (QGo h) s4); [unfold qstep, s3, go; rewrite set_ctx_at; reflexivity|]. exact Hr.
      * rewrite H3. cbn. rewrite <- app_assoc. reflexivity.
      * intros h' Hn. rewrite H4 by exact Hn. cbn. rewrite !lookup_insert_ne by congruence. reflexivity.
Qed.

(** A context that collects wakes what it has queued. *)
Lemma collects_ends s h c l : ctxs s !! h = Some c -> wq_pc c = Collects -> chain (next s) (first c) l -> NoDup l -> ends s h l.
Proof.
  intros Hc Hp Hch Hnd. eapply ends_step; [cbn; rewrite Hc, Hp; unfold wake_up_q; rewrite Hp; reflexivity | reflexivity | intros h' Hn; apply other_ctx, Hn |].
  eapply walk_ends; [apply lookup_insert_eq | reflexivity | exact Hch | exact Hnd].
Qed.

(** Wherever a context is, it can come to its end. *)
Lemma ctx_ends usage s own h c : QInv usage s own -> ctxs s !! h = Some c -> exists l, ends s h l.
Proof.
  intros I Hc. pose proof (q_ctx _ _ _ I h c Hc) as Hk. unfold ctx_ok in Hk. pose proof (q_nodup _ _ _ I h) as Hnd.
  assert (forall (s : qsys) c p l, ctxs s !! h = Some c -> wq_pc c = Woke p.1 p.2 -> chain (next s) p.2 l -> NoDup l -> ends s h l) as Hwoke.
  { clear. intros s c [t p] l Hc Hp Hch Hnd. cbn in *. eapply (ends_step s); [cbn; rewrite Hc, Hp; unfold wake_up_q; rewrite Hp; reflexivity | reflexivity | intros h' Hn; apply lookup_insert_ne; congruence |].
    eapply walk_ends; [apply lookup_insert_eq | reflexivity | exact Hch | exact Hnd]. }
  assert (forall (s : qsys) c t p l, ctxs s !! h = Some c -> wq_pc c = Cleared t p -> chain (next s) p l -> NoDup l -> ends s h (t :: l)) as Hclr.
  { clear -Hwoke. intros s c t p l Hc Hp Hch Hnd. set (s1 := set_ctx (wake_up_process s h t) h (mkCtx (first c) (lastp c) (Woke t p))).
    destruct (Hwoke s1 _ (t, p) l (lookup_insert_eq _ _ _) eq_refl Hch Hnd) as (s' & c' & Hr & H1 & H2 & H3 & H4). exists s', c'. split_and!; [| exact H1 | exact H2 | |].
    - eapply (qrun_step s (QGo h) s1); [cbn; rewrite Hc, Hp; unfold wake_up_q; rewrite Hp; reflexivity | exact Hr].
    - rewrite H3. cbn. rewrite <- app_assoc. reflexivity.
    - intros h' Hn. rewrite H4 by exact Hn. apply lookup_insert_ne. congruence. }
  destruct (wq_pc c) as [|t safe|p|t p|t p|t p|] eqn:Hp.
  - exists (own h). destruct Hk. eapply collects_ends; eassumption.
  - destruct (link_keeps usage s own h c I Hc t safe Hp) as [own' I']. set (s1 := wake_q_link h c t safe s) in *.
    assert (ctxs s1 = <[h := mkCtx (match lastp c with First => Node t | NextOf _ => first c end) (NextOf t) Collects]> (ctxs s)) as Ec
      by (unfold s1, wake_q_link; destruct (lastp c), safe; reflexivity).
    assert (woken s1 = woken s) as Ew by (unfold s1, wake_q_link; destruct (lastp c), safe; reflexivity).
    pose proof (lookup_insert_eq (ctxs s) h (mkCtx (match lastp c with First => Node t | NextOf _ => first c end) (NextOf t) Collects)) as Hc1. rewrite <- Ec in Hc1.
    pose proof (q_ctx _ _ _ I' h _ Hc1) as [Hch1 _]. exists (own' h). apply (ends_step s s1); [cbn; rewrite Hc, Hp; reflexivity | exact Ew | intros h' Hn; rewrite Ec; apply lookup_insert_ne; congruence |].
    eapply collects_ends; [exact Hc1 | reflexivity | exact Hch1 | apply I'].
  - exists (own h). eapply walk_ends; eassumption.
  - destruct Hk as (l & El & Hch & _). rewrite El in Hnd. apply NoDup_cons in Hnd as [Ht Hnd]. exists (t :: l).
    eapply (ends_step s); [cbn; rewrite Hc, Hp; unfold wake_up_q; rewrite Hp; reflexivity | reflexivity | intros h' Hn; apply lookup_insert_ne; congruence |].
    eapply Hclr; [apply lookup_insert_eq | reflexivity | | exact Hnd]. eapply chain_frame; [|exact Hch]. intros x Hx. cbn. apply fn_set_ne. congruence.
  - exists (t :: own h). eapply Hclr; eassumption.
  - exists (own h). eapply (Hwoke s c (t, p)); eassumption.
  - exists []. exists s, c. split_and!; [apply qrun_refl | exact Hc | exact Hp | rewrite app_nil_r; reflexivity | reflexivity].
Qed.

(** All contexts can. *)
Lemma all_end usage (hs : list nat) : forall s, (exists own, QInv usage s own) -> exists s', qrun s s' /\
  (forall h c', h ∈ hs -> ctxs s' !! h = Some c' -> wq_pc c' = Done) /\ (forall h, h ∉ hs -> ctxs s' !! h = ctxs s !! h).
Proof.
  induction hs as [|h hs IH]; intros s [own I].
  - exists s. split_and!; [apply qrun_refl | intros h c' Hh; destruct (not_elem_of_nil h Hh) | reflexivity].
  - destruct (IH s (ex_intro _ own I)) as (s1 & Hr1 & Hd1 & Ho1). destruct (qrun_keeps usage s s1 Hr1 (ex_intro _ own I)) as [own1 I1].
    destruct (ctxs s1 !! h) as [c|] eqn:Hc.
    + destruct (ctx_ends usage s1 own1 h c I1 Hc) as (l & s2 & c2 & Hr2 & Hc2 & Hp2 & _ & Ho2). exists s2. split_and!; [exact (qrun_trans _ _ _ Hr1 Hr2) | |].
      * intros h' c' Hh Hc'. destruct (decide (h' = h)) as [->|Hn]; [congruence|]. apply elem_of_cons in Hh as [|Hh]; [contradiction|].
        rewrite Ho2 in Hc' by exact Hn. exact (Hd1 h' c' Hh Hc').
      * intros h' Hh. apply not_elem_of_cons in Hh as [Hn Hh]. rewrite Ho2 by exact Hn. exact (Ho1 h' Hh).
    + exists s1. split_and!; [exact Hr1 | | intros h' Hh; apply not_elem_of_cons in Hh as [_ Hh]; exact (Ho1 h' Hh)].
      intros h' c' Hh Hc'. apply elem_of_cons in Hh as [->|Hh]; [congruence | exact (Hd1 h' c' Hh Hc')].
Qed.

(** When all contexts have ended nothing is queued, owed or held. *)
Lemma ended_clean usage s own t : QInv usage s own -> (forall h c, ctxs s !! h = Some c -> wq_pc c = Done) ->
  asked s t = false /\ next s t = Nil /\ q_usage s t = usage t.
Proof.
  intros I Hd. assert (next s t = Nil) as Hn.
  { destruct (decide (next s t = Nil)) as [|Hne]; [assumption|]. apply (q_queued _ _ _ I) in Hne as (h & Ht). destruct (ctxs s !! h) as [c|] eqn:Hc.
    - pose proof (q_ctx _ _ _ I h c Hc) as Hk. unfold ctx_ok in Hk. rewrite (Hd h c Hc) in Hk. rewrite Hk in Ht. destruct (not_elem_of_nil t Ht).
    - rewrite (q_none _ _ _ I h Hc) in Ht. destruct (not_elem_of_nil t Ht). }
  split_and!; [| exact Hn |].
  - destruct (asked s t) eqn:Ha; [|reflexivity]. destruct (q_asked _ _ _ I t Ha) as [|(h & c & p & Hc & Hp)]; [contradiction|]. rewrite (Hd h c Hc) in Hp. discriminate.
  - rewrite (q_refs _ _ _ I t), bool_decide_false by tauto. rewrite msum_zero; [cbn; lia|]. intros h c Hc. unfold extra. rewrite (Hd h c Hc). reflexivity.
Qed.

(** C24: however the accesses of contexts that queue and wake tasks interleave, no null pointer is followed and
    no wake-up is lost: a task that somebody asked to be woken, even if it was queued by
    somebody else already, is in a list or about to be woken by the one who took it off, and when
    all contexts have gone through their lists, which they always can, everybody asked for has been woken since,
    and no field and no reference is left over. A context that collects has a list in memory
    without repetitions, and wakes it in its order. *)
Theorem wake_q_safe n usage s : qrun (wake_q_init n usage) s ->
  (forall l r, qstep l s = Some r -> exists s', r = Ok s') /\
  (forall t, asked s t = true -> next s t <> Nil \/ exists h c p, ctxs s !! h = Some c /\ wq_pc c = Cleared t p) /\
  (forall h c, ctxs s !! h = Some c -> wq_pc c = Collects -> exists l, chain (next s) (first c) l /\ NoDup l /\ lastp c = last_place l /\
     exists s' c', qrun s s' /\ ctxs s' !! h = Some c' /\ wq_pc c' = Done /\ woken s' = woken s ++ map (pair h) l) /\
  (forall t, (forall h c, ctxs s !! h = Some c -> wq_pc c = Done) -> asked s t = false /\ next s t = Nil /\ q_usage s t = usage t) /\
  exists s', qrun s s' /\ forall h c, ctxs s' !! h = Some c -> wq_pc c = Done.
Proof.
  intros Hr. destruct (qrun_keeps usage _ _ Hr (ex_intro _ _ (queue_init_inv n usage))) as [own I]. split_and!.
  - intros l r E. destruct (qstep_keeps usage s own l r I E) as (s' & -> & _). eauto.
  - apply I.
  - intros h c Hc Hp. pose proof (q_ctx _ _ _ I h c Hc) as Hk. unfold ctx_ok in Hk. rewrite Hp in Hk. destruct Hk as [Hch Hl]. exists (own h).
    split_and!; [exact Hch | apply I | exact Hl |].
    destruct (collects_ends s h c (own h) Hc Hp Hch (q_nodup _ _ _ I h)) as (s' & c' & H1 & H2 & H3 & H4 & _). exists s', c'. auto.
  - intros t Hd. exact (ended_clean usage s own t I Hd).
  - destruct (all_end usage (elements (dom (ctxs s))) s (ex_intro _ own I)) as (s' & Hr' & Hd & Ho). exists s'. split; [exact Hr'|].
    intros h c Hc. destruct (decide (h ∈ elements (dom (ctxs s)))) as [Hh|Hh]; [exact (Hd h c Hh Hc)|].
    rewrite (Ho h Hh) in Hc. exfalso. apply Hh, elem_of_elements, elem_of_dom. eauto.
Qed.

(** * An example *)

(** Two contexts; the second asks for a task that the first has queued. *)
Definition two_queued : list qlabel := [QAdd 0 1 false; QGo 0; QAdd 1 1 false; QAdd 0 2 true; QGo 0]%nat.

Lemma wake_q_safe_witness : exists s, qsteps two_queued (wake_q_init 2 (fun _ => 1)) = Some s /\ asked s 1%nat = true /\ next s 1%nat <> Nil /\
  exists s' c', qrun s s' /\ ctxs s' !! 0%nat = Some c' /\ wq_pc c' = Done /\ woken s' = [(0, 1); (0, 2)]%nat.
Proof.
  destruct (qsteps two_queued (wake_q_init 2 (fun _ => 1))) as [s|] eqn:E; [|vm_compute in E; discriminate].
  destruct (wake_q_safe 2 (fun _ => 1) s (qsteps_run _ _ _ E)) as (_ & _ & Hl & _ & _).
  exists s. split; [reflexivity|]. vm_compute in E. injection E as <-. split; [reflexivity|]. split.
  - vm_compute. discriminate.
  - destruct (Hl 0%nat _ eq_refl eq_refl) as (l & Hch & _ & _ & s' & c' & Hr & Hc & Hd & Hw). exists s', c'. split_and!; [exact Hr | exact Hc | exact Hd |].
    rewrite Hw. destruct l as [|a [|b [|d l]]]; vm_compute in Hch.
    + discriminate.
    + destruct Hch as [[= <-] Hch]. discriminate.
    + destruct Hch as ([= <-] & [= <-] & _). reflexivity.
    + destruct Hch as ([= <-] & [= <-] & Hch & _). discriminate.
Defined.
