(* ===== verification/Exit.v ===== *)
(** The end of a task in src/3/20193018_PLUS-1/exit.c: [do_exit] with the lines
    added to total the CPU bursts of the processes named testp. The parts of the
    kernel that [do_exit] calls are events of a trace, in order and under the
    conditions of the code. *)

From S2P Require Import Prelude KHeaders CString Schedule.
Local Open Scope Z_scope.

(** * The totals *)

(** The static variables [cpu_burst_total_tsk] and [CHILD_PROCESS_COUNT]. *)
Record Totals := mkTotals { cpu_burst_total_tsk : Z; CHILD_PROCESS_COUNT : Z }.

(** A line of the log: pairs are seconds and nanoseconds. *)
Inductive Log :=
  | TotalLine (pid : Z) (total : Z * Z)
  | TaskLine (policy : Z) (comm : list Z) (pid : Z) (burst total : Z * Z).

(** The bytes of testp, as the array [test_name] holds them with its NUL. *)
Definition test_name : list Z := [116; 101; 115; 116; 112; 0].

(** [strncmp a b n == 0]: no difference before the end of a string or [n]
    bytes. *)
Fixpoint strncmp_eq (a b : list Z) (n : nat) : bool :=
  match n with
  | O => true
  | S n =>
      match a, b with
      | x :: a, y :: b => (x =? y) && ((x =? 0) || strncmp_eq a b n)
      | _, _ => false
      end
  end.

(** [div_u64_rem] of math64.h by a billion. *)
Definition split_ns (x : Z) : Z * Z := (x / 1000000000, x mod 1000000000).

(** The task that exits: [comm] is the array of 16 bytes. *)
Record Exiting := mkExiting {
  e_pid : Z;
  e_comm : list Z;
  e_policy : Z;
  e_burst : Z
}.

Definition exit_account (g : Totals) (t : Exiting) : Totals * list Log :=
  if strncmp_eq (e_comm t) test_name 6 then
    let n := CHILD_PROCESS_COUNT g + 1 in
    if 21 <? n then (mkTotals 0 0, [TotalLine (e_pid t) (split_ns (cpu_burst_total_tsk g))])
    else
      let total := u64 (cpu_burst_total_tsk g + e_burst t) in
      (mkTotals total n, [TaskLine (e_policy t) (e_comm t) (e_pid t) (split_ns (e_burst t)) (split_ns total)])
  else (g, []).

(** * The teardown *)

Inductive Call :=
  | warn_blk_plug | force_uaccess_begin | preempt_count_reset | profile_task_exit | kcov_task_exit
  | ptrace_event_exit (code : Z) | validate_creds_for_do_exit | futex_exit_recursive
  | set_uninterruptible | schedule_away | io_uring_files_cancel | exit_signals | sync_mm_rss
  | acct_update_integrals | hrtimer_cancel | exit_itimers | setmax_mm_hiwater_rss
  | acct_collect (code : Z) (group_dead : bool) | tty_audit_exit | audit_free | taskstats_exit (group_dead : bool)
  | exit_mm | acct_process | trace_sched_process_exit | exit_sem | exit_shm | exit_files | exit_fs
  | disassociate_ctty | exit_task_namespaces | exit_task_work | exit_thread | perf_event_exit_task
  | sched_autogroup_exit_task | cgroup_exit | flush_ptrace_hw_breakpoint | exit_tasks_rcu_start
  | exit_notify (group_dead : bool) | proc_exit_connector | mpol_put_task_policy | kfree_pi_state
  | debug_check_no_locks_held | exit_io_context | free_pipe_info | put_page | check_stack_usage
  | preempt_disable | add_dirty_throttle_leaks | exit_rcu | exit_tasks_rcu_finish | lockdep_free_task
  | task_dead.

(** What the code tests. *)
Record Cond := mkCond {
  plug : bool;
  in_interrupt : bool;
  in_atomic : bool;
  e_flags : Z;
  has_mm : bool;
  live : Z;
  is_global_init : bool;
  posix_timers : bool;
  pi_state_cache : bool;
  io_context : bool;
  splice_pipe : bool;
  frag_page : bool;
  nr_dirtied : bool
}.

(** How it ends: a panic, or the task is dead with this exit code and this
    number of live threads in its group. *)
Inductive Ending := Panic | Dead (exit_code live : Z).

Definition when (b : bool) (l : list Call) : list Call := if b then l else [].

(** From the start of the cleanup to [exit_signals]. *)
Definition exit_begin (c : Cond) (code : Z) : list Call :=
  [force_uaccess_begin] ++ when (in_atomic c) [preempt_count_reset] ++
  [profile_task_exit; kcov_task_exit; ptrace_event_exit code; validate_creds_for_do_exit] ++
  when (negb (Z.land (e_flags c) PF_EXITING =? 0)) [futex_exit_recursive; set_uninterruptible; schedule_away] ++
  [io_uring_files_cancel; exit_signals] ++ when (has_mm c) [sync_mm_rss] ++ [acct_update_integrals].

(** The accounting of the last thread of a group, when it is not init. *)
Definition exit_group (c : Cond) (group_dead : bool) : list Call :=
  when group_dead (when (posix_timers c) [hrtimer_cancel; exit_itimers] ++ when (has_mm c) [setmax_mm_hiwater_rss]).

(** Giving up what the task holds. *)
Definition exit_resources (c : Cond) (code : Z) (group_dead : bool) : list Call :=
  [acct_collect code group_dead] ++ when group_dead [tty_audit_exit] ++
  [audit_free; taskstats_exit group_dead; exit_mm] ++ when group_dead [acct_process] ++
  [trace_sched_process_exit; exit_sem; exit_shm; exit_files; exit_fs] ++ when group_dead [disassociate_ctty] ++
  [exit_task_namespaces; exit_task_work; exit_thread; perf_event_exit_task; sched_autogroup_exit_task; cgroup_exit;
   flush_ptrace_hw_breakpoint; exit_tasks_rcu_start; exit_notify group_dead; proc_exit_connector; mpol_put_task_policy] ++
  when (pi_state_cache c) [kfree_pi_state] ++ [debug_check_no_locks_held] ++
  when (io_context c) [exit_io_context] ++ when (splice_pipe c) [free_pipe_info] ++ when (frag_page c) [put_page] ++
  [validate_creds_for_do_exit; check_stack_usage; preempt_disable] ++
  when (nr_dirtied c) [add_dirty_throttle_leaks] ++ [exit_rcu; exit_tasks_rcu_finish; lockdep_free_task; task_dead].

(** The calls, the new totals, the log and the end. *)
Definition do_exit (g : Totals) (t : Exiting) (c : Cond) (code : Z) : list Call * Totals * list Log * Ending :=
  let '(g, log) := exit_account g t in
  let start := when (plug c) [warn_blk_plug] in
  if in_interrupt c then (start, g, log, Panic)
  else if e_pid t =? 0 then (start, g, log, Panic)
  else
    let calls := start ++ exit_begin c code in
    let live' := live c - 1 in
    let group_dead := live' =? 0 in
    if group_dead && is_global_init c then (calls, g, log, Panic)
    else (calls ++ exit_group c group_dead ++ exit_resources c code group_dead, g, log, Dead code live').

(** * Correctness of the totals *)

(** A process of that name: its 16 bytes start with testp and a NUL. *)
Definition is_testp (t : Exiting) : Prop := exists rest, e_comm t = test_name ++ rest.

Lemma strncmp_testp t : length (e_comm t) = 16%nat -> strncmp_eq (e_comm t) test_name 6 = true <-> is_testp t.
Proof.
  unfold is_testp. destruct t as [pid comm pol b]. cbn [e_comm]. intros Hl.
  do 16 (destruct comm as [|? comm]; [discriminate|]). destruct comm; [|discriminate]. clear Hl.
  unfold test_name. split.
  - cbn. intros He. repeat match goal with H : context [?a =? ?b] |- _ =>
      destruct (Z.eqb_spec a b); [subst; cbn in H|discriminate He] end. cbn. eauto.
  - intros [rest [= -> -> -> -> -> -> _]]. reflexivity.
Qed.

Definition account_all (g : Totals) (l : list Exiting) : Totals * list Log :=
  fold_left (fun a t => let '(g', log) := exit_account (fst a) t in (g', snd a ++ log)) l (g, []).

(** The bursts of a list of tasks, modulo 2^64. *)
Definition burst_sum (l : list Exiting) : Z := u64 (fold_right (fun t s => e_burst t + s) 0 l).

Definition fresh_totals : Totals := mkTotals 0 0.

Lemma burst_sum_snoc w t : burst_sum (w ++ [t]) = u64 (burst_sum w + e_burst t).
Proof.
  unfold burst_sum. rewrite fold_right_app. cbn [fold_right].
  assert (forall w x, fold_right (fun t s => e_burst t + s) x w = fold_right (fun t s => e_burst t + s) 0 w + x) as Hf.
  { clear. induction w as [|a w IH]; intros x; cbn; [lia|]. rewrite IH. lia. }
  rewrite Hf. unfold u64. rewrite Zplus_mod_idemp_l. f_equal. lia.
Qed.

(** The exits of the batch of 22 that position [i] is in, before it. *)
Definition window (l : list Exiting) (i : nat) : list Exiting := take (i mod 22) (drop (i - i mod 22) l).

(** The line that the [i]-th exit of a testp process must print. *)
Definition line (l : list Exiting) (i : nat) (t : Exiting) : Log :=
  if bool_decide (i mod 22 = 21)%nat then TotalLine (e_pid t) (split_ns (burst_sum (window l i)))
  else TaskLine (e_policy t) (e_comm t) (e_pid t) (split_ns (e_burst t)) (split_ns (burst_sum (window l i ++ [t]))).

Definition testp (t : Exiting) : Prop := strncmp_eq (e_comm t) test_name 6 = true.
#[export] Instance testp_dec t : Decision (testp t).
Proof. unfold testp. apply _. Defined.

Lemma window_app l l' i : (i <= length l)%nat -> window (l ++ l') i = window l i.
Proof.
  intros Hi. unfold window. pose proof (Nat.Div0.mod_le i 22).
  rewrite drop_app_le by lia. rewrite take_app_le; [reflexivity|]. rewrite length_drop. lia.
Qed.

Lemma window_next l i t : l !! i = Some t ->
  window l (S i) = if bool_decide (i mod 22 = 21)%nat then [] else window l i ++ [t].
Proof.
  intros Hl. unfold window. pose proof (Nat.mod_upper_bound i 22 ltac:(lia)). pose proof (Nat.Div0.mod_le i 22).
  pose proof (Nat.div_mod i 22 ltac:(lia)) as Hd. case_bool_decide as E.
  - assert (S i mod 22 = 0)%nat as ->; [|reflexivity]. symmetry. apply (Nat.mod_unique _ _ (S (i / 22))); lia.
  - assert (S i mod 22 = S (i mod 22))%nat as -> by (symmetry; apply (Nat.mod_unique _ _ (i / 22)); lia).
    replace (S i - S (i mod 22))%nat with (i - i mod 22)%nat by lia. apply take_S_r.
    rewrite lookup_drop. rewrite <- Hl. f_equal. lia.
Qed.

Lemma account_testp l i t : l !! i = Some t -> testp t ->
  exit_account (mkTotals (burst_sum (window l i)) (Z.of_nat (i mod 22))) t =
  (mkTotals (burst_sum (window l (S i))) (Z.of_nat (S i mod 22)), [line l i t]).
Proof.
  intros Hl Ht. unfold exit_account. rewrite Ht. cbn [cpu_burst_total_tsk CHILD_PROCESS_COUNT]. unfold line.
  rewrite (window_next l i t Hl). pose proof (Nat.mod_upper_bound i 22 ltac:(lia)).
  pose proof (Nat.div_mod i 22 ltac:(lia)). case_bool_decide as E.
  - assert (S i mod 22 = 0)%nat as -> by (symmetry; apply (Nat.mod_unique _ _ (S (i / 22))); lia).
    rewrite E. reflexivity.
  - assert (S i mod 22 = S (i mod 22))%nat as -> by (symmetry; apply (Nat.mod_unique _ _ (i / 22)); lia).
    destruct (Z.ltb_spec 21 (Z.of_nat (i mod 22) + 1)); [lia|].
    rewrite burst_sum_snoc. repeat f_equal. lia.
Qed.

Lemma account_all_snoc g l t : account_all g (l ++ [t]) =
  let '(g', log) := exit_account (fst (account_all g l)) t in (g', snd (account_all g l) ++ log).
Proof. unfold account_all. rewrite fold_left_app. reflexivity. Qed.

Lemma line_app l l' i t : (i <= length l)%nat -> line (l ++ l') i t = line l i t.
Proof. intros Hi. unfold line. rewrite window_app by exact Hi. reflexivity. Qed.

Lemma account_all_lines ts :
  let l := filter testp ts in
  account_all fresh_totals ts =
    (mkTotals (burst_sum (window l (length l))) (Z.of_nat (length l mod 22)), imap (line l) l).
Proof.
  induction ts as [|t ts IH] using rev_ind; [reflexivity|]. cbv zeta in *.
  rewrite account_all_snoc, IH. cbn [fst snd]. rewrite filter_app. set (l := filter testp ts) in *.
  rewrite filter_cons, filter_nil. destruct (decide (testp t)) as [Ht|Ht].
  - rewrite length_app, imap_app. cbn [length imap]. rewrite Nat.add_1_r.
    rewrite <- (window_app l [t] (length l)) by lia. rewrite (account_testp (l ++ [t]) (length l) t).
    + rewrite Nat.add_0_r. f_equal. f_equal. apply imap_ext. intros i x Hx. symmetry. apply line_app.
      apply lookup_lt_Some in Hx. lia.
    + rewrite lookup_app_r by lia. rewrite Nat.sub_diag. reflexivity.
    + exact Ht.
  - rewrite app_nil_r. unfold exit_account. destruct (strncmp_eq _ _ _) eqn:E; [contradiction|]. rewrite app_nil_r. reflexivity.
Qed.

(** Over any sequence of exits the added lines ignore the tasks of other
    names and take the processes named testp in batches of 22: each of the first
    21 prints its burst and the sum of the batch so far, the 22nd prints the sum
    of the 21 before it, leaves its own burst out and starts the next batch.
    Sums are modulo 2^64 and printed as seconds and nanoseconds. *)
Theorem exit_totals ts :
  let l := filter testp ts in
  account_all fresh_totals ts =
    (mkTotals (burst_sum (window l (length l))) (Z.of_nat (length l mod 22)), imap (line l) l).
Proof. apply account_all_lines. Qed.

Lemma exit_totals_witness :
  snd (account_all fresh_totals (replicate 21 (mkExiting 5 (test_name ++ replicate 10 0) 1 7) ++
    [mkExiting 4 (test_name ++ replicate 10 0) 1 1000])) !! 21%nat = Some (TotalLine 4 (0, 147)).
Proof. rewrite exit_totals. vm_compute. reflexivity. Defined.

(** * Correctness of the teardown *)

#[export] Instance Call_eq : EqDecision Call.
Proof. solve_decision. Defined.

(** Everything a task gives up before its parent is told. *)
Definition released : list Call :=
  [exit_signals; exit_mm; exit_sem; exit_shm; exit_files; exit_fs; exit_task_namespaces; exit_task_work;
   exit_thread; perf_event_exit_task; sched_autogroup_exit_task; cgroup_exit].

(** What only the last thread of a group does. *)
Definition group_only : list Call := [tty_audit_exit; acct_process; disassociate_ctty].

Definition is_notify (x : Call) : bool := match x with exit_notify _ => true | _ => false end.

(** The conditions under which the task can die. *)
Definition can_die (t : Exiting) (c : Cond) : bool :=
  negb (in_interrupt c) && negb (e_pid t =? 0) && negb ((live c =? 1) && is_global_init c).

(** The calls before the parent is told and after. *)
Definition before_notify (c : Cond) (code : Z) (gd : bool) : list Call :=
  when (plug c) [warn_blk_plug] ++ exit_begin c code ++ exit_group c gd ++
  [acct_collect code gd] ++ when gd [tty_audit_exit] ++
  [audit_free; taskstats_exit gd; exit_mm] ++ when gd [acct_process] ++
  [trace_sched_process_exit; exit_sem; exit_shm; exit_files; exit_fs] ++ when gd [disassociate_ctty] ++
  [exit_task_namespaces; exit_task_work; exit_thread; perf_event_exit_task; sched_autogroup_exit_task; cgroup_exit;
   flush_ptrace_hw_breakpoint; exit_tasks_rcu_start].

Definition after_notify (c : Cond) : list Call :=
  [proc_exit_connector; mpol_put_task_policy] ++
  when (pi_state_cache c) [kfree_pi_state] ++ [debug_check_no_locks_held] ++
  when (io_context c) [exit_io_context] ++ when (splice_pipe c) [free_pipe_info] ++ when (frag_page c) [put_page] ++
  [validate_creds_for_do_exit; check_stack_usage; preempt_disable] ++
  when (nr_dirtied c) [add_dirty_throttle_leaks] ++ [exit_rcu; exit_tasks_rcu_finish; lockdep_free_task; task_dead].

Lemma do_exit_split g t c code : can_die t c = true ->
  fst (fst (fst (do_exit g t c code))) =
    before_notify c code (live c =? 1) ++ exit_notify (live c =? 1) :: after_notify c /\
  snd (do_exit g t c code) = Dead code (live c - 1).
Proof.
  unfold can_die, do_exit. destruct (exit_account g t) as [g' log].
  destruct (in_interrupt c); [discriminate|]. destruct (e_pid t =? 0); [discriminate|]. cbn [negb andb].
  replace (live c - 1 =? 0) with (live c =? 1) by lia. intros Hi. destruct ((live c =? 1) && is_global_init c); [discriminate|].
  cbn [fst snd]. split; [|reflexivity]. unfold before_notify, after_notify, exit_resources.
  rewrite <- !app_assoc. cbn [app]. rewrite <- ?app_assoc. reflexivity.
Qed.

(** Membership in a list of calls, computed. *)
Definition has (l : list Call) (x : Call) : bool := bool_decide (x ∈ l).

Lemma before_facts c code gd :
  forallb (has (before_notify c code gd)) released = true /\
  forallb (fun x => negb (is_notify x)) (before_notify c code gd) = true /\
  forallb (fun x => Bool.eqb (has (before_notify c code gd) x) gd) group_only = true /\
  has (before_notify c code gd) task_dead = false.
Proof.
  unfold before_notify, exit_begin, exit_group.
  destruct (negb (Z.land (e_flags c) PF_EXITING =? 0)), (plug c), (in_atomic c), (has_mm c), (posix_timers c), gd;
    vm_compute; auto.
Qed.

Lemma after_facts c :
  forallb (fun x => negb (is_notify x)) (after_notify c) = true /\
  forallb (fun x => negb (has (after_notify c) x)) group_only = true /\
  last (after_notify c) = Some task_dead.
Proof.
  unfold after_notify.
  destruct (pi_state_cache c), (io_context c), (splice_pipe c), (frag_page c), (nr_dirtied c); vm_compute; auto.
Qed.

Lemma panic_no_notify c code : forallb (fun x => negb (is_notify x)) (when (plug c) [warn_blk_plug] ++ exit_begin c code) = true.
Proof.
  unfold exit_begin. destruct (negb (Z.land (e_flags c) PF_EXITING =? 0)), (plug c), (in_atomic c), (has_mm c); reflexivity.
Qed.

Lemma forallb_elem {A} (f : A -> bool) l x : forallb f l = true -> x ∈ l -> f x = true.
Proof. rewrite forallb_forall. intros Hf Hx. apply Hf, list_elem_of_In, Hx. Qed.

Lemma last_app_cons {A} (l1 l2 : list A) x y : last l2 = Some y -> last (l1 ++ x :: l2) = Some y.
Proof. intros Hl. rewrite last_app, last_cons, Hl. reflexivity. Qed.

(** [do_exit] ends in the death of the task with its exit code and one live
    thread less, unless it runs in an interrupt, for the idle task or for the
    last thread of init; then it panics and nobody is notified. A task that dies
    gives up its memory, files, semaphores, namespaces and the rest before its
    parent is notified, exactly once; the accounting of the group happens for
    the last thread and for no other; the final switch is the last call. *)
Theorem do_exit_order g t c code :
  let '(calls, _, _, ending) := do_exit g t c code in
  if can_die t c then
    ending = Dead code (live c - 1) /\
    exists pre post, calls = pre ++ exit_notify (live c =? 1) :: post /\
      released ⊆ pre /\ (forall x, x ∈ pre ++ post -> is_notify x = false) /\
      (forall x, x ∈ group_only -> x ∈ calls <-> live c = 1) /\
      last calls = Some task_dead /\ task_dead ∉ pre
  else ending = Panic /\ forall x, x ∈ calls -> is_notify x = false.
Proof.
  destruct (can_die t c) eqn:Ed.
  - destruct (do_exit_split g t c code Ed) as [Ec Ee]. destruct (do_exit g t c code) as [[[calls g'] log] ending].
    cbn [fst snd] in Ec, Ee. split; [exact Ee|]. exists (before_notify c code (live c =? 1)), (after_notify c).
    destruct (before_facts c code (live c =? 1)) as (H1 & H2 & H3 & H4). destruct (after_facts c) as (H5 & H6 & H7).
    split; [exact Ec|]. split; [|split; [|split; [|split]]].
    + intros x Hx. pose proof (forallb_elem _ _ _ H1 Hx) as Hb. apply bool_decide_eq_true in Hb. exact Hb.
    + intros x Hx. apply elem_of_app in Hx as [Hx|Hx]; apply negb_true_iff;
        [exact (forallb_elem _ _ _ H2 Hx) | exact (forallb_elem _ _ _ H5 Hx)].
    + intros x Hx. pose proof (forallb_elem _ _ _ H3 Hx) as Hb. pose proof (forallb_elem _ _ _ H6 Hx) as Ha. cbn beta in Hb, Ha.
      apply eqb_prop in Hb. apply negb_true_iff, bool_decide_eq_false in Ha. rewrite Ec, elem_of_app, elem_of_cons.
      assert (x <> exit_notify (live c =? 1)) as Hn by (intros ->; unfold group_only in Hx; rewrite !elem_of_cons, elem_of_nil in Hx; destruct Hx as [?|[?|[?|[]]]]; discriminate).
      unfold has in Hb. destruct (Z.eqb_spec (live c) 1); [apply bool_decide_eq_true in Hb | apply bool_decide_eq_false in Hb]; tauto.
    + rewrite Ec. apply last_app_cons, H7.
    + apply bool_decide_eq_false in H4. exact H4.
  - unfold can_die in Ed. unfold do_exit. destruct (exit_account g t) as [g' log].
    assert (forall x, x ∈ when (plug c) [warn_blk_plug] -> is_notify x = false) as Hw
      by (unfold when; destruct (plug c); intros x Hx; [apply list_elem_of_singleton in Hx as ->; reflexivity | inversion Hx]).
    destruct (in_interrupt c); [auto|]. destruct (e_pid t =? 0); [auto|]. cbn [negb andb] in Ed.
    replace (live c - 1 =? 0) with (live c =? 1) by lia. apply negb_false_iff in Ed. rewrite Ed. split; [reflexivity|].
    intros x Hx. apply negb_true_iff. exact (forallb_elem _ _ _ (panic_no_notify c code) Hx).
Qed.
