(* ===== verification/SchedClient.v ===== *)
(** The programs that exercise the scheduler, src/3/assignment3.c and
    src/3/20193018_PLUS-1/assignment3p.c: the matrix work of a child, the menu of
    policies, what each child asks of the kernel, the elapsed time, the average
    over a pipe, and the sequence of children whose exits the modified kernel
    totals. *)

From Stdlib Require Import String.
From S2P Require Import Prelude KHeaders Uclamp Priority Setscheduler Schedule Exit.
Local Open Scope Z_scope.

(** * The work of a child *)

Definition SIZE : nat := 100.

(** An [int]; a result outside its range is undefined. *)
Definition int32 (x : Z) : res Z := if (- 2 ^ 31 <=? x) && (x <? 2 ^ 31) then Ok x else Undef.

(** [m[i][j]] and [m[i][j] = x]. *)
Definition aget2 {A} (m : list (list A)) (i j : Z) : res A := row ← aget m i; aget row j.
Definition aset2 {A} (m : list (list A)) (i j : Z) (x : A) : res (list (list A)) :=
  row ← aget m i; row ← aset row j x; aset m i row.

(** The value of a variable, undefined as long as nothing was assigned. *)
Definition defined (x : option Z) : res Z := match x with Some v => Ok v | None => Undef end.

(** An array of the function's frame that is not initialised. *)
Definition indeterminate : list (list (option Z)) := replicate SIZE (replicate SIZE None).

Definition work_body (A B : list (list (option Z))) (k i j : Z) (result : list (list Z)) : res (list (list Z)) :=
  a ← aget2 A k i; a ← defined a;
  b ← aget2 B i j; b ← defined b;
  p ← int32 (a * b);
  r ← aget2 result k j;
  s ← int32 (r + p);
  aset2 result k j s.

(** The function for given contents of [A] and [B]; the program leaves both
    [indeterminate]. *)
Definition perform_work (A B : list (list (option Z))) : res (list (list Z)) :=
  for_each 100 0 (fun _ =>
    for_each 100 0 (fun k =>
      for_each 100 0 (fun i =>
        for_each 100 0 (fun j => work_body A B k i j)))) (replicate SIZE (replicate SIZE 0)).

(** * The menu *)

(** What a choice selects: policy, its name, the time slice. *)
Record Choice := mkChoice { ch_policy : Z; policy_str : string; timeslice : option Z; ch_nice : bool }.

Section Client.
  Context `{Headers}.

(** The value written to sched_rr_timeslice_ms. *)
Definition set_RT_RR_timeslice (can_open : bool) (ms : Z) : res Z :=
  if negb can_open then Exit 1 else mret ms.

Open Scope string_scope.

(** [slice] is the number read after choice 4, if one was read. *)
Definition choose_policy (can_open : bool) (choice : string) (slice : option Z) : res Choice :=
  if String.eqb choice "1" then mret (mkChoice SCHED_NORMAL "CFS_DEFAULT" None false)
  else if String.eqb choice "2" then mret (mkChoice SCHED_NORMAL "CFS_NICE" None true)
  else if String.eqb choice "3" then mret (mkChoice SCHED_FIFO "RT_FIFO" None false)
  else if String.eqb choice "4" then
    match slice with
    | None => Undef
    | Some ms =>
        if ((ms =? 10) || (ms =? 100) || (ms =? 1000))%Z
        then _ ← set_RT_RR_timeslice can_open ms; mret (mkChoice SCHED_RR "RT_RR" (Some ms) false)
        else Exit 1
    end
  else Exit 1.

Close Scope string_scope.

(** * A child *)

(** The nice value of the [i]-th child. *)
Definition child_nice (i : Z) : Z := if i <? 7 then -20 else if i <? 14 then 0 else 19.

(** [sched_priority] of the [sched_setscheduler] call. *)
Definition child_priority (policy : Z) : Z :=
  if (policy =? SCHED_FIFO) || (policy =? SCHED_RR) then sched_get_priority_max policy else 0.

(** What the child asks of the kernel before its work; [setpriority] is the
    system call of kernel/sys.c on a pid and a nice value. The results of the
    calls are not looked at. *)
Definition child_setup {DL : Deadline} (reweight_task : Z -> res (Z * Z))
    (setpriority : KState -> Z -> Z -> res KState) (w : World) (ch : Choice) (i : Z) (st : KState) : res KState :=
  st ← (if (ch_policy ch =? SCHED_NORMAL) && ch_nice ch then setpriority st (ks_current st) (child_nice i) else mret st);
  '(_, st, _) ← sys_sched_setscheduler reweight_task w st 0 (ch_policy ch) (Some (Some (child_priority (ch_policy ch))));
  mret st.

(** [gettimeofday] values, and the difference with the borrow. *)
Record timeval := mkTimeval { tv_sec : Z; tv_usec : Z }.

Definition elapsed (start end_ : timeval) : Z * Z :=
  let seconds := tv_sec end_ - tv_sec start in
  let useconds := tv_usec end_ - tv_usec start in
  if useconds <? 0 then (seconds - 1, useconds + 1000000) else (seconds, useconds).
End Client.

(** * The parent *)

Section Parent.
  (** The numbers of type [double] and their addition. *)
  Context {D : Type} (add : D -> D -> D) (zero : D).

(** The reads of the loop: a message of the pipe, or nothing once it is empty
    and every writer has closed it; then the variable was never assigned. *)
Fixpoint collect (n : nat) (pipe : list D) (total : D) : res D :=
  match n with
  | O => Ok total
  | S n => match pipe with
           | [] => Undef
           | m :: pipe => collect n pipe (add total m)
           end
  end.

(** [forks] are the results of the 21 [fork] calls in the parent; a child that
    exists writes one message; [arrive] is the order of arrival. *)
Definition children (forks : list Z) : nat := length (filter (fun r => 0 < r) forks).

Definition parent_total (forks : list Z) (arrive : list D) : res D :=
  collect 21 (take (children forks) arrive) zero.
End Parent.

(** * The sequential program *)

(** What happens, in order: a child appears, sets its affinity, works and
    exits, and is waited for. *)
Inductive Step := Fork (pid : Z) | SetAffinity (pid : Z) | Work (pid : Z) | ExitTask (pid code : Z) | Wait (pid : Z).

(** [forks] gives the pid of each child or a failure, [affinity] whether
    [sched_setaffinity] succeeds in it. The result is the status of the parent. *)
Fixpoint plus_main (affinity : Z -> bool) (forks : list Z) (n : nat) : list Step * Z :=
  match n, forks with
  | S n, r :: forks =>
      if 0 <? r then
        let child := if affinity r then [SetAffinity r; Work r; ExitTask r 0] else [SetAffinity r; ExitTask r 1] in
        let '(steps, status) := plus_main affinity forks n in
        ([Fork r] ++ child ++ [Wait r] ++ steps, status)
      else ([], 1)
  | _, _ => ([], 0)
  end.

(** The whole program with the exit of the parent itself. *)
Definition plus_run (affinity : Z -> bool) (forks : list Z) (parent : Z) : list Step :=
  let '(steps, status) := plus_main affinity forks 21 in steps ++ [ExitTask parent status].

(** The tasks that go through [do_exit], in order. *)
Definition exits (task : Z -> Exiting) (l : list Step) : list Exiting :=
  omap (fun s => match s with ExitTask p _ => Some (task p) | _ => None end) l.

(** * The matrix product *)

(** A matrix of the size of the program with the entries [f]. *)
Definition is_mat {A} (m : list (list A)) (f : Z -> Z -> A) : Prop :=
  length m = SIZE /\ forall i, 0 <= i < 100 -> exists row, m !! Z.to_nat i = Some row /\ length row = SIZE /\
    forall j, 0 <= j < 100 -> row !! Z.to_nat j = Some (f i j).

Lemma aget2_ok {A} (m : list (list A)) f i j : is_mat m f -> 0 <= i < 100 -> 0 <= j < 100 -> aget2 m i j = Ok (f i j).
Proof.
  intros [_ Hm] Hi Hj. destruct (Hm i Hi) as (row & Hrow & _ & Hf). unfold aget2.
  rewrite (aget_ok_Z _ _ row) by (lia || assumption). cbn [mbind res_bind].
  apply aget_ok_Z; [lia | auto].
Qed.

Lemma aset2_ok {A} (m : list (list A)) f g i j : is_mat m f -> 0 <= i < 100 -> 0 <= j < 100 ->
  (forall i' j', (i', j') <> (i, j) -> g i' j' = f i' j') ->
  returns (aset2 m i j (g i j)) (fun m' => is_mat m' g).
Proof.
  intros [Hl Hm] Hi Hj Hg. destruct (Hm i Hi) as (row & Hrow & Hlr & Hf). unfold aset2.
  rewrite (aget_ok_Z _ _ row) by (lia || assumption). cbn [mbind res_bind]. unfold SIZE in *.
  rewrite (aset_ok_Z row) by lia. cbn [mbind res_bind]. rewrite aset_ok_Z by lia. apply returns_ok.
  split; [rewrite length_insert; exact Hl|]. intros i' Hi'. destruct (decide (i' = i)) as [->|Hne].
  - eexists. split; [apply list_lookup_insert_eq; lia|]. split; [rewrite length_insert; exact Hlr|].
    intros j' Hj'. destruct (decide (j' = j)) as [->|Hnj]; [apply list_lookup_insert_eq; lia|].
    rewrite list_lookup_insert_ne by lia. rewrite Hg by congruence. auto.
  - destruct (Hm i' Hi') as (row' & Hrow' & Hlr' & Hf'). exists row'. rewrite list_lookup_insert_ne by lia.
    split; [exact Hrow'|]. split; [exact Hlr'|]. intros j' Hj'. rewrite Hg by congruence. auto.
Qed.

Section Product.
  Context (fa fb : Z -> Z -> Z).
  Hypothesis bound_a : forall i j, - 463 <= fa i j <= 463.
  Hypothesis bound_b : forall i j, - 463 <= fb i j <= 463.

(** The first [n] terms of the entry [k j] of the product. *)
Fixpoint dot (k j : Z) (n : nat) : Z :=
  match n with O => 0 | S n => dot k j n + fa k (Z.of_nat n) * fb (Z.of_nat n) j end.

(** The entry [k j] after [c] products, the rows before [k0], and in that row
    the terms before [i0] and, in the columns before [j0], one more. *)
Definition partial (c k0 i0 j0 k j : Z) : Z :=
  c * dot k j 100 +
  (if k <? k0 then dot k j 100
   else if k =? k0 then dot k j (Z.to_nat i0) + (if j <? j0 then fa k i0 * fb i0 j else 0) else 0).

Lemma term_bound i j i' j' : - 214369 <= fa i j * fb i' j' <= 214369.
Proof. pose proof (bound_a i j). pose proof (bound_b i' j'). nia. Qed.

Lemma dot_bound k j n : - (214369 * Z.of_nat n) <= dot k j n <= 214369 * Z.of_nat n.
Proof.
  induction n as [|n IH]; [cbn; lia|]. cbn [dot]. pose proof (term_bound k (Z.of_nat n) (Z.of_nat n) j). lia.
Qed.

Lemma partial_bound c k0 i0 j0 k j : 0 <= c < 100 -> 0 <= i0 < 100 ->
  - 2 ^ 31 <= partial c k0 i0 j0 k j < 2 ^ 31.
Proof.
  intros Hc Hi. unfold partial. pose proof (dot_bound k j 100). pose proof (dot_bound k j (Z.to_nat i0)).
  pose proof (term_bound k i0 i0 j). assert (- (21436900 * 99) <= c * dot k j 100 <= 21436900 * 99) by nia.
  destruct (k <? k0), (k =? k0), (j <? j0); lia.
Qed.

(** Moving on to the next term, the next row and the next product. *)
Lemma partial_i c k0 i0 k j : 0 <= i0 -> 0 <= j < 100 -> partial c k0 i0 100 k j = partial c k0 (i0 + 1) 0 k j.
Proof.
  intros Hi Hj. unfold partial. destruct (Z.ltb_spec j 100); [|lia]. destruct (Z.ltb_spec j 0); [lia|].
  rewrite Z2Nat.inj_add, Nat.add_1_r by lia. cbn [dot]. rewrite Z2Nat.id by lia.
  destruct (k <? k0), (k =? k0); lia.
Qed.

Lemma partial_k c k0 k j : 0 <= j -> partial c k0 100 0 k j = partial c (k0 + 1) 0 0 k j.
Proof.
  intros Hj. unfold partial. destruct (Z.ltb_spec j 0); [lia|].
  change (Z.to_nat 100) with 100%nat. change (Z.to_nat 0) with 0%nat. cbn [dot].
  destruct (Z.ltb_spec k k0), (Z.eqb_spec k k0), (Z.ltb_spec k (k0 + 1)), (Z.eqb_spec k (k0 + 1)); lia.
Qed.

Lemma partial_c c k j : 0 <= k < 100 -> 0 <= j -> partial c 100 0 0 k j = partial (c + 1) 0 0 0 k j.
Proof.
  intros Hk Hj. unfold partial. destruct (Z.ltb_spec j 0); [lia|]. destruct (Z.ltb_spec k 100); [|lia].
  destruct (Z.ltb_spec k 0); [lia|]. change (Z.to_nat 0) with 0%nat. cbn [dot]. destruct (k =? 0); lia.
Qed.

Lemma is_mat_ext {A} (m : list (list A)) f g : (forall i j, 0 <= i < 100 -> 0 <= j < 100 -> f i j = g i j) ->
  is_mat m f -> is_mat m g.
Proof.
  intros He [Hl Hm]. split; [exact Hl|]. intros i Hi. destruct (Hm i Hi) as (row & Hr & Hlr & Hf).
  exists row. split; [exact Hr|]. split; [exact Hlr|]. intros j Hj. rewrite <- He by lia. auto.
Qed.

Lemma int32_ok x : - 2 ^ 31 <= x < 2 ^ 31 -> int32 x = Ok x.
Proof. intros Hx. unfold int32. destruct (Z.leb_spec (- 2 ^ 31) x), (Z.ltb_spec x (2 ^ 31)); lia || reflexivity. Qed.

Lemma work_body_ok A B c k i j r : is_mat A (fun i j => Some (fa i j)) -> is_mat B (fun i j => Some (fb i j)) ->
  0 <= c < 100 -> 0 <= k < 100 -> 0 <= i < 100 -> 0 <= j < 100 -> is_mat r (partial c k i j) ->
  returns (work_body A B k i j r) (fun r' => is_mat r' (partial c k i (j + 1))).
Proof.
  intros HA HB Hc Hk Hi Hj Hr. unfold work_body.
  rewrite (aget2_ok A _ k i HA Hk Hi). cbn [mbind res_bind defined].
  rewrite (aget2_ok B _ i j HB Hi Hj). cbn [mbind res_bind defined].
  rewrite int32_ok by (pose proof (term_bound k i i j); lia). cbn [mbind res_bind].
  rewrite (aget2_ok r _ k j Hr Hk Hj). cbn [mbind res_bind].
  assert (partial c k i j k j + fa k i * fb i j = partial c k i (j + 1) k j) as E.
  { unfold partial. rewrite Z.ltb_irrefl, Z.eqb_refl, Z.ltb_irrefl. destruct (Z.ltb_spec j (j + 1)); lia. }
  rewrite E, int32_ok by (apply partial_bound; lia). cbn [mbind res_bind].
  apply (aset2_ok r (partial c k i j)); [exact Hr | exact Hk | exact Hj|].
  intros k' j' Hne. unfold partial. f_equal. destruct (k' <? k); [reflexivity|].
  destruct (Z.eqb_spec k' k) as [->|]; [|reflexivity]. f_equal.
  destruct (Z.ltb_spec j' (j + 1)), (Z.ltb_spec j' j); try lia. destruct (decide (j' = j)); [congruence | lia].
Qed.

(** For matrices of numbers up to 463 [perform_work] runs to its end without
    overflow, and leaves in [result] one hundred times the product of [A] and
    [B]. *)
Theorem perform_work_product A B :
  is_mat A (fun i j => Some (fa i j)) -> is_mat B (fun i j => Some (fb i j)) ->
  exists r, perform_work A B = Ok r /\ is_mat r (fun k j => 100 * dot k j 100).
Proof.
  intros HA HB. unfold perform_work.
  apply (returns_mono _ (fun r => is_mat r (partial (0 + Z.of_nat 100) 0 0 0))).
  - apply (for_each_rule (fun c r => is_mat r (partial c 0 0 0))).
    + split; [reflexivity|]. intros k Hk. exists (replicate SIZE 0). unfold SIZE.
      split; [apply lookup_replicate_2; lia|]. split; [reflexivity|]. intros j Hj. rewrite lookup_replicate_2 by lia. f_equal.
      unfold partial. destruct (Z.ltb_spec k 0), (Z.ltb_spec j 0); try lia. change (Z.to_nat 0) with 0%nat. cbn [dot].
      destruct (k =? 0); lia.
    + intros c r0 Hc Hr0. apply (returns_mono _ (fun r => is_mat r (partial c (0 + Z.of_nat 100) 0 0))).
      2: { intros r. apply is_mat_ext. intros; apply partial_c; lia. }
      apply (for_each_rule (fun k r => is_mat r (partial c k 0 0))); [exact Hr0|].
      intros k r1 Hk Hr1. apply (returns_mono _ (fun r => is_mat r (partial c k (0 + Z.of_nat 100) 0))).
      2: { intros r. apply is_mat_ext. intros; apply partial_k; lia. }
      apply (for_each_rule (fun i r => is_mat r (partial c k i 0))); [exact Hr1|].
      intros i r2 Hi Hr2. apply (returns_mono _ (fun r => is_mat r (partial c k i (0 + Z.of_nat 100)))).
      2: { intros r. apply is_mat_ext. intros; apply partial_i; lia. }
      apply (for_each_rule (fun j r => is_mat r (partial c k i j))); [exact Hr2|].
      intros j r3 Hj Hr3. apply work_body_ok; auto; lia.
  - intros r. apply is_mat_ext. intros k j Hk Hj. unfold partial.
    destruct (Z.ltb_spec k 0), (Z.ltb_spec j 0); try lia. change (Z.to_nat 0) with 0%nat. cbn [dot Z.of_nat].
    destruct (k =? 0); lia.
Qed.
End Product.

(** The matrices of the program are never assigned: the first turn reads one. *)
Lemma perform_work_indeterminate : perform_work indeterminate indeterminate = Undef.
Proof. reflexivity. Qed.

(** * What a child gets from the kernel *)

Section Granted.
  Context `{HeadersOk} {DL : Deadline} (reweight_task : Z -> res (Z * Z)).
  Hypothesis reweights : Reweights reweight_task.
  Context (w : World) (setpriority : KState -> Z -> Z -> res KState).

(** [setpriority] as documented, for a caller that may raise its priority: the
    nice value of an existing task changes by [set_user_nice]. *)
Definition SetsNice : Prop := forall st pid k nice p' ev,
  ks_tasks st !! pid = Some k -> privileged (w_caller w pid) ->
  set_user_nice reweight_task (w_place w pid) (k_task k) nice = Ok (p', ev) ->
  setpriority st pid nice = Ok (update st pid (ks_sys st) (with_task k p')).

Hypothesis sets_nice : SetsNice.

(** A child before its set-up: the calling task, any task of this kernel (the
    modified [sched_fork] makes every child [SCHED_FIFO]) that is not boosted to a
    deadline priority and not a stop task, with a privileged caller. *)
Record ready (st : KState) (k : KTask) : Prop := {
  rd_find : ks_tasks st !! ks_current st = Some k;
  rd_pid : ks_current st <> 0;
  rd_coherent : coherent (k_task k);
  rd_donor : forall d, w_top w (ks_current st) = Some d -> -1 <= donor_prio d;
  rd_changeable : changeable (w_place w (ks_current st)) k;
  rd_caller : privileged (w_caller w (ks_current st))
}.

(** The nice value first. *)
Lemma nice_ready st k n : ready st k -> -20 <= n <= 19 ->
  exists st' k', setpriority st (ks_current st) n = Ok st' /\ ready st' k' /\ task_nice (k_task k') = n /\
    ks_current st' = ks_current st.
Proof.
  intros [Hf Hpid Hw Hd [Hst Hdl] Hc] Hn.
  destruct (coherent_nice reweight_task reweights (w_place w (ks_current st)) (k_task k) n Hw Hn)
    as (p' & ev & E & Hw' & Hnice & _ & _ & Hdl').
  exists (update st (ks_current st) (ks_sys st) (with_task k p')), (with_task k p').
  split; [exact (sets_nice st _ k n p' ev Hf Hc E)|]. split; [|auto].
  split; cbn; auto; [apply lookup_insert_eq | split; cbn; auto].
Qed.

(** The policies of the menu and the priorities the children ask for. *)
Lemma menu can_open choice slice ch : choose_policy can_open choice slice = Ok ch ->
  (ch_policy ch = 0 \/ ch_policy ch = 1 \/ ch_policy ch = 2) /\
  (ch_nice ch = true -> ch_policy ch = 0) /\
  child_priority (ch_policy ch) = (if ch_policy ch =? 0 then 0 else 99).
Proof.
  destruct policies as (P0 & P1 & P2 & _). destruct prio_range as [Em _].
  unfold choose_policy, set_RT_RR_timeslice, child_priority, sched_get_priority_max. rewrite P0, P1, P2, Em.
  destruct (String.eqb choice "1"); [intros [= <-]; cbn; auto|].
  destruct (String.eqb choice "2"); [intros [= <-]; cbn; auto|].
  destruct (String.eqb choice "3"); [intros [= <-]; cbn; split_and!; auto; discriminate|].
  destruct (String.eqb choice "4"); [|discriminate]. destruct slice as [ms|]; [|discriminate].
  destruct (_ || _); [|discriminate]. destruct can_open; [|discriminate]. intros [= <-].
  cbn; split_and!; auto; discriminate.
Qed.

(** For every choice of the menu that is accepted, a child run by a
    privileged user ends its set-up with the chosen policy, and with the highest
    real-time priority when that is a real-time policy; with
    the choice CFS_NICE its nice value is -20 for the first seven children, 0
    for the next seven and 19 for the rest, and otherwise it is unchanged. *)
Theorem child_granted can_open choice slice ch i st k :
  choose_policy can_open choice slice = Ok ch -> ready st k ->
  exists st' k', child_setup reweight_task setpriority w ch i st = Ok st' /\ ks_current st' = ks_current st /\
    ks_tasks st' !! ks_current st = Some k' /\ coherent (k_task k') /\ policy (k_task k') = ch_policy ch /\
    rt_priority (k_task k') = (if ch_policy ch =? 0 then 0 else 99) /\
    task_nice (k_task k') = (if ch_nice ch then if i <? 7 then -20 else if i <? 14 then 0 else 19 else task_nice (k_task k)).
Proof.
  intros Hch Hrd. destruct (menu _ _ _ _ Hch) as (Hpol & Hfair & Hpri). unfold child_setup.
  destruct policies as (P0 & _).
  assert (exists st1 k1, (if (ch_policy ch =? SCHED_NORMAL) && ch_nice ch
      then setpriority st (ks_current st) (child_nice i) else mret st) = Ok st1 /\ ready st1 k1 /\
    ks_current st1 = ks_current st /\
    task_nice (k_task k1) = if ch_nice ch then child_nice i else task_nice (k_task k)) as (st1 & k1 & -> & Hrd1 & Hcur & Hn1).
  { rewrite P0. destruct (ch_nice ch).
    - rewrite Hfair by reflexivity. cbn [andb Z.eqb].
      destruct (nice_ready st k (child_nice i) Hrd) as (st1 & k1 & ? & ? & ? & ?); [|eauto 10].
      unfold child_nice. destruct (i <? 7), (i <? 14); lia.
    - rewrite andb_false_r. eauto 10. }
  cbn [mbind res_bind]. destruct Hrd1 as [Hf Hpid Hw Hd Hpl Hc]. rewrite Hpri.
  assert (policy_arg (ch_policy ch) false = ch_policy ch) as Earg by (unfold policy_arg; lia).
  assert (find_process_by_pid st1 0 = Some (ks_current st1, k1)) as Hfind by (unfold find_process_by_pid; cbn; rewrite Hf; reflexivity).
  assert (valid_policy (ch_policy ch) = true) as Hv
    by (rewrite valid_spec, idle_spec, fair_spec, rt_spec, dl_spec; destruct Hpol as [-> | [-> | ->]]; reflexivity).
  destruct (sys_setscheduler_spec reweight_task reweights w st1 0 (ks_current st1) k1 (ch_policy ch) false
    (if ch_policy ch =? 0 then 0 else 99)) as (e & s' & k' & ev & Hrun & He & Ho & Hg);
    [lia | exact Hfind | exact Hv | | | exact Hw | exact Hd | exact Hc | exact Hpl |].
  { rewrite dl_spec. destruct Hpol as [-> | [-> | ->]]; reflexivity. }
  { destruct (_ =? 0); lia. }
  rewrite Earg in Hrun. rewrite Hrun. cbn [mbind res_bind].
  assert (e = 0) as E0.
  { rewrite He. unfold sched_get_priority_min, sched_get_priority_max. destruct policies as (-> & -> & -> & -> & -> & ->).
    destruct prio_range as [-> _]. destruct Hpol as [-> | [-> | ->]]; reflexivity. }
  destruct (Hg E0) as ((_ & G2 & G3) & G1 & _).
  destruct (legacy_facts (k_task k1) (ch_policy ch) false (if ch_policy ch =? 0 then 0 else 99) Hv) as (_ & _ & L3 & L4 & _).
  exists (update st1 (ks_current st1) s' k'), k'. rewrite <- Hcur. split; [reflexivity|]. split; [reflexivity|].
  split; [apply lookup_insert_eq|]. split; [apply (out_coherent _ _ _ _ _ _ Ho)|]. split; [exact G1|].
  split; [rewrite G2, L4; unfold u32; destruct (_ =? 0); reflexivity|].
  rewrite G3, L3. destruct (fair_policy _); exact Hn1.
Qed.
End Granted.

(** * Time and averages *)

(** The difference of two times, normalised. *)
Lemma elapsed_correct s e : 0 <= tv_usec s < 1000000 -> 0 <= tv_usec e < 1000000 ->
  let '(sec, usec) := elapsed s e in
  sec * 1000000 + usec = (tv_sec e * 1000000 + tv_usec e) - (tv_sec s * 1000000 + tv_usec s) /\ 0 <= usec < 1000000.
Proof. intros Hs He. unfold elapsed. destruct (Z.ltb_spec (tv_usec e - tv_usec s) 0); lia. Qed.

Lemma collect_all {D} (add : D -> D -> D) n pipe : forall total,
  collect add n pipe total = if (n <=? List.length pipe)%nat then Ok (fold_left add (take n pipe) total) else Undef.
Proof.
  revert pipe. induction n as [|n IH]; intros [|m pipe] total; cbn; [reflexivity..|]. rewrite IH. reflexivity.
Qed.

(** The parent adds the message of every child exactly once, in the order of
    arrival, when all 21 forks succeeded; when one of them failed, which is not
    checked, it reads a variable that was never assigned. *)
Theorem parent_counts {D} (add : D -> D -> D) zero forks (arrive : list D) :
  List.length forks = 21%nat -> List.length arrive = children forks ->
  parent_total add zero forks arrive =
    if forallb (fun r => 0 <? r) forks then Ok (fold_left add arrive zero) else Undef.
Proof.
  intros Hf Ha. unfold parent_total. rewrite collect_all, length_take, Ha, Nat.min_id.
  assert ((21 <=? children forks)%nat = forallb (fun r => 0 <? r) forks) as ->.
  { unfold children. rewrite <- Hf. clear. induction forks as [|r l IH]; [reflexivity|].
    rewrite filter_cons. destruct (decide (0 < r)) as [Hr|Hr]; cbn [forallb List.length].
    - destruct (Z.ltb_spec 0 r); [|lia]. exact IH.
    - destruct (Z.ltb_spec 0 r); [lia|]. cbn [andb]. apply Nat.leb_gt. pose proof (length_filter (fun r => 0 < r) l). lia. }
  destruct (forallb _ _) eqn:E; [|reflexivity]. f_equal. f_equal.
  assert (children forks = 21%nat) as Hc.
  { rewrite <- Hf. unfold children. clear -E. induction forks as [|r l IH]; [reflexivity|]. cbn in E.
    apply andb_prop in E as [Er E]. rewrite filter_cons, decide_True by lia. cbn. auto. }
  rewrite take_ge by (rewrite length_take; lia). rewrite take_ge by lia. reflexivity.
Qed.

(** * The sequential program on the modified kernel *)

(** The children that were created: up to the first failure. *)
Fixpoint created (n : nat) (forks : list Z) : list Z :=
  match n, forks with
  | S n, r :: forks => if 0 <? r then r :: created n forks else []
  | _, _ => []
  end.

Lemma exits_app task l1 l2 : exits task (l1 ++ l2) = exits task l1 ++ exits task l2.
Proof. unfold exits. apply omap_app. Qed.

Lemma plus_main_exits affinity task n : forall forks,
  exits task (fst (plus_main affinity forks n)) = task <$> created n forks.
Proof.
  induction n as [|n IH]; intros [|r forks]; try reflexivity. cbn [plus_main created].
  destruct (0 <? r); [|reflexivity]. specialize (IH forks). destruct (plus_main affinity forks n) as [steps status].
  cbn [fst] in *. rewrite !exits_app, IH. cbn [fmap list_fmap].
  destruct (affinity r); reflexivity.
Qed.

Lemma plus_run_exits affinity task forks parent :
  exits task (plus_run affinity forks parent) = (task <$> created 21 forks) ++ [task parent].
Proof.
  unfold plus_run. pose proof (plus_main_exits affinity task 21 forks) as He.
  destruct (plus_main affinity forks 21) as [steps status]. cbn [fst] in He. rewrite exits_app, He. reflexivity.
Qed.

Lemma created_length n : forall forks, (List.length (created n forks) <= n)%nat.
Proof.
  induction n as [|n IH]; intros [|r forks]; cbn; try lia. destruct (0 <? r); cbn; [|lia]. specialize (IH forks). lia.
Qed.

(** A run of the program on the modified kernel, with nothing counted before
    it and all its processes named testp. When it creates its 21 children the
    kernel prints one line for each of them and then, when the parent exits, the
    sum of their bursts, and starts afresh. When a fork fails the parent's exit
    is counted as a child's, no sum is printed and the count is left behind for
    the next run. Whether the children could set their affinity makes no
    difference. *)
Theorem testp_run affinity forks parent task : (forall p, testp (task p)) ->
  let '(g, log) := account_all fresh_totals (exits task (plus_run affinity forks parent)) in
  let made := created 21 forks in
  if bool_decide (List.length made = 21%nat)
  then g = fresh_totals /\ exists lines, List.length lines = 21%nat /\
       log = lines ++ [TotalLine (e_pid (task parent)) (split_ns (burst_sum (task <$> made)))]
  else CHILD_PROCESS_COUNT g = Z.of_nat (List.length made) + 1 /\
       (forall pid total, TotalLine pid total ∉ log).
Proof.
  intros Ht. rewrite account_all_lines, plus_run_exits, filter_all
    by (apply Forall_app; split; [apply Forall_fmap, Forall_forall; intros; apply Ht | repeat constructor; apply Ht]).
  set (made := created 21 forks). pose proof (created_length 21 forks) as Hlen. fold made in Hlen.
  set (l := (task <$> made) ++ [task parent]).
  assert (List.length l = S (List.length made)) as Hl by (unfold l; rewrite length_app, length_fmap; cbn; lia).
  rewrite Hl. cbv beta iota zeta. destruct (decide (List.length made = 21%nat)) as [E|E]; [rewrite bool_decide_true by exact E | rewrite bool_decide_false by exact E].
  - rewrite E. split; [reflexivity|].
    exists (imap (line l) (task <$> made)). split; [rewrite length_imap, length_fmap; exact E|].
    unfold l at 2. rewrite imap_app. f_equal. cbn [imap]. rewrite length_fmap, E. cbn [Nat.add]. unfold line.
    rewrite bool_decide_true by reflexivity. unfold l. rewrite window_app by (rewrite length_fmap; lia).
    unfold window. change (21 mod 22)%nat with 21%nat. rewrite Nat.sub_diag, drop_0, take_ge by (rewrite length_fmap; lia).
    reflexivity.
  - assert (S (List.length made) mod 22 = S (List.length made))%nat as -> by (apply Nat.mod_small; lia).
    cbn [CHILD_PROCESS_COUNT]. split; [lia|]. intros pid total Hin.
    apply elem_of_lookup_imap in Hin as (i & t & Hline & Hi). apply lookup_lt_Some in Hi. unfold line in Hline.
    rewrite bool_decide_false in Hline; [discriminate|]. rewrite Nat.mod_small by lia. lia.
Qed.

(** * Examples *)

Definition testp_task (pid : Z) : Exiting := mkExiting pid (test_name ++ replicate 10 0) 1 (1000 * pid).

Lemma testp_run_witness : CHILD_PROCESS_COUNT
  (fst (account_all fresh_totals (exits testp_task (plus_run (fun _ => true) (replicate 21 5) 4)))) = 0.
Proof.
  pose proof (testp_run (fun _ => true) (replicate 21 5) 4 testp_task (fun p => eq_refl)) as Hr.
  destruct (account_all _ _) as [g log]. cbn [fst]. destruct Hr as [-> _]. reflexivity.
Defined.

Lemma parent_counts_witness : parent_total Z.add 0 (replicate 21 5) (replicate 21 2) = Ok 42.
Proof. rewrite (parent_counts Z.add 0 (replicate 21 5) (replicate 21 2) eq_refl eq_refl). reflexivity. Defined.

Definition small (i j : Z) : Z := (i + j) mod 7.

Definition small_mat : list (list (option Z)) :=
  (fun i => (fun j => Some (small (Z.of_nat i) (Z.of_nat j))) <$> seq 0 SIZE) <$> seq 0 SIZE.

Lemma small_is_mat : is_mat small_mat (fun i j => Some (small i j)).
Proof.
  split; [reflexivity|]. intros i Hi. unfold small_mat. rewrite list_lookup_fmap, lookup_seq_lt by (unfold SIZE; lia).
  cbn [fmap option_fmap option_map]. eexists. split; [reflexivity|]. split; [rewrite length_fmap; apply length_seq|].
  intros j Hj. rewrite list_lookup_fmap, lookup_seq_lt by (unfold SIZE; lia). cbn [fmap option_fmap option_map].
  rewrite !Nat.add_0_l, !Z2Nat.id by lia. reflexivity.
Qed.

Lemma small_bound i j : -463 <= small i j <= 463.
Proof. unfold small. pose proof (Z.mod_pos_bound (i + j) 7 ltac:(lia)). lia. Qed.

Lemma perform_work_product_witness :
  exists r, perform_work small_mat small_mat = Ok r /\ is_mat r (fun k j => 100 * dot small small k j 100).
Proof.
  exact (perform_work_product small small small_bound small_bound small_mat small_mat small_is_mat small_is_mat).
Defined.

(** [setpriority] for the example. *)
Definition setpriority_ref (w : World) (st : KState) (pid nice : Z) : res KState :=
  match ks_tasks st !! pid with
  | None => mret st
  | Some k => '(p, _) ← set_user_nice reweight_ref (w_place w pid) (k_task k) nice;
              mret (update st pid (ks_sys st) (with_task k p))
  end.

Lemma setpriority_ref_ok w : SetsNice reweight_ref w (setpriority_ref w).
Proof. intros st pid k n p' ev Hk _ E. unfold setpriority_ref. rewrite Hk, E. reflexivity. Qed.

Lemma sample_ready : ready sample_world sample_kernel sample_ktask.
Proof.
  split; try reflexivity; try discriminate; [exact (wf_coherent _ sample_wf) | split; reflexivity|].
  split; [reflexivity|]. split; [reflexivity | discriminate].
Qed.

Lemma child_granted_witness : exists st' k',
  child_setup (DL := no_deadline) reweight_ref (setpriority_ref sample_world) sample_world
    (mkChoice 0 "CFS_NICE" None true) 3 sample_kernel = Ok st' /\
  ks_tasks st' !! 7 = Some k' /\ task_nice (k_task k') = -20.
Proof.
  destruct (child_granted (DL := no_deadline) reweight_ref reweight_ref_ok sample_world (setpriority_ref sample_world)
    (setpriority_ref_ok sample_world) true "2" None (mkChoice 0 "CFS_NICE" None true) 3 sample_kernel sample_ktask)
    as (st' & k' & E & _ & Hl & _ & _ & _ & Hn); [reflexivity | exact sample_ready|].
  exists st', k'. split; [exact E|]. split; [exact Hl | exact Hn].
Defined.
