(* ===== verification/SchedMain.v ===== *)
(** All of src/3/assignment3.c around the parts in [SchedClient]: the formatting of times, a
    child from its first clock reading to its message, the dialogue, and [main]. *)

From Stdlib Require Import String.
From S2P Require Import Prelude CString Doubles Stdio KHeaders Priority Setscheduler SchedClient.
Local Open Scope Z_scope.

(** * Times *)

Section Times.
  (** Hours, minutes and seconds of a time in the local zone, or a null pointer. *)
  Context (localtime : Z -> option (Z * Z * Z)).

Definition format_timeval (tv : timeval) (buf : list Z) (sz : Z) : res (list Z) :=
  match localtime (tv_sec tv) with
  | None => Undef
  | Some tm_info =>
      buf ← strftime buf sz tm_info;
      len ← strlen buf;
      snprintf buf len (u64 (sz - len)) (46 :: pad6 (tv_usec tv))
  end.
End Times.

(** [elapsed_str] and the number that is read back from it. *)
Definition elapsed_text (start end_ : timeval) : list Z :=
  let '(seconds, useconds) := elapsed start end_ in render seconds ++ 46 :: pad6 useconds.

Definition elapsed_time (start end_ : timeval) (elapsed_str : list Z) : res (list Z * double) :=
  elapsed_str ← snprintf elapsed_str 0 20 (elapsed_text start end_);
  t ← strtod elapsed_str;
  mret (elapsed_str, t).

(** * What is printed *)

Definition newline : list Z := [10].

Definition enter_choice : list Z := codes "Enter scheduling choice: " ++ newline.
Definition choices : list Z :=
  codes "1. CFS_DEFAULT" ++ newline ++ codes "2. CFS_NICE" ++ newline ++ codes "3. RT_FIFO" ++ newline ++
  codes "4. RT_RR" ++ newline ++ codes "0. Exit" ++ newline.
Definition enter_slice : list Z := codes "Enter TimeSlice choice(10, 100, 1000): " ++ newline.

(** The line of a child; all three branches print the same one. *)
Definition child_line (pid current_nice : Z) (start_str end_str elapsed_str : list Z) : list Z :=
  codes "PID: " ++ render pid ++ codes " | NICE : " ++ render current_nice ++ codes " | Start time: " ++ start_str ++
  codes " | End time: " ++ end_str ++ codes " | Elapsed time: " ++ elapsed_str ++ newline.

(** The last line, for an average as ["%f"] prints it. *)
Definition report (ch : Choice) (average : list Z) : list Z :=
  codes "Scheduling Policy: " ++ codes (policy_str ch) ++
  match timeslice ch with Some ms => codes " | Time Quantum: " ++ render ms ++ codes " ms" | None => [] end ++
  codes " | Average elapsed time: " ++ average ++ newline.

(** * The dialogue *)

Section Main.
  Context `{Headers} {DL : Deadline} (reweight_task : Z -> res (Z * Z)) (w : World).
  (** [setpriority(PRIO_PROCESS, pid, nice)], and [getpriority(PRIO_PROCESS, 0)], of
      kernel/sys.c; the C library's time zone. *)
  Context (setpriority : KState -> Z -> Z -> res KState) (getpriority : KState -> Z).
  Context (localtime : Z -> option (Z * Z * Z)).

(** What was chosen, standard output and what has reached the file. *)
Definition menu (can_open : bool) (typed : list Z) (io : Stdout) : res (Choice * Stdout * list (list Z)) :=
  let '(io, o1) := printf io enter_choice in
  let '(io, o2) := printf io choices in
  '(choice, rest) ← scanf_s 50 typed;
  let choice := of_codes choice in
  if String.eqb choice "4" then
    let '(io, o3) := printf io enter_slice in
    slice ← scanf_d rest;
    ch ← choose_policy can_open choice slice;
    mret (ch, io, o1 ++ o2 ++ o3)
  else
    ch ← choose_policy can_open choice None;
    mret (ch, io, o1 ++ o2).

(** * A child *)

(** What a child finds: the kernel when it sets its policy, the clock before and after its
    work, and its uninitialised arrays. *)
Record Kid := mkKid {
  kid_kernel : KState;
  kid_start : timeval;
  kid_end : timeval;
  kid_A : list (list (option Z));
  kid_B : list (list (option Z));
  start_frame : list Z;
  end_frame : list Z;
  elapsed_frame : list Z
}.

(** What it writes to the file until it has exited, and its message. *)
Definition child (ch : Choice) (i : Z) (k : Kid) (io : Stdout) : res (list (list Z) * double) :=
  st ← child_setup reweight_task setpriority w ch i (kid_kernel k);
  _ ← perform_work (kid_A k) (kid_B k);
  start_str ← format_timeval localtime (kid_start k) (start_frame k) 20;
  end_str ← format_timeval localtime (kid_end k) (end_frame k) 20;
  '(elapsed_str, elapsed_time) ← elapsed_time (kid_start k) (kid_end k) (elapsed_frame k);
  start_str ← cstr start_str;
  end_str ← cstr end_str;
  elapsed_str ← cstr elapsed_str;
  let '(io, out) := printf io (child_line (ks_current st) (getpriority st) start_str end_str elapsed_str) in
  mret (out ++ flush io, elapsed_time).

(** * The program *)

(** The world of a run: whether the calls at the start succeed, the input, whether standard
    output is a terminal, the results of [fork] in the parent, what the children find, and
    the orders in which they write their messages and their lines. *)
Record Run := mkRun {
  pipe_ok : bool;
  affinity_ok : bool;
  can_open : bool;
  typed : list Z;
  terminal : bool;
  forks : list Z;
  kid : nat -> Kid;
  arrive : list nat;
  finish : list nat
}.

(** The turns of the loop whose [fork] gave a child. *)
Definition born (forks : list Z) : list nat :=
  omap (fun '(i, pid) => if 0 <? pid then Some i else None) (zip (seq 0 21) forks).

(** What has been written to standard output when the parent exits with status 0. *)
Definition main (r : Run) : res (list (list Z)) :=
  if negb (pipe_ok r) then Exit 1
  else if negb (affinity_ok r) then Exit 1
  else
    '(ch, io, prompts) ← menu (can_open r) (typed r) (mkStdout (terminal r) []);
    runs ← mapM (fun i => out ← child ch (Z.of_nat i) (kid r i) io; mret (i, out)) (born (forks r));
    let found (i : nat) := (list_to_map runs : gmap nat (list (list Z) * double)) !! i in
    total_elapsed_time ← collect add 21 (omap (fun i => snd <$> found i) (arrive r)) zero;
    let '(io, out) := printf io (report ch (print_f (div total_elapsed_time (of_int 21)))) in
    mret (prompts ++ concat (omap (fun i => fst <$> found i) (finish r)) ++ out ++ flush io).
End Main.
