(* ===== verification/SchedReport.v ===== *)
(** What src/3/assignment3.c prints: the elapsed times are those of the clock, and the average
    is the exact one, rounded to a microsecond, whatever the order of the children. *)

From Stdlib Require Import String Ascii.
From S2P Require Import Prelude CString Doubles Stdio KHeaders Priority Setscheduler SchedClient SchedMain.
Local Open Scope Z_scope.

(** * Averages *)

(** The sum of [l]. *)
Definition total (l : list Z) : Z := foldr Z.add 0 l.

Lemma total_perm l1 l2 : l1 ≡ₚ l2 -> total l1 = total l2.
Proof. unfold total. induction 1; cbn; lia. Qed.

(** The messages of children whose elapsed times are [us], in microseconds. *)
Definition message (us : Z) : double := ratio false us 1000000.

Definition second_limit : Z := 2 ^ 20.

Lemma total_bound l : Forall (fun us => 0 <= us < 1000000 * second_limit) l ->
  0 <= total l <= Z.of_nat (List.length l) * (1000000 * second_limit).
Proof. unfold total. induction 1 as [|u l Hu _ IH]; cbn [foldr List.length]; lia. Qed.

(** The doubles are added up with an error of less than a unit in 2^1040 of the smallest
    for each: [n] is how many there are, and 21 at most. *)
Lemma sum_messages l : Forall (fun us => 0 <= us < 1000000 * second_limit) l -> (List.length l <= 21)%nat ->
  exists v, worth (fold_left add (message <$> l) zero) v /\
    Z.abs (v * 1000000 - total l * 2 ^ 1074) <= Z.of_nat (List.length l) * (33 * 1000000 * 2 ^ 1040).
Proof.
  intros Hl. assert (2 ^ 1074 = 2 ^ 34 * 2 ^ 1040) as E1074 by (rewrite <- Z.pow_add_r by lia; reflexivity).
  induction l as [|us l IH] using rev_ind; intros Hn; [exists 0; split; [reflexivity|cbn; lia]|].
  apply Forall_app in Hl as [Hl Hus]. apply Forall_inv in Hus. unfold second_limit in Hus. rewrite length_app in *. cbn [List.length] in *.
  destruct (IH Hl ltac:(lia)) as (a & Ha & Ea). clear IH.
  destruct (ratio_spec us 1000000 20) as (b & Hb & Eb); [lia .. |].
  pose proof (total_bound l Hl) as Ht. unfold second_limit in Ht.
  change (20 + 1020) with 1040 in Eb. rewrite E1074 in *. set (W := 2 ^ 1040) in *.
  assert (0 < W) as HW by (apply Z.pow_pos_nonneg; lia).
  destruct (add_spec _ _ a b 25 Ha Hb) as (v & Hv & Ev); [| lia |].
  { change (25 + 1074) with (59 + 1040). rewrite Z.pow_add_r by lia. fold W. nia. }
  change (25 + 1020) with (5 + 1040) in Ev. rewrite Z.pow_add_r in Ev by lia. fold W in Ev.
  exists v. rewrite fmap_app, fold_left_app. split; [exact Hv|].
  assert (total (l ++ [us]) = total l + us) as -> by (unfold total; clear; induction l; cbn in *; lia).
  nia.
Qed.

(** The average that is printed: the exact one to the nearest microsecond. *)
Lemma average_exact l : Forall (fun us => 0 <= us < 1000000 * second_limit) l -> List.length l = 21%nat ->
  print_f (div (fold_left add (message <$> l) zero) (of_int 21)) = point6 false ((total l + 10) / 21).
Proof.
  intros Hl Hn. destruct (sum_messages l Hl ltac:(lia)) as (s & Hs & Es). rewrite Hn in Es.
  assert (2 ^ 1074 = 2 ^ 34 * 2 ^ 1040) as E1074 by (rewrite <- Z.pow_add_r by lia; reflexivity).
  pose proof (total_bound l Hl) as Ht. unfold second_limit in Ht. rewrite Hn in Ht.
  rewrite E1074 in Es. set (W := 2 ^ 1040) in *. assert (0 < W) as HW by (apply Z.pow_pos_nonneg; lia).
  destruct (div_int_spec _ s 21 (21 * 2 ^ 48) 48 21 Hs) as (a & Ha & Ea); [reflexivity | lia | reflexivity | | lia |].
  { change (21 + 1074) with (55 + 1040). rewrite Z.pow_add_r by lia. fold W. lia. }
  change (21 + 1020) with (1 + 1040) in Ea. rewrite Z.pow_add_r in Ea by lia. fold W in Ea.
  destruct (print_f_spec _ a Ha) as (n & -> & Hn0 & En). rewrite E1074 in En. fold W in En.
  f_equal. apply (Z.div_unique_pos _ 21 n (total l + 10 - 21 * n)); [|lia].
  assert (Z.abs (21 * n - total l) * 2 <= 21); nia.
Qed.

(** * Times *)

(** Microseconds. *)
Definition micros (t : timeval) : Z := tv_sec t * 1000000 + tv_usec t.

Definition usec_ok (t : timeval) : Prop := 0 <= tv_usec t < 1000000.

Lemma render_digits n b : 0 <= n < 10 ^ Z.of_nat (S b) -> (S b <= 19)%nat ->
  Forall is_digit (render n) /\ value (render n) = n /\ (List.length (render n) <= S b)%nat /\ render n <> [].
Proof.
  intros Hn Hb. unfold render. destruct (Z.ltb_spec n 0); [lia|].
  replace 19%nat with (S b + (18 - b))%nat by lia. rewrite digits_enough by exact Hn.
  destruct (digits_spec (S b) n []) as (ds & -> & Hd & Hv & Hl & Hne); [exact Hn|]. rewrite app_nil_r.
  split_and!; [exact Hd | exact Hv | exact Hl | apply Hne; lia].
Qed.

(** The text of a difference [d] of two times: the borrow makes the microseconds positive
    also when the seconds are negative, where they are printed behind the sign. *)
Lemma elapsed_text_spec s e : usec_ok s -> usec_ok e -> let d := micros e - micros s in Z.abs d < 1000000 * 10 ^ 10 ->
  exists whole part, elapsed_text s e = (if d <? 0 then [45] else []) ++ whole ++ 46 :: part /\
    Forall is_digit whole /\ Forall is_digit part /\ whole <> [] /\ (List.length whole <= 11)%nat /\ List.length part = 6%nat /\
    value (whole ++ part) = if d <? 0 then 2 * (d mod 1000000) - d else d.
Proof.
  intros Hs He d Hd. unfold usec_ok in *. pose proof (elapsed_correct s e Hs He) as Hel. unfold elapsed_text.
  destruct (elapsed s e) as [sec usec]. destruct Hel as [Eq Hu]. fold (micros e) in Eq. fold (micros s) in Eq. fold d in Eq.
  destruct (pad6_spec usec Hu) as (Hp & Hpv & Hpl).
  assert (exists whole, render sec = (if d <? 0 then [45] else []) ++ whole /\ Forall is_digit whole /\ value whole = Z.abs sec /\
    (List.length whole <= 11)%nat /\ whole <> []) as (whole & -> & Hw & Hwv & Hwl & Hne).
  { change (10 ^ 10) with 10000000000 in Hd. destruct (Z.ltb_spec d 0).
    - destruct (render_digits (- sec) 10) as (H1 & H2 & H3 & H4); [cbn; lia | lia|]. exists (render (- sec)).
      split; [|split_and!; [exact H1 | lia | exact H3 | exact H4]]. unfold render.
      destruct (Z.ltb_spec sec 0); [|lia]. destruct (Z.ltb_spec (- sec) 0); [lia | reflexivity].
    - destruct (render_digits sec 10) as (H1 & H2 & H3 & H4); [cbn; lia | lia|]. exists (render sec). split_and!; auto. lia. }
  exists whole, (pad6 usec). rewrite <- app_assoc. split_and!; auto.
  rewrite value_concat, Hwv, Hpv, Hpl. change (10 ^ Z.of_nat 6) with 1000000. destruct (Z.ltb_spec d 0); [|lia].
  assert (d mod 1000000 = usec) as -> by (rewrite <- Eq, Z.add_comm, Z.mod_add, Z.mod_small by lia; reflexivity). lia.
Qed.

(** The array and the number of a child. *)
Lemma elapsed_time_ok s e frame : usec_ok s -> usec_ok e -> List.length frame = 20%nat ->
  let d := micros e - micros s in Z.abs d < 1000000 * 10 ^ 10 ->
  exists elapsed_str, elapsed_time s e frame =
      Ok (elapsed_str, if d <? 0 then ratio true (2 * (d mod 1000000) - d) 1000000 else ratio false d 1000000) /\
    cstr elapsed_str = Ok (elapsed_text s e) /\ List.length elapsed_str = 20%nat.
Proof.
  intros Hs He Hf d Hd. destruct (elapsed_text_spec s e Hs He Hd) as (whole & part & E & Hw & Hp & Hne & Hwl & Hpl & Hv).
  fold d in E, Hv. unfold elapsed_time. set (r := drop (Z.to_nat 0 + List.length (elapsed_text s e) + 1) frame).
  assert (List.length (elapsed_text s e) <= 20 - 1)%nat as Hl
    by (rewrite E, !length_app; cbn [List.length]; destruct (d <? 0); cbn [List.length]; lia).
  rewrite snprintf_fits by lia. fold r. cbn [mbind res_bind]. change (take (Z.to_nat 0) frame) with (@nil Z). cbn [app].
  exists (elapsed_text s e ++ 0 :: r). split; [|split].
  - rewrite E, <- !app_assoc. cbn [app]. rewrite strtod_decimal by assumption. cbn [app mbind res_bind].
    rewrite Hv, Hpl. change (10 ^ Z.of_nat 6) with 1000000. destruct (d <? 0); reflexivity.
  - apply cstr_text. rewrite E. repeat (apply Forall_app; split);
      [destruct (d <? 0); repeat constructor; discriminate | apply digits_text; exact Hw|].
    constructor; [discriminate | apply digits_text; exact Hp].
  - rewrite length_app. cbn [List.length]. unfold r. rewrite length_drop. lia.
Qed.

(** C9: the elapsed time of a child. What is printed fits its array and is what is read back
    and sent to the parent, as the nearest double: the difference of the two clock readings when
    the second is not before the first. When the clock was set back by [- d] microseconds it is not
    [d] but [d] less twice its rest: the microseconds were made positive by the
    borrow, and the sign of the seconds then counts for them too. *)
Theorem elapsed_read_back s e frame : usec_ok s -> usec_ok e -> List.length frame = 20%nat ->
  let d := micros e - micros s in Z.abs d < 1000000 * 10 ^ 10 ->
  exists elapsed_str, elapsed_time s e frame =
      Ok (elapsed_str, if d <? 0 then ratio true (2 * (d mod 1000000) - d) 1000000 else ratio false d 1000000) /\
    cstr elapsed_str = Ok (elapsed_text s e) /\ List.length elapsed_str = 20%nat.
Proof. exact (elapsed_time_ok s e frame). Qed.

Section Times.
  (** [localtime] as documented: a time of day, where a leap second is the 61st. *)
  Context (localtime : Z -> option (Z * Z * Z)).
Definition LocalTime : Prop := forall t, exists h m s, localtime t = Some (h, m, s) /\ 0 <= h < 24 /\ 0 <= m < 60 /\ 0 <= s <= 60.
Hypothesis local_time : LocalTime.

(** The text of a clock reading. *)
Definition time_text (tv : timeval) : list Z :=
  match localtime (tv_sec tv) with Some tm => clock tm ++ 46 :: pad6 (tv_usec tv) | None => [] end.

(** It has fifteen characters, which fit. *)
Lemma format_timeval_ok tv frame : usec_ok tv -> List.length frame = 20%nat ->
  exists buf, format_timeval localtime tv frame 20 = Ok buf /\ cstr buf = Ok (time_text tv) /\ List.length buf = 20%nat.
Proof.
  intros Hu Hf. destruct (pad6_spec _ Hu) as (Hp & _ & Hpl). unfold format_timeval, time_text.
  destruct (local_time (tv_sec tv)) as (h & m & s & -> & Hh & Hm & Hs). unfold strftime. cbn [Z.ltb Z.compare].
  change (8 <? 20) with true. cbv iota. set (t := clock (h, m, s)).
  assert (text t /\ List.length t = 8%nat) as [Ht Htl].
  { split; [|reflexivity]. repeat constructor; cbn; pose proof (Z.div_pos h 10); pose proof (Z.div_pos m 10); pose proof (Z.div_pos s 10);
      pose proof (Z.mod_pos_bound h 10); pose proof (Z.mod_pos_bound m 10); pose proof (Z.mod_pos_bound s 10); lia. }
  rewrite snprintf_fits by lia. cbn [mbind res_bind]. change (take (Z.to_nat 0) frame) with (@nil Z). cbn [app].
  set (r := drop _ frame). assert (List.length r = 11%nat) as Hr by (unfold r; rewrite length_drop; lia).
  rewrite strlen_text by exact Ht. cbn [mbind res_bind]. rewrite Htl. change (u64 (20 - Z.of_nat 8)) with 12.
  rewrite snprintf_fits by (cbn [List.length]; rewrite ?length_app; cbn [List.length]; lia).
  change (Z.to_nat (Z.of_nat 8)) with 8%nat. rewrite <- Htl, take_app_length. eexists. split; [reflexivity|]. split.
  - rewrite app_assoc. apply cstr_text. apply Forall_app. split; [exact Ht|]. constructor; [discriminate | apply digits_text; exact Hp].
  - cbn [List.length app]. repeat (rewrite length_app; cbn [List.length]). rewrite length_drop, length_app. cbn [List.length]. lia.
Qed.
End Times.

(** * Output *)

(** What a process writes that prints a line and exits. *)
Definition printed (io : Stdout) (line : list Z) : list (list Z) := let '(io, out) := printf io line in out ++ flush io.

(** What the program has said before it creates its children. *)
Definition said (ch : Choice) : list Z :=
  enter_choice ++ choices ++ match timeslice ch with Some _ => enter_slice | None => [] end.

(** Standard output after that. *)
Definition after_menu (tty : bool) (ch : Choice) : Stdout := mkStdout tty (if tty then [] else said ch).

Lemma printed_line tty ch line : line <> [] -> concat (printed (after_menu tty ch) line) = (if tty then [] else said ch) ++ line.
Proof.
  intros Hl. unfold printed, printf, after_menu, flush. destruct tty; cbn [line_buffered pending app concat].
  - rewrite !app_nil_r. reflexivity.
  - destruct (said ch ++ line) eqn:E; [apply app_eq_nil in E as [_ E]; contradiction|]. cbn [concat]. apply app_nil_r.
Qed.

Section Choices.
  Context `{Headers}.

Lemma timeslice_none can_open choice ch : String.eqb choice "4" = false -> choose_policy can_open choice None = Ok ch -> timeslice ch = None.
Proof.
  intros Hc. unfold choose_policy. rewrite Hc.
  repeat match goal with |- context [String.eqb choice ?x] => destruct (String.eqb choice x) end; intros [= <-]; reflexivity.
Qed.

Lemma timeslice_some can_open choice slice ch : String.eqb choice "4" = true -> choose_policy can_open choice slice = Ok ch ->
  exists ms, slice = Some ms /\ timeslice ch = Some ms.
Proof.
  intros Hc. apply String.eqb_eq in Hc as ->. unfold choose_policy, set_RT_RR_timeslice. cbn [String.eqb Ascii.eqb Bool.eqb].
  change (String.eqb "4" "4") with true. destruct slice as [ms|]; [|discriminate]. destruct (_ || _); [|discriminate].
  destruct can_open; [|discriminate]. intros [= <-]. eauto.
Qed.

(** A dialogue that ends with a choice has made it from the menu. *)
Lemma menu_ok can_open typed tty ch io out : menu can_open typed (mkStdout tty []) = Ok (ch, io, out) ->
  (exists choice slice, choose_policy can_open choice slice = Ok ch) /\ io = after_menu tty ch /\
  concat out = if tty then said ch else [].
Proof.
  unfold menu. intros E. assert (exists i o1 o2, printf (mkStdout tty []) enter_choice = (i, o1) /\ printf i choices = (mkStdout tty
    (if tty then [] else enter_choice ++ choices), o2) /\ concat (o1 ++ o2) = if tty then enter_choice ++ choices else []) as (i & o1 & o2 & E1 & E2 & Eo).
  { destruct tty; do 3 eexists; split_and!; reflexivity. }
  rewrite E1, E2 in E. cbv beta iota zeta in E. apply bind_ok_inv in E as ([choice rest] & _ & E).
  destruct (String.eqb (of_codes choice) "4") eqn:Hc.
  - assert (exists o3, printf (mkStdout tty (if tty then [] else enter_choice ++ choices)) enter_slice =
      (mkStdout tty (if tty then [] else enter_choice ++ choices ++ enter_slice), o3) /\ concat o3 = if tty then enter_slice else []) as (o3 & E3 & Eo3)
      by (destruct tty; eexists; split; reflexivity).
    rewrite E3 in E. cbv beta iota in E. apply bind_ok_inv in E as (slice & _ & E). apply bind_ok_inv in E as (ch' & Ech & [= <- <- <-]).
    destruct (timeslice_some _ _ _ _ Hc Ech) as (ms & _ & Ems). unfold after_menu, said. rewrite Ems.
    split; [eauto|]. split; [reflexivity|]. rewrite app_assoc, concat_app, Eo, Eo3. destruct tty; [rewrite <- app_assoc|]; reflexivity.
  - apply bind_ok_inv in E as (ch' & Ech & [= <- <- <-]). pose proof (timeslice_none _ _ _ Hc Ech) as Et.
    unfold after_menu, said. rewrite Et, app_nil_r. split; [eauto|]. split; [reflexivity | exact Eo].
Qed.

(** Which inputs lead where: blanks and a word. A word of fifty characters or more is written past the
    array; another word than the four of the menu ends the program. *)
Lemma menu_word can_open blanks word rest io : Forall (fun c => isspace c = true) blanks ->
  Forall (fun c => isspace c = false /\ c <> 0) word -> word <> [] -> (forall c r, rest = c :: r -> isspace c = true) ->
  scanf_s 50 (blanks ++ word ++ rest) = (if Z.of_nat (List.length word) <? 50 then Ok (word, rest) else Undef) /\
  (50 <= Z.of_nat (List.length word) -> menu can_open (blanks ++ word ++ rest) io = Undef).
Proof.
  intros Hb Hw Hne Hr.
  assert (scanf_s 50 (blanks ++ word ++ rest) = (if Z.of_nat (List.length word) <? 50 then Ok (word, rest) else Undef)) as E.
  { unfold scanf_s. rewrite (span_split isspace blanks (word ++ rest)) by
      (exact Hb || (intros c r; destruct word as [|x l]; [contradiction|]; intros [= <- _]; exact (proj1 (Forall_inv Hw)))).
    cbn [snd]. rewrite (span_split _ word rest).
    2: { eapply Forall_impl; [exact Hw|]. intros c [-> _]. reflexivity. }
    2: { intros c r Er. rewrite (Hr c r Er). reflexivity. }
    destruct word as [|x l]; [contradiction|]. destruct (_ <? 50); [|reflexivity].
    rewrite cstr_text; [reflexivity|]. eapply Forall_impl; [exact Hw|]. intros c [_ Hc]. exact Hc. }
  split; [exact E|]. intros Hl. unfold menu. destruct (printf io enter_choice) as [i o1]. destruct (printf i choices) as [i' o2].
  rewrite E. destruct (Z.ltb_spec (Z.of_nat (List.length word)) 50); [lia | reflexivity].
Qed.
End Choices.

(** * Runs *)

Lemma mapM_ok {A B} (f : A -> res B) (g : A -> B) (l : list A) : (forall x, x ∈ l -> f x = Ok (g x)) -> mapM f l = Ok (g <$> l).
Proof.
  induction l as [|x l IH]; intros Hf; [reflexivity|]. unfold mapM in *. cbn [foldr]. rewrite Hf by left.
  cbn [mbind res_bind]. rewrite IH by (intros; apply Hf; right; assumption). reflexivity.
Qed.

Lemma omap_all {A B} (f : A -> option B) (g : A -> B) (l : list A) : (forall x, x ∈ l -> f x = Some (g x)) -> omap f l = g <$> l.
Proof.
  induction l as [|x l IH]; intros Hf; [reflexivity|]. cbn. rewrite Hf by left. f_equal. apply IH. intros; apply Hf; right; assumption.
Qed.

Lemma born_all forks : List.length forks = 21%nat -> Forall (fun pid => 0 < pid) forks -> born forks = seq 0 21.
Proof.
  intros Hl Hf. unfold born. rewrite <- Hl. clear Hl. generalize 0%nat. induction Hf as [|pid forks Hp _ IH]; intros n; [reflexivity|].
  cbn. destruct (Z.ltb_spec 0 pid); [|lia]. f_equal. apply IH.
Qed.

(** One undefined result is enough. *)
Lemma mapM_undef {A B} (f : A -> res B) (l : list A) : (forall x, x ∈ l -> (exists y, f x = Ok y) \/ f x = Undef) ->
  (exists x, x ∈ l /\ f x = Undef) -> mapM f l = Undef.
Proof.
  induction l as [|x l IH]; intros Hf (z & Hz & Ez); [inversion Hz|]. unfold mapM in *. cbn [foldr].
  destruct (Hf x ltac:(left)) as [[y E]|E]; rewrite E; cbn [mbind res_bind]; [|reflexivity].
  rewrite IH; [reflexivity | intros; apply Hf; right; assumption|].
  apply elem_of_cons in Hz as [->|Hz]; [congruence | eauto].
Qed.

Lemma born_length forks : List.length forks = 21%nat -> List.length (born forks) = List.length (filter (fun pid => 0 < pid) forks).
Proof.
  intros Hl. unfold born. rewrite <- Hl. clear Hl. generalize 0%nat. induction forks as [|pid forks IH]; intros n; [reflexivity|].
  rewrite filter_cons. cbn. destruct (Z.ltb_spec 0 pid); [rewrite decide_True by assumption | rewrite decide_False by lia]; cbn; rewrite IH; reflexivity.
Qed.

Lemma born_short forks : List.length forks = 21%nat -> ~ Forall (fun pid => 0 < pid) forks -> (List.length (born forks) < 21)%nat.
Proof.
  intros Hl Hn. rewrite born_length, <- Hl by exact Hl.
  apply not_Forall_Exists in Hn; [|apply _]. apply Exists_exists in Hn as (pid & Hin & Hp).
  exact (length_filter_lt _ _ _ Hin Hp).
Qed.

Section Report.
  Context `{HeadersOk} {DL : Deadline} (reweight_task : Z -> res (Z * Z)).
  Hypothesis reweights : Reweights reweight_task.
  Context (w : World) (setpriority : KState -> Z -> Z -> res KState) (getpriority : KState -> Z).
  Hypothesis sets_nice : SetsNice reweight_task w setpriority.

(** [getpriority] as documented, of the calling process. *)
Definition GetsNice : Prop := forall st k, ks_tasks st !! ks_current st = Some k -> getpriority st = task_nice (k_task k).

  Hypothesis gets_nice : GetsNice.
  Context (localtime : Z -> option (Z * Z * Z)).
  Hypothesis local_time : LocalTime localtime.

(** A child, of any kind this kernel makes, whose parent is privileged and whose clock is
    not set back while it runs. *)
Record furnished (k : Kid) : Prop := {
  fu_ready : exists t, ready w (kid_kernel k) t;
  fu_start : usec_ok (kid_start k);
  fu_end : usec_ok (kid_end k);
  fu_elapsed : 0 <= micros (kid_end k) - micros (kid_start k) < 1000000 * second_limit;
  fu_frames : List.length (start_frame k) = 20%nat /\ List.length (end_frame k) = 20%nat /\ List.length (elapsed_frame k) = 20%nat
}.

(** Its matrices: as the program leaves them, without a value, or with numbers that happen
    to be there and do not overflow. *)
Definition unassigned (k : Kid) : Prop := kid_A k = indeterminate /\ kid_B k = indeterminate.

Definition numbered (k : Kid) : Prop := exists fa fb,
  (forall i j, -463 <= fa i j <= 463) /\ (forall i j, -463 <= fb i j <= 463) /\
  is_mat (kid_A k) (fun i j => Some (fa i j)) /\ is_mat (kid_B k) (fun i j => Some (fb i j)).

Definition elapsed_us (k : Kid) : Z := micros (kid_end k) - micros (kid_start k).

(** The nice value of the [i]-th child at its end. *)
Definition nice_of (ch : Choice) (i : Z) (k : Kid) : Z :=
  if ch_nice ch then if i <? 7 then -20 else if i <? 14 then 0 else 19
  else match ks_tasks (kid_kernel k) !! ks_current (kid_kernel k) with Some t => task_nice (k_task t) | None => 0 end.

Definition kid_line (ch : Choice) (i : Z) (k : Kid) : list Z :=
  child_line (ks_current (kid_kernel k)) (nice_of ch i k) (time_text localtime (kid_start k)) (time_text localtime (kid_end k))
    (elapsed_text (kid_start k) (kid_end k)).

(** A child prints its line and sends its elapsed time. *)
Lemma child_correct can_open choice slice ch i k io : choose_policy can_open choice slice = Ok ch -> furnished k -> numbered k ->
  child reweight_task w setpriority getpriority localtime ch i k io = Ok (printed io (kid_line ch i k), message (elapsed_us k)).
Proof.
  intros Hch [[t Hr] Hs He Hd (F1 & F2 & F3)] (fa & fb & Ba & Bb & HA & HB). unfold child.
  destruct (child_granted reweight_task reweights w setpriority sets_nice can_open choice slice ch i _ t Hch Hr)
    as (st & k' & -> & Hcur & Hk & _ & _ & _ & Hn). cbn [mbind res_bind].
  destruct (perform_work_product fa fb Ba Bb _ _ HA HB) as (m & -> & _). cbn [mbind res_bind].
  destruct (format_timeval_ok localtime local_time _ _ Hs F1) as (b1 & -> & C1 & _). cbn [mbind res_bind].
  destruct (format_timeval_ok localtime local_time _ _ He F2) as (b2 & -> & C2 & _). cbn [mbind res_bind].
  assert (Z.abs (micros (kid_end k) - micros (kid_start k)) < 1000000 * 10 ^ 10) as Hd'
    by (unfold second_limit in Hd; change (2 ^ 20) with 1048576 in Hd; change (10 ^ 10) with 10000000000; lia).
  destruct (elapsed_time_ok _ _ _ Hs He F3 Hd') as (b3 & -> & C3 & _). cbn [mbind res_bind].
  rewrite C1, C2, C3. cbn [mbind res_bind]. rewrite <- Hcur in Hk. rewrite (gets_nice _ _ Hk), Hcur, Hn.
  destruct (Z.ltb_spec (micros (kid_end k) - micros (kid_start k)) 0); [lia|].
  replace (if ch_nice ch then _ else task_nice (k_task t)) with (nice_of ch i k)
    by (unfold nice_of; rewrite (rd_find _ _ _ Hr); reflexivity).
  unfold printed. fold (kid_line ch i k). destruct (printf io (kid_line ch i k)) as [io' out]. reflexivity.
Qed.

(** Without a value in its matrices it reads one. *)
Lemma child_undefined can_open choice slice ch i k io : choose_policy can_open choice slice = Ok ch -> furnished k -> unassigned k ->
  child reweight_task w setpriority getpriority localtime ch i k io = Undef.
Proof.
  intros Hch [[t Hr] _ _ _ _] [EA EB]. unfold child.
  destruct (child_granted reweight_task reweights w setpriority sets_nice can_open choice slice ch i _ t Hch Hr) as (st & k' & -> & _).
  cbn [mbind res_bind]. rewrite EA, EB, perform_work_indeterminate. reflexivity.
Qed.

(** What the parent adds up: the messages of the children that were created, in their order
    of arrival, and a variable without a value when there are fewer than 21. *)
Lemma main_collects r ch io out can_open choice slice : pipe_ok r = true -> affinity_ok r = true ->
  menu (SchedMain.can_open r) (typed r) (mkStdout (terminal r) []) = Ok (ch, io, out) -> choose_policy can_open choice slice = Ok ch ->
  (forall i, i ∈ born (forks r) -> furnished (kid r i) /\ numbered (kid r i)) -> NoDup (born (forks r)) ->
  arrive r ≡ₚ born (forks r) -> finish r ≡ₚ born (forks r) ->
  main reweight_task w setpriority getpriority localtime r =
    (total_elapsed_time ← collect add 21 (message <$> ((fun i => elapsed_us (kid r i)) <$> arrive r)) zero;
     let '(io, last) := printf (after_menu (terminal r) ch) (report ch (print_f (div total_elapsed_time (of_int 21)))) in
     mret (out ++ concat ((fun i => printed (after_menu (terminal r) ch) (kid_line ch (Z.of_nat i) (kid r i))) <$> finish r) ++ last ++ flush io)).
Proof.
  intros Hp Ha Hm Hch Hs Hnd Harr Hfin. destruct (menu_ok _ _ _ _ _ _ Hm) as (_ & -> & _).
  set (io := after_menu (terminal r) ch) in *. unfold main. rewrite Hp, Ha, Hm. cbn [negb mbind res_bind].
  set (g := fun i : nat => (printed io (kid_line ch (Z.of_nat i) (kid r i)), message (elapsed_us (kid r i)))).
  rewrite (mapM_ok _ (fun i => (i, g i))).
  2: { intros i Hi. destruct (Hs i Hi). rewrite (child_correct _ _ _ _ _ _ _ Hch) by assumption. reflexivity. }
  cbn [mbind res_bind].
  assert (forall i, i ∈ born (forks r) -> (list_to_map ((fun i => (i, g i)) <$> born (forks r)) : gmap nat _) !! i = Some (g i)) as Hfound.
  { intros i Hi. apply elem_of_list_to_map_1; [|apply list_elem_of_fmap; eauto].
    rewrite <- list_fmap_compose. change (NoDup (id <$> born (forks r))). rewrite list_fmap_id. exact Hnd. }
  rewrite (omap_all _ (fun i => message (elapsed_us (kid r i)))) by (intros i Hi; rewrite Hfound by (rewrite <- Harr; exact Hi); reflexivity).
  rewrite (omap_all _ (fun i => printed io (kid_line ch (Z.of_nat i) (kid r i)))) by (intros i Hi; rewrite Hfound by (rewrite <- Hfin; exact Hi); reflexivity).
  rewrite (list_fmap_compose (fun i => elapsed_us (kid r i)) message). reflexivity.
Qed.

Lemma born_nodup l : NoDup (born l).
Proof.
  unfold born. generalize 0%nat, 21%nat. intros n m. revert n l.
  assert (forall m n l i, i ∈ omap (fun '(i, pid) => if 0 <? pid then Some i else None) (zip (seq n m) l) -> (n <= i)%nat) as Hlow.
  { clear. induction m as [|m IH]; intros n [|pid l] i Hi; try (cbn in Hi; inversion Hi; fail). cbn in Hi.
    destruct (0 <? pid); [apply elem_of_cons in Hi as [->|Hi]; [lia|]|]; apply IH in Hi; lia. }
  induction m as [|m IH]; intros n [|pid l]; try (cbn; constructor). cbn. destruct (0 <? pid); [|apply IH].
  constructor; [|apply IH]. intros Hi. apply Hlow in Hi. lia.
Qed.

(** The average and the output of a whole run. *)
Lemma report_whole r ch out : concat out = (if terminal r then said ch else []) -> arrive r ≡ₚ seq 0 21 ->
  (forall i, i ∈ seq 0 21 -> 0 <= elapsed_us (kid r i) < 1000000 * second_limit) ->
  let line (i : nat) := kid_line ch (Z.of_nat i) (kid r i) in
  let last := report ch (point6 false ((total ((fun i => elapsed_us (kid r i)) <$> seq 0 21) + 10) / 21)) in
  exists chunks,
    (total_elapsed_time ← collect add 21 (message <$> ((fun i => elapsed_us (kid r i)) <$> arrive r)) zero;
     let '(io, last) := printf (after_menu (terminal r) ch) (report ch (print_f (div total_elapsed_time (of_int 21)))) in
     mret (out ++ concat ((fun i => printed (after_menu (terminal r) ch) (line i)) <$> finish r) ++ last ++ flush io)) = Ok chunks /\
    concat chunks = if terminal r then said ch ++ concat (line <$> finish r) ++ last
                    else concat ((fun i => said ch ++ line i) <$> finish r) ++ said ch ++ last.
Proof.
  intros Hout Harr Hel line last. assert (List.length (arrive r) = 21%nat) as Hla by (rewrite Harr; reflexivity).
  rewrite collect_all, !length_fmap, Hla. cbn [Nat.leb]. rewrite take_ge by (rewrite !length_fmap; lia). cbn [mbind res_bind].
  rewrite average_exact.
  2: { apply Forall_fmap, Forall_forall. intros i Hi. rewrite Harr in Hi. exact (Hel i Hi). }
  2: { rewrite length_fmap. exact Hla. }
  rewrite (total_perm _ _ (fmap_Permutation _ _ _ Harr)). fold last. set (io := after_menu (terminal r) ch).
  destruct (printf io last) as [io' o] eqn:E. eexists. split; [reflexivity|].
  assert (concat (o ++ flush io') = (if terminal r then [] else said ch) ++ last) as Hlast.
  { pose proof (printed_line (terminal r) ch last) as Hpl. fold io in Hpl. unfold printed in Hpl. rewrite E in Hpl. apply Hpl. discriminate. }
  rewrite !concat_app, Hout, <- concat_app, Hlast.
  assert (forall l, concat (concat ((fun i => printed io (line i)) <$> l)) = concat ((fun i => (if terminal r then [] else said ch) ++ line i) <$> l)) as Hcc.
  { induction l as [|i l IH]; [reflexivity|]. cbn [fmap list_fmap concat]. rewrite concat_app. rewrite IH.
    f_equal. apply printed_line. discriminate. }
  rewrite Hcc. destruct (terminal r); reflexivity.
Qed.

(** C8: what a run prints after a choice of the menu was made and the calls before it succeeded, on
    this kernel (every child is [SCHED_FIFO] when it starts) or another, with a privileged user and a clock that is
    not set back (nor runs on for 2^20 seconds). The matrices are never assigned: a run in which a created child finds
    no value in them is undefined, and so is one in which a [fork] fails, for the parent then reads a variable that was never
    assigned. When all 21 children are created and find numbers of at most 463 there, the program ends normally, and its
    output is the questions, a line for each child with its
    pid, its nice value, the two times and the time elapsed, in the order in which the children finish, and the
    report. The average in it is the exact average of the elapsed times, rounded to the
    nearest microsecond, in whatever order the messages arrive and are added up as
    doubles. When the output is not a terminal the questions are still in the buffer that
    every child inherits, and are printed 22 times. *)
Theorem main_reports r ch io out : pipe_ok r = true -> affinity_ok r = true ->
  menu (can_open r) (typed r) (mkStdout (terminal r) []) = Ok (ch, io, out) ->
  List.length (forks r) = 21%nat ->
  (forall i, i ∈ born (forks r) -> furnished (kid r i) /\ (numbered (kid r i) \/ unassigned (kid r i))) ->
  arrive r ≡ₚ born (forks r) -> finish r ≡ₚ born (forks r) ->
  let result := main reweight_task w setpriority getpriority localtime r in
  (~ Forall (fun pid => 0 < pid) (forks r) \/ (exists i, i ∈ born (forks r) /\ unassigned (kid r i)) -> result = Undef) /\
  (Forall (fun pid => 0 < pid) (forks r) -> (forall i, (i < 21)%nat -> numbered (kid r i)) ->
   let line (i : nat) := kid_line ch (Z.of_nat i) (kid r i) in
   let average := (total ((fun i => elapsed_us (kid r i)) <$> seq 0 21) + 10) / 21 in
   let last := report ch (point6 false average) in
   exists chunks, result = Ok chunks /\
     concat chunks = if terminal r then said ch ++ concat (line <$> finish r) ++ last
                     else concat ((fun i => said ch ++ line i) <$> finish r) ++ said ch ++ last).
Proof.
  intros Hp Ha Hm Hlf Hs Harr Hfin result. destruct (menu_ok _ _ _ _ _ _ Hm) as ((choice & slice & Hch) & -> & Hout).
  assert ((exists i, i ∈ born (forks r) /\ unassigned (kid r i)) -> result = Undef) as Hbare.
  { intros (i & Hi & Hu). unfold result, main. rewrite Hp, Ha, Hm. cbn [negb mbind res_bind]. rewrite mapM_undef; [reflexivity| |].
    - intros j Hj. destruct (Hs j Hj) as [Hf [Hn|Hn]].
      + left. rewrite (child_correct _ _ _ _ _ _ _ Hch Hf Hn). eexists. reflexivity.
      + right. rewrite (child_undefined _ _ _ _ _ _ _ Hch Hf Hn). reflexivity.
    - exists i. split; [exact Hi|]. rewrite (child_undefined _ _ _ _ _ _ _ Hch (proj1 (Hs i Hi)) Hu). reflexivity. }
  split; [intros [Hfail|Hu]; [|exact (Hbare Hu)]|].
  - destruct (decide (Exists (fun i => kid_A (kid r i) = indeterminate /\ kid_B (kid r i) = indeterminate) (born (forks r)))) as [Hex|Hex].
    { apply Hbare. apply Exists_exists in Hex. exact Hex. }
    unfold result. rewrite (main_collects r _ _ _ _ _ _ Hp Ha Hm Hch).
    + rewrite collect_all, !length_fmap, Harr. pose proof (born_short _ Hlf Hfail).
      destruct (Nat.leb_spec 21 (List.length (born (forks r)))); [lia | reflexivity].
    + intros i Hi. destruct (Hs i Hi) as [Hf [Hn|Hn]]; [auto|]. destruct Hex. apply Exists_exists. eauto.
    + apply born_nodup.
    + exact Harr.
    + exact Hfin.
  - intros Hf Hnum line average last. pose proof (born_all _ Hlf Hf) as Hborn. unfold result.
    rewrite (main_collects r _ _ _ _ _ _ Hp Ha Hm Hch).
    2: { intros i Hi. split; [exact (proj1 (Hs i Hi))|]. apply Hnum. rewrite Hborn in Hi. apply elem_of_seq in Hi. lia. }
    2: apply born_nodup. 2: exact Harr. 2: exact Hfin.
    rewrite Hborn in Harr, Hfin, Hs. exact (report_whole r ch out Hout Harr (fun i Hi => fu_elapsed _ (proj1 (Hs i Hi)))).
Qed.
End Report.

(** * The dialogue *)

Lemma codes_of_codes l : Forall (fun c => 0 <= c < 256) l -> codes (of_codes l) = l.
Proof.
  intros Hl. unfold codes, of_codes. rewrite list_ascii_of_string_of_list_ascii, <- list_fmap_compose.
  induction Hl as [|c l Hc _ IH]; [reflexivity|]. cbn [fmap list_fmap]. rewrite IH. f_equal. cbn [compose].
  rewrite N_ascii_embedding by lia. lia.
Qed.

(** A character of a word that is typed. *)
Definition word_char (c : Z) : Prop := 0 < c < 256 /\ isspace c = false.

Lemma of_codes_eqb word s : Forall word_char word -> String.eqb (of_codes word) s = bool_decide (word = codes s).
Proof.
  intros Hw. assert (codes (of_codes word) = word) as E
    by (apply codes_of_codes; eapply Forall_impl; [exact Hw|]; intros c [Hc _]; lia).
  destruct (String.eqb_spec (of_codes word) s) as [<-|Hne].
  - rewrite E, bool_decide_true by reflexivity. reflexivity.
  - rewrite bool_decide_false; [reflexivity|]. intros ->. apply Hne. unfold of_codes, codes.
    rewrite <- list_fmap_compose. rewrite <- (string_of_list_ascii_of_string s) at 2. f_equal.
    induction (list_ascii_of_string s) as [|a l IH]; [reflexivity|]. cbn [fmap list_fmap compose]. f_equal; [|exact IH].
    rewrite N2Z.id. apply ascii_N_embedding.
Qed.

Section Reads.
  Context `{HeadersOk}.

(** C10: the dialogue, for every input that starts with a word. A word of 50 characters or
    more is written past its array. A shorter one that is not on the menu ends the program with
    status 1. The first three choices need nothing else; the fourth takes
    one of three numbers and ends the program with status 1 for any other, or when the
    file of the time slice cannot be opened, and when no number follows compares a
    variable that was never assigned. *)
Theorem menu_reads can_open blanks word rest io : Forall (fun c => isspace c = true) blanks ->
  Forall word_char word -> word <> [] -> (forall c r, rest = c :: r -> isspace c = true) ->
  let run := menu can_open (blanks ++ word ++ rest) io in
  let chosen ch := exists io' out, run = Ok (ch, io', out) in
  if 50 <=? Z.of_nat (List.length word) then run = Undef
  else
    (word ∉ codes <$> ["1"; "2"; "3"; "4"]%string -> run = Exit 1) /\
    (word = codes "1" -> chosen (mkChoice SCHED_NORMAL "CFS_DEFAULT" None false)) /\
    (word = codes "2" -> chosen (mkChoice SCHED_NORMAL "CFS_NICE" None true)) /\
    (word = codes "3" -> chosen (mkChoice SCHED_FIFO "RT_FIFO" None false)) /\
    (word = codes "4" ->
       (scanf_d rest = Ok None -> run = Undef) /\
       (forall ms, scanf_d rest = Ok (Some ms) ->
          if bool_decide (ms ∈ [10; 100; 1000]) && can_open then chosen (mkChoice SCHED_RR "RT_RR" (Some ms) false) else run = Exit 1)).
Proof.
  intros Hb Hw Hne Hr run chosen.
  destruct (menu_word can_open blanks word rest io Hb) as [Hscan Hbig];
    [eapply Forall_impl; [exact Hw|]; intros c [Hc Hs]; split; [exact Hs | lia] | exact Hne | exact Hr|].
  destruct (Z.leb_spec 50 (Z.of_nat (List.length word))) as [Hl|Hl]; [exact (Hbig Hl)|].
  rewrite (proj2 (Z.ltb_lt _ _) Hl) in Hscan. clear Hbig.
  unfold chosen, run, menu. destruct (printf io enter_choice) as [i1 o1]. destruct (printf i1 choices) as [i2 o2].
  rewrite Hscan. cbn [mbind res_bind]. destruct (printf i2 enter_slice) as [i3 o3].
  unfold choose_policy, set_RT_RR_timeslice. rewrite !of_codes_eqb by exact Hw. split_and!.
  - intros Hn. cbn [fmap list_fmap] in Hn. rewrite !not_elem_of_cons in Hn. destruct Hn as (N1 & N2 & N3 & N4 & _).
    rewrite !bool_decide_false by assumption. reflexivity.
  - intros ->. eauto.
  - intros ->. eauto.
  - intros ->. eauto.
  - intros ->. rewrite bool_decide_true by reflexivity. split; [intros ->; reflexivity|]. intros ms ->. cbn [mbind res_bind].
    change (bool_decide (codes "4" = codes "1")) with false. change (bool_decide (codes "4" = codes "2")) with false.
    change (bool_decide (codes "4" = codes "3")) with false. cbv iota.
    assert (bool_decide (ms ∈ [10; 100; 1000]) = (ms =? 10) || (ms =? 100) || (ms =? 1000)) as ->.
    { apply eq_true_iff_eq. rewrite bool_decide_eq_true, !orb_true_iff, !Z.eqb_eq, !elem_of_cons, elem_of_nil. tauto. }
    destruct (_ || _ || _); [destruct can_open|]; cbn [andb negb mbind res_bind]; eauto.
Qed.
End Reads.

(** * Examples *)

(** Universal time. *)
Definition gmtime (t : Z) : option (Z * Z * Z) := Some (t mod 86400 / 3600, t mod 3600 / 60, t mod 60).

Lemma gmtime_ok : LocalTime gmtime.
Proof.
  intros t. do 3 eexists. split; [reflexivity|].
  pose proof (Z.mod_pos_bound t 86400). pose proof (Z.mod_pos_bound t 3600). pose proof (Z.mod_pos_bound t 60).
  split_and!; try (apply Z.div_pos; lia); try (apply Z.div_lt_upper_bound; lia); lia.
Qed.

Definition getpriority_ref (st : KState) : Z :=
  match ks_tasks st !! ks_current st with Some k => task_nice (k_task k) | None => 0 end.

Lemma getpriority_ref_ok : GetsNice getpriority_ref.
Proof. intros st k Hk. unfold getpriority_ref. rewrite Hk. reflexivity. Qed.

(** A child as the modified [sched_fork] makes it from a task of the default policy. *)
Definition child_ktask : KTask :=
  mkKTask (with_class (with_rt (with_prio (with_policy Priority.sample_task 1) 90) 99) rt_sched_class) (k_clamps sample_ktask) 0 0.

Definition child_kernel : KState := mkKState {[7 := child_ktask]} 7 (ks_sys sample_kernel).

Lemma child_coherent : coherent (k_task child_ktask).
Proof. split; [cbn; lia|]. split_and!; try reflexivity; try (cbn; lia); discriminate. Qed.

(** The [i]-th child runs for [i] seconds and three tenths, and every second one for a
    microsecond more. *)
Definition sample_kid (i : nat) : Kid :=
  mkKid child_kernel (mkTimeval 50399 900000) (mkTimeval (50400 + Z.of_nat i) (200000 + Z.of_nat i mod 2)) small_mat small_mat
    (replicate 20 7) (replicate 20 7) (replicate 20 7).

Lemma child_ready : ready sample_world child_kernel child_ktask.
Proof.
  split; try reflexivity; try discriminate; [exact child_coherent | split; reflexivity|].
  split; [reflexivity|]. split; [reflexivity | discriminate].
Qed.

Lemma sample_furnished i : (i < 21)%nat -> furnished sample_world (sample_kid i) /\ numbered (sample_kid i).
Proof.
  intros Hi. pose proof (Z.mod_pos_bound (Z.of_nat i) 2 ltac:(lia)). split; [split; [exists child_ktask; exact child_ready | | | |]|].
  - unfold usec_ok. cbn. lia.
  - unfold usec_ok. cbn [sample_kid kid_end tv_usec]. lia.
  - unfold micros, second_limit. cbn [sample_kid kid_start kid_end tv_sec tv_usec]. lia.
  - auto.
  - exists small, small. split; [exact small_bound|]. split; [exact small_bound|]. split; exact small_is_mat.
Qed.

Definition sample_run : Run :=
  mkRun true true true (codes " 2" ++ newline) false (replicate 21 7) sample_kid (rev (seq 0 21)) (seq 0 21).

(** The same children without a value in their matrices. *)
Definition bare_kid (i : nat) : Kid :=
  mkKid child_kernel (mkTimeval 50399 900000) (mkTimeval (50400 + Z.of_nat i) (200000 + Z.of_nat i mod 2)) indeterminate indeterminate
    (replicate 20 7) (replicate 20 7) (replicate 20 7).

Lemma bare_furnished i : (i < 21)%nat -> furnished sample_world (bare_kid i).
Proof. intros Hi. destruct (sample_furnished i Hi) as [[H1 H2 H3 H4 H5] _]. split; assumption. Qed.

Definition bare_run : Run :=
  mkRun true true true (codes " 2" ++ newline) false (replicate 21 7) bare_kid (rev (seq 0 21)) (seq 0 21).

Lemma main_reports_witness : (exists chunks out,
  main (DL := no_deadline) reweight_ref sample_world (setpriority_ref sample_world) getpriority_ref gmtime sample_run = Ok chunks /\
  concat chunks = out ++ codes "Scheduling Policy: CFS_NICE | Average elapsed time: 10.300000" ++ newline) /\
  main (DL := no_deadline) reweight_ref sample_world (setpriority_ref sample_world) getpriority_ref gmtime bare_run = Undef.
Proof.
  split.
  - destruct (main_reports (DL := no_deadline) reweight_ref reweight_ref_ok sample_world (setpriority_ref sample_world) getpriority_ref
      (setpriority_ref_ok sample_world) getpriority_ref_ok gmtime gmtime_ok sample_run (mkChoice 0 "CFS_NICE" None true)
      (mkStdout false (enter_choice ++ choices)) []) as [_ Hr];
      [reflexivity | reflexivity | reflexivity | reflexivity
      | intros i Hi; change (born (forks sample_run)) with (seq 0 21) in Hi; apply elem_of_seq in Hi;
        destruct (sample_furnished i ltac:(lia)); auto
      | symmetry; apply Permutation_rev | reflexivity |].
    destruct Hr as (chunks & E & C); [apply Forall_replicate; lia | intros i Hi; exact (proj2 (sample_furnished i Hi)) |].
    exists chunks. eexists. split; [exact E|]. rewrite C. cbn [sample_run terminal]. rewrite app_assoc. f_equal.
  - refine (proj1 (main_reports (DL := no_deadline) reweight_ref reweight_ref_ok sample_world (setpriority_ref sample_world) getpriority_ref
      (setpriority_ref_ok sample_world) getpriority_ref_ok gmtime gmtime_ok bare_run (mkChoice 0 "CFS_NICE" None true)
      (mkStdout false (enter_choice ++ choices)) [] _ _ _ _ _ _ _) _);
      [reflexivity | reflexivity | reflexivity | reflexivity
      | intros i Hi; change (born (forks bare_run)) with (seq 0 21) in Hi; apply elem_of_seq in Hi;
        split; [exact (bare_furnished i ltac:(lia)) | right; split; reflexivity]
      | symmetry; apply Permutation_rev | reflexivity |].
    right. exists 0%nat. split; [left | split; reflexivity].
Defined.

Lemma elapsed_read_back_witness : exists b,
  elapsed_time (mkTimeval 10 500000) (mkTimeval 10 200000) (replicate 20 0) = Ok (b, ratio true 1700000 1000000) /\
  cstr b = Ok (codes "-1.700000").
Proof.
  destruct (elapsed_read_back (mkTimeval 10 500000) (mkTimeval 10 200000) (replicate 20 0)) as (b & E & C & _);
    [split; cbn; lia | split; cbn; lia | reflexivity | reflexivity | exists b; split; [exact E | exact C]].
Defined.

Lemma menu_reads_witness : menu true (codes "40" ++ newline) (mkStdout true []) = Exit 1.
Proof.
  refine (proj1 (menu_reads true [] (codes "40") newline (mkStdout true []) _ _ _ _) _);
    [constructor | repeat constructor | discriminate | intros c r [= <- <-]; reflexivity | apply (bool_decide_unpack _); vm_compute; exact I].
Defined.
