(* ===== verification/TaskGroups.v ===== *)
(** Task groups of the CPU controller in src/3/20193018_PLUS-1/core.c: their
    data, the walk through their tree ([walk_tg_tree_from]), and how a group is
    created, shown and taken out of the tree. The walk is a loop with two labels; the
    theorem at the end says which recursive traversal it is. *)

From S2P Require Import Prelude KHeaders Uclamp.
Local Open Scope Z_scope.

(** * State *)

(** kernel/sched/sched.h, as far as core.c uses it. *)
Record CfsBandwidth := mkCfsB {
  period : Z;
  quota : Z;
  burst : Z;
  hierarchical_quota : Z
}.

Record CfsRq := mkCfsRq { runtime_enabled : bool; runtime_remaining : Z; throttled : bool }.

(** A group, named by a number. [cfs_rqs] are its queues on the CPUs that are
    online. *)
Record TaskGroup := mkTG {
  tg_parent : option Z;
  tg_children : list Z;
  shares : Z;
  cfs_bandwidth : CfsBandwidth;
  cfs_rqs : list CfsRq;
  tg_req : Clamps uclamp_se;
  tg_uclamp : Clamps uclamp_se;
  tg_pct : Clamps Z
}.

(** [root_task_group]. *)
Definition root_task_group : Z := 0.

(** The groups in memory and the list of those that are online. *)
Record TGState := mkTGS { tg_of : gmap Z TaskGroup; task_groups : list Z }.

Definition with_links (g : TaskGroup) (p : option Z) (l : list Z) : TaskGroup :=
  mkTG p l (shares g) (cfs_bandwidth g) (cfs_rqs g) (tg_req g) (tg_uclamp g) (tg_pct g).
Definition with_shares (g : TaskGroup) (v : Z) : TaskGroup :=
  mkTG (tg_parent g) (tg_children g) v (cfs_bandwidth g) (cfs_rqs g) (tg_req g) (tg_uclamp g) (tg_pct g).
Definition with_cfs (g : TaskGroup) (b : CfsBandwidth) (q : list CfsRq) : TaskGroup :=
  mkTG (tg_parent g) (tg_children g) (shares g) b q (tg_req g) (tg_uclamp g) (tg_pct g).
Definition with_clamps (g : TaskGroup) (r u : Clamps uclamp_se) (pct : Clamps Z) : TaskGroup :=
  mkTG (tg_parent g) (tg_children g) (shares g) (cfs_bandwidth g) (cfs_rqs g) r u pct.

Definition set_tg (st : TGState) (p : Z) (g : TaskGroup) : TGState := mkTGS (<[p := g]> (tg_of st)) (task_groups st).

Definition tgroup (st : TGState) (p : Z) : res TaskGroup :=
  match tg_of st !! p with Some g => Ok g | None => Undef end.

(** * The walk *)

(** A visitor, with its [data] supplied: what it returns, and the groups. *)
Definition tg_visitor : Type := TGState -> Z -> res (Z * TGState).

(** The labels: entering [parent]; or back in the loop over the children of
    [parent] after [child]. *)
Inductive Label := Down (parent : Z) | Up (child parent : Z).

(** The element after [c], as the links of the list give it. *)
Fixpoint next_sibling (c : Z) (l : list Z) : option Z :=
  match l with
  | [] => None
  | a :: l => if a =? c then head l else next_sibling c l
  end.

(** The loop over the children from [next] on, and what comes after it. *)
Definition walk_children (from : Z) (up : tg_visitor) (st : TGState) (parent : Z) (next : option Z) :
    res (ctl (TGState * Label) (Z * TGState)) :=
  match next with
  | Some child => mret (Continue (st, Down child))
  | None =>
      '(ret, st) ← up st parent;
      if negb (ret =? 0) || (parent =? from) then mret (Return (ret, st))
      else
        g ← tgroup st parent;
        match tg_parent g with
        | Some q => mret (Continue (st, Up parent q))
        | None => mret (Return (ret, st))
        end
  end.

Definition walk_body (from : Z) (down up : tg_visitor) (s : TGState * Label) :
    res (ctl (TGState * Label) (Z * TGState)) :=
  let '(st, label) := s in
  match label with
  | Down parent =>
      '(ret, st) ← down st parent;
      if negb (ret =? 0) then mret (Return (ret, st))
      else
        g ← tgroup st parent;
        walk_children from up st parent (head (tg_children g))
  | Up child parent =>
      g ← tgroup st parent;
      walk_children from up st parent (next_sibling child (tg_children g))
  end.

(** Every group is entered once and left once: two turns for each are enough.
    No turn breaks out of the loop without a result. *)
Definition walk_tg_tree_from (from : Z) (down up : tg_visitor) (st : TGState) : res (Z * TGState) :=
  out ← loop (2 * size (tg_of st)) (walk_body from down up) (st, Down from);
  match out with
  | inr r => mret r
  | inl _ => Undef
  end.

Definition tg_nop : tg_visitor := fun st _ => mret (0, st).

(** * The life of a group *)

(** kernel/sched/fair.c: the share, the bandwidth and the queues of a new group;
    [None] when there is no memory. *)
Class FairGroup := {
  alloc_fair_sched_group : TaskGroup -> TaskGroup -> option TaskGroup
}.

(** It fills in the fields of the fair class and no others. *)
Class FairGroupOk `{FairGroup} : Prop := {
  alloc_fair_fields g p g' : alloc_fair_sched_group g p = Some g' ->
    with_shares (with_cfs g (cfs_bandwidth g') (cfs_rqs g')) (shares g') = g'
}.

Section Life.
  Context `{Headers} `{FairGroup}.

(** Zeroed memory. *)
Definition no_se : uclamp_se := mkSe 0 0 false false.
Definition blank : TaskGroup :=
  mkTG None [] 0 (mkCfsB 0 0 0 0) [] (mkClamps no_se no_se) (mkClamps no_se no_se) (mkClamps 0 0).

Definition alloc_uclamp_sched_group (g parent : TaskGroup) : TaskGroup :=
  with_clamps g
    (mkClamps (uclamp_se_set (c_min (tg_req g)) (uclamp_none UCLAMP_MIN) false)
              (uclamp_se_set (c_max (tg_req g)) (uclamp_none UCLAMP_MAX) false))
    (tg_uclamp parent) (tg_pct g).

(** The new group takes the number [p], unused so far; [memory] tells whether
    the first allocation works and [rt] whether that of the real-time class does.
    [None] is [-ENOMEM]. *)
Definition sched_create_group (memory rt : bool) (st : TGState) (p parent : Z) : res (option TGState) :=
  if negb memory then mret None
  else
    gp ← tgroup st parent;
    match alloc_fair_sched_group blank gp with
    | None => mret None
    | Some g => mret (if negb rt then None else Some (set_tg st p (alloc_uclamp_sched_group g gp)))
    end.

Definition sched_online_group (st : TGState) (p parent : Z) : res TGState :=
  let st := mkTGS (tg_of st) (p :: task_groups st) in
  g ← tgroup st p;
  let st := set_tg st p (with_links g (Some parent) []) in
  gp ← tgroup st parent;
  mret (set_tg st parent (with_links gp (tg_parent gp) (p :: tg_children gp))).

(** [list_del_rcu] takes the group off the list of its parent and of all
    groups; its own fields stay. The links of a group that was never online are
    null. *)
Definition sched_release_group (st : TGState) (p : Z) : res TGState :=
  let st := mkTGS (tg_of st) (filter (fun q => q <> p) (task_groups st)) in
  g ← tgroup st p;
  match tg_parent g with
  | None => Undef
  | Some q =>
      gp ← tgroup st q;
      mret (set_tg st q (with_links gp (tg_parent gp) (filter (fun c => c <> p) (tg_children gp))))
  end.

(** At the end of the grace periods the memory is freed. *)
Definition sched_free_group (st : TGState) (p : Z) : TGState := mkTGS (delete p (tg_of st)) (task_groups st).
End Life.

(** * The recursive traversal *)

Inductive gtree := Node (group : Z) (kids : list gtree).

Definition root (t : gtree) : Z := let 'Node p _ := t in p.
Definition subtrees (t : gtree) : list gtree := let 'Node _ l := t in l.

Section GtreeInd.
  Context (P : gtree -> Prop) (step : forall p kids, Forall P kids -> P (Node p kids)).

Fixpoint gtree_ind' (t : gtree) : P t :=
  let 'Node p kids := t in
  step p kids ((fix each (l : list gtree) : Forall P l :=
    match l with
    | [] => Forall_nil_2 _
    | k :: l => Forall_cons_2 _ _ _ (gtree_ind' k) (each l)
    end) kids).
End GtreeInd.

Fixpoint preorder (t : gtree) : list Z := let 'Node p kids := t in p :: (kids ≫= preorder).

(** [t] is the tree of groups below its root: the lists of children say so, and
    the parents of the children agree. *)
Fixpoint grows (st : TGState) (t : gtree) : Prop :=
  let 'Node p kids := t in
  (exists g, tg_of st !! p = Some g /\ tg_children g = root <$> kids) /\
  Forall (fun k => exists g, tg_of st !! root k = Some g /\ tg_parent g = Some p) kids /\
  (fix each (l : list gtree) : Prop := match l with [] => True | k :: l => grows st k /\ each l end) kids.

(** [down] on the way into a group, then its children in order, [up] on the way
    out; the first nonzero result ends it all. *)
Section Visit.
  Context (down up : tg_visitor).

Definition and_then (m : res (Z * TGState)) (f : TGState -> res (Z * TGState)) : res (Z * TGState) :=
  '(ret, st) ← m; if negb (ret =? 0) then mret (ret, st) else f st.

Section Each.
  Context (visit : gtree -> TGState -> res (Z * TGState)).
Fixpoint visit_each (l : list gtree) (st : TGState) : res (Z * TGState) :=
  match l with
  | [] => mret (0, st)
  | k :: l => and_then (visit k st) (visit_each l)
  end.
End Each.

Fixpoint visit (t : gtree) (st : TGState) : res (Z * TGState) :=
  let 'Node p kids := t in
  and_then (down st p) (fun st => and_then (visit_each visit kids st) (fun st => up st p)).
End Visit.

(** * Trees that stay as they are *)

Definition links (g : TaskGroup) : option Z * list Z := (tg_parent g, tg_children g).

(** The groups of both states have the same parents and children. *)
Definition same_tree (st st' : TGState) : Prop := forall q, links <$> tg_of st !! q = links <$> tg_of st' !! q.

#[export] Instance same_tree_equiv : Equivalence same_tree.
Proof. split; [intros st q; reflexivity | intros st st' E q; symmetry; apply E | intros a b c E1 E2 q; etransitivity; eauto]. Qed.

(** A visitor that leaves the tree alone. *)
Definition keeps (v : tg_visitor) : Prop := forall st p r st', v st p = Ok (r, st') -> same_tree st st'.

Lemma same_tree_some st st' q g : same_tree st st' -> tg_of st !! q = Some g ->
  exists g', tg_of st' !! q = Some g' /\ tg_parent g' = tg_parent g /\ tg_children g' = tg_children g.
Proof.
  intros E Hg. specialize (E q). rewrite Hg in E. destruct (tg_of st' !! q) as [g'|]; [|discriminate].
  cbn in E. injection E as Ep Ec. eauto.
Qed.

Lemma same_tree_set st p g g' : tg_of st !! p = Some g -> links g' = links g -> same_tree st (set_tg st p g').
Proof.
  intros Hg E q. cbn. destruct (decide (q = p)) as [->|Hne].
  - rewrite lookup_insert_eq, Hg. cbn. congruence.
  - rewrite lookup_insert_ne by congruence. reflexivity.
Qed.

Lemma tg_nop_keeps : keeps tg_nop.
Proof. intros st p r st' [= _ <-]. reflexivity. Qed.

Lemma grows_node st p kids : grows st (Node p kids) <->
  (exists g, tg_of st !! p = Some g /\ tg_children g = root <$> kids) /\
  Forall (fun k => exists g, tg_of st !! root k = Some g /\ tg_parent g = Some p) kids /\ Forall (grows st) kids.
Proof.
  cbn. split; intros (Hp & Hk & Ha); (split; [exact Hp|]; split; [exact Hk|]); clear Hp Hk.
  - induction kids as [|k l IH]; [constructor|]. destruct Ha. constructor; auto.
  - induction Ha; auto.
Qed.

#[export] Instance grows_proper : Proper (same_tree ==> eq ==> iff) grows.
Proof.
  intros st st' E t t' <-. revert st st' E. enough (forall st st', same_tree st st' -> grows st t -> grows st' t) as Himp.
  { intros st st' E. split; apply Himp; [exact E | symmetry; exact E]. }
  induction t as [p kids IH] using gtree_ind'; intros st st' E. rewrite !grows_node. intros ((g & Hg & Hc) & Hp & Hk).
  destruct (same_tree_some _ _ _ _ E Hg) as (g' & Hg' & _ & Hc').
  split; [exists g'; split; congruence|]. split.
  - eapply Forall_impl; [exact Hp|]. intros k (x & Hx & Hxp).
    destruct (same_tree_some _ _ _ _ E Hx) as (x' & Hx' & Hp' & _). exists x'. split; congruence.
  - rewrite Forall_forall in *. intros k Hin. apply (IH k Hin st st' E), Hk, Hin.
Qed.

Section VisitFacts.
  Context (down up : tg_visitor) (Hdown : keeps down) (Hup : keeps up).

#[local] Abbreviation visit' := (visit down up).

Lemma and_then_keeps m f st r st' :
  (forall r1 st1, m = Ok (r1, st1) -> same_tree st st1) -> (forall st1 r2 st2, f st1 = Ok (r2, st2) -> same_tree st1 st2) ->
  and_then m f = Ok (r, st') -> same_tree st st'.
Proof.
  intros Hm Hf. unfold and_then. destruct m as [[r1 st1]| | |]; cbn; try discriminate.
  specialize (Hm _ _ eq_refl). destruct (r1 =? 0); cbn; [|intros [= _ <-]; exact Hm].
  intros Hr. rewrite Hm. eauto.
Qed.

Lemma visit_each_keeps l : Forall (fun k => forall st r st', visit' k st = Ok (r, st') -> same_tree st st') l ->
  forall st r st', visit_each visit' l st = Ok (r, st') -> same_tree st st'.
Proof.
  induction 1 as [|k l Hk _ IH]; intros st r st'; cbn; [intros [= _ <-]; reflexivity|].
  apply and_then_keeps; eauto.
Qed.

Lemma visit_keeps t : forall st r st', visit' t st = Ok (r, st') -> same_tree st st'.
Proof.
  induction t as [p kids IH] using gtree_ind'. intros st r st'. cbn.
  apply and_then_keeps; [apply Hdown|]. intros st1 r2 st2.
  apply and_then_keeps; [intros r3 st3; exact (visit_each_keeps kids IH _ _ _) | intros st3 r4 st4; apply Hup].
Qed.

Lemma and_then_assoc m f g : and_then (and_then m f) g = and_then m (fun st => and_then (f st) g).
Proof.
  unfold and_then. destruct m as [[r st]| | |]; cbn; [|reflexivity..]. destruct (r =? 0) eqn:E; cbn; [reflexivity|].
  rewrite E. reflexivity.
Qed.
End VisitFacts.

(** * The walk is the traversal *)

Lemma next_sibling_app c l1 l2 : NoDup (l1 ++ c :: l2) -> next_sibling c (l1 ++ c :: l2) = head l2.
Proof.
  induction l1 as [|a l1 IH]; cbn; intros Hd.
  - rewrite Z.eqb_refl. reflexivity.
  - apply NoDup_cons in Hd as [Ha Hd]. destruct (Z.eqb_spec a c) as [->|_]; [|apply IH, Hd].
    destruct Ha. apply elem_of_app. right. left.
Qed.

(** The turns from the entry of a subtree to the one that leaves it. *)
Fixpoint turns (t : gtree) : nat := let 'Node _ kids := t in S (sum_list_with (fun k => S (turns k)) kids).

Lemma turns_size t : S (turns t) = (2 * length (preorder t))%nat.
Proof.
  induction t as [p kids IH] using gtree_ind'. cbn.
  enough (sum_list_with (fun k => S (turns k)) kids = 2 * length (kids ≫= preorder))%nat by lia.
  induction IH as [|k l Hk _ IHl]; [reflexivity|]. cbn [sum_list_with mbind list_bind]. rewrite length_app, Hk, IHl. lia.
Qed.

Lemma preorder_root t : root t ∈ preorder t.
Proof. destruct t. left. Qed.

Lemma roots_sublist kids : (root <$> kids) `sublist_of` (kids ≫= preorder).
Proof.
  induction kids as [|[p l] kids IH]; [constructor|]. cbn. apply sublist_skip. induction (l ≫= preorder); [exact IH | constructor; assumption].
Qed.

Lemma grows_some st t : grows st t -> Forall (fun q => is_Some (tg_of st !! q)) (preorder t).
Proof.
  induction t as [p kids IH] using gtree_ind'. rewrite grows_node. intros ((g & Hg & _) & _ & Hk). cbn.
  constructor; [eauto|]. apply Forall_bind. rewrite Forall_forall in *. eauto.
Qed.

Section Walk.
  Context (down up : tg_visitor) (Hdown : keeps down) (Hup : keeps up) (from : Z).

(** What the loop does with the outcome of a turn when [k] turns are left. *)
Definition onward (k : nat) (c : ctl (TGState * Label) (Z * TGState)) : res ((TGState * Label) + (Z * TGState)) :=
  match c with
  | Continue s => loop k (walk_body from down up) s
  | Break s => mret (inl s)
  | Return r => mret (inr r)
  end.

Definition or_leave (m : res (Z * TGState)) (f : TGState -> res ((TGState * Label) + (Z * TGState))) :
    res ((TGState * Label) + (Z * TGState)) :=
  '(ret, st) ← m; if negb (ret =? 0) then mret (inr (ret, st)) else f st.

(** A subtree without the last call of [up]. *)
Definition inside (t : gtree) (st : TGState) : res (Z * TGState) :=
  and_then (down st (root t)) (visit_each (visit down up) (subtrees t)).

Lemma visit_inside t st : visit down up t st = and_then (inside t st) (fun st => up st (root t)).
Proof. destruct t. unfold inside. cbn. symmetry. apply and_then_assoc. Qed.

Lemma or_leave_and_then m f g : or_leave (and_then m f) g = or_leave m (fun st => or_leave (f st) g).
Proof.
  unfold or_leave, and_then. destruct m as [[r st]| | |]; cbn; [|reflexivity..].
  destruct (r =? 0) eqn:E; cbn; [reflexivity|]. rewrite E. reflexivity.
Qed.

Lemma or_leave_ext m f g : (forall r st, m = Ok (r, st) -> f st = g st) -> or_leave m f = or_leave m g.
Proof. intros H. destruct m as [[r st]| | |]; cbn; [|reflexivity..]. erewrite H by reflexivity. reflexivity. Qed.

Lemma inside_keeps t st r st' : inside t st = Ok (r, st') -> same_tree st st'.
Proof.
  apply and_then_keeps; [apply Hdown|]. apply visit_each_keeps, Forall_forall. intros k _. apply visit_keeps; assumption.
Qed.

Lemma up_turn st kid p g : tg_of st !! p = Some g ->
  walk_body from down up (st, Up kid p) = walk_children from up st p (next_sibling kid (tg_children g)).
Proof. intros Hg. unfold walk_body, tgroup. rewrite Hg. reflexivity. Qed.

(** Leaving a group that is not the one the walk began at: [up], then back into
    the loop over its siblings. *)
Lemma leave_child st k p kids1 kids2 kid :
  grows st (Node p (kids1 ++ kid :: kids2)) -> NoDup (root <$> kids1 ++ kid :: kids2) -> root kid <> from ->
  walk_children from up st (root kid) None ≫= onward (S k) =
  or_leave (up st (root kid)) (fun st => walk_children from up st p (head (root <$> kids2)) ≫= onward k).
Proof.
  intros Hg Hd Hne. unfold or_leave. cbn [walk_children]. destruct (up st (root kid)) as [[r st1]| | |] eqn:Eu; [|reflexivity..].
  cbn. destruct (r =? 0); [|reflexivity]. cbn. destruct (Z.eqb_spec (root kid) from) as [|_]; [contradiction|].
  apply Hup in Eu. rewrite Eu in Hg. apply grows_node in Hg as ((g & Hg & Hc) & Hp & _).
  rewrite Forall_app, Forall_cons in Hp. destruct Hp as (_ & (x & Hx & Hxp) & _).
  unfold tgroup at 1. rewrite Hx. cbn [mbind res_bind]. rewrite Hxp. cbn [mret res_ret mbind res_bind onward].
  rewrite loop_S, (up_turn _ _ _ _ Hg), Hc, fmap_app. cbn [fmap list_fmap].
  rewrite next_sibling_app by (rewrite fmap_app in Hd; exact Hd). reflexivity.
Qed.

Lemma down_turn k st p kids : grows st (Node p kids) ->
  walk_body from down up (st, Down p) ≫= onward k =
  or_leave (down st p) (fun st => walk_children from up st p (head (root <$> kids)) ≫= onward k).
Proof.
  intros Hg. cbn [walk_body]. unfold or_leave. destruct (down st p) as [[r st1]| | |] eqn:Ed; [|reflexivity..].
  cbn. destruct (r =? 0); [|reflexivity]. cbn. apply Hdown in Ed. rewrite Ed in Hg.
  apply grows_node in Hg as ((g & Hg & Hc) & _). unfold tgroup. rewrite Hg. cbn [mbind res_bind]. rewrite Hc. reflexivity.
Qed.

(** What the walk does from the entry of [t] to the call of [up] on it. *)
Definition walks (t : gtree) : Prop := forall k st,
  grows st t -> NoDup (preorder t) -> Forall (fun q => q <> from) (subtrees t ≫= preorder) ->
  loop (turns t + k) (walk_body from down up) (st, Down (root t)) =
  or_leave (inside t st) (fun st => walk_children from up st (root t) None ≫= onward k).

Lemma walk_kids p k l : Forall walks l -> forall done st,
  grows st (Node p (done ++ l)) -> NoDup ((done ++ l) ≫= preorder) -> Forall (fun q => q <> from) (l ≫= preorder) ->
  walk_children from up st p (head (root <$> l)) ≫= onward (sum_list_with (fun k => S (turns k)) l + k) =
  or_leave (visit_each (visit down up) l st) (fun st => walk_children from up st p None ≫= onward k).
Proof.
  induction 1 as [|kid l Hkid _ IH]; intros done st Hg Hd Hf; [reflexivity|].
  cbn [fmap list_fmap head walk_children mret res_ret mbind res_bind onward sum_list_with visit_each].
  rewrite bind_cons in Hf. apply Forall_app in Hf as [Hf Hl].
  assert (grows st kid) as Hgk. { apply grows_node in Hg as (_ & _ & Hg). rewrite Forall_app, Forall_cons in Hg. tauto. }
  assert (NoDup (preorder kid)) as Hdk.
  { rewrite bind_app, bind_cons in Hd. apply NoDup_app in Hd as (_ & _ & Hd). apply NoDup_app in Hd. tauto. }
  pose proof (sublist_NoDup _ _ Hd (roots_sublist _)) as Hr.
  replace (S (turns kid) + sum_list_with (fun k => S (turns k)) l + k)%nat
    with (turns kid + S (sum_list_with (fun k => S (turns k)) l + k))%nat by lia.
  rewrite (Hkid _ _ Hgk Hdk) by (destruct kid; cbn in Hf |- *; apply Forall_cons in Hf; tauto).
  rewrite or_leave_and_then, visit_inside, or_leave_and_then. apply or_leave_ext. intros r st1 E1.
  rewrite (inside_keeps _ _ _ _ E1) in Hg. rewrite (leave_child _ _ _ _ _ _ Hg Hr).
  2: { rewrite Forall_forall in Hf. apply Hf, preorder_root. }
  apply or_leave_ext. intros r2 st2 E2. apply Hup in E2. rewrite E2 in Hg.
  apply (IH (done ++ [kid]) st2); rewrite <- ?app_assoc; assumption.
Qed.

Lemma walk_subtree t : walks t.
Proof.
  induction t as [p kids IH] using gtree_ind'. intros k st Hg Hd Hf.
  cbn [turns root Nat.add]. rewrite loop_S. change (walk_body from down up (st, Down p) ≫= onward (sum_list_with (fun k => S (turns k)) kids + k) =
    or_leave (inside (Node p kids) st) (fun st => walk_children from up st p None ≫= onward k)).
  rewrite (down_turn _ _ _ _ Hg). unfold inside. rewrite or_leave_and_then. apply or_leave_ext. intros r st1 E1.
  apply Hdown in E1. rewrite E1 in Hg. cbn in Hd. apply NoDup_cons in Hd as [_ Hd].
  exact (walk_kids p k kids IH [] st1 Hg Hd Hf).
Qed.

End Walk.

(** A tree of groups has no more nodes than there are groups. *)
Lemma tree_size st t : grows st t -> NoDup (preorder t) -> (length (preorder t) <= size (tg_of st))%nat.
Proof.
  intros Hg Hd. rewrite <- (size_list_to_set (C := gset Z) _ Hd), <- size_dom. apply subseteq_size.
  intros q Hq. apply elem_of_list_to_set in Hq. apply elem_of_dom. pose proof (grows_some _ _ Hg) as Hs.
  rewrite Forall_forall in Hs. apply Hs, Hq.
Qed.

Lemma walk_visits down up st t :
  keeps down -> keeps up -> grows st t -> NoDup (preorder t) ->
  walk_tg_tree_from (root t) down up st = visit down up t st.
Proof.
  intros Hdown Hup Hg Hd. unfold walk_tg_tree_from. pose proof (tree_size _ _ Hg Hd) as Hs. pose proof (turns_size t) as Ht.
  replace (2 * size (tg_of st))%nat with (turns t + (2 * size (tg_of st) - turns t))%nat by lia.
  rewrite (walk_subtree down up Hdown Hup (root t) t) by (assumption ||
    (destruct t; cbn in Hd |- *; apply NoDup_cons in Hd as [Hd _]; apply Forall_forall; intros q Hq ->; contradiction)).
  rewrite visit_inside. unfold or_leave, and_then. destruct (inside down up t st) as [[r st1]| | |]; [|reflexivity..].
  cbn [mbind res_bind]. destruct (r =? 0); [|reflexivity]. cbn [negb walk_children].
  destruct (up st1 (root t)) as [[r2 st2]| | |]; [|reflexivity..]. cbn. rewrite Z.eqb_refl, orb_true_r. reflexivity.
Qed.

(** * Parents and subtrees *)

Definition parent_of (st : TGState) (c p : Z) : Prop := exists g, tg_of st !! c = Some g /\ tg_parent g = Some p.

(** The parents of the groups of a tree are in it, but for its root. *)
Lemma parent_inside st t x : grows st t -> x ∈ preorder t -> x <> root t ->
  exists g q, tg_of st !! x = Some g /\ tg_parent g = Some q /\ q ∈ preorder t.
Proof.
  induction t as [p kids IH] using gtree_ind'. intros Hg Hx Hne. apply grows_node in Hg as (_ & Hp & Hk). cbn in Hx, Hne |- *.
  apply elem_of_cons in Hx as [|Hx]; [contradiction|]. apply list_elem_of_bind in Hx as (k & Hx & Hin).
  rewrite Forall_forall in IH, Hp, Hk. destruct (decide (x = root k)) as [->|Hr].
  - destruct (Hp k Hin) as (g & Hg & Epar). exists g, p. split; [exact Hg|]. split; [exact Epar | left].
  - destruct (IH k Hin (Hk k Hin) Hx Hr) as (g & q & Hg & Epar & Hq). exists g, q. split; [exact Hg|]. split; [exact Epar|].
    right. apply list_elem_of_bind. eauto.
Qed.

Lemma tc_parent st x p a : parent_of st x p -> tc (parent_of st) x a -> a = p \/ tc (parent_of st) p a.
Proof.
  intros (g & Hg & Ep) Ht. inversion Ht as [? ? (g' & ? & ?)|? y ? (g' & ? & ?) Hya]; simplify_eq; [left; reflexivity | right; exact Hya].
Qed.

Lemma parent_same st st' x a : same_tree st st' -> parent_of st x a -> parent_of st' x a.
Proof. intros E (g & Hg & Ep). destruct (same_tree_some _ _ _ _ E Hg) as (g' & ? & ? & _). exists g'. split; congruence. Qed.

Lemma tc_parent_same st st' x a : same_tree st st' -> tc (parent_of st) x a <-> tc (parent_of st') x a.
Proof.
  intros E. split; apply tc_congruence with (f := id); intros ? ?; apply parent_same; [|symmetry]; exact E.
Qed.

(** The tree of all groups that are online. *)
Record rooted (st : TGState) (t : gtree) : Prop := {
  rooted_root : root t = root_task_group;
  rooted_grows : grows st t;
  rooted_distinct : NoDup (preorder t);
  rooted_top : exists g, tg_of st !! root_task_group = Some g /\ tg_parent g = None
}.

Lemma rooted_same st st' t : same_tree st st' -> rooted st t -> rooted st' t.
Proof.
  intros E [Hr Hg Hd (g & Ht & Ep)]. split; [exact Hr | rewrite <- E; exact Hg | exact Hd|].
  destruct (same_tree_some _ _ _ _ E Ht) as (g' & ? & ? & _). exists g'. split; congruence.
Qed.

(** Groups outside [l] are as before. *)
Definition outside (l : list Z) (st st' : TGState) : Prop := forall q, q ∉ l -> tg_of st' !! q = tg_of st !! q.

Inductive subtree (s : gtree) : gtree -> Prop :=
  | subtree_refl : subtree s s
  | subtree_kid p kids k : k ∈ kids -> subtree s k -> subtree s (Node p kids).

Lemma subtree_inv s x kids : subtree s (Node x kids) -> s = Node x kids \/ exists k, k ∈ kids /\ subtree s k.
Proof. intros Hs. inversion Hs; subst; eauto. Qed.

Lemma subtree_grows st s t : subtree s t -> grows st t -> grows st s.
Proof.
  induction 1 as [|p kids k Hk _ IH]; [auto|]. intros Hg. apply grows_node in Hg as (_ & _ & Hg).
  rewrite Forall_forall in Hg. auto.
Qed.

Lemma kid_distinct kids k : NoDup (kids ≫= preorder) -> k ∈ kids -> NoDup (preorder k).
Proof.
  intros Hd Hk. apply list_elem_of_split in Hk as (l1 & l2 & ->). rewrite bind_app, bind_cons in Hd.
  apply NoDup_app in Hd as (_ & _ & Hd). apply NoDup_app in Hd. tauto.
Qed.

Lemma subtree_distinct s t : subtree s t -> NoDup (preorder t) -> NoDup (preorder s).
Proof.
  induction 1 as [|p kids k Hk _ IH]; [auto|]. cbn. intros Hd. apply NoDup_cons in Hd as [_ Hd].
  exact (IH (kid_distinct _ _ Hd Hk)).
Qed.

Lemma subtree_nodes s t x : subtree s t -> x ∈ preorder s -> x ∈ preorder t.
Proof.
  induction 1 as [|p kids k Hk _ IH]; [auto|]. intros Hx. cbn. right. apply list_elem_of_bind. eauto.
Qed.

Lemma subtree_at t x : x ∈ preorder t -> exists s, subtree s t /\ root s = x.
Proof.
  induction t as [p kids IH] using gtree_ind'. cbn. intros Hx. apply elem_of_cons in Hx as [->|Hx].
  - exists (Node p kids). split; [constructor | reflexivity].
  - apply list_elem_of_bind in Hx as (k & Hx & Hk). rewrite Forall_forall in IH.
    destruct (IH k Hk Hx) as (s & Hs & Hr). exists s. split; [econstructor; eauto | exact Hr].
Qed.

(** Two subtrees of one list that share a group are the same. *)
Lemma kids_apart kids k k' x : NoDup (kids ≫= preorder) -> k ∈ kids -> k' ∈ kids -> x ∈ preorder k -> x ∈ preorder k' -> k = k'.
Proof.
  induction kids as [|a l IH]; [intros _ Hk; inversion Hk|]. rewrite bind_cons. intros Hd Hk Hk' Hx Hx'.
  apply NoDup_app in Hd as (_ & Hapart & Hd).
  apply elem_of_cons in Hk as [->|Hk], Hk' as [->|Hk']; [reflexivity | | |exact (IH Hd Hk Hk' Hx Hx')];
    exfalso; eapply Hapart; eauto; apply list_elem_of_bind; eauto.
Qed.

(** The children of a group of [s] are in [s]. *)
Lemma subtree_closed st s t x q : subtree s t -> grows st t -> NoDup (preorder t) ->
  x ∈ preorder t -> x <> root t -> parent_of st x q -> q ∈ preorder s -> x ∈ preorder s.
Proof.
  induction 1 as [|p kids k Hk Hs IH]; [auto|]. intros Hg Hd Hx Hne Hq Hqs.
  pose proof Hg as Hg0. apply grows_node in Hg0 as (_ & Hp & Hgk). rewrite Forall_forall in Hp, Hgk. cbn in Hd, Hx, Hne.
  apply NoDup_cons in Hd as [Hpd Hd]. apply elem_of_cons in Hx as [|Hx]; [contradiction|].
  apply list_elem_of_bind in Hx as (k' & Hx & Hk'). pose proof (subtree_nodes _ _ _ Hs Hqs) as Hqk.
  destruct Hq as (g & Hgx & Ep). destruct (decide (x = root k')) as [->|Hne'].
  - destruct (Hp k' Hk') as (g' & Hg' & Ep'). simplify_eq. destruct Hpd. apply list_elem_of_bind. eauto.
  - destruct (parent_inside _ _ _ (Hgk k' Hk') Hx Hne') as (g' & q' & Hg' & Ep' & Hq'). simplify_eq.
    assert (k = k') as <- by (eapply (kids_apart kids); eauto).
    apply IH; [exact (Hgk k Hk) | exact (kid_distinct kids k Hd Hk) | exact Hx | exact Hne' | eexists; eauto | exact Hqs].
Qed.

(** * A group comes and goes *)

(** [p] as the first child of [q]; and the tree without the leaf [p]. *)
Fixpoint graft (q p : Z) (t : gtree) : gtree :=
  let 'Node x kids := t in
  if x =? q then Node x (Node p [] :: kids) else Node x (graft q p <$> kids).

Fixpoint prune (p : Z) (t : gtree) : gtree :=
  let 'Node x kids := t in
  Node x (omap (fun k => if root k =? p then None else Some (prune p k)) kids).

Lemma graft_root q p t : root (graft q p t) = root t.
Proof. destruct t as [x kids]. cbn. destruct (x =? q); reflexivity. Qed.

Lemma graft_roots q p (l : list gtree) : root <$> (graft q p <$> l) = root <$> l.
Proof. induction l as [|k l IH]; [reflexivity|]. cbn. rewrite graft_root. f_equal. exact IH. Qed.

Lemma graft_absent q p t : q ∉ preorder t -> graft q p t = t.
Proof.
  induction t as [x kids IH] using gtree_ind'. cbn. intros Hq. apply not_elem_of_cons in Hq as [Hx Hq].
  destruct (Z.eqb_spec x q); [congruence|]. f_equal. induction IH as [|k l Hk _ IHl]; [reflexivity|].
  rewrite bind_cons in Hq. apply not_elem_of_app in Hq as [Hqk Hql]. cbn. rewrite Hk by exact Hqk. f_equal. exact (IHl Hql).
Qed.

Lemma graft_preorder q p t : NoDup (preorder t) -> q ∈ preorder t -> preorder (graft q p t) ≡ₚ p :: preorder t.
Proof.
  induction t as [x kids IH] using gtree_ind'. cbn. intros Hd Hq. apply NoDup_cons in Hd as [_ Hd].
  destruct (Z.eqb_spec x q) as [->|Hne]; [apply perm_swap|]. apply elem_of_cons in Hq as [->|Hq]; [congruence|].
  cbn. rewrite (perm_swap x p). apply perm_skip. clear Hne x. revert Hd Hq. induction IH as [|k l Hk _ IHl]; intros Hd Hq; [inversion Hq|].
  rewrite bind_cons in Hd, Hq. cbn [fmap list_fmap]. rewrite !bind_cons. apply NoDup_app in Hd as (Hdk & Hapart & Hd).
  apply elem_of_app in Hq as [Hq|Hq].
  - rewrite (Hk Hdk Hq). cbn. apply perm_skip. apply Permutation_app_head. pose proof (Hapart q Hq) as Hql. clear -Hql.
    induction l as [|k l IH]; [reflexivity|]. rewrite bind_cons in Hql. apply not_elem_of_app in Hql as [Hqk Hql].
    cbn [fmap list_fmap]. rewrite !bind_cons, graft_absent, (IH Hql) by exact Hqk. reflexivity.
  - rewrite (graft_absent q p k), (IHl Hd Hq) by (intros Hqk; exact (Hapart q Hqk Hq)). symmetry. apply Permutation_middle.
Qed.

Lemma grows_frame st st' t : (forall x, x ∈ preorder t -> links <$> tg_of st' !! x = links <$> tg_of st !! x) -> grows st t -> grows st' t.
Proof.
  assert (forall x g, links <$> tg_of st' !! x = links <$> tg_of st !! x -> tg_of st !! x = Some g ->
    exists g', tg_of st' !! x = Some g' /\ tg_parent g' = tg_parent g /\ tg_children g' = tg_children g) as Hmove.
  { intros x g E Hg. rewrite Hg in E. destruct (tg_of st' !! x) as [g'|]; [|discriminate]. apply Some_inj in E. unfold links in E.
    injection E as E1 E2. eauto. }
  induction t as [p kids IH] using gtree_ind'. rewrite !grows_node. cbn. intros E ((g & Hg & Hc) & Hp & Hk).
  destruct (Hmove p g (E p ltac:(left)) Hg) as (g' & Hg' & _ & Hc'). split; [exists g'; split; congruence|].
  assert (forall k x, k ∈ kids -> x ∈ preorder k -> links <$> tg_of st' !! x = links <$> tg_of st !! x) as Hin.
  { intros k x Hk' Hx. apply E. right. apply list_elem_of_bind. eauto. }
  rewrite Forall_forall in IH, Hp, Hk. split.
  - apply Forall_forall. intros k Hk'. destruct (Hp k Hk') as (x & Hx & Ex).
    destruct (Hmove (root k) x (Hin k _ Hk' (preorder_root k)) Hx) as (x' & Hx' & Ex' & _). exists x'. split; congruence.
  - apply Forall_forall. intros k Hk'. apply (IH k Hk'); [intros x; apply Hin, Hk' | exact (Hk k Hk')].
Qed.

(** Making [p] a child of [q]: what the two stores of [sched_online_group] do. *)
Record onlined (st st' : TGState) (p q : Z) : Prop := {
  online_child : exists g, tg_of st !! p = Some g /\ tg_of st' !! p = Some (with_links g (Some q) []);
  online_parent : exists g, tg_of st !! q = Some g /\ tg_of st' !! q = Some (with_links g (tg_parent g) (p :: tg_children g));
  online_others : forall x, x <> p -> x <> q -> tg_of st' !! x = tg_of st !! x;
  online_list : task_groups st' = p :: task_groups st
}.

Lemma sched_online_group_ok st p q : is_Some (tg_of st !! p) -> is_Some (tg_of st !! q) -> p <> q ->
  exists st', sched_online_group st p q = Ok st' /\ onlined st st' p q.
Proof.
  intros [g Hg] [gq Hq] Hne. unfold sched_online_group, tgroup. cbn [tg_of]. rewrite Hg. cbn [mbind res_bind set_tg tg_of].
  rewrite lookup_insert_ne, Hq by exact Hne. cbn. eexists. split; [reflexivity|]. split; cbn.
  - exists g. rewrite lookup_insert_ne, lookup_insert_eq by congruence. auto.
  - exists gq. rewrite lookup_insert_eq. auto.
  - intros x Hp Hxq. rewrite !lookup_insert_ne by congruence. reflexivity.
  - reflexivity.
Qed.

Lemma online_grows st st' p q t : onlined st st' p q -> p ∉ preorder t -> NoDup (preorder t) -> grows st t -> grows st' (graft q p t).
Proof.
  intros HO. induction t as [x kids IH] using gtree_ind'. intros Hp Hd Hg. pose proof Hg as Hg0.
  apply grows_node in Hg0 as ((g & Hgx & Hc) & Hpar & Hk). cbn in Hp, Hd. apply not_elem_of_cons in Hp as [Hpx Hp].
  apply NoDup_cons in Hd as [Hxd Hd]. cbn [graft].
  assert (forall k, k ∈ kids -> exists g', tg_of st' !! root k = Some g' /\ tg_parent g' = Some x) as Hpar'.
  { intros k Hin. rewrite Forall_forall in Hpar. destruct (Hpar k Hin) as (y & Hy & Ey).
    assert (root k ∈ kids ≫= preorder) as Hr by (apply list_elem_of_bind; eauto using preorder_root).
    destruct (decide (root k = q)) as [E|Hne].
    - destruct (online_parent _ _ _ _ HO) as (gq & Hq & Hq'). rewrite E in *. simplify_eq. eexists. split; [exact Hq' | exact Ey].
    - exists y. split; [|exact Ey]. rewrite (online_others _ _ _ _ HO); [exact Hy | intros E; congruence | exact Hne]. }
  destruct (Z.eqb_spec x q) as [->|Hne].
  - destruct (online_parent _ _ _ _ HO) as (gq & Hq & Hq'). simplify_eq. apply grows_node. split; [|split].
    + eexists. split; [exact Hq'|]. cbn. congruence.
    + constructor; [|apply Forall_forall; exact Hpar']. destruct (online_child _ _ _ _ HO) as (gp & _ & Hgp). eexists. split; [exact Hgp | reflexivity].
    + constructor.
      * apply grows_node. split; [|split; constructor]. destruct (online_child _ _ _ _ HO) as (gp & _ & Hgp). eexists. split; [exact Hgp | reflexivity].
      * rewrite Forall_forall in Hk |- *. intros k Hin. apply (grows_frame st); [|exact (Hk k Hin)]. intros y Hy.
        assert (y ∈ kids ≫= preorder) as Hy' by (apply list_elem_of_bind; eauto).
        rewrite (online_others _ _ _ _ HO); [reflexivity | congruence | congruence].
  - apply grows_node. split; [|split].
    + exists g. rewrite (online_others _ _ _ _ HO), graft_roots by congruence. auto.
    + apply Forall_fmap, Forall_forall. intros k Hin. cbn. rewrite graft_root. exact (Hpar' k Hin).
    + apply Forall_fmap, Forall_forall. intros k Hin. cbn. rewrite Forall_forall in IH, Hk. apply (IH k Hin); [| |exact (Hk k Hin)].
      * intros Hpk. apply Hp. apply list_elem_of_bind. eauto.
      * exact (kid_distinct _ _ Hd Hin).
Qed.

Lemma online_rooted st st' p q t : onlined st st' p q -> rooted st t -> p ∉ preorder t -> q ∈ preorder t ->
  rooted st' (graft q p t) /\ preorder (graft q p t) ≡ₚ p :: preorder t.
Proof.
  intros HO [Hr Hg Hd (g & Ht & Ep)] Hp Hq. pose proof (graft_preorder q p t Hd Hq) as E. split; [|exact E]. split.
  - rewrite graft_root. exact Hr.
  - apply (online_grows st); assumption.
  - rewrite E. constructor; assumption.
  - assert (root_task_group <> p) as Hne by (intros <-; apply Hp; rewrite <- Hr; apply preorder_root).
    destruct (decide (root_task_group = q)) as [<-|Hnq].
    + destruct (online_parent _ _ _ _ HO) as (gq & ? & Hq'). simplify_eq. eexists. split; [exact Hq' | exact Ep].
    + exists g. rewrite (online_others _ _ _ _ HO) by assumption. auto.
Qed.

(** [p] has no children in [t]. *)
Definition leaf (p : Z) (t : gtree) : Prop := forall s, subtree s t -> root s = p -> subtrees s = [].

Lemma leaf_kid p x kids k : leaf p (Node x kids) -> k ∈ kids -> leaf p k.
Proof. intros Hl Hk s Hs. apply Hl. econstructor; eauto. Qed.

Lemma prune_root p t : root (prune p t) = root t.
Proof. destruct t. reflexivity. Qed.

Lemma prune_roots p (l : list gtree) :
  root <$> omap (fun k => if root k =? p then None else Some (prune p k)) l = filter (fun x => x <> p) (root <$> l).
Proof.
  induction l as [|k l IH]; [reflexivity|]. cbn [fmap list_fmap omap list_omap]. rewrite filter_cons.
  destruct (Z.eqb_spec (root k) p) as [->|Hne]; [rewrite decide_False by tauto; exact IH|].
  rewrite decide_True by exact Hne. cbn. rewrite prune_root. f_equal. exact IH.
Qed.

Lemma prune_preorder p t : leaf p t -> root t <> p -> preorder (prune p t) = filter (fun x => x <> p) (preorder t).
Proof.
  induction t as [x kids IH] using gtree_ind'. intros Hl Hne. cbn in Hne. cbn [prune preorder]. rewrite filter_cons, decide_True by exact Hne. f_equal.
  assert (forall k, k ∈ kids -> leaf p k) as Hk by (intros k; apply (leaf_kid p x), Hl). clear Hl Hne.
  induction IH as [|k l IHk _ IHl]; [reflexivity|]. cbn [omap list_omap]. rewrite bind_cons, filter_app.
  rewrite <- IHl by (intros k' Hin; apply Hk; right; exact Hin). pose proof (Hk k ltac:(left)) as Hlk.
  destruct (Z.eqb_spec (root k) p) as [E|Hne]; [|rewrite <- IHk by assumption; reflexivity].
  destruct k as [y l']. cbn in E. subst y. assert (l' = []) as -> by exact (Hlk _ (subtree_refl _) eq_refl).
  change (preorder (Node p [])) with [p]. rewrite filter_cons, decide_False by tauto. reflexivity.
Qed.

Lemma prune_grows st st' p t : leaf p t -> grows st t ->
  (forall x g, x ∈ preorder t -> tg_of st !! x = Some g -> exists g', tg_of st' !! x = Some g' /\ tg_parent g' = tg_parent g /\
     tg_children g' = filter (fun c => c <> p) (tg_children g)) -> grows st' (prune p t).
Proof.
  induction t as [x kids IH] using gtree_ind'. intros Hl Hg Hmove. apply grows_node in Hg as ((g & Hg & Hc) & Hpar & Hk).
  assert (forall k y, k ∈ kids -> y ∈ preorder k -> y ∈ preorder (Node x kids)) as Hin.
  { intros k y Hk' Hy. cbn. right. apply list_elem_of_bind. eauto. }
  rewrite Forall_forall in IH, Hpar, Hk. cbn [prune]. apply grows_node. split; [|split].
  - destruct (Hmove x g ltac:(left) Hg) as (g' & Hg' & _ & Hc'). exists g'. rewrite prune_roots, Hc', Hc. auto.
  - apply Forall_forall. intros k Hko. apply list_elem_of_omap in Hko as (k' & Hk' & E). destruct (root k' =? p); [discriminate|]. injection E as <-.
    rewrite prune_root. destruct (Hpar k' Hk') as (y & Hy & Ey). destruct (Hmove _ _ (Hin k' _ Hk' (preorder_root k')) Hy) as (y' & Hy' & Ey' & _).
    exists y'. split; congruence.
  - apply Forall_forall. intros k Hko. apply list_elem_of_omap in Hko as (k' & Hk' & E). destruct (root k' =? p); [discriminate|]. injection E as <-.
    apply (IH k' Hk'); [exact (leaf_kid _ _ _ _ Hl Hk') | exact (Hk k' Hk')|]. intros y gy Hy. apply Hmove. exact (Hin k' y Hk' Hy).
Qed.

(** The release of a group without children. *)
Lemma release_rooted st t p : rooted st t -> p ∈ preorder t -> p <> root_task_group -> leaf p t ->
  exists st' q gq, sched_release_group st p = Ok st' /\ rooted st' (prune p t) /\
    preorder (prune p t) = filter (fun x => x <> p) (preorder t) /\
    task_groups st' = filter (fun x => x <> p) (task_groups st) /\ tg_of st !! q = Some gq /\
    tg_of st' = <[q := with_links gq (tg_parent gq) (filter (fun c => c <> p) (tg_children gq))]> (tg_of st).
Proof.
  intros HR Hp Hne Hl. pose proof HR as [Hr Hg Hd (gt & Ht & Ept)].
  destruct (parent_inside st t p Hg Hp) as (g & q & Hgp & Ep & Hq); [congruence|].
  pose proof (grows_some _ _ Hg) as Hs. rewrite Forall_forall in Hs. destruct (Hs q Hq) as [gq Hgq].
  unfold sched_release_group, tgroup. cbn [tg_of]. rewrite Hgp. cbn [mbind res_bind]. rewrite Ep, Hgq. cbn [mbind res_bind].
  eexists _, q, gq. split; [reflexivity|]. set (st' := set_tg _ _ _).
  assert (tg_of st' !! q = Some (with_links gq (tg_parent gq) (filter (fun c => c <> p) (tg_children gq)))) as Hq' by apply lookup_insert_eq.
  assert (forall x, x <> q -> tg_of st' !! x = tg_of st !! x) as Hx' by (intros x Hx; apply lookup_insert_ne; congruence).
  assert (forall x gx, x ∈ preorder t -> tg_of st !! x = Some gx -> exists g', tg_of st' !! x = Some g' /\ tg_parent g' = tg_parent gx /\
    tg_children g' = filter (fun c => c <> p) (tg_children gx)) as Hmove.
  { intros x gx Hx Hgx. destruct (decide (x = q)) as [->|Hxq]; [rewrite Hgq in Hgx; injection Hgx as <-; eauto|].
    exists gx. rewrite Hx' by exact Hxq. split; [exact Hgx|]. split; [reflexivity|]. symmetry. apply filter_ne_absent. intros Hin.
    destruct (subtree_at t x Hx) as ([x' kids] & Hsub & Ex). cbn in Ex. subst x'.
    apply (subtree_grows _ _ _ Hsub) in Hg. apply grows_node in Hg as ((gx' & ? & Hc) & Hpar & _). simplify_eq. rewrite Hc in Hin.
    apply list_elem_of_fmap in Hin as (k & -> & Hk). rewrite Forall_forall in Hpar. destruct (Hpar k Hk) as (gk & ? & ?). simplify_eq. }
  split; [|split; [apply prune_preorder; [exact Hl | congruence]|]].
  - split; [rewrite prune_root; exact Hr | exact (prune_grows _ _ _ _ Hl Hg Hmove) | |].
    + rewrite prune_preorder by (assumption || congruence). apply NoDup_filter, Hd.
    + assert (root_task_group ∈ preorder t) as Hin by (rewrite <- Hr; apply preorder_root).
      destruct (Hmove _ _ Hin Ht) as (g' & ? & ? & _). exists g'. split; congruence.
  - auto.
Qed.

Lemma prune_absent p t : p ∉ preorder t -> prune p t = t.
Proof.
  induction t as [x kids IH] using gtree_ind'. cbn [preorder prune]. intros Hp. apply not_elem_of_cons in Hp as [_ Hp]. f_equal.
  induction IH as [|k l Hk _ IHl]; [reflexivity|]. rewrite bind_cons in Hp. apply not_elem_of_app in Hp as [Hpk Hpl].
  cbn [omap list_omap]. destruct (Z.eqb_spec (root k) p) as [E|_]; [destruct Hpk; rewrite <- E; apply preorder_root|].
  rewrite (Hk Hpk), (IHl Hpl). reflexivity.
Qed.

Lemma prune_graft q p t : p ∉ preorder t -> prune p (graft q p t) = t.
Proof.
  induction t as [x kids IH] using gtree_ind'. intros Hp. pose proof (prune_absent p _ Hp) as Ha. cbn [graft].
  destruct (Z.eqb_spec x q) as [->|Hne].
  - cbn [prune omap list_omap root] in Ha |- *. rewrite Z.eqb_refl. exact Ha.
  - clear Ha. cbn [preorder prune] in Hp |- *. apply not_elem_of_cons in Hp as [_ Hp]. f_equal.
    induction IH as [|k l Hk _ IHl]; [reflexivity|]. rewrite bind_cons in Hp. apply not_elem_of_app in Hp as [Hpk Hpl].
    cbn [fmap list_fmap omap list_omap]. rewrite graft_root. destruct (Z.eqb_spec (root k) p) as [E|_]; [destruct Hpk; rewrite <- E; apply preorder_root|].
    rewrite (Hk Hpk). f_equal. exact (IHl Hpl).
Qed.

Lemma graft_leaf q p t : p ∉ preorder t -> leaf p (graft q p t).
Proof.
  intros Hp s. induction t as [x kids IH] using gtree_ind'. cbn [graft preorder] in Hp |- *. apply not_elem_of_cons in Hp as [Hx Hp].
  assert (forall k, k ∈ kids -> subtree s k -> root s = p -> subtrees s = []) as Hold.
  { intros k Hk Hs <-. destruct Hp. apply list_elem_of_bind. exists k. split; [exact (subtree_nodes _ _ _ Hs (preorder_root s)) | exact Hk]. }
  destruct (Z.eqb_spec x q) as [->|Hne]; intros Hs Hr; apply subtree_inv in Hs as [->|(k & Hk & Hs)]; try (cbn in Hr; congruence).
  - apply elem_of_cons in Hk as [->|Hk]; [|eauto]. apply subtree_inv in Hs as [->|(k & Hk & _)]; [reflexivity | inversion Hk].
  - apply list_elem_of_fmap in Hk as (k' & -> & Hk'). rewrite Forall_forall in IH. apply (IH k' Hk'); [|exact Hs | exact Hr].
    intros Hin. apply Hp. apply list_elem_of_bind. eauto.
Qed.
