(* ===== verification/Bandwidth.v ===== *)
(** CPU bandwidth of task groups in src/3/20193018_PLUS-1/core.c: the limits a
    group is given ([tg_set_cfs_bandwidth] and the files above it) and the check
    that the limits of the whole tree fit into each other
    ([tg_cfs_schedulable_down], run by the walk of [TaskGroups]). Times are
    nanoseconds in the structures and microseconds in the files. *)

From S2P Require Import Prelude KHeaders Uclamp TaskGroups.
Local Open Scope Z_scope.

(** kernel/sched/sched.h. *)
Class CfsConsts := {
  RUNTIME_INF : Z;
  BW_SHIFT : Z;
  BW_UNIT : Z;
  MAX_BW : Z
}.

Class CfsConstsOk `{CfsConsts} : Prop := {
  runtime_inf : RUNTIME_INF = 2 ^ 64 - 1;
  bw_shift : BW_SHIFT = 20;
  bw_unit : BW_UNIT = 2 ^ 20;
  max_bw : MAX_BW = 2 ^ 44 - 1
}.

#[export] Instance cfs_consts : CfsConsts := {
  RUNTIME_INF := 2 ^ 64 - 1;
  BW_SHIFT := 20;
  BW_UNIT := 2 ^ 20;
  MAX_BW := 2 ^ 44 - 1
}.

#[export] Instance cfs_consts_ok : CfsConstsOk.
Proof. split; reflexivity. Qed.

Definition NSEC_PER_USEC : Z := 1000.
Definition NSEC_PER_MSEC : Z := 1000000.
Definition NSEC_PER_SEC : Z := 1000000000.
Definition U64_MAX : Z := 2 ^ 64 - 1.

(** What [tg_set_cfs_bandwidth] calls in fair.c, in order. *)
Inductive BwCall :=
  | cfs_bandwidth_usage_inc
  | refill_cfs_bandwidth_runtime
  | start_cfs_bandwidth
  | cfs_bandwidth_usage_dec.

Record cfs_schedulable_data := mkCfsData { d_tg : Z; d_period : Z; d_quota : Z }.

Section Bandwidth.
  (** Whether the controller is on the default hierarchy (cgroup2);
      [unthrottle_cfs_rq] of fair.c. *)
  Context `{CfsConsts} (on_dfl : bool) (unthrottle_cfs_rq : CfsRq -> CfsRq).

Definition to_ratio (period runtime : Z) : Z :=
  if runtime =? RUNTIME_INF then BW_UNIT
  else if period =? 0 then 0
  else u64 (Z.shiftl runtime BW_SHIFT) / period.

Definition max_cfs_quota_period : Z := 1 * NSEC_PER_SEC.
Definition min_cfs_quota_period : Z := 1 * NSEC_PER_MSEC.
Definition max_cfs_runtime : Z := MAX_BW * NSEC_PER_USEC.

Definition tg_get_cfs_quota (g : TaskGroup) : Z :=
  if quota (cfs_bandwidth g) =? RUNTIME_INF then -1 else quota (cfs_bandwidth g) / NSEC_PER_USEC.
Definition tg_get_cfs_period (g : TaskGroup) : Z := period (cfs_bandwidth g) / NSEC_PER_USEC.
Definition tg_get_cfs_burst (g : TaskGroup) : Z := burst (cfs_bandwidth g) / NSEC_PER_USEC.

(** * The check of the tree *)

Definition normalize_cfs_quota (p : Z) (g : TaskGroup) (d : cfs_schedulable_data) : Z :=
  let '(period, quota) :=
    if p =? d_tg d then (d_period d, d_quota d)
    else (u64 (tg_get_cfs_period g), u64 (tg_get_cfs_quota g)) in
  if (quota =? RUNTIME_INF) || (quota =? u64 (-1)) then RUNTIME_INF else to_ratio period quota.

Definition set_hierarchical (st : TGState) (p : Z) (g : TaskGroup) (v : Z) : TGState :=
  let b := cfs_bandwidth g in
  set_tg st p (with_cfs g (mkCfsB (period b) (quota b) (burst b) v) (cfs_rqs g)).

(** The local quotas are signed: no limit is -1 there. *)
Definition tg_cfs_schedulable_down (d : cfs_schedulable_data) : tg_visitor := fun st p =>
  g ← tgroup st p;
  match tg_parent g with
  | None => mret (0, set_hierarchical st p g (wrap 64 RUNTIME_INF))
  | Some q =>
      gp ← tgroup st q;
      let quota := wrap 64 (normalize_cfs_quota p g d) in
      let parent_quota := hierarchical_quota (cfs_bandwidth gp) in
      if on_dfl then mret (0, set_hierarchical st p g (Z.min quota parent_quota))
      else if u64 quota =? RUNTIME_INF then mret (0, set_hierarchical st p g parent_quota)
      else if negb (u64 parent_quota =? RUNTIME_INF) && (parent_quota <? quota) then mret (- EINVAL, st)
      else mret (0, set_hierarchical st p g quota)
  end.

Definition __cfs_schedulable (st : TGState) (p period quota : Z) : res (Z * TGState) :=
  let d := if negb (quota =? RUNTIME_INF) then mkCfsData p (period / NSEC_PER_USEC) (quota / NSEC_PER_USEC)
           else mkCfsData p period quota in
  walk_tg_tree_from root_task_group (tg_cfs_schedulable_down d) tg_nop st.

(** * Setting a limit *)

Definition refresh_rq (enabled : bool) (q : CfsRq) : CfsRq :=
  let q := mkCfsRq enabled 0 (throttled q) in
  if throttled q then unthrottle_cfs_rq q else q.

(** The result, the calls into fair.c and the groups afterwards. *)
Definition tg_set_cfs_bandwidth (st : TGState) (p period' quota' burst' : Z) : res (Z * list BwCall * TGState) :=
  if p =? root_task_group then mret (- EINVAL, [], st)
  else if (quota' <? min_cfs_quota_period) || (period' <? min_cfs_quota_period) then mret (- EINVAL, [], st)
  else if max_cfs_quota_period <? period' then mret (- EINVAL, [], st)
  else if negb (quota' =? RUNTIME_INF) && (max_cfs_runtime <? quota') then mret (- EINVAL, [], st)
  else if negb (quota' =? RUNTIME_INF) && ((quota' <? burst') || (max_cfs_runtime <? u64 (burst' + quota')))
    then mret (- EINVAL, [], st)
  else
    '(ret, st) ← __cfs_schedulable st p period' quota';
    if negb (ret =? 0) then mret (ret, [], st)
    else
      g ← tgroup st p;
      let b := cfs_bandwidth g in
      let enabled := negb (quota' =? RUNTIME_INF) in
      let was_enabled := negb (quota b =? RUNTIME_INF) in
      let calls := (if enabled && negb was_enabled then [cfs_bandwidth_usage_inc] else []) ++
        [refill_cfs_bandwidth_runtime] ++ (if enabled then [start_cfs_bandwidth] else []) ++
        (if was_enabled && negb enabled then [cfs_bandwidth_usage_dec] else []) in
      let g := with_cfs g (mkCfsB period' quota' burst' (hierarchical_quota b)) (refresh_rq enabled <$> cfs_rqs g) in
      mret (0, calls, set_tg st p g).

(** The parameters of type [long] of the next three are given as such; what the
    files pass as [u64] arrives there as [long] and is read as [u64] again. *)
Definition tg_set_cfs_quota (st : TGState) (p cfs_quota_us : Z) : res (Z * list BwCall * TGState) :=
  g ← tgroup st p;
  let b := cfs_bandwidth g in
  if cfs_quota_us <? 0 then tg_set_cfs_bandwidth st p (period b) RUNTIME_INF (burst b)
  else if u64 cfs_quota_us <=? U64_MAX / NSEC_PER_USEC then
    tg_set_cfs_bandwidth st p (period b) (u64 (u64 cfs_quota_us * NSEC_PER_USEC)) (burst b)
  else mret (- EINVAL, [], st).

Definition tg_set_cfs_period (st : TGState) (p cfs_period_us : Z) : res (Z * list BwCall * TGState) :=
  if U64_MAX / NSEC_PER_USEC <? u64 cfs_period_us then mret (- EINVAL, [], st)
  else
    g ← tgroup st p;
    let b := cfs_bandwidth g in
    tg_set_cfs_bandwidth st p (u64 (u64 cfs_period_us * NSEC_PER_USEC)) (quota b) (burst b).

Definition tg_set_cfs_burst (st : TGState) (p cfs_burst_us : Z) : res (Z * list BwCall * TGState) :=
  if U64_MAX / NSEC_PER_USEC <? u64 cfs_burst_us then mret (- EINVAL, [], st)
  else
    g ← tgroup st p;
    let b := cfs_bandwidth g in
    tg_set_cfs_bandwidth st p (period b) (quota b) (u64 (u64 cfs_burst_us * NSEC_PER_USEC)).

(** The files of the first hierarchy. *)
Definition cpu_cfs_quota_read_s64 (st : TGState) (p : Z) : res Z := g ← tgroup st p; mret (tg_get_cfs_quota g).
Definition cpu_cfs_quota_write_s64 := tg_set_cfs_quota.
Definition cpu_cfs_period_read_u64 (st : TGState) (p : Z) : res Z := g ← tgroup st p; mret (u64 (tg_get_cfs_period g)).
Definition cpu_cfs_period_write_u64 (st : TGState) (p us : Z) := tg_set_cfs_period st p (wrap 64 us).
Definition cpu_cfs_burst_read_u64 (st : TGState) (p : Z) : res Z := g ← tgroup st p; mret (u64 (tg_get_cfs_burst g)).
Definition cpu_cfs_burst_write_u64 (st : TGState) (p us : Z) := tg_set_cfs_burst st p (wrap 64 us).

(** * cpu.max *)

(** [sscanf] with "%20s %llu" (the token and, when there is one, the number)
    and with "%llu". *)
Context (sscanf_token : list Z -> option (list Z * option Z)) (sscanf_u64 : list Z -> option Z).

Definition max_text : list Z := [109; 97; 120].

(** An error, or the new period and quota. *)
Definition cpu_period_quota_parse (buf : list Z) (periodp : Z) : Z + Z * Z :=
  match sscanf_token buf with
  | None => inl (- EINVAL)
  | Some (tok, number) =>
      let periodp := u64 (from_option id periodp number * NSEC_PER_USEC) in
      match sscanf_u64 tok with
      | Some v => inr (periodp, u64 (v * NSEC_PER_USEC))
      | None => if bool_decide (tok = max_text) then inr (periodp, RUNTIME_INF) else inl (- EINVAL)
      end
  end.

(** A line of cpu.max: the quota, "max" when there is none, and the period. *)
Definition cpu_period_quota_print (period quota : Z) : option Z * Z := (if quota <? 0 then None else Some quota, period).

Definition cpu_max_show (st : TGState) (p : Z) : res (option Z * Z) :=
  g ← tgroup st p; mret (cpu_period_quota_print (tg_get_cfs_period g) (tg_get_cfs_quota g)).

Definition cpu_max_write (st : TGState) (p : Z) (buf : list Z) (nbytes : Z) : res (Z * list BwCall * TGState) :=
  g ← tgroup st p;
  let period := tg_get_cfs_period g in
  let burst := tg_get_cfs_burst g in
  match cpu_period_quota_parse buf period with
  | inl ret => mret (ret, [], st)
  | inr (period, quota) =>
      '(ret, calls, st) ← tg_set_cfs_bandwidth st p period quota burst;
      mret (if ret =? 0 then nbytes else ret, calls, st)
  end.
End Bandwidth.

(** * Limits *)

(** The groups of both states differ in [hierarchical_quota] at most. *)
Definition strip (g : TaskGroup) : TaskGroup :=
  let b := cfs_bandwidth g in with_cfs g (mkCfsB (period b) (quota b) (burst b) 0) (cfs_rqs g).

Definition same_limits (st st' : TGState) : Prop :=
  (forall q, strip <$> tg_of st !! q = strip <$> tg_of st' !! q) /\ task_groups st = task_groups st'.

#[export] Instance same_limits_equiv : Equivalence same_limits.
Proof.
  split; [intros st; split; reflexivity | intros st st' [E ?]; split; [intros q; symmetry; apply E | congruence] |].
  intros a b c [E1 ?] [E2 ?]. split; [intros q; etransitivity; eauto | congruence].
Qed.

Lemma same_limits_some st st' q g : same_limits st st' -> tg_of st !! q = Some g ->
  exists g', tg_of st' !! q = Some g' /\ strip g' = strip g.
Proof.
  intros [E _] Hg. specialize (E q). rewrite Hg in E. destruct (tg_of st' !! q) as [g'|]; [|discriminate].
  apply Some_inj in E. eauto.
Qed.

#[export] Instance same_limits_tree : subrelation same_limits same_tree.
Proof.
  intros st st' [E _] q. specialize (E q). destruct (tg_of st !! q), (tg_of st' !! q); try discriminate; [|reflexivity].
  apply Some_inj in E. unfold strip in E. injection E as Ep Ec. cbn. unfold links. congruence.
Qed.

Lemma strip_fields g g' : strip g' = strip g -> tg_parent g' = tg_parent g /\ tg_children g' = tg_children g /\
  period (cfs_bandwidth g') = period (cfs_bandwidth g) /\ quota (cfs_bandwidth g') = quota (cfs_bandwidth g).
Proof. unfold strip. intros [=]. auto. Qed.

Lemma set_hierarchical_same st p g v : tg_of st !! p = Some g -> same_limits st (set_hierarchical st p g v).
Proof.
  intros Hg. split; [|reflexivity]. intros q. cbn. destruct (decide (q = p)) as [->|Hne].
  - rewrite lookup_insert_eq, Hg. reflexivity.
  - rewrite lookup_insert_ne by congruence. reflexivity.
Qed.

Section Limits.
  Context `{CfsConstsOk}.

(** The bounds that [tg_set_cfs_bandwidth] enforces and that a new group meets. *)
Definition bandwidth_ok (period quota : Z) : Prop :=
  min_cfs_quota_period <= period <= max_cfs_quota_period /\
  (quota = RUNTIME_INF \/ min_cfs_quota_period <= quota <= max_cfs_runtime).

Definition bounded (st : TGState) : Prop := forall p g, tg_of st !! p = Some g ->
  bandwidth_ok (period (cfs_bandwidth g)) (quota (cfs_bandwidth g)).

(** The share of the CPU that a group may use, in units of [2 ^ -20]. *)
Definition rate (period quota : Z) : option Z :=
  if quota =? RUNTIME_INF then None else Some (to_ratio (period / NSEC_PER_USEC) (quota / NSEC_PER_USEC)).

(** The limit of a group when [d] is asked for; the root has none. *)
Definition limit (d : option (Z * (Z * Z))) (st : TGState) (p : Z) : option Z :=
  g ← tg_of st !! p;
  _ ← tg_parent g;
  match d with
  | Some (p', (per, quo)) =>
      if p =? p' then rate per quo else rate (period (cfs_bandwidth g)) (quota (cfs_bandwidth g))
  | None => rate (period (cfs_bandwidth g)) (quota (cfs_bandwidth g))
  end.

Lemma rate_range period quota r : bandwidth_ok period quota -> rate period quota = Some r -> 0 <= r < 2 ^ 63.
Proof.
  unfold bandwidth_ok, rate, to_ratio, min_cfs_quota_period, max_cfs_quota_period, max_cfs_runtime,
    NSEC_PER_USEC, NSEC_PER_MSEC, NSEC_PER_SEC.
  rewrite runtime_inf, max_bw, bw_shift, Z.shiftl_mul_pow2 by lia. intros [Hp Hq].
  destruct (Z.eqb_spec quota (2 ^ 64 - 1)) as [|Hne]; [discriminate|]. intros [= <-].
  pose proof (Z.div_le_lower_bound period 1000 1000 ltac:(lia) ltac:(lia)).
  pose proof (Z.div_pos quota 1000 ltac:(lia) ltac:(lia)). pose proof (Z.div_le_upper_bound quota 1000 (2 ^ 44 - 1) ltac:(lia) ltac:(lia)).
  destruct (Z.eqb_spec (quota / 1000) (2 ^ 64 - 1)); [lia|]. destruct (Z.eqb_spec (period / 1000) 0); [lia|].
  rewrite u64_id by lia. split; [apply Z.div_pos; lia|]. apply Z.div_lt_upper_bound; [lia|]. nia.
Qed.

Lemma get_rate g : bandwidth_ok (period (cfs_bandwidth g)) (quota (cfs_bandwidth g)) ->
  let q := u64 (tg_get_cfs_quota g) in
  (if (q =? RUNTIME_INF) || (q =? u64 (-1)) then RUNTIME_INF else to_ratio (u64 (tg_get_cfs_period g)) q) =
  default RUNTIME_INF (rate (period (cfs_bandwidth g)) (quota (cfs_bandwidth g))).
Proof.
  unfold bandwidth_ok, rate, tg_get_cfs_quota, tg_get_cfs_period, min_cfs_quota_period, max_cfs_quota_period, max_cfs_runtime,
    NSEC_PER_USEC, NSEC_PER_MSEC, NSEC_PER_SEC.
  rewrite runtime_inf, max_bw. intros [Hp Hq]. set (b := cfs_bandwidth g) in *.
  destruct (Z.eqb_spec (quota b) (2 ^ 64 - 1)) as [|Hne]; [reflexivity|].
  pose proof (Z.div_pos (quota b) 1000 ltac:(lia) ltac:(lia)). pose proof (Z.div_le_upper_bound (quota b) 1000 (2 ^ 44 - 1) ltac:(lia) ltac:(lia)).
  pose proof (Z.div_pos (period b) 1000 ltac:(lia) ltac:(lia)). pose proof (Z.div_le_upper_bound (period b) 1000 1000000 ltac:(lia) ltac:(lia)).
  rewrite !(u64_id (_ / _)) by lia. change (u64 (-1)) with (2 ^ 64 - 1). destruct (Z.eqb_spec (quota b / 1000) (2 ^ 64 - 1)); [lia|].
  reflexivity.
Qed.

(** What [__cfs_schedulable] passes to the visitor. *)
Definition request (p per quo : Z) : cfs_schedulable_data :=
  if negb (quo =? RUNTIME_INF) then mkCfsData p (per / NSEC_PER_USEC) (quo / NSEC_PER_USEC) else mkCfsData p per quo.

Lemma normalize_limit st p g q p' per quo :
  bounded st -> bandwidth_ok per quo -> tg_of st !! p = Some g -> tg_parent g = Some q ->
  normalize_cfs_quota p g (request p' per quo) = default RUNTIME_INF (limit (Some (p', (per, quo))) st p).
Proof.
  intros Hb Hr Hg Hp. unfold limit, normalize_cfs_quota. rewrite Hg. cbn [mbind option_bind]. rewrite Hp. cbn [mbind option_bind].
  replace (d_tg (request p' per quo)) with p' by (unfold request; destruct (negb _); reflexivity).
  destruct (Z.eqb_spec p p') as [->|Hne]; [|apply get_rate, (Hb _ _ Hg)].
  unfold request, rate. destruct (Z.eqb_spec quo RUNTIME_INF) as [E|Hq]; cbn; [rewrite E, Z.eqb_refl; reflexivity|].
  destruct Hr as [_ [?|Hq']]; [contradiction|]. revert Hq'. unfold min_cfs_quota_period, max_cfs_runtime, NSEC_PER_USEC, NSEC_PER_MSEC.
  rewrite runtime_inf, max_bw. change (u64 (-1)) with (2 ^ 64 - 1). intros Hq'.
  pose proof (Z.div_le_upper_bound quo 1000 (2 ^ 44 - 1) ltac:(lia) ltac:(lia)).
  destruct (Z.eqb_spec (quo / 1000) (2 ^ 64 - 1)); [lia|]. reflexivity.
Qed.

Lemma limit_range d st p r : bounded st -> (forall x, d = Some x -> bandwidth_ok (fst (snd x)) (snd (snd x))) ->
  limit d st p = Some r -> 0 <= r < 2 ^ 63.
Proof.
  intros Hb Hd. unfold limit. destruct (tg_of st !! p) as [g|] eqn:Hg; [|discriminate]. cbn.
  destruct (tg_parent g); [|discriminate]. cbn. destruct d as [[p' [per quo]]|].
  - destruct (p =? p'); [apply (rate_range per quo), (Hd _ eq_refl) | apply rate_range, (Hb _ _ Hg)].
  - apply rate_range, (Hb _ _ Hg).
Qed.

Lemma limit_same d st st' p : same_limits st st' -> limit d st p = limit d st' p.
Proof.
  intros E. unfold limit. destruct (tg_of st !! p) as [g|] eqn:Hg.
  - destruct (same_limits_some _ _ _ _ E Hg) as (g' & Hg' & Es). rewrite Hg'. cbn. apply strip_fields in Es as (-> & _ & -> & ->). reflexivity.
  - symmetry in E. destruct (tg_of st' !! p) as [g'|] eqn:Hg'; [|reflexivity].
    destruct (same_limits_some _ _ _ _ E Hg') as (g & Hg0 & _). congruence.
Qed.

(** * One group *)

(** A limit as [hierarchical_quota] stores it. *)
Definition stored (o : option Z) : Z := default (-1) o.

Definition or_above (own above : option Z) : option Z := match own with Some r => Some r | None => above end.

Definition exceeds (own above : option Z) : bool :=
  match own, above with Some r, Some a => a <? r | _, _ => false end.

(** The limit above a group, as its parent has stored it. *)
Definition above_is (st : TGState) (p : Z) (above : option Z) : Prop :=
  exists g, tg_of st !! p = Some g /\
    match tg_parent g with
    | None => above = None
    | Some q => q <> p /\ exists gq, tg_of st !! q = Some gq /\ hierarchical_quota (cfs_bandwidth gq) = stored above
    end.

(** The stored quota of a group is its own limit or else its parent's. *)
Definition inherits (d : option (Z * (Z * Z))) (st : TGState) (p : Z) : Prop :=
  exists above, above_is st p above /\ exists g, tg_of st !! p = Some g /\
    hierarchical_quota (cfs_bandwidth g) = stored (or_above (limit d st p) above).

Section Request.
  Context (p' per quo : Z) (Hreq : bandwidth_ok per quo).

#[local] Abbreviation d := (Some (p', (per, quo))).
#[local] Abbreviation down := (tg_cfs_schedulable_down false (request p' per quo)).

Lemma request_range st p r : bounded st -> limit d st p = Some r -> 0 <= r < 2 ^ 63.
Proof. intros Hb. apply limit_range; [exact Hb|]. intros x [= <-]. exact Hreq. Qed.

Lemma down_spec st p above g :
  bounded st -> above_is st p above -> tg_of st !! p = Some g -> (forall a, above = Some a -> 0 <= a < 2 ^ 63) ->
  down st p =
    if exceeds (limit d st p) above then mret (- EINVAL, st)
    else mret (0, set_hierarchical st p g (stored (or_above (limit d st p) above))).
Proof.
  intros Hb (g' & Hg' & Hab) Hg Ha. rewrite Hg in Hg'. injection Hg' as <-.
  unfold tg_cfs_schedulable_down, tgroup. rewrite Hg. cbn [mbind res_bind].
  destruct (tg_parent g) as [q|] eqn:Ep.
  - destruct Hab as (_ & gq & Hq & Hh). rewrite Hq. cbn [mbind res_bind]. rewrite (normalize_limit _ _ _ _ _ _ _ Hb Hreq Hg Ep), Hh.
    destruct (limit d st p) as [r|] eqn:Er; cbn [from_option id or_above exceeds].
    + pose proof (request_range _ _ _ Hb Er) as Hr. rewrite (wrap_id 64) by lia. rewrite u64_id, runtime_inf by lia.
      destruct (Z.eqb_spec r (2 ^ 64 - 1)); [lia|]. destruct above as [a|]; cbn; [|reflexivity].
      pose proof (Ha _ eq_refl). rewrite u64_id by lia. destruct (Z.eqb_spec a (2 ^ 64 - 1)); [lia|]. reflexivity.
    + rewrite runtime_inf. reflexivity.
  - subst above. assert (limit d st p = None) as ->; [|cbn; rewrite runtime_inf; reflexivity].
    unfold limit. rewrite Hg. cbn. rewrite Ep. reflexivity.
Qed.

Lemma down_keeps : keeps down.
Proof.
  intros st p r st'. unfold tg_cfs_schedulable_down, tgroup. destruct (tg_of st !! p) as [g|] eqn:Hg; [|discriminate]. cbn [mbind res_bind].
  assert (forall v, same_tree st (set_hierarchical st p g v)) as Hs by (intros v; apply same_limits_tree, set_hierarchical_same, Hg).
  destruct (tg_parent g) as [q|]; [|intros [= _ <-]; apply Hs]. destruct (tg_of st !! q) as [gq|]; [|discriminate]. cbn.
  destruct (u64 _ =? _); [intros [= _ <-]; apply Hs|]. destruct (_ && _); intros [= _ <-]; [reflexivity | apply Hs].
Qed.

(** * The whole tree *)

Fixpoint fits_under (lim : Z -> option Z) (above : option Z) (t : gtree) : bool :=
  let 'Node p kids := t in
  negb (exceeds (lim p) above) && forallb (fits_under lim (or_above (lim p) above)) kids.

(** The subtree may be entered: what its root hangs from is outside. *)
Definition hangs (st : TGState) (t : gtree) (above : option Z) : Prop :=
  above_is st (root t) above /\
  forall g q, tg_of st !! root t = Some g -> tg_parent g = Some q -> q ∉ preorder t.

Definition checked (st : TGState) (above : option Z) (l : list gtree) (r : Z) (st' : TGState) : Prop :=
  let nodes := l ≫= preorder in
  same_limits st st' /\ outside nodes st st' /\
  if forallb (fits_under (limit d st) above) l then r = 0 /\ Forall (inherits d st') nodes else r = - EINVAL.

Lemma bounded_same st st' : same_limits st st' -> bounded st -> bounded st'.
Proof.
  intros E Hb p g Hg. symmetry in E. destruct (same_limits_some _ _ _ _ E Hg) as (g' & Hg' & Es).
  apply strip_fields in Es as (_ & _ & <- & <-). exact (Hb _ _ Hg').
Qed.

Lemma stored_range st p above : bounded st -> (forall a, above = Some a -> 0 <= a < 2 ^ 63) ->
  forall a, or_above (limit d st p) above = Some a -> 0 <= a < 2 ^ 63.
Proof.
  intros Hb Ha a. destruct (limit d st p) as [r|] eqn:Er; cbn; [|apply Ha].
  intros [= <-]. exact (request_range _ _ _ Hb Er).
Qed.

Lemma fits_ext lim lim' t : (forall q, lim q = lim' q) -> forall above, fits_under lim above t = fits_under lim' above t.
Proof.
  intros E. induction t as [p kids IH] using gtree_ind'. intros above. cbn. rewrite <- E. f_equal.
  induction IH as [|k l Hk _ IHl]; [reflexivity|]. cbn. rewrite Hk, IHl. reflexivity.
Qed.

Lemma fits_same st st' above l : same_limits st st' ->
  forallb (fits_under (limit d st) above) l = forallb (fits_under (limit d st') above) l.
Proof.
  intros Hs. induction l as [|t l IH]; [reflexivity|]. cbn. rewrite IH. f_equal. apply fits_ext.
  intros q. apply limit_same, Hs.
Qed.

Lemma above_is_frame st st' p above :
  above_is st p above -> tg_of st' !! p = tg_of st !! p ->
  (forall g q, tg_of st !! p = Some g -> tg_parent g = Some q -> tg_of st' !! q = tg_of st !! q) -> above_is st' p above.
Proof.
  intros (g & Hg & Ha) E Eq. exists g. rewrite E. split; [exact Hg|].
  destruct (tg_parent g) as [q|] eqn:Ep; [|exact Ha]. rewrite (Eq g q Hg Ep). exact Ha.
Qed.

Lemma inherits_frame st st' p :
  same_limits st st' -> inherits d st p -> tg_of st' !! p = tg_of st !! p ->
  (forall g q, tg_of st !! p = Some g -> tg_parent g = Some q -> tg_of st' !! q = tg_of st !! q) -> inherits d st' p.
Proof.
  intros Es (above & Ha & g & Hg & Hh) E Eq. exists above. split; [exact (above_is_frame _ _ _ _ Ha E Eq)|].
  exists g. rewrite E, <- (limit_same _ _ _ _ Es). auto.
Qed.

(** A tree that was checked stays so when others, apart from it, are. *)
Lemma inherits_apart st st' t l :
  grows st t -> (forall q g, tg_of st !! root t = Some g -> tg_parent g = Some q -> q ∉ l) ->
  (forall q, q ∈ preorder t -> q ∉ l) -> same_limits st st' -> outside l st st' ->
  Forall (inherits d st) (preorder t) -> Forall (inherits d st') (preorder t).
Proof.
  intros Hg Hroot Hl Es Ho. rewrite !Forall_forall. intros Hi x Hx.
  apply (inherits_frame st); [exact Es | apply Hi, Hx | apply Ho, Hl, Hx |].
  intros g q Hgx Hq. apply Ho. destruct (decide (x = root t)) as [->|Hne]; [eapply Hroot; eauto|].
  destruct (parent_inside _ _ _ Hg Hx Hne) as (g' & q' & Hg' & Hq' & Hin). simplify_eq. apply Hl, Hin.
Qed.

Definition visits_checked (t : gtree) : Prop := forall st above,
  bounded st -> grows st t -> NoDup (preorder t) -> hangs st t above -> (forall a, above = Some a -> 0 <= a < 2 ^ 63) ->
  exists r st', visit down tg_nop t st = Ok (r, st') /\ same_limits st st' /\ outside (preorder t) st st' /\
    if fits_under (limit d st) above t then r = 0 /\ Forall (inherits d st') (preorder t) else r = - EINVAL.

Lemma visit_each_checked p above l : Forall visits_checked l -> (forall a, above = Some a -> 0 <= a < 2 ^ 63) ->
  forall st, bounded st -> Forall (grows st) l -> NoDup (l ≫= preorder) -> p ∉ l ≫= preorder ->
  Forall (fun k => exists g, tg_of st !! root k = Some g /\ tg_parent g = Some p) l ->
  (exists g, tg_of st !! p = Some g /\ hierarchical_quota (cfs_bandwidth g) = stored above) ->
  exists r st', visit_each (visit down tg_nop) l st = Ok (r, st') /\ checked st above l r st'.
Proof.
  intros Hl Ha. induction Hl as [|k l Hk _ IH]; intros st Hb Hg Hd Hp Hpar (g & Hgp & Hh).
  { exists 0, st. split; [reflexivity|]. split; [reflexivity|]. split; [intros q _; reflexivity|]. cbn. auto. }
  rewrite bind_cons in Hd, Hp. apply NoDup_app in Hd as (Hdk & Hapart & Hdl). apply not_elem_of_app in Hp as [Hpk Hpl].
  apply Forall_cons in Hg as [Hgk Hgl], Hpar as [(gk & Hgk' & Epar) Hparl].
  destruct (Hk st above Hb Hgk Hdk) as (r & st1 & E1 & Hs1 & Ho1 & H1); [|exact Ha|].
  { split; [|congruence]. exists gk. split; [exact Hgk'|]. rewrite Epar. split; [|eauto].
    intros ->. apply Hpk, preorder_root. }
  cbn [visit_each]. unfold and_then. rewrite E1. cbn [mbind res_bind]. unfold checked. cbn [forallb]. rewrite bind_cons.
  destruct (fits_under (limit d st) above k); cbn [andb].
  2: { subst r. exists (- EINVAL), st1. split; [reflexivity|]. split; [exact Hs1|]. split; [|reflexivity].
       intros q Hq. apply Ho1. apply not_elem_of_app in Hq. tauto. }
  destruct H1 as [-> Hin1]. cbn [Z.eqb negb]. pose proof (same_limits_tree _ _ Hs1) as Ht1.
  destruct (IH st1) as (r & st2 & E2 & Hs2 & Ho2 & H2).
  - exact (bounded_same _ _ Hs1 Hb).
  - eapply Forall_impl; [exact Hgl|]. intros t Hg. rewrite <- Ht1. exact Hg.
  - exact Hdl.
  - exact Hpl.
  - eapply Forall_impl; [exact Hparl|]. intros t (g' & Hg' & Ep).
    destruct (same_tree_some _ _ _ _ Ht1 Hg') as (g1 & ? & ? & _). exists g1. split; congruence.
  - exists g. split; [rewrite Ho1 by exact Hpk; exact Hgp | exact Hh].
  - exists r, st2. split; [exact E2|]. split; [etransitivity; eauto|]. split.
    { intros q Hq. apply not_elem_of_app in Hq as [Hq1 Hq2]. rewrite Ho2, Ho1 by assumption. reflexivity. }
    rewrite (fits_same _ _ _ _ Hs1).
    destruct (forallb _ l); [|exact H2]. destruct H2 as [-> Hin2]. split; [reflexivity|]. apply Forall_app. split; [|exact Hin2].
    apply (inherits_apart st1 st2 k (l ≫= preorder)); try assumption; [rewrite <- Ht1; exact Hgk|].
    intros q g1 Hg1 Eq. destruct (same_tree_some _ _ _ _ Ht1 Hgk') as (g2 & ? & ? & _). simplify_eq. congruence.
Qed.

Lemma visit_checked t : visits_checked t.
Proof.
  induction t as [p kids IH] using gtree_ind'. intros st above Hb Hg Hd [Hab Hout] Ha. cbn [root] in *.
  pose proof Hg as Hg0. apply grows_node in Hg0 as ((g & Hgp & Hc) & Hpar & Hk). cbn [preorder] in Hd, Hout. apply NoDup_cons in Hd as [Hp Hd].
  cbn [visit]. rewrite (down_spec st p above g Hb Hab Hgp Ha). cbn [fits_under]. unfold and_then.
  destruct (exceeds (limit d st p) above) eqn:Ex; cbn [mret res_ret mbind res_bind Z.eqb negb andb].
  { exists (- EINVAL), st. split; [reflexivity|]. split; [reflexivity|]. split; [intros q _; reflexivity | reflexivity]. }
  set (own := or_above (limit d st p) above). set (st1 := set_hierarchical st p g (stored own)).
  pose proof (set_hierarchical_same st p g (stored own) Hgp) as Hs1. fold st1 in Hs1. pose proof (same_limits_tree _ _ Hs1) as Ht1.
  assert (forall q, q <> p -> tg_of st1 !! q = tg_of st !! q) as Ho1.
  { intros q Hq. cbn. rewrite lookup_insert_ne by congruence. reflexivity. }
  set (g1 := with_cfs g (mkCfsB (period (cfs_bandwidth g)) (quota (cfs_bandwidth g)) (burst (cfs_bandwidth g)) (stored own)) (cfs_rqs g)).
  assert (tg_of st1 !! p = Some g1) as Hp1 by apply lookup_insert_eq.
  destruct (visit_each_checked p own kids IH (stored_range st p above Hb Ha) st1) as (r & st2 & E2 & Hs2 & Ho2 & H2);
    [exact (bounded_same _ _ Hs1 Hb) | rewrite Ht1 in Hg; apply grows_node in Hg; tauto | exact Hd | exact Hp
    |rewrite Ht1 in Hg; apply grows_node in Hg; tauto | eauto |].
  rewrite E2. cbn [mbind res_bind]. pose proof (Ho2 p Hp) as E2p. rewrite Hp1 in E2p.
  rewrite (fits_same _ _ _ _ Hs1).
  assert (outside (p :: (kids ≫= preorder)) st st2) as Ho.
  { intros q Hq. apply not_elem_of_cons in Hq as [Hq1 Hq2]. rewrite Ho2, Ho1 by assumption. reflexivity. }
  assert (same_limits st st2) as Hs by (etransitivity; eauto). cbn [preorder].
  destruct (forallb _ kids).
  - destruct H2 as [-> Hin]. exists 0, st2. cbn. split; [reflexivity|]. split; [exact Hs|]. split; [exact Ho|]. split; [reflexivity|].
    constructor; [|exact Hin]. exists above. split.
    + destruct Hab as (g' & Hg' & Hab). rewrite Hgp in Hg'. injection Hg' as <-. exists g1.
      split; [exact E2p|]. change (tg_parent g1) with (tg_parent g).
      destruct (tg_parent g) as [q|] eqn:Ep; [|exact Hab]. destruct Hab as (Hne & gq & Hq & Hh).
      split; [exact Hne|]. exists gq. rewrite Ho by (exact (Hout _ _ Hgp Ep)). auto.
    + exists g1. split; [exact E2p|]. rewrite <- (limit_same _ _ _ _ Hs). reflexivity.
  - subst r. exists (- EINVAL), st2. cbn. split; [reflexivity|]. split; [exact Hs|]. split; [exact Ho | reflexivity].
Qed.
End Request.

(** * Every ancestor at once *)

(** No group of the tree has a higher limit than a group above it. *)
Definition fits (d : option (Z * (Z * Z))) (st : TGState) (t : gtree) : Prop := forall x a r r',
  x ∈ preorder t -> tc (parent_of st) x a -> limit d st x = Some r -> limit d st a = Some r' -> r <= r'.

Section Closed.
  Context (d : option (Z * (Z * Z))) (st : TGState).

(** [above] is the lowest limit above [p]. *)
Definition caps (p : Z) (above : option Z) : Prop :=
  (forall a r', tc (parent_of st) p a -> limit d st a = Some r' -> exists b, above = Some b /\ b <= r') /\
  (forall b, above = Some b -> exists a, tc (parent_of st) p a /\ limit d st a = Some b).

Lemma caps_child p k above :
  caps p above -> exceeds (limit d st p) above = false -> parent_of st k p -> caps k (or_above (limit d st p) above).
Proof.
  intros [Hall Hex] He Hk. split.
  - intros a r' Ha Hr. destruct (tc_parent _ _ _ _ Hk Ha) as [->|Hpa].
    + rewrite Hr. exists r'. split; [reflexivity | lia].
    + destruct (Hall a r' Hpa Hr) as (b & -> & Hb). destruct (limit d st p) as [r|]; cbn in He |- *; [|exists b; auto].
      exists r. split; [reflexivity|]. destruct (Z.ltb_spec b r); [discriminate | lia].
  - intros b Hb. destruct (limit d st p) as [r|] eqn:Er; cbn in Hb.
    + injection Hb as <-. exists p. split; [apply tc_once, Hk | exact Er].
    + destruct (Hex b Hb) as (a & Ha & Hl). exists a. split; [eapply tc_l; eauto | exact Hl].
Qed.

Lemma fits_under_iff t : grows st t -> forall above, caps (root t) above ->
  fits_under (limit d st) above t = true <-> fits d st t.
Proof.
  induction t as [p kids IH] using gtree_ind'. intros Hg above Hc. apply grows_node in Hg as (_ & Hp & Hk). cbn [root fits_under] in *.
  rewrite andb_true_iff, negb_true_iff. split.
  - intros [He Hf] x a r r' Hx Ha Hr Hr'. cbn in Hx. apply elem_of_cons in Hx as [->|Hx].
    + destruct Hc as [Hall _]. destruct (Hall a r' Ha Hr') as (b & -> & Hb). rewrite Hr in He. cbn in He.
      destruct (Z.ltb_spec b r); [discriminate | lia].
    + apply list_elem_of_bind in Hx as (k & Hx & Hin). rewrite forallb_forall in Hf. rewrite Forall_forall in IH, Hp, Hk.
      specialize (Hf k (proj1 (list_elem_of_In _ _) Hin)). apply (IH k Hin (Hk k Hin)) in Hf; [|exact (caps_child p (root k) above Hc He (Hp k Hin))].
      exact (Hf x a r r' Hx Ha Hr Hr').
  - intros Hf. assert (exceeds (limit d st p) above = false) as He.
    { destruct (limit d st p) as [r|] eqn:Er; [|reflexivity]. destruct above as [b|]; [|reflexivity]. cbn.
      destruct Hc as [_ Hex]. destruct (Hex b eq_refl) as (a & Ha & Hl). apply Z.ltb_ge.
      apply (Hf p a r b); [left | assumption..]. }
    split; [exact He|]. apply forallb_forall. intros k Hin. apply list_elem_of_In in Hin. rewrite Forall_forall in IH, Hp, Hk.
    apply (IH k Hin (Hk k Hin) _ (caps_child p (root k) above Hc He (Hp k Hin))). intros x a r r' Hx. apply Hf. cbn. right.
    apply list_elem_of_bind. eauto.
Qed.
End Closed.

Lemma caps_root d st t : rooted st t -> caps d st (root t) None.
Proof.
  intros HR. rewrite (rooted_root _ _ HR). destruct (rooted_top _ _ HR) as (g & Hg & Ep). split; [|discriminate].
  intros a r' Ha _. exfalso. inversion Ha as [? ? (g' & ? & ?)|? y ? (g' & ? & ?) _]; simplify_eq.
Qed.

Lemma schedulable_spec st t p per quo :
  rooted st t -> bounded st -> bandwidth_ok per quo ->
  exists r st', __cfs_schedulable false st p per quo = Ok (r, st') /\ same_limits st st' /\
    (r = 0 /\ fits (Some (p, (per, quo))) st t /\ Forall (inherits (Some (p, (per, quo))) st') (preorder t) \/
     r = - EINVAL /\ ~ fits (Some (p, (per, quo))) st t).
Proof.
  intros HR Hb Hr. unfold __cfs_schedulable. fold (request p per quo). rewrite <- (rooted_root _ _ HR).
  rewrite (walk_visits _ _ st t (down_keeps p per quo) tg_nop_keeps (rooted_grows _ _ HR) (rooted_distinct _ _ HR)).
  destruct (visit_checked p per quo Hr t st None) as (r & st' & -> & Hs & _ & H'); try apply HR; [exact Hb| |discriminate|].
  - destruct (rooted_top _ _ HR) as (g & Hg & Ep). rewrite <- (rooted_root _ _ HR) in Hg.
    split; [exists g; rewrite Ep; auto | congruence].
  - exists r, st'. split; [reflexivity|]. split; [exact Hs|].
    pose proof (fits_under_iff (Some (p, (per, quo))) st t (rooted_grows _ _ HR) None (caps_root _ _ _ HR)) as Hf.
    destruct (fits_under _ None t); [left; tauto|]. right. split; [exact H'|]. intros HF. apply Hf in HF. discriminate.
Qed.

(** * Granting *)

(** The group [p] with other limits and queues; the stored quota stays. *)
Definition granted (st : TGState) (p : Z) (g : TaskGroup) (per quo bur : Z) (q : list CfsRq) : TGState :=
  set_tg st p (with_cfs g (mkCfsB per quo bur (hierarchical_quota (cfs_bandwidth g))) q).

Lemma fits_same_limits d st st' t : same_limits st st' -> fits d st t -> fits d st' t.
Proof.
  intros E Hf x a r r' Hx Ha Hr Hr'. rewrite <- (limit_same _ _ _ x E) in Hr. rewrite <- (limit_same _ _ _ a E) in Hr'.
  apply (tc_parent_same _ _ _ _ (same_limits_tree _ _ E)) in Ha. eauto.
Qed.

Section Granted.
  Context (st : TGState) (p : Z) (g : TaskGroup) (per quo bur : Z) (rqs : list CfsRq) (Hg : tg_of st !! p = Some g).

#[local] Abbreviation st' := (granted st p g per quo bur rqs).

Lemma granted_tree : same_tree st st'.
Proof. apply (same_tree_set _ _ g); [exact Hg | reflexivity]. Qed.

Lemma granted_limit q : limit (Some (p, (per, quo))) st q = limit None st' q.
Proof.
  unfold limit. cbn. destruct (Z.eqb_spec q p) as [->|Hne].
  - rewrite lookup_insert_eq, Hg. reflexivity.
  - rewrite lookup_insert_ne by congruence. reflexivity.
Qed.

Lemma granted_hierarchical q : hierarchical_quota ∘ cfs_bandwidth <$> tg_of st' !! q = hierarchical_quota ∘ cfs_bandwidth <$> tg_of st !! q.
Proof.
  cbn. destruct (decide (q = p)) as [->|Hne]; [rewrite lookup_insert_eq, Hg; reflexivity|].
  rewrite lookup_insert_ne by congruence. reflexivity.
Qed.

Lemma granted_inherits q : inherits (Some (p, (per, quo))) st q -> inherits None st' q.
Proof.
  intros (above & (x & Hx & Ha) & x' & Hx' & Hh). rewrite Hx in Hx'. injection Hx' as <-.
  destruct (same_tree_some _ _ _ _ granted_tree Hx) as (y & Hy & Ep & _). exists above.
  assert (forall r v, (exists z, tg_of st !! r = Some z /\ hierarchical_quota (cfs_bandwidth z) = v) ->
    exists z, tg_of st' !! r = Some z /\ hierarchical_quota (cfs_bandwidth z) = v) as Hmove.
  { intros r v (z & Hz & Ez). pose proof (granted_hierarchical r) as E. rewrite Hz in E.
    destruct (tg_of st' !! r) as [z'|]; [|discriminate]. injection E as E. eexists. split; [reflexivity | congruence]. }
  split.
  - exists y. split; [exact Hy|]. rewrite Ep. destruct (tg_parent x) as [r|]; [|exact Ha]. destruct Ha as [Hne Ha]. auto.
  - rewrite <- granted_limit. apply Hmove. eauto.
Qed.

Lemma granted_fits t : fits (Some (p, (per, quo))) st t <-> fits None st' t.
Proof.
  assert (forall x a, tc (parent_of st) x a <-> tc (parent_of st') x a) as Ht
    by (intros x a; apply tc_parent_same, granted_tree).
  unfold fits. setoid_rewrite granted_limit. setoid_rewrite Ht. reflexivity.
Qed.
End Granted.

Lemma granted_bounded st p g per quo bur rqs : bounded st -> bandwidth_ok per quo -> bounded (granted st p g per quo bur rqs).
Proof.
  intros Hb Hr q x. cbn. destruct (decide (q = p)) as [->|Hne].
  - rewrite lookup_insert_eq. intros [= <-]. exact Hr.
  - rewrite lookup_insert_ne by congruence. apply Hb.
Qed.

Definition burst_ok (quo bur : Z) : Prop := quo = RUNTIME_INF \/ bur <= quo /\ bur + quo <= max_cfs_runtime.

Lemma if_or {A} (a b : bool) (x y : A) : (if a then x else if b then x else y) = if a || b then x else y.
Proof. destruct a; reflexivity. Qed.

(** The tests on the numbers. *)
Lemma numbers_ok per quo bur : 0 <= per < 2 ^ 64 -> 0 <= quo < 2 ^ 64 -> 0 <= bur < 2 ^ 64 ->
  (quo <? min_cfs_quota_period) || (per <? min_cfs_quota_period) || (max_cfs_quota_period <? per) ||
  negb (quo =? RUNTIME_INF) && (max_cfs_runtime <? quo) ||
  negb (quo =? RUNTIME_INF) && ((quo <? bur) || (max_cfs_runtime <? u64 (bur + quo))) = false <->
  bandwidth_ok per quo /\ burst_ok quo bur.
Proof.
  unfold bandwidth_ok, burst_ok, min_cfs_quota_period, max_cfs_quota_period, max_cfs_runtime,
    NSEC_PER_USEC, NSEC_PER_MSEC, NSEC_PER_SEC. rewrite runtime_inf, max_bw. intros Hper Hquo Hbur.
  rewrite !orb_false_iff, !andb_false_iff, !orb_false_iff, !negb_false_iff, !Z.ltb_ge, !Z.eqb_eq.
  destruct (decide (quo = 2 ^ 64 - 1)) as [->|Hne]; [lia|].
  destruct (decide (quo <= (2 ^ 44 - 1) * 1000)) as [Hq|]; [|lia]. destruct (decide (bur <= quo)) as [Hbq|]; [|lia].
  rewrite u64_id by lia. lia.
Qed.

(** What setting a limit does: it is granted when its numbers are in range and
    the limits of all groups then fit, and refused otherwise. *)
Lemma set_bandwidth_spec f st t p g per quo bur :
  rooted st t -> bounded st -> tg_of st !! p = Some g -> p <> root_task_group ->
  0 <= per < 2 ^ 64 -> 0 <= quo < 2 ^ 64 -> 0 <= bur < 2 ^ 64 ->
  exists ret calls st', tg_set_cfs_bandwidth false f st p per quo bur = Ok (ret, calls, st') /\
    (ret = 0 /\ bandwidth_ok per quo /\ burst_ok quo bur /\
       (exists st1 g1, same_limits st st1 /\ tg_of st1 !! p = Some g1 /\
         st' = granted st1 p g1 per quo bur (refresh_rq f (negb (quo =? RUNTIME_INF)) <$> cfs_rqs g1) /\
         fits None st' t /\ Forall (inherits None st') (preorder t)) \/
     ret = - EINVAL /\ calls = [] /\ same_limits st st' /\
       (bandwidth_ok per quo -> burst_ok quo bur -> ~ fits None (granted st p g per quo bur (cfs_rqs g)) t)).
Proof.
  intros HR Hb Hg Hp Hper Hquo Hbur. pose proof (numbers_ok per quo bur Hper Hquo Hbur) as Hn.
  unfold tg_set_cfs_bandwidth. destruct (Z.eqb_spec p root_task_group) as [|_]; [contradiction|]. rewrite !if_or.
  destruct (_ || _).
  { exists (- EINVAL), [], st. split; [reflexivity|]. right. repeat (split; [reflexivity|]). intros H1 H2. discriminate (proj2 Hn (conj H1 H2)). }
  destruct (proj1 Hn eq_refl) as [Hbw Hbo].
  destruct (schedulable_spec st t p per quo HR Hb Hbw) as (r & st1 & E & Hs & Hr). rewrite E. cbn [mbind res_bind].
  destruct Hr as [(-> & Hf & Hi) | (-> & Hf)].
  - cbn [Z.eqb negb]. destruct (same_tree_some _ _ _ _ (same_limits_tree _ _ Hs) Hg) as (g1 & Hg1 & _).
    unfold tgroup. rewrite Hg1. cbn [mbind res_bind]. eexists 0, _, _. split; [reflexivity|]. left.
    repeat (split; [first [reflexivity | assumption]|]). exists st1, g1. split; [exact Hs|]. split; [exact Hg1|]. split; [reflexivity|].
    split.
    + apply (granted_fits st1 p g1 per quo bur _ Hg1). eapply fits_same_limits; eauto.
    + eapply Forall_impl; [exact Hi|]. intros q. apply granted_inherits, Hg1.
  - exists (- EINVAL), [], st1. split; [reflexivity|]. right. split; [reflexivity|]. split; [reflexivity|]. split; [exact Hs|].
    intros _ _. rewrite <- granted_fits by exact Hg. exact Hf.
Qed.

(** What is left of the state when a limit has been stored after the check. *)
Lemma granted_whole st st1 t p g1 per quo bur rqs :
  rooted st t -> bounded st -> same_limits st st1 -> tg_of st1 !! p = Some g1 -> bandwidth_ok per quo ->
  let st' := granted st1 p g1 per quo bur rqs in
  rooted st' t /\ bounded st' /\
  (exists g', tg_of st' !! p = Some g' /\ cfs_bandwidth g' = mkCfsB per quo bur (hierarchical_quota (cfs_bandwidth g'))) /\
  (forall q, q <> p -> strip <$> tg_of st' !! q = strip <$> tg_of st !! q).
Proof.
  intros HR Hb Hs Hg1 Hbw st'.
  split; [apply (rooted_same st); [etransitivity; [apply same_limits_tree, Hs | apply granted_tree, Hg1] | exact HR]|].
  split; [apply granted_bounded; [exact (bounded_same _ _ Hs Hb) | exact Hbw]|].
  split; [eexists; split; [apply lookup_insert_eq | reflexivity]|].
  intros q Hq. cbn. rewrite lookup_insert_ne by congruence. symmetry. apply Hs.
Qed.

(** * The default hierarchy *)

Definition unlimited (st : TGState) (p : Z) : Prop :=
  exists g, tg_of st !! p = Some g /\ hierarchical_quota (cfs_bandwidth g) = -1.

Section Default.
  Context (p' per quo : Z) (Hreq : bandwidth_ok per quo).

#[local] Abbreviation down := (tg_cfs_schedulable_down true (request p' per quo)).

Lemma default_down st p g :
  bounded st -> tg_of st !! p = Some g -> (forall q, tg_parent g = Some q -> unlimited st q) ->
  down st p = Ok (0, set_hierarchical st p g (-1)).
Proof.
  intros Hb Hg Hp. unfold tg_cfs_schedulable_down, tgroup. rewrite Hg. cbn [mbind res_bind].
  destruct (tg_parent g) as [q|] eqn:Ep; [|rewrite runtime_inf; reflexivity].
  destruct (Hp q eq_refl) as (gq & Hq & Hh). rewrite Hq. cbn [mbind res_bind].
  rewrite (normalize_limit _ _ _ _ _ _ _ Hb Hreq Hg Ep), Hh. unfold mret, res_ret. do 3 f_equal.
  destruct (limit _ st p) as [r|] eqn:Er; cbn [from_option id].
  - pose proof (request_range p' per quo Hreq st p r Hb Er). rewrite (wrap_id 64) by lia. lia.
  - rewrite runtime_inf. reflexivity.
Qed.

Lemma default_keeps : keeps down.
Proof.
  intros st p r st'. unfold tg_cfs_schedulable_down, tgroup. destruct (tg_of st !! p) as [g|] eqn:Hg; [|discriminate]. cbn [mbind res_bind].
  destruct (tg_parent g) as [q|]; [destruct (tg_of st !! q); [|discriminate]|]; intros [= _ <-];
    apply same_limits_tree, set_hierarchical_same, Hg.
Qed.

Lemma unlimited_set st p g q : tg_of st !! p = Some g -> q = p \/ unlimited st q -> unlimited (set_hierarchical st p g (-1)) q.
Proof.
  intros Hg Hq. unfold unlimited. cbn. destruct (decide (q = p)) as [->|Hne].
  - rewrite lookup_insert_eq. eexists. split; reflexivity.
  - rewrite lookup_insert_ne by congruence. destruct Hq as [|Hq]; [contradiction | exact Hq].
Qed.

Definition lifts (st st' : TGState) : Prop := same_limits st st' /\ forall q, unlimited st q -> unlimited st' q.

Lemma parents_lifted st st' k p : lifts st st' -> unlimited st p -> (exists g, tg_of st !! k = Some g /\ tg_parent g = Some p) ->
  exists g, tg_of st' !! k = Some g /\ forall q, tg_parent g = Some q -> unlimited st' q.
Proof.
  intros [Hs Hl] Hp (g & Hg & Ep). destruct (same_tree_some _ _ _ _ (same_limits_tree _ _ Hs) Hg) as (g' & Hg' & Ep' & _).
  exists g'. split; [exact Hg'|]. intros q Eq. apply Hl. congruence.
Qed.

Lemma default_visit t : forall st, bounded st -> grows st t ->
  (exists g, tg_of st !! root t = Some g /\ forall q, tg_parent g = Some q -> unlimited st q) ->
  exists st', visit down tg_nop t st = Ok (0, st') /\ lifts st st' /\ Forall (unlimited st') (preorder t).
Proof.
  induction t as [p kids IH] using gtree_ind'. intros st Hb Hg (g & Hgp & Hp). cbn [root] in Hgp.
  apply grows_node in Hg as (_ & Hpar & Hk). cbn [visit]. unfold and_then at 1.
  rewrite (default_down st p g Hb Hgp Hp). cbn [mbind res_bind Z.eqb negb].
  pose proof (set_hierarchical_same st p g (-1) Hgp) as Hs1. set (st1 := set_hierarchical st p g (-1)) in *.
  assert (lifts st st1) as Hl1 by (split; [exact Hs1|]; intros q Hq; apply unlimited_set; auto).
  assert (unlimited st1 p) as Hp1 by (apply unlimited_set; auto).
  enough (forall l st2, lifts st1 st2 -> l ⊆ kids -> exists st3, visit_each (visit down tg_nop) l st2 = Ok (0, st3) /\ lifts st2 st3 /\
    Forall (unlimited st3) (l ≫= preorder)) as Henough.
  { destruct (Henough kids st1) as (st3 & E & [Hs3 Hl3] & Hu); [split; [reflexivity | auto] | auto|].
    rewrite E. exists st3. split; [reflexivity|]. split; [split; [etransitivity; eauto|]; intros q Hq; apply Hl3, Hl1, Hq|].
    cbn. constructor; [apply Hl3, Hp1 | exact Hu]. }
  induction l as [|k l IHl]; intros st2 [Hs2 Hl2] Hsub; [exists st2; split; [reflexivity|]; split; [split; [reflexivity | auto] | constructor]|].
  assert (k ∈ kids) as Hin by (apply Hsub; left). rewrite Forall_forall in IH, Hpar, Hk.
  destruct (IH k Hin st2) as (st3 & E3 & [Hs3 Hl3] & Hu3).
  - apply (bounded_same st1), (bounded_same st); assumption.
  - rewrite <- (same_limits_tree _ _ Hs2), <- (same_limits_tree _ _ Hs1). exact (Hk k Hin).
  - apply (parents_lifted st1 st2 _ p); [split; assumption | exact Hp1|]. destruct (Hpar k Hin) as (x & Hx & Ex).
    destruct (same_tree_some _ _ _ _ (same_limits_tree _ _ Hs1) Hx) as (x' & ? & ? & _). exists x'. split; congruence.
  - destruct (IHl st3) as (st4 & E4 & [Hs4 Hl4] & Hu4); [split; [etransitivity; eauto | auto] | set_solver|].
    exists st4. cbn [visit_each]. unfold and_then. rewrite E3. cbn. rewrite E4. split; [reflexivity|].
    split; [split; [etransitivity; eauto | auto]|]. apply Forall_app. split; [eapply Forall_impl; eauto | exact Hu4].
Qed.
End Default.

Lemma default_schedulable st t p per quo : rooted st t -> bounded st -> bandwidth_ok per quo ->
  exists st', __cfs_schedulable true st p per quo = Ok (0, st') /\ same_limits st st' /\ Forall (unlimited st') (preorder t).
Proof.
  intros HR Hb Hr. unfold __cfs_schedulable. fold (request p per quo). rewrite <- (rooted_root _ _ HR).
  rewrite (walk_visits _ _ st t (default_keeps p per quo) tg_nop_keeps (rooted_grows _ _ HR) (rooted_distinct _ _ HR)).
  destruct (default_visit p per quo Hr t st Hb (rooted_grows _ _ HR)) as (st' & E & [Hs _] & Hu); [|eauto].
  destruct (rooted_top _ _ HR) as (g & Hg & Ep). rewrite (rooted_root _ _ HR). exists g. split; [exact Hg | congruence].
Qed.

Lemma granted_unlimited st p g per quo bur rqs q : tg_of st !! p = Some g -> unlimited st q ->
  unlimited (granted st p g per quo bur rqs) q.
Proof.
  intros Hg (x & Hx & Ex). pose proof (granted_hierarchical st p g per quo bur rqs Hg q) as E. rewrite Hx in E.
  destruct (tg_of (granted st p g per quo bur rqs) !! q) as [y|] eqn:Ey; [|discriminate].
  exists y. split; [exact Ey|]. apply Some_inj in E. cbn in E. congruence.
Qed.

(** There only the numbers count. *)
Lemma default_bandwidth_spec f st t p g per quo bur :
  rooted st t -> bounded st -> tg_of st !! p = Some g -> p <> root_task_group ->
  0 <= per < 2 ^ 64 -> 0 <= quo < 2 ^ 64 -> 0 <= bur < 2 ^ 64 ->
  exists ret calls st', tg_set_cfs_bandwidth true f st p per quo bur = Ok (ret, calls, st') /\
    (ret = 0 /\ bandwidth_ok per quo /\ burst_ok quo bur /\
       (exists st1 g1, same_limits st st1 /\ tg_of st1 !! p = Some g1 /\
         st' = granted st1 p g1 per quo bur (refresh_rq f (negb (quo =? RUNTIME_INF)) <$> cfs_rqs g1) /\
         Forall (unlimited st') (preorder t)) \/
     ret = - EINVAL /\ calls = [] /\ st' = st /\ ~ (bandwidth_ok per quo /\ burst_ok quo bur)).
Proof.
  intros HR Hb Hg Hp Hper Hquo Hbur. pose proof (numbers_ok per quo bur Hper Hquo Hbur) as Hn.
  unfold tg_set_cfs_bandwidth. destruct (Z.eqb_spec p root_task_group) as [|_]; [contradiction|]. rewrite !if_or.
  destruct (_ || _).
  { exists (- EINVAL), [], st. split; [reflexivity|]. right. repeat (split; [reflexivity|]). intros Hok. discriminate (proj2 Hn Hok). }
  destruct (proj1 Hn eq_refl) as [Hbw Hbo].
  destruct (default_schedulable st t p per quo HR Hb Hbw) as (st1 & E & Hs & Hu). rewrite E. cbn [mbind res_bind Z.eqb negb].
  destruct (same_tree_some _ _ _ _ (same_limits_tree _ _ Hs) Hg) as (g1 & Hg1 & _).
  unfold tgroup. rewrite Hg1. cbn [mbind res_bind]. eexists 0, _, _. split; [reflexivity|]. left.
  repeat (split; [first [reflexivity | assumption]|]). exists st1, g1. split; [exact Hs|]. split; [exact Hg1|]. split; [reflexivity|].
  eapply Forall_impl; [exact Hu|]. intros q. apply granted_unlimited, Hg1.
Qed.

(** * What a granted request leaves *)

Lemma set_bandwidth_result on_dfl f st p per quo bur calls st' :
  tg_set_cfs_bandwidth on_dfl f st p per quo bur = Ok (0, calls, st') -> exists g,
    tg_of st' !! p = Some g /\ period (cfs_bandwidth g) = per /\ quota (cfs_bandwidth g) = quo /\ burst (cfs_bandwidth g) = bur.
Proof.
  unfold tg_set_cfs_bandwidth. rewrite !if_or. destruct (_ || _); [discriminate|].
  destruct (__cfs_schedulable _ _ _ _ _) as [[r st1]| | |]; cbn [mbind res_bind]; [|discriminate..].
  destruct (Z.eqb_spec r 0) as [->|Hne]; cbn [negb]; [|intros [= -> _ _]; contradiction].
  destruct (tgroup st1 p) as [g| | |]; cbn [mbind res_bind]; [|discriminate..].
  intros [= _ <-]. eexists. split; [apply lookup_insert_eq|]. auto.
Qed.

Lemma set_quota_reads on_dfl f st p us calls st' : - 2 ^ 63 <= us < 2 ^ 63 ->
  tg_set_cfs_quota on_dfl f st p us = Ok (0, calls, st') -> cpu_cfs_quota_read_s64 st' p = Ok (if us <? 0 then -1 else us).
Proof.
  intros Hus. unfold tg_set_cfs_quota, cpu_cfs_quota_read_s64. destruct (tgroup st p) as [g| | |]; cbn [mbind res_bind]; [|discriminate..].
  destruct (Z.ltb_spec us 0) as [Hneg|Hpos].
  - intros E. apply set_bandwidth_result in E as (g' & Hg' & _ & Eq & _). unfold tgroup, tg_get_cfs_quota. rewrite Hg'. cbn [mbind res_bind].
    rewrite Eq, Z.eqb_refl. reflexivity.
  - rewrite (u64_id us) by lia. unfold U64_MAX, NSEC_PER_USEC. destruct (Z.leb_spec us ((2 ^ 64 - 1) / 1000)) as [Hle|]; [|discriminate].
    assert (us * 1000 <= 2 ^ 64 - 1) by (pose proof (Z.mul_div_le (2 ^ 64 - 1) 1000 ltac:(lia)); lia). rewrite u64_id by lia.
    intros E. apply set_bandwidth_result in E as (g' & Hg' & _ & Eq & _). unfold tgroup, tg_get_cfs_quota. rewrite Hg'. cbn [mbind res_bind].
    rewrite Eq, runtime_inf. destruct (Z.eqb_spec (us * 1000) (2 ^ 64 - 1)) as [E|_]; [lia|]. unfold NSEC_PER_USEC. rewrite Z.div_mul by lia. reflexivity.
Qed.

(** Microseconds that are given as [u64]. *)
Lemma micro_u64 us : 0 <= us <= U64_MAX / NSEC_PER_USEC -> u64 (wrap 64 us) = us /\ u64 (us * NSEC_PER_USEC) / NSEC_PER_USEC = us.
Proof.
  unfold U64_MAX, NSEC_PER_USEC. intros Hus. pose proof (Z.mul_div_le (2 ^ 64 - 1) 1000 ltac:(lia)).
  split; [rewrite wrap_id, u64_id by lia; reflexivity|]. rewrite u64_id by lia. apply Z.div_mul. lia.
Qed.

Lemma u64_wrap us : 0 <= us < 2 ^ 64 -> u64 (wrap 64 us) = us.
Proof.
  intros Hus. unfold u64, wrap. rewrite Zminus_mod_idemp_l. replace (us + 2 ^ (64 - 1) - 2 ^ (64 - 1)) with us by lia. apply Z.mod_small, Hus.
Qed.

Lemma write_period_reads on_dfl f st p us calls st' : 0 <= us < 2 ^ 64 ->
  cpu_cfs_period_write_u64 on_dfl f st p us = Ok (0, calls, st') -> cpu_cfs_period_read_u64 st' p = Ok us.
Proof.
  intros Hus. unfold cpu_cfs_period_write_u64, tg_set_cfs_period, cpu_cfs_period_read_u64. rewrite u64_wrap by exact Hus.
  destruct (Z.ltb_spec (U64_MAX / NSEC_PER_USEC) us) as [|Hle]; [discriminate|].
  destruct (tgroup st p) as [g| | |]; cbn [mbind res_bind]; [|discriminate..]. intros E.
  apply set_bandwidth_result in E as (g' & Hg' & Eq & _). unfold tgroup, tg_get_cfs_period. rewrite Hg'. cbn [mbind res_bind].
  rewrite Eq. destruct (micro_u64 us) as [_ ->]; [lia|]. rewrite u64_id by lia. reflexivity.
Qed.

Lemma write_burst_reads on_dfl f st p us calls st' : 0 <= us < 2 ^ 64 ->
  cpu_cfs_burst_write_u64 on_dfl f st p us = Ok (0, calls, st') -> cpu_cfs_burst_read_u64 st' p = Ok us.
Proof.
  intros Hus. unfold cpu_cfs_burst_write_u64, tg_set_cfs_burst, cpu_cfs_burst_read_u64. rewrite u64_wrap by exact Hus.
  destruct (Z.ltb_spec (U64_MAX / NSEC_PER_USEC) us) as [|Hle]; [discriminate|].
  destruct (tgroup st p) as [g| | |]; cbn [mbind res_bind]; [|discriminate..]. intros E.
  apply set_bandwidth_result in E as (g' & Hg' & _ & _ & Eq). unfold tgroup, tg_get_cfs_burst. rewrite Hg'. cbn [mbind res_bind].
  rewrite Eq. destruct (micro_u64 us) as [_ ->]; [lia|]. rewrite u64_id by lia. reflexivity.
Qed.

(** A refused request calls nothing. *)
Lemma set_bandwidth_calls on_dfl f st p per quo bur ret calls st' :
  tg_set_cfs_bandwidth on_dfl f st p per quo bur = Ok (ret, calls, st') -> calls <> [] -> ret = 0.
Proof.
  unfold tg_set_cfs_bandwidth. rewrite !if_or. destruct (_ || _); [intros [= _ <- _]; contradiction|].
  destruct (__cfs_schedulable _ _ _ _ _) as [[r st1]| | |]; cbn [mbind res_bind]; [|discriminate..].
  destruct (Z.eqb_spec r 0) as [->|Hne]; cbn [negb]; [|intros [= _ <- _]; contradiction].
  destruct (tgroup st1 p) as [g| | |]; cbn [mbind res_bind]; [|discriminate..]. intros [= <- _ _]. reflexivity.
Qed.

Lemma max_write_burst on_dfl f tok num st p g buf n ret calls st' :
  tg_of st !! p = Some g -> cpu_max_write on_dfl f tok num st p buf n = Ok (ret, calls, st') -> calls <> [] ->
  exists g', tg_of st' !! p = Some g' /\ burst (cfs_bandwidth g') = tg_get_cfs_burst g.
Proof.
  intros Hg. unfold cpu_max_write, tgroup. rewrite Hg. cbn [mbind res_bind].
  destruct (cpu_period_quota_parse _ _ _ _) as [r|[per quo]]; [intros [= _ <- _]; contradiction|].
  destruct (tg_set_cfs_bandwidth _ _ _ _ _ _ _) as [[[r c] st1]| | |] eqn:E; cbn [mbind res_bind]; [|discriminate..].
  intros [= _ <- <-] Hc. pose proof (set_bandwidth_calls _ _ _ _ _ _ _ _ _ _ E Hc) as ->.
  apply set_bandwidth_result in E as (g' & Hg' & _ & _ & Eb). eauto.
Qed.
End Limits.
