(* ===== verification/GroupClamps.v ===== *)
(** Utilization clamps of task groups in src/3/20193018_PLUS-1/core.c: the files
    cpu.uclamp.min and cpu.uclamp.max, and [cpu_util_update_eff], which carries a
    change down the tree of groups and stops where nothing changes. *)

From S2P Require Import Prelude KHeaders Uclamp TaskGroups.
Local Open Scope Z_scope.

(** kernel/cgroup/cgroup.c, for [css_for_each_descendant_pre]: the descendant
    after a group ([None]: the first) below a top group, and the last descendant of
    a group. *)
Class CssWalk := {
  css_next_descendant_pre : TGState -> option Z -> Z -> option Z;
  css_rightmost_descendant : TGState -> Z -> Z
}.

(** Same groups and parents; the controller core keeps siblings in an order of
    its own. *)
Fixpoint hung (st : TGState) (t : gtree) : Prop :=
  let 'Node p kids := t in
  Forall (fun k => parent_of st (root k) p) kids /\
  (fix each (l : list gtree) : Prop := match l with [] => True | k :: l => hung st k /\ each l end) kids.

(** The two functions go through [t] in preorder. *)
Definition follows `{CssWalk} (st : TGState) (t : gtree) : Prop :=
  (forall l1 x l2, preorder t = l1 ++ x :: l2 -> css_next_descendant_pre st (Some x) (root t) = head l2) /\
  (forall s, subtree s t -> last (preorder s) = Some (css_rightmost_descendant st (root s))).

Class CssWalkOk `{CssWalk} : Prop := {
  css_first st top : css_next_descendant_pre st None top = Some top;
  css_links st st' o top : same_tree st st' -> css_next_descendant_pre st o top = css_next_descendant_pre st' o top;
  css_right st st' p : same_tree st st' -> css_rightmost_descendant st p = css_rightmost_descendant st' p;
  css_order st t : grows st t -> NoDup (preorder t) ->
    exists t', root t' = root t /\ hung st t' /\ preorder t' ≡ₚ preorder t /\ follows st t'
}.

(** UCLAMP_PERCENT_SHIFT is 2. *)
Definition POW10_SHIFT : Z := 100.
Definition UCLAMP_PERCENT_SCALE : Z := 100 * POW10_SHIFT.
Definition SCHED_CAPACITY_SHIFT : Z := 10.
Definition ERANGE : Z := 34.

Record uclamp_request := mkUReq { r_percent : Z; r_util : Z; r_ret : Z }.

(** What reading a clamp file prints: "max", or a percentage with two decimals. *)
Inductive ClampText := MaxText | PercentText (percent rem : Z).

Section GroupClamps.
  (** [strim] and [cgroup_parse_float] (its result and the number). *)
  Context `{Headers} `{CssWalk} (strim : list Z -> list Z) (cgroup_parse_float : list Z -> Z -> Z * Z).

Definition text_max : list Z := [109; 97; 120].

Definition capacity_from_percent (buf : list Z) : uclamp_request :=
  let req := mkUReq UCLAMP_PERCENT_SCALE SCHED_CAPACITY_SCALE 0 in
  let buf := strim buf in
  if bool_decide (buf = text_max) then req
  else
    let '(ret, percent) := cgroup_parse_float buf 2 in
    if negb (ret =? 0) then mkUReq percent (r_util req) ret
    else if UCLAMP_PERCENT_SCALE <? u64 percent then mkUReq percent (r_util req) (- ERANGE)
    else
      let util := u64 (Z.shiftl percent SCHED_CAPACITY_SHIFT) in
      mkUReq percent ((util + UCLAMP_PERCENT_SCALE / 2) / UCLAMP_PERCENT_SCALE) 0.

(** The effective clamps a group should have: what it asks for, capped by its
    parent's, and the lower one capped by the upper one. *)
Definition eff_clamps (g : TaskGroup) (parent : option TaskGroup) : Clamps Z :=
  let cap id :=
    let e := value (cget (tg_req g) id) in
    match parent with
    | Some gp => if value (cget (tg_uclamp gp) id) <? e then value (cget (tg_uclamp gp) id) else e
    | None => e
    end in
  mkClamps (Z.min (cap UCLAMP_MIN) (cap UCLAMP_MAX)) (cap UCLAMP_MAX).

(** A clamp takes its new value, one of the values of fields of the same width. *)
Definition store_eff (se : uclamp_se) (v : Z) : uclamp_se :=
  if v =? value se then se else mkSe v (uclamp_bucket_id v) (active se) (user_defined se).

Definition parent_group (st : TGState) (g : TaskGroup) : res (option TaskGroup) :=
  match tg_parent g with
  | None => mret None
  | Some q => gp ← tgroup st q; mret (Some gp)
  end.

(** One turn of the loop, at [css]; [updated] lists the groups whose runnable
    tasks [uclamp_update_active_tasks] has gone through. *)
Definition update_eff_body (top : Z) (s : TGState * list Z * option Z) :
    res (ctl (TGState * list Z * option Z) Empty_set) :=
  let '(st, updated, css) := s in
  match css with
  | None => mret (Break s)
  | Some css =>
      g ← tgroup st css;
      parent ← parent_group st g;
      let eff := eff_clamps g parent in
      let u := tg_uclamp g in
      if (c_min eff =? value (c_min u)) && (c_max eff =? value (c_max u)) then
        let css := css_rightmost_descendant st css in
        mret (Continue (st, updated, css_next_descendant_pre st (Some css) top))
      else
        let u := mkClamps (store_eff (c_min u) (c_min eff)) (store_eff (c_max u) (c_max eff)) in
        let st := set_tg st css (with_clamps g (tg_req g) u (tg_pct g)) in
        mret (Continue (st, updated ++ [css], css_next_descendant_pre st (Some css) top))
  end.

(** A turn for each group and one to find the end. *)
Definition cpu_util_update_eff (st : TGState) (css : Z) : res (TGState * list Z) :=
  out ← loop (S (size (tg_of st))) (update_eff_body css) (st, [], css_next_descendant_pre st None css);
  match out with
  | inl (st, updated, _) => mret (st, updated)
  | inr e => match e : Empty_set with end
  end.

(** A write of a clamp file: what it returns, the groups, and the groups whose
    tasks were updated. *)
Definition cpu_uclamp_write (st : TGState) (p : Z) (buf : list Z) (nbytes : Z) (id : uclamp_id) :
    res (Z * TGState * list Z) :=
  let req := capacity_from_percent buf in
  if negb (r_ret req =? 0) then mret (r_ret req, st, [])
  else
    g ← tgroup st p;
    let r := cget (tg_req g) id in
    let r := if negb (value r =? r_util req) then uclamp_se_set r (r_util req) false else r in
    let st := set_tg st p (with_clamps g (cset (tg_req g) id r) (tg_uclamp g) (cset (tg_pct g) id (r_percent req))) in
    '(st, updated) ← cpu_util_update_eff st p;
    mret (nbytes, st, updated).

Definition cpu_uclamp_min_write st p buf nbytes := cpu_uclamp_write st p buf nbytes UCLAMP_MIN.
Definition cpu_uclamp_max_write st p buf nbytes := cpu_uclamp_write st p buf nbytes UCLAMP_MAX.

Definition cpu_uclamp_print (st : TGState) (p : Z) (id : uclamp_id) : res ClampText :=
  g ← tgroup st p;
  if value (cget (tg_req g) id) =? SCHED_CAPACITY_SCALE then mret MaxText
  else mret (PercentText (cget (tg_pct g) id / POW10_SHIFT) (cget (tg_pct g) id mod POW10_SHIFT)).

(** The request of the root comes from the sysctl. *)
Definition uclamp_update_root_tg (s : usys) (st : TGState) : res (TGState * list Z) :=
  g ← tgroup st root_task_group;
  let r := mkClamps (uclamp_se_set (c_min (tg_req g)) (util_min s) false)
                    (uclamp_se_set (c_max (tg_req g)) (util_max s) false) in
  cpu_util_update_eff (set_tg st root_task_group (with_clamps g r (tg_uclamp g) (tg_pct g))) root_task_group.

(** A new group is shown when it is complete. *)
Definition cpu_cgroup_css_online (st : TGState) (css : Z) (parent : option Z) : res (Z * TGState * list Z) :=
  st ← match parent with Some q => sched_online_group st css q | None => mret st end;
  '(st, updated) ← cpu_util_update_eff st css;
  mret (0, st, updated).
End GroupClamps.

(** The callbacks around it: a group for a new control group (the root has one
    from the start, [ENOMEM] is [None]), and its end in two steps. *)
Definition cpu_cgroup_css_alloc `{Headers} `{FairGroup} (memory rt : bool) (st : TGState) (p : Z) (parent : option Z) :
    res (option TGState) :=
  match parent with
  | None => mret (Some st)
  | Some q => sched_create_group memory rt st p q
  end.

Definition cpu_cgroup_css_released (st : TGState) (css : Z) : res TGState := sched_release_group st css.
Definition cpu_cgroup_css_free (st : TGState) (css : Z) : TGState := sched_free_group st css.

(** * Effective clamps *)

(** The groups differ in their effective clamps at most. *)
Definition bare (g : TaskGroup) : TaskGroup := with_clamps g (tg_req g) (mkClamps no_se no_se) (tg_pct g).

Definition same_requests (st st' : TGState) : Prop :=
  (forall q, bare <$> tg_of st !! q = bare <$> tg_of st' !! q) /\ task_groups st = task_groups st'.

#[export] Instance same_requests_equiv : Equivalence same_requests.
Proof.
  split; [intros st; split; reflexivity | intros st st' [E ?]; split; [intros q; symmetry; apply E | congruence] |].
  intros a b c [E1 ?] [E2 ?]. split; [intros q; etransitivity; eauto | congruence].
Qed.

#[export] Instance same_requests_tree : subrelation same_requests same_tree.
Proof.
  intros st st' [E _] q. specialize (E q). destruct (tg_of st !! q), (tg_of st' !! q); try discriminate; [|reflexivity].
  apply Some_inj in E. unfold bare in E. injection E as Ep Ec. cbn. unfold links. congruence.
Qed.

Lemma same_requests_some st st' q g : same_requests st st' -> tg_of st !! q = Some g ->
  exists g', tg_of st' !! q = Some g' /\ bare g' = bare g.
Proof.
  intros [E _] Hg. specialize (E q). rewrite Hg in E. destruct (tg_of st' !! q) as [g'|]; [|discriminate].
  apply Some_inj in E. eauto.
Qed.

Definition values (u : Clamps uclamp_se) : Clamps Z := mkClamps (value (c_min u)) (value (c_max u)).

Definition vals (st : TGState) (p : Z) : option (Clamps Z) := values ∘ tg_uclamp <$> tg_of st !! p.

(** The effective clamps of a group are what its request and its parent make
    them. *)
Definition eff_ok (st : TGState) (p : Z) : Prop := exists g parent,
  tg_of st !! p = Some g /\ parent_group st g = Ok parent /\ values (tg_uclamp g) = eff_clamps g parent.

Lemma parent_group_ok st g o : parent_group st g = Ok o ->
  match tg_parent g with Some q => exists gp, tg_of st !! q = Some gp /\ o = Some gp | None => o = None end.
Proof.
  unfold parent_group. destruct (tg_parent g) as [q|]; [|intros [= <-]; reflexivity].
  unfold tgroup. destruct (tg_of st !! q) as [gp|]; [|discriminate]. intros [= <-]. eauto.
Qed.

Lemma parent_group_frame st st' g : (forall q, tg_parent g = Some q -> tg_of st' !! q = tg_of st !! q) ->
  parent_group st' g = parent_group st g.
Proof.
  intros E. unfold parent_group. destruct (tg_parent g) as [q|]; [|reflexivity]. unfold tgroup. rewrite E; reflexivity.
Qed.

(** What the effective clamps depend on: the group itself, and the clamps of its
    parent. *)
Definition view (g : TaskGroup) := (tg_parent g, tg_req g, tg_uclamp g).

Lemma eff_ok_view st st' p : view <$> tg_of st' !! p = view <$> tg_of st !! p ->
  (forall r, parent_of st p r -> tg_uclamp <$> tg_of st' !! r = tg_uclamp <$> tg_of st !! r) -> eff_ok st p -> eff_ok st' p.
Proof.
  intros Ev Er (g & o & Hg & Ho & E). rewrite Hg in Ev. destruct (tg_of st' !! p) as [g'|] eqn:Hg'; [|discriminate].
  apply Some_inj in Ev. unfold view in Ev. injection Ev as Ep Eq Eu. apply parent_group_ok in Ho.
  exists g'. unfold parent_group, tgroup. rewrite Ep. destruct (tg_parent g) as [r|] eqn:Epar.
  - destruct Ho as (gr & Hr & ->). specialize (Er r). rewrite Hr in Er. destruct (tg_of st' !! r) as [gr'|]; [|discriminate Er; exists g; auto].
    exists (Some gr'). split; [exact Hg'|]. split; [reflexivity|]. unfold eff_clamps in E |- *. rewrite Eu, Eq, E.
    assert (tg_uclamp gr' = tg_uclamp gr) as ->; [|reflexivity]. apply Some_inj, Er. exists g. auto.
  - subst o. exists None. split; [exact Hg'|]. split; [reflexivity|]. unfold eff_clamps in E |- *. rewrite Eu, Eq. exact E.
Qed.

Lemma eff_ok_frame st st' p : eff_ok st p -> tg_of st' !! p = tg_of st !! p ->
  (forall q, parent_of st p q -> tg_of st' !! q = tg_of st !! q) -> eff_ok st' p.
Proof. intros Hok Ep Eq. apply (eff_ok_view st); [rewrite Ep; reflexivity | intros r Hr; rewrite (Eq r Hr); reflexivity | exact Hok]. Qed.

(** A new request does not touch the other groups. *)
Lemma eff_ok_request st p g g' q : tg_of st !! p = Some g -> tg_uclamp g' = tg_uclamp g -> q <> p ->
  eff_ok st q -> eff_ok (set_tg st p g') q.
Proof.
  intros Hg Eu Hne. apply eff_ok_view; [cbn; rewrite lookup_insert_ne by congruence; reflexivity|]. intros r _. cbn.
  destruct (decide (r = p)) as [->|Hr]; [rewrite lookup_insert_eq, Hg; cbn; congruence | rewrite lookup_insert_ne by congruence; reflexivity].
Qed.

Lemma hung_node st p kids : hung st (Node p kids) <->
  Forall (fun k => parent_of st (root k) p) kids /\ Forall (hung st) kids.
Proof.
  cbn. split; intros (Hk & Ha); (split; [exact Hk|]); clear Hk.
  - induction kids as [|k l IH]; [constructor|]. destruct Ha. constructor; auto.
  - induction Ha; auto.
Qed.

Lemma hung_same st st' t : same_tree st st' -> hung st t -> hung st' t.
Proof.
  intros E. induction t as [p kids IH] using gtree_ind'. rewrite !hung_node. intros [Hp Hk]. split.
  - eapply Forall_impl; [exact Hp|]. intros k. apply parent_same, E.
  - rewrite Forall_forall in *. eauto.
Qed.

Lemma hung_parent st t x : hung st t -> x ∈ preorder t -> x <> root t -> exists q, parent_of st x q /\ q ∈ preorder t.
Proof.
  induction t as [p kids IH] using gtree_ind'. rewrite hung_node. intros [Hp Hk] Hx Hne. cbn in Hx, Hne |- *.
  apply elem_of_cons in Hx as [|Hx]; [contradiction|]. apply list_elem_of_bind in Hx as (k & Hx & Hin).
  rewrite Forall_forall in IH, Hp, Hk. destruct (decide (x = root k)) as [->|Hr].
  - exists p. split; [exact (Hp k Hin) | left].
  - destruct (IH k Hin (Hk k Hin) Hx Hr) as (q & Hq & Hqk). exists q. split; [exact Hq|]. right. apply list_elem_of_bind. eauto.
Qed.

(** * The pass over a subtree *)

(** Only groups of [l] changed, only in their effective clamps, and [u] lists
    those that did. *)
Definition updated (l : list Z) (st st' : TGState) (u : list Z) : Prop :=
  same_requests st st' /\ outside l st st' /\ forall q, q ∈ u <-> vals st q <> vals st' q.

Lemma updated_refl l st : updated l st st [].
Proof. split; [reflexivity|]. split; [intros q _; reflexivity|]. intros q. split; [intros Hq; inversion Hq | congruence]. Qed.

Lemma outside_vals l st st' q : outside l st st' -> q ∉ l -> vals st' q = vals st q.
Proof. intros Ho Hq. unfold vals. rewrite (Ho q Hq). reflexivity. Qed.

Lemma updated_trans l1 l2 st st1 st2 u1 u2 :
  updated l1 st st1 u1 -> updated l2 st1 st2 u2 -> (forall q, q ∈ l1 -> q ∉ l2) -> updated (l1 ++ l2) st st2 (u1 ++ u2).
Proof.
  intros (Hs1 & Ho1 & Hu1) (Hs2 & Ho2 & Hu2) Hd. split; [etransitivity; eauto|]. split.
  - intros q Hq. apply not_elem_of_app in Hq as [Hq1 Hq2]. rewrite Ho2, Ho1 by assumption. reflexivity.
  - intros q. rewrite elem_of_app, Hu1, Hu2. destruct (decide (q ∈ l1)) as [Hq|Hq].
    + rewrite (outside_vals _ _ _ _ Ho2 (Hd q Hq)). intuition congruence.
    + rewrite (outside_vals _ _ _ _ Ho1 Hq). intuition congruence.
Qed.

#[export] Instance Clamps_eq {A} `{EqDecision A} : EqDecision (Clamps A).
Proof. solve_decision. Defined.

Section Pass.
  Context `{Headers} `{CssWalkOk}.

(** A group with the effective clamps it should have. *)
Definition restore (st : TGState) (p : Z) (g : TaskGroup) (o : option TaskGroup) : TGState :=
  let eff := eff_clamps g o in
  let u := mkClamps (store_eff (c_min (tg_uclamp g)) (c_min eff)) (store_eff (c_max (tg_uclamp g)) (c_max eff)) in
  set_tg st p (with_clamps g (tg_req g) u (tg_pct g)).

Lemma store_eff_value se v : value (store_eff se v) = v.
Proof. unfold store_eff. destruct (Z.eqb_spec v (value se)); [symmetry; assumption | reflexivity]. Qed.

Lemma turn_eq top st upd p g o : tg_of st !! p = Some g -> parent_group st g = Ok o ->
  update_eff_body top (st, upd, Some p) =
    if bool_decide (values (tg_uclamp g) = eff_clamps g o)
    then Ok (Continue (st, upd, css_next_descendant_pre st (Some (css_rightmost_descendant st p)) top))
    else Ok (Continue (restore st p g o, upd ++ [p], css_next_descendant_pre (restore st p g o) (Some p) top)).
Proof.
  intros Hg Ho. unfold update_eff_body, tgroup. rewrite Hg. cbn [mbind res_bind]. rewrite Ho. cbn [mbind res_bind].
  unfold values. destruct (eff_clamps g o) as [mn mx] eqn:E. cbn [c_min c_max].
  destruct (Z.eqb_spec mn (value (c_min (tg_uclamp g)))), (Z.eqb_spec mx (value (c_max (tg_uclamp g)))); cbn [andb];
    [rewrite bool_decide_true by congruence; reflexivity|..];
    (rewrite bool_decide_false by congruence; unfold restore; rewrite E; reflexivity).
Qed.

Lemma values_stored u e : values (mkClamps (store_eff (c_min u) (c_min e)) (store_eff (c_max u) (c_max e))) = e.
Proof. unfold values. cbn [c_min c_max]. rewrite !store_eff_value. destruct e; reflexivity. Qed.

Lemma restore_vals st p g o : vals (restore st p g o) p = Some (eff_clamps g o).
Proof.
  unfold vals, restore. cbn [tg_of set_tg]. rewrite lookup_insert_eq. cbn [fmap option_fmap option_map compose tg_uclamp with_clamps].
  rewrite values_stored. reflexivity.
Qed.

Lemma restore_updated st p g o : tg_of st !! p = Some g -> values (tg_uclamp g) <> eff_clamps g o ->
  updated [p] st (restore st p g o) [p].
Proof.
  intros Hg Hne. assert (forall q, q <> p -> tg_of (restore st p g o) !! q = tg_of st !! q) as Ho.
  { intros q Hq. cbn. rewrite lookup_insert_ne by congruence. reflexivity. }
  split; [|split].
  - split; [|reflexivity]. intros q. destruct (decide (q = p)) as [->|Hq]; [|rewrite Ho by exact Hq; reflexivity].
    cbn. rewrite lookup_insert_eq, Hg. reflexivity.
  - intros q Hq. apply Ho. intros ->. apply Hq. left.
  - intros q. rewrite list_elem_of_singleton. split.
    + intros ->. rewrite restore_vals. unfold vals. rewrite Hg. cbn. congruence.
    + intros Hd. destruct (decide (q = p)) as [|Hq]; [assumption|]. destruct Hd. unfold vals. rewrite Ho by exact Hq. reflexivity.
Qed.

Lemma restore_ok st p g o : tg_of st !! p = Some g -> parent_group st g = Ok o -> tg_parent g <> Some p ->
  eff_ok (restore st p g o) p.
Proof.
  intros Hg Ho Hp. eexists _, o. split; [apply lookup_insert_eq|]. split.
  - rewrite <- Ho. change (parent_group (restore st p g o) g = parent_group st g). apply parent_group_frame.
    intros q Hq. cbn. apply lookup_insert_ne. congruence.
  - cbn [tg_uclamp with_clamps]. rewrite values_stored. reflexivity.
Qed.

Lemma follows_same st st' T : same_tree st st' -> follows st T -> follows st' T.
Proof.
  intros E [Hn Hr]. split.
  - intros l1 x l2 ET. rewrite <- (css_links _ _ _ _ E). eauto.
  - intros t Ht. rewrite <- (css_right _ _ _ E). eauto.
Qed.

Section Tree.
  Context (T : gtree).

#[local] Abbreviation body := (update_eff_body (root T)).

(** Going through the groups [l], at the head of what is left, changes only
    them and makes their clamps right. *)
Definition passes (l : list Z) (st : TGState) : Prop := forall upd k l1 l2,
  preorder T = l1 ++ l ++ l2 ->
  exists st' u j, (k <= j)%nat /\
    loop (length l + k) body (st, upd, head (l ++ l2)) = loop j body (st', upd ++ u, head l2) /\
    updated l st st' u /\ Forall (eff_ok st') l.

(** Below its root the subtree is right already. *)
Definition entered (s : gtree) (st : TGState) : Prop :=
  subtree s T /\ follows st T /\ hung st s /\ NoDup (preorder s) /\
  (exists g o, tg_of st !! root s = Some g /\ parent_group st g = Ok o /\ (forall q, tg_parent g = Some q -> q ∉ preorder s)) /\
  forall q, q ∈ preorder s -> q <> root s -> eff_ok st q.

Lemma passes_app l m st :
  passes l st -> (forall q, q ∈ l -> q ∉ m) ->
  (forall q, q ∈ l -> forall r, parent_of st q r -> r ∉ m) ->
  (forall st' u, updated l st st' u -> passes m st') -> passes (l ++ m) st.
Proof.
  intros Hl Hd Hp Hm upd k l1 l2 ET. rewrite <- app_assoc in ET |- *.
  destruct (Hl upd (length m + k)%nat l1 (m ++ l2) ET) as (st1 & u1 & j1 & Hj1 & E1 & Hu1 & Hok1).
  destruct (Hm st1 u1 Hu1 (upd ++ u1) (j1 - length m)%nat (l1 ++ l) l2) as (st2 & u2 & j2 & Hj2 & E2 & Hu2 & Hok2).
  { rewrite <- app_assoc. exact ET. }
  exists st2, (u1 ++ u2), j2. split; [lia|]. split.
  { rewrite length_app, <- Nat.add_assoc, E1. replace j1 with (length m + (j1 - length m))%nat by lia.
    rewrite E2, app_assoc. reflexivity. }
  split; [exact (updated_trans _ _ _ _ _ _ _ Hu1 Hu2 Hd)|]. apply Forall_app. split; [|exact Hok2].
  rewrite Forall_forall in Hok1 |- *. intros q Hq. destruct Hu2 as (_ & Ho2 & _). apply (eff_ok_frame st1); [auto | apply Ho2, Hd, Hq|].
  intros r Hr. apply Ho2. apply (Hp q Hq). apply (parent_same st1); [|exact Hr]. symmetry. apply same_requests_tree, Hu1.
Qed.

Lemma kids_pass p kids st :
  Forall (fun s => forall st, entered s st -> passes (preorder s) st) kids ->
  subtree (Node p kids) T -> follows st T -> hung st (Node p kids) -> NoDup (preorder (Node p kids)) ->
  is_Some (tg_of st !! p) -> (forall k q, k ∈ kids -> q ∈ preorder k -> q <> root k -> eff_ok st q) ->
  passes (kids ≫= preorder) st.
Proof.
  intros IH Hsub Hf Hh Hd [gp Hgp] Hok. apply hung_node in Hh as [Hp Hh]. cbn in Hd. apply NoDup_cons in Hd as [Hpd Hd].
  assert (Forall (fun k => subtree k T) kids) as Hsubs.
  { apply Forall_forall. intros k Hk. clear -Hsub Hk. induction Hsub as [|p' l k' Hk' _ IHs]; [econstructor; eauto; constructor | econstructor; eauto]. }
  clear Hsub. revert st Hf Hp Hh gp Hgp Hok. induction IH as [|k l Hk _ IHl]; intros st Hf Hp Hh gp Hgp Hok.
  { intros upd j l1 l2 _. exists st, [], j. split; [lia|]. split; [rewrite app_nil_r; reflexivity|]. split; [apply updated_refl | constructor]. }
  rewrite bind_cons in *. apply NoDup_app in Hd as (Hdk & Hapart & Hd). apply not_elem_of_app in Hpd as [Hpk Hpl].
  apply Forall_cons in Hp as [(gk & Hgk & Epk) Hp], Hh as [Hhk Hh], Hsubs as [Hsk Hsubs].
  apply passes_app.
  - apply Hk. split; [exact Hsk|]. split; [exact Hf|]. split; [exact Hhk|]. split; [exact Hdk|]. split.
    + exists gk, (Some gp). split; [exact Hgk|]. split; [|intros q Eq; congruence]. unfold parent_group, tgroup. rewrite Epk, Hgp. reflexivity.
    + intros q Hq Hne. apply (Hok k q); [left | exact Hq | exact Hne].
  - exact Hapart.
  - intros q Hq r Hr. destruct (decide (q = root k)) as [->|Hne].
    + destruct Hr as (g & ? & ?). simplify_eq. exact Hpl.
    + destruct (hung_parent _ _ _ Hhk Hq Hne) as (r' & (g & ? & ?) & Hin). destruct Hr as (g' & ? & ?). simplify_eq. auto.
  - intros st' u (Hs & Ho & _). pose proof (same_requests_tree _ _ Hs) as Ht. apply (IHl Hpl Hd Hsubs st') with (gp := gp).
    + exact (follows_same _ _ _ Ht Hf).
    + eapply Forall_impl; [exact Hp|]. intros x. apply parent_same, Ht.
    + eapply Forall_impl; [exact Hh|]. intros x. apply hung_same, Ht.
    + rewrite Ho by exact Hpk. exact Hgp.
    + intros x q Hx Hq Hne. assert (q ∉ preorder k) as Hqk.
      { intros Hqk. apply (Hapart q Hqk). apply list_elem_of_bind. eauto. }
      apply (eff_ok_frame st); [apply (Hok x q); [right; exact Hx | exact Hq | exact Hne] | apply Ho, Hqk|].
      intros r Hr. apply Ho. rewrite Forall_forall in Hh. destruct (hung_parent _ _ _ (Hh x Hx) Hq Hne) as (r' & (g & ? & ?) & Hin).
      destruct Hr as (g' & ? & ?). simplify_eq. intros Hrk. apply (Hapart _ Hrk). apply list_elem_of_bind. eauto.
Qed.

(** Where nothing changes the rest of the subtree is skipped. *)
Lemma skip_pass s st g o : entered s st -> tg_of st !! root s = Some g -> parent_group st g = Ok o ->
  values (tg_uclamp g) = eff_clamps g o -> passes (preorder s) st.
Proof.
  intros (Hsub & [Hnext Hright] & _ & _ & _ & Hok) Hg Ho E upd k l1 l2 ET.
  assert (exists l, preorder s = root s :: l) as [l El] by (destruct s; eexists; reflexivity).
  exists st, [], (length l + k)%nat. split; [lia|]. split.
  { rewrite El at 1. cbn [length Nat.add]. rewrite loop_S. rewrite El. cbn [app head].
    rewrite (turn_eq _ _ _ _ _ _ Hg Ho), bool_decide_true by exact E. cbn [mbind res_bind]. rewrite app_nil_r.
    pose proof (Hright s Hsub) as Hlast. apply last_Some in Hlast as [m Em].
    rewrite Em, <- app_assoc in ET. cbn [app] in ET. rewrite app_assoc in ET. rewrite (Hnext _ _ _ ET). reflexivity. }
  split; [apply updated_refl|]. apply Forall_forall. intros q Hq. destruct (decide (q = root s)) as [->|Hne]; [exists g, o; auto | auto].
Qed.

Lemma subtree_pass s : forall st, entered s st -> passes (preorder s) st.
Proof.
  induction s as [p kids IH] using gtree_ind'. intros st He. pose proof He as (Hsub & Hf & Hh & Hd & (g & o & Hg & Ho & Hout) & Hok).
  cbn [root] in *. destruct (decide (values (tg_uclamp g) = eff_clamps g o)) as [E|Hne]; [exact (skip_pass _ _ _ _ He Hg Ho E)|].
  set (st1 := restore st p g o). pose proof (restore_updated st p g o Hg Hne) as Hup. fold st1 in Hup.
  pose proof Hup as (Hs1 & Ho1 & _). pose proof (same_requests_tree _ _ Hs1) as Ht1.
  assert (p ∉ kids ≫= preorder /\ NoDup (kids ≫= preorder)) as [Hp Hdk] by (apply NoDup_cons; exact Hd).
  assert (eff_ok st1 p) as Hok1. { apply restore_ok; [exact Hg | exact Ho|]. intros Ep. apply (Hout _ Ep). left. }
  assert (passes (kids ≫= preorder) st1) as Hkids.
  { apply (kids_pass p); try assumption; [exact (follows_same _ _ _ Ht1 Hf) | exact (hung_same _ _ _ Ht1 Hh) | |].
    - destruct (same_tree_some _ _ _ _ Ht1 Hg) as (g1 & ? & _). eauto.
    - intros k q Hk Hq Hne'. assert (q ∈ kids ≫= preorder) as Hin by (apply list_elem_of_bind; eauto).
      apply (eff_ok_frame st).
      + apply Hok; [cbn; right; exact Hin | intros ->; exact (Hp Hin)].
      + apply Ho1. rewrite list_elem_of_singleton. intros ->. exact (Hp Hin).
      + intros r Hr. apply Ho1. rewrite list_elem_of_singleton. intros ->. apply hung_node in Hh as [_ Hh]. rewrite Forall_forall in Hh.
        destruct (hung_parent _ _ _ (Hh k Hk) Hq Hne') as (r & (x & ? & ?) & Hin'). destruct Hr as (x' & ? & ?). simplify_eq.
        apply Hp. apply list_elem_of_bind. eauto. }
  intros upd k l1 l2 ET. destruct (Hkids (upd ++ [p]) k (l1 ++ [p]) l2) as (st2 & u & j & Hj & E2 & Hu2 & Hok2).
  { rewrite <- app_assoc. exact ET. }
  exists st2, (p :: u), j. split; [exact Hj|]. split.
  { change (loop (S (length (kids ≫= preorder) + k)) body (st, upd, Some p) = loop j body (st2, upd ++ [p] ++ u, head l2)).
    rewrite loop_S, (turn_eq _ _ _ _ _ _ Hg Ho), bool_decide_false by exact Hne. cbn [mbind res_bind]. fold st1.
    rewrite <- (css_links _ _ _ _ Ht1), (proj1 Hf l1 p ((kids ≫= preorder) ++ l2) ET), app_assoc. exact E2. }
  split; [apply (updated_trans [p] (kids ≫= preorder) _ _ _ [p] u Hup Hu2); intros q Hq%list_elem_of_singleton; subst q; exact Hp|].
  constructor; [|exact Hok2]. destruct Hu2 as (_ & Ho2 & _). apply (eff_ok_frame st1 st2 p Hok1 (Ho2 p Hp)).
  intros r Hr. apply Ho2. destruct Hr as (x & Hx & Ex). destruct (same_tree_some _ _ _ _ Ht1 Hg) as (x' & Hx' & Ex' & _). simplify_eq.
  intros Hin. apply (Hout r); [congruence | right; exact Hin].
Qed.
End Tree.

Lemma updated_perm l l' st st' u : l ≡ₚ l' -> updated l st st' u -> updated l' st st' u.
Proof. intros E (Hs & Ho & Hu). split; [exact Hs|]. split; [|exact Hu]. intros q Hq. apply Ho. rewrite E. exact Hq. Qed.

(** The pass over the groups of [s], whose root was given new clamps or hangs
    from a group that was. *)
Lemma update_eff_spec st s g o :
  grows st s -> NoDup (preorder s) -> tg_of st !! root s = Some g -> parent_group st g = Ok o ->
  (forall q, tg_parent g = Some q -> q ∉ preorder s) -> (forall q, q ∈ preorder s -> q <> root s -> eff_ok st q) ->
  exists st' u, cpu_util_update_eff st (root s) = Ok (st', u) /\ updated (preorder s) st st' u /\ Forall (eff_ok st') (preorder s).
Proof.
  intros Hg Hd Hr Ho Hout Hok. destruct (css_order st s Hg Hd) as (T & Er & Hh & Ep & Hf).
  assert (entered T T st) as He.
  { split; [constructor|]. split; [exact Hf|]. split; [exact Hh|]. split; [rewrite Ep; exact Hd|]. rewrite Er.
    split; [exists g, o; setoid_rewrite Ep; auto | setoid_rewrite Ep; exact Hok]. }
  pose proof (tree_size _ _ Hg Hd) as Hsize. rewrite <- Ep in Hsize.
  destruct (subtree_pass T T st He [] (S (size (tg_of st)) - length (preorder T))%nat [] []) as (st' & u & j & Hj & E & Hu & Hall).
  { rewrite app_nil_r. reflexivity. }
  exists st', u. split.
  - unfold cpu_util_update_eff. rewrite css_first. replace (S (size (tg_of st)))
      with (length (preorder T) + (S (size (tg_of st)) - length (preorder T)))%nat by lia.
    rewrite app_nil_r in E. rewrite <- Er at 2. assert (head (preorder T) = Some (root T)) as <- by (destruct T; reflexivity).
    rewrite <- Er. rewrite E. destruct j as [|j]; [lia|]. reflexivity.
  - split; [exact (updated_perm _ _ _ _ _ Ep Hu) | rewrite <- Ep; exact Hall].
Qed.

(** * All groups *)

Definition all_eff (st : TGState) (t : gtree) : Prop := Forall (eff_ok st) (preorder t).

Lemma subtree_outside st t s x q : rooted st t -> subtree s t -> x ∈ preorder t -> x ∉ preorder s -> parent_of st x q -> q ∉ preorder s.
Proof.
  intros HR Hs Hx Hxs Hq Hqs. apply Hxs. apply (subtree_closed st s t x q); try assumption; try apply HR.
  intros ->. destruct (rooted_top _ _ HR) as (g & Hg & Ep). rewrite (rooted_root _ _ HR) in Hq.
  destruct Hq as (g' & ? & ?). simplify_eq.
Qed.

Lemma rooted_parent st t s : rooted st t -> subtree s t -> forall q, parent_of st (root s) q -> q ∈ preorder t /\ q ∉ preorder s.
Proof.
  intros HR Hs q Hq. pose proof (subtree_nodes _ _ _ Hs (preorder_root s)) as Hin.
  assert (root s <> root t) as Hne.
  { intros E. rewrite E, (rooted_root _ _ HR) in Hq. destruct (rooted_top _ _ HR) as (g & ? & ?), Hq as (g' & ? & ?). simplify_eq. }
  destruct (parent_inside _ _ _ (rooted_grows _ _ HR) Hin Hne) as (g & q' & Hg & Ep & Hq'). destruct Hq as (g' & ? & ?). simplify_eq.
  split; [exact Hq'|]. clear Hq'. pose proof (rooted_distinct _ _ HR) as Hd. pose proof (rooted_grows _ _ HR) as Hgr. clear HR Hin.
  induction Hs as [|p kids k Hk Hs IH]; [contradiction|]. pose proof Hd as Hd0. cbn in Hd. apply NoDup_cons in Hd as [Hpd Hd].
  apply grows_node in Hgr as (_ & Hp & Hgk). rewrite Forall_forall in Hp, Hgk. destruct (decide (root s = root k)) as [E|Hne'].
  - destruct (Hp k Hk) as (gk & ? & ?). rewrite E in *. simplify_eq. intros Hin. apply Hpd. apply list_elem_of_bind. exists k.
    split; [exact (subtree_nodes _ _ _ Hs Hin) | exact Hk].
  - apply IH; [exact Hne' | exact (kid_distinct _ _ Hd Hk) | exact (Hgk k Hk)].
Qed.

(** A new request at the root of a subtree: afterwards all groups are right. *)
Lemma request_spec st t s g r pct :
  rooted st t -> all_eff st t -> subtree s t -> tg_of st !! root s = Some g ->
  let st1 := set_tg st (root s) (with_clamps g r (tg_uclamp g) pct) in
  exists st' u, cpu_util_update_eff st1 (root s) = Ok (st', u) /\ updated (preorder s) st1 st' u /\ all_eff st' t.
Proof.
  intros HR Hall Hs Hg st1. assert (same_tree st st1) as Ht1 by (apply (same_tree_set _ _ g); [exact Hg | reflexivity]).
  assert (forall q, q <> root s -> tg_of st1 !! q = tg_of st !! q) as Hne by (intros q Hq; apply lookup_insert_ne; congruence).
  pose proof (rooted_same _ _ _ Ht1 HR) as HR1. unfold all_eff in Hall. rewrite Forall_forall in Hall.
  assert (tg_of st1 !! root s = Some (with_clamps g r (tg_uclamp g) pct)) as Hr1 by apply lookup_insert_eq.
  assert (forall q, q ∈ preorder t -> q <> root s -> eff_ok st1 q) as Hstay.
  { intros q Hq Hq1. apply (eff_ok_request st _ g); [exact Hg | reflexivity | exact Hq1 | exact (Hall q Hq)]. }
  pose proof (subtree_grows _ _ _ Hs (rooted_grows _ _ HR1)) as Hgs. pose proof (subtree_distinct _ _ Hs (rooted_distinct _ _ HR)) as Hds.
  pose proof (Hall _ (subtree_nodes _ _ _ Hs (preorder_root s))) as (g0 & o & Hg0 & Ho & _). rewrite Hg in Hg0. injection Hg0 as <-.
  destruct (update_eff_spec st1 s (with_clamps g r (tg_uclamp g) pct) o Hgs Hds Hr1) as (st' & u & E & Hu & Hok).
  - rewrite <- Ho. change (parent_group st1 g = parent_group st g). apply parent_group_frame. intros q Hq. apply Hne. intros ->.
    destruct (rooted_parent _ _ _ HR Hs (root s)) as [_ Hout]; [exists g; auto|]. apply Hout, preorder_root.
  - intros q Hq. apply (rooted_parent _ _ _ HR1 Hs). exists (with_clamps g r (tg_uclamp g) pct). auto.
  - intros q Hq Hq1. apply Hstay; [exact (subtree_nodes _ _ _ Hs Hq) | exact Hq1].
  - exists st', u. split; [exact E|]. split; [exact Hu|]. apply Forall_forall. intros q Hq.
    destruct (decide (q ∈ preorder s)) as [Hin|Hout]; [rewrite Forall_forall in Hok; exact (Hok q Hin)|].
    destruct Hu as (_ & Ho' & _). apply (eff_ok_frame st1); [|exact (Ho' q Hout)|].
    + apply Hstay; [exact Hq|]. intros ->. apply Hout, preorder_root.
    + intros x Hx. apply Ho'. exact (subtree_outside _ _ _ _ _ HR1 Hs Hq Hout Hx).
Qed.
End Pass.

(** * What the effective clamps are *)

(** The smallest request on the way from [q] up to the root. *)
Definition least (st : TGState) (id : uclamp_id) (q m : Z) : Prop :=
  (exists a g, rtc (parent_of st) q a /\ tg_of st !! a = Some g /\ value (cget (tg_req g) id) = m) /\
  forall a g, rtc (parent_of st) q a -> tg_of st !! a = Some g -> m <= value (cget (tg_req g) id).

(** The upper clamp of a group is the smallest upper clamp that it or a group
    above it asks for; the lower one is the smallest lower clamp asked for, capped
    by the upper one. *)
Definition clamped (st : TGState) (q : Z) : Prop := exists mn mx,
  least st UCLAMP_MIN q mn /\ least st UCLAMP_MAX q mx /\ vals st q = Some (mkClamps (Z.min mn mx) mx).

Definition effective (st : TGState) (t : gtree) : Prop := forall q, q ∈ preorder t -> clamped st q.

Lemma least_unique st id q m m' : least st id q m -> least st id q m' -> m = m'.
Proof.
  intros [(a & g & Ha & Hg & <-) H1] [(a' & g' & Ha' & Hg' & <-) H2].
  specialize (H1 _ _ Ha' Hg'). specialize (H2 _ _ Ha Hg). lia.
Qed.

Lemma rtc_parent st q r a : parent_of st q r -> rtc (parent_of st) q a -> a = q \/ rtc (parent_of st) r a.
Proof.
  intros (g & Hg & Er) Ht. inversion Ht as [|? r' ? (g' & ? & ?) Hra]; simplify_eq; [left; reflexivity | right; exact Hra].
Qed.

Lemma least_top st id q g : tg_of st !! q = Some g -> tg_parent g = None -> least st id q (value (cget (tg_req g) id)).
Proof.
  intros Hg Ep. split; [exists q, g; split; [apply rtc_refl | auto]|].
  intros a g' Ha Hg'. inversion Ha as [|? r ? (x & ? & ?) _]; simplify_eq. lia.
Qed.

Lemma least_child st id q r g m : tg_of st !! q = Some g -> tg_parent g = Some r -> least st id r m ->
  least st id q (Z.min m (value (cget (tg_req g) id))).
Proof.
  intros Hg Ep [(a & ga & Ha & Hga & Em) Hall]. assert (parent_of st q r) as Hqr by (exists g; auto). split.
  - destruct (Z.min_spec m (value (cget (tg_req g) id))) as [[_ ->]|[_ ->]].
    + exists a, ga. split; [eapply rtc_l; eauto | auto].
    + exists q, g. split; [apply rtc_refl | auto].
  - intros b gb Hb Hgb. destruct (rtc_parent _ _ _ _ Hqr Hb) as [->|Hrb]; [simplify_eq; lia|].
    specialize (Hall _ _ Hrb Hgb). lia.
Qed.

Lemma cap_min gp g id : (if value (cget (tg_uclamp gp) id) <? value (cget (tg_req g) id)
    then value (cget (tg_uclamp gp) id) else value (cget (tg_req g) id)) =
  Z.min (value (cget (tg_uclamp gp) id)) (value (cget (tg_req g) id)).
Proof. destruct (Z.ltb_spec (value (cget (tg_uclamp gp) id)) (value (cget (tg_req g) id))); lia. Qed.

(** What a group should have, once its parent is right. *)
Lemma eff_clamps_top st q g : tg_of st !! q = Some g -> tg_parent g = None ->
  exists mn mx, least st UCLAMP_MIN q mn /\ least st UCLAMP_MAX q mx /\ eff_clamps g None = mkClamps (Z.min mn mx) mx.
Proof. intros Hg Ep. do 2 eexists. split; [apply (least_top _ _ _ g Hg Ep)|]. split; [apply (least_top _ _ _ g Hg Ep) | reflexivity]. Qed.

Lemma eff_clamps_child st q r g gr : tg_of st !! q = Some g -> tg_parent g = Some r -> tg_of st !! r = Some gr -> clamped st r ->
  exists mn mx, least st UCLAMP_MIN q mn /\ least st UCLAMP_MAX q mx /\ eff_clamps g (Some gr) = mkClamps (Z.min mn mx) mx.
Proof.
  intros Hg Ep Hr (mn & mx & Hmn & Hmx & E). unfold vals in E. rewrite Hr in E. apply Some_inj in E. cbn in E. injection E as E1 E2.
  do 2 eexists. split; [exact (least_child _ _ _ _ _ _ Hg Ep Hmn)|]. split; [exact (least_child _ _ _ _ _ _ Hg Ep Hmx)|].
  unfold eff_clamps. rewrite !cap_min. cbn [cget]. rewrite E1, E2. f_equal. lia.
Qed.

Lemma eff_ok_clamped st q : eff_ok st q -> (forall r, parent_of st q r -> clamped st r) -> clamped st q.
Proof.
  intros (g & o & Hg & Ho & E) Hp. apply parent_group_ok in Ho. destruct (tg_parent g) as [r|] eqn:Ep.
  - destruct Ho as (gr & Hr & ->). destruct (eff_clamps_child _ _ _ _ _ Hg Ep Hr) as (mn & mx & H1 & H2 & H3); [apply Hp; exists g; auto|].
    exists mn, mx. split; [exact H1|]. split; [exact H2|]. unfold vals. rewrite Hg. cbn. congruence.
  - subst o. destruct (eff_clamps_top _ _ _ Hg Ep) as (mn & mx & H1 & H2 & H3). exists mn, mx. split; [exact H1|]. split; [exact H2|].
    unfold vals. rewrite Hg. cbn. congruence.
Qed.

Lemma clamped_eff_ok st q g : clamped st q -> tg_of st !! q = Some g ->
  (forall r, tg_parent g = Some r -> clamped st r /\ is_Some (tg_of st !! r)) -> eff_ok st q.
Proof.
  intros (mn & mx & Hmn & Hmx & E) Hg Hp. unfold vals in E. rewrite Hg in E. apply Some_inj in E. unfold compose in E.
  exists g. unfold parent_group, tgroup. destruct (tg_parent g) as [r|] eqn:Ep.
  - destruct (Hp r eq_refl) as [Hr [gr Hgr]]. rewrite Hgr. exists (Some gr). split; [exact Hg|]. split; [reflexivity|].
    destruct (eff_clamps_child _ _ _ _ _ Hg Ep Hgr Hr) as (mn' & mx' & H1 & H2 & ->).
    rewrite (least_unique _ _ _ _ _ H1 Hmn), (least_unique _ _ _ _ _ H2 Hmx). exact E.
  - exists None. split; [exact Hg|]. split; [reflexivity|]. destruct (eff_clamps_top _ _ _ Hg Ep) as (mn' & mx' & H1 & H2 & ->).
    rewrite (least_unique _ _ _ _ _ H1 Hmn), (least_unique _ _ _ _ _ H2 Hmx). exact E.
Qed.

Lemma clamped_below st s : grows st s -> Forall (eff_ok st) (preorder s) ->
  (forall r, parent_of st (root s) r -> clamped st r) -> Forall (clamped st) (preorder s).
Proof.
  induction s as [p kids IH] using gtree_ind'. intros Hg Hok Hr. apply grows_node in Hg as (_ & Hp & Hk). cbn [preorder root] in *.
  apply Forall_cons in Hok as [Hok1 Hok]. pose proof (eff_ok_clamped _ _ Hok1 Hr) as Hc. constructor; [exact Hc|].
  apply Forall_bind. rewrite Forall_bind in Hok. rewrite Forall_forall in *. intros k Hin. apply (IH k Hin (Hk k Hin) (Hok k Hin)).
  intros r (g & Hg & Er). destruct (Hp k Hin) as (g' & ? & ?). simplify_eq. exact Hc.
Qed.

Lemma effective_all st t : rooted st t -> all_eff st t <-> effective st t.
Proof.
  intros HR. pose proof (rooted_grows _ _ HR) as Hg. unfold effective, all_eff. rewrite <- Forall_forall. split.
  - intros Hok. apply clamped_below; [exact Hg | exact Hok|]. rewrite (rooted_root _ _ HR). destruct (rooted_top _ _ HR) as (g & ? & ?).
    intros r (g' & ? & ?). simplify_eq.
  - intros Hc. pose proof (grows_some _ _ Hg) as Hs. rewrite Forall_forall in *. intros q Hq. destruct (Hs q Hq) as [g Hgq].
    apply (clamped_eff_ok st q g (Hc q Hq) Hgq). intros r Er. destruct (subtree_at t q Hq) as (s & Hsub & <-).
    destruct (rooted_parent _ _ _ HR Hsub r) as [Hr _]; [exists g; auto|]. auto.
Qed.

Section Operations.
  Context `{Headers} `{CssWalkOk} (strim : list Z -> list Z) (cgroup_parse_float : list Z -> Z -> Z * Z).

#[local] Abbreviation write := (cpu_uclamp_write strim cgroup_parse_float).
#[local] Abbreviation parse := (capacity_from_percent strim cgroup_parse_float).

(** The request that a write leaves with the group. *)
Definition asked (g : TaskGroup) (id : uclamp_id) (req : uclamp_request) : Clamps uclamp_se * Clamps Z :=
  let r := cget (tg_req g) id in
  (cset (tg_req g) id (if negb (value r =? r_util req) then uclamp_se_set r (r_util req) false else r),
   cset (tg_pct g) id (r_percent req)).

Lemma uclamp_write_spec st t p g buf nbytes id :
  rooted st t -> effective st t -> p ∈ preorder t -> tg_of st !! p = Some g ->
  exists ret st' u, write st p buf nbytes id = Ok (ret, st', u) /\ rooted st' t /\ effective st' t /\
    (forall q, q ∈ u <-> vals st q <> vals st' q) /\
    (r_ret (parse buf) = 0 /\ ret = nbytes /\
       same_requests (set_tg st p (with_clamps g (asked g id (parse buf)).1 (tg_uclamp g) (asked g id (parse buf)).2)) st' \/
     r_ret (parse buf) <> 0 /\ ret = r_ret (parse buf) /\ st' = st).
Proof.
  intros HR Heff Hp Hg. unfold cpu_uclamp_write. destruct (Z.eqb_spec (r_ret (parse buf)) 0) as [E|Hne]; cbn [negb].
  2: { exists (r_ret (parse buf)), st, []. split; [reflexivity|]. split; [exact HR|]. split; [exact Heff|].
       split; [apply (updated_refl [])|]. right. auto. }
  unfold tgroup. rewrite Hg. cbn [mbind res_bind]. destruct (subtree_at t p Hp) as (s & Hs & <-).
  apply (effective_all _ _ HR) in Heff.
  destruct (request_spec st t s g (asked g id (parse buf)).1 (asked g id (parse buf)).2 HR Heff Hs Hg) as (st' & u & Ew & (Hsr & _ & Hu) & Hall).
  unfold asked in Ew. cbn [fst snd] in Ew. rewrite Ew. cbn [mbind res_bind].
  assert (same_tree st st') as Ht.
  { etransitivity; [|apply same_requests_tree, Hsr]. apply (same_tree_set _ _ g); [exact Hg | reflexivity]. }
  pose proof (rooted_same _ _ _ Ht HR) as HR'. exists nbytes, st', u. split; [reflexivity|]. split; [exact HR'|].
  split; [apply effective_all; assumption|]. split; [|left; auto].
  intros q. rewrite Hu. unfold vals at 1. cbn. destruct (decide (q = root s)) as [->|Hne].
  - rewrite lookup_insert_eq. unfold vals at 2. rewrite Hg. reflexivity.
  - rewrite lookup_insert_ne by congruence. reflexivity.
Qed.

Lemma css_online_spec st t p q :
  rooted st t -> effective st t -> is_Some (tg_of st !! p) -> p ∉ preorder t -> q ∈ preorder t ->
  exists st' u, cpu_cgroup_css_online st p (Some q) = Ok (0, st', u) /\ rooted st' (graft q p t) /\
    preorder (graft q p t) ≡ₚ p :: preorder t /\ effective st' (graft q p t) /\ forall x, x ∈ preorder t -> vals st' x = vals st x.
Proof.
  intros HR Heff Hp Hpt Hq. pose proof (grows_some _ _ (rooted_grows _ _ HR)) as Hsome. rewrite Forall_forall in Hsome.
  assert (p <> q) as Hne by congruence. destruct (sched_online_group_ok st p q Hp (Hsome q Hq) Hne) as (st1 & E1 & HO).
  destruct (online_rooted _ _ _ _ _ HO HR Hpt Hq) as [HR1 Eperm].
  destruct (online_child _ _ _ _ HO) as (g & Hgp & Hgp1). destruct (online_parent _ _ _ _ HO) as (gq & Hgq & Hgq1).
  assert (forall x, x <> p -> view <$> tg_of st1 !! x = view <$> tg_of st !! x) as Hview.
  { intros x Hx. destruct (decide (x = q)) as [->|Hxq]; [rewrite Hgq, Hgq1; reflexivity | rewrite (online_others _ _ _ _ HO); auto]. }
  assert (forall x r, x ∈ preorder t -> parent_of st x r -> r <> p) as Hpar.
  { intros x r Hx Hr ->. destruct (subtree_at t x Hx) as (s & Hs & <-). destruct (rooted_parent _ _ _ HR Hs p Hr). contradiction. }
  unfold cpu_cgroup_css_online. rewrite E1. cbn [mbind res_bind].
  destruct (update_eff_spec st1 (Node p []) (with_links g (Some q) []) (Some (with_links gq (tg_parent gq) (p :: tg_children gq))))
    as (st' & u & E & (Hsr & Ho & _) & Hok); cbn [root preorder].
  - apply grows_node. split; [eexists; split; [exact Hgp1 | reflexivity] | split; constructor].
  - apply NoDup_singleton.
  - exact Hgp1.
  - unfold parent_group, tgroup. cbn. rewrite Hgq1. reflexivity.
  - cbn. intros x [= <-]. rewrite list_elem_of_singleton. congruence.
  - intros x Hx%list_elem_of_singleton. contradiction.
  - cbn [root] in E. rewrite E. exists st', u. split; [reflexivity|]. cbn [preorder mbind list_bind] in Ho, Hok.
    pose proof (rooted_same _ _ _ (same_requests_tree _ _ Hsr) HR1) as HR'. split; [exact HR'|]. split; [exact Eperm|].
    assert (forall x, x <> p -> tg_of st' !! x = tg_of st1 !! x) as Ho' by (intros x Hx; apply Ho; rewrite list_elem_of_singleton; exact Hx).
    split.
    + apply (effective_all _ _ HR'). unfold all_eff. rewrite Eperm. constructor; [apply Forall_inv in Hok; exact Hok|].
      apply (effective_all _ _ HR) in Heff. unfold all_eff in Heff. rewrite Forall_forall in Heff |- *. intros x Hx.
      apply (eff_ok_view st); [rewrite Ho', Hview by congruence; reflexivity | | exact (Heff x Hx)].
      intros r Hr. pose proof (Hpar x r Hx Hr) as Hrp. rewrite Ho' by exact Hrp. specialize (Hview r Hrp).
      destruct (tg_of st1 !! r), (tg_of st !! r); try discriminate; [|reflexivity]. apply Some_inj in Hview. unfold view in Hview. cbn. congruence.
    + intros x Hx. unfold vals. assert (x <> p) as Hxp by congruence. rewrite Ho' by exact Hxp. specialize (Hview x Hxp).
      destruct (tg_of st1 !! x), (tg_of st !! x); try discriminate; [|reflexivity]. apply Some_inj in Hview. unfold view in Hview. cbn. congruence.
Qed.

(** The number of a percentage: the nearest of 0 .. 1024. The parser's number is
    a signed 64-bit one. *)
Lemma capacity_spec buf :
  (forall b n, - 2 ^ 63 <= (cgroup_parse_float b n).2 < 2 ^ 63) -> r_ret (parse buf) = 0 ->
  0 <= r_percent (parse buf) <= 10000 /\ 0 <= r_util (parse buf) <= 1024 /\
  10000 * r_util (parse buf) - 5000 <= 1024 * r_percent (parse buf) < 10000 * r_util (parse buf) + 5000.
Proof.
  intros Hs. unfold capacity_from_percent. change UCLAMP_PERCENT_SCALE with 10000. change SCHED_CAPACITY_SCALE with 1024.
  case_bool_decide; cbn [r_percent r_util r_ret]; [lia|]. specialize (Hs (strim buf) 2).
  destruct (cgroup_parse_float (strim buf) 2) as [ret percent]. cbn [snd] in Hs.
  destruct (Z.eqb_spec ret 0) as [->|Hne]; cbn [negb r_percent r_util r_ret]; [|contradiction].
  destruct (Z.ltb_spec 10000 (u64 percent)) as [|Hle]; cbn [r_percent r_util r_ret]; [discriminate|]. intros _.
  assert (0 <= percent <= 10000) as Hp.
  { destruct (decide (0 <= percent)) as [|Hneg]; [rewrite u64_id in Hle by lia; lia|].
    revert Hle. unfold u64. rewrite <- (Z.mod_unique percent (2 ^ 64) (-1) (percent + 2 ^ 64)); lia. }
  change SCHED_CAPACITY_SHIFT with 10. rewrite Z.shiftl_mul_pow2, u64_id by lia. change (10000 / 2) with 5000. change (2 ^ 10) with 1024.
  pose proof (Z.div_mod (percent * 1024 + 5000) 10000 ltac:(lia)). pose proof (Z.mod_pos_bound (percent * 1024 + 5000) 10000 ltac:(lia)). lia.
Qed.

(** Reading a clamp back. *)
Lemma print_asked st p g id buf st' :
  (forall b n, - 2 ^ 63 <= (cgroup_parse_float b n).2 < 2 ^ 63) -> r_ret (parse buf) = 0 ->
  same_requests (set_tg st p (with_clamps g (asked g id (parse buf)).1 (tg_uclamp g) (asked g id (parse buf)).2)) st' ->
  cpu_uclamp_print st' p id = Ok (
    let percent := r_percent (parse buf) in
    if 9996 <=? percent then MaxText else PercentText (percent / 100) (percent mod 100)).
Proof.
  intros Hs Hret Hsr. destruct (capacity_spec buf Hs Hret) as (Hp & Hu & Hnear).
  destruct (same_requests_some _ _ p _ Hsr (lookup_insert_eq _ _ _)) as (g' & Hg' & Eb).
  unfold cpu_uclamp_print, tgroup. rewrite Hg'. cbn [mbind res_bind]. unfold bare in Eb. injection Eb as _ _ _ _ _ Er Epct.
  rewrite Er, Epct. cbn [with_clamps tg_req tg_pct asked fst snd]. rewrite !cget_cset.
  assert (forall se, value (if negb (value se =? r_util (parse buf)) then uclamp_se_set se (r_util (parse buf)) false else se) = r_util (parse buf)) as ->.
  { intros se. destruct (Z.eqb_spec (value se) (r_util (parse buf))) as [E|_]; [exact E|]. apply Z.mod_small. lia. }
  change SCHED_CAPACITY_SCALE with 1024. change POW10_SHIFT with 100.
  destruct (Z.eqb_spec (r_util (parse buf)) 1024), (Z.leb_spec 9996 (r_percent (parse buf))); try lia; reflexivity.
Qed.
End Operations.

(** * The life of a group *)

Section Life.
  Context `{Headers} `{CssWalkOk} `{FairGroup}.

(** Changing what the clamps of no group depend on. *)
Lemma effective_view st st' t t' : rooted st t -> rooted st' t' -> (forall q, q ∈ preorder t' -> q ∈ preorder t) ->
  (forall q, q ∈ preorder t -> view <$> tg_of st' !! q = view <$> tg_of st !! q) -> effective st t -> effective st' t'.
Proof.
  intros HR HR' Hsub Hview Heff. apply (effective_all _ _ HR) in Heff. apply (effective_all _ _ HR').
  unfold all_eff in Heff |- *. rewrite Forall_forall in Heff |- *. intros q Hq. apply Hsub in Hq.
  apply (eff_ok_view st); [exact (Hview q Hq) | | exact (Heff q Hq)]. intros r Hr.
  destruct (subtree_at t q Hq) as (s & Hs & <-). destruct (rooted_parent _ _ _ HR Hs r Hr) as [Hin _]. specialize (Hview r Hin).
  destruct (tg_of st' !! r), (tg_of st !! r); try discriminate; [|reflexivity]. apply Some_inj in Hview. unfold view in Hview. cbn. congruence.
Qed.

Lemma create_spec memory rt st t p q :
  rooted st t -> effective st t -> tg_of st !! p = None -> q ∈ preorder t ->
  exists o, sched_create_group memory rt st p q = Ok o /\
    match o with
    | None => memory = false \/ rt = false \/ exists gq, tg_of st !! q = Some gq /\ alloc_fair_sched_group blank gq = None
    | Some st' => rooted st' t /\ effective st' t /\ is_Some (tg_of st' !! p) /\ p ∉ preorder t /\
        forall x, x <> p -> tg_of st' !! x = tg_of st !! x
    end.
Proof.
  intros HR Heff Hp Hq. pose proof (grows_some _ _ (rooted_grows _ _ HR)) as Hsome. rewrite Forall_forall in Hsome.
  destruct (Hsome q Hq) as [gq Hgq]. assert (p ∉ preorder t) as Hpt by (intros Hin; destruct (Hsome p Hin); congruence).
  unfold sched_create_group, tgroup. destruct memory; cbn [negb]; [|eexists; split; [reflexivity | left; reflexivity]].
  rewrite Hgq. cbn [mbind res_bind]. destruct (alloc_fair_sched_group blank gq) as [g|] eqn:Ea; [|eexists; split; [reflexivity | right; right; eauto]].
  destruct rt; cbn [negb]; [|eexists; split; [reflexivity | right; left; reflexivity]]. eexists. split; [reflexivity|].
  set (g' := alloc_uclamp_sched_group g gq). assert (forall x, x <> p -> tg_of (set_tg st p g') !! x = tg_of st !! x) as Ho
    by (intros x Hx; apply lookup_insert_ne; congruence).
  assert (rooted (set_tg st p g') t) as HR'.
  { destruct HR as [Hr Hg Hd (gt & Ht & Ep)]. split; [exact Hr | | exact Hd|].
    - apply (grows_frame st); [|exact Hg]. intros x Hx. rewrite Ho by congruence. reflexivity.
    - exists gt. rewrite Ho by (intros <-; congruence). auto. }
  split; [exact HR'|]. split; [|split; [eexists; apply lookup_insert_eq | auto]].
  apply (effective_view st _ t t HR HR'); [auto | | exact Heff]. intros x Hx. rewrite Ho by congruence. reflexivity.
Qed.

Lemma release_effective st t p : rooted st t -> effective st t -> p ∈ preorder t -> p <> root_task_group -> leaf p t ->
  exists st', sched_release_group st p = Ok st' /\ rooted st' (prune p t) /\ effective st' (prune p t).
Proof.
  intros HR Heff Hp Hne Hl. destruct (release_rooted st t p HR Hp Hne Hl) as (st' & q & gq & E & HR' & Epre & _ & Hq & Est).
  exists st'. split; [exact E|]. split; [exact HR'|]. apply (effective_view st _ t _ HR HR'); [| | exact Heff].
  - intros x Hx. rewrite Epre in Hx. apply list_elem_of_filter in Hx. tauto.
  - intros x Hx. rewrite Est. destruct (decide (x = q)) as [->|Hxq]; [rewrite lookup_insert_eq, Hq; reflexivity|].
    rewrite lookup_insert_ne by congruence. reflexivity.
Qed.
End Life.
