(* ===== verification/GroupWeights.v ===== *)
(** The share of a task group in src/3/20193018_PLUS-1/core.c: the files
    cpu.shares, cpu.weight and cpu.weight.nice, which all set the same number. *)

From S2P Require Import Prelude KHeaders Uclamp Priority TaskGroups.
Local Open Scope Z_scope.

(** kernel/sched/sched.h and linux/cgroup.h; [sched_group_set_shares] and
    [sched_group_set_idle] are fair.c: what they return and the groups
    afterwards. *)
Class GroupShares := {
  scale_load_down : Z -> Z;
  MAX_SHARES : Z;
  CGROUP_WEIGHT_MIN : Z;
  CGROUP_WEIGHT_DFL : Z;
  CGROUP_WEIGHT_MAX : Z;
  sched_group_set_shares : TGState -> Z -> Z -> Z * TGState
}.

(** Shares are kept between 2 and 2^18, with ten more bits; a request that is
    refused (for the root and for idle groups) changes nothing. *)
Class GroupSharesOk `{Headers} `{GroupShares} : Prop := {
  load_scaled w : 2 <= w < 2 ^ 53 -> scale_load_down (scale_load w) = w;
  max_shares : MAX_SHARES = 2 ^ 18;
  cgroup_weights : CGROUP_WEIGHT_MIN = 1 /\ CGROUP_WEIGHT_DFL = 100 /\ CGROUP_WEIGHT_MAX = 10000;
  set_shares_ok st p v ret st' : sched_group_set_shares st p (scale_load v) = (ret, st') ->
    ret = 0 /\ (exists g, tg_of st' !! p = Some g /\ shares g = scale_load (Z.min (Z.max v 2) (2 ^ 18))) \/
    ret <> 0 /\ st' = st
}.

Definition ERANGE : Z := 34.
Definition INT_MAX : Z := 2 ^ 31 - 1.

Section Weights.
  Context `{Headers} `{GroupShares}.

Definition cpu_shares_write_u64 (st : TGState) (p shareval : Z) : Z * TGState :=
  let shareval := if scale_load_down (2 ^ 64 - 1) <? shareval then MAX_SHARES else shareval in
  sched_group_set_shares st p (scale_load shareval).

Definition cpu_shares_read_u64 (st : TGState) (p : Z) : res Z :=
  g ← tgroup st p; mret (scale_load_down (shares g)).

Definition cpu_weight_read_u64 (st : TGState) (p : Z) : res Z :=
  g ← tgroup st p;
  let weight := scale_load_down (shares g) in
  mret ((u64 (weight * CGROUP_WEIGHT_DFL) + 1024 / 2) / 1024).

Definition cpu_weight_write_u64 (st : TGState) (p weight : Z) : Z * TGState :=
  if (weight <? CGROUP_WEIGHT_MIN) || (CGROUP_WEIGHT_MAX <? weight) then (- ERANGE, st)
  else
    let weight := (u64 (weight * 1024) + CGROUP_WEIGHT_DFL / 2) / CGROUP_WEIGHT_DFL in
    sched_group_set_shares st p (scale_load weight).

(** The distance is taken of a [long] and kept in an [int]. *)
Definition nice_delta (w weight : Z) : Z := wrap 32 (Z.abs (wrap 64 (w - weight))).

Definition cpu_weight_nice_read_s64 (st : TGState) (p : Z) : res Z :=
  g ← tgroup st p;
  let weight := scale_load_down (shares g) in
  out ← for_ctl (R := Empty_set) 40 0 (fun prio '(_, last_delta) =>
    w ← aget sched_prio_to_weight prio;
    let delta := nice_delta w weight in
    mret (if last_delta <=? delta then Break (prio, last_delta) else Continue (prio + 1, delta))) (0, INT_MAX);
  match out with
  | inl (prio, _) => mret (PRIO_TO_NICE (prio - 1 + MAX_RT_PRIO))
  | inr e => match e : Empty_set with end
  end.

(** [array_index_nospec] returns an index below its bound as it is. *)
Definition cpu_weight_nice_write_s64 (st : TGState) (p nice : Z) : res (Z * TGState) :=
  if (nice <? MIN_NICE) || (MAX_NICE <? nice) then mret (- ERANGE, st)
  else
    let idx := NICE_TO_PRIO nice - MAX_RT_PRIO in
    weight ← aget sched_prio_to_weight idx;
    mret (sched_group_set_shares st p (scale_load weight)).
End Weights.

(** * Reading back *)

Section Facts.
  Context `{HeadersOk} `{!GroupShares} `{!GroupSharesOk}.

Lemma table_decreasing i j a b : sched_prio_to_weight !! i = Some a -> sched_prio_to_weight !! j = Some b -> (i < j)%nat -> b < a.
Proof.
  intros Hi Hj Hlt. assert (StronglySorted Z.gt sched_prio_to_weight) as Hs.
  { apply Sorted_StronglySorted; [intros x y z; lia|]. repeat constructor; lia. }
  revert i j Hi Hj Hlt. induction Hs as [|x l _ IH Hx]; intros [|i] [|j] Hi Hj Hlt; try discriminate; [lia | | lia |].
  - injection Hi as <-. apply Z.gt_lt. rewrite Forall_forall in Hx. apply Hx. eapply list_elem_of_lookup_2, Hj.
  - eapply (IH i j); eauto. lia.
Qed.

Lemma table_range i w : sched_prio_to_weight !! i = Some w -> 15 <= w <= 88761.
Proof.
  intros Hi. assert (Forall (fun w => 15 <= w <= 88761) sched_prio_to_weight) as Hf by (repeat constructor; lia).
  rewrite Forall_forall in Hf. apply Hf. eapply list_elem_of_lookup_2, Hi.
Qed.

Lemma nice_delta_abs w weight : 15 <= w <= 88761 -> 0 <= weight <= 2 ^ 18 -> nice_delta w weight = Z.abs (w - weight).
Proof. intros Hw Hg. unfold nice_delta. rewrite (wrap_id 64), wrap_id by lia. reflexivity. Qed.

(** The nearest weight of the table: the scan stops where the distance grows,
    and it never falls again. *)
Lemma nice_read_closest st p g :
  tg_of st !! p = Some g -> 0 <= scale_load_down (shares g) <= 2 ^ 18 ->
  exists k w, cpu_weight_nice_read_s64 st p = Ok (Z.of_nat k - 20) /\ sched_prio_to_weight !! k = Some w /\
    forall j v, sched_prio_to_weight !! j = Some v ->
      Z.abs (w - scale_load_down (shares g)) <= Z.abs (v - scale_load_down (shares g)).
Proof.
  intros Hg Hs. unfold cpu_weight_nice_read_s64, tgroup. rewrite Hg. cbn [mbind res_bind]. set (weight := scale_load_down (shares g)) in *.
  set (nearest := fun k w => sched_prio_to_weight !! k = Some w /\ forall j v, sched_prio_to_weight !! j = Some v -> Z.abs (w - weight) <= Z.abs (v - weight)).
  match goal with |- context [for_ctl 40 0 ?b ?s] =>
    destruct (for_ctl_rule (R := Empty_set)
      (fun i '(prio, last) => prio = i /\ if i =? 0 then last = INT_MAX else exists k w, i = Z.of_nat k + 1 /\
         sched_prio_to_weight !! k = Some w /\ last = Z.abs (w - weight) /\
         forall j v, (j <= k)%nat -> sched_prio_to_weight !! j = Some v -> Z.abs (w - weight) <= Z.abs (v - weight))
      (fun o => exists prio last k w, o = inl (prio, last) /\ prio = Z.of_nat k + 1 /\ nearest k w)
      b 40 0 s) as (o & Eo & prio & last & k & w & -> & -> & Hn)
  end.
  - split; reflexivity.
  - intros i [prio last] Hi [-> Hl]. destruct (lookup_lt_is_Some_2 sched_prio_to_weight (Z.to_nat i)) as [w Hw]; [cbn; lia|].
    rewrite (aget_ok_Z _ i w) by (lia || exact Hw). cbn [mbind res_bind]. pose proof (table_range _ _ Hw) as Hr.
    rewrite nice_delta_abs by assumption. destruct (Z.leb_spec last (Z.abs (w - weight))) as [Hge|Hlt]; apply returns_ok; cbn [ctl_post].
    + destruct (Z.eqb_spec i 0) as [->|Hne]; [subst last; unfold INT_MAX in Hge; lia|].
      destruct Hl as (k & v & -> & Hk & -> & Hmin). exists (Z.of_nat k + 1), (Z.abs (v - weight)), k, v. split; [reflexivity|]. split; [reflexivity|].
      split; [exact Hk|]. intros j u Hj. destruct (decide (j <= k)%nat) as [|Hjk]; [eauto|].
      assert (v > w) by (apply Z.lt_gt; eapply (table_decreasing k); eauto; lia).
      destruct (decide (j = Z.to_nat (Z.of_nat k + 1))) as [->|Hj']; [simplify_eq; lia|].
      assert (u < w) by (eapply (table_decreasing (Z.to_nat (Z.of_nat k + 1)) j); eauto; lia). lia.
    + split; [reflexivity|]. destruct (Z.eqb_spec (i + 1) 0); [lia|]. exists (Z.to_nat i), w. split; [lia|]. split; [exact Hw|]. split; [reflexivity|].
      intros j u Hj Hu. destruct (decide (j = Z.to_nat i)) as [->|Hj']; [simplify_eq; lia|]. destruct (Z.eqb_spec i 0) as [->|Hne]; [lia|].
      destruct Hl as (k & v & -> & Hk & -> & Hmin). specialize (Hmin j u ltac:(lia) Hu). lia.
  - intros [prio last] [-> (k & w & Ek & Hk & -> & Hmin)]. eexists _, _, k, w. split; [reflexivity|]. split; [exact Ek|]. split; [exact Hk|].
    intros j v Hj. apply (Hmin j v); [|exact Hj]. apply lookup_lt_Some in Hj. cbn in Hj. lia.
  - destruct Hn as [Hk Hmin]. exists k, w. rewrite Eo. cbn [mbind res_bind]. split; [|split; [exact Hk | exact Hmin]].
    rewrite prio_nice. destruct prio_range as [-> _]. unfold mret, res_ret. f_equal. lia.
Qed.

Lemma set_shares_zero st p v st' : sched_group_set_shares st p (scale_load v) = (0, st') -> v <= 2 ^ 18 ->
  exists g, tg_of st' !! p = Some g /\ scale_load_down (shares g) = Z.max v 2.
Proof.
  intros E Hv. apply set_shares_ok in E as [(_ & g & Hg & Es)|[? _]]; [|contradiction].
  exists g. split; [exact Hg|]. rewrite Es, Z.min_l, load_scaled by lia. reflexivity.
Qed.

(** 1024 hundredths round to the hundredth and back. *)
Lemma weight_round w : 1 <= w <= 10000 -> let v := (w * 1024 + 50) / 100 in 10 <= v <= 102400 /\ (v * 100 + 512) / 1024 = w.
Proof.
  intros Hw v. pose proof (Z.div_mod (w * 1024 + 50) 100 ltac:(lia)) as E. pose proof (Z.mod_pos_bound (w * 1024 + 50) 100 ltac:(lia)).
  fold v in E. split; [lia|]. symmetry. apply (Z.div_unique _ _ _ (v * 100 + 512 - 1024 * w)); lia.
Qed.

Lemma weight_roundtrip st p w st' : 1 <= w <= 10000 -> cpu_weight_write_u64 st p w = (0, st') -> cpu_weight_read_u64 st' p = Ok w.
Proof.
  unfold cpu_weight_write_u64, cpu_weight_read_u64. destruct cgroup_weights as (-> & -> & ->). intros Hw.
  destruct (Z.ltb_spec w 1); [lia|]. destruct (Z.ltb_spec 10000 w); [lia|]. cbn [orb].
  destruct (weight_round w Hw) as [Hv Er]. rewrite u64_id by lia. change (100 / 2) with 50. intros E.
  destruct (set_shares_zero _ _ _ _ E) as (g & Hg & Es); [lia|]. unfold tgroup. rewrite Hg. cbn [mbind res_bind].
  rewrite Es, Z.max_l, u64_id by lia. change (1024 / 2) with 512. rewrite Er. reflexivity.
Qed.

Lemma weight_nice_roundtrip st p n st' : -20 <= n <= 19 -> cpu_weight_nice_write_s64 st p n = Ok (0, st') ->
  cpu_weight_nice_read_s64 st' p = Ok n.
Proof.
  unfold cpu_weight_nice_write_s64. destruct nice_range as (-> & -> & _). intros Hn.
  destruct (Z.ltb_spec n (-20)); [lia|]. destruct (Z.ltb_spec 19 n); [lia|]. cbn [orb]. rewrite nice_prio. destruct prio_range as [-> _].
  destruct (lookup_lt_is_Some_2 sched_prio_to_weight (Z.to_nat (n + 20))) as [w Hw]; [cbn; lia|].
  rewrite (aget_ok_Z _ _ w) by (try lia; replace (n + 120 - 100) with (n + 20) by lia; exact Hw). cbn [mbind res_bind]. intros [= E].
  pose proof (table_range _ _ Hw) as Hr. destruct (set_shares_zero _ _ _ _ E) as (g & Hg & Es); [lia|]. rewrite Z.max_l in Es by lia.
  destruct (nice_read_closest st' p g Hg) as (k & v & -> & Hk & Hmin); [lia|]. specialize (Hmin _ _ Hw). rewrite Es in Hmin.
  f_equal. enough (k = Z.to_nat (n + 20)) by lia. destruct (Nat.lt_trichotomy k (Z.to_nat (n + 20))) as [Hlt|[|Hlt]]; [|assumption|].
  - pose proof (table_decreasing _ _ _ _ Hk Hw Hlt). lia.
  - pose proof (table_decreasing _ _ _ _ Hw Hk Hlt). lia.
Qed.
End Facts.
