(* ===== verification/GroupMoves.v ===== *)
(** A task changes its group in src/3/20193018_PLUS-1/core.c: [sched_move_task]
    and the callbacks of the CPU controller above it. The calls into the
    scheduling classes are a trace, as in [Priority]. *)

From S2P Require Import Prelude KHeaders Priority.
Local Open Scope Z_scope.

(** A task as far as these functions see it: its class, whether that has a
    [task_change_group], the group of its control group, the one it runs in, and
    whether it is still [TASK_NEW]. *)
Record GTask := mkGTask {
  gt_class : SchedClass;
  gt_hook : bool;
  gt_css : Z;
  sched_task_group : Z;
  gt_new : bool
}.

Definition with_group (t : GTask) (g : Z) : GTask := mkGTask (gt_class t) (gt_hook t) (gt_css t) g (gt_new t).

(** [TASK_SET_GROUP] and [TASK_MOVE_GROUP]. *)
Inductive ChangeType := TASK_SET_GROUP | TASK_MOVE_GROUP.

(** A call into a class, its callback for a new group, [set_task_rq] for the
    classes without one, [resched_curr]. *)
Inductive MoveCall :=
  | ClassCall (e : Ev)
  | TaskChangeGroup (c : SchedClass) (g : Z) (type : ChangeType)
  | SetTaskRq (g : Z)
  | ReschedCurr.

Inductive ForkCall := RseqMigrate | SetTaskCpu (cpu : Z) | TaskFork (c : SchedClass).

Section Moves.
  (** kernel/sched/autogroup.h. *)
  Context (autogroup_task_group : GTask -> Z -> Z).

Definition sched_change_group (t : GTask) (type : ChangeType) : GTask * list MoveCall :=
  let tg := autogroup_task_group t (gt_css t) in
  let t := with_group t tg in
  (t, [if gt_hook t then TaskChangeGroup (gt_class t) tg type else SetTaskRq tg]).

(** [at_] is where the task is when its run queue is locked. *)
Definition sched_move_task (at_ : Place) (t : GTask) : GTask * list MoveCall :=
  let c := gt_class t in
  let out := (if queued at_ then [ClassCall (Dequeue c true)] else []) ++ (if running at_ then [ClassCall (PutPrev c)] else []) in
  let '(t, change) := sched_change_group t TASK_MOVE_GROUP in
  let back := (if queued at_ then [ClassCall (Enqueue c false false)] else []) ++
              (if running at_ then [ClassCall (SetNext c); ReschedCurr] else []) in
  (t, out ++ change ++ back).

(** In fork, before the child is known to anyone: the group of its control
    group, the CPU [cpu] it is on, and the [task_fork] of its class, if it has
    one. *)
Definition sched_cgroup_fork (t : GTask) (cpu : Z) (task_fork : bool) : GTask * list ForkCall :=
  (with_group t (autogroup_task_group t (gt_css t)),
   [RseqMigrate; SetTaskCpu cpu] ++ (if task_fork then [TaskFork (gt_class t)] else [])).

Definition cpu_cgroup_fork (t : GTask) : GTask * list MoveCall := sched_change_group t TASK_SET_GROUP.

(** The tasks of the set with their places; [rt_can_attach] is the check of
    rt.c, when the kernel groups real-time tasks. *)
Definition cpu_cgroup_can_attach (rt_can_attach : option (GTask -> bool)) (l : list GTask) : Z :=
  if forallb (fun t => match rt_can_attach with Some f => f t | None => true end && negb (gt_new t)) l then 0 else - EINVAL.

Definition cpu_cgroup_attach (l : list (Place * GTask)) : list (GTask * list MoveCall) :=
  (fun '(at_, t) => sched_move_task at_ t) <$> l.

(** * The order of the calls *)

Definition class_calls (l : list MoveCall) : list Ev :=
  l ≫= fun m => match m with ClassCall e => [e] | _ => [] end.

(** The group changes while the task is in no queue and runs nowhere; before and
    after it the task leaves and enters the same places. *)
Lemma move_order at_ t :
  exists out change back, (sched_move_task at_ t).2 = out ++ [change] ++ back /\
    (forall e, change <> ClassCall e) /\
    ev_run (place_of at_ (gt_class t)) (class_calls out) = Some (mkOnRq None None) /\
    ev_run (mkOnRq None None) (class_calls back) = Some (place_of at_ (gt_class t)) /\
    sched_task_group (sched_move_task at_ t).1 = autogroup_task_group t (gt_css t).
Proof.
  eexists _, _, _. split; [reflexivity|]. split; [intros e; cbn; destruct (gt_hook t); discriminate|].
  destruct at_ as [[] [] ? ?]; unfold place_of; cbn; repeat (rewrite bool_decide_true by reflexivity; cbn); auto.
Qed.

(** A set of tasks is let in as a whole: none of them is new. *)
Lemma can_attach_none_new l : cpu_cgroup_can_attach None l = 0 <-> Forall (fun t => gt_new t = false) l.
Proof.
  unfold cpu_cgroup_can_attach. destruct (forallb _ l) eqn:E.
  - split; [|reflexivity]. intros _. apply Forall_forall. rewrite forallb_forall in E. intros t Ht.
    apply negb_true_iff, E, list_elem_of_In, Ht.
  - split; [discriminate|]. intros Hf. exfalso. rewrite Forall_forall in Hf. apply not_true_iff_false in E. apply E.
    apply forallb_forall. intros t Ht. apply negb_true_iff, Hf, list_elem_of_In, Ht.
Qed.
End Moves.
