(* ===== verification/Cgroups.v ===== *)
(** Concrete parameters for the task-group files, and a small tree of groups
    for the examples: the controller core keeps siblings in the order of the
    groups' own lists, and the fair class gives a new group the default share and
    no limit. *)

From S2P Require Import Prelude KHeaders Uclamp Priority TaskGroups Bandwidth GroupClamps GroupWeights.
Local Open Scope Z_scope.

(** * The order of descendants *)

Fixpoint build (n : nat) (st : TGState) (p : Z) : gtree :=
  Node p (match n with
          | O => []
          | S n => match tg_of st !! p with Some g => build n st <$> tg_children g | None => [] end
          end).

Definition descendants (st : TGState) (p : Z) : list Z := preorder (build (size (tg_of st)) st p).

#[export] Instance css_walk : CssWalk := {
  css_next_descendant_pre st o top := match o with None => Some top | Some x => next_sibling x (descendants st top) end;
  css_rightmost_descendant st p := default p (last (descendants st p))
}.

Lemma same_tree_size st st' : same_tree st st' -> size (tg_of st) = size (tg_of st').
Proof.
  intros E. rewrite <- !size_dom. f_equal. apply set_eq. intros q. rewrite !elem_of_dom. specialize (E q).
  destruct (tg_of st !! q), (tg_of st' !! q); try discriminate; split; intros; eauto; eapply is_Some_None; eauto.
Qed.

Lemma build_same st st' n : same_tree st st' -> forall p, build n st p = build n st' p.
Proof.
  intros E. induction n as [|n IH]; intros p; [reflexivity|]. cbn. f_equal. specialize (E p).
  destruct (tg_of st !! p), (tg_of st' !! p); try discriminate; [|reflexivity]. apply Some_inj in E. unfold links in E. injection E as _ ->.
  apply list_fmap_ext. intros i x _. apply IH.
Qed.

Lemma descendants_same st st' p : same_tree st st' -> descendants st p = descendants st' p.
Proof. intros E. unfold descendants. rewrite (same_tree_size _ _ E), (build_same _ _ _ E). reflexivity. Qed.

Lemma build_grows st s : grows st s -> forall n, (length (preorder s) <= n)%nat -> build n st (root s) = s.
Proof.
  induction s as [p kids IH] using gtree_ind'. intros Hg n Hn. apply grows_node in Hg as ((g & Hgp & Hc) & _ & Hk).
  cbn [preorder] in Hn. rewrite length_cons in Hn. destruct n as [|n]; [lia|]. cbn [build root]. rewrite Hgp, Hc. f_equal.
  assert (length (kids ≫= preorder) <= n)%nat as Hl by lia. clear Hn Hgp Hc.
  induction IH as [|k l IHk _ IHl]; [reflexivity|]. apply Forall_cons in Hk as [Hgk Hk]. rewrite bind_cons, length_app in Hl.
  cbn [fmap list_fmap]. rewrite IHk by (assumption || lia). f_equal. apply IHl; [exact Hk | lia].
Qed.

Lemma descendants_grows st s : grows st s -> NoDup (preorder s) -> descendants st (root s) = preorder s.
Proof. intros Hg Hd. unfold descendants. rewrite build_grows; auto using tree_size. Qed.

Lemma grows_hung st t : grows st t -> hung st t.
Proof.
  induction t as [p kids IH] using gtree_ind'. rewrite grows_node, hung_node. intros (_ & Hp & Hk). split; [exact Hp|].
  rewrite Forall_forall in IH, Hk |- *. auto.
Qed.

#[export] Instance css_walk_ok : CssWalkOk.
Proof.
  split.
  - reflexivity.
  - intros st st' [x|] top E; cbn; [rewrite (descendants_same _ _ _ E)|]; reflexivity.
  - intros st st' p E. cbn. rewrite (descendants_same _ _ _ E). reflexivity.
  - intros st t Hg Hd. exists t. split; [reflexivity|]. split; [apply grows_hung, Hg|]. split; [reflexivity|]. split.
    + intros l1 x l2 E. cbn. rewrite (descendants_grows _ _ Hg Hd), E. rewrite E in Hd. apply next_sibling_app, Hd.
    + intros s Hs. cbn. rewrite (descendants_grows _ _ (subtree_grows _ _ _ Hs Hg) (subtree_distinct _ _ Hs Hd)).
      destruct s as [p kids]. cbn [preorder]. destruct (last (p :: (kids ≫= preorder))) eqn:E; [reflexivity|].
      apply last_None in E. discriminate.
Qed.

(** * The fair class *)

#[export] Instance fair_group : FairGroup := {
  alloc_fair_sched_group g _ :=
    Some (with_shares (with_cfs g (mkCfsB 100000000 (2 ^ 64 - 1) 0 0) [mkCfsRq false 0 false]) (Z.shiftl 1024 10))
}.

#[export] Instance fair_group_ok : FairGroupOk.
Proof. split. intros g p g' [= <-]. reflexivity. Qed.

#[export] Instance group_shares : GroupShares := {
  scale_load_down w := if w =? 0 then 0 else Z.max 2 (Z.shiftr w 10);
  MAX_SHARES := 2 ^ 18;
  CGROUP_WEIGHT_MIN := 1;
  CGROUP_WEIGHT_DFL := 100;
  CGROUP_WEIGHT_MAX := 10000;
  sched_group_set_shares st p v :=
    match tg_of st !! p with
    | Some g =>
        if p =? root_task_group then (- EINVAL, st)
        else (0, set_tg st p (with_shares g (Z.min (Z.max v (Z.shiftl 2 10)) (Z.shiftl (2 ^ 18) 10))))
    | None => (- EINVAL, st)
    end
}.

#[export] Instance group_shares_ok : GroupSharesOk.
Proof.
  split.
  - intros w Hw. cbn. rewrite Z.shiftl_mul_pow2, Z.shiftr_div_pow2, Z.div_mul by lia. destruct (Z.eqb_spec (w * 2 ^ 10) 0); lia.
  - reflexivity.
  - auto.
  - intros st p v ret st'. cbn. destruct (tg_of st !! p) as [g|]; [|intros [= <- <-]; right; split; [discriminate | reflexivity]].
    destruct (p =? root_task_group); [intros [= <- <-]; right; split; [discriminate | reflexivity]|].
    intros [= <- <-]. left. split; [reflexivity|]. eexists. split; [apply lookup_insert_eq|]. cbn [shares with_shares].
    rewrite !Z.shiftl_mul_pow2 by lia. lia.
Qed.

(** * A tree of groups *)

(** The checks of [rooted], [bounded] and [effective], to evaluate. *)
Fixpoint grows_test (st : TGState) (t : gtree) : bool :=
  let 'Node p kids := t in
  match tg_of st !! p with Some g => bool_decide (tg_children g = root <$> kids) | None => false end &&
  forallb (fun k => match tg_of st !! root k with Some g => bool_decide (tg_parent g = Some p) | None => false end) kids &&
  forallb (grows_test st) kids.

Lemma grows_test_ok st t : grows_test st t = true -> grows st t.
Proof.
  induction t as [p kids IH] using gtree_ind'. cbn [grows_test]. rewrite !andb_true_iff, !forallb_forall. intros [[Hp Hk] Ha].
  apply grows_node. rewrite !Forall_forall. rewrite Forall_forall in IH. repeat split.
  - destruct (tg_of st !! p) as [g|]; [|discriminate]. apply bool_decide_eq_true in Hp. eauto.
  - intros k Hin. specialize (Hk k (proj1 (list_elem_of_In _ _) Hin)). destruct (tg_of st !! root k) as [g|]; [|discriminate].
    apply bool_decide_eq_true in Hk. eauto.
  - intros k Hin. apply IH; [exact Hin|]. apply Ha, list_elem_of_In, Hin.
Qed.

Definition rooted_test (st : TGState) (t : gtree) : bool :=
  (root t =? root_task_group) && grows_test st t && bool_decide (NoDup (preorder t)) &&
  match tg_of st !! root_task_group with Some g => bool_decide (tg_parent g = None) | None => false end.

Lemma rooted_test_ok st t : rooted_test st t = true -> rooted st t.
Proof.
  unfold rooted_test. rewrite !andb_true_iff. intros [[[Hr Hg] Hd] Ht]. split.
  - apply Z.eqb_eq, Hr.
  - apply grows_test_ok, Hg.
  - apply bool_decide_eq_true in Hd. exact Hd.
  - destruct (tg_of st !! root_task_group) as [g|]; [|discriminate]. apply bool_decide_eq_true in Ht. eauto.
Qed.

Definition eff_test (st : TGState) (q : Z) : bool :=
  match tg_of st !! q with
  | Some g => match parent_group st g with Ok o => bool_decide (values (tg_uclamp g) = eff_clamps g o) | _ => false end
  | None => false
  end.

Lemma effective_test_ok st t : rooted st t -> forallb (eff_test st) (preorder t) = true -> effective st t.
Proof.
  intros HR Ht. apply (effective_all _ _ HR). apply Forall_forall. intros q Hq. rewrite forallb_forall in Ht.
  specialize (Ht q (proj1 (list_elem_of_In _ _) Hq)). unfold eff_test in Ht. destruct (tg_of st !! q) as [g|] eqn:Hg; [|discriminate].
  destruct (parent_group st g) as [o| | |] eqn:Ho; try discriminate. apply bool_decide_eq_true in Ht. exists g, o. auto.
Qed.

Lemma bounded_test_ok st :
  map_Forall (fun _ g => bandwidth_ok (period (cfs_bandwidth g)) (quota (cfs_bandwidth g))) (tg_of st) -> bounded st.
Proof. intros Hf p g Hg. exact (Hf p g Hg). Qed.

Definition clamp_of (v : Z) : uclamp_se := mkSe v (uclamp_bucket_id v) false false.
Definition clamps_of (mn mx : Z) : Clamps uclamp_se := mkClamps (clamp_of mn) (clamp_of mx).

Definition sample_group (parent : option Z) (kids : list Z) (quo bur hq : Z) (req eff : Clamps uclamp_se) : TaskGroup :=
  mkTG parent kids (Z.shiftl 1024 10) (mkCfsB 100000000 quo bur hq) [mkCfsRq false 0 false] req eff (mkClamps 0 10000).

(** Group 1 may use half of a CPU, group 3 below it a fifth; group 1 is capped
    at 600, and group 3 asks for 300 at least. *)
Definition sample_groups : TGState := mkTGS
  (list_to_map [
    (0, sample_group None [2; 1] (2 ^ 64 - 1) 0 (-1) (clamps_of 1024 1024) (clamps_of 1024 1024));
    (1, sample_group (Some 0) [3] 50000000 7000000 524288 (clamps_of 400 600) (clamps_of 400 600));
    (2, sample_group (Some 0) [] (2 ^ 64 - 1) 0 (-1) (clamps_of 0 1024) (clamps_of 0 1024));
    (3, sample_group (Some 1) [] 20000000 0 209715 (clamps_of 300 1024) (clamps_of 300 600))
  ]) [3; 2; 1; 0].

Definition sample_tree : gtree := Node 0 [Node 2 []; Node 1 [Node 3 []]].

Lemma sample_rooted : rooted sample_groups sample_tree.
Proof. apply rooted_test_ok. vm_compute. reflexivity. Qed.

Lemma sample_effective : effective sample_groups sample_tree.
Proof. apply effective_test_ok; [exact sample_rooted | vm_compute; reflexivity]. Qed.

Lemma sample_bounded : bounded sample_groups.
Proof.
  intros p g Hg. cbn [tg_of sample_groups] in Hg.
  apply elem_of_list_to_map_2 in Hg. unfold bandwidth_ok.
  repeat (apply elem_of_cons in Hg as [[= -> ->]|Hg]; [split; [split; discriminate | first [left; reflexivity | right; split; discriminate]]|]).
  inversion Hg.
Qed.
