(* ===== verification/GroupTheorems.v ===== *)
(** The theorems about task groups (src/3/20193018_PLUS-1/core.c): the walk
    through their tree, their limits, clamps and shares, and their life. *)

From S2P Require Import Prelude KHeaders Uclamp Priority TaskGroups Bandwidth GroupClamps GroupWeights Cgroups.
Local Open Scope Z_scope.

(** [walk_tg_tree_from], a loop that jumps between two labels inside another
    loop, ends and is the recursive traversal of the tree: [down] on the way into
    a group, the children in order, [up] on the way out, all of it ended by the
    first result that is not zero. The visitors may store into the groups as long
    as they leave parents and children alone. *)
Theorem walk_tg_tree_from_correct down up st t :
  keeps down -> keeps up -> grows st t -> NoDup (preorder t) ->
  walk_tg_tree_from (root t) down up st = visit down up t st.
Proof. apply walk_visits. Qed.

(** The limit of group 1 falls below that of group 3: the walk stops there. *)
Lemma walk_tg_tree_from_correct_witness :
  let down := tg_cfs_schedulable_down false (request 1 100000000 10000000) in
  walk_tg_tree_from 0 down tg_nop sample_groups = visit down tg_nop sample_tree sample_groups /\
  (r ← walk_tg_tree_from 0 down tg_nop sample_groups; mret (fst r)) = Ok (- EINVAL).
Proof.
  intros down. split; [|vm_compute; reflexivity].
  apply (walk_tg_tree_from_correct down tg_nop sample_groups sample_tree (down_keeps _ _ _) tg_nop_keeps);
    apply sample_rooted.
Defined.

(** C16: a limit is granted exactly when its numbers are in range and, on the first
    hierarchy, then no group of the tree may use more than a group above it; on the
    default hierarchy only the numbers count. When it is granted the group has it
    and no other limit changes; on the first hierarchy every group has then stored
    the limit of the nearest limited group from itself up, on the default one every
    group has stored that it has no limit. When it is refused no limit changes. *)
Theorem tg_set_cfs_bandwidth_correct on_dfl f st t p g per quo bur :
  rooted st t -> bounded st -> tg_of st !! p = Some g -> p <> root_task_group ->
  0 <= per < 2 ^ 64 -> 0 <= quo < 2 ^ 64 -> 0 <= bur < 2 ^ 64 ->
  exists ret calls st', tg_set_cfs_bandwidth on_dfl f st p per quo bur = Ok (ret, calls, st') /\
    rooted st' t /\ bounded st' /\
    (ret = 0 /\ bandwidth_ok per quo /\ burst_ok quo bur /\
       (if on_dfl then Forall (unlimited st') (preorder t)
        else fits None st' t /\ Forall (inherits None st') (preorder t)) /\
       (exists g', tg_of st' !! p = Some g' /\ cfs_bandwidth g' = mkCfsB per quo bur (hierarchical_quota (cfs_bandwidth g'))) /\
       (forall q, q <> p -> strip <$> tg_of st' !! q = strip <$> tg_of st !! q) \/
     ret = - EINVAL /\ calls = [] /\ same_limits st st' /\
       ~ (bandwidth_ok per quo /\ burst_ok quo bur /\
          (on_dfl = true \/ fits None (granted st p g per quo bur (cfs_rqs g)) t))).
Proof.
  intros HR Hb Hg Hp Hper Hquo Hbur. destruct on_dfl.
  - destruct (default_bandwidth_spec f st t p g per quo bur HR Hb Hg Hp Hper Hquo Hbur) as (ret & calls & st' & E & H').
    exists ret, calls, st'. split; [exact E|]. destruct H' as [(-> & Hbw & Hbo & st1 & g1 & Hs & Hg1 & -> & Hu)|(-> & -> & -> & Hn)].
    + destruct (granted_whole st st1 t p g1 per quo bur (refresh_rq f (negb (quo =? RUNTIME_INF)) <$> cfs_rqs g1) HR Hb Hs Hg1 Hbw)
        as (HR' & Hb' & Hp' & Hq'). split; [exact HR'|]. split; [exact Hb'|]. left. auto 8.
    + split; [exact HR|]. split; [exact Hb|]. right. split; [reflexivity|]. split; [reflexivity|]. split; [reflexivity | tauto].
  - destruct (set_bandwidth_spec f st t p g per quo bur HR Hb Hg Hp Hper Hquo Hbur) as (ret & calls & st' & E & H').
    exists ret, calls, st'. split; [exact E|]. destruct H' as [(-> & Hbw & Hbo & st1 & g1 & Hs & Hg1 & -> & Hf & Hi)|(-> & -> & Hs & Hn)].
    + destruct (granted_whole st st1 t p g1 per quo bur (refresh_rq f (negb (quo =? RUNTIME_INF)) <$> cfs_rqs g1) HR Hb Hs Hg1 Hbw)
        as (HR' & Hb' & Hp' & Hq'). split; [exact HR'|]. split; [exact Hb'|]. left. auto 8.
    + split; [apply (rooted_same st); [apply same_limits_tree, Hs | exact HR]|]. split; [exact (bounded_same _ _ Hs Hb)|].
      right. split; [reflexivity|]. split; [reflexivity|]. split; [exact Hs|]. intros (H1 & H2 & [H3|H3]); [discriminate | exact (Hn H1 H2 H3)].
Qed.

(** The tree of the samples on both hierarchies. *)
Lemma tg_set_cfs_bandwidth_correct_witness :
  (exists ret calls st', tg_set_cfs_bandwidth false id sample_groups 1 100000000 30000000 7000000 = Ok (ret, calls, st') /\
    ret = 0 /\ fits None st' sample_tree) /\
  (exists ret calls st', tg_set_cfs_bandwidth true id sample_groups 1 100000000 30000000 7000000 = Ok (ret, calls, st') /\
    ret = 0 /\ Forall (unlimited st') (preorder sample_tree)).
Proof.
  pose proof (fun d => tg_set_cfs_bandwidth_correct d id sample_groups sample_tree 1
    (sample_group (Some 0) [3] 50000000 7000000 524288 (clamps_of 400 600) (clamps_of 400 600)) 100000000 30000000 7000000
    sample_rooted sample_bounded eq_refl ltac:(discriminate) ltac:(lia) ltac:(lia) ltac:(lia)) as H.
  split; [destruct (H false) as (ret & calls & st' & E & _ & _ & H') | destruct (H true) as (ret & calls & st' & E & _ & _ & H')];
    exists ret, calls, st'; (split; [exact E|]); (destruct H' as [H'|(-> & _)]; [tauto|]); exfalso;
    apply (f_equal (fun x => r ← x; mret r.1.1)) in E; vm_compute in E; discriminate.
Defined.

(** The files cpu.cfs_quota_us, cpu.cfs_period_us and cpu.max.burst give back
    what was written to them, -1 for a quota without limit. A write to cpu.max,
    which names no burst, divides the burst by 1000: [cpu_max_write] hands the
    microseconds it has read to [tg_set_cfs_bandwidth], which takes nanoseconds. *)
Theorem cfs_files_read_back on_dfl f tok num st p calls st' :
  (forall us, - 2 ^ 63 <= us < 2 ^ 63 -> cpu_cfs_quota_write_s64 on_dfl f st p us = Ok (0, calls, st') ->
     cpu_cfs_quota_read_s64 st' p = Ok (if us <? 0 then -1 else us)) /\
  (forall us, 0 <= us < 2 ^ 64 -> cpu_cfs_period_write_u64 on_dfl f st p us = Ok (0, calls, st') ->
     cpu_cfs_period_read_u64 st' p = Ok us) /\
  (forall us, 0 <= us < 2 ^ 64 -> cpu_cfs_burst_write_u64 on_dfl f st p us = Ok (0, calls, st') ->
     cpu_cfs_burst_read_u64 st' p = Ok us) /\
  (forall us buf n ret, (forall g, tg_of st !! p = Some g -> 0 <= burst (cfs_bandwidth g) < 2 ^ 64) ->
     cpu_cfs_burst_read_u64 st p = Ok us -> cpu_max_write on_dfl f tok num st p buf n = Ok (ret, calls, st') -> calls <> [] ->
     cpu_cfs_burst_read_u64 st' p = Ok (us / 1000)).
Proof.
  split; [intros us Hus; apply set_quota_reads, Hus|]. split; [intros us Hus; apply write_period_reads, Hus|].
  split; [intros us Hus; apply write_burst_reads, Hus|]. intros us buf n ret Hb Hr Hw Hc.
  unfold cpu_cfs_burst_read_u64, tgroup in *. destruct (tg_of st !! p) as [g|] eqn:Hg; [|discriminate]. cbn [mbind res_bind] in Hr. injection Hr as <-.
  destruct (max_write_burst _ _ _ _ _ _ _ _ _ _ _ _ Hg Hw Hc) as (g' & -> & Eb). cbn [mbind res_bind]. specialize (Hb g eq_refl).
  unfold tg_get_cfs_burst, NSEC_PER_USEC in *. pose proof (Z.div_pos (burst (cfs_bandwidth g)) 1000 ltac:(lia) ltac:(lia)) as H0.
  pose proof (Z.div_lt_upper_bound (burst (cfs_bandwidth g)) 1000 (2 ^ 64) ltac:(lia) ltac:(lia)) as H1.
  rewrite Eb, !u64_id by (split; [apply Z.div_pos; lia | apply Z.div_lt_upper_bound; lia] || lia). reflexivity.
Qed.

(** "60000 100000" to the cpu.max of group 1, whose burst is 7 milliseconds; the
    input is taken as converted. *)
Definition max_input : list Z -> option (list Z * option Z) := fun _ => Some ([54; 48; 48; 48; 48], Some 100000).
Definition max_number : list Z -> option Z := fun _ => Some 60000.

Lemma cfs_files_read_back_witness :
  exists calls st', cpu_max_write true id max_input max_number sample_groups 1 [] 12 = Ok (12, calls, st') /\
    cpu_cfs_burst_read_u64 sample_groups 1 = Ok 7000 /\ cpu_cfs_burst_read_u64 st' 1 = Ok 7.
Proof.
  destruct (cpu_max_write true id max_input max_number sample_groups 1 [] 12) as [[[r calls] st']| | |] eqn:E;
    try (vm_compute in E; discriminate E).
  assert (r = 12 /\ calls = [refill_cfs_bandwidth_runtime; start_cfs_bandwidth]) as [-> ->].
  { assert ((x ← cpu_max_write true id max_input max_number sample_groups 1 [] 12; mret (fst x)) =
      Ok (12, [refill_cfs_bandwidth_runtime; start_cfs_bandwidth])) as E' by (vm_compute; reflexivity).
    rewrite E in E'. cbn in E'. injection E' as -> ->. auto. }
  exists [refill_cfs_bandwidth_runtime; start_cfs_bandwidth], st'. split; [reflexivity|]. split; [reflexivity|].
  apply (proj2 (proj2 (proj2 (cfs_files_read_back true id max_input max_number sample_groups 1
    [refill_cfs_bandwidth_runtime; start_cfs_bandwidth] st'))) 7000 [] 12 12); [|reflexivity | exact E | discriminate].
  intros g [= <-]. split; [discriminate | reflexivity].
Defined.

Section Clamps.
  Context `{Headers} `{CssWalkOk} (strim : list Z -> list Z) (cgroup_parse_float : list Z -> Z -> Z * Z).

(** C17: [cpu_uclamp_write] keeps the effective clamps of all groups right, though
    [cpu_util_update_eff] leaves out every subtree below a group where nothing
    changes: the upper clamp of a group is the smallest that it or a group above
    it asks for, the lower one the smallest asked for, capped by the upper one.
    The runnable tasks of exactly the groups whose clamps changed are updated. A
    text that is refused changes nothing. *)
Theorem cpu_uclamp_write_correct st t p g buf nbytes id :
  rooted st t -> effective st t -> p ∈ preorder t -> tg_of st !! p = Some g ->
  exists ret st' u, cpu_uclamp_write strim cgroup_parse_float st p buf nbytes id = Ok (ret, st', u) /\
    rooted st' t /\ effective st' t /\ (forall q, q ∈ u <-> vals st q <> vals st' q) /\
    let req := capacity_from_percent strim cgroup_parse_float buf in
    (r_ret req = 0 /\ ret = nbytes /\
       same_requests (set_tg st p (with_clamps g (asked g id req).1 (tg_uclamp g) (asked g id req).2)) st' \/
     r_ret req <> 0 /\ ret = r_ret req /\ st' = st).
Proof. apply uclamp_write_spec. Qed.

(** C18: a percentage becomes the nearest number of 0 .. 1024, whatever the text
    was; a text out of range is refused. Reading the file afterwards gives the
    percentage that was written, but from 99.96 on it gives "max". *)
Theorem uclamp_percent_read_back st t p g buf nbytes id ret st' u :
  (forall b n, - 2 ^ 63 <= (cgroup_parse_float b n).2 < 2 ^ 63) ->
  rooted st t -> effective st t -> p ∈ preorder t -> tg_of st !! p = Some g ->
  r_ret (capacity_from_percent strim cgroup_parse_float buf) = 0 ->
  cpu_uclamp_write strim cgroup_parse_float st p buf nbytes id = Ok (ret, st', u) ->
  let percent := r_percent (capacity_from_percent strim cgroup_parse_float buf) in
  let util := r_util (capacity_from_percent strim cgroup_parse_float buf) in
  0 <= percent <= 10000 /\ 0 <= util <= 1024 /\ 10000 * util - 5000 <= 1024 * percent < 10000 * util + 5000 /\
  cpu_uclamp_print st' p id = Ok (if 9996 <=? percent then MaxText else PercentText (percent / 100) (percent mod 100)).
Proof.
  intros Hs HR Heff Hp Hg Hret Hw.
  destruct (uclamp_write_spec strim cgroup_parse_float st t p g buf nbytes id HR Heff Hp Hg) as (ret' & st1 & u' & E & _ & _ & _ & H').
  rewrite E in Hw. injection Hw as <- <- <-. destruct (capacity_spec strim cgroup_parse_float buf Hs Hret) as (Hpct & Hutil & Hnear).
  split; [exact Hpct|]. split; [exact Hutil|]. split; [exact Hnear|]. destruct H' as [(_ & _ & Hsr)|[Hne _]]; [|contradiction].
  exact (print_asked strim cgroup_parse_float st p g id buf _ Hs Hret Hsr).
Qed.
End Clamps.

(** The texts "45.50" and "99.97", as the parser converts them. *)
Definition percent_4550 : list Z -> Z -> Z * Z := fun _ _ => (0, 4550).
Definition percent_9997 : list Z -> Z -> Z * Z := fun _ _ => (0, 9997).

(** Group 1 lowers its upper clamp from 600 to 466: group 3 below it follows,
    group 2 does not. *)
Definition group1 : TaskGroup := sample_group (Some 0) [3] 50000000 7000000 524288 (clamps_of 400 600) (clamps_of 400 600).

Lemma cpu_uclamp_write_correct_witness :
  exists st' u, cpu_uclamp_write id percent_4550 sample_groups 1 [] 6 UCLAMP_MAX = Ok (6, st', u) /\
    effective st' sample_tree /\ u = [1; 3] /\ vals st' 3 = Some (mkClamps 300 466).
Proof.
  destruct (cpu_uclamp_write_correct id percent_4550 sample_groups sample_tree 1 group1 [] 6 UCLAMP_MAX
    sample_rooted sample_effective) as (ret & st' & u & E & _ & Heff & _ & _); [cbn; set_solver | reflexivity |].
  assert ((x ← cpu_uclamp_write id percent_4550 sample_groups 1 [] 6 UCLAMP_MAX;
    mret (x.1.1, x.2, vals x.1.2 3)) = Ok (6, [1; 3], Some (mkClamps 300 466))) as E' by (vm_compute; reflexivity).
  rewrite E in E'. cbn in E'. injection E' as -> -> E3. exists st', [1; 3]. auto.
Defined.

Lemma uclamp_percent_read_back_witness :
  exists st' u, cpu_uclamp_write id percent_9997 sample_groups 1 [] 6 UCLAMP_MAX = Ok (6, st', u) /\
    cpu_uclamp_print st' 1 UCLAMP_MAX = Ok MaxText.
Proof.
  destruct (cpu_uclamp_write id percent_9997 sample_groups 1 [] 6 UCLAMP_MAX) as [[[r st'] u]| | |] eqn:E; try (vm_compute in E; discriminate E).
  assert (r = 6) as ->.
  { assert ((x ← cpu_uclamp_write id percent_9997 sample_groups 1 [] 6 UCLAMP_MAX; mret x.1.1) = Ok 6) as E' by (vm_compute; reflexivity).
    rewrite E in E'. injection E' as ->. reflexivity. }
  exists st', u. split; [reflexivity|].
  apply (uclamp_percent_read_back id percent_9997 sample_groups sample_tree 1 group1 [] 6 UCLAMP_MAX 6 st' u);
    [intros; cbn; lia | exact sample_rooted | exact sample_effective | cbn; set_solver | reflexivity | reflexivity | exact E].
Defined.

(** The files cpu.weight and cpu.weight.nice give back what was written to
    them, for every weight from 1 to 10000 and every nice value, although the
    group keeps neither but only a share; other numbers are refused. *)
Theorem group_weights_read_back `{HeadersOk} `{!GroupShares} `{!GroupSharesOk} st p st' :
  (forall w, 1 <= w <= 10000 -> cpu_weight_write_u64 st p w = (0, st') -> cpu_weight_read_u64 st' p = Ok w) /\
  (forall n, -20 <= n <= 19 -> cpu_weight_nice_write_s64 st p n = Ok (0, st') -> cpu_weight_nice_read_s64 st' p = Ok n) /\
  (forall w, w < 1 \/ 10000 < w -> cpu_weight_write_u64 st p w = (- GroupWeights.ERANGE, st)) /\
  (forall n, n < -20 \/ 19 < n -> cpu_weight_nice_write_s64 st p n = Ok (- GroupWeights.ERANGE, st)).
Proof.
  split; [intros w Hw; apply weight_roundtrip, Hw|]. split; [intros n Hn; apply weight_nice_roundtrip, Hn|]. split.
  - intros w Hw. unfold cpu_weight_write_u64. destruct cgroup_weights as (-> & _ & ->).
    destruct (Z.ltb_spec w 1), (Z.ltb_spec 10000 w); reflexivity || lia.
  - intros n Hn. unfold cpu_weight_nice_write_s64. destruct nice_range as (-> & -> & _).
    destruct (Z.ltb_spec n (-20)), (Z.ltb_spec 19 n); reflexivity || lia.
Qed.

Lemma group_weights_read_back_witness :
  cpu_weight_read_u64 (snd (cpu_weight_write_u64 sample_groups 1 777)) 1 = Ok 777 /\
  (r ← cpu_weight_nice_write_s64 sample_groups 1 (-7); cpu_weight_nice_read_s64 (snd r) 1) = Ok (-7).
Proof.
  split.
  - apply (proj1 (group_weights_read_back sample_groups 1 (snd (cpu_weight_write_u64 sample_groups 1 777))) 777); [lia | vm_compute; reflexivity].
  - destruct (cpu_weight_nice_write_s64 sample_groups 1 (-7)) as [[r st']| | |] eqn:E; try (vm_compute in E; discriminate E).
    assert (r = 0) as -> by (vm_compute in E; injection E as <- _; reflexivity).
    apply (proj1 (proj2 (group_weights_read_back sample_groups 1 st')) (-7)); [lia | exact E].
Defined.

(** A new group comes into the tree as the first child of its parent, with
    effective clamps that are right from the first moment and without a change to
    those of the others; when it is released the tree is the one from before, and
    the clamps of all groups are still right. *)
Theorem group_life `{Headers} `{CssWalkOk} `{FairGroup} memory rt st t p q :
  rooted st t -> effective st t -> tg_of st !! p = None -> q ∈ preorder t ->
  exists o, cpu_cgroup_css_alloc memory rt st p (Some q) = Ok o /\
    match o with
    | None => memory = false \/ rt = false \/ exists gq, tg_of st !! q = Some gq /\ alloc_fair_sched_group blank gq = None
    | Some st1 => exists st2 u st3, cpu_cgroup_css_online st1 p (Some q) = Ok (0, st2, u) /\
        rooted st2 (graft q p t) /\ effective st2 (graft q p t) /\ (forall x, x ∈ preorder t -> vals st2 x = vals st x) /\
        cpu_cgroup_css_released st2 p = Ok st3 /\ rooted st3 t /\ effective st3 t
    end.
Proof.
  intros HR Heff Hp Hq. destruct (create_spec memory rt st t p q HR Heff Hp Hq) as (o & E & Ho). exists o. split; [exact E|].
  destruct o as [st1|]; [|exact Ho]. destruct Ho as (HR1 & Heff1 & Hp1 & Hpt & Hsame).
  destruct (css_online_spec st1 t p q HR1 Heff1 Hp1 Hpt Hq) as (st2 & u & E2 & HR2 & Eperm & Heff2 & Hvals).
  assert (p ∈ preorder (graft q p t)) as Hin by (rewrite Eperm; left).
  assert (p <> root_task_group) as Hne by (rewrite <- (rooted_root _ _ HR); intros ->; apply Hpt, preorder_root).
  destruct (release_effective st2 _ p HR2 Heff2 Hin Hne (graft_leaf q p t Hpt)) as (st3 & E3 & HR3 & Heff3).
  rewrite (prune_graft q p t Hpt) in HR3, Heff3. exists st2, u, st3. split; [exact E2|]. split; [exact HR2|]. split; [exact Heff2|].
  split; [|auto]. intros x Hx. rewrite Hvals by exact Hx. unfold vals. rewrite Hsame by congruence. reflexivity.
Qed.

Lemma group_life_witness :
  exists st1 st2 u st3, cpu_cgroup_css_alloc true true sample_groups 4 (Some 1) = Ok (Some st1) /\
    cpu_cgroup_css_online st1 4 (Some 1) = Ok (0, st2, u) /\ effective st2 (Node 0 [Node 2 []; Node 1 [Node 4 []; Node 3 []]]) /\
    vals st2 4 = Some (mkClamps 0 600) /\ cpu_cgroup_css_released st2 4 = Ok st3 /\ effective st3 sample_tree.
Proof.
  destruct (group_life true true sample_groups sample_tree 4 1 sample_rooted sample_effective) as (o & E & Ho);
    [reflexivity | cbn; set_solver|].
  destruct o as [st1|].
  2: { exfalso. destruct Ho as [Ho|[Ho|(gq & _ & Ho)]]; discriminate Ho. }
  destruct Ho as (st2 & u & st3 & E2 & _ & Heff2 & _ & E3 & _ & Heff3).
  exists st1, st2, u, st3. split; [exact E|]. split; [exact E2|]. split; [exact Heff2|]. split; [|auto].
  assert ((o ← cpu_cgroup_css_alloc true true sample_groups 4 (Some 1);
    match o with Some st1 => x ← cpu_cgroup_css_online st1 4 (Some 1); mret (vals x.1.2 4) | None => Undef end) = Ok (Some (mkClamps 0 600))) as E'
    by (vm_compute; reflexivity).
  rewrite E in E'. cbn [mbind res_bind] in E'. rewrite E2 in E'. injection E' as E'. exact E'.
Defined.
