(* ===== verification/Affinity.v ===== *)
(** Which CPUs a task may use, in src/3/20193018_PLUS-1/core.c: the mask of a
    task and who may change it, [migrate_disable] and [migrate_enable], the choice of a
    CPU, and the moves between run queues, each up to the point where it drops
    its locks. *)

From S2P Require Import Prelude KHeaders.
Local Open Scope Z_scope.

(** A set of CPUs, by number. *)
Abbreviation cpumask := (gset nat).

(** include/linux/cpumask.h: the number of CPUs, the iteration over a mask and
    the ways to pick from one. The last takes the CPU it picked before, which
    the header keeps in a variable of its own. *)
Class Cpumasks := {
  nr_cpu_ids : nat;
  for_each_cpu : cpumask -> list nat;
  cpumask_any : cpumask -> nat;
  cpumask_any_and_distribute : nat -> cpumask -> cpumask -> nat
}.

Class CpumasksOk `{Cpumasks} : Prop := {
  for_each_cpu_in m c : In c (for_each_cpu m) <-> c ∈ m /\ (c < nr_cpu_ids)%nat;
  cpumask_any_in m c : c ∈ m -> (c < nr_cpu_ids)%nat -> cpumask_any m ∈ m /\ (cpumask_any m < nr_cpu_ids)%nat;
  distribute_in prev a b : (exists c, c ∈ a ∩ b /\ (c < nr_cpu_ids)%nat) ->
    cpumask_any_and_distribute prev a b ∈ a ∩ b /\ (cpumask_any_and_distribute prev a b < nr_cpu_ids)%nat;
  distribute_none prev a b : (forall c, c ∈ a ∩ b -> (nr_cpu_ids <= c)%nat) ->
    (nr_cpu_ids <= cpumask_any_and_distribute prev a b)%nat
}.

(** The masks of kernel/cpu.c, and the CPUs whose architecture can run the task
    ([task_cpu_possible_mask]). *)
Record hotplug := mkHotplug {
  cpu_online_mask : cpumask;
  cpu_active_mask : cpumask;
  cpu_dying_mask : cpumask;
  task_cpu_possible_mask : cpumask
}.

(** * A task *)

Inductive tstate := TASK_RUNNING | TASK_WAKING | TASK_SLEEPING.

#[export] Instance tstate_eq : EqDecision tstate.
Proof. solve_decision. Defined.

(** [p->on_rq]: 0, [TASK_ON_RQ_QUEUED], [TASK_ON_RQ_MIGRATING]. *)
Inductive on_rq_state := NOT_ON_RQ | TASK_ON_RQ_QUEUED | TASK_ON_RQ_MIGRATING.

#[export] Instance on_rq_state_eq : EqDecision on_rq_state.
Proof. solve_decision. Defined.

(** The flags of a task that are read here: [PF_KTHREAD], [kthread_is_per_cpu],
    [PF_NO_SETAFFINITY], [task_has_dl_policy], [dl_task], and whether its class
    is the fair class. *)
Record tflags := mkTflags { PF_KTHREAD : bool; kthread_is_per_cpu : bool; PF_NO_SETAFFINITY : bool; has_dl_policy : bool; dl_task : bool; fair_class : bool }.

(** [cpus_ptr] is [None] when it points to the task's own [cpus_mask], else the
    mask that it points to. [migration_pending] is the number of the caller on
    whose stack the pending request is. [on_rq] is [task_on_rq_queued], [on_cpu]
    both [task_running] and [task_current], [MDF_PUSH] the bit of [migration_flags]. *)
Record atask := mkAtask {
  flags : tflags;
  cpus_mask : cpumask;
  cpus_ptr_ : option cpumask;
  nr_cpus_allowed : Z;
  user_cpus_ptr : option cpumask;
  migration_disabled : Z;
  MDF_PUSH : bool;
  migration_pending : option nat;
  task_cpu : nat;
  wake_cpu : nat;
  on_rq : on_rq_state;
  on_cpu : bool;
  state : tstate;
  nr_migrations : Z
}.

Definition cpus_ptr (p : atask) : cpumask := default (cpus_mask p) (cpus_ptr_ p).

Definition task_on_rq_queued (p : atask) : bool := bool_decide (on_rq p = TASK_ON_RQ_QUEUED).

Definition is_migration_disabled (p : atask) : bool := negb (migration_disabled p =? 0).

(** Assignments to fields. *)
Definition with_mask (p : atask) (m : cpumask) (n : Z) : atask :=
  mkAtask (flags p) m (cpus_ptr_ p) n (user_cpus_ptr p) (migration_disabled p) (MDF_PUSH p) (migration_pending p) (task_cpu p) (wake_cpu p) (on_rq p) (on_cpu p) (state p) (nr_migrations p).
Definition with_ptr (p : atask) (v : option cpumask) : atask :=
  mkAtask (flags p) (cpus_mask p) v (nr_cpus_allowed p) (user_cpus_ptr p) (migration_disabled p) (MDF_PUSH p) (migration_pending p) (task_cpu p) (wake_cpu p) (on_rq p) (on_cpu p) (state p) (nr_migrations p).
Definition with_user_ptr (p : atask) (v : option cpumask) : atask :=
  mkAtask (flags p) (cpus_mask p) (cpus_ptr_ p) (nr_cpus_allowed p) v (migration_disabled p) (MDF_PUSH p) (migration_pending p) (task_cpu p) (wake_cpu p) (on_rq p) (on_cpu p) (state p) (nr_migrations p).
Definition with_disabled (p : atask) (v : Z) : atask :=
  mkAtask (flags p) (cpus_mask p) (cpus_ptr_ p) (nr_cpus_allowed p) (user_cpus_ptr p) v (MDF_PUSH p) (migration_pending p) (task_cpu p) (wake_cpu p) (on_rq p) (on_cpu p) (state p) (nr_migrations p).
Definition with_push (p : atask) (v : bool) : atask :=
  mkAtask (flags p) (cpus_mask p) (cpus_ptr_ p) (nr_cpus_allowed p) (user_cpus_ptr p) (migration_disabled p) v (migration_pending p) (task_cpu p) (wake_cpu p) (on_rq p) (on_cpu p) (state p) (nr_migrations p).
Definition with_pending (p : atask) (v : option nat) : atask :=
  mkAtask (flags p) (cpus_mask p) (cpus_ptr_ p) (nr_cpus_allowed p) (user_cpus_ptr p) (migration_disabled p) (MDF_PUSH p) v (task_cpu p) (wake_cpu p) (on_rq p) (on_cpu p) (state p) (nr_migrations p).
Definition with_cpu (p : atask) (c w : nat) (n : Z) : atask :=
  mkAtask (flags p) (cpus_mask p) (cpus_ptr_ p) (nr_cpus_allowed p) (user_cpus_ptr p) (migration_disabled p) (MDF_PUSH p) (migration_pending p) c w (on_rq p) (on_cpu p) (state p) n.
Definition with_where (p : atask) (rq : on_rq_state) (cpu : bool) (st : tstate) : atask :=
  mkAtask (flags p) (cpus_mask p) (cpus_ptr_ p) (nr_cpus_allowed p) (user_cpus_ptr p) (migration_disabled p) (MDF_PUSH p) (migration_pending p) (task_cpu p) (wake_cpu p) rq cpu st (nr_migrations p).
Definition with_wake_cpu (p : atask) (w : nat) : atask := with_cpu p (task_cpu p) w (nr_migrations p).

(** The flags of a change of the mask. *)
Record sca := mkSca { SCA_CHECK : bool; SCA_MIGRATE_DISABLE : bool; SCA_MIGRATE_ENABLE : bool; SCA_USER : bool }.

Definition no_sca : sca := mkSca false false false false.
Definition sca_disable : sca := mkSca false true false false.
Definition sca_enable : sca := mkSca false false true false.
Definition sca_check_user : sca := mkSca true false false true.

(** The calls into the scheduling class around a change of the mask. *)
Inductive AffEv := ADequeue | APutPrev | ASetAllowed | AEnqueue | ASetNext.

Section Affinity.
  Context `{Cpumasks} (hp : hotplug).

Definition is_cpu_allowed (p : atask) (cpu : nat) : bool :=
  if negb (bool_decide (cpu ∈ cpus_ptr p)) then false
  else if is_migration_disabled p then bool_decide (cpu ∈ cpu_online_mask hp)
  else if negb (PF_KTHREAD (flags p)) then
    bool_decide (cpu ∈ cpu_active_mask hp) && bool_decide (cpu ∈ task_cpu_possible_mask hp)
  else if kthread_is_per_cpu (flags p) then bool_decide (cpu ∈ cpu_online_mask hp)
  else if bool_decide (cpu ∈ cpu_dying_mask hp) then false
  else bool_decide (cpu ∈ cpu_online_mask hp).

(** [new_mask] is [None] when the caller passes the task's own mask. *)
Definition mask_of (p : atask) (new_mask : option cpumask) : cpumask := default (cpus_mask p) new_mask.

Definition set_cpus_allowed_common (p : atask) (new_mask : option cpumask) (f : sca) : atask :=
  if SCA_MIGRATE_ENABLE f || SCA_MIGRATE_DISABLE f then with_ptr p new_mask
  else let m := mask_of p new_mask in with_mask p m (Z.of_nat (size m)).

(** With the calls that it makes, in order. *)
Definition __do_set_cpus_allowed (p : atask) (new_mask : option cpumask) (f : sca) : atask * list AffEv :=
  let queued := task_on_rq_queued p in
  let running := on_cpu p in
  (set_cpus_allowed_common p new_mask f,
   (if queued then [ADequeue] else []) ++ (if running then [APutPrev] else []) ++ [ASetAllowed] ++
   (if queued then [AEnqueue] else []) ++ (if running then [ASetNext] else [])).

Definition do_set_cpus_allowed (p : atask) (new_mask : cpumask) : atask := fst (__do_set_cpus_allowed p (Some new_mask) no_sca).

(** * Migration disabled *)

Definition migrate_disable_switch (cpu : nat) (p : atask) : atask :=
  if negb (is_migration_disabled p) then p
  else match cpus_ptr_ p with
  | Some _ => p
  | None => fst (__do_set_cpus_allowed p (Some {[cpu]}) sca_disable)
  end.

(** [nr_pinned] of the run queues. *)
Definition pinned_add (pins : gmap nat Z) (cpu : nat) (d : Z) : gmap nat Z :=
  <[cpu := default 0 (pins !! cpu) + d]> pins.

Definition migrate_disable (p : atask) (pins : gmap nat Z) : atask * gmap nat Z :=
  if is_migration_disabled p then (with_disabled p (migration_disabled p + 1), pins)
  else (with_disabled p 1, pinned_add pins (task_cpu p) 1).

Definition rq_has_pinned_tasks (pins : gmap nat Z) (cpu : nat) : bool := negb (default 0 (pins !! cpu) =? 0).

(** The end of [migrate_enable], after the call of [__set_cpus_allowed_ptr]. *)
Definition migrate_enable_clear (p : atask) (pins : gmap nat Z) : atask * gmap nat Z :=
  (with_disabled p 0, pinned_add pins (task_cpu p) (-1)).

(** * Moves *)

(** [deactivate_task] without [DEQUEUE_SLEEP], and [activate_task]. *)
Definition deactivate_migrating (p : atask) : atask := with_where p TASK_ON_RQ_MIGRATING (on_cpu p) (state p).
Definition activate_queued (p : atask) : atask := with_where p TASK_ON_RQ_QUEUED (on_cpu p) (state p).

(** With true when one of the warnings of CONFIG_SCHED_DEBUG is given: a
    blocked task, a queued task of the fair class, a CPU that is not online, a
    task that may not migrate. *)
Definition set_task_cpu (p : atask) (new_cpu : nat) : atask * bool :=
  (with_cpu p new_cpu new_cpu (if bool_decide (task_cpu p = new_cpu) then nr_migrations p else nr_migrations p + 1),
   bool_decide (state p = TASK_SLEEPING /\ on_rq p = NOT_ON_RQ) ||
   fair_class (flags p) && bool_decide (state p = TASK_RUNNING /\ on_rq p = TASK_ON_RQ_QUEUED) ||
   negb (bool_decide (new_cpu ∈ cpu_online_mask hp)) || is_migration_disabled p).

Definition move_queued_task (p : atask) (new_cpu : nat) : atask * bool :=
  let '(p, warn) := set_task_cpu (deactivate_migrating p) new_cpu in
  (activate_queued p, warn).

Definition __migrate_task (p : atask) (dest_cpu : nat) : atask * bool :=
  if negb (is_cpu_allowed p dest_cpu) then (p, false) else move_queued_task p dest_cpu.

(** * A CPU for a waking task *)

Inductive fallback := cpuset | possible | fail.

(** What [cpuset_cpus_allowed_fallback] of kernel/cgroup does: the mask it gives
    the task, or [None] when it does not change it. *)
Context (cpuset_cpus_allowed_fallback : atask -> option cpumask).

Definition allowed_in (p : atask) (l : list nat) : option nat := List.find (is_cpu_allowed p) l.

(** The endless loop: each turn that finds no CPU widens the mask, and the turn
    after [possible] is a bug. *)
Fixpoint select_fallback_loop (fuel : nat) (st : fallback) (p : atask) : res (nat * atask) :=
  match fuel with
  | O => Diverge
  | S fuel =>
    match allowed_in p (for_each_cpu (cpus_ptr p)) with
    | Some dest_cpu => Ok (dest_cpu, p)
    | None =>
      let widen := select_fallback_loop fuel fail (do_set_cpus_allowed p (task_cpu_possible_mask hp)) in
      match st with
      | cpuset =>
          match cpuset_cpus_allowed_fallback p with
          | Some m => select_fallback_loop fuel possible (do_set_cpus_allowed p m)
          | None => widen
          end
      | possible => widen
      | fail => Undef
      end
    end
  end.

(** [nodemask] is [None] when the node of the CPU is offline. *)
Definition select_fallback_rq (nodemask : option cpumask) (p : atask) : res (nat * atask) :=
  match mbind (fun m => allowed_in p (for_each_cpu m)) nodemask with
  | Some dest_cpu => Ok (dest_cpu, p)
  | None => select_fallback_loop 3 cpuset p
  end.

(** [class_select] is what [select_task_rq] of the task's class returns. *)
Definition select_task_rq (class_select : nat) (nodemask : option cpumask) (p : atask) : res (nat * atask) :=
  let cpu := if (1 <? nr_cpus_allowed p) && negb (is_migration_disabled p) then class_select else cpumask_any (cpus_ptr p) in
  if negb (is_cpu_allowed p cpu) then select_fallback_rq nodemask p else Ok (cpu, p).
End Affinity.

(** * Four CPUs *)

(** An instance with the documented behaviour, on which the witnesses compute. *)
Definition first_of (l : list nat) : nat := match l with [] => 4%nat | c :: _ => c end.

Definition in_mask (m : cpumask) (l : list nat) : list nat := List.filter (fun c => bool_decide (c ∈ m)) l.

#[export] Instance four : Cpumasks := {
  nr_cpu_ids := 4%nat;
  for_each_cpu m := in_mask m [0; 1; 2; 3]%nat;
  cpumask_any m := first_of (in_mask m [0; 1; 2; 3]%nat);
  cpumask_any_and_distribute prev a b :=
    first_of (in_mask (a ∩ b) (List.filter (fun c => prev <? c)%nat [0; 1; 2; 3]%nat ++ [0; 1; 2; 3]%nat))
}.

Lemma in_mask_spec m l c : In c (in_mask m l) <-> In c l /\ c ∈ m.
Proof. unfold in_mask. rewrite filter_In, bool_decide_eq_true. reflexivity. Qed.

Lemma four_all c : In c [0; 1; 2; 3]%nat <-> (c < 4)%nat.
Proof. cbn. lia. Qed.

Lemma first_of_in l : (forall c, In c l -> (c < 4)%nat) -> (exists c, In c l) -> In (first_of l) l /\ (first_of l < 4)%nat.
Proof. intros Hl [c Hc]. destruct l as [|c' l]; [contradiction|]. split; [left; reflexivity | apply Hl; left; reflexivity]. Qed.

#[export] Instance four_ok : CpumasksOk.
Proof.
  assert (forall prev c, In c (List.filter (fun c => prev <? c)%nat [0; 1; 2; 3]%nat ++ [0; 1; 2; 3]%nat) <-> (c < 4)%nat) as Hall.
  { intros prev c. rewrite in_app_iff, filter_In, four_all. tauto. }
  split; cbn [for_each_cpu cpumask_any cpumask_any_and_distribute nr_cpu_ids four].
  - intros m c. rewrite in_mask_spec, four_all. tauto.
  - intros m c Hm Hc. destruct (first_of_in (in_mask m [0; 1; 2; 3]%nat)) as [Hi Hl].
    + intros c'. rewrite in_mask_spec, four_all. tauto.
    + exists c. apply in_mask_spec. rewrite four_all. tauto.
    + apply in_mask_spec in Hi. tauto.
  - intros prev a b (c & Hm & Hc).
    destruct (first_of_in (in_mask (a ∩ b) (List.filter (fun c => prev <? c)%nat [0; 1; 2; 3]%nat ++ [0; 1; 2; 3]%nat))) as [Hi Hl].
    + intros c'. rewrite in_mask_spec, Hall. tauto.
    + exists c. rewrite in_mask_spec, Hall. tauto.
    + apply in_mask_spec in Hi. tauto.
  - intros prev a b Hnone. destruct (in_mask _ _) as [|c l] eqn:E; cbn [first_of]; [lia|].
    assert (In c (c :: l)) as Hin by (left; reflexivity). rewrite <- E, in_mask_spec, Hall in Hin.
    specialize (Hnone c ltac:(tauto)). lia.
Qed.
