(* ===== verification/AffineMove.v ===== *)
(** Several callers that change the CPUs of one task, in
    src/3/20193018_PLUS-1/core.c: [affine_move_task], [__set_cpus_allowed_ptr],
    the stopper [migration_cpu_stop] and [migrate_enable], as a machine whose steps are the
    pieces of code that run under the task's lock. What a function does after it
    dropped the locks is a step of its own. *)

From S2P Require Import Prelude KHeaders Affinity.
Local Open Scope Z_scope.

(** * State *)

(** struct set_affinity_pending, on the stack of the caller that installed it.
    [done] is the completion; of [arg] only [dest_cpu] varies. *)
Record pending := mkPending { refs : Z; stop_pending : bool; done : bool; arg_dest_cpu : nat }.

Definition with_refs (d : pending) (n : Z) : pending := mkPending n (stop_pending d) (done d) (arg_dest_cpu d).
Definition with_stop (d : pending) (b : bool) : pending := mkPending (refs d) b (done d) (arg_dest_cpu d).
Definition with_done (d : pending) : pending := mkPending (refs d) (stop_pending d) true (arg_dest_cpu d).
Definition with_dest (d : pending) (c : nat) : pending := mkPending (refs d) (stop_pending d) (done d) c.

(** The [arg] of a pending request, read when the stopper runs, or an argument
    without one, with its [dest_cpu]. *)
Inductive migration_arg := ArgPending (q : nat) | ArgDest (dest_cpu : nat).

(** What is left to do after the locks were dropped: [complete_all]; the stopper
    [migration_cpu_stop] on a CPU, from its start or ([Flushed]) from where it takes
    the locks; [stop_one_cpu_nowait] on the CPU where the task is by then; the
    stopper [push_cpu_stop] on a CPU. *)
Inductive todo :=
  | Complete (q : nat)
  | Stop (cpu : nat) (arg : migration_arg)
  | Flushed (cpu : nat) (arg : migration_arg)
  | Chase (q : nat)
  | Push (cpu : nat).

(** The warnings of the code: the stopper finds another pending request;
    [affine_move_task] finds none; a request ends while its stopper is under way;
    those of [set_task_cpu]; a task with migration disabled that leaves its own CPU out. *)
Inductive warning := WOther | WNoPending | WStopPending | WSetTaskCpu | WBusy.

#[export] Instance warning_eq : EqDecision warning.
Proof. solve_decision. Defined.

(** A caller in [affine_move_task]: it waits for the completion of a request, or
    for its own request to have no users. *)
Inductive caller := CWaiting (q : nat) | CDraining.

#[export] Instance caller_eq : EqDecision caller.
Proof. solve_decision. Defined.

(** [m_enabling] holds between the call in [migrate_enable] and the end of its
    section without preemption; [m_busy] are the CPUs whose [push_busy] is set. *)
Record msys := mkMsys {
  m_task : atask;
  m_pendings : gmap nat pending;
  m_todo : list todo;
  m_callers : gmap nat caller;
  m_enabling : bool;
  m_pinned : gmap nat Z;
  m_busy : gset nat;
  m_warned : list warning
}.

Definition set_task (s : msys) (p : atask) : msys :=
  mkMsys p (m_pendings s) (m_todo s) (m_callers s) (m_enabling s) (m_pinned s) (m_busy s) (m_warned s).
Definition set_pendings (s : msys) (d : gmap nat pending) : msys :=
  mkMsys (m_task s) d (m_todo s) (m_callers s) (m_enabling s) (m_pinned s) (m_busy s) (m_warned s).
Definition set_todo (s : msys) (l : list todo) : msys :=
  mkMsys (m_task s) (m_pendings s) l (m_callers s) (m_enabling s) (m_pinned s) (m_busy s) (m_warned s).
Definition set_callers (s : msys) (c : gmap nat caller) : msys :=
  mkMsys (m_task s) (m_pendings s) (m_todo s) c (m_enabling s) (m_pinned s) (m_busy s) (m_warned s).
Definition set_enabling (s : msys) (b : bool) : msys :=
  mkMsys (m_task s) (m_pendings s) (m_todo s) (m_callers s) b (m_pinned s) (m_busy s) (m_warned s).
Definition set_pinned (s : msys) (n : gmap nat Z) : msys :=
  mkMsys (m_task s) (m_pendings s) (m_todo s) (m_callers s) (m_enabling s) n (m_busy s) (m_warned s).
Definition set_busy (s : msys) (b : gset nat) : msys :=
  mkMsys (m_task s) (m_pendings s) (m_todo s) (m_callers s) (m_enabling s) (m_pinned s) b (m_warned s).
Definition warn_if (b : bool) (w : warning) (s : msys) : msys :=
  if b then mkMsys (m_task s) (m_pendings s) (m_todo s) (m_callers s) (m_enabling s) (m_pinned s) (m_busy s) (w :: m_warned s) else s.

Definition later (x : todo) (s : msys) : msys := set_todo s (x :: m_todo s).

(** A pending request is memory of another caller's stack: reading one that is
    gone is undefined. *)
Definition get_pending (s : msys) (q : nat) : res pending :=
  match m_pendings s !! q with Some d => Ok d | None => Undef end.

Definition put_pending (s : msys) (q : nat) (d : pending) : msys := set_pendings s (<[q := d]> (m_pendings s)).

(** What the call has come to when the locks are dropped. *)
Inductive outcome := Returns (err : Z) | Waits (q : nat).

(** A move of the task, with the warnings of [set_task_cpu]. *)
Definition moved (s : msys) (r : atask * bool) : msys := warn_if (snd r) WSetTaskCpu (set_task s (fst r)).

Section Machine.
  Context `{Cpumasks} (hp : hotplug).

(** * The functions *)

(** The task may stay where it is. *)
Definition affine_stay (f : sca) (s : msys) : res (msys * outcome) :=
  let p := m_task s in
  let push := SCA_MIGRATE_ENABLE f && MDF_PUSH p && negb (bool_decide (task_cpu p ∈ m_busy s)) in
  let s := if push then later (Push (task_cpu p)) (set_busy s ({[task_cpu p]} ∪ m_busy s)) else s in
  match migration_pending p with
  | None => Ok (s, Returns 0)
  | Some q =>
      d ← get_pending s q;
      if stop_pending d then Ok (s, Returns 0)
      else Ok (later (Complete q) (set_task s (with_pending p None)), Returns 0)
  end.

(** The request is installed, or joins the one that is there. *)
Definition affine_install (me dest_cpu : nat) (s : msys) : res msys :=
  match migration_pending (m_task s) with
  | None => Ok (put_pending (set_task s (with_pending (m_task s) (Some me))) me (mkPending 1 false false dest_cpu))
  | Some q => d ← get_pending s q; Ok (put_pending s q (with_dest (with_refs d (refs d + 1)) dest_cpu))
  end.

(** [me] is the caller; the caller of [migrate_enable] is the task itself. *)
Definition affine_move_task (me : nat) (f : sca) (dest_cpu : nat) (s : msys) : res (msys * outcome) :=
  if bool_decide (task_cpu (m_task s) ∈ cpus_mask (m_task s)) then affine_stay f s
  else
    s ← (if SCA_MIGRATE_ENABLE f then Ok s else affine_install me dest_cpu s);
    let p := m_task s in
    match migration_pending p with
    | None => Ok (warn_if true WNoPending s, Returns (- EINVAL))
    | Some q =>
      d ← get_pending s q;
      if on_cpu p || bool_decide (state p = TASK_WAKING) then
        let s := if stop_pending d then s
                 else later (Stop (task_cpu p) (ArgPending q)) (put_pending s q (with_stop d true)) in
        if SCA_MIGRATE_ENABLE f then Ok (set_task s (with_push p false), Returns 0) else Ok (s, Waits q)
      else if is_migration_disabled p then Ok (s, Waits q)
      else
        let s := if task_on_rq_queued p then moved s (move_queued_task hp p dest_cpu) else s in
        if stop_pending d then Ok (s, Waits q)
        else Ok (later (Complete q) (set_task s (with_pending (m_task s) None)), Waits q)
    end.

(** [new_mask] is [None] for the task's own mask, [self] tells whether the task
    is the caller, [prev] what [cpumask_any_and_distribute] remembers. *)
Definition __set_cpus_allowed_ptr_locked (me : nat) (self : bool) (prev : nat) (new_mask : option cpumask) (f : sca) (s : msys)
    : res (msys * outcome) :=
  let p := m_task s in
  let mask := mask_of p new_mask in
  let kthread := PF_KTHREAD (flags p) in
  let cpu_valid_mask := if kthread || is_migration_disabled p then cpu_online_mask hp else cpu_active_mask hp in
  if negb kthread && negb (bool_decide (mask ⊆ task_cpu_possible_mask hp)) then Ok (s, Returns (- EINVAL))
  else if SCA_CHECK f && PF_NO_SETAFFINITY (flags p) then Ok (s, Returns (- EINVAL))
  else if negb (SCA_MIGRATE_ENABLE f) && bool_decide (cpus_mask p = mask) then Ok (s, Returns 0)
  else if negb (SCA_MIGRATE_ENABLE f) && (self && is_migration_disabled p && negb (bool_decide (task_cpu p ∈ mask)))
    then Ok (warn_if true WBusy s, Returns (- EBUSY))
  else
    let dest_cpu := cpumask_any_and_distribute prev cpu_valid_mask mask in
    if (nr_cpu_ids <=? dest_cpu)%nat then Ok (s, Returns (- EINVAL))
    else
      let p := fst (__do_set_cpus_allowed p new_mask f) in
      let p := if SCA_USER f then with_user_ptr p None else p in
      affine_move_task me f dest_cpu (set_task s p).

Definition __set_cpus_allowed_ptr (me : nat) (self : bool) (prev : nat) (new_mask : option cpumask) (f : sca) (s : msys)
    : res (msys * outcome) :=
  __set_cpus_allowed_ptr_locked me self prev new_mask f s.

(** A wake-up that was sent to this CPU happens. *)
Definition flush_wakeups (cpu : nat) (p : atask) : atask :=
  if bool_decide (state p = TASK_WAKING /\ task_cpu p = cpu) then with_where p TASK_ON_RQ_QUEUED (on_cpu p) TASK_RUNNING else p.

Definition stop_dest (s : msys) (arg : migration_arg) : res nat :=
  match arg with ArgPending q => d ← get_pending s q; Ok (arg_dest_cpu d) | ArgDest d => Ok d end.

(** The label [out]. *)
Definition stop_out (arg : migration_arg) (complete : bool) (s : msys) : res msys :=
  match arg with
  | ArgPending q =>
      d ← get_pending s q;
      let s := put_pending s q (with_stop d false) in
      Ok (if complete then later (Complete q) s else s)
  | ArgDest _ => Ok s
  end.

(** The task goes to [dest_cpu], now or when it wakes up. *)
Definition stop_move (dest_cpu : nat) (s : msys) : msys :=
  let p := m_task s in
  if task_on_rq_queued p then moved s (__migrate_task hp p dest_cpu) else set_task s (with_wake_cpu p dest_cpu).

(** The stopper with interrupts disabled, before it takes any lock: the wake-ups
    that were sent to its CPU by now happen. *)
Definition migration_cpu_flush (cpu : nat) (arg : migration_arg) (s : msys) : msys :=
  later (Flushed cpu arg) (set_task s (flush_wakeups cpu (m_task s))).

(** The stopper under the task's and the queue's locks. *)
Definition migration_cpu_stop (cpu : nat) (arg : migration_arg) (s : msys) : res msys :=
  let p := m_task s in
  let s := match arg with
           | ArgPending q => warn_if (negb (bool_decide (migration_pending p = Some q))) WOther s
           | ArgDest _ => s end in
  if bool_decide (task_cpu p = cpu) then
    if is_migration_disabled p then stop_out arg false s
    else
      dest_cpu ← stop_dest s arg;
      match arg with
      | ArgPending q =>
          let s := set_task s (with_pending p None) in
          stop_out arg true (if bool_decide (task_cpu p ∈ cpus_mask p) then s else stop_move dest_cpu s)
      | ArgDest _ => stop_out arg false (stop_move dest_cpu s)
      end
  else
    match arg with
    | ArgPending q =>
        if bool_decide (task_cpu p ∈ cpus_ptr p) then stop_out arg true (set_task s (with_pending p None))
        else d ← get_pending s q; Ok (later (Chase q) (warn_if (negb (stop_pending d)) WStopPending s))
    | ArgDest _ => Ok s
    end.

(** [lowest_rq] is what the class's [find_lock_rq] gives. *)
Definition push_cpu_stop (cpu : nat) (lowest_rq : option nat) (s : msys) : msys :=
  let p := m_task s in
  let s :=
    if negb (bool_decide (task_cpu p = cpu)) then s
    else if is_migration_disabled p then set_task s (with_push p true)
    else
      let p := with_push p false in
      match lowest_rq with
      | None => set_task s p
      | Some c =>
          let '(p, warn) := set_task_cpu hp (deactivate_migrating p) c in
          moved s (activate_queued p, warn)
      end in
  set_busy s (m_busy s ∖ {[cpu]}).

(** The end of [affine_move_task]: the caller saw the completion; then it waits
    until nobody uses its own request. *)
Definition caller_woken (c : nat) (q : nat) (s : msys) : res msys :=
  d ← get_pending s q;
  Ok (set_callers (put_pending s q (with_refs d (refs d - 1))) (<[c := CDraining]> (m_callers s))).

Definition caller_returns (c : nat) (s : msys) : msys :=
  let gone := set_callers (set_pendings s (delete c (m_pendings s))) (delete c (m_callers s)) in
  match m_pendings s !! c with Some d => warn_if (stop_pending d) WStopPending gone | None => gone end.

(** [migrate_enable] up to the point where it clears the count. *)
Definition migrate_enable (me prev : nat) (s : msys) : res msys :=
  let p := m_task s in
  if 1 <? migration_disabled p then Ok (set_task s (with_disabled p (migration_disabled p - 1)))
  else
    s ← match cpus_ptr_ p with
        | Some _ => r ← __set_cpus_allowed_ptr me true prev None sca_enable s; Ok (fst r)
        | None => Ok s
        end;
    Ok (set_enabling s true).

(** The part of [try_to_wake_up] that places the task: on the CPU it is still
    leaving, or on one that [select_task_rq] gives. *)
Definition ttwu_place (cpuset_fallback : atask -> option cpumask) (class_select : nat) (nodemask : option cpumask) (p : atask) : res (atask * bool) :=
  let p := with_where p (on_rq p) (on_cpu p) TASK_WAKING in
  if on_cpu p then Ok (p, false)
  else
    r ← select_task_rq hp cpuset_fallback class_select nodemask p;
    let '(cpu, p) := r in
    Ok (if bool_decide (task_cpu p = cpu) then (p, false) else set_task_cpu hp p cpu).
End Machine.
