(* ===== verification/AffineRuns.v ===== *)
(** Runs of the machine of [AffineMove]: what may happen, in any order, and the
    invariants of every state that a run reaches. *)

From S2P Require Import Prelude KHeaders Affinity AffineMove.
Local Open Scope Z_scope.

(** * Steps *)

(** A caller asks for a mask, is woken, returns. The [i]th thing left to do is
    done, or, for a stopper, its next part. The task is switched in, blocks, is switched out, is woken up, enters a
    queue, is moved by a balancer to [d], and enters and leaves sections without
    migration. Somebody asks for the stopper without a pending request, or for a
    push. *)
Inductive label :=
  | LSet (c : nat) (self : bool) (prev : nat) (mask : cpumask) (check user : bool)
  | LDo (i : nat) (lowest_rq : option nat)
  | LWoken (c : nat)
  | LReturn (c : nat)
  | LIn
  | LBlock
  | LOut
  | LWake (class_select : nat) (nodemask : option cpumask)
  | LActivate
  | LBalance (d : nat)
  | LDisable
  | LEnable (c prev : nat)
  | LEnabled
  | LStop (d : nat)
  | LPush.

Definition guard (b : bool) (m : res msys) : option (res msys) := if b then Some m else None.

Section Runs.
  Context `{CpumasksOk} (hp : hotplug) (cpuset_fallback : atask -> option cpumask).

(** The task runs on its CPU, outside the end of [migrate_enable]. *)
Definition runs (s : msys) : bool := on_cpu (m_task s) && task_on_rq_queued (m_task s) && negb (m_enabling s).

Definition off_cpu (cpu : nat) (s : msys) : bool := negb (on_cpu (m_task s) && bool_decide (task_cpu (m_task s) = cpu)).

(** A stopper of this CPU is between its flush and its locks, with interrupts disabled. *)
Definition is_flushed (cpu : nat) (x : todo) : bool := match x with Flushed c _ => bool_decide (c = cpu) | _ => false end.
Definition stopping (cpu : nat) (s : msys) : bool := existsb (is_flushed cpu) (m_todo s).

(** The stopper of a CPU runs when the task does not run there, one work at a time. *)
Definition stopper_runs (cpu : nat) (s : msys) : bool := off_cpu cpu s && negb (stopping cpu s).

Definition finish_call (c : nat) (r : msys * outcome) : msys :=
  match snd r with
  | Returns _ => fst r
  | Waits q => set_callers (fst r) (<[c := CWaiting q]> (m_callers (fst r)))
  end.

(** The class gives another queue only for a task that is queued, and one that
    the task may use. *)
Definition lowest_ok (p : atask) (lowest_rq : option nat) : bool :=
  match lowest_rq with
  | None => true
  | Some c => task_on_rq_queued p && bool_decide (c ∈ cpus_mask p ∩ cpu_online_mask hp) && (c <? nr_cpu_ids)%nat
  end.

Definition do_todo (x : todo) (lowest_rq : option nat) (s : msys) : option (res msys) :=
  match x with
  | Complete q => Some (d ← get_pending s q; Ok (put_pending s q (with_done d)))
  | Stop cpu arg => guard (stopper_runs cpu s) (Ok (migration_cpu_flush cpu arg s))
  | Flushed cpu arg => guard (off_cpu cpu s) (migration_cpu_stop hp cpu arg s)
  | Chase q => Some (Ok (later (Stop (task_cpu (m_task s)) (ArgPending q)) s))
  | Push cpu => guard (stopper_runs cpu s && lowest_ok (m_task s) lowest_rq) (Ok (push_cpu_stop hp cpu lowest_rq s))
  end.

(** [None]: the step is not possible. *)
Definition step (l : label) (s : msys) : option (res msys) :=
  let p := m_task s in
  match l with
  | LSet c self prev mask check user =>
      guard (bool_decide (m_callers s !! c = None) && (negb self || runs s))
        (r ← __set_cpus_allowed_ptr hp c self prev (Some mask) (mkSca check false false user) s; Ok (finish_call c r))
  | LDo i lowest_rq =>
      match m_todo s !! i with
      | Some x => do_todo x lowest_rq (set_todo s (delete i (m_todo s)))
      | None => None
      end
  | LWoken c =>
      match m_callers s !! c with
      | Some (CWaiting q) =>
          match m_pendings s !! q with
          | Some d => guard (done d) (caller_woken c q s)
          | None => Some Undef
          end
      | _ => None
      end
  | LReturn c =>
      guard (bool_decide (m_callers s !! c = Some CDraining) &&
             match m_pendings s !! c with Some d => refs d =? 0 | None => true end) (Ok (caller_returns c s))
  | LIn => guard (task_on_rq_queued p && negb (on_cpu p) && negb (stopping (task_cpu p) s)) (Ok (set_task s (with_where p (on_rq p) true (state p))))
  | LBlock => guard (runs s) (Ok (set_task s (with_where p NOT_ON_RQ true TASK_SLEEPING)))
  | LOut =>
      guard (on_cpu p && negb (m_enabling s))
        (Ok (set_task s (let p := migrate_disable_switch (task_cpu p) p in with_where p (on_rq p) false (state p))))
  | LWake class_select nodemask =>
      guard (bool_decide (state p = TASK_SLEEPING))
        (r ← ttwu_place hp cpuset_fallback class_select nodemask p; Ok (moved s r))
  | LActivate => guard (bool_decide (state p = TASK_WAKING) && negb (on_cpu p)) (Ok (set_task s (flush_wakeups (task_cpu p) p)))
  | LBalance d =>
      guard (task_on_rq_queued p && negb (on_cpu p) && negb (is_migration_disabled p)) (Ok (moved s (__migrate_task hp p d)))
  | LDisable =>
      guard (runs s) (let '(p, pins) := migrate_disable p (m_pinned s) in Ok (set_pinned (set_task s p) pins))
  | LEnable c prev => guard (runs s && is_migration_disabled p) (migrate_enable hp c prev s)
  | LEnabled =>
      guard (m_enabling s)
        (let '(p, pins) := migrate_enable_clear p (m_pinned s) in Ok (set_enabling (set_pinned (set_task s p) pins) false))
  | LStop d => Some (Ok (later (Stop (task_cpu p) (ArgDest d)) s))
  | LPush => guard (on_cpu p && negb (bool_decide (task_cpu p ∈ m_busy s)))
      (Ok (later (Push (task_cpu p)) (set_busy s ({[task_cpu p]} ∪ m_busy s))))
  end.

Definition steps_to (l : label) (s s' : msys) : Prop := step l s = Some (Ok s').

(** The CPU of a stopper for a pending request. *)
Definition stopper_cpu (x : todo) : option nat :=
  match x with Stop c (ArgPending _) | Flushed c (ArgPending _) => Some c | _ => None end.

(** A stopper for a pending request is under way on another CPU than the task's. *)
Definition stray (s : msys) : bool :=
  existsb (fun x => match stopper_cpu x with Some c => negb (bool_decide (c = task_cpu (m_task s))) | None => false end) (m_todo s).

(** The stopper of a pending request takes the locks, and the task, outside its
    mask, is being woken up there: the wake-up was sent after the flush. *)
Definition late (i : nat) (s : msys) : bool :=
  let p := m_task s in
  match m_todo s !! i with
  | Some (Flushed c (ArgPending _)) =>
      bool_decide (task_cpu p = c) && bool_decide (state p = TASK_WAKING) && negb (is_migration_disabled p) &&
      negb (bool_decide (task_cpu p ∈ cpus_mask p))
  | _ => false
  end.

(** The task does not enter a section without migration while a stopper is astray,
    and no wake-up falls between a stopper's flush and its locks. *)
Definition calm (l : label) (s : msys) : Prop :=
  match l with LDisable => stray s = false | LDo i _ => late i s = false | _ => True end.

Inductive run (ok : label -> msys -> Prop) (s : msys) : msys -> Prop :=
  | run_nil : run ok s s
  | run_step l s1 s2 : run ok s s1 -> ok l s1 -> steps_to l s1 s2 -> run ok s s2.

Definition anything (l : label) (s : msys) : Prop := True.

(** Executes a list of labels. *)
Fixpoint exec (ls : list label) (s : msys) : option (res msys) :=
  match ls with
  | [] => Some (Ok s)
  | l :: ls => match step l s with Some (Ok s') => exec ls s' | r => r end
  end.
End Runs.
