(* ===== verification/AffineReqs.v ===== *)
(** The pending requests of a task ([AffineMove]): who refers to each, and how
    every access keeps the books. *)

From S2P Require Import Prelude KHeaders Affinity AffineMove.
Local Open Scope Z_scope.

(** * Counting *)

Definition count_todo (f : todo -> bool) (l : list todo) : Z := Z.of_nat (length (List.filter f l)).

Definition is_stop (q : nat) (x : todo) : bool :=
  match x with Stop _ (ArgPending q') | Flushed _ (ArgPending q') | Chase q' => bool_decide (q' = q) | _ => false end.
Definition is_complete (q : nat) (x : todo) : bool := match x with Complete q' => bool_decide (q' = q) | _ => false end.
Definition is_push (c : nat) (x : todo) : bool := match x with Push c' => bool_decide (c' = c) | _ => false end.

Lemma count_todo_cons f x l : count_todo f (x :: l) = Z.b2z (f x) + count_todo f l.
Proof. unfold count_todo. cbn [List.filter]. destruct (f x); cbn [length Z.b2z]; lia. Qed.

Lemma count_todo_delete f l i x : l !! i = Some x -> count_todo f l = Z.b2z (f x) + count_todo f (delete i l).
Proof.
  revert i. induction l as [|y l IH]; intros [|i] Hi; cbn in Hi; try discriminate.
  - injection Hi as ->. apply count_todo_cons.
  - change (delete (S i) (y :: l)) with (y :: delete i l). rewrite !count_todo_cons, (IH i Hi). lia.
Qed.

Lemma count_todo_nonneg f l : 0 <= count_todo f l.
Proof. unfold count_todo. lia. Qed.

Lemma count_todo_pos f l : 0 < count_todo f l -> exists x, In x l /\ f x = true.
Proof.
  unfold count_todo. destruct (List.filter f l) as [|x t] eqn:E; cbn; [lia|]. intros _. exists x. apply filter_In. rewrite E. left. reflexivity.
Qed.

(** The callers that wait for a request. *)
Definition waiters (q : nat) (C : gmap nat caller) : Z := Z.of_nat (size (filter (fun kv => kv.2 = CWaiting q) C)).

Definition waits_for (q : nat) (x : caller) : Z := if decide (x = CWaiting q) then 1 else 0.

Lemma waiters_new q C c x : C !! c = None -> waiters q (<[c := x]> C) = waits_for q x + waiters q C.
Proof.
  intros Hc. unfold waiters, waits_for. destruct (decide (x = CWaiting q)) as [->|Hx].
  - rewrite map_filter_insert_True by reflexivity. rewrite map_size_insert_None; [lia|].
    apply map_lookup_filter_None. left. exact Hc.
  - rewrite map_filter_insert_False, delete_id by assumption. lia.
Qed.

Lemma waiters_delete q C c x : C !! c = Some x -> waiters q C = waits_for q x + waiters q (delete c C).
Proof.
  intros Hc. rewrite <- (insert_delete_id C c x Hc) at 1. apply waiters_new, lookup_delete_eq.
Qed.

Lemma waiters_update q C c x y : C !! c = Some x -> waiters q (<[c := y]> C) + waits_for q x = waiters q C + waits_for q y.
Proof.
  intros Hc. rewrite (waiters_delete q C c x Hc), <- insert_delete_eq, waiters_new by apply lookup_delete_eq. lia.
Qed.

Lemma waiters_nonneg q C : 0 <= waiters q C.
Proof. unfold waiters. lia. Qed.

Lemma waits_for_self q : waits_for q (CWaiting q) = 1.
Proof. unfold waits_for. rewrite decide_True by reflexivity. reflexivity. Qed.

Lemma waits_for_other q q' : q' <> q -> waits_for q (CWaiting q') = 0.
Proof. intros H. unfold waits_for. rewrite decide_False by congruence. reflexivity. Qed.

Lemma waits_for_draining q : waits_for q CDraining = 0.
Proof. reflexivity. Qed.

(** * One request *)

(** [mp] is the task's [migration_pending]; [parked] says that the task may not
    migrate and its mask is to be looked at again when it may. A live
    request has one stopper exactly while [stop_pending]; it is the task's, or
    will be completed, or is completed, never two of these; its users
    are the callers that wait for it, and its owner is still there. No one refers
    to a request whose owner has returned. *)
Inductive req (mp : option nat) (parked : Prop) (T : list todo) (C : gmap nat caller) (q : nat) : option pending -> Prop :=
  | req_some d :
      count_todo (is_stop q) T = Z.b2z (stop_pending d) ->
      count_todo (is_complete q) T + Z.b2z (done d) + Z.b2z (bool_decide (mp = Some q)) = 1 ->
      (stop_pending d = true -> mp = Some q) ->
      refs d = waiters q C ->
      (C !! q = Some (CWaiting q) \/ C !! q = Some CDraining /\ done d = true) ->
      (mp = Some q -> stop_pending d = false -> parked) ->
      req mp parked T C q (Some d)
  | req_none :
      count_todo (is_stop q) T = 0 ->
      count_todo (is_complete q) T = 0 ->
      mp <> Some q ->
      waiters q C = 0 ->
      req mp parked T C q None.

Definition reqs (mp : option nat) (parked : Prop) (T : list todo) (C : gmap nat caller) (P : gmap nat pending) : Prop :=
  forall q, req mp parked T C q (P !! q).

Ltac req_intro := match goal with |- req _ _ _ _ _ (Some _) => apply req_some | |- req _ _ _ _ _ None => apply req_none end.

(** Reduces the counts of the goal and of the context. *)
Ltac count_simpl :=
  repeat (rewrite ?count_todo_cons in *; cbn [is_stop is_complete is_push Z.b2z refs stop_pending done with_refs with_stop with_done with_dest] in *);
  repeat match goal with
  | H : context [bool_decide (?a = ?a)] |- _ => rewrite (bool_decide_true (a = a)) in H by reflexivity
  | |- context [bool_decide (?a = ?a)] => rewrite (bool_decide_true (a = a)) by reflexivity
  | Hne : ?a <> ?b, H : context [bool_decide (?a = ?b)] |- _ => rewrite (bool_decide_false (a = b)) in H by exact Hne
  | Hne : ?a <> ?b |- context [bool_decide (?a = ?b)] => rewrite (bool_decide_false (a = b)) by exact Hne
  | H : context [bool_decide (Some ?a = Some ?b)] |- _ => rewrite (bool_decide_ext (Some a = Some b) (a = b)) in H by (split; congruence)
  | |- context [bool_decide (Some ?a = Some ?b)] => rewrite (bool_decide_ext (Some a = Some b) (a = b)) by (split; congruence)
  | H : context [bool_decide (None = Some _)] |- _ => rewrite (bool_decide_false (None = Some _)) in H by discriminate
  | |- context [bool_decide (None = Some _)] => rewrite (bool_decide_false (None = Some _)) by discriminate
  end; cbn [Z.b2z] in *.

Section Reqs.
  Context (T : list todo) (C : gmap nat caller) (P : gmap nat pending).

Lemma reqs_parked mp (pk pk' : Prop) : reqs mp pk T C P ->
  (forall q d, mp = Some q -> P !! q = Some d -> stop_pending d = false -> pk') -> reqs mp pk' T C P.
Proof.
  intros HR Hpk q. specialize (HR q). destruct (P !! q) as [d|] eqn:E; inversion HR; req_intro; auto.
  intros -> Hs. exact (Hpk q d eq_refl E Hs).
Qed.

Lemma reqs_counts mp pk T' : reqs mp pk T C P -> (forall q, count_todo (is_stop q) T' = count_todo (is_stop q) T) ->
  (forall q, count_todo (is_complete q) T' = count_todo (is_complete q) T) -> reqs mp pk T' C P.
Proof. intros HR Hs Hc q. specialize (HR q). inversion HR; req_intro; rewrite ?Hs, ?Hc; assumption. Qed.

(** The task's request is live. *)
Lemma reqs_current q pk : reqs (Some q) pk T C P -> exists d, P !! q = Some d /\ done d = false.
Proof.
  intros HR. specialize (HR q). destruct (P !! q) as [d|]; inversion HR; [|congruence]. exists d. split; [reflexivity|].
  count_simpl. destruct (done d); [|reflexivity]. pose proof (count_todo_nonneg (is_complete q) T). cbn in *. lia.
Qed.

Lemma reqs_owner mp pk me : reqs mp pk T C P -> C !! me = None -> P !! me = None.
Proof.
  intros HR Hc. specialize (HR me). destruct (P !! me); [|reflexivity]. inversion HR as [? ? ? ? ? [Ho|[Ho _]]|]; congruence.
Qed.

(** A caller installs a request. *)
Lemma reqs_install pk me dest : reqs None pk T C P -> C !! me = None ->
  reqs (Some me) True T (<[me := CWaiting me]> C) (<[me := mkPending 1 false false dest]> P).
Proof.
  intros HR Hc q. pose proof (reqs_owner _ _ _ HR Hc) as HP. specialize (HR q).
  destruct (decide (me = q)) as [<-|Hne].
  - rewrite HP in HR. rewrite lookup_insert_eq. inversion HR. req_intro; count_simpl; auto; try lia.
    + rewrite waiters_new, waits_for_self by exact Hc. lia.
    + left. apply lookup_insert_eq.
  - rewrite lookup_insert_ne by exact Hne. destruct (P !! q); inversion HR; req_intro; count_simpl; auto;
      rewrite ?waiters_new, ?waits_for_other, ?lookup_insert_ne by assumption; auto; try lia; intuition congruence.
Qed.

(** A caller joins the task's request. *)
Lemma reqs_join q pk me dest d : reqs (Some q) pk T C P -> P !! q = Some d -> C !! me = None ->
  reqs (Some q) pk T (<[me := CWaiting q]> C) (<[q := with_dest (with_refs d (refs d + 1)) dest]> P).
Proof.
  intros HR Hd Hc q'. assert (q <> me) as Hqm by (intros ->; rewrite (reqs_owner _ _ _ HR Hc) in Hd; discriminate).
  pose proof (reqs_owner _ _ _ HR Hc) as HP. specialize (HR q').
  destruct (decide (q = q')) as [<-|Hne].
  - rewrite Hd in HR. rewrite lookup_insert_eq. inversion HR. req_intro; count_simpl; auto.
    + rewrite waiters_new, waits_for_self by exact Hc. lia.
    + rewrite lookup_insert_ne by congruence. assumption.
  - rewrite lookup_insert_ne by exact Hne. destruct (decide (me = q')) as [<-|Hmq].
    + rewrite HP in *. inversion HR; req_intro; auto. rewrite waiters_new, waits_for_other by assumption. lia.
    + destruct (P !! q'); inversion HR; req_intro; auto; rewrite ?waiters_new, ?waits_for_other, ?lookup_insert_ne by assumption; auto; lia.
Qed.

(** The stopper is sent out. *)
Lemma reqs_stop q pk pk' cpu d : reqs (Some q) pk T C P -> P !! q = Some d -> stop_pending d = false ->
  reqs (Some q) pk' (Stop cpu (ArgPending q) :: T) C (<[q := with_stop d true]> P).
Proof.
  intros HR Hd Hs q'. specialize (HR q'). destruct (decide (q = q')) as [<-|Hne].
  - rewrite Hd in HR. rewrite lookup_insert_eq. inversion HR. req_intro; count_simpl; auto; try discriminate.
    rewrite Hs in *. cbn in *. lia.
  - rewrite lookup_insert_ne by exact Hne. destruct (P !! q'); inversion HR; req_intro; count_simpl; auto; try intuition congruence.
Qed.

(** The task's request will be completed. *)
Lemma reqs_complete q pk pk' d : reqs (Some q) pk T C P -> P !! q = Some d -> stop_pending d = false ->
  reqs None pk' (Complete q :: T) C P.
Proof.
  intros HR Hd Hs q'. specialize (HR q'). destruct (decide (q = q')) as [<-|Hne].
  - rewrite Hd in *. inversion HR. req_intro; count_simpl; auto; try congruence; lia.
  - destruct (P !! q'); inversion HR; req_intro; count_simpl; auto; try congruence; try lia.
    intros Hs'. exfalso. naive_solver.
Qed.

(** A stopper has the locks. *)
Lemma reqs_stopper mp pk i cpu q : reqs mp pk T C P -> T !! i = Some (Flushed cpu (ArgPending q)) ->
  mp = Some q /\ exists d, P !! q = Some d /\ stop_pending d = true /\ reqs (Some q) True (delete i T) C (<[q := with_stop d false]> P).
Proof.
  intros HR Hi. pose proof (fun f => count_todo_delete f T i _ Hi) as Hcount. pose proof (HR q) as Hq.
  assert (exists d, P !! q = Some d /\ stop_pending d = true /\ mp = Some q) as (d & Hd & Hs & ->).
  { pose proof (Hcount (is_stop q)). count_simpl. pose proof (count_todo_nonneg (is_stop q) (delete i T)).
    destruct (P !! q) as [d|]; inversion Hq; [|lia]. exists d. destruct (stop_pending d); [auto|]. cbn in *. lia. }
  split; [reflexivity|]. exists d. split; [exact Hd|]. split; [exact Hs|]. intros q'. specialize (HR q').
  pose proof (Hcount (is_stop q')) as H1. pose proof (Hcount (is_complete q')) as H2. cbn [is_complete Z.b2z] in H2.
  destruct (decide (q = q')) as [<-|Hne].
  - rewrite lookup_insert_eq, Hd in *. inversion HR. req_intro; count_simpl; auto; try discriminate; try lia.
    rewrite Hs in *. cbn in *. lia.
  - rewrite lookup_insert_ne by exact Hne. destruct (P !! q'); inversion HR; req_intro; count_simpl; auto; lia.
Qed.

(** A completion happens. *)
Lemma reqs_done mp pk i q : reqs mp pk T C P -> T !! i = Some (Complete q) ->
  exists d, P !! q = Some d /\ reqs mp pk (delete i T) C (<[q := with_done d]> P).
Proof.
  intros HR Hi. pose proof (fun f => count_todo_delete f T i _ Hi) as Hcount. pose proof (HR q) as Hq.
  assert (exists d, P !! q = Some d) as (d & Hd).
  { pose proof (Hcount (is_complete q)). count_simpl. pose proof (count_todo_nonneg (is_complete q) (delete i T)).
    destruct (P !! q) as [d|]; inversion Hq; [eauto | lia]. }
  exists d. split; [exact Hd|]. intros q'. specialize (HR q').
  pose proof (Hcount (is_stop q')) as H1. pose proof (Hcount (is_complete q')) as H2. cbn [is_stop Z.b2z] in H1.
  pose proof (count_todo_nonneg (is_complete q') (delete i T)).
  destruct (decide (q = q')) as [<-|Hne].
  - rewrite lookup_insert_eq, Hd in *. inversion HR as [? ? ? ? ? Ho|]; subst. req_intro; count_simpl; auto; try lia.
    + destruct (done d), (bool_decide (mp = Some q)); cbn in *; lia.
    + destruct Ho as [Ho|[Ho _]]; auto.
  - rewrite lookup_insert_ne by exact Hne. destruct (P !! q'); inversion HR; req_intro; count_simpl; auto; lia.
Qed.

(** A caller sees the completion. *)
Lemma reqs_woken mp pk c q : reqs mp pk T C P -> C !! c = Some (CWaiting q) ->
  exists d, P !! q = Some d /\ 0 < refs d /\
    (done d = true -> reqs mp pk T (<[c := CDraining]> C) (<[q := with_refs d (refs d - 1)]> P)).
Proof.
  intros HR Hc. pose proof (HR q) as Hq. pose proof (waiters_delete q C c _ Hc) as Hw. rewrite waits_for_self in Hw.
  pose proof (waiters_nonneg q (delete c C)).
  destruct (P !! q) as [d|] eqn:Hd; [|inversion Hq; lia]. exists d. split; [reflexivity|]. split; [inversion Hq; lia|].
  intros Hdone q'. specialize (HR q'). pose proof (waiters_update q' C c _ CDraining Hc) as Hu. rewrite waits_for_draining in Hu.
  destruct (decide (q = q')) as [<-|Hne].
  - rewrite lookup_insert_eq, Hd, waits_for_self in *. inversion HR as [? ? ? ? ? Ho|]; subst. req_intro; count_simpl; auto; try lia.
    destruct (decide (c = q)) as [->|Hcq]; [right; rewrite lookup_insert_eq; auto|]. rewrite lookup_insert_ne by exact Hcq.
    exact Ho.
  - rewrite lookup_insert_ne, waits_for_other in * by congruence. destruct (P !! q') as [d'|] eqn:Hd'.
    + inversion HR as [? ? ? ? ? Ho|]; subst. req_intro; auto; try lia. destruct (decide (c = q')) as [->|Hcq].
      * destruct Ho as [Ho|[Ho _]]; congruence.
      * rewrite lookup_insert_ne by exact Hcq. exact Ho.
    + inversion HR; req_intro; auto. lia.
Qed.

(** A caller returns, and its request, if it had one, is gone. *)
Lemma reqs_return mp pk c : reqs mp pk T C P -> C !! c = Some CDraining -> (forall d, P !! c = Some d -> refs d = 0) ->
  (forall d, P !! c = Some d -> stop_pending d = false) /\ reqs mp pk T (delete c C) (delete c P).
Proof.
  intros HR Hc Hrefs. split.
  - intros d Hd. specialize (HR c). rewrite Hd in HR. inversion HR as [? Hs Hcm Hmp ? Ho|]; subst.
    destruct (stop_pending d); [|reflexivity]. rewrite (Hmp eq_refl) in Hcm. destruct Ho as [Ho|[_ Ho]]; [congruence|].
    rewrite Ho in Hcm. count_simpl. pose proof (count_todo_nonneg (is_complete c) T). lia.
  - intros q. specialize (HR q). pose proof (waiters_delete q C c _ Hc) as Hw. rewrite waits_for_draining in Hw.
    destruct (decide (c = q)) as [<-|Hne].
    + rewrite lookup_delete_eq. destruct (P !! c) as [d|] eqn:Hd.
      * inversion HR as [? Hs Hcm Hmp ? Ho|]; subst. specialize (Hrefs d eq_refl). destruct Ho as [Ho|[_ Ho]]; [congruence|].
        rewrite Ho in Hcm. cbn in Hcm. pose proof (count_todo_nonneg (is_complete c) T).
        destruct (decide (mp = Some c)) as [->|Hmc]; [count_simpl; lia|]. rewrite (bool_decide_false _ Hmc) in Hcm. cbn in Hcm.
        destruct (stop_pending d); [destruct (Hmc (Hmp eq_refl))|]. req_intro; auto; lia.
      * inversion HR; req_intro; auto; lia.
    + rewrite lookup_delete_ne by exact Hne. destruct (P !! q); inversion HR; req_intro; auto; rewrite ?lookup_delete_ne by exact Hne; auto; lia.
Qed.
End Reqs.
