(* ===== verification/AffineSafe.v ===== *)
(** The invariant of the machine of [AffineRuns] and its preservation. *)

From S2P Require Import Prelude KHeaders Affinity AffineMove AffineRuns AffineReqs.
Local Open Scope Z_scope.

(** No CPU is on its way up or down. *)
Class Steady `{Cpumasks} (hp : hotplug) : Prop := {
  steady_active : cpu_active_mask hp = cpu_online_mask hp;
  steady_dying c : c ∈ cpu_online_mask hp -> c ∉ cpu_dying_mask hp;
  steady_ids c : c ∈ cpu_online_mask hp -> (c < nr_cpu_ids)%nat
}.

Section Safe.
  Context `{CpumasksOk} (hp : hotplug) `{!Steady hp}.

(** * Masks and CPUs *)

(** A mask that a task can have. *)
Definition mask_ok (p : atask) (m : cpumask) : Prop :=
  (exists c, c ∈ m /\ c ∈ cpu_online_mask hp) /\ (PF_KTHREAD (flags p) = false -> m ⊆ task_cpu_possible_mask hp).

Lemma distribute_spec prev a b : (cpumask_any_and_distribute prev a b < nr_cpu_ids)%nat ->
  cpumask_any_and_distribute prev a b ∈ a /\ cpumask_any_and_distribute prev a b ∈ b.
Proof.
  intros Hlt. apply elem_of_intersection.
  destruct (decide (Exists (fun c => (c < nr_cpu_ids)%nat) (elements (a ∩ b)))) as [Hex|Hno].
  - apply Exists_exists in Hex as (c & Hc & Hcn). apply elem_of_elements in Hc. apply distribute_in. exists c. auto.
  - exfalso. assert (nr_cpu_ids <= cpumask_any_and_distribute prev a b)%nat; [|lia]. apply distribute_none. intros c Hc.
    destruct (Nat.lt_ge_cases c nr_cpu_ids) as [Hl|Hl]; [|exact Hl]. destruct Hno. apply Exists_exists. exists c.
    rewrite elem_of_elements. auto.
Qed.

Lemma distribute_some prev a b c : c ∈ a -> c ∈ b -> (c < nr_cpu_ids)%nat -> (cpumask_any_and_distribute prev a b < nr_cpu_ids)%nat.
Proof. intros Ha Hb Hc. apply distribute_in. exists c. rewrite elem_of_intersection. auto. Qed.

Lemma allowed_online p c : is_cpu_allowed hp p c = true -> c ∈ cpus_ptr p /\ c ∈ cpu_online_mask hp.
Proof.
  unfold is_cpu_allowed. rewrite steady_active. destruct (bool_decide (c ∈ cpus_ptr p)) eqn:E; [|discriminate].
  apply bool_decide_eq_true in E. cbn [negb]. intros Hx. split; [exact E|]. revert Hx.
  destruct (is_migration_disabled p), (PF_KTHREAD (flags p)), (kthread_is_per_cpu (flags p)), (bool_decide (c ∈ cpu_dying_mask hp));
    cbn [negb]; rewrite ?andb_true_iff, ?bool_decide_eq_true; try discriminate; try tauto.
Qed.

Lemma allowed_mask p c : is_migration_disabled p = false -> cpus_ptr_ p = None -> mask_ok p (cpus_mask p) ->
  c ∈ cpus_mask p -> c ∈ cpu_online_mask hp -> is_cpu_allowed hp p c = true.
Proof.
  intros Hd Hp [_ Hm] Hc Ho. unfold is_cpu_allowed, cpus_ptr. rewrite Hp, Hd, steady_active. cbn [default].
  rewrite (bool_decide_true _ Hc), (bool_decide_true _ Ho), (bool_decide_false _ (steady_dying c Ho)). cbn [negb].
  destruct (PF_KTHREAD (flags p)); cbn [negb andb]; [destruct (kthread_is_per_cpu (flags p)); reflexivity|].
  apply bool_decide_true. apply (Hm eq_refl), Hc.
Qed.

Lemma allowed_in_some p l c : In c l -> is_cpu_allowed hp p c = true ->
  exists c', allowed_in hp p l = Some c' /\ is_cpu_allowed hp p c' = true.
Proof.
  intros Hl Hc. unfold allowed_in. destruct (find _ l) as [c'|] eqn:E.
  - exists c'. split; [reflexivity|]. apply find_some in E. tauto.
  - rewrite (find_none _ _ E c Hl) in Hc. discriminate.
Qed.

Lemma select_fallback_allowed cpuset_fallback nodemask p c : is_cpu_allowed hp p c = true ->
  exists c', select_fallback_rq hp cpuset_fallback nodemask p = Ok (c', p) /\ is_cpu_allowed hp p c' = true.
Proof.
  intros Hc. unfold select_fallback_rq. destruct (mbind _ nodemask) as [c'|] eqn:E.
  - exists c'. split; [reflexivity|]. destruct nodemask as [m|]; [|discriminate]. cbn in E. unfold allowed_in in E.
    apply find_some in E. tauto.
  - destruct (allowed_in_some p (for_each_cpu (cpus_ptr p)) c) as (c' & E' & Hc'); [|exact Hc|].
    + apply for_each_cpu_in. destruct (allowed_online p c Hc) as [Hp Ho]. split; [exact Hp | exact (steady_ids c Ho)].
    + exists c'. cbn [select_fallback_loop]. rewrite E'. auto.
Qed.

(** A task that may use some CPU gets one that it may use, and keeps its mask. *)
Lemma select_allowed cpuset_fallback cls nodemask p c : is_cpu_allowed hp p c = true ->
  exists c', select_task_rq hp cpuset_fallback cls nodemask p = Ok (c', p) /\ is_cpu_allowed hp p c' = true.
Proof.
  intros Hc. unfold select_task_rq. destruct (is_cpu_allowed hp p (if _ : bool then _ else _)) eqn:E; cbn [negb]; [eauto|].
  exact (select_fallback_allowed cpuset_fallback nodemask p c Hc).
Qed.

(** * The task *)

Record task_ok (p : atask) (enabling : bool) : Prop := {
  t_ptr m : cpus_ptr_ p = Some m -> m = {[task_cpu p]} /\ 0 < migration_disabled p;
  t_dis : 0 <= migration_disabled p;
  t_out : 0 < migration_disabled p -> on_cpu p = false -> cpus_ptr_ p <> None;
  t_enabling : enabling = true -> on_cpu p = true /\ migration_disabled p = 1 /\ cpus_ptr_ p = None /\ on_rq p = TASK_ON_RQ_QUEUED;
  t_mask : mask_ok p (cpus_mask p);
  t_rq : on_rq p = TASK_ON_RQ_QUEUED /\ state p = TASK_RUNNING \/ on_rq p = NOT_ON_RQ /\ state p <> TASK_RUNNING;
  t_cpu : task_cpu p ∈ cpu_online_mask hp
}.

Definition parked (p : atask) : Prop := migration_disabled p <> 0 /\ cpus_ptr_ p <> None.

Lemma disabled_spec p : is_migration_disabled p = false <-> migration_disabled p = 0.
Proof. unfold is_migration_disabled. rewrite negb_false_iff. apply Z.eqb_eq. Qed.

Lemma disabled_spec' p : is_migration_disabled p = true <-> migration_disabled p <> 0.
Proof. unfold is_migration_disabled. rewrite negb_true_iff. apply Z.eqb_neq. Qed.

Lemma own_ptr p en : task_ok p en -> migration_disabled p = 0 -> cpus_ptr_ p = None.
Proof. intros Hp Hz. destruct (cpus_ptr_ p) as [m|] eqn:E; [|reflexivity]. destruct (t_ptr _ _ Hp m E). lia. Qed.

Lemma task_allowed p en : task_ok p en -> on_cpu p = false -> exists c, is_cpu_allowed hp p c = true.
Proof.
  intros Hp Hout. destruct (decide (migration_disabled p = 0)) as [E|E].
  - pose proof (own_ptr _ _ Hp E). apply disabled_spec in E. destruct (t_mask _ _ Hp) as [(c & Hc & Ho) _]. exists c.
    apply allowed_mask; auto. apply (t_mask _ _ Hp).
  - pose proof (t_dis _ _ Hp). destruct (cpus_ptr_ p) as [m|] eqn:Em; [|destruct (t_out _ _ Hp ltac:(lia) Hout Em)].
    destruct (t_ptr _ _ Hp m Em) as [-> _]. exists (task_cpu p). unfold is_cpu_allowed, cpus_ptr. rewrite Em. cbn [default].
    apply disabled_spec' in E. rewrite E. rewrite bool_decide_true by apply elem_of_singleton_2, eq_refl. cbn [negb].
    apply bool_decide_true, (t_cpu _ _ Hp).
Qed.

(** A task that may migrate moves, without a warning. *)
Lemma set_task_cpu_ok p en c : task_ok p en -> migration_disabled p = 0 -> c ∈ cpu_online_mask hp ->
  on_rq p = TASK_ON_RQ_MIGRATING \/ state p = TASK_WAKING -> snd (set_task_cpu hp p c) = false.
Proof.
  intros Hp Hd Hc Hst. unfold set_task_cpu. cbn [snd]. apply disabled_spec in Hd. rewrite Hd, (bool_decide_true _ Hc), orb_false_r.
  rewrite !bool_decide_false by (intros [? ?]; destruct Hst; congruence). destruct (fair_class _); reflexivity.
Qed.
(** * The machine *)

Definition near (cpu : nat) (T : list todo) : Prop := forall x c, In x T -> stopper_cpu x = Some c -> c = cpu.

(** What is kept besides the requests: the pins are those of the task, at most
    one push is under way for each CPU, and, in calm runs ([b]), no stopper is astray while
    the task may not migrate. *)
Record frame (b : bool) (p : atask) (T : list todo) (en : bool) (pins : gmap nat Z) (busy : gset nat) (warned : list warning) : Prop := {
  f_task : task_ok p en;
  f_pins c : default 0 (pins !! c) = if decide (migration_disabled p <> 0 /\ task_cpu p = c) then 1 else 0;
  f_push c : count_todo (is_push c) T = Z.b2z (bool_decide (c ∈ busy));
  f_near : b = true -> migration_disabled p <> 0 -> near (task_cpu p) T;
  f_warn w : In w warned -> w = WBusy \/ w = WNoPending /\ b = false
}.

(** The task is where it may be, or sleeps, or a request is there that will move
    it to a CPU of its mask. *)
Definition placed (p : atask) (P : gmap nat pending) : Prop :=
  task_cpu p ∈ cpus_mask p \/ (state p = TASK_SLEEPING /\ on_cpu p = false /\ migration_disabled p = 0) \/
  exists q d, migration_pending p = Some q /\ P !! q = Some d /\ arg_dest_cpu d ∈ cpus_mask p /\ arg_dest_cpu d ∈ cpu_online_mask hp.

Record Inv (b : bool) (s : msys) : Prop := {
  i_req : reqs (migration_pending (m_task s)) (parked (m_task s)) (m_todo s) (m_callers s) (m_pendings s);
  i_frame : frame b (m_task s) (m_todo s) (m_enabling s) (m_pinned s) (m_busy s) (m_warned s);
  i_place : b = true -> placed (m_task s) (m_pendings s)
}.

Lemma frame_task b p p' T en pins busy warned : frame b p T en pins busy warned -> task_ok p' en ->
  migration_disabled p' = migration_disabled p -> (migration_disabled p <> 0 -> task_cpu p' = task_cpu p) ->
  frame b p' T en pins busy warned.
Proof.
  intros HF Hp Hd Hc. split; try apply HF; [exact Hp| |].
  - intros c. rewrite (f_pins _ _ _ _ _ _ _ HF), Hd. destruct (decide (migration_disabled p <> 0)) as [E|E].
    + rewrite (Hc E). reflexivity.
    + rewrite !decide_False by tauto. reflexivity.
  - rewrite Hd. intros Hb Hn. rewrite (Hc Hn). exact (f_near _ _ _ _ _ _ _ HF Hb Hn).
Qed.

Lemma frame_cons b p x T en pins busy warned : frame b p T en pins busy warned -> (forall c, is_push c x = false) ->
  (forall c, stopper_cpu x = Some c -> c = task_cpu p) -> frame b p (x :: T) en pins busy warned.
Proof.
  intros HF Hx Hs. split; try apply HF.
  - intros c. rewrite count_todo_cons, Hx. apply HF.
  - intros Hb Hn y c [<-|Hin]; [exact (Hs c) | exact (f_near _ _ _ _ _ _ _ HF Hb Hn y c Hin)].
Qed.

Lemma in_delete {A} (l : list A) i x : In x (delete i l) -> In x l.
Proof.
  revert i. induction l as [|y l IH]; intros [|i] Hx; [exact Hx | exact Hx | right; exact Hx|].
  destruct Hx as [Hx|Hx]; [left; exact Hx | right; exact (IH i Hx)].
Qed.

Lemma frame_delete b p x i T en pins busy warned : frame b p T en pins busy warned -> T !! i = Some x ->
  (forall c, is_push c x = false) -> frame b p (delete i T) en pins busy warned.
Proof.
  intros HF Hi Hx. split; try apply HF.
  - intros c. rewrite <- (f_push _ _ _ _ _ _ _ HF c), (count_todo_delete _ T i x Hi), Hx. reflexivity.
  - intros Hb Hn y c Hin. apply in_delete in Hin. exact (f_near _ _ _ _ _ _ _ HF Hb Hn y c Hin).
Qed.

(** A stopper goes on, on its CPU. *)
Lemma frame_goes_on b p x y i T en pins busy warned : frame b p T en pins busy warned -> T !! i = Some x ->
  (forall c, is_push c x = false) -> (forall c, is_push c y = false) -> stopper_cpu y = stopper_cpu x ->
  frame b p (y :: delete i T) en pins busy warned.
Proof.
  intros HF Hi Hx Hy Hs. pose proof (frame_delete _ _ _ _ _ _ _ _ _ HF Hi Hx) as HD. split; try apply HF.
  - intros c. rewrite count_todo_cons, Hy. apply HD.
  - intros Hb Hn z c [<-|Hin] Hc; [|exact (f_near _ _ _ _ _ _ _ HD Hb Hn z c Hin Hc)].
    rewrite Hs in Hc. refine (f_near _ _ _ _ _ _ _ HF Hb Hn x c _ Hc). eapply list_elem_of_In, list_elem_of_lookup_2, Hi.
Qed.

(** The tasks agree in the fields that the invariant of a task names. *)
Definition alike (p p' : atask) : Prop :=
  flags p' = flags p /\ cpus_mask p' = cpus_mask p /\ cpus_ptr_ p' = cpus_ptr_ p /\ migration_disabled p' = migration_disabled p /\
  task_cpu p' = task_cpu p /\ on_rq p' = on_rq p /\ on_cpu p' = on_cpu p /\ state p' = state p.

Lemma alike_pending p v : alike p (with_pending p v).
Proof. repeat split. Qed.

Lemma task_ok_alike p p' en : task_ok p en -> alike p p' -> task_ok p' en.
Proof.
  intros [Q1 Q2 Q3 Q4 Q5 Q6 Q7] (E1 & E2 & E3 & E4 & E5 & E6 & E7 & E8).
  split; unfold mask_ok in *; rewrite ?E1, ?E2, ?E3, ?E4, ?E5, ?E6, ?E7, ?E8; assumption.
Qed.

Lemma frame_alike b p p' T en pins busy warned : frame b p T en pins busy warned -> alike p p' -> frame b p' T en pins busy warned.
Proof.
  intros HF Ha. eapply frame_task; [exact HF | eapply task_ok_alike; [apply HF | exact Ha] | apply Ha | intros _; apply Ha].
Qed.

(** A task that may migrate and is queued moves. *)
Lemma move_ok p en c : task_ok p en -> migration_disabled p = 0 -> on_rq p = TASK_ON_RQ_QUEUED -> c ∈ cpu_online_mask hp ->
  task_ok (fst (move_queued_task hp p c)) en /\ snd (move_queued_task hp p c) = false.
Proof.
  intros Hp Hd Hq Hc. pose proof (own_ptr _ _ Hp Hd) as Ho.
  split; [|change (snd (set_task_cpu hp (deactivate_migrating p) c) = false)].
  - split; cbn.
    + rewrite Ho. discriminate.
    + apply (t_dis _ _ Hp).
    + lia.
    + intros E. destruct (t_enabling _ _ Hp E) as (? & ? & _). lia.
    + apply (t_mask _ _ Hp).
    + destruct (t_rq _ _ Hp) as [[_ Hs]|[Hn _]]; [auto | congruence].
    + exact Hc.
  - unfold set_task_cpu. cbn [snd]. apply disabled_spec in Hd.
    replace (is_migration_disabled (deactivate_migrating p)) with (is_migration_disabled p) by reflexivity.
    rewrite Hd, (bool_decide_true _ Hc), orb_false_r, !bool_decide_false by (cbn; intros [? ?]; congruence).
    destruct (fair_class _); reflexivity.
Qed.
End Safe.
