(* ===== verification/AffineKeeps.v ===== *)
(** Every step of the machine of [AffineRuns] keeps its invariant. *)

From S2P Require Import Prelude KHeaders Affinity AffineMove AffineRuns AffineReqs AffineSafe.
Local Open Scope Z_scope.

Section Keeps.
  Context `{CpumasksOk} (hp : hotplug) `{!Steady hp}.

#[local] Abbreviation Inv := (Inv hp).
#[local] Abbreviation placed := (placed hp).

(** The state of the machine satisfies [frame]. *)
Definition framed (b : bool) (s : msys) : Prop :=
  frame hp b (m_task s) (m_todo s) (m_enabling s) (m_pinned s) (m_busy s) (m_warned s).

Definition requested (pk : Prop) (s : msys) : Prop :=
  reqs (migration_pending (m_task s)) pk (m_todo s) (m_callers s) (m_pendings s).

Lemma get_pending_ok s q d : m_pendings s !! q = Some d -> get_pending s q = Ok d.
Proof. intros E. unfold get_pending. rewrite E. reflexivity. Qed.

Lemma framed_task s en : framed en s -> task_ok hp (m_task s) (m_enabling s).
Proof. apply f_task. Qed.

Lemma bool_decide_add (c x : nat) (X : gset nat) : bool_decide (c ∈ {[x]} ∪ X) = bool_decide (x = c) || bool_decide (c ∈ X).
Proof.
  rewrite <- bool_decide_or. apply bool_decide_ext. rewrite elem_of_union, elem_of_singleton. intuition congruence.
Qed.

(** * [affine_move_task] *)

Lemma push_ok b s pk : framed b s -> requested pk s -> task_cpu (m_task s) ∉ m_busy s ->
  let s' := later (Push (task_cpu (m_task s))) (set_busy s ({[task_cpu (m_task s)]} ∪ m_busy s)) in framed b s' /\ requested pk s'.
Proof.
  intros HF HR Hb s'. split.
  - destruct HF as [F1 F2 F3 F4 F5]. split; cbn; auto.
    + intros c. rewrite count_todo_cons, F3, bool_decide_add. cbn [is_push].
      destruct (bool_decide_reflect (task_cpu (m_task s) = c)) as [<-|Hne]; [|reflexivity].
      rewrite (bool_decide_false _ Hb). reflexivity.
    + intros Hbt Hd x c [<-|Hin]; [discriminate | exact (F4 Hbt Hd x c Hin)].
  - apply (reqs_counts _ _ _ _ _ _ HR); intros q; exact (count_todo_cons _ (Push (task_cpu (m_task s))) (m_todo s)).
Qed.

(** The task may stay: a request whose stopper is not under way is completed. *)
Lemma affine_stay_ok b f pk pk' s : framed b s -> requested pk s -> task_cpu (m_task s) ∈ cpus_mask (m_task s) ->
  exists s' v, affine_stay f s = Ok (s', Returns 0) /\ framed b s' /\ requested pk' s' /\ m_task s' = with_pending (m_task s) v /\
    m_enabling s' = m_enabling s /\ m_callers s' = m_callers s.
Proof.
  intros HF HR Hc. unfold affine_stay.
  set (push := SCA_MIGRATE_ENABLE f && MDF_PUSH (m_task s) && negb (bool_decide (task_cpu (m_task s) ∈ m_busy s))).
  set (s1 := if push then later (Push (task_cpu (m_task s))) (set_busy s ({[task_cpu (m_task s)]} ∪ m_busy s)) else s).
  assert (framed b s1 /\ requested pk s1 /\ m_task s1 = m_task s /\ m_enabling s1 = m_enabling s /\ m_callers s1 = m_callers s /\
    m_pendings s1 = m_pendings s) as (HF1 & HR1 & E1 & E2 & E3 & E4).
  { unfold s1. destruct push eqn:Ep; [|auto 6]. unfold push in Ep. rewrite !andb_true_iff, negb_true_iff, bool_decide_eq_false in Ep.
    destruct (push_ok b s pk HF HR (proj2 Ep)) as [G1 G2]. auto 7. }
  clearbody s1. clear HF HR. rewrite <- E1 in *. unfold requested in *.
  destruct (migration_pending (m_task s1)) as [q|] eqn:Eq.
  - destruct (reqs_current _ _ _ _ _ HR1) as (d & Hd & _). rewrite (get_pending_ok _ _ _ Hd). cbn [mbind res_bind].
    destruct (stop_pending d) eqn:Es.
    + exists s1, (Some q). split; [reflexivity|]. rewrite Eq. split; [exact HF1|]. split; [|split; [|auto]].
      * apply (reqs_parked _ _ _ _ _ _ HR1). intros q' d' [= <-] Hd' Hs'. congruence.
      * destruct (m_task s1); cbn in *; subst; reflexivity.
    + exists (later (Complete q) (set_task s1 (with_pending (m_task s1) None))), None. split; [reflexivity|].
      split; [|split; [|auto]].
      * apply frame_cons; [|reflexivity | discriminate]. eapply frame_alike; [exact HF1 | apply alike_pending].
      * exact (reqs_complete _ _ _ _ _ _ _ HR1 Hd Es).
  - exists s1, None. split; [reflexivity|]. split; [exact HF1|]. rewrite Eq. split; [|split; [|auto]].
    + apply (reqs_parked _ _ _ _ _ _ HR1). discriminate.
    + destruct (m_task s1); cbn in *; subst; reflexivity.
Qed.

(** The request of the caller [me] is the task's request. *)
Lemma affine_install_ok b me dest s : framed b s -> requested (parked (m_task s)) s -> m_callers s !! me = None ->
  exists s' q d, affine_install me dest s = Ok s' /\ m_task s' = with_pending (m_task s) (Some q) /\
    m_pendings s' !! q = Some d /\ arg_dest_cpu d = dest /\ framed b s' /\ m_enabling s' = m_enabling s /\ m_callers s' = m_callers s /\
    requested True (finish_call me (s', Waits q)).
Proof.
  intros HF HR Hme. unfold affine_install, requested in *. destruct (migration_pending (m_task s)) as [q|] eqn:Eq.
  - destruct (reqs_current _ _ _ _ _ HR) as (d & Hd & _). rewrite (get_pending_ok _ _ _ Hd). cbn [mbind res_bind].
    assert (m_task s = with_pending (m_task s) (Some q)) as Et by (destruct (m_task s); cbn in *; subst; reflexivity).
    eexists _, q, _. split; [reflexivity|]. split; [exact Et|]. split; [apply lookup_insert_eq|]. split; [reflexivity|].
    split; [exact HF|]. split; [reflexivity|]. split; [reflexivity|]. cbn. rewrite Eq.
    apply (reqs_parked _ _ _ _ (parked (m_task s))); [|auto]. apply (reqs_join _ _ _ _ _ _ _ _ HR Hd Hme).
  - eexists _, me, _. split; [reflexivity|]. split; [reflexivity|]. split; [apply lookup_insert_eq|]. split; [reflexivity|].
    split; [eapply frame_alike; [exact HF | apply alike_pending]|]. split; [reflexivity|]. split; [reflexivity|].
    apply (reqs_install _ _ _ _ _ _ HR Hme).
Qed.
Lemma placed_pending p P v : task_cpu p ∈ cpus_mask p -> placed (with_pending p v) P.
Proof. left. assumption. Qed.

(** The caller waits for a stopper: the task runs or is being woken up. *)
Lemma affine_running b me q d s s1 : framed b s1 -> requested True (finish_call me (s1, Waits q)) ->
  migration_pending (m_task s1) = Some q -> m_pendings s1 !! q = Some d ->
  arg_dest_cpu d ∈ cpus_mask (m_task s1) -> arg_dest_cpu d ∈ cpu_online_mask hp ->
  s = (if stop_pending d then s1 else later (Stop (task_cpu (m_task s1)) (ArgPending q)) (put_pending s1 q (with_stop d true))) ->
  Inv b (finish_call me (s, Waits q)).
Proof.
  intros HF HR Eq Hd Hm Ho ->. unfold requested in HR. cbn in HR. rewrite Eq in HR. destruct (stop_pending d) eqn:Es; split; cbn.
  - rewrite Eq. apply (reqs_parked _ _ _ _ _ _ HR). intros q' d' [= <-] Hd' Hs'. congruence.
  - exact HF.
  - intros _. right. right. exists q, d. auto.
  - rewrite Eq. apply (reqs_stop _ _ _ _ _ _ _ _ HR Hd Es).
  - apply frame_cons; [exact HF | reflexivity | intros c [= <-]; reflexivity].
  - intros _. right. right. exists q, (with_stop d true). rewrite lookup_insert_eq. auto.
Qed.

(** The task is neither running nor being woken up: it moves now if it may. *)
Lemma affine_queued b me q d s1 : framed b s1 -> requested True (finish_call me (s1, Waits q)) ->
  migration_pending (m_task s1) = Some q -> m_pendings s1 !! q = Some d ->
  arg_dest_cpu d ∈ cpus_mask (m_task s1) -> arg_dest_cpu d ∈ cpu_online_mask hp ->
  on_cpu (m_task s1) = false -> state (m_task s1) <> TASK_WAKING -> migration_disabled (m_task s1) = 0 ->
  let s := if task_on_rq_queued (m_task s1) then moved s1 (move_queued_task hp (m_task s1) (arg_dest_cpu d)) else s1 in
  Inv b (finish_call me (if stop_pending d then s else later (Complete q) (set_task s (with_pending (m_task s) None)), Waits q)).
Proof.
  intros HF HR Eq Hd Hm Ho Hc Hw Hdis s. unfold requested in HR. cbn in HR. rewrite Eq in HR.
  pose proof (framed_task _ _ HF) as Hok. pose proof (own_ptr _ _ _ Hok Hdis) as Hown.
  assert (framed b s /\ (task_cpu (m_task s) ∈ cpus_mask (m_task s) \/ state (m_task s) = TASK_SLEEPING /\ on_cpu (m_task s) = false /\
    migration_disabled (m_task s) = 0) /\ migration_pending (m_task s) = Some q /\ m_todo s = m_todo s1 /\
    m_callers s = m_callers s1 /\ m_pendings s = m_pendings s1) as (HFs & Hpl & Eqs & E1 & E2 & E3).
  { unfold s. destruct (t_rq _ _ _ Hok) as [[Hr Hs]|[Hr Hs]]; unfold task_on_rq_queued.
    - rewrite bool_decide_true by exact Hr. destruct (move_ok hp _ _ _ Hok Hdis Hr Ho) as [Hok' Hwarn].
      unfold moved. rewrite Hwarn. cbn [warn_if]. split; [|auto 7].
      eapply frame_task; [exact HF | exact Hok' | reflexivity | intros Hn; contradiction].
    - rewrite bool_decide_false by congruence. split; [exact HF|]. split; [right; destruct (state (m_task s1)); tauto | auto]. }
  clearbody s. destruct (stop_pending d) eqn:Es; split; cbn.
  - rewrite Eqs, E1, E2, E3. apply (reqs_parked _ _ _ _ _ _ HR). intros q' d' [= <-] Hd' Hs'. congruence.
  - exact HFs.
  - intros _. unfold placed. tauto.
  - rewrite E1, E2, E3. apply (reqs_complete _ _ _ _ _ _ _ HR Hd Es).
  - apply frame_cons; [eapply frame_alike; [exact HFs | apply alike_pending] | reflexivity | discriminate].
  - intros _. unfold placed. cbn. tauto.
Qed.

Lemma affine_move_ok b me f dest s : SCA_MIGRATE_ENABLE f = false -> framed b s -> requested (parked (m_task s)) s ->
  m_callers s !! me = None -> dest ∈ cpus_mask (m_task s) -> dest ∈ cpu_online_mask hp ->
  returns (affine_move_task hp me f dest s) (fun r => Inv b (finish_call me r)).
Proof.
  intros Hf HF HR Hme Hm Ho. unfold affine_move_task. rewrite Hf.
  destruct (bool_decide_reflect (task_cpu (m_task s) ∈ cpus_mask (m_task s))) as [Hc|Hc].
  - destruct (affine_stay_ok b f _ (parked (m_task s)) s HF HR Hc) as (s' & v & -> & HF' & HR' & Et & _). apply returns_ok.
    split; cbn; [unfold requested in HR'; rewrite Et in *; exact HR' | exact HF' | intros _; rewrite Et; apply placed_pending, Hc].
  - destruct (affine_install_ok b me dest s HF HR Hme) as (s1 & q & d & -> & Et & Hd & <- & HF1 & _ & _ & HR1). cbn [mbind res_bind].
    assert (migration_pending (m_task s1) = Some q) as Eq by (rewrite Et; reflexivity). rewrite Eq, (get_pending_ok _ _ _ Hd).
    cbn [mbind res_bind]. assert (cpus_mask (m_task s1) = cpus_mask (m_task s)) as Em by (rewrite Et; reflexivity). rewrite <- Em in Hm.
    destruct (on_cpu (m_task s1) || bool_decide (state (m_task s1) = TASK_WAKING)) eqn:Er; [|apply orb_false_iff in Er as [Er Ew]].
    + apply returns_ok. eapply affine_running; eauto.
    + apply bool_decide_eq_false in Ew. destruct (is_migration_disabled (m_task s1)) eqn:Edis.
      * apply returns_ok. split; cbn; [|exact HF1 | intros _; right; right; exists q, d; auto].
        unfold requested in HR1. cbn in HR1. rewrite Eq in *. apply (reqs_parked _ _ _ _ _ _ HR1). intros _ _ _ _ _.
        apply disabled_spec' in Edis. pose proof (framed_task _ _ HF1) as Hok. split; [exact Edis|].
        apply (t_out _ _ _ Hok); [pose proof (t_dis _ _ _ Hok); lia | exact Er].
      * apply disabled_spec in Edis. pose proof (affine_queued b me q d s1 HF1 HR1 Eq Hd Hm Ho Er Ew Edis) as Hq. cbv zeta in Hq.
        destruct (stop_pending d); apply returns_ok; exact Hq.
Qed.
(** * Callers *)

Lemma task_ok_mask p en m n : task_ok hp p en -> mask_ok hp p m -> task_ok hp (with_mask p m n) en.
Proof. intros [Q1 Q2 Q3 Q4 Q5 Q6 Q7] Hm. split; assumption. Qed.

Lemma inv_warn b w s : Inv b s -> w = WBusy \/ w = WNoPending /\ b = false -> Inv b (warn_if true w s).
Proof.
  intros [HR HF HP] Hw. split; [exact HR | | exact HP]. split; try apply HF. intros w' [<-|Hin]; [exact Hw | exact (f_warn _ _ _ _ _ _ _ _ HF w' Hin)].
Qed.

(** A change of the mask by a caller other than [migrate_enable]. *)
Lemma set_cpus_keeps b c self prev mask chk usr s : Inv b s -> m_callers s !! c = None ->
  returns (__set_cpus_allowed_ptr hp c self prev (Some mask) (mkSca chk false false usr) s) (fun r => Inv b (finish_call c r)).
Proof.
  intros HI Hc. unfold __set_cpus_allowed_ptr, __set_cpus_allowed_ptr_locked.
  change (mask_of (m_task s) (Some mask)) with mask. cbn [SCA_MIGRATE_ENABLE SCA_CHECK SCA_USER negb andb]. set (p := m_task s).
  destruct (negb (PF_KTHREAD (flags p)) && negb (bool_decide (mask ⊆ task_cpu_possible_mask hp))) eqn:Ek; [apply returns_ok, HI|].
  destruct (chk && PF_NO_SETAFFINITY (flags p)); [apply returns_ok, HI|].
  destruct (bool_decide (cpus_mask p = mask)); [apply returns_ok, HI|].
  destruct (self && is_migration_disabled p && negb (bool_decide (task_cpu p ∈ mask))); [apply returns_ok, inv_warn; auto|].
  set (dest := cpumask_any_and_distribute prev _ mask). destruct (Nat.leb_spec nr_cpu_ids dest) as [|Hlt]; [apply returns_ok, HI|].
  destruct (distribute_spec _ _ _ Hlt) as [Hv Hm]. fold dest in Hv, Hm.
  assert (dest ∈ cpu_online_mask hp) as Ho by (destruct (_ || _); [exact Hv | rewrite <- steady_active; exact Hv]).
  destruct HI as [HR HF HP]. pose proof (framed_task _ _ HF) as Hok. fold p in HR, HF, Hok.
  assert (mask_ok hp p mask) as Hmask.
  { split; [exists dest; auto|]. intros Hk. rewrite Hk in Ek. cbn in Ek. apply negb_false_iff, bool_decide_eq_true in Ek. exact Ek. }
  pose proof (task_ok_mask p _ mask (Z.of_nat (size mask)) Hok Hmask) as Hok1.
  assert (frame hp b (with_mask p mask (Z.of_nat (size mask))) (m_todo s) (m_enabling s) (m_pinned s) (m_busy s) (m_warned s)) as HF1
    by (eapply frame_task; [exact HF | exact Hok1 | reflexivity | reflexivity]).
  apply affine_move_ok; try reflexivity; try exact Hc; try exact Ho; destruct usr; try exact HR; try exact Hm; try exact HF1.
  eapply frame_alike; [exact HF1 | repeat split].
Qed.

(** * [migrate_enable] *)

Lemma affine_enable_ok b me dest s : framed b s -> requested True s -> (b = true -> placed (m_task s) (m_pendings s)) ->
  on_cpu (m_task s) = true -> migration_disabled (m_task s) = 1 ->
  exists s' r, affine_move_task hp me sca_enable dest s = Ok (s', r) /\ framed b s' /\ requested False s' /\
    (b = true -> placed (m_task s') (m_pendings s')) /\ alike (m_task s) (m_task s') /\ m_enabling s' = m_enabling s.
Proof.
  intros HF HR HP Hon Hd. unfold affine_move_task.
  destruct (bool_decide_reflect (task_cpu (m_task s) ∈ cpus_mask (m_task s))) as [Hc|Hc].
  - destruct (affine_stay_ok b sca_enable _ False s HF HR Hc) as (s' & v & -> & HF' & HR' & Et & Ee & _).
    exists s', (Returns 0). split; [reflexivity|]. split; [exact HF'|]. split; [exact HR'|]. rewrite Et.
    split; [intros _; apply placed_pending, Hc|]. split; [apply alike_pending | exact Ee].
  - cbn [SCA_MIGRATE_ENABLE sca_enable mbind res_bind]. unfold requested in HR. destruct (migration_pending (m_task s)) as [q|] eqn:Eq.
    + destruct (reqs_current _ _ _ _ _ HR) as (d & Hdq & _). rewrite (get_pending_ok _ _ _ Hdq), Hon. cbn [mbind res_bind orb].
      assert (b = true -> arg_dest_cpu d ∈ cpus_mask (m_task s) /\ arg_dest_cpu d ∈ cpu_online_mask hp) as Hdest.
      { intros Hb. destruct (HP Hb) as [?|[(_ & ? & _)|(q' & d' & Eq' & Hd' & ?)]]; [contradiction | congruence | ].
        rewrite Eq in Eq'. injection Eq' as <-. rewrite Hdq in Hd'. injection Hd' as <-. assumption. }
      eexists _, _. split; [reflexivity|].
      destruct (stop_pending d) eqn:Es.
      * split; [eapply frame_alike; [exact HF | repeat split]|]. unfold requested. cbn. rewrite Eq.
        split; [apply (reqs_parked _ _ _ _ _ _ HR); intros q' d' [= <-] Hd' Hs'; congruence|].
        split; [|repeat split]. intros Hb. right. right. exists q, d. destruct (Hdest Hb). auto.
      * split; [|unfold requested; cbn; rewrite Eq; split; [exact (reqs_stop _ _ _ _ _ _ _ _ HR Hdq Es)|]].
        -- apply (frame_cons _ _ _ (Stop (task_cpu (m_task s)) (ArgPending q))); [|reflexivity | intros c [= <-]; reflexivity].
           eapply frame_alike; [exact HF | repeat split].
        -- split; [|repeat split]. intros Hb. right. right. exists q, (with_stop d true). cbn. rewrite lookup_insert_eq. destruct (Hdest Hb). auto.
    + eexists _, _. split; [reflexivity|].
      assert (b = true -> False) as Hnb by (intros Hb; destruct (HP Hb) as [?|[(_ & ? & _)|(q' & d' & Eq' & _)]]; congruence).
      split; [|unfold requested; cbn; rewrite Eq; split; [apply (reqs_parked _ _ _ _ _ _ HR); discriminate | split; [contradiction | repeat split]]].
      split; try apply HF. intros w [<-|Hw]; [right; split; [reflexivity|]; destruct b; [destruct (Hnb eq_refl) | reflexivity] | exact (f_warn _ _ _ _ _ _ _ _ HF w Hw)].
Qed.

Lemma runs_spec s : runs s = true <-> on_cpu (m_task s) = true /\ on_rq (m_task s) = TASK_ON_RQ_QUEUED /\ m_enabling s = false.
Proof. unfold runs, task_on_rq_queued. rewrite !andb_true_iff, negb_true_iff, bool_decide_eq_true. tauto. Qed.

(** The end of [migrate_enable] begins. *)
Lemma inv_enabling b s : Inv b s -> requested False s -> on_cpu (m_task s) = true -> on_rq (m_task s) = TASK_ON_RQ_QUEUED ->
  migration_disabled (m_task s) = 1 -> cpus_ptr_ (m_task s) = None -> Inv b (set_enabling s true).
Proof.
  intros [HR HF HP] HR' H1 H2 H3 H4. split; [exact HR | | exact HP]. cbn. split; try apply HF.
  destruct (framed_task _ _ HF) as [Q1 Q2 Q3 Q4 Q5 Q6 Q7]. split; auto.
Qed.

Lemma inv_disabled b s n : Inv b s -> 0 < migration_disabled (m_task s) -> 0 < n -> m_enabling s = false ->
  Inv b (set_task s (with_disabled (m_task s) n)).
Proof.
  intros [HR HF HP] Hd Hn He. destruct (framed_task _ _ HF) as [Q1 Q2 Q3 Q4 Q5 Q6 Q7]. split; cbn.
  - apply (reqs_parked _ _ _ _ _ _ HR). intros q d Hq Hdq Hs. unfold requested in HR. specialize (HR q). rewrite Hdq in HR.
    inversion HR as [? ? ? ? ? ? Hp|]; subst. destruct (Hp Hq Hs) as [_ Hp']. split; cbn; [lia | exact Hp'].
  - destruct HF as [F1 F2 F3 F4 F5]. split; cbn; auto.
    + split; cbn; auto; try lia; try congruence; [intros m Hm; destruct (Q1 m Hm); auto].
    + intros c. rewrite F2. destruct (decide (task_cpu (m_task s) = c)) as [E|E].
      * rewrite !decide_True by (split; [lia | exact E]). reflexivity.
      * rewrite !decide_False by tauto. reflexivity.
    + intros Hb _. apply (F4 Hb). lia.
  - intros Hb. destruct (HP Hb) as [?|[(_ & _ & ?)|?]]; [left; assumption | lia | right; right; assumption].
Qed.
Lemma requested_weaken (pk pk' : Prop) s : (pk -> pk') -> requested pk s -> requested pk' s.
Proof.
  intros Hpk HR. unfold requested in *. apply (reqs_parked _ _ _ _ _ _ HR). intros q d Hq Hd Hs. apply Hpk.
  specialize (HR q). rewrite Hd in HR. inversion HR as [? ? ? ? ? ? Hp|]; subst. exact (Hp Hq Hs).
Qed.

Lemma enable_keeps b me prev s : Inv b s -> runs s = true -> is_migration_disabled (m_task s) = true ->
  returns (migrate_enable hp me prev s) (Inv b).
Proof.
  intros HI Hr Hd. apply runs_spec in Hr as (Hon & Hq & He). apply disabled_spec' in Hd.
  pose proof (framed_task _ _ (i_frame _ _ _ HI)) as Hok. pose proof (t_dis _ _ _ Hok). unfold migrate_enable.
  destruct (Z.ltb_spec 1 (migration_disabled (m_task s))) as [Hgt|Hle]; [apply returns_ok, inv_disabled; auto; lia|].
  assert (migration_disabled (m_task s) = 1) as Hone by lia. destruct (cpus_ptr_ (m_task s)) as [m|] eqn:Ep.
  2: { apply returns_ok, inv_enabling; auto. eapply requested_weaken; [|apply (i_req _ _ _ HI)]. intros [_ Hp]. auto. }
  destruct HI as [HR HF HP]. unfold __set_cpus_allowed_ptr, __set_cpus_allowed_ptr_locked.
  change (mask_of (m_task s) None) with (cpus_mask (m_task s)).
  cbn [SCA_MIGRATE_ENABLE SCA_CHECK SCA_USER sca_enable negb andb]. destruct (t_mask _ _ _ Hok) as [(c & Hc & Ho) Hk].
  replace (negb (PF_KTHREAD (flags (m_task s))) && negb (bool_decide (cpus_mask (m_task s) ⊆ task_cpu_possible_mask hp))) with false
    by (destruct (PF_KTHREAD (flags (m_task s))) eqn:Ek; [reflexivity|]; rewrite bool_decide_true by auto; reflexivity).
  rewrite (proj2 (disabled_spec' (m_task s)) Hd), orb_true_r.
  destruct (Nat.leb_spec nr_cpu_ids (cpumask_any_and_distribute prev (cpu_online_mask hp) (cpus_mask (m_task s)))) as [Hge|_].
  { pose proof (distribute_some prev _ _ c Ho Hc (steady_ids c Ho)). lia. }
  change (fst (__do_set_cpus_allowed (m_task s) None sca_enable)) with (with_ptr (m_task s) None).
  set (s1 := set_task s (with_ptr (m_task s) None)).
  assert (framed b s1) as HF1.
  { eapply frame_task; [exact HF | | reflexivity | reflexivity]. destruct Hok as [Q1 Q2 Q3 Q4 Q5 Q6 Q7].
    split; cbn; auto; try discriminate; congruence. }
  destruct (affine_enable_ok b me (cpumask_any_and_distribute prev (cpu_online_mask hp) (cpus_mask (m_task s))) s1)
    as (s' & r & E & HF' & HR' & HP' & (A1 & A2 & A3 & A4 & A5 & A6 & A7 & A8) & Ee); auto.
  { exact (requested_weaken _ True s (fun _ => I) HR). }
  rewrite E. cbn [mbind res_bind fst]. apply returns_ok, inv_enabling; auto; try congruence.
  - split; auto. exact (requested_weaken _ _ s' (False_ind _) HR').
  - rewrite A7. exact Hon.
  - rewrite A6. exact Hq.
  - rewrite A4. exact Hone.
Qed.

(** * The stopper *)

Lemma flush_keeps b cpu s : Inv b s -> Inv b (set_task s (flush_wakeups cpu (m_task s))).
Proof.
  intros HI. unfold flush_wakeups. destruct (bool_decide_reflect (state (m_task s) = TASK_WAKING /\ task_cpu (m_task s) = cpu)) as [[Hw Hc]|Hn].
  - destruct HI as [HR HF HP]. split; [exact HR | |].
    + eapply frame_task; [exact HF | | reflexivity | reflexivity]. destruct (framed_task _ _ HF) as [Q1 Q2 Q3 Q4 Q5 Q6 Q7].
      split; cbn; auto. intros E. destruct (Q4 E) as (? & ? & ? & ?). auto.
    + intros Hb. destruct (HP Hb) as [?|[(? & _)|?]]; [left; assumption | congruence | right; right; assumption].
  - replace (set_task s (m_task s)) with s by (destruct s; reflexivity). exact HI.
Qed.

(** The stopper's first part. *)
Lemma stop_flush_keeps b cpu arg i s : Inv b s -> m_todo s !! i = Some (Stop cpu arg) ->
  Inv b (migration_cpu_flush cpu arg (set_todo s (delete i (m_todo s)))).
Proof.
  intros HI Hi. destruct (flush_keeps b cpu s HI) as [HR HF HP]. split; [| |exact HP].
  - apply (reqs_counts _ _ _ _ _ _ HR); intros q; cbn; rewrite count_todo_cons, (count_todo_delete _ _ _ _ Hi); destruct arg; reflexivity.
  - apply (frame_goes_on _ _ _ (Stop cpu arg)); [exact HF | exact Hi | reflexivity | reflexivity | destruct arg; reflexivity].
Qed.

Lemma off_cpu_spec cpu s : off_cpu cpu s = true -> task_cpu (m_task s) = cpu -> on_cpu (m_task s) = false.
Proof. unfold off_cpu. intros Ho <-. rewrite bool_decide_true, andb_true_r in Ho by reflexivity. apply negb_true_iff, Ho. Qed.

(** The task moves to the stopper's destination. *)
Lemma stop_move_keeps b dest s : framed b s -> migration_disabled (m_task s) = 0 ->
  let s' := stop_move hp dest s in
  framed b s' /\ m_pendings s' = m_pendings s /\ m_callers s' = m_callers s /\ m_todo s' = m_todo s /\
  migration_pending (m_task s') = migration_pending (m_task s) /\ migration_disabled (m_task s') = 0 /\
  (state (m_task s) <> TASK_WAKING -> on_cpu (m_task s) = false ->
    dest ∈ cpus_mask (m_task s) /\ dest ∈ cpu_online_mask hp \/ task_cpu (m_task s) ∈ cpus_mask (m_task s) ->
    placed (m_task s') (m_pendings s')) /\
  (placed (m_task s) (m_pendings s) -> placed (m_task s') (m_pendings s')).
Proof.
  intros HF Hd. pose proof (framed_task _ _ HF) as Hok. pose proof (own_ptr _ _ _ Hok Hd) as Hown. unfold stop_move.
  destruct (t_rq _ _ _ Hok) as [[Hr Hs]|[Hr Hs]]; unfold task_on_rq_queued.
  - rewrite bool_decide_true by exact Hr. unfold __migrate_task. destruct (is_cpu_allowed hp (m_task s) dest) eqn:Ea; cbn [negb].
    + destruct (allowed_online _ _ _ Ea) as [Hm Ho]. destruct (move_ok hp _ _ _ Hok Hd Hr Ho) as [Hok' Hwarn].
      unfold moved. rewrite Hwarn. cbn [warn_if]. unfold cpus_ptr in Hm. rewrite Hown in Hm. cbn [default] in Hm.
      split; [eapply frame_task; [exact HF | exact Hok' | reflexivity | intros; contradiction]|]. split; [reflexivity|].
      split; [reflexivity|]. split; [reflexivity|]. split; [reflexivity|]. split; [exact Hd | split; intros; left; exact Hm].
    + replace (moved s (m_task s, false)) with s by (destruct s; reflexivity). do 5 (split; [assumption || reflexivity|]).
      split; [exact Hd|]. split; [|auto]. intros _ _ [[Hm Ho]|Hc]; [|left; exact Hc].
      rewrite (allowed_mask hp (m_task s) dest) in Ea; [discriminate| | | |exact Hm | exact Ho]; try exact Hown.
      * apply disabled_spec, Hd.
      * apply (t_mask _ _ _ Hok).
  - rewrite bool_decide_false by congruence. split; [eapply frame_alike; [exact HF | repeat split]|].
    do 4 (split; [reflexivity|]). split; [exact Hd|]. split; [|auto]. intros Hw Hon _. right. left. cbn.
    split; [destruct (state (m_task s)); congruence | auto].
Qed.
Lemma placed_put p P q d d' : placed p P -> P !! q = Some d -> arg_dest_cpu d' = arg_dest_cpu d -> placed p (<[q := d']> P).
Proof.
  intros [?|[?|(q' & d'' & Hq & Hd'' & Hm & Ho)]] Hd Ha; [left; assumption | right; left; assumption | right; right].
  destruct (decide (q = q')) as [<-|Hne].
  - exists q, d'. rewrite lookup_insert_eq, Ha. replace d with d'' by congruence. auto.
  - exists q', d''. rewrite lookup_insert_ne by exact Hne. auto.
Qed.

(** Something that refers to no request is taken from the list or replaced. *)
Lemma inv_delete b s i x : Inv b s -> m_todo s !! i = Some x -> (forall q, is_stop q x = false) -> (forall q, is_complete q x = false) ->
  (forall c, is_push c x = false) -> Inv b (set_todo s (delete i (m_todo s))).
Proof.
  intros [HR HF HP] Hi H1 H2 H3. split; [|exact (frame_delete _ _ _ _ _ _ _ _ _ _ HF Hi H3) | exact HP].
  apply (reqs_counts _ _ _ _ _ _ HR); intros q; [rewrite (count_todo_delete (is_stop q) _ _ _ Hi), H1
    | rewrite (count_todo_delete (is_complete q) _ _ _ Hi), H2]; reflexivity.
Qed.

Lemma stop_dest_keeps b cpu d s : Inv b s -> returns (migration_cpu_stop hp cpu (ArgDest d) s) (Inv b).
Proof.
  intros HI. unfold migration_cpu_stop. cbv zeta.
  destruct (bool_decide_reflect (task_cpu (m_task s) = cpu)) as [Hc|Hc]; [|apply returns_ok, HI].
  destruct (is_migration_disabled (m_task s)) eqn:Ed; [apply returns_ok, HI|]. apply disabled_spec in Ed. apply returns_ok.
  destruct HI as [HR HF HP]. destruct (stop_move_keeps b d s HF Ed) as (HF1 & E1 & E2 & E3 & E4 & E5 & HP').
  set (s' := stop_move hp d _) in *. split; [|exact HF1 | intros Hb; exact (proj2 HP' (HP Hb))].
  rewrite E1, E2, E3, E4. apply (requested_weaken (parked (m_task s)) _ s); [|exact HR]. intros [Hp _]. contradiction.
Qed.

Lemma stop_out_ok q d s c : m_pendings s !! q = Some d ->
  stop_out (ArgPending q) c s =
    Ok (if c then later (Complete q) (put_pending s q (with_stop d false)) else put_pending s q (with_stop d false)).
Proof. intros Hd. unfold stop_out. rewrite (get_pending_ok _ _ _ Hd). reflexivity. Qed.

(** The stopper of a request that is completed: the task is where it may be or
    will go there when it wakes up. *)
Lemma stop_complete b q d s : framed b s -> m_pendings s !! q = Some d ->
  reqs (Some q) True (m_todo s) (m_callers s) (<[q := with_stop d false]> (m_pendings s)) -> migration_pending (m_task s) = None ->
  (b = true -> placed (m_task s) ∅) -> returns (stop_out (ArgPending q) true s) (Inv b).
Proof.
  intros HF Hd HR Hmp HP. rewrite (stop_out_ok _ _ _ true Hd). apply returns_ok. split; cbn.
  - rewrite Hmp. apply (reqs_complete _ _ _ _ _ _ _ HR (lookup_insert_eq _ _ _) eq_refl).
  - apply (frame_cons _ _ _ (Complete q)); [exact HF | reflexivity | discriminate].
  - intros Hb. destruct (HP Hb) as [?|[?|(q' & d' & _ & E & _)]]; [left; assumption | right; left; assumption|].
    rewrite lookup_empty in E. discriminate.
Qed.

Lemma stop_pending_keeps b cpu q i s : Inv b s -> off_cpu cpu s = true -> m_todo s !! i = Some (Flushed cpu (ArgPending q)) ->
  (b = true -> late i s = false) ->
  returns (migration_cpu_stop hp cpu (ArgPending q) (set_todo s (delete i (m_todo s)))) (Inv b).
Proof.
  intros [HR HF HP] Hs Hi Hlate. unfold migration_cpu_stop. cbn [m_task set_todo]. set (p := m_task s) in *.
  destruct (reqs_stopper _ _ _ _ _ _ _ _ HR Hi) as (Eq & d & Hd & Hst & HR').
  cbn [m_task set_task m_pendings m_todo m_callers] in *. rewrite (bool_decide_true _ Eq). cbn [negb warn_if].
  set (s1 := set_todo s (delete i (m_todo s))) in *.
  assert (framed b s1) as HF' by (apply (frame_delete _ _ _ _ _ _ _ _ _ _ HF Hi); reflexivity).
  assert (m_pendings s1 !! q = Some d) as Hd1 by exact Hd. pose proof (framed_task _ _ HF') as Hok. change (m_task s1) with p in Hok.
  destruct (bool_decide_reflect (task_cpu p = cpu)) as [Hc|Hc].
  - pose proof (off_cpu_spec cpu s Hs Hc) as Hon. destruct (is_migration_disabled p) eqn:Ed.
    + rewrite (stop_out_ok q d s1 false Hd1). apply returns_ok. split; cbn; [|exact HF' | intros Hb; eapply placed_put; [exact (HP Hb) | exact Hd | reflexivity]].
      fold p. rewrite Eq. apply (reqs_parked _ _ _ _ _ _ HR'). intros _ _ _ _ _. apply disabled_spec' in Ed. split; [exact Ed|].
      apply (t_out _ _ _ Hok); [pose proof (t_dis _ _ _ Hok); lia | exact Hon].
    + unfold stop_dest. rewrite (get_pending_ok _ _ _ Hd1). cbn [mbind res_bind]. apply disabled_spec in Ed.
      assert (framed b (set_task s1 (with_pending p None))) as HFn by (eapply frame_alike; [exact HF' | apply alike_pending]).
      destruct (bool_decide_reflect (task_cpu p ∈ cpus_mask p)) as [Hm|Hm].
      * apply (stop_complete b q d); auto. intros _. left. exact Hm.
      * destruct (stop_move_keeps b (arg_dest_cpu d) _ HFn Ed) as (HF2 & E1 & E2 & E3 & E4 & _ & HP2 & _).
        apply (stop_complete b q d); [exact HF2 | rewrite E1; exact Hd1 | rewrite E1, E2, E3; exact HR' | rewrite E4; reflexivity|].
        intros Hb. destruct (HP Hb) as [?|[(Hsl & Hon' & Hd0)|(q' & d' & Hq' & Hd' & Hm' & Ho')]]; [contradiction| |].
        -- unfold stop_move, task_on_rq_queued. cbn [m_task set_task].
           destruct (t_rq _ _ _ Hok) as [[_ Hrs]|[Hrq _]]; [congruence|].
           rewrite bool_decide_false by (cbn; congruence). right. left. auto.
        -- assert (state p <> TASK_WAKING) as Hw.
           { intros Hw. specialize (Hlate Hb). unfold late in Hlate. rewrite Hi in Hlate. fold p in Hlate. apply disabled_spec in Ed.
             rewrite (bool_decide_true _ Hc), (bool_decide_true _ Hw), (bool_decide_false _ Hm), Ed in Hlate. discriminate. }
           rewrite Eq in Hq'. injection Hq' as <-. rewrite Hd in Hd'. injection Hd' as <-.
           destruct (HP2 Hw Hon (or_introl (conj Hm' Ho'))) as [?|[?|(q' & d' & Hq' & _)]]; [left; assumption | right; left; assumption|].
           rewrite E4 in Hq'. discriminate.
  - destruct (bool_decide_reflect (task_cpu p ∈ cpus_ptr p)) as [Hm|Hm].
    + apply (stop_complete b q d); auto.
      * eapply frame_alike; [exact HF' | apply alike_pending].
      * intros Hb. left. cbn. destruct (decide (migration_disabled p = 0)) as [E0|E0].
        -- unfold cpus_ptr in Hm. rewrite (own_ptr _ _ _ Hok E0) in Hm. exact Hm.
        -- destruct Hc. symmetry. apply (f_near _ _ _ _ _ _ _ _ HF Hb E0 _ cpu (proj1 (list_elem_of_In _ _) (list_elem_of_lookup_2 _ _ _ Hi)) eq_refl).
    + rewrite (get_pending_ok _ _ _ Hd1). cbn [mbind res_bind]. rewrite Hst. cbn [negb warn_if]. apply returns_ok. split; cbn.
      * apply (reqs_counts _ _ _ _ _ _ HR); intros q'; rewrite (count_todo_delete _ _ _ _ Hi), count_todo_cons; reflexivity.
      * apply (frame_cons _ _ _ (Chase q)); [exact HF' | reflexivity | discriminate].
      * exact HP.
Qed.
End Keeps.
