(* ===== verification/AffineInvariant.v ===== *)
(** Every run of the machine of [AffineRuns] from a task with no requests stays
    inside its invariant. *)

From S2P Require Import Prelude KHeaders Affinity AffineMove AffineRuns AffineReqs AffineSafe AffineKeeps.
Local Open Scope Z_scope.

Section Invariant.
  Context `{CpumasksOk} (hp : hotplug) `{!Steady hp} (cpuset_fallback : atask -> option cpumask).

#[local] Abbreviation Inv := (Inv hp).

(** * The steps of the task *)

(** A step that changes only the task, keeps its request and what is disabled. *)
Lemma inv_task b s p : Inv b s -> task_ok hp p (m_enabling s) -> migration_pending p = migration_pending (m_task s) ->
  migration_disabled p = migration_disabled (m_task s) ->
  (migration_disabled p <> 0 -> task_cpu p = task_cpu (m_task s)) -> (parked (m_task s) -> parked p) ->
  (b = true -> placed hp (m_task s) (m_pendings s) -> placed hp p (m_pendings s)) -> Inv b (set_task s p).
Proof.
  intros [HR HF HP] Hok Hm Hd Hc Hpk Hpl. split; [| |intros Hb; exact (Hpl Hb (HP Hb))].
  - cbn. rewrite Hm. exact (requested_weaken _ _ s Hpk HR).
  - eapply frame_task; [exact HF | exact Hok | exact Hd | rewrite <- Hd; exact Hc].
Qed.

Lemma placed_active p p' P : cpus_mask p' = cpus_mask p -> task_cpu p' = task_cpu p -> migration_pending p' = migration_pending p ->
  (state p = TASK_SLEEPING -> on_cpu p = false -> migration_disabled p = 0 ->
   state p' = TASK_SLEEPING /\ on_cpu p' = false /\ migration_disabled p' = 0) -> placed hp p P -> placed hp p' P.
Proof.
  intros E1 E2 E3 Ha. unfold placed. rewrite E1, E2, E3. intros [?|[(?&?&?)|?]]; [left; assumption | right; left; auto | right; right; assumption].
Qed.

Lemma switch_in_keeps b s : Inv b s -> on_rq (m_task s) = TASK_ON_RQ_QUEUED ->
  Inv b (set_task s (with_where (m_task s) (on_rq (m_task s)) true (state (m_task s)))).
Proof.
  intros HI Hq. pose proof (framed_task _ _ _ (i_frame _ _ _ HI)) as [Q1 Q2 Q3 Q4 Q5 Q6 Q7].
  apply inv_task; auto.
  - split; cbn; auto; try discriminate. intros E. destruct (Q4 E) as (? & ? & ? & ?). auto.
  - intros _. apply placed_active; auto. destruct Q6 as [[_ ?]|[? _]]; congruence.
Qed.

Lemma sleep_keeps b s : Inv b s -> runs s = true -> Inv b (set_task s (with_where (m_task s) NOT_ON_RQ true TASK_SLEEPING)).
Proof.
  intros HI Hr. apply runs_spec in Hr as (Hon & Hq & He).
  pose proof (framed_task _ _ _ (i_frame _ _ _ HI)) as [Q1 Q2 Q3 Q4 Q5 Q6 Q7]. apply inv_task; auto.
  - split; cbn; auto; congruence.
  - intros _. apply placed_active; auto. congruence.
Qed.

Lemma switch_out_keeps b s : Inv b s -> on_cpu (m_task s) = true -> m_enabling s = false ->
  Inv b (set_task s (let p := migrate_disable_switch (task_cpu (m_task s)) (m_task s) in with_where p (on_rq p) false (state p))).
Proof.
  intros HI Hon He. pose proof (framed_task _ _ _ (i_frame _ _ _ HI)) as [Q1 Q2 Q3 Q4 Q5 Q6 Q7]. unfold migrate_disable_switch.
  destruct (is_migration_disabled (m_task s)) eqn:Ed; cbn [negb].
  - apply disabled_spec' in Ed. destruct (cpus_ptr_ (m_task s)) as [m|] eqn:Em; apply inv_task; auto; try (intros _; apply placed_active; auto; congruence).
    + split; cbn; rewrite ?Em; auto; congruence.
    + split; cbn; auto; try congruence. intros m [= <-]. split; [reflexivity | lia].
    + intros _. split; [exact Ed | discriminate].
  - apply disabled_spec in Ed. apply inv_task; auto.
    + split; cbn; auto; [lia | congruence].
    + intros _. apply placed_active; auto.
Qed.

(** A wake-up places the task on a CPU that it may use. *)
Lemma wake_keeps b cls node s : Inv b s -> state (m_task s) = TASK_SLEEPING ->
  returns (r ← ttwu_place hp cpuset_fallback cls node (m_task s); Ok (moved s r)) (Inv b).
Proof.
  intros HI Hs. pose proof (framed_task _ _ _ (i_frame _ _ _ HI)) as Hok. unfold ttwu_place.
  set (p := with_where (m_task s) (on_rq (m_task s)) (on_cpu (m_task s)) TASK_WAKING).
  assert (on_rq (m_task s) = NOT_ON_RQ) as Hq by (destruct (t_rq _ _ _ Hok) as [[_ ?]|[? _]]; congruence).
  assert (task_ok hp p (m_enabling s)) as Hp.
  { destruct Hok as [Q1 Q2 Q3 Q4 Q5 Q6 Q7]. split; cbn; auto. }
  destruct (on_cpu p) eqn:Hon; cbn [mbind res_bind].
  - apply returns_ok. apply inv_task; auto. intros _. apply placed_active; auto. cbn in Hon. congruence.
  - destruct (task_allowed hp p _ Hp Hon) as [c Hc]. destruct (select_allowed hp cpuset_fallback cls node p c Hc) as (c' & -> & Hc').
    cbn [mbind res_bind]. apply returns_ok. destruct (allowed_online _ _ _ Hc') as [Hm Ho].
    destruct (decide (migration_disabled p = 0)) as [Ed|Ed].
    + pose proof (own_ptr _ _ _ Hp Ed) as Hown. unfold cpus_ptr in Hm. rewrite Hown in Hm. cbn [default] in Hm.
      destruct (bool_decide_reflect (task_cpu p = c')) as [<-|Hne].
      * apply inv_task; auto. intros _ _. left. exact Hm.
      * unfold moved. rewrite (set_task_cpu_ok hp p _ c' Hp Ed Ho) by (right; reflexivity). cbn [warn_if].
        apply inv_task; auto; try (intros; contradiction); [|intros _ _; left; exact Hm].
        destruct Hp as [Q1 Q2 Q3 Q4 Q5 Q6 Q7]. split; cbn; auto. cbn in *. congruence.
    + assert (c' = task_cpu p) as ->.
      { unfold cpus_ptr in Hm. destruct (cpus_ptr_ p) as [m|] eqn:Em.
        - destruct (t_ptr _ _ _ Hp m Em) as [-> _]. exact (proj1 (elem_of_singleton c' (task_cpu p)) Hm).
        - destruct (t_out _ _ _ Hp); auto. pose proof (t_dis _ _ _ Hp). lia. }
      rewrite bool_decide_true by reflexivity. apply inv_task; auto. intros _. apply placed_active; auto. intros _ _ E. contradiction.
Qed.

Lemma activate_keeps b s : Inv b s -> state (m_task s) = TASK_WAKING -> on_cpu (m_task s) = false ->
  Inv b (set_task s (flush_wakeups (task_cpu (m_task s)) (m_task s))).
Proof.
  intros HI _ _. exact (flush_keeps hp b _ s HI).
Qed.

Lemma balance_keeps b d s : Inv b s -> on_rq (m_task s) = TASK_ON_RQ_QUEUED -> is_migration_disabled (m_task s) = false ->
  Inv b (moved s (__migrate_task hp (m_task s) d)).
Proof.
  intros HI Hq Hd. apply disabled_spec in Hd. pose proof (framed_task _ _ _ (i_frame _ _ _ HI)) as Hok.
  pose proof (own_ptr _ _ _ Hok Hd) as Hown. unfold __migrate_task. destruct (is_cpu_allowed hp (m_task s) d) eqn:Ea; cbn [negb].
  - destruct (allowed_online _ _ _ Ea) as [Hm Ho]. destruct (move_ok hp _ _ _ Hok Hd Hq Ho) as [Hok' Hwarn].
    unfold cpus_ptr in Hm. rewrite Hown in Hm. unfold moved. rewrite Hwarn. apply inv_task; auto; try (intros; contradiction).
    intros _ _. left. exact Hm.
  - unfold moved. cbn [warn_if fst snd]. replace (set_task s (m_task s)) with s by (destruct s; reflexivity). exact HI.
Qed.

(** * Migration disabled and enabled *)

Lemma stray_near s : stray s = false -> near (task_cpu (m_task s)) (m_todo s).
Proof.
  unfold stray. intros Hs x c Hin Hc. destruct (decide (c = task_cpu (m_task s))) as [E|E]; [exact E|].
  apply not_true_iff_false in Hs. destruct Hs. apply existsb_exists. exists x. rewrite Hc, (bool_decide_false _ E). auto.
Qed.

Lemma pinned_add_spec pins c d c' : default 0 (pinned_add pins c d !! c') = default 0 (pins !! c') + if decide (c = c') then d else 0.
Proof.
  unfold pinned_add. destruct (decide (c = c')) as [<-|Hne]; [rewrite lookup_insert_eq | rewrite lookup_insert_ne by exact Hne; cbn; lia].
  reflexivity.
Qed.

Lemma disable_keeps b s : Inv b s -> runs s = true -> (b = true -> stray s = false) ->
  Inv b (set_pinned (set_task s (fst (migrate_disable (m_task s) (m_pinned s)))) (snd (migrate_disable (m_task s) (m_pinned s)))).
Proof.
  intros HI Hr Hs. pose proof (proj1 (runs_spec s) Hr) as (Hon & Hq & He). unfold migrate_disable.
  pose proof (framed_task _ _ _ (i_frame _ _ _ HI)) as Hok. pose proof (t_dis _ _ _ Hok).
  destruct (is_migration_disabled (m_task s)) eqn:Ed; cbn [fst snd].
  - apply disabled_spec' in Ed. apply (inv_disabled hp b s); auto; lia.
  - apply disabled_spec in Ed. pose proof (own_ptr _ _ _ Hok Ed) as Hown. destruct HI as [HR HF HP]. split; cbn.
    + apply (requested_weaken (parked (m_task s)) _ s); [|exact HR]. intros [? _]. contradiction.
    + destruct HF as [F1 F2 F3 F4 F5]. split; cbn; auto.
      * destruct Hok as [Q1 Q2 Q3 Q4 Q5 Q6 Q7]. split; cbn; rewrite ?Hown; auto; congruence || lia.
      * intros c. rewrite pinned_add_spec, F2, decide_False by tauto. destruct (decide (task_cpu (m_task s) = c)) as [E|E].
        -- rewrite decide_True by (split; [lia | exact E]). reflexivity.
        -- rewrite decide_False by tauto. reflexivity.
      * intros Hb _. apply stray_near, Hs, Hb.
    + intros Hb. eapply placed_active; [..|exact (HP Hb)]; auto. congruence.
Qed.

Lemma enabled_keeps b s : Inv b s -> m_enabling s = true ->
  Inv b (set_enabling (set_pinned (set_task s (fst (migrate_enable_clear (m_task s) (m_pinned s))))
    (snd (migrate_enable_clear (m_task s) (m_pinned s)))) false).
Proof.
  intros [HR HF HP] He. pose proof (framed_task _ _ _ HF) as Hok. destruct (t_enabling _ _ _ Hok He) as (Hon & Hd & Hown & Hq).
  split; cbn.
  - apply (requested_weaken (parked (m_task s)) _ s); [|exact HR]. intros [_ ?]. contradiction.
  - destruct HF as [F1 F2 F3 F4 F5]. split; cbn; auto; try (intros; contradiction).
    + destruct Hok as [Q1 Q2 Q3 Q4 Q5 Q6 Q7]. split; cbn; auto; try congruence; lia.
    + intros c. rewrite pinned_add_spec, F2. destruct (decide (task_cpu (m_task s) = c)) as [E|E].
      * rewrite decide_True, decide_False by ((split; [lia | exact E]) || tauto). reflexivity.
      * rewrite !decide_False by tauto. reflexivity.
  - intros Hb. eapply placed_active; [..|exact (HP Hb)]; auto.
Qed.
(** * The push stopper *)

Lemma push_keeps b cpu i lowest s : Inv b s -> m_todo s !! i = Some (Push cpu) ->
  lowest_ok hp (m_task s) lowest = true -> Inv b (push_cpu_stop hp cpu lowest (set_todo s (delete i (m_todo s)))).
Proof.
  intros HI Hi Hl. unfold push_cpu_stop. cbn [m_task set_todo m_busy].
  set (s0 := set_todo s (delete i (m_todo s))).
  assert (forall p, Inv b (set_task s p) -> Inv b (set_busy (set_task s0 p) (m_busy s ∖ {[cpu]}))) as Hdel.
  { intros p [HR HF HP]. split; [|split; try apply HF|exact HP].
    - apply (reqs_counts _ _ _ _ _ _ HR); intros q; cbn; rewrite (count_todo_delete _ _ _ _ Hi); reflexivity.
    - intros c. cbn. pose proof (f_push _ _ _ _ _ _ _ _ HF c) as Hp. cbn in Hp. rewrite (count_todo_delete _ _ _ _ Hi) in Hp. cbn [is_push] in Hp.
      pose proof (count_todo_nonneg (is_push c) (delete i (m_todo s))).
      rewrite (bool_decide_ext (c ∈ m_busy s ∖ {[cpu]}) (c ∈ m_busy s /\ c <> cpu)) by (rewrite elem_of_difference, elem_of_singleton; reflexivity).
      destruct (bool_decide_reflect (cpu = c)) as [->|Hne]; cbn [Z.b2z] in Hp.
      + rewrite (bool_decide_false (_ /\ _)) by tauto. cbn. destruct (bool_decide (c ∈ m_busy s)); cbn in Hp; lia.
      + rewrite (bool_decide_ext (_ /\ _) (c ∈ m_busy s)) by (split; [tauto | auto]). exact Hp.
    - intros Hb Hn x c Hin. exact (f_near _ _ _ _ _ _ _ _ HF Hb Hn x c (in_delete _ _ _ Hin)). }
  pose proof (framed_task _ _ _ (i_frame _ _ _ HI)) as Hok.
  assert (forall v, Inv b (set_task s (with_push (m_task s) v))) as Hv.
  { intros v. apply inv_task; auto. eapply task_ok_alike; [exact Hok | repeat split]. }
  destruct (bool_decide_reflect (task_cpu (m_task s) = cpu)) as [Hc|Hc]; cbn [negb].
  2: { apply (Hdel (m_task s)). destruct s; exact HI. }
  destruct (is_migration_disabled (m_task s)) eqn:Ed; [apply Hdel, Hv|]. destruct lowest as [c|]; [|apply Hdel, Hv].
  cbn [lowest_ok] in Hl. rewrite !andb_true_iff, bool_decide_eq_true, elem_of_intersection in Hl. destruct Hl as [[Hq [Hm Ho]] _].
  apply bool_decide_eq_true in Hq. apply disabled_spec in Ed.
  change (Inv b (let s' := moved s0 (move_queued_task hp (with_push (m_task s) false) c) in set_busy s' (m_busy s' ∖ {[cpu]}))).
  destruct (move_ok hp (with_push (m_task s) false) _ c (f_task _ _ _ _ _ _ _ _ (i_frame _ _ _ (Hv false))) Ed Hq Ho) as [Hok' Hwarn].
  unfold moved. rewrite Hwarn. cbn [warn_if]. apply Hdel. apply inv_task; auto; try (intros; contradiction). intros _ _. left. exact Hm.
Qed.

(** * Callers and what is left to do *)

Lemma done_keeps b i q s : Inv b s -> m_todo s !! i = Some (Complete q) ->
  returns (d ← get_pending (set_todo s (delete i (m_todo s))) q;
           Ok (put_pending (set_todo s (delete i (m_todo s))) q (with_done d))) (Inv b).
Proof.
  intros [HR HF HP] Hi. destruct (reqs_done _ _ _ _ _ _ _ HR Hi) as (d & Hd & HR').
  rewrite (get_pending_ok (set_todo s _) q d Hd). apply returns_ok. split; [exact HR'| |].
  - apply (frame_delete _ _ _ _ _ _ _ _ _ _ HF Hi). reflexivity.
  - intros Hb. eapply placed_put; [exact (HP Hb) | exact Hd | reflexivity].
Qed.

Lemma chase_keeps b i q s : Inv b s -> m_todo s !! i = Some (Chase q) ->
  Inv b (later (Stop (task_cpu (m_task s)) (ArgPending q)) (set_todo s (delete i (m_todo s)))).
Proof.
  intros [HR HF HP] Hi. split; [| |exact HP].
  - apply (reqs_counts _ _ _ _ _ _ HR); intros q'; cbn; rewrite count_todo_cons, (count_todo_delete _ _ _ _ Hi); reflexivity.
  - apply frame_cons; [apply (frame_delete _ _ _ _ _ _ _ _ _ _ HF Hi); reflexivity | reflexivity | intros c [= <-]; reflexivity].
Qed.

Lemma woken_keeps b c q s : Inv b s -> m_callers s !! c = Some (CWaiting q) ->
  exists d, m_pendings s !! q = Some d /\ (done d = true -> returns (caller_woken c q s) (Inv b)).
Proof.
  intros [HR HF HP] Hc. destruct (reqs_woken _ _ _ _ _ _ _ HR Hc) as (d & Hd & _ & HR'). exists d. split; [exact Hd|].
  intros Hdone. unfold caller_woken. rewrite (get_pending_ok _ _ _ Hd). apply returns_ok. split; [exact (HR' Hdone) | exact HF|].
  intros Hb. eapply placed_put; [exact (HP Hb) | exact Hd | reflexivity].
Qed.

Lemma return_keeps b c s : Inv b s -> m_callers s !! c = Some CDraining ->
  match m_pendings s !! c with Some d => refs d =? 0 | None => true end = true -> Inv b (caller_returns c s).
Proof.
  intros [HR HF HP] Hc Hr. destruct (reqs_return _ _ _ _ _ c HR Hc) as [Hs HR'].
  { intros d Hd. rewrite Hd in Hr. apply Z.eqb_eq, Hr. }
  set (gone := set_callers (set_pendings s (delete c (m_pendings s))) (delete c (m_callers s))).
  assert (caller_returns c s = gone) as -> by (unfold caller_returns; destruct (m_pendings s !! c) as [d|] eqn:E; [rewrite (Hs d eq_refl)|]; reflexivity).
  split; [exact HR' | exact HF|]. intros Hb. destruct (HP Hb) as [?|[?|(q & d & Hq & Hd & Hm & Ho)]]; [left; assumption | right; left; assumption|].
  right. right. exists q, d. cbn. rewrite lookup_delete_ne; [auto|]. intros ->. specialize (HR q).
  rewrite Hd in *. inversion HR as [? ? Hcm ? ? [Hw|[_ Hw]] ?|]; [congruence|]. rewrite Hw, Hq in Hcm. count_simpl.
  pose proof (count_todo_nonneg (is_complete q) (m_todo s)). lia.
Qed.

(** * Steps and runs *)

Lemma do_todo_keeps b i lowest x s r : Inv b s -> m_todo s !! i = Some x -> (b = true -> late i s = false) ->
  do_todo hp x lowest (set_todo s (delete i (m_todo s))) = Some r -> returns r (Inv b).
Proof.
  intros HI Hi Hlate. destruct x as [q|cpu arg|cpu [q|d]|q|cpu]; cbn [do_todo]; unfold guard.
  - intros [= <-]. exact (done_keeps b i q s HI Hi).
  - destruct (stopper_runs cpu _); [|discriminate]. intros [= <-]. apply returns_ok. exact (stop_flush_keeps hp b cpu arg i s HI Hi).
  - destruct (off_cpu cpu _) eqn:Es; [|discriminate]. intros [= <-]. exact (stop_pending_keeps hp b cpu q i s HI Es Hi Hlate).
  - destruct (off_cpu cpu _); [|discriminate]. intros [= <-]. apply (stop_dest_keeps hp b cpu d).
    apply (inv_delete hp b s i _ HI Hi); reflexivity.
  - intros [= <-]. apply returns_ok. exact (chase_keeps b i q s HI Hi).
  - destruct (stopper_runs cpu _ && _) eqn:Es; [|discriminate]. apply andb_true_iff in Es as [_ El]. intros [= <-].
    apply returns_ok. exact (push_keeps b cpu i lowest s HI Hi El).
Qed.

(** No step fails, and each keeps the invariant. *)
Lemma step_keeps b l s r : Inv b s -> (b = true -> calm l s) -> step hp cpuset_fallback l s = Some r -> returns r (Inv b).
Proof.
  intros HI Hcalm. destruct l; cbn [step]; unfold guard.
  - destruct (_ && _) eqn:Eg; [|discriminate]. apply andb_true_iff in Eg as [Ec _]. apply bool_decide_eq_true in Ec. intros [= <-].
    eapply returns_bind; [exact (set_cpus_keeps hp b _ _ _ _ _ _ s HI Ec)|]. intros a Ha. apply returns_ok, Ha.
  - destruct (m_todo s !! i) as [x|] eqn:Ei; [|discriminate]. exact (do_todo_keeps b i lowest_rq x s r HI Ei Hcalm).
  - destruct (m_callers s !! c) as [[q|]|] eqn:Ec; try discriminate. destruct (woken_keeps b c q s HI Ec) as (d & -> & Hd).
    destruct (done d); [|discriminate]. intros [= <-]. auto.
  - destruct (_ && _) eqn:Eg; [|discriminate]. apply andb_true_iff in Eg as [Ec Er]. apply bool_decide_eq_true in Ec. intros [= <-].
    apply returns_ok, return_keeps; assumption.
  - destruct (_ && _) eqn:Eg; [|discriminate]. apply andb_true_iff in Eg as [Eq _]. apply andb_true_iff in Eq as [Eq _].
    apply bool_decide_eq_true in Eq. intros [= <-]. apply returns_ok, switch_in_keeps; assumption.
  - destruct (runs s) eqn:Er; [|discriminate]. intros [= <-]. apply returns_ok, sleep_keeps; assumption.
  - destruct (_ && _) eqn:Eg; [|discriminate]. apply andb_true_iff in Eg as [Eo Ee]. apply negb_true_iff in Ee. intros [= <-].
    apply returns_ok. exact (switch_out_keeps b s HI Eo Ee).
  - destruct (bool_decide _) eqn:Es; [|discriminate]. apply bool_decide_eq_true in Es. intros [= <-]. apply wake_keeps; assumption.
  - destruct (_ && _) eqn:Eg; [|discriminate]. apply andb_true_iff in Eg as [Es Eo]. apply bool_decide_eq_true in Es. apply negb_true_iff in Eo.
    intros [= <-]. apply returns_ok, activate_keeps; assumption.
  - destruct (_ && _) eqn:Eg; [|discriminate]. apply andb_true_iff in Eg as [Eq Ed]. apply andb_true_iff in Eq as [Eq _].
    apply bool_decide_eq_true in Eq. apply negb_true_iff in Ed. intros [= <-]. apply returns_ok, balance_keeps; assumption.
  - destruct (runs s) eqn:Er; [|discriminate]. pose proof (disable_keeps b s HI Er Hcalm) as HK.
    destruct (migrate_disable (m_task s) (m_pinned s)). intros [= <-]. apply returns_ok, HK.
  - destruct (_ && _) eqn:Eg; [|discriminate]. apply andb_true_iff in Eg as [Er Ed]. intros [= <-]. apply enable_keeps; assumption.
  - destruct (m_enabling s) eqn:Ee; [|discriminate]. intros [= <-]. apply returns_ok. exact (enabled_keeps b s HI Ee).
  - intros [= <-]. apply returns_ok. destruct HI as [HR HF HP]. split; [| |exact HP].
    + apply (reqs_counts _ _ _ _ _ _ HR); intros q; exact (count_todo_cons _ (Stop (task_cpu (m_task s)) (ArgDest d)) (m_todo s)).
    + apply frame_cons; [exact HF | reflexivity | discriminate].
  - destruct (_ && _) eqn:Eg; [|discriminate]. apply andb_true_iff in Eg as [_ Eb]. apply negb_true_iff, bool_decide_eq_false in Eb. intros [= <-].
    apply returns_ok. destruct HI as [HR HF HP]. destruct (push_ok hp b s _ HF HR Eb) as [HF' HR']. split; [exact HR' | exact HF' | exact HP].
Qed.

(** The machine before anybody asked for anything. *)
Record fresh (s : msys) : Prop := {
  fr_task : task_ok hp (m_task s) false;
  fr_free : migration_disabled (m_task s) = 0 /\ migration_pending (m_task s) = None;
  fr_cpu : task_cpu (m_task s) ∈ cpus_mask (m_task s);
  fr_empty : m_pendings s = ∅ /\ m_todo s = [] /\ m_callers s = ∅ /\ m_enabling s = false /\ m_pinned s = ∅ /\ m_busy s = ∅ /\ m_warned s = []
}.

Lemma fresh_inv b s : fresh s -> Inv b s.
Proof.
  intros [Hok [Hd Hp] Hc (E1 & E2 & E3 & E4 & E5 & E6 & E7)]. split.
  - rewrite Hp, E1, E2, E3. intros q. rewrite lookup_empty. apply req_none; reflexivity || discriminate.
  - rewrite E2, E4, E5, E6, E7. split; auto.
    + intros c. rewrite lookup_empty, decide_False by tauto. reflexivity.
    + intros Hb Hn. contradiction.
    + intros w [].
  - intros _. left. exact Hc.
Qed.

Lemma run_inv b ok s s' : (forall l s, b = true -> ok l s -> calm l s) -> fresh s -> run hp cpuset_fallback ok s s' -> Inv b s'.
Proof.
  intros Hok Hf Hrun. induction Hrun as [|l s1 s2 _ IH Hl Hstep]; [apply fresh_inv, Hf|].
  destruct (step_keeps b l s1 (Ok s2) IH (fun Hb => Hok l s1 Hb Hl) Hstep) as (s3 & [= <-] & HI). exact HI.
Qed.
End Invariant.
