(* ===== verification/AffineLive.v ===== *)
(** From every state that the machine of [AffineRuns] reaches, all callers can
    return: the task leaves its section without migration, the stoppers run,
    the completions happen. *)

From S2P Require Import Prelude KHeaders Affinity AffineMove AffineRuns AffineReqs AffineSafe AffineKeeps AffineInvariant.
Local Open Scope Z_scope.

Section Live.
  Context `{CpumasksOk} (hp : hotplug) `{!Steady hp} (cpuset_fallback : atask -> option cpumask).

#[local] Abbreviation Inv := (Inv hp).
#[local] Abbreviation reaches := (run hp cpuset_fallback anything).
#[local] Abbreviation step := (step hp cpuset_fallback).

Lemma run_trans ok s1 s2 s3 : run hp cpuset_fallback ok s1 s2 -> run hp cpuset_fallback ok s2 s3 -> run hp cpuset_fallback ok s1 s3.
Proof. intros H12 H23. induction H23; [exact H12 | econstructor; eassumption]. Qed.

(** The machine can go on to a state with [Q]. *)
Definition can (s : msys) (Q : msys -> Prop) : Prop := exists s', reaches s s' /\ Inv false s' /\ Q s'.

Lemma can_now s (Q : msys -> Prop) : Inv false s -> Q s -> can s Q.
Proof. intros HI HQ. exists s. split; [constructor | auto]. Qed.

Lemma can_then s (Q Q' : msys -> Prop) : can s Q -> (forall s', Inv false s' -> Q s' -> can s' Q') -> can s Q'.
Proof.
  intros (s' & Hr & HI & HQ) Hn. destruct (Hn s' HI HQ) as (s2 & Hr2 & HI2 & HQ2). exists s2. split; [|auto].
  eapply run_trans; eassumption.
Qed.

(** A step that is possible succeeds. *)
Lemma can_step l s r (Q : msys -> Prop) : Inv false s -> step l s = Some r -> (forall s', r = Ok s' -> Inv false s' -> Q s') -> can s Q.
Proof.
  intros HI Hs HQ. destruct (step_keeps hp cpuset_fallback false l s r HI ltac:(discriminate) Hs) as (s' & -> & HI').
  exists s'. split; [|auto]. econstructor; [constructor | exact I | exact Hs].
Qed.

(** * The task leaves its section without migration *)

(** The task is off its CPU, with [n] in its count. *)
Definition resting (n : Z) (s : msys) : Prop :=
  migration_disabled (m_task s) = n /\ m_enabling s = false /\ on_cpu (m_task s) = false.

Lemma can_rest n s : Inv false s -> migration_disabled (m_task s) = n -> m_enabling s = false -> can s (resting n).
Proof.
  intros HI Hn He. destruct (on_cpu (m_task s)) eqn:Eo; [|apply can_now; [exact HI | repeat split; assumption]].
  eapply (can_step LOut); [exact HI | unfold AffineRuns.step; rewrite Eo, He; reflexivity|]. intros s' [= <-] _. split; [|auto].
  cbn. rewrite <- Hn. unfold migrate_disable_switch. destruct (is_migration_disabled (m_task s)); [|reflexivity].
  destruct (cpus_ptr_ (m_task s)); reflexivity.
Qed.

Lemma stop_move_same dest s : let s' := stop_move hp dest s in m_todo s' = m_todo s /\ m_enabling s' = m_enabling s /\
  migration_disabled (m_task s') = migration_disabled (m_task s) /\ on_cpu (m_task s') = on_cpu (m_task s).
Proof.
  unfold stop_move, moved. destruct (task_on_rq_queued (m_task s)); [|repeat split].
  unfold __migrate_task. destruct (negb (is_cpu_allowed hp (m_task s) dest)); [repeat split|].
  destruct (snd (move_queued_task hp (m_task s) dest)); repeat split.
Qed.

Lemma resting_flush n cpu arg s : resting n s -> resting n (migration_cpu_flush cpu arg s).
Proof. unfold resting, migration_cpu_flush, flush_wakeups. cbn. destruct (bool_decide _); auto. Qed.

Lemma resting_move n dest s : resting n s -> resting n (stop_move hp dest s).
Proof. destruct (stop_move_same dest s) as (_ & M2 & M3 & M4). unfold resting. rewrite M2, M3, M4. auto. Qed.

(** What a stopper leaves to do. One for a request of a task that may migrate completes
    it, or chases the task. *)
Definition leaves (n : Z) (cpu : nat) (arg : migration_arg) (s s' : msys) : Prop :=
  match arg with
  | ArgDest _ => m_todo s' = m_todo s
  | ArgPending q => n <> 0 /\ m_todo s' = m_todo s \/ m_todo s' = Complete q :: m_todo s \/
      m_todo s' = Chase q :: m_todo s /\ task_cpu (m_task s) <> cpu
  end.

Lemma stop_result n cpu arg s s' : resting n s -> migration_cpu_stop hp cpu arg s = Ok s' -> resting n s' /\ leaves n cpu arg s s'.
Proof.
  intros Hr E. unfold migration_cpu_stop in E. destruct arg as [q|d]; cbn [leaves].
  2: { destruct (bool_decide _), (is_migration_disabled (m_task s)); injection E as <-; try (split; [exact Hr | reflexivity]).
       split; [exact (resting_move n d s Hr) | apply stop_move_same]. }
  set (s1 := warn_if _ WOther s) in E.
  assert (m_todo s1 = m_todo s /\ resting n s1 /\ m_task s1 = m_task s) as (G1 & G2 & G3) by (unfold s1; destruct (negb _); auto).
  clearbody s1. rewrite <- G1. clear G1 Hr.
  assert (forall c s2, m_todo s2 = m_todo s1 -> resting n s2 -> stop_out (ArgPending q) c s2 = Ok s' ->
    resting n s' /\ m_todo s' = if c then Complete q :: m_todo s1 else m_todo s1) as Hout.
  { intros c s2 T2 R2 E2. unfold stop_out in E2. apply bind_ok_inv in E2 as (d & _ & [= <-]). rewrite <- T2. destruct c; auto. }
  assert (resting n (set_task s1 (with_pending (m_task s) None))) as Hrest by (rewrite <- G3; exact G2).
  destruct (bool_decide_reflect (task_cpu (m_task s) = cpu)) as [Hc|Hc].
  - destruct (is_migration_disabled (m_task s)) eqn:Ed.
    + destruct (Hout false s1 eq_refl G2 E) as [? ->]. apply disabled_spec' in Ed. split; [assumption|]. left. split; [|reflexivity].
      destruct G2 as [G2 _]. congruence.
    + apply bind_ok_inv in E as (dest & _ & E). apply Hout in E as [? ->]; [auto | |]; destruct (bool_decide _); auto.
      * exact (proj1 (stop_move_same dest _)).
      * apply resting_move, Hrest.
  - destruct (bool_decide _); [apply Hout in E as [? ->]; auto|]. apply bind_ok_inv in E as (d & _ & [= <-]).
    destruct (negb (stop_pending d)); auto.
Qed.

(** * The stoppers that have flushed go on *)

Definition flushed (x : todo) : bool := match x with Flushed _ _ => true | _ => false end.

Definition quiet (T : list todo) : Prop := forall x, In x T -> flushed x = false.

Lemma quiet_stopping cpu s : quiet (m_todo s) -> stopping cpu s = false.
Proof.
  intros Hq. apply not_true_iff_false. intros E. unfold stopping in E. apply existsb_exists in E as (x & Hx & E).
  specialize (Hq x Hx). destruct x; discriminate.
Qed.

Lemma resting_off n cpu s : resting n s -> off_cpu cpu s = true.
Proof. intros (_ & _ & E). unfold off_cpu. rewrite E. reflexivity. Qed.

Lemma can_locked n i cpu arg s : Inv false s -> resting n s -> m_todo s !! i = Some (Flushed cpu arg) ->
  can s (fun s' => resting n s' /\ leaves n cpu arg (set_todo s (delete i (m_todo s))) s').
Proof.
  intros HI Hr Hi. eapply (can_step (LDo i None)); [exact HI | |].
  - unfold AffineRuns.step. rewrite Hi. cbn [do_todo]. rewrite (resting_off n) by exact Hr. reflexivity.
  - intros s' E _. exact (stop_result n cpu arg (set_todo s _) s' Hr E).
Qed.

Lemma can_quiet n s : Inv false s -> resting n s -> can s (fun s' => resting n s' /\ quiet (m_todo s')).
Proof.
  remember (Z.to_nat (count_todo flushed (m_todo s))) as k eqn:Ek. revert s Ek. induction k as [|k IH]; intros s Ek HI Hr;
    pose proof (count_todo_nonneg flushed (m_todo s)) as Hpos.
  - apply can_now; [exact HI|]. split; [exact Hr|]. intros x Hx. apply not_true_iff_false. intros E.
    apply list_elem_of_In, list_elem_of_lookup in Hx as [i Hi]. pose proof (count_todo_delete flushed _ _ _ Hi) as Hd. rewrite E in Hd.
    pose proof (count_todo_nonneg flushed (delete i (m_todo s))). cbn in Hd. lia.
  - destruct (count_todo_pos flushed (m_todo s)) as (x & Hx & Ex); [lia|].
    apply list_elem_of_In, list_elem_of_lookup in Hx as [i Hi]. pose proof (count_todo_delete flushed _ _ _ Hi) as Hd. rewrite Ex in Hd.
    destruct x as [|cpu' arg'|cpu arg|q|cpu']; try discriminate. eapply can_then; [exact (can_locked n i cpu arg s HI Hr Hi)|].
    intros s' HI' [Hr' Hl]. apply (IH s'); [|exact HI' | exact Hr']. cbn in Hd, Hl.
    destruct arg as [q|d]; cbn in Hl; [destruct Hl as [[_ ->]|[->|[-> _]]] | rewrite Hl]; rewrite ?count_todo_cons; cbn; lia.
Qed.

Lemma can_queue n s : Inv false s -> resting n s -> can s (fun s' => resting n s' /\ on_rq (m_task s') = TASK_ON_RQ_QUEUED /\ m_todo s' = m_todo s).
Proof.
  intros HI [Hn [He Ho]]. pose proof (framed_task _ _ _ (i_frame _ _ _ HI)) as Hok.
  assert (forall s', Inv false s' -> resting n s' /\ state (m_task s') = TASK_WAKING /\ m_todo s' = m_todo s ->
    can s' (fun s'' => resting n s'' /\ on_rq (m_task s'') = TASK_ON_RQ_QUEUED /\ m_todo s'' = m_todo s)) as Hact.
  { intros s' HI' [[Hn' [He' Ho']] [Hw HT]]. eapply (can_step LActivate); [exact HI' | unfold AffineRuns.step; rewrite Hw, Ho'; reflexivity|].
    intros s2 [= <-] _. unfold flush_wakeups. rewrite bool_decide_true by auto. repeat split; assumption. }
  destruct (t_rq _ _ _ Hok) as [[Hq _]|[Hq Hs]]; [apply can_now; [exact HI | repeat split; assumption]|].
  destruct (state (m_task s)) eqn:Es; [contradiction | apply Hact; [exact HI | repeat split; assumption]|].
  eapply can_then; [|exact Hact].
  eapply (can_step (LWake 0 None)); [exact HI | unfold AffineRuns.step; rewrite Es; reflexivity|]. intros s' E _. revert E. unfold ttwu_place.
  set (p := with_where (m_task s) _ _ TASK_WAKING). replace (on_cpu p) with false by (symmetry; exact Ho).
  assert (task_ok hp p (m_enabling s)) as Hp by (destruct Hok as [Q1 Q2 Q3 Q4 Q5 Q6 Q7]; split; cbn; auto).
  destruct (task_allowed hp p _ Hp Ho) as [c Hc]. destruct (select_allowed hp cpuset_fallback 0 None p c Hc) as (c' & -> & _).
  cbn [mbind res_bind]. unfold moved. destruct (bool_decide (task_cpu p = c')); [intros [= <-]; repeat split; assumption|].
  destruct (snd (set_task_cpu hp p c')) eqn:Ew; cbn [warn_if]; intros [= <-]; repeat split; assumption.
Qed.

Lemma can_enabled s : Inv false s -> m_enabling s = true -> can s (fun s' => migration_disabled (m_task s') = 0 /\ m_enabling s' = false).
Proof.
  intros HI He. eapply (can_step LEnabled); [exact HI | unfold AffineRuns.step; rewrite He; reflexivity|]. intros s' [= <-] _. auto.
Qed.

Lemma can_enable (k : nat) s : Inv false s -> m_enabling s = false -> migration_disabled (m_task s) = Z.of_nat k -> can s (resting 0).
Proof.
  revert s. induction k as [|k IH]; intros s HI He Hk; [apply can_rest; assumption|].
  eapply can_then; [apply (can_rest _ s HI eq_refl He)|]. intros s1 HI1 Hr1. eapply can_then; [apply (can_quiet _ s1 HI1 Hr1)|].
  clear s1 HI1 Hr1. intros s1 HI1 [Hr1 HQ]. eapply can_then; [apply (can_queue _ s1 HI1 Hr1)|].
  clear HI1 Hr1. intros s0 HI1 [[Hn1 [He1 Ho1]] [Hq1 HT1]]. rewrite <- HT1 in HQ. clear s1 HT1. rename s0 into s1.
  eapply can_then; [eapply (can_step LIn s1 _ (fun s' => runs s' = true /\ migration_disabled (m_task s') = Z.of_nat (S k))); [exact HI1 | |]|].
  { unfold AffineRuns.step, task_on_rq_queued. rewrite bool_decide_true, Ho1, quiet_stopping by assumption. reflexivity. }
  { intros s' [= <-] _. split; [apply runs_spec; auto | cbn; lia]. }
  intros s2 HI2 [Hr2 Hn2]. pose proof (proj1 (runs_spec s2) Hr2) as (_ & _ & He2).
  eapply can_then; [eapply (can_step (LEnable 0 0) s2 _ (fun s' => (m_enabling s' = false /\ migration_disabled (m_task s') = Z.of_nat k) \/ m_enabling s' = true)); [exact HI2 | |]|].
  { unfold AffineRuns.step. rewrite Hr2, (proj2 (disabled_spec' (m_task s2))) by lia. reflexivity. }
  { intros s' E _. revert E. unfold migrate_enable. rewrite Hn2. destruct (Z.ltb_spec 1 (Z.of_nat (S k))).
    - intros [= <-]. left. cbn. split; [exact He2 | lia].
    - intros E. right. apply bind_ok_inv in E as (s3 & _ & [= <-]). reflexivity. }
  intros s3 HI3 [[He3 Hk3]|He3]; [apply IH; assumption|].
  eapply can_then; [apply can_enabled; assumption|]. intros s4 HI4 [Hd4 He4]. apply can_rest; assumption.
Qed.

(** * The list of what is left to do becomes empty *)

Lemma can_done q T s : Inv false s -> resting 0 s -> m_todo s = Complete q :: T -> can s (fun s' => resting 0 s' /\ m_todo s' = T).
Proof.
  intros HI Hr HT. eapply (can_step (LDo 0 None)); [exact HI | unfold AffineRuns.step; rewrite HT; reflexivity|].
  intros s' E _. apply bind_ok_inv in E as (d & _ & [= <-]). split; [exact Hr | reflexivity].
Qed.

(** Both parts of a stopper. *)
Lemma can_stop cpu arg T s : Inv false s -> resting 0 s -> quiet T -> m_todo s = Stop cpu arg :: T ->
  can s (fun s' => resting 0 s' /\ match arg with
    | ArgDest _ => m_todo s' = T
    | ArgPending q => m_todo s' = Complete q :: T \/ m_todo s' = Chase q :: T /\ task_cpu (m_task s) <> cpu end).
Proof.
  intros HI Hr HQ HT. eapply can_then.
  { eapply (can_step (LDo 0 None) s _ (fun s' => resting 0 s' /\ m_todo s' = Flushed cpu arg :: T /\ task_cpu (m_task s') = task_cpu (m_task s))); [exact HI | |].
    - unfold AffineRuns.step. rewrite HT. cbn. unfold stopper_runs. rewrite (resting_off 0), quiet_stopping by assumption. reflexivity.
    - intros s' [= <-] _. split; [apply resting_flush, Hr|]. split; [reflexivity|]. cbn. unfold flush_wakeups. destruct (bool_decide _); reflexivity. }
  intros s1 HI1 (Hr1 & HT1 & Ec). eapply can_then; [apply (can_locked 0 0 cpu arg s1 HI1 Hr1); rewrite HT1; reflexivity|].
  intros s2 HI2 [Hr2 Hl]. apply can_now; [exact HI2|]. split; [exact Hr2|]. rewrite HT1 in Hl.
  destruct arg; cbn in Hl; [rewrite Ec in Hl; destruct Hl as [[? _]|Hl]; [contradiction|] | ]; exact Hl.
Qed.

Lemma can_chase q T s : Inv false s -> resting 0 s -> quiet T -> m_todo s = Chase q :: T -> can s (fun s' => resting 0 s' /\ m_todo s' = T).
Proof.
  intros HI Hr HQ HT. eapply can_then.
  { eapply (can_step (LDo 0 None) s _ (fun s' => resting 0 s' /\ m_todo s' = Stop (task_cpu (m_task s')) (ArgPending q) :: T)); [exact HI | |].
    - unfold AffineRuns.step. rewrite HT. reflexivity.
    - intros s' [= <-] _. split; [exact Hr | reflexivity]. }
  intros s2 HI2 [Hr2 HT2]. eapply can_then; [exact (can_stop _ _ T s2 HI2 Hr2 HQ HT2)|].
  intros s3 HI3 [Hr3 [HT3|[_ Hn]]]; [exact (can_done q T s3 HI3 Hr3 HT3) | contradiction].
Qed.

Lemma can_head x T s : Inv false s -> resting 0 s -> quiet (x :: T) -> m_todo s = x :: T -> can s (fun s' => resting 0 s' /\ m_todo s' = T).
Proof.
  intros HI Hr HQ HT. assert (quiet T) as HQT by (intros y Hy; apply HQ; right; exact Hy).
  destruct x as [q|cpu arg|cpu arg|q|cpu]; [exact (can_done q T s HI Hr HT) | | | exact (can_chase q T s HI Hr HQT HT) | ].
  - eapply can_then; [exact (can_stop cpu arg T s HI Hr HQT HT)|]. intros s' HI' [Hr' HT']. destruct arg as [q|d]; [|apply can_now; auto].
    destruct HT' as [HT'|[HT' _]]; [exact (can_done q T s' HI' Hr' HT') | exact (can_chase q T s' HI' Hr' HQT HT')].
  - specialize (HQ (Flushed cpu arg) (or_introl eq_refl)). discriminate.
  - eapply (can_step (LDo 0 None)); [exact HI | |].
    + unfold AffineRuns.step. rewrite HT. cbn. unfold stopper_runs. rewrite (resting_off 0), quiet_stopping by assumption. reflexivity.
    + intros s' [= <-] _. unfold push_cpu_stop. cbn [m_task set_todo]. destruct Hr as [R1 [R2 R3]].
      destruct (negb _); [repeat split; assumption|]. destruct (is_migration_disabled (m_task s)); repeat split; assumption.
Qed.

Lemma can_empty s : Inv false s -> resting 0 s -> can s (fun s' => resting 0 s' /\ m_todo s' = []).
Proof.
  intros HI Hr. eapply can_then; [exact (can_quiet 0 s HI Hr)|]. clear s HI Hr. intros s HI [Hr HQ].
  remember (m_todo s) as T eqn:ET. symmetry in ET. revert s ET HI Hr. induction T as [|x T IH]; intros s ET HI Hr.
  - apply can_now; auto.
  - eapply can_then; [exact (can_head x T s HI Hr HQ ET)|]. intros s' HI' [Hr' HT'].
    apply (IH ltac:(intros y Hy; apply HQ; right; exact Hy) s' HT' HI' Hr').
Qed.

(** * The callers return *)

Definition idle (s : msys) : Prop := resting 0 s /\ m_todo s = [].

(** With nothing left to do, every request is completed. *)
Lemma idle_done s q d : Inv false s -> idle s -> m_pendings s !! q = Some d -> done d = true.
Proof.
  intros HI [[Hd _] HT] Hq. pose proof (i_req _ _ _ HI q) as HR. rewrite Hq, HT in HR.
  inversion HR as [? Hs Hc Hm Hr Ho Hp|]; subst. cbn in Hs, Hc.
  destruct (done d); [reflexivity|]. destruct (bool_decide_reflect (migration_pending (m_task s) = Some q)) as [E|E]; [|discriminate].
  destruct (stop_pending d); [discriminate|]. destruct (Hp E eq_refl) as [? _]. contradiction.
Qed.

Lemma can_wake_all (n : nat) s : Inv false s -> idle s -> size (filter (fun kv => kv.2 <> CDraining) (m_callers s)) = n ->
  can s (fun s' => idle s' /\ forall c x, m_callers s' !! c = Some x -> x = CDraining).
Proof.
  revert s. induction n as [|n IH]; intros s HI Hi Hn.
  - apply can_now; [exact HI|]. split; [exact Hi|]. intros c x Hc. apply map_size_empty_inv in Hn.
    destruct (decide (x = CDraining)) as [E|E]; [exact E|]. assert (filter (fun kv => kv.2 <> CDraining) (m_callers s) !! c = Some x) as Hf
      by (apply map_lookup_filter_Some; auto). rewrite Hn, lookup_empty in Hf. discriminate.
  - destruct (map_choose (filter (fun kv => kv.2 <> CDraining) (m_callers s))) as (c & x & Hf).
    { intros E. rewrite E, map_size_empty in Hn. discriminate. }
    pose proof Hf as Hf'. apply map_lookup_filter_Some in Hf as [Hc Hx]. cbn in Hx. destruct x as [q|]; [|contradiction].
    destruct (woken_keeps hp false c q s HI Hc) as (d & Hd & _). pose proof (idle_done s q d HI Hi Hd) as Hdone.
    eapply can_then; [eapply (can_step (LWoken c) s _ (fun s' => idle s' /\ m_callers s' = <[c := CDraining]> (m_callers s))); [exact HI | |]|].
    + unfold AffineRuns.step. rewrite Hc, Hd, Hdone. reflexivity.
    + intros s' E _. unfold caller_woken in E. rewrite (get_pending_ok _ _ _ Hd) in E. injection E as <-. split; [exact Hi | reflexivity].
    + intros s' HI' [Hi' Hc']. apply (IH s' HI' Hi'). rewrite Hc', map_filter_insert_False, map_filter_delete by (cbn; tauto).
      rewrite map_size_delete, Hf'. lia.
Qed.

Lemma can_return_all (n : nat) s : Inv false s -> idle s -> (forall c x, m_callers s !! c = Some x -> x = CDraining) ->
  size (m_callers s) = n -> can s (fun s' => m_callers s' = ∅).
Proof.
  revert s. induction n as [|n IH]; intros s HI Hi Hall Hn.
  - apply can_now; [exact HI|]. apply map_size_empty_inv, Hn.
  - destruct (map_choose (m_callers s)) as (c & x & Hc).
    { intros E. rewrite E, map_size_empty in Hn. discriminate. }
    pose proof (Hall c x Hc) as ->.
    eapply can_then; [eapply (can_step (LReturn c) s _ (fun s' => idle s' /\ m_callers s' = delete c (m_callers s))); [exact HI | |]|].
    + unfold AffineRuns.step. rewrite bool_decide_true by exact Hc. cbn [andb].
      assert (match m_pendings s !! c with Some d => refs d =? 0 | None => true end = true) as ->; [|reflexivity].
      destruct (m_pendings s !! c) as [d|] eqn:Hd; [|reflexivity]. apply Z.eqb_eq. pose proof (i_req _ _ _ HI c) as HR. rewrite Hd in HR.
      inversion HR as [? ? ? ? Hr ? ?|]; subst. rewrite Hr. unfold waiters.
      assert (filter (fun kv => kv.2 = CWaiting c) (m_callers s) = ∅) as ->; [|reflexivity].
      apply map_empty. intros c'. apply map_lookup_filter_None. right. intros x' Hc' E. cbn in E. rewrite (Hall c' x' Hc') in E. discriminate.
    + intros s' [= <-] _. unfold caller_returns. destruct (m_pendings s !! c) as [d|]; [destruct (stop_pending d)|]; (split; [exact Hi | reflexivity]).
    + intros s' HI' [Hi' Hc']. apply (IH s' HI' Hi').
      * intros c' x' Hx. rewrite Hc' in Hx. apply lookup_delete_Some in Hx as [_ Hx]. exact (Hall c' x' Hx).
      * rewrite Hc', map_size_delete, Hc. lia.
Qed.

(** Everybody can return. *)
Lemma can_finish s : Inv false s -> can s (fun s' => m_callers s' = ∅).
Proof.
  intros HI. assert (can s (resting 0)) as Hrest.
  { destruct (m_enabling s) eqn:He.
    - eapply can_then; [exact (can_enabled s HI He)|]. intros s' HI' [Hd He']. apply can_rest; assumption.
    - apply (can_enable (Z.to_nat (migration_disabled (m_task s)))); auto.
      pose proof (t_dis _ _ _ (framed_task _ _ _ (i_frame _ _ _ HI))). lia. }
  eapply can_then; [exact Hrest|]. clear s HI Hrest. intros s HI Hr. eapply can_then; [exact (can_empty s HI Hr)|].
  clear s HI Hr. intros s HI Hi. eapply can_then; [exact (can_wake_all _ s HI Hi eq_refl)|]. clear s HI Hi.
  intros s HI [Hi Hall]. exact (can_return_all _ s HI Hi Hall eq_refl).
Qed.
End Live.
