(* ===== verification/SetAffinity.v ===== *)
(** The callers of [__set_cpus_allowed_ptr] in src/3/20193018_PLUS-1/core.c: the
    system calls that set and read the CPUs of a task, the restriction of a task to
    the CPUs that can run it, and copies of the mask that the user asked for. A
    call that waits is followed up to the point where it drops the locks:
    [AffineMove] has the rest. At the end, what the bytes of a mask are. *)

From S2P Require Import Prelude KHeaders Uclamp Priority Setscheduler Affinity AffineMove.
Local Open Scope Z_scope.

Definition ENOMEM : Z := 12.

(** * Masks as bytes *)

(** Bit [i] of a mask is bit [i mod 8] of byte [i / 8]. *)
Definition bit_of (l : list Z) (i : nat) : bool := Z.testbit (nth (i / 8) l 0) (Z.of_nat (i mod 8)).

Definition cpumask_of_bytes (l : list Z) : cpumask :=
  list_to_set (List.filter (bit_of l) (seq 0 (8 * length l))).

Definition byte_of (m : cpumask) (k : nat) : Z :=
  fold_right (fun j acc => (if bool_decide ((8 * k + j)%nat ∈ m) then 2 ^ Z.of_nat j else 0) + acc) 0 (seq 0 8).

Definition bytes_of_cpumask (n : nat) (m : cpumask) : list Z := map (byte_of m) (seq 0 n).

(** User memory: the bytes that can be read or written from the pointer on.
    A copy of more is a fault. *)
Definition copy_from_user (mem : list Z) (n : nat) : option (list Z) :=
  if (n <=? length mem)%nat then Some (take n mem) else None.

Definition copy_to_user (mem bytes : list Z) : option (list Z) :=
  if (length bytes <=? length mem)%nat then Some (bytes ++ drop (length bytes) mem) else None.

(** What the deadline class and the root domain of the task's queue say. *)
Record dl_world := mkDl { dl_bandwidth_on : bool; rd_span : cpumask; dl_cpu_busy : nat -> Z; dl_can_shrink : cpumask -> cpumask -> Z }.

Section SetAffinity.
  Context `{Cpumasks} (hp : hotplug) (dl : dl_world) (cpumask_size : nat).

(** What a call returns; one that waits returns 0 in the end. *)
Definition result_of (o : outcome) : Z := match o with Returns e => e | Waits _ => 0 end.

(** * Checks *)

Definition dl_task_check_affinity (p : atask) (mask : cpumask) : Z :=
  if negb (has_dl_policy (flags p)) || negb (dl_bandwidth_on dl) then 0
  else if negb (bool_decide (rd_span dl ⊆ mask)) then - EBUSY else 0.

Definition cpuset_cpumask_can_shrink (cur trial : cpumask) : Z :=
  if bool_decide (size cur = 0%nat) then 1 else dl_can_shrink dl cur trial.

Definition task_can_attach (p : atask) (cs_effective_cpus : cpumask) : Z :=
  if PF_NO_SETAFFINITY (flags p) then - EINVAL
  else if dl_task (flags p) && bool_decide (rd_span dl ∩ cs_effective_cpus = ∅) then
    let cpu := cpumask_any (cpu_active_mask hp ∩ cs_effective_cpus) in
    if (nr_cpu_ids <=? cpu)%nat then - EINVAL else dl_cpu_busy dl cpu
  else 0.

(** * Setting a mask *)

Definition set_cpus_allowed_ptr (me : nat) (self : bool) (prev : nat) (new_mask : cpumask) (s : msys) : res (msys * Z) :=
  r ← __set_cpus_allowed_ptr hp me self prev (Some new_mask) no_sca s; Ok (fst r, result_of (snd r)).

(** The label [again]. [back] has, for each call, the state in which it returns
    and what [cpuset_cpus_allowed] then answers. *)
Fixpoint setaffinity_again (me : nat) (self : bool) (prev : nat) (new_mask : cpumask) (back : list (msys * cpumask)) (s : msys) : res (msys * Z) :=
  r ← __set_cpus_allowed_ptr hp me self prev (Some new_mask) sca_check_user s;
  let '(s, o) := r in
  if negb (result_of o =? 0) then Ok (s, result_of o)
  else match back with
  | [] => Diverge
  | (s, cpus_allowed) :: back =>
      if negb (bool_decide (new_mask ⊆ cpus_allowed)) then setaffinity_again me self prev cpus_allowed back s
      else Ok (s, 0)
  end.

(** [alloc1] and [alloc2] tell whether there is memory for the two masks. *)
Definition __sched_setaffinity (alloc1 alloc2 : bool) (me : nat) (self : bool) (prev : nat) (mask cpus_allowed : cpumask)
    (back : list (msys * cpumask)) (s : msys) : res (msys * Z) :=
  if negb alloc1 then Ok (s, - ENOMEM)
  else if negb alloc2 then Ok (s, - ENOMEM)
  else
    let new_mask := mask ∩ cpus_allowed in
    let retval := dl_task_check_affinity (m_task s) new_mask in
    if negb (retval =? 0) then Ok (s, retval) else setaffinity_again me self prev new_mask back s.

(** [k] is [None] when there is no such process, else its credentials. *)
Definition sched_setaffinity (c : Caller) (k : option KTask) (alloc1 alloc2 : bool) (me : nat) (self : bool) (prev : nat)
    (in_mask cpus_allowed : cpumask) (back : list (msys * cpumask)) (s : msys) : res (msys * Z) :=
  match k with
  | None => Ok (s, - ESRCH)
  | Some k =>
      if PF_NO_SETAFFINITY (flags (m_task s)) then Ok (s, - EINVAL)
      else if negb (check_same_owner c k) && negb (cap_sys_nice c) then Ok (s, - EPERM)
      else if negb (security c =? 0) then Ok (s, security c)
      else __sched_setaffinity alloc1 alloc2 me self prev in_mask cpus_allowed back s
  end.

Definition get_user_cpu_mask (mem : list Z) (len : Z) : option cpumask :=
  let len := if Z.of_nat cpumask_size <? len then Z.of_nat cpumask_size else len in
  option_map cpumask_of_bytes (copy_from_user mem (Z.to_nat len)).

Definition sys_sched_setaffinity (c : Caller) (k : option KTask) (alloc0 alloc1 alloc2 : bool) (me : nat) (self : bool) (prev : nat)
    (len : Z) (mem : list Z) (cpus_allowed : cpumask) (back : list (msys * cpumask)) (s : msys) : res (msys * Z) :=
  if negb alloc0 then Ok (s, - ENOMEM)
  else match get_user_cpu_mask mem len with
  | None => Ok (s, - EFAULT)
  | Some new_mask => sched_setaffinity c k alloc1 alloc2 me self prev new_mask cpus_allowed back s
  end.

(** * Reading the mask *)

Definition sched_getaffinity (k : option KTask) (sec : Z) (p : atask) : Z * cpumask :=
  match k with
  | None => (- ESRCH, ∅)
  | Some _ => if negb (sec =? 0) then (sec, ∅) else (0, cpus_mask p ∩ cpu_active_mask hp)
  end.

(** What is returned, and the user's memory. *)
Definition sys_sched_getaffinity (k : option KTask) (sec : Z) (alloc : bool) (len : Z) (mem : list Z) (p : atask) : Z * list Z :=
  if u32 (len * 8) <? Z.of_nat nr_cpu_ids then (- EINVAL, mem)
  else if negb (Z.land len 7 =? 0) then (- EINVAL, mem)
  else if negb alloc then (- ENOMEM, mem)
  else
    let '(ret, m) := sched_getaffinity k sec p in
    if negb (ret =? 0) then (ret, mem)
    else
      let retlen := Z.min len (Z.of_nat cpumask_size) in
      match copy_to_user mem (take (Z.to_nat retlen) (bytes_of_cpumask cpumask_size m)) with
      | None => (- EFAULT, mem)
      | Some mem => (retlen, mem)
      end.

(** * The mask that the user asked for *)

Definition clear_user_cpus_ptr (p : atask) : atask := with_user_ptr p None.

Definition release_user_cpus_ptr (p : atask) : atask := clear_user_cpus_ptr p.

Definition dup_user_cpus_ptr (alloc : bool) (dst src : atask) : atask * Z :=
  let dst := with_user_ptr dst None in
  match user_cpus_ptr src with
  | None => (dst, 0)
  | Some m => if negb alloc then (dst, - ENOMEM) else (with_user_ptr dst (Some m), 0)
  end.

Definition restrict_cpus_allowed_ptr (alloc : bool) (me : nat) (self : bool) (prev : nat) (subset_mask : cpumask) (s : msys) : res (msys * Z) :=
  let p := m_task s in
  let fresh := bool_decide (user_cpus_ptr p = None) in
  if fresh && negb alloc then Ok (s, - ENOMEM)
  else if has_dl_policy (flags p) && dl_bandwidth_on dl then Ok (s, - EPERM)
  else
    let new_mask := cpus_mask p ∩ subset_mask in
    if bool_decide (new_mask = ∅) then Ok (s, - EINVAL)
    else
      let p := if fresh then with_user_ptr p (Some (cpus_ptr p)) else p in
      r ← __set_cpus_allowed_ptr_locked hp me self prev (Some new_mask) no_sca (set_task s p);
      Ok (fst r, result_of (snd r)).

(** With the result of the last call, of which a warning is given when it is
    not 0. *)
Definition force_compatible_cpus_allowed_ptr (alloc0 alloc1 : bool) (me : nat) (self : bool) (prev : nat) (cpuset_mask : cpumask) (s : msys) : res (msys * Z) :=
  let override_mask := task_cpu_possible_mask hp in
  if negb alloc0 then set_cpus_allowed_ptr me self prev override_mask s
  else
    r ← restrict_cpus_allowed_ptr alloc1 me self prev override_mask s;
    let '(s, e) := r in
    if e =? 0 then Ok (s, 0) else set_cpus_allowed_ptr me self prev cpuset_mask s.

Definition relax_compatible_cpus_allowed_ptr (alloc1 alloc2 : bool) (me : nat) (self : bool) (prev : nat) (cpus_allowed : cpumask)
    (back : list (msys * cpumask)) (s : msys) : res msys :=
  match user_cpus_ptr (m_task s) with
  | None => Ok s
  | Some user_mask =>
      r ← __sched_setaffinity alloc1 alloc2 me self prev user_mask cpus_allowed back s;
      let '(s, e) := r in
      if e =? 0 then Ok s else Ok (set_task s (clear_user_cpus_ptr (m_task s)))
  end.

(** * A move asked for by the balancer of memory nodes *)

Definition migrate_task_to (target_cpu : nat) (s : msys) : msys * Z :=
  let p := m_task s in
  if bool_decide (task_cpu p = target_cpu) then (s, 0)
  else if negb (bool_decide (target_cpu ∈ cpus_ptr p)) then (s, - EINVAL)
  else (later (Stop (task_cpu p) (ArgDest target_cpu)) s, 0).
End SetAffinity.

(** * Masks and their bytes *)

(** A sum of distinct powers of two has the bits that were added. *)
Lemma sum_bits (b : nat -> bool) k a :
  let r := fold_right (fun i acc => (if b i then 2 ^ Z.of_nat i else 0) + acc) 0 (seq a k) in
  (exists q, r = 2 ^ Z.of_nat a * q) /\ forall j, (a <= j < a + k)%nat -> Z.testbit r (Z.of_nat j) = b j.
Proof.
  revert a. induction k as [|k IH]; intros a r; [split; [exists 0; cbn; lia | lia]|].
  destruct (IH (S a)) as [[q Hq] IHb]. cbn [seq fold_right] in r. set (r' := fold_right _ 0 (seq (S a) k)) in *.
  rewrite Nat2Z.inj_succ, Z.pow_succ_r in Hq by lia.
  assert (r = (Z.b2z (b a) + 2 * q) * 2 ^ Z.of_nat a) as Hr by (unfold r; rewrite Hq; destruct (b a); cbn [Z.b2z]; lia).
  split; [exists (Z.b2z (b a) + 2 * q); lia|]. intros j Hj. destruct (decide (j = a)) as [->|Hne].
  - rewrite Hr, Z.mul_pow2_bits, Z.sub_diag by lia. apply Z.add_b2z_double_bit0.
  - rewrite <- (IHb j) by lia. replace r' with ((2 * q) * 2 ^ Z.of_nat a) by lia. rewrite Hr, !Z.mul_pow2_bits by lia.
    replace (Z.of_nat j - Z.of_nat a) with (Z.succ (Z.of_nat j - Z.of_nat a - 1)) by lia.
    replace (2 * q) with (2 * q + Z.b2z false) at 2 by (cbn; lia). rewrite (Z.add_comm (Z.b2z (b a))), !Z.testbit_succ_r by lia. reflexivity.
Qed.

Lemma byte_of_bit m k j : (j < 8)%nat -> Z.testbit (byte_of m k) (Z.of_nat j) = bool_decide ((8 * k + j)%nat ∈ m).
Proof. intros Hj. apply (proj2 (sum_bits (fun j => bool_decide ((8 * k + j)%nat ∈ m)) 8 0)). lia. Qed.

Lemma bit_of_bytes n m i : (i < 8 * n)%nat -> bit_of (bytes_of_cpumask n m) i = bool_decide (i ∈ m).
Proof.
  intros Hi. unfold bit_of, bytes_of_cpumask. pose proof (Nat.div_mod_eq i 8) as Hdiv. pose proof (Nat.mod_upper_bound i 8 ltac:(lia)).
  assert (i / 8 < n)%nat by (apply Nat.Div0.div_lt_upper_bound; lia).
  rewrite (nth_indep _ 0 (byte_of m 0)) by (rewrite length_map, length_seq; assumption). rewrite map_nth, seq_nth by assumption.
  rewrite byte_of_bit by assumption. cbn [Nat.add]. rewrite <- Hdiv. reflexivity.
Qed.

Lemma elem_of_bytes l i : i ∈ cpumask_of_bytes l <-> (i < 8 * length l)%nat /\ bit_of l i = true.
Proof.
  unfold cpumask_of_bytes. rewrite elem_of_list_to_set, list_elem_of_In, filter_In, in_seq. split; intros [? ?]; (split; [lia | assumption]).
Qed.

(** Reading back the bytes of a mask. *)
Lemma bytes_roundtrip n m : (forall i, i ∈ m -> (i < 8 * n)%nat) -> cpumask_of_bytes (bytes_of_cpumask n m) = m.
Proof.
  intros Hm. apply set_eq. intros i. rewrite elem_of_bytes. unfold bytes_of_cpumask at 1. rewrite length_map, length_seq. split.
  - intros [Hi Hb]. rewrite bit_of_bytes in Hb by exact Hi. apply bool_decide_eq_true in Hb. exact Hb.
  - intros Hi. split; [exact (Hm i Hi)|]. rewrite bit_of_bytes by exact (Hm i Hi). apply bool_decide_eq_true. exact Hi.
Qed.

Lemma take_bytes n k m : (k <= n)%nat -> take k (bytes_of_cpumask n m) = bytes_of_cpumask k m.
Proof.
  intros Hk. unfold bytes_of_cpumask. rewrite firstn_map. f_equal. replace n with (k + (n - k))%nat by lia.
  rewrite seq_app. replace k with (length (seq 0 k)) at 1 by apply length_seq. apply take_app_length.
Qed.
