(* ===== verification/AffineTheorems.v ===== *)
(** What the changes of a task's CPUs guarantee: the theorems about the machine
    of [AffineRuns] and about the system calls of [SetAffinity]. *)

From S2P Require Import Prelude KHeaders Uclamp Priority Setscheduler.
From S2P Require Import Affinity AffineMove AffineRuns AffineReqs AffineSafe AffineKeeps AffineInvariant AffineLive SetAffinity.
Local Open Scope Z_scope.

(** * What a call does to the mask *)

Section Calls.
  Context `{CpumasksOk} (hp : hotplug).

(** The fields of a task that a move leaves alone. *)
Definition same_mask (p p' : atask) : Prop :=
  cpus_mask p' = cpus_mask p /\ user_cpus_ptr p' = user_cpus_ptr p /\ flags p' = flags p.

Lemma same_mask_moved s s' c : same_mask (m_task s) (m_task s') -> same_mask (m_task s) (m_task (moved s' (move_queued_task hp (m_task s') c))).
Proof. intros Hs. unfold moved. destruct (snd _); exact Hs. Qed.

Lemma affine_stay_mask f s s' o : affine_stay f s = Ok (s', o) -> same_mask (m_task s) (m_task s') /\ result_of o = 0.
Proof.
  unfold affine_stay. cbv zeta. set (push := _ && _). set (s1 := if push then _ else s).
  assert (m_task s1 = m_task s) as E1 by (unfold s1; destruct push; reflexivity).
  clearbody s1. destruct (migration_pending (m_task s)) as [q|]; [|intros [= <- <-]; rewrite E1; repeat split].
  intros E. apply bind_ok_inv in E as (d & _ & E). destruct (stop_pending d); injection E as <- <-; cbn; rewrite ?E1; repeat split.
Qed.

(** A caller other than [migrate_enable] leaves with 0. *)
Lemma affine_mask me f dest s s' o : SCA_MIGRATE_ENABLE f = false -> affine_move_task hp me f dest s = Ok (s', o) ->
  same_mask (m_task s) (m_task s') /\ result_of o = 0.
Proof.
  intros Hf. unfold affine_move_task. destruct (bool_decide (task_cpu (m_task s) ∈ cpus_mask (m_task s))); [apply affine_stay_mask|].
  rewrite Hf. intros E. apply bind_ok_inv in E as (s1 & E1 & E).
  assert (same_mask (m_task s) (m_task s1) /\ migration_pending (m_task s1) <> None) as [Hs1 Hq1].
  { unfold affine_install in E1. destruct (migration_pending (m_task s)) as [q|] eqn:Eq.
    - apply bind_ok_inv in E1 as (d & _ & [= <-]). split; [repeat split | cbn; congruence].
    - injection E1 as <-. split; [repeat split | discriminate]. }
  destruct (migration_pending (m_task s1)) as [q|]; [|contradiction]. apply bind_ok_inv in E as (d & _ & E).
  destruct (on_cpu (m_task s1) || bool_decide (state (m_task s1) = TASK_WAKING)).
  { injection E as <- <-. split; [|reflexivity]. destruct (stop_pending d); exact Hs1. }
  destruct (is_migration_disabled (m_task s1)); [injection E as <- <-; auto|].
  set (s2 := if task_on_rq_queued (m_task s1) then _ else s1) in E.
  assert (same_mask (m_task s) (m_task s2)) as Hs2.
  { unfold s2. destruct (task_on_rq_queued (m_task s1)); [|exact Hs1]. unfold moved. destruct (snd _); exact Hs1. }
  destruct (stop_pending d); injection E as <- <-; (split; [exact Hs2 | reflexivity]).
Qed.

(** Either the mask is set, or nothing changes but a warning. The mask that the
    user asked for is forgotten only when the mask changes. *)
Lemma set_cpus_result me self prev m f s s' o : SCA_MIGRATE_ENABLE f = false -> SCA_MIGRATE_DISABLE f = false ->
  __set_cpus_allowed_ptr_locked hp me self prev (Some m) f s = Ok (s', o) ->
  result_of o = 0 /\ cpus_mask (m_task s') = m /\ flags (m_task s') = flags (m_task s) /\
    user_cpus_ptr (m_task s') = (if bool_decide (cpus_mask (m_task s) = m) then user_cpus_ptr (m_task s)
      else if SCA_USER f then None else user_cpus_ptr (m_task s)) /\
    (cpus_mask (m_task s) = m \/ PF_KTHREAD (flags (m_task s)) = true \/ m ⊆ task_cpu_possible_mask hp) \/
  (result_of o = - EINVAL \/ result_of o = - EBUSY) /\ m_task s' = m_task s.
Proof.
  intros Hf Hd. unfold __set_cpus_allowed_ptr_locked. rewrite Hf. change (mask_of (m_task s) (Some m)) with m. cbn [negb andb].
  destruct (negb (PF_KTHREAD (flags (m_task s))) && negb (bool_decide (m ⊆ task_cpu_possible_mask hp))) eqn:Ek; [intros [= <- <-]; right; auto|].
  destruct (SCA_CHECK f && PF_NO_SETAFFINITY (flags (m_task s))); [intros [= <- <-]; right; auto|].
  destruct (bool_decide_reflect (cpus_mask (m_task s) = m)) as [Em|Em]; [intros [= <- <-]; left; repeat split; auto|].
  destruct (self && is_migration_disabled (m_task s) && negb (bool_decide (task_cpu (m_task s) ∈ m))); [intros [= <- <-]; right; auto|].
  destruct (nr_cpu_ids <=? cpumask_any_and_distribute prev _ m)%nat; [intros [= <- <-]; right; auto|]. intros E. left.
  apply affine_mask in E as [(E1 & E2 & E3) Ho]; [|exact Hf]. unfold __do_set_cpus_allowed, set_cpus_allowed_common in *.
  rewrite Hf, Hd in *. cbn in E1, E2, E3. split; [exact Ho|].
  split; [rewrite E1; destruct (SCA_USER f); reflexivity|]. split; [rewrite E3; destruct (SCA_USER f); reflexivity|].
  split; [rewrite E2; destruct (SCA_USER f); reflexivity|].
  destruct (PF_KTHREAD (flags (m_task s))); [auto|]. right. right. cbn in Ek. apply negb_false_iff, bool_decide_eq_true in Ek. exact Ek.
Qed.

(** A mask with a CPU to run on is granted. *)
Lemma set_cpus_granted `{!Steady hp} b me self prev m f s c : SCA_MIGRATE_ENABLE f = false -> SCA_MIGRATE_DISABLE f = false ->
  Inv hp b s -> m_callers s !! me = None ->
  (PF_KTHREAD (flags (m_task s)) = true \/ m ⊆ task_cpu_possible_mask hp) ->
  SCA_CHECK f = false \/ PF_NO_SETAFFINITY (flags (m_task s)) = false ->
  self = false \/ migration_disabled (m_task s) = 0 -> c ∈ m -> c ∈ cpu_online_mask hp ->
  exists s' o, __set_cpus_allowed_ptr_locked hp me self prev (Some m) f s = Ok (s', o) /\ result_of o = 0.
Proof.
  intros Hf Hd HI Hme Hk Hc Hself Hm Ho.
  destruct (set_cpus_keeps hp b me self prev m (SCA_CHECK f) (SCA_USER f) s HI Hme) as ([s' o] & E & _).
  replace (mkSca (SCA_CHECK f) false false (SCA_USER f)) with f in E by (destruct f; cbn in *; subst; reflexivity).
  exists s', o. split; [exact E|]. unfold __set_cpus_allowed_ptr in E. revert E.
  unfold __set_cpus_allowed_ptr_locked. rewrite Hf. change (mask_of (m_task s) (Some m)) with m. cbn [negb andb].
  replace (negb (PF_KTHREAD (flags (m_task s))) && negb (bool_decide (m ⊆ task_cpu_possible_mask hp))) with false
    by (destruct Hk as [->|Hk]; [reflexivity | rewrite (bool_decide_true _ Hk), andb_false_r; reflexivity]).
  replace (SCA_CHECK f && PF_NO_SETAFFINITY (flags (m_task s))) with false by (destruct Hc as [->| ->]; [|rewrite andb_false_r]; reflexivity).
  destruct (bool_decide (cpus_mask (m_task s) = m)); [intros [= <- <-]; reflexivity|].
  replace (self && is_migration_disabled (m_task s)) with false
    by (destruct Hself as [->|Hz]; [|rewrite (proj2 (disabled_spec _) Hz), andb_false_r]; reflexivity).
  cbn [andb]. destruct (Nat.leb_spec nr_cpu_ids (cpumask_any_and_distribute prev (if PF_KTHREAD (flags (m_task s)) || is_migration_disabled (m_task s)
    then cpu_online_mask hp else cpu_active_mask hp) m)) as [Hge|_].
  - pose proof (distribute_some prev (if PF_KTHREAD (flags (m_task s)) || is_migration_disabled (m_task s)
      then cpu_online_mask hp else cpu_active_mask hp) m c) as Hs. rewrite steady_active in *.
    assert (c ∈ (if PF_KTHREAD (flags (m_task s)) || is_migration_disabled (m_task s) then cpu_online_mask hp else cpu_online_mask hp)) as Hv
      by (destruct (_ || _); exact Ho). specialize (Hs Hv Hm (steady_ids c Ho)). lia.
  - intros E. apply affine_mask in E as [_ E]; [exact E | exact Hf].
Qed.
End Calls.


(** * A CPU for a waking task *)

Section Select.
  Context `{CpumasksOk} (hp : hotplug) `{!Steady hp} (cpuset_fallback : atask -> option cpumask).

Lemma allowed_in_none p l c : allowed_in hp p l = None -> In c l -> is_cpu_allowed hp p c = false.
Proof. unfold allowed_in. intros E Hl. exact (find_none _ _ E c Hl). Qed.

(** A turn of the loop ends it when the task may use some CPU. *)
Lemma fallback_turn fuel st p c : is_cpu_allowed hp p c = true ->
  exists c', select_fallback_loop hp cpuset_fallback (S fuel) st p = Ok (c', p) /\ is_cpu_allowed hp p c' = true.
Proof.
  intros Hc. destruct (allowed_online hp p c Hc) as [Hp Ho].
  destruct (allowed_in_some hp p (for_each_cpu (cpus_ptr p)) c) as (c' & E & Hc'); [apply for_each_cpu_in; split; [exact Hp | exact (steady_ids c Ho)] | exact Hc|].
  exists c'. cbn [select_fallback_loop]. rewrite E. auto.
Qed.

(** [select_task_rq] always gives a CPU that the task may use. A task that may
    use none gets a wider mask, first from its cpuset, then every CPU that can run
    it; the loop ends within three turns, without the bug it guards against; and
    a task that may use some CPU keeps its mask. *)
Theorem select_task_rq_correct class_select nodemask p c :
  is_cpu_allowed hp (do_set_cpus_allowed p (task_cpu_possible_mask hp)) c = true ->
  exists c' p', select_task_rq hp cpuset_fallback class_select nodemask p = Ok (c', p') /\ is_cpu_allowed hp p' c' = true /\
    (forall x, is_cpu_allowed hp p x = true -> p' = p) /\
    (p' = p \/ p' = do_set_cpus_allowed p (task_cpu_possible_mask hp) \/
     exists m, cpuset_fallback p = Some m /\ p' = do_set_cpus_allowed p m).
Proof.
  intros Hc. destruct (decide (Exists (fun x => is_cpu_allowed hp p x = true) (elements (cpus_ptr p)))) as [Hex|Hno].
  - apply Exists_exists in Hex as (x & _ & Hx). destruct (select_allowed hp cpuset_fallback class_select nodemask p x Hx) as (c' & E & Hc').
    exists c', p. auto.
  - assert (forall x, is_cpu_allowed hp p x = false) as Hnone.
    { intros x. destruct (is_cpu_allowed hp p x) eqn:E; [|reflexivity]. destruct Hno. apply Exists_exists. exists x.
      rewrite elem_of_elements. split; [apply (allowed_online hp p x E) | exact E]. }
    assert (forall l, allowed_in hp p l = None) as Hall.
    { intros l. destruct (allowed_in hp p l) as [x|] eqn:E; [|reflexivity]. unfold allowed_in in E. apply find_some in E as [_ E].
      rewrite Hnone in E. discriminate. }
    unfold select_task_rq, select_fallback_rq. rewrite Hnone. cbn [negb].
    replace (mbind (fun m => allowed_in hp p (for_each_cpu m)) nodemask) with (@None nat) by (destruct nodemask; [symmetry; apply Hall | reflexivity]).
    assert (forall fuel p1, do_set_cpus_allowed p1 (task_cpu_possible_mask hp) = do_set_cpus_allowed p (task_cpu_possible_mask hp) ->
      exists c', select_fallback_loop hp cpuset_fallback (S fuel) fail (do_set_cpus_allowed p1 (task_cpu_possible_mask hp)) =
        Ok (c', do_set_cpus_allowed p (task_cpu_possible_mask hp)) /\ is_cpu_allowed hp (do_set_cpus_allowed p (task_cpu_possible_mask hp)) c' = true) as Hwide.
    { intros fuel p1 ->. apply (fallback_turn fuel fail _ c Hc). }
    change (select_fallback_loop hp cpuset_fallback 3 cpuset p) with
      (match allowed_in hp p (for_each_cpu (cpus_ptr p)) with
       | Some d => Ok (d, p)
       | None => match cpuset_fallback p with
                 | Some m => select_fallback_loop hp cpuset_fallback 2 possible (do_set_cpus_allowed p m)
                 | None => select_fallback_loop hp cpuset_fallback 2 fail (do_set_cpus_allowed p (task_cpu_possible_mask hp)) end end).
    rewrite Hall. destruct (cpuset_fallback p) as [m|] eqn:Ef.
    + cbn [select_fallback_loop]. destruct (allowed_in hp (do_set_cpus_allowed p m) _) as [d|] eqn:E.
      * exists d, (do_set_cpus_allowed p m). split; [reflexivity|]. split; [unfold allowed_in in E; apply find_some in E; tauto|].
        split; [intros x Hx; rewrite Hnone in Hx; discriminate | eauto].
      * destruct (Hwide 0%nat (do_set_cpus_allowed p m) eq_refl) as (c' & E' & Hc'). cbn [select_fallback_loop] in E'. rewrite E'.
        eexists c', _. split; [reflexivity|]. split; [exact Hc'|]. split; [intros x Hx; rewrite Hnone in Hx; discriminate | auto].
    + destruct (Hwide 1%nat p eq_refl) as (c' & -> & Hc'). eexists c', _. split; [reflexivity|]. split; [exact Hc'|].
      split; [intros x Hx; rewrite Hnone in Hx; discriminate | auto].
Qed.
End Select.

(** * The machine *)

Section Machine.
  Context `{CpumasksOk} (hp : hotplug) `{!Steady hp} (cpuset_fallback : atask -> option cpumask).

#[local] Abbreviation run := (run hp cpuset_fallback).
#[local] Abbreviation step := (step hp cpuset_fallback).

Lemma anything_calm l s : false = true -> anything l s -> calm l s.
Proof. discriminate. Qed.

Lemma calm_calm (l : label) (s : msys) : true = true -> calm l s -> calm l s.
Proof. auto. Qed.

(** C25: In every order of events no function touches a request whose owner has
    returned: whatever step is possible next succeeds. A request has at most one
    stopper under way and the CPU of the task at most one push, the run queues
    count the task as pinned exactly on its CPU and exactly while it may not
    migrate, and of the warnings of this code only two can be given: that a
    task that may not migrate leaves out its own CPU, and that [migrate_enable]
    finds no request. *)
Theorem requests_safe s s' : fresh hp s -> run anything s s' ->
  (forall l r, step l s' = Some r -> exists s2, r = Ok s2) /\
  (forall q, count_todo (is_stop q) (m_todo s') <= 1) /\
  (forall c, count_todo (is_push c) (m_todo s') <= 1) /\
  (forall c, default 0 (m_pinned s' !! c) = if decide (migration_disabled (m_task s') <> 0 /\ task_cpu (m_task s') = c) then 1 else 0) /\
  (forall w, In w (m_warned s') -> w = WBusy \/ w = WNoPending).
Proof.
  intros Hf Hr. pose proof (run_inv hp cpuset_fallback false anything s s' anything_calm Hf Hr) as HI. split.
  - intros l r Hs. destruct (step_keeps hp cpuset_fallback false l s' r HI ltac:(discriminate) Hs) as (s2 & -> & _). eauto.
  - destruct HI as [HR HF _]. split; [|split; [|split]].
    + intros q. specialize (HR q). inversion HR as [d Hs|Hs]; rewrite Hs; [destruct (stop_pending d)|]; cbn; lia.
    + intros c. rewrite (f_push _ _ _ _ _ _ _ _ HF). destruct (bool_decide _); cbn; lia.
    + apply HF.
    + intros w Hw. destruct (f_warn _ _ _ _ _ _ _ _ HF w Hw) as [?|[? _]]; auto.
Qed.

(** C26: No caller is forgotten. The request that a caller waits for is there; it
    is completed, or about to be, or it is the task's own, and then a stopper
    is on its way to it, or the task may not migrate and will look at its mask
    when it may. *)
Theorem no_lost_wakeup s s' c q : fresh hp s -> run anything s s' -> m_callers s' !! c = Some (CWaiting q) ->
  exists d, m_pendings s' !! q = Some d /\ 0 < refs d /\
    (done d = true \/ In (Complete q) (m_todo s') \/
     migration_pending (m_task s') = Some q /\
       ((exists x, In x (m_todo s') /\ is_stop q x = true) \/
        migration_disabled (m_task s') <> 0 /\ cpus_ptr_ (m_task s') <> None)).
Proof.
  intros Hf Hr Hc. pose proof (run_inv hp cpuset_fallback false anything s s' anything_calm Hf Hr) as [HR _ _].
  destruct (reqs_woken _ _ _ _ _ _ _ HR Hc) as (d & Hd & Hpos & _). exists d. split; [exact Hd|]. split; [exact Hpos|].
  specialize (HR q). rewrite Hd in HR. inversion HR as [? Hs Hcm Hm _ _ Hp|]; subst.
  destruct (done d); [auto|]. right. destruct (bool_decide_reflect (migration_pending (m_task s') = Some q)) as [E|E].
  - right. split; [exact E|]. destruct (stop_pending d); [left | right; exact (Hp E eq_refl)].
    apply count_todo_pos. rewrite Hs. cbn. lia.
  - left. destruct (count_todo_pos (is_complete q) (m_todo s')) as (x & Hx & Ex); [cbn in Hcm; lia|].
    destruct x; cbn in Ex; try discriminate. apply bool_decide_eq_true in Ex. subst. exact Hx.
Qed.

(** From every state that can be reached all callers can return: the
    functions never wait for each other. *)
Theorem calls_can_return s s' : fresh hp s -> run anything s s' -> exists s2, run anything s' s2 /\ m_callers s2 = ∅.
Proof.
  intros Hf Hr. pose proof (run_inv hp cpuset_fallback false anything s s' anything_calm Hf Hr) as HI.
  destruct (can_finish hp cpuset_fallback s' HI) as (s2 & Hr2 & _ & Hc). eauto.
Qed.

(** C27: The mask is enforced in every order of events but two ([calm]): the task does
    not begin a section without migration while a stopper is on its way to another
    CPU, and no stopper of a request finds, when it has the locks, the task outside its mask
    and being woken up on its CPU, by a wake-up that was sent after the stopper's
    flush. Then, with no request left, the task sleeps or is on a CPU of its mask;
    while it is elsewhere, there is a request with a CPU to go to; and
    [migrate_enable] never misses its request. [mask_not_enforced] and
    [late_wakeup_escapes] are runs that show that each of the two orders leaves a
    task outside its mask. *)
Theorem mask_enforced s s' : fresh hp s -> run calm s s' ->
  (task_cpu (m_task s') ∈ cpus_mask (m_task s') \/
   (state (m_task s') = TASK_SLEEPING /\ on_cpu (m_task s') = false /\ migration_disabled (m_task s') = 0) \/
   exists q d, migration_pending (m_task s') = Some q /\ m_pendings s' !! q = Some d /\
     arg_dest_cpu d ∈ cpus_mask (m_task s') /\ arg_dest_cpu d ∈ cpu_online_mask hp) /\
  ~ In WNoPending (m_warned s').
Proof.
  intros Hf Hr. pose proof (run_inv hp cpuset_fallback true calm s s' (fun l s Hb Hc => Hc) Hf Hr) as [_ HF HP].
  split; [exact (HP eq_refl)|]. intros Hw. destruct (f_warn _ _ _ _ _ _ _ _ HF _ Hw) as [?|[_ ?]]; discriminate.
Qed.
End Machine.

(** * System calls *)

Section Syscalls.
  Context `{CpumasksOk} (hp : hotplug) `{!Steady hp} (dl : dl_world) (cpumask_size : nat).

(** When [__sched_setaffinity] returns 0, its last call set a mask inside what
    the cpuset allows after that call. *)
Lemma setaffinity_last me self prev back m s s' : setaffinity_again hp me self prev m back s = Ok (s', 0) ->
  exists m' c s0 s1 o, In (s', c) back /\ m' ⊆ c /\
    __set_cpus_allowed_ptr hp me self prev (Some m') sca_check_user s0 = Ok (s1, o) /\ cpus_mask (m_task s1) = m'.
Proof.
  revert m s. induction back as [|[s2 c] back IH]; intros m s; cbn [setaffinity_again]; intros E; apply bind_ok_inv in E as ([s1 o] & E1 & E);
    (pose proof (set_cpus_result hp me self prev m sca_check_user s s1 o eq_refl eq_refl E1) as HR; destruct (Z.eqb_spec (result_of o) 0) as [Eo|Eo]; cbn [negb] in E;
      [|injection E as <- E; congruence]); [discriminate|].
  destruct (bool_decide_reflect (m ⊆ c)) as [Hm|Hm]; cbn [negb] in E.
  - injection E as <-. exists m, c, s, s1, o. split; [left; reflexivity|]. split; [exact Hm|]. split; [exact E1|].
    destruct HR as [(_ & HR & _)|[[HR|HR] _]]; [exact HR | rewrite Eo in HR; discriminate ..].
  - destruct (IH c s2 E) as (m' & c' & s0 & s3 & o' & Hin & Hrest). exists m', c', s0, s3, o'. split; [right; exact Hin | exact Hrest].
Qed.

(** The task may be given [want]. *)
Definition grantable (p : atask) (self : bool) (want : cpumask) : Prop :=
  (PF_KTHREAD (flags p) = true \/ want ⊆ task_cpu_possible_mask hp) /\ PF_NO_SETAFFINITY (flags p) = false /\
  (self = false \/ migration_disabled p = 0) /\ exists c, c ∈ want /\ c ∈ cpu_online_mask hp.

Lemma setaffinity_grants b me self prev mask cpus s s2 : Inv hp b s -> m_callers s !! me = None ->
  dl_task_check_affinity dl (m_task s) (mask ∩ cpus) = 0 -> grantable (m_task s) self (mask ∩ cpus) ->
  __sched_setaffinity hp dl true true me self prev mask cpus [(s2, cpus)] s = Ok (s2, 0) /\
  exists s1 o, __set_cpus_allowed_ptr hp me self prev (Some (mask ∩ cpus)) sca_check_user s = Ok (s1, o) /\
    cpus_mask (m_task s1) = mask ∩ cpus /\
    user_cpus_ptr (m_task s1) = if bool_decide (cpus_mask (m_task s) = mask ∩ cpus) then user_cpus_ptr (m_task s) else None.
Proof.
  intros HI Hme Hdl (Hk & Hn & Hself & c & Hc & Ho).
  destruct (set_cpus_granted hp b me self prev (mask ∩ cpus) sca_check_user s c eq_refl eq_refl HI Hme Hk (or_intror Hn) Hself Hc Ho)
    as (s1 & o & E & Eo). unfold __sched_setaffinity, __set_cpus_allowed_ptr. cbn [negb]. rewrite Hdl. cbn [Z.eqb negb setaffinity_again].
  unfold __set_cpus_allowed_ptr. rewrite E. cbn [mbind res_bind]. rewrite Eo. cbn [Z.eqb negb].
  rewrite bool_decide_true by apply intersection_subseteq_r. split; [reflexivity|]. exists s1, o. split; [reflexivity|].
  destruct (set_cpus_result hp me self prev _ sca_check_user s s1 o eq_refl eq_refl E) as [(_ & E1 & _ & E2 & _)|[[E1|E1] _]];
    [auto | rewrite Eo in E1; discriminate ..].
Qed.

(** C28: [sched_setaffinity] on a task that is there: what it refuses and with which
    error, and that everything else is granted: the mask that is stored is the
    one asked for, inside the cpuset. *)
Theorem sched_setaffinity_correct b c kt me self prev mask cpus s s2 : Inv hp b s -> m_callers s !! me = None ->
  let p := m_task s in
  let want := mask ∩ cpus in
  let call := sched_setaffinity hp dl c (Some kt) true true me self prev mask cpus [(s2, cpus)] s in
  let rights := check_same_owner c kt || cap_sys_nice c in
  (PF_NO_SETAFFINITY (flags p) = true -> call = Ok (s, - EINVAL)) /\
  (PF_NO_SETAFFINITY (flags p) = false -> rights = false -> call = Ok (s, - EPERM)) /\
  (PF_NO_SETAFFINITY (flags p) = false -> rights = true -> security c <> 0 -> call = Ok (s, security c)) /\
  (PF_NO_SETAFFINITY (flags p) = false -> rights = true -> security c = 0 ->
     (has_dl_policy (flags p) = true -> dl_bandwidth_on dl = true -> ~ rd_span dl ⊆ want -> call = Ok (s, - EBUSY)) /\
     (has_dl_policy (flags p) = false \/ dl_bandwidth_on dl = false \/ rd_span dl ⊆ want ->
        (PF_KTHREAD (flags p) = false -> ~ want ⊆ task_cpu_possible_mask hp -> call = Ok (s, - EINVAL)) /\
        (self = false \/ migration_disabled p = 0 -> cpus_mask p <> want -> (forall x, x ∈ want -> x ∉ cpu_online_mask hp) ->
           call = Ok (s, - EINVAL)) /\
        (grantable p self want -> call = Ok (s2, 0) /\
           exists s1 o, __set_cpus_allowed_ptr hp me self prev (Some want) sca_check_user s = Ok (s1, o) /\ cpus_mask (m_task s1) = want))).
Proof.
  intros HI Hme p want call rights. unfold call, sched_setaffinity. fold p. rewrite <- negb_orb. fold rights.
  split; [intros ->; reflexivity|]. split; [intros -> ->; reflexivity|].
  split; [intros -> ->; cbn [negb]; intros Hs; rewrite (proj2 (Z.eqb_neq _ _) Hs); reflexivity|].
  intros Hn -> Hs. rewrite Hn, Hs. cbn [negb Z.eqb]. split.
  - intros H1 H2 H3. unfold __sched_setaffinity, dl_task_check_affinity. fold p. rewrite H1, H2, (bool_decide_false _ H3). reflexivity.
  - intros Hdl. assert (dl_task_check_affinity dl p want = 0) as Hd.
    { unfold dl_task_check_affinity. destruct Hdl as [->|[->|Hsub]]; [reflexivity | rewrite orb_true_r; reflexivity|].
      rewrite (bool_decide_true _ Hsub). destruct (_ || _); reflexivity. }
    split; [|split].
    + intros Hk Hp. unfold __sched_setaffinity, __set_cpus_allowed_ptr. fold p want. rewrite Hd. cbn [negb Z.eqb setaffinity_again].
      unfold __set_cpus_allowed_ptr, __set_cpus_allowed_ptr_locked. change (mask_of (m_task s) (Some want)) with want. fold p.
      rewrite Hk, (bool_decide_false _ Hp). reflexivity.
    + intros Hself Hne Hnone. unfold __sched_setaffinity. fold p want. rewrite Hd. cbn [negb Z.eqb setaffinity_again].
      unfold __set_cpus_allowed_ptr, __set_cpus_allowed_ptr_locked. change (mask_of (m_task s) (Some want)) with want. fold p.
      cbn [SCA_CHECK SCA_MIGRATE_ENABLE sca_check_user negb andb]. rewrite Hn, (bool_decide_false _ Hne).
      replace (self && is_migration_disabled p) with false
        by (destruct Hself as [->|Hz]; [|rewrite (proj2 (disabled_spec _) Hz), andb_false_r]; reflexivity). cbn [andb].
      destruct (negb (PF_KTHREAD (flags p)) && _); [reflexivity|]. rewrite steady_active.
      destruct (Nat.leb_spec nr_cpu_ids (cpumask_any_and_distribute prev (if PF_KTHREAD (flags p) || is_migration_disabled p
        then cpu_online_mask hp else cpu_online_mask hp) want)) as [_|Hlt]; [reflexivity|].
      apply distribute_spec in Hlt as [Hv Hm]. destruct (Hnone _ Hm). destruct (_ || _); exact Hv.
    + intros Hg. destruct (setaffinity_grants b me self prev mask cpus s s2 HI Hme Hd Hg) as (-> & s1 & o & E1 & E2 & _). eauto 6.
Qed.

(** The bytes that [sys_sched_getaffinity] gives are the CPUs of the mask that
    [sys_sched_setaffinity] was given, without those that the cpuset or the state of the
    CPUs leaves out, for masks shorter and longer than the kernel's. *)
Theorem affinity_bytes b c kt me self prev len mem cpus s s2 len2 mem2 : Inv hp b s -> m_callers s !! me = None ->
  (nr_cpu_ids <= 8 * cpumask_size)%nat -> 0 <= len -> (Z.to_nat (Z.min len (Z.of_nat cpumask_size)) <= length mem)%nat ->
  let want := cpumask_of_bytes (take (Z.to_nat (Z.min len (Z.of_nat cpumask_size))) mem) ∩ cpus in
  check_same_owner c kt || cap_sys_nice c = true -> security c = 0 -> has_dl_policy (flags (m_task s)) = false ->
  grantable (m_task s) self want -> cpus_mask (m_task s2) = want ->
  Z.of_nat nr_cpu_ids <= len2 * 8 < 2 ^ 32 -> Z.land len2 7 = 0 -> (Z.to_nat len2 <= length mem2)%nat ->
  sys_sched_setaffinity hp dl cpumask_size c (Some kt) true true true me self prev len mem cpus [(s2, cpus)] s = Ok (s2, 0) /\
  exists mem', sys_sched_getaffinity hp cpumask_size (Some kt) 0 true len2 mem2 (m_task s2) = (Z.min len2 (Z.of_nat cpumask_size), mem') /\
    cpumask_of_bytes (take (Z.to_nat (Z.min len2 (Z.of_nat cpumask_size))) mem') = want ∩ cpu_online_mask hp.
Proof.
  intros HI Hme Hsize Hlen Hmem want Hr Hs Hdl Hg H2 Hlen2 Hland Hmem2. split.
  - unfold sys_sched_setaffinity, get_user_cpu_mask, copy_from_user. cbn [negb].
    replace (if Z.of_nat cpumask_size <? len then Z.of_nat cpumask_size else len) with (Z.min len (Z.of_nat cpumask_size))
      by (destruct (Z.ltb_spec (Z.of_nat cpumask_size) len); lia).
    rewrite (proj2 (Nat.leb_le _ _) Hmem). cbn [option_map].
    assert (PF_NO_SETAFFINITY (flags (m_task s)) = false) as Hn by apply Hg.
    unfold sched_setaffinity. rewrite Hn, <- negb_orb, Hr, Hs. cbn [negb Z.eqb].
    refine (proj1 (setaffinity_grants b me self prev _ cpus s s2 HI Hme _ Hg)).
    unfold dl_task_check_affinity. rewrite Hdl. reflexivity.
  - unfold sys_sched_getaffinity, sched_getaffinity, u32, copy_to_user. rewrite Z.mod_small by lia.
    destruct (Z.ltb_spec (len2 * 8) (Z.of_nat nr_cpu_ids)); [lia|]. rewrite Hland. cbn [Z.eqb negb].
    set (n := Z.to_nat (Z.min len2 (Z.of_nat cpumask_size))). set (m := cpus_mask (m_task s2) ∩ cpu_active_mask hp).
    rewrite take_bytes by lia. unfold bytes_of_cpumask at 1. rewrite length_map, length_seq, (proj2 (Nat.leb_le n (length mem2))) by lia.
    eexists. split; [reflexivity|].
    replace n with (length (bytes_of_cpumask n m)) at 1 by (unfold bytes_of_cpumask; rewrite length_map, length_seq; reflexivity).
    rewrite take_app_length, bytes_roundtrip; unfold m; rewrite steady_active; [rewrite H2; reflexivity|].
    intros i Hi. apply elem_of_intersection in Hi as [_ Hi]. pose proof (steady_ids i Hi). lia.
Qed.
(** The world of a task that only some CPUs can run. *)
Definition restricted (possible : cpumask) : hotplug :=
  mkHotplug (cpu_online_mask hp) (cpu_active_mask hp) (cpu_dying_mask hp) possible.

Lemma restricted_locked possible me self prev m f s : m ⊆ possible -> m ⊆ task_cpu_possible_mask hp ->
  __set_cpus_allowed_ptr_locked (restricted possible) me self prev (Some m) f s = __set_cpus_allowed_ptr_locked hp me self prev (Some m) f s.
Proof.
  intros H1 H2. unfold __set_cpus_allowed_ptr_locked. change (mask_of (m_task s) (Some m)) with m.
  cbn [task_cpu_possible_mask restricted]. rewrite (bool_decide_true _ H1), (bool_decide_true _ H2). reflexivity.
Qed.

(** A task is confined to the CPUs that can run it and released again. Confined,
    it has the part of its mask that is possible and remembers the old mask;
    released, it has the old mask back, inside the cpuset. The old mask is
    forgotten only if the release changes the mask: a task whose mask did not
    change keeps the copy, although the code means to clear it. *)
Theorem force_relax b me self prev possible cpuset_mask s : Inv hp b s -> m_callers s !! me = None ->
  let p := m_task s in
  user_cpus_ptr p = None -> migration_disabled p = 0 -> has_dl_policy (flags p) = false ->
  possible ⊆ task_cpu_possible_mask hp -> (exists c, c ∈ cpus_mask p ∩ possible /\ c ∈ cpu_online_mask hp) ->
  (exists s1, force_compatible_cpus_allowed_ptr (restricted possible) dl true true me self prev cpuset_mask s = Ok (s1, 0) /\
     cpus_mask (m_task s1) = cpus_mask p ∩ possible /\ user_cpus_ptr (m_task s1) = Some (cpus_mask p)) /\
  (forall s3 s4 cpus, Inv hp b s3 -> m_callers s3 !! me = None -> cpus_mask (m_task s3) = cpus_mask p ∩ possible ->
     user_cpus_ptr (m_task s3) = Some (cpus_mask p) -> has_dl_policy (flags (m_task s3)) = false -> grantable (m_task s3) self (cpus_mask p ∩ cpus) ->
     relax_compatible_cpus_allowed_ptr hp dl true true me self prev cpus [(s4, cpus)] s3 = Ok s4 /\
     exists s5 o, __set_cpus_allowed_ptr hp me self prev (Some (cpus_mask p ∩ cpus)) sca_check_user s3 = Ok (s5, o) /\
       cpus_mask (m_task s5) = cpus_mask p ∩ cpus /\
       user_cpus_ptr (m_task s5) = if decide (cpus_mask p ∩ possible = cpus_mask p ∩ cpus) then Some (cpus_mask p) else None).
Proof.
  intros HI Hme p Hu Hd Hdl Hpos (c & Hc & Ho). split.
  - unfold force_compatible_cpus_allowed_ptr, restrict_cpus_allowed_ptr. fold p. rewrite Hu, Hdl. cbn [negb andb].
    rewrite (bool_decide_true (@None cpumask = None)) by reflexivity. cbn [andb task_cpu_possible_mask restricted].
    rewrite (bool_decide_false (cpus_mask p ∩ possible = ∅)) by (intros E; rewrite E in Hc; exact (not_elem_of_empty _ Hc)).
    set (s0 := set_task s (with_user_ptr p (Some (cpus_ptr p)))).
    pose proof (framed_task _ _ _ (i_frame _ _ _ HI)) as Hok. pose proof (own_ptr _ _ _ Hok Hd) as Hown. fold p in Hok, Hown.
    assert (Inv hp b s0) as HI0 by (apply inv_task; auto; eapply task_ok_alike; [exact Hok | repeat split]).
    assert (cpus_mask p ∩ possible ⊆ possible) as Hsub by apply intersection_subseteq_r.
    destruct (set_cpus_granted hp b me self prev (cpus_mask p ∩ possible) no_sca s0 c) as (s1 & o & E & Eo); auto.
    { right. etransitivity; eassumption. }
    rewrite restricted_locked by (auto; etransitivity; eassumption). rewrite E. cbn [mbind res_bind fst snd]. rewrite Eo. cbn [Z.eqb].
    exists s1. split; [reflexivity|].
    destruct (set_cpus_result hp me self prev _ no_sca s0 s1 o eq_refl eq_refl E) as [(_ & E1 & _ & E2 & _)|[[E1|E1] _]];
      [|rewrite Eo in E1; discriminate ..]. split; [exact E1|]. rewrite E2. cbn. unfold cpus_ptr. rewrite Hown.
    destruct (bool_decide _); reflexivity.
  - intros s3 s4 cpus HI3 Hme3 Hm3 Hu3 Hdl3 Hg. unfold relax_compatible_cpus_allowed_ptr. rewrite Hu3.
    assert (dl_task_check_affinity dl (m_task s3) (cpus_mask p ∩ cpus) = 0) as Hz by (unfold dl_task_check_affinity; rewrite Hdl3; reflexivity).
    destruct (setaffinity_grants b me self prev (cpus_mask p) cpus s3 s4 HI3 Hme3 Hz Hg) as (-> & s5 & o & E & E1 & E2).
    split; [reflexivity|]. exists s5, o. split; [exact E|]. split; [exact E1|]. rewrite E2, Hm3, Hu3.
    destruct (decide (cpus_mask p ∩ possible = cpus_mask p ∩ cpus)) as [Hs|Hs]; [rewrite bool_decide_true by exact Hs | rewrite bool_decide_false by exact Hs]; reflexivity.
Qed.
End Syscalls.

(** * A machine with four CPUs *)

Definition cpus4 : cpumask := list_to_set [0; 1; 2; 3]%nat.

Definition hp4 : hotplug := mkHotplug cpus4 cpus4 ∅ cpus4.

Definition on01 : atask :=
  mkAtask (mkTflags false false false false false true) {[0; 1]}%nat None 2 None 0 false None 0 0 TASK_ON_RQ_QUEUED true TASK_RUNNING 0.

Definition start : msys := mkMsys on01 ∅ [] ∅ false ∅ ∅ [].

Definition no_fallback (p : atask) : option cpumask := None.

#[export] Instance steady4 : Steady hp4.
Proof.
  split; [reflexivity | intros c _; apply not_elem_of_empty|]. intros c Hc. change (c ∈ (list_to_set [0; 1; 2; 3]%nat : cpumask)) in Hc.
  apply elem_of_list_to_set, list_elem_of_In in Hc. cbn in Hc. cbn. lia.
Qed.

Lemma start_fresh : fresh hp4 start.
Proof.
  split; cbn; [|auto | apply elem_of_union_l, elem_of_singleton_2; reflexivity | repeat split].
  split; cbn; try discriminate; try lia; auto.
  - split; [exists 0%nat; split; vm_compute; reflexivity|]. intros _. refine (bool_decide_unpack _ _). vm_compute. exact I.
  - refine (bool_decide_unpack _ _). vm_compute. exact I.
Qed.

Lemma exec_run hp fb ls s1 s2 : exec hp fb ls s1 = Some (Ok s2) -> run hp fb anything s1 s2.
Proof.
  assert (forall ls s, run hp fb anything s1 s -> exec hp fb ls s = Some (Ok s2) -> run hp fb anything s1 s2) as Hall.
  { clear ls. induction ls as [|l ls IH]; cbn [exec]; intros s Hr; [intros [= <-]; exact Hr|].
    destruct (step hp fb l s) as [[s3| | |]|] eqn:E; try discriminate. apply IH. econstructor; [exact Hr | exact I | exact E]. }
  apply Hall. constructor.
Qed.

(** Two callers, the task moved between them by a balancer, and a section
    without migration. *)
Definition race : list label :=
  [LSet 10 false 0 {[1]}%nat false false; LOut; LBalance 1; LIn; LDisable; LOut; LSet 11 false 0 {[0]}%nat false false;
   LDo 0 None; LDo 0 None; LDo 0 None; LWoken 10; LWoken 11; LReturn 11; LReturn 10; LIn; LEnable 12 0; LEnabled].

(** Without the first condition the mask is not enforced. A first caller confines
    the task to CPU 1; before its stopper runs, a balancer moves the task there;
    the task begins a section without migration; a second caller confines it
    to CPU 0 and joins the request; the stopper finds the task on a CPU of
    [cpus_ptr], which is the CPU the task is pinned to, and completes the request.
    Both callers return 0, [migrate_enable] finds no request, and the task stays
    on CPU 1 with the mask {0}. *)
Theorem mask_not_enforced : exists s', fresh hp4 start /\ run hp4 no_fallback anything start s' /\
  m_callers s' = ∅ /\ m_todo s' = [] /\ migration_disabled (m_task s') = 0 /\ on_cpu (m_task s') = true /\
  task_cpu (m_task s') = 1%nat /\ cpus_mask (m_task s') = {[0%nat]} /\ m_warned s' = [WNoPending].
Proof.
  destruct (exec hp4 no_fallback race start) as [[s'| | |]|] eqn:E; try (vm_compute in E; discriminate).
  exists s'. split; [exact start_fresh|]. split; [exact (exec_run _ _ _ _ _ E)|].
  vm_compute in E. injection E as <-. repeat split.
Qed.

(** A stopper on CPU 0, the task's sleep and its wake-up between the two parts of the
    stopper, and three callers. *)
Definition woken_late : list label :=
  [LSet 10 false 0 {[1]}%nat false false; LBlock; LOut; LSet 11 false 0 {[0; 1]}%nat false false; LDo 0 None; LWake 0 None;
   LSet 12 false 0 {[1]}%nat false false; LDo 0 None; LDo 0 None; LWoken 10; LWoken 12; LReturn 12; LReturn 10; LActivate; LIn].

(** Nor is it without the second condition. A first caller confines the running
    task to CPU 1 and sends the stopper to CPU 0; the task goes to sleep; a second caller
    allows CPU 0 again and leaves the stopper to finish the request. The stopper
    flushes the wake-ups of CPU 0; now the task is woken up and its wake-up is sent to
    CPU 0; a third caller confines it to CPU 1 and joins the request. The stopper gets
    the locks: the task is on no queue, so only [wake_cpu] is set, and the request is
    completed. All callers have returned 0 when the wake-up happens: the task runs on
    CPU 0 with the mask {1}, no request is left and nothing was warned about. *)
Theorem late_wakeup_escapes : exists s', fresh hp4 start /\ run hp4 no_fallback anything start s' /\
  m_callers s' = ∅ /\ m_todo s' = [] /\ migration_pending (m_task s') = None /\ migration_disabled (m_task s') = 0 /\
  on_cpu (m_task s') = true /\ task_cpu (m_task s') = 0%nat /\ cpus_mask (m_task s') = {[1%nat]} /\ m_warned s' = [].
Proof.
  destruct (exec hp4 no_fallback woken_late start) as [[s'| | |]|] eqn:E; try (vm_compute in E; discriminate).
  exists s'. split; [exact start_fresh|]. split; [exact (exec_run _ _ _ _ _ E)|].
  vm_compute in E. injection E as <-. repeat split.
Qed.

(** The state after some steps. *)
Definition reached (ls : list label) : msys := match exec hp4 no_fallback ls start with Some (Ok s) => s | _ => start end.

Lemma reached_run ls s : exec hp4 no_fallback ls start = Some (Ok s) -> run hp4 no_fallback anything start (reached ls).
Proof. intros E. unfold reached. rewrite E. exact (exec_run _ _ _ _ _ E). Qed.

(** The two callers wait for one request, which belongs to the first. *)
Definition two_wait : list label := take 7 race.

Lemma two_wait_run : run hp4 no_fallback anything start (reached two_wait).
Proof. eapply (reached_run two_wait). vm_compute. reflexivity. Qed.

Lemma requests_safe_witness : run hp4 no_fallback anything start (reached two_wait) /\
  count_todo (is_stop 10) (m_todo (reached two_wait)) <= 1 /\ count_todo (is_stop 10) (m_todo (reached two_wait)) = 1.
Proof.
  split; [exact two_wait_run|]. split; [|vm_compute; reflexivity].
  apply (proj1 (proj2 (requests_safe hp4 no_fallback start (reached two_wait) start_fresh two_wait_run))).
Defined.

Lemma no_lost_wakeup_witness : exists d, m_pendings (reached two_wait) !! 10%nat = Some d /\ 0 < refs d.
Proof.
  destruct (no_lost_wakeup hp4 no_fallback start (reached two_wait) 11 10 start_fresh two_wait_run) as (d & Hd & Hr & _);
    [vm_compute; reflexivity | exists d; exact (conj Hd Hr)].
Defined.

Lemma calls_can_return_witness : (size (m_callers (reached two_wait)) = 2)%nat /\
  exists s2, run hp4 no_fallback anything (reached two_wait) s2 /\ m_callers s2 = ∅.
Proof.
  split; [vm_compute; reflexivity|]. exact (calls_can_return hp4 no_fallback start (reached two_wait) start_fresh two_wait_run).
Defined.

(** Executes a list of labels as long as the run is calm. *)
Fixpoint calm_exec (ls : list label) (s : msys) : bool :=
  match ls with
  | [] => true
  | l :: ls =>
      match l with LDisable => negb (stray s) | LDo i _ => negb (late i s) | _ => true end &&
      match step hp4 no_fallback l s with Some (Ok s') => calm_exec ls s' | _ => false end
  end.

Lemma calm_run ls s s1 : run hp4 no_fallback calm start s -> calm_exec ls s = true -> exec hp4 no_fallback ls s = Some (Ok s1) ->
  run hp4 no_fallback calm start s1.
Proof.
  revert s. induction ls as [|l ls IH]; cbn [calm_exec exec]; intros s Hr Hc E; [injection E as <-; exact Hr|].
  apply andb_true_iff in Hc as [Hl Hc]. destruct (step hp4 no_fallback l s) as [[s2| | |]|] eqn:Es; try discriminate.
  apply (IH s2); [|exact Hc | exact E]. econstructor; [exact Hr | | exact Es]. destruct l; try exact I; apply negb_true_iff, Hl.
Qed.

(** The task may not migrate when the caller comes; its own [migrate_enable] sends
    it away. *)
Definition sent_away : list label :=
  [LDisable; LOut; LSet 10 false 0 {[1]}%nat false false; LIn; LEnable 12 0; LEnabled; LOut].

(** The stopper's two parts, and the caller returns: the task is where it may be. *)
Definition gone : list label := sent_away ++ [LDo 0 None; LDo 0 None; LDo 0 None; LWoken 10; LReturn 10; LIn].

Lemma sent_away_calm : run hp4 no_fallback calm start (reached sent_away).
Proof. apply (calm_run sent_away start); [constructor | vm_compute; reflexivity | vm_compute; reflexivity]. Qed.

Lemma gone_calm : run hp4 no_fallback calm start (reached gone).
Proof. apply (calm_run gone start); [constructor | vm_compute; reflexivity | vm_compute; reflexivity]. Qed.

Lemma mask_enforced_witness : run hp4 no_fallback calm start (reached sent_away) /\
  task_cpu (m_task (reached sent_away)) = 0%nat /\ cpus_mask (m_task (reached sent_away)) = {[1%nat]} /\ ~ In WNoPending (m_warned (reached sent_away)) /\
  run hp4 no_fallback calm start (reached gone) /\ m_callers (reached gone) = ∅ /\ on_cpu (m_task (reached gone)) = true /\
  task_cpu (m_task (reached gone)) ∈ cpus_mask (m_task (reached gone)).
Proof.
  split; [exact sent_away_calm|]. split; [vm_compute; reflexivity|]. split; [vm_compute; reflexivity|].
  split; [exact (proj2 (mask_enforced hp4 no_fallback start (reached sent_away) start_fresh sent_away_calm))|].
  split; [exact gone_calm|]. split; [vm_compute; reflexivity|]. split; [vm_compute; reflexivity|].
  destruct (proj1 (mask_enforced hp4 no_fallback start (reached gone) start_fresh gone_calm)) as [Hm|[[E _]|(q & d & E & _)]];
    [exact Hm | vm_compute in E; discriminate ..].
Defined.

Definition no_dl : dl_world := mkDl false ∅ (fun _ => 0) (fun _ _ => 1).

Lemma start_inv : Inv hp4 false start.
Proof. exact (fresh_inv hp4 false start start_fresh). Qed.

(** The state in which the call returns: the mask is set. *)
Definition after (m : cpumask) : msys := set_task start (with_mask on01 m 1).

Lemma grantable_in m c : In c [0; 1; 2; 3]%nat -> c ∈ m -> grantable hp4 on01 false (m ∩ cpus4).
Proof.
  intros Hc Hm. split; [right; apply intersection_subseteq_r|]. split; [reflexivity|]. split; [auto|]. exists c.
  assert (c ∈ cpus4) as H4 by (apply elem_of_list_to_set, list_elem_of_In, Hc). split; [apply elem_of_intersection; auto | exact H4].
Qed.

Lemma sched_setaffinity_correct_witness :
  sched_setaffinity hp4 no_dl (sample_caller false) (Some sample_ktask) true true 10 false 0 {[1]}%nat cpus4
    [(after ({[1]}%nat ∩ cpus4), cpus4)] start = Ok (after ({[1]}%nat ∩ cpus4), 0).
Proof.
  pose proof (sched_setaffinity_correct hp4 no_dl false (sample_caller false) sample_ktask 10 false 0 {[1]}%nat cpus4 start
    (after ({[1]}%nat ∩ cpus4)) start_inv eq_refl) as (_ & _ & _ & Hok).
  destruct (Hok eq_refl eq_refl eq_refl) as [_ Hok']. destruct (Hok' (or_introl eq_refl)) as (_ & _ & Hg).
  apply Hg. apply (grantable_in _ 1%nat); [cbn; auto | apply elem_of_singleton_2; reflexivity].
Defined.

(** One byte, 6, is the CPUs 1 and 2; CPU 2 is outside the cpuset {0, 1}. *)
Lemma affinity_bytes_witness :
  let cpus := ({[0; 1]}%nat : cpumask) in
  let want := cpumask_of_bytes [6] ∩ cpus in
  exists mem', sys_sched_getaffinity hp4 8 (Some sample_ktask) 0 true 8 [0; 0; 0; 0; 0; 0; 0; 0; 0] (m_task (after want)) = (8, mem') /\
    cpumask_of_bytes (take 8 mem') = want ∩ cpus4.
Proof.
  intros cpus want.
  apply (affinity_bytes hp4 no_dl 8 false (sample_caller false) sample_ktask 10 false 0 1 [6] cpus start (after want) 8
    [0; 0; 0; 0; 0; 0; 0; 0; 0] start_inv); try reflexivity; try (cbn; lia).
  - split; [right; refine (bool_decide_unpack _ _); vm_compute; exact I|]. split; [reflexivity|]. split; [auto|].
    exists 1%nat. split; refine (bool_decide_unpack _ _); vm_compute; exact I.
Defined.

(** Only CPU 0 can run the task for a while. *)
Lemma force_relax_witness : exists s1,
  force_compatible_cpus_allowed_ptr (restricted hp4 {[0]}%nat) no_dl true true 10 false 0 cpus4 start = Ok (s1, 0) /\
  cpus_mask (m_task s1) = {[0; 1]}%nat ∩ {[0]}%nat /\ user_cpus_ptr (m_task s1) = Some ({[0; 1]}%nat).
Proof.
  apply (force_relax hp4 no_dl false 10 false 0 {[0]}%nat cpus4 start start_inv); try reflexivity.
  - refine (bool_decide_unpack _ _). vm_compute. exact I.
  - exists 0%nat. split; refine (bool_decide_unpack _ _); vm_compute; exact I.
Defined.

(** A task confined to CPU 9, which does not exist, may use every CPU. *)
Lemma select_task_rq_correct_witness : exists c' p',
  select_task_rq hp4 no_fallback 9 None (with_mask on01 {[9]}%nat 1) = Ok (c', p') /\ is_cpu_allowed hp4 p' c' = true.
Proof.
  destruct (select_task_rq_correct hp4 no_fallback 9 None (with_mask on01 {[9]}%nat 1) 2) as (c' & p' & E & Ha & _); [vm_compute; reflexivity|].
  exists c', p'. exact (conj E Ha).
Defined.
