(* ===== verification/CoreSched.v ===== *)
(** Core scheduling in src/3/20193018_PLUS-1/core.c: the tree of tasks with a
    cookie ([sched_core_enqueue] to [sched_core_next]), the selection of tasks for all
    siblings of a core ([pick_task], [pick_next_task]), the stealing of a task by a
    sibling that is forced to idle, the leader of a core when CPUs come and go, and the
    switch that turns the whole of it on and off. *)

From S2P Require Import Prelude KHeaders Priority.
Local Open Scope Z_scope.

(** * State *)

(** A task: what is compared, and the CPU of its run queue. *)
Record ctask := mkCtask { c_core : CoreTask; c_cpu : nat; core_occupation : Z }.

(** A run queue: of the fields that siblings share, those of the leader count. *)
Record crq := mkCrq {
  r_idle : nat;
  r_curr : nat;
  r_nr_running : Z;
  r_core_tree : list nat;
  r_core_pick : option nat;
  r_core_sched_seq : Z;
  r_core_enabled : bool;
  r_core : nat;
  core_task_seq : Z;
  core_pick_seq : Z;
  r_core_cookie : Z;
  core_forceidle : bool;
  core_forceidle_seq : Z
}.

Definition with_pick (r : crq) (pick : option nat) : crq :=
  mkCrq (r_idle r) (r_curr r) (r_nr_running r) (r_core_tree r) pick (r_core_sched_seq r) (r_core_enabled r) (r_core r)
    (core_task_seq r) (core_pick_seq r) (r_core_cookie r) (core_forceidle r) (core_forceidle_seq r).
Definition with_tree (r : crq) (t : list nat) : crq :=
  mkCrq (r_idle r) (r_curr r) (r_nr_running r) t (r_core_pick r) (r_core_sched_seq r) (r_core_enabled r) (r_core r)
    (core_task_seq r) (core_pick_seq r) (r_core_cookie r) (core_forceidle r) (core_forceidle_seq r).
Definition with_sched_seq (r : crq) (n : Z) : crq :=
  mkCrq (r_idle r) (r_curr r) (r_nr_running r) (r_core_tree r) (r_core_pick r) n (r_core_enabled r) (r_core r)
    (core_task_seq r) (core_pick_seq r) (r_core_cookie r) (core_forceidle r) (core_forceidle_seq r).
Definition with_enabled (r : crq) (b : bool) : crq :=
  mkCrq (r_idle r) (r_curr r) (r_nr_running r) (r_core_tree r) (r_core_pick r) (r_core_sched_seq r) b (r_core r)
    (core_task_seq r) (core_pick_seq r) (r_core_cookie r) (core_forceidle r) (core_forceidle_seq r).
Definition with_leader (r : crq) (c : nat) : crq :=
  mkCrq (r_idle r) (r_curr r) (r_nr_running r) (r_core_tree r) (r_core_pick r) (r_core_sched_seq r) (r_core_enabled r) c
    (core_task_seq r) (core_pick_seq r) (r_core_cookie r) (core_forceidle r) (core_forceidle_seq r).
Definition with_shared (r : crq) (ts ps cookie : Z) (fi : bool) (fs : Z) : crq :=
  mkCrq (r_idle r) (r_curr r) (r_nr_running r) (r_core_tree r) (r_core_pick r) (r_core_sched_seq r) (r_core_enabled r) (r_core r)
    ts ps cookie fi fs.
Definition with_task_seq (r : crq) (n : Z) : crq :=
  with_shared r n (core_pick_seq r) (r_core_cookie r) (core_forceidle r) (core_forceidle_seq r).

(** [cpu_rq]: there is a run queue for every number of a CPU. *)
Abbreviation rqs := (nat -> crq).

Definition set_rq (q : rqs) (cpu : nat) (r : crq) : rqs := fun c => if decide (c = cpu) then r else q c.

(** The leader of the core of a CPU. *)
Definition core_of (q : rqs) (cpu : nat) : crq := q (r_core (q cpu)).

Definition set_core (q : rqs) (cpu : nat) (f : crq -> crq) : rqs := set_rq q (r_core (q cpu)) (f (core_of q cpu)).

(** A loop that updates the run queues of some CPUs, each as often as it comes. *)
Lemma set_all (f : nat -> crq -> crq) l : (forall t r, f t (f t r) = f t r) -> forall q t,
  foldl (fun q t => set_rq q t (f t (q t))) q l t = if decide (t ∈ l) then f t (q t) else q t.
Proof.
  intros Hf. induction l as [|x l IH]; intros q t; cbn [foldl]; [rewrite decide_False; [reflexivity | apply not_elem_of_nil]|]. rewrite IH. unfold set_rq.
  destruct (decide (t = x)) as [->|Hx].
  - rewrite (decide_True (P := x ∈ x :: l)) by apply list_elem_of_here. rewrite Hf. destruct (decide (x ∈ l)); reflexivity.
  - destruct (decide (t ∈ l)) as [Hi|Hi]; [rewrite decide_True by (apply list_elem_of_further; exact Hi); reflexivity|].
    rewrite decide_False; [reflexivity|]. intros E. apply elem_of_cons in E as [|]; contradiction.
Qed.

Section CoreSched.
  Context `{Headers}.

(** [cfs_prio_less] of fair.c, which is told whether the core was forced to idle,
    and the comparison of deadlines; the tasks by number. *)
  Context (cfs_prio_less : bool -> CoreTask -> CoreTask -> bool) (dl_time_before : Z -> Z -> bool) (task : nat -> ctask).

Definition cookie (t : nat) : Z := core_cookie (c_core (task t)).

Definition less (in_fi : bool) (a b : nat) : bool := prio_less (cfs_prio_less in_fi) dl_time_before (c_core (task a)) (c_core (task b)).

(** * The tree *)

Definition rb_sched_core_less (in_fi : bool) (a b : nat) : bool :=
  __sched_core_less (cfs_prio_less in_fi) dl_time_before (c_core (task a)) (c_core (task b)).

(** A red-black tree as the list of its nodes from left to right: [rb_add] puts a
    node to the left of the first one that it is less than. *)
Fixpoint rb_add (lt : nat -> nat -> bool) (t : nat) (l : list nat) : list nat :=
  match l with
  | [] => [t]
  | x :: l' => if lt t x then t :: l else x :: rb_add lt t l'
  end.

Definition rb_erase (t : nat) (l : list nat) : list nat := List.filter (fun x => negb (x =? t)%nat) l.

Definition sched_core_enqueued (q : rqs) (cpu t : nat) : bool := existsb (Nat.eqb t) (r_core_tree (q cpu)).

Definition sched_core_enqueue (q : rqs) (cpu t : nat) : rqs :=
  let q := set_core q cpu (fun r => with_task_seq r (u32 (core_task_seq r + 1))) in
  if cookie t =? 0 then q
  else set_rq q cpu (with_tree (q cpu) (rb_add (rb_sched_core_less (core_forceidle (core_of q cpu))) t (r_core_tree (q cpu)))).

Definition sched_core_dequeue (q : rqs) (cpu t : nat) : rqs :=
  let q := set_core q cpu (fun r => with_task_seq r (u32 (core_task_seq r + 1))) in
  if negb (sched_core_enqueued q cpu t) then q
  else set_rq q cpu (with_tree (q cpu) (rb_erase t (r_core_tree (q cpu)))).

(** The idle task always matches. *)
Definition sched_core_find (q : rqs) (cpu : nat) (c : Z) : nat :=
  match List.find (fun t => rb_sched_core_cmp c (c_core (task t)) =? 0) (r_core_tree (q cpu)) with
  | Some t => t
  | None => r_idle (q cpu)
  end.

Fixpoint rb_next (t : nat) (l : list nat) : option nat :=
  match l with
  | [] => None
  | x :: l => if (x =? t)%nat then head l else rb_next t l
  end.

Definition sched_core_next (q : rqs) (cpu t : nat) (c : Z) : option nat :=
  match rb_next t (r_core_tree (q cpu)) with
  | Some p => if negb (cookie p =? c) then None else Some p
  | None => None
  end.

(** * Matching cookies *)

Definition is_task_rq_idle (q : rqs) (t : nat) : bool := (r_idle (q (c_cpu (task t))) =? t)%nat.

Definition cookie_equals (q : rqs) (a : nat) (c : Z) : bool := is_task_rq_idle q a || (cookie a =? c).

Definition cookie_match (q : rqs) (a b : nat) : bool :=
  if is_task_rq_idle q a || is_task_rq_idle q b then true else cookie a =? cookie b.

(** * The selection *)

(** [pick_task] of a class on a run queue. *)
Context (class_pick_task : SchedClass -> nat -> option nat).

(** [c] is the cookie of the core. *)
Definition pick_task (q : rqs) (c : Z) (cpu : nat) (class : SchedClass) (max : option nat) (in_fi : bool) : option nat :=
  match class_pick_task class cpu with
  | None => None
  | Some class_pick =>
    if c =? 0 then
      match max with
      | Some m => if negb (cookie class_pick =? 0) && less in_fi class_pick m then Some (r_idle (q cpu)) else Some class_pick
      | None => Some class_pick
      end
    else if cookie_equals q class_pick c then Some class_pick
    else
      let cookie_pick := sched_core_find q cpu c in
      if less in_fi cookie_pick class_pick && match max with None => true | Some m => less in_fi m class_pick end
      then Some class_pick else Some cookie_pick
  end.

(** The variables of the selection: [core_pick] of each sibling, the best task so
    far, the number of tasks that are not idle, and of the leader the cookie and
    the two fields about forced idling. *)
Record sel := mkSel { s_pick : nat -> option nat; s_max : option nat; s_occ : Z; s_cookie : Z; s_forceidle : bool; s_fi_seq : Z }.

(** One sibling; true when the selection starts again. *)
Definition select_sibling (q : rqs) (fi_before : bool) (class : SchedClass) (i : nat) (s : sel) : sel * bool :=
  match s_pick s i with
  | Some _ => (s, false)
  | None =>
    match pick_task q (s_cookie s) i class (s_max s) fi_before with
    | None => (s, false)
    | Some p =>
      let occ := if is_task_rq_idle q p then s_occ s else s_occ s + 1 in
      let pick := fun j => if decide (j = i) then Some p else s_pick s j in
      let forced := (r_idle (q i) =? p)%nat && negb (r_nr_running (q i) =? 0) in
      let fi := if forced then true else s_forceidle s in
      let seq := if forced && negb fi_before then u32 (s_fi_seq s + 1) else s_fi_seq s in
      match s_max s with
      | None => (mkSel pick (Some p) occ (cookie p) fi seq, false)
      | Some m =>
        if cookie_match q m p then (mkSel pick (Some m) occ (s_cookie s) fi seq, false)
        else (mkSel (fun j => if decide (j = i) then Some p else None) (Some p) 1 (cookie p) false seq, true)
      end
    end
  end.

Fixpoint select_siblings (q : rqs) (fi_before : bool) (class : SchedClass) (l : list nat) (s : sel) : sel * bool :=
  match l with
  | [] => (s, false)
  | i :: l =>
      let '(s, again) := select_sibling q fi_before class i s in
      if again then (s, true) else select_siblings q fi_before class l s
  end.

(** The label [again]. *)
Fixpoint select_class (fuel : nat) (q : rqs) (fi_before : bool) (smt : list nat) (class : SchedClass) (s : sel) : res sel :=
  match fuel with
  | O => Diverge
  | S fuel =>
      let '(s, again) := select_siblings q fi_before class smt s in
      if again then select_class fuel q fi_before smt class s else Ok s
  end.

Definition for_each_class : list SchedClass :=
  [stop_sched_class; dl_sched_class; rt_sched_class; fair_sched_class; idle_sched_class].

(** [smt] are the siblings, the CPU that selects first. *)
Fixpoint select_classes (fuel : nat) (q : rqs) (fi_before : bool) (smt : list nat) (cls : list SchedClass) (s : sel) : res sel :=
  match cls with
  | [] => Ok s
  | class :: cls => s ← select_class fuel q fi_before smt class s; select_classes fuel q fi_before smt cls s
  end.
(** [for_each_cpu_wrap]. *)
Definition wrap_from (cpu : nat) (l : list nat) : list nat :=
  List.filter (fun i => cpu <=? i)%nat l ++ List.filter (fun i => i <? cpu)%nat l.

(** * Picking the next task *)

(** The calls into the classes and what is done to siblings, in order. *)
Inductive cev :=
  | EBalance (c : SchedClass)
  | EPutPrev (t : nat)
  | ESetNext (t : nat)
  | EVruntime (cpu t : nat) (in_fi : bool)
  | EOccupation (t : nat) (occ : Z)
  | EResched (cpu : nat)
  | EMismatch (cpu : nat)
  | EFiBefore.

(** What [pick_next_task_fair] gives. *)
Inductive fair_pick := RETRY_TASK | NoTask | FairTask (t : nat).

(** The classes as [__pick_next_task] meets them: which balance finds a runnable
    task, whether every runnable task is of the fair class, and what the classes
    pick. *)
Record classes := mkClasses {
  balance : SchedClass -> bool;
  all_fair : bool;
  pick_next_task_fair : fair_pick;
  class_pick_next_task : SchedClass -> option nat
}.

(** The classes from that of [prev] down, without the idle class. *)
Fixpoint class_range (prev : SchedClass) (l : list SchedClass) : list SchedClass :=
  match l with
  | [] => []
  | c :: l' => if decide (c = prev) then List.filter (fun c => negb (bool_decide (c = idle_sched_class))) l else class_range prev l'
  end.

Fixpoint balance_until (w : classes) (l : list SchedClass) : list cev :=
  match l with
  | [] => []
  | c :: l => EBalance c :: if balance w c then [] else balance_until w l
  end.

Definition put_prev_task_balance (w : classes) (prev : nat) : list cev :=
  balance_until w (class_range (sched_class (ct_task (c_core (task prev)))) for_each_class) ++ [EPutPrev prev].

Fixpoint first_class {A} (pick : SchedClass -> option A) (l : list SchedClass) : res A :=
  match l with
  | [] => Undef
  | c :: l => match pick c with Some p => Ok p | None => first_class pick l end
  end.

(** The fair class and the idle class are the last two. *)
Definition at_most_fair (c : SchedClass) : bool := match c with fair_sched_class | idle_sched_class => true | _ => false end.

Definition __pick_next_task (w : classes) (q : rqs) (cpu prev : nat) : res (nat * list cev) :=
  let restart :=
    p ← first_class (class_pick_next_task w) for_each_class;
    Ok (p, put_prev_task_balance w prev) in
  if at_most_fair (sched_class (ct_task (c_core (task prev)))) && all_fair w then
    match pick_next_task_fair w with
    | RETRY_TASK => restart
    | NoTask => Ok (r_idle (q cpu), [EPutPrev prev])
    | FairTask p => Ok (p, [])
    end
  else restart.

(** The last loop, over one sibling. *)
Definition reschedule_sibling (cpu next : nat) (fi_before fi : bool) (occ : Z) (i : nat) (s : rqs * list cev) : rqs * list cev :=
  let '(q, ev) := s in
  match r_core_pick (q i) with
  | None => (q, ev)
  | Some p =>
      let ev := ev ++ (if negb (fi_before && fi) then [EVruntime i p fi] else []) ++ [EOccupation p occ] in
      if (i =? cpu)%nat then (set_rq q i (with_pick (q i) None), ev)
      else
        let ev := ev ++ if negb (cookie_match q next p) then [EMismatch i] else [] in
        if (r_curr (q i) =? p)%nat then (set_rq q i (with_pick (q i) None), ev)
        else (q, ev ++ [EResched i])
  end.

(** [smt_mask] in ascending order; [q] after the balancing. *)
Definition core_wide (fuel : nat) (q : rqs) (cpu : nat) (smt_mask : list nat) (fi_before : bool) : res (rqs * nat * list cev) :=
  let s := mkSel (fun _ => None) None 0 (r_core_cookie (core_of q cpu)) (core_forceidle (core_of q cpu)) (core_forceidle_seq (core_of q cpu)) in
  sl ← select_classes fuel q fi_before (wrap_from cpu smt_mask) for_each_class s;
  let q := set_core q cpu (fun r => with_shared r (core_task_seq r) (core_task_seq r) (s_cookie sl) (s_forceidle sl) (s_fi_seq sl)) in
  let q := foldl (fun q i => set_rq q i (with_pick (q i) (s_pick sl i))) q smt_mask in
  match r_core_pick (q cpu) with
  | None => Undef
  | Some next =>
      let q := set_rq q cpu (with_sched_seq (q cpu) (core_pick_seq (core_of q cpu))) in
      let '(q, ev) := foldl (fun s i => reschedule_sibling cpu next fi_before (core_forceidle (core_of q cpu)) (s_occ sl) i s) (q, []) smt_mask in
      Ok (q, next, ev ++ [ESetNext next])
  end.

(** From the balancing on. *)
Definition core_select (fuel : nat) (w : classes) (q : rqs) (cpu prev : nat) (smt_mask : list nat) : res (rqs * nat * list cev) :=
  let ev := put_prev_task_balance w prev in
  let core := core_of q cpu in
  let fi_before := core_forceidle core in
  let need_sync := negb (r_core_cookie core =? 0) || fi_before in
  let q := set_core q cpu (fun r => with_shared r (u32 (core_task_seq r + 1)) (core_pick_seq r) 0 false (core_forceidle_seq r)) in
  let full := r ← core_wide fuel q cpu smt_mask fi_before; let '(q, next, ev') := r in Ok (q, next, ev ++ ev') in
  if negb need_sync then
    next ← first_class (fun c => class_pick_task c cpu) for_each_class;
    if cookie next =? 0 then
      Ok (set_rq q cpu (with_pick (q cpu) None), next,
          ev ++ (if fi_before then [EFiBefore] else []) ++ [EVruntime cpu next false; ESetNext next])
    else full
  else full.

Definition pick_next_task (fuel : nat) (online : nat -> bool) (w : classes) (q : rqs) (cpu prev : nat) (smt_mask : list nat)
    : res (rqs * nat * list cev) :=
  if negb (r_core_enabled (q cpu)) then
    r ← __pick_next_task w q cpu prev; Ok (q, fst r, snd r)
  else if negb (online cpu) then
    r ← __pick_next_task w q cpu prev; Ok (set_rq q cpu (with_pick (q cpu) None), fst r, snd r)
  else
    let core := core_of q cpu in
    match r_core_pick (q cpu) with
    | Some next =>
        if (core_pick_seq core =? core_task_seq core) && negb (core_pick_seq core =? r_core_sched_seq (q cpu)) then
          let q := set_rq q cpu (with_sched_seq (q cpu) (core_pick_seq core)) in
          Ok (set_rq q cpu (with_pick (q cpu) None), next,
              if negb (next =? prev)%nat then [EPutPrev prev; ESetNext next] else [])
        else core_select fuel w q cpu prev smt_mask
    | None => core_select fuel w q cpu prev smt_mask
    end.
End CoreSched.
