(* ===== verification/CoreSelect.v ===== *)
(** The selection of [pick_next_task] for the siblings of a core: what it keeps at
    every step, that it ends, and whom it passes over. *)

From S2P Require Import Prelude KHeaders Priority CoreSched.
Local Open Scope Z_scope.

(** The elements that satisfy a test, when the test changes at one of them. *)
Lemma filter_set (f g : nat -> bool) (l : list nat) (i : nat) : NoDup l -> In i l -> (forall j, j <> i -> g j = f j) -> f i = false ->
  length (List.filter g l) = (length (List.filter f l) + if g i then 1 else 0)%nat.
Proof.
  intros Hn Hi Hj Hf. induction l as [|x l IH]; [contradiction|]. apply NoDup_cons in Hn as [Hx Hn].
  rewrite list_elem_of_In in Hx. simpl. destruct (decide (x = i)) as [->|Hxi].
  - rewrite Hf. rewrite (filter_ext_in g f).
    + destruct (g i); simpl; lia.
    + intros j Hj'. apply Hj. intros ->. contradiction.
  - rewrite (Hj x Hxi). destruct Hi as [->|Hi]; [contradiction|]. specialize (IH Hn Hi). destruct (f x); simpl; lia.
Qed.

Lemma filter_shrinks (f g : nat -> bool) (l : list nat) (i : nat) : In i l -> (forall j, g j = true -> f j = true) -> f i = true -> g i = false ->
  (length (List.filter g l) < length (List.filter f l))%nat.
Proof.
  intros Hi Hgf Hf Hg.
  assert (Hle : forall l, (length (List.filter g l) <= length (List.filter f l))%nat).
  { induction l0 as [|x l0 IH]; simpl; [lia|]. destruct (g x) eqn:E; [rewrite (Hgf _ E); simpl; lia | destruct (f x); simpl; lia]. }
  induction l as [|x l IH]; [contradiction|]. simpl. destruct Hi as [->|Hi].
  - rewrite Hf, Hg. specialize (Hle l). simpl. lia.
  - specialize (IH Hi). destruct (g x) eqn:E; [rewrite (Hgf _ E); simpl; lia | destruct (f x); simpl; lia].
Qed.

Section Select.
  Context `{Headers} (cfs_prio_less : bool -> CoreTask -> CoreTask -> bool) (dl_time_before : Z -> Z -> bool) (task : nat -> ctask)
    (class_pick : SchedClass -> nat -> option nat) (q : rqs) (fi : bool) (smt : list nat).

Abbreviation ck := (cookie task).
Abbreviation lt := (less cfs_prio_less dl_time_before task fi).
Abbreviation idle t := (is_task_rq_idle task q t = true).
Abbreviation pick := (pick_task cfs_prio_less dl_time_before task class_pick q).
Abbreviation one := (select_sibling cfs_prio_less dl_time_before task class_pick q fi).
Abbreviation all := (select_siblings cfs_prio_less dl_time_before task class_pick q fi).
Abbreviation a_class := (fun fuel => select_class cfs_prio_less dl_time_before task class_pick fuel q fi smt).

(** What the classes pick and what the trees hold: the idle class picks the idle
    task of the CPU, which has no cookie; the others pick, and the trees hold,
    tasks of the CPU that are not its idle task. *)
Record Picks : Prop := {
  pick_idle cpu : class_pick idle_sched_class cpu = Some (r_idle (q cpu));
  pick_own c cpu t : class_pick c cpu = Some t -> c <> idle_sched_class -> c_cpu (task t) = cpu /\ t <> r_idle (q cpu);
  idle_home cpu : c_cpu (task (r_idle (q cpu))) = cpu;
  idle_cookie cpu : ck (r_idle (q cpu)) = 0;
  tree_own cpu t : In t (r_core_tree (q cpu)) -> c_cpu (task t) = cpu /\ t <> r_idle (q cpu)
}.

Context (HP : Picks) (Hsmt : NoDup smt).

Lemma idle_iff cpu t : c_cpu (task t) = cpu -> idle t <-> t = r_idle (q cpu).
Proof. intros <-. unfold is_task_rq_idle. rewrite Nat.eqb_eq. split; congruence. Qed.

Lemma idle_idle cpu : idle (r_idle (q cpu)).
Proof. apply (idle_iff cpu); [apply HP | reflexivity]. Qed.

Lemma find_spec cpu c : c_cpu (task (sched_core_find task q cpu c)) = cpu /\
  (idle (sched_core_find task q cpu c) \/ ck (sched_core_find task q cpu c) = c).
Proof.
  unfold sched_core_find. destruct (List.find _ _) as [t|] eqn:E.
  - apply List.find_some in E as [Hin He]. split; [apply (tree_own HP); exact Hin|]. right.
    unfold rb_sched_core_cmp, cookie in *. destruct (Z.ltb_spec c (core_cookie (c_core (task t)))); [discriminate|].
    destruct (Z.ltb_spec (core_cookie (c_core (task t))) c); [discriminate | lia].
  - split; [apply (idle_home HP) | left; apply idle_idle].
Qed.

Lemma class_pick_home c i t : class_pick c i = Some t -> c_cpu (task t) = i.
Proof.
  destruct (decide (c = idle_sched_class)) as [->|Hc]; [|intros E; exact (proj1 (pick_own HP c i t E Hc))].
  rewrite (pick_idle HP). intros [= <-]. apply (idle_home HP).
Qed.

(** The pick is idle, has the cookie of the core, or is the pick of the class,
    preferred to the best task so far, if there is one. *)
Inductive picked (c : Z) (i : nat) (cl : SchedClass) (max : option nat) (p cp : nat) : Prop :=
  | PIdle : idle p -> (forall m, max = Some m -> (c = 0 /\ lt cp m = true /\ ck cp <> 0) \/ p = cp \/ (c <> 0 /\ ck cp <> c /\ ~ idle cp /\
      (lt p cp = false \/ lt m cp = false))) -> picked c i cl max p cp
  | PCookie : ck p = c -> (forall m, max = Some m -> p = cp \/ (c <> 0 /\ ck cp <> c /\ ~ idle cp /\ (lt p cp = false \/ lt m cp = false))) ->
      picked c i cl max p cp
  | PBest : p = cp -> ~ idle p -> ck p <> c ->
      (forall m, max = Some m -> (c = 0 /\ lt p m = false) \/ (c <> 0 /\ lt m p = true)) -> picked c i cl max p cp.

Lemma pick_task_spec c i cl max p : pick c i cl max fi = Some p -> (max = None -> c = 0) ->
  c_cpu (task p) = i /\ exists cp, class_pick cl i = Some cp /\ picked c i cl max p cp.
Proof.
  unfold pick_task. destruct (class_pick cl i) as [cp|] eqn:Ec; [|discriminate]. pose proof (class_pick_home _ _ _ Ec) as Hh.
  intros E Hm. destruct (Z.eqb_spec c 0) as [->|Hc].
  - assert (Hp : p = cp \/ (exists m, max = Some m /\ ck cp <> 0 /\ lt cp m = true /\ p = r_idle (q i))).
    { destruct max as [m|]; [|left; congruence]. destruct (Z.eqb_spec (ck cp) 0) as [?|Hk]; simpl in E; [left; congruence|].
      destruct (lt cp m) eqn:El; [right; exists m; repeat split; congruence | left; congruence]. }
    destruct Hp as [->|(m & -> & Hk & Hl & ->)].
    + split; [exact Hh|]. exists cp. split; [reflexivity|].
      destruct (is_task_rq_idle task q cp) eqn:Ei; [apply PIdle; auto|].
      destruct (Z.eq_dec (ck cp) 0) as [Hk|Hk]; [apply PCookie; auto|]. apply PBest; [reflexivity | congruence | exact Hk|].
      intros m ->. left. split; [reflexivity|]. apply Z.eqb_neq in Hk. rewrite Hk in E. simpl in E.
      destruct (lt cp m) eqn:El; [|reflexivity]. injection E as <-. rewrite idle_idle in Ei. discriminate.
    + split; [apply (idle_home HP)|]. exists cp. split; [reflexivity|]. apply PIdle; [apply idle_idle|].
      intros m' [= <-]. left. auto.
  - destruct max as [m|]; [|exfalso; auto]. unfold cookie_equals in E.
    destruct (is_task_rq_idle task q cp) eqn:Ei; simpl in E.
    { injection E as <-. split; [exact Hh|]. exists cp. split; [reflexivity|]. apply PIdle; auto. }
    destruct (Z.eqb_spec (ck cp) c) as [Hk|Hk].
    { injection E as <-. split; [exact Hh|]. exists cp. split; [reflexivity|]. apply PCookie; auto. }
    destruct (find_spec i c) as [Hfh Hfc]. set (kp := sched_core_find task q i c) in *.
    assert (Hni : ~ idle cp) by congruence.
    destruct (lt kp cp && lt m cp) eqn:El; injection E as <-.
    + apply andb_prop in El as [_ El]. split; [exact Hh|]. exists cp. split; [reflexivity|].
      apply PBest; [reflexivity | congruence | exact Hk |]. intros m' [= <-]. right. auto.
    + apply andb_false_iff in El. split; [exact Hfh|]. exists cp. split; [reflexivity|].
      destruct Hfc as [Hf|Hf]; [apply PIdle | apply PCookie]; auto; intros m' [= <-]; [right|]; right; auto.
Qed.

(** * What the selection keeps *)

(** Whether the pick of a sibling is a task that is not idle, and whether it is the
    idle task of a CPU that has something to run. *)
Definition busy (s : sel) (j : nat) : bool := match s_pick s j with Some p => negb (is_task_rq_idle task q p) | None => false end.
Definition forced (s : sel) (j : nat) : bool :=
  match s_pick s j with Some p => (r_idle (q j) =? p)%nat && negb (r_nr_running (q j) =? 0) | None => false end.

(** During class [cl]: a pick belongs to its sibling and is idle or has the cookie of
    the core, which is that of the best task, itself a pick; the counter and the flag
    describe the picks. *)
Record Good (cl : SchedClass) (s : sel) : Prop := {
  good_pick j p : s_pick s j = Some p -> In j smt /\ c_cpu (task p) = j /\ (idle p \/ ck p = s_cookie s);
  good_max m : s_max s = Some m -> ck m = s_cookie s /\ s_pick s (c_cpu (task m)) = Some m /\ (cl <> idle_sched_class -> ~ idle m);
  good_none : s_max s = None -> s_cookie s = 0 /\ forall j, s_pick s j = None;
  good_occ : s_occ s = Z.of_nat (length (List.filter (busy s) smt));
  good_fi : s_forceidle s = true <-> exists j, In j smt /\ forced s j = true
}.

Lemma good_start c n : s_cookie (mkSel (fun _ => None) None 0 0 false n) = 0 -> Good c (mkSel (fun _ => None) None 0 0 false n).
Proof.
  intros _. split; simpl; try discriminate; auto.
  - clear. induction smt as [|x l IH]; simpl; auto.
  - split; [discriminate|]. intros (j & _ & E). discriminate.
Qed.

Lemma good_next c c' s : Good c s -> c <> idle_sched_class -> Good c' s.
Proof. intros [G1 G2 G3 G4 G5] Hc. split; auto. intros m E. destruct (G2 m E) as (?&?&?). auto. Qed.

(** Only an idle task and a task with the cookie match. *)
Lemma match_iff m p c : ck m = c -> (idle m -> idle p \/ ck p = c) -> cookie_match task q m p = true -> idle p \/ ck p = c.
Proof.
  unfold cookie_match. destruct (is_task_rq_idle task q m) eqn:Em; simpl; auto.
  destruct (is_task_rq_idle task q p); simpl; auto. intros <- _ E. apply Z.eqb_eq in E. auto.
Qed.

Lemma good_set cl s i p s' : Good cl s -> In i smt -> s_pick s i = None -> c_cpu (task p) = i ->
  s_pick s' = (fun j => if decide (j = i) then Some p else s_pick s j) -> (idle p \/ ck p = s_cookie s') ->
  s_occ s' = (if is_task_rq_idle task q p then s_occ s else s_occ s + 1) ->
  s_forceidle s' = (if (r_idle (q i) =? p)%nat && negb (r_nr_running (q i) =? 0) then true else s_forceidle s) ->
  (forall m, s_max s = Some m -> s_max s' = Some m /\ s_cookie s' = s_cookie s) ->
  (s_max s = None -> s_max s' = Some p /\ ck p = s_cookie s' /\ (cl <> idle_sched_class -> ~ idle p)) -> Good cl s'.
Proof.
  intros [G1 G2 G3 G4 G5] Hi Hn Hh Hp Hc Ho Hf Hm Hm'.
  assert (Hother : forall j, j <> i -> s_pick s' j = s_pick s j) by (intros j Hj; rewrite Hp, decide_False; auto).
  assert (Hself : s_pick s' i = Some p) by (rewrite Hp, decide_True; auto).
  assert (Hck : forall j r, s_pick s j = Some r -> s_cookie s' = s_cookie s).
  { intros j r E. destruct (s_max s) as [m|]; [exact (proj2 (Hm m eq_refl))|]. rewrite (proj2 (G3 eq_refl) j) in E. discriminate. }
  split.
  - intros j r. destruct (decide (j = i)) as [->|Hj]; [rewrite Hself; intros [= <-]; auto|]. rewrite (Hother j Hj). intros E.
    rewrite (Hck j r E). auto.
  - intros m E. destruct (s_max s) as [m0|].
    + destruct (Hm m0 eq_refl) as [E' Ek]. rewrite E in E'. injection E' as <-. rewrite Ek. destruct (G2 m eq_refl) as (Ha & Hb & Hc').
      split; [exact Ha|]. split; [|exact Hc']. rewrite Hother; [exact Hb|]. intros Hx. congruence.
    + destruct (Hm' eq_refl) as (E' & Ek & Hnid). rewrite E in E'. injection E' as ->. rewrite Hh. auto.
  - intros E. destruct (s_max s) as [m0|]; [destruct (Hm m0 eq_refl) | destruct (Hm' eq_refl)]; congruence.
  - rewrite Ho, (filter_set (busy s) (busy s') smt i Hsmt Hi); [|intros j Hj; unfold busy; rewrite Hother; auto | unfold busy; rewrite Hn; auto].
    replace (busy s' i) with (negb (is_task_rq_idle task q p)) by (unfold busy; rewrite Hself; reflexivity).
    rewrite G4. destruct (is_task_rq_idle task q p); simpl; lia.
  - rewrite Hf. unfold forced. split.
    + destruct (_ && _) eqn:E; intros Hs.
      * exists i. rewrite Hself. auto.
      * apply G5 in Hs as (j & Hj & Hs). exists j. split; [exact Hj|]. rewrite Hother; [exact Hs|]. intros ->.
        unfold forced in Hs. rewrite Hn in Hs. discriminate.
    + intros (j & Hj & Hs). destruct (decide (j = i)) as [->|Hji]; [rewrite Hself in Hs; rewrite Hs; auto|].
      rewrite (Hother j Hji) in Hs. destruct (_ && _); [reflexivity|]. apply G5. exists j. auto.
Qed.

(** What one sibling does: nothing, a pick, or a start from the beginning with a
    better task. *)
Inductive turned (cl : SchedClass) (i : nat) (s s' : sel) : bool -> Prop :=
  | TSkip : s' = s -> (s_pick s i <> None \/ class_pick cl i = None) -> turned cl i s s' false
  | TPick p cp : s_pick s i = None -> class_pick cl i = Some cp -> picked (s_cookie s) i cl (s_max s) p cp ->
      s_pick s' = (fun j => if decide (j = i) then Some p else s_pick s j) ->
      (forall m, s_max s = Some m -> s_max s' = Some m) -> (s_max s = None -> s_max s' = Some p /\ p = cp) -> turned cl i s s' false
  | TAgain m p : s_max s = Some m -> class_pick cl i = Some p -> ck p <> ck m ->
      (ck m = 0 /\ lt p m = false \/ ck m <> 0 /\ lt m p = true) -> s_max s' = Some p ->
      s_pick s' = (fun j => if decide (j = i) then Some p else None) -> turned cl i s s' true.

Lemma first_pick i cl p cp : picked 0 i cl None p cp -> class_pick cl i = Some cp -> pick 0 i cl None fi = Some p -> p = cp.
Proof. intros _ Hc. unfold pick_task. rewrite Hc. simpl. congruence. Qed.

Lemma busy_alone s i p : In i smt -> s_pick s = (fun j => if decide (j = i) then Some p else None) -> ~ idle p ->
  length (List.filter (busy s) smt) = 1%nat.
Proof.
  intros Hi Hp Hn. rewrite (filter_set (fun _ => false) (busy s) smt i Hsmt Hi).
  - unfold busy. rewrite Hp, decide_True by reflexivity. apply not_true_is_false in Hn. rewrite Hn.
    clear. induction smt; simpl; auto.
  - intros j Hj. unfold busy. rewrite Hp, decide_False; auto.
  - reflexivity.
Qed.

Lemma select_sibling_spec cl i s s' again : Good cl s -> In i smt -> one cl i s = (s', again) -> Good cl s' /\ turned cl i s s' again.
Proof.
  intros HG Hi. pose proof HG as [G1 G2 G3 G4 G5]. unfold select_sibling. destruct (s_pick s i) as [r|] eqn:Es.
  { intros [= <- <-]. split; [exact HG|]. apply TSkip; [reflexivity | left; congruence]. }
  destruct (pick (s_cookie s) i cl (s_max s) fi) as [p|] eqn:Ep.
  2:{ intros [= <- <-]. split; [exact HG|]. apply TSkip; [reflexivity|]. right. unfold pick_task in Ep.
      destruct (class_pick cl i); [|reflexivity]. repeat case_match; congruence. }
  destruct (pick_task_spec _ _ _ _ _ Ep (fun E => proj1 (G3 E))) as (Hh & cp & Hcp & Hpk).
  destruct (s_max s) as [m|] eqn:Em; simpl.
  - destruct (G2 m eq_refl) as (Hkm & Hmp & Hni). destruct (cookie_match task q m p) eqn:Ematch; intros [= <- <-].
    + assert (Hipc : idle p \/ ck p = s_cookie s).
      { apply (match_iff m); auto. intros Hmi. destruct (decide (cl = idle_sched_class)) as [->|Hcl]; [|destruct (Hni Hcl Hmi)].
        rewrite (pick_idle HP) in Hcp. injection Hcp as <-. destruct Hpk as [Hx Hy|Hx Hy|Hy Hx Hz Hw]; auto. subst p. destruct (Hx (idle_idle i)). }
      split.
      * eapply (good_set cl s i p); simpl; try reflexivity; auto; [rewrite Em; intros m' [= <-]; auto | congruence].
      * eapply TPick; eauto; simpl; rewrite ?Em; auto; congruence.
    + unfold cookie_match in Ematch. destruct (is_task_rq_idle task q m) eqn:Eim; simpl in Ematch; [discriminate|].
      destruct (is_task_rq_idle task q p) eqn:Eip; simpl in Ematch; [discriminate|]. apply Z.eqb_neq in Ematch.
      destruct Hpk as [Hx _|Hx _|Hx0 _ Hx Hb]; [congruence | congruence|]. subst p. specialize (Hb m eq_refl).
      split.
      * split; simpl.
        -- intros j r. destruct (decide (j = i)) as [->|]; [|discriminate]. intros [= <-]. auto.
        -- intros m' [= <-]. rewrite Hh, decide_True by reflexivity. repeat split; congruence.
        -- discriminate.
        -- erewrite (busy_alone _ i cp Hi); [reflexivity | reflexivity | congruence].
        -- split; [discriminate|]. intros (j & _ & E). unfold forced in E. simpl in E. destruct (decide (j = i)) as [->|]; [|discriminate].
           apply andb_prop in E as [E _]. apply Nat.eqb_eq in E. rewrite <- E, idle_idle in Eip. discriminate.
      * eapply TAgain; eauto; try congruence; rewrite Hkm; exact Hb.
  - destruct (G3 eq_refl) as [Hc0 Hnone]. rewrite Hc0 in Ep, Hpk. pose proof (first_pick _ _ _ _ Hpk Hcp Ep) as ->. intros [= <- <-]. split.
    + eapply (good_set cl s i cp); simpl; try reflexivity; auto; [congruence|]. intros _. repeat split; auto.
      intros Hcl Hid. apply (proj2 (pick_own HP cl i cp Hcp Hcl)). apply (idle_iff i cp Hh). exact Hid.
    + eapply TPick; simpl; eauto; rewrite ?Em, ?Hc0; auto; intros ? [=].
Qed.

(** A pass over the siblings: [P] holds of the siblings done, [R] when it starts again. *)
Lemma pass_ind cl (P : list nat -> sel -> Prop) (R : sel -> Prop) :
  (forall dn i s s', Good cl s -> In i smt -> P dn s -> turned cl i s s' false -> P (dn ++ [i]) s') ->
  (forall dn i s s', Good cl s -> In i smt -> P dn s -> turned cl i s s' true -> R s') ->
  forall l dn s s' again, incl l smt -> Good cl s -> P dn s -> all cl l s = (s', again) -> Good cl s' /\ if again then R s' else P (dn ++ l) s'.
Proof.
  intros H1 H2. induction l as [|i l IH]; simpl; intros dn s s' again Hl HG HP'.
  { intros [= <- <-]. rewrite app_nil_r. auto. }
  destruct (one cl i s) as [s1 ag] eqn:E1. assert (Hi : In i smt) by (apply Hl; left; reflexivity).
  destruct (select_sibling_spec _ _ _ _ _ HG Hi E1) as [HG1 Ht]. destruct ag.
  - intros [= <- <-]. split; [exact HG1 | exact (H2 dn i s s1 HG Hi HP' Ht)].
  - intros E. destruct (IH (dn ++ [i]) s1 s' again) as [HG' Hend]; auto; [intros x Hx; apply Hl; right; exact Hx | exact (H1 dn i s s1 HG Hi HP' Ht)|].
    rewrite <- app_assoc in Hend. auto.
Qed.

Lemma class_ind cl (P : list nat -> sel -> Prop) :
  (forall dn i s s', Good cl s -> In i smt -> P dn s -> turned cl i s s' false -> P (dn ++ [i]) s') ->
  (forall dn i s s', Good cl s -> In i smt -> P dn s -> turned cl i s s' true -> P [] s') ->
  forall fuel s s', Good cl s -> P [] s -> a_class fuel cl s = Ok s' -> Good cl s' /\ P smt s'.
Proof.
  intros H1 H2. induction fuel as [|fuel IH]; simpl; intros s s' HG HP'; [discriminate|].
  destruct (all cl smt s) as [s1 ag] eqn:E1.
  destruct (pass_ind cl P (P []) H1 H2 smt [] s s1 ag (incl_refl _) HG HP' E1) as [HG1 Hend].
  destruct ag; [apply IH; auto|]. intros [= <-]. auto.
Qed.

(** A sibling whose class picks a task has a pick at the end. *)
Lemma class_picks cl fuel s s' : Good cl s -> a_class fuel cl s = Ok s' ->
  Good cl s' /\ forall i, In i smt -> class_pick cl i <> None -> s_pick s' i <> None.
Proof.
  intros HG E. apply (class_ind cl (fun dn s => forall i, In i dn -> class_pick cl i <> None -> s_pick s i <> None)) in E; auto.
  - intros dn i s0 s1 HG0 Hi Hdn Ht j Hj Hcj. apply in_app_iff in Hj as [Hj|[<-|[]]].
    + specialize (Hdn j Hj Hcj). inversion Ht as [Es1 _|p cp Hnone _ _ Hp _ _|]; subst; [exact Hdn|]. rewrite Hp. case_decide; [discriminate | exact Hdn].
    + inversion Ht as [Es1 [Hx|Hx]|p cp Hnone _ _ Hp _ _|]; subst; [exact Hx | contradiction|]. rewrite Hp, decide_True by reflexivity. discriminate.
Qed.

(** * The selection ends *)

(** Tasks of different cookies are ordered, as a task and an idle task are. *)
Definition Ordered (rank : nat -> Z) : Prop :=
  forall a b, a <> b -> (ck a <> ck b \/ idle a) -> lt a b = (rank a <? rank b).

Section Rank.
  Context (rank : nat -> Z) (Hord : Ordered rank).

(** A task that has a cookie is preferred to an equal one that has none. *)
Definition weight (t : nat) : Z := 2 * rank t + if ck t =? 0 then 0 else 1.

Lemma again_heavier m p : ck p <> ck m -> (ck m = 0 /\ lt p m = false \/ ck m <> 0 /\ lt m p = true) -> weight m < weight p /\ rank m <= rank p.
Proof.
  intros Hk. assert (Hn : p <> m) by congruence. unfold weight. intros [[Hm Hl]|[Hm Hl]].
  - rewrite Hord in Hl by auto. apply Z.ltb_ge in Hl. destruct (Z.eqb_spec (ck m) 0); [|contradiction]. destruct (Z.eqb_spec (ck p) 0); lia.
  - rewrite Hord in Hl by auto. apply Z.ltb_lt in Hl. destruct (Z.eqb_spec (ck m) 0), (Z.eqb_spec (ck p) 0); lia.
Qed.

(** The siblings whose pick of the class could still replace the best task. *)
Definition heavier (cl : SchedClass) (m : nat) (i : nat) : bool :=
  match class_pick cl i with Some p => weight m <? weight p | None => false end.
Definition room (cl : SchedClass) (s : sel) : nat :=
  match s_max s with Some m => length (List.filter (heavier cl m) smt) | None => length smt end.

Lemma room_le cl s : (room cl s <= length smt)%nat.
Proof.
  unfold room. destruct (s_max s); [|lia]. induction smt as [|x l IH]; simpl; [lia|]. apply NoDup_cons in Hsmt as [_ Hl].
  specialize (IH Hl). destruct (heavier cl n x); simpl; lia.
Qed.

Lemma room_again cl i s s' : In i smt -> turned cl i s s' true -> (room cl s' < room cl s)%nat.
Proof.
  intros Hi Ht. inversion Ht as [| |m p Hm Hp Hk Hb Hm' _]; subst. unfold room. rewrite Hm, Hm'.
  destruct (again_heavier _ _ Hk Hb) as [Hw _]. apply (filter_shrinks _ _ _ i Hi).
  - intros j. unfold heavier. destruct (class_pick cl j); [|discriminate]. rewrite !Z.ltb_lt. lia.
  - unfold heavier. rewrite Hp. apply Z.ltb_lt. exact Hw.
  - unfold heavier. rewrite Hp. apply Z.ltb_irrefl.
Qed.

Lemma room_kept cl i s s' : turned cl i s s' false -> (room cl s' <= room cl s)%nat.
Proof.
  intros Ht. inversion Ht as [Es1 _|p cp Hnone _ _ Hp Hm1 Hm2|]; subst; [lia|]. unfold room at 2. destruct (s_max s) as [m|] eqn:Em.
  - unfold room. rewrite (Hm1 m eq_refl). lia.
  - apply room_le.
Qed.

Lemma class_ends cl fuel s : Good cl s -> (room cl s < fuel)%nat -> exists s', a_class fuel cl s = Ok s'.
Proof.
  revert s. induction fuel as [|fuel IH]; intros s HG Hr; [lia|]. simpl. destruct (all cl smt s) as [s1 ag] eqn:E1.
  destruct (pass_ind cl (fun _ s' => (room cl s' <= room cl s)%nat) (fun s' => (room cl s' < room cl s)%nat)) with (l := smt) (dn := @nil nat) (s := s) (s' := s1) (again := ag) as [HG1 Hend]; auto; try apply incl_refl.
  - intros _ i s0 s2 _ _ H1 Ht. apply room_kept in Ht. lia.
  - intros _ i s0 s2 _ Hi H1 Ht. apply room_again in Ht; [lia | exact Hi].
  - destruct ag; [apply IH; [exact HG1 | lia] | eauto].
Qed.

(** * Whom the selection passes over *)

Definition cidx (c : SchedClass) : nat :=
  match c with stop_sched_class => 0 | dl_sched_class => 1 | rt_sched_class => 2 | fair_sched_class => 3 | idle_sched_class => 4 end.

(** A task of a higher class comes first. *)
Definition Layered : Prop := forall c c' i j a b, (cidx c < cidx c')%nat -> class_pick c i = Some a -> class_pick c' j = Some b -> rank b < rank a.

Context (Hlay : Layered).

(** A pick of one of the first [n] classes. *)
Definition High (n : nat) (m : nat) : Prop := exists c j, (cidx c < n)%nat /\ class_pick c j = Some m.

(** A pick of a class was selected or passed over for a task that ranks as high. *)
Definition served (s : sel) (i t : nat) : Prop := exists u, (s_max s = Some u \/ s_pick s i = Some u) /\ rank t <= rank u.

Record Best (n : nat) (cl : SchedClass) (dn : list nat) (s : sel) : Prop := {
  best_served c i t : In i smt -> (cidx c < n)%nat \/ c = cl /\ In i dn -> class_pick c i = Some t -> served s i t;
  best_high c i t : In i smt -> (cidx c < n)%nat -> class_pick c i = Some t -> exists m, s_max s = Some m /\ High n m;
  best_pick i u : s_pick s i = Some u -> (exists m, s_max s = Some m /\ High n m) \/ class_pick cl i = Some u \/ In i dn;
  best_max m : s_max s = Some m -> High (S n) m
}.

Lemma picked_served c i cl m p cp : picked c i cl (Some m) p cp -> ck m = c -> rank cp <= rank m \/ rank cp <= rank p.
Proof.
  assert (Hno : forall a, a <> cp -> (ck a <> ck cp \/ idle a) -> lt a cp = false -> rank cp <= rank a).
  { intros a Ha Hk E. rewrite Hord in E by auto. apply Z.ltb_ge in E. lia. }
  intros [Hid Hm|Hck Hm| -> _ _ _] Hkm; [| |right; lia]; specialize (Hm m eq_refl).
  - destruct Hm as [(-> & Hl & Hk)|[->|(Hc & Hk & Hn & [Hl|Hl])]]; [|right; lia| |].
    + rewrite Hord in Hl; [apply Z.ltb_lt in Hl; lia | congruence | left; congruence].
    + right. apply Hno; auto. congruence.
    + left. apply Hno; auto; [congruence | left; congruence].
  - destruct Hm as [->|(Hc & Hk & Hn & [Hl|Hl])]; [right; lia| |].
    + right. apply Hno; auto; [congruence | left; congruence].
    + left. apply Hno; auto; [congruence | left; congruence].
Qed.

Lemma best_step cl dn i s s' : Good cl s -> In i smt -> Best (cidx cl) cl dn s -> turned cl i s s' false -> Best (cidx cl) cl (dn ++ [i]) s'.
Proof.
  intros HG Hi [B1 B2 B3 B4] Ht. inversion Ht as [-> Hs|p cp Hnone Hcp Hpk Hp Hm1 Hm2|]; subst.
  - split; auto.
    + intros c j t Hj Hd Hc. destruct Hd as [Hd|[-> Hd]]; [eauto|]. apply in_app_iff in Hd as [Hd|[<-|[]]]; [eauto|].
      destruct Hs as [Hs|Hs]; [|congruence]. destruct (s_pick s i) as [u|] eqn:Eu; [|congruence].
      destruct (B3 i u Eu) as [(m & Em & c' & j & Hc' & Hj')|[Hu|Hu]]; [| |eauto].
      * exists m. split; [auto|]. pose proof (Hlay _ _ _ _ _ _ Hc' Hj' Hc). lia.
      * exists u. split; [auto|]. replace u with t by congruence. lia.
    + intros j u Hu. destruct (B3 j u Hu) as [?|[?|?]]; auto. right. right. apply in_app_iff. auto.
  - assert (Hmax : forall u j t, (s_max s = Some u \/ s_pick s j = Some u) -> rank t <= rank u -> served s' j t).
    { intros u j t Hu Hr. exists u. split; [|exact Hr]. destruct Hu as [Hu|Hu]; [auto|]. right. rewrite Hp. case_decide; [subst; congruence | exact Hu]. }
    split.
    + intros c j t Hj Hd Hc. destruct Hd as [Hd|[-> Hd]]; [destruct (B1 c j t Hj (or_introl Hd) Hc) as (u & Hu & Hr); eauto|].
      apply in_app_iff in Hd as [Hd|[<-|[]]]; [destruct (B1 cl j t Hj (or_intror (conj eq_refl Hd)) Hc) as (u & Hu & Hr); eauto|].
      rewrite Hcp in Hc. injection Hc as ->. destruct (s_max s) as [m|] eqn:Em.
      * destruct (picked_served _ _ _ _ _ _ Hpk (proj1 (good_max _ _ HG m Em))) as [Hr|Hr]; [eauto|].
        exists p. split; [|exact Hr]. right. rewrite Hp, decide_True; reflexivity.
      * destruct (Hm2 eq_refl) as [Hx ->]. exists t. split; [auto | lia].
    + intros c j t Hj Hd Hc. destruct (B2 c j t Hj Hd Hc) as (m & Em & Hh). eauto.
    + intros j u. rewrite Hp. case_decide as Hji; [intros _; right; right; subst; apply in_app_iff; simpl; auto|].
      intros Hu. destruct (B3 j u Hu) as [(m & Em & Hh)|[?|?]]; [eauto|auto|]. right. right. apply in_app_iff. auto.
    + intros m Em. destruct (s_max s) as [m0|] eqn:E0.
      * rewrite (Hm1 m0 eq_refl) in Em. injection Em as <-. auto.
      * destruct (Hm2 eq_refl) as [Hx ->]. rewrite Hx in Em. injection Em as <-. exists cl, i. split; [lia | exact Hcp].
Qed.

Lemma best_again cl dn i s s' : Best (cidx cl) cl dn s -> turned cl i s s' true -> Best (cidx cl) cl [] s'.
Proof.
  intros [B1 B2 B3 B4] Ht. inversion Ht as [| |m p Hm Hp Hk Hb Hm' Hp']; subst.
  destruct (again_heavier _ _ Hk Hb) as [_ Hr].
  assert (Hlow : ~ High (cidx cl) m).
  { intros (c & j & Hc & Hj). pose proof (Hlay _ _ _ _ _ _ Hc Hj Hp). lia. }
  assert (Hnone : forall c j t, In j smt -> (cidx c < cidx cl)%nat -> class_pick c j = Some t -> False).
  { intros c j t Hj Hc Hct. destruct (B2 c j t Hj Hc Hct) as (m0 & E0 & Hh). congruence. }
  split.
  - intros c j t Hj [Hc|[_ []]] Hct. destruct (Hnone c j t Hj Hc Hct).
  - intros c j t Hj Hc Hct. destruct (Hnone c j t Hj Hc Hct).
  - intros j u. rewrite Hp'. case_decide; [subst; intros [= <-]; auto | discriminate].
  - intros m0. rewrite Hm'. intros [= <-]. exists cl, i. split; [lia | exact Hp].
Qed.

(** What holds before the class with number [n]. *)
Record Before (n : nat) (s : sel) : Prop := {
  before_served c i t : In i smt -> (cidx c < n)%nat -> class_pick c i = Some t -> served s i t;
  before_high c i t : In i smt -> (cidx c < n)%nat -> class_pick c i = Some t -> exists m, s_max s = Some m /\ High n m;
  before_max m : s_max s = Some m -> High n m;
  before_pick i u : s_pick s i = Some u -> exists m, s_max s = Some m
}.

Lemma class_best cl fuel s s' : Good cl s -> Before (cidx cl) s -> a_class fuel cl s = Ok s' -> Good cl s' /\ Before (S (cidx cl)) s'.
Proof.
  intros HG [B1 B2 B3 B4] E.
  destruct (class_ind cl (Best (cidx cl) cl) (best_step cl) (fun dn i s s' _ _ => best_again cl dn i s s') fuel s s' HG) as [HG' [C1 C2 C3 C4]]; [|exact E|].
  - split.
    + intros c i t Hi [Hc|[_ []]]; eauto.
    + eauto.
    + intros i u Hu. destruct (B4 i u Hu) as (m & Em). left. eauto.
    + intros m Em. destruct (B3 m Em) as (c & j & Hc & Hj). exists c, j. split; [lia | exact Hj].
  - split; [exact HG'|].
    assert (Hcase : forall c i, In i smt -> (cidx c < S (cidx cl))%nat -> (cidx c < cidx cl)%nat \/ c = cl /\ In i smt).
    { intros c i Hi Hc. destruct (Nat.eq_dec (cidx c) (cidx cl)) as [He|]; [right|left; lia]. split; [|exact Hi]. destruct c, cl; try discriminate; reflexivity. }
    assert (Hs : forall c i t, In i smt -> (cidx c < S (cidx cl))%nat -> class_pick c i = Some t -> served s' i t) by (intros; eauto).
    assert (Hp : forall i u, s_pick s' i = Some u -> exists m, s_max s' = Some m).
    { intros i u Hu. destruct (s_max s') as [m|] eqn:Em; [eauto|]. rewrite (proj2 (good_none _ _ HG' Em) i) in Hu. discriminate. }
    split; auto.
    intros c i t Hi Hc Hct. destruct (Hs c i t Hi Hc Hct) as (u & [Hu|Hu] & _); [|destruct (Hp i u Hu) as [m Em]]; eauto.
Qed.
End Rank.

(** * All classes *)

Abbreviation classes_of := (fun fuel => select_classes cfs_prio_less dl_time_before task class_pick fuel q fi smt).

Definition sel0 (n : Z) : sel := mkSel (fun _ => None) None 0 0 false n.

(** The classes in turn: what holds before each of them is kept, and the last one is
    the idle class. *)
Lemma classes_rule (P : nat -> sel -> Prop) fuel :
  (forall cl s s', Good cl s -> P (cidx cl) s -> a_class fuel cl s = Ok s' -> P (S (cidx cl)) s') ->
  forall s s', Good stop_sched_class s -> P O s -> classes_of fuel for_each_class s = Ok s' ->
  Good idle_sched_class s' /\ P 5%nat s' /\ exists s4, Good idle_sched_class s4 /\ a_class fuel idle_sched_class s4 = Ok s'.
Proof.
  intros HP' s s' HG H0 E.
  assert (Hstep : forall cl s s1, Good cl s -> P (cidx cl) s -> a_class fuel cl s = Ok s1 -> Good cl s1 /\ P (S (cidx cl)) s1).
  { intros cl s0 s1 G0 P0 E0. split; [exact (proj1 (class_picks cl fuel s0 s1 G0 E0)) | eauto]. }
  unfold for_each_class in E.
  apply bind_ok_inv in E as (s1 & E1 & E). destruct (Hstep _ _ _ HG H0 E1) as [G1 P1].
  apply bind_ok_inv in E as (s2 & E2 & E). destruct (Hstep dl_sched_class _ _ (good_next _ _ _ G1 ltac:(discriminate)) P1 E2) as [G2 P2].
  apply bind_ok_inv in E as (s3 & E3 & E). destruct (Hstep rt_sched_class _ _ (good_next _ _ _ G2 ltac:(discriminate)) P2 E3) as [G3 P3].
  apply bind_ok_inv in E as (s4 & E4 & E). destruct (Hstep fair_sched_class _ _ (good_next _ _ _ G3 ltac:(discriminate)) P3 E4) as [G4 P4].
  apply bind_ok_inv in E as (s5 & E5 & E). injection E as <-.
  pose proof (good_next _ idle_sched_class _ G4 ltac:(discriminate)) as G4'.
  destruct (Hstep idle_sched_class _ _ G4' P4 E5) as [G5 P5]. eauto 6.
Qed.

Lemma select_good fuel n s : classes_of fuel for_each_class (sel0 n) = Ok s ->
  Good idle_sched_class s /\ forall i, In i smt -> exists p, s_pick s i = Some p.
Proof.
  intros E. destruct (classes_rule (fun _ _ => True) fuel (fun _ _ _ _ _ _ => I) _ _ (good_start _ n eq_refl) I E) as (HG & _ & s4 & G4 & E4).
  split; [exact HG|]. intros i Hi. destruct (s_pick s i) eqn:Ep; [eauto|].
  destruct (proj2 (class_picks _ _ _ _ G4 E4) i Hi); [rewrite (pick_idle HP); discriminate | exact Ep].
Qed.

(** A start for each sibling, at most, and one pass without. *)
Lemma select_ends rank fuel n : Ordered rank -> (length smt < fuel)%nat -> exists s, classes_of fuel for_each_class (sel0 n) = Ok s.
Proof.
  intros Hord Hf.
  assert (Hc : forall cl s, Good cl s -> exists s', a_class fuel cl s = Ok s' /\ Good cl s').
  { intros cl s HG. destruct (class_ends rank Hord cl fuel s HG) as [s' E]; [pose proof (room_le rank cl s); lia|].
    exists s'. split; [exact E | exact (proj1 (class_picks _ _ _ _ HG E))]. }
  assert (Hcs : forall cls s cl, Good cl s -> Forall (fun c => c <> idle_sched_class) (removelast (cl :: cls)) ->
    exists s', classes_of fuel (cl :: cls) s = Ok s').
  { induction cls as [|c cls IH]; intros s cl HG HF; destruct (Hc cl s HG) as (s1 & E1 & G1); simpl; rewrite E1; simpl; [eauto|].
    change (removelast (cl :: c :: cls)) with (cl :: removelast (c :: cls)) in HF. apply Forall_cons in HF as [Hcl HF].
    apply (IH s1 c); [exact (good_next _ _ _ G1 Hcl) | exact HF]. }
  apply Hcs; [apply good_start; reflexivity|]. simpl. repeat constructor; discriminate.
Qed.

Lemma select_best rank fuel n s : Ordered rank -> Layered rank -> classes_of fuel for_each_class (sel0 n) = Ok s ->
  forall c i t, In i smt -> class_pick c i = Some t -> served rank s i t.
Proof.
  intros Hord Hlay E.
  assert (H0 : Before rank 0 (sel0 n)) by (split; simpl; try discriminate; lia).
  destruct (classes_rule (Before rank) fuel (fun cl s s' HG HB E => proj2 (class_best rank Hord Hlay cl fuel s s' HG HB E)) _ _
    (good_start _ n eq_refl) H0 E) as (_ & HB & _).
  intros c i t Hi Hc. apply (before_served _ _ _ HB c); auto. destruct c; simpl; lia.
Qed.
End Select.
