(* ===== verification/CoreSteal.v ===== *)
(** Core scheduling: what a run queue's tree of tasks with a cookie holds after any
    enqueues and dequeues, the walk over the tasks of a cookie, and the stealing of such
    a task by a sibling that is forced to idle ([try_steal_cookie]). *)

From S2P Require Import Prelude KHeaders Priority CoreSched Affinity.
Local Open Scope Z_scope.

(** * Operations *)

(** The part of [enqueue_task] and [dequeue_task] about the tree. *)
Section Queueing.
  Context `{Headers} (cfs_prio_less : bool -> CoreTask -> CoreTask -> bool) (dl_time_before : Z -> Z -> bool).

Definition enqueue_core (task : nat -> ctask) (q : rqs) (cpu t : nat) : rqs :=
  if r_core_enabled (q cpu) then sched_core_enqueue cfs_prio_less dl_time_before task q cpu t else q.

Definition dequeue_core (q : rqs) (cpu t : nat) : rqs :=
  if r_core_enabled (q cpu) then sched_core_dequeue q cpu t else q.

(** The run queues, the tasks as they are compared, and their masks. *)
Record cores := mkCores { k_rq : rqs; k_task : nat -> ctask; k_at : nat -> atask }.

Context (hp : hotplug).

Definition put_task {A} (f : nat -> A) (t : nat) (v : A) : nat -> A := fun u => if decide (u = t) then v else f u.

(** [deactivate_task], [set_task_cpu] and [activate_task]; true with a warning. *)
Definition steal_task (s : cores) (this that p : nat) : cores * bool :=
  let q := dequeue_core (k_rq s) that p in
  let '(a, warn) := set_task_cpu hp (deactivate_migrating (k_at s p)) this in
  let c := k_task s p in
  let task := put_task (k_task s) p (mkCtask (c_core c) this (core_occupation c)) in
  (mkCores (enqueue_core task q this p) task (put_task (k_at s) p (activate_queued a)), warn).

(** Whether the loop takes [p]. *)
Definition may_steal (s : cores) (this that p : nat) : bool :=
  negb (bool_decide (r_core_pick (k_rq s that) = Some p) || (p =? r_curr (k_rq s that))%nat) &&
  is_cpu_allowed hp (k_at s p) this &&
  negb (core_occupation (k_task s (r_idle (k_rq s this))) <? core_occupation (k_task s p)).

(** The loop from [p]; the number of turns is bounded. *)
Fixpoint steal_loop (fuel : nat) (s : cores) (this that : nat) (c : Z) (p : nat) : res (option nat) :=
  match fuel with
  | O => Diverge
  | S fuel =>
      if may_steal s this that p then Ok (Some p)
      else match sched_core_next (k_task s) (k_rq s) that p c with
           | Some p => steal_loop fuel s this that c p
           | None => Ok None
           end
  end.

(** With the task that was stolen, after which [this] is rescheduled, and with true when
    the move gave a warning. *)
Definition try_steal_cookie (fuel : nat) (s : cores) (this that : nat) : res (cores * option nat * bool) :=
  let q := k_rq s in
  let c := r_core_cookie (core_of q this) in
  if c =? 0 then Ok (s, None, false)
  else if negb (r_curr (q this) =? r_idle (q this))%nat then Ok (s, None, false)
  else
    let p := sched_core_find (k_task s) q that c in
    if (p =? r_idle (q that))%nat then Ok (s, None, false)
    else
      r ← steal_loop fuel s this that c p;
      match r with
      | Some p => let '(s, warn) := steal_task s this that p in Ok (s, Some p, warn)
      | None => Ok (s, None, false)
      end.

(** The CPUs of a domain, from [cpu] on; [need_resched] is asked before each. *)
Fixpoint steal_from (fuel : nat) (s : cores) (cpu : nat) (need_resched : nat -> bool) (l : list nat) : res (cores * option nat) :=
  match l with
  | [] => Ok (s, None)
  | i :: l =>
      if (i =? cpu)%nat then steal_from fuel s cpu need_resched l
      else if need_resched i then Ok (s, None)
      else
        r ← try_steal_cookie fuel s cpu i;
        match r with
        | (s, Some p, _) => Ok (s, Some p)
        | (s, None, _) => steal_from fuel s cpu need_resched l
        end
  end.

Definition steal_cookie_task (fuel : nat) (s : cores) (cpu : nat) (need_resched : nat -> bool) (span : list nat) : res (cores * option nat) :=
  steal_from fuel s cpu need_resched (wrap_from cpu span).

(** [doms] are the domains of the CPU, each as the spanned CPUs and what
    [need_resched] says before it and in it. *)
Fixpoint sched_core_balance (fuel : nat) (s : cores) (cpu : nat) (doms : list (list nat * bool * (nat -> bool))) : res (cores * option nat) :=
  match doms with
  | [] => Ok (s, None)
  | (span, need, need_resched) :: doms =>
      if need then Ok (s, None)
      else
        r ← steal_cookie_task fuel s cpu need_resched span;
        match r with
        | (s, Some p) => Ok (s, Some p)
        | (s, None) => sched_core_balance fuel s cpu doms
        end
  end.

(** True when [sched_core_balance] is queued. *)
Definition queue_core_balance (q : rqs) (cpu : nat) : bool :=
  r_core_enabled (q cpu) && negb (r_core_cookie (core_of q cpu) =? 0) && negb (r_nr_running (q cpu) =? 0).
End Queueing.

(** * The tree *)

Lemma rb_add_in lt t l x : In x (rb_add lt t l) <-> x = t \/ In x l.
Proof. induction l as [|y l IH]; simpl; [intuition|]. destruct (lt t y); simpl; rewrite ?IH; intuition. Qed.

Lemma rb_erase_in t l x : In x (rb_erase t l) <-> In x l /\ x <> t.
Proof. unfold rb_erase. rewrite filter_In. destruct (Nat.eqb_spec x t); simpl; intuition discriminate. Qed.

(** Insertion keeps an order [R] that the comparison respects. *)
Lemma rb_add_sorted (R : nat -> nat -> Prop) lt t l : (forall x, In x l -> lt t x = false -> R x t) ->
  (forall x y, In x l -> In y l -> lt t x = true -> x = y \/ R x y -> R t y) -> StronglySorted R l -> StronglySorted R (rb_add lt t l).
Proof.
  intros H1 H2 Hs. induction Hs as [|x l Hs IH Hx]; simpl; [repeat constructor|].
  destruct (lt t x) eqn:E.
  - constructor; [constructor; assumption|]. rewrite Forall_forall in *. intros y Hy. apply (H2 x y); [left; reflexivity | apply list_elem_of_In; exact Hy | exact E|].
    apply list_elem_of_In in Hy as [->|Hy]; [left; reflexivity|]. right. apply Hx, list_elem_of_In. exact Hy.
  - constructor; [apply IH; [intros y Hy; apply H1; right; exact Hy | intros y z Hy Hz; apply (H2 y z); right; auto]|].
    rewrite Forall_forall in *. intros y Hy. apply list_elem_of_In, rb_add_in in Hy as [->|Hy]; [apply H1; simpl; auto|].
    apply Hx, list_elem_of_In. exact Hy.
Qed.

Lemma sorted_filter {A} (R : A -> A -> Prop) f (l : list A) : StronglySorted R l -> StronglySorted R (List.filter f l).
Proof.
  induction 1 as [|x l Hs IH Hx]; simpl; [constructor|]. destruct (f x); auto. constructor; auto.
  rewrite Forall_forall in *. intros y Hy. apply Hx. apply list_elem_of_In. apply list_elem_of_In, filter_In in Hy. tauto.
Qed.

Lemma rb_add_once lt t l : ~ In t l -> NoDup l -> NoDup (rb_add lt t l).
Proof.
  intros Ht Hn. induction Hn as [|x l Hx Hn IH]; simpl; [repeat constructor; apply not_elem_of_nil|].
  rewrite list_elem_of_In in Hx. simpl in Ht. destruct (lt t x); repeat constructor; rewrite ?list_elem_of_In; simpl; auto.
  rewrite rb_add_in. intuition.
Qed.

Lemma find_filter {A} (f g : A -> bool) l : (forall x, f x = g x) -> List.find f l = head (List.filter g l).
Proof. intros Hfg. induction l as [|x l IH]; simpl; [reflexivity|]. rewrite Hfg. destruct (g x); simpl; auto. Qed.

Lemma rb_next_app a p b : ~ In p a -> rb_next p (a ++ p :: b) = head b.
Proof.
  induction a as [|x a IH]; simpl; intros Hp; [rewrite Nat.eqb_refl; reflexivity|].
  destruct (Nat.eqb_spec x p); [exfalso; apply Hp; left; exact e | apply IH; tauto].
Qed.

Section Tree.
  Context `{Headers} (cfs_prio_less : bool -> CoreTask -> CoreTask -> bool) (dl_time_before : Z -> Z -> bool) (task : nat -> ctask).

Abbreviation ck := (cookie task).
Abbreviation before := (rb_sched_core_less cfs_prio_less dl_time_before task).

(** A tree is ordered by cookie, whatever the priorities; it holds a task once, and
    only tasks with a cookie. *)
Record TreeOk (l : list nat) : Prop := {
  tree_sorted : StronglySorted (fun a b => ck a <= ck b) l;
  tree_once : NoDup l;
  tree_tagged t : In t l -> ck t <> 0
}.

Lemma before_cookie fi a b : (ck a < ck b -> before fi a b = true) /\ (before fi a b = true -> ck a <= ck b) /\ (before fi a b = false -> ck b <= ck a).
Proof.
  unfold rb_sched_core_less, __sched_core_less, cookie.
  destruct (Z.ltb_spec (core_cookie (c_core (task a))) (core_cookie (c_core (task b)))); [repeat split; auto; try lia; discriminate|].
  destruct (Z.ltb_spec (core_cookie (c_core (task b))) (core_cookie (c_core (task a)))); repeat split; intros; try lia; discriminate.
Qed.

Lemma tree_add fi t l : TreeOk l -> ~ In t l -> ck t <> 0 -> TreeOk (rb_add (before fi) t l).
Proof.
  intros [Hs Hn Ht] Hin Hc. split.
  - apply rb_add_sorted; auto.
    + intros x _. apply before_cookie.
    + intros x y _ _ E Hxy. apply before_cookie in E. destruct Hxy as [->|]; lia.
  - apply rb_add_once; auto.
  - intros x Hx. apply rb_add_in in Hx as [->|Hx]; auto.
Qed.

Lemma tree_erase t l : TreeOk l -> TreeOk (rb_erase t l).
Proof.
  intros [Hs Hn Ht]. split; [apply sorted_filter; exact Hs | | intros x Hx; apply rb_erase_in in Hx as [Hx _]; auto].
  unfold rb_erase. clear Hs Ht. induction Hn as [|x l Hx Hn IH]; simpl; [constructor|]. destruct (negb _); auto. constructor; auto.
  rewrite list_elem_of_In in *. rewrite filter_In. tauto.
Qed.

(** The tasks of a cookie, from the left. *)
Definition of_cookie (c : Z) (l : list nat) : list nat := List.filter (fun t => ck t =? c) l.

Lemma cmp_iff c t : (rb_sched_core_cmp c (c_core (task t)) =? 0) = (ck t =? c).
Proof.
  unfold rb_sched_core_cmp, cookie. destruct (Z.ltb_spec c (core_cookie (c_core (task t)))).
  - symmetry. apply Z.eqb_neq. lia.
  - destruct (Z.ltb_spec (core_cookie (c_core (task t))) c); symmetry; [apply Z.eqb_neq | apply Z.eqb_eq]; lia.
Qed.

Lemma sched_core_find_head q cpu c : sched_core_find task q cpu c = default (r_idle (q cpu)) (head (of_cookie c (r_core_tree (q cpu)))).
Proof. unfold sched_core_find, of_cookie. rewrite (find_filter _ (fun t => ck t =? c)); [reflexivity|]. intros t. apply cmp_iff. Qed.

(** [sched_core_next] leads from a task to the next one of its cookie. *)
Lemma next_spec q cpu a p b c : TreeOk (r_core_tree (q cpu)) -> r_core_tree (q cpu) = a ++ p :: b -> ck p = c ->
  sched_core_next task q cpu p c = head (of_cookie c b).
Proof.
  intros [Hs Hn _] E Hc. unfold sched_core_next. rewrite E in *. rewrite rb_next_app.
  2:{ apply NoDup_app in Hn as (_ & Hn & _). intros Hp. apply (Hn p); [apply list_elem_of_In; exact Hp | apply list_elem_of_here]. }
  destruct b as [|x b]; [reflexivity|]. simpl. destruct (Z.eqb_spec (ck x) c) as [|Hx]; simpl; [reflexivity|].
  assert (Hlater : forall y, In y b -> ck y <> c).
  { apply StronglySorted_app_1_r in Hs. inversion Hs as [|? ? Hs' Hp]; subst. inversion Hs' as [|? ? _ Hxb]; subst.
    rewrite Forall_forall in *. intros y Hy. pose proof (Hp x (list_elem_of_here _ _)). specialize (Hxb y). rewrite list_elem_of_In in Hxb. specialize (Hxb Hy). lia. }
  clear -Hlater. induction b as [|y b IH]; [reflexivity|]. unfold of_cookie in *. simpl.
  destruct (Z.eqb_spec (ck y) c) as [Hy|Hy]; [destruct (Hlater y); simpl; auto | apply IH; intros z Hz; apply Hlater; right; exact Hz].
Qed.
End Tree.

Section TreeOps.
  Context `{Headers} (cfs_prio_less : bool -> CoreTask -> CoreTask -> bool) (dl_time_before : Z -> Z -> bool) (task : nat -> ctask).

Abbreviation ck := (cookie task).
Abbreviation before := (rb_sched_core_less cfs_prio_less dl_time_before task).
Abbreviation enq := (sched_core_enqueue cfs_prio_less dl_time_before task).

(** What is kept of a run queue. *)
Definition same_but_tree (r r' : crq) : Prop :=
  r_core r' = r_core r /\ r_idle r' = r_idle r /\ r_curr r' = r_curr r /\ r_core_enabled r' = r_core_enabled r /\
  r_core_pick r' = r_core_pick r /\ core_forceidle r' = core_forceidle r /\ r_core_cookie r' = r_core_cookie r /\ r_nr_running r' = r_nr_running r.

Lemma core_enqueue_spec q cpu t c : let q' := enq q cpu t in
  r_core_tree (q' c) = (if decide (c = cpu) then if ck t =? 0 then r_core_tree (q c) else rb_add (before (core_forceidle (core_of q cpu))) t (r_core_tree (q c))
                        else r_core_tree (q c)) /\ same_but_tree (q c) (q' c) /\
  core_task_seq (q' c) = (if decide (c = r_core (q cpu)) then u32 (core_task_seq (q c) + 1) else core_task_seq (q c)).
Proof.
  unfold sched_core_enqueue, core_of, set_core, set_rq, same_but_tree, core_of.
  destruct (ck t =? 0); repeat (case_decide; simpl in *; try congruence); subst; simpl; repeat split; try congruence.
Qed.

Lemma erase_absent t l : existsb (Nat.eqb t) l = false -> rb_erase t l = l.
Proof.
  intros Ein. apply forallb_filter_id, forallb_forall. intros x Hx. destruct (Nat.eqb_spec x t) as [->|]; [|reflexivity]. exfalso.
  rewrite <- not_true_iff_false in Ein. apply Ein. apply existsb_exists. exists t. split; [exact Hx | apply Nat.eqb_refl].
Qed.

Lemma core_dequeue_spec q cpu t c : let q' := sched_core_dequeue q cpu t in
  r_core_tree (q' c) = (if decide (c = cpu) then rb_erase t (r_core_tree (q c)) else r_core_tree (q c)) /\ same_but_tree (q c) (q' c) /\
  core_task_seq (q' c) = (if decide (c = r_core (q cpu)) then u32 (core_task_seq (q c) + 1) else core_task_seq (q c)).
Proof.
  unfold sched_core_dequeue, sched_core_enqueued, set_core, set_rq, same_but_tree, core_of.
  destruct (decide (cpu = r_core (q cpu))); simpl;
  (destruct (existsb (Nat.eqb t) _) eqn:Ein; simpl; [|try apply erase_absent in Ein]);
  repeat (case_decide; simpl in *; try congruence); subst; simpl; repeat split; try congruence.
Qed.
End TreeOps.

(** * What a tree holds *)

Inductive tree_op := TEnqueue (t : nat) | TDequeue (t : nat).

Definition enqueued_by (S : gset nat) (op : tree_op) : gset nat :=
  match op with TEnqueue t => {[t]} ∪ S | TDequeue t => S ∖ {[t]} end.

(** A task is enqueued when it is not queued. *)
Fixpoint legal (S : gset nat) (ops : list tree_op) : Prop :=
  match ops with
  | [] => True
  | op :: ops => match op with TEnqueue t => t ∉ S | TDequeue _ => True end /\ legal (enqueued_by S op) ops
  end.

Section TreeTheorem.
  Context `{Headers} (cfs_prio_less : bool -> CoreTask -> CoreTask -> bool) (dl_time_before : Z -> Z -> bool) (task : nat -> ctask).

Abbreviation ck := (cookie task).
Abbreviation before := (rb_sched_core_less cfs_prio_less dl_time_before task).

Definition tree_step (cpu : nat) (q : rqs) (op : tree_op) : rqs :=
  match op with
  | TEnqueue t => sched_core_enqueue cfs_prio_less dl_time_before task q cpu t
  | TDequeue t => sched_core_dequeue q cpu t
  end.

(** The comparison is a strict order on some tasks. *)
Definition strict_on (fi : bool) (S : gset nat) : Prop :=
  (forall a b, a ∈ S -> b ∈ S -> before fi a b = true -> before fi b a = false) /\
  (forall a b c, a ∈ S -> b ∈ S -> c ∈ S -> before fi a b = true -> before fi b c = true -> before fi a c = true).

(** The tree against the set of queued tasks; [U] are all tasks that are ever queued. *)
Record Holds (fi : bool) (U S : gset nat) (l : list nat) : Prop := {
  holds_ok : TreeOk task l;
  holds_in t : In t l <-> t ∈ S /\ ck t <> 0;
  holds_sub : S ⊆ U;
  holds_best : strict_on fi U -> StronglySorted (fun a b => before fi b a = false) l
}.

Lemma holds_add fi U S t l : Holds fi U S l -> t ∉ S -> t ∈ U ->
  Holds fi U ({[t]} ∪ S) (if ck t =? 0 then l else rb_add (before fi) t l).
Proof.
  intros [Hok Hin Hsub Hbest] Hl HU.
  assert (Hsub' : {[t]} ∪ S ⊆ U) by (apply union_subseteq; split; [apply singleton_subseteq_l; exact HU | exact Hsub]).
  assert (Hx : forall x, x ∈ {[t]} ∪ S <-> x = t \/ x ∈ S) by (intros x; rewrite elem_of_union, elem_of_singleton; reflexivity).
  destruct (Z.eqb_spec (ck t) 0) as [Hz|Hz]; split; auto.
  - intros x. rewrite Hin, Hx. split; [tauto|]. intros [[->|H1] Hk]; [contradiction | tauto].
  - apply tree_add; auto. rewrite Hin. tauto.
  - intros x. rewrite rb_add_in, Hin, Hx. split; [intros [->|[? ?]]; auto | tauto].
  - intros Hs. pose proof Hs as [Has Htr]. apply rb_add_sorted; auto.
    assert (Hu : forall x, In x l -> x ∈ U) by (intros x Hi; apply Hsub, Hin; exact Hi).
    intros x y Hix Hiy E [<-|Hxy]; [apply Has; auto|]. apply not_true_is_false. intros E'.
    rewrite (Htr y t x) in Hxy; auto. discriminate.
Qed.

Lemma holds_erase fi U S t l : Holds fi U S l -> Holds fi U (S ∖ {[t]}) (rb_erase t l).
Proof.
  intros [Hok Hin Hsub Hbest]. split; [apply tree_erase; exact Hok | | intros x Hx; apply elem_of_difference in Hx as [Hx _]; auto |].
  - intros x. rewrite rb_erase_in, Hin, elem_of_difference, elem_of_singleton. tauto.
  - intros Hs. apply sorted_filter. auto.
Qed.

Lemma holds_step cpu q U S op : Holds (core_forceidle (core_of q cpu)) U S (r_core_tree (q cpu)) ->
  match op with TEnqueue t => (t ∉ S) /\ t ∈ U | TDequeue _ => True end ->
  let q' := tree_step cpu q op in
  Holds (core_forceidle (core_of q cpu)) U (enqueued_by S op) (r_core_tree (q' cpu)) /\ same_but_tree (q cpu) (q' cpu) /\
  core_forceidle (core_of q' cpu) = core_forceidle (core_of q cpu) /\ core_task_seq (core_of q' cpu) = u32 (core_task_seq (core_of q cpu) + 1).
Proof.
  intros Hh Hl q'.
  assert (Hspec : forall c, r_core_tree (q' cpu) = match op with TEnqueue t => if ck t =? 0 then r_core_tree (q cpu) else rb_add (before (core_forceidle (core_of q cpu))) t (r_core_tree (q cpu))
      | TDequeue t => rb_erase t (r_core_tree (q cpu)) end /\ same_but_tree (q c) (q' c) /\
    core_task_seq (q' c) = (if decide (c = r_core (q cpu)) then u32 (core_task_seq (q c) + 1) else core_task_seq (q c))).
  { intros c. destruct op as [t|t]; simpl in q'.
    - destruct (core_enqueue_spec cfs_prio_less dl_time_before task q cpu t cpu) as (E1 & _). rewrite decide_True in E1 by reflexivity.
      split; [exact E1 | apply core_enqueue_spec].
    - destruct (core_dequeue_spec q cpu t cpu) as (E1 & _). rewrite decide_True in E1 by reflexivity. split; [exact E1 | apply core_dequeue_spec]. }
  destruct (Hspec cpu) as (E1 & E2 & _), (Hspec (r_core (q cpu))) as (_ & F2 & F3). rewrite decide_True in F3 by reflexivity.
  split; [rewrite E1; destruct op; [apply holds_add; [exact Hh | apply Hl..] | apply holds_erase; exact Hh]|].
  unfold core_of. rewrite (proj1 E2). split; [exact E2|]. split; [apply F2 | exact F3].
Qed.

Lemma holds_run cpu U : forall ops S q, legal S ops -> (forall t, In (TEnqueue t) ops -> t ∈ U) ->
  Holds (core_forceidle (core_of q cpu)) U S (r_core_tree (q cpu)) ->
  let q' := foldl (tree_step cpu) q ops in
  Holds (core_forceidle (core_of q cpu)) U (foldl enqueued_by S ops) (r_core_tree (q' cpu)) /\ r_idle (q' cpu) = r_idle (q cpu) /\
  u32 (core_task_seq (core_of q' cpu)) = u32 (core_task_seq (core_of q cpu) + Z.of_nat (length ops)).
Proof.
  induction ops as [|op ops IH]; intros S q Hl HU Hh; cbn [foldl length].
  { split; [exact Hh|]. split; [reflexivity|]. rewrite Z.add_0_r. reflexivity. }
  destruct Hl as [Hop Hl]. destruct (holds_step cpu q U S op Hh) as (Hh' & Hsame & Hfi & Hseq).
  { destruct op; [split; [exact Hop | apply HU; left; reflexivity] | exact I]. }
  rewrite <- Hfi in Hh'. destruct (IH (enqueued_by S op) (tree_step cpu q op) Hl) as (H1 & H2 & H3); auto.
  - intros t Ht. apply HU. right. exact Ht.
  - rewrite Hfi in H1. split; [exact H1|]. split; [rewrite H2; apply Hsame|]. rewrite H3, Hseq. unfold u32. rewrite Zplus_mod_idemp_l. f_equal. lia.
Qed.

(** Every task that is enqueued. *)
Definition ever_queued (ops : list tree_op) : gset nat :=
  foldr (fun op U => match op with TEnqueue t => {[t]} ∪ U | TDequeue _ => U end) ∅ ops.

Lemma ever_queued_in ops t : In (TEnqueue t) ops -> t ∈ ever_queued ops.
Proof.
  induction ops as [|op ops IH]; [contradiction|]. intros [->|Hin]; cbn [ever_queued foldr].
  - apply elem_of_union. left. apply elem_of_singleton. reflexivity.
  - specialize (IH Hin). destruct op; [apply elem_of_union; right|]; exact IH.
Qed.

(** The tree of a run queue refines a set. After any enqueues and dequeues, of
    tasks not queued and of any tasks, the tree holds each queued task that has a
    cookie, and no other, once; it is ordered by cookie whatever the comparison of
    priorities does, so that the search for a cookie gives a queued task with it, or
    the idle task when there is none; where the comparison is a strict order on the
    tasks, none of the cookie comes before the one found. Each operation counts, modulo 2^32, as a
    change of the core. *)
Theorem core_tree_refines (cpu : nat) (q : rqs) (ops : list tree_op) :
  r_core_tree (q cpu) = [] -> legal ∅ ops ->
  let q' := foldl (tree_step cpu) q ops in
  let queued := foldl enqueued_by ∅ ops in
  let fi := core_forceidle (core_of q cpu) in
  TreeOk task (r_core_tree (q' cpu)) /\
  (forall t, In t (r_core_tree (q' cpu)) <-> t ∈ queued /\ ck t <> 0) /\
  u32 (core_task_seq (core_of q' cpu)) = u32 (core_task_seq (core_of q cpu) + Z.of_nat (length ops)) /\
  forall c, c <> 0 ->
    let f := sched_core_find task q' cpu c in
    (f ∈ queued /\ ck f = c /\
       (strict_on fi (ever_queued ops) ->
        forall t, t ∈ queued -> ck t = c -> before fi t f = false)) \/
    (f = r_idle (q cpu) /\ forall t, t ∈ queued -> ck t <> c).
Proof.
  intros Hempty Hlegal q' queued fi.
  destruct (holds_run cpu (ever_queued ops) ops ∅ q Hlegal (ever_queued_in ops)) as ([Hok Hin Hsub Hbest] & Hidle & Hseq).
  { rewrite Hempty. split; [split; [constructor | constructor | intros t []] | intros t; simpl; split; [contradiction|] | apply empty_subseteq | constructor].
    intros [Ht _]. exfalso. exact (not_elem_of_empty t Ht). }
  fold q' queued fi in Hok, Hin, Hsub, Hbest, Hidle, Hseq. split; [exact Hok|]. split; [exact Hin|]. split; [exact Hseq|].
  intros c Hc. cbv zeta. rewrite sched_core_find_head.
  destruct (of_cookie task c (r_core_tree (q' cpu))) as [|f l] eqn:Ef; simpl.
  - right. split; [exact Hidle|]. intros t Ht Hk. assert (Hx : In t (of_cookie task c (r_core_tree (q' cpu)))); [|rewrite Ef in Hx; contradiction].
    apply filter_In. rewrite Hin. split; [split; [exact Ht | congruence] | apply Z.eqb_eq; exact Hk].
  - left. assert (Hx : In f (of_cookie task c (r_core_tree (q' cpu)))) by (rewrite Ef; left; reflexivity).
    apply filter_In in Hx as [Hx Hk]. apply Z.eqb_eq in Hk. apply Hin in Hx as [Hx _]. split; [exact Hx|]. split; [exact Hk|].
    intros Hs t Ht Hkt. specialize (Hbest Hs). apply (sorted_filter _ (fun t => ck t =? c)) in Hbest. fold (of_cookie task c (r_core_tree (q' cpu))) in Hbest.
    rewrite Ef in Hbest. inversion Hbest as [|? ? _ Hf]; subst. rewrite Forall_forall in Hf.
    assert (Ht' : In t (of_cookie task (ck f) (r_core_tree (q' cpu)))) by (apply filter_In; rewrite Hin; split; [split; congruence | apply Z.eqb_eq; congruence]).
    rewrite Ef in Ht'. destruct Ht' as [->|Ht']; [|apply Hf, list_elem_of_In; exact Ht'].
    destruct (before fi t t) eqn:E; [|reflexivity]. rewrite <- E. apply Hs; [apply Hsub; exact Hx..|exact E].
Qed.
End TreeTheorem.

(** * Stealing *)

Section Stealing.
  Context `{Headers} (cfs_prio_less : bool -> CoreTask -> CoreTask -> bool) (dl_time_before : Z -> Z -> bool) (hp : hotplug).

(** The loop gives the first task of the cookie that it may take. *)
Lemma steal_loop_spec s this that c : TreeOk (k_task s) (r_core_tree (k_rq s that)) -> forall b a p fuel,
  r_core_tree (k_rq s that) = a ++ p :: b -> cookie (k_task s) p = c -> (length b < fuel)%nat ->
  steal_loop hp fuel s this that c p = Ok (List.find (may_steal hp s this that) (of_cookie (k_task s) c (p :: b))).
Proof.
  intros Hok. induction b as [|x b IH]; intros a p fuel E Hc Hf; (destruct fuel as [|fuel]; [simpl in Hf; lia|]); cbn [steal_loop];
    rewrite (next_spec _ _ _ _ _ _ _ Hok E Hc); unfold of_cookie; cbn [List.filter]; rewrite (proj2 (Z.eqb_eq _ _) Hc); cbn [List.find List.filter head].
  - destruct (may_steal hp s this that p); reflexivity.
  - destruct (may_steal hp s this that p); [reflexivity|].
    assert (E' : r_core_tree (k_rq s that) = (a ++ [p]) ++ x :: b) by (rewrite <- app_assoc; exact E). simpl in Hf.
    destruct (Z.eqb_spec (cookie (k_task s) x) c) as [Hx|Hx].
    + cbn [head]. rewrite (IH _ _ fuel E' Hx) by lia. unfold of_cookie. cbn [List.filter]. rewrite (proj2 (Z.eqb_eq _ _) Hx). reflexivity.
    + pose proof (next_spec _ _ _ _ _ _ _ Hok E Hc) as Hn. unfold sched_core_next in Hn. rewrite E, rb_next_app in Hn.
      2:{ pose proof (tree_once _ _ Hok) as Hnd. rewrite E in Hnd. apply NoDup_app in Hnd as (_ & Hnd & _). intros Hp.
          apply (Hnd p); [apply list_elem_of_In; exact Hp | apply list_elem_of_here]. }
      cbn [head] in Hn. apply Z.eqb_neq in Hx. rewrite Hx in Hn. cbn [negb] in Hn. unfold of_cookie in Hn. cbn [List.filter] in Hn. rewrite Hx in Hn.
      destruct (List.filter _ b); [reflexivity | discriminate].
Qed.

Lemma cookie_put task t c this occ u : core_cookie c = cookie task t ->
  cookie (put_task task t (mkCtask c this occ)) u = cookie task u.
Proof. intros E. unfold cookie, put_task in *. case_decide; [subst; exact E | reflexivity]. Qed.

Lemma core_tree_ext task task' l : (forall u, cookie task' u = cookie task u) -> TreeOk task l -> TreeOk task' l.
Proof.
  intros E [Hs Hn Ht]. split; [|exact Hn|intros t Hi; rewrite E; auto].
  induction Hs as [|x l Hs IH Hx]; constructor.
  - apply IH; [inversion Hn; assumption | intros t Hi; apply Ht; right; exact Hi].
  - rewrite Forall_forall in *. intros y Hy. rewrite !E. auto.
Qed.

(** The two trees after a move. *)
Lemma steal_trees s this that p (s' := fst (steal_task cfs_prio_less dl_time_before hp s this that p)) :
  this <> that -> r_core_enabled (k_rq s this) = true -> r_core_enabled (k_rq s that) = true -> cookie (k_task s) p <> 0 ->
  TreeOk (k_task s) (r_core_tree (k_rq s that)) -> TreeOk (k_task s) (r_core_tree (k_rq s this)) -> ~ In p (r_core_tree (k_rq s this)) ->
  TreeOk (k_task s') (r_core_tree (k_rq s' that)) /\ TreeOk (k_task s') (r_core_tree (k_rq s' this)) /\
  (forall t, In t (r_core_tree (k_rq s' that)) <-> In t (r_core_tree (k_rq s that)) /\ t <> p) /\
  (forall t, In t (r_core_tree (k_rq s' this)) <-> In t (r_core_tree (k_rq s this)) \/ t = p) /\
  forall c, c <> this -> c <> that -> r_core_tree (k_rq s' c) = r_core_tree (k_rq s c).
Proof.
  intros Hne He1 He2 Hc Ok1 Ok2 Hp. subst s'. unfold steal_task.
  destruct (set_task_cpu hp (deactivate_migrating (k_at s p)) this) as [a warn]. cbn [fst k_rq k_task].
  set (task' := put_task (k_task s) p _). assert (Ht : forall u, cookie task' u = cookie (k_task s) u) by (intros u; apply cookie_put; reflexivity).
  unfold dequeue_core. rewrite He2. set (q1 := sched_core_dequeue (k_rq s) that p).
  assert (D : forall c, _) by exact (core_dequeue_spec (k_rq s) that p). fold q1 in D.
  unfold enqueue_core. destruct (D this) as (D1 & D2 & _). rewrite decide_False in D1 by exact Hne.
  destruct D2 as (_ & _ & _ & D2 & _). rewrite D2, He1.
  assert (Q : forall c, _) by exact (core_enqueue_spec cfs_prio_less dl_time_before task' q1 this p). set (q2 := sched_core_enqueue _ _ _ q1 this p) in *.
  destruct (Q this) as (Q1 & _). rewrite decide_True in Q1 by reflexivity. rewrite (proj2 (Z.eqb_neq _ _)) in Q1 by (rewrite Ht; exact Hc).
  destruct (Q that) as (Q2 & _). rewrite decide_False in Q2 by congruence. destruct (D that) as (D3 & _). rewrite decide_True in D3 by reflexivity.
  rewrite Q2, D3, Q1, D1. split; [apply (core_tree_ext (k_task s)); [exact Ht | apply tree_erase; exact Ok1]|]. split.
  - apply tree_add; [apply (core_tree_ext (k_task s)); assumption | exact Hp | rewrite Ht; exact Hc].
  - split; [intros t; apply rb_erase_in|]. split; [intros t; rewrite rb_add_in; tauto|].
    intros c H1 H2. destruct (Q c) as (Q3 & _), (D c) as (D4 & _). rewrite decide_False in Q3 by assumption. rewrite decide_False in D4 by assumption. congruence.
Qed.

(** The tasks of [that] that [this] may take, the most urgent first. *)
Definition stealable (s : cores) (this that : nat) : list nat :=
  List.filter (may_steal hp s this that) (of_cookie (k_task s) (r_core_cookie (core_of (k_rq s) this)) (r_core_tree (k_rq s that))).

Lemma find_stealable s this that : List.find (may_steal hp s this that)
  (of_cookie (k_task s) (r_core_cookie (core_of (k_rq s) this)) (r_core_tree (k_rq s that))) = head (stealable s this that).
Proof. apply find_filter. reflexivity. Qed.

(** The run queues of both CPUs: core scheduling is on, the trees are in order, a task is
    in one of them, with the CPU it is on. *)
Record Cores (s : cores) (this that : nat) : Prop := {
  cores_ne : this <> that;
  cores_on : r_core_enabled (k_rq s this) = true /\ r_core_enabled (k_rq s that) = true;
  cores_this : TreeOk (k_task s) (r_core_tree (k_rq s this));
  cores_that : TreeOk (k_task s) (r_core_tree (k_rq s that));
  cores_apart t : In t (r_core_tree (k_rq s that)) -> ~ In t (r_core_tree (k_rq s this)) /\ t <> r_idle (k_rq s that)
}.

Lemma try_steal_result fuel s this that : Cores s this that -> (length (r_core_tree (k_rq s that)) <= fuel)%nat ->
  let c := r_core_cookie (core_of (k_rq s) this) in
  try_steal_cookie cfs_prio_less dl_time_before hp fuel s this that =
  Ok (if negb (c =? 0) && (r_curr (k_rq s this) =? r_idle (k_rq s this))%nat then
        match head (stealable s this that) with
        | Some p => let '(s', warn) := steal_task cfs_prio_less dl_time_before hp s this that p in (s', Some p, warn)
        | None => (s, None, false)
        end
      else (s, None, false)).
Proof.
  intros [Hne Hon H1 H2 Hap] Hf c. unfold try_steal_cookie. fold c. destruct (c =? 0) eqn:Ec; [reflexivity|]. cbn [negb andb].
  destruct (r_curr (k_rq s this) =? r_idle (k_rq s this))%nat; [|reflexivity]. cbn [negb].
  rewrite sched_core_find_head. rewrite <- find_stealable. fold c.
  destruct (of_cookie (k_task s) c (r_core_tree (k_rq s that))) as [|p l] eqn:El; cbn [head default from_option id]; [rewrite Nat.eqb_refl; reflexivity|].
  assert (Hp : In p (r_core_tree (k_rq s that)) /\ cookie (k_task s) p = c).
  { assert (Hx : In p (p :: l)) by (left; reflexivity). rewrite <- El in Hx. apply filter_In in Hx as [Hx Hk]. split; [exact Hx | apply Z.eqb_eq; exact Hk]. }
  destruct Hp as [Hp Hk]. destruct (Nat.eqb_spec p (r_idle (k_rq s that))) as [Hx|_]; [destruct (Hap p Hp); contradiction|].
  assert (Hsplit : exists a b, r_core_tree (k_rq s that) = a ++ p :: b /\ of_cookie (k_task s) c a = []).
  { clear -El. revert El. generalize (r_core_tree (k_rq s that)). induction l0 as [|x l0 IH]; [discriminate|]. unfold of_cookie. cbn [List.filter].
    destruct (cookie (k_task s) x =? c) eqn:Ex; intros E.
    - exists [], l0. split; [injection E as -> _; reflexivity | reflexivity].
    - destruct (IH E) as (a & b & -> & Ha). exists (x :: a), b. split; [reflexivity|]. unfold of_cookie in *. cbn [List.filter]. rewrite Ex. exact Ha. }
  destruct Hsplit as (a & b & E & Ha).
  rewrite (steal_loop_spec s this that c H2 b a p fuel E Hk) by (rewrite E, length_app in Hf; simpl in Hf; lia).
  rewrite <- El. unfold of_cookie in *. rewrite E, List.filter_app, Ha. cbn [app].
  destruct (List.find _ _); reflexivity.
Qed.

(** A move of a task that may be moved gives no warning: its class is told of the CPU that
    it has, is allowed, and is online. *)
Lemma steal_quiet s this that p : cpu_active_mask hp ⊆ cpu_online_mask hp ->
  (is_migration_disabled (k_at s p) = true -> cpus_ptr (k_at s p) = {[that]}) -> this <> that -> may_steal hp s this that p = true ->
  snd (steal_task cfs_prio_less dl_time_before hp s this that p) = false /\
  let a := k_at (fst (steal_task cfs_prio_less dl_time_before hp s this that p)) p in
  task_cpu a = this /\ on_rq a = TASK_ON_RQ_QUEUED /\ this ∈ cpus_ptr a.
Proof.
  intros Hact Hpin Hne Hm. unfold may_steal in Hm. apply andb_prop in Hm as [Hm _]. apply andb_prop in Hm as [_ Ha].
  unfold is_cpu_allowed in Ha. destruct (bool_decide (this ∈ cpus_ptr (k_at s p))) eqn:Ein; [|discriminate]. apply bool_decide_eq_true in Ein.
  cbn [negb] in Ha.
  assert (Hd : is_migration_disabled (k_at s p) = false).
  { destruct (is_migration_disabled (k_at s p)); [|reflexivity]. rewrite Hpin in Ein by reflexivity. apply elem_of_singleton in Ein. congruence. }
  rewrite Hd in Ha.
  assert (Hon : this ∈ cpu_online_mask hp).
  { destruct (PF_KTHREAD (flags (k_at s p))); cbn [negb] in Ha.
    - destruct (kthread_is_per_cpu _); [apply bool_decide_eq_true in Ha; exact Ha|]. destruct (bool_decide (this ∈ cpu_dying_mask hp)); [discriminate|].
      apply bool_decide_eq_true in Ha. exact Ha.
    - apply andb_prop in Ha as [Ha _]. apply bool_decide_eq_true in Ha. apply Hact. exact Ha. }
  unfold steal_task, set_task_cpu. cbn [fst snd k_at]. unfold put_task. rewrite decide_True by reflexivity.
  split; [|split; [reflexivity | split; [reflexivity | exact Ein]]].
  unfold is_migration_disabled in *. cbn [deactivate_migrating with_where flags state on_rq migration_disabled]. rewrite Hd.
  rewrite (bool_decide_eq_true_2 _ Hon). rewrite !bool_decide_eq_false_2 by (intros [_ E]; discriminate). rewrite andb_false_r. reflexivity.
Qed.

(** A sibling steals exactly when its core runs a cookie, itself idles, and another
    CPU has a queued task with that cookie that is not running or about to, may run
    here and ran beside no more siblings than the idle task does; it takes the most
    urgent one. The loop ends within the tasks of the other tree. The task leaves one
    tree for the other, both stay in order and no other tree changes; the task is queued on
    a CPU of its mask, and the move gives no warning. Otherwise nothing changes. *)
Theorem try_steal_cookie_correct (fuel : nat) (s : cores) (this that : nat) :
  Cores s this that -> (length (r_core_tree (k_rq s that)) <= fuel)%nat -> cpu_active_mask hp ⊆ cpu_online_mask hp ->
  (forall t, is_migration_disabled (k_at s t) = true -> In t (r_core_tree (k_rq s that)) -> cpus_ptr (k_at s t) = {[that]}) ->
  let can := negb (r_core_cookie (core_of (k_rq s) this) =? 0) && (r_curr (k_rq s this) =? r_idle (k_rq s this))%nat in
  exists s' r, try_steal_cookie cfs_prio_less dl_time_before hp fuel s this that = Ok (s', r, false) /\
  match r with
  | None => s' = s /\ (can = false \/ stealable s this that = [])
  | Some p => can = true /\ head (stealable s this that) = Some p /\ may_steal hp s this that p = true /\
      cookie (k_task s) p = r_core_cookie (core_of (k_rq s) this) /\
      TreeOk (k_task s') (r_core_tree (k_rq s' that)) /\ TreeOk (k_task s') (r_core_tree (k_rq s' this)) /\
      (forall t, In t (r_core_tree (k_rq s' that)) <-> In t (r_core_tree (k_rq s that)) /\ t <> p) /\
      (forall t, In t (r_core_tree (k_rq s' this)) <-> In t (r_core_tree (k_rq s this)) \/ t = p) /\
      (forall c, c <> this -> c <> that -> r_core_tree (k_rq s' c) = r_core_tree (k_rq s c)) /\
      task_cpu (k_at s' p) = this /\ on_rq (k_at s' p) = TASK_ON_RQ_QUEUED /\ this ∈ cpus_ptr (k_at s' p)
  end.
Proof.
  intros HC Hf Hact Hpin can. pose proof (try_steal_result fuel s this that HC Hf) as E. cbv zeta in E. fold can in E.
  destruct can; [|exists s, None; split; [exact E | auto]].
  destruct (stealable s this that) as [|p l] eqn:El; cbn [head] in *; [exists s, None; auto|].
  assert (Hp : In p (stealable s this that)) by (rewrite El; left; reflexivity).
  apply filter_In in Hp as [Hp Hm]. apply filter_In in Hp as [Hp Hk]. apply Z.eqb_eq in Hk.
  destruct HC as [Hne [Ho1 Ho2] H1 H2 Hap].
  destruct (steal_quiet s this that p Hact (fun Hd => Hpin p Hd Hp) Hne Hm) as (Hq & Hat).
  pose proof (steal_trees s this that p Hne Ho1 Ho2 (tree_tagged _ _ H2 p Hp) H2 H1 (proj1 (Hap p Hp))) as Htr.
  destruct (steal_task cfs_prio_less dl_time_before hp s this that p) as [s' warn]. cbn [fst snd] in *. subst warn.
  exists s', (Some p). split; [exact E|]. destruct Htr as (T1 & T2 & T3 & T4 & T5). destruct Hat as (A1 & A2 & A3). auto 15.
Qed.
End Stealing.

(** * An example *)

(** Two siblings; the idle task of a CPU has the number 100 more than the CPU. *)
Definition demo_core (c : SchedClass) (p k d : Z) (cpu : nat) : ctask := mkCtask (mkCore (with_class (with_prio sample_task p) c) k d) cpu 0.

Definition demo_task (t : nat) : ctask :=
  match t with
  | 1%nat => demo_core rt_sched_class 50 7 0 1
  | 2%nat => demo_core rt_sched_class 60 7 0 1
  | 3%nat => demo_core fair_sched_class 120 9 0 0
  | 4%nat => demo_core dl_sched_class (-1) 5 10 0
  | 5%nat => demo_core dl_sched_class (-1) 6 10 1
  | t => demo_core idle_sched_class 120 0 0 (t - 100)
  end.

Definition demo_rq (cookie : Z) (tree : nat -> list nat) (nr : nat -> Z) : rqs := fun cpu =>
  mkCrq (100 + cpu) (100 + cpu) (nr cpu) (tree cpu) None 0 true 0 4 3 cookie false 0.

Definition demo_ops : list tree_op := [TEnqueue 2; TEnqueue 1; TEnqueue 3; TDequeue 3; TDequeue 9]%nat.

(** The fair class compares by the deadline field here. *)
Abbreviation by_it := (fun _ : bool => by_deadline).

Lemma core_tree_refines_witness : let q' := foldl (tree_step by_it Z.ltb demo_task 1) (demo_rq 0 (fun _ => []) (fun _ => 0)) demo_ops in
  legal ∅ demo_ops /\ r_core_tree (q' 1%nat) = [1; 2]%nat /\ TreeOk demo_task (r_core_tree (q' 1%nat)).
Proof.
  intros q'. assert (Hl : legal ∅ demo_ops) by (cbn; repeat split; set_solver).
  split; [exact Hl|]. split; [vm_compute; reflexivity|].
  exact (proj1 (core_tree_refines by_it Z.ltb demo_task 1 (demo_rq 0 (fun _ => []) (fun _ => 0)) demo_ops eq_refl Hl)).
Defined.

Definition demo_hp : hotplug := mkHotplug {[0; 1]}%nat {[0; 1]}%nat ∅ {[0; 1]}%nat.

Definition demo_at : atask :=
  mkAtask (mkTflags false false false false false false) {[0; 1]}%nat None 2 None 0 false None 1 1 TASK_ON_RQ_QUEUED false TASK_RUNNING 0.

(** CPU 0 idles while the core runs cookie 7; CPU 1 has tasks 1 and 2 of that cookie. *)
Definition demo_cores : cores := mkCores (demo_rq 7 (fun cpu => if decide (cpu = 1%nat) then [1; 2]%nat else []) (fun _ => 0)) demo_task (fun _ => demo_at).

Lemma try_steal_cookie_correct_witness : exists s', try_steal_cookie by_it Z.ltb demo_hp 2 demo_cores 0 1 = Ok (s', Some 1%nat, false) /\
  task_cpu (k_at s' 1%nat) = 0%nat.
Proof.
  destruct (try_steal_cookie_correct by_it Z.ltb demo_hp 2 demo_cores 0 1) as (s' & r & E & Hr).
  - split; [discriminate | split; reflexivity | | |].
    + split; [constructor | constructor | intros t []].
    + split.
      * repeat constructor; vm_compute; discriminate.
      * apply (bool_decide_unpack _). vm_compute. exact I.
      * intros t [<-|[<-|[]]]; discriminate.
    + intros t [<-|[<-|[]]]; (split; [intros [] | discriminate]).
  - simpl. lia.
  - cbn. reflexivity.
  - discriminate.
  - assert (E' : match try_steal_cookie by_it Z.ltb demo_hp 2 demo_cores 0 1 with Ok (_, Some 1%nat, false) => true | _ => false end = true) by (vm_compute; reflexivity).
    rewrite E in E'. destruct r as [[|[|]]|]; try discriminate. exists s'. split; [exact E|]. apply Hr.
Defined.
