(* ===== verification/CoreHotplug.v ===== *)
(** Core scheduling: the leader of a core, whose fields its siblings share, when CPUs
    come and go ([sched_core_cpu_starting], [sched_core_cpu_deactivate],
    [sched_core_cpu_dying]). *)

From S2P Require Import Prelude KHeaders Priority CoreSched.
Local Open Scope Z_scope.

(** [smt_mask] are the siblings of the CPU, itself among them. Each operation returns the
    number of warnings as well. *)

Definition is_leader (q : rqs) (t : nat) : bool := (r_core (q t) =? t)%nat.

Definition warn_if (b : bool) : nat := if b then 1 else 0.

(** The last loop of [sched_core_cpu_starting]. *)
Definition install_core (cpu leader : nat) (s : rqs * nat) (t : nat) : rqs * nat :=
  let '(q, warn) := s in
  let q := if (t =? cpu)%nat then set_rq q t (with_leader (q t) leader) else q in
  (q, (warn + warn_if (negb (r_core (q t) =? leader)))%nat).

Definition sched_core_cpu_starting (q : rqs) (cpu : nat) (smt_mask : list nat) : rqs * nat :=
  let warn := warn_if (negb (is_leader q cpu)) in
  if (length smt_mask =? 1)%nat then (q, warn)
  else match List.find (fun t => negb (t =? cpu)%nat && is_leader q t) smt_mask with
       | None => (q, S warn)
       | Some leader => foldl (install_core cpu leader) (q, warn) smt_mask
       end.

(** The fields that siblings share, from one leader to another. *)
Definition copy_shared (q : rqs) (from to : nat) : rqs :=
  let r := q from in
  set_rq q to (with_shared (q to) (core_task_seq r) (core_pick_seq r) (r_core_cookie r) (core_forceidle r) (core_forceidle_seq r)).

Definition sched_core_cpu_deactivate (q : rqs) (cpu : nat) (smt_mask : list nat) : rqs * nat :=
  if (length smt_mask =? 1)%nat then (q, warn_if (negb (is_leader q cpu)))
  else if negb (is_leader q cpu) then (q, O)
  else match List.find (fun t => negb (t =? cpu)%nat) smt_mask with
       | None => (q, 1%nat)
       | Some leader => (foldl (fun q t => set_rq q t (with_leader (q t) leader)) (copy_shared q cpu leader) smt_mask, O)
       end.

Definition sched_core_cpu_dying (q : rqs) (cpu : nat) : rqs :=
  if negb (is_leader q cpu) then set_rq q cpu (with_leader (q cpu) cpu) else q.

(** * CPUs that come and go *)

(** The fields that siblings share. *)
Definition shared (r : crq) : Z * Z * Z * bool * Z :=
  (core_task_seq r, core_pick_seq r, r_core_cookie r, core_forceidle r, core_forceidle_seq r).

(** A CPU starts; it goes down; it begins to and stays, since a later step refuses. The
    mask of siblings holds the CPUs of the core that are up. *)
Inductive plug := Up (cpu : nat) | Down (cpu : nat) | DownFails (cpu : nat).

Definition plug_cpu (e : plug) : nat := match e with Up c | Down c | DownFails c => c end.

Section Plug.
  Context (siblings : list nat) (Hnd : NoDup siblings).

Definition smt_mask (on : gset nat) : list nat := List.filter (fun c => bool_decide (c ∈ on)) siblings.

Definition plugged (on : gset nat) (e : plug) : gset nat :=
  match e with Up c => {[c]} ∪ on | Down c => on ∖ {[c]} | DownFails _ => on end.

Definition plug_step (s : rqs * gset nat * nat) (e : plug) : rqs * gset nat * nat :=
  let '(q, on, warn) := s in
  let '(q, w) :=
    match e with
    | Up c => sched_core_cpu_starting q c (smt_mask ({[c]} ∪ on))
    | Down c => let '(q, w) := sched_core_cpu_deactivate q c (smt_mask on) in (sched_core_cpu_dying q c, w)
    | DownFails c => sched_core_cpu_deactivate q c (smt_mask on)
    end in
  (q, plugged on e, (warn + w)%nat).

Definition can_plug (on : gset nat) (e : plug) : Prop :=
  In (plug_cpu e) siblings /\ match e with Up c => c ∉ on | Down c | DownFails c => c ∈ on end.

Fixpoint plugs (on : gset nat) (es : list plug) : Prop :=
  match es with [] => True | e :: es => can_plug on e /\ plugs (plugged on e) es end.

(** The CPUs that are up have one leader among them; the others lead themselves. *)
Record Led (q : rqs) (on : gset nat) : Prop := {
  led_one : (forall t, t ∉ on) \/ exists l, l ∈ on /\ forall t, t ∈ on -> r_core (q t) = l;
  led_self t : t ∉ on -> r_core (q t) = t;
  led_in t : t ∈ on -> In t siblings
}.

Lemma smt_mask_in on t : In t (smt_mask on) <-> In t siblings /\ t ∈ on.
Proof. unfold smt_mask. rewrite filter_In, bool_decide_eq_true. reflexivity. Qed.

Lemma smt_mask_nodup on : NoDup (smt_mask on).
Proof.
  unfold smt_mask. induction Hnd as [|x l Hx Hn IH]; cbn [List.filter]; [constructor|]. case_bool_decide; auto. constructor; auto.
  rewrite list_elem_of_In in *. rewrite filter_In. tauto.
Qed.

Lemma single {A} (l : list A) x y : length l = 1%nat -> In x l -> In y l -> x = y.
Proof. destruct l as [|a [|b l]]; try discriminate. intros _ [->|[]] [->|[]]. reflexivity. Qed.

Lemma other {A} (l : list A) x : NoDup l -> In x l -> length l <> 1%nat -> exists y, In y l /\ y <> x.
Proof.
  intros Hn Hx Hl. destruct l as [|a [|b l]]; [contradiction | simpl in Hl; lia|].
  apply NoDup_cons in Hn as [Ha _]. destruct Hx as [<-|Hx]; [exists b; split; [right; left; reflexivity|]; intros ->; apply Ha, list_elem_of_here|].
  exists a. split; [left; reflexivity|]. intros <-. apply Ha, list_elem_of_In. exact Hx.
Qed.

(** The loops that install a leader. *)
Lemma install_all leader l q t : foldl (fun q t => set_rq q t (with_leader (q t) leader)) q l t =
  if decide (t ∈ l) then with_leader (q t) leader else q t.
Proof. apply (set_all (fun _ r => with_leader r leader)). reflexivity. Qed.

Lemma install_one cpu leader : forall l q w, (forall t, t ∈ l -> t <> cpu -> r_core (q t) = leader) ->
  exists q', foldl (install_core cpu leader) (q, w) l = (q', w) /\
  forall t, q' t = if decide (t = cpu /\ cpu ∈ l) then with_leader (q t) leader else q t.
Proof.
  induction l as [|x l IH]; intros q w Hl; cbn [foldl].
  { exists q. split; [reflexivity|]. intros t. rewrite decide_False; [reflexivity|]. intros [_ Hx]. exact (not_elem_of_nil _ Hx). }
  unfold install_core at 2. set (q1 := if (x =? cpu)%nat then _ else _).
  assert (H1 : forall t, q1 t = if decide (t = cpu /\ x = cpu) then with_leader (q t) leader else q t).
  { intros t. unfold q1. destruct (Nat.eqb_spec x cpu) as [->|Hx]; [|rewrite decide_False by tauto; reflexivity]. unfold set_rq.
    destruct (decide (t = cpu)) as [->|Ht]; [rewrite decide_True by auto | rewrite decide_False by tauto]; reflexivity. }
  assert (Hx : r_core (q1 x) = leader).
  { rewrite H1. case_decide as E; [reflexivity|]. apply Hl; [apply list_elem_of_here | intros Hxc; apply E; auto]. }
  rewrite Hx, Nat.eqb_refl. cbn [negb warn_if]. rewrite Nat.add_0_r. destruct (IH q1 w) as (q' & E & Hq').
  - intros t Ht Hc. rewrite H1, decide_False by tauto. apply Hl; [apply list_elem_of_further; exact Ht | exact Hc].
  - exists q'. split; [exact E|]. intros t. rewrite Hq', H1. destruct (decide (t = cpu)) as [->|Ht].
    + destruct (decide (x = cpu)) as [->|Hxc].
      * rewrite (decide_True (P := cpu = cpu /\ cpu ∈ cpu :: l)) by (split; [reflexivity | apply list_elem_of_here]).
        rewrite (decide_True (P := cpu = cpu /\ cpu = cpu)) by auto. destruct (decide _); reflexivity.
      * rewrite (decide_False (P := cpu = cpu /\ x = cpu)) by tauto. apply decide_ext. rewrite elem_of_cons. intuition congruence.
    + rewrite !decide_False by tauto. reflexivity.
Qed.

Lemma starting_led q on c : Led q on -> c ∉ on -> In c siblings ->
  exists q', sched_core_cpu_starting q c (smt_mask ({[c]} ∪ on)) = (q', O) /\ Led q' ({[c]} ∪ on) /\ forall t, t <> c -> q' t = q t.
Proof.
  intros [Hone Hself Hin] Hc Hs. unfold sched_core_cpu_starting, is_leader. rewrite Hself, Nat.eqb_refl by exact Hc. cbn [negb warn_if].
  assert (Hin' : forall t, t ∈ {[c]} ∪ on -> In t siblings).
  { intros t Ht. apply elem_of_union in Ht as [Ht|Ht]; [apply elem_of_singleton in Ht as ->; exact Hs | auto]. }
  assert (Hcm : In c (smt_mask ({[c]} ∪ on))) by (apply smt_mask_in; split; [exact Hs | apply elem_of_union; left; apply elem_of_singleton; reflexivity]).
  destruct (Nat.eqb_spec (length (smt_mask ({[c]} ∪ on))) 1) as [H1|H1].
  - exists q. split; [reflexivity|]. split; [|reflexivity].
    assert (Hon : forall t, t ∉ on).
    { intros t Ht. apply Hc. rewrite (single _ c t H1 Hcm); [exact Ht|]. apply smt_mask_in. split; [auto | apply elem_of_union; right; exact Ht]. }
    split; [|intros t Ht; apply Hself, Hon | exact Hin']. right. exists c. split; [apply elem_of_union; left; apply elem_of_singleton; reflexivity|].
    intros t Ht. apply elem_of_union in Ht as [Ht|Ht]; [apply elem_of_singleton in Ht as ->; apply Hself; exact Hc | destruct (Hon t Ht)].
  - destruct (other _ c (smt_mask_nodup _) Hcm H1) as (y & Hy & Hyc). apply smt_mask_in in Hy as [Hys Hy].
    apply elem_of_union in Hy as [Hy|Hy]; [apply elem_of_singleton in Hy; contradiction|].
    destruct Hone as [Hone|(l & Hl & Hone)]; [destruct (Hone y Hy)|].
    assert (Hlc : l <> c) by (intros ->; contradiction).
    destruct (List.find _ (smt_mask ({[c]} ∪ on))) as [leader|] eqn:Ef.
    + apply List.find_some in Ef as [Hm Hlead]. apply andb_prop in Hlead as [Hn Hlead]. apply negb_true_iff, Nat.eqb_neq in Hn. apply Nat.eqb_eq in Hlead.
      apply smt_mask_in in Hm as [_ Hm]. apply elem_of_union in Hm as [Hm|Hm]; [apply elem_of_singleton in Hm; contradiction|].
      rewrite Hone in Hlead by exact Hm. subst leader.
      destruct (install_one c l (smt_mask ({[c]} ∪ on)) q O) as (q' & E & Hq').
      { intros t Ht Htc. apply list_elem_of_In, smt_mask_in in Ht as [_ Ht]. apply elem_of_union in Ht as [Ht|Ht]; [apply elem_of_singleton in Ht; contradiction | auto]. }
      exists q'. split; [exact E|].
      assert (Hq : forall t, t <> c -> q' t = q t) by (intros t Ht; rewrite Hq', decide_False by tauto; reflexivity). split; [|exact Hq].
      assert (Hqc : r_core (q' c) = l) by (rewrite Hq', decide_True by (rewrite list_elem_of_In; auto); reflexivity).
      split; [right; exists l; split; [apply elem_of_union; right; exact Hl|]| | exact Hin'].
      * intros t Ht. destruct (decide (t = c)) as [->|Htc]; [exact Hqc|]. rewrite Hq by exact Htc. apply Hone.
        apply elem_of_union in Ht as [Ht|Ht]; [apply elem_of_singleton in Ht; contradiction | exact Ht].
      * intros t Ht. rewrite Hq; [apply Hself|]; intros E'; apply Ht, elem_of_union; [right; exact E' | left; apply elem_of_singleton; exact E'].
    + exfalso. eapply List.find_none in Ef; [|apply smt_mask_in; split; [apply Hin; exact Hl | apply elem_of_union; right; exact Hl]].
      apply Nat.eqb_neq in Hlc. cbn beta in Ef. rewrite Hlc, Hone, Nat.eqb_refl in Ef by exact Hl. discriminate.
Qed.

Lemma deactivate_led q on c : Led q on -> c ∈ on ->
  exists q' l, sched_core_cpu_deactivate q c (smt_mask on) = (q', O) /\ l ∈ on /\ (forall t, t ∈ on -> r_core (q' t) = l) /\
    (forall y, y ∈ on -> y <> c -> l <> c) /\ (forall t, t ∉ on -> q' t = q t) /\ forall t, t ∈ on -> shared (core_of q' t) = shared (core_of q t).
Proof.
  intros [Hone Hself Hin] Hc. destruct Hone as [Hone|(l & Hl & Hone)]; [destruct (Hone c Hc)|]. unfold sched_core_cpu_deactivate, is_leader.
  assert (Hcm : In c (smt_mask on)) by (apply smt_mask_in; auto).
  destruct (Nat.eqb_spec (length (smt_mask on)) 1) as [H1|H1].
  - assert (Hall : forall t, t ∈ on -> t = c) by (intros t Ht; apply (single (smt_mask on)); [exact H1 | apply smt_mask_in; auto | exact Hcm]).
    rewrite (Hall l Hl) in Hone. rewrite (Hone c Hc), Nat.eqb_refl. exists q, c.
    split; [reflexivity|]. split; [exact Hc|]. split; [exact Hone|]. split; [intros y Hy Hn; destruct (Hn (Hall y Hy)) | auto].
  - rewrite (Hone c Hc). destruct (Nat.eqb_spec l c) as [->|Hlc]; cbn [negb]; [|exists q, l; split; [reflexivity | auto]].
    destruct (other _ c (smt_mask_nodup _) Hcm H1) as (y & Hy & Hyc).
    destruct (List.find _ (smt_mask on)) as [l|] eqn:Ef.
    + apply List.find_some in Ef as [Hm Hn]. apply negb_true_iff, Nat.eqb_neq in Hn. apply smt_mask_in in Hm as [Hls Hm].
      assert (Hq : forall t, foldl (fun q t => set_rq q t (with_leader (q t) l)) (copy_shared q c l) (smt_mask on) t =
        if decide (t ∈ on) then with_leader (copy_shared q c l t) l else q t).
      { intros t. rewrite install_all. assert (Ht : t ∈ smt_mask on <-> t ∈ on) by (rewrite list_elem_of_In, smt_mask_in; firstorder).
        destruct (decide (t ∈ on)) as [Ho|Ho]; [rewrite decide_True by tauto; reflexivity|]. rewrite decide_False by tauto.
        unfold copy_shared, set_rq. rewrite decide_False; [reflexivity|]. intros ->. contradiction. }
      eexists _, l. split; [reflexivity|]. split; [exact Hm|].
      split; [intros t Ht; rewrite Hq, decide_True by exact Ht; reflexivity|]. split; [auto|].
      split; [intros t Ht; rewrite Hq, decide_False by exact Ht; reflexivity|].
      intros t Ht. unfold core_of. rewrite (Hq t), decide_True by exact Ht. cbn [with_leader r_core]. rewrite (Hq l), decide_True by exact Hm.
      rewrite (Hone t Ht). unfold copy_shared, set_rq. rewrite decide_True by reflexivity. reflexivity.
    + exfalso. eapply List.find_none in Ef; [|exact Hy]. apply Nat.eqb_neq in Hyc. cbn beta in Ef. rewrite Hyc in Ef. discriminate.
Qed.

Lemma dying_led q on c l : l ∈ on -> c ∈ on -> (forall t, t ∈ on -> r_core (q t) = l) -> (forall t, t ∉ on -> r_core (q t) = t) ->
  (forall y, y ∈ on -> y <> c -> l <> c) -> (forall t, t ∈ on -> In t siblings) ->
  Led (sched_core_cpu_dying q c) (on ∖ {[c]}) /\ forall t, t <> c -> sched_core_cpu_dying q c t = q t.
Proof.
  intros Hl Hc Hone Hself Hy Hin. set (q' := sched_core_cpu_dying q c).
  assert (Hqc : r_core (q' c) = c).
  { unfold q', sched_core_cpu_dying, is_leader, set_rq. destruct (Nat.eqb_spec (r_core (q c)) c); cbn [negb]; [assumption|].
    rewrite decide_True; reflexivity. }
  assert (Hq : forall t, t <> c -> q' t = q t).
  { intros t Ht. unfold q', sched_core_cpu_dying, set_rq. destruct (negb _); [rewrite decide_False by exact Ht|]; reflexivity. }
  split; [|exact Hq]. split.
  - destruct (decide (l = c)) as [->|Hlc].
    + left. intros t Ht. apply elem_of_difference in Ht as [Ht Hn]. rewrite elem_of_singleton in Hn. exact (Hy t Ht Hn eq_refl).
    + right. exists l. split; [apply elem_of_difference; rewrite elem_of_singleton; auto|].
      intros t Ht. apply elem_of_difference in Ht as [Ht Hn]. rewrite elem_of_singleton in Hn. rewrite Hq by exact Hn. auto.
  - intros t Ht. destruct (decide (t = c)) as [->|Htc]; [exact Hqc|]. rewrite Hq by exact Htc. apply Hself.
    intros Hx. apply Ht, elem_of_difference. rewrite elem_of_singleton. auto.
  - intros t Ht. apply elem_of_difference in Ht as [Ht _]. auto.
Qed.

(** A step keeps the leadership, and what the siblings share. *)
Lemma plug_step_led q on warn e : Led q on -> can_plug on e ->
  exists q', plug_step (q, on, warn) e = (q', plugged on e, warn) /\ Led q' (plugged on e) /\
    forall t, t ∈ on -> t ∈ plugged on e -> shared (core_of q' t) = shared (core_of q t).
Proof.
  intros HL [Hs Hc]. unfold plug_step. destruct e as [c|c|c]; cbn [plug_cpu plugged] in *.
  - destruct (starting_led q on c HL Hc Hs) as (q' & E & HL' & Hq). rewrite E, Nat.add_0_r. exists q'. split; [reflexivity|]. split; [exact HL'|].
    intros t Ht _. assert (t <> c) by (intros ->; contradiction). unfold core_of. rewrite (Hq t) by assumption.
    destruct HL as [[Hone|(l & Hl & Hone)] _ _]; [destruct (Hone t Ht)|]. rewrite (Hone t Ht), Hq; [reflexivity|]. intros ->. contradiction.
  - destruct (deactivate_led q on c HL Hc) as (q' & l & E & Hl & Hone & Hy & Hoff & Hsh). rewrite E, Nat.add_0_r.
    destruct (dying_led q' on c l Hl Hc Hone) as [HL' Hq]; auto; [intros t Ht; rewrite Hoff by exact Ht; apply HL; exact Ht | apply HL|].
    eexists. split; [reflexivity|]. split; [exact HL'|]. intros t Ht Ht'. rewrite <- Hsh by exact Ht.
    apply elem_of_difference in Ht' as [_ Hn]. rewrite elem_of_singleton in Hn. unfold core_of. rewrite (Hq t) by exact Hn.
    rewrite (Hone t Ht), Hq; [reflexivity | exact (Hy t Ht Hn)].
  - destruct (deactivate_led q on c HL Hc) as (q' & l & E & Hl & Hone & Hy & Hoff & Hsh). rewrite E, Nat.add_0_r.
    exists q'. split; [reflexivity|]. split; [|auto]. split; [right; eauto | intros t Ht; rewrite Hoff by exact Ht; apply HL; exact Ht | apply HL].
Qed.

(** A core has one leader. However its CPUs start, go down or fail to go down, from
    all being down, no warning is given, the CPUs that are up all have the same one of
    them as leader, and a CPU that is down leads itself, so that it can start again; and
    no step changes what the siblings that stay up share - the counts of changes and
    picks, the cookie, the forced idling - even when it changes who holds it. *)
Theorem core_leader_kept (q : rqs) (es : list plug) : (forall t, r_core (q t) = t) -> plugs ∅ es ->
  exists q' on, foldl plug_step (q, ∅, O) es = (q', on, O) /\ Led q' on /\
  forall e, can_plug on e ->
    let '(q'', on'', warn) := plug_step (q', on, O) e in
    warn = O /\ forall t, t ∈ on -> t ∈ on'' -> shared (core_of q'' t) = shared (core_of q' t).
Proof.
  intros Hself Hes.
  assert (HL : Led q ∅) by (split; [left; apply not_elem_of_empty | auto | intros t Ht; destruct (not_elem_of_empty t Ht)]).
  revert q HL Hes Hself. generalize (∅ : gset nat) at 1 2 3 as on. intros on q HL Hes _. revert on q HL Hes.
  induction es as [|e es IH]; intros on q HL Hes; cbn [foldl].
  - exists q, on. split; [reflexivity|]. split; [exact HL|]. intros e He.
    destruct (plug_step_led q on O e HL He) as (q'' & -> & _ & Hsh). auto.
  - destruct Hes as [He Hes]. destruct (plug_step_led q on O e HL He) as (q1 & E & HL1 & _). rewrite E. apply IH; assumption.
Qed.
End Plug.

(** * An example *)

Definition plain_rq : rqs := fun cpu => mkCrq (100 + cpu) (100 + cpu) 0 [] None 0 false cpu 0 0 0 false 0.

(** CPU 0 and its sibling start, the leader goes down and comes back. *)
Lemma core_leader_kept_witness : exists q' on,
  foldl (plug_step [0; 1]%nat) (plain_rq, ∅, O) [Up 0; Up 1; DownFails 1; Down 0; Up 0]%nat = (q', on, O) /\ Led [0; 1]%nat q' on.
Proof.
  destruct (core_leader_kept [0; 1]%nat ltac:(repeat constructor; set_solver) plain_rq [Up 0; Up 1; DownFails 1; Down 0; Up 0]%nat) as (q' & on & E & HL & _).
  - reflexivity.
  - cbn. unfold can_plug. cbn. set_solver.
  - exists q', on. split; [exact E | exact HL].
Defined.
