(* ===== verification/RemoteTick.v ===== *)
(** The tick that another CPU runs for a CPU without one, in src/3/20193018_PLUS-1/core.c:
    [sched_tick_start] and [sched_tick_stop] when the CPU comes and goes, and the delayed work
    [sched_tick_remote], as steps that interleave. *)

From S2P Require Import Prelude.
Local Open Scope Z_scope.

Definition TICK_SCHED_REMOTE_OFFLINE : Z := 0.
Definition TICK_SCHED_REMOTE_OFFLINING : Z := 1.
Definition TICK_SCHED_REMOTE_RUNNING : Z := 2.

(** * The work itself *)

Definition NSEC_PER_SEC : Z := 1000000000.

(** What the work does for the remote CPU. *)
Inductive remote := UpdateRqClock | TickTooLate | TaskTick | CalcLoadNohzRemote.

(** Up to the label [out_requeue]: whether the tick of the CPU is stopped, whether the CPU is
    offline, whether it is idle, its clock and the start of the current task. *)
Definition remote_body (stopped offline idle : bool) (clock exec_start : Z) : list remote :=
  if negb stopped then []
  else if offline then []
  else
    let delta := u64 (clock - exec_start) in
    [UpdateRqClock] ++ (if negb idle && (NSEC_PER_SEC * 3 <? delta) then [TickTooLate] else []) ++
    [TaskTick; CalcLoadNohzRemote].

(** * The state machine *)

(** An instance of the delayed work is waiting for its timer, in [remote_body], or past the
    update of the state and about to queue the work again. *)
Inductive instance := Pending | Body | Requeue.

(** The state of a CPU's [tick_work], the instances, whether the CPU is up, and the warnings. *)
Record tick_work := mkTick { tk_state : Z; tk_inst : list instance; tk_up : bool; tk_warn : nat }.

Definition warned (b : bool) (n : nat) : nat := if b then S n else n.

(** [queue_delayed_work]: nothing is queued when the work is pending. *)
Definition queue_delayed_work (l : list instance) : list instance :=
  if existsb (fun i => match i with Pending => true | _ => false end) l then l else Pending :: l.

(** [INIT_DELAYED_WORK]: the work is no longer pending. *)
Definition init_delayed_work (l : list instance) : list instance :=
  List.filter (fun i => match i with Pending => false | _ => true end) l.

(** [housekeeping]: the CPU keeps its tick. *)
Definition sched_tick_start (housekeeping : bool) (t : tick_work) : tick_work :=
  if housekeeping then t
  else
    let os := tk_state t in
    mkTick TICK_SCHED_REMOTE_RUNNING
      (if os =? TICK_SCHED_REMOTE_OFFLINE then queue_delayed_work (init_delayed_work (tk_inst t)) else tk_inst t)
      (tk_up t) (warned (os =? TICK_SCHED_REMOTE_RUNNING) (tk_warn t)).

Definition sched_tick_stop (housekeeping : bool) (t : tick_work) : tick_work :=
  if housekeeping then t
  else
    let os := tk_state t in
    mkTick TICK_SCHED_REMOTE_OFFLINING (tk_inst t) (tk_up t) (warned (negb (os =? TICK_SCHED_REMOTE_RUNNING)) (tk_warn t)).

(** The [k]-th instance goes on: the timer fires; the state is updated with
    [atomic_fetch_add_unless]; the work is queued again. *)
Definition sched_tick_remote (k : nat) (t : tick_work) : option tick_work :=
  match tk_inst t !! k with
  | None => None
  | Some Pending => Some (mkTick (tk_state t) (<[k := Body]> (tk_inst t)) (tk_up t) (tk_warn t))
  | Some Body =>
      let os := tk_state t in
      Some (mkTick (if os =? TICK_SCHED_REMOTE_RUNNING then os else os - 1)
        (if os =? TICK_SCHED_REMOTE_RUNNING then <[k := Requeue]> (tk_inst t) else delete k (tk_inst t))
        (tk_up t) (warned (os =? TICK_SCHED_REMOTE_OFFLINE) (tk_warn t)))
  | Some Requeue => Some (mkTick (tk_state t) (queue_delayed_work (delete k (tk_inst t))) (tk_up t) (tk_warn t))
  end.

(** The CPU comes up, goes down, or an instance goes on. *)
Inductive tick_label := TickUp | TickDown | TickStep (k : nat).

Definition with_up (t : tick_work) (b : bool) : tick_work := mkTick (tk_state t) (tk_inst t) b (tk_warn t).

Definition tick_step (housekeeping : bool) (l : tick_label) (t : tick_work) : option tick_work :=
  match l with
  | TickUp => if tk_up t then None else Some (sched_tick_start housekeeping (with_up t true))
  | TickDown => if tk_up t then Some (sched_tick_stop housekeeping (with_up t false)) else None
  | TickStep k => sched_tick_remote k t
  end.

Definition tick_off : tick_work := mkTick TICK_SCHED_REMOTE_OFFLINE [] false 0.

Inductive tick_run (housekeeping : bool) : tick_work -> tick_work -> Prop :=
  | tick_refl t : tick_run housekeeping t t
  | tick_next t t' t'' l : tick_run housekeeping t t' -> tick_step housekeeping l t' = Some t'' -> tick_run housekeeping t t''.

(** * The diagram *)

(** The states of the diagram, with what the instances are in each. *)
Definition in_diagram (t : tick_work) : Prop :=
  tk_warn t = 0%nat /\
  if tk_up t then tk_state t = TICK_SCHED_REMOTE_RUNNING /\ exists i, tk_inst t = [i]
  else tk_state t = TICK_SCHED_REMOTE_OFFLINING /\ (exists i, tk_inst t = [i]) \/
       tk_state t = TICK_SCHED_REMOTE_OFFLINE /\ tk_inst t = [].

Lemma tick_keeps l t t' : in_diagram t -> tick_step false l t = Some t' -> in_diagram t'.
Proof.
  intros [Hw Hd] E. destruct t as [st ins up w]; cbn in *. subst w. destruct up, l as [| |k]; cbn in E; try discriminate.
  - injection E as <-. destruct Hd as (-> & i & ->). split; [reflexivity|]. left. cbn. eauto.
  - unfold sched_tick_remote in E. destruct Hd as (-> & i & ->). cbn in E. destruct k as [|k]; [|discriminate]. cbn in E.
    destruct i; injection E as <-; split; try reflexivity; cbn; eauto.
  - injection E as <-. destruct Hd as [(-> & i & ->)|(-> & ->)]; split; try reflexivity; cbn; eauto.
  - unfold sched_tick_remote in E. destruct Hd as [(-> & i & ->)|(-> & ->)]; cbn in E; [|discriminate]. destruct k as [|k]; [|discriminate]. cbn in E.
    destruct i; injection E as <-; split; try reflexivity; cbn; eauto.
Qed.

(** A CPU with [nohz_full] has exactly one instance of the work from its start until the instance
    has seen that it went down, however start, stop and the work interleave; no
    warning is given. *)
Lemma tick_diagram t : tick_run false tick_off t -> in_diagram t.
Proof.
  intros Hr. remember tick_off as t0 eqn:E0. induction Hr as [t|t t' t'' l _ IH Hs].
  - subst t. split; [reflexivity|]. right. split; reflexivity.
  - eauto using tick_keeps.
Qed.

(** A CPU that keeps its tick has no work. *)
Lemma tick_housekeeping t : tick_run true tick_off t -> tk_inst t = [] /\ tk_warn t = 0%nat.
Proof.
  intros Hr. remember tick_off as t0 eqn:E0. induction Hr as [t|t t' t'' l _ IH Hs]; [subst t; split; reflexivity|].
  destruct (IH E0) as [Hi Hw]. destruct l as [| |k]; cbn in Hs.
  - destruct (tk_up t'); [discriminate|]. injection Hs as <-. auto.
  - destruct (tk_up t'); [|discriminate]. injection Hs as <-. auto.
  - unfold sched_tick_remote in Hs. rewrite Hi in Hs. discriminate.
Qed.
