(* ===== verification/Hotplug.v ===== *)
(** CPU hotplug in src/3/20193018_PLUS-1/core.c: what the scheduler does when a CPU starts,
    becomes active, stops being active and dies ([set_rq_online] to [sched_cpu_dying]), with the
    rollback when a CPU must stay; the life of the CPUs of one core. What the CPU does with
    its tasks on the way is in [PushOff]. *)

From S2P Require Import Prelude KHeaders Priority CoreSched CoreHotplug RemoteTick.
Local Open Scope Z_scope.

(** * State *)

(** [balance_callback] of a run queue. *)
Inductive callback := NoCallback | BalancePush | OtherCallback.

#[export] Instance callback_eq : EqDecision callback.
Proof. solve_decision. Defined.

(** Calls of code that is elsewhere, taken to leave this state as it is. A rebuild of the domains may
    put run queues offline and online (topology.c); that is not part of the model. *)
Inductive hcall :=
  | NohzBalanceExitIdle (cpu : nat) | SynchronizeRcu | ClassesOnline (cpu : nat) | ClassesOffline (cpu : nat)
  | PartitionSchedDomains | CpusetForceRebuild | CpusetUpdateActiveCpus
  | NumaMasksSet (cpu : nat) | NumaMasksClear (cpu : nat) | UpdateMaxInterval | HrtickClear (cpu : nat).

(** A run queue, as far as it is concerned: [rq->online], the callback, whether it belongs to
    a root domain. *)
Record hrq := mkHrq { rq_online : bool; balance_callback : callback; in_rd : bool; calc_load_update : Z }.

(** The masks [cpu_active_mask] and [rd->online], the counter behind [sched_smt_present],
    [num_cpus_frozen], the run queues of core scheduling, the remote ticks,
    [calc_load_tasks], the calls so far and the number of warnings. *)
Record hsys := mkHsys {
  h_rq : nat -> hrq;
  cpu_active : gset nat;
  rd_online : gset nat;
  sched_smt_present : Z;
  num_cpus_frozen : Z;
  h_core : rqs;
  h_tick : nat -> tick_work;
  calc_load_tasks : Z;
  h_calls : list hcall;
  h_warn : nat
}.

Definition set_hrq (s : hsys) (c : nat) (r : hrq) : hsys :=
  mkHsys (fun t => if decide (t = c) then r else h_rq s t) (cpu_active s) (rd_online s) (sched_smt_present s) (num_cpus_frozen s)
    (h_core s) (h_tick s) (calc_load_tasks s) (h_calls s) (h_warn s).
Definition set_masks (s : hsys) (active online : gset nat) : hsys :=
  mkHsys (h_rq s) active online (sched_smt_present s) (num_cpus_frozen s) (h_core s) (h_tick s) (calc_load_tasks s) (h_calls s) (h_warn s).
Definition set_counts (s : hsys) (smt frozen : Z) : hsys :=
  mkHsys (h_rq s) (cpu_active s) (rd_online s) smt frozen (h_core s) (h_tick s) (calc_load_tasks s) (h_calls s) (h_warn s).
Definition set_core_rqs (s : hsys) (q : rqs) (warn : nat) : hsys :=
  mkHsys (h_rq s) (cpu_active s) (rd_online s) (sched_smt_present s) (num_cpus_frozen s) q (h_tick s) (calc_load_tasks s) (h_calls s)
    (h_warn s + warn).
Definition set_tick (s : hsys) (c : nat) (t : tick_work) : hsys :=
  mkHsys (h_rq s) (cpu_active s) (rd_online s) (sched_smt_present s) (num_cpus_frozen s) (h_core s)
    (fun x => if decide (x = c) then t else h_tick s x) (calc_load_tasks s) (h_calls s) (h_warn s).
Definition set_load (s : hsys) (n : Z) : hsys :=
  mkHsys (h_rq s) (cpu_active s) (rd_online s) (sched_smt_present s) (num_cpus_frozen s) (h_core s) (h_tick s) n (h_calls s) (h_warn s).
Definition call (s : hsys) (l : list hcall) : hsys :=
  mkHsys (h_rq s) (cpu_active s) (rd_online s) (sched_smt_present s) (num_cpus_frozen s) (h_core s) (h_tick s) (calc_load_tasks s)
    (h_calls s ++ l) (h_warn s).
Definition warn_when (s : hsys) (b : bool) : hsys := set_core_rqs s (h_core s) (warn_if b).

(** * The callbacks *)

Definition balance_push_set (cpu : nat) (on : bool) (s : hsys) : hsys :=
  let rq := h_rq s cpu in
  if on then
    set_hrq (warn_when s (negb (bool_decide (balance_callback rq = NoCallback)))) cpu
      (mkHrq (rq_online rq) BalancePush (in_rd rq) (calc_load_update rq))
  else if decide (balance_callback rq = BalancePush) then set_hrq s cpu (mkHrq (rq_online rq) NoCallback (in_rd rq) (calc_load_update rq))
  else s.

Definition with_online (rq : hrq) (b : bool) : hrq := mkHrq b (balance_callback rq) (in_rd rq) (calc_load_update rq).

Definition set_rq_online (cpu : nat) (s : hsys) : hsys :=
  let rq := h_rq s cpu in
  if negb (rq_online rq)
  then call (set_hrq (set_masks s (cpu_active s) ({[cpu]} ∪ rd_online s)) cpu (with_online rq true)) [ClassesOnline cpu]
  else s.

Definition set_rq_offline (cpu : nat) (s : hsys) : hsys :=
  let rq := h_rq s cpu in
  if rq_online rq
  then let s := call s [ClassesOffline cpu] in set_hrq (set_masks s (cpu_active s) (rd_online s ∖ {[cpu]})) cpu (with_online rq false)
  else s.

Section Callbacks.
  (** [rd->span]; [sched_smp_initialized]; the CPUs with [HK_FLAG_TICK]; the change of
      [calc_load_fold_active] (loadavg.c); [calc_load_update] there. *)
  Context (span : gset nat) (sched_smp_initialized : bool) (housekeeping : nat -> bool).
  Context (calc_load_fold_active : nat -> Z -> Z) (load_update : Z).

(** [frozen] is [cpuhp_tasks_frozen]. *)
Definition cpuset_cpu_active (frozen : bool) (s : hsys) : hsys :=
  if frozen then
    let s := call s [PartitionSchedDomains] in
    let n := num_cpus_frozen s - 1 in
    let s := set_counts s (sched_smt_present s) n in
    if negb (n =? 0) then s else call s [CpusetForceRebuild; CpusetUpdateActiveCpus]
  else call s [CpusetUpdateActiveCpus].

(** [busy] is what [dl_cpu_busy] (deadline.c) answers. *)
Definition cpuset_cpu_inactive (frozen : bool) (busy : Z) (s : hsys) : Z * hsys :=
  if negb frozen then
    if negb (busy =? 0) then (busy, s) else (0, call s [CpusetUpdateActiveCpus])
  else (0, call (set_counts s (sched_smt_present s) (num_cpus_frozen s + 1)) [PartitionSchedDomains]).

(** The part under the run queue's lock; a CPU outside the span is a [BUG]. *)
Definition with_rd (cpu : nat) (f : hsys -> hsys) (s : hsys) : res hsys :=
  if in_rd (h_rq s cpu) then if decide (cpu ∈ span) then Ok (f s) else Undef else Ok s.

Definition sched_cpu_activate (frozen : bool) (smt_mask : list nat) (cpu : nat) (s : hsys) : res hsys :=
  let s := balance_push_set cpu false s in
  let s := if (length smt_mask =? 2)%nat then set_counts s (sched_smt_present s + 1) (num_cpus_frozen s) else s in
  let s := set_masks s ({[cpu]} ∪ cpu_active s) (rd_online s) in
  let s := if sched_smp_initialized then cpuset_cpu_active frozen (call s [NumaMasksSet cpu]) else s in
  with_rd cpu (set_rq_online cpu) s.

Definition sched_cpu_deactivate (frozen : bool) (busy : Z) (smt_mask : list nat) (cpu : nat) (s : hsys) : res (Z * hsys) :=
  let s := call s [NohzBalanceExitIdle cpu] in
  let s := set_masks s (cpu_active s ∖ {[cpu]}) (rd_online s) in
  let s := balance_push_set cpu true s in
  let s := call s [SynchronizeRcu] in
  s ← with_rd cpu (set_rq_offline cpu) s;
  let s := if (length smt_mask =? 2)%nat then set_counts s (sched_smt_present s - 1) (num_cpus_frozen s) else s in
  let '(q, warn) := sched_core_cpu_deactivate (h_core s) cpu smt_mask in
  let s := set_core_rqs s q warn in
  if negb sched_smp_initialized then mret (0, s)
  else
    let '(ret, s) := cpuset_cpu_inactive frozen busy s in
    if negb (ret =? 0) then
      let s := balance_push_set cpu false s in
      mret (ret, set_masks s ({[cpu]} ∪ cpu_active s) (rd_online s))
    else mret (0, call s [NumaMasksClear cpu]).

Definition sched_rq_cpu_starting (cpu : nat) (s : hsys) : hsys :=
  let rq := h_rq s cpu in
  call (set_hrq s cpu (mkHrq (rq_online rq) (balance_callback rq) (in_rd rq) load_update)) [UpdateMaxInterval].

Definition sched_cpu_starting (smt_mask : list nat) (cpu : nat) (s : hsys) : hsys :=
  let '(q, warn) := sched_core_cpu_starting (h_core s) cpu smt_mask in
  let s := set_core_rqs s q warn in
  let s := sched_rq_cpu_starting cpu s in
  set_tick s cpu (sched_tick_start (housekeeping cpu) (with_up (h_tick s cpu) true)).

Definition calc_load_migrate (cpu : nat) (s : hsys) : hsys :=
  let delta := calc_load_fold_active cpu 1 in
  if negb (delta =? 0) then set_load s (calc_load_tasks s + delta) else s.

(** [nr_running] and whether there are pinned tasks, when the CPU dies. *)
Definition sched_cpu_dying (nr_running : Z) (pinned : bool) (cpu : nat) (s : hsys) : hsys :=
  let s := set_tick s cpu (sched_tick_stop (housekeeping cpu) (with_up (h_tick s cpu) false)) in
  let s := warn_when s (negb (nr_running =? 1) || pinned) in
  let s := calc_load_migrate cpu s in
  let s := call s [UpdateMaxInterval; HrtickClear cpu] in
  set_core_rqs s (sched_core_cpu_dying (h_core s) cpu) 0.

(** * The CPUs of a core *)

  (** The CPUs of a core. *)
  Context (siblings : list nat).

(** A CPU comes up; it goes down unless [dl_cpu_busy] refuses with [busy], and dies with [running] tasks
    on its queue, some of them perhaps [pinned]; it stops being active and a later step of the
    hotplug machine fails, which makes it active again; its remote tick goes on. *)
Inductive motion := GoUp (cpu : nat) | GoDown (busy running : Z) (pinned : bool) (cpu : nat) | RollBack (cpu : nat) | RemoteWork (k cpu : nat).

Definition motion_cpu (m : motion) : nat := match m with GoUp c | GoDown _ _ _ c | RollBack c | RemoteWork _ c => c end.

(** The system and the CPUs of the core that are up. *)
Definition move (frozen : bool) (m : motion) (s : hsys) (up : gset nat) : res (hsys * gset nat) :=
  match m with
  | GoUp c =>
      let up := {[c]} ∪ up in
      s ← sched_cpu_activate frozen (smt_mask siblings up) c (sched_cpu_starting (smt_mask siblings up) c s);
      mret (s, up)
  | GoDown busy running pinned c =>
      '(ret, s) ← sched_cpu_deactivate frozen busy (smt_mask siblings up) c s;
      if ret =? 0 then mret (sched_cpu_dying running pinned c s, up ∖ {[c]}) else mret (s, up)
  | RollBack c =>
      '(_, s) ← sched_cpu_deactivate frozen 0 (smt_mask siblings up) c s;
      s ← sched_cpu_activate frozen (smt_mask siblings up) c s;
      mret (s, up)
  | RemoteWork k c =>
      match sched_tick_remote k (h_tick s c) with Some t => mret (set_tick s c t, up) | None => mret (s, up) end
  end.

Fixpoint moves (ms : list (bool * motion)) (s : hsys) (up : gset nat) : res (hsys * gset nat) :=
  match ms with
  | [] => mret (s, up)
  | (frozen, m) :: ms => '(s, up) ← move frozen m s up; moves ms s up
  end.

(** A motion that is refused: not in a suspend. *)
Definition refused (frozen : bool) (m : motion) : bool :=
  match m with GoDown busy _ _ _ => negb frozen && negb (busy =? 0) | _ => false end.

Definition up_after (frozen : bool) (m : motion) (up : gset nat) : gset nat :=
  match m with
  | GoUp c => {[c]} ∪ up
  | GoDown _ _ _ c => if refused frozen m then up else up ∖ {[c]}
  | _ => up
  end.

Definition can_move (up : gset nat) (m : motion) : Prop :=
  motion_cpu m ∈ siblings /\ match m with GoUp c => c ∉ up | GoDown _ _ _ c | RollBack c => c ∈ up | RemoteWork _ _ => True end.

Fixpoint can_moves (up : gset nat) (ms : list (bool * motion)) : Prop :=
  match ms with [] => True | (frozen, m) :: ms => can_move up m /\ can_moves (up_after frozen m up) ms end.

(** What refusals leave behind: the CPUs whose run queue is offline although they are up, and how
    often the count of cores with siblings went down for nothing. *)
Definition stranded_after (frozen : bool) (m : motion) (stranded : gset nat) : gset nat :=
  if refused frozen m then {[motion_cpu m]} ∪ stranded
  else match m with RemoteWork _ _ => stranded | _ => stranded ∖ {[motion_cpu m]} end.

Definition lost_after (frozen : bool) (m : motion) (up : gset nat) (lost : Z) : Z :=
  if refused frozen m && (length (smt_mask siblings up) =? 2)%nat then lost + 1 else lost.

(** The stopper is the last task of a CPU that dies: anything else is warned about. *)
Definition warns_after (frozen : bool) (m : motion) (w : nat) : nat :=
  match m with
  | GoDown _ running pinned _ => if negb (refused frozen m) && (negb (running =? 1) || pinned) then S w else w
  | _ => w
  end.

Definition warnings (ms : list (bool * motion)) (w : nat) : nat := fold_left (fun w '(frozen, m) => warns_after frozen m w) ms w.

Fixpoint left_behind (ms : list (bool * motion)) (up stranded : gset nat) (lost : Z) : gset nat * Z :=
  match ms with
  | [] => (stranded, lost)
  | (frozen, m) :: ms => left_behind ms (up_after frozen m up) (stranded_after frozen m stranded) (lost_after frozen m up lost)
  end.

Definition b2z (b : bool) : Z := if b then 1 else 0.

(** The state of the core, given the CPUs that are up, what was left behind and what was warned about. *)
Record Tracked (base : Z) (s : hsys) (up stranded : gset nat) (lost : Z) (w : nat) : Prop := {
  tr_active c : c ∈ siblings -> (c ∈ cpu_active s <-> c ∈ up);
  tr_push c : c ∈ siblings -> balance_callback (h_rq s c) = if decide (c ∈ up) then NoCallback else BalancePush;
  tr_rd c : c ∈ siblings -> in_rd (h_rq s c) = true;
  tr_online c : c ∈ siblings -> (rq_online (h_rq s c) = true <-> c ∈ up /\ c ∉ stranded);
  tr_rd_online c : c ∈ siblings -> (c ∈ rd_online s <-> rq_online (h_rq s c) = true);
  tr_smt : sched_smt_present s = base + b2z (2 <=? length (smt_mask siblings up))%nat - lost;
  tr_led : Led siblings (h_core s) up;
  tr_tick c : c ∈ siblings -> housekeeping c = false -> in_diagram (h_tick s c) /\ tk_up (h_tick s c) = bool_decide (c ∈ up);
  tr_warn : h_warn s = w
}.

  Hypothesis siblings_nodup : NoDup siblings.
  Hypothesis siblings_span : forall c, c ∈ siblings -> c ∈ span.
  Hypothesis initialized : sched_smp_initialized = true.

(** Going into the mask of siblings and out of it. *)
Lemma smt_grows up c : c ∈ siblings -> c ∉ up -> length (smt_mask siblings ({[c]} ∪ up)) = S (length (smt_mask siblings up)).
Proof.
  intros Hc Hn. unfold smt_mask. revert siblings_nodup Hc. clear -Hn. induction siblings as [|x l IH]; intros Hnd Hc; [apply not_elem_of_nil in Hc; contradiction|].
  apply NoDup_cons in Hnd as [Hx Hnd]. cbn [List.filter]. apply elem_of_cons in Hc as [->|Hc].
  - rewrite bool_decide_true by set_solver. rewrite bool_decide_false by exact Hn. cbn [length]. do 2 f_equal.
    clear IH. induction l as [|y l IH]; [reflexivity|]. cbn [List.filter]. apply not_elem_of_cons in Hx as [Hxy Hx]. apply NoDup_cons in Hnd as [_ Hnd].
    assert (bool_decide (y ∈ {[x]} ∪ up) = bool_decide (y ∈ up)) as -> by (apply bool_decide_ext; set_solver).
    rewrite IH by assumption. reflexivity.
  - assert (bool_decide (x ∈ {[c]} ∪ up) = bool_decide (x ∈ up)) as -> by (apply bool_decide_ext; set_solver).
    specialize (IH Hnd Hc). destruct (bool_decide (x ∈ up)); cbn [length]; rewrite IH; reflexivity.
Qed.

Lemma smt_shrinks up c : c ∈ siblings -> c ∈ up -> length (smt_mask siblings up) = S (length (smt_mask siblings (up ∖ {[c]}))).
Proof.
  intros Hc Hu. rewrite <- (smt_grows (up ∖ {[c]}) c Hc) by set_solver.
  replace ({[c]} ∪ up ∖ {[c]}) with up; [reflexivity|]. apply set_eq. intros x. destruct (decide (x = c)); set_solver.
Qed.

(** What domains and cpusets are told changes nothing else. *)
Definition alike (s s' : hsys) : Prop :=
  h_rq s' = h_rq s /\ cpu_active s' = cpu_active s /\ rd_online s' = rd_online s /\ sched_smt_present s' = sched_smt_present s /\
  h_core s' = h_core s /\ h_tick s' = h_tick s /\ h_warn s' = h_warn s.

Lemma cpuset_active_alike frozen s : alike s (cpuset_cpu_active frozen s).
Proof. unfold cpuset_cpu_active. destruct frozen; [cbn; destruct (negb _)|]; repeat split. Qed.

Lemma cpuset_inactive_alike frozen busy s ret s' : cpuset_cpu_inactive frozen busy s = (ret, s') ->
  alike s s' /\ ret = if frozen then 0 else busy.
Proof.
  unfold cpuset_cpu_inactive. destruct frozen; cbn [negb]; [intros [= <- <-]; repeat split|].
  destruct (Z.eqb_spec busy 0) as [->|Hb]; cbn [negb]; intros [= <- <-]; repeat split.
Qed.

Lemma activate_spec frozen mask c s : c ∈ siblings -> in_rd (h_rq s c) = true -> balance_callback (h_rq s c) <> OtherCallback ->
  (c ∈ rd_online s <-> rq_online (h_rq s c) = true) ->
  exists s', sched_cpu_activate frozen mask c s = Ok s' /\
    (forall t, h_rq s' t = if decide (t = c) then mkHrq true NoCallback true (calc_load_update (h_rq s c)) else h_rq s t) /\
    cpu_active s' = {[c]} ∪ cpu_active s /\ (forall x, x ∈ rd_online s' <-> x = c \/ x ∈ rd_online s) /\
    sched_smt_present s' = sched_smt_present s + b2z (length mask =? 2)%nat /\
    h_core s' = h_core s /\ h_tick s' = h_tick s /\ h_warn s' = h_warn s.
Proof.
  intros Hc Hrd Hcb Hon. unfold sched_cpu_activate. rewrite initialized.
  set (s1 := balance_push_set c false s).
  assert (forall t, h_rq s1 t = if decide (t = c) then mkHrq (rq_online (h_rq s c)) NoCallback true (calc_load_update (h_rq s c)) else h_rq s t) as E1.
  { intros t. unfold s1, balance_push_set. destruct (h_rq s c) as [o cb r l] eqn:Er. cbn in *. subst r.
    destruct cb; [|reflexivity | congruence]. cbn. destruct (decide (t = c)) as [->|]; [exact Er | reflexivity]. }
  assert (cpu_active s1 = cpu_active s /\ rd_online s1 = rd_online s /\ sched_smt_present s1 = sched_smt_present s /\
    h_core s1 = h_core s /\ h_tick s1 = h_tick s /\ h_warn s1 = h_warn s) as (A1 & A2 & A3 & A4 & A5 & A6)
    by (unfold s1, balance_push_set; destruct (decide _); repeat split).
  clearbody s1.
  set (s2 := if (length mask =? 2)%nat then _ else s1).
  assert (h_rq s2 = h_rq s1 /\ cpu_active s2 = cpu_active s1 /\ rd_online s2 = rd_online s1 /\
    sched_smt_present s2 = sched_smt_present s1 + b2z (length mask =? 2)%nat /\ h_core s2 = h_core s1 /\ h_tick s2 = h_tick s1 /\ h_warn s2 = h_warn s1)
    as (B0 & B1 & B2 & B3 & B4 & B5 & B6).
  { unfold s2. destruct (length mask =? 2)%nat; cbn; split_and!; reflexivity || lia. }
  clearbody s2.
  pose proof (cpuset_active_alike frozen (call (set_masks s2 ({[c]} ∪ cpu_active s2) (rd_online s2)) [NumaMasksSet c])) as (C0 & C1 & C2 & C3 & C4 & C5 & C6).
  set (s3 := cpuset_cpu_active frozen _) in *. clearbody s3. cbn in C0, C1, C2, C3, C4, C5, C6.
  assert (h_rq s3 c = mkHrq (rq_online (h_rq s c)) NoCallback true (calc_load_update (h_rq s c))) as E3
    by (rewrite C0, B0, E1, decide_True by reflexivity; reflexivity).
  unfold with_rd. rewrite E3. cbn [in_rd]. rewrite decide_True by (apply siblings_span; exact Hc).
  eexists. split; [reflexivity|]. unfold set_rq_online. rewrite E3. cbn [rq_online].
  destruct (rq_online (h_rq s c)) eqn:Eo; cbn; rewrite ?C0, ?C1, ?C2, ?C3, ?C4, ?C5, ?C6, ?B0, ?B1, ?B2, ?B3, ?B4, ?B5, ?B6, ?A1, ?A2, ?A3, ?A4, ?A5, ?A6.
  - split_and!; try reflexivity; [intros t; rewrite E1, ?Eo; reflexivity|]. intros x. split; [auto|]. intros [->|Hx]; [apply Hon; reflexivity | exact Hx].
  - split_and!; try reflexivity; [intros t; destruct (decide (t = c)); [reflexivity|]; rewrite E1, decide_False by assumption; reflexivity|].
    intros x. rewrite elem_of_union, elem_of_singleton. reflexivity.
Qed.

Lemma deactivate_spec (frozen : bool) busy mask c s : c ∈ siblings -> in_rd (h_rq s c) = true -> balance_callback (h_rq s c) = NoCallback ->
  (c ∈ rd_online s <-> rq_online (h_rq s c) = true) ->
  exists s', let ret := if frozen then 0 else busy in
    sched_cpu_deactivate frozen busy mask c s = Ok (ret, s') /\
    (forall t, h_rq s' t = if decide (t = c)
       then mkHrq false (if ret =? 0 then BalancePush else NoCallback) true (calc_load_update (h_rq s c)) else h_rq s t) /\
    (forall x, x ∈ cpu_active s' <-> if ret =? 0 then x <> c /\ x ∈ cpu_active s else x = c \/ x ∈ cpu_active s) /\
    (forall x, x ∈ rd_online s' <-> x <> c /\ x ∈ rd_online s) /\
    sched_smt_present s' = sched_smt_present s - b2z (length mask =? 2)%nat /\
    (h_core s', h_warn s') = (let '(q, w) := sched_core_cpu_deactivate (h_core s) c mask in (q, h_warn s + w)%nat) /\
    h_tick s' = h_tick s.
Proof.
  intros Hc Hrd Hcb Hon. unfold sched_cpu_deactivate. rewrite initialized. cbn [negb].
  cbv zeta. match goal with |- context [with_rd c _ ?x] => set (s1 := x) end.
  assert ((forall t, h_rq s1 t = if decide (t = c) then mkHrq (rq_online (h_rq s c)) BalancePush true (calc_load_update (h_rq s c)) else h_rq s t) /\
    cpu_active s1 = cpu_active s ∖ {[c]} /\ rd_online s1 = rd_online s /\ sched_smt_present s1 = sched_smt_present s /\
    h_core s1 = h_core s /\ h_tick s1 = h_tick s /\ h_warn s1 = h_warn s) as (A0 & A1 & A2 & A3 & A4 & A5 & A6).
  { unfold s1, balance_push_set. cbn. rewrite Hcb, Hrd, bool_decide_true by reflexivity. cbn. split_and!; reflexivity || lia. }
  clearbody s1.
  assert (exists s2, with_rd c (set_rq_offline c) s1 = Ok s2 /\
    (forall t, h_rq s2 t = if decide (t = c) then mkHrq false BalancePush true (calc_load_update (h_rq s c)) else h_rq s t) /\
    cpu_active s2 = cpu_active s1 /\ (forall x, x ∈ rd_online s2 <-> x <> c /\ x ∈ rd_online s) /\ sched_smt_present s2 = sched_smt_present s1 /\
    h_core s2 = h_core s1 /\ h_tick s2 = h_tick s1 /\ h_warn s2 = h_warn s1) as (s2 & -> & B0 & B1 & B2 & B3 & B4 & B5 & B6).
  { unfold with_rd, set_rq_offline. rewrite A0, decide_True by reflexivity. cbn [in_rd]. rewrite decide_True by (apply siblings_span; exact Hc).
    eexists. split; [reflexivity|]. cbn [rq_online].
    destruct (rq_online (h_rq s c)) eqn:Eo; cbn.
    - split_and!; try reflexivity; [intros t; destruct (decide (t = c)); [reflexivity|]; rewrite A0, decide_False by assumption; reflexivity|].
      intros x. rewrite A2, elem_of_difference, elem_of_singleton. tauto.
    - split_and!; try reflexivity; [exact A0|]. intros x. rewrite A2. split; [|tauto].
      intros Hx. split; [|exact Hx]. intros ->. apply Hon in Hx. discriminate. }
  cbn [mbind res_bind]. set (s3 := if (length mask =? 2)%nat then _ else s2).
  assert (h_rq s3 = h_rq s2 /\ cpu_active s3 = cpu_active s2 /\ rd_online s3 = rd_online s2 /\
    sched_smt_present s3 = sched_smt_present s2 - b2z (length mask =? 2)%nat /\ h_core s3 = h_core s2 /\ h_tick s3 = h_tick s2 /\ h_warn s3 = h_warn s2)
    as (C0 & C1 & C2 & C3 & C4 & C5 & C6) by (unfold s3; destruct (length mask =? 2)%nat; cbn; split_and!; reflexivity || lia).
  clearbody s3. rewrite C4, B4, A4. destruct (sched_core_cpu_deactivate (h_core s) c mask) as [q w].
  destruct (cpuset_cpu_inactive frozen busy (set_core_rqs s3 q w)) as [ret s4] eqn:E.
  apply cpuset_inactive_alike in E as [(D0 & D1 & D2 & D3 & D4 & D5 & D6) ->]. cbn in D0, D1, D2, D3, D4, D5, D6.
  set (ret := if frozen then 0 else busy).
  assert (forall x, x ∈ rd_online s4 <-> x <> c /\ x ∈ rd_online s) as Hrdo by (intros x; rewrite D2, C2; apply B2).
  assert (forall x, x ∈ cpu_active s4 <-> x <> c /\ x ∈ cpu_active s) as Hact
    by (intros x; rewrite D1, C1, B1, A1, elem_of_difference, elem_of_singleton; tauto).
  destruct (Z.eqb_spec ret 0) as [Er|Er]; cbn [negb].
  - exists (call s4 [NumaMasksClear c]). cbv zeta. fold ret. rewrite Er. cbn. split_and!; [reflexivity | | exact Hact | exact Hrdo | lia | | congruence].
    + intros t. rewrite D0, C0. apply B0.
    + rewrite D4, D6, C6, B6, A6. reflexivity.
  - eexists. cbv zeta. split; [reflexivity|].
    assert (forall t, h_rq (balance_push_set c false s4) t = if decide (t = c) then mkHrq false NoCallback true (calc_load_update (h_rq s c)) else h_rq s t) as Hrq.
    { intros t. assert (h_rq s4 c = mkHrq false BalancePush true (calc_load_update (h_rq s c))) as Ec by (rewrite D0, C0, B0, decide_True by reflexivity; reflexivity).
      unfold balance_push_set. rewrite Ec. cbn [balance_callback]. rewrite decide_True by reflexivity. cbn. destruct (decide (t = c)) as [->|Hn]; [reflexivity|]. rewrite D0, C0, B0, decide_False by exact Hn. reflexivity. }
    assert (cpu_active (balance_push_set c false s4) = cpu_active s4 /\ rd_online (balance_push_set c false s4) = rd_online s4 /\
      sched_smt_present (balance_push_set c false s4) = sched_smt_present s4 /\ h_core (balance_push_set c false s4) = h_core s4 /\
      h_tick (balance_push_set c false s4) = h_tick s4 /\ h_warn (balance_push_set c false s4) = h_warn s4) as (F1 & F2 & F3 & F4 & F5 & F6)
      by (unfold balance_push_set; destruct (decide _); repeat split).
    set (s5 := balance_push_set c false s4) in *. clearbody s5. cbn. rewrite F1, F2, F3, F4, F5, F6. split_and!; [exact Hrq | | exact Hrdo | lia | rewrite D4, D6, C6, B6, A6; reflexivity | congruence].
    intros x. rewrite elem_of_union, elem_of_singleton, Hact. destruct (decide (x = c)); tauto.
Qed.

Lemma starting_spec mask c s : exists s', sched_cpu_starting mask c s = s' /\
  (forall t, h_rq s' t = if decide (t = c) then mkHrq (rq_online (h_rq s c)) (balance_callback (h_rq s c)) (in_rd (h_rq s c)) load_update else h_rq s t) /\
  cpu_active s' = cpu_active s /\ rd_online s' = rd_online s /\ sched_smt_present s' = sched_smt_present s /\
  (h_core s', h_warn s') = (let '(q, w) := sched_core_cpu_starting (h_core s) c mask in (q, h_warn s + w)%nat) /\
  (forall t, h_tick s' t = if decide (t = c) then sched_tick_start (housekeeping c) (with_up (h_tick s c) true) else h_tick s t).
Proof.
  eexists. split; [reflexivity|]. unfold sched_cpu_starting. destruct (sched_core_cpu_starting (h_core s) c mask) as [q w].
  cbn. split_and!; reflexivity.
Qed.

Lemma dying_spec running pinned c s : exists s', sched_cpu_dying running pinned c s = s' /\ h_rq s' = h_rq s /\ cpu_active s' = cpu_active s /\ rd_online s' = rd_online s /\
  sched_smt_present s' = sched_smt_present s /\ h_core s' = sched_core_cpu_dying (h_core s) c /\ 
  h_warn s' = (if negb (running =? 1) || pinned then S (h_warn s) else h_warn s) /\
  (forall t, h_tick s' t = if decide (t = c) then sched_tick_stop (housekeeping c) (with_up (h_tick s c) false) else h_tick s t).
Proof.
  eexists. split; [reflexivity|]. unfold sched_cpu_dying, calc_load_migrate, warn_when.
  destruct (negb (running =? 1) || pinned); cbn; destruct (negb _); cbn; split_and!; reflexivity || lia.
Qed.

(** Up and down, as the ticks see it. *)
Lemma tick_goes_up t : tk_up t = false -> in_diagram t -> in_diagram (sched_tick_start false (with_up t true)).
Proof. intros Hu Hd. apply (tick_keeps TickUp t); [exact Hd|]. unfold tick_step. rewrite Hu. reflexivity. Qed.

Lemma tick_goes_down t : tk_up t = true -> in_diagram t -> in_diagram (sched_tick_stop false (with_up t false)).
Proof. intros Hu Hd. apply (tick_keeps TickDown t); [exact Hd|]. unfold tick_step. rewrite Hu. reflexivity. Qed.

Lemma remote_up k t t' : sched_tick_remote k t = Some t' -> tk_up t' = tk_up t.
Proof. unfold sched_tick_remote. destruct (tk_inst t !! k) as [[]|]; intros [= <-]; reflexivity. Qed.

Lemma up_keeps frozen c base s up stranded lost w : Tracked base s up stranded lost w -> can_move up (GoUp c) ->
  exists s', move frozen (GoUp c) s up = Ok (s', {[c]} ∪ up) /\ Tracked base s' ({[c]} ∪ up) (stranded ∖ {[c]}) lost w.
Proof.
  intros [T1 T2 T3 T4 T5 T6 T7 T8 T9] [Hc Hn]. cbn in Hc, Hn. cbn [move].
  destruct (starting_led siblings siblings_nodup (h_core s) up c T7 Hn) as (q & Eq & HL & _); [apply list_elem_of_In; exact Hc|].
  destruct (starting_spec (smt_mask siblings ({[c]} ∪ up)) c s) as (s1 & -> & R0 & R1 & R2 & R3 & R4 & R5). rewrite Eq in R4. injection R4 as R4 R6.
  destruct (activate_spec frozen (smt_mask siblings ({[c]} ∪ up)) c s1 Hc) as (s2 & -> & A0 & A1 & A2 & A3 & A4 & A5 & A6).
  { rewrite R0, decide_True by reflexivity. exact (T3 c Hc). }
  { rewrite R0, decide_True by reflexivity. cbn. rewrite T2, decide_False by assumption. discriminate. }
  { rewrite R0, decide_True by reflexivity. cbn. rewrite R2. exact (T5 c Hc). }
  cbn [mbind res_bind]. exists s2. split; [reflexivity|]. split.
  - intros t Ht. rewrite A1, R1, !elem_of_union, (T1 t Ht). reflexivity.
  - intros t Ht. rewrite A0. destruct (decide (t = c)) as [->|Htc].
    + cbn [balance_callback]. rewrite decide_True by set_solver. reflexivity.
    + rewrite R0, decide_False, T2 by assumption. apply decide_ext. set_solver.
  - intros t Ht. rewrite A0. destruct (decide (t = c)); [reflexivity|]. rewrite R0, decide_False by assumption. exact (T3 t Ht).
  - intros t Ht. rewrite A0. destruct (decide (t = c)) as [->|Htc]; [cbn; set_solver|]. rewrite R0, decide_False, (T4 t Ht) by assumption. set_solver.
  - intros t Ht. rewrite A2, R2, A0. destruct (decide (t = c)) as [->|Htc]; [cbn; tauto|]. rewrite R0, decide_False, (T5 t Ht) by assumption. tauto.
  - rewrite A3, R3, T6, smt_grows by assumption. set (n := length (smt_mask siblings up)).
    destruct (Nat.eqb_spec (S n) 2), (Nat.leb_spec 2 (S n)), (Nat.leb_spec 2 n); cbn; lia.
  - rewrite A4, R4. exact HL.
  - intros t Ht Hh. rewrite A5, R5. destruct (T8 t Ht Hh) as [Hd Hu]. destruct (decide (t = c)) as [->|Htc].
    + rewrite Hh. rewrite bool_decide_false in Hu by exact Hn. split; [exact (tick_goes_up _ Hu Hd)|].
      rewrite bool_decide_true by set_solver. reflexivity.
    + split; [exact Hd|]. rewrite Hu. apply bool_decide_ext. set_solver.
  - rewrite A6, R6, T9. lia.
Qed.

(** A CPU that goes down, or has to stay. *)
Lemma going_down_keeps frozen busy running pinned c base s up stranded lost w : Tracked base s up stranded lost w -> can_move up (GoDown busy running pinned c) ->
  let m := GoDown busy running pinned c in
  exists s', move frozen m s up = Ok (s', up_after frozen m up) /\
    Tracked base s' (up_after frozen m up) (stranded_after frozen m stranded) (lost_after frozen m up lost) (warns_after frozen m w).
Proof.
  intros [T1 T2 T3 T4 T5 T6 T7 T8 T9] [Hc Hn] m. cbn in Hc, Hn.
  destruct (deactivate_led siblings siblings_nodup (h_core s) up c T7 Hn) as (q & l & Eq & Hl & Hone & Hy & Hoff & _).
  destruct (deactivate_spec frozen busy (smt_mask siblings up) c s Hc (T3 c Hc)) as (s1 & Hs1);
    [rewrite T2, decide_True by assumption; reflexivity | exact (T5 c Hc)|].
  cbv zeta in Hs1. unfold m, move, up_after, stranded_after, lost_after, warns_after, refused. cbn [motion_cpu].
  assert (negb frozen && negb (busy =? 0) = negb ((if frozen then 0 else busy) =? 0)) as -> by (destruct frozen; reflexivity).
  set (ret := if frozen then 0 else busy) in *. destruct Hs1 as (-> & A0 & A1 & A2 & A3 & A4 & A5).
  rewrite Eq in A4. injection A4 as A4 A6. cbn [mbind res_bind].
  pose proof (smt_shrinks up c Hc Hn) as Hlen. destruct (ret =? 0) eqn:Er; cbn [negb andb].
  - destruct (dying_spec running pinned c s1) as (s2 & -> & D0 & D1 & D2 & D3 & D4 & D5 & D6).
    destruct (dying_led siblings q up c l Hl Hn Hone) as [HL _];
      [intros t Ht; rewrite Hoff by exact Ht; apply T7; exact Ht | exact Hy | apply T7|].
    exists s2. split; [reflexivity|]. split.
    + intros t Ht. rewrite D1, A1, (T1 t Ht). set_solver.
    + intros t Ht. rewrite D0, A0. destruct (decide (t = c)) as [->|Htc].
      * cbn [balance_callback]. rewrite decide_False by set_solver. reflexivity.
      * rewrite T2 by exact Ht. apply decide_ext. set_solver.
    + intros t Ht. rewrite D0, A0. destruct (decide (t = c)); [reflexivity | exact (T3 t Ht)].
    + intros t Ht. rewrite D0, A0. destruct (decide (t = c)) as [->|Htc]; [cbn; set_solver|]. rewrite (T4 t Ht). set_solver.
    + intros t Ht. rewrite D2, A2, D0, A0. destruct (decide (t = c)) as [->|Htc]; [cbn; intuition discriminate|]. rewrite (T5 t Ht). tauto.
    + rewrite D3, A3, T6, Hlen. set (n := length (smt_mask siblings (up ∖ {[c]}))).
      destruct (Nat.eqb_spec (S n) 2), (Nat.leb_spec 2 (S n)), (Nat.leb_spec 2 n); cbn; lia.
    + rewrite D4, A4. exact HL.
    + intros t Ht Hh. rewrite D6, A5. destruct (T8 t Ht Hh) as [Hd Hu]. destruct (decide (t = c)) as [->|Htc].
      * rewrite Hh. rewrite bool_decide_true in Hu by exact Hn. split; [exact (tick_goes_down _ Hu Hd)|].
        rewrite bool_decide_false by set_solver. reflexivity.
      * split; [exact Hd|]. rewrite Hu. apply bool_decide_ext. set_solver.
    + rewrite D5, A6, T9. destruct (_ || _); lia.
  - exists s1. split; [reflexivity|]. split.
    + intros t Ht. rewrite A1, (T1 t Ht). split; [intros [->|Hx]; assumption | auto].
    + intros t Ht. rewrite A0. destruct (decide (t = c)) as [->|Htc]; [|exact (T2 t Ht)].
      cbn [balance_callback]. rewrite decide_True by exact Hn. reflexivity.
    + intros t Ht. rewrite A0. destruct (decide (t = c)); [reflexivity | exact (T3 t Ht)].
    + intros t Ht. rewrite A0. destruct (decide (t = c)) as [->|Htc]; [cbn; set_solver|]. rewrite (T4 t Ht). set_solver.
    + intros t Ht. rewrite A2, A0. destruct (decide (t = c)) as [->|Htc]; [cbn; intuition discriminate|]. rewrite (T5 t Ht). tauto.
    + rewrite A3, T6. destruct (length (smt_mask siblings up) =? 2)%nat; cbn; lia.
    + rewrite A4. split; [right; exists l; auto | intros t Ht; rewrite Hoff by exact Ht; apply T7; exact Ht | apply T7].
    + intros t Ht Hh. rewrite A5. exact (T8 t Ht Hh).
    + rewrite A6, T9. lia.
Qed.

(** A CPU that stops being active and is made active again. *)
Lemma rollback_keeps frozen c base s up stranded lost w : Tracked base s up stranded lost w -> can_move up (RollBack c) ->
  exists s', move frozen (RollBack c) s up = Ok (s', up) /\ Tracked base s' up (stranded ∖ {[c]}) lost w.
Proof.
  intros [T1 T2 T3 T4 T5 T6 T7 T8 T9] [Hc Hn]. cbn in Hc, Hn.
  destruct (deactivate_led siblings siblings_nodup (h_core s) up c T7 Hn) as (q & l & Eq & Hl & Hone & Hy & Hoff & _).
  destruct (deactivate_spec frozen 0 (smt_mask siblings up) c s Hc (T3 c Hc)) as (s1 & Hs1);
    [rewrite T2, decide_True by assumption; reflexivity | exact (T5 c Hc)|].
  cbv zeta in Hs1. cbn [move]. replace (if frozen then 0 else 0) with 0 in Hs1 by (destruct frozen; reflexivity).
  destruct Hs1 as (-> & A0 & A1 & A2 & A3 & A4 & A5). rewrite Eq in A4. injection A4 as A4 A6. cbn [mbind res_bind].
  change (0 =? 0) with true in A0, A1. cbv iota in A0, A1.
  destruct (activate_spec frozen (smt_mask siblings up) c s1 Hc) as (s2 & -> & B0 & B1 & B2 & B3 & B4 & B5 & B6);
    [rewrite A0, decide_True by reflexivity; reflexivity | rewrite A0, decide_True by reflexivity; discriminate | rewrite A2, A0, decide_True by reflexivity; cbn; intuition discriminate|].
  cbn [mbind res_bind]. exists s2. split; [reflexivity|]. split.
  - intros t Ht. rewrite B1, elem_of_union, elem_of_singleton, A1, (T1 t Ht). destruct (decide (t = c)) as [->|]; tauto.
  - intros t Ht. rewrite B0. destruct (decide (t = c)) as [->|Htc]; [cbn [balance_callback]; rewrite decide_True by exact Hn; reflexivity|].
    rewrite A0, decide_False by assumption. exact (T2 t Ht).
  - intros t Ht. rewrite B0. destruct (decide (t = c)); [reflexivity|]. rewrite A0, decide_False by assumption. exact (T3 t Ht).
  - intros t Ht. rewrite B0. destruct (decide (t = c)) as [->|Htc]; [cbn; set_solver|]. rewrite A0, decide_False, (T4 t Ht) by assumption. set_solver.
  - intros t Ht. rewrite B2, A2, B0. destruct (decide (t = c)) as [->|Htc]; [cbn; tauto|]. rewrite A0, decide_False, (T5 t Ht) by assumption. tauto.
  - rewrite B3, A3, T6. lia.
  - rewrite B4, A4. split; [right; exists l; auto | intros t Ht; rewrite Hoff by exact Ht; apply T7; exact Ht | apply T7].
  - intros t Ht Hh. rewrite B5, A5. exact (T8 t Ht Hh).
  - rewrite B6, A6, T9. lia.
Qed.

Lemma remote_keeps frozen k c base s up stranded lost w : Tracked base s up stranded lost w -> c ∈ siblings ->
  exists s', move frozen (RemoteWork k c) s up = Ok (s', up) /\ Tracked base s' up stranded lost w.
Proof.
  intros [T1 T2 T3 T4 T5 T6 T7 T8 T9] Hc. cbn [move]. destruct (sched_tick_remote k (h_tick s c)) as [t|] eqn:E;
    eexists; (split; [reflexivity|]); split; try assumption.
  intros x Hx Hh. cbn. destruct (decide (x = c)) as [->|]; [|exact (T8 x Hx Hh)]. destruct (T8 c Hx Hh) as [Hd Hu].
  rewrite (remote_up _ _ _ E). split; [exact (tick_keeps (TickStep k) _ _ Hd E) | exact Hu].
Qed.

Lemma move_keeps frozen m base s up stranded lost w : Tracked base s up stranded lost w -> can_move up m ->
  exists s', move frozen m s up = Ok (s', up_after frozen m up) /\
    Tracked base s' (up_after frozen m up) (stranded_after frozen m stranded) (lost_after frozen m up lost) (warns_after frozen m w).
Proof.
  intros HT Hm. destruct m as [c|busy running pinned c|c|k c]; [apply up_keeps | apply going_down_keeps | apply rollback_keeps | eapply remote_keeps]; try eassumption. apply Hm.
Qed.

Lemma moves_keep base ms : forall s up stranded lost w, Tracked base s up stranded lost w -> can_moves up ms ->
  let '(stranded', lost') := left_behind ms up stranded lost in
  exists s' up', moves ms s up = Ok (s', up') /\ Tracked base s' up' stranded' lost' (warnings ms w).
Proof.
  induction ms as [|[frozen m] ms IH]; intros s up stranded lost w HT Hms; cbn [left_behind moves warnings fold_left].
  - exists s, up. split; [reflexivity | exact HT].
  - destruct Hms as [Hm Hms]. destruct (move_keeps frozen m base s up stranded lost w HT Hm) as (s1 & -> & HT1). cbn [mbind res_bind].
    exact (IH s1 _ _ _ _ HT1 Hms).
Qed.

(** At boot the CPUs are down. *)
Record booted (s : hsys) : Prop := {
  bo_rq c : c ∈ siblings -> balance_callback (h_rq s c) = BalancePush /\ in_rd (h_rq s c) = true /\ rq_online (h_rq s c) = false;
  bo_masks c : c ∈ siblings -> c ∉ cpu_active s /\ c ∉ rd_online s;
  bo_core c : r_core (h_core s c) = c;
  bo_tick c : h_tick s c = tick_off;
  bo_warn : h_warn s = O
}.

Lemma booted_tracked s : booted s -> Tracked (sched_smt_present s) s ∅ ∅ 0 0.
Proof.
  intros [B1 B2 B3 B4 B5]. split.
  - intros c Hc. destruct (B2 c Hc). set_solver.
  - intros c Hc. rewrite decide_False by set_solver. apply B1, Hc.
  - intros c Hc. apply B1, Hc.
  - intros c Hc. destruct (B1 c Hc) as (_ & _ & ->). set_solver.
  - intros c Hc. destruct (B1 c Hc) as (_ & _ & ->). destruct (B2 c Hc). intuition discriminate.
  - replace (smt_mask siblings ∅) with (@nil nat); [cbn; lia|]. unfold smt_mask. clear. induction siblings as [|x l IH]; [reflexivity|].
    cbn [List.filter]. rewrite bool_decide_false by set_solver. exact IH.
  - split; [left; apply not_elem_of_empty | intros t _; apply B3 | intros t Ht; destruct (not_elem_of_empty t Ht)].
  - intros c _ _. rewrite B4. split; [split; [reflexivity|]; right; split; reflexivity|]. rewrite bool_decide_false by set_solver. reflexivity.
  - exact B5.
Qed.

(** C32: the CPUs of a core come and go in any order, some refusing to go, some made active again
    after they had stopped. No callback hits a [BUG], and the only warnings are of CPUs that die
    with more than the stopper on their queue. A CPU is active exactly while
    it is up, and has [balance_push] installed exactly while it is down; the remote ticks are
    where the diagram has them and the siblings have one leader. But a refusal is not undone
    completely: the run queue of the CPU that stays is left offline, and if two
    CPUs of the core were up the core is no longer counted in [sched_smt_present], which comes to be
    less than the number of cores that have siblings. *)
Theorem hotplug_tracked s ms : booted s -> can_moves ∅ ms ->
  let '(stranded, lost) := left_behind ms ∅ ∅ 0 in
  exists s' up, moves ms s ∅ = Ok (s', up) /\ h_warn s' = warnings ms 0 /\ Led siblings (h_core s') up /\
    (forall c, c ∈ siblings ->
       (c ∈ cpu_active s' <-> c ∈ up) /\ (balance_callback (h_rq s' c) = BalancePush <-> c ∉ up) /\
       (rq_online (h_rq s' c) = true <-> c ∈ up /\ c ∉ stranded) /\ (c ∈ rd_online s' <-> rq_online (h_rq s' c) = true) /\
       (housekeeping c = false -> in_diagram (h_tick s' c) /\ tk_up (h_tick s' c) = bool_decide (c ∈ up))) /\
    sched_smt_present s' = sched_smt_present s + b2z (2 <=? length (smt_mask siblings up))%nat - lost.
Proof.
  intros HB Hms. pose proof (moves_keep _ ms _ _ _ _ _ (booted_tracked s HB) Hms) as Hk.
  destruct (left_behind ms ∅ ∅ 0) as [stranded lost]. destruct Hk as (s' & up & E & HT).
  exists s', up. split; [exact E|]. split; [apply HT|]. split; [apply HT|]. split; [|apply HT]. intros c Hc.
  split; [apply HT, Hc|]. split; [|split; [eapply HT; exact Hc|split; [eapply HT; exact Hc | eapply HT; exact Hc]]].
  rewrite (tr_push _ _ _ _ _ _ HT c Hc). destruct (decide (c ∈ up)); split; intros; congruence || contradiction.
Qed.

(** * Suspend and resume *)

Fixpoint suspend (n : nat) (s : hsys) : hsys :=
  match n with O => s | S n => suspend n (snd (cpuset_cpu_inactive true 0 s)) end.

Fixpoint resume (n : nat) (s : hsys) : hsys :=
  match n with O => s | S n => resume n (cpuset_cpu_active true s) end.

Lemma suspend_spec n : forall s, num_cpus_frozen (suspend n s) = num_cpus_frozen s + Z.of_nat n /\
  h_calls (suspend n s) = h_calls s ++ replicate n PartitionSchedDomains.
Proof.
  induction n as [|n IH]; intros s; cbn [suspend]; [split; [lia | rewrite app_nil_r; reflexivity]|].
  destruct (IH (snd (cpuset_cpu_inactive true 0 s))) as [-> ->]. cbn. split; [lia|]. rewrite <- app_assoc. reflexivity.
Qed.

Lemma resumed_spec n : forall s, num_cpus_frozen s = Z.of_nat (S n) ->
  num_cpus_frozen (resume (S n) s) = 0 /\
  h_calls (resume (S n) s) = h_calls s ++ replicate (S n) PartitionSchedDomains ++ [CpusetForceRebuild; CpusetUpdateActiveCpus].
Proof.
  induction n as [|n IH]; intros s Hs.
  - cbn [resume]. unfold cpuset_cpu_active. cbn [call num_cpus_frozen]. rewrite Hs. change (negb (Z.of_nat 1 - 1 =? 0)) with false.
    cbv iota. cbn [call h_calls num_cpus_frozen set_counts]. split; [reflexivity|]. rewrite <- app_assoc. reflexivity.
  - change (resume (S (S n)) s) with (resume (S n) (cpuset_cpu_active true s)).
    assert (num_cpus_frozen (cpuset_cpu_active true s) = Z.of_nat (S n) /\
      h_calls (cpuset_cpu_active true s) = h_calls s ++ [PartitionSchedDomains]) as [E1 E2].
    { unfold cpuset_cpu_active. cbn [call num_cpus_frozen]. destruct (Z.eqb_spec (num_cpus_frozen s - 1) 0); [lia|]. cbn. split; [lia | reflexivity]. }
    destruct (IH _ E1) as [-> ->]. split; [reflexivity|]. rewrite E2, <- app_assoc. reflexivity.
Qed.

(** When as many CPUs come back as a suspend took down, the domains are rebuilt from the
    cpusets once, with the last of them. *)
Lemma suspend_resume n s : num_cpus_frozen s = 0 ->
  num_cpus_frozen (resume (S n) (suspend (S n) s)) = 0 /\
  h_calls (resume (S n) (suspend (S n) s)) =
    h_calls s ++ replicate (2 * S n) PartitionSchedDomains ++ [CpusetForceRebuild; CpusetUpdateActiveCpus].
Proof.
  intros Hs. destruct (suspend_spec (S n) s) as [E1 E2]. destruct (resumed_spec n (suspend (S n) s)) as [-> ->]; [lia|].
  split; [reflexivity|]. rewrite E2, <- app_assoc. f_equal. rewrite app_assoc, <- replicate_add. do 2 f_equal. lia.
Qed.
End Callbacks.

(** * An example *)

Definition boot_sys : hsys :=
  mkHsys (fun _ => mkHrq false BalancePush true 0) ∅ ∅ 0 0 plain_rq (fun _ => tick_off) 0 [] 0.

(** A CPU that dies with a second task on its queue is warned about. *)
Example dying_warns : exists s' up,
  moves {[0; 1]}%nat true (fun _ => false) (fun _ _ => 0) 0 [0; 1]%nat [(false, GoUp 0); (false, GoDown 0 2 false 0)]%nat boot_sys ∅
    = Ok (s', up) /\ h_warn s' = 1%nat.
Proof. eexists _, _. split; vm_compute; reflexivity. Qed.

(** Two siblings come up and the second is refused: the core is no longer counted. *)
Lemma hotplug_tracked_witness : exists s' up,
  moves {[0; 1]}%nat true (fun _ => false) (fun _ _ => 0) 0 [0; 1]%nat [(false, GoUp 0); (false, GoUp 1); (false, GoDown (-16) 1 false 1)]%nat boot_sys ∅
    = Ok (s', up) /\ sched_smt_present s' = b2z (2 <=? length (smt_mask [0; 1]%nat up))%nat - 1 /\
  (1%nat ∈ cpu_active s' <-> 1%nat ∈ up) /\ rq_online (h_rq s' 1%nat) <> true.
Proof.
  pose proof (hotplug_tracked {[0; 1]}%nat true (fun _ => false) (fun _ _ => 0) 0 [0; 1]%nat) as Ht.
  specialize (fun H1 H2 H3 => Ht H1 H2 H3 boot_sys [(false, GoUp 0); (false, GoUp 1); (false, GoDown (-16) 1 false 1)]%nat).
  destruct Ht as (s' & up & E & _ & _ & Hc & Hs);
    [repeat constructor; set_solver | set_solver | reflexivity | | repeat split; set_solver |].
  - split; try reflexivity; [intros c _; cbn; auto | intros c _; split; apply not_elem_of_empty].
  - exists s', up. split; [exact E|]. split; [exact Hs|].
    assert (1%nat ∈ [0; 1]%nat) as H01 by (clear; set_solver).
    destruct (Hc 1%nat H01) as (H1 & _ & H2 & _). split; [exact H1|]. intros Ho. apply H2 in Ho as [_ Hn].
    apply Hn. cbn. set_solver.
Defined.
