(* ===== verification/PushOff.v ===== *)
(** How a CPU that goes down gets rid of its tasks, in src/3/20193018_PLUS-1/core.c:
    [balance_push] after every switch, [__balance_push_cpu_stop] in the stopper, and
    [balance_hotplug_wait] in the thread that takes the CPU down. *)

From S2P Require Import Prelude.
Local Open Scope Z_scope.

(** * State *)

(** What [balance_push] asks of a task: [kthread_is_per_cpu], [is_migration_disabled]. *)
Record ptask := mkPt { per_cpu : bool; pinned : bool }.

Inductive running := Idle | Stopper | Runs (t : nat).

(** The CPU that goes down: the tasks of its run queue, the current one among them, and those
    that sleep on it; the task that [push_work] is for while it is queued; references to tasks;
    where tasks were pushed to; the thread that takes the CPU down, whether it sleeps in
    [hotplug_wait] and whether its wait is over. *)
Record psys := mkPs {
  p_task : nat -> ptask;
  p_queue : list nat;
  p_blocked : list nat;
  p_curr : running;
  p_work : option nat;
  p_usage : nat -> Z;
  p_away : list (nat * nat);
  p_waits : bool;
  p_empty : bool
}.

Section Push.
  (** The hotplug thread; [select_fallback_rq]. *)
  Context (hot : nat) (select_fallback_rq : nat -> nat).

Definition put_queue (s : psys) (q b : list nat) : psys :=
  mkPs (p_task s) q b (p_curr s) (p_work s) (p_usage s) (p_away s) (p_waits s) (p_empty s).
Definition put_curr (s : psys) (r : running) : psys :=
  mkPs (p_task s) (p_queue s) (p_blocked s) r (p_work s) (p_usage s) (p_away s) (p_waits s) (p_empty s).
Definition put_work (s : psys) (w : option nat) (t : nat) (d : Z) : psys :=
  mkPs (p_task s) (p_queue s) (p_blocked s) (p_curr s) w (fun x => if decide (x = t) then p_usage s x + d else p_usage s x)
    (p_away s) (p_waits s) (p_empty s).
Definition put_wait (s : psys) (waits empty : bool) : psys :=
  mkPs (p_task s) (p_queue s) (p_blocked s) (p_curr s) (p_work s) (p_usage s) (p_away s) waits empty.

(** [rq_has_pinned_tasks] *)
Definition has_pinned (s : psys) : bool := existsb (fun t => pinned (p_task s t)) (p_queue s ++ p_blocked s).

Definition may_stay (s : psys) (t : nat) : bool := per_cpu (p_task s t) || pinned (p_task s t).

(** The idle task and the stopper are per-CPU threads. *)
Definition balance_push (s : psys) : psys :=
  let stays := match p_curr s with Runs t => may_stay s t | Idle | Stopper => true end in
  if stays then
    if (length (p_queue s) =? 0)%nat && negb (has_pinned s) && p_waits s
    then put_wait (put_queue s (hot :: p_queue s) (p_blocked s)) false (p_empty s)
    else s
  else match p_curr s with Runs t => put_work s (Some t) t 1 | _ => s end.

Definition __balance_push_cpu_stop (t : nat) (s : psys) : psys :=
  let s := if decide (t ∈ p_queue s)
           then mkPs (p_task s) (List.filter (fun x => negb (x =? t)%nat) (p_queue s)) (p_blocked s) (p_curr s) (p_work s) (p_usage s)
                  (p_away s ++ [(t, select_fallback_rq t)]) (p_waits s) (p_empty s)
           else s in
  put_work s None t (-1).

(** The turn of the hotplug thread in [balance_hotplug_wait]: it leaves the loop or sleeps. *)
Definition balance_hotplug_wait (s : psys) : psys :=
  if (length (p_queue s) =? 1)%nat && negb (has_pinned s) then put_wait s (p_waits s) true
  else put_wait (put_queue s (List.filter (fun x => negb (x =? hot)%nat) (p_queue s)) (p_blocked s)) true (p_empty s).

(** A switch, to a task of the queue, or to the idle task when there is none; [balance_push] follows. The
    stopper runs whenever it has work. The current task sleeps; a task that sleeps on the CPU is woken, on it when it
    may stay, elsewhere when not; the current task
    enables or disables migration; the hotplug thread looks. *)
Inductive plabel := PickTask (t : nat) | PickIdle | RunStopper | Blocks | Wakes (t : nat) | SetsPinned (b : bool) | Looks.

Definition pstep (l : plabel) (s : psys) : option psys :=
  match l, p_work s, p_curr s with
  | PickTask t, None, _ => if decide (t ∈ p_queue s) then Some (balance_push (put_curr s (Runs t))) else None
  | PickIdle, None, _ => match p_queue s with [] => Some (balance_push (put_curr s Idle)) | _ => None end
  | RunStopper, Some t, _ => Some (__balance_push_cpu_stop t (put_curr s Stopper))
  | Blocks, _, Runs t =>
      if decide (t ∈ p_queue s /\ t <> hot)
      then Some (put_queue s (List.filter (fun x => negb (x =? t)%nat) (p_queue s)) (t :: p_blocked s)) else None
  | Wakes t, _, _ =>
      if decide (t ∈ p_blocked s)
      then Some (put_queue s (if may_stay s t then t :: p_queue s else p_queue s) (List.filter (fun x => negb (x =? t)%nat) (p_blocked s)))
      else None
  | SetsPinned b, None, Runs t =>
      if decide (t ∈ p_queue s /\ t <> hot)
      then Some (mkPs (fun x => if decide (x = t) then mkPt (per_cpu (p_task s x)) b else p_task s x)
             (p_queue s) (p_blocked s) (p_curr s) (p_work s) (p_usage s) (p_away s) (p_waits s) (p_empty s)) else None
  | Looks, None, Runs t => if decide (t = hot /\ t ∈ p_queue s /\ p_empty s = false) then Some (balance_hotplug_wait s) else None
  | _, _, _ => None
  end.

Inductive prun : psys -> psys -> Prop :=
  | prun_refl s : prun s s
  | prun_step s l s1 s2 : pstep l s = Some s1 -> prun s1 s2 -> prun s s2.

Fixpoint psteps (ls : list plabel) (s : psys) : option psys :=
  match ls with [] => Some s | l :: ls => s1 ← pstep l s; psteps ls s1 end.

(** * The invariant *)

Definition on_cpu_tasks (s : psys) : list nat := p_queue s ++ p_blocked s.

Record PInv (usage : nat -> Z) (s : psys) : Prop := {
  pi_nodup : NoDup (on_cpu_tasks s);
  pi_away t d : (t, d) ∈ p_away s -> t ∉ on_cpu_tasks s /\ may_stay s t = false /\ d = select_fallback_rq t;
  pi_hot : per_cpu (p_task s hot) = true /\ pinned (p_task s hot) = false /\ hot ∉ p_blocked s;
  pi_wait : hot ∈ p_queue s <-> p_waits s = false;
  pi_work t : p_work s = Some t -> may_stay s t = false;
  pi_usage t : p_usage s t = usage t + (if decide (p_work s = Some t) then 1 else 0);
  pi_idle : p_curr s = Idle -> p_queue s = [] -> p_waits s = true -> has_pinned s = true
}.

Lemma in_drop (q : list nat) t x : x ∈ List.filter (fun x => negb (x =? t)%nat) q <-> x ∈ q /\ x <> t.
Proof. rewrite !list_elem_of_In, filter_In, negb_true_iff, Nat.eqb_neq. reflexivity. Qed.

Lemma nodup_drop (q : list nat) t : NoDup q -> NoDup (List.filter (fun x => negb (x =? t)%nat) q).
Proof.
  induction 1 as [|x q Hx _ IH]; cbn [List.filter]; [constructor|]. destruct (negb (x =? t)%nat); [|exact IH].
  constructor; [|exact IH]. rewrite in_drop. tauto.
Qed.

Lemma nodup_parts s : NoDup (on_cpu_tasks s) <-> NoDup (p_queue s) /\ NoDup (p_blocked s) /\ forall t, t ∈ p_queue s -> t ∉ p_blocked s.
Proof. unfold on_cpu_tasks. rewrite NoDup_app. tauto. Qed.

Lemma nodup_join (q b : list nat) : NoDup q -> NoDup b -> (forall t, t ∈ q -> t ∉ b) -> NoDup (q ++ b).
Proof. rewrite NoDup_app. tauto. Qed.

Lemma on_cpu_iff s t : t ∈ on_cpu_tasks s <-> t ∈ p_queue s \/ t ∈ p_blocked s.
Proof. unfold on_cpu_tasks. apply elem_of_app. Qed.

Lemma has_pinned_iff s : has_pinned s = true <-> exists t, t ∈ on_cpu_tasks s /\ pinned (p_task s t) = true.
Proof.
  unfold has_pinned. rewrite existsb_exists. unfold on_cpu_tasks. split; intros (t & H1 & H2); exists t; rewrite list_elem_of_In in *; auto.
Qed.

Lemma balance_push_keeps usage s r : PInv usage s -> p_work s = None -> (forall t, r = Runs t -> t ∈ p_queue s) -> (r = Idle -> p_queue s = []) ->
  PInv usage (balance_push (put_curr s r)).
Proof.
  intros [I1 I2 I3 I4 I5 I7 I8] Hw Hr Hi. unfold balance_push. cbn [p_curr put_curr].
  set (stays := match r with Runs t => may_stay s t | _ => true end).
  change (match r with Runs t => may_stay (put_curr s r) t | Idle | Stopper => true end) with stays.
  change (has_pinned (put_curr s r)) with (has_pinned s). change (p_queue (put_curr s r)) with (p_queue s).
  change (p_waits (put_curr s r)) with (p_waits s). destruct stays eqn:Es.
  - destruct ((length (p_queue s) =? 0)%nat && negb (has_pinned s) && p_waits s) eqn:E.
    + apply andb_prop in E as [[E1 E2]%andb_prop E3]. apply Nat.eqb_eq, nil_length_inv in E1. apply negb_true_iff in E2.
      unfold on_cpu_tasks in I1, I2. rewrite E1 in *. split; cbn; rewrite ?E1; try assumption.
      * apply NoDup_cons. split; [cbn; apply I3|]. exact I1.
      * intros t d Ht. destruct (I2 t d Ht) as (H1 & H2 & H3). split_and!; auto. apply not_elem_of_cons. split; [|exact H1].
        intros ->. destruct I3 as (Hp & _). unfold may_stay in H2. rewrite Hp in H2. discriminate.
      * intuition. left.
      * discriminate.
    + split; cbn; try assumption.
      * intros -> Hq Hwt. rewrite Hq, Hwt in E. cbn in E. rewrite andb_true_r in E. apply negb_false_iff in E. exact E.
  - destruct r as [| |t]; try discriminate. split; cbn; try assumption.
    + intros t' [= <-]. exact Es.
    + intros t'. rewrite I7, Hw. rewrite (decide_False (P := None = Some t')) by discriminate. destruct (decide (t' = t)) as [->|Hn].
      * rewrite decide_True by reflexivity. lia.
      * rewrite decide_False by congruence. lia.
    + discriminate.
Qed.

#[local] Arguments on_cpu_tasks _ : simpl never.

Lemma drop_gone (q : list nat) t : t ∉ q -> List.filter (fun x => negb (x =? t)%nat) q = q.
Proof.
  induction q as [|x q IH]; intros Hn; [reflexivity|]. apply not_elem_of_cons in Hn as [Hx Hn]. cbn [List.filter].
  destruct (Nat.eqb_spec x t); [congruence|]. cbn [negb]. rewrite IH by exact Hn. reflexivity.
Qed.

(** The stopper has done its work. *)
Lemma stopper_keeps usage t s : PInv usage s -> p_work s = Some t -> PInv usage (__balance_push_cpu_stop t (put_curr s Stopper)).
Proof.
  intros [I1 I2 I3 I4 I5 I7 I8] Hw. unfold __balance_push_cpu_stop. cbn [p_queue put_curr].
  pose proof (I5 t Hw) as Hs. assert (t <> hot) as Hth by (intros ->; destruct I3 as (Hp & _); unfold may_stay in Hs; rewrite Hp in Hs; discriminate).
  assert (forall x, usage x + (if decide (p_work s = Some x) then 1 else 0) + (if decide (x = t) then -1 else 0) = usage x) as Hu.
  { intros x. rewrite Hw. destruct (decide (x = t)) as [->|Hn]; [rewrite decide_True by reflexivity | rewrite decide_False by congruence]; lia. }
  destruct (decide (t ∈ p_queue s)) as [Hq|Hq]; split; cbn; try assumption; try discriminate;
    try (intros x; specialize (Hu x); rewrite I7, (decide_False (P := None = Some x)) by discriminate; destruct (decide (x = t)); lia).
  - apply nodup_parts in I1 as (N1 & N2 & N3). apply nodup_join; [apply nodup_drop, N1 | exact N2 |].
    intros x Hx. apply in_drop in Hx. apply N3, Hx.
  - intros x d Hx. rewrite on_cpu_iff. cbn. rewrite in_drop. apply elem_of_app in Hx as [Hx|Hx].
    + destruct (I2 x d Hx) as (H1 & H2 & H3). rewrite on_cpu_iff in H1. split_and!; [tauto | exact H2 | exact H3].
    + apply list_elem_of_singleton in Hx as [= -> ->]. apply nodup_parts in I1 as (_ & _ & N3). split_and!; [|exact Hs | reflexivity].
      intros [[_ Hx]|Hx]; [congruence | exact (N3 _ Hq Hx)].
  - rewrite in_drop. rewrite <- I4. intuition.
Qed.

Lemma pstep_keeps usage l s s1 : PInv usage s -> pstep l s = Some s1 -> PInv usage s1.
Proof.
  intros I E. assert (I' := I). destruct I' as [I1 I2 I3 I4 I5 I7 I8]. apply nodup_parts in I1 as I1'. destruct I1' as (N1 & N2 & N3).
  unfold pstep in E. destruct l as [t| | | |t|b|].
  - destruct (p_work s) eqn:Hw; [discriminate|]. destruct (decide (t ∈ p_queue s)) as [Ht|]; [|discriminate]. injection E as <-.
    apply balance_push_keeps; [exact I | exact Hw | intros x [= <-]; exact Ht | discriminate].
  - destruct (p_work s) eqn:Hw; [discriminate|]. destruct (p_queue s) eqn:Hq; [|discriminate]. injection E as <-.
    apply balance_push_keeps; [exact I | exact Hw | discriminate | intros _; exact Hq].
  - destruct (p_work s) as [t|] eqn:Hw; [|discriminate]. injection E as <-. apply stopper_keeps; assumption.
  - destruct (p_curr s) as [| |t] eqn:Hc; try (destruct (p_work s); discriminate).
    assert ((if decide (t ∈ p_queue s /\ t <> hot) then Some (put_queue s (List.filter (fun x => negb (x =? t)%nat) (p_queue s)) (t :: p_blocked s)) else None) = Some s1) as E'
      by (destruct (p_work s); exact E). clear E. destruct (decide _) as [[Hq Hh]|]; [|discriminate]. injection E' as <-.
    assert (forall x, x ∈ on_cpu_tasks (put_queue s (List.filter (fun x => negb (x =? t)%nat) (p_queue s)) (t :: p_blocked s)) <-> x ∈ on_cpu_tasks s) as Hon.
    { intros x. rewrite !on_cpu_iff. cbn. rewrite in_drop, elem_of_cons. destruct (decide (x = t)) as [->|]; intuition. }
    split; cbn; try assumption.
    + apply nodup_join; [apply nodup_drop, N1 | apply NoDup_cons; split; [apply N3, Hq | exact N2] |].
      intros x Hx. apply in_drop in Hx as [Hx Hn]. apply not_elem_of_cons. split; [exact Hn | apply N3, Hx].
    + intros x d Hx. rewrite Hon. apply I2, Hx.
    + split_and!; try apply I3. apply not_elem_of_cons. split; [congruence | apply I3].
    + rewrite in_drop, <- I4. intuition.
    + congruence.
  - set (q := if may_stay s t then t :: p_queue s else p_queue s) in E.
    set (b := List.filter (fun x => negb (x =? t)%nat) (p_blocked s)) in E.
    destruct (decide (t ∈ p_blocked s)) as [Hb|]; [|destruct (p_work s), (p_curr s); discriminate].
    assert (E' : Some (put_queue s q b) = Some s1) by (destruct (p_work s), (p_curr s); exact E). injection E' as <-. clear E.
    assert (t <> hot) as Hth by (intros ->; apply I3, Hb).
    assert (forall x, x ∈ q <-> x ∈ p_queue s \/ x = t /\ may_stay s t = true) as Hqi.
    { intros x. unfold q. destruct (may_stay s t); [rewrite elem_of_cons|]; intuition discriminate. }
    assert (forall x, x ∈ b <-> x ∈ p_blocked s /\ x <> t) as Hbi by (intros x; apply in_drop).
    assert (forall x, x ∈ on_cpu_tasks (put_queue s q b) -> x ∈ on_cpu_tasks s) as Hon.
    { intros x. rewrite !on_cpu_iff. cbn. rewrite Hqi, Hbi. intros [[?|[-> _]]|[? _]]; auto. }
    split; cbn; try assumption.
    + apply nodup_join; [|apply nodup_drop, N2 | intros x Hx Hx'; apply Hqi in Hx as [Hx|[-> _]]; apply Hbi in Hx' as [Hx' Hn]; [exact (N3 x Hx Hx') | congruence]].
      unfold q. destruct (may_stay s t); [|exact N1]. apply NoDup_cons. split; [intros Hx; exact (N3 t Hx Hb) | exact N1].
    + intros x d Hx. destruct (I2 x d Hx) as (H1 & H2 & H3). split_and!; auto.
    + split_and!; try apply I3. rewrite Hbi. intros [Hx _]. apply I3, Hx.
    + rewrite Hqi, <- I4. intuition congruence.
    + intros Hc Hq Hw. assert (p_queue s = [] /\ may_stay s t = false) as [Hq0 Hm] by (unfold q in Hq; destruct (may_stay s t); [discriminate | auto]).
      pose proof (I8 Hc Hq0 Hw) as (x & Hx & Hp)%has_pinned_iff. apply (has_pinned_iff (put_queue s q b)). exists x. split; [|exact Hp].
      apply on_cpu_iff in Hx. rewrite on_cpu_iff. cbn. rewrite Hqi, Hbi. assert (x <> t); [|tauto]. intros ->. unfold may_stay in Hm. rewrite Hp, orb_true_r in Hm. discriminate.
  - destruct (p_work s) eqn:Hw; [discriminate|]. destruct (p_curr s) as [| |t] eqn:Hc; try discriminate.
    destruct (decide _) as [[Hq Hh]|]; [|discriminate]. injection E as <-. split; cbn; try assumption; try discriminate.
    + intros x d Hx. destruct (I2 x d Hx) as (H1 & H2 & H3). split_and!; auto. unfold may_stay. cbn.
      rewrite decide_False; [exact H2|]. intros ->. apply H1, on_cpu_iff. auto.
    + rewrite !decide_False by congruence. exact I3.
  - destruct (p_work s) eqn:Hw; [discriminate|]. destruct (p_curr s) as [| |t] eqn:Hc; try discriminate.
    destruct (decide _) as [(-> & Hq & He)|]; [|discriminate]. injection E as <-. unfold balance_hotplug_wait.
    destruct (_ && _).
    + split; cbn; try assumption; try discriminate; try congruence. intros x; rewrite I7, Hw; reflexivity.
    + split; cbn; try assumption; try discriminate; try congruence.
      * apply nodup_join; [apply nodup_drop, N1 | exact N2 |]. intros x Hx. apply in_drop in Hx. apply N3, Hx.
      * intros x d Hx. destruct (I2 x d Hx) as (H1 & H2 & H3). split_and!; auto. rewrite on_cpu_iff in *. cbn. rewrite in_drop. tauto.
      * rewrite in_drop. intuition congruence.
      * intros x. rewrite I7, Hw. reflexivity.
Qed.

Lemma prun_keeps usage s s1 : PInv usage s -> prun s s1 -> PInv usage s1.
Proof. intros I Hr. induction Hr as [|s l s1 s2 E _ IH]; [exact I|]. exact (IH (pstep_keeps usage l s s1 I E)). Qed.

Lemma psteps_run ls : forall s s1, psteps ls s = Some s1 -> prun s s1.
Proof.
  induction ls as [|l ls IH]; cbn; intros s s1 E; [injection E as <-; apply prun_refl|].
  destruct (pstep l s) as [s'|] eqn:E'; [|discriminate]. exact (prun_step s l s' s1 E' (IH _ _ E)).
Qed.

Lemma prun_trans s1 s2 s3 : prun s1 s2 -> prun s2 s3 -> prun s1 s3.
Proof. induction 1 as [|s l s1 s2 E _ IH]; [auto|]. intros H. eapply prun_step; [exact E | exact (IH H)]. Qed.

(** * The CPU can be emptied *)

(** How much there is to do: the tasks that are queued, apart from the hotplug thread, and twice the pinned
    ones that sleep. *)
Definition left_over (s : psys) : nat :=
  length (List.filter (fun x => negb (x =? hot)%nat) (p_queue s)) + 2 * length (List.filter (fun x => pinned (p_task s x)) (p_blocked s)).

(** A state is followed by one with less to do, and nothing pending. *)
Definition gets_on (s : psys) (n : nat) : Prop := exists s', prun s s' /\ p_work s' = None /\ (left_over s' < n)%nat.

Lemma filter_drop_length (f : nat -> bool) (q : list nat) t : t ∈ q -> f t = true ->
  (length (List.filter f (List.filter (fun x => negb (x =? t)%nat) q)) < length (List.filter f q))%nat.
Proof.
  intros Hin Hf. induction q as [|x q IH]; [destruct (not_elem_of_nil t Hin)|]. cbn [List.filter].
  assert (length (List.filter f (List.filter (fun x => negb (x =? t)%nat) q)) <= length (List.filter f q))%nat as Hle.
  { clear. induction q as [|x q IH]; [reflexivity|]. cbn [List.filter]. destruct (negb (x =? t)%nat); cbn [List.filter]; destruct (f x); cbn [length]; lia. }
  destruct (Nat.eqb_spec x t) as [->|Hn]; cbn [negb].
  - rewrite Hf. cbn [length]. lia.
  - apply elem_of_cons in Hin as [->|Hin]; [congruence|]. specialize (IH Hin). cbn [List.filter]. destruct (f x); cbn [length]; lia.
Qed.

Lemma filter_other_length (f g : nat -> bool) (q : list nat) : (forall x, g x = true -> f x = true) ->
  (length (List.filter g q) <= length (List.filter f q))%nat.
Proof.
  intros Hgf. induction q as [|x q IH]; [reflexivity|]. cbn [List.filter]. specialize (Hgf x).
  destruct (g x); [rewrite Hgf by reflexivity; cbn [length]; lia|]. destruct (f x); cbn [length]; lia.
Qed.

(** The stopper pushes. *)
Lemma stop_gets_on s t : p_work s = Some t -> t <> hot -> t ∈ p_queue s ->
  gets_on s (left_over s).
Proof.
  intros Hw Ht Hq. eexists. split; [eapply (prun_step _ RunStopper); [cbn; rewrite Hw; reflexivity | apply prun_refl]|].
  unfold __balance_push_cpu_stop. cbn [p_queue put_curr]. rewrite decide_True by exact Hq. split; [reflexivity|].
  unfold left_over. cbn. pose proof (filter_drop_length (fun x => negb (x =? hot)%nat) (p_queue s) t Hq) as Hlen.
  cbv beta in Hlen. rewrite (proj2 (Nat.eqb_neq _ _) Ht) in Hlen. specialize (Hlen eq_refl). lia.
Qed.

Lemma gets_on_step s l s1 n : pstep l s = Some s1 -> gets_on s1 n -> gets_on s n.
Proof. intros E (s' & Hr & H). exists s'. split; [exact (prun_step s l s1 s' E Hr) | exact H]. Qed.

(** A task that may not stay is picked, and pushed. *)
Lemma push_gets_on usage s t : PInv usage s -> p_work s = None -> t <> hot -> t ∈ p_queue s -> may_stay s t = false -> gets_on s (left_over s).
Proof.
  intros I Hw Ht Hq Hs. eapply (gets_on_step s (PickTask t)); [cbn; rewrite Hw, decide_True by exact Hq; reflexivity|].
  unfold balance_push. cbn [p_curr put_curr]. change (may_stay (put_curr s (Runs t)) t) with (may_stay s t). rewrite Hs.
  apply (stop_gets_on (put_work (put_curr s (Runs t)) (Some t) t 1) t); [reflexivity | exact Ht | exact Hq].
Qed.

(** A picked task that may stay changes nothing. *)
Lemma pick_stays s t : t ∈ p_queue s -> may_stay s t = true -> balance_push (put_curr s (Runs t)) = put_curr s (Runs t).
Proof.
  intros Hq Hs. unfold balance_push. cbn [p_curr put_curr]. change (may_stay (put_curr s (Runs t)) t) with (may_stay s t). rewrite Hs.
  cbn [p_queue put_curr]. destruct (p_queue s); [destruct (not_elem_of_nil t Hq) | reflexivity].
Qed.

(** A thread of the CPU that is not pinned is picked, and sleeps. *)
Lemma sleep_gets_on s t : p_work s = None -> p_curr s = Runs t -> t <> hot -> t ∈ p_queue s -> pinned (p_task s t) = false -> gets_on s (left_over s).
Proof.
  intros Hw Hc Ht Hq Hp. eexists. split.
  - eapply (prun_step s Blocks); [cbn; rewrite Hc, decide_True by auto; reflexivity | apply prun_refl].
  - split; [exact Hw|]. unfold left_over. cbn. rewrite Hp.
    pose proof (filter_drop_length (fun x => negb (x =? hot)%nat) (p_queue s) t Hq) as Hlen. cbv beta in Hlen.
    rewrite (proj2 (Nat.eqb_neq _ _) Ht) in Hlen. specialize (Hlen eq_refl). lia.
Qed.

(** The current task leaves its section without migration. *)
Lemma unpin_step s t : p_work s = None -> p_curr s = Runs t -> t ∈ p_queue s /\ t <> hot -> exists s',
  pstep (SetsPinned false) s = Some s' /\
  s' = mkPs (fun x => if decide (x = t) then mkPt (per_cpu (p_task s x)) false else p_task s x)
         (p_queue s) (p_blocked s) (p_curr s) (p_work s) (p_usage s) (p_away s) (p_waits s) (p_empty s).
Proof. intros Hw Hc Ht. eexists. split; [|reflexivity]. unfold pstep. rewrite Hw, Hc, decide_True by exact Ht. reflexivity. Qed.

(** A task that is queued, whatever it is. *)
Lemma queued_gets_on usage s t : PInv usage s -> p_work s = None -> t <> hot -> t ∈ p_queue s -> gets_on s (left_over s).
Proof.
  intros I Hw Ht Hq. destruct (may_stay s t) eqn:Hs; [|exact (push_gets_on usage s t I Hw Ht Hq Hs)].
  eapply (gets_on_step s (PickTask t)); [cbn; rewrite Hw, decide_True by exact Hq; reflexivity|]. rewrite (pick_stays s t Hq Hs).
  set (s1 := put_curr s (Runs t)). assert (PInv usage s1) as I1.
  { pose proof (balance_push_keeps usage s (Runs t) I Hw) as Hk. rewrite (pick_stays s t Hq Hs) in Hk. apply Hk; [intros x [= <-]; exact Hq | discriminate]. }
  change (left_over s) with (left_over s1). destruct (pinned (p_task s t)) eqn:Hp; [|apply (sleep_gets_on s1 t); auto].
  destruct (unpin_step s1 t) as (s2 & E & Es2); [exact Hw | reflexivity | split; assumption|].
  pose proof (pstep_keeps usage _ _ _ I1 E) as I2. eapply gets_on_step; [exact E|].
  assert (Hw2 : p_work s2 = None) by (rewrite Es2; exact Hw). assert (Hc2 : p_curr s2 = Runs t) by (rewrite Es2; reflexivity).
  assert (Hq2 : t ∈ p_queue s2) by (rewrite Es2; exact Hq).
  assert (Ht2 : p_task s2 t = mkPt (per_cpu (p_task s t)) false) by (rewrite Es2; cbn; apply decide_True; reflexivity).
  assert (left_over s2 <= left_over s1)%nat as Hle.
  { rewrite Es2. unfold left_over. cbn.
    pose proof (filter_other_length (fun x => pinned (p_task s x)) (fun x => pinned (if decide (x = t) then mkPt (per_cpu (p_task s x)) false else p_task s x))
      (p_blocked s)) as Hf. cbv beta in Hf. specialize (Hf ltac:(intros x; destruct (decide (x = t)); [discriminate | auto])). lia. }
  assert (gets_on s2 (left_over s2)) as (s' & Hr & Hw' & Hlt).
  { destruct (per_cpu (p_task s t)) eqn:Hpc.
    - apply (sleep_gets_on s2 t); auto. rewrite Ht2. reflexivity.
    - apply (push_gets_on usage s2 t); auto. unfold may_stay. rewrite Ht2. reflexivity. }
  exists s'. split; [exact Hr|]. split; [exact Hw' | lia].
Qed.

(** A pinned task that sleeps is woken. *)
Lemma woken_gets_on usage s t : PInv usage s -> p_work s = None -> t ∈ p_blocked s -> pinned (p_task s t) = true -> gets_on s (left_over s).
Proof.
  intros I Hw Hb Hp. assert (t <> hot) as Ht by (intros ->; apply (pi_hot _ _ I), Hb).
  eexists. split.
  - eapply (prun_step s (Wakes t)); [|apply prun_refl]. unfold pstep. rewrite decide_True by exact Hb. reflexivity.
  - split; [exact Hw|]. unfold left_over. cbn.
    replace (may_stay s t) with true by (unfold may_stay; rewrite Hp, orb_true_r; reflexivity). cbn [List.filter].
    rewrite (proj2 (Nat.eqb_neq _ _) Ht). cbn [negb length]. pose proof (filter_drop_length (fun x => pinned (p_task s x)) (p_blocked s) t Hb Hp) as Hlen. lia.
Qed.

(** Nothing is left but the hotplug thread, which finds the CPU empty. *)
Lemma hotplug_ends usage s : PInv usage s -> p_work s = None -> p_empty s = false -> (forall t, t ∈ p_queue s -> t = hot) ->
  (forall t, t ∈ p_blocked s -> pinned (p_task s t) = false) -> exists s', prun s s' /\ p_empty s' = true.
Proof.
  intros I Hw He Hq Hb. pose proof (pi_hot _ _ I) as (Hpc & Hpp & _).
  assert (has_pinned s = false) as Hnp.
  { apply not_true_iff_false. rewrite has_pinned_iff. intros (t & Ht & Hp). apply on_cpu_iff in Ht as [Ht|Ht]; [rewrite (Hq t Ht) in Hp | rewrite (Hb t Ht) in Hp]; congruence. }
  assert (forall s, PInv usage s -> p_work s = None -> p_empty s = false -> p_queue s = [hot] -> has_pinned s = false -> exists s', prun s s' /\ p_empty s' = true) as Hend.
  { clear. intros s I Hw He Hq Hnp. assert (hot ∈ p_queue s) as Hh by (rewrite Hq; left).
    assert (may_stay s hot = true) as Hs by (unfold may_stay; rewrite (proj1 (pi_hot _ _ I)); reflexivity).
    eexists. split.
    - eapply (prun_step s (PickTask hot)); [cbn; rewrite Hw, decide_True by exact Hh; reflexivity|]. rewrite (pick_stays s hot Hh Hs).
      eapply (prun_step _ Looks); [cbn; rewrite Hw, decide_True by auto; reflexivity | apply prun_refl].
    - unfold balance_hotplug_wait. cbn [p_queue put_curr]. rewrite Hq. change (has_pinned (put_curr s (Runs hot))) with (has_pinned s). rewrite Hnp. reflexivity. }
  destruct (p_queue s) as [|x q] eqn:Eq.
  - (* idle: [balance_push] wakes it *)
    assert (p_waits s = true) as Hwt.
    { destruct (p_waits s) eqn:E; [reflexivity|]. pose proof (proj2 (pi_wait _ _ I) E) as Hx. rewrite Eq in Hx. destruct (not_elem_of_nil _ Hx). }
    assert (pstep PickIdle s = Some (put_wait (put_queue (put_curr s Idle) [hot] (p_blocked s)) false (p_empty s))) as E.
    { unfold pstep. rewrite Hw, Eq. f_equal. unfold balance_push. cbn [p_curr put_curr p_queue p_waits p_blocked p_empty].
      change (has_pinned (put_curr s Idle)) with (has_pinned s). change (p_queue (put_curr s Idle)) with (p_queue s).
      rewrite Eq, Hnp, Hwt. reflexivity. }
    pose proof (pstep_keeps usage _ _ _ I E) as I1. destruct (Hend _ I1) as (s' & Hr & Hs'); [exact Hw | exact He | reflexivity | |].
    + unfold has_pinned in *. cbn. rewrite Eq in Hnp. cbn in Hnp. rewrite Hpp. exact Hnp.
    + exists s'. split; [exact (prun_step s _ _ s' E Hr) | exact Hs'].
  - assert (x = hot) as -> by (apply Hq; left). assert (q = []) as ->.
    { destruct q as [|y q]; [reflexivity|]. exfalso. assert (y = hot) as -> by (apply Hq; right; left).
      pose proof (pi_nodup _ _ I) as Hn. unfold on_cpu_tasks in Hn. rewrite Eq in Hn. apply NoDup_cons in Hn as [Hn _]. apply Hn. left. }
    exact (Hend s I Hw He Eq Hnp).
Qed.

(** One round of the work. *)
Lemma round usage s : PInv usage s -> p_work s = None -> p_empty s = false -> gets_on s (left_over s) \/ exists s', prun s s' /\ p_empty s' = true.
Proof.
  intros I Hw He. destruct (List.filter (fun x => negb (x =? hot)%nat) (p_queue s)) as [|t q] eqn:Eq.
  - destruct (List.filter (fun x => pinned (p_task s x)) (p_blocked s)) as [|t b] eqn:Eb.
    + right. apply (hotplug_ends usage s I Hw He).
      * intros t Ht. destruct (decide (t = hot)) as [|Hn]; [assumption|]. exfalso. apply (not_elem_of_nil t). rewrite <- Eq. apply in_drop. auto.
      * intros t Ht. destruct (pinned (p_task s t)) eqn:Hp; [|reflexivity]. exfalso. apply (not_elem_of_nil t). rewrite <- Eb.
        apply list_elem_of_In, filter_In. rewrite <- list_elem_of_In. auto.
    + left. assert (t ∈ List.filter (fun x => pinned (p_task s x)) (p_blocked s)) as Ht by (rewrite Eb; left).
      apply list_elem_of_In, filter_In in Ht as [Ht Hp]. apply list_elem_of_In in Ht. exact (woken_gets_on usage s t I Hw Ht Hp).
  - left. assert (t ∈ List.filter (fun x => negb (x =? hot)%nat) (p_queue s)) as Ht by (rewrite Eq; left).
    apply in_drop in Ht as [Ht Hn]. exact (queued_gets_on usage s t I Hw Hn Ht).
Qed.

Lemma settled_ends usage n : forall s, (left_over s < n)%nat -> PInv usage s -> p_work s = None -> exists s', prun s s' /\ p_empty s' = true.
Proof.
  induction n as [|n IH]; [lia|]. intros s Hn I Hw. destruct (p_empty s) eqn:He; [exists s; split; [apply prun_refl | exact He]|].
  destruct (round usage s I Hw He) as [(s1 & Hr & Hw1 & Hlt)|H]; [|exact H].
  destruct (IH s1 ltac:(lia) (prun_keeps usage s s1 I Hr) Hw1) as (s' & Hr' & He'). exists s'. split; [exact (prun_trans s s1 s' Hr Hr') | exact He'].
Qed.

Lemma push_ends usage s : PInv usage s -> exists s', prun s s' /\ p_empty s' = true.
Proof.
  intros I. destruct (p_work s) as [t|] eqn:Hw; [|exact (settled_ends usage (S (left_over s)) s ltac:(lia) I Hw)].
  assert (pstep RunStopper s = Some (__balance_push_cpu_stop t (put_curr s Stopper))) as E by (cbn; rewrite Hw; reflexivity).
  destruct (settled_ends usage _ _ (Nat.lt_succ_diag_r _) (pstep_keeps usage _ _ _ I E)) as (s' & Hr & He); [reflexivity|].
  exists s'. split; [exact (prun_step s _ _ s' E Hr) | exact He].
Qed.

(** What goes away was not a thread of the CPU, and never comes back. *)
Lemma away_grows l s s1 : pstep l s = Some s1 -> p_away s `prefix_of` p_away s1.
Proof.
  assert (forall s r, p_away (balance_push (put_curr s r)) = p_away s) as Hb.
  { intros s0 r. unfold balance_push. cbn [p_curr put_curr]. destruct r as [| |t]; [| |destruct (may_stay _ t)]; try reflexivity;
      destruct (_ && _ && _); reflexivity. }
  unfold pstep. intros E.
  destruct l; destruct (p_work s), (p_curr s); try discriminate; repeat case_decide; try discriminate;
    try (destruct (p_queue s); [|discriminate]); injection E as <-; rewrite ?Hb; try reflexivity.
  all: try (unfold __balance_push_cpu_stop; case_decide; cbn; [apply prefix_app_r; reflexivity | reflexivity]).
  all: unfold balance_hotplug_wait; destruct (_ && _); reflexivity.
Qed.

(** The hotplug thread runs on the CPU, nothing has been pushed yet. *)
Record leaving (s : psys) : Prop := {
  le_nodup : NoDup (on_cpu_tasks s);
  le_hot : per_cpu (p_task s hot) = true /\ pinned (p_task s hot) = false /\ hot ∈ p_queue s;
  le_curr : p_curr s = Runs hot;
  le_rest : p_work s = None /\ p_away s = [] /\ p_waits s = false /\ p_empty s = false
}.

Lemma leaving_PInv s : leaving s -> PInv (p_usage s) s.
Proof.
  intros [L1 (L2 & L3 & L4) L5 (L6 & L7 & L8 & L9)]. apply nodup_parts in L1 as L1'. destruct L1' as (_ & _ & N3). split.
  - exact L1.
  - rewrite L7. intros t d H. destruct (not_elem_of_nil _ H).
  - auto.
  - rewrite L8. tauto.
  - rewrite L6. discriminate.
  - intros t. rewrite L6, decide_False by discriminate. lia.
  - rewrite L5. discriminate.
Qed.

(** The hotplug thread leaves its loop. *)
Lemma looks_empty usage s s1 : PInv usage s -> pstep Looks s = Some s1 -> p_empty s1 = true -> p_queue s = [hot] /\ has_pinned s = false.
Proof.
  intros I E He. cbn in E. destruct (p_work s); [discriminate|]. destruct (p_curr s); try discriminate.
  destruct (decide _) as [(-> & Hq & Hn)|]; [|discriminate]. injection E as <-. unfold balance_hotplug_wait in He.
  destruct ((length (p_queue s) =? 1)%nat && negb (has_pinned s)) eqn:Eb; [|cbn in He; congruence].
  apply andb_prop in Eb as [E1 E2]. apply Nat.eqb_eq in E1. apply negb_true_iff in E2. split; [|exact E2].
  destruct (p_queue s) as [|x [|]]; try discriminate. apply list_elem_of_singleton in Hq as ->. reflexivity.
Qed.

(** C33: while a CPU goes down, whatever order its tasks run, sleep, wake up and enter and leave sections without
    migration in: a task that is pushed off was no thread of the CPU and was not in such a section, it
    goes where [select_fallback_rq] says and is not on the CPU again; no
    reference is kept that no work holds; the hotplug thread does not sleep next to
    an idle CPU unless a task that must leave its section sleeps there, so no wake-up of it is lost; when it stops
    waiting it is alone on the queue and no such task is left; and from every state
    there is a run in which it stops waiting. *)
Theorem push_off_ends s0 s : leaving s0 -> prun s0 s ->
  (forall t d, (t, d) ∈ p_away s -> t ∉ on_cpu_tasks s /\ per_cpu (p_task s t) = false /\ pinned (p_task s t) = false /\ d = select_fallback_rq t) /\
  (forall t, p_usage s t = p_usage s0 t + (if decide (p_work s = Some t) then 1 else 0)) /\
  (p_curr s = Idle -> p_queue s = [] -> p_waits s = true -> exists t, t ∈ p_blocked s /\ pinned (p_task s t) = true) /\
  (forall s1, pstep Looks s = Some s1 -> p_empty s1 = true -> p_queue s = [hot] /\ forall t, t ∈ p_blocked s -> pinned (p_task s t) = false) /\
  exists s1, prun s s1 /\ p_empty s1 = true.
Proof.
  intros HL Hr. pose proof (prun_keeps _ _ _ (leaving_PInv s0 HL) Hr) as I. split_and!.
  - intros t d Ht. destruct (pi_away _ _ I t d Ht) as (H1 & H2 & H3). apply orb_false_iff in H2 as [H2 H2']. auto.
  - apply I.
  - intros Hc Hq Hw. pose proof (pi_idle _ _ I Hc Hq Hw) as (t & Ht & Hp)%has_pinned_iff. exists t. split; [|exact Hp].
    apply on_cpu_iff in Ht as [Ht|Ht]; [|exact Ht]. rewrite Hq in Ht. destruct (not_elem_of_nil _ Ht).
  - intros s1 E He. destruct (looks_empty _ _ _ I E He) as [H1 H2]. split; [exact H1|]. intros t Ht.
    apply not_true_iff_false. intros Hp. apply not_true_iff_false in H2. apply H2, has_pinned_iff. exists t. split; [apply on_cpu_iff; auto | exact Hp].
  - exact (push_ends _ s I).
Qed.
End Push.

(** * An example *)

(** The hotplug thread, an ordinary task and a task in a section without migration. *)
Definition leaving_sys : psys :=
  mkPs (fun t => mkPt (t =? 0)%nat (t =? 2)%nat) [0; 1; 2]%nat [] (Runs 0) None (fun _ => 1) [] false false.

Definition pushed_sys : option psys :=
  psteps 0 (fun _ => 7%nat) [Looks; PickTask 1; RunStopper; PickTask 2; Blocks; PickIdle]%nat leaving_sys.

(** The task in the section sleeps: the CPU is idle and the hotplug thread goes on waiting, and
    there still is a way to the end. *)
Lemma push_off_ends_witness : exists s, pushed_sys = Some s /\
  p_away s = [(1, 7)]%nat /\ p_curr s = Idle /\ p_queue s = [] /\ p_waits s = true /\
  (exists t, t ∈ p_blocked s /\ pinned (p_task s t) = true) /\ exists s1, prun 0 (fun _ => 7%nat) s s1 /\ p_empty s1 = true.
Proof.
  destruct pushed_sys as [s|] eqn:E; [|vm_compute in E; discriminate]. exists s. split; [reflexivity|].
  pose proof (psteps_run 0 (fun _ => 7%nat) _ leaving_sys s E) as Hr.
  destruct (push_off_ends 0 (fun _ => 7%nat) leaving_sys s) as (_ & _ & H3 & _ & H5); [| exact Hr |].
  - split; [apply (bool_decide_unpack _); vm_compute; reflexivity | split_and!; [reflexivity | reflexivity | left] | reflexivity | split_and!; reflexivity].
  - clear Hr. vm_compute in E. injection E as <-. split_and!; try reflexivity; [apply H3; reflexivity | exact H5].
Defined.
