(* ===== verification/CoreSwitch.v ===== *)
(** Core scheduling: the count of its users and the switch that turns it on with the first
    and off after the last ([sched_core_get], [sched_core_put] and what they call), as
    steps of threads and of the work item that interleave. *)

From S2P Require Import Prelude KHeaders Priority CoreSched Affinity.
Local Open Scope Z_scope.

(** * Turning every run queue *)

Section Flip.
  Context `{Cpumasks} (cpu_online_mask cpu_possible_mask : cpumask) (cpu_smt_mask : nat -> cpumask).

Definition enable_rq (enabled : bool) (q : rqs) (t : nat) : rqs := set_rq q t (with_enabled (q t) enabled).

(** The cores with a CPU that is online: [m] is [sched_core_mask], from which each core
    that is done is removed while the loop runs over it. *)
Definition flip_core (enabled : bool) (s : rqs * cpumask) (cpu : nat) : rqs * cpumask :=
  let '(q, m) := s in
  if bool_decide (cpu ∈ m) then (foldl (enable_rq enabled) q (for_each_cpu (cpu_smt_mask cpu)), m ∖ cpu_smt_mask cpu) else (q, m).

Definition __sched_core_flip (enabled : bool) (q : rqs) : rqs :=
  let '(q, _) := foldl (flip_core enabled) (q, cpu_online_mask) (for_each_cpu cpu_online_mask) in
  foldl (enable_rq enabled) q (for_each_cpu (cpu_possible_mask ∖ cpu_online_mask)).

(** The number of warnings. *)
Definition sched_core_assert_empty (q : rqs) : nat :=
  length (List.filter (fun cpu => negb (length (r_core_tree (q cpu)) =? 0)%nat) (for_each_cpu cpu_possible_mask)).

(** * Threads and the work item *)

(** Where a thread is: without a reference, about to lock, with the lock, after the
    switch was seen or turned on, after the count was raised, with a reference. *)
Inductive user := Out | GetSlow | GetLocked | GetOn | GetUnlock | Using.

(** Where the work item is: idle, started, about to lock, with the lock and the count at
    0, after the switch was turned off. *)
Inductive worker := WIdle | WRun | WSlow | WLast | WOff.

#[export] Instance user_eq : EqDecision user.
Proof. solve_decision. Defined.
#[export] Instance worker_eq : EqDecision worker.
Proof. solve_decision. Defined.

(** [WORK_STRUCT_PENDING_BIT] is [pending]; [lost] counts the puts that found it set. *)
Record switch := mkSwitch {
  sched_core_count : Z;
  sched_core_mutex : bool;
  __sched_core_enabled : bool;
  sw_rq : rqs;
  users : list user;
  work : worker;
  pending : bool;
  lost : nat
}.

Definition with_user (s : switch) (i : nat) (u : user) (count : Z) (mutex : bool) : switch :=
  mkSwitch count mutex (__sched_core_enabled s) (sw_rq s) (<[i := u]> (users s)) (work s) (pending s) (lost s).
Definition with_work (s : switch) (w : worker) (count : Z) (mutex pend : bool) : switch :=
  mkSwitch count mutex (__sched_core_enabled s) (sw_rq s) (users s) w pend (lost s).
Definition with_on (s : switch) (b : bool) (q : rqs) : switch :=
  mkSwitch (sched_core_count s) (sched_core_mutex s) b q (users s) (work s) (pending s) (lost s).

Definition __sched_core_enable (s : switch) : switch := with_on s true (__sched_core_flip true (sw_rq s)).
Definition __sched_core_disable (s : switch) : switch := with_on s false (__sched_core_flip false (sw_rq s)).

(** [atomic_inc_not_zero] of a thread that calls [sched_core_get]. *)
Definition get_fast (s : switch) (i : nat) : switch :=
  let n := sched_core_count s in
  if n =? 0 then with_user s i GetSlow n (sched_core_mutex s) else with_user s i Using (n + 1) (sched_core_mutex s).

(** The rest of [sched_core_get]; a lock is taken when it is free. *)
Definition get_next (s : switch) (i : nat) (u : user) : option switch :=
  let n := sched_core_count s in
  match u with
  | GetSlow => if sched_core_mutex s then None else Some (with_user s i GetLocked n true)
  | GetLocked => Some (with_user (if n =? 0 then __sched_core_enable s else s) i GetOn n (sched_core_mutex s))
  | GetOn => Some (with_user s i GetUnlock (n + 1) (sched_core_mutex s))
  | GetUnlock => Some (with_user s i Using n false)
  | Out | Using => None
  end.

(** [atomic_add_unless], or [schedule_work]. *)
Definition sched_core_put (s : switch) (i : nat) : switch :=
  let n := sched_core_count s in
  if negb (n =? 1) then with_user s i Out (n - 1) (sched_core_mutex s)
  else
    let s' := with_user s i Out n (sched_core_mutex s) in
    mkSwitch n (sched_core_mutex s') (__sched_core_enabled s') (sw_rq s') (users s') (work s') true
      (if pending s then S (lost s) else lost s).

(** The work queue starts the item, which does not run twice at once; then
    [__sched_core_put]. [atomic_dec_and_mutex_lock] lowers a count that is not 1, else
    takes the lock, lowers the count, and keeps the lock when that gave 0. *)
Definition work_next (s : switch) : option switch :=
  let n := sched_core_count s in
  let m := sched_core_mutex s in
  match work s with
  | WIdle => if pending s then Some (with_work s WRun n m false) else None
  | WRun => Some (if n =? 1 then with_work s WSlow n m (pending s) else with_work s WIdle (n - 1) m (pending s))
  | WSlow => if m then None else Some (if n - 1 =? 0 then with_work s WLast (n - 1) true (pending s) else with_work s WIdle (n - 1) false (pending s))
  | WLast => Some (with_work (__sched_core_disable s) WOff n m (pending s))
  | WOff => Some (with_work s WIdle n false (pending s))
  end.

(** A step: a thread begins to get, goes on, or puts; the work item goes on. *)
Inductive sw_label := LGet (i : nat) | LNext (i : nat) | LPut (i : nat) | LWork.

Definition sw_step (s : switch) (l : sw_label) : option switch :=
  match l with
  | LGet i => match users s !! i with Some Out => Some (get_fast s i) | _ => None end
  | LNext i => match users s !! i with Some u => get_next s i u | None => None end
  | LPut i => match users s !! i with Some Using => Some (sched_core_put s i) | _ => None end
  | LWork => work_next s
  end.

Fixpoint sw_run (s : switch) (ls : list sw_label) : option switch :=
  match ls with
  | [] => Some s
  | l :: ls => match sw_step s l with Some s => sw_run s ls | None => None end
  end.

(** Nobody uses it: [n] threads. *)
Definition switched_off (q : rqs) (n : nat) : switch := mkSwitch 0 false false q (replicate n Out) WIdle false 0.
End Flip.

(** * What the switch keeps *)

(** The sum of a measure of the threads. *)
Fixpoint total (f : user -> Z) (l : list user) : Z := match l with [] => 0 | u :: l => f u + total f l end.

Lemma total_insert f l i u v : l !! i = Some u -> total f (<[i := v]> l) = total f l - f u + f v.
Proof.
  revert i. induction l as [|x l IH]; intros [|i]; try discriminate; intros E.
  - injection E as ->. simpl. lia.
  - simpl. change (list_insert i v l) with (<[i := v]> l). rewrite (IH i E). lia.
Qed.

Lemma total_in f l i u : (forall u, 0 <= f u) -> l !! i = Some u -> f u <= total f l.
Proof.
  intros Hf. revert i. induction l as [|x l IH]; intros [|i]; try discriminate; cbn; [intros [= ->]|intros E; specialize (IH i E); specialize (Hf x); lia].
  assert (0 <= total f l) by (clear IH; induction l as [|y l IH]; cbn; [lia | specialize (Hf y); lia]). unfold total in *. lia.
Qed.

Lemma total_nonneg f l : (forall u, 0 <= f u) -> 0 <= total f l.
Proof. intros Hf. induction l as [|x l IH]; cbn; [lia | specialize (Hf x); lia]. Qed.

Lemma total_pos f l : (forall u, 0 <= f u) -> 0 < total f l -> exists i u, l !! i = Some u /\ 0 < f u.
Proof.
  intros Hf. induction l as [|x l IH]; cbn; [lia|]. intros H. destruct (Z.eq_dec (f x) 0) as [E|E].
  - destruct IH as (i & u & Hi & Hu); [lia|]. exists (S i), u. auto.
  - exists O, x. specialize (Hf x). split; [reflexivity | lia].
Qed.

Definition b2z (b : bool) : Z := if b then 1 else 0.

(** Who has a reference, who has the lock, who saw the switch on and has no reference. *)
Definition holds (u : user) : Z := match u with GetUnlock | Using => 1 | _ => 0 end.
Definition locks (u : user) : Z := match u with GetLocked | GetOn | GetUnlock => 1 | _ => 0 end.
Definition saw (u : user) : Z := match u with GetOn => 1 | _ => 0 end.
Definition work_holds (w : worker) : Z := match w with WRun | WSlow => 1 | _ => 0 end.
Definition work_locks (w : worker) : Z := match w with WLast | WOff => 1 | _ => 0 end.

Section Safe.
  Context `{CpumasksOk} (cpu_online_mask cpu_possible_mask : cpumask) (cpu_smt_mask : nat -> cpumask).
  Context (Hsmt : forall c, c ∈ cpu_online_mask -> c ∈ cpu_smt_mask c /\ cpu_smt_mask c ⊆ cpu_possible_mask).

Abbreviation flip := (__sched_core_flip cpu_online_mask cpu_possible_mask cpu_smt_mask).
Abbreviation step := (sw_step cpu_online_mask cpu_possible_mask cpu_smt_mask).
Abbreviation run := (sw_run cpu_online_mask cpu_possible_mask cpu_smt_mask).

Lemma enable_all b l q t : foldl (enable_rq b) q l t = if decide (t ∈ l) then with_enabled (q t) b else q t.
Proof. apply (set_all (fun _ r => with_enabled r b)). reflexivity. Qed.

Lemma each_in m c : c ∈ for_each_cpu m <-> c ∈ m /\ (c < nr_cpu_ids)%nat.
Proof. rewrite list_elem_of_In. apply for_each_cpu_in. Qed.

(** The loop over the cores: what it set, and what is left of the mask. *)
Record Flipped (b : bool) (q0 : rqs) (dn : list nat) (q : rqs) (m : cpumask) : Prop := {
  fl_mask : m ⊆ cpu_online_mask;
  fl_gone t : t ∈ cpu_online_mask -> (t < nr_cpu_ids)%nat -> t ∉ m -> q t = with_enabled (q0 t) b;
  fl_done t : t ∈ dn -> t ∉ m;
  fl_same t : q t = q0 t \/ t ∈ cpu_possible_mask /\ (t < nr_cpu_ids)%nat /\ q t = with_enabled (q0 t) b
}.

Lemma flip_cores b q0 l : forall dn q m, Flipped b q0 dn q m ->
  exists q' m', foldl (flip_core cpu_smt_mask b) (q, m) l = (q', m') /\ Flipped b q0 (dn ++ l) q' m'.
Proof.
  induction l as [|x l IH]; intros dn q m HF; cbn [foldl]; [exists q, m; rewrite app_nil_r; auto|].
  assert (Hstep : exists q1 m1, flip_core cpu_smt_mask b (q, m) x = (q1, m1) /\ Flipped b q0 (dn ++ [x]) q1 m1).
  { destruct HF as [F1 F2 F3 F4]. unfold flip_core. case_bool_decide as Hx.
    - eexists _, _. split; [reflexivity|].
      assert (Hm : forall t, t ∉ m ∖ cpu_smt_mask x -> t ∉ m \/ t ∈ cpu_smt_mask x).
      { intros t Ht. destruct (decide (t ∈ m)); [right | auto]. destruct (decide (t ∈ cpu_smt_mask x)); [assumption|]. exfalso. apply Ht, elem_of_difference. auto. }
      split.
      + intros t Ht. apply elem_of_difference in Ht as [Ht _]. auto.
      + intros t Ht Hlt Hn. rewrite enable_all. destruct (decide (t ∈ for_each_cpu (cpu_smt_mask x))) as [Hi|Hi].
        * destruct (F4 t) as [->|(_ & _ & ->)]; reflexivity.
        * apply F2; auto. destruct (Hm t Hn) as [|Hs]; [assumption|]. exfalso. apply Hi, each_in. auto.
      + intros t Ht Hn. apply elem_of_difference in Hn as [Hn Hns]. apply elem_of_app in Ht as [Ht|Ht]; [exact (F3 t Ht Hn)|].
        apply list_elem_of_singleton in Ht as ->. apply Hns. apply Hsmt. auto.
      + intros t. rewrite enable_all. case_decide as Hi; [|apply F4]. apply each_in in Hi as [Hi Hlt]. right.
        split; [apply (Hsmt x); auto|]. split; [exact Hlt|]. destruct (F4 t) as [->|(_ & _ & ->)]; reflexivity.
    - exists q, m. split; [reflexivity|]. split; auto. intros t Ht Hn. apply elem_of_app in Ht as [Ht|Ht]; [exact (F3 t Ht Hn)|].
      apply list_elem_of_singleton in Ht as ->. contradiction. }
  destruct Hstep as (q1 & m1 & E & HF1). rewrite E. destruct (IH (dn ++ [x]) q1 m1 HF1) as (q' & m' & E' & HF'). exists q', m'.
  rewrite <- app_assoc in HF'. auto.
Qed.

(** Every run queue of a possible CPU is turned, and nothing else changes. *)
Lemma flip_spec b q t : flip b q t = if decide (t ∈ cpu_possible_mask /\ (t < nr_cpu_ids)%nat) then with_enabled (q t) b else q t.
Proof.
  unfold __sched_core_flip. destruct (flip_cores b q (for_each_cpu cpu_online_mask) [] q cpu_online_mask) as (q' & m' & E & [F1 F2 F3 F4]).
  { split; auto; try contradiction. intros x Hx. destruct (not_elem_of_nil x Hx). }
  rewrite E, enable_all. destruct (decide (t ∈ for_each_cpu _)) as [Hi|Hi].
  - apply each_in in Hi as [Hi Hlt]. apply elem_of_difference in Hi as [Hi _]. rewrite decide_True by auto. destruct (F4 t) as [->|(_ & _ & ->)]; reflexivity.
  - destruct (decide (t ∈ cpu_possible_mask /\ (t < nr_cpu_ids)%nat)) as [[Hp Hlt]|Hn].
    + destruct (decide (t ∈ cpu_online_mask)) as [Ho|Ho]; [|exfalso; apply Hi, each_in; split; [apply elem_of_difference; auto | exact Hlt]].
      apply F2; auto. apply F3. cbn [app]. apply each_in. auto.
    + destruct (F4 t) as [->|(? & ? & _)]; [reflexivity | exfalso; tauto].
Qed.

(** The key and every possible run queue. *)
Definition On (b : bool) (s : switch) : Prop :=
  __sched_core_enabled s = b /\ forall t, t ∈ cpu_possible_mask -> (t < nr_cpu_ids)%nat -> r_core_enabled (sw_rq s t) = b.

(** What the switch should be: on while the count is positive, and when a thread has the
    lock and turned it on, or the work item has the lock and did not turn it off yet. *)
Definition should (s : switch) : bool :=
  match work s with WLast => true | WOff => false | _ => (0 <? total saw (users s)) || (0 <? sched_core_count s) end.

Record SwInv (s : switch) : Prop := {
  sw_count : sched_core_count s = total holds (users s) + work_holds (work s) + b2z (pending s);
  sw_mutex : total locks (users s) + work_locks (work s) = b2z (sched_core_mutex s);
  sw_lost : lost s = O;
  sw_last : work_locks (work s) = 1 -> sched_core_count s = 0;
  sw_on : On (should s) s
}.

Lemma holds_nonneg u : 0 <= holds u. Proof. destruct u; cbn; lia. Qed.
Lemma locks_nonneg u : 0 <= locks u. Proof. destruct u; cbn; lia. Qed.
Lemma saw_locks u : 0 <= saw u <= locks u. Proof. destruct u; cbn; lia. Qed.

Lemma total_saw l : 0 <= total saw l <= total locks l.
Proof. induction l as [|u l IH]; cbn [total]; [lia|]. pose proof (saw_locks u). lia. Qed.

Lemma turned_on b s (s' := with_on s b (flip b (sw_rq s))) : On b s'.
Proof. split; [reflexivity|]. intros t Ht Hlt. cbn. rewrite flip_spec, decide_True by auto. reflexivity. Qed.

Lemma on_same b s s' : __sched_core_enabled s' = __sched_core_enabled s -> sw_rq s' = sw_rq s -> On b s -> On b s'.
Proof. unfold On. intros -> ->. auto. Qed.

(** The sums of a thread that changes. *)
Ltac sums i v :=
  match goal with
  | E : users ?s !! i = Some ?u |- _ =>
      pose proof (total_insert holds _ i u v E); pose proof (total_insert locks _ i u v E); pose proof (total_insert saw _ i u v E);
      pose proof (total_in holds _ i u holds_nonneg E); pose proof (total_in locks _ i u locks_nonneg E);
      pose proof (total_nonneg holds (users s) holds_nonneg); pose proof (total_saw (users s)); pose proof (total_saw (<[i := v]> (users s)))
  end.

Lemma on_should s s' : __sched_core_enabled s' = __sched_core_enabled s -> sw_rq s' = sw_rq s -> should s' = should s -> On (should s) s -> On (should s') s'.
Proof. intros H1 H2 ->. apply on_same; assumption. Qed.

(** The arithmetic of a step, with the bools that it determines. *)
Ltac known := unfold should in *; cbn in *;
  repeat match goal with |- context [?a <? ?b] => destruct (Z.ltb_spec a b) end; cbn in *; try congruence; try lia; auto.
Ltac counted s := split; [| | | |apply (on_should s); [reflexivity | reflexivity | | assumption]]; unfold should in *; cbn in *; try lia; auto;
  destruct (work s) eqn:?, (pending s) eqn:?; known.

Lemma get_fast_inv s i : SwInv s -> users s !! i = Some Out -> SwInv (get_fast s i).
Proof.
  intros [I1 I2 I3 I4 I5] E. unfold get_fast. destruct (Z.eqb_spec (sched_core_count s) 0) as [Hn|Hn]; [sums i GetSlow | sums i Using]; counted s.
Qed.

Lemma get_next_inv s i u s' : SwInv s -> users s !! i = Some u -> get_next cpu_online_mask cpu_possible_mask cpu_smt_mask s i u = Some s' -> SwInv s'.
Proof.
  intros [I1 I2 I3 I4 I5] E. destruct u; try discriminate; cbn [get_next].
  - destruct (sched_core_mutex s) eqn:Em; [discriminate|]. intros [= <-]. sums i GetLocked. counted s.
  - intros [= <-]. sums i GetOn. destruct (Z.eqb_spec (sched_core_count s) 0) as [Hn|Hn]; [|counted s].
    split; cbn in *; try lia; auto. replace (should _) with true; [apply (on_same true (__sched_core_enable cpu_online_mask cpu_possible_mask cpu_smt_mask s)); auto; apply turned_on|].
    unfold should; cbn. destruct (work s) eqn:?, (pending s) eqn:?, (sched_core_mutex s); known.
  - intros [= <-]. sums i GetUnlock. destruct (sched_core_mutex s) eqn:Em; counted s.
  - intros [= <-]. sums i Using. destruct (sched_core_mutex s) eqn:Em; counted s.
Qed.

Lemma put_inv s i : SwInv s -> users s !! i = Some Using -> SwInv (sched_core_put s i).
Proof.
  intros [I1 I2 I3 I4 I5] E. unfold sched_core_put. sums i Out. destruct (Z.eqb_spec (sched_core_count s) 1) as [Hn|Hn]; cbn [negb]; [|counted s].
  counted s.
Qed.

Lemma work_inv s s' : SwInv s -> work_next cpu_online_mask cpu_possible_mask cpu_smt_mask s = Some s' -> SwInv s'.
Proof.
  intros [I1 I2 I3 I4 I5]. pose proof (total_nonneg holds (users s) holds_nonneg). pose proof (total_saw (users s)).
  unfold work_next. destruct (work s) eqn:Ew; cbn in *.
  - destruct (pending s) eqn:Ep; [|discriminate]. intros [= <-]. counted s.
  - destruct (Z.eqb_spec (sched_core_count s) 1) as [Hn|Hn]; intros [= <-]; counted s.
  - destruct (sched_core_mutex s) eqn:Em; [discriminate|]. destruct (Z.eqb_spec (sched_core_count s - 1) 0) as [Hn|Hn]; intros [= <-]; counted s.
  - intros [= <-]. split; cbn in *; try lia; auto. apply (on_same false (__sched_core_disable cpu_online_mask cpu_possible_mask cpu_smt_mask s)); auto. apply turned_on.
  - intros [= <-]. destruct (sched_core_mutex s) eqn:Em; counted s.
Qed.

Lemma step_inv s l s' : SwInv s -> step s l = Some s' -> SwInv s'.
Proof.
  intros HI. destruct l as [i|i|i|]; cbn [sw_step]; [| | |apply work_inv; exact HI].
  - destruct (users s !! i) as [[]|] eqn:E; try discriminate. intros [= <-]. apply get_fast_inv; assumption.
  - destruct (users s !! i) as [u|] eqn:E; [|discriminate]. intros En. exact (get_next_inv s i u s' HI E En).
  - destruct (users s !! i) as [[]|] eqn:E; try discriminate. intros [= <-]. apply put_inv; assumption.
Qed.

Lemma sw_run_inv ls : forall s s', SwInv s -> run s ls = Some s' -> SwInv s'.
Proof.
  induction ls as [|l ls IH]; intros s s' HI; cbn [sw_run]; [intros [= <-]; exact HI|].
  destruct (step s l) as [s1|] eqn:E; [|discriminate]. apply IH. exact (step_inv s l s1 HI E).
Qed.

Lemma off_inv q n : (forall t, t ∈ cpu_possible_mask -> (t < nr_cpu_ids)%nat -> r_core_enabled (q t) = false) -> SwInv (switched_off q n).
Proof.
  intros Hq. assert (Hz : forall f, f Out = 0 -> total f (replicate n Out) = 0) by (intros f Hf; induction n as [|k IH]; cbn; [reflexivity | rewrite IH; lia]).
  assert (Hs : should (switched_off q n) = false) by (unfold should; cbn; rewrite Hz by reflexivity; reflexivity).
  split; try (cbn; rewrite ?Hz by reflexivity; auto; fail). rewrite Hs. split; [reflexivity | exact Hq].
Qed.

(** * It settles *)

(** No thread is on its way and the work item has nothing to do. *)
Definition quiet (s : switch) : Prop :=
  work s = WIdle /\ pending s = false /\ forall i u, users s !! i = Some u -> u = Out \/ u = Using.

(** The steps that are left, at most. *)
Definition user_left (u : user) : Z := match u with GetSlow => 4 | GetLocked => 3 | GetOn => 2 | GetUnlock => 1 | _ => 0 end.
Definition work_left (w : worker) : Z := match w with WRun => 5 | WSlow => 4 | WLast => 2 | WOff => 1 | WIdle => 0 end.
Definition left_over (s : switch) : Z := total user_left (users s) + work_left (work s) + 6 * b2z (pending s).

Lemma user_left_nonneg u : 0 <= user_left u. Proof. destruct u; cbn; lia. Qed.

Lemma left_over_nonneg s : 0 <= left_over s.
Proof. pose proof (total_nonneg user_left (users s) user_left_nonneg). unfold left_over. destruct (work s), (pending s); cbn; lia. Qed.

(** A step that goes on, that starts no get and no put. *)
Definition goes_on (l : sw_label) : Prop := match l with LNext _ | LWork => True | _ => False end.

Lemma next_less s i u s' : users s !! i = Some u -> get_next cpu_online_mask cpu_possible_mask cpu_smt_mask s i u = Some s' -> left_over s' < left_over s.
Proof.
  intros E. unfold left_over. destruct u; try discriminate; cbn [get_next]; [destruct (sched_core_mutex s); [discriminate|] | | |]; intros [= <-]; cbn;
    try (destruct (_ =? 0); cbn); rewrite (total_insert user_left _ i _ _ E); cbn; lia.
Qed.

Lemma work_less s s' : work_next cpu_online_mask cpu_possible_mask cpu_smt_mask s = Some s' -> left_over s' < left_over s.
Proof.
  unfold work_next, left_over. destruct (work s) eqn:Ew.
  - destruct (pending s) eqn:Ep; [|discriminate]. intros [= <-]. cbn. lia.
  - intros [= <-]. destruct (_ =? 1); cbn; lia.
  - destruct (sched_core_mutex s); [discriminate|]. intros [= <-]. destruct (_ =? 0); cbn; lia.
  - intros [= <-]. cbn. lia.
  - intros [= <-]. cbn. lia.
Qed.

(** Whoever has the lock can go on; when nobody has it, anyone can. *)
Lemma can_go_on s : SwInv s -> quiet s \/ exists l s', goes_on l /\ step s l = Some s'.
Proof.
  intros [_ I2 _ _ _]. destruct (work_next cpu_online_mask cpu_possible_mask cpu_smt_mask s) as [s'|] eqn:Ew.
  { right. exists LWork, s'. split; [exact I | exact Ew]. }
  destruct (sched_core_mutex s) eqn:Em.
  - destruct (Z.eq_dec (total locks (users s)) 0) as [Hz|Hz].
    + exfalso. rewrite Hz in I2. unfold work_next in Ew. destruct (work s); cbn in *; try lia; discriminate.
    + right. destruct (total_pos locks (users s) locks_nonneg) as (i & u & E & Hu).
      { pose proof (total_nonneg locks (users s) locks_nonneg). lia. }
      destruct u; cbn in Hu; try lia; exists (LNext i); cbn [sw_step get_next goes_on]; rewrite E; eauto.
  - destruct (Z.eq_dec (total user_left (users s)) 0) as [Hz|Hz].
    + left. unfold work_next in Ew. rewrite Em in Ew. destruct (work s) eqn:Es; try discriminate. destruct (pending s) eqn:Ep; [discriminate|].
      split; [exact Es|]. split; [exact Ep|]. intros i u E. pose proof (total_in user_left _ i u user_left_nonneg E). destruct u; cbn in *; auto; lia.
    + right. destruct (total_pos user_left (users s) user_left_nonneg) as (i & u & E & Hu).
      { pose proof (total_nonneg user_left (users s) user_left_nonneg). lia. }
      destruct u; cbn in Hu; try lia; exists (LNext i); cbn [sw_step get_next goes_on]; rewrite E; cbn [get_next]; rewrite ?Em; eauto.
Qed.

Lemma settles s : SwInv s -> exists ls s', Forall goes_on ls /\ run s ls = Some s' /\ SwInv s' /\ quiet s'.
Proof.
  remember (Z.to_nat (left_over s)) as n eqn:En. revert s En. induction n as [n IH] using lt_wf_ind. intros s -> HI.
  destruct (can_go_on s HI) as [Hq|(l & s1 & Hl & E)].
  - exists [], s. split; [constructor|]. split; [reflexivity | auto].
  - assert (Hless : left_over s1 < left_over s).
    { destruct l; try contradiction; cbn [sw_step] in E; [|apply work_less; exact E].
      destruct (users s !! i) as [u|] eqn:Eu; [exact (next_less s i u s1 Eu E) | discriminate]. }
    pose proof (left_over_nonneg s1). destruct (IH (Z.to_nat (left_over s1)) ltac:(lia) s1 eq_refl (step_inv s l s1 HI E)) as (ls & s' & Hls & Er & HI' & Hq).
    exists (l :: ls), s'. split; [constructor; assumption|]. split; [cbn [sw_run]; rewrite E; exact Er | auto].
Qed.

(** C31: the switch of core scheduling is safe under every interleaving of threads that
    get and put and of the work item. The count is never negative and counts the users
    and the put that is still to be done; no put is lost by finding the work item still
    pending; and whoever has got core scheduling finds it on, the static key and each run
    queue of a possible CPU. *)
Theorem core_switch_safe (q : rqs) (n : nat) (ls : list sw_label) (s : switch) :
  (forall t, t ∈ cpu_possible_mask -> (t < nr_cpu_ids)%nat -> r_core_enabled (q t) = false) -> run (switched_off q n) ls = Some s ->
  0 <= sched_core_count s /\ lost s = O /\
  sched_core_count s = total holds (users s) + work_holds (work s) + b2z (pending s) /\
  forall i, users s !! i = Some Using -> On true s.
Proof.
  intros Hq Hr. destruct (sw_run_inv ls _ s (off_inv q n Hq) Hr) as [I1 I2 I3 I4 I5].
  pose proof (total_nonneg holds (users s) holds_nonneg). split; [destruct (work s), (pending s); cbn in *; lia|]. split; [exact I3|]. split; [exact I1|].
  intros i E. pose proof (total_in holds _ i _ holds_nonneg E) as Hi. cbn in Hi. replace true with (should s); [exact I5|]. unfold should.
  assert (Hc : 0 < sched_core_count s) by (destruct (work s), (pending s); cbn in *; lia).
  apply Z.ltb_lt in Hc. rewrite Hc, orb_true_r. apply Z.ltb_lt in Hc. destruct (work s); cbn in *; try reflexivity; lia.
Qed.

(** From every state that threads and the work item can reach, the steps under way
    can all be completed, without a new get or put, however the lock is held; then core
    scheduling is on exactly when a thread uses it, and the count is the number of
    these. *)
Theorem core_switch_settles (q : rqs) (n : nat) (ls : list sw_label) (s : switch) :
  (forall t, t ∈ cpu_possible_mask -> (t < nr_cpu_ids)%nat -> r_core_enabled (q t) = false) -> run (switched_off q n) ls = Some s ->
  exists ls' s', Forall goes_on ls' /\ run s ls' = Some s' /\ quiet s' /\
    sched_core_count s' = total holds (users s') /\ On (0 <? sched_core_count s') s'.
Proof.
  intros Hq Hr. destruct (settles s (sw_run_inv ls _ s (off_inv q n Hq) Hr)) as (ls' & s' & Hls & Er & [I1 I2 I3 I4 I5] & Hw & Hp & Hu).
  exists ls', s'. split; [exact Hls|]. split; [exact Er|]. split; [split; [exact Hw | split; [exact Hp | exact Hu]]|].
  rewrite Hw, Hp in I1. cbn in I1. split; [lia|].
  assert (Hs : total saw (users s') = 0).
  { destruct (Z.eq_dec (total saw (users s')) 0) as [|Hn]; [assumption|]. exfalso.
    destruct (total_pos saw (users s') (fun u => proj1 (saw_locks u))) as (i & u & E & Hpos); [pose proof (total_saw (users s')); lia|].
    destruct (Hu i u E) as [-> | ->]; cbn in Hpos; lia. }
  unfold should in I5. rewrite Hw, Hs in I5. exact I5.
Qed.
End Safe.

(** * An example *)

(** Two threads on CPUs 0 and 1, which are siblings. The second gets while the work item
    takes the first one's reference back. *)
Definition demo_off : rqs := fun cpu => mkCrq (100 + cpu) (100 + cpu) 0 [] None 0 false 0 0 0 0 false 0.

Definition demo_labels : list sw_label := [LGet 0; LNext 0; LNext 0; LNext 0; LNext 0; LPut 0; LWork; LWork; LGet 1]%nat.

Lemma demo_smt : forall c, c ∈ ({[0; 1]} : cpumask)%nat -> c ∈ ({[0; 1]} : cpumask)%nat /\ ({[0; 1]} : cpumask)%nat ⊆ ({[0; 1]} : cpumask)%nat.
Proof. auto. Qed.

Lemma core_switch_safe_witness : exists s,
  sw_run {[0; 1]}%nat {[0; 1]}%nat (fun _ => {[0; 1]}%nat) (switched_off demo_off 2) demo_labels = Some s /\ sched_core_count s = 2 /\ On {[0; 1]}%nat true s.
Proof.
  destruct (sw_run {[0; 1]}%nat {[0; 1]}%nat (fun _ => {[0; 1]}%nat) (switched_off demo_off 2) demo_labels) as [s|] eqn:E; [|vm_compute in E; discriminate].
  exists s. split; [reflexivity|].
  assert (Hs : sched_core_count s = 2 /\ users s !! 1%nat = Some Using) by (vm_compute in E; injection E as <-; split; reflexivity).
  split; [apply Hs|].
  exact (proj2 (proj2 (proj2 (core_switch_safe {[0; 1]}%nat {[0; 1]}%nat (fun _ => {[0; 1]}%nat) demo_smt demo_off 2 demo_labels s
    (fun _ _ _ => eq_refl) E))) 1%nat (proj2 Hs)).
Defined.

Lemma core_switch_settles_witness : exists s ls' s',
  sw_run {[0; 1]}%nat {[0; 1]}%nat (fun _ => {[0; 1]}%nat) (switched_off demo_off 2) demo_labels = Some s /\
  sw_run {[0; 1]}%nat {[0; 1]}%nat (fun _ => {[0; 1]}%nat) s ls' = Some s' /\ quiet s'.
Proof.
  destruct (core_switch_settles {[0; 1]}%nat {[0; 1]}%nat (fun _ => {[0; 1]}%nat) demo_smt demo_off 2 demo_labels
    (default (switched_off demo_off 2) (sw_run {[0; 1]}%nat {[0; 1]}%nat (fun _ => {[0; 1]}%nat) (switched_off demo_off 2) demo_labels))) as (ls' & s' & _ & E & Hq & _).
  - reflexivity.
  - vm_compute. reflexivity.
  - eexists _, ls', s'. split; [|split; [exact E | exact Hq]]. vm_compute. reflexivity.
Defined.
