(* ===== verification/CoreTheorems.v ===== *)
(** Core scheduling: what [pick_next_task] does to the run queues of a core. *)

From S2P Require Import Prelude KHeaders Priority CoreSched CoreSelect CoreSteal.
Local Open Scope Z_scope.

(** The context switch that follows: the CPU runs what was picked. *)
Definition with_curr (r : crq) (t : nat) : crq :=
  mkCrq (r_idle r) t (r_nr_running r) (r_core_tree r) (r_core_pick r) (r_core_sched_seq r) (r_core_enabled r) (r_core r)
    (core_task_seq r) (core_pick_seq r) (r_core_cookie r) (core_forceidle r) (core_forceidle_seq r).

Definition switch_to (q : rqs) (cpu next : nat) : rqs := set_rq q cpu (with_curr (q cpu) next).

Lemma set_rq_eq q cpu r : set_rq q cpu r cpu = r.
Proof. unfold set_rq. rewrite decide_True; reflexivity. Qed.

(** What a CPU runs, or is told to run at once. *)
Definition runs (q : rqs) (i : nat) : nat := default (r_curr (q i)) (r_core_pick (q i)).

(** What no selection changes. *)
Definition kept (r r' : crq) : Prop :=
  r_idle r' = r_idle r /\ r_nr_running r' = r_nr_running r /\ r_core_tree r' = r_core_tree r /\ r_core_enabled r' = r_core_enabled r /\
  r_core r' = r_core r /\ r_curr r' = r_curr r.

(** What siblings share, as seen from the leader. *)
Definition shares (r r' : crq) : Prop :=
  core_task_seq r' = core_task_seq r /\ core_pick_seq r' = core_pick_seq r /\ r_core_cookie r' = r_core_cookie r /\ core_forceidle r' = core_forceidle r.

Lemma kept_refl r : kept r r. Proof. repeat split. Qed.
Lemma kept_trans r1 r2 r3 : kept r1 r2 -> kept r2 r3 -> kept r1 r3.
Proof. unfold kept. intuition congruence. Qed.
Lemma shares_trans r1 r2 r3 : shares r1 r2 -> shares r2 r3 -> shares r1 r3.
Proof. unfold shares. intuition congruence. Qed.

#[local] Hint Resolve kept_refl kept_trans shares_trans : core.

Section CorePick.
  Context `{Headers} (cfs_prio_less : bool -> CoreTask -> CoreTask -> bool) (dl_time_before : Z -> Z -> bool) (task : nat -> ctask)
    (class_pick : SchedClass -> nat -> option nat).

Abbreviation ck := (cookie task).
Abbreviation idle q t := (is_task_rq_idle task q t = true).
Abbreviation wide := (core_wide cfs_prio_less dl_time_before task class_pick).
Abbreviation pick_next := (pick_next_task cfs_prio_less dl_time_before task class_pick).

Lemma idle_kept q q' t : (forall c, kept (q c) (q' c)) -> is_task_rq_idle task q' t = is_task_rq_idle task q t.
Proof. intros Hk. unfold is_task_rq_idle. rewrite (proj1 (Hk _)). reflexivity. Qed.

Lemma match_kept q q' a b : (forall c, kept (q c) (q' c)) -> cookie_match task q' a b = cookie_match task q a b.
Proof. intros Hk. unfold cookie_match. rewrite !(idle_kept q q') by exact Hk. reflexivity. Qed.

Lemma picks_kept q q' : (forall c, r_idle (q' c) = r_idle (q c) /\ r_core_tree (q' c) = r_core_tree (q c)) ->
  Picks task class_pick q -> Picks task class_pick q'.
Proof.
  intros Hk [P1 P2 P3 P4 P5]. assert (Hi : forall c, r_idle (q' c) = r_idle (q c)) by (intros c; apply Hk).
  assert (Ht : forall c, r_core_tree (q' c) = r_core_tree (q c)) by (intros c; apply Hk).
  split; [intros cpu; rewrite Hi; apply P1 | intros c cpu t; rewrite Hi; apply P2 | intros cpu; rewrite Hi; apply P3 | intros cpu; rewrite Hi; apply P4 | intros cpu t; rewrite Hi, Ht; apply P5].
Qed.

(** * The last loop *)

Lemma flat_map_ext' {A B} (f g : A -> list B) l : (forall x, In x l -> f x = g x) -> flat_map f l = flat_map g l.
Proof. intros Hfg. induction l as [|x l IH]; cbn; [reflexivity|]. rewrite Hfg by (left; reflexivity). rewrite IH; [reflexivity|]. intros y Hy. apply Hfg. right. exact Hy. Qed.

(** What it tells about one sibling. *)
Definition sib_events (cpu next : nat) (fi_before fi : bool) (occ : Z) (q : rqs) (i : nat) : list cev :=
  snd (reschedule_sibling task cpu next fi_before fi occ i (q, [])).

Lemma reschedule_spec cpu next fi_before fi occ i q ev : reschedule_sibling task cpu next fi_before fi occ i (q, ev) =
  (fst (reschedule_sibling task cpu next fi_before fi occ i (q, [])), ev ++ sib_events cpu next fi_before fi occ q i).
Proof.
  unfold sib_events, reschedule_sibling. destruct (r_core_pick (q i)) as [p|]; [|rewrite app_nil_r; reflexivity].
  destruct (i =? cpu)%nat; [cbn [fst snd]; rewrite ?app_nil_l, ?app_assoc; reflexivity|]. destruct (r_curr (q i) =? p)%nat; cbn [fst snd]; rewrite ?app_nil_l, ?app_assoc; reflexivity.
Qed.

Lemma reschedule_same cpu next fi_before fi occ i q (q' := fst (reschedule_sibling task cpu next fi_before fi occ i (q, []))) c :
  kept (q c) (q' c) /\ shares (q c) (q' c) /\ r_core_sched_seq (q' c) = r_core_sched_seq (q c) /\ (c <> i -> q' c = q c) /\
  (c <> cpu -> runs q' c = runs q c /\ (r_core_pick (q' c) = r_core_pick (q c) \/ r_core_pick (q' c) = None)) /\
  (i = cpu -> r_core_pick (q' i) = None).
Proof.
  unfold q', reschedule_sibling, runs, kept, shares, set_rq. destruct (r_core_pick (q i)) as [p|] eqn:Ep; cbn [fst]; [|repeat split; auto].
  destruct (Nat.eqb_spec i cpu) as [->|Hi]; cbn [fst].
  { destruct (decide (c = cpu)) as [->|Hc]; cbn; rewrite ?decide_True by reflexivity; repeat split; auto; congruence. }
  destruct (Nat.eqb_spec (r_curr (q i)) p) as [Hr|Hr]; cbn [fst]; [|repeat split; auto; congruence].
  destruct (decide (c = i)) as [->|Hc]; cbn; rewrite ?Ep; cbn; repeat split; auto; congruence.
Qed.

Lemma sib_events_same cpu next fi_before fi occ q q' i : (forall c, kept (q c) (q' c)) -> q' i = q i ->
  sib_events cpu next fi_before fi occ q' i = sib_events cpu next fi_before fi occ q i.
Proof.
  intros Hk E. unfold sib_events, reschedule_sibling. rewrite E. destruct (r_core_pick (q i)) as [p|]; [|reflexivity].
  rewrite (match_kept q q') by exact Hk. destruct (i =? cpu)%nat; [reflexivity|]. destruct (r_curr (q i) =? p)%nat; reflexivity.
Qed.

Lemma reschedule_all cpu next fi_before fi occ l : forall q ev, NoDup l -> exists q',
  foldl (fun s i => reschedule_sibling task cpu next fi_before fi occ i s) (q, ev) l =
    (q', ev ++ flat_map (sib_events cpu next fi_before fi occ q) l) /\
  (forall c, kept (q c) (q' c) /\ shares (q c) (q' c) /\ r_core_sched_seq (q' c) = r_core_sched_seq (q c) /\
    (c <> cpu -> runs q' c = runs q c /\ (r_core_pick (q' c) = r_core_pick (q c) \/ r_core_pick (q' c) = None))) /\
  (In cpu l \/ r_core_pick (q cpu) = None -> r_core_pick (q' cpu) = None).
Proof.
  induction l as [|i l IH]; intros q ev Hn; cbn [foldl flat_map].
  - exists q. rewrite app_nil_r. repeat split; auto. intros [[]|]; assumption.
  - rewrite reschedule_spec. set (q1 := fst (reschedule_sibling task cpu next fi_before fi occ i (q, []))).
    pose proof (reschedule_same cpu next fi_before fi occ i q) as H1. fold q1 in H1.
    apply NoDup_cons in Hn as [Hi Hn]. destruct (IH q1 (ev ++ sib_events cpu next fi_before fi occ q i) Hn) as (q' & E & Hq & Hcpu).
    exists q'. split; [|split].
    + rewrite E, <- app_assoc. do 3 f_equal. apply flat_map_ext'. intros j Hj. apply sib_events_same; [intros c; apply H1|].
      apply H1. intros ->. apply Hi, list_elem_of_In. exact Hj.
    + intros c. destruct (Hq c) as (K1 & K2 & K3 & K4), (H1 c) as (L1 & L2 & L3 & _ & L4 & _). split; [eauto|]. split; [eauto|]. split; [congruence|].
      intros Hc. destruct (K4 Hc) as [R1 R2], (L4 Hc) as [R3 R4]. split; [congruence|]. destruct R2 as [R2|R2]; rewrite R2; auto.
    + intros Hc. apply Hcpu. destruct (decide (i = cpu)) as [Heq|Hne]; [right; subst i; apply (H1 cpu); reflexivity|].
      destruct Hc as [[->|Hc]|Hc]; [contradiction | auto|]. right. destruct (H1 cpu) as (_ & _ & _ & L & _). rewrite L; auto.
Qed.

(** * The core-wide selection *)

Lemma wrap_perm cpu l : Permutation (wrap_from cpu l) l.
Proof.
  unfold wrap_from. rewrite (List.filter_ext (fun i => i <? cpu)%nat (fun i => negb (cpu <=? i)%nat)) by (intros i; apply Nat.ltb_antisym).
  induction l as [|x l IH]; cbn; [constructor|]. destruct (cpu <=? x)%nat; cbn; [constructor; exact IH|].
  rewrite <- Permutation_middle. constructor. exact IH.
Qed.

Lemma wrap_in cpu l i : In i (wrap_from cpu l) <-> In i l.
Proof. split; apply Permutation_in; [|symmetry]; apply wrap_perm. Qed.

Lemma wrap_nodup cpu l : NoDup l -> NoDup (wrap_from cpu l).
Proof. intros Hn. exact (proj2 (NoDup_Permutation_proper _ _ (wrap_perm cpu l)) Hn). Qed.

Lemma set_core_kept q cpu f c : kept (q (r_core (q cpu))) (f (core_of q cpu)) -> kept (q c) (set_core q cpu f c).
Proof. intros Hf. unfold set_core, set_rq. case_decide; subst; auto. Qed.

(** The state after the selection, before the siblings are told. *)
Definition selected (q : rqs) (cpu : nat) (smt : list nat) (sl : sel) : rqs :=
  let q1 := set_core q cpu (fun r => with_shared r (core_task_seq r) (core_task_seq r) (s_cookie sl) (s_forceidle sl) (s_fi_seq sl)) in
  let q2 := foldl (fun q i => set_rq q i (with_pick (q i) (s_pick sl i))) q1 smt in
  set_rq q2 cpu (with_sched_seq (q2 cpu) (core_pick_seq (core_of q2 cpu))).

Lemma selected_spec q cpu smt sl : In cpu smt -> let q' := selected q cpu smt sl in let L := r_core (q cpu) in
  (forall c, kept (q c) (q' c)) /\ (forall i, In i smt -> r_core_pick (q' i) = s_pick sl i) /\
  (forall c, c <> cpu -> r_core_sched_seq (q' c) = r_core_sched_seq (q c)) /\
  r_core_cookie (q' L) = s_cookie sl /\ core_forceidle (q' L) = s_forceidle sl /\
  core_pick_seq (q' L) = core_task_seq (q L) /\ core_task_seq (q' L) = core_task_seq (q L).
Proof.
  intros Hcpu q' L. unfold q', selected. set (q1 := set_core q cpu _).
  assert (H1 : forall c, kept (q c) (q1 c) /\ r_core_sched_seq (q1 c) = r_core_sched_seq (q c)).
  { intros c. unfold q1, set_core, set_rq, core_of. case_decide; subst; split; auto; repeat split. }
  assert (H2 : forall c, foldl (fun q i => set_rq q i (with_pick (q i) (s_pick sl i))) q1 smt c = if decide (c ∈ smt) then with_pick (q1 c) (s_pick sl c) else q1 c).
  { intros c. apply (set_all (fun i r => with_pick r (s_pick sl i))). reflexivity. }
  set (q2 := foldl _ q1 smt) in *.
  assert (H3 : forall c, kept (q c) (q2 c) /\ r_core_sched_seq (q2 c) = r_core_sched_seq (q c)).
  { intros c. rewrite H2. case_decide; [|apply H1]. destruct (H1 c) as [K E]. split; [exact K | exact E]. }
  assert (HL : r_core_cookie (q2 L) = s_cookie sl /\ core_forceidle (q2 L) = s_forceidle sl /\ core_pick_seq (q2 L) = core_task_seq (q L) /\ core_task_seq (q2 L) = core_task_seq (q L)).
  { rewrite H2. unfold q1, set_core, set_rq, core_of. fold L. rewrite (decide_True (P := L = L)) by reflexivity. case_decide; auto. }
  split; [|split; [|split]].
  - intros c. unfold set_rq. case_decide; [subst|]; apply H3.
  - intros i Hi. unfold set_rq. case_decide; [subst; cbn|]; rewrite H2, decide_True by (apply list_elem_of_In; assumption); reflexivity.
  - intros c Hc. unfold set_rq. rewrite decide_False by exact Hc. apply H3.
  - unfold set_rq. case_decide as E; [|exact HL]. rewrite <- E. exact HL.
Qed.

(** What a core-wide selection leads to: [sl] are the picks. *)
Record Wide (q : rqs) (cpu : nat) (smt : list nat) (fi_before : bool) (sl : sel) (q' : rqs) (next : nat) (ev : list cev) : Prop := {
  wide_kept c : kept (q c) (q' c);
  wide_good : Good task q (wrap_from cpu smt) idle_sched_class sl;
  wide_picks i : In i smt -> exists p, s_pick sl i = Some p;
  wide_next : s_pick sl cpu = Some next;
  wide_runs i : In i smt -> i <> cpu -> s_pick sl i = Some (runs q' i);
  wide_pick i : In i smt -> i <> cpu -> r_core_pick (q' i) = s_pick sl i \/ r_core_pick (q' i) = None;
  wide_own : r_core_pick (q' cpu) = None;
  wide_seq c : c <> cpu -> r_core_sched_seq (q' c) = r_core_sched_seq (q c);
  wide_shared : let L := q' (r_core (q cpu)) in r_core_cookie L = s_cookie sl /\ core_forceidle L = s_forceidle sl /\
    core_pick_seq L = core_task_seq (core_of q cpu) /\ core_task_seq L = core_task_seq (core_of q cpu);
  wide_events : ev = flat_map (sib_events cpu next fi_before (s_forceidle sl) (s_occ sl) (selected q cpu smt sl)) smt ++ [ESetNext next]
}.

Lemma wide_spec fuel q cpu smt fi_before q' next ev : Picks task class_pick q -> NoDup smt -> In cpu smt ->
  r_core_cookie (core_of q cpu) = 0 -> core_forceidle (core_of q cpu) = false ->
  wide fuel q cpu smt fi_before = Ok (q', next, ev) -> exists sl,
  select_classes cfs_prio_less dl_time_before task class_pick fuel q fi_before (wrap_from cpu smt) for_each_class (sel0 (core_forceidle_seq (core_of q cpu))) = Ok sl /\
  Wide q cpu smt fi_before sl q' next ev.
Proof.
  intros HPq Hn Hcpu Hc Hf. unfold core_wide. rewrite Hc, Hf. intros E. apply bind_ok_inv in E as (sl & Es & E). exists sl. split; [exact Es|].
  destruct (select_good _ _ _ _ _ _ _ HPq (wrap_nodup cpu smt Hn) _ _ _ Es) as [HG Hp].
  cbv zeta in E. set (q1 := set_core q cpu _) in E. set (q2 := foldl _ q1 smt) in E.
  destruct (r_core_pick (q2 cpu)) as [nx|] eqn:Enx; [|discriminate].
  change (set_rq q2 cpu (with_sched_seq (q2 cpu) (core_pick_seq (core_of q2 cpu)))) with (selected q cpu smt sl) in E.
  destruct (selected_spec q cpu smt sl Hcpu) as (K & Kp & Ks & Kc & Kf & Kq & Kt). set (q3 := selected q cpu smt sl) in *.
  assert (Hfi : core_forceidle (core_of q3 cpu) = s_forceidle sl).
  { unfold core_of. replace (r_core (q3 cpu)) with (r_core (q cpu)) by (symmetry; apply K). exact Kf. }
  rewrite Hfi in E. destruct (reschedule_all cpu nx fi_before (s_forceidle sl) (s_occ sl) smt q3 [] Hn) as (q4 & E4 & Hq4 & Hown).
  rewrite E4 in E. injection E as <- <- <-.
  assert (Hnext : s_pick sl cpu = Some nx).
  { rewrite <- Kp by exact Hcpu. unfold q3, selected, set_rq. fold q1. fold q2. rewrite decide_True by reflexivity. exact Enx. }
  split; auto.
  - intros c. apply (kept_trans _ (q3 c)); [apply K | apply Hq4].
  - intros i Hi. apply Hp, wrap_in. exact Hi.
  - intros i Hi Hic. destruct (proj2 (proj2 (proj2 (Hq4 i))) Hic) as [Hr _]. rewrite Hr. unfold runs. rewrite Kp by exact Hi.
    destruct (Hp i) as [p ->]; [apply wrap_in; exact Hi | reflexivity].
  - intros i Hi Hic. destruct (proj2 (proj2 (proj2 (Hq4 i))) Hic) as [_ [Hr|Hr]]; [left; rewrite Hr; apply Kp; exact Hi | auto].
  - intros c Hc'. rewrite <- Ks by exact Hc'. apply Hq4.
  - cbv zeta. destruct (Hq4 (r_core (q cpu))) as (_ & (S1 & S2 & S3 & S4) & _). rewrite S1, S2, S3, S4. auto.
Qed.
(** * The siblings match *)

(** The siblings have one leader, and what each runs, or is to run, is its idle task or
    has the cookie of the core. *)
Record Matched (q : rqs) (smt : list nat) : Prop := {
  matched_lead : exists L, In L smt /\ forall i, In i smt -> r_core (q i) = L;
  matched_picks : Picks task class_pick q;
  matched_runs i : In i smt -> c_cpu (task (runs q i)) = i /\ (idle q (runs q i) \/ ck (runs q i) = r_core_cookie (core_of q i))
}.

Lemma switch_same q cpu next c (q' := switch_to q cpu next) :
  r_idle (q' c) = r_idle (q c) /\ r_core_tree (q' c) = r_core_tree (q c) /\ r_core (q' c) = r_core (q c) /\ r_core_cookie (q' c) = r_core_cookie (q c) /\
  (c <> cpu -> runs q' c = runs q c) /\ (r_core_pick (q cpu) = None -> runs q' cpu = next).
Proof.
  unfold q', switch_to, set_rq, runs. repeat split; try (case_decide; subst; reflexivity).
  - intros Hc. rewrite decide_False by exact Hc. reflexivity.
  - intros Hp. rewrite decide_True by reflexivity. cbn. rewrite Hp. reflexivity.
Qed.

(** A step that leaves the siblings to run what they run, or tasks that match [k]. *)
Lemma matched_step q q' cpu next smt k : Matched q smt -> In cpu smt -> (forall c, kept (q c) (q' c)) -> r_core_pick (q' cpu) = None ->
  r_core_cookie (q' (r_core (q cpu))) = k -> c_cpu (task next) = cpu -> (idle q next \/ ck next = k) ->
  (forall i, In i smt -> i <> cpu -> c_cpu (task (runs q' i)) = i /\ (idle q (runs q' i) \/ ck (runs q' i) = k)) ->
  Matched (switch_to q' cpu next) smt.
Proof.
  intros [(L & HL & Hlead) HPq Hr] Hcpu Hk Hown Hck Hhome Hnext Hrest.
  assert (Hi : forall t, is_task_rq_idle task (switch_to q' cpu next) t = is_task_rq_idle task q t).
  { intros t. rewrite <- (idle_kept q q' t Hk). unfold is_task_rq_idle. destruct (switch_same q' cpu next (c_cpu (task t))) as (-> & _). reflexivity. }
  assert (Hc : forall c, r_core (switch_to q' cpu next c) = r_core (q c)).
  { intros c. destruct (switch_same q' cpu next c) as (_ & _ & -> & _). apply Hk. }
  split.
  - exists L. split; [exact HL|]. intros i Hi'. rewrite Hc. auto.
  - apply (picks_kept q); [|exact HPq]. intros c. destruct (switch_same q' cpu next c) as (-> & -> & _). split; apply Hk.
  - intros i Hi'. rewrite Hi. unfold core_of. rewrite Hc. destruct (switch_same q' cpu next (r_core (q i))) as (_ & _ & _ & -> & _).
    rewrite (Hlead i Hi'). rewrite (Hlead cpu Hcpu) in Hck. rewrite Hck.
    destruct (switch_same q' cpu next i) as (_ & _ & _ & _ & Hoth & Hself).
    destruct (decide (i = cpu)) as [->|Hic]; [rewrite (Hself Hown); auto | rewrite (Hoth Hic); auto].
Qed.

Lemma first_class_in pick l (p : nat) : first_class pick l = Ok p -> exists c, In c l /\ pick c = Some p.
Proof.
  induction l as [|c l IH]; [discriminate|]. cbn [first_class]. destruct (pick c) as [x|] eqn:E.
  - intros [= ->]. exists c. split; [left; reflexivity | exact E].
  - intros Hf. destruct (IH Hf) as (c' & Hin & E'). exists c'. split; [right; exact Hin | exact E'].
Qed.

(** The state in which the core-wide selection starts. *)
Definition reset (q : rqs) (cpu : nat) : rqs :=
  set_core q cpu (fun r => with_shared r (u32 (core_task_seq r + 1)) (core_pick_seq r) 0 false (core_forceidle_seq r)).

Lemma reset_spec q cpu (q' := reset q cpu) c :
  kept (q c) (q' c) /\ r_core_pick (q' c) = r_core_pick (q c) /\ r_core_sched_seq (q' c) = r_core_sched_seq (q c) /\
  core_of q' cpu = with_shared (core_of q cpu) (u32 (core_task_seq (core_of q cpu) + 1)) (core_pick_seq (core_of q cpu)) 0 false (core_forceidle_seq (core_of q cpu)).
Proof.
  assert (Hk : forall c, kept (q c) (reset q cpu c)) by (intros c'; unfold reset; apply set_core_kept; repeat split).
  split; [apply Hk|]. unfold core_of at 1. replace (r_core (q' cpu)) with (r_core (q cpu)) by (symmetry; apply Hk).
  unfold q', reset, set_core, set_rq, core_of. rewrite (decide_True (P := r_core (q cpu) = r_core (q cpu))) by reflexivity.
  split; [|split]; try reflexivity; case_decide; subst; reflexivity.
Qed.

(** What [pick_next_task] does on a CPU that is online, with core scheduling on. *)
Inductive picks_by (fuel : nat) (w : classes) (q : rqs) (cpu prev : nat) (smt : list nat) : rqs -> nat -> list cev -> Prop :=
  | ByPick next : r_core_pick (q cpu) = Some next -> core_pick_seq (core_of q cpu) = core_task_seq (core_of q cpu) ->
      picks_by fuel w q cpu prev smt
        (set_rq (set_rq q cpu (with_sched_seq (q cpu) (core_pick_seq (core_of q cpu)))) cpu (with_pick (with_sched_seq (q cpu) (core_pick_seq (core_of q cpu))) None))
        next (if negb (next =? prev)%nat then [EPutPrev prev; ESetNext next] else [])
  | ByClass next c : class_pick c cpu = Some next -> ck next = 0 -> r_core_cookie (core_of q cpu) = 0 -> core_forceidle (core_of q cpu) = false ->
      picks_by fuel w q cpu prev smt (set_rq (reset q cpu) cpu (with_pick (reset q cpu cpu) None)) next
        (put_prev_task_balance task w prev ++ [EVruntime cpu next false; ESetNext next])
  | ByCore q' next ev : wide fuel (reset q cpu) cpu smt (core_forceidle (core_of q cpu)) = Ok (q', next, ev) ->
      picks_by fuel w q cpu prev smt q' next (put_prev_task_balance task w prev ++ ev).

Lemma core_select_cases fuel w q cpu prev smt q' next ev :
  core_select cfs_prio_less dl_time_before task class_pick fuel w q cpu prev smt = Ok (q', next, ev) -> picks_by fuel w q cpu prev smt q' next ev.
Proof.
  unfold core_select. fold (reset q cpu). cbv zeta.
  set (full := wide fuel (reset q cpu) cpu smt (core_forceidle (core_of q cpu)) ≫= _).
  assert (Hfull : full = Ok (q', next, ev) -> picks_by fuel w q cpu prev smt q' next ev).
  { intros E. apply bind_ok_inv in E as ([[q1 n1] ev1] & E & E2). injection E2 as <- <- <-. apply ByCore. exact E. }
  destruct (negb (negb (r_core_cookie (core_of q cpu) =? 0) || core_forceidle (core_of q cpu))) eqn:Es; [|exact Hfull].
  apply negb_true_iff, orb_false_iff in Es as [Ec Ef]. apply negb_false_iff, Z.eqb_eq in Ec. rewrite Ef in *.
  intros E. apply bind_ok_inv in E as (n1 & E1 & E). destruct (Z.eqb_spec (ck n1) 0) as [Hk|Hk]; [|exact (Hfull E)].
  injection E as <- <- <-. apply first_class_in in E1 as (c & _ & E1). apply (ByClass _ _ _ _ _ _ _ c); assumption.
Qed.

Lemma pick_next_cases fuel online w q cpu prev smt q' next ev : r_core_enabled (q cpu) = true -> online cpu = true ->
  pick_next fuel online w q cpu prev smt = Ok (q', next, ev) -> picks_by fuel w q cpu prev smt q' next ev.
Proof.
  intros He Ho. unfold pick_next_task. rewrite He, Ho. cbn [negb]. destruct (r_core_pick (q cpu)) as [p|] eqn:Ep; [|apply core_select_cases].
  destruct ((core_pick_seq (core_of q cpu) =? core_task_seq (core_of q cpu)) && _) eqn:Es; [|apply core_select_cases].
  apply andb_prop in Es as [Es _]. apply Z.eqb_eq in Es. intros [= <- <- <-].
  replace (set_rq q cpu (with_sched_seq (q cpu) (core_pick_seq (core_of q cpu))) cpu) with (with_sched_seq (q cpu) (core_pick_seq (core_of q cpu)))
    by (unfold set_rq; rewrite decide_True by reflexivity; reflexivity).
  apply ByPick; assumption.
Qed.
(** The events that would be warnings. *)
Definition warning (e : cev) : bool := match e with EMismatch _ | EFiBefore => true | _ => false end.

Lemma balance_quiet w prev e : In e (put_prev_task_balance task w prev) -> warning e = false.
Proof.
  unfold put_prev_task_balance. rewrite in_app_iff. intros [Hin|[<-|[]]]; [|reflexivity]. revert Hin.
  generalize (class_range (sched_class (ct_task (c_core (task prev)))) for_each_class). induction l as [|c l IH]; cbn; [contradiction|].
  intros [<-|Hin]; [reflexivity|]. destruct (balance w c); [contradiction | auto].
Qed.

(** What a sibling runs, with the cookie of the core as the leader of [cpu] has it. *)
Lemma matched_at q smt cpu i : Matched q smt -> In cpu smt -> In i smt ->
  c_cpu (task (runs q i)) = i /\ (idle q (runs q i) \/ ck (runs q i) = r_core_cookie (core_of q cpu)).
Proof.
  intros [(L & _ & Hlead) _ Hr] Hcpu Hi. specialize (Hr i Hi). unfold core_of in *. rewrite Hlead in Hr by exact Hi. rewrite Hlead by exact Hcpu. exact Hr.
Qed.

(** The three ways of picking. *)
Lemma by_pick_matched q q' cpu next smt : Matched q smt -> In cpu smt -> r_core_pick (q cpu) = Some next ->
  (forall c, c <> cpu -> q' c = q c) -> kept (q cpu) (q' cpu) -> r_core_pick (q' cpu) = None -> r_core_cookie (q' cpu) = r_core_cookie (q cpu) ->
  Matched (switch_to q' cpu next) smt /\ c_cpu (task next) = cpu.
Proof.
  intros HM Hcpu Ep Ho Hk Hp Hc. pose proof (matched_at q smt cpu cpu HM Hcpu Hcpu) as [Hh Hm].
  unfold runs in Hh, Hm. rewrite Ep in Hh, Hm. cbn in Hh, Hm. split; [|exact Hh].
  apply (matched_step q _ cpu next smt (r_core_cookie (core_of q cpu))); auto.
  - intros c. destruct (decide (c = cpu)) as [->|Hn]; [exact Hk | rewrite Ho by exact Hn; auto].
  - unfold core_of. destruct (decide (r_core (q cpu) = cpu)) as [->|Hn]; [exact Hc | rewrite Ho by exact Hn; reflexivity].
  - intros i Hi Hic. unfold runs. rewrite !Ho by exact Hic. apply (matched_at q smt cpu i HM Hcpu Hi).
Qed.

Lemma by_class_matched q cpu next c smt : Matched q smt -> In cpu smt -> class_pick c cpu = Some next -> ck next = 0 -> r_core_cookie (core_of q cpu) = 0 ->
  Matched (switch_to (set_rq (reset q cpu) cpu (with_pick (reset q cpu cpu) None)) cpu next) smt /\ c_cpu (task next) = cpu.
Proof.
  intros HM Hcpu Ec Ek Ecookie. pose proof (class_pick_home task class_pick q (matched_picks _ _ HM) _ _ _ Ec) as Hh. split; [|exact Hh].
  assert (Hres : forall c, set_rq (reset q cpu) cpu (with_pick (reset q cpu cpu) None) c = if decide (c = cpu) then with_pick (reset q cpu c) None else reset q cpu c).
  { intros c'. unfold set_rq. case_decide; [subst|]; reflexivity. }
  apply (matched_step q _ cpu next smt 0); auto.
  - intros c'. rewrite Hres. destruct (reset_spec q cpu c') as [K _]. case_decide; exact K.
  - rewrite Hres, decide_True; reflexivity.
  - destruct (reset_spec q cpu cpu) as (K & _ & _ & Hc). rewrite Hres. unfold core_of in Hc.
    replace (r_core (reset q cpu cpu)) with (r_core (q cpu)) in Hc by (symmetry; apply K). case_decide; cbn; rewrite Hc; reflexivity.
  - intros i Hi Hic. unfold runs. rewrite Hres, decide_False by exact Hic. destruct (reset_spec q cpu i) as (K & -> & _).
    replace (r_curr (reset q cpu i)) with (r_curr (q i)) by (symmetry; apply K). rewrite <- Ecookie. apply (matched_at q smt cpu i HM Hcpu Hi).
Qed.

Lemma by_core_matched fuel q cpu smt q' next ev : Matched q smt -> NoDup smt -> In cpu smt ->
  wide fuel (reset q cpu) cpu smt (core_forceidle (core_of q cpu)) = Ok (q', next, ev) ->
  Matched (switch_to q' cpu next) smt /\ c_cpu (task next) = cpu /\ forall e, In e ev -> warning e = false.
Proof.
  intros HM Hn Hcpu E. destruct (reset_spec q cpu cpu) as (_ & _ & _ & Hcore). assert (K : forall c, kept (q c) (reset q cpu c)) by (intros c; apply reset_spec).
  assert (HPr : Picks task class_pick (reset q cpu)) by (apply (picks_kept q); [intros c; split; apply K | apply HM]).
  destruct (wide_spec fuel (reset q cpu) cpu smt (core_forceidle (core_of q cpu)) q' next ev HPr Hn Hcpu) as (sl & _ & [W1 WG W2 W3 W4 W5 W6 W7 W8 W9]); [rewrite Hcore; reflexivity..|exact E|].
  assert (Hi : forall t, is_task_rq_idle task (reset q cpu) t = is_task_rq_idle task q t) by (intros t; apply idle_kept; exact K).
  assert (Hpk : forall i p, s_pick sl i = Some p -> c_cpu (task p) = i /\ (idle q p \/ ck p = s_cookie sl)).
  { intros i p Hp. destruct (good_pick _ _ _ _ _ WG i p Hp) as (_ & Hh & Hor). rewrite <- Hi. auto. }
  split; [|split; [exact (proj1 (Hpk _ _ W3))|]].
  - apply (matched_step q _ cpu next smt (s_cookie sl)); auto.
    + intros c. apply (kept_trans _ (reset q cpu c)); auto.
    + destruct W8 as [Hc _]. replace (r_core (q cpu)) with (r_core (reset q cpu cpu)) by apply K. exact Hc.
    + exact (proj1 (Hpk _ _ W3)).
    + exact (proj2 (Hpk _ _ W3)).
  - intros e Hin. subst ev. rewrite in_app_iff in Hin. destruct Hin as [Hin|[<-|[]]]; [|reflexivity]. apply in_flat_map in Hin as (i & Hi' & Hin).
    pose proof (selected_spec (reset q cpu) cpu smt sl Hcpu) as (Ks & Kp & _). unfold sib_events, reschedule_sibling in Hin. rewrite (Kp i Hi') in Hin.
    destruct (W2 i Hi') as [p Hp]. rewrite Hp in Hin.
    assert (Hmatch : cookie_match task (selected (reset q cpu) cpu smt sl) next p = true).
    { rewrite (match_kept (reset q cpu)) by exact Ks. unfold cookie_match. rewrite !Hi.
      destruct (proj2 (Hpk _ _ W3)) as [->|H1]; [reflexivity|]. destruct (proj2 (Hpk _ _ Hp)) as [->|H2]; [rewrite orb_true_r; reflexivity|].
      destruct (_ || _); [reflexivity | apply Z.eqb_eq; congruence]. }
    rewrite Hmatch in Hin. cbn [negb] in Hin. clear -Hin. rewrite app_nil_r in Hin.
    repeat match type of Hin with context [if ?b then _ else _] => destruct b end; cbn in Hin; intuition (subst; reflexivity).
Qed.

(** C29: siblings run what may run together. From a state where each sibling runs, or is
    told to run, its idle task or a task with the cookie of the core, whatever the tasks
    are that may be picked, [pick_next_task] leads to such a state, whichever of its ways
    it takes: the pick made earlier for the CPU, a task without a cookie, or a new
    selection for all siblings. It picks a task of the CPU, and gives no warning. *)
Theorem core_pick_matches (fuel : nat) (online : nat -> bool) (w : classes) (q : rqs) (cpu prev : nat) (smt : list nat) (q' : rqs) (next : nat) (ev : list cev) :
  Matched q smt -> NoDup smt -> In cpu smt -> r_core_enabled (q cpu) = true -> online cpu = true ->
  pick_next fuel online w q cpu prev smt = Ok (q', next, ev) ->
  Matched (switch_to q' cpu next) smt /\ c_cpu (task next) = cpu /\ forall e, In e ev -> warning e = false.
Proof.
  intros HM Hn Hcpu He Ho E. apply pick_next_cases in E; try assumption. destruct E as [next Ep Eq|next c Ec Ek Ecookie Efi|q' next ev E].
  - assert (Hset : forall r, set_rq (set_rq q cpu (with_sched_seq (q cpu) (core_pick_seq (core_of q cpu)))) cpu r cpu = r) by (intros r; unfold set_rq; rewrite decide_True; reflexivity).
    match goal with |- Matched (switch_to ?q1 _ _) _ /\ _ => destruct (by_pick_matched q q1 cpu next smt) as [H1 H2]; auto end.
    { intros c Hc. unfold set_rq. rewrite !decide_False by exact Hc. reflexivity. }
    all: try (rewrite Hset; repeat split).
    split; [exact H1|]. split; [exact H2|].
    intros e. destruct (negb _); [intros [<-|[<-|[]]]; reflexivity | intros []].
  - destruct (by_class_matched q cpu next c smt) as [H1 H2]; auto. split; [exact H1|]. split; [exact H2|].
    intros e. rewrite in_app_iff. intros [Hin|[<-|[<-|[]]]]; [exact (balance_quiet _ _ _ Hin) | reflexivity..].
  - destruct (by_core_matched fuel q cpu smt q' next ev) as (H1 & H2 & H3); auto. split; [exact H1|]. split; [exact H2|].
    intros e. rewrite in_app_iff. intros [Hin|Hin]; [exact (balance_quiet _ _ _ Hin) | auto].
Qed.
(** * Every pick returns *)

Abbreviation Ordered' := (fun q fi => Ordered cfs_prio_less dl_time_before task q fi).

Lemma first_class_ok (pick : SchedClass -> option nat) : pick idle_sched_class <> None -> exists p, first_class pick for_each_class = Ok p.
Proof. intros Hi. unfold for_each_class. cbn. repeat (case_match; eauto). contradiction. Qed.

Lemma wide_ends rank fuel q cpu smt fi : Picks task class_pick q -> NoDup smt -> In cpu smt -> r_core_cookie (core_of q cpu) = 0 ->
  core_forceidle (core_of q cpu) = false -> Ordered' q fi rank -> (length smt < fuel)%nat -> exists r, wide fuel q cpu smt fi = Ok r.
Proof.
  intros HPq Hn Hcpu Hc Hf Hord Hfuel. unfold core_wide. rewrite Hc, Hf.
  destruct (select_ends cfs_prio_less dl_time_before task class_pick q fi (wrap_from cpu smt) HPq (wrap_nodup cpu smt Hn) rank fuel (core_forceidle_seq (core_of q cpu)) Hord) as [sl Es].
  { rewrite (Permutation_length (wrap_perm cpu smt)). exact Hfuel. }
  change (mkSel (fun _ => None) None 0 0 false (core_forceidle_seq (core_of q cpu))) with (sel0 (core_forceidle_seq (core_of q cpu))). rewrite Es, bind_ok.
  destruct (select_good _ _ _ _ _ _ _ HPq (wrap_nodup cpu smt Hn) _ _ _ Es) as [_ Hp]. destruct (Hp cpu) as [p Ep]; [apply wrap_in; exact Hcpu|].
  pose proof (selected_spec q cpu smt sl Hcpu) as (_ & Kp & _). specialize (Kp cpu Hcpu). rewrite Ep in Kp. cbv zeta.
  match goal with |- exists r, match ?x with _ => _ end = _ => assert (Ex : x = Some p) end.
  { rewrite <- Kp. unfold selected. cbv zeta. rewrite set_rq_eq. reflexivity. }
  rewrite Ex. match goal with |- context [foldl ?f ?z smt] => destruct (foldl f z smt) end. eauto.
Qed.

(** [pick_next_task] returns. Where the comparison orders the tasks of different
    cookies by some rank, each class is gone through at most once more than there are
    siblings: every new start raises the best task, first by rank, then by having a
    cookie. *)
Theorem core_pick_returns (rank : nat -> Z) (fuel : nat) (online : nat -> bool) (w : classes) (q : rqs) (cpu prev : nat) (smt : list nat) :
  Picks task class_pick q -> NoDup smt -> In cpu smt -> (length smt < fuel)%nat -> Ordered' q (core_forceidle (core_of q cpu)) rank ->
  class_pick_next_task w idle_sched_class <> None -> exists q' next ev, pick_next fuel online w q cpu prev smt = Ok (q', next, ev).
Proof.
  intros HPq Hn Hcpu Hfuel Hord Hw.
  assert (Hold : exists n ev, __pick_next_task task w q cpu prev = Ok (n, ev)).
  { unfold __pick_next_task. destruct (first_class_ok _ Hw) as [p Ep]. rewrite Ep. destruct (_ && _); [destruct (pick_next_task_fair w)|]; cbn; eauto. }
  destruct Hold as (n & ev & Hold). unfold pick_next_task. rewrite Hold.
  destruct (negb (r_core_enabled (q cpu))); [cbn; eauto|]. destruct (negb (online cpu)); [cbn; eauto|].
  assert (Hsel : exists q' next ev, core_select cfs_prio_less dl_time_before task class_pick fuel w q cpu prev smt = Ok (q', next, ev)).
  { unfold core_select. fold (reset q cpu). cbv zeta. assert (K : forall c, kept (q c) (reset q cpu c)) by (intros c; apply reset_spec).
    destruct (reset_spec q cpu cpu) as (_ & _ & _ & Hcore).
    destruct (wide_ends rank fuel (reset q cpu) cpu smt (core_forceidle (core_of q cpu))) as [[[q' nx] ev'] E]; auto.
    - apply (picks_kept q); [intros c; split; apply K | exact HPq].
    - rewrite Hcore. reflexivity.
    - rewrite Hcore. reflexivity.
    - intros a b Hab Hk. apply Hord; [exact Hab|]. rewrite <- (idle_kept q (reset q cpu) a K). exact Hk.
    - rewrite E. destruct (negb _); [|cbn; eauto]. destruct (first_class_ok (fun c => class_pick c cpu)) as [p Ep]; [rewrite (pick_idle _ _ _ HPq); discriminate|].
      rewrite Ep. cbn. destruct (cookie task p =? 0); cbn; eauto. }
  destruct (r_core_pick (q cpu)); [|exact Hsel]. destruct (_ && _); [eauto | exact Hsel].
Qed.
(** * What a selection gives *)

Lemma filter_perm {A} (f : A -> bool) l l' : Permutation l l' -> length (List.filter f l) = length (List.filter f l').
Proof. induction 1; cbn; repeat match goal with |- context [f ?x] => destruct (f x) end; cbn; congruence. Qed.

(** A sibling that was told to reschedule takes the pick that was made for it. *)
Lemma handed_over fuel online w q i prev smt p : r_core_enabled (q i) = true -> online i = true -> r_core_pick (q i) = Some p ->
  core_pick_seq (core_of q i) = core_task_seq (core_of q i) -> core_pick_seq (core_of q i) <> r_core_sched_seq (q i) ->
  exists q' ev, pick_next fuel online w q i prev smt = Ok (q', p, ev) /\ r_core_pick (q' i) = None.
Proof.
  intros He Ho Hp Hs Hn. unfold pick_next_task. rewrite He, Ho, Hp, Hs, Z.eqb_refl. cbn [negb andb]. rewrite Hs in Hn.
  apply Z.eqb_neq in Hn. rewrite Hn. cbn [negb]. eexists _, _. split; [reflexivity|]. rewrite set_rq_eq. reflexivity.
Qed.

(** What was told about a sibling. *)
Lemma told q q3 cpu next smt fi_before sl i p ev : ev = flat_map (sib_events cpu next fi_before (s_forceidle sl) (s_occ sl) q3) smt ++ [ESetNext next] ->
  In i smt -> r_core_pick (q3 i) = Some p -> r_curr (q3 i) = r_curr (q i) ->
  In (EOccupation p (s_occ sl)) ev /\ (i <> cpu -> r_curr (q i) <> p -> In (EResched i) ev).
Proof.
  intros -> Hi Hp Hc.
  assert (Hin : forall e, In e (sib_events cpu next fi_before (s_forceidle sl) (s_occ sl) q3 i) -> In e (flat_map (sib_events cpu next fi_before (s_forceidle sl) (s_occ sl) q3) smt ++ [ESetNext next])).
  { intros e He. apply in_app_iff. left. apply in_flat_map. eauto. }
  split; [|intros Hic Hne]; apply Hin; unfold sib_events, reschedule_sibling; rewrite Hp.
  - destruct (i =? cpu)%nat; [cbn [snd]; rewrite !in_app_iff; cbn; tauto|]. destruct (_ =? p)%nat; cbn [snd]; rewrite !in_app_iff; cbn; tauto.
  - apply Nat.eqb_neq in Hic. rewrite Hic. rewrite <- Hc in Hne. apply Nat.eqb_neq in Hne. rewrite Hne. cbn [snd]. rewrite !in_app_iff. cbn. tauto.
Qed.

(** C30: a selection for a core. Each sibling gets a task of its own, idle or with the
    cookie of the core; each is told how many of these are not idle; the core counts as
    forced to idle exactly when a sibling that has something to run idles; and nobody is
    passed over for less: where the comparison ranks the tasks, what any class would pick
    for any sibling ranks no higher than some task that was selected. A sibling either
    runs its pick already, or keeps it, is told to reschedule, and then takes it. *)
Theorem core_wide_correct (rank : nat -> Z) (fuel : nat) (q : rqs) (cpu : nat) (smt : list nat) (fi_before : bool) (q' : rqs) (next : nat) (ev : list cev) :
  Picks task class_pick q -> NoDup smt -> In cpu smt -> (forall i, In i smt -> r_core (q i) = r_core (q cpu)) ->
  r_core_cookie (core_of q cpu) = 0 -> core_forceidle (core_of q cpu) = false -> Ordered' q fi_before rank -> Layered class_pick rank ->
  wide fuel q cpu smt fi_before = Ok (q', next, ev) ->
  exists pk : nat -> nat, pk cpu = next /\ (forall i, In i smt -> i <> cpu -> runs q' i = pk i) /\
  (forall i, In i smt -> c_cpu (task (pk i)) = i /\ (idle q (pk i) \/ ck (pk i) = r_core_cookie (core_of q' cpu))) /\
  (forall i, In i smt -> In (EOccupation (pk i) (Z.of_nat (length (List.filter (fun j => negb (is_task_rq_idle task q (pk j))) smt)))) ev) /\
  (core_forceidle (core_of q' cpu) = true <-> exists i, In i smt /\ pk i = r_idle (q i) /\ r_nr_running (q i) <> 0) /\
  (forall i cl t, In i smt -> class_pick cl i = Some t -> exists j, In j smt /\ rank t <= rank (pk j)) /\
  (forall i, In i smt -> i <> cpu -> r_curr (q i) = pk i \/
     r_core_pick (q' i) = Some (pk i) /\ In (EResched i) ev /\
     forall fuel' online w prev, r_core_enabled (q i) = true -> online i = true -> r_core_sched_seq (q i) <> core_task_seq (core_of q cpu) ->
       exists q'' ev'', pick_next fuel' online w q' i prev smt = Ok (q'', pk i, ev'') /\ r_core_pick (q'' i) = None).
Proof.
  intros HPq Hn Hcpu Hlead Hc Hf Hord Hlay E.
  destruct (wide_spec fuel q cpu smt fi_before q' next ev HPq Hn Hcpu Hc Hf E) as (sl & Es & [W1 WG W2 W3 W4 W5 W6 W7 W8 W9]).
  exists (fun i => default O (s_pick sl i)).
  assert (Hpk : forall i, In i smt -> s_pick sl i = Some (default O (s_pick sl i))) by (intros i Hi; destruct (W2 i Hi) as [p ->]; reflexivity).
  assert (HL : core_of q' cpu = q' (r_core (q cpu))) by (unfold core_of; f_equal; apply W1). rewrite HL. destruct W8 as (L1 & L2 & L3 & L4). rewrite L1, L2.
  pose proof (selected_spec q cpu smt sl Hcpu) as (Ks & Kp & _).
  assert (Htold : forall i, In i smt -> In (EOccupation (default O (s_pick sl i)) (s_occ sl)) ev /\ (i <> cpu -> r_curr (q i) <> default O (s_pick sl i) -> In (EResched i) ev)).
  { intros i Hi. apply (told q (selected q cpu smt sl) cpu next smt fi_before sl); [exact W9 | exact Hi | rewrite Kp by exact Hi; apply Hpk; exact Hi | apply Ks]. }
  split; [rewrite W3; reflexivity|]. split; [intros i Hi Hic; rewrite (W4 i Hi Hic); reflexivity|]. split; [|split; [|split; [|split]]].
  - intros i Hi. destruct (good_pick _ _ _ _ _ WG i _ (Hpk i Hi)) as (_ & H1 & H2). auto.
  - intros i Hi. replace (Z.of_nat _) with (s_occ sl); [apply Htold; exact Hi|]. rewrite (good_occ _ _ _ _ _ WG). f_equal.
    rewrite (filter_perm _ _ _ (wrap_perm cpu smt)). f_equal. apply filter_ext_in. intros j Hj. unfold busy. rewrite (Hpk j Hj) at 1. reflexivity.
  - rewrite (good_fi _ _ _ _ _ WG). split; intros (i & Hi & Hfi); exists i.
    + rewrite wrap_in in Hi. split; [exact Hi|]. unfold forced in Hfi. rewrite (Hpk i Hi) in Hfi. apply andb_prop in Hfi as [H1 H2].
      apply Nat.eqb_eq in H1. apply negb_true_iff, Z.eqb_neq in H2. auto.
    + rewrite wrap_in. split; [exact Hi|]. destruct Hfi as [H1 H2]. unfold forced. rewrite (Hpk i Hi), H1, Nat.eqb_refl. apply Z.eqb_neq in H2. rewrite H2. reflexivity.
  - intros i cl t Hi Ht. destruct (select_best _ _ _ _ _ _ _ HPq (wrap_nodup cpu smt Hn) rank _ _ _ Hord Hlay Es cl i t) as (u & Hu & Hr); [apply wrap_in; exact Hi | exact Ht|].
    destruct Hu as [Hu|Hu]; [|exists i; rewrite Hu; auto]. destruct (good_max _ _ _ _ _ WG u Hu) as (_ & Hmp & _).
    exists (c_cpu (task u)). rewrite Hmp. split; [|exact Hr]. apply (good_pick _ _ _ _ _ WG) in Hmp as [Hmp _]. apply wrap_in in Hmp. exact Hmp.
  - intros i Hi Hic. destruct (Nat.eq_dec (r_curr (q i)) (default O (s_pick sl i))) as [Heq|Hne]; [left; exact Heq|right].
    assert (Hp : r_core_pick (q' i) = s_pick sl i).
    { destruct (W5 i Hi Hic) as [|Hnone]; [assumption|]. exfalso. apply Hne. rewrite (W4 i Hi Hic). unfold runs. rewrite Hnone. cbn. symmetry. apply W1. }
    rewrite Hp. split; [apply Hpk; exact Hi|]. split; [apply Htold; assumption|]. intros fuel' online w prev He Ho Hs.
    assert (Hco : core_of q' i = q' (r_core (q cpu))) by (unfold core_of; rewrite <- (Hlead i Hi); f_equal; apply W1).
    apply handed_over; [| exact Ho | rewrite Hp; apply Hpk; exact Hi | rewrite Hco, L3, L4; reflexivity | rewrite Hco, L3, W7 by exact Hic; congruence].
    transitivity (r_core_enabled (q i)); [apply W1 | exact He].
Qed.
End CorePick.

(** * Examples *)

(** CPUs 0 and 1 are siblings. CPU 1 has a real-time task of cookie 7, CPU 0 a fair task of
    cookie 9. *)
Definition pair_task (t : nat) : ctask :=
  match t with 1%nat => demo_task 1 | 3%nat => demo_task 3 | t => demo_core idle_sched_class 120 0 0 (t - 100) end.

Definition pair_pick (c : SchedClass) (i : nat) : option nat :=
  match c, i with
  | rt_sched_class, 1%nat => Some 1%nat
  | fair_sched_class, O => Some 3%nat
  | idle_sched_class, i => Some (100 + i)%nat
  | _, _ => None
  end.

Definition pair_rank (t : nat) : Z := match t with 1%nat => 2 | 3%nat => 1 | _ => 0 end.

Definition pair_rq : rqs := demo_rq 0 (fun cpu => match cpu with O => [3]%nat | 1%nat => [1]%nat | _ => [] end) (fun cpu => match cpu with O | 1%nat => 1 | _ => 0 end).

Definition pair_classes : classes := mkClasses (fun _ => false) false NoTask (fun c => pair_pick c 0).

Lemma pair_picks : Picks pair_task pair_pick pair_rq.
Proof.
  split.
  - reflexivity.
  - intros c cpu t. destruct c, cpu as [|[|cpu]]; cbn; try discriminate; intros [= <-] Hc; try contradiction; split; try reflexivity; discriminate.
  - intros cpu. cbn. lia.
  - reflexivity.
  - intros [|[|cpu]] t; cbn; try contradiction; intros [<-|[]]; split; try reflexivity; discriminate.
Qed.

Lemma pair_ordered fi : Ordered by_it Z.ltb pair_task pair_rq fi pair_rank.
Proof. intros [|[|[|[|a]]]] [|[|[|[|b]]]] Hn _; try contradiction; vm_compute; reflexivity. Qed.

Lemma pair_layered : Layered pair_pick pair_rank.
Proof. intros [] [] [|[|i]] [|[|j]] a b Hc; cbn in *; try lia; try discriminate; intros [= <-] [= <-]; cbn; lia. Qed.

Lemma pair_matched : Matched pair_task pair_pick pair_rq [0; 1]%nat.
Proof.
  split; [exists O; split; [left; reflexivity | reflexivity] | apply pair_picks |].
  intros i [<-|[<-|[]]]; cbn; auto.
Qed.

Lemma pair_nodup : NoDup [0; 1]%nat.
Proof. apply (bool_decide_unpack _). vm_compute. exact I. Qed.

Abbreviation pair_result := (pick_next_task by_it Z.ltb pair_task pair_pick 3 (fun _ => true) pair_classes pair_rq 0 100 [0; 1]%nat).

(** CPU 0 is forced to idle, and CPU 1 is told to run its task. *)
Lemma core_pick_matches_witness : exists q' ev, pair_result = Ok (q', 100%nat, ev) /\ runs q' 1 = 1%nat /\ core_forceidle (q' O) = true /\
  Matched pair_task pair_pick (switch_to q' 0 100) [0; 1]%nat.
Proof.
  assert (Hb : match pair_result with Ok (q', n, _) => (n =? 100)%nat && (runs q' 1 =? 1)%nat && core_forceidle (q' O) | _ => false end = true) by (vm_compute; reflexivity).
  destruct pair_result as [[[q' n] ev]| | |] eqn:E; try discriminate Hb. apply andb_prop in Hb as [Hb H2]. apply andb_prop in Hb as [H0 H1].
  apply Nat.eqb_eq in H0 as ->. apply Nat.eqb_eq in H1. exists q', ev. split; [reflexivity|]. split; [exact H1|]. split; [exact H2|].
  exact (proj1 (core_pick_matches by_it Z.ltb pair_task pair_pick 3 (fun _ => true) pair_classes pair_rq 0 100 [0; 1]%nat q' 100 ev pair_matched pair_nodup
    (or_introl eq_refl) eq_refl eq_refl E)).
Defined.

Lemma core_pick_returns_witness : exists q' next ev, pair_result = Ok (q', next, ev).
Proof.
  apply (core_pick_returns by_it Z.ltb pair_task pair_pick pair_rank 3 (fun _ => true) pair_classes pair_rq 0 100 [0; 1]%nat).
  - apply pair_picks.
  - apply pair_nodup.
  - left. reflexivity.
  - cbn. lia.
  - apply pair_ordered.
  - discriminate.
Defined.

Lemma core_wide_correct_witness : exists q' ev pk, core_wide by_it Z.ltb pair_task pair_pick 3 pair_rq 0 [0; 1]%nat false = Ok (q', 100%nat, ev) /\
  pk O = 100%nat /\ runs q' 1 = pk 1%nat.
Proof.
  assert (Hb : match core_wide by_it Z.ltb pair_task pair_pick 3 pair_rq 0 [0; 1]%nat false with Ok (_, n, _) => (n =? 100)%nat | _ => false end = true) by (vm_compute; reflexivity).
  destruct (core_wide by_it Z.ltb pair_task pair_pick 3 pair_rq 0 [0; 1]%nat false) as [[[q' n] ev]| | |] eqn:E; try discriminate Hb.
  apply Nat.eqb_eq in Hb as ->.
  destruct (core_wide_correct by_it Z.ltb pair_task pair_pick pair_rank 3 pair_rq 0 [0; 1]%nat false q' 100 ev) as (pk & H1 & H2 & _); auto.
  - apply pair_picks.
  - apply pair_nodup.
  - left. reflexivity.
  - apply pair_ordered.
  - apply pair_layered.
  - exists q', ev, pk. split; [reflexivity|]. split; [exact H1|]. apply H2; [right; left; reflexivity | discriminate].
Defined.

(** Two deadline tasks of one deadline and different cookies. *)
Definition tie_pick (c : SchedClass) (i : nat) : option nat :=
  match c, i with
  | dl_sched_class, O => Some 4%nat
  | dl_sched_class, 1%nat => Some 5%nat
  | idle_sched_class, i => Some (100 + i)%nat
  | _, _ => None
  end.

Definition tie_rq : rqs := demo_rq 0 (fun cpu => match cpu with O => [4]%nat | 1%nat => [5]%nat | _ => [] end) (fun _ => 1).

Abbreviation tie_select := (fun (fuel : nat) (s : sel) => select_class by_it Z.ltb demo_task tie_pick fuel (reset tie_rq 0) false [0; 1]%nat dl_sched_class s).

(** Each of the two replaces the other. *)
Lemma tie_turn (s : sel) (b : bool) : s_pick s 0%nat = (if b then Some 4%nat else None) -> s_pick s 1%nat = (if b then None else Some 5%nat) ->
  s_max s = Some (if b then 4%nat else 5%nat) -> s_cookie s = (if b then 5 else 6) ->
  exists s', select_siblings by_it Z.ltb demo_task tie_pick (reset tie_rq 0) false dl_sched_class [0; 1]%nat s = (s', true) /\
    s_pick s' 0%nat = (if negb b then Some 4%nat else None) /\ s_pick s' 1%nat = (if negb b then None else Some 5%nat) /\
    s_max s' = Some (if negb b then 4%nat else 5%nat) /\ s_cookie s' = (if negb b then 5 else 6).
Proof.
  intros H0 H1 Hm Hc. destruct b; cbn [negb select_siblings] in *; unfold select_sibling; rewrite H0, ?H1, Hm, Hc.
  - match goal with |- context [match ?x with Some _ => _ | None => (s, false) end] => replace x with (Some 5%nat) by (vm_compute; reflexivity) end.
    match goal with |- context [cookie_match ?t ?q ?x ?y] => replace (cookie_match t q x y) with false by (vm_compute; reflexivity) end. eexists. split; [reflexivity|]. repeat split; vm_compute; reflexivity.
  - match goal with |- context [match ?x with Some _ => _ | None => (s, false) end] => replace x with (Some 4%nat) by (vm_compute; reflexivity) end.
    match goal with |- context [cookie_match ?t ?q ?x ?y] => replace (cookie_match t q x y) with false by (vm_compute; reflexivity) end. eexists. split; [reflexivity|]. repeat split; vm_compute; reflexivity.
Qed.

Lemma tie_loop fuel : forall (b : bool) (s : sel), s_pick s 0%nat = (if b then Some 4%nat else None) -> s_pick s 1%nat = (if b then None else Some 5%nat) ->
  s_max s = Some (if b then 4%nat else 5%nat) -> s_cookie s = (if b then 5 else 6) -> tie_select fuel s = Diverge.
Proof.
  induction fuel as [|fuel IH]; intros b s H0 H1 Hm Hc; [reflexivity|]. cbn [select_class].
  destruct (tie_turn s b H0 H1 Hm Hc) as (s' & -> & H0' & H1' & Hm' & Hc'). apply (IH (negb b)); assumption.
Qed.

(** The loop of the selection need not end, though a comment calls it bounded: [prio_less]
    takes each of two deadline tasks with the same deadline for less than the other, so that
    with different cookies on siblings each replaces the other for ever. *)
Theorem core_pick_tie_loops (fuel : nat) :
  deadline (c_core (demo_task 4)) = deadline (c_core (demo_task 5)) /\ cookie demo_task 4 <> cookie demo_task 5 /\
  Matched demo_task tie_pick tie_rq [0; 1]%nat /\
  pick_next_task by_it Z.ltb demo_task tie_pick fuel (fun _ => true) (mkClasses (fun _ => false) false NoTask (fun c => tie_pick c 0)) tie_rq 0 100 [0; 1]%nat = Diverge.
Proof.
  split; [reflexivity|]. split; [discriminate|]. split.
  - split; [exists O; split; [left; reflexivity | reflexivity] | | intros i [<-|[<-|[]]]; cbn; auto]. split.
    + reflexivity.
    + intros c cpu t. destruct c, cpu as [|[|cpu]]; cbn; try discriminate; intros [= <-] Hc; try contradiction; split; try reflexivity; discriminate.
    + intros cpu. cbn. lia.
    + reflexivity.
    + intros [|[|cpu]] t; cbn; try contradiction; intros [<-|[]]; split; try reflexivity; discriminate.
  - assert (Hstop : forall f s, select_class by_it Z.ltb demo_task tie_pick (S f) (reset tie_rq 0) false [0; 1]%nat stop_sched_class (sel0 s) = Ok (sel0 s)) by reflexivity.
    assert (Hwide : core_wide by_it Z.ltb demo_task tie_pick fuel (reset tie_rq 0) 0 [0; 1]%nat false = Diverge).
    { unfold core_wide. change (mkSel _ None 0 _ _ _) with (sel0 0). change (wrap_from 0 [0; 1]%nat) with [0; 1]%nat. unfold for_each_class.
      cbn [select_classes]. destruct fuel as [|fuel]; [reflexivity|]. rewrite Hstop, bind_ok.
      assert (Hdl : select_class by_it Z.ltb demo_task tie_pick (S fuel) (reset tie_rq 0) false [0; 1]%nat dl_sched_class (sel0 0) = Diverge)
        by exact (tie_loop fuel false (fst (select_siblings by_it Z.ltb demo_task tie_pick (reset tie_rq 0) false dl_sched_class [0; 1]%nat (sel0 0)))
          eq_refl eq_refl eq_refl eq_refl).
      rewrite Hdl. reflexivity. }
    unfold pick_next_task, core_select. change (negb (r_core_enabled (tie_rq 0%nat))) with false. cbn [negb]. change (r_core_pick (tie_rq 0%nat)) with (@None nat). cbv beta iota zeta.
    change (core_forceidle (core_of tie_rq 0)) with false. fold (reset tie_rq 0). rewrite Hwide. reflexivity.
Qed.
