(* ===== verification/Wakeup.v ===== *)
(** Wake-ups in src/3/20193018_PLUS-1/core.c: [try_to_wake_up] and what it calls,
    [sched_ttwu_pending], [wake_up_new_task], and on the side of the task that sleeps
    [set_current_state], [set_special_state] (sched.h) and the part of [__schedule] that blocks,
    as a machine about one task. Its steps are the accesses to what CPUs share; the
    barriers and the control dependencies that the comments explain make their order
    the order of the program. *)

From S2P Require Import Prelude KHeaders Affinity TaskStates.
Local Open Scope Z_scope.

(** * State *)

(** The two states that only the scheduler gives; no caller may ask for them. *)
Definition inner_states : Z := Z.lor TASK_WAKING TASK_NEW.

(** [Affinity] knows only three kinds of states. *)
Definition tstate_of (v : Z) : tstate :=
  if v =? TASK_RUNNING then Affinity.TASK_RUNNING else if v =? TASK_WAKING then Affinity.TASK_WAKING else TASK_SLEEPING.

(** Where a call of [try_to_wake_up] is, once it has the lock: before
    [ttwu_state_match]; before the test of [on_rq]; before [ttwu_runnable]; before the store
    of [TASK_WAKING]; before the first test of [on_cpu]; where it spins on [on_cpu];
    before [select_task_rq]; before [ttwu_queue]; before the unlock. *)
Inductive ttwu_pc := KMatch | KOnRq | KRunnable | KClaim | KQueueOld | KSpin | KSelect | KQueue (cpu : nat) (migrated : bool) | KUnlock.

(** A call: the mask of states, the CPU it runs on, [success]. *)
Record waker := mkWaker { k_mask : Z; k_cpu : nat; k_pc : ttwu_pc; k_success : bool }.

Definition goto (k : waker) (pc : ttwu_pc) : waker := mkWaker (k_mask k) (k_cpu k) pc (k_success k).

(** Where the task is: not woken for the first time yet; on no CPU; the current task of a
    CPU; [prev] of a switch that has not come to [finish_task]. *)
Inductive wplace := PNew | POff | POn (cpu : nat) | PLeaving (cpu : nat).

(** What the task executes: anything; a wait loop after its [set_current_state], after the
    test that found the condition false, after the one that found it true, after
    [schedule]; a sleep in a special state, set and not yet begun. *)
Inductive wprog := PAny | PSet | PTested | PFound | PBack | PSpecial.

(** Warnings that the code gives, in [sched_ttwu_pending] and in [set_task_cpu], and what
    would corrupt a queue or run a task twice at once. *)
Inductive wfault := FOnCpu | FOtherCpu | FSetTaskCpu | FQueuedTwice | FListedTwice | FWrongQueue | FRunsTwice.

(** The task, with [__state] in full; [in_iowait], [sched_contributes_to_load] and
    [sched_remote_wakeup]; the counts of the run queues, by CPU, and the set of those
    with [ttwu_pending]; the CPU on whose list [wake_entry] is; the callers
    that wait for [pi_lock], the one that has it, and what the others returned; the task's
    place and program, the condition of its wait loop; the faults. *)
Record wsys := mkWsys {
  w_task : atask;
  w_state : Z;
  w_io : bool;
  w_load : bool;
  w_remote : bool;
  nr_uninterruptible : gmap nat Z;
  nr_iowait : gmap nat Z;
  ttwu_pending : gset nat;
  w_list : option nat;
  w_waiting : list waker;
  w_holder : option waker;
  w_returned : list bool;
  w_place : wplace;
  w_prog : wprog;
  w_cond : bool;
  w_faults : list wfault
}.

Definition put_wtask (s : wsys) (p : atask) : wsys :=
  mkWsys p (w_state s) (w_io s) (w_load s) (w_remote s) (nr_uninterruptible s) (nr_iowait s) (ttwu_pending s) (w_list s)
    (w_waiting s) (w_holder s) (w_returned s) (w_place s) (w_prog s) (w_cond s) (w_faults s).
Definition put_load (s : wsys) (b : bool) (n : gmap nat Z) : wsys :=
  mkWsys (w_task s) (w_state s) (w_io s) b (w_remote s) n (nr_iowait s) (ttwu_pending s) (w_list s)
    (w_waiting s) (w_holder s) (w_returned s) (w_place s) (w_prog s) (w_cond s) (w_faults s).
Definition put_io (s : wsys) (b : bool) (n : gmap nat Z) : wsys :=
  mkWsys (w_task s) (w_state s) b (w_load s) (w_remote s) (nr_uninterruptible s) n (ttwu_pending s) (w_list s)
    (w_waiting s) (w_holder s) (w_returned s) (w_place s) (w_prog s) (w_cond s) (w_faults s).
Definition put_list (s : wsys) (l : option nat) (remote : bool) (pend : gset nat) : wsys :=
  mkWsys (w_task s) (w_state s) (w_io s) (w_load s) remote (nr_uninterruptible s) (nr_iowait s) pend l
    (w_waiting s) (w_holder s) (w_returned s) (w_place s) (w_prog s) (w_cond s) (w_faults s).
Definition put_calls (s : wsys) (l : list waker) (h : option waker) (r : list bool) : wsys :=
  mkWsys (w_task s) (w_state s) (w_io s) (w_load s) (w_remote s) (nr_uninterruptible s) (nr_iowait s) (ttwu_pending s) (w_list s)
    l h r (w_place s) (w_prog s) (w_cond s) (w_faults s).
Definition put_place (s : wsys) (pl : wplace) (pr : wprog) : wsys :=
  mkWsys (w_task s) (w_state s) (w_io s) (w_load s) (w_remote s) (nr_uninterruptible s) (nr_iowait s) (ttwu_pending s) (w_list s)
    (w_waiting s) (w_holder s) (w_returned s) pl pr (w_cond s) (w_faults s).
Definition put_cond (s : wsys) (b : bool) : wsys :=
  mkWsys (w_task s) (w_state s) (w_io s) (w_load s) (w_remote s) (nr_uninterruptible s) (nr_iowait s) (ttwu_pending s) (w_list s)
    (w_waiting s) (w_holder s) (w_returned s) (w_place s) (w_prog s) b (w_faults s).
Definition fault_if (b : bool) (f : wfault) (s : wsys) : wsys :=
  mkWsys (w_task s) (w_state s) (w_io s) (w_load s) (w_remote s) (nr_uninterruptible s) (nr_iowait s) (ttwu_pending s) (w_list s)
    (w_waiting s) (w_holder s) (w_returned s) (w_place s) (w_prog s) (w_cond s) (if b then f :: w_faults s else w_faults s).

(** [WRITE_ONCE(p->__state, v)], [p->on_rq = v], [p->on_cpu = b]. *)
Definition write_state (s : wsys) (v : Z) : wsys :=
  mkWsys (with_where (w_task s) (on_rq (w_task s)) (on_cpu (w_task s)) (tstate_of v)) v (w_io s) (w_load s) (w_remote s)
    (nr_uninterruptible s) (nr_iowait s) (ttwu_pending s) (w_list s)
    (w_waiting s) (w_holder s) (w_returned s) (w_place s) (w_prog s) (w_cond s) (w_faults s).
Definition write_on_rq (s : wsys) (v : on_rq_state) : wsys :=
  put_wtask s (with_where (w_task s) v (on_cpu (w_task s)) (state (w_task s))).
Definition write_on_cpu (s : wsys) (b : bool) : wsys :=
  put_wtask s (with_where (w_task s) (on_rq (w_task s)) b (state (w_task s))).

(** The counts, for a task with the mark. *)
Definition count_load (cpu : nat) (d : Z) (s : wsys) : wsys :=
  put_load s (w_load s) (if w_load s then pinned_add (nr_uninterruptible s) cpu d else nr_uninterruptible s).
Definition count_io (cpu : nat) (d : Z) (s : wsys) : wsys :=
  put_io s (w_io s) (if w_io s then pinned_add (nr_iowait s) cpu d else nr_iowait s).

Section Wakeup.
  Context `{Cpumasks} (hp : hotplug) (cpuset_cpus_allowed_fallback : atask -> option cpumask).

(** [sd_llc_id], from the topology; the feature TTWU_QUEUE; [signal_pending_state] of
    sched/signal.h, a function of the state and of the task's signals. *)
Context (sd_llc_id : nat -> nat) (TTWU_QUEUE : bool) {signals : Type} (signal_pending_state : Z -> signals -> bool).

(** The state that the wait loop of the task sets. *)
Context (loop_state : Z).

(** * The functions of a waker *)

Definition cpus_share_cache (this_cpu that_cpu : nat) : bool :=
  if (this_cpu =? that_cpu)%nat then true else (sd_llc_id this_cpu =? sd_llc_id that_cpu)%nat.

(** [this_cpu] is [smp_processor_id()], [idle] tells whether [nr_running] of the CPU is 0. *)
Definition ttwu_queue_cond (this_cpu : nat) (idle : bool) (p : atask) (cpu : nat) : bool :=
  if negb (bool_decide (cpu ∈ cpu_active_mask hp)) then false
  else if negb (bool_decide (cpu ∈ cpus_ptr p)) then false
  else if negb (cpus_share_cache this_cpu cpu) then true
  else if (cpu =? this_cpu)%nat then false
  else idle.

Definition __ttwu_queue_wakelist (cpu : nat) (migrated : bool) (s : wsys) : wsys :=
  fault_if (bool_decide (is_Some (w_list s))) FListedTwice (put_list s (Some cpu) migrated ({[cpu]} ∪ ttwu_pending s)).

(** [None] when it returns false. *)
Definition ttwu_queue_wakelist (this_cpu : nat) (idle : bool) (cpu : nat) (migrated : bool) (s : wsys) : option wsys :=
  if TTWU_QUEUE && ttwu_queue_cond this_cpu idle (w_task s) cpu then Some (__ttwu_queue_wakelist cpu migrated s) else None.

(** [activate_task] on the queue of [cpu]. *)
Definition activate_on (cpu : nat) (s : wsys) : wsys :=
  let p := w_task s in
  fault_if (bool_decide (task_cpu p <> cpu)) FWrongQueue
    (fault_if (bool_decide (on_rq p = TASK_ON_RQ_QUEUED)) FQueuedTwice (put_wtask s (activate_queued p))).

(** Without the preemption of the current task, the callback of the class and the
    averages of idle time. *)
Definition ttwu_do_wakeup (s : wsys) : wsys := write_state s TASK_RUNNING.

Definition ttwu_do_activate (cpu : nat) (migrated : bool) (s : wsys) : wsys :=
  let s := count_load cpu (-1) s in
  let s := if migrated then s else count_io (task_cpu (w_task s)) (-1) s in
  ttwu_do_wakeup (activate_on cpu s).

(** [None] while the task is between two run queues: [__task_rq_lock] waits. *)
Definition ttwu_runnable (s : wsys) : option (bool * wsys) :=
  match on_rq (w_task s) with
  | TASK_ON_RQ_MIGRATING => None
  | TASK_ON_RQ_QUEUED => Some (true, ttwu_do_wakeup s)
  | NOT_ON_RQ => Some (false, s)
  end.

Definition ttwu_queue (this_cpu : nat) (idle : bool) (cpu : nat) (migrated : bool) (s : wsys) : wsys :=
  match ttwu_queue_wakelist this_cpu idle cpu migrated s with
  | Some s => s
  | None => ttwu_do_activate cpu migrated s
  end.

(** The choice of a CPU and the move to it. *)
Definition ttwu_select (class_select : nat) (nodemask : option cpumask) (s : wsys) : res (wsys * ttwu_pc) :=
  r ← select_task_rq hp cpuset_cpus_allowed_fallback class_select nodemask (w_task s);
  let '(cpu, p) := r in
  let s := put_wtask s p in
  if bool_decide (task_cpu p = cpu) then Ok (s, KQueue cpu false)
  else
    let s := count_io (task_cpu p) (-1) s in
    let '(p, warn) := set_task_cpu hp p cpu in
    Ok (fault_if warn FSetTaskCpu (put_wtask s p), KQueue cpu true).

(** The holder of the lock goes on; [None] when it cannot. *)
Definition ttwu_next (k : waker) (idle : bool) (class_select : nat) (nodemask : option cpumask) (s : wsys) : option (res wsys) :=
  let at_ (pc : ttwu_pc) (s : wsys) := Some (Ok (put_calls s (w_waiting s) (Some (goto k pc)) (w_returned s))) in
  match k_pc k with
  | KMatch =>
      if meets (w_state s) (k_mask k) then
        Some (Ok (put_calls s (w_waiting s) (Some (mkWaker (k_mask k) (k_cpu k) KOnRq true)) (w_returned s)))
      else at_ KUnlock s
  | KOnRq => if bool_decide (on_rq (w_task s) = NOT_ON_RQ) then at_ KClaim s else at_ KRunnable s
  | KRunnable =>
      match ttwu_runnable s with
      | Some (true, s) => at_ KUnlock s
      | Some (false, s) => at_ KClaim s
      | None => None
      end
  | KClaim => at_ KQueueOld (write_state s TASK_WAKING)
  | KQueueOld =>
      match (if on_cpu (w_task s) then ttwu_queue_wakelist (k_cpu k) idle (task_cpu (w_task s)) false s else None) with
      | Some s => at_ KUnlock s
      | None => at_ KSpin s
      end
  | KSpin => if on_cpu (w_task s) then None else at_ KSelect s
  | KSelect =>
      Some (r ← ttwu_select class_select nodemask s;
            let '(s, pc) := r in Ok (put_calls s (w_waiting s) (Some (goto k pc)) (w_returned s)))
  | KQueue cpu migrated => at_ KUnlock (ttwu_queue (k_cpu k) idle cpu migrated s)
  | KUnlock => Some (Ok (put_calls s (w_waiting s) None (k_success k :: w_returned s)))
  end.

(** [try_to_wake_up] of the task that is current on the CPU of the caller. *)
Definition ttwu_current (mask : Z) (s : wsys) : wsys :=
  if meets (w_state s) mask then put_calls (write_state s TASK_RUNNING) (w_waiting s) (w_holder s) (true :: w_returned s)
  else put_calls s (w_waiting s) (w_holder s) (false :: w_returned s).

(** On the CPU [cpu], whose list has the task. *)
Definition sched_ttwu_pending (cpu : nat) (s : wsys) : wsys :=
  let s := put_list s (w_list s) (w_remote s) (ttwu_pending s ∖ {[cpu]}) in
  if on_cpu (w_task s) then fault_if true FOnCpu s
  else
    let s := put_list s None (w_remote s) (ttwu_pending s) in
    let s := if bool_decide (task_cpu (w_task s) = cpu) then s
             else fault_if true FOtherCpu (put_wtask s (fst (set_task_cpu hp (w_task s) cpu))) in
    ttwu_do_activate cpu (w_remote s) s.

(** [__set_task_cpu] gives no warning and counts no migration. *)
Definition wake_up_new_task (class_select : nat) (nodemask : option cpumask) (s : wsys) : res wsys :=
  let s := write_state s TASK_RUNNING in
  r ← select_task_rq hp cpuset_cpus_allowed_fallback class_select nodemask (w_task s);
  let '(cpu, p) := r in
  Ok (activate_on cpu (put_place (put_wtask s (with_cpu p cpu cpu (nr_migrations p))) POff (w_prog s))).

(** A function that somebody calls on the task in a fixed state, with the lock; [None] while
    the task is between two run queues. *)
Definition try_invoke_on_locked_down_task (func : wsys -> bool) (s : wsys) : option bool :=
  match on_rq (w_task s) with
  | TASK_ON_RQ_MIGRATING => None
  | TASK_ON_RQ_QUEUED => Some (func s)
  | NOT_ON_RQ => if (w_state s =? TASK_RUNNING) || (w_state s =? TASK_WAKING) then Some false else Some (func s)
  end.

(** * The functions of the task *)

(** [set_special_state] has [pi_lock]; both are what [WRITE_ONCE] does otherwise. *)
Definition set_current_state (v : Z) (pr : wprog) (s : wsys) : wsys := put_place (write_state s v) (w_place s) pr.
Definition set_special_state (v : Z) (s : wsys) : wsys := put_place (write_state s v) (w_place s) PSpecial.

(** The part of [__schedule] that blocks, on [cpu]. *)
Definition schedule_sleep (cpu : nat) (preempt : bool) (sig : signals) (frozen : bool) (s : wsys) : wsys :=
  let prev_state := w_state s in
  if negb preempt && negb (prev_state =? 0) then
    if signal_pending_state prev_state sig then write_state s TASK_RUNNING
    else
      let load := meets prev_state TASK_UNINTERRUPTIBLE && negb (meets prev_state TASK_NOLOAD) && negb frozen in
      let s := count_load cpu 1 (put_load s load (nr_uninterruptible s)) in
      count_io cpu 1 (write_on_rq s NOT_ON_RQ)
  else s.

Definition after_schedule (pr : wprog) : wprog := match pr with PTested => PBack | PSpecial => PAny | pr => pr end.

Definition prepare_task (s : wsys) : wsys := write_on_cpu s true.
Definition finish_task (s : wsys) : wsys := write_on_cpu s false.

(** * Steps *)

(** Somebody, on a CPU, calls [wake_up_state]; somebody sets the condition and then calls
    it; a caller gets the lock; the holder goes on; the CPU with the task on its list gets the
    interrupt; the task, or an interrupt on its CPU, wakes it up; the first wake-up. The
    task sets a state; enters or continues its wait loop; tests the condition; leaves the loop;
    sets a special state; resets the condition; marks that it waits for I/O; calls
    [schedule] or is preempted; is picked again at once; is switched out; is switched in; is taken
    off its queue for another CPU and put there. *)
Inductive wlabel :=
  | LCall (cpu : nat) (mask : Z)
  | LWakeCond (cpu : nat) (mask : Z)
  | LLock (i : nat)
  | LNextK (idle : bool) (class_select : nat) (nodemask : option cpumask)
  | LIpi
  | LSelf (mask : Z) (cond : bool)
  | LWakeNew (class_select : nat) (nodemask : option cpumask)
  | LState (v : Z)
  | LLoop
  | LTest
  | LLeave
  | LSpecial (v : Z)
  | LReset
  | LIo (b : bool)
  | LSchedule (preempt : bool) (sig : signals) (frozen : bool)
  | LAgain
  | LFinish
  | LPick
  | LDetach (d : nat)
  | LAttach.

Definition runs_on (s : wsys) : option nat := match w_place s with POn c => Some c | _ => None end.

(** The CPU that executes the task or switches from it. *)
Definition cpu_of (s : wsys) : option nat := match w_place s with POn c | PLeaving c => Some c | _ => None end.

(** No call is under way on [cpu], whose preemption is off meanwhile. *)
Definition no_call_on (cpu : nat) (s : wsys) : bool :=
  forallb (fun k => negb (k_cpu k =? cpu)%nat) (w_waiting s) &&
  match w_holder s with Some k => negb (k_cpu k =? cpu)%nat | None => true end.

Definition call_ok (cpu : nat) (mask : Z) (s : wsys) : bool := negb (meets mask inner_states) && negb (bool_decide (cpu_of s = Some cpu)).

Definition when (b : bool) (s : res wsys) : option (res wsys) := if b then Some s else None.

Definition on_its_cpu (s : wsys) : bool := bool_decide (is_Some (runs_on s)).

Definition in_prog (l : list wprog) (s : wsys) : bool :=
  existsb (fun pr => match pr, w_prog s with
    | PAny, PAny | PSet, PSet | PTested, PTested | PFound, PFound | PBack, PBack | PSpecial, PSpecial => true | _, _ => false end) l.

Definition join (cpu : nat) (mask : Z) (s : wsys) : wsys :=
  put_calls s (w_waiting s ++ [mkWaker mask cpu KMatch false]) (w_holder s) (w_returned s).

(** [None]: the step is not possible. *)
Definition wstep (l : wlabel) (s : wsys) : option (res wsys) :=
  let p := w_task s in
  match l with
  | LCall cpu mask => when (call_ok cpu mask s) (Ok (join cpu mask s))
  | LWakeCond cpu mask => when (call_ok cpu mask s && meets loop_state mask) (Ok (join cpu mask (put_cond s true)))
  | LLock i =>
      match w_holder s, w_waiting s !! i with
      | None, Some k => Some (Ok (put_calls s (delete i (w_waiting s)) (Some k) (w_returned s)))
      | _, _ => None
      end
  | LNextK idle class_select nodemask =>
      match w_holder s with Some k => ttwu_next k idle class_select nodemask s | None => None end
  | LIpi =>
      match w_list s with
      | Some c =>
          when (match w_place s with PLeaving c' => negb (c =? c')%nat | _ => true end &&
                match w_holder s with Some k => negb (k_cpu k =? c)%nat | None => true end)
            (Ok (sched_ttwu_pending c s))
      | None => None
      end
  | LSelf mask cond =>
      when (on_its_cpu s && negb (meets mask inner_states) && (negb cond || meets loop_state mask))
        (Ok (ttwu_current mask (if cond then put_cond s true else s)))
  | LWakeNew class_select nodemask =>
      match w_place s, w_holder s with
      | PNew, None => Some (wake_up_new_task class_select nodemask s)
      | _, _ => None
      end
  | LState v => when (on_its_cpu s && in_prog [PAny] s && negb (meets v inner_states) && negb (is_special_task_state v))
      (Ok (set_current_state v PAny s))
  | LLoop => when (on_its_cpu s && in_prog [PAny; PBack] s) (Ok (set_current_state loop_state PSet s))
  | LTest => when (on_its_cpu s && in_prog [PSet] s) (Ok (put_place s (w_place s) (if w_cond s then PFound else PTested)))
  | LLeave => when (on_its_cpu s && in_prog [PFound] s) (Ok (set_current_state TASK_RUNNING PAny s))
  | LSpecial v =>
      when (on_its_cpu s && in_prog [PAny] s && is_special_task_state v && negb (meets v inner_states) && bool_decide (w_holder s = None))
        (Ok (set_special_state v s))
  | LReset => when (on_its_cpu s && in_prog [PAny] s) (Ok (put_cond s false))
  | LIo b => when (on_its_cpu s && in_prog [PAny] s) (Ok (put_io s b (nr_iowait s)))
  | LSchedule preempt sig frozen =>
      match runs_on s with
      | Some c => when (preempt || in_prog [PAny; PTested; PSpecial] s)
          (let s' := schedule_sleep c preempt sig frozen s in
           Ok (put_place s' (PLeaving c) (if preempt then w_prog s else after_schedule (w_prog s))))
      | None => None
      end
  | LAgain =>
      match w_place s with
      | PLeaving c => when (task_on_rq_queued p) (Ok (put_place s (POn c) (w_prog s)))
      | _ => None
      end
  | LFinish =>
      match w_place s with
      | PLeaving c => Some (Ok (put_place (finish_task (put_wtask s (migrate_disable_switch c p))) POff (w_prog s)))
      | _ => None
      end
  | LPick =>
      when (task_on_rq_queued p && negb (bool_decide (cpu_of s = Some (task_cpu p))) && no_call_on (task_cpu p) s)
        (Ok (fault_if (bool_decide (is_Some (cpu_of s))) FRunsTwice (put_place (prepare_task s) (POn (task_cpu p)) (w_prog s))))
  | LDetach d =>
      when (task_on_rq_queued p && negb (on_cpu p) && negb (is_migration_disabled p) && is_cpu_allowed hp p d)
        (let '(p, warn) := set_task_cpu hp (deactivate_migrating p) d in Ok (fault_if warn FSetTaskCpu (put_wtask s p)))
  | LAttach => when (bool_decide (on_rq p = TASK_ON_RQ_MIGRATING)) (Ok (activate_on (task_cpu p) s))
  end.

Inductive wrun (s : wsys) : wsys -> Prop :=
  | wrun_nil : wrun s s
  | wrun_step l s1 s2 : wrun s s1 -> wstep l s1 = Some (Ok s2) -> wrun s s2.

(** Executes a list of labels. *)
Fixpoint wexec (ls : list wlabel) (s : wsys) : option (res wsys) :=
  match ls with
  | [] => Some (Ok s)
  | l :: ls => match wstep l s with Some (Ok s') => wexec ls s' | r => r end
  end.

Lemma wexec_run ls s1 s2 : wexec ls s1 = Some (Ok s2) -> wrun s1 s2.
Proof.
  assert (forall ls s, wrun s1 s -> wexec ls s = Some (Ok s2) -> wrun s1 s2) as Hall.
  { clear ls. induction ls as [|l ls IH]; cbn [wexec]; intros s Hr; [intros [= <-]; exact Hr|].
    destruct (wstep l s) as [[s3| | |]|] eqn:E; try discriminate. apply IH. econstructor; [exact Hr | exact E]. }
  apply Hall. constructor.
Qed.

(** A call that nobody interrupts, with the lock, to its end: it has at most nine steps. *)
Fixpoint ttwu_alone (fuel : nat) (idle : bool) (class_select : nat) (nodemask : option cpumask) (s : wsys) : res wsys :=
  match fuel, w_holder s with
  | O, _ => Diverge
  | S fuel, Some k =>
      match ttwu_next k idle class_select nodemask s with
      | Some r => s ← r; ttwu_alone fuel idle class_select nodemask s
      | None => Diverge
      end
  | S _, None => Ok s
  end.

Definition try_to_wake_up (cpu : nat) (mask : Z) (idle : bool) (class_select : nat) (nodemask : option cpumask) (s : wsys) : res wsys :=
  ttwu_alone 10 idle class_select nodemask (put_calls s (w_waiting s) (Some (mkWaker mask cpu KMatch false)) (w_returned s)).

Definition wake_up_state := try_to_wake_up.
Definition wake_up_process (cpu : nat) := try_to_wake_up cpu TASK_NORMAL.
End Wakeup.

Arguments LCall {signals}.
Arguments LWakeCond {signals}.
Arguments LLock {signals}.
Arguments LNextK {signals}.
Arguments LIpi {signals}.
Arguments LSelf {signals}.
Arguments LWakeNew {signals}.
Arguments LState {signals}.
Arguments LLoop {signals}.
Arguments LTest {signals}.
Arguments LLeave {signals}.
Arguments LSpecial {signals}.
Arguments LReset {signals}.
Arguments LIo {signals}.
Arguments LAgain {signals}.
Arguments LFinish {signals}.
Arguments LPick {signals}.
Arguments LDetach {signals}.
Arguments LAttach {signals}.
