(* ===== verification/WakeInv.v ===== *)
(** The invariant of the machine of [Wakeup] and its preservation. *)

From S2P Require Import Prelude KHeaders Affinity AffineSafe TaskStates Wakeup.
Local Open Scope Z_scope.

(** * States and masks *)

(** A mask without the inner states does not match them. *)
Lemma inner_mask x mask : x = TASK_WAKING \/ x = TASK_NEW -> meets mask inner_states = false -> meets x mask = false.
Proof.
  unfold meets. rewrite !negb_false_iff, !Z.eqb_eq. intros Hx Hm. rewrite <- (Z.land_diag x), <- Z.land_assoc, (Z.land_comm x mask).
  assert (Z.land inner_states x = x) as Hi by (destruct Hx as [-> | ->]; reflexivity). rewrite <- Hi at 2.
  rewrite (Z.land_assoc mask), Hm, Z.land_0_l, Z.land_0_r. reflexivity.
Qed.

Lemma meets_inner v : meets v inner_states = false -> v <> TASK_WAKING /\ v <> TASK_NEW.
Proof. intros Hv. split; intros ->; discriminate. Qed.

Lemma matched_state v mask : meets mask inner_states = false -> meets v mask = true -> v <> TASK_RUNNING /\ v <> TASK_WAKING /\ v <> TASK_NEW.
Proof.
  intros Hm Hv. split; [intros -> ; discriminate|].
  split; intros ->; rewrite inner_mask in Hv; auto; discriminate.
Qed.

Lemma special_not_running v : is_special_task_state v = true -> v <> TASK_RUNNING.
Proof. intros Hv ->. discriminate. Qed.

(** * The invariant *)

(** The state is [TASK_WAKING]: a call has dequeued the task, or it is on a list. *)
Definition placing (pc : ttwu_pc) : bool := match pc with KQueueOld | KSpin | KSelect | KQueue _ _ => true | _ => false end.
Definition holds_at (f : ttwu_pc -> bool) (s : wsys) : bool := match w_holder s with Some k => f (k_pc k) | None => false end.
Definition listed (s : wsys) : bool := match w_list s with Some _ => true | None => false end.
Definition waking (s : wsys) : bool := listed s || holds_at placing s.

Section Inv.
  Context `{CpumasksOk} (hp : hotplug) `{!Steady hp} (cpuset_fallback : atask -> option cpumask).
  Context (llc : nat -> nat) (feature : bool) {signals : Type} (pending : Z -> signals -> bool) (loop_state : Z).

Abbreviation step := (wstep hp cpuset_fallback llc feature pending loop_state).

(** The CPUs that the task may use. *)
Definition masks_ok (p : atask) : Prop := task_ok hp (with_where p TASK_ON_RQ_QUEUED (on_cpu p) Affinity.TASK_RUNNING) false.

(** A caller: it asks for no inner state, and the task does not run on its CPU. *)
Definition caller_ok (s : wsys) (k : waker) : Prop := meets (k_mask k) inner_states = false /\ cpu_of s <> Some (k_cpu k).

(** What the holder of the lock knows. *)
Definition holder_ok (s : wsys) (k : waker) : Prop :=
  caller_ok s k /\
  match k_pc k with
  | KMatch | KUnlock => True
  | KOnRq | KRunnable => w_list s = None /\ w_place s <> PNew
  | KClaim => w_list s = None /\ w_place s <> PNew /\ on_rq (w_task s) = NOT_ON_RQ
  | KQueueOld | KSpin => w_list s = None
  | KSelect => w_list s = None /\ on_cpu (w_task s) = false
  | KQueue cpu _ => w_list s = None /\ on_cpu (w_task s) = false /\ task_cpu (w_task s) = cpu
  end.

Record WInv (s : wsys) : Prop := {
  v_faults : w_faults s = [];
  v_cpu : cpu_of s = if on_cpu (w_task s) then Some (task_cpu (w_task s)) else None;
  v_state : state (w_task s) = tstate_of (w_state s);
  v_masks : masks_ok (w_task s);
  v_runs : on_rq (w_task s) = NOT_ON_RQ -> runs_on s = None;
  v_moving : on_rq (w_task s) = TASK_ON_RQ_MIGRATING -> on_cpu (w_task s) = false;
  v_new : w_place s = PNew <-> w_state s = TASK_NEW;
  v_new_rq : w_place s = PNew -> on_rq (w_task s) = NOT_ON_RQ;
  v_asleep : on_rq (w_task s) = NOT_ON_RQ -> w_state s <> TASK_RUNNING;
  v_waking : waking s = true <-> w_state s = TASK_WAKING;
  v_waking_rq : waking s = true -> on_rq (w_task s) = NOT_ON_RQ;
  v_list c : w_list s = Some c -> task_cpu (w_task s) = c /\ c ∈ ttwu_pending s /\ holds_at placing s = false;
  v_holder k : w_holder s = Some k -> holder_ok s k;
  v_waiting : Forall (fun k => caller_ok s k /\ k_pc k = KMatch /\ k_success k = false) (w_waiting s)
}.

(** * Facts about one state *)

Lemma running_facts s c : WInv s -> runs_on s = Some c ->
  w_place s = POn c /\ on_cpu (w_task s) = true /\ task_cpu (w_task s) = c /\ on_rq (w_task s) = TASK_ON_RQ_QUEUED /\ waking s = false.
Proof.
  intros HI Hr. unfold runs_on in Hr. destruct (w_place s) as [| |c'|c'] eqn:Ep; try discriminate. injection Hr as ->.
  pose proof (v_cpu s HI) as Hc. unfold cpu_of in Hc. rewrite Ep in Hc. destruct (on_cpu (w_task s)) eqn:Eo; [|discriminate].
  injection Hc as Hc. assert (on_rq (w_task s) <> NOT_ON_RQ) as Hq.
  { intros Hn. pose proof (v_runs s HI Hn) as Hx. unfold runs_on in Hx. rewrite Ep in Hx. discriminate. }
  split; [reflexivity|]. split; [reflexivity|]. split; [auto|]. split.
  - destruct (on_rq (w_task s)) eqn:E; [contradiction | reflexivity | rewrite (v_moving s HI E) in Eo; discriminate].
  - destruct (waking s) eqn:E; [|reflexivity]. destruct (Hq (v_waking_rq s HI E)).
Qed.

Lemma not_waking_list s : waking s = false -> w_list s = None.
Proof. unfold waking, listed. destruct (w_list s); [discriminate | reflexivity]. Qed.

Lemma masks_allowed p : masks_ok p -> on_cpu p = false -> exists c, is_cpu_allowed hp p c = true.
Proof. intros Hm Ho. exact (task_allowed hp _ _ Hm Ho). Qed.

(** A task whose migration is disabled may only use its CPU once it was switched out. *)
Lemma pinned_cpu p c : masks_ok p -> on_cpu p = false -> is_migration_disabled p = true -> is_cpu_allowed hp p c = true -> c = task_cpu p.
Proof.
  intros Hm Ho Hd Ha. apply disabled_spec' in Hd. pose proof (t_dis _ _ _ Hm) as Hz. cbn in Hz.
  destruct (cpus_ptr_ p) as [m|] eqn:Ep; [|destruct (t_out _ _ _ Hm ltac:(cbn; lia) Ho Ep)].
  destruct (t_ptr _ _ _ Hm m Ep) as [-> _]. destruct (allowed_online hp p c Ha) as [Hc _]. unfold cpus_ptr in Hc. rewrite Ep in Hc.
  exact (proj1 (elem_of_singleton _ _) Hc).
Qed.

Lemma masks_where p q st : masks_ok p -> masks_ok (with_where p q (on_cpu p) st).
Proof. exact (fun Hm => Hm). Qed.

Lemma masks_moved p c n : masks_ok p -> is_migration_disabled p = false -> c ∈ cpu_online_mask hp -> masks_ok (with_cpu p c c n).
Proof.
  intros Hm Hd Hc. pose proof (own_ptr hp _ _ Hm (proj1 (disabled_spec p) Hd)) as Hp. cbn in Hp. apply disabled_spec in Hd.
  destruct Hm as [Q1 Q2 Q3 Q4 Q5 Q6 Q7]. split; cbn in *; auto; try discriminate; try congruence; try lia.
Qed.

(** Switched out, and on or off a CPU. *)
Lemma masks_out p : masks_ok p -> masks_ok (with_where (migrate_disable_switch (task_cpu p) p) (on_rq p) false (state p)).
Proof.
  intros [Q1 Q2 Q3 Q4 Q5 Q6 Q7]. unfold migrate_disable_switch. destruct (is_migration_disabled p) eqn:Ed; cbn [negb].
  - destruct (cpus_ptr_ p) as [m|] eqn:Ep.
    + split; cbn in *; auto; try discriminate. rewrite Ep. discriminate.
    + apply disabled_spec' in Ed. cbn in *. split; cbn; auto; try discriminate. intros m [= <-]. split; [reflexivity|]. lia.
  - apply disabled_spec in Ed. split; cbn in *; auto; try discriminate. intros Hx. lia.
Qed.

Lemma masks_in p : masks_ok p -> masks_ok (with_where p (on_rq p) true (state p)).
Proof. intros [Q1 Q2 Q3 Q4 Q5 Q6 Q7]. split; cbn in *; auto; discriminate. Qed.

(** The move to an allowed CPU gives no warning. *)
Lemma move_silent p c : masks_ok p -> on_cpu p = false -> is_cpu_allowed hp p c = true -> task_cpu p <> c ->
  state p = Affinity.TASK_WAKING \/ on_rq p = TASK_ON_RQ_MIGRATING ->
  snd (set_task_cpu hp p c) = false /\ masks_ok (fst (set_task_cpu hp p c)).
Proof.
  intros Hm Ho Ha Hne Hst. destruct (is_migration_disabled p) eqn:Ed; [destruct Hne; symmetry; exact (pinned_cpu p c Hm Ho Ed Ha)|].
  destruct (allowed_online hp p c Ha) as [_ Hc]. split; [|exact (masks_moved p c _ Hm Ed Hc)].
  unfold set_task_cpu. cbn [snd]. rewrite Ed, (bool_decide_true _ Hc), !bool_decide_false by (destruct Hst; intros [? ?]; congruence).
  destruct (fair_class _); reflexivity.
Qed.

(** * Preservation *)

Lemma waiting_more (s : wsys) P k : Forall P (w_waiting s) -> P k -> Forall P (w_waiting s ++ [k]).
Proof. intros Hs Hk. apply Forall_app. auto. Qed.
End Inv.

Ltac unbox := unfold waking, listed, holds_at, caller_ok, cpu_of, runs_on in *; cbn in *.

(** Proves the clauses of the invariant about which a step says nothing. *)
Ltac framed := constructor; unbox; eauto; try tauto; try congruence; try discriminate.
