(* ===== verification/WakeKeeps.v ===== *)
(** The steps of the machine of [Wakeup] keep the invariant of [WakeInv]. *)

From S2P Require Import Prelude KHeaders Affinity AffineSafe TaskStates Wakeup WakeInv.
Local Open Scope Z_scope.

Section Keeps.
  Context `{CpumasksOk} (hp : hotplug) `{!Steady hp} (cpuset_fallback : atask -> option cpumask).
  Context (llc : nat -> nat) (feature : bool) {signals : Type} (pending : Z -> signals -> bool) (loop_state : Z).

#[local] Abbreviation step := (wstep hp cpuset_fallback llc feature pending loop_state).
#[local] Abbreviation next := (ttwu_next hp cpuset_fallback llc feature).
#[local] Abbreviation WInv := (WInv hp).

Definition all_keep (o : option (res wsys)) : Prop := forall r, o = Some r -> returns r WInv.

Lemma keeps_when b s : (b = true -> WInv s) -> all_keep (when b (Ok s)).
Proof. unfold when. intros Hs r. destruct b; [|discriminate]. intros [= <-]. apply returns_ok, Hs. reflexivity. Qed.

(** * The holder of the lock *)

(** The caller goes on to a place where it does not place the task. *)
Lemma inv_at s k pc b : WInv s -> w_holder s = Some k -> placing (k_pc k) = false -> placing pc = false ->
  holder_ok s (mkWaker (k_mask k) (k_cpu k) pc b) -> WInv (put_calls s (w_waiting s) (Some (mkWaker (k_mask k) (k_cpu k) pc b)) (w_returned s)).
Proof.
  intros HI Hh Hpc Hpc' Hk. destruct HI. framed; rewrite ?Hh, ?Hpc, ?Hpc' in *; auto.
  intros k' [= <-]. exact Hk.
Qed.
(** It stores [TASK_RUNNING] in the state of a queued task. *)
Lemma inv_running s : WInv s -> on_rq (w_task s) = TASK_ON_RQ_QUEUED -> WInv (write_state s TASK_RUNNING).
Proof.
  intros HI Hq. destruct HI. framed.
  - split; intros E; [apply v_new_rq in E; congruence | discriminate].
  - split; intros E; [|discriminate]. apply v_waking_rq in E. congruence.
Qed.

Lemma inv_claim s k : WInv s -> w_holder s = Some k -> k_pc k = KClaim ->
  WInv (put_calls (write_state s TASK_WAKING) (w_waiting s) (Some (goto k KQueueOld)) (w_returned s)).
Proof.
  intros HI Hh Hpc. pose proof (v_holder _ _ HI k Hh) as [Hk Hpl]. rewrite Hpc in Hpl. destruct Hpl as (Hl & Hn & Hq).
  destruct HI. framed; rewrite ?Hl in *; try discriminate; try tauto.
  - split; [intros E; destruct (Hn E) | discriminate].
  - intros k' [= <-]. split; [exact Hk | exact Hl].
Qed.

(** The holder has dequeued the task and goes on to place it. *)
Lemma inv_placing s k pc : WInv s -> w_holder s = Some k -> placing (k_pc k) = true -> placing pc = true ->
  holder_ok s (goto k pc) -> WInv (put_calls s (w_waiting s) (Some (goto k pc)) (w_returned s)).
Proof.
  intros HI Hh Hpc Hpc' Hk. destruct HI. framed; rewrite ?Hh, ?Hpc, ?Hpc' in *; auto.
  intros k' [= <-]. exact Hk.
Qed.

(** The task is put on the list of its CPU. *)
Lemma inv_listed s k migrated : WInv s -> w_holder s = Some k -> placing (k_pc k) = true -> w_list s = None ->
  let s' := __ttwu_queue_wakelist (task_cpu (w_task s)) migrated s in
  WInv (put_calls s' (w_waiting s') (Some (goto k KUnlock)) (w_returned s')).
Proof.
  intros HI Hh Hpc Hl. unfold __ttwu_queue_wakelist. rewrite Hl. pose proof (v_holder _ _ HI k Hh) as [Hk _].
  destruct HI. framed; rewrite ?Hh, ?Hpc, ?Hl in *; auto.
  - intros c [= <-]. split; [reflexivity|]. split; [|reflexivity]. apply elem_of_union_l, elem_of_singleton_2. reflexivity.
  - intros k' [= <-]. split; [exact Hk | exact I].
Qed.

(** What [ttwu_do_activate] does to a task that is off its queue. *)
Lemma activated s migrated : w_faults s = [] -> on_rq (w_task s) <> TASK_ON_RQ_QUEUED -> forall s', s' = ttwu_do_activate (task_cpu (w_task s)) migrated s ->
  w_faults s' = [] /\ w_task s' = with_where (w_task s) TASK_ON_RQ_QUEUED (on_cpu (w_task s)) Affinity.TASK_RUNNING /\ w_state s' = TASK_RUNNING /\
  w_place s' = w_place s /\ w_list s' = w_list s /\ w_holder s' = w_holder s /\ w_waiting s' = w_waiting s /\ w_prog s' = w_prog s /\ w_cond s' = w_cond s.
Proof.
  intros Hf Hq s' ->. unfold ttwu_do_activate, activate_on, ttwu_do_wakeup.
  set (s1 := count_load _ _ s). set (s2 := if migrated then s1 else _).
  assert (w_task s2 = w_task s /\ w_faults s2 = [] /\ w_place s2 = w_place s /\ w_list s2 = w_list s /\ w_holder s2 = w_holder s /\
    w_waiting s2 = w_waiting s /\ w_prog s2 = w_prog s /\ w_cond s2 = w_cond s) as (E1 & E2 & E3 & E4 & E5 & E6 & E7 & E8).
  { subst s1 s2. destruct migrated; cbn; auto 10. }
  cbv zeta. rewrite !E1, !bool_decide_false by auto. cbn. auto 10.
Qed.

(** The task is put on the queue of its CPU by the one who places it. *)
Lemma inv_activated s s' : WInv s -> on_cpu (w_task s) = false -> waking s = true ->
  w_faults s' = [] -> w_task s' = with_where (w_task s) TASK_ON_RQ_QUEUED false Affinity.TASK_RUNNING -> w_state s' = TASK_RUNNING ->
  w_place s' = w_place s -> w_list s' = None -> w_waiting s' = w_waiting s -> waking s' = false ->
  (forall k, w_holder s' = Some k -> caller_ok s k /\ match k_pc k with KMatch | KUnlock => True | _ => False end) -> WInv s'.
Proof.
  intros HI Ho Hw E1 E2 E3 E4 E5 E6 E7 Hk.
  assert (w_place s <> PNew) as Hn. { intros Hn. apply (v_new _ _ HI) in Hn. apply (v_waking _ _ HI) in Hw. rewrite Hn in Hw. discriminate. }
  assert (forall k, caller_ok s k -> caller_ok s' k) as Hok by (unfold caller_ok, cpu_of; rewrite E4; auto).
  destruct HI. split; rewrite ?E1, ?E2, ?E3, ?E5, ?E6, ?E7; unfold cpu_of, runs_on in *; rewrite ?E4; cbn; auto; try discriminate.
  - rewrite Ho in v_cpu. exact v_cpu.
  - rewrite <- Ho. apply masks_where. assumption.
  - split; [intros Hx; destruct (Hn Hx) | discriminate].
  - intros Hx. destruct (Hn Hx).
  - split; discriminate.
  - intros k Hh. destruct (Hk k Hh) as [Hc Hpc]. split; [exact (Hok k Hc)|]. destruct (k_pc k); auto; contradiction.
  - eapply Forall_impl; [exact v_waiting|]. intros k (Hc & ?). auto.
Qed.

Lemma inv_queue s k cpu migrated : WInv s -> w_holder s = Some k -> k_pc k = KQueue cpu migrated ->
  let s' := ttwu_do_activate cpu migrated s in
  WInv (put_calls s' (w_waiting s') (Some (goto k KUnlock)) (w_returned s')).
Proof.
  intros HI Hh Hpc. pose proof (v_holder _ _ HI k Hh) as [Hk Hpl]. rewrite Hpc in Hpl. destruct Hpl as (Hl & Ho & <-).
  assert (waking s = true) as Hw by (unfold waking, holds_at; rewrite Hh, Hpc; apply orb_true_r). cbv zeta.
  destruct (activated s migrated (v_faults _ _ HI) ltac:(rewrite (v_waking_rq _ _ HI Hw); discriminate) _ eq_refl) as (E1 & E2 & E3 & E4 & E5 & E6 & E7 & _).
  rewrite Ho in E2. rewrite Hl in E5. apply (inv_activated s); auto.
  - unfold waking, listed, holds_at. cbn [put_calls w_list w_holder]. rewrite E5. reflexivity.
  - intros k' [= <-]. exact (conj Hk I).
Qed.

(** The holder chooses a CPU and moves the task there. *)
Lemma inv_select s k cls nm : WInv s -> w_holder s = Some k -> k_pc k = KSelect ->
  exists s' pc, ttwu_select hp cpuset_fallback cls nm s = Ok (s', pc) /\
    WInv (put_calls s' (w_waiting s') (Some (goto k pc)) (w_returned s')).
Proof.
  intros HI Hh Hpc. pose proof (v_holder _ _ HI k Hh) as [Hk Hpl]. rewrite Hpc in Hpl. destruct Hpl as (Hl & Ho).
  assert (waking s = true) as Hw by (unfold waking, holds_at; rewrite Hh, Hpc; apply orb_true_r).
  assert (state (w_task s) = Affinity.TASK_WAKING) as Hst by (rewrite (v_state _ _ HI), (proj1 (v_waking _ _ HI) Hw); reflexivity).
  destruct (masks_allowed hp _ (v_masks _ _ HI) Ho) as [c0 Hc0].
  destruct (select_allowed hp cpuset_fallback cls nm _ c0 Hc0) as (c & Es & Hc). unfold ttwu_select. rewrite Es.
  cbn [mbind res_bind]. replace (put_wtask s (w_task s)) with s by (destruct s; reflexivity).
  destruct (bool_decide_reflect (task_cpu (w_task s) = c)) as [E|E].
  - eexists _, _. split; [reflexivity|]. apply inv_placing; auto; [rewrite Hpc; reflexivity|]. split; [exact Hk | cbn; auto].
  - destruct (move_silent hp _ c (v_masks _ _ HI) Ho Hc E (or_introl Hst)) as [Hq Hm].
    destruct (set_task_cpu hp (w_task s) c) as [p warn] eqn:Ec. cbn in Hq, Hm. subst warn. eexists _, _. split; [reflexivity|].
    unfold set_task_cpu in Ec. injection Ec as <- _.
    destruct HI. framed; rewrite ?Hh, ?Hpc, ?Ho in *; auto.
    intros k' [= <-]. split; [exact Hk | cbn; auto].
Qed.

Lemma inv_unlock s k : WInv s -> w_holder s = Some k -> placing (k_pc k) = false -> WInv (put_calls s (w_waiting s) None (k_success k :: w_returned s)).
Proof. intros HI Hh Hpc. destruct HI. framed; rewrite ?Hh, ?Hpc in *; auto. Qed.

Lemma next_keeps s k idle cls nm : WInv s -> w_holder s = Some k -> all_keep (next k idle cls nm s).
Proof.
  intros HI Hh r. pose proof (v_holder _ _ HI k Hh) as [Hk Hpl]. unfold ttwu_next.
  destruct (k_pc k) as [| | | | | | |cpu migrated|] eqn:Hpc; cbn [placing] in *.
  - destruct (meets (w_state s) (k_mask k)) eqn:Em; intros [= <-]; apply returns_ok, inv_at; rewrite ?Hpc; auto; (split; [exact Hk|]); cbn; [|exact I].
    destruct (matched_state _ _ (proj1 Hk) Em) as (H1 & H2 & H3). split.
    + apply not_waking_list. destruct (waking s) eqn:E; [|reflexivity]. destruct H2. apply (v_waking _ _ HI), E.
    + intros E. destruct H3. apply (v_new _ _ HI), E.
  - destruct (bool_decide_reflect (on_rq (w_task s) = NOT_ON_RQ)) as [Eq|Eq]; intros [= <-]; apply returns_ok, inv_at; rewrite ?Hpc; auto; split; cbn; tauto.
  - unfold ttwu_runnable. destruct (on_rq (w_task s)) eqn:Eq; [| |discriminate]; intros [= <-]; apply returns_ok.
    + apply inv_at; rewrite ?Hpc; auto. split; cbn; tauto.
    + apply (inv_at (ttwu_do_wakeup s) k); rewrite ?Hpc; auto; [apply inv_running; assumption | split; [exact Hk | exact I]].
  - intros [= <-]. apply returns_ok, inv_claim; assumption.
  - unfold ttwu_queue_wakelist.
    destruct (on_cpu (w_task s)) eqn:Eo; [destruct (feature && _)|]; intros [= <-]; apply returns_ok;
      [apply (inv_listed s k false); rewrite ?Hpc; auto | apply inv_placing; rewrite ?Hpc; auto; (split; [exact Hk | exact Hpl]) ..].
  - destruct (on_cpu (w_task s)) eqn:Eo; [discriminate|]. intros [= <-]. apply returns_ok, inv_placing; rewrite ?Hpc; auto. split; cbn; auto.
  - intros [= <-]. destruct (inv_select s k cls nm HI Hh Hpc) as (s' & pc & E & HI'). rewrite E. exact (returns_ok _ _ HI').
  - intros [= <-]. apply returns_ok. destruct Hpl as (Hl & Ho & <-). unfold ttwu_queue, ttwu_queue_wakelist.
    destruct (feature && _); [apply (inv_listed s k migrated) | apply (inv_queue s k _ migrated)]; rewrite ?Hpc; auto.
  - intros [= <-]. apply returns_ok, inv_unlock; rewrite ?Hpc; auto.
Qed.

(** * Callers *)

Lemma caller_cpu s cpu mask : call_ok cpu mask s = true -> meets mask inner_states = false /\ cpu_of s <> Some cpu.
Proof. unfold call_ok. rewrite andb_true_iff, !negb_true_iff, bool_decide_eq_false. auto. Qed.

Lemma inv_join s cpu mask : WInv s -> call_ok cpu mask s = true -> WInv (join cpu mask s).
Proof.
  intros HI Hc. apply caller_cpu in Hc. destruct HI. framed. apply waiting_more; [exact v_waiting | auto].
Qed.

Lemma inv_cond s b : WInv s -> WInv (put_cond s b).
Proof. intros HI. destruct HI. framed. Qed.

Lemma inv_lock s i k : WInv s -> w_holder s = None -> w_waiting s !! i = Some k ->
  WInv (put_calls s (delete i (w_waiting s)) (Some k) (w_returned s)).
Proof.
  intros HI Hh Hi. pose proof (proj1 (Forall_lookup _ _) (v_waiting _ _ HI) i k Hi) as (Hk & Hpc & _).
  destruct HI. framed; rewrite ?Hh, ?Hpc in *; auto.
  - intros k' [= <-]. split; [exact Hk|]. rewrite Hpc. exact I.
  - apply Forall_delete. exact v_waiting.
Qed.

(** * The interrupt and the first wake-up *)

Lemma inv_ipi s c : WInv s -> w_list s = Some c -> (forall c', w_place s = PLeaving c' -> c <> c') -> WInv (sched_ttwu_pending hp c s).
Proof.
  intros HI Hl Hpl. destruct (v_list _ _ HI c Hl) as (Hc & Hp & Hh). unfold sched_ttwu_pending.
  assert (waking s = true) as Hw by (unfold waking, listed; rewrite Hl; reflexivity).
  pose proof (v_waking_rq _ _ HI Hw) as Hq. assert (on_cpu (w_task s) = false) as Ho.
  { destruct (on_cpu (w_task s)) eqn:Eo; [|reflexivity]. pose proof (v_cpu _ _ HI) as Hcpu. pose proof (v_runs _ _ HI Hq) as Hr.
    unfold cpu_of, runs_on in *. rewrite Eo in Hcpu. destruct (w_place s) as [| |c'|c'] eqn:Ep; try discriminate.
    destruct (Hpl c' eq_refl). congruence. }
  set (s0 := put_list s (w_list s) (w_remote s) (ttwu_pending s ∖ {[c]})). change (w_task s0) with (w_task s). rewrite Ho.
  set (s1 := put_list s0 None (w_remote s0) (ttwu_pending s0)). change (w_task s1) with (w_task s). rewrite (bool_decide_true _ Hc).
  destruct (activated s1 (w_remote s1) (v_faults _ _ HI) ltac:(cbn; rewrite Hq; discriminate) _ eq_refl) as (E1 & E2 & E3 & E4 & E5 & E6 & E7 & _).
  change (w_task s1) with (w_task s) in *. rewrite Hc, Ho in *. apply (inv_activated s); auto.
  - unfold waking, listed, holds_at in *. rewrite E5, E6. exact Hh.
  - intros k Hk. rewrite E6 in Hk. destruct (v_holder _ _ HI k Hk) as [Hok Hpc]. split; [exact Hok|]. rewrite Hl in Hpc.
    destruct (k_pc k); try exact I; first [discriminate | destruct Hpc; discriminate].
Qed.

Lemma inv_new s cls nm : WInv s -> w_place s = PNew -> w_holder s = None ->
  returns (wake_up_new_task hp cpuset_fallback cls nm s) WInv.
Proof.
  intros HI Hp Hh. pose proof (v_new_rq _ _ HI Hp) as Hq. pose proof (v_cpu _ _ HI) as Hc. unfold cpu_of in Hc. rewrite Hp in Hc.
  assert (on_cpu (w_task s) = false) as Ho by (destruct (on_cpu (w_task s)); [discriminate | reflexivity]).
  assert (waking s = false) as Hw.
  { destruct (waking s) eqn:E; [|reflexivity]. apply (v_waking _ _ HI) in E. apply (v_new _ _ HI) in Hp. rewrite E in Hp. discriminate. }
  unfold wake_up_new_task. set (p := w_task (write_state s TASK_RUNNING)).
  assert (masks_ok hp p) as Hm by (apply masks_where, (v_masks _ _ HI)).
  destruct (masks_allowed hp p Hm Ho) as [c0 Hc0].
  destruct (select_allowed hp cpuset_fallback cls nm _ c0 Hc0) as (c & Es & Ha). rewrite Es. cbn [mbind res_bind]. apply returns_ok.
  assert (masks_ok hp (with_cpu p c c (nr_migrations p))) as Hm'.
  { destruct (is_migration_disabled p) eqn:Ed.
    - rewrite (pinned_cpu hp p c Hm Ho Ed Ha). destruct Hm as [Q1 Q2 Q3 Q4 Q5 Q6 Q7]. split; assumption.
    - apply (masks_moved hp); auto. exact (proj2 (allowed_online hp p c Ha)). }
  pose proof (not_waking_list _ Hw) as Hl. unfold activate_on, activate_queued. subst p. cbn. rewrite Hq, !bool_decide_false by (discriminate || auto). cbn.
  destruct HI. framed; rewrite ?Hl, ?Hh, ?Ho in *; try discriminate; auto.
  - split; discriminate.
  - split; discriminate.
  - eapply Forall_impl; [exact v_waiting|]. intros k ((? & _) & ?). split; [split; [assumption | discriminate] | assumption].
Qed.

(** * The task *)

(** It gives itself a state. *)
Lemma inv_own s c v pr : WInv s -> runs_on s = Some c -> v <> TASK_WAKING -> v <> TASK_NEW ->
  WInv (put_place (write_state s v) (w_place s) pr).
Proof.
  intros HI Hr Hv1 Hv2. destruct (running_facts hp s c HI Hr) as (Hp & Ho & Hc & Hq & Hw). pose proof (not_waking_list _ Hw) as Hl.
  destruct HI. framed; rewrite ?Hp, ?Hq, ?Ho, ?Hl in *; try congruence; try discriminate; auto.
  - split; [discriminate | intros E; contradiction].
  - rewrite Hw. split; [discriminate | intros E; contradiction].
Qed.

Lemma inv_place s pr : WInv s -> WInv (put_place s (w_place s) pr).
Proof. intros HI. destruct HI. framed. Qed.

Lemma inv_current s c mask : WInv s -> runs_on s = Some c -> WInv (ttwu_current mask s).
Proof.
  intros HI Hr. unfold ttwu_current. destruct (running_facts hp s c HI Hr) as (_ & _ & _ & Hq & _).
  destruct (meets _ _); [apply inv_running in HI; [|exact Hq]|]; destruct HI; framed.
Qed.

Lemma holder_moves s s' k : holder_ok s k -> cpu_of s' = cpu_of s -> w_list s' = w_list s ->
  (on_rq (w_task s) = NOT_ON_RQ -> on_rq (w_task s') = NOT_ON_RQ) -> on_cpu (w_task s') = on_cpu (w_task s) ->
  task_cpu (w_task s') = task_cpu (w_task s) -> w_place s' <> PNew -> holder_ok s' k.
Proof.
  intros [Hc Hpc] E1 E2 E3 E4 E5 E6. unfold holder_ok, caller_ok in *. rewrite E1, E2, E4, E5. split; [exact Hc|]. destruct (k_pc k); tauto.
Qed.

(** It is taken off its queue to sleep, or stays. *)
Lemma inv_schedule s c preempt sig frozen pr : WInv s -> runs_on s = Some c ->
  WInv (put_place (schedule_sleep pending c preempt sig frozen s) (PLeaving c) pr).
Proof.
  intros HI Hr. destruct (running_facts hp s c HI Hr) as (Hp & Ho & Hc & Hq & Hw). pose proof (not_waking_list _ Hw) as Hl.
  assert (forall s', WInv s' -> w_place s' = w_place s -> on_rq (w_task s') = TASK_ON_RQ_QUEUED -> WInv (put_place s' (PLeaving c) pr)) as Hstay.
  { clear HI Hr Ho Hc Hq Hw Hl. intros s' HI' Hp' Hq'. rewrite Hp in Hp'. destruct HI'. framed; rewrite ?Hp' in *; auto.
    - split; [discriminate | intros E; apply v_new in E; discriminate].
    - intros k Hk. apply (holder_moves s'); auto; try discriminate; unfold cpu_of; cbn; rewrite Hp'; reflexivity. }
  unfold schedule_sleep. destruct (negb preempt && negb (w_state s =? 0)) eqn:Eb; [|apply Hstay; auto].
  destruct (pending (w_state s) sig); [apply Hstay; auto; apply inv_running; auto|].
  apply andb_true_iff in Eb as [_ Eb]. apply negb_true_iff, Z.eqb_neq in Eb. set (load := _ && _ && _). clearbody load.
  destruct HI. framed; rewrite ?Hp, ?Hq, ?Ho, ?Hl in *; try congruence; try discriminate; auto.
  - split; [discriminate | intros E; apply v_new in E; discriminate].
  - intros k Hk. apply (holder_moves s); auto; try discriminate; unfold cpu_of; cbn; rewrite Hp; reflexivity.
Qed.

(** * The switch *)

Lemma inv_again s c : WInv s -> w_place s = PLeaving c -> on_rq (w_task s) = TASK_ON_RQ_QUEUED -> WInv (put_place s (POn c) (w_prog s)).
Proof.
  intros HI Hp Hq. destruct HI. framed; rewrite ?Hp, ?Hq in *; try discriminate; auto.
  - split; [discriminate | intros E; apply v_new in E; discriminate].
  - intros k Hk. apply (holder_moves s); auto; try discriminate; unfold cpu_of; cbn; rewrite Hp; reflexivity.
Qed.

Lemma placed_place s : WInv s -> w_place s <> PNew -> w_state s <> TASK_NEW.
Proof. intros HI Hp E. apply (v_new _ _ HI) in E. contradiction. Qed.

(** Nobody places a task that is on a queue. *)
Lemma queued_waking s : WInv s -> on_rq (w_task s) <> NOT_ON_RQ -> waking s = false.
Proof. intros HI Hq. destruct (waking s) eqn:E; [destruct (Hq (v_waking_rq _ _ HI E)) | reflexivity]. Qed.

Lemma off_placing s k : WInv s -> on_rq (w_task s) = TASK_ON_RQ_QUEUED -> w_holder s = Some k -> placing (k_pc k) = false.
Proof.
  intros HI Hq Hk. assert (waking s = false) as Hw by (apply queued_waking; [exact HI | rewrite Hq; discriminate]).
  unfold waking, holds_at in Hw. rewrite Hk in Hw. apply orb_false_iff in Hw. tauto.
Qed.

Lemma inv_finish s c : WInv s -> w_place s = PLeaving c ->
  WInv (put_place (finish_task (put_wtask s (migrate_disable_switch c (w_task s)))) POff (w_prog s)).
Proof.
  intros HI Hp. pose proof (v_cpu _ _ HI) as Hc. unfold cpu_of in Hc. rewrite Hp in Hc.
  destruct (on_cpu (w_task s)) eqn:Ho; [|discriminate]. injection Hc as Hc.
  pose proof (masks_out hp _ (v_masks _ _ HI)) as Hm. rewrite <- Hc in Hm.
  assert (let p := migrate_disable_switch c (w_task s) in on_rq p = on_rq (w_task s) /\ state p = state (w_task s) /\ task_cpu p = task_cpu (w_task s)) as (E1 & E2 & E3).
  { unfold migrate_disable_switch. destruct (is_migration_disabled _); cbn; [destruct (cpus_ptr_ _)|]; cbn; auto. }
  destruct HI. framed; rewrite ?E1, ?E2, ?E3, ?Hp in *; auto; try discriminate.
  - split; [discriminate | intros E; apply v_new in E; discriminate].
  - intros k Hk. specialize (v_holder k Hk) as [[Hk1 _] Hpc]. split; [split; [exact Hk1 | discriminate]|]. cbn. rewrite E1, E3, Hp in *.
    destruct (k_pc k); intuition discriminate.
  - eapply Forall_impl; [exact v_waiting|]. intros k ((? & _) & ?). split; [split; [assumption | discriminate] | assumption].
Qed.

Lemma inv_pick s : WInv s -> on_rq (w_task s) = TASK_ON_RQ_QUEUED -> cpu_of s <> Some (task_cpu (w_task s)) -> no_call_on (task_cpu (w_task s)) s = true ->
  WInv (fault_if (bool_decide (is_Some (cpu_of s))) FRunsTwice (put_place (prepare_task s) (POn (task_cpu (w_task s))) (w_prog s))).
Proof.
  intros HI Hq Hc Hn. pose proof (v_cpu _ _ HI) as Hcpu. destruct (on_cpu (w_task s)) eqn:Ho; [contradiction|].
  rewrite Hcpu, bool_decide_false by (intros [? ?]; discriminate). cbn [fault_if]. unfold no_call_on in Hn. apply andb_true_iff in Hn as [Hn1 Hn2].
  assert (w_place s <> PNew) as Hp by (intros E; rewrite (v_new_rq _ _ HI E) in Hq; discriminate).
  assert (forall k, negb (k_cpu k =? task_cpu (w_task s))%nat = true -> Some (task_cpu (w_task s)) <> Some (k_cpu k)) as Hne.
  { intros k Hk [= E]. apply negb_true_iff, Nat.eqb_neq in Hk. auto. }
  pose proof (masks_in hp _ (v_masks _ _ HI)) as Hm. pose proof (placed_place s HI Hp) as Hnew.
  pose proof HI as HI0. destruct HI. framed; rewrite ?Hq in *; auto; try discriminate.
  - split; [discriminate | intros E; destruct (Hnew E)].
  - intros k Hk. rewrite Hk in Hn2. pose proof (off_placing s k HI0 Hq Hk) as Hpl. specialize (v_holder k Hk) as [[Hk1 _] Hpc].
    split; [split; [exact Hk1 | exact (Hne k Hn2)]|]. cbn. rewrite Hq in *. destruct (k_pc k); cbn in *; intuition discriminate.
  - apply Forall_forall. intros k Hk. pose proof (proj1 (Forall_forall _ _) v_waiting k Hk) as ((? & _) & ?).
    split; [split; [assumption|] | assumption]. apply Hne. rewrite forallb_forall in Hn1. apply Hn1, list_elem_of_In, Hk.
Qed.

Lemma inv_detach s d : WInv s -> on_rq (w_task s) = TASK_ON_RQ_QUEUED -> on_cpu (w_task s) = false -> is_migration_disabled (w_task s) = false ->
  is_cpu_allowed hp (w_task s) d = true ->
  WInv (let '(p, warn) := set_task_cpu hp (deactivate_migrating (w_task s)) d in fault_if warn FSetTaskCpu (put_wtask s p)).
Proof.
  intros HI Hq Ho Hd Ha. destruct (allowed_online hp _ d Ha) as [_ Hon]. pose proof (fun n => masks_moved hp _ d n (v_masks _ _ HI) Hd Hon) as Hm.
  assert (waking s = false) as Hw by (apply queued_waking; [exact HI | rewrite Hq; discriminate]).
  unfold set_task_cpu. cbn [fst snd]. change (is_migration_disabled (deactivate_migrating (w_task s))) with (is_migration_disabled (w_task s)).
  rewrite Hd, (bool_decide_true _ Hon), !bool_decide_false by (intros [? ?]; discriminate). rewrite andb_false_r. cbn [negb orb fault_if].
  pose proof (not_waking_list _ Hw) as Hl. pose proof HI as HI0. destruct HI. framed; rewrite ?Hl, ?Ho, ?Hq in *; auto; try discriminate.
  - exact (Hm _).
  - intros E. apply v_new_rq in E. discriminate.
  - intros k Hk. pose proof (off_placing s k HI0 Hq Hk) as Hpl. specialize (v_holder k Hk) as [Hk1 Hpc]. split; [exact Hk1|]. cbn. rewrite Ho, Hq, Hl in *.
    destruct (k_pc k); cbn in *; intuition discriminate.
Qed.

Lemma inv_attach s : WInv s -> on_rq (w_task s) = TASK_ON_RQ_MIGRATING -> WInv (activate_on (task_cpu (w_task s)) s).
Proof.
  intros HI Hq. unfold activate_on. rewrite Hq, !bool_decide_false by (discriminate || auto). cbn [fault_if].
  assert (waking s = false) as Hw by (apply queued_waking; [exact HI | rewrite Hq; discriminate]).
  destruct HI. framed; rewrite ?Hq in *; auto; try discriminate.
  - intros E. apply v_new_rq in E. discriminate.
  - intros k Hk. specialize (v_holder k Hk) as [Hk1 Hpc]. split; [exact Hk1|]. cbn. rewrite Hq in *. destruct (k_pc k); intuition discriminate.
Qed.

(** * All steps *)

Lemma runs_at s : on_its_cpu s = true -> exists c, runs_on s = Some c.
Proof. unfold on_its_cpu. rewrite bool_decide_eq_true. intros [c Hc]. eauto. Qed.

Lemma queued_at s : task_on_rq_queued (w_task s) = true -> on_rq (w_task s) = TASK_ON_RQ_QUEUED.
Proof. apply bool_decide_eq_true. Qed.

Hypothesis Hloop : is_special_task_state loop_state = false /\ meets loop_state inner_states = false.

Theorem wstep_keeps l s : WInv s -> all_keep (step l s).
Proof.
  intros HI r. pose proof Hloop as [_ Hl]. apply meets_inner in Hl as [Hl1 Hl2]. destruct l as [cpu mask|cpu mask|i|idle cls nm| |mask cond|cls nm|v| | | |v| |b|preempt sig frozen| | | |d|]; cbn [wstep].
  - apply keeps_when. intros Hb. apply inv_join; assumption.
  - apply keeps_when. intros Hb. apply andb_true_iff in Hb as [Hb _]. apply inv_join; [apply inv_cond, HI | exact Hb].
  - destruct (w_holder s) eqn:Eh; [discriminate|]. destruct (w_waiting s !! i) as [k|] eqn:Ei; [|discriminate]. intros [= <-].
    apply returns_ok, inv_lock; assumption.
  - destruct (w_holder s) as [k|] eqn:Eh; [|discriminate]. apply next_keeps; assumption.
  - destruct (w_list s) as [c|] eqn:Ec; [|discriminate]. apply keeps_when. intros Hb. apply andb_true_iff in Hb as [Hb _].
    apply inv_ipi; [exact HI | exact Ec|]. intros c' Hp ->. rewrite Hp, Nat.eqb_refl in Hb. discriminate.
  - apply keeps_when. intros Hb. apply andb_true_iff in Hb as [Hb _]. apply andb_true_iff in Hb as [Hb _]. apply runs_at in Hb as [c Hc].
    destruct cond; apply (inv_current _ c); auto. apply inv_cond, HI.
  - destruct (w_place s) eqn:Ep; try discriminate. destruct (w_holder s) eqn:Eh; [discriminate|]. intros [= <-]. apply inv_new; assumption.
  - apply keeps_when. rewrite !andb_true_iff, !negb_true_iff. intros (((Hr & _) & Hv) & _). apply runs_at in Hr as [c Hc].
    apply meets_inner in Hv as [Hv1 Hv2]. apply (inv_own _ c); assumption.
  - apply keeps_when. intros Hb. apply andb_true_iff in Hb as [Hr _]. apply runs_at in Hr as [c Hc]. apply (inv_own _ c); assumption.
  - apply keeps_when. intros _. apply inv_place, HI.
  - apply keeps_when. intros Hb. apply andb_true_iff in Hb as [Hr _]. apply runs_at in Hr as [c Hc]. apply (inv_own _ c); auto; discriminate.
  - apply keeps_when. rewrite !andb_true_iff, !negb_true_iff. intros ((((Hr & _) & _) & Hv) & _). apply runs_at in Hr as [c Hc].
    apply meets_inner in Hv as [Hv1 Hv2]. apply (inv_own _ c); assumption.
  - apply keeps_when. intros _. apply inv_cond, HI.
  - apply keeps_when. intros _. destruct HI. framed.
  - destruct (runs_on s) as [c|] eqn:Ec; [|discriminate]. apply keeps_when. intros _. apply inv_schedule; assumption.
  - destruct (w_place s) eqn:Ep; try discriminate. apply keeps_when. intros Hq. apply inv_again; auto. apply queued_at, Hq.
  - destruct (w_place s) eqn:Ep; try discriminate. intros [= <-]. apply returns_ok, inv_finish; assumption.
  - apply keeps_when. rewrite !andb_true_iff, negb_true_iff, bool_decide_eq_false. intros ((Hq & Hc) & Hn). apply inv_pick; auto. apply queued_at, Hq.
  - intros Hr. assert (all_keep (when (task_on_rq_queued (w_task s) && negb (on_cpu (w_task s)) && negb (is_migration_disabled (w_task s)) && is_cpu_allowed hp (w_task s) d)
      (Ok (let '(p, warn) := set_task_cpu hp (deactivate_migrating (w_task s)) d in fault_if warn FSetTaskCpu (put_wtask s p))))) as Hk.
    { apply keeps_when. rewrite !andb_true_iff, !negb_true_iff. intros (((Hq & Ho) & Hd) & Ha). apply inv_detach; auto. apply queued_at, Hq. }
    apply Hk. rewrite <- Hr. reflexivity.
  - apply keeps_when. intros Hq. apply bool_decide_eq_true in Hq. apply inv_attach; assumption.
Qed.

Lemma run_keeps s s' : WInv s -> wrun hp cpuset_fallback llc feature pending loop_state s s' -> WInv s'.
Proof.
  intros HI Hr. induction Hr as [|l s1 s2 Hr IH Hs]; [exact HI|]. pose proof (wstep_keeps l s1 IH _ Hs) as (s' & E & HI'). congruence.
Qed.
End Keeps.
