(* ===== verification/WakeCount.v ===== *)
(** The counts of blocked tasks that [Wakeup] keeps: [nr_uninterruptible] adds up over the
    run queues, [nr_iowait] is right on each of them. *)

From S2P Require Import Prelude KHeaders Affinity AffineSafe TaskStates Wakeup WakeInv WakeKeeps.
Local Open Scope Z_scope.

(** The sum over all run queues. *)
Definition rq_sum (m : gmap nat Z) : Z := map_fold (fun _ n a => n + a) 0 m.

Lemma rq_sum_insert m c n : m !! c = None -> rq_sum (<[c := n]> m) = n + rq_sum m.
Proof. intros Hc. unfold rq_sum. rewrite map_fold_insert_L; [reflexivity | intros; lia | exact Hc]. Qed.

Lemma rq_sum_add m c d : rq_sum (pinned_add m c d) = rq_sum m + d.
Proof.
  unfold pinned_add. destruct (m !! c) as [n|] eqn:E; cbn [default].
  - assert (rq_sum m = n + rq_sum (delete c m)) as ->.
    { rewrite <- (insert_delete_id m c n E) at 1. apply rq_sum_insert, lookup_delete_eq. }
    rewrite <- (insert_delete_eq m c), rq_sum_insert by apply lookup_delete_eq. unfold id. lia.
  - rewrite rq_sum_insert by exact E. lia.
Qed.

Lemma pinned_at m c d c' : default 0 (pinned_add m c d !! c') = default 0 (m !! c') + if decide (c = c') then d else 0.
Proof.
  unfold pinned_add. destruct (decide (c = c')) as [<-|Hne]; [rewrite lookup_insert_eq; reflexivity|].
  rewrite lookup_insert_ne by exact Hne. lia.
Qed.

(** The task is dequeued, and was run before. *)
Definition blocked (s : wsys) : bool := bool_decide (on_rq (w_task s) = NOT_ON_RQ) && match w_place s with PNew => false | _ => true end.

(** The waker has moved it to another CPU. *)
Definition moving_pc (pc : ttwu_pc) : bool := match pc with KQueue _ migrated => migrated | _ => false end.
Definition moved_away (s : wsys) : bool := (listed s && w_remote s) || holds_at moving_pc s.

Definition io_on (s : wsys) (c : nat) : Z :=
  if blocked s && w_io s && negb (moved_away s) && bool_decide (task_cpu (w_task s) = c) then 1 else 0.

Record well_counted (s : wsys) : Prop := {
  c_load : rq_sum (nr_uninterruptible s) = if blocked s && w_load s then 1 else 0;
  c_io c : default 0 (nr_iowait s !! c) = io_on s c
}.

Section Count.
  Context `{CpumasksOk} (hp : hotplug) `{!Steady hp} (cpuset_fallback : atask -> option cpumask).
  Context (llc : nat -> nat) (feature : bool) {signals : Type} (pending : Z -> signals -> bool) (loop_state : Z).

#[local] Abbreviation step := (wstep hp cpuset_fallback llc feature pending loop_state).
#[local] Abbreviation next := (ttwu_next hp cpuset_fallback llc feature).
#[local] Abbreviation WInv := (WInv hp).

(** Nothing changes that counts. *)
Lemma counted_same s s' : well_counted s -> nr_uninterruptible s' = nr_uninterruptible s -> nr_iowait s' = nr_iowait s ->
  (blocked s = false /\ blocked s' = false \/
   blocked s' = blocked s /\ w_load s' = w_load s /\ w_io s' = w_io s /\ moved_away s' = moved_away s /\ task_cpu (w_task s') = task_cpu (w_task s)) -> well_counted s'.
Proof.
  intros [H1 H2] E1 E2 Hb. split; unfold io_on in *; rewrite ?E1, ?E2.
  - rewrite H1. destruct Hb as [[-> ->]|(-> & -> & _)]; reflexivity.
  - intros c. rewrite (H2 c). destruct Hb as [[-> ->]|(-> & _ & -> & -> & ->)]; reflexivity.
Qed.

Lemma running_blocked s c : WInv s -> runs_on s = Some c -> blocked s = false.
Proof. intros HI Hr. destruct (running_facts hp s c HI Hr) as (_ & _ & _ & Hq & _). unfold blocked. rewrite Hq. reflexivity. Qed.

Lemma waking_blocked s : WInv s -> waking s = true -> blocked s = true.
Proof.
  intros HI Hw. unfold blocked. rewrite bool_decide_true by exact (v_waking_rq _ _ HI Hw). apply (v_waking _ _ HI) in Hw.
  pose proof (proj1 (v_new _ _ HI)) as Hn. destruct (w_place s); try reflexivity. rewrite (Hn eq_refl) in Hw. discriminate.
Qed.

(** It goes to sleep. *)
Lemma counted_schedule s c preempt sig frozen pr : WInv s -> well_counted s -> runs_on s = Some c ->
  well_counted (put_place (schedule_sleep pending c preempt sig frozen s) (PLeaving c) pr).
Proof.
  intros HI HC Hr. destruct (running_facts hp s c HI Hr) as (Hp & _ & Hc & Hq & Hw). pose proof (running_blocked s c HI Hr) as Hb.
  unfold schedule_sleep. destruct (negb preempt && _); [|apply (counted_same s); auto; left; split; [auto | unfold blocked; cbn; rewrite Hq; reflexivity]].
  destruct (pending _ _); [apply (counted_same s); auto; left; split; [auto | unfold blocked; cbn; rewrite Hq; reflexivity]|].
  set (load := _ && _ && _). clearbody load. destruct HC as [H1 H2].
  assert (moved_away s = false) as Hm.
  { unfold moved_away. unfold waking in Hw. apply orb_false_iff in Hw as [-> Hw]. unfold holds_at in *.
    destruct (w_holder s) as [k|]; [|reflexivity]. destruct (k_pc k); [reflexivity .. | discriminate | reflexivity]. }
  rewrite Hb in H1. assert (forall c', default 0 (nr_iowait s !! c') = 0) as Hz by (intros c'; rewrite H2; unfold io_on; rewrite Hb; reflexivity).
  split.
  - cbn. destruct load; [rewrite rq_sum_add, H1; reflexivity | exact H1].
  - intros c'. unfold io_on. change (moved_away (put_place _ _ _)) with (moved_away s). rewrite Hm. cbn.
    destruct (w_io s); cbn; [|apply Hz]. rewrite pinned_at, Hz. destruct (decide (c = c')) as [E|E].
    + rewrite bool_decide_true by congruence. reflexivity.
    + rewrite bool_decide_false by congruence. reflexivity.
Qed.

Lemma activate_counts cpu migrated s :
  nr_uninterruptible (ttwu_do_activate cpu migrated s) = (if w_load s then pinned_add (nr_uninterruptible s) cpu (-1) else nr_uninterruptible s) /\
  nr_iowait (ttwu_do_activate cpu migrated s) =
    if migrated then nr_iowait s else if w_io s then pinned_add (nr_iowait s) (task_cpu (w_task s)) (-1) else nr_iowait s.
Proof.
  unfold ttwu_do_activate, activate_on. split; cbn.
  - destruct migrated; reflexivity.
  - destruct migrated; reflexivity.
Qed.

(** The one who places the task puts it on its queue. *)
Lemma counted_activate s s' : WInv s -> well_counted s -> waking s = true ->
  s' = ttwu_do_activate (task_cpu (w_task s)) (moved_away s) s -> forall s2, nr_uninterruptible s2 = nr_uninterruptible s' -> nr_iowait s2 = nr_iowait s' ->
  on_rq (w_task s2) = TASK_ON_RQ_QUEUED -> well_counted s2.
Proof.
  intros HI [H1 H2] Hw -> s2 E1 E2 Hq. pose proof (waking_blocked s HI Hw) as Hb.
  assert (blocked s2 = false) as Hb2 by (unfold blocked; rewrite Hq; reflexivity). split; unfold io_on in *; rewrite ?Hb2; cbn [andb].
  - rewrite E1, (proj1 (activate_counts _ _ _)). rewrite Hb in H1. destruct (w_load s); [rewrite rq_sum_add, H1; reflexivity | exact H1].
  - intros c. rewrite E2, (proj2 (activate_counts _ _ _)). specialize (H2 c). rewrite Hb in H2. destruct (moved_away s); cbn in H2.
    + rewrite H2, andb_false_r. reflexivity.
    + rewrite andb_true_r in H2. destruct (w_io s); [|exact H2]. rewrite pinned_at, H2. cbn. destruct (decide (task_cpu (w_task s) = c)) as [E|E].
      * rewrite bool_decide_true by exact E. reflexivity.
      * rewrite bool_decide_false by exact E. reflexivity.
Qed.

Lemma holder_unlisted s k : WInv s -> w_holder s = Some k -> placing (k_pc k) = true -> w_list s = None.
Proof.
  intros HI Hh Hp. destruct (w_list s) as [c|] eqn:E; [|reflexivity]. destruct (v_list _ _ HI c E) as (_ & _ & Hx).
  unfold holds_at in Hx. rewrite Hh, Hp in Hx. discriminate.
Qed.

Lemma moved_by s k : WInv s -> w_holder s = Some k -> placing (k_pc k) = true -> moved_away s = moving_pc (k_pc k).
Proof. intros HI Hh Hp. unfold moved_away, listed, holds_at. rewrite (holder_unlisted s k HI Hh Hp), Hh. reflexivity. Qed.

Lemma waking_by s k : w_holder s = Some k -> placing (k_pc k) = true -> waking s = true.
Proof. intros Hh Hp. unfold waking, holds_at. rewrite Hh, Hp. apply orb_true_r. Qed.

(** The holder goes on between places that count the same. *)
Lemma counted_goto s k pc b : well_counted s -> w_holder s = Some k -> moving_pc pc = moving_pc (k_pc k) ->
  well_counted (put_calls s (w_waiting s) (Some (mkWaker (k_mask k) (k_cpu k) pc b)) (w_returned s)).
Proof.
  intros HC Hh Hp. apply (counted_same s); auto. right. repeat split; auto. unfold moved_away, listed, holds_at. cbn. rewrite Hh, Hp. reflexivity.
Qed.

Lemma counted_listed s k cpu : WInv s -> well_counted s -> w_holder s = Some k -> placing (k_pc k) = true ->
  well_counted (put_calls (__ttwu_queue_wakelist cpu (moving_pc (k_pc k)) s) (w_waiting s) (Some (goto k KUnlock)) (w_returned s)).
Proof.
  intros HI HC Hh Hp. pose proof (moved_by s k HI Hh Hp) as Hm. unfold __ttwu_queue_wakelist. rewrite (holder_unlisted s k HI Hh Hp).
  apply (counted_same s); auto. right. repeat split; auto. rewrite Hm. apply orb_false_r.
Qed.

(** The waker takes it away from its CPU. *)
Lemma counted_away s s' : well_counted s -> blocked s = true -> moved_away s = false -> nr_uninterruptible s' = nr_uninterruptible s ->
  nr_iowait s' = (if w_io s then pinned_add (nr_iowait s) (task_cpu (w_task s)) (-1) else nr_iowait s) ->
  blocked s' = true -> w_load s' = w_load s -> moved_away s' = true -> well_counted s'.
Proof.
  intros [H1 H2] Hb Hm E1 E2 E3 E4 E5. split.
  - rewrite E1, E3, E4, H1, Hb. reflexivity.
  - intros c. unfold io_on. rewrite E2, E5, andb_false_r. specialize (H2 c). unfold io_on in H2. rewrite Hb, Hm in H2. cbn in H2.
    rewrite andb_true_r in H2. destruct (w_io s); [|exact H2]. rewrite pinned_at, H2. cbn. destruct (decide (task_cpu (w_task s) = c)) as [E|E].
    + rewrite bool_decide_true by exact E. reflexivity.
    + rewrite bool_decide_false by exact E. reflexivity.
Qed.

Lemma counted_select s s' pc k cls nm : WInv s -> well_counted s -> w_holder s = Some k -> k_pc k = KSelect ->
  ttwu_select hp cpuset_fallback cls nm s = Ok (s', pc) -> well_counted (put_calls s' (w_waiting s') (Some (goto k pc)) (w_returned s')).
Proof.
  intros HI HC Hh Hpc. pose proof (v_holder _ _ HI k Hh) as [_ Hpl]. rewrite Hpc in Hpl. destruct Hpl as (Hl & Ho).
  destruct (masks_allowed hp _ (v_masks _ _ HI) Ho) as [c0 Hc0].
  destruct (select_allowed hp cpuset_fallback cls nm _ c0 Hc0) as (c & Es & _). unfold ttwu_select. rewrite Es.
  cbn [mbind res_bind]. replace (put_wtask s (w_task s)) with s by (destruct s; reflexivity).
  destruct (bool_decide_reflect (task_cpu (w_task s) = c)) as [E|E].
  - intros [= <- <-]. apply counted_goto; auto. rewrite Hpc. reflexivity.
  - assert (waking s = true) as Hw by (apply (waking_by s k Hh); rewrite Hpc; reflexivity). pose proof (waking_blocked s HI Hw) as Hb.
    pose proof (moved_by s k HI Hh ltac:(rewrite Hpc; reflexivity)) as Hm. rewrite Hpc in Hm. cbn in Hm.
    destruct (set_task_cpu hp (w_task s) c) as [p warn] eqn:Ec. unfold set_task_cpu in Ec. injection Ec as Ep _. intros [= <- <-].
    assert (on_rq p = on_rq (w_task s)) as Hq by (rewrite <- Ep; reflexivity).
    apply (counted_away s); auto; destruct warn; try reflexivity; try (unfold moved_away, holds_at; cbn; apply orb_true_r);
      unfold blocked in *; cbn; rewrite Hq; exact Hb.
Qed.

Lemma counted_next s s' k idle cls nm : WInv s -> well_counted s -> w_holder s = Some k -> next k idle cls nm s = Some (Ok s') -> well_counted s'.
Proof.
  intros HI HC Hh. pose proof (v_holder _ _ HI k Hh) as [_ Hpl]. unfold ttwu_next.
  destruct (k_pc k) as [| | | | | | |cpu migrated|] eqn:Hpc.
  - destruct (meets _ _); intros [= <-]; apply counted_goto; rewrite ?Hpc; auto.
  - destruct (bool_decide _); intros [= <-]; apply counted_goto; rewrite ?Hpc; auto.
  - unfold ttwu_runnable. destruct (on_rq (w_task s)) eqn:Eq; [| |discriminate]; intros [= <-].
    + apply counted_goto; rewrite ?Hpc; auto.
    + apply (counted_same s); auto. left. unfold blocked. cbn. rewrite Eq. auto.
  - intros [= <-]. apply (counted_same s); auto. right. repeat split; auto. unfold moved_away, holds_at. cbn. rewrite Hh, Hpc. reflexivity.
  - unfold ttwu_queue_wakelist. destruct (on_cpu (w_task s)); [destruct (feature && _)|]; intros [= <-];
      [|apply counted_goto; rewrite ?Hpc; auto ..]. pose proof (counted_listed s k (task_cpu (w_task s)) HI HC Hh) as Hc. rewrite Hpc in Hc.
    unfold __ttwu_queue_wakelist in *. rewrite Hpl in *. exact (Hc eq_refl).
  - destruct (on_cpu (w_task s)); [discriminate|]. intros [= <-]. apply counted_goto; rewrite ?Hpc; auto.
  - destruct (ttwu_select hp cpuset_fallback cls nm s) as [[s1 pc]| | |] eqn:Es; try discriminate. intros [= <-].
    exact (counted_select s s1 pc k cls nm HI HC Hh Hpc Es).
  - destruct Hpl as (Hl & _ & <-). intros [= <-]. unfold ttwu_queue, ttwu_queue_wakelist. destruct (feature && _).
    + pose proof (counted_listed s k (task_cpu (w_task s)) HI HC Hh) as Hc. rewrite Hpc in Hc. unfold __ttwu_queue_wakelist in *. rewrite Hl in *. exact (Hc eq_refl).
    + assert (placing (k_pc k) = true) as Hp by (rewrite Hpc; reflexivity). pose proof (moved_by s k HI Hh Hp) as Hm. rewrite Hpc in Hm. cbn in Hm.
      pose proof (waking_by s k Hh Hp) as Hw. apply (counted_activate s _ HI HC Hw eq_refl); rewrite ?Hm; destruct migrated; reflexivity.
  - intros [= <-]. apply (counted_same s); auto. right. repeat split; auto. unfold moved_away, holds_at. cbn. rewrite Hh, Hpc. reflexivity.
Qed.

Lemma when_ok b s s' : when b (Ok s) = Some (Ok s') -> b = true /\ s' = s.
Proof. unfold when. destruct b; [|discriminate]. intros [= <-]. auto. Qed.

Hypothesis Hloop : is_special_task_state loop_state = false /\ meets loop_state inner_states = false.

Lemma placed_blocked s pl pr : w_place s <> PNew -> pl <> PNew -> blocked (put_place s pl pr) = blocked s.
Proof. unfold blocked. cbn. destruct (w_place s), pl; try contradiction; reflexivity. Qed.

Lemma counted_ipi s c : WInv s -> well_counted s -> w_list s = Some c -> (forall c', w_place s = PLeaving c' -> c <> c') -> well_counted (sched_ttwu_pending hp c s).
Proof.
  intros HI HC Hl Hpl. destruct (v_list _ _ HI c Hl) as (Hc & _ & Hh). assert (waking s = true) as Hw by (unfold waking, listed; rewrite Hl; reflexivity).
  pose proof (inv_ipi hp s c HI Hl Hpl) as HI'. unfold sched_ttwu_pending in *. revert HI'. cbn [put_list w_task].
  destruct (on_cpu (w_task s)); [intros HI'; pose proof (v_faults _ _ HI') as Hx; discriminate Hx|]. rewrite (bool_decide_true _ Hc).
  set (s1 := put_list _ None _ _). intros HI'.
  assert (moved_away s = w_remote s1) as Hm.
  { unfold moved_away, listed. rewrite Hl. unfold holds_at in *. destruct (w_holder s) as [k|]; [|apply orb_false_r].
    destruct (k_pc k); try discriminate; apply orb_false_r. }
  destruct (activate_counts c (w_remote s1) s1) as [E1 E2]. apply (counted_activate s _ HI HC Hw eq_refl).
  - rewrite E1, (proj1 (activate_counts _ _ _)), Hc. reflexivity.
  - rewrite E2, (proj2 (activate_counts _ _ _)), Hm. reflexivity.
  - destruct (activated s1 (w_remote s1) (v_faults _ _ HI) ltac:(cbn; rewrite (v_waking_rq _ _ HI Hw); discriminate) _ eq_refl) as (_ & E & _).
    change (task_cpu (w_task s1)) with (task_cpu (w_task s)) in E. rewrite Hc in E. rewrite E. reflexivity.
Qed.

Lemma counted_idle s s' : well_counted s -> blocked s = false -> blocked s' = false -> nr_uninterruptible s' = nr_uninterruptible s -> nr_iowait s' = nr_iowait s -> well_counted s'.
Proof. intros HC H1 H2 E1 E2. apply (counted_same s); auto. Qed.

#[local] Ltac counted_idle Hb := eapply counted_idle; [eassumption | exact Hb | exact Hb | reflexivity | reflexivity].

Lemma counted_frame s s' : well_counted s -> nr_uninterruptible s' = nr_uninterruptible s -> nr_iowait s' = nr_iowait s -> blocked s' = blocked s ->
  w_load s' = w_load s -> w_io s' = w_io s -> moved_away s' = moved_away s -> task_cpu (w_task s') = task_cpu (w_task s) -> well_counted s'.
Proof. intros HC E1 E2 E3 E4 E5 E6 E7. apply (counted_same s); auto 10. Qed.

Lemma activate_blocked cpu s : blocked (activate_on cpu s) = false /\
  nr_uninterruptible (activate_on cpu s) = nr_uninterruptible s /\ nr_iowait (activate_on cpu s) = nr_iowait s.
Proof. auto. Qed.

Lemma counted_current s mask : well_counted s -> blocked s = false -> well_counted (ttwu_current mask s).
Proof. intros HC Hb. unfold ttwu_current. destruct (meets (w_state s) mask); counted_idle Hb. Qed.

Theorem step_counts l s s' : WInv s -> well_counted s -> step l s = Some (Ok s') -> well_counted s'.
Proof.
  intros HI HC. assert (forall c, runs_on s = Some c -> blocked s = false) as Hrun by (intros c; exact (running_blocked s c HI)).
  assert (on_its_cpu s = true -> blocked s = false) as Hits by (intros Hr; apply runs_at in Hr as [c Hc]; exact (Hrun c Hc)).
  destruct l as [cpu mask|cpu mask|i|idle cls nm| |mask cond|cls nm|v| | | |v| |b|preempt sig frozen| | | |d|]; cbn [wstep].
  - intros Hs. apply when_ok in Hs as [_ ->]. apply (counted_frame s); auto.
  - intros Hs. apply when_ok in Hs as [_ ->]. apply (counted_frame s); auto.
  - destruct (w_holder s) eqn:Eh; [discriminate|]. destruct (w_waiting s !! i) as [k|] eqn:Ei; [|discriminate]. intros [= <-].
    apply (counted_frame s); auto. unfold moved_away, holds_at. cbn. rewrite Eh.
    pose proof (proj1 (Forall_lookup _ _) (v_waiting _ _ HI) i k Ei) as (_ & Hpc & _). rewrite Hpc. reflexivity.
  - destruct (w_holder s) as [k|] eqn:Eh; [|discriminate]. apply counted_next; assumption.
  - destruct (w_list s) as [c|] eqn:Ec; [|discriminate]. intros Hs. apply when_ok in Hs as [Hb ->]. apply andb_true_iff in Hb as [Hb _].
    apply counted_ipi; auto. intros c' Hp ->. rewrite Hp, Nat.eqb_refl in Hb. discriminate.
  - intros Hs. apply when_ok in Hs as [Hb ->]. apply andb_true_iff in Hb as [Hb _]. apply andb_true_iff in Hb as [Hb _]. 
    assert (well_counted (put_cond s true)) by (counted_idle (Hits Hb)).
    destruct cond; apply counted_current; auto; exact (Hits Hb).
  - destruct (w_place s) eqn:Ep; try discriminate. destruct (w_holder s) eqn:Eh; [discriminate|]. unfold wake_up_new_task.
    destruct (select_task_rq _ _ _ _ _) as [[c p]| | |]; try discriminate. intros [= <-].
    eapply counted_idle; [exact HC | unfold blocked; rewrite Ep; apply andb_false_r | exact (proj1 (activate_blocked _ _)) |
      exact (proj1 (proj2 (activate_blocked _ _))) | exact (proj2 (proj2 (activate_blocked _ _)))].
  - intros Hs. apply when_ok in Hs as [Hb ->]. rewrite !andb_true_iff in Hb. destruct Hb as (((Hb & _) & _) & _). counted_idle (Hits Hb).
  - intros Hs. apply when_ok in Hs as [Hb ->]. rewrite !andb_true_iff in Hb. destruct Hb as (Hb & _). counted_idle (Hits Hb).
  - intros Hs. apply when_ok in Hs as [Hb ->]. apply (counted_frame s); auto.
  - intros Hs. apply when_ok in Hs as [Hb ->]. rewrite !andb_true_iff in Hb. destruct Hb as (Hb & _). counted_idle (Hits Hb).
  - intros Hs. apply when_ok in Hs as [Hb ->]. rewrite !andb_true_iff in Hb. destruct Hb as ((((Hb & _) & _) & _) & _). counted_idle (Hits Hb).
  - intros Hs. apply when_ok in Hs as [Hb ->]. apply (counted_frame s); auto.
  - intros Hs. apply when_ok in Hs as [Hb ->]. rewrite !andb_true_iff in Hb. destruct Hb as (Hb & _). counted_idle (Hits Hb).
  - destruct (runs_on s) as [c|] eqn:Ec; [|discriminate]. intros Hs. apply when_ok in Hs as [_ ->]. apply counted_schedule; assumption.
  - destruct (w_place s) eqn:Ep; try discriminate. intros Hs. apply when_ok in Hs as [_ ->].
    apply (counted_frame s); auto. apply placed_blocked; [rewrite Ep|]; discriminate.
  - destruct (w_place s) eqn:Ep; try discriminate. intros [= <-].
    assert (on_rq (migrate_disable_switch cpu (w_task s)) = on_rq (w_task s) /\ task_cpu (migrate_disable_switch cpu (w_task s)) = task_cpu (w_task s)) as [E1 E2]
      by (unfold migrate_disable_switch; destruct (is_migration_disabled _); cbn; [destruct (cpus_ptr_ _)|]; auto).
    apply (counted_frame s); auto. unfold blocked. cbn. rewrite E1, Ep. reflexivity.
  - intros Hs. apply when_ok in Hs as [Hb ->]. rewrite !andb_true_iff in Hb. destruct Hb as ((Hq & _) & _). apply queued_at in Hq.
    eapply counted_idle; [exact HC | unfold blocked; rewrite Hq; reflexivity | unfold blocked; cbn; rewrite Hq; reflexivity | reflexivity | reflexivity].
  - destruct (_ && _) eqn:Hb; [|discriminate]. rewrite !andb_true_iff in Hb. destruct Hb as (((Hq & _) & _) & _). apply queued_at in Hq.
    unfold set_task_cpu. intros [= <-].
    eapply counted_idle; [exact HC | unfold blocked; rewrite Hq; reflexivity | reflexivity | reflexivity | reflexivity].
  - intros Hs. apply when_ok in Hs as [Hb ->]. apply bool_decide_eq_true in Hb.
    eapply counted_idle; [exact HC | unfold blocked; rewrite Hb; reflexivity | exact (proj1 (activate_blocked _ _)) |
      exact (proj1 (proj2 (activate_blocked _ _))) | exact (proj2 (proj2 (activate_blocked _ _)))].
Qed.

Lemma run_counts s s' : WInv s -> well_counted s -> wrun hp cpuset_fallback llc feature pending loop_state s s' -> WInv s' /\ well_counted s'.
Proof.
  intros HI HC Hr. induction Hr as [|l s1 s2 Hr [HI' HC'] Hs]; [auto|].
  destruct (wstep_keeps hp cpuset_fallback llc feature pending loop_state Hloop l s1 HI' _ Hs) as (s' & E & HI2). injection E as ->.
  split; [exact HI2 | exact (step_counts l s1 s' HI' HC' Hs)].
Qed.
End Count.
