(* ===== verification/WakeLoop.v ===== *)
(** No wake-up of a wait loop is lost: the invariant that says so, for the machine of
    [Wakeup]. *)

From S2P Require Import Prelude KHeaders Affinity AffineSafe TaskStates Wakeup WakeInv WakeKeeps WakeCount.
Local Open Scope Z_scope.

Section Loop.
  Context `{CpumasksOk} (hp : hotplug) `{!Steady hp} (cpuset_fallback : atask -> option cpumask).
  Context (llc : nat -> nat) (feature : bool) {signals : Type} (pending : Z -> signals -> bool) (loop_state : Z).
  Hypothesis Hloop : is_special_task_state loop_state = false /\ meets loop_state inner_states = false.

#[local] Abbreviation step := (wstep hp cpuset_fallback llc feature pending loop_state).
#[local] Abbreviation next := (ttwu_next hp cpuset_fallback llc feature).
#[local] Abbreviation WInv := (WInv hp).

(** A caller that will see the state of the loop, if the task is still in it. *)
Definition before_store (pc : ttwu_pc) : bool := match pc with KMatch | KOnRq | KRunnable | KClaim => true | _ => false end.
Definition will_wake (k : waker) : Prop := meets loop_state (k_mask k) = true /\ before_store (k_pc k) = true.
Definition wake_pending (s : wsys) : Prop := Exists will_wake (w_waiting s) \/ exists k, w_holder s = Some k /\ will_wake k.

(** The task will not sleep, or will not sleep on. *)
Definition stays_awake (s : wsys) : Prop :=
  match w_prog s with
  | PTested => w_state s = TASK_RUNNING
  | PBack => on_rq (w_task s) <> NOT_ON_RQ \/ waking s = true
  | _ => True
  end.

Definition before_sleep (pr : wprog) : bool := match pr with PSet | PTested | PFound | PSpecial => true | _ => false end.

Record looped (s : wsys) : Prop := {
  l_rq : before_sleep (w_prog s) = true -> on_rq (w_task s) <> NOT_ON_RQ;
  l_set : w_prog s = PSet \/ w_prog s = PTested -> w_state s = loop_state \/ w_state s = TASK_RUNNING;
  l_back : w_prog s = PBack -> on_rq (w_task s) = NOT_ON_RQ -> w_state s = loop_state \/ w_state s = TASK_WAKING;
  l_cond : w_cond s = true -> stays_awake s \/ wake_pending s
}.

(** A step that leaves the task's program, state and queue alone. *)
Lemma looped_frame s s' : looped s -> w_prog s' = w_prog s -> w_state s' = w_state s -> on_rq (w_task s') = on_rq (w_task s) ->
  (w_cond s' = true -> w_cond s = true) -> (waking s = true -> waking s' = true) -> (wake_pending s -> wake_pending s' \/ stays_awake s') -> looped s'.
Proof.
  intros [L1 L2 L3 L4] E1 E2 E3 Hc Hw Hp. split; rewrite ?E1, ?E2, ?E3; auto. intros E. destruct (L4 (Hc E)) as [Hs|Hs]; [left|destruct (Hp Hs); auto].
  unfold stays_awake in *. rewrite E1, E2, E3. destruct (w_prog s); auto. destruct Hs; auto.
Qed.

(** The state of a queued task becomes [TASK_RUNNING]. *)
Lemma looped_running s s' : looped s -> w_prog s' = w_prog s -> w_state s' = TASK_RUNNING -> on_rq (w_task s') <> NOT_ON_RQ -> looped s'.
Proof.
  intros [L1 L2 L3 L4] E1 E2 E3. split; rewrite ?E1, ?E2; auto; [contradiction|]. intros _. left. unfold stays_awake. rewrite E1, E2. destruct (w_prog s); auto.
Qed.

(** It moves between queues. *)
Lemma looped_requeued s s' : looped s -> w_prog s' = w_prog s -> w_state s' = w_state s -> w_cond s' = w_cond s -> w_waiting s' = w_waiting s ->
  w_holder s' = w_holder s -> on_rq (w_task s') <> NOT_ON_RQ -> looped s'.
Proof.
  intros [L1 L2 L3 L4] E1 E2 E3 E4 E5 Hq. split; rewrite ?E1, ?E2, ?E3; auto; [contradiction|]. intros Hc.
  destruct (L4 Hc) as [Hs|Hs]; [left | right; unfold wake_pending in *; rewrite E4, E5; exact Hs].
  unfold stays_awake in *. rewrite E1, E2. destruct (w_prog s); auto.
Qed.

(** The task goes on in its program, outside the loop or before its test. *)
Lemma looped_own (s' : wsys) : w_prog s' = PAny \/ w_prog s' = PSet /\ w_state s' = loop_state \/ w_prog s' = PFound /\ w_cond s' = true \/ w_prog s' = PSpecial ->
  on_rq (w_task s') <> NOT_ON_RQ -> looped s'.
Proof.
  intros Hp Hq. split; auto.
  - destruct Hp as [E|[[E E2]|[[E _]|E]]]; rewrite E; intros [?|?]; try discriminate; auto.
  - contradiction.
  - intros _. left. unfold stays_awake. destruct Hp as [E|[[E _]|[[E _]|E]]]; rewrite E; exact I.
Qed.

Lemma waking_place (s s' : wsys) : w_list s' = w_list s -> w_holder s' = w_holder s -> waking s' = waking s.
Proof. intros E1 E2. unfold waking, listed, holds_at. rewrite E1, E2. reflexivity. Qed.

Lemma pending_same s s' : w_waiting s' = w_waiting s -> w_holder s' = w_holder s -> wake_pending s -> wake_pending s' \/ stays_awake s'.
Proof. intros E1 E2. unfold wake_pending. rewrite E1, E2. auto. Qed.

Lemma running_queued s c : WInv s -> runs_on s = Some c -> on_rq (w_task s) <> NOT_ON_RQ.
Proof. intros HI Hr. destruct (running_facts hp s c HI Hr) as (_ & _ & _ & Hq & _). rewrite Hq. discriminate. Qed.

(** * The holder *)

Lemma looped_goto s k pc b : looped s -> w_holder s = Some k -> (before_store pc = true \/ before_store (k_pc k) = false) ->
  (placing (k_pc k) = true -> placing pc = true) ->
  looped (put_calls s (w_waiting s) (Some (mkWaker (k_mask k) (k_cpu k) pc b)) (w_returned s)).
Proof.
  intros HL Hh Hb Hp. apply (looped_frame s); auto.
  - unfold waking, listed, holds_at. cbn. rewrite Hh. destruct (w_list s); auto.
  - intros [Hw|(k' & E & Hk & Hpc)]; left; [left; exact Hw|]. right. eexists. split; [reflexivity|]. rewrite Hh in E. injection E as <-.
    split; [exact Hk|]. destruct Hb as [Hb|Hb]; [exact Hb | congruence].
Qed.

(** It finds that the state does not match. *)
Lemma looped_fails s k : WInv s -> looped s -> w_holder s = Some k -> k_pc k = KMatch -> meets (w_state s) (k_mask k) = false ->
  looped (put_calls s (w_waiting s) (Some (goto k KUnlock)) (w_returned s)).
Proof.
  intros HI HL Hh Hpc Hm. apply (looped_frame s); auto.
  - unfold waking, listed, holds_at. cbn. rewrite Hh, Hpc. auto.
  - intros [Hw|(k' & E & Hk & _)]; [left; left; exact Hw|]. right. rewrite Hh in E. injection E as <-.
    assert (w_state s <> loop_state) as Hne by (intros E; rewrite E, Hk in Hm; discriminate). unfold stays_awake. cbn.
    destruct (w_prog s) eqn:Ep; auto.
    + destruct (l_set s HL (or_intror Ep)); [contradiction | assumption].
    + destruct (decide (on_rq (w_task s) = NOT_ON_RQ)) as [Eq|Eq]; [|left; exact Eq].
      destruct (l_back s HL Ep Eq) as [?|Ew]; [contradiction|]. right. apply (v_waking _ _ HI) in Ew. unfold waking, listed, holds_at in *. cbn.
      rewrite Hh, Hpc in Ew. exact Ew.
Qed.

Lemma looped_claim s k : WInv s -> looped s -> w_holder s = Some k -> k_pc k = KClaim ->
  looped (put_calls (write_state s TASK_WAKING) (w_waiting s) (Some (goto k KQueueOld)) (w_returned s)).
Proof.
  intros HI HL Hh Hpc. pose proof (v_holder _ _ HI k Hh) as [_ Hpl]. rewrite Hpc in Hpl. destruct Hpl as (_ & _ & Hq).
  assert (before_sleep (w_prog s) = false) as Hb by (destruct (before_sleep (w_prog s)) eqn:E; [destruct (l_rq s HL E Hq) | reflexivity]).
  split; cbn; auto.
  - congruence.
  - destruct (w_prog s); cbn in Hb; intros [?|?]; discriminate.
  - intros _. left. unfold stays_awake. cbn. destruct (w_prog s); try discriminate; auto. right. unfold waking, holds_at. cbn. apply orb_true_r.
Qed.

(** The task is on a list, or on its queue. *)
Lemma looped_placed s s' k : looped s -> w_holder s = Some k -> w_holder s' = Some (goto k KUnlock) -> placing (k_pc k) = true -> w_prog s' = w_prog s ->
  w_state s' = w_state s /\ on_rq (w_task s') = on_rq (w_task s) /\ w_cond s' = w_cond s /\ w_waiting s' = w_waiting s /\ listed s' = true \/
  w_state s' = TASK_RUNNING /\ on_rq (w_task s') <> NOT_ON_RQ -> looped s'.
Proof.
  intros HL Hh Hh' Hp Ep [(E1 & E2 & E3 & E4 & E5)|[E1 E2]]; [|exact (looped_running s s' HL Ep E1 E2)].
  apply (looped_frame s); auto; [congruence | unfold waking; rewrite E5; auto|].
  intros [Hw|(k' & E & _ & Hpc)]; [left; left; rewrite E4; exact Hw|]. rewrite Hh in E. injection E as <-. destruct (k_pc k); discriminate.
Qed.

Lemma activate_frame cpu migrated s : let s' := ttwu_do_activate cpu migrated s in
  w_prog s' = w_prog s /\ w_state s' = TASK_RUNNING /\ on_rq (w_task s') = TASK_ON_RQ_QUEUED /\ w_waiting s' = w_waiting s /\
  w_holder s' = w_holder s /\ w_list s' = w_list s.
Proof. destruct migrated; cbn; auto 10. Qed.

Lemma looped_next s s' k idle cls nm : WInv s -> looped s -> w_holder s = Some k -> next k idle cls nm s = Some (Ok s') -> looped s'.
Proof.
  intros HI HL Hh. pose proof (v_holder _ _ HI k Hh) as [_ Hpl]. unfold ttwu_next.
  destruct (k_pc k) as [| | | | | | |cpu migrated|] eqn:Hpc.
  - destruct (meets (w_state s) (k_mask k)) eqn:Em; intros [= <-]; [apply looped_goto; rewrite ?Hpc; auto | apply looped_fails; auto].
  - destruct (bool_decide _); intros [= <-]; apply looped_goto; rewrite ?Hpc; auto.
  - unfold ttwu_runnable. destruct (on_rq (w_task s)) eqn:Eq; [| |discriminate]; intros [= <-].
    + apply looped_goto; rewrite ?Hpc; auto.
    + apply (looped_running s); auto. cbn. rewrite Eq. discriminate.
  - intros [= <-]. apply looped_claim; assumption.
  - unfold ttwu_queue_wakelist. destruct (on_cpu (w_task s)); [destruct (feature && _)|]; intros [= <-]; [|apply looped_goto; rewrite ?Hpc; auto ..].
    apply (looped_placed s _ k); rewrite ?Hpc; auto 10.
  - destruct (on_cpu (w_task s)); [discriminate|]. intros [= <-]. apply looped_goto; rewrite ?Hpc; auto.
  - destruct (ttwu_select hp cpuset_fallback cls nm s) as [[s1 pc]| | |] eqn:Es; try discriminate. intros [= <-]. revert Es. unfold ttwu_select.
    destruct Hpl as (Hl & Ho). destruct (masks_allowed hp _ (v_masks _ _ HI) Ho) as [c0 Hc0].
    destruct (select_allowed hp cpuset_fallback cls nm _ c0 Hc0) as (c & Ec & _). rewrite Ec. cbn [mbind res_bind].
    replace (put_wtask s (w_task s)) with s by (destruct s; reflexivity).
    destruct (bool_decide _); intros [= <- <-]; [apply looped_goto; rewrite ?Hpc; auto|].
    apply (looped_frame s); auto.
    + intros _. unfold waking, holds_at. cbn. apply orb_true_r.
    + intros [Hw|(k' & E & _ & Hb)]; [left; left; exact Hw|]. rewrite Hh in E. injection E as <-. rewrite Hpc in Hb. discriminate.
  - intros [= <-]. apply (looped_placed s _ k); rewrite ?Hpc; auto; unfold ttwu_queue, ttwu_queue_wakelist; destruct (feature && _); auto 10.
    + destruct (activate_frame cpu migrated s) as (E & _). exact E.
  - intros [= <-]. apply (looped_frame s); auto.
    + unfold waking, holds_at. cbn. rewrite Hh, Hpc. auto.
    + intros [Hw|(k' & E & _ & Hb)]; [left; left; exact Hw|]. rewrite Hh in E. injection E as <-. rewrite Hpc in Hb. discriminate.
Qed.

(** * All steps *)

Lemma looped_sleep s c preempt sig frozen : WInv s -> looped s -> runs_on s = Some c -> preempt || in_prog [PAny; PTested; PSpecial] s = true ->
  looped (put_place (schedule_sleep pending c preempt sig frozen s) (PLeaving c) (if preempt then w_prog s else after_schedule (w_prog s))).
Proof.
  intros HI HL Hr Hin. pose proof (running_queued s c HI Hr) as Hq. destruct (running_facts hp s c HI Hr) as (Hp & _ & _ & _ & Hw). unfold schedule_sleep.
  destruct preempt; cbn [negb andb]; [apply (looped_frame s); auto; apply pending_same; reflexivity|].
  assert (forall s', w_state s' = TASK_RUNNING -> on_rq (w_task s') <> NOT_ON_RQ -> looped (put_place s' (PLeaving c) (after_schedule (w_prog s)))) as Hup.
  { intros s' Es Eq. destruct HL. split; cbn; auto; [contradiction|]. intros _. left. unfold stays_awake. cbn. destruct (w_prog s); cbn; auto. }
  destruct (Z.eqb_spec (w_state s) 0) as [E|E]; cbn [negb andb]; [apply Hup; assumption|].
  destruct (pending _ _); [apply Hup; [reflexivity | exact Hq]|]. set (load := _ && _ && _). clearbody load. destruct HL as [L1 L2 L3 L4].
  unfold in_prog in Hin. split; cbn.
  - destruct (w_prog s); cbn in *; try discriminate.
  - destruct (w_prog s); cbn in *; try discriminate; intros [?|?]; discriminate.
  - destruct (w_prog s) eqn:Ep; cbn in *; try discriminate. intros _ _. destruct (L2 (or_intror eq_refl)); [auto | contradiction].
  - intros Hc. destruct (L4 Hc) as [Hs|Hs].
    + left. unfold stays_awake in *. cbn. destruct (w_prog s); cbn in *; try exact I; try discriminate. contradiction.
    + right. exact Hs.
Qed.

Lemma in_one pr s : in_prog [pr] s = true -> w_prog s = pr.
Proof. unfold in_prog. cbn. destruct pr, (w_prog s); cbn; auto; discriminate. Qed.

Theorem step_loops l s s' : WInv s -> looped s -> step l s = Some (Ok s') -> looped s'.
Proof.
  intros HI HL. pose proof Hloop as [_ Hl]. apply meets_inner in Hl as [Hl1 Hl2].
  assert (on_its_cpu s = true -> on_rq (w_task s) <> NOT_ON_RQ) as Hits by (intros Hr; apply runs_at in Hr as [c Hc]; exact (running_queued s c HI Hc)).
  destruct l as [cpu mask|cpu mask|i|idle cls nm| |mask cond|cls nm|v| | | |v| |b|preempt sig frozen| | | |d|]; cbn [wstep].
  - intros Hs. apply when_ok in Hs as [_ ->]. apply (looped_frame s); auto. intros [Hw|Hw]; left; [left; cbn; apply Exists_app; auto | right; exact Hw].
  - intros Hs. apply when_ok in Hs as [Hb ->]. apply andb_true_iff in Hb as [_ Hm]. destruct HL. split; auto. intros _. right. left. cbn.
    apply Exists_app. right. constructor. split; [exact Hm | reflexivity].
  - destruct (w_holder s) eqn:Eh; [discriminate|]. destruct (w_waiting s !! i) as [k|] eqn:Ei; [|discriminate]. intros [= <-].
    apply (looped_frame s); auto.
    + unfold waking, listed, holds_at. cbn. rewrite Eh. destruct (w_list s); cbn; [reflexivity | discriminate].
    + intros [Hw|(k' & E & _)]; [|congruence]. left. rewrite (delete_Permutation _ _ _ Ei) in Hw. inversion Hw as [? ? Hk|? ? Hk]; subst.
      * right. exists k. auto.
      * left. exact Hk.
  - destruct (w_holder s) as [k|] eqn:Eh; [|discriminate]. apply looped_next; assumption.
  - destruct (w_list s) as [c|] eqn:Ec; [|discriminate]. intros Hs. apply when_ok in Hs as [Hb ->]. apply andb_true_iff in Hb as [Hb _].
    assert (forall c', w_place s = PLeaving c' -> c <> c') as Hpl by (intros c' Hp ->; rewrite Hp, Nat.eqb_refl in Hb; discriminate).
    pose proof (inv_ipi hp s c HI Ec Hpl) as HI'. destruct (v_list _ _ HI c Ec) as (Hc & _). revert HI'. unfold sched_ttwu_pending. cbn [put_list w_task].
    destruct (on_cpu (w_task s)); [intros HI'; pose proof (v_faults _ _ HI') as Hx; discriminate Hx|]. rewrite (bool_decide_true _ Hc). intros _.
    set (s1 := put_list _ None _ _). destruct (activate_frame c (w_remote s1) s1) as (E1 & E2 & E3 & _).
    apply (looped_running s); auto; rewrite E3; discriminate.
  - intros Hs. apply when_ok in Hs as [Hb ->]. rewrite !andb_true_iff in Hb. destruct Hb as ((Hr & _) & Hm). specialize (Hits Hr).
    unfold ttwu_current. destruct cond; cbn in Hm |- *.
    + destruct (meets (w_state s) mask) eqn:Em; [apply (looped_running s); auto|].
      destruct HL as [L1 L2 L3 L4]. split; auto. intros _. left. unfold stays_awake. cbn. destruct (w_prog s) eqn:Ep; auto.
      destruct (L2 (or_intror eq_refl)) as [E|E]; [|exact E]. rewrite E, Hm in Em. discriminate.
    + destruct (meets (w_state s) mask) eqn:Em; [apply (looped_running s); auto | apply (looped_frame s); auto].
  - destruct (w_place s) eqn:Ep; try discriminate. destruct (w_holder s) eqn:Eh; [discriminate|]. unfold wake_up_new_task.
    destruct (select_task_rq _ _ _ _ _) as [[c p]| | |]; try discriminate. intros [= <-]. apply (looped_running s); auto.
  - intros Hs. apply when_ok in Hs as [Hb ->]. rewrite !andb_true_iff in Hb. destruct Hb as (((Hb & _) & _) & _). apply looped_own; auto.
  - intros Hs. apply when_ok in Hs as [Hb ->]. rewrite !andb_true_iff in Hb. destruct Hb as (Hb & _). apply looped_own; cbn; auto.
  - intros Hs. apply when_ok in Hs as [Hb ->]. rewrite !andb_true_iff in Hb. destruct Hb as (Hb & Hin). apply in_one in Hin.
    destruct (w_cond s) eqn:Ec; [apply looped_own; cbn; auto|]. destruct HL. split; cbn; rewrite ?Ec; auto; try discriminate.
  - intros Hs. apply when_ok in Hs as [Hb ->]. rewrite !andb_true_iff in Hb. destruct Hb as (Hb & _). apply looped_own; auto.
  - intros Hs. apply when_ok in Hs as [Hb ->]. rewrite !andb_true_iff in Hb. destruct Hb as ((((Hb & _) & _) & _) & _). apply looped_own; auto.
  - intros Hs. apply when_ok in Hs as [Hb ->]. apply (looped_frame s); auto; discriminate.
  - intros Hs. apply when_ok in Hs as [Hb ->]. apply (looped_frame s); auto.
  - destruct (runs_on s) as [c|] eqn:Ec; [|discriminate]. intros Hs. apply when_ok in Hs as [Hb ->]. apply looped_sleep; assumption.
  - destruct (w_place s) eqn:Ep; try discriminate. intros Hs. apply when_ok in Hs as [_ ->]. apply (looped_frame s); auto.
  - destruct (w_place s) eqn:Ep; try discriminate. intros [= <-].
    assert (on_rq (migrate_disable_switch cpu (w_task s)) = on_rq (w_task s)) as E1
      by (unfold migrate_disable_switch; destruct (is_migration_disabled _); cbn; [destruct (cpus_ptr_ _)|]; auto).
    apply (looped_frame s); auto.
  - intros Hs. apply when_ok in Hs as [Hb ->]. apply (looped_frame s); auto.
  - destruct (_ && _) eqn:Hb; [|discriminate]. rewrite !andb_true_iff in Hb. destruct Hb as (((Hq & _) & _) & _). apply queued_at in Hq.
    unfold set_task_cpu. intros [= <-]. apply (looped_requeued s); auto; cbn; rewrite ?Hq; discriminate.
  - intros Hs. apply when_ok in Hs as [Hb ->]. apply bool_decide_eq_true in Hb. apply (looped_requeued s); auto; cbn; rewrite ?Hb; discriminate.
Qed.
End Loop.
