(* ===== verification/WakeLive.v ===== *)
(** From every state of the machine of [Wakeup] all callers can return and the lists can
    be emptied. *)

From S2P Require Import Prelude KHeaders Affinity AffineSafe TaskStates Wakeup WakeInv WakeKeeps WakeCount.
Local Open Scope Z_scope.

Section Live.
  Context `{CpumasksOk} (hp : hotplug) `{!Steady hp} (cpuset_fallback : atask -> option cpumask).
  Context (llc : nat -> nat) (feature : bool) {signals : Type} (pending : Z -> signals -> bool) (loop_state : Z).
  Hypothesis Hloop : is_special_task_state loop_state = false /\ meets loop_state inner_states = false.

#[local] Abbreviation step := (wstep hp cpuset_fallback llc feature pending loop_state).
#[local] Abbreviation reaches := (wrun hp cpuset_fallback llc feature pending loop_state).
#[local] Abbreviation next k := (ttwu_next hp cpuset_fallback llc feature k false 0 None).
#[local] Abbreviation WInv := (WInv hp).

Lemma reaches_trans s1 s2 s3 : reaches s1 s2 -> reaches s2 s3 -> reaches s1 s3.
Proof. intros H12 H23. induction H23; [exact H12 | econstructor; eassumption]. Qed.

(** The machine can go on to a state with [Q], by steps that leave the task's program and the
    condition alone. *)
Definition may (s : wsys) (Q : wsys -> Prop) : Prop :=
  exists s', reaches s s' /\ WInv s' /\ (w_prog s' = w_prog s /\ w_cond s' = w_cond s) /\ Q s'.

Lemma may_now s (Q : wsys -> Prop) : WInv s -> Q s -> may s Q.
Proof. intros HI HQ. exists s. split; [constructor | auto]. Qed.

Lemma may_then s (Q Q' : wsys -> Prop) : may s Q -> (forall s', WInv s' -> Q s' -> may s' Q') -> may s Q'.
Proof.
  intros (s' & Hr & HI & [E1 E2] & HQ) Hn. destruct (Hn s' HI HQ) as (s2 & Hr2 & HI2 & [E3 E4] & HQ2). exists s2.
  split; [eapply reaches_trans; eassumption|]. split; [exact HI2|]. split; [split; congruence | exact HQ2].
Qed.

(** A step that is possible succeeds. *)
Lemma may_step l s r (Q : wsys -> Prop) : WInv s -> step l s = Some r ->
  (forall s', r = Ok s' -> WInv s' -> w_prog s' = w_prog s /\ w_cond s' = w_cond s /\ Q s') -> may s Q.
Proof.
  intros HI Hs HQ. destruct (wstep_keeps hp cpuset_fallback llc feature pending loop_state Hloop l s HI r Hs) as (s' & -> & HI').
  destruct (HQ s' eq_refl HI') as (E1 & E2 & HQ'). exists s'. split; [|auto]. econstructor; [constructor | exact Hs].
Qed.

(** How far a call is from its end. *)
Definition rank (pc : ttwu_pc) : nat :=
  match pc with KMatch => 8 | KOnRq => 7 | KRunnable => 6 | KClaim => 5 | KQueueOld => 4 | KSpin => 3 | KSelect => 2 | KQueue _ _ => 1 | KUnlock => 0 end.

(** The call comes nearer to its end. *)
Definition nearer (s s' : wsys) (n : nat) : Prop :=
  w_waiting s' = w_waiting s /\ match w_holder s' with None => True | Some k => (rank (k_pc k) < n)%nat end.

Lemma next_nearer s k s' : next k s = Some (Ok s') -> w_prog s' = w_prog s /\ w_cond s' = w_cond s /\ nearer s s' (rank (k_pc k)).
Proof.
  unfold ttwu_next, nearer, ttwu_runnable, ttwu_queue, ttwu_queue_wakelist, ttwu_select. destruct (k_pc k) as [| | | | | | |cpu migrated|]; cbn [rank].
  - destruct (meets (w_state s) _); intros [= <-]; cbn; repeat split; lia.
  - destruct (bool_decide _); intros [= <-]; cbn; repeat split; lia.
  - destruct (on_rq _); [| |discriminate]; intros [= <-]; cbn; repeat split; lia.
  - intros [= <-]. cbn. repeat split; lia.
  - destruct (on_cpu _); [destruct (feature && _)|]; intros [= <-]; cbn; repeat split; lia.
  - destruct (on_cpu _); [discriminate|]. intros [= <-]; cbn; repeat split; lia.
  - destruct (select_task_rq _ _ _ _ _) as [[c p]| | |]; try discriminate. cbn [mbind res_bind].
    destruct (bool_decide _); intros [= <-]; cbn; repeat split; lia.
  - destruct (feature && _); [|destruct migrated]; intros [= <-]; cbn; repeat split; lia.
  - intros [= <-]. cbn. repeat split.
Qed.

(** A call waits only for the move of the task between queues or for its switch. *)
Lemma may_unstick s k : WInv s -> w_holder s = Some k ->
  may s (fun s' => w_holder s' = Some k /\ w_waiting s' = w_waiting s /\ next k s' <> None).
Proof.
  intros HI Hh. destruct (next k s) as [r|] eqn:En.
  { apply may_now; [exact HI|]. repeat split; auto. rewrite En. discriminate. }
  assert (k_pc k = KRunnable /\ on_rq (w_task s) = TASK_ON_RQ_MIGRATING \/ k_pc k = KSpin /\ on_cpu (w_task s) = true) as [[Hpc Hq]|[Hpc Ho]].
  { revert En. unfold ttwu_next, ttwu_runnable. destruct (k_pc k); try discriminate.
    - destruct (meets (w_state s) _); discriminate.
    - destruct (bool_decide _); discriminate.
    - destruct (on_rq _); try discriminate. auto.
    - destruct (if on_cpu (w_task s) then _ else _); discriminate.
    - destruct (on_cpu _); [auto | discriminate]. }
  - eapply (may_step LAttach); [exact HI | cbn [wstep]; rewrite Hq; reflexivity|]. intros s' [= <-] _. cbn. repeat split; auto.
    unfold ttwu_next. rewrite Hpc. discriminate.
  - pose proof (v_cpu _ _ HI) as Hc. rewrite Ho in Hc. assert (waking s = true) as Hw by (unfold waking, holds_at; rewrite Hh, Hpc; apply orb_true_r).
    pose proof (v_runs _ _ HI (v_waking_rq _ _ HI Hw)) as Hr. unfold cpu_of, runs_on in *. destruct (w_place s) as [| | |c] eqn:Ep; try discriminate.
    eapply (may_step LFinish); [exact HI | cbn [wstep]; rewrite Ep; reflexivity|]. intros s' [= <-] _. cbn. repeat split; auto.
    unfold ttwu_next. rewrite Hpc. discriminate.
Qed.

Lemma may_release n s k : WInv s -> w_holder s = Some k -> (rank (k_pc k) < n)%nat ->
  may s (fun s' => w_holder s' = None /\ w_waiting s' = w_waiting s).
Proof.
  revert s k. induction n as [|n IH]; intros s k HI Hh Hn; [lia|]. eapply may_then; [exact (may_unstick s k HI Hh)|].
  intros s1 HI1 (Hh1 & Ew1 & Hne). destruct (next k s1) as [r|] eqn:En; [|contradiction].
  apply (may_then _ (fun s' => nearer s1 s' (rank (k_pc k)))).
  - apply (may_step (LNextK false 0 None) s1 r _ HI1); [cbn [wstep]; rewrite Hh1; exact En|].
    intros s' -> _. exact (next_nearer s1 k s' En).
  - intros s2 HI2 [Ew2 Hk2]. destruct (w_holder s2) as [k2|] eqn:Eh2; [|apply may_now; [exact HI2 | split; congruence]].
    eapply may_then; [exact (IH s2 k2 HI2 Eh2 ltac:(lia))|]. intros s3 HI3 [Eh3 Ew3]. apply may_now; [exact HI3 | split; congruence].
Qed.

Lemma may_free s : WInv s -> may s (fun s' => w_holder s' = None /\ w_waiting s' = w_waiting s).
Proof.
  intros HI. destruct (w_holder s) as [k|] eqn:Eh; [exact (may_release _ s k HI Eh (Nat.lt_succ_diag_r _))|]. apply may_now; auto.
Qed.

(** All callers return. *)
Lemma may_return s : WInv s -> may s (fun s' => w_holder s' = None /\ w_waiting s' = []).
Proof.
  intros HI. eapply may_then; [exact (may_free s HI)|]. clear HI. intros s' HI [Hh _]. remember (w_waiting s') as l eqn:El. revert s' HI Hh El.
  induction l as [|k l IH]; intros s' HI Hh El; [apply may_now; auto|].
  eapply may_then; [apply (may_step (LLock 0) s' (Ok (put_calls s' l (Some k) (w_returned s'))) (fun s2 => w_waiting s2 = l) HI)|].
  - cbn [wstep]. rewrite Hh, <- El. reflexivity.
  - intros s2 [= <-] _. auto.
  - intros s2 HI2 E2. eapply may_then; [exact (may_free s2 HI2)|]. intros s3 HI3 [Hh3 E3]. apply IH; auto. congruence.
Qed.

(** Nobody is waking the task up. *)
Definition settled (s : wsys) : Prop := w_holder s = None /\ w_waiting s = [] /\ w_list s = None.

Lemma may_settle s : WInv s -> may s settled.
Proof.
  intros HI. eapply may_then; [exact (may_return s HI)|]. clear HI s. intros s HI [Hh Hw].
  destruct (w_list s) as [c|] eqn:El; [|apply may_now; [exact HI | split; auto]].
  apply (may_then _ (fun s' => w_holder s' = None /\ w_waiting s' = [] /\ w_list s' = Some c /\ (forall c', w_place s' <> PLeaving c'))).
  - destruct (w_place s) as [| | |c'] eqn:Ep; try (apply may_now; [exact HI | repeat split; auto; rewrite Ep; discriminate]).
    eapply (may_step LFinish); [exact HI | cbn [wstep]; rewrite Ep; reflexivity|]. intros s' [= <-] _. cbn. repeat split; auto; discriminate.
  - clear HI Hh Hw El s. intros s HI (Hh & Hw & El & Hp). destruct (v_list _ _ HI c El) as (Hc & _).
    eapply (may_step LIpi); [exact HI | cbn [wstep]; rewrite El, Hh; destruct (w_place s) eqn:Ep; try reflexivity; destruct (Hp _ eq_refl)|].
    intros s' [= <-] HI'. revert HI'. unfold sched_ttwu_pending. cbn [put_list w_task].
    destruct (on_cpu (w_task s)); [intros HI'; pose proof (v_faults _ _ HI') as Hx; discriminate Hx|]. rewrite (bool_decide_true _ Hc). intros _.
    destruct (w_remote _); cbn; repeat split; auto.
Qed.
End Live.
