(* ===== verification/WakeSpecial.v ===== *)
(** A task that sleeps in a special state is woken only by a caller whose mask has it, in
    the machine of [Wakeup]. *)

From S2P Require Import Prelude KHeaders Affinity AffineSafe TaskStates Wakeup WakeInv WakeKeeps WakeCount WakeLoop.
Local Open Scope Z_scope.

(** A step that does not ask for the state [v]. *)
Definition spares {signals} (v : Z) (l : wlabel (signals := signals)) : Prop :=
  match l with LCall _ mask | LWakeCond _ mask | LSelf mask _ => meets v mask = false | _ => True end.

Definition spared_by (v : Z) (k : waker) : Prop := meets v (k_mask k) = false.

(** The task has set the state [v] and is about to sleep, or sleeps. *)
Record sleeps_in (v : Z) (s : wsys) : Prop := {
  z_state : w_state s = v;
  z_where : w_prog s = PSpecial /\ on_rq (w_task s) <> NOT_ON_RQ \/ w_prog s = PAny /\ on_rq (w_task s) = NOT_ON_RQ;
  z_waiting : Forall (spared_by v) (w_waiting s);
  z_holder k : w_holder s = Some k -> spared_by v k /\ (k_pc k = KMatch \/ k_pc k = KUnlock)
}.

Section Special.
  Context `{CpumasksOk} (hp : hotplug) `{!Steady hp} (cpuset_fallback : atask -> option cpumask).
  Context (llc : nat -> nat) (feature : bool) {signals : Type} (pending : Z -> signals -> bool) (loop_state : Z).
  Hypothesis Hloop : is_special_task_state loop_state = false /\ meets loop_state inner_states = false.
  Context (v : Z) (Hv : is_special_task_state v = true) (Hv' : meets v inner_states = false) (Hsig : forall g, pending v g = false).

#[local] Abbreviation step := (wstep hp cpuset_fallback llc feature pending loop_state).
#[local] Abbreviation WInv := (WInv hp).

(** A step that leaves the task where it is. *)
Lemma sleeps_frame s s' : sleeps_in v s -> w_state s' = w_state s -> w_prog s' = w_prog s ->
  (on_rq (w_task s') = NOT_ON_RQ <-> on_rq (w_task s) = NOT_ON_RQ) -> Forall (spared_by v) (w_waiting s') ->
  (forall k, w_holder s' = Some k -> spared_by v k /\ (k_pc k = KMatch \/ k_pc k = KUnlock)) -> sleeps_in v s'.
Proof.
  intros [Z1 Z2 Z3 Z4] E1 E2 Hq Hw Hh. split; auto; [congruence|]. rewrite E2. destruct Z2 as [[? Hn]|[? Hn]]; [left | right]; split; auto.
  - intros Hx. apply Hn, Hq, Hx.
  - apply Hq, Hn.
Qed.

Lemma sleeps_here s s' : sleeps_in v s -> w_state s' = w_state s -> w_prog s' = w_prog s ->
  (on_rq (w_task s') = NOT_ON_RQ <-> on_rq (w_task s) = NOT_ON_RQ) -> w_waiting s' = w_waiting s -> w_holder s' = w_holder s -> sleeps_in v s'.
Proof. intros HZ E1 E2 Hq E3 E4. apply (sleeps_frame s); auto; rewrite ?E3, ?E4; apply HZ. Qed.

Lemma step_sleeps l s s' : WInv s -> sleeps_in v s -> spares v l -> step l s = Some (Ok s') -> sleeps_in v s'.
Proof.
  intros HI HZ Hl. pose proof (z_state v s HZ) as Ev. pose proof (meets_inner _ Hv') as [Hv1 Hv2]. pose proof (special_not_running _ Hv) as Hv0.
  assert (waking s = false) as Hw by (destruct (waking s) eqn:E; [apply (v_waking _ _ HI) in E; congruence | reflexivity]).
  assert (on_its_cpu s = true -> w_prog s = PSpecial) as Hin.
  { intros Hr. apply runs_at in Hr as [c Hc]. pose proof (running_queued hp s c HI Hc). destruct (z_where v s HZ) as [[? _]|[_ ?]]; [assumption | contradiction]. }
  assert (forall pr, on_its_cpu s = true -> in_prog [pr] s = true -> pr = PSpecial) as Hno by (intros pr Hr Hp; apply in_one in Hp; rewrite <- Hp; auto).
  destruct l as [cpu mask|cpu mask|i|idle cls nm| |mask cond|cls nm|u| | | |u| |b|preempt sig frozen| | | |d|]; cbn [wstep spares] in *.
  - intros Hs. apply when_ok in Hs as [_ ->]. apply (sleeps_frame s); auto; [apply Forall_app; split; [apply HZ | auto] | apply HZ].
  - intros Hs. apply when_ok in Hs as [_ ->]. apply (sleeps_frame s); auto; [apply Forall_app; split; [apply HZ | auto] | apply HZ].
  - destruct (w_holder s) eqn:Eh; [discriminate|]. destruct (w_waiting s !! i) as [k|] eqn:Ei; [|discriminate]. intros [= <-].
    apply (sleeps_frame s); auto; [apply Forall_delete, HZ|]. intros k' [= <-].
    split; [exact (proj1 (Forall_lookup _ _) (z_waiting v s HZ) i k Ei)|]. left. exact (proj1 (proj2 (proj1 (Forall_lookup _ _) (v_waiting _ _ HI) i k Ei))).
  - destruct (w_holder s) as [k|] eqn:Eh; [|discriminate]. destruct (z_holder v s HZ k Eh) as [Hk [Hpc|Hpc]]; unfold ttwu_next; rewrite Hpc.
    + rewrite Ev, Hk. intros [= <-]. apply (sleeps_frame s); auto; [apply HZ|]. intros k' [= <-]. auto.
    + intros [= <-]. apply (sleeps_frame s); auto; [apply HZ | discriminate].
  - rewrite (not_waking_list _ Hw). discriminate.
  - intros Hs. apply when_ok in Hs as [_ ->]. unfold ttwu_current. destruct cond; cbn [put_cond w_state]; rewrite Ev, Hl; apply (sleeps_here s); auto; reflexivity.
  - destruct (w_place s) eqn:Ep; try discriminate. apply (v_new _ _ HI) in Ep. congruence.
  - intros Hs. apply when_ok in Hs as [Hb _]. rewrite !andb_true_iff in Hb. destruct Hb as (((Hr & Hp) & _) & _). discriminate (Hno _ Hr Hp).
  - intros Hs. apply when_ok in Hs as [Hb _]. rewrite !andb_true_iff in Hb. destruct Hb as (Hr & Hp). unfold in_prog in Hp. rewrite (Hin Hr) in Hp. discriminate.
  - intros Hs. apply when_ok in Hs as [Hb _]. rewrite !andb_true_iff in Hb. destruct Hb as (Hr & Hp). discriminate (Hno _ Hr Hp).
  - intros Hs. apply when_ok in Hs as [Hb _]. rewrite !andb_true_iff in Hb. destruct Hb as (Hr & Hp). discriminate (Hno _ Hr Hp).
  - intros Hs. apply when_ok in Hs as [Hb _]. rewrite !andb_true_iff in Hb. destruct Hb as ((((Hr & Hp) & _) & _) & _). discriminate (Hno _ Hr Hp).
  - intros Hs. apply when_ok in Hs as [Hb _]. rewrite !andb_true_iff in Hb. destruct Hb as (Hr & Hp). discriminate (Hno _ Hr Hp).
  - intros Hs. apply when_ok in Hs as [Hb _]. rewrite !andb_true_iff in Hb. destruct Hb as (Hr & Hp). discriminate (Hno _ Hr Hp).
  - destruct (runs_on s) as [c|] eqn:Ec; [|discriminate]. intros Hs. apply when_ok in Hs as [_ ->].
    assert (w_prog s = PSpecial) as Hp by (apply Hin, bool_decide_eq_true; rewrite Ec; eauto). unfold schedule_sleep. rewrite Ev, Hp.
    destruct preempt; cbn [negb andb after_schedule]; [apply (sleeps_here s); auto; reflexivity|].
    apply Z.eqb_neq in Hv0. change TASK_RUNNING with 0 in Hv0. rewrite Hv0, Hsig. cbn [negb]. destruct HZ. split; cbn; auto.
  - destruct (w_place s) eqn:Ep; try discriminate. intros Hs. apply when_ok in Hs as [_ ->]. apply (sleeps_here s); auto; reflexivity.
  - destruct (w_place s) eqn:Ep; try discriminate. intros [= <-].
    assert (on_rq (migrate_disable_switch cpu (w_task s)) = on_rq (w_task s)) as E1
      by (unfold migrate_disable_switch; destruct (is_migration_disabled _); cbn; [destruct (cpus_ptr_ _)|]; auto).
    apply (sleeps_here s); auto. cbn. rewrite E1. reflexivity.
  - intros Hs. apply when_ok in Hs as [_ ->]. apply (sleeps_here s); auto; reflexivity.
  - destruct (_ && _) eqn:Hb; [|discriminate]. rewrite !andb_true_iff in Hb. destruct Hb as (((Hq & _) & _) & _). apply queued_at in Hq.
    unfold set_task_cpu. intros [= <-]. apply (sleeps_here s); auto. cbn. rewrite Hq. split; discriminate.
  - intros Hs. apply when_ok in Hs as [Hb ->]. apply bool_decide_eq_true in Hb. apply (sleeps_here s); auto. cbn. rewrite Hb. split; discriminate.
Qed.

Lemma exec_sleeps ls s s' : WInv s -> sleeps_in v s -> Forall (spares v) ls ->
  wexec hp cpuset_fallback llc feature pending loop_state ls s = Some (Ok s') -> WInv s' /\ sleeps_in v s'.
Proof.
  revert s. induction ls as [|l ls IH]; intros s HI HZ Hls; cbn [wexec]; [intros [= <-]; auto|]. inversion Hls as [|? ? Hl Hls']; subst.
  destruct (step l s) as [[s1| | |]|] eqn:Es; try discriminate. apply IH; auto; [|exact (step_sleeps l s s1 HI HZ Hl Es)].
  destruct (wstep_keeps hp cpuset_fallback llc feature pending loop_state Hloop l s HI _ Es) as (s2 & E & HI2). congruence.
Qed.
End Special.
