(* ===== verification/WakeTheorems.v ===== *)
(** What the machine of [Wakeup] guarantees, from every state in which nobody wakes the
    task up yet; one call on its own; a run on four CPUs. *)

From S2P Require Import Prelude KHeaders Affinity AffineMove AffineRuns AffineReqs AffineSafe AffineKeeps AffineInvariant AffineLive SetAffinity AffineTheorems.
From S2P Require Import TaskStates Wakeup WakeInv WakeKeeps WakeCount WakeLoop WakeLive WakeSpecial.
Local Open Scope Z_scope.

(** * The beginning *)

(** A new task, or a task that runs, and nobody who wakes it up. *)
Record wake_fresh `{Cpumasks} (hp : hotplug) (s : wsys) : Prop := {
  f_masks : masks_ok hp (w_task s);
  f_place : w_place s = PNew /\ on_cpu (w_task s) = false /\ on_rq (w_task s) = NOT_ON_RQ /\ w_state s = TASK_NEW \/
            w_place s = POn (task_cpu (w_task s)) /\ on_cpu (w_task s) = true /\ on_rq (w_task s) = TASK_ON_RQ_QUEUED /\ w_state s = TASK_RUNNING;
  f_state : state (w_task s) = tstate_of (w_state s);
  f_calls : w_waiting s = [] /\ w_holder s = None /\ w_list s = None /\ w_faults s = [];
  f_counts : nr_uninterruptible s = ∅ /\ nr_iowait s = ∅;
  f_prog : w_prog s = PAny /\ w_cond s = false
}.

Section Wake.
  Context `{CpumasksOk} (hp : hotplug) `{!Steady hp} (cpuset_fallback : atask -> option cpumask).
  Context (llc : nat -> nat) (feature : bool) {signals : Type} (pending : Z -> signals -> bool) (loop_state : Z).
  Hypothesis Hloop : is_special_task_state loop_state = false /\ meets loop_state inner_states = false.

#[local] Abbreviation step := (wstep hp cpuset_fallback llc feature pending loop_state).
#[local] Abbreviation exec := (wexec hp cpuset_fallback llc feature pending loop_state).
#[local] Abbreviation run := (wrun hp cpuset_fallback llc feature pending loop_state).

Lemma fresh_waking s : wake_fresh hp s -> waking s = false.
Proof. intros HF. destruct (f_calls _ _ HF) as (_ & Eh & El & _). unfold waking, listed, holds_at. rewrite Eh, El. reflexivity. Qed.

Lemma wake_fresh_inv s : wake_fresh hp s -> WInv hp s.
Proof.
  intros HF. pose proof (fresh_waking s HF) as Hw. destruct HF as [Hm Hp Hst (Ew & Eh & El & Ef) _ _].
  split; rewrite ?Hw, ?Eh, ?El, ?Ew; auto; try discriminate; unfold cpu_of, runs_on.
  - destruct Hp as [(-> & -> & _)|(-> & -> & _)]; reflexivity.
  - destruct Hp as [(-> & _)|(_ & _ & -> & _)]; [reflexivity | discriminate].
  - destruct Hp as [(_ & -> & _)|(_ & _ & -> & _)]; [reflexivity | discriminate].
  - destruct Hp as [(-> & _ & _ & ->)|(-> & _ & _ & ->)]; split; auto; discriminate.
  - destruct Hp as [(_ & _ & -> & _)|(-> & _)]; [reflexivity | discriminate].
  - destruct Hp as [(_ & _ & _ & ->)|(_ & _ & -> & _)]; discriminate.
  - split; [discriminate|]. destruct Hp as [(_ & _ & _ & ->)|(_ & _ & _ & ->)]; discriminate.
Qed.

Lemma fresh_counted s : wake_fresh hp s -> well_counted s.
Proof.
  intros HF. destruct (f_counts _ _ HF) as [E1 E2].
  assert (blocked s = false) as Hb by (unfold blocked; destruct (f_place _ _ HF) as [(-> & _)|(_ & _ & -> & _)]; [apply andb_false_r | reflexivity]).
  split; unfold io_on; rewrite ?E1, ?E2, Hb; reflexivity.
Qed.

Lemma fresh_looped s : wake_fresh hp s -> looped loop_state s.
Proof. intros HF. destruct (f_prog _ _ HF) as [E1 E2]. split; rewrite ?E1, ?E2; try discriminate; intros [?|?]; discriminate. Qed.

(** What all states that can be reached have in common. *)
Lemma run_all s s' : wake_fresh hp s -> run s s' -> WInv hp s' /\ well_counted s' /\ looped loop_state s'.
Proof.
  intros HF Hr. induction Hr as [|l s1 s2 Hr (HI & HC & HL) Hs]; [auto using wake_fresh_inv, fresh_counted, fresh_looped|].
  destruct (wstep_keeps hp cpuset_fallback llc feature pending loop_state Hloop l s1 HI _ Hs) as (s' & E & HI2). injection E as ->.
  split; [exact HI2|]. split; [exact (step_counts hp cpuset_fallback llc feature pending loop_state l s1 s' HI HC Hs) |
    exact (step_loops hp cpuset_fallback llc feature pending loop_state Hloop l s1 s' HI HL Hs)].
Qed.

(** * Safety *)

(** C19: however callers, interrupts, the task and the scheduler interleave, no warning of
    [sched_ttwu_pending] and [set_task_cpu] is given, the task is never put on a queue or
    a list where it is already, and never runs on two CPUs at once; its state is
    [TASK_WAKING] exactly while a caller places it or it is on a list, of the CPU that
    [task_cpu] names; while a CPU executes it, or switches from it, [on_cpu] is set and
    [task_cpu] is that CPU; it is off its queue only when its state is not [TASK_RUNNING]. *)
Theorem wake_safe s s' : wake_fresh hp s -> run s s' ->
  w_faults s' = [] /\
  (w_state s' = TASK_WAKING <-> waking s' = true) /\
  (forall c, w_list s' = Some c -> task_cpu (w_task s') = c /\ holds_at placing s' = false) /\
  cpu_of s' = (if on_cpu (w_task s') then Some (task_cpu (w_task s')) else None) /\
  (waking s' = true -> on_rq (w_task s') = NOT_ON_RQ /\ runs_on s' = None) /\
  (on_rq (w_task s') = NOT_ON_RQ -> w_state s' <> TASK_RUNNING) /\
  task_cpu (w_task s') ∈ cpu_online_mask hp.
Proof.
  intros HF Hr. destruct (run_all s s' HF Hr) as (HI & _ & _). split; [exact (v_faults _ _ HI)|].
  split; [symmetry; exact (v_waking _ _ HI)|]. split; [intros c Hc; destruct (v_list _ _ HI c Hc) as (? & _ & ?); auto|].
  split; [exact (v_cpu _ _ HI)|]. split; [intros Hw; pose proof (v_waking_rq _ _ HI Hw) as Hq; split; [exact Hq | exact (v_runs _ _ HI Hq)]|].
  split; [exact (v_asleep _ _ HI) | exact (t_cpu _ _ _ (v_masks _ _ HI))].
Qed.

(** C23: the counts of blocked tasks are right in every reachable state. Over all run
    queues [nr_uninterruptible] adds up to 1 while the task is off its queue and
    contributes to the load, to 0 otherwise, wherever it slept and was woken; [nr_iowait]
    of each CPU is 1 exactly while the task is off its queue, waits for I/O, belongs to that
    CPU and is not yet on its way to another one. *)
Theorem wake_counts s s' : wake_fresh hp s -> run s s' ->
  rq_sum (nr_uninterruptible s') = (if blocked s' && w_load s' then 1 else 0) /\
  forall c, default 0 (nr_iowait s' !! c) =
    if blocked s' && w_io s' && negb (moved_away s') && bool_decide (task_cpu (w_task s') = c) then 1 else 0.
Proof. intros HF Hr. destruct (run_all s s' HF Hr) as (_ & [H1 H2] & _). auto. Qed.

(** * Wait loops *)

Lemma wait_loop_awake s s' : wake_fresh hp s -> run s s' -> settled s' -> w_cond s' = true -> w_prog s' = PBack -> on_rq (w_task s') <> NOT_ON_RQ.
Proof.
  intros HF Hr (Eh & Ew & El) Hc Hp. destruct (run_all s s' HF Hr) as (_ & _ & HL).
  destruct (l_cond _ _ HL Hc) as [Hs|[Hx|(k & E & _)]]; [|rewrite Ew in Hx; inversion Hx | congruence].
  unfold stays_awake in Hs. rewrite Hp in Hs. destruct Hs as [Hq|Hw]; [exact Hq|].
  unfold waking, listed, holds_at in Hw. rewrite Eh, El in Hw. discriminate.
Qed.

(** C20: no wake-up of a wait loop is lost. When the condition is set, and no call and no
    list has the task any more, a task in its wait loop is not asleep and will not fall
    asleep: after the test that found the condition false its state is [TASK_RUNNING] again, so
    that [schedule] does not block; after [schedule] it is on a run queue. *)
Theorem wait_loop_woken s s' : wake_fresh hp s -> run s s' -> settled s' -> w_cond s' = true ->
  (w_prog s' = PTested -> w_state s' = TASK_RUNNING) /\ (w_prog s' = PBack -> on_rq (w_task s') <> NOT_ON_RQ).
Proof.
  intros HF Hr Hset Hc. split; [|exact (wait_loop_awake s s' HF Hr Hset Hc)]. intros Ep. destruct Hset as (Eh & Ew & _).
  destruct (run_all s s' HF Hr) as (_ & _ & HL). destruct (l_cond _ _ HL Hc) as [Hs|[Hx|(k & E & _)]]; [|rewrite Ew in Hx; inversion Hx | congruence].
  unfold stays_awake in Hs. rewrite Ep in Hs. exact Hs.
Qed.

(** C22: wake-ups come to an end. From every reachable state the callers can all
    return and the lists can be emptied, with steps of the callers, of the CPU that the task
    leaves, of the one that moves it and of the interrupt alone; a task in its wait loop whose
    condition was set is then not asleep. *)
Theorem wakes_settle s s1 : wake_fresh hp s -> run s s1 ->
  exists s', run s1 s' /\ settled s' /\ w_prog s' = w_prog s1 /\ w_cond s' = w_cond s1 /\
    (w_cond s1 = true -> w_prog s1 = PBack -> on_rq (w_task s') <> NOT_ON_RQ).
Proof.
  intros HF Hr. destruct (run_all s s1 HF Hr) as (HI & _ & _).
  destruct (may_settle hp cpuset_fallback llc feature pending loop_state Hloop s1 HI) as (s' & Hr' & _ & [E1 E2] & Hset).
  exists s'. repeat split; auto; try apply Hset. intros Hc Hp.
  apply (wait_loop_awake s s'); auto; [eapply reaches_trans; eassumption | congruence | congruence].
Qed.

(** The function is called exactly when nobody is waking the task up. *)
Lemma locked_down_fixed s s' func : wake_fresh hp s -> run s s' -> on_rq (w_task s') <> TASK_ON_RQ_MIGRATING ->
  try_invoke_on_locked_down_task func s' = Some (negb (waking s') && func s').
Proof.
  intros HF Hr Hq. destruct (run_all s s' HF Hr) as (HI & _ & _). unfold try_invoke_on_locked_down_task.
  destruct (on_rq (w_task s')) eqn:E; [| |contradiction].
  - apply (v_asleep _ _ HI) in E. apply Z.eqb_neq in E. rewrite E. cbn [orb]. destruct (Z.eqb_spec (w_state s') TASK_WAKING) as [Ew|Ew].
    + apply (v_waking _ _ HI) in Ew. rewrite Ew. reflexivity.
    + destruct (waking s') eqn:Ew'; [apply (v_waking _ _ HI) in Ew'; contradiction | reflexivity].
  - destruct (waking s') eqn:Ew; [apply (v_waking_rq _ _ HI) in Ew; congruence | reflexivity].
Qed.

(** * Special states *)

(** A special state is not overtaken. Once a task has set one, such as [TASK_DEAD],
    and as long as nobody calls with a mask that has it, the state stays, and the
    task does not come past its call of [schedule]: it has not called it yet, or it is off its
    queue, whatever calls were under way when it set the state and whatever happens. *)
Theorem special_state_kept s s1 v s2 ls s' : wake_fresh hp s -> run s s1 -> step (LSpecial v) s1 = Some (Ok s2) ->
  (forall g, pending v g = false) -> Forall (fun k => meets v (k_mask k) = false) (w_waiting s2) ->
  Forall (spares v) ls -> exec ls s2 = Some (Ok s') ->
  w_state s' = v /\ (w_prog s' = PSpecial /\ on_rq (w_task s') <> NOT_ON_RQ \/ w_prog s' = PAny /\ on_rq (w_task s') = NOT_ON_RQ /\ runs_on s' = None).
Proof.
  intros HF Hr Hs Hsig Hw Hls Hx. destruct (run_all s s1 HF Hr) as (HI & _ & _).
  destruct (wstep_keeps hp cpuset_fallback llc feature pending loop_state Hloop _ s1 HI _ Hs) as (s3 & E & HI2). injection E as <-.
  cbn [wstep] in Hs. apply when_ok in Hs as [Hb ->]. rewrite !andb_true_iff, negb_true_iff in Hb. destruct Hb as ((((Hon & _) & Hv) & Hv') & Hh).
  apply bool_decide_eq_true in Hh. apply runs_at in Hon as [c Hc].
  assert (sleeps_in v (set_special_state v s1)) as HZ.
  { split; cbn; auto; [left; split; [reflexivity | exact (running_queued hp s1 c HI Hc)] | rewrite Hh; discriminate]. }
  destruct (exec_sleeps hp cpuset_fallback llc feature pending loop_state Hloop v Hv Hv' Hsig ls _ s' HI2 HZ Hls Hx) as [HI' [Z1 Z2 _ _]].
  split; [exact Z1|]. destruct Z2 as [Z2|[Z2 Z3]]; [left; exact Z2 | right]. split; [exact Z2|]. split; [exact Z3|]. exact (v_runs _ _ HI' Z3).
Qed.

(** * One call *)

#[local] Abbreviation alone := (ttwu_alone hp cpuset_fallback llc feature).

Lemma alone_step n idle cls nm s k s1 : w_holder s = Some k -> ttwu_next hp cpuset_fallback llc feature k idle cls nm s = Some (Ok s1) ->
  alone (S n) idle cls nm s = alone n idle cls nm s1.
Proof. intros Hh Hs. cbn [ttwu_alone]. rewrite Hh, Hs. reflexivity. Qed.

(** The end of a call that chose a CPU. *)
Definition woken_on (c : nat) (cpu : nat) (s : wsys) : Prop :=
  task_cpu (w_task s) = c /\
  (on_rq (w_task s) = TASK_ON_RQ_QUEUED /\ w_state s = TASK_RUNNING /\ w_list s = None \/
   on_rq (w_task s) = NOT_ON_RQ /\ w_state s = TASK_WAKING /\ w_list s = Some c /\ feature = true /\ c <> cpu /\ c ∈ ttwu_pending s).

Lemma select_chosen cls nm s c0 : is_cpu_allowed hp (w_task s) c0 = true ->
  exists s' c m, ttwu_select hp cpuset_fallback cls nm s = Ok (s', KQueue c m) /\ is_cpu_allowed hp (w_task s) c = true /\
    task_cpu (w_task s') = c /\ on_rq (w_task s') = on_rq (w_task s) /\ w_state s' = w_state s /\ w_list s' = w_list s /\
    w_waiting s' = w_waiting s /\ w_returned s' = w_returned s.
Proof.
  intros Hc0. destruct (select_allowed hp cpuset_fallback cls nm _ c0 Hc0) as (c & Ec & Ha). unfold ttwu_select. rewrite Ec. cbn [mbind res_bind].
  destruct (bool_decide_reflect (task_cpu (w_task s) = c)) as [E|E]; [exists (put_wtask s (w_task s)), c, false; auto 10|].
  eexists _, c, true. split; [reflexivity|]. auto 10.
Qed.

Lemma queue_woken cpu idle c migrated s : w_list s = None -> task_cpu (w_task s) = c -> on_rq (w_task s) = NOT_ON_RQ -> w_state s = TASK_WAKING ->
  let s' := ttwu_queue hp llc feature cpu idle c migrated s in woken_on c cpu s' /\ w_returned s' = w_returned s /\ w_waiting s' = w_waiting s.
Proof.
  intros Hl Hc Hq Hs. unfold ttwu_queue, ttwu_queue_wakelist. destruct (feature && ttwu_queue_cond _ _ _ _ _ _) eqn:Ef; cbv zeta.
  - apply andb_true_iff in Ef as [Ef Hcond]. unfold ttwu_queue_cond, cpus_share_cache in Hcond.
    assert (c <> cpu) as Hne. { intros ->. rewrite Nat.eqb_refl in Hcond. repeat destruct (bool_decide _); discriminate. }
    split; [split; [exact Hc|]; right; cbn; repeat split; auto; apply elem_of_union_l, elem_of_singleton_2; reflexivity | auto].
  - destruct migrated; (split; [split; [exact Hc | left; cbn; auto] | auto]).
Qed.

(** C21: what a call of [try_to_wake_up] does to a task that is between no queues and not being
    switched out asleep: when the mask has none of the bits of the state, it returns 0 and
    changes nothing; a queued task gets the state [TASK_RUNNING] and nothing else; a
    task that sleeps is sent to a CPU that it may use, where it is queued and
    running, or on whose list it is, which is only so with the feature and on another CPU
    than the caller's; in both cases 1 is returned. *)
Theorem try_to_wake_up_correct s cpu mask idle cls nm :
  WInv hp s -> w_holder s = None -> call_ok cpu mask s = true ->
  on_rq (w_task s) <> TASK_ON_RQ_MIGRATING -> (on_rq (w_task s) = NOT_ON_RQ -> on_cpu (w_task s) = false) ->
  exists s', try_to_wake_up hp cpuset_fallback llc feature cpu mask idle cls nm s = Ok s' /\ w_holder s' = None /\ w_waiting s' = w_waiting s /\
    w_returned s' = meets (w_state s) mask :: w_returned s /\
    if negb (meets (w_state s) mask) then w_task s' = w_task s /\ w_state s' = w_state s /\ w_list s' = w_list s
    else match on_rq (w_task s) with
      | NOT_ON_RQ => exists c, is_cpu_allowed hp (w_task s) c = true /\ woken_on c cpu s'
      | _ => s' = put_calls (write_state s TASK_RUNNING) (w_waiting s) None (true :: w_returned s)
      end.
Proof.
  intros HI Hh Hc Hm Ho. apply caller_cpu in Hc as [Hmask _]. unfold try_to_wake_up.
  destruct (meets (w_state s) mask) eqn:Em; cbn [negb].
  2: { do 2 (erewrite alone_step; [|reflexivity | unfold ttwu_next; cbn; rewrite ?Em; reflexivity]). eexists. repeat split. }
  destruct (matched_state _ _ Hmask Em) as (_ & Hs2 & _). assert (w_list s = None) as Hl.
  { apply not_waking_list. destruct (waking s) eqn:E; [apply (v_waking _ _ HI) in E; contradiction | reflexivity]. }
  erewrite alone_step; [|reflexivity | unfold ttwu_next; cbn; rewrite Em; reflexivity].
  destruct (on_rq (w_task s)) eqn:Hq; [| |contradiction].
  2: { do 3 (erewrite alone_step; [|reflexivity | unfold ttwu_next, ttwu_runnable; cbn; rewrite ?Hq; reflexivity]).
       eexists. split; [reflexivity|]. repeat split; auto. }
  specialize (Ho eq_refl). do 2 (erewrite alone_step; [|reflexivity | unfold ttwu_next; cbn; rewrite ?Hq; reflexivity]).
  do 2 (erewrite alone_step; [|reflexivity | unfold ttwu_next; cbn; rewrite ?Ho; reflexivity]).
  destruct (masks_allowed hp _ (v_masks _ _ HI) Ho) as [c0 Hc0].
  match goal with |- context [alone _ _ _ _ ?s1] => destruct (select_chosen cls nm s1 c0 Hc0) as (s2 & c & m & Es & Ha & E1 & E2 & E3 & E4 & E5 & E6) end.
  cbn in E2, E3, E4, E5, E6. erewrite alone_step; [|reflexivity | unfold ttwu_next; cbn [k_pc goto put_calls w_holder]; rewrite Es; reflexivity].
  set (s3 := put_calls s2 _ _ _).
  destruct (queue_woken cpu idle c m s3) as ([F1 F2] & F3 & F4); [exact (eq_trans E4 Hl) | exact E1 | exact (eq_trans E2 Hq) | exact E3|].
  do 2 (erewrite alone_step; [|reflexivity | reflexivity]). eexists. split; [reflexivity|]. cbn [put_calls w_holder w_waiting w_returned].
  split; [reflexivity|]. split; [exact (eq_trans F4 E5)|]. split; [cbn; rewrite F3; cbn; rewrite E6; reflexivity|]. exists c. split; [exact Ha | split; [exact F1 | exact F2]].
Qed.
End Wake.

(** * A task on four CPUs *)

(** Two CPUs share a cache; a task with a signal does not sleep in an interruptible state. *)
Definition llc4 (c : nat) : nat := Nat.div2 c.

Definition has_signal (v : Z) (signal : bool) : bool := signal && meets v (Z.lor TASK_INTERRUPTIBLE TASK_WAKEKILL).

(** It runs on CPU 0. *)
Definition awake : wsys := mkWsys on01 TASK_RUNNING false false false ∅ ∅ ∅ None [] None [] (POn 0) PAny false [].

Abbreviation exec4 := (wexec hp4 no_fallback llc4 true has_signal TASK_UNINTERRUPTIBLE).
Abbreviation run4 := (wrun hp4 no_fallback llc4 true has_signal TASK_UNINTERRUPTIBLE).

Lemma loop4 : is_special_task_state TASK_UNINTERRUPTIBLE = false /\ meets TASK_UNINTERRUPTIBLE inner_states = false.
Proof. split; reflexivity. Qed.

Lemma awake_fresh : wake_fresh hp4 awake.
Proof.
  split; cbn; auto 10.
  pose proof start_fresh as [Ht _ _ _]. exact Ht.
Qed.

(** The state after some steps. *)
Definition after_steps (ls : list (wlabel (signals := bool))) (s : wsys) : wsys := match exec4 ls s with Some (Ok s') => s' | _ => s end.

Lemma after_run ls : bool_decide (is_Some (match exec4 ls awake with Some (Ok s') => Some s' | _ => None end)) = true -> run4 awake (after_steps ls awake).
Proof.
  intros Hb. apply bool_decide_eq_true in Hb. unfold after_steps. destruct (exec4 ls awake) as [[s'| | |]|] eqn:E; try (destruct Hb; discriminate).
  exact (wexec_run _ _ _ _ _ _ ls awake s' E).
Qed.

(** The task waits in its loop for I/O; a caller on CPU 2 sets the condition while CPU 0 is still
    switching from the task, and puts it on the list of CPU 0. *)
Definition to_sleep : list (wlabel (signals := bool)) := [LIo true; LLoop; LTest; LSchedule false false false].
Definition to_list : list (wlabel (signals := bool)) :=
  [LWakeCond 2 TASK_NORMAL; LLock 0; LNextK false 0 None; LNextK false 0 None; LNextK false 0 None; LNextK false 0 None; LNextK false 0 None].

Lemma wake_safe_witness : w_faults (after_steps (to_sleep ++ to_list) awake) = [] /\ w_list (after_steps (to_sleep ++ to_list) awake) = Some 0%nat.
Proof.
  split; [|vm_compute; reflexivity].
  exact (proj1 (wake_safe hp4 no_fallback llc4 true has_signal TASK_UNINTERRUPTIBLE loop4 awake _ awake_fresh (after_run (to_sleep ++ to_list) ltac:(vm_compute; reflexivity)))).
Defined.

Lemma wake_counts_witness : rq_sum (nr_uninterruptible (after_steps to_sleep awake)) = 1 /\ default 0 (nr_iowait (after_steps to_sleep awake) !! 0%nat) = 1.
Proof.
  destruct (wake_counts hp4 no_fallback llc4 true has_signal TASK_UNINTERRUPTIBLE loop4 awake _ awake_fresh (after_run to_sleep ltac:(vm_compute; reflexivity))) as [H1 H2].
  split; [rewrite H1 | rewrite H2]; vm_compute; reflexivity.
Defined.

(** The list is emptied once the CPU has switched. *)
Definition woken : list (wlabel (signals := bool)) := to_sleep ++ to_list ++ [LFinish; LIpi; LPick].

Lemma wait_loop_woken_witness : on_rq (w_task (after_steps woken awake)) <> NOT_ON_RQ.
Proof.
  destruct (wait_loop_woken hp4 no_fallback llc4 true has_signal TASK_UNINTERRUPTIBLE loop4 awake (after_steps woken awake) awake_fresh) as [_ Hq];
    [apply after_run; vm_compute; reflexivity | split; [|split]; vm_compute; reflexivity | vm_compute; reflexivity|].
  apply Hq. vm_compute. reflexivity.
Defined.

Lemma wakes_settle_witness : exists s', run4 (after_steps (to_sleep ++ to_list) awake) s' /\ settled s' /\ on_rq (w_task s') <> NOT_ON_RQ.
Proof.
  destruct (wakes_settle hp4 no_fallback llc4 true has_signal TASK_UNINTERRUPTIBLE loop4 awake (after_steps (to_sleep ++ to_list) awake) awake_fresh) as (s' & Hr & Hs & _ & _ & Hq);
    [apply after_run; vm_compute; reflexivity|].
  exists s'. split; [exact Hr|]. split; [exact Hs|]. apply Hq; vm_compute; reflexivity.
Defined.

(** The task dies while a caller that saw its state before is under way. *)
Definition until_death : list (wlabel (signals := bool)) := [LState TASK_INTERRUPTIBLE; LCall 2 TASK_NORMAL; LState TASK_RUNNING].
Definition death : list (wlabel (signals := bool)) :=
  [LLock 0; LSchedule false true false; LNextK false 0 None; LNextK false 0 None; LFinish; LCall 3 TASK_NORMAL].

Lemma special_state_kept_witness : w_state (after_steps (until_death ++ LSpecial TASK_DEAD :: death) awake) = TASK_DEAD.
Proof.
  refine (proj1 (special_state_kept hp4 no_fallback llc4 true has_signal TASK_UNINTERRUPTIBLE loop4 awake (after_steps until_death awake) TASK_DEAD
    (after_steps (until_death ++ [LSpecial TASK_DEAD]) awake) death _ awake_fresh _ _ _ _ _ _)).
  - apply after_run. vm_compute. reflexivity.
  - vm_compute. reflexivity.
  - intros [|]; reflexivity.
  - repeat constructor.
  - repeat constructor.
  - vm_compute. reflexivity.
Defined.

Definition asleep : list (wlabel (signals := bool)) := to_sleep ++ [LFinish].

(** CPU 2 shares no cache with CPU 1. *)
Lemma try_to_wake_up_correct_witness : exists s' c, try_to_wake_up hp4 no_fallback llc4 true 2 TASK_NORMAL false 1 None (after_steps asleep awake) = Ok s' /\
  is_cpu_allowed hp4 (w_task (after_steps asleep awake)) c = true /\ woken_on true c 2 s'.
Proof.
  destruct (try_to_wake_up_correct hp4 no_fallback llc4 true (after_steps asleep awake) 2 TASK_NORMAL false 1 None) as (s' & E & _ & _ & _ & Hw).
  - apply (run_all hp4 no_fallback llc4 true has_signal TASK_UNINTERRUPTIBLE loop4 awake); [exact awake_fresh | apply after_run; vm_compute; reflexivity].
  - vm_compute. reflexivity.
  - vm_compute. reflexivity.
  - vm_compute. discriminate.
  - intros _. vm_compute. reflexivity.
  - destruct Hw as (c & Ha & Hc). exists s', c. split; [exact E | split; [exact Ha | exact Hc]].
Defined.

(** * A normal state is overtaken *)

(** The caller sees [TASK_INTERRUPTIBLE]; the task then sleeps in [TASK_UNINTERRUPTIBLE]. *)
Definition overtaken : list (wlabel (signals := bool)) :=
  [LState TASK_INTERRUPTIBLE; LCall 2 TASK_INTERRUPTIBLE; LLock 0; LNextK false 0 None; LState TASK_UNINTERRUPTIBLE; LSchedule false false false; LFinish].
Definition overtakes : list (wlabel (signals := bool)) := repeat (LNextK false 0 None) 7 ++ [LIpi].

(** [try_to_wake_up] does not do what its comment says of it in concept, if the mask has a
    bit of the state then make it running, for a state that the task sets without the lock. A
    caller that asks for [TASK_INTERRUPTIBLE] alone, in a run in which nobody asks for anything
    else, wakes a task that sleeps in [TASK_UNINTERRUPTIBLE], and returns 1: the state changed
    between the test of the mask and the test of the queue. *)
Theorem normal_state_overtaken :
  wake_fresh hp4 awake /\ Forall (spares TASK_UNINTERRUPTIBLE) (overtaken ++ overtakes) /\
  exists s1 s2, exec4 overtaken awake = Some (Ok s1) /\ exec4 overtakes s1 = Some (Ok s2) /\
    w_state s1 = TASK_UNINTERRUPTIBLE /\ on_rq (w_task s1) = NOT_ON_RQ /\ w_waiting s1 = [] /\
    on_rq (w_task s2) = TASK_ON_RQ_QUEUED /\ w_state s2 = TASK_RUNNING /\ w_returned s2 = [true] /\ w_faults s2 = [].
Proof.
  split; [exact awake_fresh|]. split; [repeat constructor|].
  exists (after_steps overtaken awake), (after_steps overtakes (after_steps overtaken awake)).
  split; [vm_compute; reflexivity|]. split; [vm_compute; reflexivity|]. repeat split; vm_compute; reflexivity.
Qed.
