(* ===== verification/ProcTree.v ===== *)
(** The family of a task in src/3/20193018_PLUS-1/exit.c: the records of tasks
    and thread groups, releasing a dead task ([__exit_signal], [release_task]),
    orphaned process groups, giving the children of a dying task a new parent,
    and [exit_notify]. Tasks are named by their pid, groups by the pid of their
    leader. *)

From S2P Require Import Prelude KHeaders.
Local Open Scope Z_scope.

(** * State *)

Definition EXIT_DEAD : Z := 16.
Definition EXIT_ZOMBIE : Z := 32.
Definition EXIT_TRACE : Z := Z.lor EXIT_ZOMBIE EXIT_DEAD.

(** What a task or a group has used; each counter is a [u64]. *)
Record Usage := mkUsage {
  us_utime : Z;
  us_stime : Z;
  us_gtime : Z;
  us_min_flt : Z;
  us_maj_flt : Z;
  us_nvcsw : Z;
  us_nivcsw : Z;
  us_inblock : Z;
  us_oublock : Z
}.

Definition add64 (x y : Z) : Z := (x + y) mod 2 ^ 64.

Definition uadd (a b : Usage) : Usage :=
  mkUsage (add64 (us_utime a) (us_utime b)) (add64 (us_stime a) (us_stime b)) (add64 (us_gtime a) (us_gtime b))
    (add64 (us_min_flt a) (us_min_flt b)) (add64 (us_maj_flt a) (us_maj_flt b)) (add64 (us_nvcsw a) (us_nvcsw b))
    (add64 (us_nivcsw a) (us_nivcsw b)) (add64 (us_inblock a) (us_inblock b)) (add64 (us_oublock a) (us_oublock b)).

Definition no_usage : Usage := mkUsage 0 0 0 0 0 0 0 0 0.

(** A task. [exiting] is the flag [PF_EXITING], [traced] the state of
    [task_is_traced], [listening] the bit [JOBCTL_LISTENING], [level] and [ns]
    the depth and the name of its pid namespace. *)
Record Proc := mkProc {
  tgid : Z;
  real_parent : Z;
  parent : Z;
  ptrace : bool;
  exit_state : Z;
  exit_code : Z;
  exit_signal : Z;
  pdeath_signal : Z;
  exiting : bool;
  traced : bool;
  listening : bool;
  uid : Z;
  level : Z;
  ns : Z;
  usage : Usage;
  children : list Z;
  ptraced : list Z
}.

(** A thread group ([signal_struct] and the lists through its threads). *)
Record Group := mkGroup {
  threads : list Z;
  group_exit : bool;
  stop_stopped : bool;
  stop_continued : bool;
  group_exit_code : Z;
  pgrp : Z;
  session : Z;
  is_child_subreaper : bool;
  has_child_subreaper : bool;
  notify_count : Z;
  group_exit_task : Z;
  curr_target : Z;
  nr_threads : Z;
  g_usage : Usage;
  c_usage : Usage;
  maxrss : Z;
  cmaxrss : Z
}.

(** What is sent to others. *)
Inductive Note :=
  | Wake (t : Z)
  | Notify (t sig : Z)
  | KillPgrp (pgrp : Z) (sig : Z)
  | DeathSignal (t sig : Z).

(** [reapers] gives [child_reaper] for each pid namespace. *)
Record PS := mkPS {
  procs : gmap Z Proc;
  groups : gmap Z Group;
  reapers : gmap Z Z;
  current : Z;
  notes : list Note
}.

(** Assignments to a field. *)
Definition set_exit_state (p : Proc) (v : Z) : Proc :=
  mkProc (tgid p) (real_parent p) (parent p) (ptrace p) v (exit_code p) (exit_signal p) (pdeath_signal p) (exiting p) (traced p) (listening p) (uid p) (level p) (ns p) (usage p) (children p) (ptraced p).
Definition set_exit_code (p : Proc) (v : Z) : Proc :=
  mkProc (tgid p) (real_parent p) (parent p) (ptrace p) (exit_state p) v (exit_signal p) (pdeath_signal p) (exiting p) (traced p) (listening p) (uid p) (level p) (ns p) (usage p) (children p) (ptraced p).
Definition set_exit_signal (p : Proc) (v : Z) : Proc :=
  mkProc (tgid p) (real_parent p) (parent p) (ptrace p) (exit_state p) (exit_code p) v (pdeath_signal p) (exiting p) (traced p) (listening p) (uid p) (level p) (ns p) (usage p) (children p) (ptraced p).
Definition set_parents (p : Proc) (rp pa : Z) : Proc :=
  mkProc (tgid p) rp pa (ptrace p) (exit_state p) (exit_code p) (exit_signal p) (pdeath_signal p) (exiting p) (traced p) (listening p) (uid p) (level p) (ns p) (usage p) (children p) (ptraced p).
Definition set_children (p : Proc) (v : list Z) : Proc :=
  mkProc (tgid p) (real_parent p) (parent p) (ptrace p) (exit_state p) (exit_code p) (exit_signal p) (pdeath_signal p) (exiting p) (traced p) (listening p) (uid p) (level p) (ns p) (usage p) v (ptraced p).

Definition set_threads (g : Group) (v : list Z) : Group :=
  mkGroup v (group_exit g) (stop_stopped g) (stop_continued g) (group_exit_code g) (pgrp g) (session g) (is_child_subreaper g) (has_child_subreaper g) (notify_count g) (group_exit_task g) (curr_target g) (nr_threads g) (g_usage g) (c_usage g) (maxrss g) (cmaxrss g).
Definition set_stopped_code (g : Group) (v : Z) : Group :=
  mkGroup (threads g) (group_exit g) (stop_stopped g) (stop_continued g) v (pgrp g) (session g) (is_child_subreaper g) (has_child_subreaper g) (notify_count g) (group_exit_task g) (curr_target g) (nr_threads g) (g_usage g) (c_usage g) (maxrss g) (cmaxrss g).
Definition clear_continued (g : Group) : Group :=
  mkGroup (threads g) (group_exit g) (stop_stopped g) false (group_exit_code g) (pgrp g) (session g) (is_child_subreaper g) (has_child_subreaper g) (notify_count g) (group_exit_task g) (curr_target g) (nr_threads g) (g_usage g) (c_usage g) (maxrss g) (cmaxrss g).
Definition set_notify_count (g : Group) (v : Z) : Group :=
  mkGroup (threads g) (group_exit g) (stop_stopped g) (stop_continued g) (group_exit_code g) (pgrp g) (session g) (is_child_subreaper g) (has_child_subreaper g) v (group_exit_task g) (curr_target g) (nr_threads g) (g_usage g) (c_usage g) (maxrss g) (cmaxrss g).
Definition set_curr_target (g : Group) (v : Z) : Group :=
  mkGroup (threads g) (group_exit g) (stop_stopped g) (stop_continued g) (group_exit_code g) (pgrp g) (session g) (is_child_subreaper g) (has_child_subreaper g) (notify_count g) (group_exit_task g) v (nr_threads g) (g_usage g) (c_usage g) (maxrss g) (cmaxrss g).
Definition add_usage (g : Group) (u : Usage) : Group :=
  mkGroup (threads g) (group_exit g) (stop_stopped g) (stop_continued g) (group_exit_code g) (pgrp g) (session g) (is_child_subreaper g) (has_child_subreaper g) (notify_count g) (group_exit_task g) (curr_target g) (nr_threads g - 1) (uadd (g_usage g) u) (c_usage g) (maxrss g) (cmaxrss g).
Definition add_child_usage (g : Group) (u : Usage) (rss : Z) : Group :=
  mkGroup (threads g) (group_exit g) (stop_stopped g) (stop_continued g) (group_exit_code g) (pgrp g) (session g) (is_child_subreaper g) (has_child_subreaper g) (notify_count g) (group_exit_task g) (curr_target g) (nr_threads g) (g_usage g) (uadd (c_usage g) u) (maxrss g) (if cmaxrss g <? rss then rss else cmaxrss g).

Definition with_procs (st : PS) (m : gmap Z Proc) : PS := mkPS m (groups st) (reapers st) (current st) (notes st).
Definition with_groups (st : PS) (m : gmap Z Group) : PS := mkPS (procs st) m (reapers st) (current st) (notes st).
Definition with_reaper (st : PS) (n r : Z) : PS := mkPS (procs st) (groups st) (<[n := r]> (reapers st)) (current st) (notes st).
Definition note (st : PS) (n : Note) : PS := mkPS (procs st) (groups st) (reapers st) (current st) (notes st ++ [n]).

(** Following a pointer to a task that is gone is undefined. *)
Definition proc (st : PS) (p : Z) : res Proc := match procs st !! p with Some x => Ok x | None => Undef end.
Definition group (st : PS) (g : Z) : res Group := match groups st !! g with Some x => Ok x | None => Undef end.
(** [p->signal]. *)
Definition signal (st : PS) (p : Z) : res Group := x ← proc st p; group st (tgid x).

Definition set_proc (st : PS) (p : Z) (x : Proc) : PS := with_procs st (<[p := x]> (procs st)).
Definition set_group (st : PS) (g : Z) (x : Group) : PS := with_groups st (<[g := x]> (groups st)).

(** * What the code takes from other files *)

(** Predicates of linux/sched/signal.h and linux/ptrace.h, and the functions of
    kernel/signal.c, kernel/ptrace.c and kernel/pid_namespace.c. *)
Class Relatives := {
  thread_group_leader : Z -> Proc -> bool;
  thread_group_empty : PS -> Z -> bool;
  same_thread_group : Proc -> Proc -> bool;
  next_thread : Group -> Z -> Z;
  SIGCHLD : Z;
  SIGHUP : Z;
  SIGCONT : Z;
  do_notify_parent : PS -> Z -> Z -> bool;
  ptrace_unlink : PS -> Z -> PS;
  exit_ptrace : PS -> Z -> PS * list Z;
  zap_pid_ns_processes : PS -> Z -> PS
}.

(** What the predicates say. *)
Class RelativesOk `{Relatives} : Prop := {
  leader_spec p x : thread_group_leader p x = bool_decide (tgid x = p);
  empty_spec st p x g : procs st !! p = Some x -> groups st !! tgid x = Some g ->
    thread_group_empty st p = bool_decide (threads g = [p]);
  same_group_spec x y : same_thread_group x y = bool_decide (tgid x = tgid y);
  unlink_untraced st p x : procs st !! p = Some x -> ptrace x = false -> ptrace_unlink st p = st
}.

Section Tree.
  Context `{Relatives}.

Definition delay_group_leader (st : PS) (p : Z) (x : Proc) : bool :=
  thread_group_leader p x && negb (thread_group_empty st p).

Definition ptrace_reparented (st : PS) (x : Proc) : res bool :=
  r ← proc st (real_parent x); q ← proc st (parent x); mret (negb (same_thread_group r q)).

(** The pids of the tasks on the list of a process group: the leaders that
    [release_task] has not taken off it. *)
Definition pgrp_members (st : PS) (pg : Z) : list Z :=
  (map_to_list (groups st)).*1 ≫= fun l =>
    match procs st !! l, groups st !! l with
    | Some x, Some g => if bool_decide (tgid x = l /\ pgrp g = pg) then [l] else []
    | _, _ => []
    end.

(** * Releasing a task *)

Definition __unhash_process (st : PS) (p : Z) (x : Proc) (group_dead : bool) : res PS :=
  st ← (if group_dead
        then rp ← proc st (real_parent x);
             mret (set_proc st (real_parent x) (set_children rp (filter (fun c => c <> p) (children rp))))
        else mret st);
  g ← group st (tgid x);
  mret (set_group st (tgid x) (set_threads g (filter (fun t => t <> p) (threads g)))).

Definition __exit_signal (st : PS) (p : Z) : res PS :=
  x ← proc st p;
  g ← group st (tgid x);
  let group_dead := thread_group_leader p x in
  let '(g, st) :=
    if group_dead then (g, st)
    else
      let '(g, st) :=
        if 0 <? notify_count g then
          (set_notify_count g (notify_count g - 1),
           if notify_count g - 1 =? 0 then note st (Wake (group_exit_task g)) else st)
        else (g, st) in
      (if p =? curr_target g then set_curr_target g (next_thread g p) else g, st) in
  let st := set_group st (tgid x) (add_usage g (usage x)) in
  __unhash_process st p x group_dead.

(** One turn: the task goes; its leader comes next when it is a zombie that
    only waited for its threads and whose parent does not want it. *)
Definition release_body (s : PS * Z) : res (ctl (PS * Z) Empty_set) :=
  let '(st, p) := s in
  let st := ptrace_unlink st p in
  x ← proc st p;
  st ← __exit_signal st p;
  let leader := tgid x in
  let st := with_procs st (delete p (procs st)) in
  if (leader =? p) then mret (Break (st, leader))
  else
    l ← proc st leader;
    if thread_group_empty st leader && (exit_state l =? EXIT_ZOMBIE) then
      let zap := do_notify_parent st leader (exit_signal l) in
      let st := note st (Notify leader (exit_signal l)) in
      if zap then mret (Continue (set_proc st leader (set_exit_state l EXIT_DEAD), leader))
      else mret (Break (st, leader))
    else mret (Break (st, leader)).

(** Two turns are enough: the leader is its own leader. *)
Definition release_task (st : PS) (p : Z) : res PS :=
  r ← loop 2 release_body (st, p);
  match r with inl (st, _) => mret st | inr e => match e : Empty_set with end end.

(** The tasks of a list, in order. *)
Fixpoint release_all (st : PS) (l : list Z) : res PS :=
  match l with
  | [] => mret st
  | p :: l => st ← release_task st p; release_all st l
  end.

(** * Orphaned process groups *)

Definition pgrp_of (st : PS) (p : Z) : res Z := g ← signal st p; mret (pgrp g).
Definition session_of (st : PS) (p : Z) : res Z := g ← signal st p; mret (session g).

(** [is_global_init]: a thread of the process with pid 1. *)
Definition is_global_init (x : Proc) : bool := tgid x =? 1.

Fixpoint orphaned_scan (st : PS) (pg : Z) (ignored : option Z) (l : list Z) : res bool :=
  match l with
  | [] => mret true
  | p :: l =>
      if bool_decide (Some p = ignored) then orphaned_scan st pg ignored l
      else
        x ← proc st p;
        if negb (exit_state x =? 0) && thread_group_empty st p then orphaned_scan st pg ignored l
        else
          r ← proc st (real_parent x);
          if is_global_init r then orphaned_scan st pg ignored l
          else
            rpg ← pgrp_of st (real_parent x);
            rs ← session_of st (real_parent x);
            s ← session_of st p;
            if negb (rpg =? pg) && (rs =? s) then mret false else orphaned_scan st pg ignored l
  end.

Definition will_become_orphaned_pgrp (st : PS) (pg : Z) (ignored : option Z) : res bool :=
  orphaned_scan st pg ignored (pgrp_members st pg).

Definition is_current_pgrp_orphaned (st : PS) : res bool :=
  pg ← pgrp_of st (current st); will_become_orphaned_pgrp st pg None.

Definition has_stopped_jobs (st : PS) (pg : Z) : bool :=
  existsb (fun p => match groups st !! p with Some g => stop_stopped g | None => false end) (pgrp_members st pg).

(** [father] is [None] when the task itself exits. *)
Definition kill_orphaned_pgrp (st : PS) (t : Z) (father : option Z) : res PS :=
  x ← proc st t;
  pg ← pgrp_of st t;
  let par := match father with Some f => f | None => real_parent x end in
  let ignored := match father with Some _ => None | None => Some t end in
  ppg ← pgrp_of st par;
  ps ← session_of st par;
  s ← session_of st t;
  if negb (ppg =? pg) && (ps =? s) then
    o ← will_become_orphaned_pgrp st pg ignored;
    mret (if o && has_stopped_jobs st pg then note (note st (KillPgrp pg SIGHUP)) (KillPgrp pg SIGCONT) else st)
  else mret st.

(** * A new parent for the children *)

Definition find_alive_thread (st : PS) (p : Z) : res (option Z) :=
  g ← signal st p;
  mret (find (fun t => match procs st !! t with Some x => negb (exiting x) | None => false end) (threads g)).

Definition find_child_reaper (st : PS) (father : Z) (dead : list Z) : res (PS * Z * list Z) :=
  f ← proc st father;
  match reapers st !! ns f with
  | None => Undef
  | Some reaper =>
      if negb (reaper =? father) then mret (st, reaper, dead)
      else
        t ← find_alive_thread st father;
        match t with
        | Some t => mret (with_reaper st (ns f) t, t, dead)
        | None =>
            st ← release_all st dead;
            mret (zap_pid_ns_processes st (ns f), father, [])
        end
  end.

(** The walk over the ancestors; [init_task] has pid 0. *)
Definition reaper_body (st : PS) (ns_level : Z) (reaper : Z) : res (ctl Z (option Z)) :=
  r ← proc st reaper;
  if negb (level r =? ns_level) then mret (Break reaper)
  else if reaper =? 0 then mret (Break reaper)
  else
    g ← group st (tgid r);
    if negb (is_child_subreaper g) then mret (Continue (real_parent r))
    else
      t ← find_alive_thread st reaper;
      match t with
      | Some t => mret (Return (Some t))
      | None => mret (Continue (real_parent r))
      end.

(** No ancestor is visited twice, so as many turns as there are tasks, and one
    to stop. *)
Definition find_new_reaper (st : PS) (father child_reaper : Z) : res Z :=
  t ← find_alive_thread st father;
  match t with
  | Some t => mret t
  | None =>
      f ← proc st father;
      g ← group st (tgid f);
      if has_child_subreaper g then
        r ← loop (S (size (procs st))) (reaper_body st (level f)) (real_parent f);
        mret (match r with inr (Some t) => t | _ => child_reaper end)
      else mret child_reaper
  end.

Definition reparent_leader (st : PS) (father p : Z) (dead : list Z) : res (PS * list Z) :=
  x ← proc st p;
  if exit_state x =? EXIT_DEAD then mret (st, dead)
  else
    let x := set_exit_signal x SIGCHLD in
    let st := set_proc st p x in
    let '(st, dead) :=
      if negb (ptrace x) && (exit_state x =? EXIT_ZOMBIE) && thread_group_empty st p then
        let ignored := do_notify_parent st p SIGCHLD in
        let st := note st (Notify p SIGCHLD) in
        if ignored then (set_proc st p (set_exit_state x EXIT_DEAD), p :: dead) else (st, dead)
      else (st, dead) in
    st ← kill_orphaned_pgrp st p (Some father);
    mret (st, dead).

(** One thread [t] of a child. *)
Definition reparent_thread (father reaper : Z) (st : PS) (t : Z) : res PS :=
  x ← proc st t;
  if negb (Bool.eqb (negb (ptrace x)) (parent x =? father)) then Undef
  else
    let x := set_parents x reaper (if negb (ptrace x) then reaper else parent x) in
    let st := set_proc st t x in
    mret (if negb (pdeath_signal x =? 0) then note st (DeathSignal t (pdeath_signal x)) else st).

Fixpoint reparent_threads (father reaper : Z) (st : PS) (l : list Z) : res PS :=
  match l with
  | [] => mret st
  | t :: l => st ← reparent_thread father reaper st t; reparent_threads father reaper st l
  end.

Fixpoint reparent_children (father reaper : Z) (l : list Z) (st : PS) (dead : list Z) : res (PS * list Z) :=
  match l with
  | [] => mret (st, dead)
  | p :: l =>
      g ← signal st p;
      st ← reparent_threads father reaper st (threads g);
      f ← proc st father;
      r ← proc st reaper;
      '(st, dead) ← (if negb (same_thread_group r f) then reparent_leader st father p dead else mret (st, dead));
      reparent_children father reaper l st dead
  end.

Definition forget_original_parent (st : PS) (father : Z) : res (PS * list Z) :=
  f ← proc st father;
  let '(st, dead) := match ptraced f with [] => (st, []) | _ => exit_ptrace st father end in
  '(st, reaper, dead) ← find_child_reaper st father dead;
  f ← proc st father;
  match children f with
  | [] => mret (st, dead)
  | kids =>
      reaper ← find_new_reaper st father reaper;
      '(st, dead) ← reparent_children father reaper kids st dead;
      r ← proc st reaper;
      let st := set_proc st reaper (set_children r (children r ++ kids)) in
      f ← proc st father;
      mret (set_proc st father (set_children f []), dead)
  end.

Definition exit_notify (st : PS) (t : Z) (group_dead : bool) : res PS :=
  '(st, dead) ← forget_original_parent st t;
  x ← proc st t;
  st ← (if group_dead then kill_orphaned_pgrp st (tgid x) None else mret st);
  x ← proc st t;
  let x := set_exit_state x EXIT_ZOMBIE in
  let st := set_proc st t x in
  '(autoreap, st) ←
    (if ptrace x then
       rep ← (if thread_group_leader t x && thread_group_empty st t then ptrace_reparented st x else mret true);
       let sig := if rep : bool then SIGCHLD else exit_signal x in
       mret (do_notify_parent st t sig, note st (Notify t sig))
     else if thread_group_leader t x then
       mret (if thread_group_empty st t
             then (do_notify_parent st t (exit_signal x), note st (Notify t (exit_signal x)))
             else (false, st))
     else mret (true, st));
  let '(st, dead) := if autoreap : bool then (set_proc st t (set_exit_state x EXIT_DEAD), t :: dead) else (st, dead) in
  g ← group st (tgid x);
  let st := if notify_count g <? 0 then note st (Wake (group_exit_task g)) else st in
  release_all st dead.
End Tree.
