(* ===== verification/Family.v ===== *)
(** The family of a task stays a tree: the invariant of the records of
    ProcTree.v, the meaning of an orphaned process group, the choice of a new
    parent, and what a dying task leaves behind
    (src/3/20193018_PLUS-1/exit.c). *)

From S2P Require Import Prelude KHeaders ProcTree.
Local Open Scope Z_scope.

(** Every task has a group and a parent. *)
Definition linked (st : PS) : Prop :=
  forall p x, procs st !! p = Some x -> is_Some (groups st !! tgid x) /\ is_Some (procs st !! real_parent x).

(** POSIX 2.2.2.52: a process group is orphaned when the parent of every member
    is itself in the group or is outside the session; zombies without threads,
    children of init and the ignored task do not count. *)
Definition posix_orphaned (st : PS) (pg : Z) (ignored : option Z) : Prop :=
  forall p x g r rg,
    procs st !! p = Some x -> tgid x = p -> groups st !! p = Some g -> pgrp g = pg ->
    Some p <> ignored -> ~ (exit_state x <> 0 /\ threads g = [p]) ->
    procs st !! real_parent x = Some r -> groups st !! tgid r = Some rg -> tgid r <> 1 ->
    pgrp rg = pg \/ session rg <> session g.

(** A group with a stopped process. *)
Definition stopped_job (st : PS) (pg : Z) : Prop :=
  exists p x g, procs st !! p = Some x /\ tgid x = p /\ groups st !! p = Some g /\ pgrp g = pg /\ stop_stopped g = true.

Lemma proc_ok st p x : procs st !! p = Some x -> proc st p = Ok x.
Proof. unfold proc. intros ->. reflexivity. Qed.

Lemma group_ok st l g : groups st !! l = Some g -> group st l = Ok g.
Proof. unfold group. intros ->. reflexivity. Qed.

Lemma signal_ok st p x g : procs st !! p = Some x -> groups st !! tgid x = Some g -> signal st p = Ok g.
Proof. intros Hp Hg. unfold signal. rewrite (proc_ok _ _ _ Hp). apply group_ok, Hg. Qed.

(** Rewrites the accesses to tasks and groups that are known. *)
Ltac accesses :=
  repeat match goal with
  | H : procs ?st !! ?p = Some ?x |- context [ proc ?st ?p ] => rewrite (proc_ok st p x H)
  | H : groups ?st !! ?l = Some ?g |- context [ group ?st ?l ] => rewrite (group_ok st l g H)
  | H : procs ?st !! ?p = Some ?x, G : groups ?st !! tgid ?x = Some ?g |- context [ signal ?st ?p ] =>
      rewrite (signal_ok st p x g H G)
  | |- context [ mbind ?f (Ok ?a) ] => change (mbind f (Ok a)) with (f a); cbv beta
  | |- context [ mbind ?f (mret ?a) ] => change (mbind f (mret a)) with (f a); cbv beta
  end.

Section Orphans.
  Context `{RelativesOk}.

Lemma elem_pgrp_members st pg p :
  p ∈ pgrp_members st pg <->
  exists x g, procs st !! p = Some x /\ groups st !! p = Some g /\ tgid x = p /\ pgrp g = pg.
Proof.
  unfold pgrp_members. rewrite list_elem_of_bind. split.
  - intros (l & Hp & Hl). destruct (procs st !! l) as [x|] eqn:Ex; [|set_solver].
    destruct (groups st !! l) as [g|] eqn:Eg; [|set_solver]. case_bool_decide as E; [|set_solver].
    apply list_elem_of_singleton in Hp as ->. destruct E. eauto 10.
  - intros (x & g & Hx & Hg & Ht & Hpg). exists p. rewrite Hx, Hg, bool_decide_eq_true_2 by auto.
    split; [set_solver|]. apply list_elem_of_fmap. exists (p, g). split; [reflexivity|]. by apply elem_of_map_to_list.
Qed.

(** What one member of the list contributes. *)
Definition holds_group (st : PS) (pg : Z) (ignored : option Z) (p : Z) : Prop :=
  exists x g r rg, procs st !! p = Some x /\ groups st !! tgid x = Some g /\
    procs st !! real_parent x = Some r /\ groups st !! tgid r = Some rg /\
    Some p <> ignored /\ ~ (exit_state x <> 0 /\ threads g = [p]) /\ tgid r <> 1 /\
    pgrp rg <> pg /\ session rg = session g.

Lemma holds_group_iff st pg ignored p x g r rg :
  procs st !! p = Some x -> groups st !! tgid x = Some g ->
  procs st !! real_parent x = Some r -> groups st !! tgid r = Some rg ->
  holds_group st pg ignored p <->
  Some p <> ignored /\ ~ (exit_state x <> 0 /\ threads g = [p]) /\ tgid r <> 1 /\ pgrp rg <> pg /\ session rg = session g.
Proof.
  intros Hx Hg Hr Hrg. split.
  - intros (x' & g' & r' & rg' & ? & ? & ? & ? & ?). simplify_eq. auto.
  - intros Hc. exists x, g, r, rg. auto.
Qed.

Lemma orphaned_scan_spec st pg ignored l :
  linked st -> (forall p, p ∈ l -> is_Some (procs st !! p)) ->
  returns (orphaned_scan st pg ignored l) (fun b => b = true <-> forall p, p ∈ l -> ~ holds_group st pg ignored p).
Proof.
  intros HL. induction l as [|p l IH]; intros Hl; cbn [orphaned_scan].
  { apply returns_ok. split; [intros _ p Hp; by apply not_elem_of_nil in Hp | auto]. }
  specialize (IH (fun q Hq => Hl q (list_elem_of_further q p l Hq))).
  destruct (Hl p (list_elem_of_here p l)) as [x Hx]. destruct (HL _ _ Hx) as [[g Hg] [r Hr]]. destruct (HL _ _ Hr) as [[rg Hrg] _].
  pose proof (holds_group_iff st pg ignored p x g r rg Hx Hg Hr Hrg) as Hh.
  assert (~ holds_group st pg ignored p ->
    returns (orphaned_scan st pg ignored l) (fun b => b = true <-> forall q, q ∈ p :: l -> ~ holds_group st pg ignored q)) as skip.
  { intros Hn. eapply returns_mono; [exact IH|]. cbn. intros b ->. split; intros Hb q; [intros [->|Hq]%elem_of_cons; auto | intros Hq; apply Hb; by right]. }
  clear IH. case_bool_decide as Ei; [apply skip; tauto|]. accesses. rewrite (empty_spec _ _ _ _ Hx Hg).
  destruct (Z.eqb_spec (exit_state x) 0) as [Ez|Ez]; [|case_bool_decide as Et; [apply skip; tauto|]]; cbn [negb andb].
  all: accesses; unfold is_global_init, pgrp_of, session_of; destruct (Z.eqb_spec (tgid r) 1) as [E1|E1]; [apply skip; tauto|].
  all: accesses; cbn; destruct (Z.eqb_spec (pgrp rg) pg) as [E2|E2]; cbn; [apply skip; tauto|].
  all: destruct (Z.eqb_spec (session rg) (session g)) as [E3|E3]; cbn; [|apply skip; tauto].
  all: apply returns_ok; split; [discriminate|]; intros Hn; exfalso; apply (Hn p); [by left|]; tauto.
Qed.

Lemma will_become_orphaned_spec st pg ignored :
  linked st -> returns (will_become_orphaned_pgrp st pg ignored) (fun b => b = true <-> posix_orphaned st pg ignored).
Proof.
  intros HL. eapply returns_mono.
  { apply (orphaned_scan_spec st pg ignored (pgrp_members st pg) HL).
    intros p (x & g & ? & ?)%elem_pgrp_members. eauto. }
  intros b Hb. cbn in Hb. rewrite Hb. split.
  - intros Hn p x g r rg Hx Ht Hg Hpg Hi Hz Hr Hrg H1.
    destruct (decide (pgrp rg = pg)) as [|Hd]; [auto|]. right. intros Hs.
    apply (Hn p); [apply elem_pgrp_members; eauto 10|]. exists x, g, r, rg. rewrite Ht. auto 10.
  - intros Hp p (x & g & Hx & Hg & Ht & Hpg)%elem_pgrp_members (x' & g' & r & rg & Hx' & Hg' & Hr & Hrg & Hi & Hz & H1 & Hd & Hs).
    assert (x' = x) as -> by congruence. rewrite Ht in Hg'. assert (g' = g) as -> by congruence. subst pg. destruct (Hp _ _ _ _ _ Hx Ht Hg eq_refl Hi Hz Hr Hrg H1); auto.
Qed.

Lemma has_stopped_jobs_spec st pg : has_stopped_jobs st pg = true <-> stopped_job st pg.
Proof.
  unfold has_stopped_jobs, stopped_job. rewrite existsb_exists. setoid_rewrite <- list_elem_of_In. setoid_rewrite elem_pgrp_members. split.
  - intros (p & (x & g & Hx & Hg & Ht & Hpg) & Hs). rewrite Hg in Hs. naive_solver.
  - intros (p & x & g & Hx & Ht & Hg & Hpg & Hs). exists p. rewrite Hg. eauto 10.
Qed.

(** The process group of [t] was held by the parent [par] and no longer is. *)
Definition newly_orphaned (st : PS) (t par : Z) (ignored : option Z) : Prop :=
  exists x g r rg, procs st !! t = Some x /\ groups st !! tgid x = Some g /\
    procs st !! par = Some r /\ groups st !! tgid r = Some rg /\
    pgrp rg <> pgrp g /\ session rg = session g /\
    posix_orphaned st (pgrp g) ignored /\ stopped_job st (pgrp g).

Lemma kill_orphaned_pgrp_spec st t x g father :
  linked st -> procs st !! t = Some x -> groups st !! tgid x = Some g ->
  (forall f, father = Some f -> is_Some (procs st !! f)) ->
  let par := match father with Some f => f | None => real_parent x end in
  let ignored := match father with Some _ => None | None => Some t end in
  returns (kill_orphaned_pgrp st t father) (fun st' =>
    (newly_orphaned st t par ignored /\ st' = note (note st (KillPgrp (pgrp g) SIGHUP)) (KillPgrp (pgrp g) SIGCONT)) \/
    (~ newly_orphaned st t par ignored /\ st' = st)).
Proof.
  intros HL Hx Hg Hf par ignored. unfold kill_orphaned_pgrp, pgrp_of, session_of.
  assert (is_Some (procs st !! par)) as [r Hr] by (subst par; destruct father; [eauto | apply (HL _ _ Hx)]).
  destruct (HL _ _ Hr) as [[rg Hrg] _]. accesses. fold par ignored. accesses.
  destruct (Z.eqb_spec (pgrp rg) (pgrp g)) as [E|E]; cbn.
  { apply returns_ok. right. split; [|reflexivity]. unfold newly_orphaned. naive_solver. }
  destruct (Z.eqb_spec (session rg) (session g)) as [Es|Es]; cbn.
  2: { apply returns_ok. right. split; [|reflexivity]. unfold newly_orphaned. naive_solver. }
  eapply returns_bind; [apply will_become_orphaned_spec, HL|]. intros b Hb. cbn in Hb. apply returns_ok.
  destruct b; cbn.
  - destruct (has_stopped_jobs st (pgrp g)) eqn:Ej.
    + left. split; [|reflexivity]. exists x, g, r, rg. apply has_stopped_jobs_spec in Ej. naive_solver.
    + right. split; [|reflexivity]. intros (x' & g' & r' & rg' & ? & ? & ? & ? & ? & ? & ? & Hj). simplify_eq.
      apply has_stopped_jobs_spec in Hj. congruence.
  - right. split; [|reflexivity]. intros (x' & g' & r' & rg' & ? & ? & ? & ? & ? & ? & Ho & Hj). simplify_eq.
    apply Hb in Ho. discriminate.
Qed.
End Orphans.

(** * The tree *)

(** Every task is a thread of a group whose leader is still there and shares its
    parent and its pid namespace; [children] lists exactly the leaders whose
    real parent a task is; only [init_task] is its own parent, and [rank] grows
    from parents to children; dead tasks have no children; the reaper of a live
    task's namespace lives and is no descendant of it. *)
Record tree_ok (rank : Z -> nat) (st : PS) : Prop := {
  tree_group p x : procs st !! p = Some x -> exists g, groups st !! tgid x = Some g /\ p ∈ threads g;
  tree_thread l g t : groups st !! l = Some g -> t ∈ threads g ->
    exists x y, procs st !! t = Some x /\ tgid x = l /\ procs st !! l = Some y /\ tgid y = l /\
      real_parent x = real_parent y /\ ns x = ns y;
  tree_threads l g : groups st !! l = Some g -> NoDup (threads g);
  tree_parent p x : procs st !! p = Some x -> is_Some (procs st !! real_parent x);
  tree_plain p x : procs st !! p = Some x -> ptrace x = false -> parent x = real_parent x;
  tree_tracer p x : procs st !! p = Some x -> ptrace x = true -> exists y, procs st !! parent x = Some y /\ p ∈ ptraced y;
  tree_children p x c : procs st !! p = Some x ->
    c ∈ children x <-> c <> p /\ exists y, procs st !! c = Some y /\ tgid y = c /\ real_parent y = p;
  tree_siblings p x : procs st !! p = Some x -> NoDup (children x);
  tree_dead p x : procs st !! p = Some x -> exit_state x <> 0 -> children x = [] /\ exiting x = true;
  tree_init p x : procs st !! p = Some x -> tgid x = 0 -> p = 0;
  tree_root x : procs st !! 0 = Some x -> tgid x = 0 /\ real_parent x = 0;
  tree_rank p x y : procs st !! p = Some x -> procs st !! real_parent x = Some y -> tgid x <> 0 ->
    (rank (tgid y) < rank (tgid x))%nat;
  tree_reaper p x : procs st !! p = Some x -> exit_state x = 0 -> tgid x <> 0 ->
    exists r y, reapers st !! ns x = Some r /\ procs st !! r = Some y /\ exit_state y = 0 /\ ns y = ns x /\
      (rank (tgid y) <= rank (tgid x))%nat
}.

Lemma tree_linked rank st : tree_ok rank st -> linked st.
Proof. intros HT p x Hx. destruct (tree_group _ _ HT _ _ Hx) as (g & ? & ?). split; eauto using tree_parent. Qed.

(** The [n]th ancestor. *)
Fixpoint ancestor (st : PS) (n : nat) (p : Z) : option Z :=
  match n with
  | O => Some p
  | S n => q ← ancestor st n p; x ← procs st !! q; Some (real_parent x)
  end.

(** [t] is a living thread of the group of [p]. *)
Definition lives (st : PS) (p t : Z) : Prop :=
  exists x g y, procs st !! p = Some x /\ groups st !! tgid x = Some g /\ t ∈ threads g /\
    procs st !! t = Some y /\ exiting y = false.

(** [a] may be looked at: it is in the pid namespace and is not [init_task]. *)
Definition within (st : PS) (lv a : Z) : Prop :=
  a <> 0 /\ exists x, procs st !! a = Some x /\ level x = lv.

(** [a] is a child subreaper with a living thread. *)
Definition subreaper (st : PS) (a : Z) : Prop :=
  exists x g, procs st !! a = Some x /\ groups st !! tgid x = Some g /\ is_child_subreaper g = true /\ exists t, lives st a t.

(** The new parent of the children of [f]: a living thread of its own group;
    otherwise, where [f] has a subreaper above it, a living thread of the nearest
    one in its pid namespace; otherwise the reaper [c] of the namespace. *)
Inductive new_reaper (st : PS) (f c : Z) : Z -> Prop :=
  | new_thread t : lives st f t -> new_reaper st f c t
  | new_subreaper x g n a t :
      (forall t, ~ lives st f t) ->
      procs st !! f = Some x -> groups st !! tgid x = Some g -> has_child_subreaper g = true ->
      ancestor st (S n) f = Some a -> within st (level x) a -> subreaper st a -> lives st a t ->
      (forall m b, (m < n)%nat -> ancestor st (S m) f = Some b -> within st (level x) b /\ ~ subreaper st b) ->
      new_reaper st f c t
  | new_init x g :
      (forall t, ~ lives st f t) ->
      procs st !! f = Some x -> groups st !! tgid x = Some g ->
      (has_child_subreaper g = true -> forall n a, ancestor st (S n) f = Some a -> subreaper st a ->
         exists m b, (m <= n)%nat /\ ancestor st (S m) f = Some b /\ ~ within st (level x) b) ->
      new_reaper st f c c.

Lemma find_alive_spec st p x g :
  procs st !! p = Some x -> groups st !! tgid x = Some g ->
  exists o, find_alive_thread st p = Ok o /\
    match o with Some t => lives st p t | None => forall t, ~ lives st p t end.
Proof.
  intros Hx Hg. unfold find_alive_thread. accesses. eexists. split; [reflexivity|].
  destruct (find _ _) as [t|] eqn:E.
  - apply find_some in E as [Ht E]. destruct (procs st !! t) as [y|] eqn:Ey; [|discriminate].
    exists x, g, y. apply negb_true_iff in E. apply list_elem_of_In in Ht. auto.
  - intros t (x' & g' & y & Hx' & Hg' & Ht & Hy & Hl). simplify_eq.
    apply list_elem_of_In in Ht. apply (find_none _ _ E) in Ht. rewrite Hy, Hl in Ht. discriminate.
Qed.

Section Reaper.
  Context (rank : Z -> nat) (st : PS) (HT : tree_ok rank st).

(** The tasks that are closer to the root than a task. *)
Definition above (x : Proc) : gmap Z Proc := filter (fun '(_, y) => (rank (tgid y) < rank (tgid x))%nat) (procs st).

Lemma above_parent p x y :
  procs st !! p = Some x -> procs st !! real_parent x = Some y -> tgid x <> 0 -> (size (above y) < size (above x))%nat.
Proof.
  intros Hx Hy H0. pose proof (tree_rank _ _ HT _ _ _ Hx Hy H0) as Hr. apply map_subset_size.
  apply map_subset_alt. split.
  - apply map_filter_subseteq_ext. intros i z _. cbn. lia.
  - exists (real_parent x). split.
    + apply map_lookup_filter_None. right. intros z Hz. cbn. simplify_eq. lia.
    + exists y. apply map_lookup_filter_Some. auto.
Qed.

Lemma above_bound x : (size (above x) < S (size (procs st)))%nat.
Proof. pose proof (map_subseteq_size (above x) (procs st) (map_filter_subseteq _ _)). lia. Qed.
End Reaper.

Lemma ancestor_S st n p q x : ancestor st n p = Some q -> procs st !! q = Some x -> ancestor st (S n) p = Some (real_parent x).
Proof. intros Hq Hx. cbn [ancestor]. rewrite Hq. cbn. rewrite Hx. reflexivity. Qed.

(** The state of the walk: [a] is the ancestor number [S n], and every one before
    it was looked at and refused. *)
Definition walking (st : PS) (f lv : Z) (n : nat) (a : Z) : Prop :=
  ancestor st (S n) f = Some a /\
  forall m b, (m < n)%nat -> ancestor st (S m) f = Some b -> within st lv b /\ ~ subreaper st b.

Lemma walking_on st f lv n a x :
  walking st f lv n a -> procs st !! a = Some x -> within st lv a -> ~ subreaper st a ->
  walking st f lv (S n) (real_parent x).
Proof.
  intros [Ha Hb] Hx Hw Hs. split; [exact (ancestor_S _ _ _ _ _ Ha Hx)|]. intros m b Hm Hmb.
  destruct (decide (m = n)) as [->|]; [|apply (Hb m); [lia|exact Hmb]].
  rewrite Ha in Hmb. injection Hmb as <-. auto.
Qed.

Lemma walking_out st f lv n a :
  walking st f lv n a -> ~ within st lv a ->
  forall k b, ancestor st (S k) f = Some b -> subreaper st b ->
    exists m d, (m <= k)%nat /\ ancestor st (S m) f = Some d /\ ~ within st lv d.
Proof.
  intros [Ha Hb] Hw k b Hk Hs. destruct (decide (n <= k)%nat); [eauto|].
  destruct (Hb k b ltac:(lia) Hk). contradiction.
Qed.

(** What the walk ends with. *)
Definition walked (st : PS) (f lv : Z) (r : Z + option Z) : Prop :=
  match r with
  | inr (Some t) => exists n a, walking st f lv n a /\ within st lv a /\ subreaper st a /\ lives st a t
  | inr None => False
  | inl _ => exists n a, walking st f lv n a /\ ~ within st lv a
  end.

Lemma reaper_walk rank st f lv a fuel :
  tree_ok rank st -> ancestor st 1 f = Some a -> is_Some (procs st !! a) -> (size (procs st) < fuel)%nat ->
  returns (loop fuel (reaper_body st lv) a) (walked st f lv).
Proof.
  intros HT Ha [x Hx] Hfuel.
  apply (loop_rule (fun k a => exists n x, walking st f lv n a /\ procs st !! a = Some x /\ size (above rank st x) = k) _ _ _
    (size (above rank st x))).
  { exists 0%nat, x. split; [|auto]. split; [exact Ha|]. intros. lia. }
  { pose proof (above_bound rank st x). lia. }
  clear a Ha x Hx. intros k a (n & x & Hw & Hx & Hk).
  destruct (tree_group _ _ HT _ _ Hx) as (g & Hg & _). unfold reaper_body. accesses.
  destruct (Z.eqb_spec (level x) lv) as [El|El]; cbn [negb].
  2: { apply returns_ok. cbn. exists n, a. split; [exact Hw|]. intros [_ (x' & Hx' & ?)]. congruence. }
  destruct (Z.eqb_spec a 0) as [E0|E0]; cbn [negb].
  { apply returns_ok. cbn. exists n, a. split; [exact Hw|]. intros [? _]. contradiction. }
  accesses.
  assert (within st lv a) as Hin by (split; eauto).
  assert (~ subreaper st a ->
    ctl_post (fun a1 => exists k1, (k1 < k)%nat /\ exists n1 x1, walking st f lv n1 a1 /\ procs st !! a1 = Some x1 /\ size (above rank st x1) = k1)
      (walked st f lv) (Continue (real_parent x))) as go.
  { intros Hn. destruct (tree_parent _ _ HT _ _ Hx) as [y Hy]. exists (size (above rank st y)). split.
    - rewrite <- Hk. apply (above_parent rank st HT a x y Hx Hy). intros E. apply E0, (tree_init _ _ HT _ _ Hx E).
    - exists (S n), y. split; [exact (walking_on _ _ _ _ _ _ Hw Hx Hin Hn)|auto]. }
  destruct (is_child_subreaper g) eqn:Es; cbn [negb].
  2: { apply returns_ok, go. intros (x' & g' & ? & ? & ? & _). simplify_eq. congruence. }
  destruct (find_alive_spec st a x g Hx Hg) as (o & Ho & Hs). rewrite Ho. accesses. destruct o as [t|]; apply returns_ok.
  - cbn. exists n, a. split; [exact Hw|]. split; [exact Hin|]. split; [|exact Hs]. exists x, g. eauto 10.
  - apply go. intros (x' & g' & ? & ? & ? & t & Ht). exact (Hs t Ht).
Qed.

Lemma find_new_reaper_spec rank st f c x :
  tree_ok rank st -> procs st !! f = Some x -> returns (find_new_reaper st f c) (new_reaper st f c).
Proof.
  intros HT Hx. destruct (tree_group _ _ HT _ _ Hx) as (g & Hg & _). unfold find_new_reaper.
  destruct (find_alive_spec st f x g Hx Hg) as (o & Ho & Hs). rewrite Ho. accesses.
  destruct o as [t|]; [apply returns_ok, new_thread, Hs|]. accesses.
  destruct (has_child_subreaper g) eqn:Eh.
  2: { apply returns_ok, (new_init _ _ _ x g Hs Hx Hg). congruence. }
  assert (ancestor st 1 f = Some (real_parent x)) as Ha by (cbn; rewrite Hx; reflexivity).
  eapply returns_bind; [apply (reaper_walk rank st f (level x)); eauto using tree_parent|].
  intros [b|[t|]]; cbn; [intros (n & a & Hw & Hn)|intros (n & a & [Ha' Hb] & Hin & Hsub & Ht)|contradiction]; apply returns_ok.
  - apply (new_init _ _ _ x g Hs Hx Hg). intros _. exact (walking_out _ _ _ _ _ Hw Hn).
  - exact (new_subreaper _ _ _ x g n a t Hs Hx Hg Eh Ha' Hin Hsub Ht Hb).
Qed.
