(* ===== verification/Reparent.v ===== *)
(** What [forget_original_parent] of src/3/20193018_PLUS-1/exit.c does to the
    tree: every child of the dying task, with all its threads, goes to the new
    reaper, and the tree stays well-formed. *)

From S2P Require Import Prelude KHeaders ProcTree Family.
Local Open Scope Z_scope.

(** Nothing but tasks and notes differs, and notes are only added. *)
Record same_rest (st st' : PS) : Prop := {
  same_groups : groups st' = groups st;
  same_reapers : reapers st' = reapers st;
  same_current : current st' = current st;
  same_notes : notes st `prefix_of` notes st'
}.

#[export] Instance same_rest_pre : PreOrder same_rest.
Proof.
  split.
  - intros st. split; reflexivity.
  - intros st1 st2 st3 [G1 R1 C1 N1] [G2 R2 C2 N2]. split; [congruence..|]. etrans; eassumption.
Qed.

Lemma same_set_proc st p x : same_rest st (set_proc st p x).
Proof. split; reflexivity. Qed.

Lemma same_note st n : same_rest st (note st n).
Proof. split; [reflexivity..|]. cbn. by apply prefix_app_r. Qed.

#[export] Hint Resolve same_set_proc same_note : core.

Lemma noted st st' n : same_rest st st' -> n ∈ notes st -> n ∈ notes st'.
Proof. intros [_ _ _ [k ->]] Hn. apply elem_of_app. by left. Qed.

Lemma noted_note st n : n ∈ notes (note st n).
Proof. cbn. apply elem_of_app. right. by left. Qed.

Section Threads.
  Context `{RelativesOk}.

(** What a thread of a child becomes. *)
Definition moved (r : Z) (x : Proc) : Proc := set_parents x r (if ptrace x then parent x else r).

(** [f] is the parent of [t] unless somebody traces [t]. *)
Definition natural (f : Z) (x : Proc) : Prop := ptrace x = false <-> parent x = f.

Lemma reparent_thread_spec f r st t x :
  procs st !! t = Some x -> natural f x ->
  returns (reparent_thread f r st t) (fun st' =>
    procs st' = <[t := moved r x]> (procs st) /\ same_rest st st' /\
    (pdeath_signal x <> 0 -> DeathSignal t (pdeath_signal x) ∈ notes st')).
Proof.
  intros Hx Hn. unfold reparent_thread. accesses.
  replace (Bool.eqb (negb (ptrace x)) (parent x =? f)) with true.
  2: { unfold natural in Hn. destruct (ptrace x), (Z.eqb_spec (parent x) f); cbn; intuition congruence. }
  cbn [negb]. change (pdeath_signal (set_parents x r _)) with (pdeath_signal x).
  replace (if negb (ptrace x) then r else parent x) with (if ptrace x then parent x else r) by (destruct (ptrace x); reflexivity).
  fold (moved r x). apply returns_ok. destruct (Z.eqb_spec (pdeath_signal x) 0) as [E|E]; cbn [negb].
  - split; [reflexivity|]. split; [auto|]. congruence.
  - split; [reflexivity|]. split; [|intros _; apply noted_note]. etrans; [|apply same_note]. auto.
Qed.

Lemma reparent_threads_spec f r l : forall st,
  NoDup l -> (forall t, t ∈ l -> exists x, procs st !! t = Some x /\ natural f x) ->
  returns (reparent_threads f r st l) (fun st' =>
    (forall p, procs st' !! p = (fun x => if bool_decide (p ∈ l) then moved r x else x) <$> procs st !! p) /\
    same_rest st st' /\
    (forall t x, t ∈ l -> procs st !! t = Some x -> pdeath_signal x <> 0 -> DeathSignal t (pdeath_signal x) ∈ notes st')).
Proof.
  induction l as [|t l IH]; intros st Hnd Hl; cbn [reparent_threads].
  { apply returns_ok. split; [|split; [reflexivity|]].
    - intros p. destruct (procs st !! p); reflexivity.
    - intros t x Ht. by apply not_elem_of_nil in Ht. }
  apply NoDup_cons in Hnd as [Hnt Hnd]. destruct (Hl t (list_elem_of_here _ _)) as (x & Hx & Hxn).
  eapply returns_bind; [exact (reparent_thread_spec f r st t x Hx Hxn)|]. intros st1 (Hp & Hs & Hd).
  eapply returns_mono.
  { apply (IH st1 Hnd). intros q Hq. rewrite Hp, lookup_insert_ne by congruence. apply Hl. by right. }
  intros st2 (Hp2 & Hs2 & Hd2). split; [|split; [etrans; eassumption|]].
  - intros p. rewrite Hp2, Hp. destruct (decide (p = t)) as [->|Hne].
    + rewrite lookup_insert_eq, Hx. cbn. rewrite bool_decide_eq_false_2 by exact Hnt.
      rewrite bool_decide_eq_true_2 by apply list_elem_of_here. reflexivity.
    + rewrite lookup_insert_ne by congruence. rewrite (bool_decide_ext (p ∈ t :: l) (p ∈ l)); [reflexivity|].
      rewrite elem_of_cons. tauto.
  - intros q y [->|Hq]%elem_of_cons Hy Hsig.
    + simplify_eq. exact (noted _ _ _ Hs2 (Hd Hsig)).
    + apply Hd2; [exact Hq| |exact Hsig]. rewrite Hp, lookup_insert_ne; congruence.
Qed.
End Threads.

Section Children.
  Context `{RelativesOk}.

Lemma linked_map (F : Z -> Proc -> Proc) r st st' :
  (forall p, procs st' !! p = F p <$> procs st !! p) -> groups st' = groups st ->
  (forall p x, tgid (F p x) = tgid x /\ (real_parent (F p x) = real_parent x \/ real_parent (F p x) = r)) ->
  is_Some (procs st !! r) -> linked st -> linked st'.
Proof.
  intros Hp Hg HF Hr HL p y Hy. rewrite Hp in Hy. apply fmap_Some in Hy as (x & Hx & ->).
  destruct (HF p x) as [-> Hrp], (HL _ _ Hx) as [Hgx Hpx]. rewrite Hg, Hp. split; [exact Hgx|].
  apply fmap_is_Some. by destruct Hrp as [-> | ->].
Qed.

(** A child that is dead, wanted by nobody else and without threads. *)
Definition mourned (p : Z) (x : Proc) (g : Group) : Prop :=
  ptrace x = false /\ exit_state x = EXIT_ZOMBIE /\ threads g = [p].

(** What the leader of a child becomes; [b] when its new parent ignores it. *)
Definition buried (b : bool) (x : Proc) : Proc :=
  let x := if exit_state x =? EXIT_DEAD then x else set_exit_signal x SIGCHLD in
  if b then set_exit_state x EXIT_DEAD else x.

Lemma buried_links b x : tgid (buried b x) = tgid x /\ real_parent (buried b x) = real_parent x.
Proof. unfold buried. destruct b, (_ =? _); auto. Qed.

Lemma mourned_test st p x g :
  procs st !! p = Some x -> groups st !! tgid x = Some g ->
  negb (ptrace x) && (exit_state x =? EXIT_ZOMBIE) && thread_group_empty st p = true <-> mourned p x g.
Proof.
  intros Hx Hg. rewrite (empty_spec _ _ _ _ Hx Hg). unfold mourned. rewrite !andb_true_iff, negb_true_iff, Z.eqb_eq, bool_decide_eq_true. tauto.
Qed.

Lemma reparent_leader_spec st f p x g dead :
  linked st -> procs st !! p = Some x -> groups st !! tgid x = Some g -> is_Some (procs st !! f) ->
  returns (reparent_leader st f p dead) (fun '(st', dead') => exists b,
    procs st' = <[p := buried b x]> (procs st) /\ same_rest st st' /\ dead' = (if b then p :: dead else dead) /\
    (b = true -> mourned p x g) /\ (mourned p x g -> Notify p SIGCHLD ∈ notes st')).
Proof.
  intros HL Hx Hg Hf. unfold reparent_leader. accesses. unfold buried. destruct (Z.eqb_spec (exit_state x) EXIT_DEAD) as [Ed|Ed].
  { apply returns_ok. exists false. rewrite insert_id by exact Hx. split; [reflexivity|]. split; [reflexivity|]. split; [reflexivity|].
    split; [discriminate|]. intros (_ & E & _). rewrite Ed in E. discriminate. }
  cbv zeta. set (x1 := set_exit_signal x SIGCHLD). set (st1 := set_proc st p x1).
  assert (procs st1 !! p = Some x1) as Hx1 by apply lookup_insert_eq.
  assert (groups st1 !! tgid x1 = Some g) as Hg1 by exact Hg.
  match goal with |- returns (match ?e with _ => _ end) _ => destruct e as [st2 dead2] eqn:E2 end.
  assert (exists b : bool, procs st2 = <[p := if b then set_exit_state x1 EXIT_DEAD else x1]> (procs st) /\ same_rest st st2 /\
    dead2 = (if b then p :: dead else dead) /\ (b = true -> mourned p x g) /\ (mourned p x g -> Notify p SIGCHLD ∈ notes st2))
    as (b & Hp2 & Hs2 & Hd2 & Hb & Hm).
  { pose proof (mourned_test st1 p x1 g Hx1 Hg1) as Ht. change (mourned p x1 g) with (mourned p x g) in Ht.
    destruct (_ && _ && _) in E2, Ht; [destruct (do_notify_parent st1 p SIGCHLD)|]; injection E2 as <- <-.
    - exists true. split; [apply insert_insert_eq|]. split; [etrans; [|apply same_set_proc]; etrans; [|apply same_note]; apply same_set_proc|].
      split; [reflexivity|]. split; [tauto|]. intros _. apply noted_note.
    - exists false. split; [reflexivity|]. split; [etrans; [|apply same_note]; apply same_set_proc|]. split; [reflexivity|].
      split; [discriminate|]. intros _. apply noted_note.
    - exists false. split; [reflexivity|]. split; [apply same_set_proc|]. split; [reflexivity|]. split; [discriminate|].
      intros Hc. apply Ht in Hc. discriminate. }
  assert (forall q, is_Some (procs st !! q) -> is_Some (procs st2 !! q)) as Hsub by (intros q ?; rewrite Hp2; apply lookup_insert_is_Some'; auto).
  assert (linked st2) as HL2.
  { intros q y Hy. rewrite (same_groups _ _ Hs2). rewrite Hp2 in Hy. apply lookup_insert_Some in Hy as [[<- <-]|[_ Hy]].
    - destruct (HL _ _ Hx). destruct b; cbn; auto.
    - destruct (HL _ _ Hy). auto. }
  set (y := if b then set_exit_state x1 EXIT_DEAD else x1) in *.
  assert (procs st2 !! p = Some y) as Hy by (rewrite Hp2; apply lookup_insert_eq).
  assert (groups st2 !! tgid y = Some g) as Hgy by (rewrite (same_groups _ _ Hs2); subst y; destruct b; exact Hg).
  eapply returns_bind; [apply (kill_orphaned_pgrp_spec st2 p y g (Some f) HL2 Hy Hgy); intros q [= <-]; auto|].
  intros st3 Hst3. apply returns_ok. exists b. split; [|split; [|split; [exact Hd2|split; [exact Hb|]]]].
  - transitivity (procs st2); [|exact Hp2]. destruct Hst3 as [[_ ->]|[_ ->]]; reflexivity.
  - etrans; [exact Hs2|]. destruct Hst3 as [[_ ->]|[_ ->]]; [etrans; apply same_note|reflexivity].
  - intros Hc. specialize (Hm Hc). destruct Hst3 as [[_ ->]|[_ ->]]; [|exact Hm]. eapply noted; [|exact Hm]. etrans; apply same_note.
Qed.
End Children.

Section Loop.
  Context `{RelativesOk} (rank : Z -> nat) (st0 : PS) (HT : tree_ok rank st0).
  Context (f r : Z) (x y : Proc) (Hx : procs st0 !! f = Some x) (Hy : procs st0 !! r = Some y).
  Context (Hf0 : tgid x <> 0) (Hpt : ptraced x = []).

(** The reaper is a thread of the dying task's group. *)
Definition threaded : bool := bool_decide (tgid y = tgid x).

(** What task [p] has become when the children [done] have been moved and [dead]
    of them buried. *)
Definition given (done dead : list Z) (p : Z) (z : Proc) : Proc :=
  if bool_decide (tgid z ∈ done) then
    if negb threaded && bool_decide (tgid z = p) then buried (bool_decide (p ∈ dead)) (moved r z) else moved r z
  else z.

Record progress (done : list Z) (st : PS) (dead : list Z) : Prop := {
  pr_procs p : procs st !! p = given done dead p <$> procs st0 !! p;
  pr_rest : same_rest st0 st;
  pr_dead p : p ∈ dead -> p ∈ done /\ threaded = false /\ exists z g, procs st0 !! p = Some z /\ groups st0 !! p = Some g /\ mourned p z g;
  pr_nodup : NoDup dead;
  pr_notify p z g : p ∈ done -> threaded = false -> procs st0 !! p = Some z -> groups st0 !! p = Some g -> mourned p z g ->
    Notify p SIGCHLD ∈ notes st;
  pr_signal t z : procs st0 !! t = Some z -> tgid z ∈ done -> pdeath_signal z <> 0 -> DeathSignal t (pdeath_signal z) ∈ notes st
}.

Lemma given_links done dead p z :
  tgid (given done dead p z) = tgid z /\ (real_parent (given done dead p z) = real_parent z \/ real_parent (given done dead p z) = r).
Proof.
  unfold given. case_bool_decide; [|auto]. destruct (negb threaded && _); [|cbn; auto].
  destruct (buried_links (bool_decide (p ∈ dead)) (moved r z)) as [-> ->]. cbn. auto.
Qed.

(** A child: a leader whose threads all are children of [f] that nobody else
    than a tracer of another task watches. *)
Lemma child_facts k : k ∈ children x -> k <> f /\ exists zk g, procs st0 !! k = Some zk /\ tgid zk = k /\ real_parent zk = f /\
  groups st0 !! k = Some g /\ NoDup (threads g) /\ k ∈ threads g /\
  (forall t, t ∈ threads g <-> exists z, procs st0 !! t = Some z /\ tgid z = k) /\
  (forall t z, procs st0 !! t = Some z -> tgid z = k -> natural f z).
Proof.
  intros Hk. apply (tree_children _ _ HT _ _ _ Hx) in Hk as (Hkf & zk & Hzk & Htk & Hpk). split; [exact Hkf|].
  destruct (tree_group _ _ HT _ _ Hzk) as (g & Hg & Hkg). rewrite Htk in Hg. exists zk, g.
  split; [exact Hzk|]. split; [exact Htk|]. split; [exact Hpk|]. split; [exact Hg|].
  split; [exact (tree_threads _ _ HT _ _ Hg)|]. split; [exact Hkg|]. split.
  - intros t. split.
    + intros Ht. destruct (tree_thread _ _ HT _ _ _ Hg Ht) as (z & _ & ? & ? & _). eauto.
    + intros (z & Hz & Htz). destruct (tree_group _ _ HT _ _ Hz) as (g' & Hg' & ?). congruence.
  - intros t z Hz Htz. destruct (tree_group _ _ HT _ _ Hz) as (g' & Hg' & Htg). rewrite Htz in Hg'.
    destruct (tree_thread _ _ HT _ _ _ Hg' Htg) as (z' & zk' & ? & ? & ? & ? & Hrp & _). simplify_eq. unfold natural. split.
    + intros Hp. rewrite (tree_plain _ _ HT _ _ Hz Hp). congruence.
    + intros Hp. destruct (ptrace z) eqn:E; [|reflexivity]. destruct (tree_tracer _ _ HT _ _ Hz E) as (w & Hw & Hin).
      rewrite Hp in Hw. assert (w = x) as -> by congruence. rewrite Hpt in Hin. by apply not_elem_of_nil in Hin.
Qed.

Lemma progress_linked done st dead : progress done st dead -> linked st.
Proof.
  intros [Hp [Hg _ _ _] _ _ _ _]. apply (linked_map (given done dead) r st0 st Hp Hg); [apply given_links|eauto|].
  exact (tree_linked _ _ HT).
Qed.

(** One child, first its threads. *)
Lemma progress_threads done st dead k g :
  progress done st dead -> k ∈ children x -> k ∉ done -> groups st0 !! k = Some g ->
  returns (reparent_threads f r st (threads g)) (fun st1 =>
    (forall p, procs st1 !! p = (fun z => if bool_decide (tgid z = k) then moved r z else given done dead p z) <$> procs st0 !! p) /\
    same_rest st st1 /\
    (forall t z, procs st0 !! t = Some z -> tgid z = k -> pdeath_signal z <> 0 -> DeathSignal t (pdeath_signal z) ∈ notes st1)).
Proof.
  intros Hpr Hk Hnk Hg. destruct (child_facts k Hk) as (_ & zk & g' & _ & _ & _ & Hg' & Hnd & _ & Hth & Hnat).
  assert (g' = g) as -> by congruence.
  assert (forall t z, procs st0 !! t = Some z -> tgid z = k -> procs st !! t = Some z) as Hsame.
  { intros t z Hz Htz. rewrite (pr_procs _ _ _ Hpr), Hz. cbn. unfold given. rewrite bool_decide_eq_false_2; congruence. }
  eapply returns_mono.
  { apply (reparent_threads_spec f r (threads g) st Hnd). intros t Ht. apply Hth in Ht as (z & Hz & Htz). eauto. }
  cbn. intros st1 (Hp1 & Hs1 & Hd1). split; [|split; [exact Hs1|]].
  - intros p. rewrite Hp1. destruct (procs st0 !! p) as [z|] eqn:Ez.
    + destruct (decide (tgid z = k)) as [Ek|Ek].
      * rewrite (Hsame p z Ez Ek). cbn. rewrite !bool_decide_eq_true_2; [reflexivity|exact Ek|]. apply Hth. eauto.
      * rewrite (pr_procs _ _ _ Hpr), Ez. cbn. rewrite !bool_decide_eq_false_2; [reflexivity|exact Ek|]. intros (z' & ? & ?)%Hth. congruence.
    + rewrite (pr_procs _ _ _ Hpr), Ez. reflexivity.
  - intros t z Hz Htz. apply Hd1; [apply Hth; eauto|]. exact (Hsame t z Hz Htz).
Qed.

(** The state between the threads of the child [k] and its leader. *)
Definition halfway (done : list Z) (st : PS) (dead : list Z) (k : Z) (st1 : PS) : Prop :=
  (forall p, procs st1 !! p = (fun z => if bool_decide (tgid z = k) then moved r z else given done dead p z) <$> procs st0 !! p) /\
  same_rest st st1 /\
  (forall t z, procs st0 !! t = Some z -> tgid z = k -> pdeath_signal z <> 0 -> DeathSignal t (pdeath_signal z) ∈ notes st1).

Lemma halfway_linked done st dead k st1 : progress done st dead -> halfway done st dead k st1 -> linked st1.
Proof.
  intros Hpr (Hp & Hs & _).
  apply (linked_map (fun p z => if bool_decide (tgid z = k) then moved r z else given done dead p z) r st0 st1 Hp).
  - rewrite (same_groups _ _ Hs). apply (same_groups _ _ (pr_rest _ _ _ Hpr)).
  - intros p z. case_bool_decide; [cbn; auto|apply given_links].
  - eauto.
  - exact (tree_linked _ _ HT).
Qed.

(** The record of a task after one more child. *)
Lemma given_snoc done dead dead' k p z :
  k ∉ done -> (p <> k -> p ∈ dead' <-> p ∈ dead) -> procs st0 !! p = Some z ->
  given (done ++ [k]) dead' p z =
    if bool_decide (tgid z = k) then
      if negb threaded && bool_decide (p = k) then buried (bool_decide (p ∈ dead')) (moved r z) else moved r z
    else given done dead p z.
Proof.
  intros Hk Hd Hz. unfold given. destruct (decide (tgid z = k)) as [E|E].
  - rewrite (bool_decide_eq_true_2 (tgid z = k) E), E.
    rewrite (bool_decide_eq_true_2 (k ∈ done ++ [k])) by (apply elem_of_app; right; by left).
    rewrite (bool_decide_ext (k = p) (p = k)) by (split; congruence). reflexivity.
  - rewrite (bool_decide_eq_false_2 (tgid z = k) E), (bool_decide_ext (tgid z ∈ done ++ [k]) (tgid z ∈ done)).
    2: { rewrite elem_of_app, list_elem_of_singleton. tauto. }
    destruct (decide (tgid z = p)) as [Et|Et]; [|rewrite (bool_decide_eq_false_2 (tgid z = p) Et), andb_false_r; reflexivity].
    rewrite (bool_decide_ext (p ∈ dead') (p ∈ dead)); [reflexivity|]. apply Hd. congruence.
Qed.

Lemma progress_snoc done st dead k g zk st2 dead' b st1 :
  progress done st dead -> k ∉ done -> groups st0 !! k = Some g -> procs st0 !! k = Some zk -> tgid zk = k ->
  halfway done st dead k st1 -> same_rest st1 st2 ->
  (forall p, procs st2 !! p = (if negb threaded && bool_decide (p = k) then buried b else id) <$> procs st1 !! p) ->
  dead' = (if b then k :: dead else dead) ->
  (b = true -> threaded = false /\ mourned k zk g) ->
  (threaded = false -> mourned k zk g -> Notify k SIGCHLD ∈ notes st2) ->
  progress (done ++ [k]) st2 dead'.
Proof.
  intros Hpr Hk Hg Hzk Htk (Hp1 & Hs1 & Hd1) Hs2 Hp2 Hdead Hb Hn.
  assert (k ∉ dead) as Hkd by (intros (Hin & _)%(pr_dead _ _ _ Hpr); contradiction).
  assert (forall p, p <> k -> p ∈ dead' <-> p ∈ dead) as Hdp.
  { intros p Hp. rewrite Hdead. destruct b; [|reflexivity]. rewrite elem_of_cons. tauto. }
  assert (bool_decide (k ∈ dead') = b) as Hbk.
  { rewrite Hdead. destruct b; [apply bool_decide_eq_true_2, list_elem_of_here|apply bool_decide_eq_false_2, Hkd]. }
  assert (same_rest st st2) as Hs by (etrans; eassumption).
  split.
  - intros p. rewrite Hp2, Hp1. destruct (procs st0 !! p) as [z|] eqn:Ez; [|reflexivity]. cbn. f_equal.
    rewrite (given_snoc done dead dead' k p z Hk (Hdp p) Ez).
    destruct (decide (p = k)) as [->|Hpk].
    + assert (z = zk) as -> by congruence. rewrite Hbk, (bool_decide_eq_true_2 (k = k) eq_refl), (bool_decide_eq_true_2 (tgid zk = k) Htk).
      destruct threaded; reflexivity.
    + rewrite (bool_decide_eq_false_2 (p = k)) by exact Hpk. rewrite andb_false_r. reflexivity.
  - etrans; [apply (pr_rest _ _ _ Hpr)|exact Hs].
  - intros p Hp. destruct (decide (p = k)) as [->|Hpk].
    + rewrite Hdead in Hp. destruct b; [|contradiction]. destruct (Hb eq_refl) as [Ht Hm]. split; [apply elem_of_app; right; by left|]. eauto 10.
    + apply (Hdp p Hpk), (pr_dead _ _ _ Hpr) in Hp as (Hin & Hrest). split; [apply elem_of_app; by left|exact Hrest].
  - rewrite Hdead. pose proof (pr_nodup _ _ _ Hpr). destruct b; [by apply NoDup_cons|assumption].
  - intros p z g' [Hin|Hin]%elem_of_app Ht Hz Hg' Hm; [apply (noted _ _ _ Hs), (pr_notify _ _ _ Hpr p z g'); auto|].
    apply list_elem_of_singleton in Hin as ->. simplify_eq. auto.
  - intros t z Hz [Hin|Hin]%elem_of_app Hsig; [apply (noted _ _ _ Hs), (pr_signal _ _ _ Hpr); auto|].
    apply list_elem_of_singleton in Hin. apply (noted _ _ _ Hs2), Hd1; auto.
Qed.

(** The leader of the child. *)
Lemma progress_leader done st dead k g zk st1 :
  progress done st dead -> k ∉ done -> groups st0 !! k = Some g -> procs st0 !! k = Some zk -> tgid zk = k ->
  halfway done st dead k st1 ->
  returns (if negb threaded then reparent_leader st1 f k dead else mret (st1, dead))
    (fun '(st2, dead') => progress (done ++ [k]) st2 dead').
Proof.
  intros Hpr Hk Hg Hzk Htk Hh. pose proof Hh as (Hp1 & Hs1 & _).
  pose proof (progress_snoc done st dead k g zk) as snoc. destruct threaded eqn:Eth; cbn [negb] in *.
  - apply returns_ok. apply (snoc st1 dead false st1); auto; [reflexivity| |discriminate|discriminate].
    intros p. cbn. destruct (procs st1 !! p); reflexivity.
  - assert (procs st1 !! k = Some (moved r zk)) as Hk1 by (rewrite Hp1, Hzk; cbn; rewrite bool_decide_eq_true_2 by exact Htk; reflexivity).
    assert (groups st1 !! tgid (moved r zk) = Some g) as Hg1.
    { cbn. rewrite Htk, (same_groups _ _ Hs1), (same_groups _ _ (pr_rest _ _ _ Hpr)). exact Hg. }
    assert (is_Some (procs st1 !! f)) as Hf1 by (rewrite Hp1, Hx; cbn; eauto).
    eapply returns_mono; [exact (reparent_leader_spec st1 f k _ g dead (halfway_linked _ _ _ _ _ Hpr Hh) Hk1 Hg1 Hf1)|].
    intros [st2 dead'] (b & Hp2 & Hs2 & Hd2 & Hb & Hn).
    apply (snoc st2 dead' b st1); auto. intros p. rewrite Hp2. cbn. destruct (decide (p = k)) as [->|Hne].
    + rewrite lookup_insert_eq, Hk1, (bool_decide_eq_true_2 (k = k) eq_refl). reflexivity.
    + rewrite lookup_insert_ne, (bool_decide_eq_false_2 (p = k) Hne) by congruence. destruct (procs st1 !! p); reflexivity.
Qed.

Lemma progress_same_group done st dead k st1 f1 r1 : halfway done st dead k st1 ->
  procs st1 !! f = Some f1 -> procs st1 !! r = Some r1 -> same_thread_group r1 f1 = threaded.
Proof.
  intros (Hp & _) Hf Hr. rewrite Hp, Hx in Hf. rewrite Hp, Hy in Hr. injection Hf as <-. injection Hr as <-.
  rewrite same_group_spec. unfold threaded. f_equal.
  assert (forall z p, tgid (if bool_decide (tgid z = k) then moved r z else given done dead p z) = tgid z) as Ht.
  { intros z p. case_bool_decide; [reflexivity|]. apply given_links. }
  rewrite !Ht. reflexivity.
Qed.

Lemma reparent_children_spec l : forall done st dead,
  children x = done ++ l -> progress done st dead ->
  returns (reparent_children f r l st dead) (fun '(st', dead') => progress (children x) st' dead').
Proof.
  induction l as [|k l IH]; intros done st dead Hc Hpr; cbn [reparent_children].
  { apply returns_ok. rewrite app_nil_r in Hc. rewrite Hc. exact Hpr. }
  assert (k ∈ children x) as Hk by (rewrite Hc; apply elem_of_app; right; by left).
  assert (k ∉ done) as Hnk.
  { pose proof (tree_siblings _ _ HT _ _ Hx) as Hnd. rewrite Hc in Hnd. apply NoDup_app in Hnd as (_ & Hnd & _).
    intros Hin. apply (Hnd k Hin). by left. }
  destruct (child_facts k Hk) as (Hkf & zk & g & Hzk & Htk & _ & Hg & _).
  assert (procs st !! k = Some zk) as Hk1.
  { rewrite (pr_procs _ _ _ Hpr), Hzk. cbn. unfold given. rewrite bool_decide_eq_false_2; congruence. }
  assert (groups st !! tgid zk = Some g) as Hg1 by (rewrite Htk, (same_groups _ _ (pr_rest _ _ _ Hpr)); exact Hg).
  accesses. eapply returns_bind; [exact (progress_threads done st dead k g Hpr Hk Hnk Hg)|].
  intros st1 Hh. assert (halfway done st dead k st1) as Hh' by exact Hh. pose proof Hh as (Hp1 & _).
  assert (exists f1, procs st1 !! f = Some f1) as [f1 Hf1] by (rewrite Hp1, Hx; cbn; eauto).
  assert (exists r1, procs st1 !! r = Some r1) as [r1 Hr1] by (rewrite Hp1, Hy; cbn; eauto).
  accesses. rewrite (progress_same_group _ _ _ _ _ _ _ Hh' Hf1 Hr1).
  eapply returns_bind; [exact (progress_leader done st dead k g zk st1 Hpr Hnk Hg Hzk Htk Hh')|].
  intros [st2 dead'] Hpr2. apply (IH (done ++ [k])); [rewrite Hc, <- app_assoc; reflexivity|exact Hpr2].
Qed.

Lemma progress_start : progress [] st0 [].
Proof.
  split.
  - intros p. destruct (procs st0 !! p); reflexivity.
  - reflexivity.
  - intros p Hp. by apply not_elem_of_nil in Hp.
  - apply NoDup_nil_2.
  - intros p z g Hp. by apply not_elem_of_nil in Hp.
  - intros t z _ Hp. by apply not_elem_of_nil in Hp.
Qed.
End Loop.

(** * The tree afterwards *)

Section After.
  Context `{RelativesOk} (rank : Z -> nat) (st0 : PS) (HT : tree_ok rank st0).
  Context (f r : Z) (x y : Proc) (Hx : procs st0 !! f = Some x) (Hy : procs st0 !! r = Some y).
  Context (Hf0 : tgid x <> 0) (Hpt : ptraced x = []).
  Context (Hrf : r <> f) (Hy0 : exit_state y = 0) (Hrank : (rank (tgid y) <= rank (tgid x))%nat).

Lemma father_not_init : f <> 0.
Proof. intros E. apply Hf0. assert (procs st0 !! 0 = Some x) as Hx' by (rewrite <- E; exact Hx). apply (tree_root _ _ HT _ Hx'). Qed.

(** The threads that move are those whose parent is [f]. *)
Lemma moves p z : procs st0 !! p = Some z -> tgid z ∈ children x <-> real_parent z = f.
Proof.
  intros Hz. destruct (tree_group _ _ HT _ _ Hz) as (g & Hg & Hin).
  destruct (tree_thread _ _ HT _ _ _ Hg Hin) as (z' & zl & ? & _ & Hzl & Htl & Hrp & _). simplify_eq. split.
  - intros (_ & w & Hw & _ & Hpw)%(tree_children _ _ HT _ _ _ Hx). congruence.
  - intros Hf. apply (tree_children _ _ HT _ _ _ Hx). split; [|exists zl; split; [exact Hzl|split; congruence]].
    intros E. rewrite E, Hx in Hzl. injection Hzl as <-.
    pose proof (tree_rank _ _ HT f x x Hx) as Hlt. rewrite <- Hrp, Hf in Hlt. specialize (Hlt Hx Hf0). lia.
Qed.

(** The record of a task when the loop is over and the lists are spliced. *)
Definition after (dead : list Z) (p : Z) (z : Proc) : Proc :=
  let z' := given r x y (children x) dead p z in
  if bool_decide (p = f) then set_children z' []
  else if bool_decide (p = r) then set_children z' (children z ++ children x)
  else z'.

Context (dead : list Z).
Context (Hdead : forall p, p ∈ dead -> p ∈ children x /\ exists z g, procs st0 !! p = Some z /\ groups st0 !! p = Some g /\ mourned p z g).

Lemma given_fields p z : let z' := given r x y (children x) dead p z in
  tgid z' = tgid z /\ exiting z' = exiting z /\ ns z' = ns z /\ ptrace z' = ptrace z /\ ptraced z' = ptraced z /\ children z' = children z /\
  level z' = level z /\
  parent z' = (if bool_decide (tgid z ∈ children x) && negb (ptrace z) then r else parent z) /\
  real_parent z' = if bool_decide (tgid z ∈ children x) then r else real_parent z.
Proof.
  unfold given. case_bool_decide; [|auto 10]. unfold buried, moved.
  destruct (negb _ && _), (bool_decide (p ∈ dead)), (ptrace z) eqn:Ep; cbn; rewrite ?Ep; try (destruct (_ =? _)); cbn; rewrite ?Ep; auto 10.
Qed.

Lemma given_exit p z : procs st0 !! p = Some z ->
  exit_state (given r x y (children x) dead p z) = exit_state z \/
  exit_state z = EXIT_ZOMBIE /\ exit_state (given r x y (children x) dead p z) = EXIT_DEAD /\ p ∈ dead.
Proof.
  intros Hz. unfold given. case_bool_decide; [|auto]. destruct (negb _ && _); [|auto]. unfold buried.
  case_bool_decide as Hd; [|left; destruct (_ =? _); reflexivity]. right.
  destruct (Hdead _ Hd) as (_ & z' & g & Hz' & _ & _ & He & _). simplify_eq. auto.
Qed.

Lemma after_fields p z : procs st0 !! p = Some z -> let z' := after dead p z in
  tgid z' = tgid z /\ exiting z' = exiting z /\ ns z' = ns z /\ ptrace z' = ptrace z /\ ptraced z' = ptraced z /\ level z' = level z /\
  children z' = (if bool_decide (p = f) then [] else if bool_decide (p = r) then children z ++ children x else children z) /\
  parent z' = (if bool_decide (real_parent z = f) && negb (ptrace z) then r else parent z) /\
  real_parent z' = (if bool_decide (real_parent z = f) then r else real_parent z) /\
  (exit_state z' = exit_state z \/ exit_state z = EXIT_ZOMBIE /\ exit_state z' = EXIT_DEAD /\ p ∈ dead).
Proof.
  intros Hz. cbv zeta. pose proof (given_fields p z) as (? & ? & ? & ? & ? & ? & ? & Hp & Hrp). pose proof (given_exit p z Hz) as He.
  rewrite (bool_decide_ext _ _ (moves p z Hz)) in Hp, Hrp. unfold after.
  destruct (bool_decide (p = f)); [|destruct (bool_decide (p = r))]; cbn; auto 20.
Qed.

Context (st3 : PS) (Hp3 : forall p, procs st3 !! p = after dead p <$> procs st0 !! p).
Context (Hg3 : groups st3 = groups st0) (Hr3 : reapers st3 = reapers st0).

Lemma lookup_after p z : procs st0 !! p = Some z -> procs st3 !! p = Some (after dead p z).
Proof. intros Hz. rewrite Hp3, Hz. reflexivity. Qed.

Lemma lookup_before p z' : procs st3 !! p = Some z' -> exists z, procs st0 !! p = Some z /\ z' = after dead p z.
Proof. rewrite Hp3. intros (z & Hz & ->)%fmap_Some. eauto. Qed.

Lemma alive_after p z : procs st0 !! p = Some z -> exit_state (after dead p z) = 0 <-> exit_state z = 0.
Proof.
  intros Hz. destruct (after_fields p z Hz) as (_ & _ & _ & _ & _ & _ & _ & _ & _ & [->|(-> & -> & _)]); [reflexivity|].
  unfold EXIT_ZOMBIE, EXIT_DEAD. lia.
Qed.

(** Takes a task of the new state back to the old one. *)
Ltac back H z Hz := apply lookup_before in H as (z & Hz & ->).

Lemma children_after p z c : procs st0 !! p = Some z ->
  c ∈ children (after dead p z) <-> c <> p /\ exists w, procs st3 !! c = Some w /\ tgid w = c /\ real_parent w = p.
Proof.
  intros Hz. destruct (after_fields p z Hz) as (_ & _ & _ & _ & _ & _ & -> & _).
  assert ((exists w, procs st3 !! c = Some w /\ tgid w = c /\ real_parent w = p) <->
    exists w, procs st0 !! c = Some w /\ tgid w = c /\ (if bool_decide (real_parent w = f) then r else real_parent w) = p) as ->.
  { split.
    - intros (w & Hw & Ht & Hrp). back Hw v Hv. destruct (after_fields c v Hv) as (E1 & _ & _ & _ & _ & _ & _ & _ & E2 & _).
      exists v. split; [exact Hv|]. split; congruence.
    - intros (v & Hv & Ht & Hrp). exists (after dead c v). destruct (after_fields c v Hv) as (E1 & _ & _ & _ & _ & _ & _ & _ & E2 & _).
      split; [apply lookup_after, Hv|]. split; congruence. }
  pose proof (fun a b => tree_children _ _ HT a b c) as Hc. destruct (decide (p = f)) as [->|Hpf].
  { rewrite (bool_decide_eq_true_2 (f = f) eq_refl). split; [by intros ?%not_elem_of_nil|]. intros (_ & w & _ & _ & E).
    case_bool_decide; congruence. }
  rewrite (bool_decide_eq_false_2 (p = f) Hpf). destruct (decide (p = r)) as [->|Hpr].
  2: { rewrite (bool_decide_eq_false_2 (p = r) Hpr), (Hc p z Hz). split; intros (Hcp & w & Hw & Ht & E); (split; [exact Hcp|]); exists w.
    - rewrite bool_decide_eq_false_2 by congruence. auto.
    - case_bool_decide; [congruence|auto]. }
  assert (z = y) as -> by congruence. rewrite (bool_decide_eq_true_2 (r = r) eq_refl), elem_of_app, (Hc r y Hy), (Hc f x Hx). split.
  - intros [(Hcr & w & Hw & Ht & E)|(Hcf & w & Hw & Ht & E)].
    + split; [exact Hcr|]. exists w. rewrite bool_decide_eq_false_2 by congruence. auto.
    + split; [|exists w; rewrite bool_decide_eq_true_2 by exact E; auto]. intros ->. assert (w = y) as -> by congruence.
      pose proof (tree_rank _ _ HT r y x Hw) as Hlt. rewrite E in Hlt. specialize (Hlt Hx).
      destruct (decide (tgid y = 0)) as [E0|E0]; [|specialize (Hlt E0); lia].
      pose proof (tree_init _ _ HT _ _ Hw E0) as Er0. rewrite Er0 in Hw. apply (tree_root _ _ HT) in Hw as [_ Hw].
      apply father_not_init. congruence.
  - intros (Hcr & w & Hw & Ht & E). case_bool_decide as Ef.
    + right. split; [|eauto]. intros ->. assert (w = x) as -> by congruence. pose proof (tree_rank _ _ HT f x x Hx) as Hlt.
      rewrite Ef in Hlt. specialize (Hlt Hx Hf0). lia.
    + left. eauto.
Qed.

Lemma rank_after p z z2 : procs st3 !! p = Some z -> procs st3 !! real_parent z = Some z2 -> tgid z <> 0 -> (rank (tgid z2) < rank (tgid z))%nat.
Proof.
  intros Hz Hz2 H0'. back Hz v Hv. destruct (after_fields p v Hv) as (Et & _ & _ & _ & _ & _ & _ & _ & Erp & _).
  rewrite Et in *. rewrite Erp in Hz2. back Hz2 v2 Hv2. destruct (after_fields _ v2 Hv2) as (-> & _). case_bool_decide as Ef.
  - assert (v2 = y) as -> by congruence. pose proof (tree_rank _ _ HT p v x Hv) as Hlt. rewrite Ef in Hlt. specialize (Hlt Hx H0'). lia.
  - exact (tree_rank _ _ HT p v v2 Hv Hv2 H0').
Qed.

Lemma siblings_after p z : procs st3 !! p = Some z -> NoDup (children z).
Proof.
  intros Hz. back Hz v Hv. destruct (after_fields p v Hv) as (_ & _ & _ & _ & _ & _ & -> & _).
  pose proof (tree_siblings _ _ HT). case_bool_decide; [apply NoDup_nil_2|]. case_bool_decide as Er; [|eauto]. subst p.
  apply NoDup_app. split; [eauto|]. split; [|eauto]. intros c Hc Hc'.
  apply (tree_children _ _ HT _ _ _ Hv) in Hc as (_ & w & Hw & _ & E). apply (tree_children _ _ HT _ _ _ Hx) in Hc' as (_ & w' & Hw' & _ & E').
  congruence.
Qed.

Lemma after_tree_ok : tree_ok rank st3.
Proof.
  split.
  - intros p z Hz. back Hz v Hv. destruct (after_fields p v Hv) as (-> & _). rewrite Hg3. eauto using tree_group.
  - intros l g t Hg Ht. rewrite Hg3 in Hg. destruct (tree_thread _ _ HT l g t Hg Ht) as (a & b & Ha & Eta & Hb & Etb & Erp & Ens).
    exists (after dead t a), (after dead l b). destruct (after_fields t a Ha) as (-> & _ & -> & _ & _ & _ & _ & _ & -> & _).
    destruct (after_fields l b Hb) as (-> & _ & -> & _ & _ & _ & _ & _ & -> & _). rewrite Erp. eauto 10 using lookup_after.
  - intros l g. rewrite Hg3. apply (tree_threads _ _ HT).
  - intros p z Hz. back Hz v Hv. destruct (after_fields p v Hv) as (_ & _ & _ & _ & _ & _ & _ & _ & -> & _).
    case_bool_decide; [eauto 10 using lookup_after|]. destruct (tree_parent _ _ HT _ _ Hv). eauto 10 using lookup_after.
  - intros p z Hz Hp. back Hz v Hv. destruct (after_fields p v Hv) as (_ & _ & _ & Ep & _ & _ & _ & -> & -> & _).
    rewrite Ep in Hp. rewrite Hp, andb_true_r. case_bool_decide; [reflexivity|]. exact (tree_plain _ _ HT _ _ Hv Hp).
  - intros p z Hz Hp. back Hz v Hv. destruct (after_fields p v Hv) as (_ & _ & _ & Ep & _ & _ & _ & -> & _). rewrite Ep in Hp.
    rewrite Hp, andb_false_r. destruct (tree_tracer _ _ HT _ _ Hv Hp) as (w & Hw & Hin). exists (after dead (parent v) w).
    split; [apply lookup_after, Hw|]. destruct (after_fields _ w Hw) as (_ & _ & _ & _ & -> & _). exact Hin.
  - intros p z c Hz. back Hz v Hv. exact (children_after p v c Hv).
  - apply siblings_after.
  - intros p z Hz He. back Hz v Hv. rewrite (alive_after p v Hv) in He. destruct (tree_dead _ _ HT _ _ Hv He) as [Hc Hex].
    destruct (after_fields p v Hv) as (_ & -> & _ & _ & _ & _ & -> & _). split; [|exact Hex].
    case_bool_decide; [reflexivity|]. case_bool_decide; [|exact Hc]. congruence.
  - intros p z Hz Ht. back Hz v Hv. destruct (after_fields p v Hv) as (Et & _). rewrite Et in Ht. exact (tree_init _ _ HT _ _ Hv Ht).
  - intros z Hz. back Hz v Hv. destruct (after_fields 0 v Hv) as (-> & _ & _ & _ & _ & _ & _ & _ & -> & _).
    destruct (tree_root _ _ HT _ Hv) as [-> Erp]. split; [reflexivity|]. rewrite bool_decide_eq_false_2; [exact Erp|].
    rewrite Erp. pose proof father_not_init. congruence.
  - apply rank_after.
  - intros p z Hz He H0'. back Hz v Hv. rewrite (alive_after p v Hv) in He. destruct (after_fields p v Hv) as (Et & _ & -> & _).
    rewrite Et in *. destruct (tree_reaper _ _ HT _ _ Hv He H0') as (q & w & Hq & Hw & Hwe & Hwn & Hwr). exists q, (after dead q w).
    destruct (after_fields q w Hw) as (-> & _ & -> & _). rewrite Hr3, (alive_after q w Hw). eauto 10 using lookup_after.
Qed.
End After.

(** * forget_original_parent *)

(** A new parent that keeps the tree a tree. *)
Definition fit (rank : Z -> nat) (st : PS) (f : Z) (x : Proc) (r : Z) : Prop :=
  r <> f /\ exists y, procs st !! r = Some y /\ exit_state y = 0 /\ (rank (tgid y) <= rank (tgid x))%nat.

(** The reaper that the namespace of [f] has once [f] is gone. *)
Definition next_reaper (st : PS) (f : Z) (x : Proc) (c : Z) : Prop :=
  c <> f /\ (reapers st !! ns x = Some c \/ reapers st !! ns x = Some f /\ lives st f c).

Section Fit.
  Context (rank : Z -> nat) (st : PS) (HT : tree_ok rank st) (f : Z) (x : Proc) (Hx : procs st !! f = Some x).
  Context (H0 : tgid x <> 0) (Hex : exiting x = true).

Lemma lives_alive p z t : procs st !! p = Some z -> lives st p t ->
  exists y, procs st !! t = Some y /\ exit_state y = 0 /\ exiting y = false /\ tgid y = tgid z /\ ns y = ns z.
Proof.
  intros Hz (z' & g & y & Hz' & Hg & Ht & Hy & Hl). simplify_eq. exists y. split; [exact Hy|].
  destruct (tree_thread _ _ HT _ _ _ Hg Ht) as (y' & zl & ? & Et & Hzl & _ & _ & En). simplify_eq.
  split; [|split; [exact Hl|split; [exact Et|]]].
  - destruct (decide (exit_state y = 0)) as [|Hne]; [assumption|]. destruct (tree_dead _ _ HT _ _ Hy Hne). congruence.
  - destruct (tree_group _ _ HT _ _ Hz) as (g' & Hg' & Hp). simplify_eq.
    destruct (tree_thread _ _ HT _ _ _ Hg Hp) as (z' & zl' & ? & _ & ? & _ & _ & En'). simplify_eq. congruence.
Qed.

Lemma lives_fit p z t : procs st !! p = Some z -> (rank (tgid z) <= rank (tgid x))%nat -> lives st p t -> fit rank st f x t.
Proof.
  intros Hz Hr Hl. destruct (lives_alive p z t Hz Hl) as (y & Hy & He & Hl' & Et & _). split; [intros ->; congruence|].
  exists y. rewrite Et. auto.
Qed.

Lemma ancestor_above n : forall a z, ancestor st (S n) f = Some a -> procs st !! a = Some z ->
  (forall m b, (m < n)%nat -> ancestor st (S m) f = Some b -> b <> 0) -> (rank (tgid z) < rank (tgid x))%nat.
Proof.
  induction n as [|n IH]; intros a z Ha Hz Hb.
  - cbn in Ha. rewrite Hx in Ha. injection Ha as <-. exact (tree_rank _ _ HT _ _ _ Hx Hz H0).
  - change (ancestor st (S (S n)) f) with (q ← ancestor st (S n) f; x ← procs st !! q; Some (real_parent x)) in Ha.
    apply bind_Some in Ha as (b & Eb & (w & Ew & [= <-])%bind_Some).
    assert (rank (tgid w) < rank (tgid x))%nat as Hw by (apply (IH b w Eb Ew); intros m d Hm; apply Hb; lia).
    pose proof (tree_rank _ _ HT _ _ _ Ew Hz) as Hlt. enough (tgid w <> 0) by (specialize (Hlt ltac:(assumption)); lia).
    intros E. apply (Hb n b ltac:(lia) Eb). exact (tree_init _ _ HT _ _ Ew E).
Qed.

Lemma new_reaper_fit c r : fit rank st f x c -> new_reaper st f c r -> fit rank st f x r.
Proof.
  intros Hc [t Ht|x' g n a t _ Hx' _ _ Ha _ (z & _ & Hz & _) Ht Hb|x' g _ _ _ _].
  - apply (lives_fit f x t Hx); auto.
  - assert (x' = x) as -> by congruence. apply (lives_fit a z t Hz); [|exact Ht].
    enough (rank (tgid z) < rank (tgid x))%nat by lia. apply (ancestor_above n a z Ha Hz).
    intros m b Hm Hmb. apply (Hb m b Hm Hmb).
  - exact Hc.
Qed.

Lemma with_reaper_tree t : reapers st !! ns x = Some f -> lives st f t -> tree_ok rank (with_reaper st (ns x) t).
Proof.
  intros Hf Hl. destruct (lives_alive f x t Hx Hl) as (y & Hy & He & _ & Et & En). destruct HT as [T1 T2 T3 T4 T5 T6 T7 T8 T9 T10 T11 T12 T13].
  split; auto. intros p z Hz Hze Hz0. cbn. destruct (T13 p z Hz Hze Hz0) as (q & w & Hq & Hw & Hwe & Hwn & Hwr).
  destruct (decide (ns z = ns x)) as [E|E].
  - exists t, y. rewrite E, lookup_insert_eq. rewrite E, Hf in Hq. injection Hq as <-. assert (w = x) as -> by congruence.
    rewrite Et. repeat split; congruence.
  - exists q, w. rewrite lookup_insert_ne by congruence. auto.
Qed.
End Fit.

Section Forget.
  Context `{RelativesOk}.

Lemma find_child_reaper_spec rank st f x :
  tree_ok rank st -> procs st !! f = Some x -> tgid x <> 0 -> exit_state x = 0 -> exiting x = true ->
  (reapers st !! ns x <> Some f \/ exists t, lives st f t) ->
  returns (find_child_reaper st f []) (fun '(st1, c, dead) => dead = [] /\ tree_ok rank st1 /\ procs st1 = procs st /\
    groups st1 = groups st /\ notes st1 = notes st /\ reapers st1 !! ns x = Some c /\ next_reaper st f x c /\ fit rank st f x c).
Proof.
  intros HT Hx H0' He Hex Hr. unfold find_child_reaper. accesses.
  destruct (tree_reaper _ _ HT _ _ Hx He H0') as (q & w & Hq & Hw & Hwe & Hwn & Hwr). rewrite Hq.
  destruct (Z.eqb_spec q f) as [->|Hqf]; cbn [negb].
  - destruct (tree_group _ _ HT _ _ Hx) as (g & Hg & _). destruct (find_alive_spec st f x g Hx Hg) as (o & -> & Ho). accesses.
    destruct o as [t|]; [|destruct Hr as [|[t Ht]]; [contradiction|destruct (Ho t Ht)]].
    apply returns_ok. pose proof (lives_fit rank st HT f x Hx Hex f x t Hx (le_n _) Ho) as Hfit.
    split; [reflexivity|]. split; [apply (with_reaper_tree rank st HT f x Hx); auto|]. split; [reflexivity|].
    split; [reflexivity|]. split; [reflexivity|]. split; [apply lookup_insert_eq|]. split; [|exact Hfit]. destruct Hfit. split; auto.
  - apply returns_ok. split; [reflexivity|]. split; [exact HT|]. split; [reflexivity|]. split; [reflexivity|]. split; [reflexivity|].
    split; [exact Hq|]. split; [split; auto|]. split; eauto.
Qed.

(** What has changed when the children of [f] belong to [r]: exactly the tasks
    whose real parent was [f] have the parent [r]; [f] has no children and [r]
    has them after its own; the leaders in [dead] were zombies that nobody
    waits for; every zombie is announced to a new parent outside the group of
    [f], and every death signal is sent. *)
Record forgotten (st : PS) (f : Z) (x : Proc) (r : Z) (st' : PS) (dead : list Z) : Prop := {
  fo_groups : groups st' = groups st;
  fo_task p z : procs st !! p = Some z -> exists z', procs st' !! p = Some z' /\
    tgid z' = tgid z /\ exiting z' = exiting z /\ ns z' = ns z /\ ptrace z' = ptrace z /\ ptraced z' = ptraced z /\
    children z' = (if bool_decide (p = f) then [] else if bool_decide (p = r) then children z ++ children x else children z) /\
    real_parent z' = (if bool_decide (real_parent z = f) then r else real_parent z) /\
    (exit_state z' = exit_state z \/ exit_state z = EXIT_ZOMBIE /\ exit_state z' = EXIT_DEAD /\ p ∈ dead);
  fo_only p : is_Some (procs st' !! p) -> is_Some (procs st !! p);
  fo_dead p : p ∈ dead -> p ∈ children x /\ exists z z' g, procs st !! p = Some z /\ groups st !! p = Some g /\ mourned p z g /\
    procs st' !! p = Some z' /\ exit_state z' = EXIT_DEAD;
  fo_nodup : NoDup dead;
  fo_notify p z g y : procs st !! r = Some y -> tgid y <> tgid x -> p ∈ children x -> procs st !! p = Some z -> groups st !! p = Some g ->
    mourned p z g -> Notify p SIGCHLD ∈ notes st';
  fo_signal t z : procs st !! t = Some z -> real_parent z = f -> pdeath_signal z <> 0 -> DeathSignal t (pdeath_signal z) ∈ notes st'
}.

(** The end of the loop and the two lists. *)
Lemma forgotten_splice rank st f x r y st2 dead w w2 :
  tree_ok rank st -> procs st !! f = Some x -> tgid x <> 0 -> procs st !! r = Some y -> exit_state y = 0 -> r <> f ->
  (rank (tgid y) <= rank (tgid x))%nat ->
  progress st r x y (children x) st2 dead -> procs st2 !! r = Some w -> procs st2 !! f = Some w2 ->
  let st3 := set_proc (set_proc st2 r (set_children w (children w ++ children x))) f (set_children w2 []) in
  tree_ok rank st3 /\ reapers st3 = reapers st /\ forgotten st f x r st3 dead.
Proof.
  intros HT Hx H0' Hy Hye Hrf Hrank Hpr Hw Hw2 st3.
  pose proof (pr_dead _ _ _ _ _ _ _ Hpr) as Hd0. pose proof (pr_rest _ _ _ _ _ _ _ Hpr) as [Hg Hr _ _].
  assert (forall p, p ∈ dead -> p ∈ children x /\ exists z g, procs st !! p = Some z /\ groups st !! p = Some g /\ mourned p z g) as Hdead.
  { intros p Hp. destruct (Hd0 p Hp) as (? & _ & ?). auto. }
  assert (forall p, procs st3 !! p = after f r x y dead p <$> procs st !! p) as Hp3.
  { intros p. pose proof (pr_procs _ _ _ _ _ _ _ Hpr) as Hp. cbn. destruct (decide (p = f)) as [->|Hpf].
    - rewrite lookup_insert_eq. rewrite Hp, Hx in Hw2. injection Hw2 as <-. rewrite Hx. cbn. unfold after.
      rewrite (bool_decide_eq_true_2 (f = f) eq_refl). reflexivity.
    - rewrite lookup_insert_ne by congruence. destruct (decide (p = r)) as [->|Hpr'].
      + rewrite lookup_insert_eq. rewrite Hp, Hy in Hw. injection Hw as <-. rewrite Hy. cbn. unfold after.
        rewrite (bool_decide_eq_false_2 (r = f) Hrf), (bool_decide_eq_true_2 (r = r) eq_refl).
        destruct (given_fields r x y dead r y) as (_ & _ & _ & _ & _ & -> & _). reflexivity.
      + rewrite lookup_insert_ne, Hp by congruence. destruct (procs st !! p); [|reflexivity]. cbn. unfold after.
        rewrite (bool_decide_eq_false_2 (p = f) Hpf), (bool_decide_eq_false_2 (p = r) Hpr'). reflexivity. }
  split; [eapply (after_tree_ok rank st HT f r x y Hx Hy H0' Hrf Hye Hrank dead Hdead st3 Hp3 Hg Hr)|]. split; [exact Hr|].
  pose proof (fun p z Hz => after_fields rank st HT f r x y Hx H0' Hrank dead Hdead p z Hz) as Hf. split.
  - exact Hg.
  - intros p z Hz. exists (after f r x y dead p z). split; [rewrite Hp3, Hz; reflexivity|].
    destruct (Hf p z Hz) as (? & ? & ? & ? & ? & _ & ? & _ & ? & ?). auto 10.
  - intros p. rewrite Hp3. apply fmap_is_Some.
  - intros p Hp. destruct (Hdead p Hp) as (Hin & z & g & Hz & Hgz & Hm). split; [exact Hin|]. exists z, (after f r x y dead p z), g.
    split; [exact Hz|]. split; [exact Hgz|]. split; [exact Hm|]. split; [rewrite Hp3, Hz; reflexivity|].
    destruct (Hd0 p Hp) as (_ & Hth & _). unfold after, given. destruct (tree_children _ _ HT f x p Hx) as [Hc _].
    destruct (Hc Hin) as (_ & z' & Hz' & Et & _). assert (z' = z) as -> by congruence. rewrite Et.
    rewrite (bool_decide_eq_true_2 _ Hin), (bool_decide_eq_true_2 _ Hp), (bool_decide_eq_true_2 (p = p) eq_refl), Hth. cbn.
    destruct (bool_decide (p = f)), (bool_decide (p = r)); reflexivity.
  - exact (pr_nodup _ _ _ _ _ _ _ Hpr).
  - intros p z g y' Hy' Hne Hin Hz Hgz Hm. assert (y' = y) as -> by congruence. apply (pr_notify _ _ _ _ _ _ _ Hpr p z g); auto.
    apply bool_decide_eq_false_2, Hne.
  - intros t z Hz Hf' Hs. apply (pr_signal _ _ _ _ _ _ _ Hpr); auto. apply (moves rank st HT f x y Hx H0' Hrank t z Hz), Hf'.
Qed.

Lemma forgotten_ext st1 st f x r st' dead : procs st1 = procs st -> groups st1 = groups st ->
  forgotten st1 f x r st' dead -> forgotten st f x r st' dead.
Proof. intros Hp Hg [F1 F2 F3 F4 F5 F6 F7]. rewrite Hp, ?Hg in *. split; assumption. Qed.

Lemma ancestor_ext st1 st n p : procs st1 = procs st -> ancestor st1 n p = ancestor st n p.
Proof. intros Hp. induction n as [|n IH]; cbn; [reflexivity|]. rewrite IH, Hp. reflexivity. Qed.

Lemma new_reaper_ext st1 st f c r : procs st1 = procs st -> groups st1 = groups st -> new_reaper st1 f c r -> new_reaper st f c r.
Proof.
  intros Hp Hg Hn.
  assert (forall p t, lives st1 p t <-> lives st p t) as Hl by (intros; unfold lives; rewrite Hp, Hg; reflexivity).
  assert (forall lv a, within st1 lv a <-> within st lv a) as Hw by (intros; unfold within; rewrite Hp; reflexivity).
  assert (forall a, subreaper st1 a <-> subreaper st a) as Hs by (intros; unfold subreaper; setoid_rewrite Hl; rewrite Hp, Hg; reflexivity).
  destruct Hn as [t Ht|x g n a t Hd Hx Hgx Hh Ha Hin Hsub Ht Hb|x g Hd Hx Hgx Hb].
  - apply new_thread, Hl, Ht.
  - rewrite Hp in Hx. rewrite Hg in Hgx. apply (new_subreaper st f c x g n a t); auto.
    + intros t'. rewrite <- Hl. auto.
    + rewrite <- (ancestor_ext st1 st _ _ Hp). exact Ha.
    + apply Hw, Hin.
    + apply Hs, Hsub.
    + apply Hl, Ht.
    + intros m b Hm Hmb. rewrite <- Hw, <- Hs. apply (Hb m b Hm). rewrite (ancestor_ext st1 st _ _ Hp). exact Hmb.
  - rewrite Hp in Hx. rewrite Hg in Hgx. apply (new_init st f c x g); auto.
    + intros t'. rewrite <- Hl. auto.
    + intros Hh n a Ha Hsub. rewrite <- (ancestor_ext st1 st _ _ Hp) in Ha. apply Hs in Hsub.
      destruct (Hb Hh n a Ha Hsub) as (m & b & Hm & Hmb & Hnw). exists m, b. rewrite <- (ancestor_ext st1 st _ _ Hp), <- Hw. auto.
Qed.

(** Nothing to give away. *)
Lemma forgotten_nothing st f x r : procs st !! f = Some x -> children x = [] -> exit_state x = 0 ->
  (forall p z, procs st !! p = Some z -> real_parent z <> f) -> forgotten st f x r st [].
Proof.
  intros Hx Hc He Hn. split; auto.
  - intros p z Hz. exists z. split; [exact Hz|]. rewrite bool_decide_eq_false_2 with (P := real_parent z = f) by eauto.
    repeat (split; [reflexivity|]). split; [|auto]. case_bool_decide; [congruence|]. rewrite Hc, app_nil_r. case_bool_decide; reflexivity.
  - intros p Hp. by apply not_elem_of_nil in Hp.
  - apply NoDup_nil_2.
  - intros p z g y _ _ Hp. rewrite Hc in Hp. by apply not_elem_of_nil in Hp.
  - intros t z Hz Hf. destruct (Hn t z Hz Hf).
Qed.

Lemma forget_spec rank st f x :
  tree_ok rank st -> procs st !! f = Some x -> tgid x <> 0 -> exit_state x = 0 -> exiting x = true -> ptraced x = [] ->
  (reapers st !! ns x <> Some f \/ exists t, lives st f t) ->
  returns (forget_original_parent st f) (fun '(st', dead) => tree_ok rank st' /\ exists c r,
    next_reaper st f x c /\ reapers st' !! ns x = Some c /\ new_reaper st f c r /\ fit rank st f x r /\ forgotten st f x r st' dead).
Proof.
  intros HT Hx H0' He Hex Hpt Hr. unfold forget_original_parent. accesses. rewrite Hpt.
  eapply returns_bind; [exact (find_child_reaper_spec rank st f x HT Hx H0' He Hex Hr)|].
  intros [[st1 c] dead] (-> & HT1 & Hp1 & Hg1 & _ & Hc & Hnext & Hfit). rewrite <- Hp1 in Hx.
  destruct (find_new_reaper_spec rank st1 f c x HT1 Hx) as (r & Hfind & Hnew). cbn in Hnew.
  pose proof (new_reaper_ext st1 st f c r Hp1 Hg1 Hnew) as Hnew'.
  assert (procs st !! f = Some x) as Hx' by congruence.
  pose proof (new_reaper_fit rank st HT f x Hx' H0' Hex c r Hfit Hnew') as Hfit'. pose proof Hfit' as (Hrf & y & Hy & Hye & Hrank).
  rewrite <- Hp1 in Hy. accesses. destruct (children x) as [|k kids] eqn:Ec.
  { apply returns_ok. split; [exact HT1|]. exists c, r. repeat (split; [assumption|]). apply (forgotten_ext st1 st f x r st1 [] Hp1 Hg1).
    apply forgotten_nothing; auto. intros p z Hz E. apply (moves rank st1 HT1 f x y Hx H0' Hrank p z Hz) in E. rewrite Ec in E.
    by apply not_elem_of_nil in E. }
  rewrite Hfind. accesses. rewrite <- Ec.
  eapply returns_bind; [exact (reparent_children_spec rank st1 HT1 f r x y Hx Hy Hpt (children x) [] st1 [] eq_refl (progress_start st1 r x y))|].
  intros [st2 dead] Hpr. pose proof (pr_procs _ _ _ _ _ _ _ Hpr) as Hp2.
  assert (exists w, procs st2 !! r = Some w) as [w Hw] by (rewrite Hp2, Hy; cbn; eauto).
  assert (exists w2, procs st2 !! f = Some w2) as [w2 Hw2] by (rewrite Hp2, Hx; cbn; eauto).
  accesses. assert (procs (set_proc st2 r (set_children w (children w ++ children x))) !! f = Some w2) as Hw3.
  { cbn. rewrite lookup_insert_ne by congruence. exact Hw2. }
  accesses. apply returns_ok.
  destruct (forgotten_splice rank st1 f x r y st2 dead w w2 HT1 Hx H0' Hy Hye Hrf Hrank Hpr Hw Hw2) as (HT3 & Hr3 & Hfo).
  split; [exact HT3|]. exists c, r. split; [exact Hnext|]. split; [rewrite Hr3; exact Hc|]. split; [exact Hnew'|]. split; [exact Hfit'|].
  exact (forgotten_ext st1 st f x r _ dead Hp1 Hg1 Hfo).
Qed.
End Forget.
