(* ===== verification/Release.v ===== *)
(** Releasing dead tasks and the end of [exit_notify]
    (src/3/20193018_PLUS-1/exit.c): a released task leaves every list it was on,
    its usage goes to its group, at most one more task (the zombie leader it was
    the last thread of) goes with it, and the tree stays well-formed. *)

From S2P Require Import Prelude KHeaders ProcTree Family Reparent.
Local Open Scope Z_scope.

(** Nobody traces anybody. *)
Definition untraced (st : PS) : Prop := forall p x, procs st !! p = Some x -> ptrace x = false /\ ptraced x = [].

(** A dead task that may be released: a leader only when it is the last one. *)
Definition releasable (st : PS) (p : Z) (x : Proc) : Prop :=
  procs st !! p = Some x /\ exit_state x <> 0 /\ tgid x <> 0 /\ (tgid x = p -> exists g, groups st !! p = Some g /\ threads g = [p]).

(** A task without the children that are gone. *)
Definition prune (gone : list Z) (x : Proc) : Proc := set_children x (filter (fun c => c ∉ gone) (children x)).

Definition vanish (gone : list Z) (m : gmap Z Proc) (p : Z) : option Proc :=
  if bool_decide (p ∈ gone) then None else prune gone <$> m !! p.

(** What a group keeps when one thread [p] with usage [u] is released. *)
Definition loses (p : Z) (u : Usage) (g g' : Group) : Prop :=
  threads g' = filter (fun t => t ∉ [p]) (threads g) /\ g_usage g' = uadd (g_usage g) u /\ nr_threads g' = nr_threads g - 1 /\
  c_usage g' = c_usage g /\ pgrp g' = pgrp g /\ session g' = session g /\ group_exit g' = group_exit g /\
  group_exit_code g' = group_exit_code g /\ stop_stopped g' = stop_stopped g.

Lemma zombie_dead : EXIT_ZOMBIE <> 0 /\ EXIT_DEAD <> 0 /\ EXIT_ZOMBIE <> EXIT_DEAD.
Proof. unfold EXIT_ZOMBIE, EXIT_DEAD. lia. Qed.

Lemma set_children_id x : set_children x (children x) = x.
Proof. destruct x; reflexivity. Qed.

Lemma filter_out_id (p : Z) (l : list Z) : p ∉ l -> filter (fun c => c ∉ [p]) l = l.
Proof. intros Hp. apply filter_all, Forall_forall. intros c Hc. rewrite list_elem_of_singleton. intros ->. contradiction. Qed.

Lemma filter_one (p : Z) (l : list Z) : filter (fun c => c <> p) l = filter (fun c => c ∉ [p]) l.
Proof. apply list_filter_iff. intros c. rewrite list_elem_of_singleton. reflexivity. Qed.

Section Turn.
  Context `{RelativesOk} (rank : Z -> nat) (st : PS) (HT : tree_ok rank st) (HU : untraced st).
  Context (p : Z) (x : Proc) (HR : releasable st p x).

Lemma releasable_group : exists g, groups st !! tgid x = Some g /\ p ∈ threads g /\ (tgid x = p -> threads g = [p]).
Proof.
  destruct HR as (Hx & _ & _ & Hl). destruct (tree_group _ _ HT _ _ Hx) as (g & Hg & Hp). exists g. split; [exact Hg|].
  split; [exact Hp|]. intros E. destruct (Hl E) as (g' & Hg' & Ht). congruence.
Qed.

(** Nobody has the dead task as a parent. *)
Lemma no_child c z : procs st !! c = Some z -> real_parent z <> p.
Proof.
  intros Hz E. destruct HR as (Hx & He & H0' & _). destruct (tree_dead _ _ HT _ _ Hx He) as [Hc _].
  destruct (tree_group _ _ HT _ _ Hz) as (g & Hg & Hin).
  destruct (tree_thread _ _ HT _ _ _ Hg Hin) as (z' & zl & ? & _ & Hzl & Htl & Hrp & _). assert (z' = z) as -> by congruence.
  enough (tgid z ∈ children x) as Hn by (rewrite Hc in Hn; by apply not_elem_of_nil in Hn).
  apply (tree_children _ _ HT _ _ _ Hx). split; [|exists zl; split; [exact Hzl|split; congruence]].
  intros Ep. assert (zl = x) as -> by congruence. pose proof (tree_rank _ _ HT p x x Hx) as Hlt.
  rewrite <- Hrp, E in Hlt. specialize (Hlt Hx H0'). lia.
Qed.

(** Only the parent of a leader has it as a child. *)
Lemma child_of q z : procs st !! q = Some z -> p ∈ children z -> tgid x = p /\ q = real_parent x.
Proof.
  intros Hz Hin. destruct HR as (Hx & _). apply (tree_children _ _ HT _ _ _ Hz) in Hin as (_ & w & Hw & Ht & E).
  assert (w = x) as -> by congruence. auto.
Qed.

Context (st' : PS) (Hp' : forall q, procs st' !! q = vanish [p] (procs st) q).
Context (Hg' : forall l, l <> tgid x -> groups st' !! l = groups st !! l).
Context (g g' : Group) (Hg : groups st !! tgid x = Some g) (Hgx : groups st' !! tgid x = Some g') (Hl : loses p (usage x) g g').
Context (Hr' : reapers st' = reapers st).

Lemma vanish_some q z' : procs st' !! q = Some z' -> q <> p /\ exists z, procs st !! q = Some z /\ z' = prune [p] z.
Proof.
  rewrite Hp'. unfold vanish. case_bool_decide as E; [discriminate|]. intros (z & Hz & ->)%fmap_Some. split; [|eauto].
  rewrite list_elem_of_singleton in E. exact E.
Qed.

Lemma vanish_keep q z : procs st !! q = Some z -> q <> p -> procs st' !! q = Some (prune [p] z).
Proof. intros Hz Hq. rewrite Hp'. unfold vanish. rewrite bool_decide_eq_false_2, Hz by (rewrite list_elem_of_singleton; exact Hq). reflexivity. Qed.

Ltac gone H z Hz Hne := apply vanish_some in H as (Hne & z & Hz & ->).

Lemma turn_thread l h t : groups st' !! l = Some h -> t ∈ threads h ->
  exists a b, procs st' !! t = Some a /\ tgid a = l /\ procs st' !! l = Some b /\ tgid b = l /\ real_parent a = real_parent b /\ ns a = ns b.
Proof.
  destruct HR as (Hx & _). intros Hh Ht.
  assert (exists h0, groups st !! l = Some h0 /\ t ∈ threads h0 /\ t <> p /\ l <> p) as (h0 & Hh0 & Ht0 & Htp & Hlp).
  { destruct (decide (l = tgid x)) as [->|Hlx].
    - assert (h = g') as -> by congruence. destruct Hl as (Hth & _). rewrite Hth in Ht. apply list_elem_of_filter in Ht as [Hn Ht].
      rewrite list_elem_of_singleton in Hn. exists g. repeat split; auto. intros E. destruct releasable_group as (g2 & Hg2 & _ & Hone).
      assert (g2 = g) as -> by congruence. rewrite (Hone E) in Ht. apply list_elem_of_singleton in Ht. congruence.
    - rewrite Hg' in Hh by exact Hlx. exists h. destruct (tree_thread _ _ HT _ _ _ Hh Ht) as (a & b & Ha & Eta & Hb & Etb & _).
      repeat split; auto; intros ->; congruence. }
  destruct (tree_thread _ _ HT _ _ _ Hh0 Ht0) as (a & b & Ha & Eta & Hb & Etb & Erp & Ens).
  exists (prune [p] a), (prune [p] b). cbn. auto 10 using vanish_keep.
Qed.

Lemma turn_children q z c : procs st !! q = Some z -> q <> p ->
  c ∈ children (prune [p] z) <-> c <> q /\ exists w, procs st' !! c = Some w /\ tgid w = c /\ real_parent w = q.
Proof.
  intros Hz Hq. cbn. rewrite list_elem_of_filter, list_elem_of_singleton, (tree_children _ _ HT _ _ _ Hz). split.
  - intros (Hcp & Hcq & w & Hw & Ht & E). split; [exact Hcq|]. exists (prune [p] w). auto using vanish_keep.
  - intros (Hcq & w & Hw & Ht & E). gone Hw v Hv Hne. eauto 10.
Qed.

Lemma turn_tree_ok : tree_ok rank st'.
Proof.
  destruct HR as (Hx & He & H0' & _). split.
  - intros q z Hz. gone Hz v Hv Hne. cbn. destruct (tree_group _ _ HT _ _ Hv) as (h & Hh & Hq).
    destruct (decide (tgid v = tgid x)) as [E|E]; [|rewrite Hg' by exact E; eauto].
    exists g'. rewrite E. split; [exact Hgx|]. destruct Hl as (-> & _). apply list_elem_of_filter. rewrite list_elem_of_singleton.
    split; [exact Hne|]. rewrite E in Hh. congruence.
  - exact turn_thread.
  - intros l h Hh. destruct (decide (l = tgid x)) as [->|E]; [|rewrite Hg' in Hh by exact E; exact (tree_threads _ _ HT _ _ Hh)].
    assert (h = g') as -> by congruence. destruct Hl as (-> & _). apply NoDup_filter, (tree_threads _ _ HT _ _ Hg).
  - intros q z Hz. gone Hz v Hv Hne. cbn. destruct (tree_parent _ _ HT _ _ Hv) as [w Hw]. eauto using vanish_keep, no_child.
  - intros q z Hz. gone Hz v Hv Hne. exact (tree_plain _ _ HT _ _ Hv).
  - intros q z Hz. gone Hz v Hv Hne. cbn. destruct (HU _ _ Hv) as [-> _]. discriminate.
  - intros q z c Hz. gone Hz v Hv Hne. exact (turn_children q v c Hv Hne).
  - intros q z Hz. gone Hz v Hv Hne. apply NoDup_filter, (tree_siblings _ _ HT _ _ Hv).
  - intros q z Hz Hd. gone Hz v Hv Hne. cbn in *. destruct (tree_dead _ _ HT _ _ Hv Hd) as [-> ->]. auto.
  - intros q z Hz. gone Hz v Hv Hne. exact (tree_init _ _ HT _ _ Hv).
  - intros z Hz. gone Hz v Hv Hne. exact (tree_root _ _ HT _ Hv).
  - intros q z w Hz Hw. gone Hz v Hv Hne. gone Hw u Hu Hne2. exact (tree_rank _ _ HT _ _ _ Hv Hu).
  - intros q z Hz Ha Hz0. gone Hz v Hv Hne. rewrite Hr'. destruct (tree_reaper _ _ HT _ _ Hv Ha Hz0) as (r & w & Hr & Hw & Hwe & Hwn & Hwr).
    exists r, (prune [p] w). split; [exact Hr|]. split; [|auto]. apply vanish_keep; [exact Hw|]. intros ->. congruence.
Qed.
End Turn.

Section ReleaseTask.
  Context `{RelativesOk}.

Lemma exit_signal_spec st p x g : procs st !! p = Some x -> groups st !! tgid x = Some g ->
  is_Some (procs st !! real_parent x) ->
  returns (__exit_signal st p) (fun st1 =>
    (forall q, procs st1 !! q = (fun z => if bool_decide (tgid x = p /\ q = real_parent x) then prune [p] z else z) <$> procs st !! q) /\
    reapers st1 = reapers st /\ exists g', groups st1 = <[tgid x := g']> (groups st) /\ loses p (usage x) g g').
Proof.
  intros Hx Hg [y Hy]. unfold __exit_signal. accesses. rewrite leader_spec.
  assert (forall st1 g1, procs st1 = procs st -> groups st1 = groups st -> reapers st1 = reapers st ->
    loses p (usage x) g (set_threads (add_usage g1 (usage x)) (filter (fun t => t <> p) (threads g1))) ->
    returns (__unhash_process (set_group st1 (tgid x) (add_usage g1 (usage x))) p x (bool_decide (tgid x = p))) (fun st2 =>
      (forall q, procs st2 !! q = (fun z => if bool_decide (tgid x = p /\ q = real_parent x) then prune [p] z else z) <$> procs st !! q) /\
      reapers st2 = reapers st /\ exists g', groups st2 = <[tgid x := g']> (groups st) /\ loses p (usage x) g g')) as unhash.
  { intros st1 g1 E1 E2 E3 Hlo. unfold __unhash_process. set (st2 := set_group st1 (tgid x) (add_usage g1 (usage x))).
    assert (procs st2 !! real_parent x = Some y) as Hy2 by (cbn; rewrite E1; exact Hy).
    assert (groups st2 !! tgid x = Some (add_usage g1 (usage x))) as Hg2 by apply lookup_insert_eq.
    case_bool_decide as El; accesses.
    - set (st3 := set_proc st2 _ _). assert (groups st3 !! tgid x = Some (add_usage g1 (usage x))) as Hg3 by exact Hg2.
      accesses. apply returns_ok. split; [|split; [exact E3|]].
      + intros q. cbn. rewrite E1. destruct (decide (q = real_parent x)) as [->|Hq].
        * rewrite lookup_insert_eq, Hy. cbn. rewrite bool_decide_eq_true_2 by auto. unfold prune. rewrite filter_one. reflexivity.
        * rewrite lookup_insert_ne by congruence. destruct (procs st !! q); [|reflexivity]. cbn. rewrite bool_decide_eq_false_2; tauto.
      + eexists. split; [|exact Hlo]. cbn. rewrite insert_insert_eq, E2. reflexivity.
    - apply returns_ok. split; [|split; [exact E3|]].
      + intros q. cbn. rewrite E1. destruct (procs st !! q); [|reflexivity]. cbn. rewrite bool_decide_eq_false_2; tauto.
      + eexists. split; [|exact Hlo]. cbn. rewrite insert_insert_eq, E2. reflexivity. }
  unfold loses in unhash |- *. setoid_rewrite filter_one in unhash.
  destruct (bool_decide (tgid x = p)) in unhash |- *; [apply unhash; repeat split|].
  destruct (0 <? notify_count g); [change (curr_target (set_notify_count _ _)) with (curr_target g); destruct (_ - 1 =? 0)|].
  all: destruct (p =? curr_target g); apply unhash; repeat split.
Qed.

(** One turn of [release_task]: the task vanishes, and the loop goes on with its
    leader exactly when that was waiting for its last thread and its parent
    ignores it. *)
Definition turned (rank : Z -> nat) (st : PS) (p : Z) (x : Proc) (st1 : PS) : Prop :=
  tree_ok rank st1 /\ untraced st1 /\ (forall q, procs st1 !! q = vanish [p] (procs st) q) /\
  (forall l, l <> tgid x -> groups st1 !! l = groups st !! l) /\
  exists g g', groups st !! tgid x = Some g /\ groups st1 !! tgid x = Some g' /\ loses p (usage x) g g'.

Lemma vanish_untraced gone st st1 : untraced st -> (forall q, procs st1 !! q = vanish gone (procs st) q) -> untraced st1.
Proof.
  intros HU Hp q z. rewrite Hp. unfold vanish. case_bool_decide; [discriminate|]. intros (w & Hw & ->)%fmap_Some. exact (HU _ _ Hw).
Qed.

Lemma exit_signal_turn rank st p x : tree_ok rank st -> untraced st -> releasable st p x ->
  returns (__exit_signal st p) (fun st1 => turned rank st p x (with_procs st1 (delete p (procs st1)))).
Proof.
  intros HT HU HR. destruct (releasable_group rank st HT p x HR) as (g & Hg & Hpg & Hone). pose proof HR as (Hx & _).
  eapply returns_mono; [exact (exit_signal_spec st p x g Hx Hg (tree_parent _ _ HT _ _ Hx))|].
  intros st1 (Hp1 & Hr1 & g' & Hg1 & Hlo). set (st2 := with_procs st1 _).
  assert (forall q, procs st2 !! q = vanish [p] (procs st) q) as Hp2.
  { intros q. cbn. unfold vanish. destruct (decide (q = p)) as [->|Hq].
    { rewrite lookup_delete_eq, bool_decide_eq_true_2 by by left. reflexivity. }
    rewrite lookup_delete_ne, bool_decide_eq_false_2, Hp1 by (rewrite ?list_elem_of_singleton; congruence).
    destruct (procs st !! q) as [z|] eqn:Ez; [|reflexivity]. cbn. case_bool_decide as Ec; [reflexivity|].
    unfold prune. rewrite filter_out_id, set_children_id; [reflexivity|]. intros Hin. apply Ec. exact (child_of rank st HT p x HR q z Ez Hin). }
  assert (forall l, l <> tgid x -> groups st2 !! l = groups st !! l) as Hgl by (intros l Hl; cbn; rewrite Hg1, lookup_insert_ne; congruence).
  assert (groups st2 !! tgid x = Some g') as Hgx by (cbn; rewrite Hg1; apply lookup_insert_eq).
  split; [exact (turn_tree_ok rank st HT HU p x HR st2 Hp2 Hgl g g' Hg Hgx Hlo Hr1)|].
  split; [exact (vanish_untraced _ _ _ HU Hp2)|]. split; [exact Hp2|]. split; [exact Hgl|]. eauto.
Qed.

(** Changing the exit state of a task without children that nobody relies on. *)
Lemma exit_state_tree_ok rank st l z e :
  tree_ok rank st -> procs st !! l = Some z -> e <> 0 -> children z = [] -> exiting z = true ->
  (exit_state z = 0 -> forall q w, procs st !! q = Some w -> q <> l -> exit_state w = 0 -> tgid w <> 0 -> reapers st !! ns w <> Some l) ->
  tree_ok rank (set_proc st l (set_exit_state z e)).
Proof.
  intros HT Hz He Hc Hex Hnr. set (st' := set_proc _ _ _).
  assert (forall q w', procs st' !! q = Some w' -> exists w, procs st !! q = Some w /\ w' = (if bool_decide (q = l) then set_exit_state w e else w)) as back.
  { intros q w'. cbn. rewrite lookup_insert_Some. intros [[<- <-]|[Hne Hw]].
    - exists z. rewrite (bool_decide_eq_true_2 (l = l) eq_refl). auto.
    - exists w'. rewrite bool_decide_eq_false_2 by congruence. auto. }
  assert (forall q w, procs st !! q = Some w -> procs st' !! q = Some (if bool_decide (q = l) then set_exit_state w e else w)) as on.
  { intros q w Hw. cbn. rewrite lookup_insert. case_decide as Eq; [|rewrite bool_decide_eq_false_2 by congruence; exact Hw].
    subst q. rewrite (bool_decide_eq_true_2 (l = l) eq_refl). congruence. }
  assert (forall (b : bool) w, tgid (if b then set_exit_state w e else w) = tgid w /\ real_parent (if b then set_exit_state w e else w) = real_parent w /\
    parent (if b then set_exit_state w e else w) = parent w /\ ptrace (if b then set_exit_state w e else w) = ptrace w /\
    ptraced (if b then set_exit_state w e else w) = ptraced w /\ ns (if b then set_exit_state w e else w) = ns w /\
    children (if b then set_exit_state w e else w) = children w /\ exiting (if b then set_exit_state w e else w) = exiting w) as same.
  { intros [] w; auto 10. }
  split.
  - intros q w' Hw'. apply back in Hw' as (w & Hw & ->). destruct (same (bool_decide (q = l)) w) as (-> & _). exact (tree_group _ _ HT _ _ Hw).
  - intros k g t Hg Ht. destruct (tree_thread _ _ HT k g t Hg Ht) as (a & b & Ha & Eta & Hb & Etb & Erp & Ens).
    eexists _, _. split; [exact (on t a Ha)|]. destruct (same (bool_decide (t = l)) a) as (-> & -> & _ & _ & _ & -> & _).
    split; [exact Eta|]. split; [exact (on k b Hb)|]. destruct (same (bool_decide (k = l)) b) as (-> & -> & _ & _ & _ & -> & _). auto.
  - exact (tree_threads _ _ HT).
  - intros q w' Hw'. apply back in Hw' as (w & Hw & ->). destruct (same (bool_decide (q = l)) w) as (_ & -> & _).
    destruct (tree_parent _ _ HT _ _ Hw). eauto.
  - intros q w' Hw'. apply back in Hw' as (w & Hw & ->). destruct (same (bool_decide (q = l)) w) as (_ & -> & -> & -> & _). exact (tree_plain _ _ HT _ _ Hw).
  - intros q w' Hw'. apply back in Hw' as (w & Hw & ->). destruct (same (bool_decide (q = l)) w) as (_ & _ & -> & -> & _).
    intros Hp. destruct (tree_tracer _ _ HT _ _ Hw Hp) as (v & Hv & Hin). eexists. split; [exact (on _ v Hv)|].
    destruct (same (bool_decide (parent w = l)) v) as (_ & _ & _ & _ & -> & _). exact Hin.
  - intros q w' c Hw'. apply back in Hw' as (w & Hw & ->). destruct (same (bool_decide (q = l)) w) as (_ & _ & _ & _ & _ & _ & -> & _).
    rewrite (tree_children _ _ HT _ _ c Hw). split; intros (Hcq & v & Hv & Et & Erp); (split; [exact Hcq|]).
    + eexists. split; [exact (on c v Hv)|]. destruct (same (bool_decide (c = l)) v) as (-> & -> & _). auto.
    + apply back in Hv as (u & Hu & ->). destruct (same (bool_decide (c = l)) u) as (E1 & E2 & _). exists u. split; [exact Hu|]. split; congruence.
  - intros q w' Hw'. apply back in Hw' as (w & Hw & ->). destruct (same (bool_decide (q = l)) w) as (_ & _ & _ & _ & _ & _ & -> & _). exact (tree_siblings _ _ HT _ _ Hw).
  - intros q w' Hw' Hd. apply back in Hw' as (w & Hw & ->). destruct (same (bool_decide (q = l)) w) as (_ & _ & _ & _ & _ & _ & -> & ->).
    case_bool_decide as Eq; [subst q; assert (w = z) as -> by congruence; auto|]. exact (tree_dead _ _ HT _ _ Hw Hd).
  - intros q w' Hw'. apply back in Hw' as (w & Hw & ->). destruct (same (bool_decide (q = l)) w) as (-> & _). exact (tree_init _ _ HT _ _ Hw).
  - intros w' Hw'. apply back in Hw' as (w & Hw & ->). destruct (same (bool_decide (0 = l)) w) as (-> & -> & _). exact (tree_root _ _ HT _ Hw).
  - intros q w' v' Hw' Hv'. apply back in Hw' as (w & Hw & ->). destruct (same (bool_decide (q = l)) w) as (Et & Erp & _). rewrite Et. rewrite Erp in Hv'.
    apply back in Hv' as (v & Hv & ->). destruct (same (bool_decide (real_parent w = l)) v) as (-> & _). exact (tree_rank _ _ HT _ _ _ Hw Hv).
  - intros q w' Hw' Hd H0'. apply back in Hw' as (w & Hw & ->). destruct (same (bool_decide (q = l)) w) as (Et & _ & _ & _ & _ & -> & _). rewrite Et in *.
    case_bool_decide as Eq; [exfalso; exact (He Hd)|].
    destruct (tree_reaper _ _ HT _ _ Hw Hd H0') as (r & v & Hr & Hv & Hve & Hvn & Hvr). exists r, v. split; [exact Hr|]. split; [|auto].
    rewrite (on r v Hv), bool_decide_eq_false_2; [reflexivity|]. intros ->. assert (v = z) as -> by congruence.
    exact (Hnr Hve q w Hw Eq Hd H0' Hr).
Qed.

(** The leader [l] of [p] waits for its last thread. *)
Definition last_thread (st : PS) (p l : Z) (zl : Proc) (g : Group) : Prop :=
  p <> l /\ procs st !! l = Some zl /\ exit_state zl = EXIT_ZOMBIE /\ filter (fun t => t ∉ [p]) (threads g) = [l].

(** What [release_task] does: [p] goes, or [p] and the leader it was the last
    thread of; each leaves the lists of its group, to which its usage is added. *)
Inductive released (st : PS) (p : Z) (x : Proc) (st' : PS) : list Z -> Prop :=
  | released_one g g' :
      (forall q, procs st' !! q = vanish [p] (procs st) q) -> (forall l, l <> tgid x -> groups st' !! l = groups st !! l) ->
      groups st !! tgid x = Some g -> groups st' !! tgid x = Some g' -> loses p (usage x) g g' ->
      released st p x st' [p]
  | released_leader zl g g1 g' :
      last_thread st p (tgid x) zl g ->
      (forall q, procs st' !! q = vanish [p; tgid x] (procs st) q) -> (forall l, l <> tgid x -> groups st' !! l = groups st !! l) ->
      groups st !! tgid x = Some g -> groups st' !! tgid x = Some g' -> loses p (usage x) g g1 -> loses (tgid x) (usage zl) g1 g' ->
      released st p x st' [p; tgid x].

Lemma release_turn rank st p x : tree_ok rank st -> untraced st -> releasable st p x ->
  returns (release_body (st, p)) (fun c =>
    match c with
    | Break (st1, _) => turned rank st p x st1
    | Continue (st2, l) => exists st1 zl g, l = tgid x /\ turned rank st p x st1 /\ groups st !! l = Some g /\ last_thread st p l zl g /\
        procs st1 !! l = Some (prune [p] zl) /\ st2 = set_proc (note st1 (Notify l (exit_signal zl))) l (set_exit_state (prune [p] zl) EXIT_DEAD)
    | Return e => False
    end).
Proof.
  intros HT HU HR. pose proof HR as (Hx & _). unfold release_body. rewrite (unlink_untraced st p x Hx (proj1 (HU _ _ Hx))). accesses.
  eapply returns_bind; [exact (exit_signal_turn rank st p x HT HU HR)|]. intros st1 Hturn. cbv zeta. set (st2 := with_procs st1 _) in *.
  destruct (Z.eqb_spec (tgid x) p) as [E|E]; [apply returns_ok; exact Hturn|].
  pose proof Hturn as (HT2 & HU2 & Hp2 & Hgl & g & g' & Hg & Hg' & Hlo).
  destruct (releasable_group rank st HT p x HR) as (g0 & Hg0 & Hpg & _). assert (g0 = g) as -> by congruence.
  destruct (tree_thread _ _ HT _ _ _ Hg Hpg) as (x' & zl & ? & _ & Hzl & Hzt & _).
  assert (procs st2 !! tgid x = Some (prune [p] zl)) as Hl2 by (apply (vanish_keep st p st2 Hp2); auto).
  assert (groups st2 !! tgid (prune [p] zl) = Some g') as Hgl2 by (cbn; rewrite Hzt; exact Hg').
  accesses. rewrite (empty_spec _ _ _ _ Hl2 Hgl2). change (exit_state (prune [p] zl)) with (exit_state zl).
  destruct Hlo as (Hth & Hlo'). rewrite Hth.
  destruct (bool_decide (filter _ _ = _) && (exit_state zl =? EXIT_ZOMBIE)) eqn:Ez; [|apply returns_ok; exact Hturn].
  apply andb_true_iff in Ez as [Eth Ezs]. apply bool_decide_eq_true_1 in Eth. apply Z.eqb_eq in Ezs.
  destruct (do_notify_parent _ _ _); apply returns_ok.
  - exists st2, zl, g. split; [reflexivity|]. split; [exact Hturn|]. split; [exact Hg|]. split; [repeat split; auto|].
    split; [exact Hl2|reflexivity].
  - destruct HT2. split; [split; assumption|]. split; [exact HU2|]. split; [exact Hp2|]. split; [exact Hgl|]. exists g, g'.
    split; [exact Hg|]. split; [exact Hg'|]. split; assumption.
Qed.

Lemma vanish_twice (m m1 m2 : gmap Z Proc) p l z : p <> l ->
  (forall q, m1 !! q = vanish [p] m q) -> (forall q, m2 !! q = vanish [l] (<[l := z]> m1) q) ->
  forall q, m2 !! q = vanish [p; l] m q.
Proof.
  intros Hpl H1 H2 q. rewrite H2. unfold vanish at 1 2. destruct (decide (q = l)) as [->|Hl].
  { rewrite !bool_decide_eq_true_2; [reflexivity| |]; set_solver. }
  rewrite bool_decide_eq_false_2, lookup_insert_ne, H1 by set_solver. unfold vanish. destruct (decide (q = p)) as [->|Hp].
  { rewrite !bool_decide_eq_true_2; [reflexivity| |]; set_solver. }
  rewrite !bool_decide_eq_false_2 by set_solver. destruct (m !! q); [|reflexivity]. cbn. f_equal. unfold prune. cbn.
  rewrite list_filter_filter. f_equal. apply list_filter_iff. intros c. rewrite !elem_of_cons. tauto.
Qed.

Lemma release_task_spec rank st p x : tree_ok rank st -> untraced st -> releasable st p x ->
  returns (release_task st p) (fun st' => tree_ok rank st' /\ untraced st' /\ exists gone, released st p x st' gone).
Proof.
  intros HT HU HR. unfold release_task.
  eapply (returns_bind _ _ (fun r => match r with inl (st', _) => tree_ok rank st' /\ untraced st' /\ exists gone, released st p x st' gone | inr _ => False end)).
  2: { intros [[st' l]|[]]. intros Hr. apply returns_ok, Hr. }
  rewrite loop_S. eapply returns_bind; [exact (release_turn rank st p x HT HU HR)|].
  intros [[st2 l]|[st1 l]|[]]; [|intros (HT1 & HU1 & Hp1 & Hg1 & g & g' & ? & ? & ?); apply returns_ok; eauto 10 using released_one].
  intros (st1 & zl & g & -> & (HT1 & HU1 & Hp1 & Hg1 & g0 & g1 & Hg & Hgl1 & Hlo1) & Hg0 & Hlast & Hl1 & ->).
  assert (g0 = g) as -> by congruence. pose proof Hlast as (Hpl & Hzl & Hzs & Hone).
  set (st2 := set_proc _ _ _). set (y := set_exit_state _ _) in *.
  assert (exit_state (prune [p] zl) <> 0) as Hnz by (cbn; rewrite Hzs; apply zombie_dead).
  destruct (tree_dead _ _ HT1 _ _ Hl1 Hnz) as [Hc Hex].
  assert (tree_ok rank st2) as HT2.
  { apply (exit_state_tree_ok rank (note st1 (Notify (tgid x) (exit_signal zl))) (tgid x) (prune [p] zl));
      [destruct HT1; split; assumption|exact Hl1|apply zombie_dead|exact Hc|exact Hex|intros; contradiction]. }
  assert (untraced st2) as HU2.
  { intros q w. cbn. rewrite lookup_insert_Some. intros [[<- <-]|[_ Hw]]; [exact (HU1 _ _ Hl1)|exact (HU1 _ _ Hw)]. }
  assert (tgid zl = tgid x) as Etl.
  { destruct (releasable_group rank st HT p x HR) as (g2 & Hg2 & Hpg & _). destruct (tree_thread _ _ HT _ _ _ Hg2 Hpg) as (? & zl' & ? & _ & ? & ? & _).
    congruence. }
  assert (releasable st2 (tgid x) y) as HR2.
  { pose proof HR as (_ & _ & H0' & _). split; [apply lookup_insert_eq|]. split; [apply zombie_dead|]. split; [cbn; congruence|].
    intros _. exists g1. split; [exact Hgl1|]. destruct Hlo1 as (-> & _). exact Hone. }
  rewrite loop_S. eapply returns_bind; [exact (release_turn rank st2 (tgid x) y HT2 HU2 HR2)|].
  assert (tgid y = tgid x) as Ety by exact Etl.
  intros [[st3 l]|[st3 l]|[]]; [intros (? & ? & ? & -> & _ & _ & (Hne & _) & _); congruence|].
  intros (HT3 & HU3 & Hp3 & Hg3 & ga & gb & Hga & Hgb & Hlo3). apply returns_ok. split; [exact HT3|]. split; [exact HU3|].
  rewrite Ety in *. assert (ga = g1) as -> by (cbn in Hga; congruence). exists [p; tgid x].
  apply (released_leader st p x st3 zl g g1 gb Hlast); auto.
  - exact (vanish_twice (procs st) (procs st1) (procs st3) p (tgid x) y Hpl Hp1 Hp3).
  - intros l' Hl'. rewrite (Hg3 l' Hl'). exact (Hg1 l' Hl').
Qed.

Lemma vanish_app (m m1 m2 : gmap Z Proc) a b :
  (forall q, m1 !! q = vanish a m q) -> (forall q, m2 !! q = vanish b m1 q) -> forall q, m2 !! q = vanish (a ++ b) m q.
Proof.
  intros H1 H2 q. rewrite H2. unfold vanish at 1. rewrite H1. unfold vanish.
  rewrite (bool_decide_ext (q ∈ a ++ b) (q ∈ a \/ q ∈ b)) by apply elem_of_app. rewrite bool_decide_or.
  destruct (bool_decide (q ∈ a)), (bool_decide (q ∈ b)); [reflexivity..|]. cbn. destruct (m !! q); [|reflexivity]. cbn. f_equal.
  unfold prune. cbn. rewrite list_filter_filter. f_equal. apply list_filter_iff. intros c. rewrite elem_of_app. tauto.
Qed.

(** A dead leader that is the last of its group. *)
Definition ripe (st : PS) (q : Z) : Prop := exists z, releasable st q z /\ tgid z = q.

Lemma released_groups st p x st' gone l : released st p x st' gone -> l <> tgid x -> groups st' !! l = groups st !! l.
Proof. intros [] Hl; auto. Qed.

Lemma released_procs st p x st' gone : released st p x st' gone -> forall q, procs st' !! q = vanish gone (procs st) q.
Proof. intros []; auto. Qed.

Lemma released_gone st p x st' gone : released st p x st' gone ->
  p ∈ gone /\ forall q, q ∈ gone -> q = p \/ q = tgid x /\ exists z, procs st !! q = Some z /\ exit_state z = EXIT_ZOMBIE.
Proof.
  intros [? ? ? ? ? ? ?|zl ? ? ? (_ & Hzl & Hzs & _) ? ? ? ? ? ?]; (split; [by left|]); intros q Hq.
  - apply list_elem_of_singleton in Hq. auto.
  - apply elem_of_cons in Hq as [->|Hq]; [auto|]. apply list_elem_of_singleton in Hq as ->. eauto.
Qed.

Lemma released_ripe st p x st' gone q : released st p x st' gone -> q <> p -> q <> tgid x -> ripe st q -> ripe st' q.
Proof.
  intros Hr Hp Ht (z & (Hz & He & H0' & Hl) & Etz). exists (prune gone z).
  assert (q ∉ gone) as Hq by (intros Hq; apply (released_gone _ _ _ _ _ Hr) in Hq as [?|[? _]]; contradiction).
  split; [|exact Etz]. split; [|split; [exact He|split; [exact H0'|]]].
  - rewrite (released_procs _ _ _ _ _ Hr). unfold vanish. rewrite bool_decide_eq_false_2, Hz by exact Hq. reflexivity.
  - intros _. rewrite (released_groups _ _ _ _ _ _ Hr Ht). auto.
Qed.

(** A list of dead leaders goes, and nothing else. *)
Lemma release_all_spec rank l : forall st, tree_ok rank st -> untraced st -> NoDup l -> (forall q, q ∈ l -> ripe st q) ->
  returns (release_all st l) (fun st' => tree_ok rank st' /\ untraced st' /\
    (forall q, procs st' !! q = vanish l (procs st) q) /\ (forall k, k ∉ l -> groups st' !! k = groups st !! k)).
Proof.
  induction l as [|p l IH]; intros st HT HU Hnd Hl; cbn [release_all].
  { apply returns_ok. split; [exact HT|]. split; [exact HU|]. split; [|auto]. intros q. unfold vanish. cbn.
    destruct (procs st !! q) as [z|]; [|reflexivity]. cbn. f_equal. unfold prune.
    rewrite filter_all by (apply Forall_forall; intros; apply not_elem_of_nil). symmetry. apply set_children_id. }
  apply NoDup_cons in Hnd as [Hp Hnd]. destruct (Hl p (list_elem_of_here _ _)) as (x & HR & Ex).
  eapply returns_bind; [exact (release_task_spec rank st p x HT HU HR)|]. intros st1 (HT1 & HU1 & gone & Hr).
  assert (gone = [p]) as -> by (destruct Hr as [|zl ? ? ? (Hne & _)]; [reflexivity|congruence]).
  eapply returns_mono.
  { apply (IH st1 HT1 HU1 Hnd). intros q Hq. apply (released_ripe st p x st1 [p] q Hr); [| |apply Hl; by right]; intros E; apply Hp; congruence. }
  intros st2 (HT2 & HU2 & Hp2 & Hg2). split; [exact HT2|]. split; [exact HU2|]. split.
  - exact (vanish_app (procs st) (procs st1) (procs st2) [p] l (released_procs _ _ _ _ _ Hr) Hp2).
  - intros k Hk. apply not_elem_of_cons in Hk as [Hkp Hk]. rewrite (Hg2 k Hk). apply (released_groups _ _ _ _ _ _ Hr). congruence.
Qed.
End ReleaseTask.

(** * exit_notify *)

Section ExitNotify.
  Context `{RelativesOk}.

Lemma tree_ok_ext rank st st' : procs st' = procs st -> groups st' = groups st -> reapers st' = reapers st ->
  tree_ok rank st -> tree_ok rank st'.
Proof. intros Ep Eg Er [T1 T2 T3 T4 T5 T6 T7 T8 T9 T10 T11 T12 T13]. split; rewrite ?Ep, ?Eg, ?Er; assumption. Qed.

(** What is left of the family when [t] has ended: its children have the parent
    [r]; the tasks in [gone] are released: [t] itself, or zombies; every other
    task is as it was, [t] a zombie. *)
Record departed (st : PS) (t : Z) (x : Proc) (r : Z) (gone : list Z) (st' : PS) : Prop := {
  de_gone p : p ∈ gone -> procs st' !! p = None /\ (p = t \/ exists z, procs st !! p = Some z /\ exit_state z = EXIT_ZOMBIE);
  de_kept p z : procs st !! p = Some z -> p ∉ gone -> exists z', procs st' !! p = Some z' /\ tgid z' = tgid z /\
    real_parent z' = (if bool_decide (real_parent z = t) then r else real_parent z) /\
    exit_state z' = (if bool_decide (p = t) then EXIT_ZOMBIE else exit_state z);
  de_thread : tgid x <> t -> t ∈ gone;
  de_leader g : tgid x = t -> groups st !! t = Some g -> threads g <> [t] -> t ∉ gone
}.

Section Steps.
  Context (rank : Z -> nat) (st : PS) (HT : tree_ok rank st) (HU : untraced st).
  Context (t : Z) (x : Proc) (Hx : procs st !! t = Some x) (H0' : tgid x <> 0) (He : exit_state x = 0) (Hex : exiting x = true).
  Context (st1 : PS) (dead : list Z) (HT1 : tree_ok rank st1) (c r : Z) (Hc : reapers st1 !! ns x = Some c) (Hct : c <> t).
  Context (Hrt : r <> t) (HF : forgotten st t x r st1 dead).

Lemma dead_ripe q : q ∈ dead -> ripe st1 q /\ q <> t /\ q <> tgid x.
Proof.
  intros Hq. destruct (fo_dead _ _ _ _ _ _ HF q Hq) as (Hin & z & z' & g & Hz & Hg & (Hpt & Hzs & Hone) & Hz' & Hd).
  apply (tree_children _ _ HT _ _ _ Hx) in Hin as (Hqt & w & Hw & Et & Erp). assert (w = z) as -> by congruence.
  destruct (fo_task _ _ _ _ _ _ HF q z Hz) as (z2 & Hz2 & Et2 & _). assert (z2 = z') as -> by congruence.
  split; [exists z'; split; [|congruence]|split; [exact Hqt|]].
  - split; [exact Hz'|]. split; [rewrite Hd; apply zombie_dead|]. split; [|intros _; exists g; rewrite (fo_groups _ _ _ _ _ _ HF); auto].
    rewrite Et2, Et. intros E. rewrite E in Hz. apply (tree_root _ _ HT) in Hz as [_ Hz].
    assert (t = 0) as Et0 by congruence. rewrite Et0 in Hx. apply (tree_root _ _ HT) in Hx as [Hx' _]. contradiction.
  - intros E. destruct (tree_group _ _ HT _ _ Hx) as (g' & Hg' & Ht). destruct (tree_thread _ _ HT _ _ _ Hg' Ht) as (x' & l & ? & _ & Hl & _ & Erp' & _).
    assert (x' = x) as -> by congruence. rewrite <- E in Hl. assert (l = z) as -> by congruence.
    pose proof (tree_rank _ _ HT t x x Hx) as Hlt. rewrite Erp', Erp in Hlt. specialize (Hlt Hx H0'). lia.
Qed.

Lemma father_after : exists x1, procs st1 !! t = Some x1 /\ tgid x1 = tgid x /\ children x1 = [] /\ exiting x1 = true /\ ns x1 = ns x /\
  exit_state x1 = 0 /\ ptrace x1 = false.
Proof.
  destruct (fo_task _ _ _ _ _ _ HF t x Hx) as (x1 & Hx1 & Et & Eex & En & Ep & _ & Ec & _ & Es). exists x1.
  rewrite (bool_decide_eq_true_2 (t = t) eq_refl) in Ec. rewrite Eex, Ep. destruct (HU _ _ Hx) as [-> _]. repeat (split; [assumption|]).
  split; [|reflexivity]. destruct Es as [Es|[Es _]]; [congruence|]. rewrite He in Es. destruct zombie_dead. congruence.
Qed.

Lemma untraced_after : untraced st1.
Proof.
  intros q z Hz. destruct (fo_only _ _ _ _ _ _ HF q (mk_is_Some _ _ Hz)) as [w Hw].
  destruct (fo_task _ _ _ _ _ _ HF q w Hw) as (z' & Hz' & _ & _ & _ & Ep & Epd & _). destruct (HU _ _ Hw).
  assert (z' = z) as -> by congruence. split; congruence.
Qed.

(** [t] gets an exit state. *)
Lemma marked e x1 : procs st1 !! t = Some x1 -> e <> 0 -> tree_ok rank (set_proc st1 t (set_exit_state x1 e)).
Proof.
  intros Hx1 Hne. destruct father_after as (x1' & Hx1' & _ & Hch & Hex1 & Hns & _). assert (x1' = x1) as -> by congruence.
  apply exit_state_tree_ok; auto. intros _ q w Hw Hq Hwe Hw0 Hr.
  destruct (tree_reaper _ _ HT1 _ _ Hw Hwe Hw0) as (r' & y & Hr' & Hy & _ & Hny & _).
  assert (r' = t) as -> by congruence. assert (y = x1) as -> by congruence. rewrite <- Hny, Hns in Hr. congruence.
Qed.

(** The dead children, and [t] before them when nobody waits for it. *)
Lemma notify_end e x1 autoreap st4 : procs st1 !! t = Some x1 -> e = (if autoreap : bool then EXIT_DEAD else EXIT_ZOMBIE) ->
  procs st4 = <[t := set_exit_state x1 e]> (procs st1) -> groups st4 = groups st1 -> reapers st4 = reapers st1 ->
  (autoreap = true -> tgid x = t -> exists g, groups st1 !! t = Some g /\ threads g = [t]) ->
  returns (release_all st4 (if autoreap then t :: dead else dead)) (fun st' => tree_ok rank st' /\ exists gone,
    (forall q, procs st' !! q = vanish gone (procs st4) q) /\ (autoreap = true <-> t ∈ gone) /\ dead ⊆ gone /\
    forall q, q ∈ gone -> q = t \/ q ∈ dead \/ exists z, procs st4 !! q = Some z /\ exit_state z = EXIT_ZOMBIE).
Proof.
  intros Hx1 Ee Ep Eg Er Hg. destruct zombie_dead as (Z1 & Z2 & _).
  assert (e <> 0) as Hne by (rewrite Ee; destruct autoreap; assumption).
  assert (tree_ok rank st4) as HT4 by (apply (tree_ok_ext rank (set_proc st1 t (set_exit_state x1 e))); auto using marked).
  assert (untraced st4) as HU4.
  { intros q z. rewrite Ep. pose proof untraced_after as HU1. intros [[<- <-]|[_ Hz]]%lookup_insert_Some; [exact (HU1 _ _ Hx1)|exact (HU1 _ _ Hz)]. }
  assert (forall q, q ∈ dead -> ripe st4 q) as Hripe.
  { intros q Hq. destruct (dead_ripe q Hq) as ((z & (Hz & ? & ? & ?) & Et) & Hqt & _). exists z. split; [|exact Et].
    split; [rewrite Ep, lookup_insert_ne by congruence; exact Hz|]. rewrite Eg. auto. }
  destruct father_after as (x1' & Hx1' & Et1 & _). assert (x1' = x1) as -> by congruence.
  pose proof (fo_nodup _ _ _ _ _ _ HF) as Hnd. destruct autoreap; cbn [release_all].
  - assert (releasable st4 t (set_exit_state x1 e)) as HR.
    { split; [rewrite Ep; apply lookup_insert_eq|]. split; [exact Hne|]. cbn. rewrite Et1, Eg. auto. }
    eapply returns_bind; [exact (release_task_spec rank st4 t _ HT4 HU4 HR)|]. intros st5 (HT5 & HU5 & gone & Hr).
    eapply returns_mono.
    { apply (release_all_spec rank dead st5 HT5 HU5 Hnd). intros q Hq. destruct (dead_ripe q Hq) as (_ & Hqt & Hqx).
      apply (released_ripe _ _ _ _ _ q Hr Hqt); [cbn; congruence|auto]. }
    intros st6 (HT6 & _ & Hp6 & _). split; [exact HT6|]. exists (gone ++ dead).
    destruct (released_gone _ _ _ _ _ Hr) as [Htg Hgone]. split; [exact (vanish_app _ _ _ _ _ (released_procs _ _ _ _ _ Hr) Hp6)|].
    split; [split; [intros _; apply elem_of_app; by left|reflexivity]|]. split; [intros q Hq; apply elem_of_app; by right|].
    intros q [Hq|Hq]%elem_of_app; [|auto]. apply Hgone in Hq as [->|[_ Hq]]; auto.
  - eapply returns_mono; [exact (release_all_spec rank dead st4 HT4 HU4 Hnd Hripe)|]. intros st6 (HT6 & _ & Hp6 & _). split; [exact HT6|].
    exists dead. split; [exact Hp6|]. split; [split; [discriminate|intros Hq; destruct (dead_ripe t Hq) as (_ & ? & _); contradiction]|].
    split; [reflexivity|]. auto.
Qed.
End Steps.

(** From the last list of tasks back to the first. *)
Lemma departed_from rank st t x r st1 dead x1 e st4 st' gone autoreap :
  tree_ok rank st -> procs st !! t = Some x -> exit_state x = 0 -> forgotten st t x r st1 dead ->
  procs st1 !! t = Some x1 -> e = (if autoreap : bool then EXIT_DEAD else EXIT_ZOMBIE) ->
  procs st4 = <[t := set_exit_state x1 e]> (procs st1) ->
  (forall q, procs st' !! q = vanish gone (procs st4) q) -> (autoreap = true <-> t ∈ gone) -> dead ⊆ gone ->
  (forall q, q ∈ gone -> q = t \/ q ∈ dead \/ exists z, procs st4 !! q = Some z /\ exit_state z = EXIT_ZOMBIE) ->
  (tgid x <> t -> autoreap = true) -> (forall g, tgid x = t -> groups st !! t = Some g -> threads g <> [t] -> autoreap = false) ->
  departed st t x r gone st'.
Proof.
  intros HT Hx He HF Hx1 Ee Ep Hp' Hat Hdead Hgone Hth Hld. destruct zombie_dead as (_ & _ & Z3). split.
  - intros p Hp. split; [rewrite Hp'; unfold vanish; rewrite bool_decide_eq_true_2 by exact Hp; reflexivity|].
    destruct (Hgone p Hp) as [->|[Hd|(z & Hz & Hzs)]]; [auto| |].
    + right. destruct (fo_dead _ _ _ _ _ _ HF p Hd) as (_ & z & _ & g & Hz & _ & (_ & Hzs & _) & _). eauto.
    + rewrite Ep in Hz. apply lookup_insert_Some in Hz as [[<- _]|[Hne Hz]]; [auto|]. right.
      destruct (fo_only _ _ _ _ _ _ HF p (mk_is_Some _ _ Hz)) as [w Hw].
      destruct (fo_task _ _ _ _ _ _ HF p w Hw) as (z' & Hz' & _ & _ & _ & _ & _ & _ & _ & Es). assert (z' = z) as -> by congruence.
      exists w. split; [exact Hw|]. destruct Es as [Es|[Es _]]; congruence.
  - intros p z Hz Hp. destruct (fo_task _ _ _ _ _ _ HF p z Hz) as (z' & Hz' & Et & _ & _ & _ & _ & _ & Erp & Es).
    assert (procs st4 !! p = Some (if bool_decide (p = t) then set_exit_state x1 e else z')) as H4.
    { rewrite Ep. destruct (decide (p = t)) as [->|E].
      - rewrite lookup_insert_eq, (bool_decide_eq_true_2 (t = t) eq_refl). reflexivity.
      - rewrite lookup_insert_ne, (bool_decide_eq_false_2 (p = t) E) by congruence. exact Hz'. }
    eexists. split; [rewrite Hp'; unfold vanish; rewrite bool_decide_eq_false_2, H4 by exact Hp; reflexivity|].
    case_bool_decide as E; cbn.
    + subst p. assert (z' = x1) as -> by congruence. split; [exact Et|]. split; [exact Erp|].
      destruct autoreap; [destruct Hp; apply Hat; reflexivity|exact Ee].
    + split; [exact Et|]. split; [exact Erp|]. destruct Es as [Es|(_ & _ & Hd)]; [exact Es|]. destruct (Hp (Hdead p Hd)).
  - intros Hne. apply Hat, Hth, Hne.
  - intros g Hl Hg Hne Hin. apply Hat in Hin. rewrite (Hld g Hl Hg Hne) in Hin. discriminate.
Qed.

(** The end of a task, put together. *)
Lemma exit_notify_spec rank st t x group_dead :
  tree_ok rank st -> untraced st -> procs st !! t = Some x -> tgid x <> 0 -> exit_state x = 0 -> exiting x = true ->
  (reapers st !! ns x <> Some t \/ exists t', lives st t t') ->
  returns (exit_notify st t group_dead) (fun st' => tree_ok rank st' /\ exists c r gone,
    next_reaper st t x c /\ new_reaper st t c r /\ departed st t x r gone st').
Proof.
  intros HT HU Hx H0' He Hex Hr. unfold exit_notify. destruct (HU _ _ Hx) as [_ Hpt].
  eapply returns_bind; [exact (forget_spec rank st t x HT Hx H0' He Hex Hpt Hr)|].
  intros [st1 dead] (HT1 & c & r & Hnext & Hc & Hnew & (Hrt & _) & HF). pose proof Hnext as [Hct _].
  destruct (father_after st HU t x Hx He Hex st1 dead r HF) as (x1 & Hx1 & Et1 & _ & _ & _ & _ & Ept). accesses.
  destruct (tree_group _ _ HT1 _ _ Hx1) as (g & Hg & Hin).
  destruct (tree_thread _ _ HT1 _ _ _ Hg Hin) as (_ & l & _ & _ & Hl & Etl & _).
  eapply (returns_bind _ _ (fun st2 => procs st2 = procs st1 /\ groups st2 = groups st1 /\ reapers st2 = reapers st1)).
  { destruct group_dead; [|apply returns_ok; auto]. rewrite <- Etl in Hg.
    eapply returns_mono; [apply (kill_orphaned_pgrp_spec st1 (tgid x1) l g None (tree_linked _ _ HT1) Hl Hg); discriminate|].
    intros st2 [[_ ->]|[_ ->]]; auto. }
  intros st2 (E1 & E2 & E3). pose proof Hx1 as Hx2. rewrite <- E1 in Hx2. accesses. cbv zeta.
  change (ptrace (set_exit_state x1 EXIT_ZOMBIE)) with (ptrace x1). rewrite Ept, leader_spec.
  set (y := set_exit_state x1 EXIT_ZOMBIE). set (st3 := set_proc st2 t y).
  assert (procs st3 !! t = Some y) as Hy by apply lookup_insert_eq.
  assert (groups st3 !! tgid y = Some g) as Hg3 by (cbn; rewrite E2; exact Hg).
  eapply (returns_bind _ _ (fun '(autoreap, st4) => procs st4 = <[t := y]> (procs st1) /\ groups st4 = groups st1 /\ reapers st4 = reapers st1 /\
    (autoreap = true -> tgid x = t -> threads g = [t]) /\ (tgid x <> t -> autoreap = true))).
  { change (tgid y) with (tgid x1) in *. rewrite Et1 in *.
    assert (procs st3 = <[t := y]> (procs st1)) as E1' by (cbn; rewrite E1; reflexivity).
    destruct (bool_decide (tgid x = t)) eqn:El; [apply bool_decide_eq_true_1 in El|apply bool_decide_eq_false_1 in El].
    - rewrite (empty_spec st3 t y g Hy) by (cbn; congruence). case_bool_decide; apply returns_ok; cbn; (split; [exact E1'|]);
        (split; [exact E2|]); (split; [exact E3|]); (split; [auto; discriminate|congruence]).
    - apply returns_ok. split; [exact E1'|]. split; [exact E2|]. split; [exact E3|]. split; [contradiction|reflexivity]. }
  intros [autoreap st4] (P4 & G4 & R4 & Hone & Hth). cbn beta iota.
  assert (groups st4 !! tgid y = Some g) as Hg4 by (rewrite G4; exact Hg).
  set (e := if autoreap then EXIT_DEAD else EXIT_ZOMBIE).
  assert (exists st5, (if autoreap then (set_proc st4 t (set_exit_state y EXIT_DEAD), t :: dead) else (st4, dead)) = (st5, if autoreap then t :: dead else dead) /\
    procs st5 = <[t := set_exit_state x1 e]> (procs st1) /\ groups st5 = groups st1 /\ reapers st5 = reapers st1) as (st5 & -> & P5 & G5 & R5).
  { destruct autoreap; eexists; (split; [reflexivity|]); cbn; rewrite P4, ?insert_insert_eq; auto. }
  assert (groups st5 !! tgid y = Some g) as Hg5 by (rewrite G5; exact Hg). accesses.
  set (st6 := if notify_count g <? 0 then _ else _).
  assert (procs st6 = procs st5 /\ groups st6 = groups st5 /\ reapers st6 = reapers st5) as (P6 & G6 & R6) by (subst st6; destruct (_ <? _); auto).
  rewrite Et1 in Hg.
  eapply returns_mono.
  { apply (notify_end rank st HT HU t x Hx H0' He Hex st1 dead HT1 c r Hc Hct HF e x1 autoreap st6 Hx1 eq_refl); [congruence..|].
    intros Ha El. exists g. split; [congruence|auto]. }
  intros st' (HT' & gone & Hp' & Hat & Hdead & Hgone). split; [exact HT'|]. exists c, r, gone. split; [exact Hnext|]. split; [exact Hnew|].
  apply (departed_from rank st t x r st1 dead x1 e st6 st' gone autoreap); auto; [congruence|].
  intros g' El Hg' Hne. destruct autoreap; [|reflexivity]. destruct Hne. rewrite (fo_groups _ _ _ _ _ _ HF), El in Hg.
  assert (g' = g) as -> by congruence. auto.
Qed.
End ExitNotify.
