(* ===== verification/Wait.v ===== *)
(** Waiting for children (src/3/20193018_PLUS-1/exit.c, from [struct
    waitid_info] to [thread_group_exited]), and the calls that give a task its
    exit code. A pointer to a pid is the pid's number; an [int *] into a task or
    a signal structure is a [CodePlace]. *)

From S2P Require Import Prelude KHeaders ProcTree.
Local Open Scope Z_scope.

(** * Constants of the interface (include/uapi/linux/wait.h, asm-generic/siginfo.h) *)

Definition WNOHANG : Z := 1.
Definition WUNTRACED : Z := 2.
Definition WSTOPPED : Z := WUNTRACED.
Definition WEXITED : Z := 4.
Definition WCONTINUED : Z := 8.
Definition WNOWAIT : Z := 16777216.
Definition __WNOTHREAD : Z := 536870912.
Definition __WALL : Z := 1073741824.
Definition __WCLONE : Z := 2147483648.

Definition P_ALL : Z := 0.
Definition P_PID : Z := 1.
Definition P_PGID : Z := 2.
Definition P_PIDFD : Z := 3.

Definition CLD_EXITED : Z := 1.
Definition CLD_KILLED : Z := 2.
Definition CLD_DUMPED : Z := 3.
Definition CLD_TRAPPED : Z := 4.
Definition CLD_STOPPED : Z := 5.
Definition CLD_CONTINUED : Z := 6.

Definition ERESTARTSYS : Z := 512.
Definition INT_MIN : Z := -2147483648.

Inductive pid_type := PIDTYPE_PID | PIDTYPE_TGID | PIDTYPE_PGID | PIDTYPE_SID | PIDTYPE_MAX.

#[export] Instance pid_type_eq_dec : EqDecision pid_type.
Proof. solve_decision. Defined.

(** [flags & mask] as a condition. *)
Definition flag (flags mask : Z) : bool := negb (Z.land flags mask =? 0).

(** * Data *)

Record waitid_info := mkInfo {
  wi_pid : Z;
  wi_uid : Z;
  wi_status : Z;
  wi_cause : Z
}.

(** [wo_rusage] is [None] for a null pointer, and otherwise holds the task whose
    usage was written, if any. *)
Record wait_opts := mkOpts {
  wo_type : pid_type;
  wo_flags : Z;
  wo_pid : option Z;
  wo_info : option waitid_info;
  wo_stat : Z;
  wo_rusage : option (option Z);
  notask_error : Z
}.

Definition set_info (wo : wait_opts) (pid uid status cause : Z) : wait_opts :=
  mkOpts (wo_type wo) (wo_flags wo) (wo_pid wo) ((fun _ => mkInfo pid uid status cause) <$> wo_info wo) (wo_stat wo) (wo_rusage wo) (notask_error wo).
Definition set_stat (wo : wait_opts) (v : Z) : wait_opts :=
  mkOpts (wo_type wo) (wo_flags wo) (wo_pid wo) (wo_info wo) v (wo_rusage wo) (notask_error wo).
(** [getrusage(p, RUSAGE_BOTH, wo->wo_rusage)], when asked for. *)
Definition getrusage (wo : wait_opts) (p : Z) : wait_opts :=
  mkOpts (wo_type wo) (wo_flags wo) (wo_pid wo) (wo_info wo) (wo_stat wo) ((fun _ => Some p) <$> wo_rusage wo) (notask_error wo).
Definition set_notask (wo : wait_opts) (v : Z) : wait_opts :=
  mkOpts (wo_type wo) (wo_flags wo) (wo_pid wo) (wo_info wo) (wo_stat wo) (wo_rusage wo) v.

(** The state of a wait: the tasks and the caller's options. *)
Definition WS : Type := PS * wait_opts.

(** kernel/pid.c, kernel/fork.c, kernel/sched/cputime.c and headers:
    [attached pid type] is the list of tasks that [pid] is the [type] of. *)
Class Pids := {
  task_pid_type : PS -> Z -> pid_type -> option Z;
  pid_task : PS -> Z -> pid_type -> option Z;
  pid_has_task : PS -> Z -> pid_type -> bool;
  find_get_pid : PS -> Z -> option Z;
  pidfd_get_pid : Z -> Z + Z * bool;
  task_pid_vnr : PS -> Z -> Z;
  signal_pending : PS -> bool;
  signal_group_exit : Group -> bool;
  zap_other_threads : PS -> Z -> PS;
  thread_group_cputime_adjusted : PS -> Z -> Z * Z
}.

Section Wait.
  Context `{Relatives} `{Pids}.

(** * Which tasks are waited for *)

Definition eligible_pid (st : PS) (wo : wait_opts) (p : Z) : bool :=
  bool_decide (wo_type wo = PIDTYPE_MAX) || bool_decide (task_pid_type st p (wo_type wo) = wo_pid wo).

Definition eligible_child (st : PS) (wo : wait_opts) (ptr : bool) (p : Z) (x : Proc) : bool :=
  if negb (eligible_pid st wo p) then false
  else if ptr || flag (wo_flags wo) __WALL then true
  else negb (xorb (negb (exit_signal x =? SIGCHLD)) (flag (wo_flags wo) __WCLONE)).

(** * A dead child *)

(** [out_info] of [wait_task_zombie]. *)
Definition zombie_info (wo : wait_opts) (pid uid status : Z) : wait_opts :=
  if Z.land status 127 =? 0 then set_info wo pid uid (Z.shiftr status 8) CLD_EXITED
  else set_info wo pid uid (Z.land status 127) (if flag status 128 then CLD_DUMPED else CLD_KILLED).

(** What the group of [p] adds to its parent's [c*] counters. *)
Definition group_usage (st : PS) (p : Z) (x : Proc) (g : Group) : Usage :=
  let '(tgutime, tgstime) := thread_group_cputime_adjusted st p in
  let u := uadd (uadd (usage x) (g_usage g)) (c_usage g) in
  mkUsage (add64 tgutime (us_utime (c_usage g))) (add64 tgstime (us_stime (c_usage g))) (us_gtime u) (us_min_flt u) (us_maj_flt u)
    (us_nvcsw u) (us_nivcsw u) (us_inblock u) (us_oublock u).

Definition charge_parent (st : PS) (p : Z) (x : Proc) : res PS :=
  g ← group st (tgid x);
  c ← proc st (current st);
  pg ← group st (tgid c);
  mret (set_group st (tgid c) (add_child_usage pg (group_usage st p x g) (Z.max (maxrss g) (cmaxrss g)))).

(** The end of a traced zombie that its tracer has seen: the real parent is told,
    and decides whether it stays. *)
Definition untrace_zombie (st : PS) (p : Z) : res (PS * Z) :=
  let st := ptrace_unlink st p in
  x ← proc st p;
  let state := if do_notify_parent st p (exit_signal x) then EXIT_DEAD else EXIT_ZOMBIE in
  mret (set_proc (note st (Notify p (exit_signal x))) p (set_exit_state x state), state).

Definition wait_task_zombie (s : WS) (p : Z) : res (WS * Z) :=
  let '(st, wo) := s in
  let pid := task_pid_vnr st p in
  x ← proc st p;
  let uid := uid x in
  if negb (flag (wo_flags wo) WEXITED) then mret (st, wo, 0)
  else if flag (wo_flags wo) WNOWAIT then mret (st, zombie_info (getrusage wo p) pid uid (exit_code x), pid)
  else
    rep ← ptrace_reparented st x;
    let state := if rep && thread_group_leader p x then EXIT_TRACE else EXIT_DEAD in
    if negb (exit_state x =? EXIT_ZOMBIE) then mret (st, wo, 0)
    else
      let st := set_proc st p (set_exit_state x state) in
      st ← (if (state =? EXIT_DEAD) && thread_group_leader p x then charge_parent st p x else mret st);
      let wo := getrusage wo p in
      g ← signal st p;
      let status := if group_exit g then group_exit_code g else exit_code x in
      let wo := set_stat wo status in
      '(st, state) ← (if state =? EXIT_TRACE then untrace_zombie st p else mret (st, state));
      st ← (if state =? EXIT_DEAD then release_task st p else mret st);
      mret (st, zombie_info wo pid uid status, pid).

(** * A stopped or continued child *)

Inductive CodePlace := TaskCode | GroupCode.

Definition task_stopped_code (x : Proc) (g : Group) (ptr : bool) : option (CodePlace * Z) :=
  if ptr then if traced x && negb (listening x) then Some (TaskCode, exit_code x) else None
  else if stop_stopped g then Some (GroupCode, group_exit_code g) else None.

Definition clear_code (st : PS) (p : Z) (x : Proc) (g : Group) (pl : CodePlace) : PS :=
  match pl with
  | TaskCode => set_proc st p (set_exit_code x 0)
  | GroupCode => set_group st (tgid x) (set_stopped_code g 0)
  end.

Definition wait_task_stopped (s : WS) (ptr : bool) (p : Z) : res (WS * Z) :=
  let '(st, wo) := s in
  if negb ptr && negb (flag (wo_flags wo) WUNTRACED) then mret (st, wo, 0)
  else
    x ← proc st p;
    g ← signal st p;
    match task_stopped_code x g ptr with
    | None => mret (st, wo, 0)
    | Some (pl, code) =>
        if code =? 0 then mret (st, wo, 0)
        else
          let st := if flag (wo_flags wo) WNOWAIT then st else clear_code st p x g pl in
          let pid := task_pid_vnr st p in
          let why := if ptr then CLD_TRAPPED else CLD_STOPPED in
          let wo := getrusage wo p in
          let wo := if negb (flag (wo_flags wo) WNOWAIT) then set_stat wo (Z.lor (Z.shiftl code 8) 127) else wo in
          mret (st, set_info wo pid (uid x) code why, pid)
    end.

Definition wait_task_continued (s : WS) (p : Z) : res (WS * Z) :=
  let '(st, wo) := s in
  if negb (flag (wo_flags wo) WCONTINUED) then mret (st, wo, 0)
  else
    x ← proc st p;
    g ← signal st p;
    if negb (stop_continued g) then mret (st, wo, 0)
    else
      let st := if flag (wo_flags wo) WNOWAIT then st else set_group st (tgid x) (clear_continued g) in
      let pid := task_pid_vnr st p in
      let wo := getrusage wo p in
      mret (st, match wo_info wo with None => set_stat wo 65535 | Some _ => set_info wo pid (uid x) SIGCONT CLD_CONTINUED end, pid).

(** * One candidate *)

Definition wait_consider_task (s : WS) (ptr : bool) (p : Z) : res (WS * Z) :=
  let '(st, wo) := s in
  x ← proc st p;
  let exit_state := exit_state x in
  if exit_state =? EXIT_DEAD then mret (st, wo, 0)
  else if negb (eligible_child st wo ptr p x) then mret (st, wo, 0)
  else if exit_state =? EXIT_TRACE then mret (st, if negb ptr then set_notask wo 0 else wo, 0)
  else
    ptr ← (if negb ptr && ptrace x then rep ← ptrace_reparented st x; mret (negb rep) else mret ptr);
    if (exit_state =? EXIT_ZOMBIE) && negb (delay_group_leader st p x) && (ptr || negb (ptrace x)) then wait_task_zombie (st, wo) p
    else
      let wo :=
        if exit_state =? EXIT_ZOMBIE then
          if negb ptr || flag (wo_flags wo) (Z.lor WCONTINUED WEXITED) then set_notask wo 0 else wo
        else set_notask wo 0 in
      '(s, ret) ← wait_task_stopped (st, wo) ptr p;
      if negb (ret =? 0) then mret (s, ret) else wait_task_continued s p.

(** The tasks of a list, until one gives a result. *)
Fixpoint wait_list (ptr : bool) (l : list Z) (s : WS) : res (WS * Z) :=
  match l with
  | [] => mret (s, 0)
  | p :: l =>
      '(s, ret) ← wait_consider_task s ptr p;
      if negb (ret =? 0) then mret (s, ret) else wait_list ptr l s
  end.

Definition do_wait_thread (tsk : Z) (s : WS) : res (WS * Z) :=
  x ← proc (fst s) tsk; wait_list false (children x) s.

Definition ptrace_do_wait (tsk : Z) (s : WS) : res (WS * Z) :=
  x ← proc (fst s) tsk; wait_list true (ptraced x) s.

Definition is_effectively_child (st : PS) (wo : wait_opts) (ptr : bool) (target : Proc) : res bool :=
  let par := if negb ptr then real_parent target else parent target in
  if par =? current st then mret true
  else if flag (wo_flags wo) __WNOTHREAD then mret false
  else c ← proc st (current st); q ← proc st par; mret (same_thread_group c q).

Definition do_wait_pid (s : WS) : res (WS * Z) :=
  let '(st, wo) := s in
  '(s, retval) ←
    match wo_pid wo ≫= fun n => pid_task st n PIDTYPE_TGID with
    | None => mret (s, 0)
    | Some target =>
        x ← proc st target;
        e ← is_effectively_child st wo false x;
        if e : bool then wait_consider_task s false target else mret (s, 0)
    end;
  if negb (retval =? 0) then mret (s, retval)
  else
    let '(st, wo) := s in
    match wo_pid wo ≫= fun n => pid_task st n PIDTYPE_PID with
    | None => mret (s, 0)
    | Some target =>
        x ← proc st target;
        e ← (if ptrace x then is_effectively_child st wo true x else mret false);
        if e : bool then wait_consider_task s true target else mret (s, 0)
    end.

(** The callback of the wait queue: whether the news about [p] wakes the waiter
    [private]. *)
Definition child_wait_callback (st : PS) (wo : wait_opts) (private p : Z) (x : Proc) : bool :=
  if negb (eligible_pid st wo p) then false
  else negb (flag (wo_flags wo) __WNOTHREAD && negb (private =? parent x)).

(** * do_wait *)

(** The threads from [t] on, around the list. *)
Fixpoint rotate (t : Z) (l before : list Z) : list Z :=
  match l with
  | [] => rev before
  | a :: l' => if a =? t then l ++ rev before else rotate t l' (a :: before)
  end.

Fixpoint wait_threads (l : list Z) (s : WS) : res (WS * Z) :=
  match l with
  | [] => mret (s, 0)
  | tsk :: l =>
      '(s, retval) ← do_wait_thread tsk s;
      if negb (retval =? 0) then mret (s, retval)
      else
        '(s, retval) ← ptrace_do_wait tsk s;
        if negb (retval =? 0) then mret (s, retval)
        else if flag (wo_flags (snd s)) __WNOTHREAD then mret (s, 0)
        else wait_threads l s
  end.

(** How a turn of [do_wait] ends: with a result, or asleep. *)
Inductive Outcome := Done (ret : Z) | Sleeping.

Definition do_wait_turn (s : WS) : res (WS * Outcome) :=
  let '(st, wo) := s in
  let wo := set_notask wo (- ECHILD) in
  '(s, retval) ←
    (if bool_decide (wo_type wo <> PIDTYPE_MAX) &&
        match wo_pid wo with None => true | Some n => negb (pid_has_task st n (wo_type wo)) end
     then mret ((st, wo), 0)
     else if bool_decide (wo_type wo = PIDTYPE_PID) then do_wait_pid (st, wo)
     else c ← proc st (current st); g ← group st (tgid c); wait_threads (rotate (current st) (threads g) []) (st, wo));
  if negb (retval =? 0) then mret (s, Done retval)
  else
    let '(st, wo) := s in
    let retval := notask_error wo in
    if (retval =? 0) && negb (flag (wo_flags wo) WNOHANG) then
      if signal_pending st then mret (s, Done (- ERESTARTSYS)) else mret (s, Sleeping)
    else mret (s, Done retval).

(** [wakes] are the states that the waiter finds at its wake-ups. *)
Fixpoint do_wait (s : WS) (wakes : list PS) : res (WS * Outcome) :=
  '(s', t) ← do_wait_turn s;
  match t, wakes with
  | Sleeping, st :: wakes => do_wait (st, snd s') wakes
  | _, _ => mret (s', t)
  end.

(** * The calls of the kernel *)

Definition new_opts (type : pid_type) (pid : option Z) (flags : Z) (info : option waitid_info) (ru : bool) : wait_opts :=
  mkOpts type flags pid info 0 (if ru then Some None else None) 0.

(** [options & ~allowed]. *)
Definition unknown_options (options allowed : Z) : bool := negb (Z.ldiff options allowed =? 0).

Definition any_of (l : list Z) : Z := fold_right Z.lor 0 l.

(** The type, the pid and whether the pidfd is non-blocking; an error
    otherwise. *)
Definition waitid_target (st : PS) (which upid : Z) : Z + pid_type * option Z * bool :=
  if which =? P_ALL then inr (PIDTYPE_MAX, None, false)
  else if which =? P_PID then
    if upid <=? 0 then inl (- EINVAL) else inr (PIDTYPE_PID, find_get_pid st upid, false)
  else if which =? P_PGID then
    if upid <? 0 then inl (- EINVAL)
    else inr (PIDTYPE_PGID, if negb (upid =? 0) then find_get_pid st upid else task_pid_type st (current st) PIDTYPE_PGID, false)
  else if which =? P_PIDFD then
    if upid <? 0 then inl (- EINVAL)
    else match pidfd_get_pid upid with
         | inl err => inl err
         | inr (pid, nonblock) => inr (PIDTYPE_PID, Some pid, nonblock)
         end
  else inl (- EINVAL).

(** [wo_stat] is not initialised there and not read. *)
Definition kernel_waitid (st : PS) (wakes : list PS) (which upid : Z) (infop : option waitid_info) (options : Z) (ru : bool)
    : res (PS * option waitid_info * option (option Z) * Outcome) :=
  let fails err := mret (st, infop, if ru then Some None else None, Done err) in
  if unknown_options options (any_of [WNOHANG; WNOWAIT; WEXITED; WSTOPPED; WCONTINUED; __WNOTHREAD; __WCLONE; __WALL]) then fails (- EINVAL)
  else if negb (flag options (any_of [WEXITED; WSTOPPED; WCONTINUED])) then fails (- EINVAL)
  else
    match waitid_target st which upid with
    | inl err => fails err
    | inr (type, pid, nonblock) =>
        let wo := new_opts type pid (if nonblock then Z.lor options WNOHANG else options) infop ru in
        '(st, wo, t) ← do_wait (st, wo) wakes;
        let t := match t with Done 0 => if negb (flag options WNOHANG) && nonblock then Done (- EAGAIN) else t | _ => t end in
        mret (st, wo_info wo, wo_rusage wo, t)
    end.

(** What [waitid] stores for the caller. *)
Record siginfo := mkSiginfo {
  si_signo : Z;
  si_errno : Z;
  si_code : Z;
  si_pid : Z;
  si_uid : Z;
  si_status : Z
}.

(** A user pointer: null, or whether writing through it succeeds. *)
Definition UserPtr : Type := option bool.

Definition sys_waitid (st : PS) (wakes : list PS) (which upid : Z) (infop : UserPtr) (options : Z) (ru : UserPtr)
    : res (PS * option siginfo * Outcome) :=
  '(st, info, _, t) ← kernel_waitid st wakes which upid (Some (mkInfo 0 0 0 0)) options (bool_decide (ru <> None));
  match t with
  | Sleeping => mret (st, None, Sleeping)
  | Done err =>
      if (0 <? err) && bool_decide (ru = Some false) then mret (st, None, Done (- EFAULT))
      else
        let signo := if 0 <? err then SIGCHLD else 0 in
        let err := if 0 <? err then 0 else err in
        match infop, info with
        | None, _ => mret (st, None, Done err)
        | Some false, _ => mret (st, None, Done (- EFAULT))
        | Some true, Some i => mret (st, Some (mkSiginfo signo 0 (wi_cause i) (wi_pid i) (wi_uid i) (wi_status i)), Done err)
        | Some true, None => Undef
        end
  end.

(** The type and the pid that [wait4] waits for. *)
Definition wait4_target (st : PS) (upid : Z) : pid_type * option Z :=
  if upid =? -1 then (PIDTYPE_MAX, None)
  else if upid <? 0 then (PIDTYPE_PGID, find_get_pid st (- upid))
  else if upid =? 0 then (PIDTYPE_PGID, task_pid_type st (current st) PIDTYPE_PGID)
  else (PIDTYPE_PID, find_get_pid st upid).

(** The third component is the status stored for the caller. *)
Definition kernel_wait4 (st : PS) (wakes : list PS) (upid : Z) (stat_addr : UserPtr) (options : Z) (ru : bool)
    : res (PS * option (option Z) * option Z * Outcome) :=
  if unknown_options options (any_of [WNOHANG; WUNTRACED; WCONTINUED; __WNOTHREAD; __WCLONE; __WALL]) then
    mret (st, if ru then Some None else None, None, Done (- EINVAL))
  else if upid =? INT_MIN then mret (st, if ru then Some None else None, None, Done (- ESRCH))
  else
    let '(type, pid) := wait4_target st upid in
    let wo := new_opts type pid (Z.lor options WEXITED) None ru in
    '(st, wo, t) ← do_wait (st, wo) wakes;
    match t, stat_addr with
    | Done ret, Some ok =>
        if 0 <? ret then
          if ok : bool then mret (st, wo_rusage wo, Some (wo_stat wo), Done ret) else mret (st, wo_rusage wo, None, Done (- EFAULT))
        else mret (st, wo_rusage wo, None, t)
    | _, _ => mret (st, wo_rusage wo, None, t)
    end.

(** [stat] is the old contents of the caller's variable. *)
Definition kernel_wait (st : PS) (wakes : list PS) (pid stat : Z) : res (PS * Z * Outcome) :=
  '(st, wo, t) ← do_wait (st, new_opts PIDTYPE_PID (find_get_pid st pid) WEXITED None false) wakes;
  let stat := match t with Done ret => if (0 <? ret) && negb (wo_stat wo =? 0) then wo_stat wo else stat | Sleeping => stat end in
  mret (st, stat, t).

Definition sys_wait4 (st : PS) (wakes : list PS) (upid : Z) (stat_addr : UserPtr) (options : Z) (ru : UserPtr)
    : res (PS * option Z * Outcome) :=
  '(st, _, stat, t) ← kernel_wait4 st wakes upid stat_addr options (bool_decide (ru <> None));
  match t with
  | Done err => mret (st, stat, if (0 <? err) && bool_decide (ru = Some false) then Done (- EFAULT) else t)
  | Sleeping => mret (st, stat, t)
  end.

Definition sys_waitpid (st : PS) (wakes : list PS) (pid : Z) (stat_addr : UserPtr) (options : Z) : res (PS * option Z * Outcome) :=
  '(st, _, stat, t) ← kernel_wait4 st wakes pid stat_addr options false; mret (st, stat, t).

Definition thread_group_exited (st : PS) (pid : Z) : res bool :=
  match pid_task st pid PIDTYPE_PID with
  | None => mret true
  | Some t => x ← proc st t; mret (negb (exit_state x =? 0) && thread_group_empty st t)
  end.
End Wait.
