(* ===== verification/Waiting.v ===== *)
(** What the wait calls of src/3/20193018_PLUS-1/exit.c return and do, in a
    family without tracers: the first child with news is reported, a reaped
    zombie is released and its usage charged to its parent, and the direct look-up
    of one pid agrees with the search through all the children. *)

From S2P Require Import Prelude KHeaders ProcTree Family Reparent Release Wait.
Local Open Scope Z_scope.

(** What the pid functions say. *)
Class PidsOk `{Pids} : Prop := {
  type_some st p ty : is_Some (procs st !! p) -> ty <> PIDTYPE_MAX -> is_Some (task_pid_type st p ty);
  type_pid st p : is_Some (procs st !! p) -> task_pid_type st p PIDTYPE_PID = Some p;
  has_task st n ty p : is_Some (procs st !! p) -> task_pid_type st p ty = Some n -> pid_has_task st n ty = true;
  task_of_tgid st n p : pid_task st n PIDTYPE_TGID = Some p <-> p = n /\ exists x, procs st !! n = Some x /\ tgid x = n;
  task_of_pid st n p : pid_task st n PIDTYPE_PID = Some p <-> p = n /\ is_Some (procs st !! n);
  find_pid st p : is_Some (procs st !! p) -> find_get_pid st p = Some p;
  vnr_pos st p : is_Some (procs st !! p) -> 0 < task_pid_vnr st p
}.

(** Why a child is reported. *)
Inductive News := Exited | Stopped | Continued.

Section News.
  Context `{Relatives} `{Pids}.

(** A zombie that can be reaped at once. *)
Definition ready (p : Z) (x : Proc) (g : Group) : bool := (exit_state x =? EXIT_ZOMBIE) && bool_decide (threads g = [p]).

(** The child is one that the options ask for and is not being reaped. *)
Definition wanted (st : PS) (wo : wait_opts) (p : Z) (x : Proc) : bool :=
  negb (exit_state x =? EXIT_DEAD) && eligible_child st wo false p x.

(** There may be news later. *)
Definition hopeful (st : PS) (wo : wait_opts) (p : Z) : bool :=
  match procs st !! p with
  | Some x => match groups st !! tgid x with Some g => wanted st wo p x && negb (ready p x g) | None => false end
  | None => false
  end.

Definition news_of (st : PS) (wo : wait_opts) (p : Z) : option News :=
  match procs st !! p with
  | Some x =>
      match groups st !! tgid x with
      | Some g =>
          if negb (wanted st wo p x) || (exit_state x =? EXIT_TRACE) then None
          else if ready p x g then if flag (wo_flags wo) WEXITED then Some Exited else None
          else if flag (wo_flags wo) WUNTRACED && stop_stopped g && negb (group_exit_code g =? 0) then Some Stopped
          else if flag (wo_flags wo) WCONTINUED && stop_continued g then Some Continued
          else None
      | None => None
      end
  | None => None
  end.

(** The wait status of a dead process. *)
Definition exit_status (x : Proc) (g : Group) : Z := if group_exit g then group_exit_code g else exit_code x.

(** Reporting: what the caller gets and what is consumed. *)
Definition report (s : WS) (p : Z) (x : Proc) (g : Group) (n : News) : res (WS * Z) :=
  let '(st, wo) := s in
  match n with
  | Exited => wait_task_zombie (st, wo) p
  | Stopped => wait_task_stopped (st, set_notask wo 0) false p
  | Continued => wait_task_continued (st, set_notask wo 0) p
  end.

(** The options without the error of the search. *)
Definition same_opts (wo wo' : wait_opts) : Prop := set_notask wo 0 = set_notask wo' 0.

Lemma news_notask st wo v p : news_of st (set_notask wo v) p = news_of st wo p.
Proof. reflexivity. Qed.

Lemma hopeful_notask st wo v p : hopeful st (set_notask wo v) p = hopeful st wo p.
Proof. reflexivity. Qed.

Lemma set_notask_twice wo v w : set_notask (set_notask wo v) w = set_notask wo w.
Proof. reflexivity. Qed.
End News.

Section Consider.
  Context `{RelativesOk} `{PidsOk}.

Lemma stopped_none st wo p x g : procs st !! p = Some x -> groups st !! tgid x = Some g ->
  flag (wo_flags wo) WUNTRACED && stop_stopped g && negb (group_exit_code g =? 0) = false -> wait_task_stopped (st, wo) false p = Ok ((st, wo), 0).
Proof.
  intros Hx Hg E. unfold wait_task_stopped. cbn [negb andb]. destruct (flag (wo_flags wo) WUNTRACED); [|reflexivity]. cbn [negb andb] in *.
  accesses. unfold task_stopped_code. destruct (stop_stopped g); [|reflexivity]. cbn [andb] in E. apply negb_false_iff in E. rewrite E. reflexivity.
Qed.

Lemma stopped_some st wo p x g : procs st !! p = Some x -> groups st !! tgid x = Some g ->
  flag (wo_flags wo) WUNTRACED && stop_stopped g && negb (group_exit_code g =? 0) = true ->
  exists s, wait_task_stopped (st, wo) false p = Ok (s, task_pid_vnr (fst s) p) /\ 0 < task_pid_vnr (fst s) p.
Proof.
  intros Hx Hg [[Ew Es]%andb_true_iff Ec]%andb_true_iff. apply negb_true_iff in Ec. unfold wait_task_stopped. rewrite Ew. cbn [negb andb].
  accesses. unfold task_stopped_code. rewrite Es, Ec. cbn [negb]. eexists (_, _). split; [reflexivity|]. apply vnr_pos.
  cbn [fst]. match goal with |- context [if ?b then _ else _] => destruct b end; exists x; exact Hx.
Qed.

Lemma continued_none st wo p x g : procs st !! p = Some x -> groups st !! tgid x = Some g ->
  flag (wo_flags wo) WCONTINUED && stop_continued g = false -> wait_task_continued (st, wo) p = Ok ((st, wo), 0).
Proof.
  intros Hx Hg E. unfold wait_task_continued. destruct (flag (wo_flags wo) WCONTINUED); [|reflexivity]. cbn [negb andb] in *.
  accesses. rewrite E. reflexivity.
Qed.

Lemma continued_some st wo p x g : procs st !! p = Some x -> groups st !! tgid x = Some g ->
  flag (wo_flags wo) WCONTINUED && stop_continued g = true ->
  exists s, wait_task_continued (st, wo) p = Ok (s, task_pid_vnr (fst s) p) /\ 0 < task_pid_vnr (fst s) p.
Proof.
  intros Hx Hg [Ew Es]%andb_true_iff. unfold wait_task_continued. rewrite Ew. cbn [negb]. accesses. rewrite Es. cbn [negb].
  eexists (_, _). split; [reflexivity|]. apply vnr_pos. cbn [fst]. match goal with |- context [if ?b then _ else _] => destruct b end; exists x; exact Hx.
Qed.

(** One candidate of a list of children, when nobody is traced. *)
Lemma consider_child st wo p x g :
  untraced st -> procs st !! p = Some x -> groups st !! tgid x = Some g -> tgid x = p ->
  wait_consider_task (st, wo) false p =
    match news_of st wo p with
    | Some n => report (st, wo) p x g n
    | None => Ok ((st, if hopeful st wo p then set_notask wo 0 else wo), 0)
    end.
Proof.
  intros HU Hx Hg Ht. destruct (HU _ _ Hx) as [Hpt _]. unfold wait_consider_task, news_of, hopeful, wanted. accesses. rewrite Hx, Hg, Hpt.
  destruct (exit_state x =? EXIT_DEAD); [reflexivity|]. destruct (eligible_child st wo false p x); [|reflexivity]. cbn [negb andb orb].
  destruct (Z.eqb_spec (exit_state x) EXIT_TRACE) as [E|E].
  { unfold ready. rewrite E. reflexivity. }
  accesses. unfold delay_group_leader, ready. rewrite leader_spec, (empty_spec _ _ _ _ Hx Hg), (bool_decide_eq_true_2 (tgid x = p) Ht).
  cbn [andb orb]. rewrite negb_involutive, andb_true_r. destruct ((exit_state x =? EXIT_ZOMBIE) && bool_decide (threads g = [p])) eqn:Er; cbn [negb].
  { destruct (flag (wo_flags wo) WEXITED) eqn:Ew; [reflexivity|]. unfold wait_task_zombie. accesses. rewrite Ew. reflexivity. }
  set (wo0 := if exit_state x =? EXIT_ZOMBIE then _ else set_notask wo 0).
  assert (wo0 = set_notask wo 0) as -> by (subst wo0; destruct (_ =? _); reflexivity).
  destruct (flag (wo_flags wo) WUNTRACED && stop_stopped g && negb (group_exit_code g =? 0)) eqn:Es.
  - destruct (stopped_some st (set_notask wo 0) p x g Hx Hg Es) as (s & Hs & Hpos). cbn [report]. rewrite Hs.
    transitivity (if negb (task_pid_vnr (fst s) p =? 0) then Ok (s, task_pid_vnr (fst s) p) else wait_task_continued s p); [reflexivity|].
    destruct (Z.eqb_spec (task_pid_vnr (fst s) p) 0); [lia|reflexivity].
  - rewrite (stopped_none st (set_notask wo 0) p x g Hx Hg Es). accesses. cbn [Z.eqb negb].
    destruct (flag (wo_flags wo) WCONTINUED && stop_continued g) eqn:Ec; [reflexivity|].
    exact (continued_none st (set_notask wo 0) p x g Hx Hg Ec).
Qed.

(** A computation whose results all have a non-zero code, before the rest. *)
Lemma bind_nonzero (m : res (WS * Z)) (k : WS -> res (WS * Z)) :
  (forall s ret, m = Ok (s, ret) -> ret <> 0) ->
  ('(s, ret) ← m; if negb (ret =? 0) then mret (s, ret) else k s) = m.
Proof.
  destruct m as [[s ret]| | |]; intros Hm; [|reflexivity..]. specialize (Hm s ret eq_refl).
  transitivity (if negb (ret =? 0) then Ok (s, ret) else k s); [reflexivity|]. destruct (Z.eqb_spec ret 0); [contradiction|reflexivity].
Qed.

Lemma zombie_ret st wo p x s ret : procs st !! p = Some x -> exit_state x = EXIT_ZOMBIE -> flag (wo_flags wo) WEXITED = true ->
  wait_task_zombie (st, wo) p = Ok (s, ret) -> ret = task_pid_vnr st p.
Proof.
  intros Hx He Hw. unfold wait_task_zombie. accesses. rewrite Hw, He. cbn [negb]. destruct (flag (wo_flags wo) WNOWAIT); [by intros [= _ <-]|].
  intros (rep & _ & E)%bind_ok_inv. cbn in E. apply bind_ok_inv in E as (st1 & _ & E). apply bind_ok_inv in E as (g & _ & E).
  apply bind_ok_inv in E as ([st2 state] & _ & E). apply bind_ok_inv in E as (st3 & _ & [= _ <-]). reflexivity.
Qed.

Lemma news_report st wo p n : news_of st wo p = Some n -> exists x g, procs st !! p = Some x /\ groups st !! tgid x = Some g /\
  wanted st wo p x = true /\
  match n with
  | Exited => ready p x g = true /\ flag (wo_flags wo) WEXITED = true
  | Stopped => flag (wo_flags wo) WUNTRACED && stop_stopped g && negb (group_exit_code g =? 0) = true
  | Continued => flag (wo_flags wo) WCONTINUED && stop_continued g = true
  end.
Proof.
  unfold news_of. destruct (procs st !! p) as [x|] eqn:Ex; [|discriminate]. destruct (groups st !! tgid x) as [g|] eqn:Eg; [|discriminate].
  destruct (wanted st wo p x) eqn:Ew; [|discriminate]. destruct (exit_state x =? EXIT_TRACE); [discriminate|]. cbn [negb orb].
  intros E. exists x, g. split; [reflexivity|]. split; [exact Eg|]. split; [exact Ew|].
  destruct (ready p x g); [destruct (flag (wo_flags wo) WEXITED) eqn:E1; [injection E as <-; auto|discriminate]|].
  destruct (flag _ _ && stop_stopped g && _) eqn:Es; [injection E as <-; reflexivity|].
  destruct (flag _ _ && stop_continued g) eqn:Ec; [injection E as <-; reflexivity|discriminate].
Qed.

Lemma report_nonzero st wo p n x g s ret : news_of st wo p = Some n -> procs st !! p = Some x -> groups st !! tgid x = Some g ->
  report (st, wo) p x g n = Ok (s, ret) -> ret <> 0.
Proof.
  intros Hn Hx Hg E. destruct (news_report st wo p n Hn) as (x' & g' & Hx' & Hg' & _ & Hc).
  assert (x' = x) as -> by congruence. assert (g' = g) as -> by congruence.
  assert (0 < task_pid_vnr st p) as Hpos by (apply vnr_pos; eauto). destruct n; cbn [report] in E.
  - destruct Hc as [[Hz _]%andb_true_iff Hw]. apply Z.eqb_eq in Hz. apply (zombie_ret st wo p x) in E; auto. lia.
  - destruct (stopped_some st (set_notask wo 0) p x g Hx Hg Hc) as (s' & Hs & Hp). rewrite Hs in E. injection E as _ <-. lia.
  - destruct (continued_some st (set_notask wo 0) p x g Hx Hg Hc) as (s' & Hs & Hp). rewrite Hs in E. injection E as _ <-. lia.
Qed.

(** The first child of a list that has news. *)
Fixpoint first_news (st : PS) (wo : wait_opts) (l : list Z) : option (Z * News) :=
  match l with
  | [] => None
  | p :: l => match news_of st wo p with Some n => Some (p, n) | None => first_news st wo l end
  end.

(** The leaders among the tasks. *)
Definition leaders (st : PS) (l : list Z) : Prop :=
  forall p, p ∈ l -> exists x g, procs st !! p = Some x /\ tgid x = p /\ groups st !! p = Some g.

Lemma leaders_cons st p l : leaders st (p :: l) ->
  (exists x g, procs st !! p = Some x /\ tgid x = p /\ groups st !! tgid x = Some g) /\ leaders st l.
Proof.
  intros Hl. split; [|intros q Hq; apply Hl; by right]. destruct (Hl p (list_elem_of_here _ _)) as (x & g & Hx & Ht & Hg).
  exists x, g. rewrite Ht. auto.
Qed.

Lemma first_notask st wo v l : first_news st (set_notask wo v) l = first_news st wo l.
Proof. induction l as [|p l IH]; cbn; [reflexivity|]. rewrite news_notask, IH. reflexivity. Qed.

(** The search through a list of children. *)
Lemma wait_list_first st l : untraced st -> leaders st l -> forall wo,
  match first_news st wo l with
  | Some (p, n) => exists v x g, procs st !! p = Some x /\ groups st !! tgid x = Some g /\ p ∈ l /\ news_of st wo p = Some n /\
      wait_list false l (st, wo) = report (st, set_notask wo v) p x g n
  | None => wait_list false l (st, wo) = Ok ((st, if existsb (hopeful st wo) l then set_notask wo 0 else wo), 0)
  end.
Proof.
  intros HU. induction l as [|p l IH]; intros Hl wo; cbn [wait_list first_news existsb]; [reflexivity|].
  apply leaders_cons in Hl as [(x & g & Hx & Ht & Hg) Hl]. rewrite (consider_child st wo p x g HU Hx Hg Ht).
  destruct (news_of st wo p) as [n|] eqn:En.
  { exists (notask_error wo), x, g. rewrite (bind_nonzero (report (st, wo) p x g n)) by (intros s ret; apply report_nonzero; auto).
    repeat (split; [first [assumption|by left]|]). destruct wo. reflexivity. }
  rewrite bind_ok. cbn [Z.eqb negb]. destruct (hopeful st wo p) eqn:Eh.
  - specialize (IH Hl (set_notask wo 0)). rewrite first_notask in IH. destruct (first_news st wo l) as [[q n]|].
    + destruct IH as (v & x' & g' & Hx' & Hg' & Hq & Hn & E). exists v, x', g'. repeat (split; [first [assumption|by right]|]). exact E.
    + etrans; [exact IH|]. do 3 f_equal. destruct (existsb _ l); reflexivity.
  - specialize (IH Hl wo). destruct (first_news st wo l) as [[q n]|]; [|exact IH].
    destruct IH as (v & x' & g' & Hx' & Hg' & Hq & Hn & E). exists v, x', g'. repeat (split; [first [assumption|by right]|]). exact E.
Qed.

Lemma wait_list_app l1 l2 s :
  wait_list false (l1 ++ l2) s = ('(s, ret) ← wait_list false l1 s; if negb (ret =? 0) then mret (s, ret) else wait_list false l2 s).
Proof.
  revert s. induction l1 as [|p l1 IH]; intros s; [reflexivity|]. cbn [wait_list app].
  destruct (wait_consider_task s false p) as [[s1 ret]| | |]; [|reflexivity..]. rewrite !bind_ok.
  destruct (Z.eqb_spec ret 0) as [E|E]; cbn [negb]; [apply IH|].
  transitivity (if negb (ret =? 0) then Ok (s1, ret) else wait_list false l2 s1); [|reflexivity].
  apply Z.eqb_neq in E. rewrite E. reflexivity.
Qed.

(** Nothing found: the tasks are as before. *)
Lemma wait_list_zero st l wo s : untraced st -> leaders st l -> wait_list false l (st, wo) = Ok (s, 0) ->
  exists v, s = (st, set_notask wo v).
Proof.
  intros HU Hl E. pose proof (wait_list_first st l HU Hl wo) as Hf. destruct (first_news st wo l) as [[p n]|].
  - destruct Hf as (v & x & g & Hx & Hg & _ & Hn & E'). rewrite E' in E. destruct (report_nonzero st (set_notask wo v) p n x g s 0 Hn Hx Hg E eq_refl).
  - rewrite E in Hf. injection Hf as ->. destruct (existsb _ l); [eauto|]. exists (notask_error wo). destruct wo. reflexivity.
Qed.

(** The children of the threads that [do_wait] looks at, in its order. *)
Fixpoint candidates (st : PS) (nothread : bool) (l : list Z) : list Z :=
  match l with
  | [] => []
  | t :: l => match procs st !! t with Some x => children x | None => [] end ++ if nothread then [] else candidates st nothread l
  end.

Lemma children_leaders rank st t x : tree_ok rank st -> procs st !! t = Some x -> leaders st (children x).
Proof.
  intros HT Hx p Hp. apply (tree_children _ _ HT _ _ _ Hx) in Hp as (_ & y & Hy & Et & _).
  destruct (tree_group _ _ HT _ _ Hy) as (g & Hg & _). exists y, g. rewrite Et in Hg. auto.
Qed.

Lemma candidates_leaders rank st b l : tree_ok rank st -> leaders st (candidates st b l).
Proof.
  intros HT. induction l as [|t l IH]; [intros p Hp; by apply not_elem_of_nil in Hp|]. intros p [Hp|Hp]%elem_of_app.
  - destruct (procs st !! t) as [x|] eqn:Ex; [|by apply not_elem_of_nil in Hp]. exact (children_leaders rank st t x HT Ex p Hp).
  - destruct b; [by apply not_elem_of_nil in Hp|exact (IH p Hp)].
Qed.

Lemma wait_threads_list rank st l wo : tree_ok rank st -> untraced st -> (forall t, t ∈ l -> is_Some (procs st !! t)) ->
  wait_threads l (st, wo) = wait_list false (candidates st (flag (wo_flags wo) __WNOTHREAD) l) (st, wo).
Proof.
  intros HT HU. revert wo. induction l as [|t l IH]; intros wo Hl; [reflexivity|]. cbn [wait_threads candidates].
  destruct (Hl t (list_elem_of_here _ _)) as [x Hx]. rewrite Hx, wait_list_app. unfold do_wait_thread. cbn [fst]. accesses.
  destruct (wait_list false (children x) (st, wo)) as [[s ret]| | |] eqn:Ew; [|reflexivity..]. rewrite !bind_ok.
  destruct (Z.eqb_spec ret 0) as [->|E]; cbn [negb]; [|reflexivity].
  destruct (wait_list_zero st (children x) wo s HU (children_leaders rank st t x HT Hx) Ew) as [v ->].
  unfold ptrace_do_wait. cbn [fst snd]. accesses. destruct (HU _ _ Hx) as [_ ->]. cbn [wait_list]. accesses. cbn [Z.eqb negb snd].
  change (wo_flags (set_notask wo v)) with (wo_flags wo). destruct (flag (wo_flags wo) __WNOTHREAD) eqn:Ef; [reflexivity|].
  rewrite IH by (intros q Hq; apply Hl; by right). change (wo_flags (set_notask wo v)) with (wo_flags wo). rewrite Ef. reflexivity.
Qed.

(** * One pid *)

Lemma elem_of_reverse' (q : Z) l : q ∈ rev l <-> q ∈ l.
Proof. rewrite rev_alt. change (rev_append l []) with (reverse l). apply elem_of_reverse. Qed.

Lemma rotate_elem t l : forall b q, q ∈ rotate t l b <-> q ∈ l \/ q ∈ b.
Proof.
  induction l as [|a l IH]; intros b q; cbn [rotate].
  - rewrite elem_of_reverse'. split; [auto|intros [Hq|]; [by apply not_elem_of_nil in Hq|assumption]].
  - destruct (a =? t); [rewrite elem_of_app, elem_of_reverse'; reflexivity|]. rewrite IH, !elem_of_cons. tauto.
Qed.

Lemma rotate_head t l : forall b, t ∈ l -> exists tl, rotate t l b = t :: tl.
Proof.
  induction l as [|a l IH]; intros b Ht; [by apply not_elem_of_nil in Ht|]. cbn [rotate].
  destruct (Z.eqb_spec a t) as [->|Ha]; [eexists; reflexivity|]. apply IH. apply elem_of_cons in Ht as [|]; congruence.
Qed.

Lemma eligible_pid_one st wo n p : wo_type wo = PIDTYPE_PID -> wo_pid wo = Some n -> is_Some (procs st !! p) ->
  eligible_pid st wo p = bool_decide (p = n).
Proof.
  intros Ety Epid Hp. unfold eligible_pid. rewrite Ety, Epid, (type_pid st p Hp). rewrite bool_decide_eq_false_2 by discriminate.
  apply bool_decide_ext. split; congruence.
Qed.

Lemma other_pid st wo n p : wo_type wo = PIDTYPE_PID -> wo_pid wo = Some n -> p <> n -> news_of st wo p = None /\ hopeful st wo p = false.
Proof.
  intros Ety Epid Hp. unfold news_of, hopeful. destruct (procs st !! p) as [x|] eqn:Ex; [|auto]. destruct (groups st !! tgid x); [|auto].
  assert (wanted st wo p x = false) as ->; [|auto]. unfold wanted, eligible_child.
  rewrite (eligible_pid_one st wo n p Ety Epid) by eauto. rewrite bool_decide_eq_false_2 by exact Hp. cbn. apply andb_false_r.
Qed.

Lemma wait_list_pid st n l : untraced st -> leaders st l -> forall wo, wo_type wo = PIDTYPE_PID -> wo_pid wo = Some n ->
  wait_list false l (st, wo) = if bool_decide (n ∈ l) then wait_consider_task (st, wo) false n else Ok ((st, wo), 0).
Proof.
  intros HU. induction l as [|p l IH]; intros Hl wo Ety Epid; [reflexivity|]. cbn [wait_list].
  apply leaders_cons in Hl as [(x & g & Hx & Ht & Hg) Hl]. rewrite (consider_child st wo p x g HU Hx Hg Ht).
  destruct (decide (p = n)) as [->|Hp].
  - rewrite (bool_decide_eq_true_2 (n ∈ n :: l)) by by left. rewrite (consider_child st wo n x g HU Hx Hg Ht).
    destruct (news_of st wo n) as [k|] eqn:En.
    { apply bind_nonzero. intros s ret. apply report_nonzero; auto. }
    rewrite bind_ok. cbn [Z.eqb negb]. set (wo1 := if hopeful st wo n then set_notask wo 0 else wo).
    assert (wo_type wo1 = PIDTYPE_PID /\ wo_pid wo1 = Some n /\ news_of st wo1 n = None /\ hopeful st wo1 n = hopeful st wo n) as (E1 & E2 & E3 & E4).
    { subst wo1. destruct (hopeful st wo n) eqn:E; rewrite ?hopeful_notask; auto. }
    rewrite (IH Hl wo1 E1 E2). case_bool_decide; [|reflexivity]. rewrite (consider_child st wo1 n x g HU Hx Hg Ht), E3, E4.
    subst wo1. destruct (hopeful st wo n); reflexivity.
  - destruct (other_pid st wo n p Ety Epid Hp) as [-> ->]. rewrite bind_ok. cbn [Z.eqb negb]. rewrite (IH Hl wo Ety Epid).
    rewrite (bool_decide_ext (n ∈ p :: l) (n ∈ l)); [reflexivity|]. rewrite elem_of_cons. intuition congruence.
Qed.

(** The caller: a live user process. *)
Definition caller (st : PS) (c : Proc) (g : Group) : Prop :=
  procs st !! current st = Some c /\ groups st !! tgid c = Some g /\ tgid c <> 0 /\ exit_state c = 0.

(** The threads of the caller, from itself on. *)
Definition caller_threads (st : PS) (g : Group) : list Z := rotate (current st) (threads g) [].

Lemma caller_threads_spec rank st c g : tree_ok rank st -> caller st c g ->
  (exists tl, caller_threads st g = current st :: tl) /\
  forall t, t ∈ caller_threads st g <-> exists z, procs st !! t = Some z /\ tgid z = tgid c.
Proof.
  intros HT (Hc & Hg & _). destruct (tree_group _ _ HT _ _ Hc) as (g' & Hg' & Hin). assert (g' = g) as -> by congruence.
  split; [exact (rotate_head _ _ [] Hin)|]. intros t. unfold caller_threads. rewrite rotate_elem. split.
  - intros [Ht|Ht]; [|by apply not_elem_of_nil in Ht]. destruct (tree_thread _ _ HT _ _ _ Hg Ht) as (z & _ & ? & ? & _). eauto.
  - intros (z & Hz & Et). left. destruct (tree_group _ _ HT _ _ Hz) as (g' & Hg2 & ?). congruence.
Qed.

Lemma candidates_elem st l n : n ∈ candidates st false l <-> exists t x, t ∈ l /\ procs st !! t = Some x /\ n ∈ children x.
Proof.
  induction l as [|t l IH]; cbn [candidates].
  - split; [intros Hn; by apply not_elem_of_nil in Hn|]. intros (t & x & Ht & _). by apply not_elem_of_nil in Ht.
  - rewrite elem_of_app, IH. split.
    + intros [Hn|(q & x & Hq & Hx & Hn)]; [|exists q, x; split; [by right|auto]].
      destruct (procs st !! t) as [x|] eqn:Ex; [exists t, x; split; [by left|auto]|by apply not_elem_of_nil in Hn].
    + intros (q & x & [->|Hq]%elem_of_cons & Hx & Hn); [left; rewrite Hx; exact Hn|right; eauto].
Qed.

(** A leader is a candidate when its real parent is the caller, or, unless the
    caller asks for its own children only, one of the caller's threads. *)
Lemma candidate_iff rank st c g b n : tree_ok rank st -> caller st c g ->
  n ∈ candidates st b (caller_threads st g) <->
  exists x, procs st !! n = Some x /\ tgid x = n /\
    (real_parent x = current st \/ b = false /\ exists z, procs st !! real_parent x = Some z /\ tgid z = tgid c).
Proof.
  intros HT Hcal. destruct (caller_threads_spec rank st c g HT Hcal) as [[tl Etl] Hth]. pose proof Hcal as (Hc & _ & H0' & _).
  assert (forall t z x, procs st !! t = Some z -> tgid z = tgid c -> procs st !! n = Some x -> tgid x = n -> real_parent x = t -> n ∈ children z) as into.
  { intros t z x Hz Ez Hx Ex Erp. apply (tree_children _ _ HT _ _ _ Hz). split; [|eauto]. intros ->.
    assert (x = z) as -> by congruence. pose proof (tree_rank _ _ HT t z z Hx) as Hlt. rewrite Erp in Hlt. specialize (Hlt Hx). rewrite Ez in Hlt. lia. }
  assert (forall t z, procs st !! t = Some z -> n ∈ children z -> exists x, procs st !! n = Some x /\ tgid x = n /\ real_parent x = t) as out.
  { intros t z Hz Hn. apply (tree_children _ _ HT _ _ _ Hz) in Hn as (_ & x & ?). eauto. }
  destruct b.
  - rewrite Etl. cbn [candidates]. rewrite Hc, app_nil_r. split.
    + intros Hn. destruct (out _ _ Hc Hn) as (x & ? & ? & ?). eauto 10.
    + intros (x & Hx & Ex & [Erp|[? _]]); [|discriminate]. exact (into _ c x Hc eq_refl Hx Ex Erp).
  - rewrite candidates_elem. split.
    + intros (t & z & Ht & Hz & Hn). apply Hth in Ht as (z' & Hz' & Ez). assert (z' = z) as -> by congruence.
      destruct (out _ _ Hz Hn) as (x & ? & ? & E). exists x. split; [assumption|]. split; [assumption|]. right. split; [reflexivity|]. rewrite E. eauto.
    + intros (x & Hx & Ex & [Erp|[_ (z & Hz & Ez)]]).
      * exists (current st), c. split; [apply Hth; eauto|]. split; [exact Hc|]. exact (into _ c x Hc eq_refl Hx Ex Erp).
      * exists (real_parent x), z. split; [apply Hth; eauto|]. split; [exact Hz|]. exact (into _ z x Hz Ez Hx Ex eq_refl).
Qed.

Lemma effectively_child rank st wo c g n x : tree_ok rank st -> caller st c g -> procs st !! n = Some x -> tgid x = n ->
  is_effectively_child st wo false x = Ok (bool_decide (n ∈ candidates st (flag (wo_flags wo) __WNOTHREAD) (caller_threads st g))).
Proof.
  intros HT Hcal Hx Ex. pose proof Hcal as (Hc & _). destruct (tree_parent _ _ HT _ _ Hx) as [q Hq].
  pose proof (candidate_iff rank st c g (flag (wo_flags wo) __WNOTHREAD) n HT Hcal) as HC. unfold is_effectively_child. cbn [negb].
  destruct (Z.eqb_spec (real_parent x) (current st)) as [E|E]; [rewrite bool_decide_eq_true_2 by (apply HC; eauto); reflexivity|].
  destruct (flag (wo_flags wo) __WNOTHREAD).
  { rewrite bool_decide_eq_false_2; [reflexivity|]. rewrite HC. intros (x' & Hx' & _ & [E'|[? _]]); [|discriminate]. congruence. }
  accesses. rewrite same_group_spec. cbn. f_equal. apply bool_decide_ext. rewrite HC. split.
  - intros Et. exists x. eauto 10.
  - intros (x' & Hx' & _ & [E'|[_ (z & Hz & Ez)]]); congruence.
Qed.

Lemma do_wait_pid_list rank st wo c g n : tree_ok rank st -> untraced st -> caller st c g ->
  wo_type wo = PIDTYPE_PID -> wo_pid wo = Some n ->
  do_wait_pid (st, wo) = wait_list false (candidates st (flag (wo_flags wo) __WNOTHREAD) (caller_threads st g)) (st, wo).
Proof.
  intros HT HU Hcal Ety Epid. set (l := candidates _ _ _). pose proof (candidates_leaders rank st (flag (wo_flags wo) __WNOTHREAD) (caller_threads st g) HT) as Hl.
  fold l in Hl. rewrite (wait_list_pid st n l HU Hl wo Ety Epid).
  assert (forall st1 wo1, procs st1 = procs st -> wo_pid wo1 = Some n ->
    match wo_pid wo1 ≫= fun n => pid_task st1 n PIDTYPE_PID with
    | None => mret ((st1, wo1), 0)
    | Some target => x ← proc st1 target; e ← (if ptrace x then is_effectively_child st1 wo1 true x else mret false);
        if e : bool then wait_consider_task (st1, wo1) true target else mret ((st1, wo1), 0)
    end = Ok ((st1, wo1), 0)) as second.
  { intros st1 wo1 Ep E1. rewrite E1. cbn [mbind option_bind]. destruct (pid_task st1 n PIDTYPE_PID) as [q|] eqn:Eq; [|reflexivity].
    apply task_of_pid in Eq as [-> [x Hx]]. accesses. rewrite Ep in Hx. destruct (HU _ _ Hx) as [-> _]. reflexivity. }
  unfold do_wait_pid. rewrite Epid. cbn [mbind option_bind]. destruct (pid_task st n PIDTYPE_TGID) as [q|] eqn:Eq.
  - apply task_of_tgid in Eq as (-> & x & Hx & Ex). accesses. rewrite (effectively_child rank st wo c g n x HT Hcal Hx Ex). fold l. accesses.
    destruct (bool_decide (n ∈ l)); [|accesses; cbn [Z.eqb negb]; apply second; auto].
    destruct (tree_group _ _ HT _ _ Hx) as (g' & Hg' & _). rewrite (consider_child st wo n x g' HU Hx Hg' Ex).
    destruct (news_of st wo n) as [k|] eqn:En; [apply bind_nonzero; intros s ret; apply report_nonzero; auto|].
    rewrite bind_ok. cbn [Z.eqb negb]. apply second; [reflexivity|]. destruct (hopeful st wo n); exact Epid.
  - rewrite bool_decide_eq_false_2.
    2: { intros Hn. destruct (Hl n Hn) as (x & g' & Hx & Ex & _). assert (pid_task st n PIDTYPE_TGID = Some n) as E by (apply task_of_tgid; eauto). congruence. }
    accesses. cbn [Z.eqb negb]. apply second; auto.
Qed.

(** * One turn of do_wait *)

(** A pid that is on no list has no children to wait for. *)
Lemma nothing_attached st wo p : wo_type wo <> PIDTYPE_MAX ->
  match wo_pid wo with None => true | Some n => negb (pid_has_task st n (wo_type wo)) end = true ->
  news_of st wo p = None /\ hopeful st wo p = false.
Proof.
  intros Hty Hno. unfold news_of, hopeful. destruct (procs st !! p) as [x|] eqn:Ex; [|auto]. destruct (groups st !! tgid x); [|auto].
  assert (wanted st wo p x = false) as ->; [|auto]. unfold wanted, eligible_child, eligible_pid.
  assert (is_Some (procs st !! p)) as Hp by eauto. rewrite (bool_decide_eq_false_2 (wo_type wo = PIDTYPE_MAX) Hty). cbn [orb].
  rewrite bool_decide_eq_false_2; [cbn; apply andb_false_r|]. intros E. destruct (type_some st p (wo_type wo) Hp Hty) as [n En].
  rewrite En in E. rewrite <- E in Hno. apply negb_true_iff in Hno. rewrite (has_task st n (wo_type wo) p Hp En) in Hno. discriminate.
Qed.

(** How the search ends without news. *)
Definition no_news (st : PS) (wo : wait_opts) (some_hope : bool) : Outcome :=
  if some_hope then if flag (wo_flags wo) WNOHANG then Done 0 else if signal_pending st then Done (- ERESTARTSYS) else Sleeping
  else Done (- ECHILD).

Definition seen (st : PS) (wo : wait_opts) (g : Group) : list Z :=
  candidates st (flag (wo_flags wo) __WNOTHREAD) (caller_threads st g).

Lemma turn_search rank st wo c g : tree_ok rank st -> untraced st -> caller st c g ->
  (do_wait_turn (st, wo) =
    ('(s, retval) ← wait_list false (seen st wo g) (st, set_notask wo (- ECHILD));
     if negb (retval =? 0) then mret (s, Done retval)
     else let '(st, wo) := s in
       if (notask_error wo =? 0) && negb (flag (wo_flags wo) WNOHANG) then
         if signal_pending st then mret (s, Done (- ERESTARTSYS)) else mret (s, Sleeping)
       else mret (s, Done (notask_error wo)))).
Proof.
  intros HT HU Hcal. unfold do_wait_turn. set (wo1 := set_notask wo (- ECHILD)). change (seen st wo g) with (seen st wo1 g).
  destruct (bool_decide (wo_type wo1 <> PIDTYPE_MAX) && _) eqn:Eearly.
  { apply andb_true_iff in Eearly as [Ety%bool_decide_eq_true_1 Eno].
    pose proof (wait_list_first st (seen st wo1 g) HU (candidates_leaders rank st _ _ HT) wo1) as Hf.
    assert (forall l, first_news st wo1 l = None) as Hnone.
    { induction l as [|p l IH]; [reflexivity|]. cbn. destruct (nothing_attached st wo1 p Ety Eno) as [-> _]. exact IH. }
    assert (forall l, existsb (hopeful st wo1) l = false) as Hhope.
    { induction l as [|p l IH]; [reflexivity|]. cbn. destruct (nothing_attached st wo1 p Ety Eno) as [_ ->]. exact IH. }
    rewrite Hnone, Hhope in Hf. rewrite Hf. reflexivity. }
  destruct (bool_decide (wo_type wo1 = PIDTYPE_PID)) eqn:Epid; [apply bool_decide_eq_true_1 in Epid|].
  - destruct (wo_pid wo1) as [n|] eqn:En.
    + rewrite (do_wait_pid_list rank st wo1 c g n HT HU Hcal Epid En). reflexivity.
    + rewrite bool_decide_eq_true_2 in Eearly by congruence. discriminate.
  - pose proof Hcal as (Hc & Hg & _). accesses. change (rotate (current st) (threads g) []) with (caller_threads st g).
    rewrite (wait_threads_list rank st (caller_threads st g) wo1 HT HU); [reflexivity|].
    intros t Ht. apply (caller_threads_spec rank st c g HT Hcal) in Ht as (z & ? & _). eauto.
Qed.

Lemma turn_first rank st wo c g : tree_ok rank st -> untraced st -> caller st c g ->
  match first_news st wo (seen st wo g) with
  | Some (p, n) => exists v x gp, procs st !! p = Some x /\ groups st !! tgid x = Some gp /\ p ∈ seen st wo g /\ news_of st wo p = Some n /\
      do_wait_turn (st, wo) = ('(s, ret) ← report (st, set_notask wo v) p x gp n; mret (s, Done ret))
  | None => let hope := existsb (hopeful st wo) (seen st wo g) in
      do_wait_turn (st, wo) = Ok ((st, set_notask wo (if hope then 0 else - ECHILD)), no_news st wo hope)
  end.
Proof.
  intros HT HU Hcal. rewrite (turn_search rank st wo c g HT HU Hcal). set (wo1 := set_notask wo (- ECHILD)).
  pose proof (wait_list_first st (seen st wo g) HU (candidates_leaders rank st _ _ HT) wo1) as Hf.
  subst wo1. rewrite first_notask in Hf. destruct (first_news st wo (seen st wo g)) as [[p n]|] eqn:Ef.
  - destruct Hf as (v & x & gp & Hx & Hg & Hin & Hn & E). exists v, x, gp. split; [exact Hx|]. split; [exact Hg|]. split; [exact Hin|].
    split; [exact Hn|]. rewrite E. change (set_notask (set_notask wo (- ECHILD)) v) with (set_notask wo v).
    destruct (report (st, set_notask wo v) p x gp n) as [[s ret]| | |] eqn:Er; [|reflexivity..]. rewrite !bind_ok.
    apply (report_nonzero st (set_notask wo v) p n x gp s ret Hn Hx Hg) in Er. apply Z.eqb_neq in Er. rewrite Er. reflexivity.
  - cbv zeta. rewrite Hf, bind_ok. cbn [Z.eqb negb].
    change (existsb (hopeful st (set_notask wo (- ECHILD)))) with (existsb (hopeful st wo)). unfold no_news.
    destruct (existsb (hopeful st wo) (seen st wo g)); cbn; [destruct (flag _ _); [reflexivity|]; destruct (signal_pending st); reflexivity|reflexivity].
Qed.
End Consider.
