(* ===== verification/Reap.v ===== *)
(** Reaping a zombie (src/3/20193018_PLUS-1/exit.c, [wait_task_zombie] and the
    calls above it): what the parent learns, what is charged to it, and that the
    zombie is gone afterwards. *)

From S2P Require Import Prelude KHeaders ProcTree Family Reparent Release Wait Waiting.
Local Open Scope Z_scope.

(** A group changes, but not its threads. *)
Lemma set_group_tree_ok rank st l g g' : tree_ok rank st -> groups st !! l = Some g -> threads g' = threads g ->
  tree_ok rank (set_group st l g').
Proof.
  intros HT Hg Et.
  assert (forall k h, groups (set_group st l g') !! k = Some h -> exists h0, groups st !! k = Some h0 /\ threads h = threads h0) as back.
  { intros k h. cbn. intros [[<- <-]|[_ Hh]]%lookup_insert_Some; eauto. }
  assert (forall k h0, groups st !! k = Some h0 -> exists h, groups (set_group st l g') !! k = Some h /\ threads h = threads h0) as on.
  { intros k h0 Hh. cbn. rewrite lookup_insert. case_decide as E; [subst k|eauto]. assert (h0 = g) as -> by congruence. eauto. }
  destruct HT as [T1 T2 T3 T4 T5 T6 T7 T8 T9 T10 T11 T12 T13]. split; auto.
  - intros p x Hx. destruct (T1 p x Hx) as (h0 & Hh & Hin). destruct (on _ _ Hh) as (h & Hh' & E). exists h. rewrite E. auto.
  - intros k h t Hh Ht. destruct (back _ _ Hh) as (h0 & Hh0 & E). rewrite E in Ht. exact (T2 k h0 t Hh0 Ht).
  - intros k h Hh. destruct (back _ _ Hh) as (h0 & Hh0 & ->). exact (T3 k h0 Hh0).
Qed.

Section Reap.
  Context `{RelativesOk} `{PidsOk}.

(** The state in which the parent is charged: the zombie is already dead. *)
Definition claimed (st : PS) (p : Z) (x : Proc) : PS := set_proc st p (set_exit_state x EXIT_DEAD).

(** Reaping [p]: it is gone, the rest of the family is as it was, the usage of
    its group is added to the counters for children of the caller's group, and
    the caller learns how it ended. *)
Record reaped (rank : Z -> nat) (st : PS) (wo : wait_opts) (c : Proc) (g : Group) (p : Z) (x : Proc) (gp : Group) (st' : PS) (wo' : wait_opts) : Prop := {
  re_tree : tree_ok rank st';
  re_untraced : untraced st';
  re_procs q : procs st' !! q = vanish [p] (procs st) q;
  re_charge : groups st' !! tgid c =
    Some (add_child_usage g (group_usage (claimed st p x) p x gp) (Z.max (maxrss gp) (cmaxrss gp)));
  re_groups l : l <> p -> l <> tgid c -> groups st' !! l = groups st !! l;
  re_opts : wo' = zombie_info (set_stat (getrusage wo p) (exit_status x gp)) (task_pid_vnr st p) (uid x) (exit_status x gp)
}.

Lemma wait_zombie_spec rank st wo c g p x gp :
  tree_ok rank st -> untraced st -> caller st c g -> procs st !! p = Some x -> tgid x = p -> tgid x <> 0 -> groups st !! p = Some gp ->
  ready p x gp = true -> flag (wo_flags wo) WEXITED = true -> flag (wo_flags wo) WNOWAIT = false ->
  returns (wait_task_zombie (st, wo) p) (fun '((st', wo'), pid) => pid = task_pid_vnr st p /\ reaped rank st wo c g p x gp st' wo').
Proof.
  intros HT HU (Hc & Hg & Hc0 & Hce) Hx Ex H0' Hgp [Hz Hone]%andb_true_iff Hw Hnw.
  apply Z.eqb_eq in Hz. apply bool_decide_eq_true_1 in Hone. destruct zombie_dead as (Z1 & Z2 & Z3).
  assert (exit_state x <> 0) as Hxe by congruence. destruct (tree_dead _ _ HT _ _ Hx Hxe) as [Hch Hex].
  assert (tgid c <> p) as Hcp.
  { intros E. rewrite E in Hg. assert (g = gp) as -> by congruence. destruct (tree_group _ _ HT _ _ Hc) as (g2 & Hg2 & Hin).
    rewrite E in Hg2. assert (g2 = gp) as -> by congruence. rewrite Hone in Hin. apply list_elem_of_singleton in Hin. congruence. }
  assert (current st <> p) as Hcur by congruence.
  unfold wait_task_zombie. accesses. rewrite Hw, Hnw, Hz, Z.eqb_refl. cbn [negb].
  destruct (tree_parent _ _ HT _ _ Hx) as [q Hq]. destruct (HU _ _ Hx) as [Hpt _].
  assert (procs st !! parent x = Some q) as Hq2 by (rewrite (tree_plain _ _ HT _ _ Hx Hpt); exact Hq).
  unfold ptrace_reparented. accesses. rewrite same_group_spec, (bool_decide_eq_true_2 (tgid q = tgid q) eq_refl). cbn [negb andb].
  rewrite leader_spec, (bool_decide_eq_true_2 (tgid x = p) Ex), Z.eqb_refl. cbn [andb]. fold (claimed st p x).
  assert (tree_ok rank (claimed st p x)) as HT1 by (apply exit_state_tree_ok; auto; intros; contradiction).
  unfold charge_parent. assert (groups (claimed st p x) !! tgid x = Some gp) as Hgp1 by (cbn; congruence).
  assert (procs (claimed st p x) !! current (claimed st p x) = Some c) as Hc1 by (cbn; rewrite lookup_insert_ne by congruence; exact Hc).
  assert (groups (claimed st p x) !! tgid c = Some g) as Hg1 by exact Hg. accesses.
  set (g2 := add_child_usage g _ _). set (st2 := set_group (claimed st p x) (tgid c) g2).
  assert (tree_ok rank st2) as HT2 by (apply (set_group_tree_ok rank (claimed st p x) (tgid c) g g2 HT1 Hg1); reflexivity).
  assert (procs st2 !! p = Some (set_exit_state x EXIT_DEAD)) as Hx2 by apply lookup_insert_eq.
  assert (groups st2 !! tgid (set_exit_state x EXIT_DEAD) = Some gp) as Hgp2 by (cbn; rewrite Ex, lookup_insert_ne by congruence; exact Hgp).
  rewrite (signal_ok st2 p _ _ Hx2 Hgp2). accesses. change (EXIT_DEAD =? EXIT_TRACE) with false. change (EXIT_DEAD =? EXIT_DEAD) with true.
  cbn beta iota. accesses. cbn beta iota. assert (untraced st2) as HU2.
  { intros r z. cbn. intros [[<- <-]|[_ Hr]]%lookup_insert_Some; [exact (HU _ _ Hx)|exact (HU _ _ Hr)]. }
  assert (releasable st2 p (set_exit_state x EXIT_DEAD)) as HR.
  { split; [exact Hx2|]. split; [exact Z2|]. split; [exact H0'|]. intros _. exists gp. split; [|exact Hone]. cbn in Hgp2. rewrite <- Ex at 1. exact Hgp2. }
  eapply returns_bind; [exact (release_task_spec rank st2 p _ HT2 HU2 HR)|]. intros st3 (HT3 & HU3 & gone & Hrel). apply returns_ok.
  assert (gone = [p]) as -> by (destruct Hrel as [|? ? ? ? (Hne & _)]; [reflexivity|destruct Hne; symmetry; exact Ex]).
  split; [reflexivity|]. split; [exact HT3|exact HU3|..].
  - intros r. rewrite (released_procs _ _ _ _ _ Hrel). unfold vanish. case_bool_decide as Er; [reflexivity|].
    rewrite list_elem_of_singleton in Er. cbn. rewrite lookup_insert_ne by congruence. reflexivity.
  - rewrite (released_groups _ _ _ _ _ _ Hrel) by (cbn; congruence). apply lookup_insert_eq.
  - intros l Hlp Hlc. rewrite (released_groups _ _ _ _ _ _ Hrel) by (cbn; congruence). cbn. apply lookup_insert_ne. congruence.
  - reflexivity.
Qed.
End Reap.
