(* ===== verification/ExitCalls.v ===== *)
(** The calls that end a task with a code (src/3/20193018_PLUS-1/exit.c):
    [exit], [exit_group], [make_task_dead] and [complete_and_exit], down to
    [do_exit] of Exit.v. *)

From S2P Require Import Prelude KHeaders ProcTree Family Wait.
From S2P Require Exit.
Local Open Scope Z_scope.

(** The wait status of a normal exit. *)
Definition exit_code_of (error_code : Z) : Z := Z.shiftl (Z.land error_code 255) 8.

(** What [do_exit] works on, apart from the code. *)
Definition Leaving : Type := Exit.Totals * Exit.Exiting * Exit.Cond.
Definition Left : Type := list Exit.Call * Exit.Totals * list Exit.Log * Exit.Ending.

Definition leave (e : Leaving) (code : Z) : Left := let '(g, t, c) := e in Exit.do_exit g t c code.

Definition sys_exit (e : Leaving) (error_code : Z) : Left := leave e (exit_code_of error_code).

(** The group is marked as exiting; the other flags go. *)
Definition start_group_exit (g : Group) (code : Z) : Group :=
  mkGroup (threads g) true false false code (pgrp g) (session g) (is_child_subreaper g) (has_child_subreaper g) (notify_count g)
    (group_exit_task g) (curr_target g) (nr_threads g) (g_usage g) (c_usage g) (maxrss g) (cmaxrss g).

Section GroupExit.
  Context `{Relatives} `{Pids}.

(** The code with which the current thread ends; [locked] is the state once the
    lock is held, which another thread may have changed. *)
Definition group_exit_agree (st locked : PS) (exit_code : Z) : res (PS * Z) :=
  if flag exit_code 128 then Undef
  else
    sig ← signal st (current st);
    if signal_group_exit sig then mret (st, group_exit_code sig)
    else if negb (thread_group_empty st (current st)) then
      c ← proc locked (current locked);
      sig ← group locked (tgid c);
      if signal_group_exit sig then mret (locked, group_exit_code sig)
      else mret (zap_other_threads (set_group locked (tgid c) (start_group_exit sig exit_code)) (current locked), exit_code)
    else mret (st, exit_code).

Definition do_group_exit (st locked : PS) (e : Leaving) (exit_code : Z) : res (PS * Left) :=
  '(st, code) ← group_exit_agree st locked exit_code; mret (st, leave e code).

Definition sys_exit_group (st locked : PS) (e : Leaving) (error_code : Z) : res (PS * Left) :=
  do_group_exit st locked e (exit_code_of error_code).
End GroupExit.

(** [oops_count] is an [int] counter that wraps, compared as an unsigned number;
    [None] stands for the panic. *)
Definition make_task_dead (oops_limit oops_count : Z) (e : Leaving) (signr : Z) : Z * option Left :=
  let count := wrap 32 (oops_count + 1) in
  (count, if (oops_limit <=? count mod 2 ^ 32) && negb (oops_limit =? 0) then None else Some (leave e signr)).

(** [comp] tells whether there is a completion, which is completed first. *)
Definition complete_and_exit (comp : bool) (e : Leaving) (code : Z) : bool * Left := (comp, leave e code).

(** * The codes *)

(** The parent decodes what the child gave. *)
Lemma exit_code_of_spec code : Z.land (exit_code_of code) 127 = 0 /\ Z.shiftr (exit_code_of code) 8 = code mod 256 /\
  flag (exit_code_of code) 128 = false.
Proof.
  unfold exit_code_of, flag. change 255 with (Z.ones 8). rewrite Z.land_ones by lia. change 127 with (Z.ones 7). rewrite Z.land_ones, Z.shiftl_mul_pow2 by lia.
  split; [|split].
  - rewrite (Z.mul_comm _ (2 ^ 8)). change (2 ^ 8) with (2 ^ 7 * 2). rewrite <- Z.mul_assoc, Z.mul_comm. apply Z.mod_mul. lia.
  - rewrite Z.shiftr_div_pow2 by lia. apply Z.div_mul. lia.
  - apply negb_false_iff, Z.eqb_eq, Z.bits_inj'. intros n Hn. rewrite Z.land_spec, Z.bits_0, <- Z.shiftl_mul_pow2 by lia.
    change 128 with (2 ^ 7). rewrite Z.pow2_bits_eqb by lia. destruct (Z.eqb_spec 7 n) as [<-|]; [|apply andb_false_r].
    rewrite Z.shiftl_spec_low by lia. reflexivity.
Qed.

Section Agreement.
  Context `{RelativesOk} `{Pids}.
  Context (exits_flag : forall g, group_exit g = true -> signal_group_exit g = true).
  Context (zap_groups : forall st p, groups (zap_other_threads st p) = groups st).

(** The first thread of several decides. *)
Lemma group_exit_first st c g error_code : procs st !! current st = Some c -> groups st !! tgid c = Some g -> signal_group_exit g = false ->
  threads g <> [current st] ->
  returns (group_exit_agree st st (exit_code_of error_code)) (fun '(st', code) => code = exit_code_of error_code /\
    groups st' !! tgid c = Some (start_group_exit g code)).
Proof.
  intros Hc Hg Hs Ht. unfold group_exit_agree. destruct (exit_code_of_spec error_code) as (_ & _ & ->). accesses.
  rewrite Hs, (empty_spec _ _ _ _ Hc Hg), (bool_decide_eq_false_2 _ Ht). cbn [negb].
  apply returns_ok. split; [reflexivity|]. rewrite zap_groups. apply lookup_insert_eq.
Qed.

(** Every later one ends with its code, whatever code it asks for. *)
Lemma group_exit_later st locked c g0 code error_code :
  procs st !! current st = Some c -> groups st !! tgid c = Some (start_group_exit g0 code) ->
  group_exit_agree st locked (exit_code_of error_code) = Ok (st, code).
Proof.
  intros Hc Hg. unfold group_exit_agree. destruct (exit_code_of_spec error_code) as (_ & _ & ->). accesses. rewrite (exits_flag (start_group_exit g0 code) eq_refl). reflexivity.
Qed.
End Agreement.
