(* ===== verification/Household.v ===== *)
(** Concrete instances of what exit.c takes from the rest of the kernel, and a
    small family of tasks to evaluate its definitions on: [init_task] (0), init
    (1), a service manager (7) that is a child subreaper, a shell (8) below it
    with a stopped child (9), a dead one (10) and a second thread (11) of the
    stopped child. *)

From S2P Require Import Prelude KHeaders ProcTree Family Release Wait Waiting.
Local Open Scope Z_scope.

(** The thread after [p] in its group, around the list. *)
Fixpoint next_in (first p : Z) (l : list Z) : Z :=
  match l with
  | [] => first
  | t :: l => if t =? p then match l with t' :: _ => t' | [] => first end else next_in first p l
  end.

(** No parent ignores [SIGCHLD], and there is no ptrace. *)
#[export] Instance kernel : Relatives := {
  thread_group_leader p x := bool_decide (tgid x = p);
  thread_group_empty st p :=
    match procs st !! p with
    | Some x => match groups st !! tgid x with Some g => bool_decide (threads g = [p]) | None => false end
    | None => false
    end;
  same_thread_group x y := bool_decide (tgid x = tgid y);
  next_thread g p := next_in (hd p (threads g)) p (threads g);
  SIGCHLD := 17;
  SIGHUP := 1;
  SIGCONT := 18;
  do_notify_parent _ _ _ := false;
  ptrace_unlink st _ := st;
  exit_ptrace st _ := (st, []);
  zap_pid_ns_processes st _ := st
}.

#[export] Instance kernel_ok : RelativesOk.
Proof. split; intros; cbn; try reflexivity. rewrite H, H0. reflexivity. Qed.

Definition pid_of_type (st : PS) (p : Z) (ty : pid_type) : option Z :=
  x ← procs st !! p;
  match ty with
  | PIDTYPE_PID => Some p
  | PIDTYPE_TGID => Some (tgid x)
  | PIDTYPE_PGID => Some (match groups st !! tgid x with Some g => pgrp g | None => 0 end)
  | PIDTYPE_SID => Some (match groups st !! tgid x with Some g => session g | None => 0 end)
  | PIDTYPE_MAX => None
  end.

(** One pid namespace; no signal is pending. *)
#[export] Instance pids : Pids := {
  task_pid_type := pid_of_type;
  pid_task st n ty :=
    x ← procs st !! n;
    match ty with PIDTYPE_PID => Some n | PIDTYPE_TGID => if bool_decide (tgid x = n) then Some n else None | _ => None end;
  pid_has_task st n ty := existsb (fun '(p, _) => bool_decide (pid_of_type st p ty = Some n)) (map_to_list (procs st));
  find_get_pid st n := match procs st !! n with Some _ => Some n | None => None end;
  pidfd_get_pid _ := inl (-9);
  task_pid_vnr st p := if p <=? 0 then 1 else p;
  signal_pending _ := false;
  signal_group_exit g := group_exit g;
  zap_other_threads st _ := st;
  thread_group_cputime_adjusted st p :=
    match procs st !! p with
    | Some x => match groups st !! tgid x with
                | Some g => (us_utime (usage x) + us_utime (g_usage g), us_stime (usage x) + us_stime (g_usage g))
                | None => (0, 0)
                end
    | None => (0, 0)
    end
}.

#[export] Instance pids_ok : PidsOk.
Proof.
  split; cbn; unfold pid_of_type.
  - intros st p ty [x ->] Hty. cbn. destruct ty; eauto. contradiction.
  - intros st p [x ->]. reflexivity.
  - intros st n ty p [x Hx] E. apply existsb_exists. exists (p, x). split; [|by apply bool_decide_eq_true_2].
    apply list_elem_of_In, elem_of_map_to_list, Hx.
  - intros st n p. destruct (procs st !! n) as [x|]; cbn; [|split; [discriminate|intros (_ & x & ? & _); discriminate]].
    case_bool_decide as E; split; [intros [= <-]; eauto|intros (-> & _); reflexivity|discriminate|intros (_ & x' & [= <-] & ?); contradiction].
  - intros st n p. destruct (procs st !! n) as [x|]; cbn; split; [intros [= <-]; eauto|intros (-> & _); reflexivity|discriminate|intros (_ & [? ?]); discriminate].
  - intros st p [x ->]. reflexivity.
  - intros st p _. destruct (Z.leb_spec p 0); lia.
Qed.

Definition task (tg rp es ec : Z) (ex : bool) (kids : list Z) : Proc :=
  mkProc tg rp rp false es ec 17 0 ex false false 1000 0 0 (mkUsage 5 2 0 1 0 3 1 0 0) kids [].

Definition group_of (ths : list Z) (stopped : bool) (pg sess : Z) (sub has_sub : bool) : Group :=
  mkGroup ths false stopped false 0 pg sess sub has_sub 0 0 0 (Z.of_nat (length ths)) no_usage (mkUsage 1 1 0 0 0 0 0 0 0) 100 50.

(** The state of the family; [cur] runs. *)
Definition household (cur : Z) : PS := mkPS
  (list_to_map [(0, task 0 0 0 0 false [1]); (1, task 1 0 0 0 false [7]); (7, task 7 1 0 0 false [8]); (8, task 8 7 0 0 true [9; 10]);
    (9, task 9 8 0 0 false []); (10, task 10 8 EXIT_ZOMBIE 1792 true []); (11, task 9 8 0 0 false [])])
  (list_to_map [(0, group_of [0] false 0 0 false false); (1, group_of [1] false 1 1 false false); (7, group_of [7] false 7 7 true false);
    (8, group_of [8] false 8 8 false true); (9, group_of [9; 11] true 9 8 false true); (10, group_of [10] false 10 8 false true)])
  (list_to_map [(0, 1)]) cur [].

(** A fact about every task of a concrete map is a fact about a list. *)
Lemma every_task (m : gmap Z Proc) (P : Z -> Proc -> Prop) :
  Forall (fun '(p, x) => P p x) (map_to_list m) -> forall p x, m !! p = Some x -> P p x.
Proof. intros HP p x Hx. rewrite Forall_forall in HP. apply (HP (p, x)). by apply elem_of_map_to_list. Qed.

Lemma every_group (m : gmap Z Group) (P : Z -> Group -> Prop) :
  Forall (fun '(p, x) => P p x) (map_to_list m) -> forall p x, m !! p = Some x -> P p x.
Proof. intros HP p x Hx. rewrite Forall_forall in HP. apply (HP (p, x)). by apply elem_of_map_to_list. Qed.

(** The tree invariant as a test. *)
Definition tree_test (rank : Z -> nat) (st : PS) : bool :=
  let ps := map_to_list (procs st) in
  forallb (fun '(p, x) =>
    match groups st !! tgid x with Some g => bool_decide (p ∈ threads g) | None => false end &&
    match procs st !! real_parent x with
    | Some y => bool_decide (tgid x = 0) || (rank (tgid y) <? rank (tgid x))%nat
    | None => false
    end &&
    negb (ptrace x) && bool_decide (parent x = real_parent x) && bool_decide (NoDup (children x)) &&
    bool_decide (list_to_set (children x) =@{gset Z}
      list_to_set ((filter (fun '(c, y) => c <> p /\ tgid y = c /\ real_parent y = p) ps).*1)) &&
    (bool_decide (exit_state x = 0) || bool_decide (children x = []) && exiting x) &&
    (negb (bool_decide (tgid x = 0)) || bool_decide (p = 0)) &&
    (negb (bool_decide (p = 0)) || bool_decide (tgid x = 0 /\ real_parent x = 0)) &&
    (negb (bool_decide (exit_state x = 0)) || bool_decide (tgid x = 0) ||
      match reapers st !! ns x with
      | Some r => match procs st !! r with
                  | Some y => bool_decide (exit_state y = 0 /\ ns y = ns x) && (rank (tgid y) <=? rank (tgid x))%nat
                  | None => false
                  end
      | None => false
      end)) ps &&
  forallb (fun '(l, g) => bool_decide (NoDup (threads g)) &&
    forallb (fun t => match procs st !! t, procs st !! l with
                      | Some x, Some y => bool_decide (tgid x = l /\ tgid y = l /\ real_parent x = real_parent y /\ ns x = ns y)
                      | _, _ => false
                      end) (threads g)) (map_to_list (groups st)).

(** Splits the conjunctions of a test that succeeded. *)
Ltac test_fields :=
  repeat match goal with
  | T : _ && _ = true |- _ => let T' := fresh "T" in apply andb_true_iff in T as [T T']
  end.

Lemma tree_test_ok rank st : tree_test rank st = true -> tree_ok rank st.
Proof.
  unfold tree_test. intros [Hp Hg]%andb_true_iff. rewrite forallb_forall in Hp, Hg.
  assert (forall p x, procs st !! p = Some x -> In (p, x) (map_to_list (procs st))) as inp by (intros; by apply list_elem_of_In, elem_of_map_to_list).
  assert (forall p x, groups st !! p = Some x -> In (p, x) (map_to_list (groups st))) as ing by (intros; by apply list_elem_of_In, elem_of_map_to_list).
  split.
  - intros p x Hx. specialize (Hp _ (inp p x Hx)). cbn in Hp. test_fields. destruct (groups st !! tgid x); [|discriminate].
    apply bool_decide_eq_true_1 in Hp. eauto.
  - intros l g t Hgl Ht. specialize (Hg _ (ing l g Hgl)). cbn in Hg. test_fields. rewrite forallb_forall in T.
    specialize (T t (proj1 (list_elem_of_In _ _) Ht)). destruct (procs st !! t) as [x|], (procs st !! l) as [y|]; try discriminate.
    apply bool_decide_eq_true_1 in T as (? & ? & ? & ?). eauto 10.
  - intros l g Hgl. specialize (Hg _ (ing l g Hgl)). cbn in Hg. test_fields. exact (bool_decide_eq_true_1 _ Hg).
  - intros p x Hx. specialize (Hp _ (inp p x Hx)). cbn in Hp. test_fields. destruct (procs st !! real_parent x); [eauto|discriminate].
  - intros p x Hx _. specialize (Hp _ (inp p x Hx)). cbn in Hp. test_fields. eapply bool_decide_eq_true_1; eassumption.
  - intros p x Hx Hpt. specialize (Hp _ (inp p x Hx)). cbn in Hp. rewrite Hpt in Hp. test_fields. discriminate.
  - intros p x c Hx. specialize (Hp _ (inp p x Hx)). cbn in Hp. test_fields.
    match goal with T : bool_decide (list_to_set _ = _) = true |- _ => apply bool_decide_eq_true_1 in T; rename T into Hset end.
    transitivity (c ∈ (list_to_set (children x) : gset Z)); [symmetry; apply elem_of_list_to_set|]. rewrite Hset, elem_of_list_to_set, list_elem_of_fmap.
    split.
    + intros ([c' y] & -> & [Hc Hin]%list_elem_of_filter). apply elem_of_map_to_list in Hin. cbn in *. destruct Hc as (? & ? & ?). eauto.
    + intros (Hc & y & Hy & Et & Erp). exists (c, y). split; [reflexivity|]. apply list_elem_of_filter. split; [auto|]. by apply elem_of_map_to_list.
  - intros p x Hx. specialize (Hp _ (inp p x Hx)). cbn in Hp. test_fields. eapply bool_decide_eq_true_1; eassumption.
  - intros p x Hx He. specialize (Hp _ (inp p x Hx)). cbn in Hp. rewrite (bool_decide_eq_false_2 (exit_state x = 0) He) in Hp. cbn [orb] in Hp.
    test_fields. split; [eapply bool_decide_eq_true_1; eassumption|assumption].
  - intros p x Hx Et. specialize (Hp _ (inp p x Hx)). cbn in Hp. rewrite (bool_decide_eq_true_2 (tgid x = 0) Et) in Hp. cbn [negb orb] in Hp.
    test_fields. eapply bool_decide_eq_true_1; eassumption.
  - intros x Hx. specialize (Hp _ (inp 0 x Hx)). cbn in Hp. test_fields. eapply bool_decide_eq_true_1; eassumption.
  - intros p x y Hx Hy Et. specialize (Hp _ (inp p x Hx)). cbn in Hp. rewrite Hy, (bool_decide_eq_false_2 (tgid x = 0) Et) in Hp. cbn [orb] in Hp.
    test_fields. by apply Nat.ltb_lt.
  - intros p x Hx He Et. specialize (Hp _ (inp p x Hx)). cbn in Hp.
    rewrite (bool_decide_eq_true_2 (exit_state x = 0) He), (bool_decide_eq_false_2 (tgid x = 0) Et) in Hp. cbn [negb orb] in Hp. test_fields.
    destruct (reapers st !! ns x) as [r|] eqn:Er; [|discriminate]. destruct (procs st !! r) as [y|] eqn:Ey; [|discriminate]. test_fields.
    exists r, y. repeat match goal with T : bool_decide (_ /\ _) = true |- _ => apply bool_decide_eq_true_1 in T as [? ?] end.
    repeat match goal with T : Nat.leb _ _ = true |- _ => apply Nat.leb_le in T end. auto 10.
Qed.

Lemma household_ok cur : tree_ok Z.to_nat (household cur).
Proof. apply tree_test_ok. vm_compute. reflexivity. Qed.

Lemma household_untraced cur : untraced (household cur).
Proof. intros p x. apply (every_task _ (fun _ x => ptrace x = false /\ ptraced x = [])). vm_compute. repeat constructor. Qed.

(** The shell ends: its children go to the service manager. *)
Example shell_ends : exists st, exit_notify (household 8) 8 true = Ok st /\
  (real_parent <$> procs st !! 9) = Some 7 /\ (real_parent <$> procs st !! 11) = Some 7 /\ (real_parent <$> procs st !! 10) = Some 7 /\
  (children <$> procs st !! 7) = Some [8; 9; 10] /\ (exit_state <$> procs st !! 8) = Some EXIT_ZOMBIE /\
  notes st = [KillPgrp 9 1; KillPgrp 9 18; Notify 10 17; Notify 8 17].
Proof. eexists. split; [vm_compute; reflexivity|]. repeat split; vm_compute; reflexivity. Qed.
