(* ===== verification/Mourning.v ===== *)
(** The theorems about the end of a task in src/3/20193018_PLUS-1/exit.c:
    orphaned process groups, the new parent of the children, the release of dead
    tasks, and [exit_notify] as a whole. *)

From S2P Require Import Prelude KHeaders ProcTree Family Reparent Release Wait Waiting Household.
Local Open Scope Z_scope.

(** When a task ends or loses its parent, its process group gets SIGHUP and
    then SIGCONT exactly when POSIX calls the group newly orphaned: its parent
    was in another group of the same session, no member has such a parent any
    more, and a member is stopped. Nothing else happens. *)
Theorem kill_orphaned_correct `{RelativesOk} st t x g father :
  linked st -> procs st !! t = Some x -> groups st !! tgid x = Some g ->
  (forall f, father = Some f -> is_Some (procs st !! f)) ->
  let par := match father with Some f => f | None => real_parent x end in
  let ignored := match father with Some _ => None | None => Some t end in
  returns (kill_orphaned_pgrp st t father) (fun st' =>
    (newly_orphaned st t par ignored /\ st' = note (note st (KillPgrp (pgrp g) SIGHUP)) (KillPgrp (pgrp g) SIGCONT)) \/
    (~ newly_orphaned st t par ignored /\ st' = st)).
Proof. apply kill_orphaned_pgrp_spec. Qed.

(** The stopped child when its threads already have their new parent. *)
Definition moved_child : PS := match reparent_threads 8 7 (household 8) [9; 11] with Ok st => st | _ => household 8 end.

Lemma moved_child_linked : linked moved_child.
Proof.
  intros p x. apply (every_task _ (fun _ x => is_Some (groups moved_child !! tgid x) /\ is_Some (procs moved_child !! real_parent x))).
  vm_compute. repeat constructor; eexists; reflexivity.
Qed.

Lemma kill_orphaned_correct_witness :
  returns (kill_orphaned_pgrp moved_child 9 (Some 8)) (fun st' =>
    newly_orphaned moved_child 9 8 None /\ st' = note (note moved_child (KillPgrp 9 1)) (KillPgrp 9 18) \/
    ~ newly_orphaned moved_child 9 8 None /\ st' = moved_child) /\
  (st ← kill_orphaned_pgrp moved_child 9 (Some 8); mret (notes st)) = Ok [KillPgrp 9 1; KillPgrp 9 18].
Proof.
  split; [|vm_compute; reflexivity].
  assert (forall f, Some 8 = Some f -> is_Some (procs moved_child !! f)) as Hf by (intros f [= <-]; eexists; reflexivity).
  exact (kill_orphaned_correct moved_child 9 (task 9 7 0 0 false []) (group_of [9; 11] true 9 8 false true) (Some 8)
    moved_child_linked eq_refl eq_refl Hf).
Defined.

(** [forget_original_parent] ends, whatever the shape of the family above the
    task: the walk to the next living child subreaper terminates; every child,
    with all its threads, gets as parent a living thread of the dying task's
    group, else of the nearest child subreaper in its pid namespace, else the
    namespace's reaper; no child is lost or duplicated, and the tree stays
    well-formed. *)
Theorem forget_correct `{RelativesOk} rank st f x :
  tree_ok rank st -> procs st !! f = Some x -> tgid x <> 0 -> exit_state x = 0 -> exiting x = true -> ptraced x = [] ->
  (reapers st !! ns x <> Some f \/ exists t, lives st f t) ->
  returns (forget_original_parent st f) (fun '(st', dead) => tree_ok rank st' /\ exists c r,
    next_reaper st f x c /\ reapers st' !! ns x = Some c /\ new_reaper st f c r /\ fit rank st f x r /\ forgotten st f x r st' dead).
Proof. apply forget_spec. Qed.

Definition shell : Proc := task 8 7 0 0 true [9; 10].

Lemma reaper_elsewhere : reapers (household 8) !! ns shell <> Some 8.
Proof. vm_compute. discriminate. Qed.

Lemma forget_correct_witness :
  returns (forget_original_parent (household 8) 8) (fun '(st', dead) => tree_ok Z.to_nat st' /\ exists c r,
    next_reaper (household 8) 8 shell c /\ reapers st' !! ns shell = Some c /\ new_reaper (household 8) 8 c r /\
    fit Z.to_nat (household 8) 8 shell r /\ forgotten (household 8) 8 shell r st' dead).
Proof.
  apply (forget_correct Z.to_nat (household 8) 8 shell (household_ok 8) eq_refl); [discriminate|reflexivity..|].
  left. exact reaper_elsewhere.
Defined.

(** C12: [release_task] ends after at most two turns: the task leaves the family
    and its group, to which its usage is added modulo 2^64; when it was the last
    thread and its zombie leader's parent ignores the leader, the leader goes the
    same way; nothing else changes, and the tree stays well-formed. *)
Theorem release_task_correct `{RelativesOk} rank st p x :
  tree_ok rank st -> untraced st -> releasable st p x ->
  returns (release_task st p) (fun st' => tree_ok rank st' /\ untraced st' /\ exists gone, released st p x st' gone).
Proof. apply release_task_spec. Qed.

Lemma release_task_correct_witness :
  releasable (household 8) 10 (task 10 8 EXIT_ZOMBIE 1792 true []) /\
  returns (release_task (household 8) 10) (fun st' => tree_ok Z.to_nat st' /\ untraced st' /\
    exists gone, released (household 8) 10 (task 10 8 EXIT_ZOMBIE 1792 true []) st' gone).
Proof.
  assert (releasable (household 8) 10 (task 10 8 EXIT_ZOMBIE 1792 true [])) as HR.
  { split; [reflexivity|]. split; [discriminate|]. split; [discriminate|]. intros _. eexists. split; reflexivity. }
  split; [exact HR|]. exact (release_task_correct Z.to_nat (household 8) 10 _ (household_ok 8) (household_untraced 8) HR).
Defined.

(** C11: A task that ends leaves a well-formed tree: each of its children now has
    the parent that [find_new_reaper] means to choose, the task is a zombie or
    released (always when it is not the leader of its group, never when it is a
    leader with other threads), and besides it only zombies are released; every
    other task keeps its group and its exit state, and its parent unless that
    was the task. *)
Theorem exit_notify_correct `{RelativesOk} rank st t x group_dead :
  tree_ok rank st -> untraced st -> procs st !! t = Some x -> tgid x <> 0 -> exit_state x = 0 -> exiting x = true ->
  (reapers st !! ns x <> Some t \/ exists t', lives st t t') ->
  returns (exit_notify st t group_dead) (fun st' => tree_ok rank st' /\ exists c r gone,
    next_reaper st t x c /\ new_reaper st t c r /\ departed st t x r gone st').
Proof. apply exit_notify_spec. Qed.

Lemma exit_notify_correct_witness :
  returns (exit_notify (household 8) 8 true) (fun st' => tree_ok Z.to_nat st' /\ exists c r gone,
    next_reaper (household 8) 8 shell c /\ new_reaper (household 8) 8 c r /\ departed (household 8) 8 shell r gone st') /\
  (st ← exit_notify (household 8) 8 true; mret (real_parent <$> procs st !! 9)) = Ok (Some 7).
Proof.
  split; [|vm_compute; reflexivity].
  apply (exit_notify_correct Z.to_nat (household 8) 8 shell true (household_ok 8) (household_untraced 8) eq_refl);
    [discriminate|reflexivity|reflexivity|]. left. exact reaper_elsewhere.
Defined.
