(* ===== verification/WaitTheorems.v ===== *)
(** The theorems about the wait calls of src/3/20193018_PLUS-1/exit.c: the
    shortcut for one pid, what [do_wait] returns and when it sleeps, and the exit
    code on its way from the child to the parent. *)

From S2P Require Import Prelude KHeaders ProcTree Family Reparent Release Wait Waiting Reap ExitCalls Household.
Local Open Scope Z_scope.

Section Outcomes.
  Context `{RelativesOk} `{PidsOk}.

(** A state in which the wait calls can be made. *)
Definition sound (st : PS) : Prop := (exists rank, tree_ok rank st) /\ untraced st /\ exists c g, caller st c g.

(** The children that [do_wait] looks at. *)
Definition looked (st : PS) (wo : wait_opts) : list Z :=
  match procs st !! current st with
  | Some c => match groups st !! tgid c with Some g => seen st wo g | None => [] end
  | None => []
  end.

Definition outlook (st : PS) (wo : wait_opts) : Outcome := no_news st wo (existsb (hopeful st wo) (looked st wo)).

(** There is nothing to report yet, and the caller sleeps. *)
Definition quiet (st : PS) (wo : wait_opts) : Prop := first_news st wo (looked st wo) = None /\ outlook st wo = Sleeping.

Lemma looked_seen st wo c g : caller st c g -> looked st wo = seen st wo g.
Proof. intros (Hc & Hg & _). unfold looked. rewrite Hc, Hg. reflexivity. Qed.

Lemma turn_none st wo : sound st -> first_news st wo (looked st wo) = None ->
  do_wait_turn (st, wo) = Ok ((st, set_notask wo (if existsb (hopeful st wo) (looked st wo) then 0 else - ECHILD)), outlook st wo).
Proof.
  intros ([rank HT] & HU & c & g & Hcal) Hn. pose proof (turn_first rank st wo c g HT HU Hcal) as Hf.
  rewrite (looked_seen st wo c g Hcal) in Hn |- *. unfold outlook. rewrite (looked_seen st wo c g Hcal). rewrite Hn in Hf. exact Hf.
Qed.

Lemma quiet_notask st wo v : quiet st (set_notask wo v) <-> quiet st wo.
Proof. unfold quiet. change (looked st (set_notask wo v)) with (looked st wo). rewrite first_notask. reflexivity. Qed.

(** Sleeping through the quiet states. *)
Lemma do_wait_skip pre : forall s0 wo wakes st post, s0 :: wakes = pre ++ st :: post ->
  (forall s, s ∈ pre -> sound s /\ quiet s wo) -> exists v, do_wait (s0, wo) wakes = do_wait (st, set_notask wo v) post.
Proof.
  induction pre as [|s pre IH]; intros s0 wo wakes st post E Hq.
  - injection E as -> ->. exists (notask_error wo). destruct wo. reflexivity.
  - injection E as -> E. destruct (Hq s (list_elem_of_here _ _)) as [Hs [Hn Ho]].
    destruct wakes as [|s1 wakes]; [destruct pre; discriminate|].
    cbn [do_wait]. rewrite (turn_none s wo Hs Hn), Ho. cbn [mbind res_bind snd].
    destruct (IH s1 (set_notask wo (if existsb (hopeful s wo) (looked s wo) then 0 else - ECHILD)) wakes st post E) as [v Hv].
    { intros q Hin. rewrite quiet_notask. apply Hq. by right. }
    exists v. exact Hv.
Qed.

Lemma first_news_in st wo l p n : first_news st wo l = Some (p, n) -> p ∈ l /\ news_of st wo p = Some n.
Proof.
  induction l as [|q l IH]; cbn; [discriminate|]. destruct (news_of st wo q) eqn:E; [intros [= <- <-]; split; [by left|exact E]|].
  intros Hf. destruct (IH Hf). split; [by right|assumption].
Qed.

(** A turn that finds a dead child first. *)
Lemma turn_exited rank st wo c g p : tree_ok rank st -> untraced st -> caller st c g ->
  first_news st wo (looked st wo) = Some (p, Exited) -> flag (wo_flags wo) WNOWAIT = false ->
  returns (do_wait_turn (st, wo)) (fun '((st', wo'), t) => t = Done (task_pid_vnr st p) /\
    exists x gp v, procs st !! p = Some x /\ groups st !! p = Some gp /\ reaped rank st (set_notask wo v) c g p x gp st' wo').
Proof.
  intros HT HU Hcal Hf Hnw. rewrite (looked_seen st wo c g Hcal) in Hf. pose proof (turn_first rank st wo c g HT HU Hcal) as Ht. rewrite Hf in Ht.
  destruct Ht as (v & x & gp & Hx & Hgp & Hin & Hn & ->). destruct (candidates_leaders rank st _ _ HT p Hin) as (x' & gp' & Hx' & Ex & Hgp').
  assert (x' = x) as -> by congruence. destruct (news_report st wo p Exited Hn) as (x'' & gp'' & ? & ? & _ & Hr & Hw).
  assert (x'' = x) as -> by congruence. assert (gp'' = gp) as -> by congruence. rewrite Ex in Hgp.
  apply (candidate_iff rank st c g _ p HT Hcal) in Hin as (x' & ? & _ & Hpar). assert (x' = x) as -> by congruence.
  assert (tgid x <> 0) as H0'.
  { intros E. pose proof (tree_init _ _ HT _ _ Hx E) as E0. rewrite E0 in Hx. destruct (tree_root _ _ HT _ Hx) as [_ Erp]. pose proof Hcal as (Hc & _ & Hc0 & _).
    destruct Hpar as [E1|(_ & z & Hz & Ez)]; [rewrite <- E1, Erp in Hc|rewrite Erp in Hz]; congruence. }
  cbn [report]. eapply returns_bind.
  { exact (wait_zombie_spec rank st (set_notask wo v) c g p x gp HT HU Hcal Hx Ex H0' Hgp Hr Hw Hnw). }
  intros [[st' wo'] pid] (-> & Hre). apply returns_ok. split; [reflexivity|]. exists x, gp, v. auto.
Qed.

Lemma do_wait_done s0 wo wakes s' r : do_wait_turn (s0, wo) = Ok (s', Done r) -> do_wait (s0, wo) wakes = Ok (s', Done r).
Proof. intros E. destruct wakes; cbn [do_wait]; rewrite E; reflexivity. Qed.
End Outcomes.

(** C13: Without tracers, the shortcut that [do_wait] takes for one pid
    ([do_wait_pid]: look the task up and ask whether it is a child) does exactly
    what the search through the children of all the caller's threads would do:
    the same result, the same changes, the same error. *)
Theorem do_wait_pid_scan `{RelativesOk} `{PidsOk} rank st wo c g n :
  tree_ok rank st -> untraced st -> caller st c g -> wo_type wo = PIDTYPE_PID -> wo_pid wo = Some n ->
  do_wait_pid (st, wo) = wait_threads (caller_threads st g) (st, wo).
Proof.
  intros HT HU Hcal Ety Epid. rewrite (do_wait_pid_list rank st wo c g n HT HU Hcal Ety Epid). symmetry.
  apply (wait_threads_list rank st (caller_threads st g) wo HT HU).
  intros t Ht. apply (caller_threads_spec rank st c g HT Hcal) in Ht as (z & ? & _). eauto.
Qed.

(** The manager waits for the shell, which is still alive; the shell for its
    dead child. *)
Definition for_pid (n : Z) : wait_opts := new_opts PIDTYPE_PID (Some n) WEXITED (Some (mkInfo 0 0 0 0)) true.

(** The shell has not begun to exit. *)
Definition at_work : PS := set_proc (household 8) 8 (task 8 7 0 0 false [9; 10]).

Lemma at_work_ok : tree_ok Z.to_nat at_work.
Proof. apply tree_test_ok. vm_compute. reflexivity. Qed.

Lemma at_work_untraced : untraced at_work.
Proof. intros p x. apply (every_task _ (fun _ x => ptrace x = false /\ ptraced x = [])). vm_compute. repeat constructor. Qed.

Definition busy_shell : Proc := task 8 7 0 0 false [9; 10].
Definition shell_group : Group := group_of [8] false 8 8 false true.

Lemma at_work_caller : caller at_work busy_shell shell_group.
Proof. split; [reflexivity|]. split; [reflexivity|]. split; [discriminate|reflexivity]. Qed.

Lemma do_wait_pid_scan_witness :
  do_wait_pid (at_work, for_pid 10) = wait_threads (caller_threads at_work shell_group) (at_work, for_pid 10) /\
  ('(s, ret) ← do_wait_pid (at_work, for_pid 10); mret (ret, wo_stat (snd s), procs (fst s) !! 10)) = Ok (10, 1792, None).
Proof.
  split; [|vm_compute; reflexivity].
  exact (do_wait_pid_scan Z.to_nat at_work (for_pid 10) busy_shell shell_group 10 at_work_ok at_work_untraced at_work_caller eq_refl eq_refl).
Defined.

(** C14: [do_wait] sleeps through the states in which there is nothing to report,
    and at the first wake-up that shows a dead child before any other news it
    returns that child: the zombie leaves the family, which stays a tree; the
    usage of its group, and of the children it had reaped, is added to the
    counters of the caller's group modulo 2^64; the options receive its pid, user
    and exit status; every other task and group is unchanged. *)
Theorem do_wait_reports `{RelativesOk} `{PidsOk} pre s0 wo wakes rank st post c g p :
  s0 :: wakes = pre ++ st :: post -> (forall s, s ∈ pre -> sound s /\ quiet s wo) ->
  tree_ok rank st -> untraced st -> caller st c g ->
  first_news st wo (looked st wo) = Some (p, Exited) -> flag (wo_flags wo) WNOWAIT = false ->
  returns (do_wait (s0, wo) wakes) (fun '((st', wo'), t) => t = Done (task_pid_vnr st p) /\
    exists x gp v, procs st !! p = Some x /\ groups st !! p = Some gp /\ reaped rank st (set_notask wo v) c g p x gp st' wo').
Proof.
  intros E Hq HT HU Hcal Hf Hnw. destruct (do_wait_skip pre s0 wo wakes st post E Hq) as [v ->].
  assert (first_news st (set_notask wo v) (looked st (set_notask wo v)) = Some (p, Exited)) as Hf'.
  { rewrite first_notask. exact Hf. }
  destruct (turn_exited rank st (set_notask wo v) c g p HT HU Hcal Hf' Hnw) as ([[st' wo'] t] & Et & -> & x & gp & w & Hx & Hgp & Hre).
  rewrite (do_wait_done st (set_notask wo v) post (st', wo') _ Et). apply returns_ok. split; [reflexivity|]. exists x, gp, w. auto.
Qed.

(** The second child of the shell is still alive at first. *)
Definition before_death : PS := set_proc at_work 10 (task 10 8 0 0 false []).

Lemma before_death_quiet : sound before_death /\ quiet before_death (for_pid 10).
Proof.
  split; [|split; vm_compute; reflexivity]. split; [exists Z.to_nat; apply tree_test_ok; vm_compute; reflexivity|].
  split; [intros p x; apply (every_task _ (fun _ x => ptrace x = false /\ ptraced x = [])); vm_compute; repeat constructor|].
  exists busy_shell, shell_group. split; [reflexivity|]. split; [reflexivity|]. split; [discriminate|reflexivity].
Qed.

Lemma do_wait_reports_witness :
  returns (do_wait (before_death, for_pid 10) [at_work]) (fun '((st', wo'), t) => t = Done (task_pid_vnr at_work 10) /\
    exists x gp v, procs at_work !! 10 = Some x /\ groups at_work !! 10 = Some gp /\
      reaped Z.to_nat at_work (set_notask (for_pid 10) v) busy_shell shell_group 10 x gp st' wo') /\
  ('(s, t) ← do_wait (before_death, for_pid 10) [at_work];
   mret (t, wo_info (snd s), us_utime ∘ c_usage <$> groups (fst s) !! 8)) = Ok (Done 10, Some (mkInfo 10 1000 7 CLD_EXITED), Some 7).
Proof.
  split; [|vm_compute; reflexivity].
  apply (do_wait_reports [before_death] before_death (for_pid 10) [at_work] Z.to_nat at_work [] busy_shell shell_group 10 eq_refl);
    [|exact at_work_ok|exact at_work_untraced|exact at_work_caller|vm_compute; reflexivity|reflexivity].
  intros s Hs. apply list_elem_of_singleton in Hs as ->. exact before_death_quiet.
Defined.

(** Without news [do_wait] changes nothing, and ends like this at the first
    state in which it need not sleep: -ECHILD exactly when no child could still
    bring news, 0 with WNOHANG, -ERESTARTSYS when a signal is pending; while all
    states are quiet it sleeps. *)
Theorem do_wait_no_news `{RelativesOk} `{PidsOk} pre s0 wo wakes st post :
  s0 :: wakes = pre ++ st :: post -> (forall s, s ∈ pre -> sound s /\ quiet s wo) ->
  sound st -> first_news st wo (looked st wo) = None -> (outlook st wo <> Sleeping \/ post = []) ->
  (do_wait (s0, wo) wakes =
    Ok ((st, set_notask wo (if existsb (hopeful st wo) (looked st wo) then 0 else - ECHILD)), outlook st wo)) /\
  (outlook st wo = Done (- ECHILD) <-> forall p, p ∈ looked st wo -> hopeful st wo p = false).
Proof.
  intros E Hq Hs Hn Hend. split.
  - destruct (do_wait_skip pre s0 wo wakes st post E Hq) as [v ->].
    assert (first_news st (set_notask wo v) (looked st (set_notask wo v)) = None) as Hn' by (rewrite first_notask; exact Hn).
    pose proof (turn_none st (set_notask wo v) Hs Hn') as Ht. change (outlook st (set_notask wo v)) with (outlook st wo) in Ht.
    destruct post as [|s1 post]; cbn [do_wait]; rewrite Ht, bind_ok; [destruct (outlook st wo); reflexivity|].
    destruct Hend as [Hend|]; [|discriminate]. destruct (outlook st wo); [reflexivity|contradiction].
  - unfold outlook, no_news. destruct (existsb (hopeful st wo) (looked st wo)) eqn:Eh.
    + split.
      * destruct (flag (wo_flags wo) WNOHANG); [discriminate|]. destruct (signal_pending st); discriminate.
      * intros Hall. apply existsb_exists in Eh as (p & Hp & Ep). rewrite (Hall p) in Ep; [discriminate|]. by apply list_elem_of_In.
    + split; [|reflexivity]. intros _ p Hp. destruct (hopeful st wo p) eqn:Ep; [|reflexivity].
      enough (existsb (hopeful st wo) (looked st wo) = true) by congruence. apply existsb_exists. exists p. split; [by apply list_elem_of_In|exact Ep].
Qed.

Lemma at_work_sound : sound at_work.
Proof.
  split; [exists Z.to_nat; exact at_work_ok|]. split; [exact at_work_untraced|]. exists busy_shell, shell_group. exact at_work_caller.
Qed.

(** The manager is no child of the shell. *)
Lemma do_wait_no_news_witness :
  (do_wait (at_work, for_pid 7) [] = Ok ((at_work, set_notask (for_pid 7)
      (if existsb (hopeful at_work (for_pid 7)) (looked at_work (for_pid 7)) then 0 else - ECHILD)), outlook at_work (for_pid 7)) /\
   (outlook at_work (for_pid 7) = Done (- ECHILD) <-> forall p, p ∈ looked at_work (for_pid 7) -> hopeful at_work (for_pid 7) p = false)) /\
  outlook at_work (for_pid 7) = Done (-10).
Proof.
  split; [|vm_compute; reflexivity].
  apply (do_wait_no_news [] at_work (for_pid 7) [] at_work [] eq_refl); [|exact at_work_sound|vm_compute; reflexivity|right; reflexivity].
  intros s Hs. by apply not_elem_of_nil in Hs.
Defined.

(** * The exit code *)

(** A dead child of the caller that reports with SIGCHLD. *)
Record dead_child `{Relatives} (st : PS) (p : Z) (x : Proc) (gp : Group) : Prop := {
  dc_pid : 0 < p;
  dc_task : procs st !! p = Some x;
  dc_leader : tgid x = p;
  dc_parent : real_parent x = current st;
  dc_group : groups st !! p = Some gp;
  dc_ready : ready p x gp = true;
  dc_signal : exit_signal x = SIGCHLD
}.

Section Codes.
  Context `{RelativesOk} `{PidsOk}.

Lemma dead_child_first rank st c g p x gp flags info ru : tree_ok rank st -> caller st c g -> dead_child st p x gp ->
  flag flags WEXITED = true -> flag flags __WCLONE = false ->
  first_news st (new_opts PIDTYPE_PID (Some p) flags info ru) (looked st (new_opts PIDTYPE_PID (Some p) flags info ru)) = Some (p, Exited).
Proof.
  intros HT Hcal [Hp Hx Ex Hpar Hgp Hr Hsig] Hw Hc. set (wo := new_opts _ _ _ _ _).
  assert (news_of st wo p = Some Exited) as Hn.
  { unfold news_of. rewrite Hx, Ex, Hgp, Hr. pose proof Hr as [Hz%Z.eqb_eq _]%andb_true_iff. unfold wanted, eligible_child.
    rewrite (eligible_pid_one st wo p p eq_refl eq_refl), (bool_decide_eq_true_2 (p = p) eq_refl) by eauto.
    change (wo_flags wo) with flags. rewrite Hz, Hsig, Z.eqb_refl, Hc, Hw. cbn. destruct (flag flags __WALL); reflexivity. }
  assert (p ∈ looked st wo) as Hin.
  { rewrite (looked_seen st wo c g Hcal). apply (candidate_iff rank st c g _ p HT Hcal). eauto. }
  clear - Hn Hin H2. induction (looked st wo) as [|q l IH]; [by apply not_elem_of_nil in Hin|]. cbn. destruct (decide (q = p)) as [->|Hq].
  - rewrite Hn. reflexivity.
  - destruct (other_pid st wo p q eq_refl eq_refl Hq) as [-> _]. apply IH. apply elem_of_cons in Hin as [|]; [congruence|assumption].
Qed.

Lemma zombie_info_stat wo pid uid status : wo_stat (zombie_info wo pid uid status) = wo_stat wo.
Proof. unfold zombie_info. destruct (_ =? _); reflexivity. Qed.

Lemma zombie_info_exited wo pid uid status i : Z.land status 127 = 0 -> wo_info wo = Some i ->
  wo_info (zombie_info wo pid uid status) = Some (mkInfo pid uid (Z.shiftr status 8) CLD_EXITED).
Proof. intros E Hi. unfold zombie_info. rewrite E. cbn. rewrite Hi. reflexivity. Qed.

(** Reaping one dead child by its pid. *)
Lemma reap_child rank st wakes c g p x gp flags info ru : tree_ok rank st -> untraced st -> caller st c g -> dead_child st p x gp ->
  flag flags WEXITED = true -> flag flags __WCLONE = false -> flag flags WNOWAIT = false ->
  returns (do_wait (st, new_opts PIDTYPE_PID (Some p) flags info ru) wakes) (fun '((st', wo'), t) => t = Done (task_pid_vnr st p) /\
    exists v, reaped rank st (set_notask (new_opts PIDTYPE_PID (Some p) flags info ru) v) c g p x gp st' wo').
Proof.
  intros HT HU Hcal Hd Hw Hc Hnw. pose proof (dead_child_first rank st c g p x gp flags info ru HT Hcal Hd Hw Hc) as Hf.
  destruct (turn_exited rank st _ c g p HT HU Hcal Hf Hnw) as ([[st' wo'] t] & Et & -> & x' & gp' & v & Hx & Hgp & Hre).
  rewrite (do_wait_done _ _ wakes _ _ Et). apply returns_ok. split; [reflexivity|]. exists v. destruct Hd.
  assert (x' = x) as -> by congruence. assert (gp' = gp) as -> by congruence. exact Hre.
Qed.

Lemma wait_target_pid st p : is_Some (procs st !! p) -> 0 < p -> wait4_target st p = (PIDTYPE_PID, Some p) /\
  waitid_target st P_PID p = inr (PIDTYPE_PID, Some p, false).
Proof.
  intros Hs Hp. unfold wait4_target, waitid_target. rewrite (find_pid st p Hs).
  destruct (Z.eqb_spec p (-1)), (Z.ltb_spec p 0), (Z.eqb_spec p 0), (Z.leb_spec p 0); try lia. auto.
Qed.

Lemma vanished m p : vanish [p] m p = None.
Proof. unfold vanish. rewrite bool_decide_eq_true_2 by by left. reflexivity. Qed.

Lemma wait4_dead_child rank st wakes c g p x gp : tree_ok rank st -> untraced st -> caller st c g -> dead_child st p x gp ->
  returns (sys_wait4 st wakes p (Some true) 0 None) (fun '(st', stat, t) =>
    t = Done (task_pid_vnr st p) /\ procs st' !! p = None /\ stat = Some (exit_status x gp)).
Proof.
  intros HT HU Hcal Hd. pose proof Hd as [Hp Hx _ _ _ _ _]. assert (is_Some (procs st !! p)) as Hs by eauto.
  pose proof (vnr_pos st p Hs) as Hpos. unfold sys_wait4, kernel_wait4. change (unknown_options 0 _) with false. cbv iota.
  replace (p =? INT_MIN) with false by (unfold INT_MIN; lia). destruct (wait_target_pid st p Hs Hp) as [-> _].
  destruct (reap_child rank st wakes c g p x gp (Z.lor 0 WEXITED) None false HT HU Hcal Hd eq_refl eq_refl eq_refl)
    as ([[st' wo'] t] & E & -> & v & Hre).
  change (bool_decide (@None bool <> None)) with false. rewrite E, bind_ok. cbn beta iota.
  apply Z.ltb_lt in Hpos. rewrite Hpos, bind_ok, Hpos. cbn [andb].
  replace (bool_decide (@None bool = Some false)) with false by reflexivity. apply returns_ok. split; [reflexivity|].
  destruct Hre as [_ _ Hpr _ _ ->]. split; [rewrite Hpr; apply vanished|]. rewrite zombie_info_stat. reflexivity.
Qed.

Lemma waitid_dead_child rank st wakes c g p x gp : tree_ok rank st -> untraced st -> caller st c g -> dead_child st p x gp ->
  Z.land (exit_status x gp) 127 = 0 ->
  returns (sys_waitid st wakes P_PID p (Some true) WEXITED None) (fun '(st', si, t) =>
    t = Done 0 /\ procs st' !! p = None /\
    si = Some (mkSiginfo SIGCHLD 0 CLD_EXITED (task_pid_vnr st p) (uid x) (Z.shiftr (exit_status x gp) 8))).
Proof.
  intros HT HU Hcal Hd Hlow. pose proof Hd as [Hp Hx _ _ _ _ _]. assert (is_Some (procs st !! p)) as Hs by eauto.
  pose proof (vnr_pos st p Hs) as Hpos. unfold sys_waitid, kernel_waitid. change (unknown_options WEXITED _) with false.
  change (flag WEXITED (any_of [WEXITED; WSTOPPED; WCONTINUED])) with true. cbn [negb]. cbv iota.
  destruct (wait_target_pid st p Hs Hp) as [_ ->].
  destruct (reap_child rank st wakes c g p x gp WEXITED (Some (mkInfo 0 0 0 0)) false HT HU Hcal Hd eq_refl eq_refl eq_refl)
    as ([[st' wo'] t] & E & -> & v & Hre).
  change (bool_decide (@None bool <> None)) with false. rewrite E, bind_ok. cbn beta iota.
  assert (0 <? task_pid_vnr st p = true) as Hpos' by by apply Z.ltb_lt.
  replace (match task_pid_vnr st p with 0 => _ | _ => _ end) with (Done (task_pid_vnr st p)) by (destruct (task_pid_vnr st p); [lia|reflexivity..]).
  rewrite bind_ok, Hpos'. cbn [andb]. change (bool_decide (@None bool = Some false)) with false. cbv iota.
  destruct Hre as [_ _ Hpr _ _ ->]. match goal with |- context [zombie_info ?w ?a ?b ?s] => rewrite (zombie_info_exited w a b s (mkInfo 0 0 0 0) Hlow eq_refl) end.
  apply returns_ok.
  split; [reflexivity|]. split; [rewrite Hpr; apply vanished|reflexivity].
Qed.
End Codes.

(** C15: A process that ended by [exit] or [exit_group] with some code reports that
    code modulo 256 to its parent, as a normal exit, through [wait4] (in the bits
    8 to 15 of the status, the others 0) and through [waitid] (in [si_status],
    with [CLD_EXITED]); either call returns its pid and removes it. *)
Theorem exit_wait_roundtrip `{RelativesOk} `{PidsOk} rank st wakes c g p x gp error_code :
  tree_ok rank st -> untraced st -> caller st c g -> dead_child st p x gp -> exit_status x gp = exit_code_of error_code ->
  returns (sys_wait4 st wakes p (Some true) 0 None) (fun '(st', stat, t) =>
    t = Done (task_pid_vnr st p) /\ procs st' !! p = None /\
    exists s, stat = Some s /\ Z.land s 127 = 0 /\ Z.shiftr s 8 = error_code mod 256) /\
  returns (sys_waitid st wakes P_PID p (Some true) WEXITED None) (fun '(st', si, t) =>
    t = Done 0 /\ procs st' !! p = None /\
    si = Some (mkSiginfo SIGCHLD 0 CLD_EXITED (task_pid_vnr st p) (uid x) (error_code mod 256))).
Proof.
  intros HT HU Hcal Hd E. destruct (exit_code_of_spec error_code) as (E1 & E2 & _). rewrite <- E in E1, E2. split.
  - eapply returns_mono; [exact (wait4_dead_child rank st wakes c g p x gp HT HU Hcal Hd)|].
    intros [[st' stat] t] (-> & Hp & ->). eauto 10.
  - eapply returns_mono; [exact (waitid_dead_child rank st wakes c g p x gp HT HU Hcal Hd E1)|].
    intros [[st' si] t] (-> & Hp & ->). rewrite E2. auto.
Qed.

Definition dead_task : Proc := task 10 8 EXIT_ZOMBIE 1792 true [].
Definition dead_group : Group := group_of [10] false 10 8 false true.

Lemma at_work_dead_child : dead_child at_work 10 dead_task dead_group.
Proof. split; reflexivity. Qed.

(** The child had called [exit(263)]. *)
Lemma exit_wait_roundtrip_witness :
  returns (sys_wait4 at_work [] 10 (Some true) 0 None) (fun '(st', stat, t) =>
    t = Done (task_pid_vnr at_work 10) /\ procs st' !! 10 = None /\ exists s, stat = Some s /\ Z.land s 127 = 0 /\ Z.shiftr s 8 = 263 mod 256) /\
  returns (sys_waitid at_work [] P_PID 10 (Some true) WEXITED None) (fun '(st', si, t) =>
    t = Done 0 /\ procs st' !! 10 = None /\
    si = Some (mkSiginfo SIGCHLD 0 CLD_EXITED (task_pid_vnr at_work 10) (uid dead_task) (263 mod 256))).
Proof.
  exact (exit_wait_roundtrip Z.to_nat at_work [] busy_shell shell_group 10 dead_task dead_group 263 at_work_ok at_work_untraced at_work_caller
    at_work_dead_child eq_refl).
Defined.

(** * WNOWAIT *)

Section Nowait.
  Context `{RelativesOk} `{PidsOk}.

Lemma peek_child rank st wakes c g p x gp flags info ru : tree_ok rank st -> untraced st -> caller st c g -> dead_child st p x gp ->
  flag flags WEXITED = true -> flag flags __WCLONE = false -> flag flags WNOWAIT = true ->
  exists v, do_wait (st, new_opts PIDTYPE_PID (Some p) flags info ru) wakes =
    Ok ((st, zombie_info (getrusage (set_notask (new_opts PIDTYPE_PID (Some p) flags info ru) v) p) (task_pid_vnr st p) (uid x) (exit_code x)),
      Done (task_pid_vnr st p)).
Proof.
  intros HT HU Hcal Hd Hw Hc Hnw. pose proof (dead_child_first rank st c g p x gp flags info ru HT Hcal Hd Hw Hc) as Hf.
  set (wo := new_opts _ _ _ _ _) in *. rewrite (looked_seen st wo c g Hcal) in Hf. pose proof (turn_first rank st wo c g HT HU Hcal) as Ht.
  rewrite Hf in Ht. destruct Ht as (v & x' & gp' & Hx & _ & _ & _ & E). destruct Hd as [_ Hx' _ _ _ _ _].
  assert (x' = x) as -> by congruence. exists v. apply do_wait_done. rewrite E. cbn [report]. unfold wait_task_zombie. accesses.
  change (wo_flags (set_notask wo v)) with flags. rewrite Hw, Hnw. reflexivity.
Qed.
End Nowait.

(** With WNOWAIT the status is the exit code of the leader, without it that
    of the process: for a process whose leader ended by itself with [a] before
    another thread called [exit_group(b)], [waitid] reports [a] as long as the
    zombie is only looked at, and [b] when it is reaped. *)
Theorem nowait_reports_leader `{RelativesOk} `{PidsOk} rank st wakes c g p x gp a b :
  tree_ok rank st -> untraced st -> caller st c g -> dead_child st p x gp ->
  exit_code x = exit_code_of a -> group_exit gp = true -> group_exit_code gp = exit_code_of b ->
  sys_waitid st wakes P_PID p (Some true) (Z.lor WEXITED WNOWAIT) None =
    Ok (st, Some (mkSiginfo SIGCHLD 0 CLD_EXITED (task_pid_vnr st p) (uid x) (a mod 256)), Done 0) /\
  returns (sys_waitid st wakes P_PID p (Some true) WEXITED None) (fun '(st', si, t) => t = Done 0 /\
    si = Some (mkSiginfo SIGCHLD 0 CLD_EXITED (task_pid_vnr st p) (uid x) (b mod 256))).
Proof.
  intros HT HU Hcal Hd Ea Eg Eb. pose proof Hd as [Hp Hx _ _ _ _ _]. assert (is_Some (procs st !! p)) as Hs by eauto. split.
  - destruct (exit_code_of_spec a) as (E1 & E2 & _). rewrite <- Ea in E1, E2. pose proof (vnr_pos st p Hs) as Hpos. unfold sys_waitid, kernel_waitid.
    change (unknown_options (Z.lor WEXITED WNOWAIT) _) with false. change (flag (Z.lor WEXITED WNOWAIT) (any_of [WEXITED; WSTOPPED; WCONTINUED])) with true.
    cbn [negb]. cbv iota. destruct (wait_target_pid st p Hs Hp) as [_ ->].
    destruct (peek_child rank st wakes c g p x gp (Z.lor WEXITED WNOWAIT) (Some (mkInfo 0 0 0 0)) false HT HU Hcal Hd eq_refl eq_refl eq_refl) as [v E].
    change (bool_decide (@None bool <> None)) with false. rewrite E, bind_ok. cbn beta iota.
    assert (0 <? task_pid_vnr st p = true) as Hpos' by by apply Z.ltb_lt.
    replace (match task_pid_vnr st p with 0 => _ | _ => _ end) with (Done (task_pid_vnr st p)) by (destruct (task_pid_vnr st p); [lia|reflexivity..]).
    rewrite bind_ok, Hpos'. cbn [andb]. change (bool_decide (@None bool = Some false)) with false. cbv iota.
    match goal with |- context [zombie_info ?w ?i ?u ?s] => rewrite (zombie_info_exited w i u s (mkInfo 0 0 0 0) E1 eq_refl) end.
    rewrite E2. reflexivity.
  - destruct (exit_code_of_spec b) as (E1 & E2 & _). rewrite <- Eb in E1, E2.
    assert (exit_status x gp = group_exit_code gp) as Es by (unfold exit_status; rewrite Eg; reflexivity). rewrite <- Es in E1, E2.
    eapply returns_mono; [exact (waitid_dead_child rank st wakes c g p x gp HT HU Hcal Hd E1)|].
    intros [[st' si] t] (-> & _ & ->). rewrite E2. auto.
Qed.

(** The same child, after another of its threads called [exit_group(1)]. *)
Definition group_gone : Group := start_group_exit dead_group (exit_code_of 1).
Definition after_group_exit : PS := set_group at_work 10 group_gone.

Lemma after_group_exit_ok : tree_ok Z.to_nat after_group_exit.
Proof. apply tree_test_ok. vm_compute. reflexivity. Qed.

Lemma nowait_reports_leader_witness :
  sys_waitid after_group_exit [] P_PID 10 (Some true) (Z.lor WEXITED WNOWAIT) None =
    Ok (after_group_exit, Some (mkSiginfo SIGCHLD 0 CLD_EXITED (task_pid_vnr after_group_exit 10) (uid dead_task) (7 mod 256)), Done 0) /\
  returns (sys_waitid after_group_exit [] P_PID 10 (Some true) WEXITED None) (fun '(st', si, t) => t = Done 0 /\
    si = Some (mkSiginfo SIGCHLD 0 CLD_EXITED (task_pid_vnr after_group_exit 10) (uid dead_task) (1 mod 256))).
Proof.
  assert (caller after_group_exit busy_shell shell_group) as Hcal by (split; [reflexivity|]; split; [reflexivity|]; split; [discriminate|reflexivity]).
  assert (dead_child after_group_exit 10 dead_task group_gone) as Hd by (split; reflexivity).
  exact (nowait_reports_leader Z.to_nat after_group_exit [] busy_shell shell_group 10 dead_task group_gone 7 1 after_group_exit_ok at_work_untraced Hcal Hd
    eq_refl eq_refl eq_refl).
Defined.
